(* ===== verification/_CoqProject ===== *)
-Q . S2P
Prelude.v
Bytes.v
OrdMap.v
MemoryPool.v
Snapshot.v
Timer.v
TimerFiring.v
TimerBatch.v
TimerSnapshot.v
TimerLiveness.v
OrderedState.v
OrderedWrites.v
KeyedState.v
Restore.v
BatchWriter.v
HashState.v
HashTableSpec.v
HashStateSpec.v
HashWrites.v
HashBackend.v
StateFixtures.v
HashFixtures.v
KeyGroup.v
Arrow.v
Envelope.v
BinaryRow.v
BinaryRowSafe.v
BinaryRowLayout.v
Routing.v
RoutingSpec.v
Framing.v
FramingSpec.v
ArrowFixture.v
ExchangePlan.v
ManagedRouting.v
ManagedRoutingSpec.v
ExchangeFixtures.v
Deduplicate.v
DeduplicateStaging.v
DeduplicateWinners.v
DeduplicateBatch.v
DeduplicateSelect.v
DeduplicateMeaning.v
RegularJoin.v
JoinCursor.v
JoinView.v
JoinCodec.v
JoinPages.v
JoinCodecSpec.v
JoinPagesSpec.v
EntryIdsSpec.v
RowEntriesSpec.v
JoinFixtures.v
Decimal.v
DecimalSpec.v
DecimalFixture.v
Aggregate.v
AggregateSpec.v
AggregateRuns.v
AggregateMerge.v
AggregateChanges.v
Sessions.v
SessionsSpec.v
SessionChangesSpec.v
AggregateCodec.v
AggregateCodecSpec.v
AggregateFixtures.v
TopNCompare.v
TopNOrder.v
TopN.v
TopNChangelog.v
TopNRows.v
TopNSpec.v
TopNKeys.v
TopNKernels.v
TopNAppend.v
TopNFixtures.v
ChangelogNormalize.v
ChangelogNormalizeSpec.v
DeduplicateFixtures.v
