(* ===== verification/Prelude.v ===== *)
(** * StreamFusion: a verification library for the native (Rust) runtime

    StreamFusion runs Flink SQL plans in a native engine. The JVM hands the
    engine Arrow batches and a memory budget; the engine routes rows between
    subtasks (the exchange), keeps keyed state and timers that checkpoints can
    move to other subtasks, and runs stateful operators on them. This library
    models the parts of the Rust crates [streamfusion-native] and
    [streamfusion-state-abi] that carry that logic as Gallina functions, written
    after the sources, and proves what makes them correct.

    ** How programs are modelled

    - A Rust function that may fail returns [outcome]: [Ok], [Err] or [Panic].
      A method that mutates its receiver is a computation [M S A := S -> outcome A
      * S]; the state it returns with an error holds whatever was assigned before
      the error, as in the source. Absence of panics is a theorem, not a
      convention: slicing, indexing, [unwrap] and [unreachable!] are [Panic].
    - Integers are [Z]. The width is written out where the source relies on it:
      [wrapu], [wraps] for wrapping arithmetic and casts, [sat_*], [checked_*]
      for the methods of those names; [usize] has 64 bits and [+], [-] on it wrap,
      as in the release profile the project ships. Floats are bit patterns with
      IEEE arithmetic.
    - [Vec<u8>] keeps its capacity, because the sources charge capacity to the
      memory budget. [BTreeMap] and [BTreeSet] are strictly increasing lists
      ([OrdMap]).
    - Code outside the repository enters as a class of operations with a class of
      laws that states its documented behaviour: the memory broker
      ([MemoryPool.Broker]), a state backend ([KeyedState]), Arrow arrays and
      batches ([Arrow]), Arrow IPC ([Framing]), 256-bit and arbitrary-precision
      integers ([Decimal]), hash tables and hashers ([HashState]), Arrow's row
      converter and DataFusion's window kernel ([Deduplicate], with their laws in
      [DeduplicateBatch] and [DeduplicateWinners]). The fixtures give a concrete
      instance of each and run the theorems on it.

    ** The files

    Foundations.
    - [Prelude]: integers, [outcome], the state monad and its loops, automation.
    - [Bytes]: byte vectors, little- and big-endian codecs, the bounded reader
      [SnapshotInput] ([streamfusion-state-abi/src/lib.rs] and the [Reader]s of
      the codecs).
    - [OrdMap]: ordered maps and sets over an arbitrary total preorder.

    Memory ([memory_pool.rs]).
    - [MemoryPool]: reservations, pools and the broker they share.
      [run_accounted]: along any sequence of operations the broker has lent
      exactly what reservations and pools hold.

    Snapshots ([streamfusion-state-abi]).
    - [Snapshot]: the canonical key-group format, its encoder, incremental
      writer, validator and readers. The format is a bijection between entry
      lists and the bytes [validate] accepts.

    Timers ([state/timer.rs], [state/timer/batch.rs]).
    - [Timer]: the service; [TimerFiring]: firing by watermark or clock fires
      exactly the due timers in order, in chunks of any size; [TimerBatch]: batch
      registration and credit transfer; [TimerSnapshot]: snapshots restore the same
      timers, and the accounting invariant along every run, restores of arbitrary
      bytes included (a snapshot that lists a timer twice excepted, where the source
      breaks it); [TimerLiveness]: no due timer starves.

    Keyed state ([state/]).
    - [OrderedState], [OrderedWrites]: the B-tree backend, its atomic writes and
      its paged range reads. [KeyedState]: the trait and its clients (canonical
      restore, checkpoint import, buffered writes, streams). [Restore]: the laws
      of the trait, the B-tree instance, snapshot and restore against the laws.
      [BatchWriter]: buffering is invisible after [finish]. [StateFixtures]:
      witnesses.
    - [HashState]: the hashed backend ([state/memory.rs], [table.rs], [entry.rs]).
      [HashTableSpec]: a sharded key group is a map. [HashStateSpec],
      [HashWrites]: what a batch may need, and that it is admitted before it is
      applied. How large the library makes a table is not assumed: the theorems
      carry the case [underestimated], and only the instance of the trait excludes
      it ([GrowthEstimate]). [HashBackend]: that instance, and the same snapshots as
      the B-tree backend. [HashFixtures]: witnesses.

    Exchange ([exchange/]).
    - [KeyGroup]: hashing and the channel intervals. [Arrow]: the interface of
      arrays. [BinaryRow], [BinaryRowSafe], [BinaryRowLayout]: Flink's binary
      keys, their safety, and their layout read back. [Routing], [RoutingSpec]:
      both routers against a row-by-row reference. [Framing], [FramingSpec]:
      every destination receives its rows, in order. [ExchangePlan]: validation
      and lowering of the plan. [ManagedRouting], [ManagedRoutingSpec]: admission
      against the budget. [ArrowFixture], [ExchangeFixtures]: witnesses.

    The regular join ([operators/regular_join]).
    - [RegularJoin]: the transition of one change, in one pass and as a resumable
      cursor. [JoinCursor]: bounded pulls compute the one-pass transition and
      terminate. [JoinView]: the emitted changelog maintains the relational join,
      for all join types, along any interleaving of both inputs. [JoinCodec],
      [JoinCodecSpec]: the one-value state format. [JoinPages], [JoinPagesSpec],
      [EntryIdsSpec], [RowEntriesSpec]: the paged formats and their directories.
      [JoinFixtures]: witnesses.

    Decimals ([planner/expressions/decimal.rs]).
    - [Decimal], [DecimalSpec], [DecimalFixture]: the fast and the fallback
      division and the cast compute one reference rounding.

    Aggregates ([operators/group_aggregate]).
    - [Aggregate]: accumulators and their values. [AggregateSpec]: what an
      accumulator stands for, and the application of one row. [AggregateRuns]:
      results. [AggregateMerge]: merging. [AggregateChanges]: a state reached by
      any legal changelog, or merged from two, holds the SQL aggregates of the
      live rows. [AggregateCodec], [AggregateCodecSpec]: the persistent form, its
      round trip and total decoding. [AggregateFixtures]:
      witnesses, also of the sessions.

    Session windows ([operators/window_aggregate]).
    - [Sessions]: the namespace assignments of the shared execution
      ([shared_sessions/assignments.rs]) and the session changes that carry
      aggregates ([session_changes.rs]). [SessionsSpec]: namespaces are the
      connected components of the windows. [SessionChangesSpec]: session
      changes follow a reference on intervals and events, sessions hold the
      aggregates of their events, and the two implementations agree.

    Top-N ([operators/top_n]).
    - [TopNCompare]: comparison and equality of Arrow rows. [TopNOrder]: they are
      the order and equality of keys. [TopN]: plans, candidates and the row loop.
      [TopNChangelog], [TopNRows]: the emitted changelog is the difference of what
      a group shows, and a bare LIMIT passes the rows of its ranks. [TopNSpec]: a group shows the requested ranks of its live
      rows, for any ranking ([RanksBy]); [TopNKeys] ranks Arrow rows by their
      keys. [TopNKernels], [TopNAppend]: the DataFusion paths, and that retaining
      by priority is sorted insertion. [TopNFixtures]: witnesses.

    Deduplication ([operators/deduplicate], [operators/envelope]).
    - [Envelope]: the metadata columns of a batch. [Deduplicate]: the operator in
      all its modes. [DeduplicateStaging]: staged rows are a view of the state, and
      the write batch writes that view; what one row does, and that the loops do
      it. [DeduplicateWinners]: the marks of the window kernel are the winners row
      by row. [DeduplicateBatch], [DeduplicateSelect]: a batch against any lawful
      state is its rows one after another, memory included. [DeduplicateMeaning]: the winner by timestamp,
      and the output as a changelog of the stored rows. [DeduplicateFixtures]:
      witnesses, also of the normalisation.

    Changelog normalisation ([operators/changelog_normalize.rs]).
    - [ChangelogNormalize]: the operator, from the construction of the processor
      to the output batch: schema, keys, decoded values with their expiry, the row
      loop, the write batch and the scratch memory. [ChangelogNormalizeSpec]: a
      batch is its rows one after another against any lawful state, and its output
      is a changelog of the rows that have not expired.

    ** Bounds and fuel

    Recursions that are not structural take fuel, and a lemma shows that the fuel
    the callers pass is enough: the decoders of [Bytes] and [JoinCodec] take the
    number of remaining bytes or announced entries, the drains of [JoinCursor] one
    pull more than the change has output rows. The loops of the timer service
    and of the range visits take the size of the container they walk. Theorems that
    need a bound say so: counters and row counts below the width of their
    integer, buffers below [isize::MAX], and at least two rows of room per pull
    of the join cursor, without which the source itself makes no progress.

    ** Not modelled

    The JNI bridge, execution contexts and the Arrow C data interface (foreign
    interfaces and concurrency of the host); RocksDB and spilled files (external
    storage and I/O); DataFusion plans and kernels, and the operators that are
    batch loops around them (calc, sorting, OVER, interval and temporal joins,
    windows, ranking and deduplication other than the parts above); the gathering
    of output columns from a selection; protobuf decoding
    ([prost]). For aggregates, the theorems on SUM and AVG are about the integer
    types: float sums depend on the order of rows, and DECIMAL sums restart after
    an overflow ([AggregateFixtures.decimal_sum_merge_differs]); DISTINCT SUM0 is
    excluded too ([AggregateFixtures.distinct_sum0_of_nulls]). For Top-N, the ranks
    of live rows are a theorem of the append-fast and retract strategies: an
    update-fast group that has dropped a row beyond its last rank does not get it
    back. The admission of output rows of Top-N is not modelled. *)

From Stdlib Require Import ZArith Lia Strings.Byte.
From stdpp Require Export base list option numbers strings sorting.

Declare Scope sf_scope.
Delimit Scope sf_scope with sf.
#[global] Open Scope Z_scope.

(** The hint database of the development: facts on machine integers, bytes and
    codecs that close the routine side conditions. *)
Create HintDb sf discriminated.
(** Rewriting of lengths to sums. *)
Create Rewrite HintDb sf_len.

(** ** Machine integers

    An unsigned [w]-bit integer is a [Z] in [0, 2^w); [usize] has 64 bits. *)

Definition U8_MAX : Z := 2 ^ 8 - 1.
Definition U32_MAX : Z := 2 ^ 32 - 1.
Definition U64_MAX : Z := 2 ^ 64 - 1.
Definition USIZE_MAX : Z := 2 ^ 64 - 1.
Definition I32_MIN : Z := - 2 ^ 31.
Definition I32_MAX : Z := 2 ^ 31 - 1.
Definition I64_MIN : Z := - 2 ^ 63.
Definition I64_MAX : Z := 2 ^ 63 - 1.

Definition is_u32 (z : Z) : Prop := 0 <= z <= U32_MAX.
Definition is_u64 (z : Z) : Prop := 0 <= z <= U64_MAX.
Definition is_usize (z : Z) : Prop := 0 <= z <= USIZE_MAX.
Definition is_i32 (z : Z) : Prop := I32_MIN <= z <= I32_MAX.
Definition is_i64 (z : Z) : Prop := I64_MIN <= z <= I64_MAX.

(** [usize::saturating_add], [saturating_sub], [saturating_mul]. *)
Definition sat_add (a b : Z) : Z := Z.min (a + b) USIZE_MAX.
Definition sat_sub (a b : Z) : Z := Z.max (a - b) 0.
Definition sat_mul (a b : Z) : Z := Z.min (a * b) USIZE_MAX.
(** [usize::checked_add], [checked_mul], [checked_sub]. *)
Definition checked_add (a b : Z) : option Z :=
  if a + b <=? USIZE_MAX then Some (a + b) else None.
Definition checked_mul (a b : Z) : option Z :=
  if a * b <=? USIZE_MAX then Some (a * b) else None.
Definition checked_sub (a b : Z) : option Z :=
  if b <=? a then Some (a - b) else None.
(** [i64::checked_add] and [i64::saturating_add]. *)
Definition i64_checked_add (a b : Z) : option Z :=
  if (I64_MIN <=? a + b) && (a + b <=? I64_MAX) then Some (a + b) else None.
Definition i64_sat (z : Z) : Z := Z.max I64_MIN (Z.min z I64_MAX).

(** Two's complement: the unsigned and the signed reading of a value modulo
    [2^w] (Rust's [as] casts and [wrapping_*] operations). *)
Definition wrapu (w z : Z) : Z := z mod 2 ^ w.
Definition wraps (w z : Z) : Z := (z + 2 ^ (w - 1)) mod 2 ^ w - 2 ^ (w - 1).

(** Unfold every bound before calling [lia]. *)
Ltac unfold_bounds :=
  unfold is_u32, is_u64, is_usize, is_i32, is_i64, U8_MAX, U32_MAX, U64_MAX,
    USIZE_MAX, I32_MIN, I32_MAX, I64_MIN, I64_MAX in *.
Ltac mlia := unfold sat_add, sat_sub, sat_mul in *; unfold_bounds; lia.
(** Case analysis on the boolean comparisons of the source's conditions. *)
Ltac case_bool :=
  repeat match goal with
  | |- context [ (?a <=? ?b)%Z ] => destruct (Z.leb_spec a b)
  | |- context [ (?a <? ?b)%Z ] => destruct (Z.ltb_spec a b)
  | |- context [ (?a =? ?b)%Z ] => destruct (Z.eqb_spec a b)
  | H : context [ (?a <=? ?b)%Z ] |- _ => destruct (Z.leb_spec a b)
  | H : context [ (?a <? ?b)%Z ] |- _ => destruct (Z.ltb_spec a b)
  | H : context [ (?a =? ?b)%Z ] |- _ => destruct (Z.eqb_spec a b)
  end.

Lemma checked_add_small a b : a + b <= USIZE_MAX -> checked_add a b = Some (a + b).
Proof. intros. unfold checked_add. by rewrite (proj2 (Z.leb_le _ _)). Qed.
Lemma checked_add_Some a b c : checked_add a b = Some c -> c = a + b /\ c <= USIZE_MAX.
Proof. unfold checked_add. case_bool; intros; by simplify_eq. Qed.

Lemma wrapu_range w z : 0 <= w -> 0 <= wrapu w z < 2 ^ w.
Proof. intros. apply Z.mod_pos_bound. lia. Qed.

Lemma wraps_range w z : 0 < w -> - 2 ^ (w - 1) <= wraps w z < 2 ^ (w - 1).
Proof.
  intros. unfold wraps.
  pose proof (Z.mod_pos_bound (z + 2 ^ (w - 1)) (2 ^ w) ltac:(lia)).
  replace (2 ^ w) with (2 * 2 ^ (w - 1)) in *
    by (rewrite <- Z.pow_succ_r by lia; f_equal; lia).
  lia.
Qed.

Lemma wraps_id w z : 0 < w -> - 2 ^ (w - 1) <= z < 2 ^ (w - 1) -> wraps w z = z.
Proof.
  intros. unfold wraps. rewrite Z.mod_small; [lia|].
  replace (2 ^ w) with (2 * 2 ^ (w - 1))
    by (rewrite <- Z.pow_succ_r by lia; f_equal; lia).
  lia.
Qed.

Lemma wraps_wrapu w z : 0 < w -> wraps w (wrapu w z) = wraps w z.
Proof.
  intros. unfold wraps, wrapu. f_equal. by rewrite Zplus_mod_idemp_l.
Qed.

(** ** Results

    A Rust computation returns [Ok], returns [Err] or panics. [DataFusionError]
    keeps the variants the sources build, with the literal text of the message;
    the values interpolated by [format!] are left out. *)

Inductive error : Type :=
  | Execution (msg : string)
  | ResourcesExhausted (msg : string)
  | Internal (msg : string)
  | Plan (msg : string)
  | External (msg : string)
  | SnapshotError (msg : string)
  | InvalidArgument (msg : string)
  | CastError (msg : string)
  | SchemaError (msg : string)
  | NotYetImplemented (msg : string)
  | MemoryError (msg : string)
  | ParseError (msg : string).

Inductive outcome (A : Type) : Type :=
  | Ok (a : A)
  | Err (e : error)
  | Panic.
Arguments Ok {A} a.
Arguments Err {A} e.
Arguments Panic {A}.

#[global] Instance outcome_ret : MRet outcome := fun A a => Ok a.
#[global] Instance outcome_bind : MBind outcome := fun A B f m =>
  match m with Ok a => f a | Err e => Err e | Panic => Panic end.
#[global] Instance outcome_fmap : FMap outcome := fun A B f m =>
  match m with Ok a => Ok (f a) | Err e => Err e | Panic => Panic end.

(** [Option::ok_or_else] and [Option::expect]. *)
Definition ok_or {A} (e : error) (o : option A) : outcome A :=
  match o with Some a => Ok a | None => Err e end.
Definition expect {A} (o : outcome A) : outcome A :=
  match o with Ok a => Ok a | _ => Panic end.
(** [Result::map_err(|error| Execution(error.to_string()))]. *)
Definition error_text (e : error) : string :=
  match e with
  | Execution m | ResourcesExhausted m | Internal m | Plan m | External m
  | SnapshotError m | InvalidArgument m | CastError m | SchemaError m
  | NotYetImplemented m | MemoryError m | ParseError m => m
  end.
Definition to_execution {A} (o : outcome A) : outcome A :=
  match o with Err e => Err (Execution (error_text e)) | o => o end.
Definition guard_ok (b : bool) (e : error) : outcome unit :=
  if b then Ok tt else Err e.

(** Fallible code over a mutable state: the state is kept on [Err], as a
    [&mut self] method keeps the fields it has assigned before [?] returns. *)
Definition M (S A : Type) : Type := S -> outcome A * S.
#[global] Instance M_ret {S} : MRet (M S) := fun A a s => (Ok a, s).
#[global] Instance M_bind {S} : MBind (M S) := fun A B f m s =>
  match m s with
  | (Ok a, s') => f a s'
  | (Err e, s') => (Err e, s')
  | (Panic, s') => (Panic, s')
  end.
Definition lift {S A} (o : outcome A) : M S A := fun s => (o, s).
Definition throw {S A} (e : error) : M S A := fun s => (Err e, s).
Definition panic {S A} : M S A := fun s => (Panic, s).
Definition getS {S} : M S S := fun s => (Ok s, s).
Definition gets {S A} (f : S -> A) : M S A := fun s => (Ok (f s), s).
Definition putS {S} (s : S) : M S unit := fun _ => (Ok tt, s).
Definition modS {S} (f : S -> S) : M S unit := fun s => (Ok tt, f s).

(** [if b { return Err(e) }]. *)
Definition when {S} (b : bool) (e : error) : M S unit := if b then throw e else mret tt.

(** Unfold the monads of the development. *)
Ltac unfold_M :=
  unfold mret, mbind, fmap, M_ret, M_bind, outcome_ret, outcome_bind, outcome_fmap,
    lift, throw, panic, getS, gets, putS, modS, ok_or, expect, guard_ok in *.

Lemma outcome_bind_Ok {A B} (f : A -> outcome B) m b :
  m ≫= f = Ok b <-> exists a, m = Ok a /\ f a = Ok b.
Proof. destruct m; unfold_M; naive_solver. Qed.

Lemma outcome_bind_run {A B} (f : A -> outcome B) a : Ok a ≫= f = f a.
Proof. done. Qed.

Lemma M_bind_Ok {S A B} (f : A -> M S B) (m : M S A) s b s2 :
  (m ≫= f) s = (Ok b, s2) <->
  exists a s1, m s = (Ok a, s1) /\ f a s1 = (Ok b, s2).
Proof. unfold_M. destruct (m s) as [[]]; naive_solver. Qed.

Lemma M_bind_run {S A B} (f : A -> M S B) (m : M S A) s a s1 :
  m s = (Ok a, s1) -> (m ≫= f) s = f a s1.
Proof. intros E. unfold_M. by rewrite E. Qed.
Lemma M_bind_err {S A B} (f : A -> M S B) (m : M S A) s e s1 : m s = (Err e, s1) -> mbind f m s = (Err e, s1).
Proof. intros E. unfold mbind, M_bind. by rewrite E. Qed.

Lemma lift_run {S A B} (o : outcome A) (f : A -> M S B) s a : o = Ok a -> (lift o ≫= f) s = f a s.
Proof. by intros ->. Qed.

Lemma when_Ok {S} b e (s s1 : S) u :
  when b e s = (Ok u, s1) <-> b = false /\ s1 = s /\ u = tt.
Proof. unfold when, throw, mret, M_ret. destruct b, u; naive_solver. Qed.

(** Invert a successful computation of the sequence of calls it ran. *)
Ltac inv_M :=
  repeat match goal with
  | H : (_ ≫= _) _ = (Ok _, _) |- _ =>
      let a := fresh "a" in let s := fresh "s" in let E := fresh "E" in
      apply M_bind_Ok in H as (a & s & E & H)
  | H : _ ≫= _ = Ok _ |- _ =>
      let a := fresh "a" in let E := fresh "E" in
      apply outcome_bind_Ok in H as (a & E & H)
  | H : mret _ _ = (Ok _, _) |- _ => unfold mret, M_ret in H; simplify_eq
  | H : gets _ _ = (Ok _, _) |- _ => unfold gets in H; simplify_eq
  | H : when _ _ _ = (Ok _, _) |- _ =>
      let Hb := fresh in apply when_Ok in H as (Hb & -> & ->)
  end.

(** A loop [for x in l { body }] over a mutable state. *)
Fixpoint forM {S A} (l : list A) (body : A -> M S unit) : M S unit :=
  match l with
  | [] => mret tt
  | x :: l => _ ← body x; forM l body
  end.

(** [iter().map(f).collect::<Result<Vec<_>>>()]. *)
Fixpoint collect {A B} (f : A -> outcome B) (l : list A) : outcome (list B) :=
  match l with
  | [] => Ok []
  | x :: l => y ← f x; ys ← collect f l; Ok (y :: ys)
  end.

(** The same over a mutable state. *)
Fixpoint collectM {S A B} (f : A -> M S B) (l : list A) : M S (list B) :=
  match l with
  | [] => mret []
  | x :: l => y ← f x; ys ← collectM f l; mret (y :: ys)
  end.

Lemma collectM_Ok {S A B} (f : A -> M S B) l s ys s' :
  collectM f l s = (Ok ys, s') -> Forall2 (fun x y => exists s1 s2, f x s1 = (Ok y, s2)) l ys.
Proof.
  revert s ys s'. induction l as [|x l IH]; intros s ys s'; cbn [collectM]; [by intros [= <- _]; constructor|].
  intros (y & s1 & Hy & (zs & s2 & Hzs & [= <- _])%M_bind_Ok)%M_bind_Ok.
  constructor; [by exists s, s1|by eapply IH].
Qed.

Lemma collect_Ok {A B} (f : A -> outcome B) l ys :
  collect f l = Ok ys <-> Forall2 (fun x y => f x = Ok y) l ys.
Proof.
  revert ys. induction l as [|x l IH]; intros ys; simpl.
  { split; [intros [= <-]; constructor|by inversion 1]. }
  rewrite outcome_bind_Ok. setoid_rewrite outcome_bind_Ok. split.
  - intros (y & Hy & ys' & Hys & [= <-]). constructor; [done|by apply IH].
  - inversion 1; subst. eexists; split; [done|].
    eexists; split; [by apply IH|done].
Qed.

Lemma filter_none {A} (P : A -> Prop) `{!forall x, Decision (P x)} (l : list A) :
  (forall x, x ∈ l -> ~ P x) -> filter P l = [].
Proof.
  induction l as [|x l IH]; intros Hl; [done|].
  rewrite filter_cons_False; [apply IH|]; intros; apply Hl; by constructor.
Qed.
Lemma filter_all {A} (P : A -> Prop) `{!forall x, Decision (P x)} (l : list A) :
  (forall x, x ∈ l -> P x) -> filter P l = l.
Proof.
  induction l as [|x l IH]; intros Hl; [done|].
  rewrite filter_cons_True; [f_equal; apply IH|]; intros; apply Hl; by constructor.
Qed.

Lemma wrapu_small w z : 0 <= z < 2 ^ w -> wrapu w z = z.
Proof. apply Z.mod_small. Qed.
Lemma wrapu_add w a b : wrapu w (wrapu w a + b) = wrapu w (a + b).
Proof. apply Zplus_mod_idemp_l. Qed.
Lemma wrapu_sub w a b : wrapu w (wrapu w a - b) = wrapu w (a - b).
Proof. apply Zminus_mod_idemp_l. Qed.

(** [v[i]] panics outside the vector. *)
Definition at_index {A} (l : list A) (i : Z) : outcome A :=
  match (if 0 <=? i then l !! Z.to_nat i else None) with Some a => Ok a | None => Panic end.
Lemma at_index_Ok {A} (l : list A) i x : at_index l i = Ok x <-> 0 <= i /\ l !! Z.to_nat i = Some x.
Proof. unfold at_index. destruct (Z.leb_spec 0 i); [destruct (l !! Z.to_nat i); naive_solver|naive_solver lia]. Qed.

(** Computations that never panic. *)
Definition safe {S A} (m : M S A) : Prop := forall s, fst (m s) <> Panic.
Lemma safe_bind {S A B} (m : M S A) (k : A -> M S B) :
  safe m -> (forall a, safe (k a)) -> safe (m ≫= k).
Proof.
  intros Hm Hk s. unfold mbind, M_bind. specialize (Hm s).
  destruct (m s) as [[a| |] s']; [apply Hk|done|done].
Qed.
Lemma safe_ret {S A} (a : A) : @safe S A (mret a).
Proof. by intros s. Qed.
Lemma safe_when {S} b e : @safe S unit (when b e).
Proof. intros s. by destruct b. Qed.
Lemma safe_throw {S A} e : @safe S A (throw e).
Proof. by intros s. Qed.
Lemma safe_getS {S} : @safe S S getS.
Proof. by intros s. Qed.
#[export] Hint Resolve safe_bind safe_ret safe_when safe_throw safe_getS : sf.
