(* ===== verification/Bytes.v ===== *)
(** * Bytes: Rust's [u8], [Vec<u8>] and the fixed-width integer codecs

    [u8] is [Byte.byte]; [&[u8]] is a [list byte]; [Vec<u8>] keeps its capacity,
    which the sources charge to the memory budget. The codecs are
    [to_le_bytes]/[from_le_bytes] and [to_be_bytes]/[from_be_bytes] of the
    integer types, with their round-trip lemmas; [SnapshotInput] is the bounded
    cursor every snapshot decoder of the sources reads through. *)

From Stdlib Require Import ZArith Lia Strings.Byte.
From stdpp Require Import base list option numbers strings.
From S2P Require Import Prelude.

Abbreviation byte := Byte.byte.
Abbreviation bytes := (list Byte.byte).

Definition b2z (b : byte) : Z := Z.of_N (Byte.to_N b).
Definition z2b (z : Z) : byte :=
  match Byte.of_N (Z.to_N (z mod 256)) with Some b => b | None => x00 end.

#[global] Instance byte_eq_decision : EqDecision byte := Byte.byte_eq_dec.

Lemma b2z_range b : 0 <= b2z b < 256.
Proof. unfold b2z. pose proof (Byte.to_N_bounded b). lia. Qed.

Lemma z2b_b2z b : z2b (b2z b) = b.
Proof.
  unfold z2b, b2z. pose proof (Byte.to_N_bounded b).
  rewrite Z.mod_small by lia. rewrite N2Z.id, Byte.of_to_N. done.
Qed.

Lemma b2z_z2b z : b2z (z2b z) = z mod 256.
Proof.
  unfold z2b, b2z. pose proof (Z.mod_pos_bound z 256 ltac:(lia)) as Hz.
  destruct (Byte.of_N (Z.to_N (z mod 256))) as [b|] eqn:E.
  - apply Byte.to_of_N in E. rewrite E. lia.
  - exfalso. apply Byte.of_N_None_iff in E. lia.
Qed.

#[global] Instance b2z_inj : Inj (=) (=) b2z.
Proof. intros a b H. rewrite <- (z2b_b2z a), <- (z2b_b2z b), H. done. Qed.

(** ** Fixed-width codecs *)

(** [n] little-endian bytes of an integer, and the integer they spell. *)
Fixpoint to_le (n : nat) (z : Z) : bytes :=
  match n with
  | O => []
  | S n => z2b z :: to_le n (z / 256)
  end.
Fixpoint of_le (bs : bytes) : Z :=
  match bs with
  | [] => 0
  | b :: bs => b2z b + 256 * of_le bs
  end.
Definition to_be (n : nat) (z : Z) : bytes := reverse (to_le n z).
Definition of_be (bs : bytes) : Z := of_le (reverse bs).

Definition u32_le (z : Z) : bytes := to_le 4 z.
Definition i64_le (z : Z) : bytes := to_le 8 z.
Definition i32_le (z : Z) : bytes := to_le 4 z.
Definition u32_be (z : Z) : bytes := to_be 4 z.
Definition i32_be (z : Z) : bytes := to_be 4 z.
Definition i64_be (z : Z) : bytes := to_be 8 z.
Definition i64_of_le (bs : bytes) : Z := wraps 64 (of_le bs).
Definition i32_of_le (bs : bytes) : Z := wraps 32 (of_le bs).


Lemma to_le_length n z : length (to_le n z) = n.
Proof. revert z. induction n; intros; simpl; auto. Qed.

Lemma of_le_range bs : 0 <= of_le bs < 2 ^ (8 * Z.of_nat (length bs)).
Proof.
  induction bs as [|b bs IH]; simpl; [lia|].
  pose proof (b2z_range b).
  replace (8 * Z.of_nat (S (length bs))) with (8 + 8 * Z.of_nat (length bs)) by lia.
  rewrite Z.pow_add_r by lia. change (2 ^ 8) with 256. lia.
Qed.

Lemma of_to_le n z : of_le (to_le n z) = z mod 2 ^ (8 * Z.of_nat n).
Proof.
  revert z. induction n as [|n IH]; intros z; simpl.
  { by rewrite Z.mod_1_r. }
  rewrite b2z_z2b, IH.
  replace (8 * Z.of_nat (S n)) with (8 + 8 * Z.of_nat n) by lia.
  rewrite Z.pow_add_r by lia. change (2 ^ 8) with 256.
  rewrite Z.rem_mul_r by lia. lia.
Qed.

Lemma to_of_le bs : to_le (length bs) (of_le bs) = bs.
Proof.
  induction bs as [|b bs IH]; simpl; [done|].
  pose proof (b2z_range b). f_equal.
  - rewrite <- (z2b_b2z b) at 2. unfold z2b. f_equal. f_equal. f_equal.
    rewrite Z.add_mod, (Z.mul_comm 256), Z.mod_mul, Z.add_0_r, Z.mod_mod by lia. done.
  - rewrite (Z.mul_comm 256), Z.div_add, Z.div_small by lia. done.
Qed.

Lemma to_le_mod n a b : a mod 2 ^ (8 * Z.of_nat n) = b mod 2 ^ (8 * Z.of_nat n) -> to_le n a = to_le n b.
Proof.
  intros E. rewrite <- !of_to_le in E.
  rewrite <- (to_of_le (to_le n a)), <- (to_of_le (to_le n b)), E, !to_le_length. done.
Qed.

Lemma of_to_le_small n z : 0 <= z < 2 ^ (8 * Z.of_nat n) -> of_le (to_le n z) = z.
Proof. intros. rewrite of_to_le. by apply Z.mod_small. Qed.

Lemma of_u32_le z : is_u32 z -> of_le (u32_le z) = z.
Proof. intros. apply of_to_le_small. change (8 * Z.of_nat 4) with 32. mlia. Qed.

Lemma i64_of_i64_le z : is_i64 z -> i64_of_le (i64_le z) = z.
Proof.
  intros. unfold i64_of_le, i64_le. rewrite of_to_le.
  change (2 ^ (8 * Z.of_nat 8)) with (2 ^ 64).
  fold (wrapu 64 z). rewrite wraps_wrapu by lia. apply wraps_id; [lia|].
  change (2 ^ (64 - 1)) with (2 ^ 63). mlia.
Qed.

Lemma i32_of_i32_le z : is_i32 z -> i32_of_le (i32_le z) = z.
Proof.
  intros. unfold i32_of_le, i32_le. rewrite of_to_le.
  change (2 ^ (8 * Z.of_nat 4)) with (2 ^ 32).
  fold (wrapu 32 z). rewrite wraps_wrapu by lia. apply wraps_id; [lia|].
  change (2 ^ (32 - 1)) with (2 ^ 31). mlia.
Qed.

Lemma of_be_to_be n z : of_be (to_be n z) = z mod 2 ^ (8 * Z.of_nat n).
Proof. unfold of_be, to_be. by rewrite reverse_involutive, of_to_le. Qed.

Lemma to_be_length n z : length (to_be n z) = n.
Proof. unfold to_be. by rewrite length_reverse, to_le_length. Qed.

Lemma of_u32_be z : is_u32 z -> of_be (u32_be z) = z.
Proof.
  intros. unfold u32_be. rewrite of_be_to_be.
  change (2 ^ (8 * Z.of_nat 4)) with (2 ^ 32). apply Z.mod_small. mlia.
Qed.

Lemma u32_le_of_le bs : length bs = 4%nat -> u32_le (of_le bs) = bs.
Proof. intros H. unfold u32_le. by rewrite <- H, to_of_le. Qed.
Lemma i32_le_of_le bs : length bs = 4%nat -> i32_le (i32_of_le bs) = bs.
Proof.
  intros H. unfold i32_le, i32_of_le. rewrite <- (to_of_le bs) at 2. rewrite H.
  apply to_le_mod. change (2 ^ (8 * Z.of_nat 4)) with (2 ^ 32). unfold wraps.
  rewrite Zminus_mod_idemp_l. f_equal. lia.
Qed.
Lemma i64_le_of_le bs : length bs = 8%nat -> i64_le (i64_of_le bs) = bs.
Proof.
  intros H. unfold i64_le, i64_of_le. rewrite <- (to_of_le bs) at 2. rewrite H.
  apply to_le_mod. change (2 ^ (8 * Z.of_nat 8)) with (2 ^ 64). unfold wraps.
  rewrite Zminus_mod_idemp_l. f_equal. lia.
Qed.
Lemma u32_le_length z : length (u32_le z) = 4%nat.
Proof. apply to_le_length. Qed.
Lemma i32_le_length z : length (i32_le z) = 4%nat.
Proof. apply to_le_length. Qed.
Lemma i64_le_length z : length (i64_le z) = 8%nat.
Proof. apply to_le_length. Qed.
Lemma u32_be_length z : length (u32_be z) = 4%nat.
Proof. apply to_be_length. Qed.
#[global] Hint Rewrite u32_le_length i64_le_length i32_le_length u32_be_length
  to_le_length to_be_length : sf_len.
#[global] Hint Rewrite @length_app @length_cons @length_nil @length_reverse : sf_len.

Lemma i32_be_length z : length (i32_be z) = 4%nat.
Proof. apply to_be_length. Qed.
Lemma i64_be_length z : length (i64_be z) = 8%nat.
Proof. apply to_be_length. Qed.
#[global] Opaque u32_le i64_le i32_le u32_be i32_be i64_be.

(** Length of a slice as the [usize] Rust returns. *)
Definition len {A} (l : list A) : Z := Z.of_nat (length l).

Lemma len_nonneg {A} (l : list A) : 0 <= len l.
Proof. unfold len. lia. Qed.
Lemma len_to_nat {A} (l : list A) : Z.to_nat (len l) = length l.
Proof. unfold len. lia. Qed.
Lemma len_app {A} (l k : list A) : len (l ++ k) = len l + len k.
Proof. unfold len. rewrite length_app. lia. Qed.
Lemma len_cons {A} (x : A) l : len (x :: l) = 1 + len l.
Proof. unfold len. simpl. lia. Qed.
Lemma len_nil {A} : len (@nil A) = 0.
Proof. done. Qed.
#[global] Hint Rewrite @len_app @len_cons @len_nil : sf_len.

Lemma of_le_is_u32 bs : length bs = 4%nat -> is_u32 (of_le bs).
Proof.
  intros H. pose proof (of_le_range bs) as R. rewrite H in R.
  change (8 * Z.of_nat 4) with 32 in R. mlia.
Qed.

(** ** [Vec<u8>] *)

(** A growable byte vector with the capacity of its allocation. Only the
    contents take part in comparisons; [to_vec] allocates exactly. *)
Record vec : Type := Vec { vdata : bytes; vcap : Z }.
Definition vec_ok (v : vec) : Prop := len (vdata v) <= vcap v <= I64_MAX.
Definition to_vec (bs : bytes) : vec := {| vdata := bs; vcap := len bs |}.
Definition vlen (v : vec) : Z := len (vdata v).

(** ** Bounded cursors

    [bytes.get(a..e)] is [None] outside the slice. A cursor over [pre ++ r]
    standing after [pre] is written [cursor pre r]. *)

Definition slice_get (bs : bytes) (a e : Z) : option bytes :=
  if (a <=? e) && (e <=? len bs)
  then Some (take (Z.to_nat (e - a)) (drop (Z.to_nat a) bs)) else None.

(** The contents of a Rust slice are at most [isize::MAX] bytes long. *)
Definition slice_ok (bs : bytes) : Prop := len bs <= I64_MAX.

Record input : Type := Input { ibytes : bytes; ioff : Z }.
Definition cursor (pre r : bytes) : input :=
  {| ibytes := pre ++ r; ioff := len pre |}.

(** [read_exact]: advance by [n] bytes; the two errors are the overflow of the
    end offset and the truncation of the input. *)
Definition read_exact_with (overflow truncated : error) (n : Z) : M input bytes :=
  fun i =>
    match checked_add (ioff i) n with
    | None => (Err overflow, i)
    | Some e =>
        match slice_get (ibytes i) (ioff i) e with
        | None => (Err truncated, i)
        | Some v => (Ok v, {| ibytes := ibytes i; ioff := e |})
        end
    end.

Section read_exact.
Context (eo et : error).

Lemma read_exact_cursor pre v r n :
  slice_ok (pre ++ v ++ r) -> n = len v ->
  read_exact_with eo et n (cursor pre (v ++ r)) = (Ok v, cursor (pre ++ v) r).
Proof.
  unfold slice_ok, read_exact_with, cursor, slice_get, checked_add. simpl.
  rewrite !len_app. intros Hok ->.
  pose proof (len_nonneg pre). pose proof (len_nonneg v). pose proof (len_nonneg r).
  rewrite (proj2 (Z.leb_le _ _)) by mlia. simpl.
  rewrite (proj2 (Z.leb_le (len pre) _)) by lia.
  rewrite (proj2 (Z.leb_le _ _)) by lia. simpl.
  replace (Z.to_nat (len pre + len v - len pre)) with (length v) by (unfold len; lia).
  rewrite len_to_nat, drop_app_length, take_app_length.
  f_equal. by rewrite <- app_assoc.
Qed.

Lemma read_exact_cursor_inv pre r n v i :
  0 <= n -> read_exact_with eo et n (cursor pre r) = (Ok v, i) ->
  exists r', r = v ++ r' /\ i = cursor (pre ++ v) r' /\ len v = n.
Proof.
  unfold read_exact_with, cursor, slice_get, checked_add. simpl. intros Hn.
  case_bool; simpl; intros E; simplify_eq. rewrite len_app in *.
  rewrite len_to_nat, drop_app_length.
  replace (Z.to_nat (len pre + n - len pre)) with (Z.to_nat n) by lia.
  exists (drop (Z.to_nat n) r). rewrite take_drop.
  assert (len (take (Z.to_nat n) r) = n) as Hl.
  { unfold len in *. rewrite length_take. lia. }
  split_and!; [done| |done].
  f_equal; [by rewrite <- app_assoc, take_drop | rewrite ?len_app; lia].
Qed.

(** The only outcomes are success and one of the two errors; a failed read
    does not move the cursor. *)
Lemma read_exact_no_panic n i : fst (read_exact_with eo et n i) <> Panic.
Proof. unfold read_exact_with. repeat case_match; by simplify_eq/=. Qed.
End read_exact.

Lemma cursor_end pre r :
  (ioff (cursor pre r) =? len (ibytes (cursor pre r))) = true <-> r = [].
Proof.
  unfold cursor; simpl. rewrite len_app, Z.eqb_eq. unfold len.
  split; [|intros ->; simpl; lia]. destruct r; [done|simpl; lia].
Qed.

(** Lexicographic order of byte strings ([Ord for [u8]]). *)
Fixpoint bytes_cmp (a b : bytes) : comparison :=
  match a, b with
  | [], [] => Eq
  | [], _ :: _ => Lt
  | _ :: _, [] => Gt
  | x :: a, y :: b =>
      match b2z x ?= b2z y with Eq => bytes_cmp a b | c => c end
  end.

(** [slice::starts_with]. *)
Fixpoint starts_with (s prefix : bytes) {struct prefix} : bool :=
  match prefix, s with
  | [], _ => true
  | _ :: _, [] => false
  | p :: prefix, x :: s => bool_decide (x = p) && starts_with s prefix
  end.

Lemma starts_with_spec s p : starts_with s p = true <-> exists r, s = p ++ r.
Proof.
  revert s. induction p as [|x p IH]; intros s; simpl.
  { split; [intros _; by exists s|done]. }
  destruct s as [|y s]; simpl.
  { split; [done|intros [r Hr]; discriminate]. }
  rewrite andb_true_iff, bool_decide_eq_true, IH. split.
  - intros [-> [r ->]]. by exists r.
  - intros [r [= -> ->]]. split; [done|by exists r].
Qed.

(** *** Fixed-width reads through a cursor *)

Section read_le.
Context (eo et : error).

Lemma read_u32_cursor pre z r :
  slice_ok (pre ++ u32_le z ++ r) ->
  read_exact_with eo et 4 (cursor pre (u32_le z ++ r)) =
    (Ok (u32_le z), cursor (pre ++ u32_le z) r).
Proof. intros. apply read_exact_cursor; [done|]. unfold len. by rewrite u32_le_length. Qed.

Lemma read_u32_cursor_inv pre r v i :
  read_exact_with eo et 4 (cursor pre r) = (Ok v, i) ->
  exists r', r = u32_le (of_le v) ++ r' /\ i = cursor (pre ++ u32_le (of_le v)) r' /\
    is_u32 (of_le v).
Proof.
  intros (r' & -> & -> & Hl)%read_exact_cursor_inv; [|lia].
  assert (length v = 4%nat) as Hv by (unfold len in Hl; lia).
  rewrite u32_le_of_le by done. exists r'. eauto using of_le_is_u32.
Qed.
End read_le.

(** *** Readers and the encodings they invert

    [reads p bs a]: on an input that continues with [bs], the reader [p]
    consumes exactly [bs] and returns [a]. *)

Definition reads {A} (p : M input A) (bs : bytes) (a : A) : Prop :=
  forall pre r, slice_ok (pre ++ bs ++ r) ->
    p (cursor pre (bs ++ r)) = (Ok a, cursor (pre ++ bs) r).

Lemma reads_ret {A} (a : A) : reads (mret a) [] a.
Proof. intros pre r _. by rewrite app_nil_r. Qed.

Lemma reads_bind {A B} (p : M input A) (k : A -> M input B) bs1 bs2 a b :
  reads p bs1 a -> reads (k a) bs2 b -> reads (p ≫= k) (bs1 ++ bs2) b.
Proof.
  intros Hp Hk pre r Hok. rewrite <- app_assoc in *.
  erewrite M_bind_run by by apply Hp.
  rewrite (app_assoc pre bs1 bs2), Hk; [done|]. by rewrite <- app_assoc.
Qed.

Lemma reads_exact eo et v n : n = len v -> reads (read_exact_with eo et n) v v.
Proof. intros -> pre r Hok. by apply read_exact_cursor. Qed.

Lemma reads_bind_ret {A B} (p : M input A) (k : A -> M input B) bs a b :
  reads p bs a -> (forall i, k a i = (Ok b, i)) -> reads (p ≫= k) bs b.
Proof. intros Hp Hk pre r Hok. erewrite M_bind_run by by apply Hp. apply Hk. Qed.

Lemma reads_eq {A} (p : M input A) bs bs' a : reads p bs a -> bs = bs' -> reads p bs' a.
Proof. by intros ? <-. Qed.

(** A check that passes consumes nothing. *)
Lemma reads_when {A} b e (k : unit -> M input A) bs a :
  b = false -> reads (k tt) bs a -> reads (when b e ≫= k) bs a.
Proof. intros -> Hk pre r Hok. rewrite (M_bind_run _ _ _ tt (cursor pre (bs ++ r))) by done. by apply Hk. Qed.

(** [reads_end p pre bs a]: standing after [pre], the reader [p] consumes the
    rest [bs] of the input and returns [a]; it may inspect the position. *)
Definition reads_end {A} (p : M input A) (pre bs : bytes) (a : A) : Prop :=
  slice_ok (pre ++ bs) -> p (cursor pre bs) = (Ok a, cursor (pre ++ bs) []).

Lemma reads_end_bind {A B} (p : M input A) (k : A -> M input B) pre bs1 bs2 a b :
  reads p bs1 a -> reads_end (k a) (pre ++ bs1) bs2 b -> reads_end (p ≫= k) pre (bs1 ++ bs2) b.
Proof.
  intros Hp Hk Hok. erewrite M_bind_run by by apply Hp.
  rewrite Hk by by rewrite <- app_assoc. by rewrite <- app_assoc.
Qed.

Lemma reads_end_when {A} b e (k : unit -> M input A) pre bs a :
  b = false -> reads_end (k tt) pre bs a -> reads_end (when b e ≫= k) pre bs a.
Proof. intros -> Hk Hok. rewrite (M_bind_run _ _ _ tt (cursor pre bs)) by done. by apply Hk. Qed.

Lemma reads_end_getS {A} (k : input -> M input A) pre bs a :
  reads_end (k (cursor pre bs)) pre bs a -> reads_end (getS ≫= k) pre bs a.
Proof. intros Hk Hok. rewrite (M_bind_run _ _ _ (cursor pre bs) (cursor pre bs)) by done. by apply Hk. Qed.

Lemma reads_end_ret {A} (a : A) pre : reads_end (mret a) pre [] a.
Proof. intros Hok. by rewrite app_nil_r. Qed.

Lemma reads_end_eq {A} (p : M input A) pre bs bs' a :
  reads_end p pre bs a -> bs = bs' -> reads_end p pre bs' a.
Proof. by intros ? <-. Qed.

Lemma cursor_not_end pre : negb (ioff (cursor pre []) =? len (ibytes (cursor pre []))) = false.
Proof. by rewrite (proj2 (cursor_end pre [])). Qed.
Lemma cursor_left pre bs : sat_sub (len (ibytes (cursor pre bs))) (ioff (cursor pre bs)) = len bs.
Proof. cbn [ibytes ioff cursor]. rewrite len_app. pose proof (len_nonneg bs). mlia. Qed.
