(* ===== verification/OrdMap.v ===== *)
(** * Ordered containers: Rust's [Ord], [BTreeSet] and [BTreeMap]

    A B-tree is modelled by the strictly increasing list of its entries, which
    is the order every iterator of the sources relies on. [Ord] instances may
    identify values that are not equal (a timer key ignores the capacity of its
    byte vectors), so the laws only ask for a total preorder. *)

From Stdlib Require Import ZArith Lia.
From stdpp Require Import base list option numbers sorting sets.
From S2P Require Import Prelude Bytes.

Class Ord (A : Type) : Type := ocmp : A -> A -> comparison.
Class OrdLaws (A : Type) `{Ord A} : Prop := {
  ocmp_sym (x y : A) : ocmp y x = CompOpp (ocmp x y);
  ocmp_eq_l (x y z : A) : ocmp x y = Eq -> ocmp x z = ocmp y z;
  ocmp_lt_trans (x y z : A) : ocmp x y = Lt -> ocmp y z = Lt -> ocmp x z = Lt;
}.
(** Orders whose equality is Leibniz equality. *)
Class OrdLeibniz (A : Type) `{Ord A} : Prop :=
  ocmp_eq (x y : A) : ocmp x y = Eq -> x = y.

(** Side conditions [OrdLaws _] are closed by instance search. *)
#[global] Hint Extern 0 (OrdLaws _) => typeclasses eauto : core.

Section ord.
Context `{!Ord A} {Hord : OrdLaws A}.
Implicit Types x y z : A.

Lemma ocmp_refl x : ocmp x x = Eq.
Proof. pose proof (ocmp_sym x x). destruct (ocmp x x); done. Qed.
Lemma ocmp_gt_lt x y : ocmp x y = Gt <-> ocmp y x = Lt.
Proof. rewrite (ocmp_sym x y). destruct (ocmp x y); done. Qed.
Lemma ocmp_eq_sym x y : ocmp x y = Eq -> ocmp y x = Eq.
Proof. rewrite (ocmp_sym x y). by intros ->. Qed.
Lemma ocmp_eq_r x y z : ocmp x y = Eq -> ocmp z x = ocmp z y.
Proof. intros E. rewrite (ocmp_sym x z), (ocmp_sym y z). by rewrite (ocmp_eq_l x y z). Qed.
Lemma ocmp_lt_not_ge x y : ocmp x y = Lt -> ocmp y x <> Lt.
Proof. rewrite (ocmp_sym x y). by intros ->. Qed.
End ord.

(** The order of a projection. *)
Definition ord_on {A B} `{Ord B} (f : A -> B) : Ord A := fun x y => ocmp (f x) (f y).
Lemma ord_on_laws {A B} `{OrdLaws B} (f : A -> B) : @OrdLaws A (ord_on f).
Proof.
  split; unfold ocmp, ord_on; intros.
  - apply ocmp_sym.
  - by apply ocmp_eq_l.
  - by eapply ocmp_lt_trans.
Qed.

#[global] Instance Z_ord : Ord Z := Z.compare.
#[global] Instance Z_ord_laws : OrdLaws Z.
Proof.
  split; unfold ocmp, Z_ord.
  - intros x y. apply Z.compare_antisym.
  - intros x y z E. apply Z.compare_eq in E. by subst.
  - intros x y z. rewrite !Z.compare_lt_iff. lia.
Qed.
#[global] Instance Z_ord_leibniz : OrdLeibniz Z.
Proof. intros x y. apply Z.compare_eq. Qed.

#[global] Instance bytes_ord : Ord bytes := bytes_cmp.
#[global] Instance bytes_ord_leibniz : OrdLeibniz bytes.
Proof.
  unfold OrdLeibniz, ocmp, bytes_ord.
  induction x as [|a x IH]; intros [|b y]; simpl; try done.
  destruct (b2z a ?= b2z b) eqn:E; try done.
  apply Z.compare_eq in E. simplify_eq. intros. f_equal. auto.
Qed.
#[global] Instance bytes_ord_laws : OrdLaws bytes.
Proof.
  split; unfold ocmp, bytes_ord.
  - induction x as [|a x IH]; intros [|b y]; simpl; try done.
    rewrite (Z.compare_antisym (b2z a) (b2z b)). destruct (b2z a ?= b2z b); simpl; auto.
  - intros x y z E. by rewrite (bytes_ord_leibniz x y E).
  - induction x as [|a x IH]; intros [|b y] [|c z]; simpl; try done.
    destruct (Z.compare_spec (b2z a) (b2z b)); destruct (Z.compare_spec (b2z b) (b2z c));
      destruct (Z.compare_spec (b2z a) (b2z c)); try done; try lia. apply IH.
Qed.

(** Lexicographic product (Rust's derived order of a struct's fields). *)
#[global] Instance prod_ord {A B} `{Ord A, Ord B} : Ord (A * B) := fun p q =>
  match ocmp p.1 q.1 with Eq => ocmp p.2 q.2 | c => c end.
Lemma prod_ocmp {A B} `{Ord A, Ord B} (p q : A * B) :
  ocmp p q = match ocmp p.1 q.1 with Eq => ocmp p.2 q.2 | c => c end.
Proof. done. Qed.
#[global] Instance prod_ord_laws {A B} `{OrdLaws A, OrdLaws B} : OrdLaws (A * B).
Proof.
  split; intros x y; [|intros z..]; rewrite !prod_ocmp.
  - rewrite (ocmp_sym x.1 y.1). destruct (ocmp x.1 y.1); simpl; [apply ocmp_sym|done..].
  - destruct (ocmp x.1 y.1) eqn:E1; try done. intros E2.
    rewrite (ocmp_eq_l _ _ z.1 E1). destruct (ocmp y.1 z.1); [by apply ocmp_eq_l|done..].
  - destruct (ocmp x.1 y.1) eqn:E1; try done.
    + rewrite (ocmp_eq_l _ _ z.1 E1).
      destruct (ocmp y.1 z.1); [apply ocmp_lt_trans|done..].
    + intros _. destruct (ocmp y.1 z.1) eqn:E2; try done; intros _.
      * rewrite <- (ocmp_eq_r y.1 z.1 x.1 E2), E1. done.
      * rewrite (ocmp_lt_trans _ _ _ E1 E2). done.
Qed.
#[global] Instance prod_ord_leibniz {A B} `{OrdLeibniz A, OrdLeibniz B} : OrdLeibniz (A * B).
Proof.
  intros [x1 x2] [y1 y2]. unfold ocmp, prod_ord; simpl.
  destruct (ocmp x1 y1) eqn:E; try done. intros E2. by rewrite (ocmp_eq x1 y1), (ocmp_eq x2 y2).
Qed.

(** ** Sorting *)

(** The preorder of an [Ord], for [merge_sort]. *)
Section merge.
Context {A : Type} `{!Ord A}.
Definition ole : relation A := fun x y => ocmp x y <> Gt.
#[global] Instance ole_dec : RelDecision ole.
Proof. intros x y. unfold ole. apply _. Defined.
Context {HA : OrdLaws A}.
#[global] Instance ole_total : Total ole.
Proof. intros x y. unfold ole. rewrite (ocmp_sym x y). destruct (ocmp x y); auto. Qed.
#[global] Instance ole_trans : Transitive ole.
Proof.
  intros x y z Hxy Hyz. unfold ole in *. destruct (ocmp x y) eqn:E; [|clear Hxy|done].
  - by rewrite (ocmp_eq_l x y z E).
  - destruct (ocmp y z) eqn:F; [|clear Hyz|done]; [by rewrite <- (ocmp_eq_r y z x F), E|]. by rewrite (ocmp_lt_trans _ _ _ E F).
Qed.
Lemma ole_sorted l : StronglySorted (fun x y => ocmp x y <> Gt) (merge_sort ole l).
Proof. apply (StronglySorted_merge_sort ole). Qed.
End merge.

(** ** Sums over lists *)

Definition zsum {A} (f : A -> Z) (l : list A) : Z := foldr (fun a s => f a + s) 0 l.

Lemma zsum_app {A} (f : A -> Z) l k : zsum f (l ++ k) = zsum f l + zsum f k.
Proof. induction l; simpl in *; lia. Qed.
#[global] Instance zsum_perm {A} (f : A -> Z) : Proper ((≡ₚ) ==> (=)) (zsum f).
Proof. intros l k. induction 1; simpl; lia. Qed.
Lemma zsum_plus {A} (f g : A -> Z) l : zsum (fun a => f a + g a) l = zsum f l + zsum g l.
Proof. induction l as [|a l IH]; simpl; [done|lia]. Qed.

Lemma zsum_nonneg {A} (f : A -> Z) l : (forall a, a ∈ l -> 0 <= f a) -> 0 <= zsum f l.
Proof.
  induction l as [|a l IH]; simpl; [lia|]. intros Hf.
  pose proof (Hf a ltac:(set_solver)). specialize (IH ltac:(set_solver)). lia.
Qed.
Lemma zsum_insert {A} (f : A -> Z) l i x y :
  l !! i = Some x -> zsum f (<[i := y]> l) = zsum f l - f x + f y.
Proof.
  revert i. induction l as [|a l IH]; intros [|i]; simpl; intros; simplify_eq; [lia|].
  rewrite (IH i) by done. lia.
Qed.
Lemma zsum_delete {A} (f : A -> Z) l i x :
  l !! i = Some x -> zsum f (delete i l) = zsum f l - f x.
Proof.
  revert i. induction l as [|a l IH]; intros [|i]; simpl; intros; simplify_eq; [lia|].
  unfold delete in *. rewrite (IH i) by done. lia.
Qed.
Lemma zsum_lookup_le {A} (f : A -> Z) l i x :
  (forall a, a ∈ l -> 0 <= f a) -> l !! i = Some x -> f x <= zsum f l.
Proof.
  intros Hf Hi. apply list_elem_of_lookup_2 in Hi.
  induction l as [|a l IH]; simpl; [set_solver|].
  pose proof (zsum_nonneg f l). pose proof (Hf a ltac:(set_solver)).
  apply elem_of_cons in Hi as [->|Hi]; [|specialize (IH ltac:(set_solver) Hi); lia].
  assert (0 <= zsum f l) by (apply zsum_nonneg; set_solver). lia.
Qed.
Lemma zsum_ext {A} (f g : A -> Z) l : (forall a, a ∈ l -> f a = g a) -> zsum f l = zsum g l.
Proof. induction l as [|a l IH]; simpl; [done|]. intros. rewrite IH by set_solver. rewrite H by set_solver. done. Qed.

Lemma zsum_cons {A} (f : A -> Z) x l : zsum f (x :: l) = f x + zsum f l.
Proof. done. Qed.
Lemma zsum_map {A B} (f : A -> B) (g : B -> Z) l : zsum g (map f l) = zsum (fun x => g (f x)) l.
Proof. induction l as [|x l IH]; [done|]. simpl. by rewrite IH. Qed.
Lemma zsum_filter {A} (P : A -> Prop) `{!forall x, Decision (P x)} (g : A -> Z) l :
  zsum g (filter P l) = zsum (fun x => if decide (P x) then g x else 0) l.
Proof. induction l as [|x l IH]; [done|]. rewrite filter_cons. simpl. destruct (decide (P x)); simpl; lia. Qed.
Lemma zsum_flat_map {A B} (f : A -> list B) (g : B -> Z) l : zsum g (flat_map f l) = zsum (fun x => zsum g (f x)) l.
Proof. induction l as [|x l IH]; [done|]. cbn [flat_map]. by rewrite zsum_app, IH. Qed.
Lemma zsum_zero {A} (l : list A) : zsum (fun _ => 0) l = 0.
Proof. induction l; simpl; lia. Qed.
(** A double sum in either order. *)
Lemma zsum_swap {A B} (f : A -> B -> Z) l k :
  zsum (fun x => zsum (f x) k) l = zsum (fun y => zsum (fun x => f x y) l) k.
Proof.
  induction l as [|x l IH]; [symmetry; apply zsum_zero|]. cbn [zsum foldr]. fold (zsum (fun x => zsum (f x) k) l).
  rewrite IH, <- zsum_plus. done.
Qed.

(** ** B-trees *)

Section btree.
Context {A K : Type} (key : A -> K) `{!Ord K} {Hord : OrdLaws K}.
Implicit Types (a b : A) (k : K) (l : list A).

(** Strictly increasing keys. *)
Definition bt_sorted : list A -> Prop :=
  StronglySorted (fun a b => ocmp (key a) (key b) = Lt).

(** The entry of a key. *)
Fixpoint bt_find (k : K) (l : list A) : option A :=
  match l with
  | [] => None
  | a :: l => match ocmp k (key a) with Eq => Some a | _ => bt_find k l end
  end.

(** Put [a] in order; an entry with the same key is updated in place. *)
Fixpoint bt_put (upd : A -> A) (a : A) (l : list A) : list A :=
  match l with
  | [] => [a]
  | b :: l =>
      match ocmp (key a) (key b) with
      | Lt => a :: b :: l
      | Eq => upd b :: l
      | Gt => b :: bt_put upd a l
      end
  end.

Fixpoint bt_remove (k : K) (l : list A) : list A :=
  match l with
  | [] => []
  | a :: l => match ocmp k (key a) with Eq => l | _ => a :: bt_remove k l end
  end.

(** [range(k..).next()]: the first entry at or after [k]. *)
Fixpoint bt_lower_bound (k : K) (l : list A) : option A :=
  match l with
  | [] => None
  | a :: l => match ocmp (key a) k with Lt => bt_lower_bound k l | _ => Some a end
  end.

Lemma bt_sorted_nil : bt_sorted [].
Proof. constructor. Qed.
Lemma bt_sorted_cons a l :
  bt_sorted (a :: l) <->
  (forall b, b ∈ l -> ocmp (key a) (key b) = Lt) /\ bt_sorted l.
Proof. unfold bt_sorted. rewrite StronglySorted_cons, Forall_forall. done. Qed.

Lemma bt_find_Some k l a : bt_find k l = Some a -> a ∈ l /\ ocmp k (key a) = Eq.
Proof.
  induction l as [|b l IH]; simpl; [done|].
  destruct (ocmp k (key b)) eqn:E; intros; simplify_eq; set_solver.
Qed.

Lemma bt_find_None k l : bt_find k l = None <-> forall a, a ∈ l -> ocmp k (key a) <> Eq.
Proof.
  rewrite <- Forall_forall.
  induction l as [|b l IH]; simpl; [split; [constructor|done]|].
  rewrite Forall_cons, <- IH. destruct (ocmp k (key b)); naive_solver.
Qed.

Lemma bt_find_elem l a k :
  bt_sorted l -> a ∈ l -> ocmp k (key a) = Eq -> bt_find k l = Some a.
Proof.
  induction l as [|b l IH]; [set_solver|].
  rewrite bt_sorted_cons. intros [Hb Hs] Ha E. simpl.
  apply elem_of_cons in Ha as [->|Ha]; [by rewrite E|].
  rewrite (ocmp_eq_l _ _ (key b) E), (ocmp_sym (key b)), (Hb a Ha). simpl. auto.
Qed.

Lemma bt_find_cong k k' l : ocmp k k' = Eq -> bt_find k l = bt_find k' l.
Proof. intros E. induction l as [|a l IH]; simpl; [done|]. by rewrite (ocmp_eq_l _ _ _ E), IH. Qed.

(** Nothing at or below the head of a sorted list occurs in its tail. *)
Lemma bt_find_below k c l :
  (forall b, b ∈ l -> ocmp (key c) (key b) = Lt) -> ocmp k (key c) = Lt ->
  bt_find k l = None.
Proof.
  intros Hc Hk. apply bt_find_None. intros b Hb E.
  pose proof (Hc b Hb) as Hlt. rewrite <- (ocmp_eq_r _ _ (key c) E) in Hlt.
  by eapply ocmp_lt_not_ge.
Qed.

(** *** Insertion *)

Section put.
Context (upd : A -> A) (Hupd : forall b, key (upd b) = key b).

Lemma elem_of_bt_put a b l :
  b ∈ bt_put upd a l -> b = a \/ b ∈ l \/ exists c, c ∈ l /\ b = upd c.
Proof.
  induction l as [|c l IH]; simpl; [set_solver|].
  destruct (ocmp (key a) (key c)); set_solver.
Qed.

Lemma bt_put_sorted a l : bt_sorted l -> bt_sorted (bt_put upd a l).
Proof.
  induction l as [|b l IH]; simpl.
  { intros _. apply bt_sorted_cons. split; [set_solver|constructor]. }
  rewrite bt_sorted_cons. intros [Hb Hs].
  destruct (ocmp (key a) (key b)) eqn:E.
  - apply bt_sorted_cons. rewrite Hupd. done.
  - rewrite bt_sorted_cons, bt_sorted_cons. split; [|done].
    intros c Hc. apply elem_of_cons in Hc as [->|Hc]; [done|].
    by eapply ocmp_lt_trans; [done|apply Hb].
  - apply bt_sorted_cons. split; [|auto].
    intros c [->|[Hc|(d & Hd & ->)]]%elem_of_bt_put; [|auto|rewrite Hupd; auto].
    by apply ocmp_gt_lt.
Qed.

Lemma bt_put_perm a l :
  bt_sorted l -> bt_find (key a) l = None -> bt_put upd a l ≡ₚ a :: l.
Proof.
  induction l as [|b l IH]; simpl; [done|].
  rewrite bt_sorted_cons. intros [Hb Hs] Hf.
  destruct (ocmp (key a) (key b)) eqn:E; [done|done|].
  rewrite IH by done. constructor.
Qed.

Lemma bt_put_replace a l b :
  bt_sorted l -> bt_find (key a) l = Some b ->
  exists l1 l2, l = l1 ++ b :: l2 /\ bt_put upd a l = l1 ++ upd b :: l2.
Proof.
  induction l as [|c l IH]; simpl; [done|].
  rewrite bt_sorted_cons. intros [Hc Hs].
  destruct (ocmp (key a) (key c)) eqn:E; intros Hf.
  - simplify_eq. by exists [], l.
  - by rewrite (bt_find_below (key a) c l) in Hf.
  - destruct IH as (l1 & l2 & -> & ->); [done..|].
    by exists (c :: l1), l2.
Qed.

Lemma bt_find_put_eq a l k :
  bt_sorted l -> ocmp k (key a) = Eq ->
  bt_find k (bt_put upd a l) =
    Some (match bt_find k l with Some b => upd b | None => a end).
Proof.
  intros Hs Ek. rewrite !(bt_find_cong k (key a)) by done. clear Ek.
  induction l as [|b l IH]; simpl; [by rewrite ocmp_refl|].
  apply bt_sorted_cons in Hs as [Hb Hs].
  destruct (ocmp (key a) (key b)) eqn:E; simpl.
  - by rewrite Hupd, E.
  - by rewrite ocmp_refl, (bt_find_below (key a) b l).
  - rewrite E. auto.
Qed.

Lemma bt_find_put_ne a l k :
  ocmp k (key a) <> Eq -> bt_find k (bt_put upd a l) = bt_find k l.
Proof.
  intros Hne. induction l as [|b l IH]; simpl; [by destruct (ocmp k (key a))|].
  destruct (ocmp (key a) (key b)) eqn:E; simpl.
  - rewrite Hupd. destruct (ocmp k (key b)) eqn:Eb; [|done..].
    exfalso. apply Hne. by rewrite <- (ocmp_eq_r _ _ k (ocmp_eq_sym _ _ E)).
  - by destruct (ocmp k (key a)).
  - by rewrite IH.
Qed.

End put.

(** *** Removal *)

Lemma bt_remove_sublist k l b : b ∈ bt_remove k l -> b ∈ l.
Proof.
  induction l as [|c l IH]; simpl; [done|].
  destruct (ocmp k (key c)); set_solver.
Qed.

Lemma bt_remove_sorted k l : bt_sorted l -> bt_sorted (bt_remove k l).
Proof.
  induction l as [|c l IH]; simpl; [done|].
  rewrite bt_sorted_cons. intros [Hc Hs].
  destruct (ocmp k (key c)); [done|..]; apply bt_sorted_cons;
    eauto using bt_remove_sublist.
Qed.

Lemma bt_remove_perm k l b : bt_find k l = Some b -> l ≡ₚ b :: bt_remove k l.
Proof.
  induction l as [|c l IH]; simpl; [done|].
  destruct (ocmp k (key c)); intros; simplify_eq; [done|..];
    rewrite IH at 1 by done; constructor.
Qed.

Lemma bt_remove_None k l : bt_find k l = None -> bt_remove k l = l.
Proof.
  induction l as [|c l IH]; simpl; [done|].
  destruct (ocmp k (key c)); intros; simplify_eq; f_equal; auto.
Qed.

Lemma bt_find_remove_eq k l : bt_sorted l -> bt_find k (bt_remove k l) = None.
Proof.
  induction l as [|c l IH]; simpl; [done|].
  rewrite bt_sorted_cons. intros [Hc Hs].
  destruct (ocmp k (key c)) eqn:E; simpl; rewrite ?E; auto.
  apply bt_find_None. intros a Ha Ea.
  pose proof (Hc a Ha) as Hlt. rewrite <- (ocmp_eq_l _ _ (key a) E), Ea in Hlt. done.
Qed.

Lemma bt_find_remove_ne k k' l :
  ocmp k' k <> Eq -> bt_find k' (bt_remove k l) = bt_find k' l.
Proof.
  intros Hne. induction l as [|c l IH]; simpl; [done|].
  destruct (ocmp k (key c)) eqn:E; simpl; [|by rewrite IH..].
  destruct (ocmp k' (key c)) eqn:E'; [|done..].
  exfalso. apply Hne. by rewrite (ocmp_eq_r _ _ k' E).
Qed.

(** *** Lower bounds *)

Lemma bt_lower_bound_Some k l a :
  bt_lower_bound k l = Some a ->
  exists l1 l2, l = l1 ++ a :: l2 /\ ocmp (key a) k <> Lt /\
    forall b, b ∈ l1 -> ocmp (key b) k = Lt.
Proof.
  induction l as [|c l IH]; simpl; [done|].
  destruct (ocmp (key c) k) eqn:E; intros Hb; simplify_eq.
  - exists [], l. rewrite E. set_solver.
  - destruct IH as (l1 & l2 & -> & Ha & Hl); [done|].
    exists (c :: l1), l2. set_solver.
  - exists [], l. rewrite E. set_solver.
Qed.

Lemma bt_lower_bound_None k l :
  bt_lower_bound k l = None -> forall a, a ∈ l -> ocmp (key a) k = Lt.
Proof.
  induction l as [|c l IH]; simpl; [set_solver|].
  destruct (ocmp (key c) k) eqn:E; [done| |done]. set_solver.
Qed.

(** A sorted list is determined by its lookups. *)
Lemma bt_sorted_ext l1 l2 :
  bt_sorted l1 -> bt_sorted l2 -> (forall a, a ∈ l1 <-> a ∈ l2) -> l1 = l2.
Proof.
  revert l2. induction l1 as [|a l1 IH]; intros [|b l2] Hs1 Hs2 Hin.
  - done.
  - exfalso. by apply (not_elem_of_nil b), Hin, list_elem_of_here.
  - exfalso. by apply (not_elem_of_nil a), Hin, list_elem_of_here.
  - apply bt_sorted_cons in Hs1 as [Ha Hs1]. apply bt_sorted_cons in Hs2 as [Hb Hs2].
    assert (a = b) as <-.
    { pose proof (proj1 (elem_of_cons _ _ _) (proj1 (Hin a) (list_elem_of_here _ _))) as [->|Hab]; [done|].
      pose proof (proj1 (elem_of_cons _ _ _) (proj2 (Hin b) (list_elem_of_here _ _))) as [->|Hba]; [done|].
      exfalso. by eapply ocmp_lt_not_ge; [apply Ha|apply Hb]. }
    f_equal. apply IH; [done..|]. intros c. specialize (Hin c).
    rewrite !elem_of_cons in Hin. split; intros Hc.
    + destruct (proj1 Hin (or_intror Hc)) as [->|Hc']; [|done].
      exfalso. specialize (Ha a Hc). by rewrite ocmp_refl in Ha.
    + destruct (proj2 Hin (or_intror Hc)) as [->|Hc']; [|done].
      exfalso. specialize (Hb a Hc). by rewrite ocmp_refl in Hb.
Qed.
End btree.
