(* ===== verification/MemoryPool.v ===== *)
(** * Memory accounting: [memory_pool.rs]

    [Broker] is the trait [MemoryReservationBroker] (its JVM implementation
    calls into Flink and is a parameter), [resv] is [HostMemoryReservation] and
    [pool] is [FlinkMemoryPool]. [world] puts the reservations and pools of one
    broker side by side; every operation of the two types is a command of
    [exec], and the accounting theorems hold along every command sequence. *)

From Stdlib Require Import ZArith Lia.
From stdpp Require Import base list option numbers strings.
From S2P Require Import Prelude Bytes OrdMap.

(** ** The broker *)

Class Broker (B : Type) : Type := {
  try_reserve : Z -> M B bool;
  release : Z -> M B unit;
  available : B -> outcome (option Z);
  broker_limit : B -> outcome (option Z);
  broker_transfer_to_arrow : Z -> M B unit;
}.

(** What the runtime relies on: a granted request raises the native total by
    exactly the bytes asked for and keeps it within the host's signed 64-bit
    count, a release or a transfer to Arrow lowers it by exactly the bytes given
    back, and a refused call changes nothing. *)
Class BrokerLaws (B : Type) `{Broker B} : Type := {
  reserved : B -> Z;
  available_law b : available b <> Panic;
  try_reserve_law n b : 0 <= n ->
    let '(o, b') := try_reserve n b in
    o <> Panic /\
    reserved b' = reserved b + (match o with Ok true => n | _ => 0 end) /\
    (o = Ok true -> reserved b' <= I64_MAX);
  release_law n b : 0 <= n <= reserved b ->
    let '(o, b') := release n b in
    o <> Panic /\
    reserved b' = reserved b - (match o with Ok _ => n | _ => 0 end);
  transfer_law n b : 0 <= n <= reserved b ->
    let '(o, b') := broker_transfer_to_arrow n b in
    o <> Panic /\
    reserved b' = reserved b - (match o with Ok _ => n | _ => 0 end);
}.

(** A broker whose [release] never fails on bytes it has granted. *)
Class ReleaseTotal (B : Type) `{BrokerLaws B} : Prop :=
  release_total n b : 0 <= n <= reserved b -> fst (release n b) = Ok tt.

(** ** [HostMemoryReservation] *)

(** [rbroker] is the identity of the shared [Arc] (compared by [Arc::ptr_eq]). *)
Record resv : Type := Resv { rbroker : nat; consumer : string; rsize : Z }.

Definition set_rsize (n : Z) (r : resv) : resv :=
  {| rbroker := rbroker r; consumer := consumer r; rsize := n |}.

(** Run a computation on a component of the state, next to the broker. *)
Definition zoom {B S T A} (get : S -> T) (set : T -> S -> S) (m : M (T * B) A)
  : M (S * B) A := fun '(s, b) =>
  let '(o, (t, b')) := m (get s, b) in (o, (set t s, b')).

Section reservation.
Context `{Broker B}.

Definition on_broker {T A} (m : M B A) : M (T * B) A := fun '(t, b) =>
  let '(o, b') := m b in (o, (t, b')).

Definition host_new (broker : nat) (name : string) : resv :=
  {| rbroker := broker; consumer := name; rsize := 0 |}.
Definition sibling (r : resv) (name : string) : resv := host_new (rbroker r) name.

Definition host_try_grow (additional : Z) : M (resv * B) unit := fun '(r, b) =>
  if additional =? 0 then (Ok tt, (r, b)) else
  match checked_add (rsize r) additional with
  | None => (Err (ResourcesExhausted "memory reservation overflowed usize"), (r, b))
  | Some requested =>
      match try_reserve additional b with
      | (Ok true, b') => (Ok tt, (set_rsize requested r, b'))
      | (Ok false, b') =>
          (* [available()?] only feeds the message, but its error comes first *)
          match available b' with
          | Ok _ => (Err (ResourcesExhausted "Flink denied"), (r, b'))
          | Err e => (Err e, (r, b'))
          | Panic => (Panic, (r, b'))
          end
      | (Err e, b') => (Err e, (r, b'))
      | (Panic, b') => (Panic, (r, b'))
      end
  end.

Definition resize (size : Z) : M (resv * B) unit := fun '(r, b) =>
  if rsize r <? size then host_try_grow (size - rsize r) (r, b) else
  match release (rsize r - size) b with
  | (Ok _, b') => (Ok tt, (set_rsize size r, b'))
  | (Err e, b') => (Err e, (r, b'))
  | (Panic, b') => (Panic, (r, b'))
  end.

(** Returns the moved allowance and what is left of the source. *)
Definition split (bytes : Z) (name : string) (r : resv) : outcome (resv * resv) :=
  if rsize r <? bytes then Err (Internal "cannot split bytes")
  else Ok (set_rsize bytes (sibling r name), set_rsize (rsize r - bytes) r).

Definition grow_from (self source : resv) (bytes : Z) : outcome (resv * resv) :=
  if negb (Nat.eqb (rbroker self) (rbroker source)) || (rsize source <? bytes)
  then Err (Internal "native reservation transfer requires sufficient credit")
  else
    size ← ok_or (ResourcesExhausted "native reservation transfer overflow")
             (checked_add (rsize self) bytes);
    Ok (set_rsize size self, set_rsize (rsize source - bytes) source).

Definition transfer_to_arrow (bytes : Z) : M (resv * B) unit := fun '(r, b) =>
  if rsize r <? bytes then (Err (Internal "attempted to transfer"), (r, b)) else
  match broker_transfer_to_arrow bytes b with
  | (Ok _, b') => (Ok tt, (set_rsize (rsize r - bytes) r, b'))
  | (Err e, b') => (Err e, (r, b'))
  | (Panic, b') => (Panic, (r, b'))
  end.

Definition available_capacity (r : resv) (b : B) : outcome (option Z) :=
  o ← available b; Ok (option_map (sat_add (rsize r)) o).

(** [Drop]: the remaining bytes go back; a failing release panics. *)
Definition host_drop (r : resv) : M B unit := fun b =>
  if rsize r =? 0 then (Ok tt, b)
  else let '(o, b') := release (rsize r) b in (expect o, b').

(** An early [Err] drops the local reservation [r]. *)
Definition fail_dropping {A} (r : resv) (e : error) : M B A := fun b =>
  let '(o, b') := host_drop r b in (match o with Panic => Panic | _ => Err e end, b').

(** [let mut r = owner.sibling(name); r.resize(n)?]. *)
Definition reserve_sibling (owner : resv) (name : string) (n : Z) : M B resv := fun b =>
  match resize n (sibling owner name, b) with
  | (Ok _, (r, b')) => (Ok r, b')
  | (Err e, (r, b')) => fail_dropping r e b'
  | (Panic, (_, b')) => (Panic, b')
  end.

(** A local reservation lives for the body of a block: [Drop] runs on every
    exit, after an error as after a success. *)
Definition scoped {T A} (name : string) (parent : resv)
    (body : M (resv * (T * B)) A) : M (T * B) A := fun '(t, b) =>
  let '(o, (r, (t', b1))) := body (sibling parent name, (t, b)) in
  match o with
  | Panic => (Panic, (t', b1))
  | _ =>
      match host_drop r b1 with
      | (Ok _, b2) => (o, (t', b2))
      | (_, b2) => (Panic, (t', b2))
      end
  end.

(** ** [FlinkMemoryPool] *)

Record pool : Type := Pool { plimit : option Z; preserved : Z }.

Definition pool_new (limit : Z) : pool := {| plimit := Some limit; preserved := 0 |}.
Definition datafusion_pool (b : B) : outcome pool :=
  l ← broker_limit b; Ok {| plimit := l; preserved := 0 |}.

Definition pool_try_grow (additional : Z) : M (pool * B) unit := fun '(p, b) =>
  if additional =? 0 then (Ok tt, (p, b)) else
  match checked_add (preserved p) additional with
  | None => (Err (ResourcesExhausted "native memory reservation overflowed usize"), (p, b))
  | Some requested =>
      if match plimit p with Some limit => limit <? requested | None => false end
      then (Err (ResourcesExhausted "Flink assigned"), (p, b))
      else
      match try_reserve additional b with
      | (Ok true, b') => (Ok tt, ({| plimit := plimit p; preserved := requested |}, b'))
      | (Ok false, b') => (Err (ResourcesExhausted "Flink denied"), (p, b'))
      | (Err e, b') => (Err e, (p, b'))
      | (Panic, b') => (Panic, (p, b'))
      end
  end.

Definition pool_grow (additional : Z) : M (pool * B) unit := fun s =>
  let '(o, s') := pool_try_grow additional s in (expect o, s').

Definition pool_shrink (shrink : Z) : M (pool * B) unit := fun '(p, b) =>
  if shrink =? 0 then (Ok tt, (p, b)) else
  if preserved p <? shrink then (Panic, (p, b)) else
  match release shrink b with
  | (Ok _, b') => (Ok tt, ({| plimit := plimit p; preserved := preserved p - shrink |}, b'))
  | (_, b') => (Panic, (p, b'))
  end.

Definition pool_drop (p : pool) : M B unit := fun b =>
  if preserved p =? 0 then (Ok tt, b)
  else let '(o, b') := release (preserved p) b in (expect o, b').
End reservation.

(** ** One broker and its owners *)

Record world (B : Type) : Type := World {
  wbroker : B;
  wresv : list resv;
  wpools : list pool;
}.
Arguments World {B}.
Arguments wbroker {B}.
Arguments wresv {B}.
Arguments wpools {B}.

Inductive command : Type :=
  | CNew (broker : nat) (name : string)
  | CTryGrow (i : nat) (n : Z)
  | CResize (i : nat) (n : Z)
  | CSplit (i : nat) (n : Z) (name : string)
  | CGrowFrom (self source : nat) (n : Z)
  | CTransfer (i : nat) (n : Z)
  | CDrop (i : nat)
  | CPoolNew (limit : Z)
  | CPoolTryGrow (j : nat) (n : Z)
  | CPoolShrink (j : nat) (n : Z)
  | CPoolDrop (j : nat).

Section world.
Context `{Broker B}.

Definition on_resv (i : nat) (m : M (resv * B) unit) (w : world B)
  : outcome unit * world B :=
  match wresv w !! i with
  | None => (Panic, w)
  | Some r =>
      let '(o, (r', b)) := m (r, wbroker w) in
      (o, World b (<[i := r']> (wresv w)) (wpools w))
  end.

Definition on_pool (j : nat) (m : M (pool * B) unit) (w : world B)
  : outcome unit * world B :=
  match wpools w !! j with
  | None => (Panic, w)
  | Some p =>
      let '(o, (p', b)) := m (p, wbroker w) in
      (o, World b (wresv w) (<[j := p']> (wpools w)))
  end.

(** One call on one owner. A command on an owner that does not exist, and
    [grow_from] of a reservation into itself, cannot be written in Rust. *)
Definition exec (c : command) (w : world B) : outcome unit * world B :=
  match c with
  | CNew k name => (Ok tt, World (wbroker w) (wresv w ++ [host_new k name]) (wpools w))
  | CTryGrow i n => on_resv i (host_try_grow n) w
  | CResize i n => on_resv i (resize n) w
  | CSplit i n name =>
      match wresv w !! i with
      | None => (Panic, w)
      | Some r =>
          match split n name r with
          | Ok (r1, r2) => (Ok tt, World (wbroker w) (<[i := r2]> (wresv w) ++ [r1]) (wpools w))
          | Err e => (Err e, w)
          | Panic => (Panic, w)
          end
      end
  | CGrowFrom i j n =>
      match wresv w !! i, wresv w !! j with
      | Some r, Some s =>
          if Nat.eqb i j then (Panic, w) else
          match grow_from r s n with
          | Ok (r', s') => (Ok tt, World (wbroker w) (<[j := s']> (<[i := r']> (wresv w))) (wpools w))
          | Err e => (Err e, w)
          | Panic => (Panic, w)
          end
      | _, _ => (Panic, w)
      end
  | CTransfer i n => on_resv i (transfer_to_arrow n) w
  | CDrop i =>
      match wresv w !! i with
      | None => (Panic, w)
      | Some r =>
          let '(o, b) := host_drop r (wbroker w) in
          (o, World b (delete i (wresv w)) (wpools w))
      end
  | CPoolNew limit => (Ok tt, World (wbroker w) (wresv w) (wpools w ++ [pool_new limit]))
  | CPoolTryGrow j n => on_pool j (pool_try_grow n) w
  | CPoolShrink j n => on_pool j (pool_shrink n) w
  | CPoolDrop j =>
      match wpools w !! j with
      | None => (Panic, w)
      | Some p =>
          let '(o, b) := pool_drop p (wbroker w) in
          (o, World b (wresv w) (delete j (wpools w)))
      end
  end.

(** The arguments are [usize] values. *)
Definition command_ok (c : command) : Prop :=
  match c with
  | CTryGrow _ n | CResize _ n | CSplit _ n _ | CGrowFrom _ _ n | CTransfer _ n
  | CPoolTryGrow _ n | CPoolShrink _ n | CPoolNew n => is_usize n
  | _ => True
  end.

(** A run: any sequence of calls, each of which may return an error; a panic
    ends the task and nothing runs after it. *)
Inductive run : world B -> world B -> Prop :=
  | run_nil w : run w w
  | run_cons w c o w1 w2 :
      command_ok c -> exec c w = (o, w1) -> o <> Panic -> run w1 w2 -> run w w2.
End world.

(** ** Accounting *)

Section accounting.
Context `{BrokerLaws B}.

(** *** Single calls

    Every call keeps the difference between what the broker has granted and
    what the owner holds; an error leaves the owner as it was. *)
Record balanced (r : resv) (b : B) (o : outcome unit) (r' : resv) (b' : B) : Prop := {
  bal_total : reserved b' - rsize r' = reserved b - rsize r;
  bal_usize : is_usize (rsize r');
  bal_no_panic : o <> Panic;
  bal_err : forall e, o = Err e -> r' = r /\ reserved b' = reserved b;
  bal_broker : rbroker r' = rbroker r;
  bal_max : o = Ok tt -> rsize r < rsize r' -> reserved b' <= I64_MAX;
}.

Lemma host_try_grow_balanced n r b :
  is_usize n -> is_usize (rsize r) ->
  let '(o, (r', b')) := host_try_grow n (r, b) in
  balanced r b o r' b' /\ (o = Ok tt -> rsize r' = rsize r + n).
Proof.
  intros Hn Hr. unfold host_try_grow, checked_add.
  destruct (Z.eqb_spec n 0); [split; [split; naive_solver lia|naive_solver lia]|].
  case_bool; [|split; [split; naive_solver lia|done]].
  pose proof (try_reserve_law n b ltac:(mlia)) as Hlaw.
  destruct (try_reserve n b) as [[[]| |] b'] eqn:E; destruct Hlaw as (Hp & Hres & Hmax); try done;
    try (split; [split; naive_solver lia|done]).
  - simpl. split; [split; simpl; try done; try mlia; auto|done].
  - pose proof (available_law b') as Ha.
    destruct (available b'); try done; split; try (split; naive_solver lia); done.
Qed.

Lemma resize_balanced n r b :
  is_usize n -> is_usize (rsize r) -> rsize r <= reserved b ->
  let '(o, (r', b')) := resize n (r, b) in
  balanced r b o r' b' /\ (o = Ok tt -> rsize r' = n).
Proof.
  intros Hn Hr Hle. unfold resize. destruct (Z.ltb_spec (rsize r) n).
  - pose proof (host_try_grow_balanced (n - rsize r) r b ltac:(mlia) Hr) as Hg.
    destruct (host_try_grow (n - rsize r) (r, b)) as [o [r' b']].
    destruct Hg as [Hb Hok]. split; [done|]. intros. rewrite Hok by done. lia.
  - assert (0 <= (rsize r - n) <= reserved b) as Hrange by mlia. pose proof (release_law (rsize r - n) b Hrange) as Hlaw.
    destruct (release (rsize r - n) b) as [[] b']; destruct Hlaw as [Hp Hres]; try done.
    + split; [split; simpl; try done; try mlia; auto|done].
    + split; [split; naive_solver lia|done].
Qed.

(** Without a failing release a shrinking [resize] cannot be refused. *)
Lemma resize_shrink `{!ReleaseTotal B} n r b :
  0 <= n <= rsize r -> rsize r <= reserved b ->
  fst (resize n (r, b)) = Ok tt.
Proof.
  intros Hn Hle. unfold resize. destruct (Z.ltb_spec (rsize r) n); [lia|].
  assert (0 <= (rsize r - n) <= reserved b) as Hrange by lia. pose proof (release_total (rsize r - n) b Hrange) as Hr.
  destruct (release (rsize r - n) b) as [o b']. simpl in Hr. by subst.
Qed.

Lemma transfer_balanced n r b :
  is_usize n -> is_usize (rsize r) -> rsize r <= reserved b ->
  let '(o, (r', b')) := transfer_to_arrow n (r, b) in balanced r b o r' b'.
Proof.
  intros Hn Hr Hle. unfold transfer_to_arrow.
  destruct (Z.ltb_spec (rsize r) n); [split; naive_solver lia|].
  assert (0 <= n <= reserved b) as Hrange by mlia. pose proof (transfer_law n b Hrange) as Hlaw.
  destruct (broker_transfer_to_arrow n b) as [[] b']; destruct Hlaw as [Hp Hres]; try done.
  - split; simpl; try done; mlia.
  - split; naive_solver lia.
Qed.

Lemma host_drop_releases r b :
  0 <= rsize r <= reserved b -> fst (host_drop r b) <> Panic ->
  reserved (snd (host_drop r b)) = reserved b - rsize r.
Proof.
  intros Hle. unfold host_drop. destruct (Z.eqb_spec (rsize r) 0); [simpl; lia|].
  pose proof (release_law (rsize r) b Hle) as Hlaw.
  destruct (release (rsize r) b) as [[] b']; destruct Hlaw as [Hp Hres]; simpl; try done; lia.
Qed.

Lemma host_drop_total `{!ReleaseTotal B} r b :
  0 <= rsize r <= reserved b ->
  exists b', host_drop r b = (Ok tt, b') /\ reserved b' = reserved b - rsize r.
Proof.
  intros Hr. unfold host_drop. destruct (Z.eqb_spec (rsize r) 0); [exists b; split; [done|lia]|].
  pose proof (release_total (rsize r) b Hr) as Hrt. pose proof (release_law (rsize r) b Hr) as Hl.
  destruct (release (rsize r) b) as [o' b3]. simpl in Hrt. subst o'. exists b3. by destruct Hl.
Qed.

Lemma pool_drop_releases p b :
  0 <= preserved p <= reserved b -> fst (pool_drop p b) <> Panic ->
  reserved (snd (pool_drop p b)) = reserved b - preserved p.
Proof.
  intros Hle. unfold pool_drop. destruct (Z.eqb_spec (preserved p) 0); [simpl; lia|].
  pose proof (release_law (preserved p) b Hle) as Hlaw.
  destruct (release (preserved p) b) as [[] b']; destruct Hlaw as [Hp Hres]; simpl; try done; lia.
Qed.

Definition pool_ok (p : pool) : Prop :=
  is_usize (preserved p) /\ forall limit, plimit p = Some limit -> preserved p <= limit.

Lemma pool_try_grow_balanced n p b :
  is_usize n -> pool_ok p ->
  let '(o, (p', b')) := pool_try_grow n (p, b) in
  reserved b' - preserved p' = reserved b - preserved p /\ pool_ok p' /\ o <> Panic.
Proof.
  intros Hn [Hu Hl]. unfold pool_try_grow, checked_add.
  destruct (Z.eqb_spec n 0); [by split_and!|].
  case_bool; [|by split_and!].
  destruct (match plimit p with Some _ => _ | None => _ end) eqn:El; [by split_and!|].
  pose proof (try_reserve_law n b ltac:(mlia)) as Hlaw.
  destruct (try_reserve n b) as [[[]| |] b'] eqn:E; destruct Hlaw as (Hp & Hres & Hmax); try done;
    try (split_and!; [lia|done|done]).
  simpl. split_and!; [lia| |done]. split; simpl; [mlia|].
  intros limit Hlim. rewrite Hlim in El. apply Z.ltb_ge in El. done.
Qed.

Lemma pool_shrink_balanced n p b :
  is_usize n -> pool_ok p -> preserved p <= reserved b ->
  let '(o, (p', b')) := pool_shrink n (p, b) in
  o <> Panic ->
  reserved b' - preserved p' = reserved b - preserved p /\ pool_ok p'.
Proof.
  intros Hn [Hu Hl] Hle. unfold pool_shrink.
  destruct (Z.eqb_spec n 0); [done|]. case_bool; [done|].
  assert (0 <= n <= reserved b) as Hrange by mlia. pose proof (release_law n b Hrange) as Hlaw.
  destruct (release n b) as [[] b']; destruct Hlaw as [Hp Hres]; try done.
  intros _. simpl. split; [lia|]. split; simpl; [mlia|].
  intros limit Hlim. specialize (Hl limit Hlim). mlia.
Qed.

(** *** Whole runs *)

Definition total (w : world B) : Z := zsum rsize (wresv w) + zsum preserved (wpools w).

(** What the broker has granted is exactly what the live owners hold. *)
Record accounted (w : world B) : Prop := Accounted {
  acc_total : reserved (wbroker w) = total w;
  acc_resv : Forall (fun r => is_usize (rsize r)) (wresv w);
  acc_pool : Forall pool_ok (wpools w);
}.

Lemma accounted_resv_le w i r :
  accounted w -> wresv w !! i = Some r ->
  is_usize (rsize r) /\ rsize r <= reserved (wbroker w).
Proof.
  intros [Ht Hr Hp] Hi. rewrite Forall_forall in Hr; rewrite Forall_forall in Hp.
  split; [by eapply Hr, list_elem_of_lookup_2|]. rewrite Ht. unfold total.
  pose proof (zsum_lookup_le rsize (wresv w) i r).
  pose proof (zsum_nonneg preserved (wpools w)).
  assert (forall a, a ∈ wresv w -> 0 <= rsize a) by (intros a Ha; apply Hr in Ha; mlia).
  assert (forall a, a ∈ wpools w -> 0 <= preserved a) by (intros a Ha; apply Hp in Ha as [Ha _]; mlia).
  specialize (H1 H3 Hi). specialize (H2 H4). lia.
Qed.

Lemma accounted_pool_le w j p :
  accounted w -> wpools w !! j = Some p ->
  pool_ok p /\ preserved p <= reserved (wbroker w).
Proof.
  intros [Ht Hr Hp] Hi. rewrite Forall_forall in Hr; rewrite Forall_forall in Hp.
  split; [by eapply Hp, list_elem_of_lookup_2|]. rewrite Ht. unfold total.
  pose proof (zsum_lookup_le preserved (wpools w) j p).
  pose proof (zsum_nonneg rsize (wresv w)).
  assert (forall a, a ∈ wresv w -> 0 <= rsize a) by (intros a Ha; apply Hr in Ha; mlia).
  assert (forall a, a ∈ wpools w -> 0 <= preserved a) by (intros a Ha; apply Hp in Ha as [Ha _]; mlia).
  specialize (H1 H4 Hi). specialize (H2 H3). lia.
Qed.

Lemma on_resv_accounted i m w o w' :
  (forall r b, is_usize (rsize r) -> rsize r <= reserved b ->
     let '(o, (r', b')) := m (r, b) in balanced r b o r' b') ->
  accounted w -> on_resv i m w = (o, w') -> accounted w'.
Proof.
  intros Hm Hw. unfold on_resv. destruct (wresv w !! i) as [r|] eqn:Hi; [|naive_solver].
  destruct (accounted_resv_le w i r Hw Hi) as [Hr Hle].
  specialize (Hm r (wbroker w) Hr Hle). destruct Hw as [Ht HR HP].
  destruct (m (r, wbroker w)) as [o1 [r' b']]. intros E; simplify_eq.
  destruct Hm as [Hbal Hu _ _ _ _]. split; simpl; [|by apply Forall_insert|done].
  unfold total in *; simpl. rewrite (zsum_insert rsize _ i r r') by done. lia.
Qed.

Lemma on_pool_accounted j m w o w' :
  (forall p b, pool_ok p -> preserved p <= reserved b ->
     let '(o, (p', b')) := m (p, b) in
     o <> Panic -> reserved b' - preserved p' = reserved b - preserved p /\ pool_ok p') ->
  accounted w -> on_pool j m w = (o, w') -> o <> Panic -> accounted w'.
Proof.
  intros Hm Hw. unfold on_pool. destruct (wpools w !! j) as [p|] eqn:Hj; [|naive_solver].
  destruct (accounted_pool_le w j p Hw Hj) as [Hp Hle].
  specialize (Hm p (wbroker w) Hp Hle). destruct Hw as [Ht HR HP].
  destruct (m (p, wbroker w)) as [o1 [p' b']]. intros E Hno; simplify_eq.
  destruct (Hm Hno) as [Hbal Hok]. split; simpl; [|done|by apply Forall_insert].
  unfold total in *; simpl. rewrite (zsum_insert preserved _ j p p') by done. lia.
Qed.

Lemma split_accounted w i n name r r1 r2 :
  accounted w -> is_usize n -> wresv w !! i = Some r -> split n name r = Ok (r1, r2) ->
  accounted (World (wbroker w) (<[i := r2]> (wresv w) ++ [r1]) (wpools w)).
Proof.
  intros Hw Hn Hi. destruct (accounted_resv_le w i r Hw Hi) as [Hr _].
  destruct Hw as [Ht HR HP]. unfold split. case_bool; intros E; simplify_eq.
  split; simpl; [|apply Forall_app; split; [apply Forall_insert|apply Forall_singleton]; simpl; try done; mlia|done].
  unfold total in *; simpl. rewrite zsum_app, (zsum_insert rsize _ i r) by done. simpl. lia.
Qed.

Lemma grow_from_accounted w i j n r s r' s' :
  accounted w -> is_usize n -> wresv w !! i = Some r -> wresv w !! j = Some s -> i <> j ->
  grow_from r s n = Ok (r', s') ->
  accounted (World (wbroker w) (<[j := s']> (<[i := r']> (wresv w))) (wpools w)).
Proof.
  intros Hw Hn Hi Hj Hne.
  destruct (accounted_resv_le w i r Hw Hi) as [Hr _].
  destruct (accounted_resv_le w j s Hw Hj) as [Hs _].
  destruct Hw as [Ht HR HP]. unfold grow_from, checked_add.
  destruct (negb _); simpl; [done|]. destruct (Z.ltb_spec (rsize s) n); [done|].
  destruct (Z.leb_spec (rsize r + n) USIZE_MAX); [|done]. intros E; simplify_eq/=.
  split; simpl; [|repeat apply Forall_insert; simpl; try done; mlia|done].
  unfold total in *; simpl.
  rewrite (zsum_insert rsize _ j s) by (by rewrite list_lookup_insert_ne).
  rewrite (zsum_insert rsize _ i r) by done. simpl. lia.
Qed.

Lemma new_accounted w k name :
  accounted w -> accounted (World (wbroker w) (wresv w ++ [host_new k name]) (wpools w)).
Proof.
  intros [Ht HR HP].
  split; simpl; [|apply Forall_app; split; [done|apply Forall_singleton; simpl; mlia]|done].
  unfold total in *; simpl. rewrite zsum_app. simpl. lia.
Qed.

Lemma pool_new_accounted w limit :
  is_usize limit -> accounted w ->
  accounted (World (wbroker w) (wresv w) (wpools w ++ [pool_new limit])).
Proof.
  intros Hl [Ht HR HP]. split; simpl; [|done|].
  - unfold total in *; simpl. rewrite zsum_app. simpl. lia.
  - apply Forall_app; split; [done|]. apply Forall_singleton. split; simpl; [mlia|].
    intros ? [= <-]. mlia.
Qed.

Lemma drop_accounted i w o w' :
  accounted w -> exec (CDrop i) w = (o, w') -> o <> Panic -> accounted w'.
Proof.
  intros Hw Hx Hno; simpl in Hx. destruct (wresv w !! i) as [r|] eqn:Hi; [|naive_solver].
  destruct (accounted_resv_le w i r Hw Hi) as [Hr Hle].
  assert (0 <= rsize r <= reserved (wbroker w)) as Hrange by mlia.
  pose proof (host_drop_releases r (wbroker w) Hrange) as Hd.
  destruct (host_drop r (wbroker w)) as [o1 b1]. simplify_eq/=. specialize (Hd Hno).
  destruct Hw as [Ht HR HP]. split; simpl; [|by apply Forall_delete|done].
  unfold total in *; simpl. rewrite (zsum_delete rsize _ i r) by done. lia.
Qed.

Lemma pool_drop_accounted j w o w' :
  accounted w -> exec (CPoolDrop j) w = (o, w') -> o <> Panic -> accounted w'.
Proof.
  intros Hw Hx Hno; simpl in Hx. destruct (wpools w !! j) as [p|] eqn:Hj; [|naive_solver].
  destruct (accounted_pool_le w j p Hw Hj) as [[Hu _] Hle].
  assert (0 <= preserved p <= reserved (wbroker w)) as Hrange by mlia.
  pose proof (pool_drop_releases p (wbroker w) Hrange) as Hd.
  destruct (pool_drop p (wbroker w)) as [o1 b1]. simplify_eq/=. specialize (Hd Hno).
  destruct Hw as [Ht HR HP]. split; simpl; [|done|by apply Forall_delete].
  unfold total in *; simpl. rewrite (zsum_delete preserved _ j p) by done. lia.
Qed.

Lemma exec_accounted c w o w' :
  command_ok c -> accounted w -> exec c w = (o, w') -> o <> Panic -> accounted w'.
Proof.
  intros Hc Hw Hx Hno. destruct c as [k nm|i n|i n|i n nm|i j n|i n|i|l|j n|j n|j]; simpl in *.
  - simplify_eq. by apply new_accounted.
  - eapply on_resv_accounted; [|done|done]. intros r b Hr _.
    pose proof (host_try_grow_balanced n r b Hc Hr). by repeat case_match; destruct_and?.
  - eapply on_resv_accounted; [|done|done]. intros r b Hr Hle.
    pose proof (resize_balanced n r b Hc Hr Hle). by repeat case_match; destruct_and?.
  - destruct (wresv w !! i) as [r|] eqn:Hi; [|naive_solver].
    destruct (split n nm r) as [[r1 r2]| |] eqn:Hs; simplify_eq; try done.
    by eapply split_accounted.
  - destruct (wresv w !! i) as [r|] eqn:Hi; [|naive_solver].
    destruct (wresv w !! j) as [s|] eqn:Hj; [|naive_solver].
    destruct (Nat.eqb_spec i j); [naive_solver|].
    destruct (grow_from r s n) as [[r1 s1]| |] eqn:Hg; simplify_eq; try done.
    by eapply grow_from_accounted.
  - eapply on_resv_accounted; [|done|done]. intros r b Hr Hle.
    pose proof (transfer_balanced n r b Hc Hr Hle). by repeat case_match.
  - by eapply drop_accounted.
  - simplify_eq. by apply pool_new_accounted.
  - eapply on_pool_accounted; [|done|done|done]. intros p b Hp _.
    pose proof (pool_try_grow_balanced n p b Hc Hp). by repeat case_match; destruct_and?.
  - eapply on_pool_accounted; [|done|done|done]. intros p b Hp Hle.
    pose proof (pool_shrink_balanced n p b Hc Hp Hle). by repeat case_match.
  - by eapply pool_drop_accounted.
Qed.

(** C2: along every sequence of calls on the reservations and pools of one
    broker, errors included, the bytes the broker has granted are exactly the
    bytes the live owners hold (no leak, no double charge), every pool stays
    within its assigned limit, and once every owner has been dropped the
    broker has everything back. *)
Theorem run_accounted (w w' : world B) :
  accounted w -> run w w' ->
  reserved (wbroker w') = zsum rsize (wresv w') + zsum preserved (wpools w') /\
  Forall pool_ok (wpools w') /\
  (wresv w' = [] -> wpools w' = [] -> reserved (wbroker w') = 0).
Proof.
  intros Hw Hrun. assert (accounted w') as [Ht HR HP].
  { induction Hrun; eauto using exec_accounted. }
  split_and!; [done|done|]. intros Hr Hp. rewrite Ht. unfold total. by rewrite Hr, Hp.
Qed.

(** A call that fails on a reservation changes neither the reservation nor
    the broker's total, and a [resize] that succeeds sets exactly the size
    asked for. *)
Theorem resize_atomic (n : Z) (r : resv) (b : B) :
  is_usize n -> is_usize (rsize r) -> rsize r <= reserved b ->
  match resize n (r, b) with
  | (Ok _, (r', b')) => rsize r' = n /\ reserved b' = reserved b + (n - rsize r)
  | (Err _, (r', b')) => r' = r /\ reserved b' = reserved b
  | (Panic, _) => False
  end.
Proof.
  intros Hn Hr Hle. pose proof (resize_balanced n r b Hn Hr Hle) as Hb.
  destruct (resize n (r, b)) as [[[]|e|] [r' b']]; destruct Hb as [[] Hok].
  - specialize (Hok eq_refl). lia.
  - by apply (bal_err0 e).
  - done.
Qed.
End accounting.

(** ** A concrete broker: a counter with a limit *)

Record budget : Type := Budget { bg_reserved : Z; bg_limit : Z }.

#[global] Instance budget_broker : Broker budget := {|
  try_reserve n b :=
    if bg_reserved b + n <=? Z.min (bg_limit b) I64_MAX
    then (Ok true, {| bg_reserved := bg_reserved b + n; bg_limit := bg_limit b |})
    else (Ok false, b);
  release n b :=
    (Ok tt, {| bg_reserved := bg_reserved b - n; bg_limit := bg_limit b |});
  available b := Ok (Some (bg_limit b - bg_reserved b));
  broker_limit b := Ok (Some (bg_limit b));
  broker_transfer_to_arrow n b :=
    (Ok tt, {| bg_reserved := bg_reserved b - n; bg_limit := bg_limit b |});
|}.

#[global] Program Instance budget_laws : BrokerLaws budget := {| reserved := bg_reserved |}.
Next Obligation. done. Qed.
Next Obligation. intros n b Hn. simpl. case_bool; simpl; split_and!; (done || lia). Qed.
Next Obligation. intros n b Hn. simpl. done. Qed.
Next Obligation. intros n b Hn. simpl. done. Qed.

#[global] Instance budget_release_total : ReleaseTotal budget.
Proof. done. Qed.

(** Run a list of commands. *)
Fixpoint exec_all `{Broker B} (cs : list command) (w : world B) : option (world B) :=
  match cs with
  | [] => Some w
  | c :: cs => match exec c w with (Panic, _) => None | (_, w') => exec_all cs w' end
  end.

Lemma exec_all_run `{Broker B} cs (w w' : world B) :
  Forall command_ok cs -> exec_all cs w = Some w' -> run w w'.
Proof.
  revert w. induction cs as [|c cs IH]; intros w Hcs; simpl.
  { intros [= <-]. constructor. }
  apply Forall_cons in Hcs as [Hc Hcs].
  destruct (exec c w) as [o w1] eqn:E. intros Hx.
  assert (o <> Panic) by (intros ->; done).
  econstructor; [done..|]. apply IH; [done|]. by destruct o.
Qed.

Definition demo_world : world budget := World (Budget 0 128) [] [].
Definition demo_commands : list command :=
  [CNew 0 "workspace"; CNew 0 "state"; CResize 0 100; CGrowFrom 1 0 64; CTryGrow 0 90;
   CSplit 1 10 "page"; CPoolNew 40; CPoolTryGrow 0 28; CTransfer 1 4; CDrop 0;
   CPoolShrink 0 8].

Lemma run_accounted_witness :
  exists w, exec_all demo_commands demo_world = Some w /\
    reserved (wbroker w) = zsum rsize (wresv w) + zsum preserved (wpools w) /\
    reserved (wbroker w) = 80.
Proof.
  eexists. split; [vm_compute; reflexivity|]. split; [|reflexivity].
  refine (proj1 (run_accounted demo_world _ _ _)).
  - split; [reflexivity|constructor|constructor].
  - apply (exec_all_run demo_commands); [|vm_compute; reflexivity].
    repeat constructor; vm_compute; congruence.
Defined.

Lemma resize_atomic_witness :
  match resize 200 (Resv 0 "c" 60, Budget 60 128) with
  | (Ok _, (r', b')) => rsize r' = 200 /\ reserved b' = 60 + (200 - 60)
  | (Err _, (r', b')) => r' = Resv 0 "c" 60 /\ reserved b' = 60
  | (Panic, _) => False
  end.
Proof.
  refine (resize_atomic 200 (Resv 0 "c" 60) (Budget 60 128) _ _ _);
    unfold is_usize, USIZE_MAX; simpl; lia.
Defined.
