(* ===== verification/Snapshot.v ===== *)
(** * Canonical key-group snapshots: [streamfusion-state-abi]

    The backend-neutral checkpoint format: [SFS1], a version, the key group, an
    entry count, then length-prefixed keys and values. [encode] and [writer_*]
    build it, [validate], [decode] and [entries] read it back. *)

From Stdlib Require Import ZArith Lia Strings.Byte.
From stdpp Require Import base list option numbers strings.
From S2P Require Import Prelude Bytes OrdMap.

Definition SNAPSHOT_MAGIC : bytes := [x53; x46; x53; x31].
Definition SNAPSHOT_VERSION : Z := 1.

Abbreviation entry := (bytes * bytes)%type.

(** ** Writing *)

Definition write_len (output : bytes) (value : Z) : outcome bytes :=
  if value <=? U32_MAX then Ok (output ++ u32_le value)
  else Err (SnapshotError "StreamFusion state exceeds 4 GiB").

Fixpoint encode_entries (output : bytes) (es : list entry) : outcome bytes :=
  match es with
  | [] => Ok output
  | (key, value) :: es =>
      output ← write_len output (len key);
      let output := output ++ key in
      output ← write_len output (len value);
      let output := output ++ value in
      encode_entries output es
  end.

Definition encode_key_group_snapshot (key_group : Z) (es : list entry) : outcome bytes :=
  let output := SNAPSHOT_MAGIC ++ u32_le SNAPSHOT_VERSION ++ u32_le key_group in
  output ← write_len output (len es);
  encode_entries output es.

Definition key_group_snapshot_header (key_group entries bytes : Z) : outcome Bytes.bytes :=
  if U32_MAX <? entries
  then Err (SnapshotError "canonical snapshot entry count exceeds UInt32") else
  if (bytes <? 16) || ((bytes - 16) / 8 <? entries)
  then Err (SnapshotError "invalid canonical snapshot size")
  else Ok (SNAPSHOT_MAGIC ++ u32_le SNAPSHOT_VERSION ++ u32_le key_group ++ u32_le entries).

Record SnapshotWriter : Type := Writer {
  wbytes : bytes;
  expected_bytes : Z;
  remaining_entries : Z;
}.

Definition writer_new (key_group entries bytes : Z) : outcome SnapshotWriter :=
  header ← key_group_snapshot_header key_group entries bytes;
  Ok {| wbytes := header; expected_bytes := bytes; remaining_entries := wrapu 32 entries |}.

Definition writer_append (key value : bytes) (w : SnapshotWriter) : outcome SnapshotWriter :=
  if U32_MAX <? len key then Err (SnapshotError "snapshot key exceeds UInt32") else
  if U32_MAX <? len value then Err (SnapshotError "snapshot value exceeds UInt32") else
  e ← ok_or (SnapshotError "canonical snapshot size overflow")
        (n ← checked_add (len (wbytes w)) 8;
         n ← checked_add n (len key);
         checked_add n (len value));
  if (remaining_entries w =? 0) || (expected_bytes w <? e)
  then Err (SnapshotError "canonical snapshot exceeded its admitted size")
  else Ok {| wbytes := wbytes w ++ u32_le (len key) ++ key ++ u32_le (len value) ++ value;
             expected_bytes := expected_bytes w;
             remaining_entries := remaining_entries w - 1 |}.

Definition writer_finish (w : SnapshotWriter) : outcome bytes :=
  if negb (remaining_entries w =? 0) || negb (len (wbytes w) =? expected_bytes w)
  then Err (SnapshotError "canonical snapshot changed while being encoded")
  else Ok (wbytes w).

(** ** Reading *)

Definition is_empty (i : input) : bool := ioff i =? len (ibytes i).

Definition read_exact (n : Z) : M input bytes :=
  read_exact_with (SnapshotError "StreamFusion state length overflow")
                  (SnapshotError "truncated StreamFusion state") n.
Definition read_u32 : M input Z := v ← read_exact 4; mret (of_le v).
Definition read_bytes : M input bytes := n ← read_u32; read_exact n.

Fixpoint validate_entries (count : nat) : M input unit :=
  match count with
  | O => mret tt
  | S count =>
      key_len ← read_u32;
      _ ← read_exact key_len;
      value_len ← read_u32;
      _ ← read_exact value_len;
      validate_entries count
  end.

Definition validate_input (expected : Z) : M input Z :=
  magic ← read_exact 4;
  _ ← when (bool_decide (magic <> SNAPSHOT_MAGIC))
        (SnapshotError "invalid StreamFusion state magic");
  version ← read_u32;
  _ ← when (negb (version =? SNAPSHOT_VERSION))
        (SnapshotError "unsupported StreamFusion state version");
  key_group ← read_u32;
  _ ← when (negb (key_group =? expected))
        (SnapshotError "state key group does not match assigned group");
  count ← read_u32;
  size ← gets (fun i => len (ibytes i));
  _ ← when (sat_sub size 16 / 8 <? count)
        (SnapshotError "canonical snapshot entry count exceeds its byte length");
  _ ← validate_entries (Z.to_nat count);
  finished ← gets is_empty;
  _ ← when (negb finished) (SnapshotError "StreamFusion state has trailing bytes");
  mret count.

Definition validate_key_group_snapshot (expected : Z) (bs : bytes) : outcome Z :=
  fst (validate_input expected {| ibytes := bs; ioff := 0 |}).

Fixpoint decode_entries (count : nat) : M input (list entry) :=
  match count with
  | O => mret []
  | S count =>
      key ← read_bytes;
      value ← read_bytes;
      es ← decode_entries count;
      mret ((key, value) :: es)
  end.

Definition decode_key_group_snapshot (expected : Z) (bs : bytes) : outcome (list entry) :=
  count ← validate_key_group_snapshot expected bs;
  fst (decode_entries (Z.to_nat count) {| ibytes := bs; ioff := 16 |}).

(** [Entries]: the borrowed iterator; [expect("validated frame")] panics. *)
Record Entries : Type := { einput : input; eremaining : Z }.

Definition entries_next (it : Entries) : outcome (option entry * Entries) :=
  if eremaining it =? 0 then Ok (None, it) else
  match
    (key_len ← read_u32;
     key ← read_exact key_len;
     value_len ← read_u32;
     value ← read_exact value_len;
     mret (key, value)) (einput it)
  with
  | (Ok kv, i) => Ok (Some kv, {| einput := i; eremaining := eremaining it - 1 |})
  | _ => Panic
  end.

Definition key_group_snapshot_entries (group : Z) (bs : bytes) : outcome Entries :=
  remaining ← validate_key_group_snapshot group bs;
  Ok {| einput := {| ibytes := bs; ioff := 16 |}; eremaining := remaining |}.

(** Drain the iterator ([fuel] bounds the number of [next] calls). *)
Fixpoint entries_collect (fuel : nat) (it : Entries) : outcome (list entry) :=
  match fuel with
  | O => Ok []
  | S fuel =>
      r ← entries_next it;
      match r with
      | (None, _) => Ok []
      | (Some kv, it) => es ← entries_collect fuel it; Ok (kv :: es)
      end
  end.

(** ** The format as a function of its contents *)

Definition entry_ok (e : entry) : Prop := len e.1 <= U32_MAX /\ len e.2 <= U32_MAX.
Definition entry_bytes (e : entry) : bytes :=
  u32_le (len e.1) ++ e.1 ++ u32_le (len e.2) ++ e.2.
Definition payload (es : list entry) : bytes := concat (map entry_bytes es).
Definition header_bytes (key_group count : Z) : bytes :=
  SNAPSHOT_MAGIC ++ u32_le SNAPSHOT_VERSION ++ u32_le key_group ++ u32_le count.
Definition frame (key_group : Z) (es : list entry) : bytes :=
  header_bytes key_group (len es) ++ payload es.
Definition entries_ok (es : list entry) : Prop :=
  Forall entry_ok es /\ len es <= U32_MAX.

Lemma entry_bytes_len e : len (entry_bytes e) = 8 + len e.1 + len e.2.
Proof. unfold entry_bytes, len. rewrite !length_app, !u32_le_length. lia. Qed.

Lemma payload_cons e es : payload (e :: es) = entry_bytes e ++ payload es.
Proof. done. Qed.

Lemma payload_len es : len (payload es) = zsum (fun e => 8 + len e.1 + len e.2) es.
Proof.
  induction es as [|e es IH]; [done|].
  rewrite payload_cons, len_app, entry_bytes_len. simpl. lia.
Qed.

Lemma payload_len_ge es : 8 * len es <= len (payload es).
Proof.
  rewrite payload_len. induction es as [|e es IH]; [done|]. simpl. rewrite len_cons.
  pose proof (len_nonneg e.1). pose proof (len_nonneg e.2). lia.
Qed.

Lemma header_len kg n : len (header_bytes kg n) = 16.
Proof. unfold header_bytes, len. rewrite !length_app, !u32_le_length. done. Qed.

Lemma encode_entries_ok out es :
  Forall entry_ok es -> encode_entries out es = Ok (out ++ payload es).
Proof.
  revert out. induction es as [|[k v] es IH]; intros out Hes; simpl.
  { by rewrite app_nil_r. }
  apply Forall_cons in Hes as [[Hk Hv] Hes]; simpl in *. unfold write_len.
  rewrite (proj2 (Z.leb_le _ _) Hk). unfold mbind at 1; simpl.
  rewrite (proj2 (Z.leb_le _ _) Hv). unfold mbind at 1; simpl.
  rewrite IH, payload_cons by done. unfold entry_bytes; cbn [fst snd]. by rewrite !app_assoc.
Qed.

Lemma encode_entries_inv out es bs :
  encode_entries out es = Ok bs -> Forall entry_ok es /\ bs = out ++ payload es.
Proof.
  intros E. assert (Forall entry_ok es) as Hes.
  { revert out E. induction es as [|[k v] es IH]; intros out; simpl; [constructor|].
    unfold write_len. destruct (Z.leb_spec (len k) U32_MAX); [|done].
    unfold mbind at 1; simpl. destruct (Z.leb_spec (len v) U32_MAX); [|done].
    unfold mbind at 1; simpl. intros E. constructor; [done|by eapply IH]. }
  split; [done|]. rewrite encode_entries_ok in E by done. by simplify_eq.
Qed.

Lemma encode_spec kg es bs :
  encode_key_group_snapshot kg es = Ok bs <-> entries_ok es /\ bs = frame kg es.
Proof.
  unfold encode_key_group_snapshot, write_len, entries_ok, frame, header_bytes.
  destruct (Z.leb_spec (len es) U32_MAX).
  - rewrite outcome_bind_run, <- !app_assoc. split.
    + intros [? ->]%encode_entries_inv. by rewrite <- !app_assoc.
    + intros [[? _] ->]. by rewrite encode_entries_ok, <- !app_assoc.
  - split; [done|]. intros [[_ ?] _]. lia.
Qed.

(** ** Reading back *)

Lemma read_u32_run pre z r :
  slice_ok (pre ++ u32_le z ++ r) -> is_u32 z ->
  read_u32 (cursor pre (u32_le z ++ r)) = (Ok z, cursor (pre ++ u32_le z) r).
Proof.
  intros Hok Hz. unfold read_u32. erewrite M_bind_run by by apply read_u32_cursor.
  by rewrite of_u32_le.
Qed.

Lemma read_u32_inv pre r z i :
  read_u32 (cursor pre r) = (Ok z, i) ->
  exists r', r = u32_le z ++ r' /\ i = cursor (pre ++ u32_le z) r' /\ is_u32 z.
Proof. unfold read_u32. intros E. inv_M. by eapply read_u32_cursor_inv. Qed.

Lemma read_bytes_run pre k r :
  slice_ok (pre ++ (u32_le (len k) ++ k) ++ r) -> len k <= U32_MAX ->
  read_bytes (cursor pre ((u32_le (len k) ++ k) ++ r)) =
    (Ok k, cursor (pre ++ u32_le (len k) ++ k) r).
Proof.
  intros Hok Hk. pose proof (len_nonneg k). unfold read_bytes. rewrite <- !app_assoc in *.
  erewrite M_bind_run; [|apply read_u32_run; [done|mlia]].
  unfold read_exact. rewrite read_exact_cursor; [by rewrite <- app_assoc| |done].
  by rewrite <- !app_assoc.
Qed.

Lemma read_bytes_inv pre r k i :
  read_bytes (cursor pre r) = (Ok k, i) ->
  exists r', r = (u32_le (len k) ++ k) ++ r' /\ i = cursor (pre ++ u32_le (len k) ++ k) r' /\
    len k <= U32_MAX.
Proof.
  unfold read_bytes. intros E. inv_M.
  apply read_u32_inv in E0 as (r1 & -> & -> & Hz).
  apply read_exact_cursor_inv in E as (r2 & -> & -> & <-); [|mlia].
  exists r2. rewrite <- !app_assoc. split_and!; [done|done|mlia].
Qed.

Lemma decode_entries_run pre es r :
  Forall entry_ok es -> slice_ok (pre ++ payload es ++ r) ->
  decode_entries (length es) (cursor pre (payload es ++ r)) = (Ok es, cursor (pre ++ payload es) r).
Proof.
  revert pre. induction es as [|[k v] es IH]; intros pre Hes Hok; cbn [decode_entries length].
  { unfold payload; simpl. by rewrite app_nil_r. }
  apply Forall_cons in Hes as [[Hk Hv] Hes]; cbn [fst snd] in *.
  rewrite payload_cons in *. unfold entry_bytes in *; cbn [fst snd] in *.
  rewrite (app_assoc (u32_le (len k)) k) in *. rewrite <- !app_assoc in *.
  rewrite (app_assoc (u32_le (len k)) k). rewrite (app_assoc (u32_le (len k)) k) in Hok.
  erewrite M_bind_run by by apply read_bytes_run.
  rewrite (app_assoc (u32_le (len v)) v). rewrite (app_assoc (u32_le (len v)) v) in Hok.
  erewrite M_bind_run; [|apply read_bytes_run; [|done]; by rewrite <- !app_assoc in *].
  erewrite M_bind_run; [|apply IH; [done|]; by rewrite <- !app_assoc in *].
  by rewrite <- !app_assoc.
Qed.

Lemma decode_entries_inv n pre r es i :
  decode_entries n (cursor pre r) = (Ok es, i) ->
  exists r', r = payload es ++ r' /\ i = cursor (pre ++ payload es) r' /\
    length es = n /\ Forall entry_ok es.
Proof.
  revert pre r es i. induction n as [|n IH]; intros pre r es i; cbn [decode_entries].
  { intros E. inv_M. exists r. unfold payload; simpl. by rewrite app_nil_r. }
  intros E. inv_M.
  apply read_bytes_inv in E0 as (r1 & -> & -> & Hk).
  apply read_bytes_inv in E1 as (r2 & -> & -> & Hv).
  apply IH in E2 as (r3 & -> & -> & Hl & Hes).
  exists r3. rewrite payload_cons. unfold entry_bytes; cbn [fst snd]. rewrite <- !app_assoc.
  split_and!; [done|done|simpl; by rewrite Hl|by constructor].
Qed.

Lemma validate_entries_decode n i :
  validate_entries n i = (let '(o, i') := decode_entries n i in ((fun _ => tt) <$> o, i')).
Proof.
  revert i. induction n as [|n IH]; intros i; [done|].
  cbn [validate_entries decode_entries]. unfold read_bytes. unfold mbind, M_bind.
  repeat (case_match; simplify_eq/=; try done).
  all: rewrite IH; unfold mret, M_ret in *; by repeat (case_match; simplify_eq/=).
Qed.

Lemma validate_frame kg es t :
  entries_ok es -> is_u32 kg -> slice_ok (frame kg es ++ t) ->
  validate_key_group_snapshot kg (frame kg es ++ t) =
    match t with
    | [] => Ok (len es)
    | _ => Err (SnapshotError "StreamFusion state has trailing bytes")
    end.
Proof.
  intros [Hes Hn] Hkg Hok. pose proof (len_nonneg es).
  assert (len (frame kg es ++ t) = 16 + len (payload es) + len t) as Hlen.
  { unfold frame. rewrite !len_app, header_len. done. }
  pose proof (payload_len_ge es). pose proof (len_nonneg t).
  unfold validate_key_group_snapshot.
  change {| ibytes := frame kg es ++ t; ioff := 0 |} with (cursor [] (frame kg es ++ t)).
  unfold frame, header_bytes in *. rewrite <- !app_assoc in *. unfold validate_input.
  erewrite M_bind_run; [|apply (read_exact_cursor _ _ [] SNAPSHOT_MAGIC); [done|reflexivity]].
  rewrite bool_decide_eq_false_2 by (intros Hne; by apply Hne).
  erewrite M_bind_run by done.
  erewrite M_bind_run by (apply read_u32_run; [done|done]).
  erewrite M_bind_run by done.
  erewrite M_bind_run by (apply read_u32_run; [by rewrite <- !app_assoc|done]).
  rewrite Z.eqb_refl. erewrite M_bind_run by done.
  erewrite M_bind_run by (apply read_u32_run; [by rewrite <- !app_assoc|mlia]).
  erewrite M_bind_run by done. cbn [cursor ibytes].
  rewrite <- !app_assoc, app_nil_l, Hlen, (proj2 (Z.ltb_ge _ _))
    by (apply Z.div_le_lower_bound; mlia).
  erewrite M_bind_run by done. rewrite len_to_nat.
  erewrite M_bind_run; [|rewrite validate_entries_decode, decode_entries_run; [done|done|by rewrite <- !app_assoc]].
  erewrite M_bind_run by done. unfold is_empty.
  destruct t as [|x t].
  - rewrite (proj2 (cursor_end _ [])) by done. done.
  - destruct (_ =? _) eqn:E; [|done]. by apply cursor_end in E.
Qed.

Lemma validate_inv kg bs n :
  validate_key_group_snapshot kg bs = Ok n ->
  exists es, bs = frame kg es /\ entries_ok es /\ n = len es.
Proof.
  unfold validate_key_group_snapshot.
  change {| ibytes := bs; ioff := 0 |} with (cursor [] bs).
  destruct (validate_input kg (cursor [] bs)) as [o i] eqn:E; simpl; intros ->.
  unfold validate_input in E. inv_M.
  apply read_exact_cursor_inv in E0 as (r1 & -> & -> & Hm); [|lia].
  apply read_u32_inv in E2 as (r2 & -> & -> & Hv).
  apply read_u32_inv in E4 as (r3 & -> & -> & Hg).
  apply read_u32_inv in E6 as (r4 & -> & -> & Hc).
  rewrite validate_entries_decode in E9.
  destruct (decode_entries _ _) as [o2 i2] eqn:Ed. destruct o2 as [es| |]; simplify_eq/=.
  apply decode_entries_inv in Ed as (r5 & -> & -> & Hl & Hes).
  apply negb_false_iff, cursor_end in H as ->. apply bool_decide_eq_false, dec_stable in H3.
  apply negb_false_iff, Z.eqb_eq in H1. apply negb_false_iff, Z.eqb_eq in H2. subst. exists es. unfold entries_ok, frame, header_bytes, len in *.
  rewrite Hl, Z2Nat.id by mlia. rewrite <- !app_assoc, app_nil_r.
  split_and!; [done|done|mlia|done].
Qed.

Lemma read_exact_safe n : safe (read_exact n).
Proof. intros i. apply read_exact_no_panic. Qed.
#[export] Hint Resolve read_exact_safe : sf.
Lemma validate_entries_safe n : safe (validate_entries n).
Proof. induction n as [|n IH]; cbn [validate_entries]; unfold read_u32; auto 30 with sf. Qed.
#[export] Hint Resolve validate_entries_safe : sf.

(** Validation never panics, whatever the bytes. *)
Lemma validate_no_panic kg bs : validate_key_group_snapshot kg bs <> Panic.
Proof.
  assert (safe (validate_input kg)) as Hs.
  { unfold validate_input, read_u32, gets.
    repeat first [apply safe_bind; [|intros ?] | by auto with sf | case_match]. }
  apply Hs.
Qed.

Lemma decode_frame kg es :
  entries_ok es -> is_u32 kg -> slice_ok (frame kg es) ->
  decode_key_group_snapshot kg (frame kg es) = Ok es.
Proof.
  intros Hes Hkg Hok. unfold decode_key_group_snapshot.
  pose proof (validate_frame kg es [] Hes Hkg) as Hv. rewrite app_nil_r in Hv.
  rewrite Hv, outcome_bind_run, len_to_nat by done. clear Hv.
  assert ({| ibytes := frame kg es; ioff := 16 |} =
          cursor (header_bytes kg (len es)) (payload es ++ [])) as ->.
  { unfold cursor. by rewrite header_len, app_nil_r. }
  rewrite decode_entries_run; [done|by destruct Hes|]. by rewrite app_nil_r.
Qed.

Section iterator.
Context (kg : Z).

Lemma entries_next_run pre k v r n :
  entry_ok (k, v) -> 0 < n -> slice_ok (pre ++ entry_bytes (k, v) ++ r) ->
  entries_next {| einput := cursor pre (entry_bytes (k, v) ++ r); eremaining := n |} =
  Ok (Some (k, v), {| einput := cursor (pre ++ entry_bytes (k, v)) r; eremaining := n - 1 |}).
Proof.
  intros Hkv Hn Hok. unfold entries_next; cbn [einput eremaining].
  destruct (Z.eqb_spec n 0); [lia|].
  pose proof (decode_entries_run pre [(k, v)] r) as Hd.
  rewrite payload_cons in Hd. change (payload []) with (@nil Byte.byte) in Hd.
  rewrite app_nil_r in Hd. specialize (Hd ltac:(by constructor) Hok).
  cbn [decode_entries length] in Hd. unfold read_bytes, mbind, M_bind in *.
  repeat (case_match; simplify_eq/=; try done).
  unfold mret, M_ret in *. by simplify_eq.
Qed.

Lemma entries_collect_S fuel it :
  entries_collect (S fuel) it =
    (r ← entries_next it;
     match r with
     | (None, _) => Ok []
     | (Some kv, it) => es ← entries_collect fuel it; Ok (kv :: es)
     end).
Proof. done. Qed.

Lemma entries_collect_run pre es n :
  Forall entry_ok es -> n = len es -> slice_ok (pre ++ payload es) ->
  entries_collect (S (length es)) {| einput := cursor pre (payload es); eremaining := n |} = Ok es.
Proof.
  revert pre n. induction es as [|[k v] es IH]; intros pre n Hes -> Hok; [done|].
  apply Forall_cons in Hes as [He Hes]. rewrite payload_cons in *.
  rewrite entries_collect_S, len_cons. pose proof (len_nonneg es).
  rewrite entries_next_run by (done || lia). rewrite outcome_bind_run.
  rewrite IH; [done|done|lia|by rewrite <- app_assoc].
Qed.
End iterator.

(** ** The size-admitted writer *)

Fixpoint writer_append_all (es : list entry) (w : SnapshotWriter) : outcome SnapshotWriter :=
  match es with
  | [] => Ok w
  | (k, v) :: es => w ← writer_append k v w; writer_append_all es w
  end.

Lemma writer_append_ok k v w :
  entry_ok (k, v) -> 0 < remaining_entries w -> expected_bytes w <= USIZE_MAX ->
  len (wbytes w) + len (entry_bytes (k, v)) <= expected_bytes w ->
  writer_append k v w =
    Ok {| wbytes := wbytes w ++ entry_bytes (k, v);
          expected_bytes := expected_bytes w;
          remaining_entries := remaining_entries w - 1 |}.
Proof.
  rewrite entry_bytes_len. intros [Hk Hv] Hr He Hle; cbn [fst snd] in *.
  pose proof (len_nonneg k). pose proof (len_nonneg v). pose proof (len_nonneg (wbytes w)).
  unfold writer_append. rewrite !(proj2 (Z.ltb_ge _ _)) by lia.
  rewrite checked_add_small by lia. simpl. rewrite checked_add_small by lia. simpl.
  rewrite checked_add_small by lia. simpl.
  rewrite (proj2 (Z.eqb_neq _ _)) by lia. rewrite (proj2 (Z.ltb_ge _ _)) by lia. done.
Qed.

Lemma writer_append_inv k v w w' :
  writer_append k v w = Ok w' ->
  entry_ok (k, v) /\ wbytes w' = wbytes w ++ entry_bytes (k, v) /\
  expected_bytes w' = expected_bytes w /\
  remaining_entries w' = remaining_entries w - 1 /\ remaining_entries w <> 0.
Proof.
  unfold writer_append. destruct (Z.ltb_spec U32_MAX (len k)); [done|].
  destruct (Z.ltb_spec U32_MAX (len v)); [done|]. intros E. inv_M.
  destruct (Z.eqb_spec (remaining_entries w) 0); [done|].
  destruct (Z.ltb_spec (expected_bytes w) a); [done|].
  cbn [orb] in E. simplify_eq; cbn. split; [by split|]. by split_and!.
Qed.

Lemma writer_append_all_ok es w :
  Forall entry_ok es -> remaining_entries w = len es -> expected_bytes w <= USIZE_MAX ->
  len (wbytes w) + len (payload es) <= expected_bytes w ->
  writer_append_all es w =
    Ok {| wbytes := wbytes w ++ payload es; expected_bytes := expected_bytes w;
          remaining_entries := 0 |}.
Proof.
  revert w. induction es as [|[k v] es IH]; intros w Hes Hr He Hle; simpl.
  { rewrite app_nil_r. destruct w; simpl in *. by rewrite Hr. }
  apply Forall_cons in Hes as [Hkv Hes]. rewrite payload_cons, len_app in Hle.
  rewrite len_cons in Hr. pose proof (len_nonneg es). pose proof (len_nonneg (payload es)).
  rewrite writer_append_ok by (done || lia). rewrite outcome_bind_run, IH; simpl; try done.
  - by rewrite payload_cons, <- app_assoc.
  - lia.
  - rewrite len_app. lia.
Qed.

Lemma writer_append_all_inv es w w' :
  writer_append_all es w = Ok w' ->
  Forall entry_ok es /\ wbytes w' = wbytes w ++ payload es /\
  expected_bytes w' = expected_bytes w /\
  remaining_entries w' = remaining_entries w - len es.
Proof.
  revert w. induction es as [|[k v] es IH]; intros w; simpl.
  { intros [= <-]. rewrite app_nil_r, len_nil. split_and!; (done || lia). }
  intros E. inv_M. apply writer_append_inv in E0 as (Hkv & Hb & He & Hr & _).
  apply IH in E as (Hes & -> & -> & ->).
  rewrite payload_cons, len_cons, Hb, <- app_assoc. split_and!; [by constructor|done|done|lia].
Qed.

(** ** Properties *)

(** C1: the canonical format is a bijection between entry lists and the byte
    strings the decoder accepts: a snapshot decodes to exactly the entries it
    was encoded from, and any bytes that decode to some entries are the very
    bytes the encoder writes for them, key group included. *)
Theorem snapshot_codec_bijective (kg : Z) (bs : bytes) (es : list entry) :
  is_u32 kg -> slice_ok bs ->
  decode_key_group_snapshot kg bs = Ok es <-> encode_key_group_snapshot kg es = Ok bs.
Proof.
  intros Hkg Hok. rewrite encode_spec. split.
  - intros E. unfold decode_key_group_snapshot in E. apply outcome_bind_Ok in E as (n & Hv & E).
    apply validate_inv in Hv as (es' & -> & Hes & ->).
    enough (es = es') as -> by done.
    pose proof (decode_frame kg es' Hes Hkg Hok) as E'. unfold decode_key_group_snapshot in E'.
    pose proof (validate_frame kg es' [] Hes Hkg) as Hv. rewrite app_nil_r in Hv.
    rewrite Hv, outcome_bind_run in E' by done. congruence.
  - intros [Hes ->]. by apply decode_frame.
Qed.

(** No strict prefix of a snapshot validates, and no snapshot with bytes
    appended does: truncation and trailing garbage are always detected. *)
Theorem snapshot_truncation_detected (kg : Z) (es : list entry) (bs p t : bytes) :
  is_u32 kg -> encode_key_group_snapshot kg es = Ok bs -> slice_ok (bs ++ t) -> t <> [] ->
  (bs = p ++ t -> forall n, validate_key_group_snapshot kg p <> Ok n) /\
  validate_key_group_snapshot kg (bs ++ t) =
    Err (SnapshotError "StreamFusion state has trailing bytes").
Proof.
  intros Hkg [Hes ->]%encode_spec Hok Ht. split.
  - intros Hp n (es' & -> & Hes' & ->)%validate_inv.
    assert (slice_ok (frame kg es)) as Hok'.
    { unfold slice_ok in *. rewrite len_app in Hok. pose proof (len_nonneg t). lia. }
    pose proof (validate_frame kg es [] Hes Hkg) as Hv. rewrite app_nil_r, Hp in Hv.
    rewrite Hp in Hok'. rewrite validate_frame in Hv by done.
    specialize (Hv Hok'). by destruct t.
  - rewrite validate_frame by done. by destruct t.
Qed.

(** Whatever passes validation is iterated without a panic, and the borrowed
    iterator yields the same entries as the copying decoder. *)
Theorem snapshot_entries_total (kg : Z) (bs : bytes) (n : Z) :
  is_u32 kg -> slice_ok bs -> validate_key_group_snapshot kg bs = Ok n ->
  exists it es,
    key_group_snapshot_entries kg bs = Ok it /\
    entries_collect (S (Z.to_nat n)) it = Ok es /\
    decode_key_group_snapshot kg bs = Ok es /\ len es = n.
Proof.
  intros Hkg Hok Hv. pose proof Hv as (es & -> & Hes & ->)%validate_inv.
  unfold key_group_snapshot_entries. rewrite Hv. rewrite outcome_bind_run.
  eexists _, es. split; [done|]. rewrite len_to_nat.
  assert ({| ibytes := frame kg es; ioff := 16 |} =
          cursor (header_bytes kg (len es)) (payload es)) as ->.
  { unfold cursor. by rewrite header_len. }
  split_and!; [by apply entries_collect_run; destruct Hes|by apply decode_frame|done].
Qed.

Lemma writer_encodes (kg n size : Z) (es : list entry) (bs : bytes) :
  is_usize n -> is_usize size ->
  (w ← writer_new kg n size; w ← writer_append_all es w; writer_finish w) = Ok bs <->
  encode_key_group_snapshot kg es = Ok bs /\ n = len es /\ size = len bs.
Proof.
  intros Hn Hsize. rewrite encode_spec. unfold writer_new, key_group_snapshot_header.
  fold (header_bytes kg n). split.
  - intros E. inv_M. destruct (Z.ltb_spec U32_MAX n); [done|].
    destruct (_ || _); [done|]. simplify_eq.
    apply writer_append_all_inv in E1 as (Hes & Hb & He & Hr); simpl in *.
    unfold writer_finish in E. destruct (Z.eqb_spec (remaining_entries a0) 0); [|done].
    destruct (Z.eqb_spec (len (wbytes a0)) (expected_bytes a0)); [|done]. simplify_eq/=.
    unfold wrapu in *. rewrite Z.mod_small in * by mlia.
    assert (n = len es) as -> by lia. rewrite Hb. split_and!; try done; congruence.
  - intros ([[Hes Hle] ->] & -> & ->). unfold frame in *.
    rewrite len_app, header_len in *. pose proof (payload_len_ge es). pose proof (len_nonneg es).
    rewrite (proj2 (Z.ltb_ge U32_MAX _)) by lia.
    rewrite (proj2 (Z.ltb_ge _ 16)) by lia.
    rewrite (proj2 (Z.ltb_ge (_ / 8) _)) by (apply Z.div_le_lower_bound; lia).
    cbn [orb]. rewrite !outcome_bind_run.
    rewrite writer_append_all_ok; cbn [wbytes expected_bytes remaining_entries];
      [|done| |mlia|by rewrite header_len].
    + rewrite outcome_bind_run. unfold writer_finish; cbn [wbytes expected_bytes remaining_entries].
      by rewrite len_app, header_len, !Z.eqb_refl.
    + unfold wrapu. apply Z.mod_small. mlia.
Qed.

(** The size-admitted writer refines the plain encoder. Given the exact
    size of the frame it succeeds and produces the encoder's bytes; and whenever
    it finishes, whatever size and count it was opened with, its output is the
    encoder's output of that many bytes and entries. *)
Theorem snapshot_writer_refines_encoder (kg n size : Z) (es : list entry) (bs : bytes) :
  is_usize n -> is_usize size ->
  (w ← writer_new kg n size; w ← writer_append_all es w; writer_finish w) = Ok bs <->
  encode_key_group_snapshot kg es = Ok bs /\ n = len es /\ size = len bs.
Proof. apply writer_encodes. Qed.

(** ** Fixtures *)

Definition demo_entries : list entry := [([x61], [x6f; x6e; x65]); ([], [x01])].
Definition demo_frame : bytes :=
  [x53; x46; x53; x31; x01; x00; x00; x00; x07; x00; x00; x00; x02; x00; x00; x00;
   x01; x00; x00; x00; x61; x03; x00; x00; x00; x6f; x6e; x65;
   x00; x00; x00; x00; x01; x00; x00; x00; x01].

Lemma snapshot_codec_bijective_witness :
  decode_key_group_snapshot 7 demo_frame = Ok demo_entries.
Proof.
  apply (snapshot_codec_bijective 7 demo_frame demo_entries).
  - vm_compute; split; discriminate.
  - vm_compute; discriminate.
  - vm_compute; reflexivity.
Defined.

Lemma snapshot_truncation_detected_witness :
  (forall n, validate_key_group_snapshot 7 (take 36 demo_frame) <> Ok n) /\
  validate_key_group_snapshot 7 (demo_frame ++ [x01]) =
    Err (SnapshotError "StreamFusion state has trailing bytes").
Proof.
  edestruct (snapshot_truncation_detected 7 demo_entries demo_frame (take 36 demo_frame) [x01])
    as [H1 H2]; [..|split; [apply H1; reflexivity|exact H2]].
  - vm_compute; split; discriminate.
  - vm_compute; reflexivity.
  - vm_compute; discriminate.
  - discriminate.
Defined.

Lemma snapshot_entries_total_witness :
  exists it es,
    key_group_snapshot_entries 7 demo_frame = Ok it /\
    entries_collect 3 it = Ok es /\
    decode_key_group_snapshot 7 demo_frame = Ok es /\ len es = 2.
Proof.
  apply (snapshot_entries_total 7 demo_frame 2).
  - vm_compute; split; discriminate.
  - vm_compute; discriminate.
  - vm_compute; reflexivity.
Defined.

Lemma snapshot_writer_refines_encoder_witness :
  (w ← writer_new 7 2 37; w ← writer_append_all demo_entries w; writer_finish w) = Ok demo_frame.
Proof.
  apply (snapshot_writer_refines_encoder 7 2 37 demo_entries demo_frame).
  - vm_compute; split; discriminate.
  - vm_compute; split; discriminate.
  - vm_compute; split_and!; reflexivity.
Defined.
