(* ===== verification/Timer.v ===== *)
(** * The timer service: [state/timer.rs] and [state/timer/batch.rs]

    [NativeTimerService] keeps, per key group, the event-time and the
    processing-time timers as ordered sets and charges every timer to a host
    reservation. Each method is a computation over the service and the broker;
    the fields assigned before an error keep their new values. *)

From Stdlib Require Import ZArith Lia Strings.Byte.
From stdpp Require Import base list option numbers strings sorting.
From S2P Require Import Prelude Bytes OrdMap MemoryPool.

Definition SNAPSHOT_MAGIC : bytes := [x53; x46; x54; x4d].
Definition SNAPSHOT_VERSION : byte := x01.

Inductive TimerDomain : Type := EventTime | ProcessingTime.
#[global] Instance TimerDomain_eq_dec : EqDecision TimerDomain.
Proof. solve_decision. Defined.

Record TimerKey : Type := {
  timestamp : Z;
  tkey : vec;
  namespace : vec;
}.

(** The derived order compares timestamp, key bytes and namespace bytes. *)
Definition timer_id (t : TimerKey) : Z * (bytes * bytes) :=
  (timestamp t, (vdata (tkey t), vdata (namespace t))).
#[global] Instance TimerKey_ord : Ord TimerKey := ord_on timer_id.
#[global] Instance TimerKey_ord_laws : OrdLaws TimerKey := ord_on_laws timer_id.

Record FiredTimer : Type := {
  f_key_group : Z;
  f_domain : TimerDomain;
  f_timer : TimerKey;
}.

Record TimerGroup : Type := {
  event_time : list TimerKey;
  processing_time : list TimerKey;
}.
Definition default_group : TimerGroup := {| event_time := []; processing_time := [] |}.

Record NativeTimerService : Type := {
  first_key_group : Z;
  groups : list TimerGroup;
  reservation : resv;
  accounted_bytes : Z;
}.

(** [size_of] on a 64-bit target. *)
Definition size_of_timer_group : Z := 48.
Definition size_of_timer_key : Z := 56.
Definition size_of_fired_timer : Z := 64.

Definition timer_node_bytes : Z := size_of_timer_key + 4 * 8.
Definition timer_heap_size (t : TimerKey) : Z :=
  sat_add (sat_add timer_node_bytes (vcap (tkey t))) (vcap (namespace t)).

Definition timer_set_ref (g : TimerGroup) (d : TimerDomain) : list TimerKey :=
  match d with EventTime => event_time g | ProcessingTime => processing_time g end.
Definition timer_set (g : TimerGroup) (d : TimerDomain) (ts : list TimerKey) : TimerGroup :=
  match d with
  | EventTime => {| event_time := ts; processing_time := processing_time g |}
  | ProcessingTime => {| event_time := event_time g; processing_time := ts |}
  end.

(** [BTreeSet::insert], [take] and [contains]. *)
Definition set_insert (t : TimerKey) (ts : list TimerKey) : bool * list TimerKey :=
  match bt_find id t ts with
  | Some _ => (false, ts)
  | None => (true, bt_put id id t ts)
  end.
Definition set_take (t : TimerKey) (ts : list TimerKey) : option TimerKey * list TimerKey :=
  match bt_find id t ts with
  | Some u => (Some u, bt_remove id t ts)
  | None => (None, ts)
  end.
Definition set_contains (t : TimerKey) (ts : list TimerKey) : bool :=
  match bt_find id t ts with Some _ => true | None => false end.

Section service.
Context `{Broker B}.

Definition set_reservation (r : resv) (s : NativeTimerService) : NativeTimerService :=
  {| first_key_group := first_key_group s; groups := groups s; reservation := r;
     accounted_bytes := accounted_bytes s |}.
Definition set_groups (gs : list TimerGroup) (s : NativeTimerService) : NativeTimerService :=
  {| first_key_group := first_key_group s; groups := gs; reservation := reservation s;
     accounted_bytes := accounted_bytes s |}.
Definition set_accounted (n : Z) (s : NativeTimerService) : NativeTimerService :=
  {| first_key_group := first_key_group s; groups := groups s; reservation := reservation s;
     accounted_bytes := n |}.

Abbreviation T := (M (NativeTimerService * B)).

Definition svc_resize (n : Z) : T unit := zoom reservation set_reservation (resize n).
Definition svc : T NativeTimerService := gets fst.
Definition put_groups (gs : list TimerGroup) : T unit :=
  modS (fun '(s, b) => (set_groups gs s, b)).
Definition put_accounted (n : Z) : T unit :=
  modS (fun '(s, b) => (set_accounted n s, b)).

(** The reservation is moved in; it is dropped when construction fails. *)
Definition service_new (first last : Z) (r : resv) : M B NativeTimerService := fun b =>
  if last <? first then
    let '(o, b') := host_drop r b in
    (match o with Panic => Panic | _ => Err (Execution "invalid timer key-group range") end, b')
  else
    let group_count := wrapu 32 (last - first + 1) in
    let accounted := sat_mul group_count size_of_timer_group in
    match resize accounted (r, b) with
    | (Ok _, (r', b')) =>
        (Ok {| first_key_group := first;
               groups := replicate (Z.to_nat group_count) default_group;
               reservation := r'; accounted_bytes := accounted |}, b')
    | (Err e, (r', b')) =>
        let '(o, b'') := host_drop r' b' in
        (match o with Panic => Panic | _ => Err e end, b'')
    | (Panic, (_, b')) => (Panic, b')
    end.

Definition group_index (s : NativeTimerService) (key_group : Z) : outcome nat :=
  index ← ok_or (Execution "timer key group is not owned by this subtask")
            (checked_sub key_group (first_key_group s));
  if len (groups s) <=? index
  then Err (Execution "timer key group is not owned by this subtask")
  else Ok (Z.to_nat index).

Definition group (s : NativeTimerService) (key_group : Z) : outcome TimerGroup :=
  index ← group_index s key_group;
  match groups s !! index with Some g => Ok g | None => Panic end.

(** [timer_set_mut(key_group, domain)?] followed by an update of the set. *)
Definition update_set {A} (key_group : Z) (d : TimerDomain)
    (f : list TimerKey -> A * list TimerKey) : T A :=
  s ← svc;
  index ← lift (group_index s key_group);
  match groups s !! index with
  | None => panic
  | Some g =>
      let '(a, ts) := f (timer_set_ref g d) in
      _ ← put_groups (<[index := timer_set g d ts]> (groups s));
      mret a
  end.

Definition register (key_group : Z) (d : TimerDomain) (timer : TimerKey) : T bool :=
  s ← svc;
  let allocation_bound :=
    sat_add (sat_add (vcap (tkey timer)) (vcap (namespace timer))) timer_node_bytes in
  let old_size := accounted_bytes s in
  let new_size := sat_add old_size allocation_bound in
  _ ← svc_resize new_size;
  inserted ← update_set key_group d (set_insert timer);
  _ ← (if inserted : bool then put_accounted new_size else svc_resize old_size);
  mret inserted.

Definition delete (key_group : Z) (d : TimerDomain) (timer : TimerKey) : T bool :=
  removed ← update_set key_group d (set_take timer);
  match removed with
  | Some u =>
      s ← svc;
      let n := sat_sub (accounted_bytes s) (timer_heap_size u) in
      _ ← put_accounted n;
      _ ← svc_resize n;
      mret true
  | None => mret false
  end.

(** *** Firing *)

(** [timers.first().filter(|t| t.timestamp <= progress)]. *)
Definition first_due (progress : Z) (ts : list TimerKey) : option TimerKey :=
  match ts with
  | t :: _ => if timestamp t <=? progress then Some t else None
  | [] => None
  end.

Fixpoint next_due_from (d : TimerDomain) (progress key_group : Z) (gs : list TimerGroup)
  : option (Z * TimerKey) :=
  match gs with
  | [] => None
  | g :: gs =>
      match first_due progress (timer_set_ref g d) with
      | Some t => Some (key_group, t)
      | None => next_due_from d progress (key_group + 1) gs
      end
  end.
Definition next_due (d : TimerDomain) (progress : Z) (s : NativeTimerService)
  : option (Z * TimerKey) :=
  next_due_from d progress (first_key_group s) (groups s).

(** The inner loop: pop timers while [fired.len() <> limit] and the first one
    is due; [n] is [fired.len()]. *)
Fixpoint pop_due (progress limit n : Z) (ts : list TimerKey)
  : list TimerKey * list TimerKey :=
  match ts with
  | [] => ([], [])
  | t :: rest =>
      if n =? limit then ([], ts) else
      if progress <? timestamp t then ([], ts) else
      let '(due, rest) := pop_due progress limit (n + 1) rest in (t :: due, rest)
  end.

(** The outer loop over the key groups. *)
Fixpoint advance_groups (d : TimerDomain) (progress limit n key_group : Z)
    (gs : list TimerGroup) : list FiredTimer * list TimerGroup :=
  match gs with
  | [] => ([], [])
  | g :: rest =>
      if n =? limit then ([], gs) else
      let '(due, ts) := pop_due progress limit n (timer_set_ref g d) in
      let '(fired, rest) :=
        advance_groups d progress limit (n + len due) (key_group + 1) rest in
      (map (fun t => {| f_key_group := key_group; f_domain := d; f_timer := t |}) due ++ fired,
       timer_set g d ts :: rest)
  end.

Definition sat_sum (f : TimerKey -> Z) (ts : list TimerKey) (init : Z) : Z :=
  fold_left (fun n t => sat_add n (f t)) ts init.

Definition advance_limited (d : TimerDomain) (progress limit : Z) : T (list FiredTimer) :=
  s ← svc;
  let '(fired, gs) := advance_groups d progress limit 0 (first_key_group s) (groups s) in
  let released_bytes := sat_sum timer_heap_size (map f_timer fired) 0 in
  let n := sat_sub (accounted_bytes s) released_bytes in
  _ ← put_groups gs;
  _ ← put_accounted n;
  _ ← svc_resize n;
  mret fired.

Definition advance (d : TimerDomain) (progress : Z) : T (list FiredTimer) :=
  advance_limited d progress USIZE_MAX.

Definition timer_count (d : TimerDomain) (s : NativeTimerService) : Z :=
  zsum (fun g => len (timer_set_ref g d)) (groups s).

Fixpoint take_due (progress : Z) (ts : list TimerKey) : list TimerKey :=
  match ts with
  | [] => []
  | t :: ts => if timestamp t <=? progress then t :: take_due progress ts else []
  end.

Definition due_timers (d : TimerDomain) (progress : Z) (s : NativeTimerService)
  : list TimerKey := concat (map (fun g => take_due progress (timer_set_ref g d)) (groups s)).

Definition due_timer_bytes (d : TimerDomain) (progress : Z) (s : NativeTimerService) : Z :=
  sat_sum timer_heap_size (due_timers d progress s) 0.

Definition next_timestamp (d : TimerDomain) (s : NativeTimerService) : option Z :=
  fold_right (fun g acc =>
    match timer_set_ref g d, acc with
    | t :: _, Some m => Some (Z.min (timestamp t) m)
    | t :: _, None => Some (timestamp t)
    | [], acc => acc
    end) None (groups s).
End service.

(** ** Snapshots *)

Definition write_u32 (output : bytes) (value : Z) : outcome bytes :=
  if value <=? U32_MAX then Ok (output ++ u32_le value)
  else Err (Execution "native count exceeds the snapshot format").

Definition write_bytes (output bs : bytes) : outcome bytes :=
  output ← write_u32 output (len bs); Ok (output ++ bs).

Definition domain_byte (d : TimerDomain) : byte :=
  match d with EventTime => x00 | ProcessingTime => x01 end.

(** The timers of a group in snapshot order. *)
Definition group_timers (g : TimerGroup) : list (TimerDomain * TimerKey) :=
  map (pair EventTime) (event_time g) ++ map (pair ProcessingTime) (processing_time g).

Fixpoint write_timers (output : bytes) (ts : list (TimerDomain * TimerKey)) : outcome bytes :=
  match ts with
  | [] => Ok output
  | (d, t) :: ts =>
      let output := output ++ [domain_byte d] in
      let output := output ++ i64_le (timestamp t) in
      output ← write_bytes output (vdata (tkey t));
      output ← write_bytes output (vdata (namespace t));
      write_timers output ts
  end.

Definition snapshot_size_bound (s : NativeTimerService) (key_group : Z) : outcome Z :=
  g ← group s key_group;
  Ok (fold_left (fun n t => sat_add (sat_add (sat_add n 17) (vlen (tkey t))) (vlen (namespace t)))
        (event_time g ++ processing_time g) 13).

Definition snapshot_key_group (s : NativeTimerService) (key_group : Z) : outcome bytes :=
  g ← group s key_group;
  count ← ok_or (Execution "native timer count overflow")
            (checked_add (len (event_time g)) (len (processing_time g)));
  _ ← snapshot_size_bound s key_group;
  let output := SNAPSHOT_MAGIC ++ [SNAPSHOT_VERSION] ++ u32_le key_group in
  output ← write_u32 output count;
  write_timers output (group_timers g).

Definition read_exact (n : Z) : M input bytes :=
  read_exact_with (Execution "native length overflow") (Execution "truncated native") n.
(** [read_exact(1)?[0]]: the index panics on an empty slice. *)
Definition read_u8 : M input byte :=
  v ← read_exact 1; match v with b :: _ => mret b | [] => panic end.
Definition read_u32 : M input Z := v ← read_exact 4; mret (of_le v).
Definition read_i64 : M input Z := v ← read_exact 8; mret (i64_of_le v).
Definition read_bytes : M input vec := n ← read_u32; v ← read_exact n; mret (to_vec v).

Definition read_domain : M input TimerDomain :=
  b ← read_u8;
  match b with
  | x00 => mret EventTime
  | x01 => mret ProcessingTime
  | _ => throw (Execution "invalid native timer domain")
  end.

Fixpoint read_timers (count : nat) : M input (list (TimerDomain * TimerKey)) :=
  match count with
  | O => mret []
  | S count =>
      d ← read_domain;
      ts ← read_i64;
      key ← read_bytes;
      ns ← read_bytes;
      rest ← read_timers count;
      mret ((d, {| timestamp := ts; tkey := key; namespace := ns |}) :: rest)
  end.

Definition decode_input (key_group : Z) : M input (list (TimerDomain * TimerKey)) :=
  magic ← read_exact 4;
  _ ← when (bool_decide (magic <> SNAPSHOT_MAGIC)) (Execution "invalid native timer snapshot magic");
  version ← read_u8;
  _ ← when (bool_decide (version <> SNAPSHOT_VERSION))
        (Execution "unsupported native timer snapshot version");
  encoded_key_group ← read_u32;
  _ ← when (negb (encoded_key_group =? key_group))
        (Execution "timer snapshot key group does not match assigned group");
  count ← read_u32;
  i ← getS;
  _ ← when (sat_sub (len (ibytes i)) (ioff i) / 17 <? count)
        (Execution "invalid native timer snapshot count");
  timers ← read_timers (Z.to_nat count);
  i ← getS;
  _ ← when (negb (ioff i =? len (ibytes i))) (Execution "native timer snapshot has trailing bytes");
  mret timers.

Definition decode_snapshot (key_group : Z) (bs : bytes)
  : outcome (list (TimerDomain * TimerKey)) :=
  fst (decode_input key_group {| ibytes := bs; ioff := 0 |}).

Section restore.
Context `{Broker B}.
Abbreviation T := (M (NativeTimerService * B)).

(** The insertions of a restore; a duplicate stops it half way. *)
Fixpoint restore_timers (key_group : Z) (ts : list (TimerDomain * TimerKey)) : T unit :=
  match ts with
  | [] => mret tt
  | (d, t) :: ts =>
      inserted ← update_set key_group d (set_insert t);
      if inserted : bool then restore_timers key_group ts
      else throw (Execution "native timer snapshot contains a duplicate timer")
  end.

Definition restore_key_group (key_group : Z) (bs : bytes) : T unit :=
  s ← svc;
  g ← lift (group s key_group);
  _ ← when (negb (bool_decide (event_time g = [])) || negb (bool_decide (processing_time g = [])))
        (Execution "timer key group was restored more than once");
  decoded ← lift (decode_snapshot key_group bs);
  let old_size := accounted_bytes s in
  let allocation_bound :=
    fold_left (fun total '(_, t) =>
      sat_add (sat_add (sat_add total (vcap (tkey t))) (vcap (namespace t))) timer_node_bytes)
      decoded 0 in
  _ ← svc_resize (sat_add old_size allocation_bound);
  _ ← lift (group_index s key_group);
  _ ← restore_timers key_group decoded;
  _ ← put_accounted (sat_add old_size allocation_bound);
  svc_resize (sat_add old_size allocation_bound).

(** ** Batches: [timer/batch.rs] *)

Definition key_group_range (s : NativeTimerService) : Z * Z :=
  (first_key_group s, wrapu 32 (first_key_group s + wrapu 32 (len (groups s)) - 1)).

(** Event-time timers first, then processing-time timers; stops at the first
    error of the visitor. *)
Definition visit_key_group {S} (s : NativeTimerService) (key_group : Z)
    (visitor : TimerDomain -> TimerKey -> M S unit) : M S unit :=
  g ← lift (group s key_group);
  _ ← forM (event_time g) (visitor EventTime);
  forM (processing_time g) (visitor ProcessingTime).

Definition snapshot_size (s : NativeTimerService) (key_group : Z) : outcome Z :=
  g ← group s key_group;
  Ok (fold_left (fun n t => sat_add (sat_add (sat_add n 17) (vlen (tkey t))) (vlen (namespace t)))
        (event_time g ++ processing_time g) 13).

Abbreviation request := (Z * TimerDomain * TimerKey)%type.

(** [HashSet::insert] on key group, domain and timer contents. *)
Definition same_request (a b : request) : bool :=
  let '(k1, d1, t1) := a in let '(k2, d2, t2) := b in
  (k1 =? k2) && bool_decide (d1 = d2) &&
  match ocmp t1 t2 with Eq => true | _ => false end.

(** Which requests are new, and the bytes they need. *)
Fixpoint select_new (s : NativeTimerService) (seen timers : list request) (growth : Z)
  : outcome (list bool * Z) :=
  match timers with
  | [] => Ok ([], growth)
  | (key_group, d, t) :: timers =>
      g ← group s key_group;
      let insert :=
        negb (set_contains t (timer_set_ref g d)) &&
        negb (existsb (same_request (key_group, d, t)) seen) in
      let seen := if insert then (key_group, d, t) :: seen else seen in
      let growth := if insert then sat_add growth (timer_heap_size t) else growth in
      r ← select_new s seen timers growth;
      Ok (insert :: r.1, r.2)
  end.

Fixpoint insert_selected (timers : list request) (selected : list bool) : T (list Z) :=
  match timers, selected with
  | (key_group, d, t) :: timers, insert :: selected =>
      if insert : bool then
        _ ← update_set key_group d (set_insert t);
        rest ← insert_selected timers selected;
        mret (key_group :: rest)
      else insert_selected timers selected
  | _, _ => mret []
  end.

Definition register_batch (timers : list request) : T (list Z) :=
  s ← svc;
  r ← lift (select_new s [] timers 0);
  let new_size := sat_add (accounted_bytes s) r.2 in
  _ ← svc_resize new_size;
  inserted ← insert_selected timers r.1;
  _ ← put_accounted new_size;
  mret inserted.

Record FiredTimerBatch : Type := { b_entries : list FiredTimer; b_memory : resv }.

(** The batch owns its descriptor vector and the credit of the timers it
    holds; a failed call drops the reservation it has made so far. *)
Definition advance_owned_limited (d : TimerDomain) (progress limit : Z) : T FiredTimerBatch :=
  fun '(s, b) =>
    let count := Z.min limit (len (due_timers d progress s)) in
    let memory := sibling (reservation s) "native due timer batch" in
    match resize (sat_mul count size_of_fired_timer) (memory, b) with
    | (Ok _, (memory, b)) =>
        let '(entries, gs) := advance_groups d progress count 0 (first_key_group s) (groups s) in
        let moved_bytes := sat_sum timer_heap_size (map f_timer entries) 0 in
        let s := set_groups gs s in
        match grow_from memory (reservation s) moved_bytes with
        | Ok (memory, r) =>
            (Ok {| b_entries := entries; b_memory := memory |},
             (set_accounted (wrapu 64 (accounted_bytes s - moved_bytes)) (set_reservation r s), b))
        | Err e =>
            let '(o, b) := host_drop memory b in
            (match o with Panic => Panic | _ => Err e end, (s, b))
        | Panic => (Panic, (s, b))
        end
    | (Err e, (memory, b)) =>
        let '(o, b) := host_drop memory b in
        (match o with Panic => Panic | _ => Err e end, (s, b))
    | (Panic, (_, b)) => (Panic, (s, b))
    end.

Definition batch_drop (batch : FiredTimerBatch) : M B unit := host_drop (b_memory batch).
End restore.

(** ** Invariants *)

Definition timer_ok (t : TimerKey) : Prop :=
  is_i64 (timestamp t) /\ vec_ok (tkey t) /\ vec_ok (namespace t).
Definition set_ok (ts : list TimerKey) : Prop := bt_sorted id ts /\ Forall timer_ok ts.
Definition group_ok (g : TimerGroup) : Prop := forall d, set_ok (timer_set_ref g d).

Definition set_bytes (ts : list TimerKey) : Z := zsum timer_heap_size ts.
Definition group_bytes (g : TimerGroup) : Z :=
  set_bytes (event_time g) + set_bytes (processing_time g).
(** What the live timers and the group directory weigh. *)
Definition footprint (gs : list TimerGroup) : Z :=
  size_of_timer_group * len gs + zsum group_bytes gs.

Lemma vec_cap_nonneg v : vec_ok v -> 0 <= vcap v.
Proof. unfold vec_ok. pose proof (len_nonneg (vdata v)). lia. Qed.

Lemma sat_add3 a b c :
  0 <= a -> 0 <= b -> 0 <= c ->
  sat_add (sat_add a b) c = Z.min (a + b + c) USIZE_MAX.
Proof. intros. mlia. Qed.

Lemma heap_size_bound t :
  timer_ok t ->
  sat_add (sat_add (vcap (tkey t)) (vcap (namespace t))) timer_node_bytes = timer_heap_size t.
Proof.
  intros (_ & Hk%vec_cap_nonneg & Hn%vec_cap_nonneg). unfold timer_heap_size.
  rewrite !sat_add3 by (done || vm_compute; discriminate). f_equal. lia.
Qed.

Lemma heap_size_pos t : timer_ok t -> 0 < timer_heap_size t <= USIZE_MAX.
Proof.
  intros (_ & Hk%vec_cap_nonneg & Hn%vec_cap_nonneg). unfold timer_heap_size.
  rewrite sat_add3 by (done || vm_compute; discriminate).
  change timer_node_bytes with 88. mlia.
Qed.

Lemma set_bytes_nonneg ts : Forall timer_ok ts -> 0 <= set_bytes ts.
Proof.
  intros Hts. apply zsum_nonneg. intros t Ht. rewrite Forall_forall in Hts.
  pose proof (heap_size_pos t (Hts t Ht)). lia.
Qed.

Lemma group_bytes_nonneg g : group_ok g -> 0 <= group_bytes g.
Proof.
  intros Hg. pose proof (set_bytes_nonneg _ (proj2 (Hg EventTime))).
  pose proof (set_bytes_nonneg _ (proj2 (Hg ProcessingTime))). unfold group_bytes. simpl in *. lia.
Qed.

Lemma footprint_nonneg gs : Forall group_ok gs -> 0 <= footprint gs.
Proof.
  intros Hgs. unfold footprint, size_of_timer_group. pose proof (len_nonneg gs).
  assert (0 <= zsum group_bytes gs); [|lia].
  apply zsum_nonneg. rewrite Forall_forall in Hgs. eauto using group_bytes_nonneg.
Qed.

(** *** The ordered sets *)

Lemma set_insert_ok t ts :
  set_ok ts -> timer_ok t ->
  let '(inserted, ts') := set_insert t ts in
  set_ok ts' /\ inserted = negb (set_contains t ts) /\
  set_bytes ts' = set_bytes ts + (if inserted then timer_heap_size t else 0) /\
  ts' ≡ₚ (if inserted then t :: ts else ts).
Proof.
  intros [Hs Hts] Ht. unfold set_insert, set_contains.
  destruct (bt_find id t ts) as [u|] eqn:E; simpl; [split_and!; (done || lia)|].
  assert (bt_put id id t ts ≡ₚ t :: ts) as Hp by (by apply bt_put_perm).
  split_and!; [|done| |done].
  - split; [by apply bt_put_sorted|]. rewrite Hp. by constructor.
  - unfold set_bytes. rewrite Hp. simpl. lia.
Qed.

Lemma set_take_ok t ts :
  set_ok ts ->
  let '(removed, ts') := set_take t ts in
  set_ok ts' /\ removed = bt_find id t ts /\
  set_bytes ts' = set_bytes ts - (match removed with Some u => timer_heap_size u | None => 0 end) /\
  (forall u, removed = Some u -> ts ≡ₚ u :: ts' /\ timer_ok u).
Proof.
  intros [Hs Hts]. unfold set_take.
  destruct (bt_find id t ts) as [u|] eqn:E; [|split_and!; (done || lia)].
  pose proof (bt_remove_perm id t ts u E) as Hp.
  rewrite Hp in Hts. apply Forall_cons in Hts as [Hu Hts].
  split_and!; [by split; [apply bt_remove_sorted|]|done| |naive_solver].
  unfold set_bytes. rewrite Hp at 2. simpl. lia.
Qed.

Lemma set_contains_true t ts :
  set_contains t ts = true <-> exists u, u ∈ ts /\ timer_id u = timer_id t.
Proof.
  unfold set_contains. destruct (bt_find id t ts) as [u|] eqn:E; split; try done.
  - intros _. apply (bt_find_Some id) in E as [Hin E]. exists u. split; [done|].
    symmetry. exact (ocmp_eq (timer_id t) (timer_id u) E).
  - intros (u & Hin & Hu). rewrite bt_find_None in E. exfalso. apply (E u Hin).
    unfold ocmp, TimerKey_ord, ord_on, id. rewrite Hu. apply ocmp_refl.
Qed.

Lemma timer_set_same g d ts : timer_set_ref (timer_set g d ts) d = ts.
Proof. by destruct d. Qed.
Lemma timer_set_other g d d' ts : d' <> d -> timer_set_ref (timer_set g d ts) d' = timer_set_ref g d'.
Proof. by destruct d, d'. Qed.
Lemma timer_set_id g d : timer_set g d (timer_set_ref g d) = g.
Proof. by destruct g, d. Qed.
Lemma timer_set_bytes g d ts :
  group_bytes (timer_set g d ts) = group_bytes g - set_bytes (timer_set_ref g d) + set_bytes ts.
Proof. destruct g, d; unfold group_bytes; simpl; lia. Qed.
Lemma timer_set_ok g d ts : group_ok g -> set_ok ts -> group_ok (timer_set g d ts).
Proof.
  intros Hg Hts d'. destruct (decide (d' = d)) as [->|]; [by rewrite timer_set_same|].
  rewrite timer_set_other; auto.
Qed.

(** *** The service *)

Section service_ok.
Context `{BrokerLaws B} {others : Z}.
Implicit Types (s : NativeTimerService) (b : B).

(** The service owns a contiguous range of key groups, its sets are ordered,
    it accounts for exactly its footprint and holds at least that much
    credit, and the broker has granted exactly this credit and that of the
    other owners. *)
Record svc_ok (s : NativeTimerService) (b : B) : Prop := SvcOk {
  ok_first : 0 <= first_key_group s;
  ok_range : first_key_group s + len (groups s) <= U32_MAX + 1;
  ok_groups : Forall group_ok (groups s);
  ok_accounted : accounted_bytes s = footprint (groups s);
  ok_credit : accounted_bytes s <= rsize (reservation s) <= I64_MAX;
  ok_broker : reserved b = rsize (reservation s) + others /\ 0 <= others;
}.

(** The credit is exactly the footprint. *)
Definition tight s : Prop := rsize (reservation s) = accounted_bytes s.

Lemma ok_nonneg s b : svc_ok s b -> 0 <= accounted_bytes s.
Proof. intros [? ? Hg -> _ _]. by apply footprint_nonneg. Qed.

Lemma svc_resize_cases n s b :
  is_usize n -> svc_ok s b ->
  exists o r' b', svc_resize n (s, b) = (o, (set_reservation r' s, b')) /\
    balanced (reservation s) b o r' b' /\ (o = Ok tt -> rsize r' = n).
Proof.
  intros Hn Hok. pose proof (ok_nonneg s b Hok).
  destruct Hok as [_ _ _ _ [Hc1 Hc2] Hb].
  assert (rsize (reservation s) <= reserved b) as Hle by lia.
  pose proof (resize_balanced n (reservation s) b Hn ltac:(mlia) Hle) as Hbal.
  unfold svc_resize, zoom. destruct (resize n (reservation s, b)) as [o [r' b']].
  exists o, r', b'. by destruct Hbal.
Qed.

(** After a failed resize the service is as it was; after a successful one
    the new size was within the host's count if it is larger. *)
Lemma svc_resize_ok n s b o r' b' :
  is_usize n -> accounted_bytes s <= n -> svc_ok s b ->
  balanced (reservation s) b o r' b' -> (o = Ok tt -> rsize r' = n) ->
  svc_ok (set_reservation r' s) b' /\ (o = Ok tt -> n <= I64_MAX).
Proof.
  intros Hn Hle Hok Hbal Hr. pose proof (ok_nonneg s b Hok).
  destruct Hok as [Hf Hrg Hg Ha [Hc1 Hc2] Hb], Hbal as [Ht Hu Hp He _ Hm].
  destruct o as [[]|e|]; [|destruct (He e eq_refl) as [-> Hrb]; by split; [split; simpl; try done; lia|]|done].
  specialize (Hr eq_refl).
  assert (n <= I64_MAX) as Hmax.
  { destruct (Z.le_gt_cases n (rsize (reservation s))); [lia|].
    specialize (Hm eq_refl ltac:(lia)). lia. }
  split; [|done]. split; simpl; try done; lia.
Qed.

(** *** Key groups *)

Lemma group_index_Ok s kg i :
  group_index s kg = Ok i <->
  kg = first_key_group s + Z.of_nat i /\ (i < length (groups s))%nat.
Proof.
  unfold group_index, checked_sub, ok_or.
  destruct (Z.leb_spec (first_key_group s) kg); simpl.
  - unfold mbind, outcome_bind. destruct (Z.leb_spec (len (groups s)) (kg - first_key_group s)).
    + split; [done|]. unfold len in *. lia.
    + unfold len in *. split; [intros; simplify_eq; lia|]. intros [-> ?]. f_equal. lia.
  - split; [done|]. lia.
Qed.

Lemma group_index_no_panic s kg : group_index s kg <> Panic.
Proof.
  unfold group_index, checked_sub, ok_or, mbind, outcome_bind.
  repeat case_match; congruence.
Qed.

Lemma group_Ok s kg g :
  group s kg = Ok g <->
  exists i, group_index s kg = Ok i /\ groups s !! i = Some g.
Proof.
  unfold group. rewrite outcome_bind_Ok. split; intros (i & Hi & Hg); exists i;
    (split; [done|]); [by destruct (groups s !! i); simplify_eq|by rewrite Hg].
Qed.

(** Owned key groups: the error is the only other outcome. *)
Lemma group_total s kg :
  (exists g, group s kg = Ok g) \/
  group_index s kg = Err (Execution "timer key group is not owned by this subtask") /\
  group s kg = Err (Execution "timer key group is not owned by this subtask").
Proof.
  unfold group. destruct (group_index s kg) as [i|e|] eqn:E.
  - left. apply group_index_Ok in E as [_ Hi]. apply lookup_lt_is_Some in Hi as [g Hg].
    exists g. by rewrite outcome_bind_run, Hg.
  - right. unfold group_index, checked_sub, ok_or in E.
    unfold mbind, outcome_bind in *. repeat case_match; simplify_eq/=; done.
  - by apply group_index_no_panic in E.
Qed.

(** *** Updating one set *)

Definition with_set (s : NativeTimerService) (i : nat) (g : TimerGroup) (d : TimerDomain)
    (ts : list TimerKey) : NativeTimerService :=
  set_groups (<[i := timer_set g d ts]> (groups s)) s.

Lemma update_set_owned {A} kg d (f : list TimerKey -> A * list TimerKey) s b i g a ts :
  group_index s kg = Ok i -> groups s !! i = Some g -> f (timer_set_ref g d) = (a, ts) ->
  update_set kg d f (s, b) = (Ok a, (with_set s i g d ts, b)).
Proof.
  intros Hi Hg Hf. unfold update_set.
  rewrite (M_bind_run _ _ _ s (s, b)) by done. cbn beta.
  rewrite (M_bind_run _ _ _ i (s, b)) by (unfold lift; by rewrite Hi).
  by rewrite Hg, Hf.
Qed.

Lemma update_set_unowned {A} kg d (f : list TimerKey -> A * list TimerKey) s b e :
  group_index s kg = Err e -> update_set kg d f (s, b) = (Err e, (s, b)).
Proof.
  intros Hi. unfold update_set. rewrite (M_bind_run _ _ _ s (s, b)) by done. cbn beta.
  unfold mbind, M_bind, lift. by rewrite Hi.
Qed.

Lemma footprint_with_set s i g d ts :
  groups s !! i = Some g ->
  footprint (groups (with_set s i g d ts)) =
    footprint (groups s) - set_bytes (timer_set_ref g d) + set_bytes ts.
Proof.
  intros Hg. unfold footprint; simpl. unfold len. rewrite length_insert.
  rewrite (zsum_insert group_bytes _ i g) by done. rewrite timer_set_bytes. lia.
Qed.

(** The set of a key group and domain; [None] when it is not owned. *)
Definition lookup_set (s : NativeTimerService) (kg : Z) (d : TimerDomain)
  : option (list TimerKey) :=
  match group s kg with Ok g => Some (timer_set_ref g d) | _ => None end.

Lemma lookup_with_set s i g d ts kg kg' d' :
  group_index s kg = Ok i -> groups s !! i = Some g ->
  lookup_set (with_set s i g d ts) kg' d' =
    if bool_decide (kg' = kg /\ d' = d) then Some ts else lookup_set s kg' d'.
Proof.
  intros Hi Hg. apply group_index_Ok in Hi as Hi'. unfold lookup_set, group.
  assert (group_index (with_set s i g d ts) kg' = group_index s kg') as ->.
  { unfold group_index; simpl. unfold len. by rewrite length_insert. }
  destruct (group_index s kg') as [j| |] eqn:Ej; cbn [mbind outcome_bind].
  - apply group_index_Ok in Ej as Hj. simpl. case_bool_decide as Hd.
    + destruct Hd as [-> ->]. rewrite Hi in Ej. simplify_eq.
      rewrite list_lookup_insert_eq by lia. by rewrite timer_set_same.
    + destruct (decide (i = j)) as [<-|Hne].
      * rewrite list_lookup_insert_eq by lia. rewrite Hg. simpl.
        rewrite timer_set_other; [done|]. intros ->. apply Hd. split; [lia|done].
      * by rewrite list_lookup_insert_ne.
  - case_bool_decide as Hd; [|done]. destruct Hd as [-> _]. by rewrite Hi in Ej.
  - by apply group_index_no_panic in Ej.
Qed.

Lemma lookup_set_index s kg d i g :
  group_index s kg = Ok i -> groups s !! i = Some g ->
  lookup_set s kg d = Some (timer_set_ref g d).
Proof.
  intros Hi Hg. unfold lookup_set. destruct (group s kg) as [g'| |] eqn:E.
  - apply group_Ok in E as (j & Hj & Hg'). congruence.
  - destruct (group_total s kg) as [[g' Hg']|[He _]]; congruence.
  - destruct (group_total s kg) as [[g' Hg']|[He _]]; congruence.
Qed.

Lemma svc_ok_with_set s b i g d ts r :
  svc_ok s b -> groups s !! i = Some g -> set_ok ts ->
  accounted_bytes s - set_bytes (timer_set_ref g d) + set_bytes ts = r ->
  r <= rsize (reservation s) ->
  svc_ok (set_accounted r (with_set s i g d ts)) b.
Proof.
  intros [Hf Hr Hgs Ha Hc Hb] Hg Hts <- Hle. split; simpl; try done.
  - unfold len in *. by rewrite length_insert.
  - apply Forall_insert; [done|]. apply timer_set_ok; [|done].
    rewrite Forall_forall in Hgs. by eapply Hgs, list_elem_of_lookup_2.
  - rewrite Ha, <- (footprint_with_set s i g d ts Hg). done.
  - lia.
Qed.

Lemma svc_group_ok s b i g : svc_ok s b -> groups s !! i = Some g -> group_ok g.
Proof.
  intros Hok Hg. pose proof (ok_groups s b Hok) as Hgs. rewrite Forall_forall in Hgs.
  by eapply Hgs, list_elem_of_lookup_2.
Qed.

(** One set of a service is no heavier than the whole. *)
Lemma set_bytes_le s b i g d :
  svc_ok s b -> groups s !! i = Some g -> set_bytes (timer_set_ref g d) <= accounted_bytes s.
Proof.
  intros Hok Hg. rewrite (ok_accounted s b Hok). unfold footprint, size_of_timer_group.
  pose proof (ok_groups s b Hok) as Hgs. rewrite Forall_forall in Hgs.
  pose proof (zsum_lookup_le group_bytes (groups s) i g) as Hle.
  specialize (Hle ltac:(eauto using group_bytes_nonneg) Hg).
  pose proof (len_nonneg (groups s)). pose proof (svc_group_ok s b i g Hok Hg) as Hgo.
  pose proof (set_bytes_nonneg _ (proj2 (Hgo EventTime))).
  pose proof (set_bytes_nonneg _ (proj2 (Hgo ProcessingTime))).
  assert (group_bytes g = set_bytes (event_time g) + set_bytes (processing_time g)) by done.
  destruct d; simpl in *; lia.
Qed.

Lemma set_reservation_groups r s : groups (set_reservation r s) = groups s.
Proof. done. Qed.

Lemma with_set_id s i g d :
  groups s !! i = Some g -> with_set s i g d (timer_set_ref g d) = s.
Proof.
  intros Hg. unfold with_set. rewrite timer_set_id, list_insert_id by done.
  by destruct s.
Qed.

Lemma owned_or_not s kg :
  (exists i g, group_index s kg = Ok i /\ groups s !! i = Some g) \/
  group_index s kg = Err (Execution "timer key group is not owned by this subtask").
Proof.
  destruct (group_total s kg) as [[g (i & Hi & Hg)%group_Ok]|[He _]]; eauto.
Qed.

(** What an operation on one set leaves in all the others. *)
Definition others_kept s s' kg d : Prop :=
  forall kg' d', ~ (kg' = kg /\ d' = d) -> lookup_set s' kg' d' = lookup_set s kg' d'.

Lemma with_set_others s i g d ts kg :
  group_index s kg = Ok i -> groups s !! i = Some g ->
  others_kept s (with_set s i g d ts) kg d.
Proof.
  intros Hi Hg kg' d' Hne. rewrite (lookup_with_set s i g d ts kg) by done.
  by rewrite bool_decide_eq_false_2.
Qed.

(** The contents do not depend on the credit fields. *)
Lemma lookup_set_groups s s' kg d :
  groups s' = groups s -> first_key_group s' = first_key_group s ->
  lookup_set s' kg d = lookup_set s kg d.
Proof. intros Hg Hf. unfold lookup_set, group, group_index. by rewrite Hg, Hf. Qed.

Definition register_post kg d t s (o : outcome bool) s' b' : Prop :=
  svc_ok s' b' /\
  match o with
  | Ok inserted =>
      tight s' /\ others_kept s s' kg d /\
      exists ts, lookup_set s kg d = Some ts /\
        inserted = negb (set_contains t ts) /\
        lookup_set s' kg d = Some (set_insert t ts).2
  | Err _ => groups s' = groups s
  | Panic => False
  end.

Lemma register_spec kg d t s b :
  svc_ok s b -> timer_ok t ->
  let '(o, (s', b')) := register kg d t (s, b) in register_post kg d t s o s' b'.
Proof.
  intros Hok Ht. unfold register. rewrite (M_bind_run _ _ _ s (s, b)) by done. cbn beta zeta.
  rewrite heap_size_bound by done. pose proof (heap_size_pos t Ht) as Hh.
  pose proof (ok_nonneg s b Hok) as Ha.
  set (n := sat_add (accounted_bytes s) (timer_heap_size t)).
  assert (is_usize n /\ accounted_bytes s <= n) as [Hn Hle].
  { destruct Hok as [_ _ _ _ Hc _]. unfold n. mlia. }
  destruct (svc_resize_cases n s b Hn Hok) as (o1 & r1 & b1 & E1 & Hbal & Hr).
  destruct (svc_resize_ok n s b o1 r1 b1 Hn Hle Hok Hbal Hr) as [Hok1 Hmax].
  unfold mbind at 1, M_bind at 1. rewrite E1.
  destruct o1 as [[]|e|]; [|split; done|by destruct Hbal].
  specialize (Hmax eq_refl). specialize (Hr eq_refl).
  set (s1 := set_reservation r1 s) in *.
  destruct (owned_or_not s1 kg) as [(i & g & Hi & Hg)|He].
  2:{ unfold mbind at 1, M_bind at 1. by rewrite (update_set_unowned _ _ _ _ _ _ He). }
  destruct (set_insert t (timer_set_ref g d)) as [ins ts] eqn:Es.
  unfold mbind at 1, M_bind at 1. rewrite (update_set_owned kg d _ s1 b1 i g ins ts Hi Hg Es).
  pose proof (set_insert_ok t _ (svc_group_ok s1 b1 i g Hok1 Hg d) Ht) as Hins.
  rewrite Es in Hins. destruct Hins as (Hts & Hins & Hbytes & _).
  assert (lookup_set s kg d = Some (timer_set_ref g d)) as Hl.
  { by apply (lookup_set_index s1 kg d i g). }
  destruct ins.
  - unfold mbind, M_bind, put_accounted, modS, mret, M_ret.
    assert (n = accounted_bytes s + timer_heap_size t) as Hnn.
    { unfold n in *. mlia. }
    split; [|split_and!].
    + apply svc_ok_with_set; simpl in *; try done; lia.
    + done.
    + by apply (with_set_others s1).
    + exists (timer_set_ref g d). split_and!; [done|done|]. rewrite Es. cbn [snd].
      change (lookup_set (with_set s1 i g d ts) kg d = Some ts).
      rewrite (lookup_with_set s1 i g d ts kg) by done. by rewrite bool_decide_eq_true_2.
  - assert (ts = timer_set_ref g d) as ->.
    { unfold set_insert in Es. destruct (bt_find id t _); by simplify_eq. }
    rewrite with_set_id by done.
    destruct (svc_resize_cases (accounted_bytes s) s1 b1) as (o2 & r2 & b2 & E2 & Hbal2 & Hr2);
      [mlia|done|].
    destruct (svc_resize_ok (accounted_bytes s) s1 b1 o2 r2 b2) as [Hok2 _]; [mlia|done..|].
    unfold mbind, M_bind. rewrite E2.
    destruct o2 as [[]|e|]; [|split; done|by destruct Hbal2].
    specialize (Hr2 eq_refl). split; [done|]. split_and!; [done|by intros ??|].
    exists (timer_set_ref g d). rewrite Es. by split_and!.
Qed.

(** Setting the accounted size and shrinking the reservation to it. *)
Lemma settle_spec {A} n (a : A) s b :
  svc_ok (set_accounted n s) b ->
  exists o s' b', (put_accounted n ≫= fun _ => svc_resize n ≫= fun _ => mret a) (s, b) = (o, (s', b')) /\
    svc_ok s' b' /\ groups s' = groups s /\ first_key_group s' = first_key_group s /\
    (o = Ok a /\ tight s' \/ exists e, o = Err e) /\ (ReleaseTotal B -> o = Ok a).
Proof.
  intros Hok. rewrite (M_bind_run _ _ _ tt (set_accounted n s, b)) by done.
  pose proof (ok_nonneg _ _ Hok) as Hn. simpl in Hn.
  assert (is_usize n) as Hu by (destruct Hok as [_ _ _ _ Hc _]; simpl in Hc; mlia).
  destruct (svc_resize_cases n _ b Hu Hok) as (o2 & r2 & b2 & E2 & Hbal & Hr).
  destruct (svc_resize_ok n (set_accounted n s) b o2 r2 b2 Hu (Z.le_refl _) Hok Hbal Hr) as [Hok2 _].
  assert (ReleaseTotal B -> o2 = Ok tt) as Hrt.
  { intros Hrt. pose proof (resize_shrink n (reservation s) b) as Hs.
    destruct Hok as [_ _ _ _ Hc Hb]. cbn in Hc, Hb. specialize (Hs ltac:(lia) ltac:(lia)).
    unfold svc_resize, zoom in E2. cbn [reservation set_accounted] in E2.
    destruct (resize n (reservation s, b)) as [o [r3 b3]]. cbn in Hs. congruence. }
  unfold mbind, M_bind. rewrite E2.
  destruct o2 as [[]|e|]; [..|by destruct Hbal].
  - specialize (Hr eq_refl). do 3 eexists. split; [done|]. split_and!; auto.
  - do 3 eexists. split; [done|]. split_and!; eauto. intros Hf. by specialize (Hrt Hf).
Qed.

Definition delete_post kg d t s (o : outcome bool) s' b' : Prop :=
  svc_ok s' b' /\
  match o with
  | Ok removed =>
      others_kept s s' kg d /\ (removed = true -> tight s') /\
      exists ts, lookup_set s kg d = Some ts /\
        removed = set_contains t ts /\
        lookup_set s' kg d = Some (set_take t ts).2
  | Err _ => True
  | Panic => False
  end.

Lemma delete_spec kg d t s b :
  svc_ok s b ->
  let '(o, (s', b')) := delete kg d t (s, b) in delete_post kg d t s o s' b'.
Proof.
  intros Hok. unfold delete.
  destruct (owned_or_not s kg) as [(i & g & Hi & Hg)|He].
  2:{ unfold mbind at 1, M_bind at 1. by rewrite (update_set_unowned _ _ _ _ _ _ He). }
  destruct (set_take t (timer_set_ref g d)) as [rem ts] eqn:Es.
  unfold mbind at 1, M_bind at 1. rewrite (update_set_owned kg d _ s b i g rem ts Hi Hg Es).
  pose proof (set_take_ok t _ (svc_group_ok s b i g Hok Hg d)) as Hrem.
  rewrite Es in Hrem. destruct Hrem as (Hts & Hrem & Hbytes & Hperm).
  assert (lookup_set (with_set s i g d ts) kg d = Some ts) as Hl'.
  { rewrite (lookup_with_set s i g d ts kg) by done. by rewrite bool_decide_eq_true_2. }
  pose proof (lookup_set_index s kg d i g Hi Hg) as Hl.
  pose proof (set_bytes_nonneg ts (proj2 Hts)) as Hpos.
  pose proof (set_bytes_le s b i g d Hok Hg) as Hle.
  unfold set_take in Es. destruct (bt_find id t (timer_set_ref g d)) as [u|] eqn:Ef.
  - injection Es as <- <-. destruct (Hperm u eq_refl) as [_ Hu%heap_size_pos].
    rewrite (M_bind_run _ _ _ (with_set s i g d (bt_remove id t (timer_set_ref g d))) (with_set s i g d (bt_remove id t (timer_set_ref g d)), b)) by done.
    cbn beta zeta. cbn [accounted_bytes with_set set_groups].
    set (n := sat_sub (accounted_bytes s) (timer_heap_size u)).
    set (s1 := with_set s i g d _) in *.
    assert (n = accounted_bytes s - timer_heap_size u) as Hn by (unfold n; mlia).
    assert (svc_ok (set_accounted n s1) b) as Hok1.
    { apply svc_ok_with_set; [done..|lia|]. destruct Hok as [_ _ _ _ Hc _]. lia. }
    destruct (settle_spec n true s1 b Hok1) as (o & s' & b' & E & Hok' & Hgs & Hf & Ho & _).
    rewrite E. assert (forall kg' d', lookup_set s' kg' d' = lookup_set s1 kg' d') as Hls.
    { intros. by apply lookup_set_groups. }
    destruct Ho as [[-> Htight]|[e ->]]; split; try done. split_and!; [|done|].
    + intros kg' d' Hne. rewrite Hls. exact (with_set_others s i g d _ kg Hi Hg kg' d' Hne).
    + exists (timer_set_ref g d). unfold set_contains, set_take. rewrite Ef, Hls. by split_and!.
  - injection Es as <- <-. rewrite with_set_id by done. split; [done|].
    split_and!; [by intros ??|done|].
    exists (timer_set_ref g d). unfold set_contains, set_take. rewrite Ef. by split_and!.
Qed.
End service_ok.
Arguments svc_ok {B _ _} others s b.
