(* ===== verification/TimerFiring.v ===== *)
(** * Timer theorems: firing and accounting

    The loops of [advance_limited] and [advance_owned_limited] against a
    specification by lists of due timers, and the invariant of the service
    along every sequence of its operations. *)

From Stdlib Require Import ZArith Lia.
From stdpp Require Import base list option numbers strings sorting.
From S2P Require Import Prelude Bytes OrdMap MemoryPool Timer.

(** ** Specification of firing *)

Definition is_due (progress : Z) (t : TimerKey) : Prop := timestamp t <= progress.
#[global] Instance is_due_dec progress t : Decision (is_due progress t).
Proof. unfold is_due. apply _. Defined.

Definition fire (d : TimerDomain) (key_group : Z) (t : TimerKey) : FiredTimer :=
  {| f_key_group := key_group; f_domain := d; f_timer := t |}.

(** All due timers of the groups, in key-group order and, within a group, in
    the order of its set. *)
Fixpoint due_from (d : TimerDomain) (progress key_group : Z) (gs : list TimerGroup)
  : list FiredTimer :=
  match gs with
  | [] => []
  | g :: gs =>
      map (fire d key_group) (filter (is_due progress) (timer_set_ref g d)) ++
      due_from d progress (key_group + 1) gs
  end.

(** In an ordered set the due timers are a prefix. *)
Lemma take_due_filter progress ts :
  bt_sorted id ts -> take_due progress ts = filter (is_due progress) ts.
Proof.
  induction ts as [|t ts IH]; [done|]. rewrite bt_sorted_cons. intros [Hlt Hs]. simpl.
  unfold is_due at 1. destruct (Z.leb_spec (timestamp t) progress).
  - rewrite filter_cons_True by done. by rewrite IH.
  - rewrite filter_cons_False by (unfold is_due; lia). symmetry.
    apply filter_none. intros u Hu. specialize (Hlt u Hu).
    unfold id, ocmp, TimerKey_ord, ord_on in Hlt. rewrite prod_ocmp in Hlt. simpl in Hlt.
    unfold is_due. unfold ocmp, Z_ord in Hlt.
    destruct (Z.compare_spec (timestamp t) (timestamp u)); try done; lia.
Qed.

Lemma take_due_prefix progress k ts :
  ts = take k (take_due progress ts) ++ drop (length (take k (take_due progress ts))) ts.
Proof.
  revert k. induction ts as [|t ts IH]; intros k; simpl; [by rewrite take_nil|].
  destruct (timestamp t <=? progress); [|by rewrite take_nil].
  destruct k; [done|]. simpl. f_equal. apply IH.
Qed.

(** The inner loop pops the first [limit - n] due timers. *)
Lemma pop_due_spec progress limit n ts :
  0 <= n <= limit ->
  pop_due progress limit n ts =
    (take (Z.to_nat (limit - n)) (take_due progress ts),
     drop (length (take (Z.to_nat (limit - n)) (take_due progress ts))) ts).
Proof.
  revert n. induction ts as [|t ts IH]; intros n Hn; simpl; [by rewrite take_nil|].
  destruct (Z.eqb_spec n limit) as [->|Hne]; [by rewrite Z.sub_diag|].
  destruct (Z.ltb_spec progress (timestamp t)), (Z.leb_spec (timestamp t) progress); try lia.
  - by rewrite take_nil.
  - rewrite IH by lia.
    replace (Z.to_nat (limit - n)) with (S (Z.to_nat (limit - (n + 1)))) by lia.
    done.
Qed.

(** The outer loop fires the first [limit - n] due timers of all groups; what
    it fires of a group is taken from the front of that group's set, and the
    sets of the other domain are untouched. *)
Record fired_from (d : TimerDomain) (key_group : Z) (fired : list FiredTimer)
    (gs gs' : list TimerGroup) : Prop := {
  ff_length : length gs' = length gs;
  ff_group : forall i g, gs !! i = Some g -> exists g', gs' !! i = Some g' /\
    timer_set_ref g d =
      map f_timer (filter (fun f => f_key_group f = key_group + Z.of_nat i) fired) ++
      timer_set_ref g' d /\
    forall d', d' <> d -> timer_set_ref g' d' = timer_set_ref g d';
}.

Lemma filter_fire_eq d kg ts :
  filter (fun f => f_key_group f = kg) (map (fire d kg) ts) = map (fire d kg) ts.
Proof. apply filter_all. intros f (t & -> & _)%list_elem_of_fmap. done. Qed.
Lemma filter_fire_ne d kg kg' ts :
  kg' <> kg -> filter (fun f => f_key_group f = kg') (map (fire d kg) ts) = [].
Proof. intros Hne. apply filter_none. intros f (t & -> & _)%list_elem_of_fmap. simpl. congruence. Qed.
Lemma map_fire_timer d kg ts : map f_timer (map (fire d kg) ts) = ts.
Proof. rewrite map_map. apply map_id. Qed.

Lemma due_from_group_ge d progress kg gs f :
  f ∈ due_from d progress kg gs -> kg <= f_key_group f.
Proof.
  revert kg. induction gs as [|g gs IH]; intros kg; simpl; [by intros ?%elem_of_nil|].
  rewrite elem_of_app. intros [(t & -> & _)%list_elem_of_fmap|Hf]; simpl; [lia|].
  apply IH in Hf. lia.
Qed.

Lemma due_from_domain d progress kg gs f : f ∈ due_from d progress kg gs -> f_domain f = d.
Proof.
  revert kg. induction gs as [|g gs IH]; intros kg; simpl; [by intros ?%elem_of_nil|].
  rewrite elem_of_app. intros [(t & -> & _)%list_elem_of_fmap|Hf]; simpl; [done|eauto].
Qed.

Lemma advance_groups_spec d progress limit n kg gs :
  0 <= n <= limit -> Forall group_ok gs ->
  let '(fired, gs') := advance_groups d progress limit n kg gs in
  fired = take (Z.to_nat (limit - n)) (due_from d progress kg gs) /\
  fired_from d kg fired gs gs'.
Proof.
  revert n kg. induction gs as [|g gs IH]; intros n kg Hn Hgs; simpl.
  { split; [by rewrite take_nil|by split]. }
  apply Forall_cons in Hgs as [[Hsort _]%(fun H => H d) Hgs].
  destruct (Z.eqb_spec n limit) as [->|Hne].
  { rewrite Z.sub_diag. split; [done|]. split; [done|]. intros i h Hi. exists h. naive_solver. }
  rewrite pop_due_spec by done. rewrite <- take_due_filter by done.
  set (due := take_due progress (timer_set_ref g d)).
  set (k := Z.to_nat (limit - n)).
  set (p := take k due).
  assert (Z.of_nat (length p) <= limit - n) as Hp.
  { subst p k. rewrite length_take. lia. }
  specialize (IH (n + len p) (kg + 1)). unfold len in *. specialize (IH ltac:(lia) Hgs).
  destruct (advance_groups d progress limit (n + Z.of_nat (length p)) (kg + 1) gs) as [fired gs'].
  destruct IH as [Hf [Hlen Hff]]. split.
  - rewrite take_app, length_map, firstn_map. fold p. f_equal. rewrite Hf. f_equal.
    subst p. rewrite length_take. lia.
  - split; [simpl; by rewrite Hlen|]. change (fun t => {| f_key_group := kg; f_domain := d; f_timer := t |}) with (fire d kg).
    intros [|i] h Hi; simpl in *.
    + injection Hi as <-. eexists. split; [done|]. split; [|intros; by apply timer_set_other].
      rewrite timer_set_same, filter_app, map_app, Z.add_0_r, filter_fire_eq, map_fire_timer.
      rewrite (filter_none _ fired), app_nil_r; [by apply take_due_prefix|].
      intros f Hin. rewrite Hf in Hin. apply elem_of_take in Hin as (j & Hj%list_elem_of_lookup_2 & _).
      apply due_from_group_ge in Hj. lia.
    + destruct (Hff i h Hi) as (g' & Hg' & Hset & Hoth). exists g'. split; [done|].
      rewrite filter_app, filter_fire_ne by lia. simpl.
      replace (kg + Z.of_nat (S i)) with (kg + 1 + Z.of_nat i) by lia. done.
Qed.

Lemma set_ok_app ts us : set_ok (ts ++ us) -> set_ok us /\ Forall timer_ok ts.
Proof.
  intros [Hs [Ht Hu]%Forall_app]. split; [|done]. split; [|done].
  clear Hu. induction ts as [|t ts IH]; [done|]. apply bt_sorted_cons in Hs as [_ Hs].
  apply Forall_cons in Ht as [_ Ht]. auto.
Qed.

Lemma take_due_app_drop progress k ts :
  take_due progress (drop (length (take k (take_due progress ts))) ts) =
    drop k (take_due progress ts).
Proof.
  revert k. induction ts as [|t ts IH]; intros k; simpl; [by rewrite take_nil, !drop_nil|].
  destruct (timestamp t <=? progress) eqn:E.
  - destruct k; simpl; [by rewrite E|apply IH].
  - rewrite take_nil, drop_nil. simpl. by rewrite E.
Qed.

(** What is left due after firing is what was not fired. *)
Lemma advance_groups_rest d progress limit n kg gs :
  0 <= n <= limit -> Forall group_ok gs ->
  due_from d progress kg (advance_groups d progress limit n kg gs).2 =
    drop (Z.to_nat (limit - n)) (due_from d progress kg gs).
Proof.
  revert n kg. induction gs as [|g gs IH]; intros n kg Hn Hgs; simpl; [by rewrite drop_nil|].
  apply Forall_cons in Hgs as [Hg Hgs].
  destruct (Z.eqb_spec n limit) as [->|Hne]; [by rewrite Z.sub_diag|].
  rewrite pop_due_spec by done. set (k := Z.to_nat (limit - n)).
  pose proof (take_due_prefix progress k (timer_set_ref g d)) as Hset.
  pose proof (take_due_app_drop progress k (timer_set_ref g d)) as Hrest.
  set (p := take k _) in *. set (rest := drop (length p) _) in *.
  assert (Z.of_nat (length p) <= limit - n) as Hp.
  { subst p. rewrite length_take. lia. }
  specialize (IH (n + len p) (kg + 1)). unfold len in *. specialize (IH ltac:(lia) Hgs).
  destruct (advance_groups _ _ _ _ _ _) as [fired gs']. simpl in *.
  assert (bt_sorted id rest) as Hsort.
  { pose proof (Hg d) as Hso. rewrite Hset in Hso. by apply set_ok_app in Hso as [[? _] _]. }
  rewrite timer_set_same, <- take_due_filter, Hrest by done.
  rewrite <- (take_due_filter _ (timer_set_ref g d)) by apply (Hg d).
  rewrite drop_app, length_map, IH. rewrite <- !skipn_map. f_equal. f_equal.
  subst p. rewrite length_take. lia.
Qed.

Lemma fired_from_det d kg fired gs g1 g2 :
  fired_from d kg fired gs g1 -> fired_from d kg fired gs g2 -> g1 = g2.
Proof.
  intros [L1 H1] [L2 H2]. apply (list_eq_same_length _ _ (length gs)); [done|congruence|].
  intros i x y Hi Hx Hy. apply lookup_lt_is_Some in Hi as [g Hg].
  destruct (H1 i g Hg) as (x' & Hx' & Hs1 & Ho1), (H2 i g Hg) as (y' & Hy' & Hs2 & Ho2).
  simplify_eq. rewrite Hs1 in Hs2. apply app_inv_head in Hs2.
  assert (forall d', timer_set_ref x d' = timer_set_ref y d') as Heq.
  { intros d'. destruct (decide (d' = d)) as [->|Hne]; [done|]. by rewrite Ho1, Ho2. }
  pose proof (Heq EventTime). pose proof (Heq ProcessingTime). destruct x, y; simpl in *; congruence.
Qed.

Lemma fired_from_trans d kg f1 f2 gs g1 g2 :
  fired_from d kg f1 gs g1 -> fired_from d kg f2 g1 g2 -> fired_from d kg (f1 ++ f2) gs g2.
Proof.
  intros [L1 H1] [L2 H2]. split; [congruence|]. intros i g Hg.
  destruct (H1 i g Hg) as (x & Hx & Hs1 & Ho1), (H2 i x Hx) as (y & Hy & Hs2 & Ho2).
  exists y. split; [done|]. split.
  - by rewrite filter_app, map_app, Hs1, Hs2, app_assoc.
  - intros d' Hd. by rewrite Ho2, Ho1.
Qed.

(** ** Firing and the accounts *)

Lemma advance_groups_bytes d progress limit n kg gs :
  0 <= n <= limit -> Forall group_ok gs ->
  let '(fired, gs') := advance_groups d progress limit n kg gs in
  Forall group_ok gs' /\ Forall (fun f => timer_ok (f_timer f)) fired /\
  zsum group_bytes gs = set_bytes (map f_timer fired) + zsum group_bytes gs'.
Proof.
  revert n kg. induction gs as [|g gs IH]; intros n kg Hn Hgs; simpl; [done|].
  apply Forall_cons in Hgs as [Hg Hgs].
  destruct (Z.eqb_spec n limit) as [->|Hne]; [by split_and!; [constructor|constructor|]|].
  rewrite pop_due_spec by done. set (p := take _ _).
  pose proof (take_due_prefix progress (Z.to_nat (limit - n)) (timer_set_ref g d)) as Hset.
  fold p in Hset. set (rest := drop (length p) _) in *.
  assert (Z.of_nat (length p) <= limit - n) as Hp.
  { subst p. rewrite length_take. lia. }
  specialize (IH (n + len p) (kg + 1)). unfold len in *. specialize (IH ltac:(lia) Hgs).
  destruct (advance_groups d progress limit (n + Z.of_nat (length p)) (kg + 1) gs) as [fired gs'].
  destruct IH as (Hgs' & Hfd & Hsum). pose proof (Hg d) as Hso. rewrite Hset in Hso.
  apply set_ok_app in Hso as [Hrest Hpok]. split_and!.
  - constructor; [by apply timer_set_ok|done].
  - apply Forall_app. split; [|done]. apply Forall_map. done.
  - rewrite map_app, map_map, map_id. simpl. rewrite Hsum, timer_set_bytes.
    rewrite Hset at 1. unfold set_bytes. rewrite !zsum_app. lia.
Qed.

Lemma sat_sum_min f ts n :
  0 <= n <= USIZE_MAX -> (forall t, t ∈ ts -> 0 <= f t) ->
  sat_sum f ts n = Z.min (n + zsum f ts) USIZE_MAX.
Proof.
  revert n. induction ts as [|t ts IH]; intros n Hn Hf; simpl; [lia|].
  unfold sat_sum in *. simpl.
  pose proof (Hf t ltac:(constructor)).
  assert (0 <= zsum f ts) by (apply zsum_nonneg; intros u Hu; apply Hf; by constructor).
  rewrite IH; [mlia|mlia|]. intros u Hu. apply Hf. by constructor.
Qed.

Lemma sat_sum_heap ts :
  Forall timer_ok ts -> set_bytes ts <= USIZE_MAX ->
  sat_sum timer_heap_size ts 0 = set_bytes ts.
Proof.
  intros Hts Hle. rewrite sat_sum_min; [unfold set_bytes in *; lia|mlia|].
  intros t Ht. rewrite Forall_forall in Hts. pose proof (heap_size_pos t (Hts t Ht)). lia.
Qed.

Section firing.
Context `{BrokerLaws B} {others : Z}.
Abbreviation svc_ok := (svc_ok others).
Implicit Types (s : NativeTimerService) (b : B).

Lemma fired_bytes s b d progress limit :
  svc_ok s b -> 0 <= limit ->
  let '(fired, gs') := advance_groups d progress limit 0 (first_key_group s) (groups s) in
  let released := sat_sum timer_heap_size (map f_timer fired) 0 in
  released = set_bytes (map f_timer fired) /\ 0 <= released <= accounted_bytes s /\
  svc_ok (set_accounted (accounted_bytes s - released) (set_groups gs' s)) b.
Proof.
  intros Hok Hl. pose proof Hok as [Hf Hr Hgs Ha Hc Hb].
  pose proof (advance_groups_bytes d progress limit 0 (first_key_group s) (groups s) ltac:(lia) Hgs) as Hbytes.
  pose proof (advance_groups_spec d progress limit 0 (first_key_group s) (groups s) ltac:(lia) Hgs) as Hspec.
  destruct (advance_groups _ _ _ _ _ _) as [fired gs']. destruct Hbytes as (Hgs' & Hfd & Hsum).
  destruct Hspec as [_ [Hlen _]]. apply Forall_map in Hfd.
  pose proof (set_bytes_nonneg _ Hfd) as Hpos.
  assert (footprint gs' = footprint (groups s) - set_bytes (map f_timer fired)) as Hfoot.
  { unfold footprint, len. rewrite Hlen. lia. }
  pose proof (footprint_nonneg _ Hgs') as Hfp.
  cbv zeta. rewrite sat_sum_heap by (done || mlia). split_and!; [done|lia..|].
  split; simpl; try done; [unfold len in *; by rewrite Hlen|lia|lia].
Qed.

Definition advance_post d progress limit s (o : outcome (list FiredTimer)) s' b' : Prop :=
  svc_ok s' b' /\ first_key_group s' = first_key_group s /\
  match o with
  | Ok fired =>
      tight s' /\
      fired = take (Z.to_nat limit) (due_from d progress (first_key_group s) (groups s)) /\
      fired_from d (first_key_group s) fired (groups s) (groups s') /\
      (fired, groups s') = advance_groups d progress limit 0 (first_key_group s) (groups s)
  | Err _ => True
  | Panic => False
  end.

Lemma advance_limited_spec d progress limit s b :
  svc_ok s b -> 0 <= limit ->
  let '(o, (s', b')) := advance_limited d progress limit (s, b) in
  advance_post d progress limit s o s' b' /\
  (ReleaseTotal B -> exists fired, o = Ok fired).
Proof.
  intros Hok Hl. unfold advance_limited. rewrite (M_bind_run _ _ _ s (s, b)) by done. cbn beta.
  pose proof (fired_bytes s b d progress limit Hok Hl) as Hst.
  pose proof (advance_groups_spec d progress limit 0 (first_key_group s) (groups s)
                ltac:(lia) (ok_groups s b Hok)) as Hspec.
  destruct (advance_groups _ _ _ _ _ _) as [fired gs'] eqn:Eg. cbn beta zeta in *.
  destruct Hst as (_ & Hrel & Hok1). set (rel := sat_sum _ _ _) in *.
  assert (sat_sub (accounted_bytes s) rel = accounted_bytes s - rel) as -> by mlia.
  rewrite (M_bind_run _ _ _ tt (set_groups gs' s, b)) by done.
  destruct (settle_spec _ fired _ b Hok1) as (o & s' & b' & E & Hok' & Hgs & Hf & Ho & Hrt).
  rewrite E. simpl in Hgs, Hf. rewrite Z.sub_0_r in Hspec. destruct Hspec as [Hfired Hff].
  split; [|intros; exists fired; auto].
  split; [done|]. split; [done|]. rewrite Hgs.
  destruct Ho as [[-> Ht]|[e ->]]; [|done]. by split_and!.
Qed.

Lemma first_due_head progress ts :
  bt_sorted id ts -> first_due progress ts = head (filter (is_due progress) ts).
Proof.
  intros Hs. rewrite <- take_due_filter by done. destruct ts as [|t ts]; [done|]. simpl.
  by destruct (timestamp t <=? progress).
Qed.

Lemma next_due_head d progress kg gs :
  Forall group_ok gs ->
  next_due_from d progress kg gs =
    option_map (fun f => (f_key_group f, f_timer f)) (head (due_from d progress kg gs)).
Proof.
  intros Hgs. revert kg. induction Hgs as [|g gs Hg Hgs IH]; intros kg; simpl; [done|].
  rewrite first_due_head by apply (Hg d).
  destruct (filter _ _) as [|t ts]; simpl; [apply IH|done].
Qed.

(** C3: [advance_limited] succeeds when the host takes memory back, fires the
    first [limit] due timers in key-group order and, within a key group, in
    timestamp, key and namespace order; from each set it removes exactly the
    timers it fired, the other domain is untouched, what was due and not
    fired stays due in the same order, and the reservation ends at the
    footprint of the timers left. *)
Theorem advance_limited_exact `{!ReleaseTotal B} d progress limit s b :
  svc_ok s b -> 0 <= limit ->
  exists fired s' b',
    advance_limited d progress limit (s, b) = (Ok fired, (s', b')) /\
    fired = take (Z.to_nat limit) (due_from d progress (first_key_group s) (groups s)) /\
    due_from d progress (first_key_group s) (groups s') =
      drop (Z.to_nat limit) (due_from d progress (first_key_group s) (groups s)) /\
    (forall i g, groups s !! i = Some g -> exists g', groups s' !! i = Some g' /\
       timer_set_ref g d =
         map f_timer (filter (fun f => f_key_group f = first_key_group s + Z.of_nat i) fired) ++
         timer_set_ref g' d /\
       forall d', d' <> d -> timer_set_ref g' d' = timer_set_ref g d') /\
    rsize (reservation s') = footprint (groups s').
Proof.
  intros Hok Hl. pose proof (advance_limited_spec d progress limit s b Hok Hl) as Hs.
  destruct (advance_limited d progress limit (s, b)) as [o [s' b']].
  destruct Hs as [(Hok' & Hf & Hp) Hrt]. destruct (Hrt _) as [fired ->]. clear Hrt.
  destruct Hp as (Ht & Hfired & [_ Hg] & Hag). exists fired, s', b'. split_and!; try done.
  - pose proof (advance_groups_rest d progress limit 0 (first_key_group s) (groups s)
                  ltac:(lia) (ok_groups s b Hok)) as Hr.
    rewrite <- Hag, Z.sub_0_r in Hr. done.
  - rewrite Ht. apply (ok_accounted s' b' Hok').
Qed.

(** Firing in chunks is firing at once: [advance_limited] with limit [m]
    and then with limit [n] fires, in the same order, what one call with limit
    [m + n] fires, and leaves the same timers and the same account. *)
Theorem advance_limited_chunks `{!ReleaseTotal B} d progress m n s b :
  svc_ok s b -> 0 <= m -> 0 <= n ->
  exists f1 f2 s1 s2 s2' b1 b2 b2',
    advance_limited d progress m (s, b) = (Ok f1, (s1, b1)) /\
    advance_limited d progress n (s1, b1) = (Ok f2, (s2, b2)) /\
    advance_limited d progress (m + n) (s, b) = (Ok (f1 ++ f2), (s2', b2')) /\
    groups s2 = groups s2' /\ accounted_bytes s2 = accounted_bytes s2' /\
    rsize (reservation s2) = rsize (reservation s2').
Proof.
  intros Hok Hm Hn. pose proof (advance_limited_spec d progress m s b Hok Hm) as H1.
  destruct (advance_limited d progress m (s, b)) as [o1 [s1 b1]].
  destruct H1 as [(Hok1 & Hk1 & Hp1) Hrt]. destruct (Hrt _) as [f1 ->]. clear Hrt.
  destruct Hp1 as (Ht1 & Hf1 & Hff1 & Hag1).
  pose proof (advance_limited_spec d progress n s1 b1 Hok1 Hn) as H2.
  destruct (advance_limited d progress n (s1, b1)) as [o2 [s2 b2]] eqn:E2.
  destruct H2 as [(Hok2 & Hk2 & Hp2) Hrt]. destruct (Hrt _) as [f2 ->]. clear Hrt.
  destruct Hp2 as (Ht2 & Hf2 & Hff2 & _).
  pose proof (advance_limited_spec d progress (m + n) s b Hok ltac:(lia)) as H3.
  destruct (advance_limited d progress (m + n) (s, b)) as [o3 [s3 b3]].
  destruct H3 as [(Hok3 & Hk3 & Hp3) Hrt]. destruct (Hrt _) as [f3 ->]. clear Hrt.
  destruct Hp3 as (Ht3 & Hf3 & Hff3 & _).
  pose proof (advance_groups_rest d progress m 0 (first_key_group s) (groups s)
                ltac:(lia) (ok_groups s b Hok)) as Hr.
  rewrite <- Hag1, Z.sub_0_r in Hr. simpl in Hr. rewrite Hk1, Hr in Hf2.
  assert (f3 = f1 ++ f2) as ->.
  { rewrite Hf1, Hf2, Hf3, Z2Nat.inj_add by lia. by rewrite take_take_drop. }
  rewrite Hk1 in Hff2. pose proof (fired_from_trans _ _ _ _ _ _ _ Hff1 Hff2) as Hff.
  assert (groups s2 = groups s3) as Hg by (by eapply fired_from_det).
  assert (accounted_bytes s2 = accounted_bytes s3) as Ha.
  { rewrite (ok_accounted s2 b2 Hok2), (ok_accounted s3 b3 Hok3). by rewrite Hg. }
  exists f1, f2, s1, s2, s3, b1, b2, b3. split_and!; try done. by rewrite Ht2, Ht3.
Qed.

(** The one-timer loop agrees with the batch: [next_due] returns the
    timer that [advance_limited] with limit 1 fires, and [None] exactly when
    nothing is due. *)
Theorem next_due_agrees `{!ReleaseTotal B} d progress s b :
  svc_ok s b ->
  exists fired s' b', advance_limited d progress 1 (s, b) = (Ok fired, (s', b')) /\
    match next_due d progress s with
    | Some (kg, t) => fired = [{| f_key_group := kg; f_domain := d; f_timer := t |}]
    | None => fired = [] /\ groups s' = groups s
    end.
Proof.
  intros Hok. pose proof (advance_limited_spec d progress 1 s b Hok ltac:(lia)) as H1.
  destruct (advance_limited d progress 1 (s, b)) as [o1 [s1 b1]].
  destruct H1 as [(Hok1 & Hk1 & Hp1) Hrt]. destruct (Hrt _) as [f1 ->]. clear Hrt.
  destruct Hp1 as (_ & Hf1 & Hff & _). exists f1, s1, b1. split; [done|].
  unfold next_due. rewrite next_due_head by apply (ok_groups s b Hok).
  pose proof (due_from_domain d progress (first_key_group s) (groups s)) as Hd.
  destruct (due_from _ _ _ _) as [|f fs]; simpl in *; subst f1.
  - split; [done|]. symmetry. eapply fired_from_det; [|exact Hff]. split; [done|].
    intros i g Hg. exists g. naive_solver.
  - specialize (Hd f ltac:(constructor)). destruct f; simpl in *. by subst.
Qed.
End firing.
