(* ===== verification/TimerBatch.v ===== *)
(** * Timer theorems: batches and runs

    [register_batch] against one insertion after another, the transfer of
    credit in [advance_owned_limited], and the accounting invariant along every
    sequence of operations of [state/timer.rs] and [state/timer/batch.rs]. *)

From Stdlib Require Import ZArith Lia.
From stdpp Require Import base list option numbers strings sorting.
From S2P Require Import Prelude Bytes OrdMap MemoryPool Timer TimerFiring.

(** One insertion after another. *)
Fixpoint insert_each `{Broker B} (timers : list (Z * TimerDomain * TimerKey))
  : M (NativeTimerService * B) (list Z) :=
  match timers with
  | [] => mret []
  | (key_group, d, t) :: timers =>
      inserted ← update_set key_group d (set_insert t);
      rest ← insert_each timers;
      mret (if inserted : bool then key_group :: rest else rest)
  end.

Definition contains (s : NativeTimerService) (kg : Z) (d : TimerDomain) (t : TimerKey) : bool :=
  match lookup_set s kg d with Some ts => set_contains t ts | None => false end.

Definition same_timer (t u : TimerKey) : bool :=
  match ocmp t u with Eq => true | _ => false end.

Lemma same_timer_true t u : same_timer t u = true <-> timer_id t = timer_id u.
Proof.
  unfold same_timer. destruct (ocmp t u) eqn:E; split; try done.
  - intros _. exact (ocmp_eq (timer_id t) (timer_id u) E).
  - intros Hid. unfold ocmp, TimerKey_ord, ord_on in E. rewrite Hid, ocmp_refl in E. done.
  - intros Hid. unfold ocmp, TimerKey_ord, ord_on in E. rewrite Hid, ocmp_refl in E. done.
Qed.

Lemma set_contains_insert t u ts :
  bt_sorted id ts -> set_contains t (set_insert u ts).2 = set_contains t ts || same_timer t u.
Proof.
  intros Hs. apply eq_true_iff_eq. rewrite orb_true_iff, !set_contains_true, same_timer_true.
  unfold set_insert. destruct (bt_find id u ts) as [v|] eqn:Ef; cbn [snd].
  - apply (bt_find_Some id) in Ef as [Hv E]. pose proof (ocmp_eq (timer_id u) (timer_id v) E).
    split; [by left|]. intros [?|Ht]; [done|]. exists v. split; [done|congruence].
  - assert (bt_put id id u ts ≡ₚ u :: ts) as Hp by (by apply bt_put_perm).
    split.
    + intros (v & Hv & E). rewrite Hp in Hv. apply elem_of_cons in Hv as [->|Hv]; eauto.
    + intros [(v & Hv & E)|E]; [exists v|exists u]; (split; [rewrite Hp; by constructor|done]).
Qed.

Lemma set_insert_contains t ts :
  (set_insert t ts).1 = negb (set_contains t ts) /\
  (set_contains t ts = true -> (set_insert t ts).2 = ts).
Proof. unfold set_insert, set_contains. by destruct (bt_find id t ts). Qed.

Section batch.
Context `{BrokerLaws B} {others : Z}.
Abbreviation svc_ok := (svc_ok others).
Implicit Types (s : NativeTimerService) (b : B).

Lemma contains_with_set s i g d ts kg kg' d' t :
  group_index s kg = Ok i -> groups s !! i = Some g ->
  contains (with_set s i g d ts) kg' d' t =
    if bool_decide (kg' = kg /\ d' = d) then set_contains t ts else contains s kg' d' t.
Proof.
  intros Hi Hg. unfold contains. rewrite (lookup_with_set s i g d ts kg) by done.
  by case_bool_decide.
Qed.

(** The selection made against the original service [s0] is the one the
    service [s] with the selected timers inserted would make. *)
Definition selected_in s0 (seen : list (Z * TimerDomain * TimerKey)) s : Prop :=
  first_key_group s = first_key_group s0 /\ len (groups s) = len (groups s0) /\
  forall kg d t, contains s kg d t = contains s0 kg d t || existsb (same_request (kg, d, t)) seen.

Lemma same_request_spec kg d t kg' d' t' :
  same_request (kg, d, t) (kg', d', t') =
    bool_decide (kg = kg' /\ d = d') && same_timer t t'.
Proof.
  unfold same_request, same_timer. f_equal. apply eq_true_iff_eq.
  rewrite andb_true_iff, !bool_decide_eq_true, Z.eqb_eq. done.
Qed.

Lemma selected_in_insert s0 seen s i g kg d t :
  selected_in s0 seen s -> group_index s kg = Ok i -> groups s !! i = Some g ->
  bt_sorted id (timer_set_ref g d) ->
  selected_in s0 ((kg, d, t) :: seen) (with_set s i g d (set_insert t (timer_set_ref g d)).2).
Proof.
  intros (Hf & Hl & Hc) Hi Hg Hs. split_and!; [done|simpl; unfold len in *; by rewrite length_insert|].
  intros kg' d' t'. rewrite (contains_with_set s i g d _ kg) by done.
  cbn [existsb]. rewrite same_request_spec. case_bool_decide as Hd.
  - destruct Hd as [-> ->]. rewrite set_contains_insert by done.
    specialize (Hc kg d t'). unfold contains at 1 in Hc.
    rewrite (lookup_set_index s kg d i g Hi Hg) in Hc. rewrite Hc.
    cbn [andb]. by destruct (contains s0 kg d t'), (existsb _ seen), (same_timer t' t).
  - rewrite Hc. done.
Qed.

Lemma selected_in_owned s0 seen s kg g0 :
  selected_in s0 seen s -> group s0 kg = Ok g0 ->
  exists i g, group_index s kg = Ok i /\ groups s !! i = Some g /\
    forall d t, set_contains t (timer_set_ref g d) =
      set_contains t (timer_set_ref g0 d) || existsb (same_request (kg, d, t)) seen.
Proof.
  intros (Hf & Hl & Hc) Hg0. pose proof Hg0 as (i & Hi & Hgi)%group_Ok.
  apply group_index_Ok in Hi as Hi'. destruct Hi' as [Hkg Hlt].
  assert (i < length (groups s))%nat as Hlt' by (unfold len in Hl; lia).
  pose proof (lookup_lt_is_Some_2 _ _ Hlt') as [g Hg].
  assert (group_index s kg = Ok i) as Hi2 by (apply group_index_Ok; rewrite Hf; done).
  exists i, g. split_and!; [done..|]. intros d t. specialize (Hc kg d t).
  unfold contains, lookup_set in Hc. rewrite Hg0 in Hc.
  rewrite (proj2 (group_Ok s kg g)) in Hc by eauto. done.
Qed.

Lemma with_set_groups_ok s i g d ts :
  Forall group_ok (groups s) -> groups s !! i = Some g -> set_ok ts ->
  Forall group_ok (groups (with_set s i g d ts)).
Proof.
  intros Hgs Hg Hts. apply Forall_insert; [done|]. apply timer_set_ok; [|done].
  rewrite Forall_forall in Hgs. by eapply Hgs, list_elem_of_lookup_2.
Qed.

(** The frame of the insertions of a batch. *)
Record batch_frame (growth growth' : Z) s s' : Prop := {
  bf_first : first_key_group s' = first_key_group s;
  bf_len : len (groups s') = len (groups s);
  bf_ok : Forall group_ok (groups s');
  bf_resv : reservation s' = reservation s;
  bf_acc : accounted_bytes s' = accounted_bytes s;
  bf_range : growth <= growth' <= USIZE_MAX;
  bf_foot : growth' < USIZE_MAX -> footprint (groups s') = footprint (groups s) + growth' - growth;
}.

Lemma insert_selected_spec s0 timers b : forall seen growth sel growth' s,
  selected_in s0 seen s -> select_new s0 seen timers growth = Ok (sel, growth') ->
  Forall (fun r => timer_ok r.2) timers -> Forall group_ok (groups s) -> is_usize growth ->
  exists ins s', insert_selected timers sel (s, b) = (Ok ins, (s', b)) /\
    insert_each timers (s, b) = (Ok ins, (s', b)) /\ batch_frame growth growth' s s'.
Proof.
  induction timers as [|[[kg d] t] timers IH];
    intros seen growth sel growth' s Hsel Hnew Hts Hgs Hgr; simpl in Hnew.
  { simplify_eq. exists [], s. split_and!; [done..|]. split; try done; unfold is_usize in *; lia. }
  apply outcome_bind_Ok in Hnew as (g0 & Hg0 & Hnew).
  apply outcome_bind_Ok in Hnew as ([sel1 gr1] & Hrec & [= <- <-]). simpl in *.
  apply Forall_cons in Hts as [Ht Hts]. simpl in Ht. pose proof (heap_size_pos t Ht) as Hh.
  destruct (selected_in_owned s0 seen s kg g0 Hsel Hg0) as (i & g & Hi & Hg & Hc).
  rewrite <- negb_orb, <- Hc in *.
  destruct (set_insert_contains t (timer_set_ref g d)) as [Hin1 Hin2].
  assert (group_ok g) as Hgok by (rewrite Forall_forall in Hgs; by eapply Hgs, list_elem_of_lookup_2).
  pose proof (set_insert_ok t _ (Hgok d) Ht) as Hins.
  pose proof (selected_in_insert s0 seen s i g kg d t Hsel Hi Hg (proj1 (Hgok d))) as Hsel'.
  destruct (set_insert t (timer_set_ref g d)) as [ins1 ts] eqn:Es. simpl in *.
  destruct Hins as (Hts' & _ & Hbytes & _).
  pose proof (update_set_owned kg d _ s b i g ins1 ts Hi Hg Es) as Hup.
  unfold mbind, M_bind. rewrite Hup.
  destruct (set_contains t (timer_set_ref g d)); simpl in *; subst ins1.
  - rewrite Hin2, with_set_id by done.
    destruct (IH seen growth sel1 gr1 s) as (ins & s' & Hr1 & Hr2 & Hfr); [done..|].
    exists ins, s'. by rewrite Hr1, Hr2.
  - destruct (IH _ _ _ _ _ Hsel' Hrec) as (ins & s' & Hr1 & Hr2 & Hfr);
      [done|by apply with_set_groups_ok|mlia|].
    rewrite Hup, Hr1, Hr2. exists (kg :: ins), s'. split_and!; [done..|].
    destruct Hfr as [F1 F2 F3 F4 F5 F6 F7].
    rewrite (footprint_with_set s i g d ts Hg) in F7.
    split; try done; [|mlia|intros Hlt; specialize (F7 Hlt); mlia].
    rewrite F2. simpl. unfold len. by rewrite length_insert.
Qed.

Lemma select_new_no_panic s seen timers growth : select_new s seen timers growth <> Panic.
Proof.
  revert seen growth. induction timers as [|[[kg d] t] timers IH]; intros seen growth; simpl; [done|].
  destruct (group_total s kg) as [[g ->]|[_ ->]]; [|done]. rewrite outcome_bind_run.
  destruct (select_new _ _ _ _) eqn:E; [done..|by apply IH in E].
Qed.

Lemma update_set_frame {A} kg d (f : list TimerKey -> A * list TimerKey) s b r b' :
  update_set kg d f (set_reservation r s, b') =
    let '(o, (s1, _)) := update_set kg d f (s, b) in (o, (set_reservation r s1, b')).
Proof.
  unfold update_set, svc, gets, mbind, M_bind, lift. simpl.
  change (group_index (set_reservation r s) kg) with (group_index s kg).
  destruct (group_index s kg) as [i| |]; [|done..].
  destruct (groups s !! i); [|done]. by destruct (f _).
Qed.

(** Insertions neither use nor change the credit. *)
Lemma insert_each_frame timers s r b b' o s1 b1 :
  insert_each timers (s, b') = (o, (s1, b1)) ->
  insert_each timers (set_reservation r s, b) = (o, (set_reservation r s1, b)).
Proof.
  revert s o s1 b1. induction timers as [|[[kg d] t] timers IH]; intros s o s1 b1; simpl.
  { intros [= <- <- <-]. done. }
  unfold mbind, M_bind. rewrite (update_set_frame _ _ _ s b' r b).
  destruct (update_set kg d (set_insert t) (s, b')) as [[ins| |] [s2 b2]] eqn:E;
    [|by intros [= <- <- <-]..].
  assert (b2 = b') as ->.
  { destruct (owned_or_not s kg) as [(i & g & Hi & Hg)|He].
    - destruct (set_insert t (timer_set_ref g d)) as [x y] eqn:Ei.
      rewrite (update_set_owned _ _ _ _ _ _ _ _ _ Hi Hg Ei) in E. by simplify_eq.
    - rewrite (update_set_unowned _ _ _ _ _ _ He) in E. by simplify_eq. }
  destruct (insert_each timers (s2, b')) as [o3 [s3 b3]] eqn:E3.
  rewrite (IH s2 o3 s3 b3 E3).
  destruct o3; intros [= <- <- <-]; done.
Qed.

Definition register_batch_post timers s b (o : outcome (list Z)) s' b' : Prop :=
  svc_ok s' b' /\ first_key_group s' = first_key_group s /\
  match o with
  | Ok inserted =>
      tight s' /\ exists s1, insert_each timers (s, b) = (Ok inserted, (s1, b)) /\
        groups s' = groups s1
  | Err _ => s' = s /\ reserved b' = reserved b
  | Panic => False
  end.

Lemma register_batch_spec timers s b :
  svc_ok s b -> Forall (fun r => timer_ok r.2) timers ->
  let '(o, (s', b')) := register_batch timers (s, b) in register_batch_post timers s b o s' b'.
Proof.
  intros Hok Hts. unfold register_batch. rewrite (M_bind_run _ _ _ s (s, b)) by done. cbn beta.
  pose proof (select_new_no_panic s [] timers 0) as Hnp.
  destruct (select_new s [] timers 0) as [[sel growth]|e|] eqn:Esel; [..|done].
  2:{ unfold mbind, M_bind, lift. by split_and!. }
  rewrite (M_bind_run _ _ _ (sel, growth) (s, b)) by done. cbn [fst snd].
  assert (selected_in s [] s) as Hsel.
  { split_and!; [done..|]. intros. simpl. by rewrite orb_false_r. }
  destruct (insert_selected_spec s timers b [] 0 sel growth s Hsel Esel Hts (ok_groups s b Hok))
    as (_ & _ & _ & _ & [_ _ _ _ _ Hr _]); [mlia|].
  pose proof (ok_nonneg s b Hok) as Ha. pose proof (ok_credit s b Hok) as Hc.
  set (n := sat_add (accounted_bytes s) growth).
  assert (is_usize n /\ accounted_bytes s <= n) as [Hn Hle] by (unfold n; mlia).
  destruct (svc_resize_cases n s b Hn Hok) as (o1 & r1 & b1 & E1 & Hbal & Hrs).
  destruct (svc_resize_ok n s b o1 r1 b1 Hn Hle Hok Hbal Hrs) as [Hok1 Hmax].
  unfold mbind at 1, M_bind at 1. rewrite E1.
  destruct o1 as [[]|e|]; [|destruct (bal_err _ _ _ _ _ Hbal e eq_refl) as [-> ?]; by destruct s|by destruct Hbal].
  specialize (Hmax eq_refl). specialize (Hrs eq_refl).
  destruct (insert_selected_spec s timers b1 [] 0 sel growth (set_reservation r1 s))
    as (ins & s1 & Hi1 & Hi2 & Hfr); [done..|exact (ok_groups s b Hok)|mlia|].
  rewrite (M_bind_run _ _ _ ins (s1, b1)) by done.
  rewrite (M_bind_run _ _ _ tt (set_accounted n s1, b1)) by done.
  destruct Hfr as [F1 F2 F3 F4 F5 F6 F7]. simpl in F1, F2, F4, F5, F7.
  split_and!; [|done| |].
  - destruct Hok1 as [G1 G2 G3 G4 G5 G6]. simpl in *.
    split; simpl; rewrite ?F1, ?F2, ?F4; try done; [|lia].
    rewrite F7, Z.sub_0_r by (unfold n in *; mlia). unfold n in *. mlia.
  - unfold tight. simpl. by rewrite F4.
  - exists (set_reservation (reservation s) s1).
    split; [|done]. apply (insert_each_frame _ _ (reservation s) b) in Hi2. by destruct s.
Qed.

(** *** Owned batches *)

(** The credit a batch must own: its descriptor vector and its timers. *)
Definition batch_bytes (entries : list FiredTimer) : Z :=
  size_of_fired_timer * len entries + set_bytes (map f_timer entries).
Definition batch_ok (batch : FiredTimerBatch) : Prop :=
  rsize (b_memory batch) = batch_bytes (b_entries batch) /\
  Forall (fun f => timer_ok (f_timer f)) (b_entries batch).

Lemma due_timers_len d progress s :
  Forall group_ok (groups s) ->
  length (due_timers d progress s) =
    length (due_from d progress (first_key_group s) (groups s)).
Proof.
  unfold due_timers. generalize (first_key_group s). intros kg Hgs. revert kg.
  induction Hgs as [|g gs Hg Hgs IH]; intros kg; simpl; [done|].
  rewrite !length_app, length_map, (IH (kg + 1)), take_due_filter by apply (Hg d). done.
Qed.
End batch.

Lemma batch_ok_nonneg batch : batch_ok batch -> 0 <= rsize (b_memory batch).
Proof.
  intros [-> Hts%Forall_map]. unfold batch_bytes, size_of_fired_timer.
  pose proof (set_bytes_nonneg _ Hts). pose proof (len_nonneg (b_entries batch)). lia.
Qed.

Section owned.
Context `{BrokerLaws B} {others : Z}.
Implicit Types (s : NativeTimerService) (b : B).

Definition owned_post d progress limit s b (o : outcome FiredTimerBatch) s' b' : Prop :=
  match o with
  | Ok batch =>
      batch_ok batch /\ svc_ok (others + rsize (b_memory batch)) s' b' /\
      first_key_group s' = first_key_group s /\
      b_entries batch =
        take (Z.to_nat limit) (due_from d progress (first_key_group s) (groups s)) /\
      fired_from d (first_key_group s) (b_entries batch) (groups s) (groups s') /\
      (tight s -> tight s')
  | Err _ => s' = s /\ svc_ok others s b' /\ reserved b' = reserved b
  | Panic => False
  end.

Lemma owned_memory n s b :
  svc_ok others s b -> is_usize n ->
  exists o r' b', resize n (sibling (reservation s) "native due timer batch", b) = (o, (r', b')) /\
    o <> Panic /\ rbroker r' = rbroker (reservation s) /\
    (o = Ok tt -> rsize r' = n /\ reserved b' = reserved b + n /\ n <= I64_MAX) /\
    (forall e, o = Err e -> rsize r' = 0 /\ reserved b' = reserved b).
Proof.
  intros Hok Hn. set (r := sibling _ _). pose proof (ok_nonneg s b Hok) as Hnn.
  destruct Hok as [_ _ _ _ Hc Hb].
  assert (rsize r <= reserved b) as Hle by (simpl; lia).
  pose proof (resize_balanced n r b Hn ltac:(simpl; mlia) Hle) as Hbal.
  destruct (resize n (r, b)) as [o [r' b']]. destruct Hbal as [[Ht Hu Hp He Hbr Hm] Hr].
  exists o, r', b'. split_and!; try done.
  - intros ->. specialize (Hr eq_refl). simpl in Ht. split_and!; [done|lia|].
    destruct (Z.le_gt_cases n 0); [mlia|]. specialize (Hm eq_refl). simpl in Hm.
    specialize (Hm ltac:(lia)). lia.
  - intros e ->. by destruct (He e eq_refl) as [-> ?].
Qed.

Lemma owned_grow_from (memory r : resv) moved :
  rbroker memory = rbroker r -> 0 <= moved <= rsize r -> rsize r <= I64_MAX ->
  rsize memory <= I64_MAX ->
  grow_from memory r moved = Ok (set_rsize (rsize memory + moved) memory, set_rsize (rsize r - moved) r).
Proof.
  intros Hbr Hm Hr Hmem. unfold grow_from. rewrite Hbr, Nat.eqb_refl. simpl.
  destruct (Z.ltb_spec (rsize r) moved); [lia|].
  rewrite checked_add_small by mlia. done.
Qed.

Lemma advance_owned_spec d progress limit s b :
  svc_ok others s b -> 0 <= limit ->
  let '(o, (s', b')) := advance_owned_limited d progress limit (s, b) in
  owned_post d progress limit s b o s' b'.
Proof.
  intros Hok Hl. unfold advance_owned_limited.
  set (count := Z.min limit (len (due_timers d progress s))).
  assert (0 <= count) as Hc0 by (pose proof (len_nonneg (due_timers d progress s)); lia).
  assert (is_usize (sat_mul count size_of_fired_timer)) as Hu.
  { unfold size_of_fired_timer. mlia. }
  destruct (owned_memory _ s b Hok Hu) as (o & r' & b' & E & Hp & Hbr & HOk & HErr).
  rewrite E. destruct o as [[]|e|]; [|clear HOk|done].
  2:{ destruct (HErr e eq_refl) as [Hr Hb]. unfold host_drop. rewrite Hr. simpl.
      split_and!; [done| |done]. destruct Hok as [? ? ? ? ? [? ?]]. split; try done. lia. }
  destruct (HOk eq_refl) as (Hr & Hb & Hmax). clear HOk HErr.
  assert (sat_mul count size_of_fired_timer = size_of_fired_timer * count) as Hsat.
  { unfold size_of_fired_timer in *. mlia. }
  pose proof (fired_bytes s b d progress count Hok Hc0) as Hst.
  pose proof (advance_groups_spec d progress count 0 (first_key_group s) (groups s)
                ltac:(lia) (ok_groups s b Hok)) as Hspec.
  pose proof (advance_groups_bytes d progress count 0 (first_key_group s) (groups s)
                ltac:(lia) (ok_groups s b Hok)) as Hby.
  destruct (advance_groups _ _ _ _ _ _) as [fired gs']. cbn beta zeta in *.
  destruct Hst as (Hmv & Hrel & Hok1), Hspec as [Hf Hff], Hby as (_ & Hfd & _).
  set (moved := sat_sum _ _ _) in *. pose proof (ok_credit s b Hok) as Hcr.
  cbn [reservation set_groups]. rewrite owned_grow_from by (done || lia).
  pose proof (due_timers_len d progress s (ok_groups s b Hok)) as Hlen.
  rewrite Z.sub_0_r in Hf.
  assert (len fired = count) as Hcount.
  { rewrite Hf. unfold len. rewrite length_take, <- Hlen. unfold count, len in *. lia. }
  assert (wrapu 64 (accounted_bytes s - moved) = accounted_bytes s - moved) as Hw.
  { unfold wrapu. apply Z.mod_small. mlia. }
  cbn [accounted_bytes set_groups]. rewrite Hw.
  split_and!; [split; [|done]| |done| |done|].
  - unfold batch_bytes. cbn [b_memory b_entries rsize set_rsize]. lia.
  - assert (0 <= rsize r') as Hr0 by (rewrite Hr; apply Hu).
    destruct Hok1 as [H1 H2 H3 H4 H5 [H6 H7]]. cbn in *. split; cbn; (done || lia).
  - cbn. rewrite Hf. unfold count, len. rewrite Hlen.
    destruct (Z.le_gt_cases limit (Z.of_nat (length (due_from d progress (first_key_group s) (groups s))))).
    + by rewrite Z.min_l.
    + rewrite Z.min_r, Nat2Z.id by lia. rewrite !take_ge by lia. done.
  - unfold tight. cbn. intros Ht. lia.
Qed.
End owned.

Section batches.
Context `{BrokerLaws B}.

(** [register_batch] is atomic and agrees with inserting the timers one
    after another: on success it reports the key groups of the timers that
    were new, in order, with exactly the sets the single insertions produce
    and the credit of exactly those timers; a refused batch (an unowned key
    group, or memory denied) changes nothing. *)
Theorem register_batch_sequential (others : Z) timers (s : NativeTimerService) (b : B) :
  svc_ok others s b -> Forall (fun r => timer_ok r.2) timers ->
  match register_batch timers (s, b) with
  | (Ok inserted, (s', b')) =>
      rsize (reservation s') = footprint (groups s') /\
      exists s1, insert_each timers (s, b) = (Ok inserted, (s1, b)) /\ groups s' = groups s1
  | (Err _, (s', b')) => s' = s /\ reserved b' = reserved b
  | (Panic, _) => False
  end.
Proof.
  intros Hok Hts. pose proof (register_batch_spec timers s b Hok Hts) as Hs.
  destruct (register_batch timers (s, b)) as [[ins|e|] [s' b']]; destruct Hs as (Hok' & _ & Hs); try done.
  destruct Hs as [Ht Hi]. split; [|done]. rewrite Ht. apply (ok_accounted s' b' Hok').
Qed.

(** [advance_owned_limited] fires what [advance_limited] fires and moves
    the credit of the fired timers into the batch: the service gives up
    exactly the bytes of those timers, and the batch owns them together with
    its descriptor vector, the only memory asked of the host. *)
Theorem advance_owned_transfers (others : Z) d progress limit (s : NativeTimerService) (b : B) :
  svc_ok others s b -> 0 <= limit ->
  match advance_owned_limited d progress limit (s, b) with
  | (Ok batch, (s', b')) =>
      b_entries batch =
        take (Z.to_nat limit) (due_from d progress (first_key_group s) (groups s)) /\
      fired_from d (first_key_group s) (b_entries batch) (groups s) (groups s') /\
      rsize (b_memory batch) = batch_bytes (b_entries batch) /\
      accounted_bytes s' = footprint (groups s') /\
      reserved b' = rsize (reservation s') + rsize (b_memory batch) + others
  | (Err _, (s', b')) => s' = s /\ reserved b' = reserved b
  | (Panic, _) => False
  end.
Proof.
  intros Hok Hl. pose proof (advance_owned_spec d progress limit s b Hok Hl) as Hs.
  destruct (advance_owned_limited d progress limit (s, b)) as [[batch|e|] [s' b']]; try done.
  - destruct Hs as ([Hm _] & [H1 H2 H3 H4 H5 H6] & _ & He & Hff & _). split_and!; try done. lia.
  - by destruct Hs as (-> & _ & ?).
Qed.
End batches.
