(* ===== verification/TimerSnapshot.v ===== *)
(** * Timer theorems: snapshots

    A key group's timers survive [snapshot_key_group] and [restore_key_group],
    and [snapshot_size_bound] is the exact size of the snapshot. *)

From Stdlib Require Import ZArith Lia Strings.Byte.
From stdpp Require Import base list option numbers strings sorting.
From S2P Require Import Prelude Bytes OrdMap MemoryPool Timer TimerFiring TimerBatch.

(** ** The encoding *)

Definition var_bytes (bs : bytes) : bytes := u32_le (len bs) ++ bs.
Definition timer_bytes (dt : TimerDomain * TimerKey) : bytes :=
  [domain_byte dt.1] ++ i64_le (timestamp dt.2) ++
  var_bytes (vdata (tkey dt.2)) ++ var_bytes (vdata (namespace dt.2)).
Definition timers_bytes (ts : list (TimerDomain * TimerKey)) : bytes :=
  concat (map timer_bytes ts).
Definition snapshot_header (key_group count : Z) : bytes :=
  SNAPSHOT_MAGIC ++ [SNAPSHOT_VERSION] ++ u32_le key_group ++ u32_le count.

(** Lengths fit the 32-bit fields of the format. *)
Definition timer_fits (dt : TimerDomain * TimerKey) : Prop :=
  is_i64 (timestamp dt.2) /\ len (vdata (tkey dt.2)) <= U32_MAX /\
  len (vdata (namespace dt.2)) <= U32_MAX.

Definition timer_size (dt : TimerDomain * TimerKey) : Z :=
  17 + len (vdata (tkey dt.2)) + len (vdata (namespace dt.2)).

Lemma var_bytes_len bs : len (var_bytes bs) = 4 + len bs.
Proof. unfold var_bytes, len. rewrite length_app, u32_le_length. lia. Qed.

Lemma timer_bytes_len dt : len (timer_bytes dt) = timer_size dt.
Proof.
  unfold timer_bytes, timer_size. rewrite !len_app, !var_bytes_len.
  unfold len at 1 2. rewrite i64_le_length. cbn [length]. lia.
Qed.

Lemma timers_bytes_len ts : len (timers_bytes ts) = zsum timer_size ts.
Proof.
  induction ts as [|t ts IH]; [done|]. unfold timers_bytes in *. cbn [map concat zsum foldr].
  by rewrite len_app, timer_bytes_len, IH.
Qed.

Lemma write_u32_ok out z : z <= U32_MAX -> write_u32 out z = Ok (out ++ u32_le z).
Proof. intros. unfold write_u32. by rewrite (proj2 (Z.leb_le _ _)). Qed.

Lemma write_bytes_ok out bs :
  len bs <= U32_MAX -> write_bytes out bs = Ok (out ++ var_bytes bs).
Proof.
  intros. unfold write_bytes. rewrite write_u32_ok, outcome_bind_run by done.
  unfold var_bytes. by rewrite app_assoc.
Qed.

Lemma write_timers_ok ts out :
  Forall timer_fits ts -> write_timers out ts = Ok (out ++ timers_bytes ts).
Proof.
  revert out. induction ts as [|[d t] ts IH]; intros out Hts; cbn [write_timers].
  { unfold timers_bytes; simpl. by rewrite app_nil_r. }
  apply Forall_cons in Hts as [(_ & Hk & Hn) Hts]. cbn [fst snd] in *.
  rewrite !write_bytes_ok, outcome_bind_run, write_bytes_ok, outcome_bind_run, IH by done.
  unfold timers_bytes. cbn [map concat]. unfold timer_bytes at 2. cbn [fst snd].
  by rewrite <- !app_assoc.
Qed.

(** ** Reading it back *)

Definition norm_vec (v : vec) : vec := to_vec (vdata v).
(** A decoded timer has fresh vectors without spare capacity. *)
Definition norm (t : TimerKey) : TimerKey :=
  {| timestamp := timestamp t; tkey := norm_vec (tkey t); namespace := norm_vec (namespace t) |}.

Lemma reads_u32 z : is_u32 z -> reads read_u32 (u32_le z) z.
Proof.
  intros Hz. apply reads_bind_ret with (a := u32_le z).
  - apply reads_exact. unfold len. by rewrite u32_le_length.
  - intros i. by rewrite of_u32_le.
Qed.

Lemma reads_i64 z : is_i64 z -> reads read_i64 (i64_le z) z.
Proof.
  intros Hz. apply reads_bind_ret with (a := i64_le z).
  - apply reads_exact. unfold len. by rewrite i64_le_length.
  - intros i. by rewrite i64_of_i64_le.
Qed.

Lemma reads_u8 b : reads read_u8 [b] b.
Proof. apply reads_bind_ret with (a := [b]); [by apply reads_exact|done]. Qed.

Lemma reads_bytes bs : len bs <= U32_MAX -> reads read_bytes (var_bytes bs) (to_vec bs).
Proof.
  intros Hl. pose proof (len_nonneg bs). apply reads_bind with (a := len bs).
  - apply reads_u32. mlia.
  - apply reads_bind_ret with (a := bs); [by apply reads_exact|done].
Qed.

Lemma reads_domain d : reads read_domain [domain_byte d] d.
Proof. apply reads_bind_ret with (a := domain_byte d); [apply reads_u8|by destruct d]. Qed.

Lemma reads_timers ts :
  Forall timer_fits ts ->
  reads (read_timers (length ts)) (timers_bytes ts) (map (fun dt => (dt.1, norm dt.2)) ts).
Proof.
  induction 1 as [|[d t] ts (Ht & Hk & Hn) _ IH]; cbn [length read_timers map]; [apply reads_ret|].
  cbn [fst snd] in *. eapply reads_eq.
  - eapply (reads_bind _ _ _ _ d); [apply reads_domain|].
    eapply (reads_bind _ _ _ _ (timestamp t)); [by apply reads_i64|].
    eapply (reads_bind _ _ _ _ (norm_vec (tkey t))); [by apply reads_bytes|].
    eapply (reads_bind _ _ _ _ (norm_vec (namespace t))); [by apply reads_bytes|].
    eapply reads_bind_ret; [exact IH|]. done.
  - unfold timers_bytes. cbn [map concat]. unfold timer_bytes at 2. cbn [fst snd].
    by rewrite <- !app_assoc.
Qed.

Definition snapshot_of (key_group : Z) (ts : list (TimerDomain * TimerKey)) : bytes :=
  snapshot_header key_group (len ts) ++ timers_bytes ts.

Lemma snapshot_of_len kg ts : len (snapshot_of kg ts) = 13 + zsum timer_size ts.
Proof.
  unfold snapshot_of, snapshot_header. rewrite !len_app, timers_bytes_len.
  unfold len at 3 4. rewrite !u32_le_length. change (len SNAPSHOT_MAGIC) with 4.
  change (len [SNAPSHOT_VERSION]) with 1. lia.
Qed.

Lemma timer_size_ge dt : 17 <= timer_size dt.
Proof.
  unfold timer_size. pose proof (len_nonneg (vdata (tkey dt.2))).
  pose proof (len_nonneg (vdata (namespace dt.2))). lia.
Qed.
Lemma zsum_timer_size_ge ts : 17 * len ts <= zsum timer_size ts.
Proof.
  induction ts as [|t ts IH]; [done|]. rewrite len_cons. simpl.
  pose proof (timer_size_ge t). lia.
Qed.

Lemma decode_input_of kg ts :
  is_u32 kg -> len ts <= U32_MAX -> Forall timer_fits ts ->
  reads_end (decode_input kg) [] (snapshot_of kg ts) (map (fun dt => (dt.1, norm dt.2)) ts).
Proof.
  intros Hkg Hn Hts. pose proof (len_nonneg ts) as Hl. pose proof (zsum_timer_size_ge ts) as Hge.
  eapply reads_end_eq.
  2:{ unfold snapshot_of, snapshot_header. by rewrite <- !app_assoc, <- (app_nil_r (timers_bytes ts)). }
  unfold decode_input.
  eapply (reads_end_bind _ _ _ SNAPSHOT_MAGIC _ SNAPSHOT_MAGIC); [by apply reads_exact|].
  apply reads_end_when; [reflexivity|].
  eapply (reads_end_bind _ _ _ _ _ SNAPSHOT_VERSION); [apply reads_u8|].
  apply reads_end_when; [reflexivity|].
  eapply (reads_end_bind _ _ _ _ _ kg); [by apply reads_u32|].
  apply reads_end_when; [by rewrite Z.eqb_refl|].
  eapply (reads_end_bind _ _ _ _ _ (len ts)); [apply reads_u32; mlia|].
  apply reads_end_getS, reads_end_when.
  { rewrite cursor_left, app_nil_r, timers_bytes_len. apply Z.ltb_ge.
    apply Z.div_le_lower_bound; lia. }
  rewrite len_to_nat. eapply reads_end_bind; [by apply reads_timers|].
  apply reads_end_getS, reads_end_when; [apply cursor_not_end|]. apply reads_end_ret.
Qed.

Lemma decode_snapshot_of kg ts :
  is_u32 kg -> len ts <= U32_MAX -> Forall timer_fits ts -> slice_ok (snapshot_of kg ts) ->
  decode_snapshot kg (snapshot_of kg ts) = Ok (map (fun dt => (dt.1, norm dt.2)) ts).
Proof.
  intros Hkg Hn Hts Hok. unfold decode_snapshot.
  change {| ibytes := snapshot_of kg ts; ioff := 0 |} with (cursor [] (snapshot_of kg ts)).
  by rewrite decode_input_of.
Qed.

(** ** Taking and restoring a snapshot *)

Lemma fold_size ts n :
  0 <= n <= USIZE_MAX ->
  fold_left (fun n t => sat_add (sat_add (sat_add n 17) (vlen (tkey t))) (vlen (namespace t))) ts n =
    Z.min (n + zsum (fun t => timer_size (EventTime, t)) ts) USIZE_MAX.
Proof.
  revert n. induction ts as [|t ts IH]; intros n Hn; simpl; [lia|].
  pose proof (len_nonneg (vdata (tkey t))). pose proof (len_nonneg (vdata (namespace t))).
  assert (0 <= zsum (fun t => timer_size (EventTime, t)) ts).
  { apply zsum_nonneg. intros u _. pose proof (timer_size_ge (EventTime, u)). lia. }
  unfold vlen. rewrite IH by mlia. unfold timer_size at 2. simpl. mlia.
Qed.

Lemma group_timers_size g :
  zsum timer_size (group_timers g) =
    zsum (fun t => timer_size (EventTime, t)) (event_time g ++ processing_time g).
Proof.
  unfold group_timers. rewrite !zsum_app. f_equal.
  - induction (event_time g); simpl; [done|lia].
  - induction (processing_time g); simpl; [done|]. unfold timer_size in *; simpl in *. lia.
Qed.

Lemma snapshot_size_spec s kg g :
  group s kg = Ok g ->
  snapshot_size_bound s kg = Ok (Z.min (13 + zsum timer_size (group_timers g)) USIZE_MAX).
Proof.
  intros Hg. unfold snapshot_size_bound. rewrite Hg, outcome_bind_run.
  by rewrite fold_size, group_timers_size by mlia.
Qed.

Lemma snapshot_key_group_spec s kg g :
  group s kg = Ok g -> len (group_timers g) <= U32_MAX -> Forall timer_fits (group_timers g) ->
  snapshot_key_group s kg = Ok (snapshot_of kg (group_timers g)).
Proof.
  intros Hg Hl Hts. unfold snapshot_key_group. rewrite Hg, outcome_bind_run.
  assert (len (event_time g) + len (processing_time g) = len (group_timers g)) as E.
  { unfold group_timers. rewrite len_app. unfold len. by rewrite !length_map. }
  rewrite checked_add_small by mlia. cbn [ok_or].
  rewrite outcome_bind_run, (snapshot_size_spec s kg g Hg), outcome_bind_run. cbv zeta.
  rewrite E, write_u32_ok, outcome_bind_run, write_timers_ok by done.
  unfold snapshot_of, snapshot_header. by rewrite <- !app_assoc.
Qed.

Lemma bt_sorted_app_lt ts us t u :
  bt_sorted id (ts ++ us) -> t ∈ ts -> u ∈ us -> ocmp t u = Lt.
Proof.
  induction ts as [|v ts IH]; [by intros _ ?%elem_of_nil|].
  intros [Hv Hs]%bt_sorted_cons [->|Ht]%elem_of_cons Hu; [|auto].
  apply Hv. apply elem_of_app. by right.
Qed.

Lemma bt_put_last t ts :
  (forall u, u ∈ ts -> ocmp u t = Lt) -> bt_put id id t ts = ts ++ [t].
Proof.
  induction ts as [|u ts IH]; intros Hlt; [done|]. simpl. unfold id at 1 2.
  rewrite (proj2 (ocmp_gt_lt t u)) by (apply Hlt; by constructor).
  f_equal. apply IH. intros v Hv. apply Hlt. by constructor.
Qed.

Lemma set_insert_last t ts :
  (forall u, u ∈ ts -> ocmp u t = Lt) -> set_insert t ts = (true, ts ++ [t]).
Proof.
  intros Hlt. unfold set_insert. rewrite (proj2 (bt_find_None id t ts)).
  - by rewrite bt_put_last.
  - intros u Hu E. unfold id in E. specialize (Hlt u Hu). apply ocmp_gt_lt in Hlt. congruence.
Qed.

(** The timers of one domain. *)
Definition in_domain (d : TimerDomain) (l : list (TimerDomain * TimerKey)) : list TimerKey :=
  map snd (filter (fun dt => dt.1 = d) l).

Lemma in_domain_cons d d' t l :
  in_domain d ((d', t) :: l) = if decide (d' = d) then t :: in_domain d l else in_domain d l.
Proof. unfold in_domain. rewrite filter_cons. simpl. by destruct (decide (d' = d)). Qed.

Lemma restore_timers_spec `{BrokerLaws B} kg l : forall s (b : B) i g,
  group_index s kg = Ok i -> groups s !! i = Some g ->
  (forall d, bt_sorted id (timer_set_ref g d ++ in_domain d l)) ->
  exists g', restore_timers kg l (s, b) = (Ok tt, (set_groups (<[i := g']> (groups s)) s, b)) /\
    forall d, timer_set_ref g' d = timer_set_ref g d ++ in_domain d l.
Proof.
  induction l as [|[d t] l IH]; intros s b i g Hi Hg Hs; cbn [restore_timers].
  { exists g. rewrite list_insert_id by done. split; [by destruct s|].
    intros d. unfold in_domain. by rewrite app_nil_r. }
  assert (set_insert t (timer_set_ref g d) = (true, timer_set_ref g d ++ [t])) as Hins.
  { apply set_insert_last. intros u Hu. eapply bt_sorted_app_lt; [exact (Hs d)|done|].
    rewrite in_domain_cons. rewrite decide_True by done. constructor. }
  rewrite (M_bind_run _ _ _ true (with_set s i g d (timer_set_ref g d ++ [t]), b))
    by (by apply update_set_owned).
  pose proof (lookup_lt_Some _ _ _ Hg) as Hlt.
  destruct (IH (with_set s i g d (timer_set_ref g d ++ [t])) b i
              (timer_set g d (timer_set_ref g d ++ [t]))) as (g' & E & Hg').
  - apply group_index_Ok in Hi. apply group_index_Ok. simpl. by rewrite length_insert.
  - by apply list_lookup_insert_eq.
  - intros d'. specialize (Hs d'). rewrite in_domain_cons in Hs. destruct (decide (d = d')) as [<-|Hne].
    + rewrite timer_set_same, <- app_assoc. done.
    + by rewrite timer_set_other.
  - exists g'. rewrite E. split.
    + unfold with_set, set_groups; simpl. by rewrite list_insert_insert_eq.
    + intros d'. rewrite Hg', in_domain_cons. destruct (decide (d = d')) as [<-|Hne].
      * by rewrite timer_set_same, <- app_assoc.
      * by rewrite timer_set_other.
Qed.

Definition decoded_timers (g : TimerGroup) : list (TimerDomain * TimerKey) :=
  map (fun dt => (dt.1, norm dt.2)) (group_timers g).

Lemma norm_sorted ts : bt_sorted id ts -> bt_sorted id (map norm ts).
Proof.
  induction ts as [|t ts IH]; [done|]. simpl. rewrite !bt_sorted_cons. intros [Ht Hs].
  split; [|auto]. intros u (v & -> & Hv)%list_elem_of_fmap. by apply (Ht v).
Qed.

Lemma norm_ok t : timer_ok t -> timer_ok (norm t).
Proof.
  intros (Ht & [Hk1 Hk2] & [Hn1 Hn2]). split; [done|].
  split; unfold vec_ok, norm, norm_vec, to_vec; simpl; lia.
Qed.

Lemma in_domain_decoded g d : in_domain d (decoded_timers g) = map norm (timer_set_ref g d).
Proof.
  unfold in_domain, decoded_timers, group_timers. rewrite !map_app, filter_app, !map_map, map_app.
  destruct d; simpl.
  - rewrite filter_all, (filter_none _ (map _ (processing_time g))), app_nil_r, map_map.
    + done.
    + by intros ? (v & -> & _)%list_elem_of_fmap.
    + by intros ? (v & -> & _)%list_elem_of_fmap.
  - rewrite (filter_none _ (map _ (event_time g))), filter_all, map_map.
    + done.
    + by intros ? (v & -> & _)%list_elem_of_fmap.
    + by intros ? (v & -> & _)%list_elem_of_fmap.
Qed.

Lemma decoded_bytes g :
  zsum (fun dt => timer_heap_size dt.2) (decoded_timers g) =
    set_bytes (map norm (event_time g)) + set_bytes (map norm (processing_time g)).
Proof.
  unfold decoded_timers, group_timers, set_bytes. rewrite zsum_map, zsum_app, !zsum_map. done.
Qed.

Lemma fold_alloc (l : list (TimerDomain * TimerKey)) n :
  Forall (fun dt => timer_ok dt.2) l -> 0 <= n <= USIZE_MAX ->
  fold_left (fun total '(_, t) =>
    sat_add (sat_add (sat_add total (vcap (tkey t))) (vcap (namespace t))) timer_node_bytes) l n =
  Z.min (n + zsum (fun dt => timer_heap_size dt.2) l) USIZE_MAX.
Proof.
  intros Hl. revert n. induction Hl as [|[d t] l Ht Hl IH]; intros n Hn; simpl; [lia|].
  cbn [snd] in *. pose proof Ht as (_ & Hk%vec_cap_nonneg & Hv%vec_cap_nonneg).
  assert (0 <= zsum (fun dt => timer_heap_size dt.2) l).
  { apply zsum_nonneg. intros u Hu. rewrite Forall_forall in Hl.
    pose proof (heap_size_pos u.2 (Hl u Hu)). lia. }
  assert (timer_heap_size t = Z.min (88 + vcap (tkey t) + vcap (namespace t)) USIZE_MAX) as Hh.
  { unfold timer_heap_size. change timer_node_bytes with 88. mlia. }
  rewrite IH by (change timer_node_bytes with 88; mlia).
  rewrite Hh. change timer_node_bytes with 88. mlia.
Qed.

(** The two domains decide a group. *)
Lemma group_ext g g' : (forall d, timer_set_ref g d = timer_set_ref g' d) -> g = g'.
Proof.
  intros E. pose proof (E EventTime). pose proof (E ProcessingTime). destruct g, g'; simpl in *; congruence.
Qed.

Definition restored_group (g : TimerGroup) : TimerGroup :=
  {| event_time := map norm (event_time g); processing_time := map norm (processing_time g) |}.

Lemma restored_group_ok g : group_ok g -> group_ok (restored_group g).
Proof.
  intros Hg d. destruct (Hg d) as [Hs Hts].
  assert (timer_set_ref (restored_group g) d = map norm (timer_set_ref g d)) as -> by (by destruct d).
  split; [by apply norm_sorted|]. apply Forall_map. eapply Forall_impl; [exact Hts|]. apply norm_ok.
Qed.

Lemma decoded_ok g : group_ok g -> Forall (fun dt => timer_ok dt.2) (decoded_timers g).
Proof.
  intros Hg. unfold decoded_timers, group_timers. rewrite map_app, !map_map.
  apply Forall_app; split; apply Forall_map; simpl.
  - eapply Forall_impl; [exact (proj2 (Hg EventTime))|]. apply norm_ok.
  - eapply Forall_impl; [exact (proj2 (Hg ProcessingTime))|]. apply norm_ok.
Qed.

Section restore.
Context `{BrokerLaws B} {others : Z}.
Implicit Types (s : NativeTimerService) (b : B).

Lemma restore_decoded s b kg g i :
  group_ok g -> group_index s kg = Ok i -> groups s !! i = Some default_group ->
  restore_timers kg (decoded_timers g) (s, b) =
    (Ok tt, (set_groups (<[i := restored_group g]> (groups s)) s, b)).
Proof.
  intros Hg Hi Hgi.
  destruct (restore_timers_spec kg (decoded_timers g) s b i default_group Hi Hgi) as (g' & E & Hg').
  { intros d. rewrite in_domain_decoded. destruct d; simpl; apply norm_sorted;
      [exact (proj1 (Hg EventTime))|exact (proj1 (Hg ProcessingTime))]. }
  rewrite E. do 4 f_equal. apply group_ext. intros d.
  rewrite Hg', in_domain_decoded. by destruct d.
Qed.

Lemma svc_ok_restored s b i g n :
  svc_ok others s b -> groups s !! i = Some default_group -> group_ok g ->
  n = accounted_bytes s + group_bytes g -> n <= rsize (reservation s) ->
  svc_ok others (set_accounted n (set_groups (<[i := g]> (groups s)) s)) b.
Proof.
  intros [H1 H2 H3 H4 H5 H6] Hi Hg Hn Hle. split; simpl; try done.
  - unfold len in *. by rewrite length_insert.
  - by apply Forall_insert.
  - rewrite Hn, H4. unfold footprint, len. rewrite length_insert.
    rewrite (zsum_insert group_bytes _ i default_group) by done. change (group_bytes default_group) with 0. lia.
  - lia.
Qed.

(** A restore whose timers make up the group [g]. *)
Lemma timer_restore_spec s b kg i bs decoded g :
  svc_ok others s b -> group_index s kg = Ok i -> groups s !! i = Some default_group ->
  decode_snapshot kg bs = Ok decoded -> Forall (fun dt => timer_ok dt.2) decoded ->
  group_ok g -> group_bytes g = zsum (fun dt => timer_heap_size dt.2) decoded ->
  (forall r (b1 : B), restore_timers kg decoded (set_reservation r s, b1) = (Ok tt, (set_groups (<[i := g]> (groups s)) (set_reservation r s), b1))) ->
  let '(o, (s', b')) := restore_key_group kg bs (s, b) in
  svc_ok others s' b' /\
  match o with
  | Ok _ => tight s' /\ first_key_group s' = first_key_group s /\ groups s' = <[i := g]> (groups s)
  | Err _ => ReleaseTotal B -> s' = s
  | Panic => False
  end.
Proof.
  intros Hok Hi Hgi Hdec Hts Hg Hbytes Hrun. unfold restore_key_group.
  rewrite (M_bind_run _ _ _ s (s, b)) by done. cbn beta.
  rewrite (M_bind_run _ _ _ default_group (s, b))
    by (unfold lift; by rewrite (proj2 (group_Ok s kg default_group)) by eauto).
  rewrite (M_bind_run _ _ _ tt (s, b)) by done.
  rewrite (M_bind_run _ _ _ decoded (s, b)) by (unfold lift; by rewrite Hdec).
  cbv zeta. rewrite fold_alloc by (done || mlia). rewrite <- Hbytes.
  pose proof (group_bytes_nonneg g Hg) as Hheap.
  pose proof (ok_nonneg s b Hok) as Ha. pose proof (ok_credit s b Hok) as Hc.
  set (n := sat_add (accounted_bytes s) (Z.min (0 + group_bytes g) USIZE_MAX)).
  assert (is_usize n /\ accounted_bytes s <= n) as [Hn Hle] by (unfold n; mlia).
  destruct (svc_resize_cases n s b Hn Hok) as (o1 & r1 & b1 & E1 & Hbal & Hr).
  destruct (svc_resize_ok n s b o1 r1 b1 Hn Hle Hok Hbal Hr) as [Hok1 Hmax].
  unfold mbind at 1, M_bind at 1. rewrite E1.
  destruct o1 as [[]|e|]; [|destruct (bal_err _ _ _ _ _ Hbal e eq_refl) as [-> _]; by destruct s|by destruct Hbal].
  specialize (Hmax eq_refl). specialize (Hr eq_refl). set (s1 := set_reservation r1 s) in *.
  rewrite (M_bind_run _ _ _ i (s1, b1)) by (unfold lift; by rewrite Hi).
  rewrite (M_bind_run _ _ _ tt _ (Hrun r1 b1)). fold s1. change (groups s) with (groups s1).
  assert (svc_ok others (set_accounted n (set_groups (<[i := g]> (groups s1)) s1)) b1) as Hok2.
  { apply svc_ok_restored; try done; [|simpl; lia]. unfold n in *. simpl. mlia. }
  destruct (settle_spec n tt _ b1 Hok2) as (o & s' & b' & E & Hok' & Hgs & Hf & Ho & Hrt).
  assert ((put_accounted n ≫= fun _ => svc_resize n)
    (set_groups (<[i := g]> (groups s1)) s1, b1) = (o, (s', b'))) as ->.
  { rewrite <- E.
    rewrite !(M_bind_run _ _ _ tt (set_accounted n (set_groups (<[i := g]> (groups s1)) s1), b1))
      by done.
    unfold mbind, M_bind, mret, M_ret. by destruct (svc_resize n (_, b1)) as [[[]| |] ?]. }
  split; [done|]. destruct Ho as [[-> Ht]|[e ->]]; [done|]. intros Hrt'. by specialize (Hrt Hrt').
Qed.

(** *** Any snapshot that lists no timer twice *)

Definition unrepeated (l : list (TimerDomain * TimerKey)) : Prop := NoDup (map (fun dt => (dt.1, timer_id dt.2)) l).
Lemma restore_timers_fresh kg l : forall g,
  group_ok g -> Forall (fun dt => timer_ok dt.2) l -> unrepeated l ->
  (forall d t, (d, t) ∈ l -> set_contains t (timer_set_ref g d) = false) ->
  exists g', group_ok g' /\ group_bytes g' = group_bytes g + zsum (fun dt => timer_heap_size dt.2) l /\
    forall s (b : B) i, group_index s kg = Ok i -> groups s !! i = Some g ->
      restore_timers kg l (s, b) = (Ok tt, (set_groups (<[i := g']> (groups s)) s, b)).
Proof.
  induction l as [|[d t] l IH]; intros g Hok Hts Hun Hnew; cbn [restore_timers].
  { exists g. split; [done|]. split; [simpl; lia|]. intros s b i _ Hg. rewrite list_insert_id by done. by destruct s. }
  apply Forall_cons in Hts as [Ht Hts]. unfold unrepeated in Hun. cbn [map fst snd] in Hun. apply NoDup_cons in Hun as [Hn Hun].
  pose proof (set_insert_ok t _ (Hok d) Ht) as Hins. pose proof (fun u => set_contains_insert u t (timer_set_ref g d) (proj1 (Hok d))) as Hc.
  destruct (set_insert t (timer_set_ref g d)) as [ins ts] eqn:Es. cbn [snd] in Hc. destruct Hins as (Hts' & Hi' & Hb & _).
  rewrite (Hnew d t) in Hi' by left. subst ins. cbn [negb] in Hb.
  destruct (IH (timer_set g d ts)) as (g' & Hg' & Hb' & E).
  - by apply timer_set_ok.
  - done.
  - done.
  - intros d' t' Hin. specialize (Hnew d' t' ltac:(by right)). destruct (decide (d' = d)) as [->|Hne]; [|by rewrite timer_set_other].
    rewrite timer_set_same, Hc, Hnew. cbn [orb]. apply not_true_is_false. rewrite same_timer_true. intros Hid. apply Hn.
    apply list_elem_of_fmap. exists (d, t'). split; [cbn; by rewrite <- Hid|done].
  - exists g'. split; [done|]. split; [rewrite Hb', timer_set_bytes, Hb; cbn [zsum foldr snd]; unfold zsum; lia|].
    intros s b i Hi Hg. rewrite (M_bind_run _ _ _ true (with_set s i g d ts, b)) by (by apply update_set_owned). cbn beta iota.
    rewrite (E _ b i).
    + unfold with_set, set_groups; simpl. by rewrite list_insert_insert_eq.
    + apply group_index_Ok in Hi. apply group_index_Ok. simpl. by rewrite length_insert.
    + apply list_lookup_insert_eq. by eapply lookup_lt_Some.
Qed.

(** What the decoder reads are timers of the program. *)
Definition reading {A} (P : A -> Prop) (m : M input A) : Prop := forall i a i', slice_ok (ibytes i) -> m i = (Ok a, i') -> P a /\ ibytes i' = ibytes i.
Lemma reading_bind {A C} (P : A -> Prop) (Q : C -> Prop) (m : M input A) (f : A -> M input C) : reading P m -> (forall a, P a -> reading Q (f a)) -> reading Q (m ≫= f).
Proof. intros Hm Hf i c i' Hi (a & i1 & E1 & E2)%M_bind_Ok. destruct (Hm i a i1 Hi E1) as [Ha Eb]. destruct (Hf a Ha i1 c i') as [Hc Eb']; [by rewrite Eb|done|]. split; [done|congruence]. Qed.
Lemma reading_ret {A} (P : A -> Prop) a : P a -> reading P (mret a).
Proof. intros Ha i b i' _ [= <- <-]. done. Qed.
Lemma reading_fail {A} (P : A -> Prop) e : reading P (throw e : M input A).
Proof. by intros i a i' _ [=]. Qed.
Lemma reading_when c e : reading (fun _ => True) (when c e : M input unit).
Proof. intros i a i' _ E. unfold when in E. destruct c; by inversion E. Qed.
Lemma reading_exact n : reading slice_ok (read_exact n).
Proof.
  intros i v i' Hi E. unfold read_exact, read_exact_with in E. destruct (checked_add _ _) as [e|]; [|done]. unfold slice_get in E.
  destruct (_ && _); [|done]. injection E as <- <-. split; [|done]. unfold slice_ok, len in *. rewrite length_take, length_drop. lia.
Qed.
Lemma reading_u8 : reading (fun _ => True) read_u8.
Proof. eapply reading_bind; [apply reading_exact|]. intros [|x l] _; [by intros i a i' _ [=]|by apply reading_ret]. Qed.
Lemma reading_u32 : reading (fun _ => True) read_u32.
Proof. eapply reading_bind; [apply reading_exact|]. intros v _. by apply reading_ret. Qed.
Lemma reading_i64 : reading is_i64 read_i64.
Proof.
  eapply reading_bind; [apply reading_exact|]. intros v _. apply reading_ret. unfold i64_of_le. pose proof (wraps_range 64 (of_le v) ltac:(lia)).
  unfold is_i64. unfold_bounds. lia.
Qed.
Lemma reading_bytes : reading vec_ok read_bytes.
Proof.
  eapply reading_bind; [apply reading_u32|]. intros n _. eapply reading_bind; [apply reading_exact|]. intros v Hv. apply reading_ret.
  unfold vec_ok, to_vec, slice_ok in *. cbn. lia.
Qed.
Lemma reading_domain : reading (fun _ => True) read_domain.
Proof.
  eapply reading_bind; [apply reading_u8|]. intros x _. destruct x; first [by apply reading_ret|apply reading_fail].
Qed.
Lemma reading_timers n : reading (Forall (fun dt => timer_ok dt.2)) (read_timers n).
Proof.
  induction n as [|n IH]; cbn [read_timers]; [by apply reading_ret|]. eapply reading_bind; [apply reading_domain|]. intros d _.
  eapply reading_bind; [apply reading_i64|]. intros ts Hts. eapply reading_bind; [apply reading_bytes|]. intros key Hk.
  eapply reading_bind; [apply reading_bytes|]. intros ns Hns. eapply reading_bind; [exact IH|]. intros rest Hrest. apply reading_ret. by constructor.
Qed.
Lemma decoded_timers_ok kg bs l : slice_ok bs -> decode_snapshot kg bs = Ok l -> Forall (fun dt => timer_ok dt.2) l.
Proof.
  intros Hbs. unfold decode_snapshot. destruct (decode_input kg _) as [o i'] eqn:E. cbn [fst]. intros ->.
  assert (reading (Forall (fun dt : TimerDomain * TimerKey => timer_ok dt.2)) (decode_input kg)) as Hr.
  { unfold decode_input. eapply reading_bind; [apply reading_exact|]. intros magic _. eapply reading_bind; [apply reading_when|]. intros _ _.
    eapply reading_bind; [apply reading_u8|]. intros version _. eapply reading_bind; [apply reading_when|]. intros _ _.
    eapply reading_bind; [apply reading_u32|]. intros k _. eapply reading_bind; [apply reading_when|]. intros _ _.
    eapply reading_bind; [apply reading_u32|]. intros count _. eapply (reading_bind (fun _ => True)); [by intros i a i1 _ [= <- <-]|]. intros i _.
    eapply reading_bind; [apply reading_when|]. intros _ _. eapply reading_bind; [apply reading_timers|]. intros timers Ht.
    eapply (reading_bind (fun _ => True)); [by intros j a i1 _ [= <- <-]|]. intros j _. eapply reading_bind; [apply reading_when|]. intros _ _. by apply reading_ret. }
  by destruct (Hr {| ibytes := bs; ioff := 0 |} l i' Hbs E).
Qed.
(** Restoring any bytes keeps the books, as long as no timer is listed twice. *)
Lemma restore_any s b kg bs :
  svc_ok others s b -> slice_ok bs -> (forall decoded, decode_snapshot kg bs = Ok decoded -> unrepeated decoded) ->
  let '(o, (s', b')) := restore_key_group kg bs (s, b) in svc_ok others s' b'.
Proof.
  intros Hok Hbs Hun. destruct (group_total s kg) as [[g Eg]|[e Eg]].
  2:{ unfold restore_key_group. rewrite (M_bind_run _ _ _ s (s, b)) by done. cbn beta. unfold mbind at 1, M_bind at 1, lift. by rewrite Eg. }
  destruct (negb (bool_decide (event_time g = [])) || negb (bool_decide (processing_time g = []))) eqn:E.
  { unfold restore_key_group. rewrite (M_bind_run _ _ _ s (s, b)) by done. cbn beta.
    rewrite (M_bind_run _ _ _ g (s, b)) by (unfold lift; by rewrite Eg). by rewrite E. }
  assert (g = default_group) as ->.
  { apply orb_false_iff in E as [E1 E2]. apply negb_false_iff, bool_decide_eq_true in E1, E2. destruct g. cbn in *. by subst. }
  pose proof Eg as (i & Hi & Hgi)%group_Ok. destruct (decode_snapshot kg bs) as [decoded|e|] eqn:Ed.
  2-3: unfold restore_key_group; rewrite (M_bind_run _ _ _ s (s, b)) by done; cbn beta;
    rewrite (M_bind_run _ _ _ default_group (s, b)) by (unfold lift; by rewrite Eg);
    rewrite (M_bind_run _ _ _ tt (s, b)) by done; unfold mbind at 1, M_bind at 1, lift; by rewrite Ed.
  pose proof (decoded_timers_ok kg bs decoded Hbs Ed) as Hts.
  destruct (restore_timers_fresh kg decoded default_group) as (g & Hg & Hb & Hrun); [intros []; split; constructor|done|by apply Hun|by intros []|].
  change (group_bytes default_group) with 0 in Hb. rewrite Z.add_0_l in Hb.
  pose proof (timer_restore_spec s b kg i bs decoded g Hok Hi Hgi Ed Hts Hg Hb (fun r b1 => Hrun (set_reservation r s) b1 i Hi Hgi)) as Hr.
  destruct (restore_key_group kg bs (s, b)) as [o [s' b']]. apply Hr.
Qed.
End restore.

(** ** Runs *)

Record timer_world (B : Type) : Type := TimerWorld {
  tw_service : NativeTimerService;
  tw_batches : list FiredTimerBatch;
  tw_broker : B;
}.
Arguments TimerWorld {B}.
Arguments tw_service {B}.
Arguments tw_batches {B}.
Arguments tw_broker {B}.

Inductive timer_op : Type :=
  | TRegister (kg : Z) (d : TimerDomain) (t : TimerKey)
  | TDelete (kg : Z) (d : TimerDomain) (t : TimerKey)
  | TAdvance (d : TimerDomain) (progress limit : Z)
  | TRegisterBatch (timers : list (Z * TimerDomain * TimerKey))
  | TAdvanceOwned (d : TimerDomain) (progress limit : Z)
  | TDropBatch (i : nat)
  | TRestore (kg : Z) (bs : bytes).

Section runs.
Context `{BrokerLaws B}.

Definition on_service {A} (m : M (NativeTimerService * B) A) (w : timer_world B)
  : outcome unit * timer_world B :=
  let '(o, (s, b)) := m (tw_service w, tw_broker w) in
  ((fun _ => tt) <$> o, TimerWorld s (tw_batches w) b).

Definition timer_exec (op : timer_op) (w : timer_world B) : outcome unit * timer_world B :=
  match op with
  | TRegister kg d t => on_service (register kg d t) w
  | TDelete kg d t => on_service (Timer.delete kg d t) w
  | TAdvance d progress limit => on_service (advance_limited d progress limit) w
  | TRegisterBatch timers => on_service (register_batch timers) w
  | TAdvanceOwned d progress limit =>
      match advance_owned_limited d progress limit (tw_service w, tw_broker w) with
      | (Ok batch, (s, b)) => (Ok tt, TimerWorld s (batch :: tw_batches w) b)
      | (Err e, (s, b)) => (Err e, TimerWorld s (tw_batches w) b)
      | (Panic, (s, b)) => (Panic, TimerWorld s (tw_batches w) b)
      end
  | TDropBatch i =>
      match tw_batches w !! i with
      | None => (Err (Internal "no such batch"), w)
      | Some batch =>
          let '(o, b) := batch_drop batch (tw_broker w) in
          (o, TimerWorld (tw_service w) (base.delete i (tw_batches w)) b)
      end
  | TRestore kg bs => on_service (restore_key_group kg bs) w
  end.

Definition timer_op_ok (op : timer_op) : Prop :=
  match op with
  | TRegister _ _ t | TDelete _ _ t => timer_ok t
  | TAdvance _ _ limit | TAdvanceOwned _ _ limit => 0 <= limit
  | TRegisterBatch timers => Forall (fun r => timer_ok r.2) timers
  | TDropBatch _ => True
  | TRestore kg bs => slice_ok bs /\ forall decoded, decode_snapshot kg bs = Ok decoded -> unrepeated decoded
  end.

Inductive timer_run : timer_world B -> timer_world B -> Prop :=
  | timer_run_nil w : timer_run w w
  | timer_run_cons w op o w1 w2 :
      timer_op_ok op -> timer_exec op w = (o, w1) -> o <> Panic ->
      timer_run w1 w2 -> timer_run w w2.

Definition batches_bytes (w : timer_world B) : Z :=
  zsum (fun batch => rsize (b_memory batch)) (tw_batches w).

(** The other owners of the broker hold [base] bytes. *)
Record timer_inv (base : Z) (w : timer_world B) : Prop := TimerInv {
  ti_base : 0 <= base;
  ti_service : svc_ok (base + batches_bytes w) (tw_service w) (tw_broker w);
  ti_batches : Forall batch_ok (tw_batches w);
}.

Lemma on_service_inv {A} base (m : M (NativeTimerService * B) A) w o w' :
  timer_inv base w ->
  (forall others s b, svc_ok others s b ->
    let '(o, (s', b')) := m (s, b) in svc_ok others s' b') ->
  on_service m w = (o, w') -> timer_inv base w'.
Proof.
  intros [Hb Hs Hba] Hm. unfold on_service. specialize (Hm _ _ _ Hs).
  destruct (m _) as [o1 [s1 b1]]. intros [= <- <-]. by split.
Qed.

Lemma batch_drop_inv base w i o w' :
  timer_inv base w -> timer_exec (TDropBatch i) w = (o, w') -> o <> Panic -> timer_inv base w'.
Proof.
  intros Hw Hx Hno; simpl in Hx. destruct (tw_batches w !! i) as [batch|] eqn:Hi; [|naive_solver].
  destruct Hw as [Hb Hs Hba]. pose proof Hba as Hba'. rewrite Forall_forall in Hba'.
  pose proof (batch_ok_nonneg batch ltac:(by eapply Hba', list_elem_of_lookup_2)) as Hpos.
  pose proof (ok_nonneg _ _ Hs) as Hnn.
  assert (0 <= zsum (fun x => rsize (b_memory x)) (base.delete i (tw_batches w))) as Hrest.
  { apply zsum_nonneg. intros x Hx'. apply batch_ok_nonneg.
    pose proof (Forall_delete _ _ i Hba) as Hd. rewrite Forall_forall in Hd. auto. }
  pose proof (zsum_delete (fun x => rsize (b_memory x)) (tw_batches w) i batch Hi) as Hsum.
  destruct Hs as [S1 S2 S3 S4 S5 [S6 S7]]. unfold batches_bytes in *.
  unfold batch_drop in Hx. cbv beta in Hsum.
  assert (0 <= rsize (b_memory batch) <= reserved (tw_broker w)) as Hrange by lia.
  pose proof (host_drop_releases (b_memory batch) (tw_broker w) Hrange) as Hd.
  destruct (host_drop _ _) as [o1 b1]. simplify_eq/=. specialize (Hd Hno).
  split; [done| |by apply Forall_delete]. split; cbn [tw_service tw_broker]; try done.
  unfold batches_bytes; cbn [tw_batches]. lia.
Qed.

Lemma timer_exec_inv base op w o w' :
  timer_op_ok op -> timer_inv base w -> timer_exec op w = (o, w') -> o <> Panic ->
  timer_inv base w'.
Proof.
  intros Hop Hw Hx Hno. destruct op as [kg d t|kg d t|d p l|ts|d p l|i|kg bs]; cbn [timer_op_ok timer_exec] in Hop, Hx.
  - eapply on_service_inv; [done| |done]. intros k s b Hok.
    pose proof (register_spec kg d t s b Hok Hop) as Hs.
    destruct (register _ _ _ _) as [o1 [s1 b1]]. apply Hs.
  - eapply on_service_inv; [done| |done]. intros k s b Hok.
    pose proof (delete_spec kg d t s b Hok) as Hs.
    destruct (Timer.delete _ _ _ _) as [o1 [s1 b1]]. apply Hs.
  - eapply on_service_inv; [done| |done]. intros k s b Hok.
    pose proof (advance_limited_spec d p l s b Hok Hop) as Hs.
    destruct (advance_limited _ _ _ _) as [o1 [s1 b1]]. apply Hs.
  - eapply on_service_inv; [done| |done]. intros k s b Hok.
    pose proof (register_batch_spec ts s b Hok Hop) as Hs.
    destruct (register_batch _ _) as [o1 [s1 b1]]. apply Hs.
  - destruct Hw as [Hb Hs Hba]. pose proof (advance_owned_spec d p l _ _ Hs Hop) as Hsp.
    destruct (advance_owned_limited _ _ _ _) as [[batch|e|] [s1 b1]]; [..|done]; simplify_eq.
    + destruct Hsp as (Hbo & Hs1 & _). split; [done| |by constructor].
      unfold batches_bytes in *; cbn [tw_batches tw_service tw_broker zsum foldr]. by rewrite (Z.add_comm (rsize _)), Z.add_assoc.
    + destruct Hsp as (-> & Hs1 & _). by split.
  - eapply batch_drop_inv; [done| |done]. done.
  - eapply on_service_inv; [done| |done]. intros k s b Hok. exact (restore_any s b kg bs Hok (proj1 Hop) (proj2 Hop)).
Qed.

(** C5: along every sequence of registrations, deletions, advances, batch
    operations and restores of key groups, failing ones included, the timer
    service accounts for exactly the bytes of its live timers, every set stays
    ordered and duplicate-free, every fired batch owns exactly the bytes of
    its entries, and what the broker has granted is the sum of these credits
    and of the [base] bytes of other owners: nothing leaks and nothing is
    returned twice.  The restored bytes are arbitrary (truncated, foreign or
    malformed ones are refused), except that a well-formed snapshot must list
    no timer twice: [restore_key_group] notices a repeated timer only after it
    has inserted the ones before it, and returns before it counts them. *)
Theorem timer_run_accounted (base : Z) (w w' : timer_world B) :
  timer_inv base w -> timer_run w w' ->
  accounted_bytes (tw_service w') = footprint (groups (tw_service w')) /\
  accounted_bytes (tw_service w') <= rsize (reservation (tw_service w')) /\
  Forall group_ok (groups (tw_service w')) /\
  Forall (fun batch => rsize (b_memory batch) = batch_bytes (b_entries batch)) (tw_batches w') /\
  reserved (tw_broker w') =
    base + rsize (reservation (tw_service w')) +
    zsum (fun batch => rsize (b_memory batch)) (tw_batches w').
Proof.
  intros Hw Hrun. assert (timer_inv base w') as [Hb [H1 H2 H3 H4 H5 [H6 H7]] Hba].
  { induction Hrun; eauto using timer_exec_inv. }
  unfold batches_bytes in H6. split_and!; try done; try lia.
  eapply Forall_impl; [exact Hba|]. by intros batch [? _].
Qed.

End runs.

Lemma lookup_set_replaced s0 s1 kg i g kg' d :
  group_index s0 kg = Ok i -> first_key_group s1 = first_key_group s0 ->
  groups s1 = <[i := g]> (groups s0) ->
  lookup_set s1 kg' d =
    if decide (kg' = kg) then Some (timer_set_ref g d) else lookup_set s0 kg' d.
Proof.
  intros Hi Hf Hgs. unfold lookup_set, group.
  assert (group_index s1 kg' = group_index s0 kg') as ->.
  { unfold group_index, len. by rewrite Hf, Hgs, length_insert. }
  destruct (decide (kg' = kg)) as [->|Hne].
  - rewrite Hi, outcome_bind_run, Hgs. apply group_index_Ok in Hi as [_ Hlt].
    by rewrite list_lookup_insert_eq.
  - destruct (group_index s0 kg') as [j| |] eqn:Ej; [|done..]. rewrite outcome_bind_run, Hgs.
    apply group_index_Ok in Hi, Ej. by rewrite list_lookup_insert_ne by lia.
Qed.

Section roundtrip.
Context `{ReleaseTotal B}.

(** C6: a key group's timers survive a snapshot: [snapshot_key_group] produces
    a snapshot of exactly [snapshot_size_bound] bytes, and restoring it into a
    service whose copy of the key group is empty either gives exactly the
    same timers in both domains (the vectors reallocated without spare
    capacity), leaves every other set alone and charges exactly the footprint,
    or, when memory is denied, leaves the service as it was. *)
Theorem timer_snapshot_roundtrip (o1 o2 : Z) (s s0 : NativeTimerService) (b b0 : B) kg g :
  svc_ok o1 s b -> svc_ok o2 s0 b0 -> is_u32 kg ->
  group s kg = Ok g -> group s0 kg = Ok default_group ->
  len (group_timers g) <= U32_MAX -> Forall timer_fits (group_timers g) ->
  slice_ok (snapshot_of kg (group_timers g)) ->
  exists bs, snapshot_key_group s kg = Ok bs /\ snapshot_size_bound s kg = Ok (len bs) /\
    match restore_key_group kg bs (s0, b0) with
    | (Ok _, (s1, b1)) =>
        (forall d, lookup_set s1 kg d = Some (map norm (timer_set_ref g d))) /\
        (forall kg' d, kg' <> kg -> lookup_set s1 kg' d = lookup_set s0 kg' d) /\
        rsize (reservation s1) = footprint (groups s1)
    | (Err _, (s1, b1)) => s1 = s0
    | (Panic, _) => False
    end.
Proof.
  intros Hok Hok0 Hkg Hg Hg0 Hl Hts Hs. exists (snapshot_of kg (group_timers g)).
  split; [by apply snapshot_key_group_spec|]. split.
  { rewrite (snapshot_size_spec s kg g Hg), snapshot_of_len. f_equal.
    unfold slice_ok in Hs. rewrite snapshot_of_len in Hs. mlia. }
  pose proof Hg as (j & _ & Hj)%group_Ok. pose proof (svc_group_ok s b j g Hok Hj) as Hgok.
  pose proof Hg0 as (i & Hi & Hgi)%group_Ok.
  pose proof (timer_restore_spec s0 b0 kg i _ (decoded_timers g) (restored_group g) Hok0 Hi Hgi (decode_snapshot_of kg _ Hkg Hl Hts Hs) (decoded_ok g Hgok) (restored_group_ok g Hgok)
    (eq_sym (decoded_bytes g)) (fun r b1 => restore_decoded (set_reservation r s0) b1 kg g i Hgok Hi Hgi)) as Hr.
  destruct (restore_key_group _ _ _) as [[[]|e|] [s1 b1]]; destruct Hr as [Hok1 Hr]; try done; [|auto].
  destruct Hr as (Ht & Hf & Hgs).
  pose proof (fun kg' d => lookup_set_replaced s0 s1 kg i (restored_group g) kg' d Hi Hf Hgs) as Hls.
  split_and!.
  - intros d. rewrite Hls, decide_True by done. by destruct d.
  - intros kg' d Hne. by rewrite Hls, decide_False.
  - rewrite Ht. apply (ok_accounted s1 b1 Hok1).
Qed.
End roundtrip.

(** ** A concrete service *)

Definition demo_timer (ts : Z) (k : bytes) : TimerKey :=
  {| timestamp := ts; tkey := {| vdata := k; vcap := len k + 8 |}; namespace := to_vec [x01] |}.
Definition demo_group : TimerGroup :=
  {| event_time := [demo_timer 5 [x61]; demo_timer 5 [x62]; demo_timer 9 [x61]];
     processing_time := [demo_timer (-3) []] |}.
(** Key groups 7, 8 and 9; 144 bytes of directory and 391 of timers. *)
Definition demo_service : NativeTimerService :=
  {| first_key_group := 7; groups := [default_group; demo_group; default_group];
     reservation := Resv 0 "timers" 535; accounted_bytes := 535 |}.
Definition demo_broker : budget := Budget 635 5000.

Ltac vm_dec := vm_compute; repeat split; congruence.

Lemma demo_timer_ok ts k : is_i64 ts -> len k <= 100 -> timer_ok (demo_timer ts k).
Proof.
  intros Hts Hk. split; [done|]. split; unfold vec_ok; simpl; [unfold_bounds; lia|vm_dec].
Qed.

Lemma demo_group_ok : group_ok demo_group.
Proof.
  intros []; (split; [unfold bt_sorted; repeat constructor; vm_compute; reflexivity|]);
    repeat constructor; vm_dec.
Qed.

Lemma demo_ok : svc_ok 100 demo_service demo_broker.
Proof.
  split; [vm_dec|vm_dec| |vm_dec|vm_dec|vm_dec].
  repeat apply Forall_cons_2; [|exact demo_group_ok| |constructor]; intros []; split; constructor.
Qed.

Lemma advance_limited_exact_witness :
  exists s' b',
    advance_limited EventTime 7 1 (demo_service, demo_broker) =
      (Ok [{| f_key_group := 8; f_domain := EventTime; f_timer := demo_timer 5 [x61] |}], (s', b')) /\
    rsize (reservation s') = footprint (groups s').
Proof.
  destruct (advance_limited_exact EventTime 7 1 demo_service demo_broker demo_ok ltac:(lia))
    as (fired & s' & b' & E & Hf & _ & _ & Hr).
  exists s', b'. split; [|exact Hr]. rewrite E, Hf. reflexivity.
Defined.

Lemma advance_limited_chunks_witness :
  exists f1 f2 s1 b1 s2 b2 s2' b2',
    advance_limited EventTime 9 2 (demo_service, demo_broker) = (Ok f1, (s1, b1)) /\
    advance_limited EventTime 9 5 (s1, b1) = (Ok f2, (s2, b2)) /\
    advance_limited EventTime 9 7 (demo_service, demo_broker) = (Ok (f1 ++ f2), (s2', b2')) /\
    groups s2 = groups s2'.
Proof.
  destruct (advance_limited_chunks EventTime 9 2 5 demo_service demo_broker demo_ok
    ltac:(lia) ltac:(lia)) as (f1 & f2 & s1 & s2 & s2' & b1 & b2 & b2' & E1 & E2 & E3 & Hg & _).
  exists f1, f2, s1, b1, s2, b2, s2', b2'. auto.
Defined.

Lemma next_due_agrees_witness :
  next_due EventTime 6 demo_service = Some (8, demo_timer 5 [x61]) /\
  exists fired s' b', advance_limited EventTime 6 1 (demo_service, demo_broker) = (Ok fired, (s', b')) /\
    fired = [{| f_key_group := 8; f_domain := EventTime; f_timer := demo_timer 5 [x61] |}].
Proof. split; [reflexivity|]. exact (next_due_agrees EventTime 6 demo_service demo_broker demo_ok). Defined.

Lemma demo_world_inv : timer_inv 100 (TimerWorld demo_service [] demo_broker).
Proof. split; [lia|exact demo_ok|constructor]. Qed.

Fixpoint timer_exec_all `{Broker B} (ops : list timer_op) (w : timer_world B) : option (timer_world B) :=
  match ops with
  | [] => Some w
  | op :: ops => match timer_exec op w with (Panic, _) => None | (_, w') => timer_exec_all ops w' end
  end.

Lemma timer_exec_all_run `{BrokerLaws B} ops (w w' : timer_world B) :
  Forall timer_op_ok ops -> timer_exec_all ops w = Some w' -> timer_run w w'.
Proof.
  revert w. induction ops as [|op ops IH]; intros w Hops; simpl; [intros [= <-]; constructor|].
  apply Forall_cons in Hops as [Hop Hops]. destruct (timer_exec op w) as [o w1] eqn:E. intros Hx.
  assert (o <> Panic) by (intros ->; done). econstructor; [done..|]. apply IH; [done|]. by destruct o.
Qed.

Definition demo_snapshot : bytes := snapshot_of 7 [(EventTime, demo_timer 3 [x65]); (ProcessingTime, demo_timer 3 [x65])].
Lemma demo_snapshot_unrepeated decoded : decode_snapshot 7 demo_snapshot = Ok decoded -> unrepeated decoded.
Proof. intros E. vm_compute in E. injection E as <-. unfold unrepeated. apply (bool_decide_unpack _). reflexivity. Qed.
Definition demo_ops : list timer_op :=
  [TRestore 7 demo_snapshot; TRestore 7 demo_snapshot; TRestore 9 [x00]; TRegister 9 ProcessingTime (demo_timer 4 [x63]); TRegister 9 ProcessingTime (demo_timer 4 [x63]);
   TRegister 12 EventTime (demo_timer 1 []); TDelete 8 EventTime (demo_timer 9 [x61]);
   TRegisterBatch [(7, EventTime, demo_timer 2 [x64]); (7, EventTime, demo_timer 2 [x64])];
   TAdvanceOwned EventTime 5 2; TAdvance ProcessingTime 0 10; TAdvanceOwned EventTime 5 1; TDropBatch 1].

Lemma timer_run_accounted_witness :
  exists w, timer_exec_all demo_ops (TimerWorld demo_service [] demo_broker) = Some w /\
    reserved (tw_broker w) =
      100 + rsize (reservation (tw_service w)) +
      zsum (fun batch => rsize (b_memory batch)) (tw_batches w).
Proof.
  eexists. split; [vm_compute; reflexivity|].
  refine (proj2 (proj2 (proj2 (proj2 (timer_run_accounted 100 _ _ demo_world_inv
    (timer_exec_all_run demo_ops _ _ _ _)))))); [|vm_compute; reflexivity].
  repeat apply Forall_cons_2; try (repeat constructor; vm_dec); (split; [vm_dec|]); first [exact demo_snapshot_unrepeated|by vm_compute].
Defined.

Definition demo_requests : list (Z * TimerDomain * TimerKey) :=
  [(7, EventTime, demo_timer 2 [x64]); (8, EventTime, demo_timer 5 [x61]);
   (7, EventTime, demo_timer 2 [x64])].

Lemma register_batch_sequential_witness :
  match register_batch demo_requests (demo_service, demo_broker) with
  | (Ok inserted, (s', _)) => inserted = [7] /\ rsize (reservation s') = footprint (groups s')
  | _ => False
  end.
Proof.
  assert (Forall (fun r => timer_ok r.2) demo_requests) as Hts by (repeat constructor; vm_dec).
  pose proof (register_batch_sequential 100 demo_requests demo_service demo_broker demo_ok Hts) as H.
  destruct (register_batch demo_requests (demo_service, demo_broker)) as [o [s' b']] eqn:E.
  assert (o = Ok [7]) as -> by (vm_compute in E; congruence).
  split; [reflexivity|]. exact (proj1 H).
Defined.

Lemma advance_owned_transfers_witness :
  match advance_owned_limited EventTime 7 5 (demo_service, demo_broker) with
  | (Ok batch, (s', b')) =>
      rsize (b_memory batch) = batch_bytes (b_entries batch) /\
      reserved b' = rsize (reservation s') + rsize (b_memory batch) + 100
  | _ => False
  end.
Proof.
  assert (0 <= 5) as Hl by lia.
  pose proof (advance_owned_transfers 100 EventTime 7 5 demo_service demo_broker demo_ok Hl) as H.
  destruct (advance_owned_limited EventTime 7 5 (demo_service, demo_broker)) as [[batch|e|] [s' b']] eqn:E.
  - destruct H as (_ & _ & H1 & _ & H2). exact (conj H1 H2).
  - vm_compute in E. congruence.
  - vm_compute in E. congruence.
Defined.

Definition empty_service : NativeTimerService :=
  {| first_key_group := 8; groups := [default_group; default_group];
     reservation := Resv 0 "timers" 96; accounted_bytes := 96 |}.
Lemma empty_ok : svc_ok 0 empty_service (Budget 96 5000).
Proof.
  split; [vm_dec|vm_dec| |vm_dec|vm_dec|vm_dec].
  repeat apply Forall_cons_2; [..|constructor]; intros []; split; constructor.
Qed.

Lemma timer_snapshot_roundtrip_witness :
  exists bs, snapshot_key_group demo_service 8 = Ok bs /\
    match restore_key_group 8 bs (empty_service, Budget 96 5000) with
    | (Ok _, (s1, _)) => lookup_set s1 8 EventTime = Some (map norm (event_time demo_group))
    | _ => False
    end.
Proof.
  destruct (timer_snapshot_roundtrip 100 0 demo_service empty_service demo_broker (Budget 96 5000) 8 demo_group)
    as (bs & E & _ & H);
    [exact demo_ok|exact empty_ok|vm_dec|reflexivity|reflexivity|vm_dec|repeat constructor; vm_dec|vm_dec|].
  exists bs. split; [exact E|].
  destruct (restore_key_group 8 bs (empty_service, Budget 96 5000)) as [[u|e|] [s1 b1]] eqn:Er.
  - exact (proj1 H EventTime).
  - exfalso. vm_compute in E. injection E as <-. vm_compute in Er. congruence.
  - exact H.
Defined.
