(* ===== verification/TimerLiveness.v ===== *)
(** * Timers fire

    Operators call [advance_limited] over and over with the watermark or the
    clock, each time with a limit. A timer that the progress has passed waits at
    most as many calls as the domain holds timers. *)

From Stdlib Require Import ZArith Lia Strings.Byte.
From stdpp Require Import base list option numbers strings sorting.
From S2P Require Import Prelude Bytes OrdMap MemoryPool Timer TimerFiring TimerSnapshot.

(** ** Calls and what is pending *)

Fixpoint advance_rounds `{Broker B} (d : TimerDomain) (calls : list (Z * Z)) : M (NativeTimerService * B) (list FiredTimer) :=
  match calls with
  | [] => mret []
  | (progress, limit) :: calls =>
      fired ← advance_limited d progress limit;
      later ← advance_rounds d calls;
      mret (fired ++ later)
  end.
Definition pending (d : TimerDomain) (gs : list TimerGroup) : Z := zsum (fun g => len (timer_set_ref g d)) gs.

Lemma due_from_elem d progress kg gs f :
  f ∈ due_from d progress kg gs <->
    exists i g t, gs !! i = Some g /\ t ∈ timer_set_ref g d /\ is_due progress t /\ f = fire d (kg + Z.of_nat i) t.
Proof.
  revert kg. induction gs as [|g gs IH]; intros kg; cbn [due_from].
  { split; [by intros ?%elem_of_nil|]. by intros (i & g & t & Hi & _). }
  rewrite elem_of_app, list_elem_of_fmap, IH. split.
  - intros [(t & -> & [? ?]%list_elem_of_filter)|(i & g' & t & Hi & Ht & Hd & ->)].
    + exists O, g, t. by rewrite Z.add_0_r.
    + exists (S i), g', t. split_and!; [done..|]. f_equal. lia.
  - intros ([|i] & g' & t & Hi & Ht & Hd & ->); cbn in Hi.
    + left. simplify_eq. exists t. rewrite Z.add_0_r, list_elem_of_filter. done.
    + right. exists i, g', t. split_and!; [done..|]. f_equal. lia.
Qed.

Lemma zsum_pointwise {A} (f : A -> Z) l l' : length l' = length l ->
  (forall i a, l !! i = Some a -> exists a', l' !! i = Some a' /\ f a' <= f a) ->
  zsum f l' <= zsum f l /\ forall i a a', l !! i = Some a -> l' !! i = Some a' -> f a' < f a -> zsum f l' < zsum f l.
Proof.
  revert l'. induction l as [|a l IH]; intros [|a' l'] Hlen Hle; try done. rewrite !zsum_cons.
  destruct (Hle O a eq_refl) as (x & [= <-] & H0). destruct (IH l' ltac:(cbn in Hlen; lia) (fun i => Hle (S i))) as [H1 H2].
  split; [lia|]. intros [|i] b b' Hb Hb' Hlt; cbn in Hb, Hb'; [simplify_eq; lia|]. specialize (H2 i b b' Hb Hb' Hlt). lia.
Qed.
(** A call that fires something leaves fewer timers pending. *)
Lemma fired_from_pending d kg fired gs gs' : fired_from d kg fired gs gs' ->
  pending d gs' <= pending d gs /\
  forall f i, f ∈ fired -> f_key_group f = kg + Z.of_nat i -> (i < length gs)%nat -> pending d gs' < pending d gs.
Proof.
  intros [Hlen Hg]. destruct (zsum_pointwise (fun g => len (timer_set_ref g d)) gs gs' Hlen) as [Hle Hlt].
  { intros i g Hi. destruct (Hg i g Hi) as (g' & Hi' & E & _). exists g'. split; [done|]. rewrite E, len_app.
    pose proof (len_nonneg (map f_timer (filter (fun f => f_key_group f = kg + Z.of_nat i) fired))). lia. }
  split; [done|]. intros f i Hf Hk [g Hi]%lookup_lt_is_Some. destruct (Hg i g Hi) as (g' & Hi' & E & _). apply (Hlt i g g' Hi Hi').
  rewrite E, len_app. unfold len. rewrite length_map. assert (f ∈ filter (fun f => f_key_group f = kg + Z.of_nat i) fired) as Hin by by apply list_elem_of_filter.
  destruct (filter _ fired) as [|x l]; [by apply elem_of_nil in Hin|]. cbn. lia.
Qed.
(** A timer of a set is fired or stays. *)
Lemma fired_or_stays d kg fired gs gs' i g t : fired_from d kg fired gs gs' -> Forall (fun f => f_domain f = d) fired -> gs !! i = Some g -> t ∈ timer_set_ref g d ->
  fire d (kg + Z.of_nat i) t ∈ fired \/ exists g', gs' !! i = Some g' /\ t ∈ timer_set_ref g' d.
Proof.
  intros [_ Hg] Hd Hi Ht. destruct (Hg i g Hi) as (g' & Hi' & E & _). rewrite E in Ht.
  apply elem_of_app in Ht as [(f & -> & [Hk Hf]%list_elem_of_filter)%list_elem_of_fmap|Ht]; [left|right; eauto].
  rewrite Forall_forall in Hd. specialize (Hd f Hf). destruct f; unfold fire; cbn in *. by subst.
Qed.

Section liveness.
Context `{BrokerLaws B} {others : Z}.
Abbreviation svc_ok := (svc_ok others).
Implicit Types (s : NativeTimerService) (b : B).

(** One call: it succeeds, and either fires the timer or makes progress and keeps it. *)
Lemma advance_limited_progress `{!ReleaseTotal B} d progress limit s b i g t :
  svc_ok s b -> 0 < limit -> groups s !! i = Some g -> t ∈ timer_set_ref g d -> timestamp t <= progress ->
  exists fired s' b', advance_limited d progress limit (s, b) = (Ok fired, (s', b')) /\ svc_ok s' b' /\ first_key_group s' = first_key_group s /\
    (fire d (first_key_group s + Z.of_nat i) t ∈ fired \/
     pending d (groups s') < pending d (groups s) /\ exists g', groups s' !! i = Some g' /\ t ∈ timer_set_ref g' d).
Proof.
  intros Hok Hl Hi Ht Hdue. pose proof (advance_limited_spec d progress limit s b Hok ltac:(lia)) as Hs.
  destruct (advance_limited d progress limit (s, b)) as [o [s' b']]. destruct Hs as [(Hok' & Hf & Hp) Hrt]. destruct (Hrt _) as [fired ->].
  destruct Hp as (_ & Hfired & Hff & _). exists fired, s', b'. split; [done|]. split; [done|]. split; [done|].
  assert (Forall (fun f => f_domain f = d) fired) as Hd.
  { apply Forall_forall. intros f Hin. rewrite Hfired in Hin. apply elem_of_take in Hin as (j & Hj%list_elem_of_lookup_2 & _). by eapply due_from_domain. }
  destruct (fired_or_stays _ _ _ _ _ i g t Hff Hd Hi Ht) as [?|Hstay]; [by left|right]. split; [|done].
  assert (fire d (first_key_group s + Z.of_nat i) t ∈ due_from d progress (first_key_group s) (groups s)) as Hin by (apply due_from_elem; by exists i, g, t).
  destruct (due_from d progress (first_key_group s) (groups s)) as [|f fs] eqn:Ed; [by apply elem_of_nil in Hin|].
  assert (f ∈ due_from d progress (first_key_group s) (groups s)) as (j & gj & tj & Hj & _ & _ & ->)%due_from_elem by (rewrite Ed; constructor).
  apply (proj2 (fired_from_pending _ _ _ _ _ Hff) (fire d (first_key_group s + Z.of_nat j) tj) j); [|done|by eapply lookup_lt_Some].
  rewrite Hfired. destruct (Z.to_nat limit) eqn:En; [lia|]. constructor.
Qed.
(** Calls never fail and keep the service well formed. *)
Lemma advance_rounds_total `{!ReleaseTotal B} d calls : forall s b, svc_ok s b -> Forall (fun c => 0 <= c.2) calls ->
  exists fired s' b', advance_rounds d calls (s, b) = (Ok fired, (s', b')) /\ svc_ok s' b'.
Proof.
  induction calls as [|[progress limit] calls IH]; intros s b Hok Hc; [by exists [], s, b|]. apply Forall_cons in Hc as [Hl Hc].
  pose proof (advance_limited_spec d progress limit s b Hok Hl) as Hs. cbn [advance_rounds].
  destruct (advance_limited d progress limit (s, b)) as [o [s1 b1]] eqn:E. destruct Hs as [(Hok1 & _) Hrt]. destruct (Hrt _) as [fired ->].
  destruct (IH s1 b1 Hok1 Hc) as (later & s2 & b2 & E2 & Hok2). exists (fired ++ later), s2, b2. split; [|done].
  rewrite (M_bind_run _ _ _ _ _ E), (M_bind_run _ _ _ _ _ E2). done.
Qed.

(** C35: no timer starves: once a timer is registered, any sequence of calls of
    [advance_limited], at least as long as the domain has timers, whose limits
    are positive and whose progress has passed the timer, whatever it is, fires
    it; none of the calls fails. *)
Theorem due_timer_fires `{!ReleaseTotal B} d calls s b i g t :
  svc_ok s b -> groups s !! i = Some g -> t ∈ timer_set_ref g d ->
  Forall (fun c => timestamp t <= c.1 /\ 0 < c.2) calls -> pending d (groups s) <= len calls ->
  exists fired s' b', advance_rounds d calls (s, b) = (Ok fired, (s', b')) /\ fire d (first_key_group s + Z.of_nat i) t ∈ fired.
Proof.
  revert s b g. induction calls as [|[progress limit] calls IH]; intros s b g Hok Hi Ht Hc Hp.
  - exfalso. change (len (@nil (Z * Z))) with 0 in Hp. unfold pending in Hp.
    pose proof (zsum_lookup_le (fun g => len (timer_set_ref g d)) (groups s) i g (fun a _ => len_nonneg _) Hi) as Hle.
    cbn beta in Hle. destruct (timer_set_ref g d); [by apply elem_of_nil in Ht|]. rewrite len_cons in Hle. pose proof (len_nonneg l). lia.
  - apply Forall_cons in Hc as [[Hdue Hl] Hc]. cbn [fst snd] in Hdue, Hl. rewrite len_cons in Hp.
    destruct (advance_limited_progress d progress limit s b i g t Hok Hl Hi Ht Hdue) as (fired & s1 & b1 & E & Hok1 & Hf & Hcase).
    cbn [advance_rounds]. destruct Hcase as [Hin|(Hlt & g' & Hi' & Ht')].
    + destruct (advance_rounds_total d calls s1 b1 Hok1) as (later & s2 & b2 & E2 & _); [eapply Forall_impl; [exact Hc|]; intros c []; lia|].
      exists (fired ++ later), s2, b2. rewrite (M_bind_run _ _ _ _ _ E), (M_bind_run _ _ _ _ _ E2), elem_of_app. auto.
    + destruct (IH s1 b1 g' Hok1 Hi' Ht' Hc ltac:(lia)) as (later & s2 & b2 & E2 & Hin).
      exists (fired ++ later), s2, b2. rewrite (M_bind_run _ _ _ _ _ E), (M_bind_run _ _ _ _ _ E2), elem_of_app, <- Hf. auto.
Qed.
End liveness.

(** ** A concrete run *)

Lemma due_timer_fires_witness :
  exists fired s' b', advance_rounds EventTime [(9, 1); (12, 1); (9, 4)] (demo_service, demo_broker) = (Ok fired, (s', b')) /\
    {| f_key_group := 8; f_domain := EventTime; f_timer := demo_timer 9 [x61] |} ∈ fired.
Proof.
  refine (due_timer_fires EventTime [(9, 1); (12, 1); (9, 4)] demo_service demo_broker 1 demo_group (demo_timer 9 [x61]) demo_ok eq_refl _ _ _).
  - cbn. right. right. left.
  - repeat constructor; cbn; lia.
  - vm_compute. congruence.
Defined.
