(* ===== verification/OrderedState.v ===== *)
(** * Ordered keyed state: [state/mod.rs] and [state/ordered_memory.rs]

    The data of the [KeyedState] trait, [prefix_end], and the B-tree backend
    [OrderedMemoryKeyedState]: one ordered map per key group, charged to a host
    reservation, with paged range visits. *)

From Stdlib Require Import ZArith Lia Strings.Byte.
From stdpp Require Import base list option numbers strings sorting.
From S2P Require Import Prelude Bytes OrdMap MemoryPool Snapshot.

(** ** Data of the trait *)

Record StateKeyRef : Type := { r_key_group : Z; r_key : bytes }.
Record StateKey : Type := { key_group : Z; skey : vec }.
(** [None] deletes the key. *)
Record StateMutation : Type := { mkey : StateKey; mvalue : option vec }.

(** [u8] addition of one to a byte that is not 255. *)
Definition byte_succ (b : byte) : byte := z2b (b2z b + 1).

(** Cut after the last byte that is not 255 ([rposition]) and increment it. *)
Fixpoint prefix_end (prefix : bytes) : option bytes :=
  match prefix with
  | [] => None
  | b :: rest =>
      match prefix_end rest with
      | Some e => Some (b :: e)
      | None => if b2z b =? 255 then None else Some [byte_succ b]
      end
  end.

(** ** The backend *)

Abbreviation kv := (bytes * bytes)%type.
(** [BTreeMap<Box<[u8]>, Box<[u8]>>]: entries in key order. *)
Abbreviation Group := (list kv).

Definition ENTRY_OVERHEAD : Z := 128.
(** [size_of::<Group>()] on a 64-bit target. *)
Definition size_of_group : Z := 24.
Definition ROOT_OVERHEAD : Z := 1024.
(** [size_of::<Option<StateValue>>()]. *)
Definition size_of_read_slot : Z := 24.

Record OrderedMemoryKeyedState : Type := {
  first : Z;
  groups : list Group;
  obytes : Z;
  reservation : resv;
}.

Definition set_resv (r : resv) (s : OrderedMemoryKeyedState) : OrderedMemoryKeyedState :=
  {| first := first s; groups := groups s; obytes := obytes s; reservation := r |}.
Definition set_grp (i : nat) (g : Group) (n : Z) (s : OrderedMemoryKeyedState)
  : OrderedMemoryKeyedState :=
  {| first := first s; groups := <[i := g]> (groups s); obytes := n; reservation := reservation s |}.

Definition not_owned : error := Execution "key group is not owned by this subtask".

Definition index (s : OrderedMemoryKeyedState) (group : Z) : outcome nat :=
  match checked_sub group (first s) with
  | Some i => if i <? len (groups s) then Ok (Z.to_nat i) else Err not_owned
  | None => Err not_owned
  end.

(** [&self.groups[self.index(group)?]]. *)
Definition group_at (s : OrderedMemoryKeyedState) (group : Z) : outcome Group :=
  i ← index s group;
  match groups s !! i with Some g => Ok g | None => Panic end.

(** *** Ranges *)

(** [k < end] with no end for an unbounded range. *)
Definition below (e : option bytes) (k : bytes) : bool :=
  match e with
  | None => true
  | Some e => match bytes_cmp k e with Lt => true | _ => false end
  end.
Definition at_or_after (start k : bytes) : bool :=
  match bytes_cmp start k with Gt => false | _ => true end.

(** [group.range((Included(start), upper))]. *)
Definition range_entries (g : Group) (start : bytes) (e : option bytes) : list kv :=
  List.filter (fun p => at_or_after start p.1 && below e p.1) g.

Section range.
Context {V : Type}.
(** The visitor sees one page; [false] stops the scan. *)
Context (visitor : list kv -> M V bool).

(** The page loop: [page] and [bytes] hold the pending page. *)
Fixpoint range_loop (max_rows max_bytes : Z) (allow_large_entry : bool)
    (page : list kv) (bytes : Z) (es : list kv) : M V bool :=
  match es with
  | [] =>
      match page with
      | [] => mret true
      | _ => _ ← visitor page; mret true
      end
  | (k, v) :: es =>
      let keep_on page bytes :=
        let size := sat_add (sat_add (len k) (len v)) 100 in
        if (max_bytes <? size) && negb allow_large_entry then
          throw (ResourcesExhausted "state scan entry exceeds the admitted page budget")
        else if negb (bool_decide (page = [])) && (max_bytes <? sat_add bytes size) then
          go ← visitor page;
          if go : bool
          then range_loop max_rows max_bytes allow_large_entry [(k, v)] size es
          else mret false
        else
          range_loop max_rows max_bytes allow_large_entry (page ++ [(k, v)])
            (wrapu 64 (bytes + size)) es in
      if len page =? max_rows then
        go ← visitor page;
        if go : bool then keep_on [] 0 else mret false
      else keep_on page bytes
  end.

Definition range (s : OrderedMemoryKeyedState) (group : Z) (start : bytes) (e : option bytes)
    (max_rows max_bytes : Z) (allow_large_entry : bool) : M V bool :=
  g ← lift (group_at s group);
  _ ← when ((max_rows =? 0) || (max_bytes =? 0)) (Execution "state scan bounds must be positive");
  if match e with
     | Some e => match bytes_cmp start e with Lt => false | _ => true end
     | None => false
     end
  then mret true
  else range_loop max_rows max_bytes allow_large_entry [] 0 (range_entries g start e).

Definition visit_range (s : OrderedMemoryKeyedState) (group : Z) (start : bytes)
    (e : option bytes) (max_rows max_bytes : Z) : M V unit :=
  _ ← range s group start e max_rows max_bytes false; mret tt.
End range.

Definition keep_going {V} (visitor : list kv -> M V unit) : list kv -> M V bool :=
  fun page => _ ← visitor page; mret true.

Definition visit_key_group {V} (s : OrderedMemoryKeyedState) (group rows bytes : Z)
    (visitor : list kv -> M V unit) : M V unit :=
  visit_range (keep_going visitor) s group [] None rows bytes.

Definition visit_prefix {V} (s : OrderedMemoryKeyedState) (group : Z) (prefix : bytes)
    (rows bytes : Z) (visitor : list kv -> M V unit) : M V unit :=
  visit_range (keep_going visitor) s group prefix (prefix_end prefix) rows bytes.

Section backend.
Context `{Broker B}.

(** The page descriptors are charged for the duration of the visit. *)
Definition with_scratch {V A} (owner : resv) (name : string) (n : Z) (body : M (V * B) A)
  : M (V * B) A :=
  scoped name owner (fun '(r, (v, b)) =>
    match resize n (r, b) with
    | (Ok _, (r', b')) => let '(o, (v', b'')) := body (v, b') in (o, (r', (v', b'')))
    | (Err e, (r', b')) => (Err e, (r', (v, b')))
    | (Panic, (r', b')) => (Panic, (r', (v, b')))
    end).

Definition visit_prefix_admitted {V} (s : OrderedMemoryKeyedState) (group : Z) (prefix : bytes)
    (rows : Z) (owner : resv) (visitor : list kv -> M (V * B) unit) : M (V * B) unit :=
  with_scratch owner "ordered state borrowed page" (sat_mul rows 32)
    (visit_prefix s group prefix rows USIZE_MAX visitor).

Definition visit_range_admitted {V} (s : OrderedMemoryKeyedState) (group : Z) (start : bytes)
    (e : option bytes) (rows bytes : Z) (owner : resv) (visitor : list kv -> M (V * B) bool)
  : M (V * B) bool :=
  with_scratch owner "ordered state borrowed range page" (sat_mul rows 32)
    (range visitor s group start e rows bytes true).

(** *** Construction and reads *)

Definition ordered_new (f l : Z) (r : resv) : M B OrderedMemoryKeyedState := fun b =>
  if l <? f then
    fail_dropping r (Execution "invalid ordered key-group range") b
  else
    let count := l - f + 1 in
    match checked_mul count size_of_group with
    | None =>
        fail_dropping r (ResourcesExhausted "ordered key-group directory overflow") b
    | Some n =>
        match resize n (r, b) with
        | (Ok _, (r', b')) =>
            (Ok {| first := f; groups := replicate (Z.to_nat count) []; obytes := n;
                   reservation := r' |}, b')
        | (Err e, (r', b')) => fail_dropping r' e b'
        | (Panic, (_, b')) => (Panic, b')
        end
    end.

Definition map_get (k : bytes) (g : Group) : option bytes :=
  option_map snd (bt_find fst k g).

Definition lookup_key (s : OrderedMemoryKeyedState) (k : StateKeyRef) : outcome (option bytes) :=
  g ← group_at s (r_key_group k); Ok (map_get (r_key k) g).

(** The result slots belong to the returned batch. *)
Record StateReadBatch : Type := { rb_values : list (option bytes); rb_reservation : resv }.

Definition read_admit (n : Z) (owner : resv) : M B resv :=
  reserve_sibling owner "native state read result slots" (sat_mul n size_of_read_slot).

Definition get_batch (s : OrderedMemoryKeyedState) (keys : list StateKeyRef) (owner : resv)
  : M B StateReadBatch :=
  r ← read_admit (len keys) owner;
  match collect (lookup_key s) keys with
  | Ok values => mret {| rb_values := values; rb_reservation := r |}
  | Err e => fail_dropping r e
  | Panic => panic
  end.

(** *** Writes *)

Fixpoint write_growth (s : OrderedMemoryKeyedState) (ms : list StateMutation) (n : Z) : outcome Z :=
  match ms with
  | [] => Ok n
  | m :: ms =>
      _ ← index s (key_group (mkey m));
      write_growth s ms
        (sat_add n (match mvalue m with
                    | None => 0
                    | Some v => sat_add (sat_add (vcap (skey (mkey m))) (vcap v)) ENTRY_OVERHEAD
                    end))
  end.

Definition is_put (m : StateMutation) : bool := match mvalue m with Some _ => true | None => false end.

(** Distinct groups that gain entries and are empty now. *)
Definition new_roots (s : OrderedMemoryKeyedState) (ms : list StateMutation) : Z :=
  len (List.filter (fun g => match group_at s g with Ok [] => true | _ => false end)
         (remove_dups (map (fun m => key_group (mkey m)) (List.filter is_put ms)))).

(** [BTreeMap::insert] keeps an existing key and replaces its value. *)
Definition map_insert (k v : bytes) (g : Group) : Group :=
  bt_put fst (fun p => (p.1, v)) (k, v) g.

Definition apply_mutation (m : StateMutation) (s : OrderedMemoryKeyedState)
  : outcome OrderedMemoryKeyedState :=
  i ← index s (key_group (mkey m));
  match groups s !! i with
  | None => Panic
  | Some g =>
      let k := vdata (skey (mkey m)) in
      let '(g', n) :=
        match mvalue m with
        | Some v =>
            (map_insert k (vdata v) g,
             match map_get k g with
             | Some previous => wrapu 64 (obytes s - len previous + vlen v)
             | None => wrapu 64 (obytes s + (len k + vlen v + ENTRY_OVERHEAD))
             end)
        | None =>
            match map_get k g with
            | Some v => (bt_remove fst k g, wrapu 64 (obytes s - (len k + len v + ENTRY_OVERHEAD)))
            | None => (g, obytes s)
            end
        end in
      let n := if bool_decide (g = []) && negb (bool_decide (g' = []))
               then wrapu 64 (n + ROOT_OVERHEAD) else n in
      let n := if negb (bool_decide (g = [])) && bool_decide (g' = [])
               then wrapu 64 (n - ROOT_OVERHEAD) else n in
      Ok (set_grp i g' n s)
  end.

Fixpoint apply_mutations (ms : list StateMutation) : M (OrderedMemoryKeyedState * B) unit :=
  fun '(s, b) =>
    match ms with
    | [] => (Ok tt, (s, b))
    | m :: ms =>
        match apply_mutation m s with
        | Ok s' => apply_mutations ms (s', b)
        | Err e => (Err e, (s, b))
        | Panic => (Panic, (s, b))
        end
    end.

Definition ordered_resize (n : Z) : M (OrderedMemoryKeyedState * B) unit :=
  zoom reservation set_resv (resize n).

Definition write_batch (ms : list StateMutation) : M (OrderedMemoryKeyedState * B) unit :=
  s ← gets fst;
  growth ← lift (write_growth s ms 0);
  _ ← ordered_resize (sat_add (sat_add (obytes s) growth) (sat_mul (new_roots s ms) 1024));
  _ ← apply_mutations ms;
  s ← gets fst;
  ordered_resize (obytes s).

(** *** Snapshots *)

Definition snapshot_bytes_size (g : Group) : Z :=
  fold_left (fun n (p : kv) => sat_add n (8 + len p.1 + len p.2)) g 16.

Record SnapshotBytes : Type := { sb_bytes : bytes; sb_reservation : resv }.

Definition encode_group (group n : Z) (g : Group) : outcome bytes :=
  w ← to_execution (writer_new group (len g) n);
  w ← to_execution (writer_append_all g w);
  to_execution (writer_finish w).

Definition snapshot_key_group (s : OrderedMemoryKeyedState) (group : Z) (owner : resv)
  : M B SnapshotBytes :=
  g ← lift (group_at s group);
  let n := snapshot_bytes_size g in
  r ← reserve_sibling owner "ordered state snapshot" n;
  match encode_group group n g with
  | Ok encoded => mret {| sb_bytes := encoded; sb_reservation := r |}
  | Err e => fail_dropping r e
  | Panic => panic
  end.
End backend.

(** ** Prefixes are ranges *)

Lemma byte_succ_z b : b2z b <> 255 -> b2z (byte_succ b) = b2z b + 1.
Proof.
  intros Hb. unfold byte_succ. rewrite b2z_z2b. pose proof (b2z_range b).
  apply Z.mod_small. lia.
Qed.

Lemma b2z_inj a b : b2z a = b2z b -> a = b.
Proof. intros E. by rewrite <- (z2b_b2z a), <- (z2b_b2z b), E. Qed.

Lemma starts_with_range k p :
  starts_with k p = at_or_after p k && below (prefix_end p) k.
Proof.
  revert k. induction p as [|b p IH]; intros k; [by destruct k|].
  destruct k as [|x k].
  { unfold at_or_after. simpl. done. }
  cbn [starts_with prefix_end]. rewrite IH. unfold at_or_after. cbn [bytes_cmp].
  pose proof (b2z_range b). pose proof (b2z_range x).
  destruct (Z.compare_spec (b2z b) (b2z x)) as [E|E|E].
  - apply b2z_inj in E as ->. rewrite bool_decide_eq_true_2 by done.
    destruct (prefix_end p) as [e|]; cbn [below bytes_cmp]; [by rewrite Z.compare_refl|].
    destruct (Z.eqb_spec (b2z x) 255); cbn [below bytes_cmp]; [done|].
    rewrite byte_succ_z by done. by destruct (Z.compare_spec (b2z x) (b2z x + 1)); try lia.
  - rewrite bool_decide_eq_false_2 by (intros ->; lia).
    destruct (prefix_end p) as [e|]; cbn [below bytes_cmp andb].
    + by destruct (Z.compare_spec (b2z x) (b2z b)); try lia.
    + destruct (Z.eqb_spec (b2z b) 255); [lia|]. cbn [below bytes_cmp].
      rewrite byte_succ_z by done.
      destruct (Z.compare_spec (b2z x) (b2z b + 1)); try lia; by destruct k.
  - rewrite bool_decide_eq_false_2 by (intros ->; lia). done.
Qed.

(** ** Pages *)

Definition entry_cost (p : kv) : Z := sat_add (sat_add (len p.1) (len p.2)) 100.

(** The pages a scan shows to its visitor: the full ones, and the last one
    ([None] when an oversized entry ends the scan with an error). *)
Fixpoint paginate (max_rows max_bytes : Z) (allow : bool) (page : list kv) (bytes : Z)
    (es : list kv) : list (list kv) * option (list kv) :=
  match es with
  | [] => ([], Some page)
  | p :: es =>
      let '(pre, page, bytes) :=
        if len page =? max_rows then ([page], [], 0) else ([], page, bytes) in
      let size := entry_cost p in
      if (max_bytes <? size) && negb allow then (pre, None)
      else
        let '(pre, page, bytes) :=
          if negb (bool_decide (page = [])) && (max_bytes <? sat_add bytes size)
          then (pre ++ [page], [], 0) else (pre, page, bytes) in
        let '(ps, tail) := paginate max_rows max_bytes allow (page ++ [p]) (bytes + size) es in
        (pre ++ ps, tail)
  end.

(** Show the pages in order until the visitor says stop; what it says about the
    last page is ignored. *)
Fixpoint visit_pages {V} (visitor : list kv -> M V bool) (ps : list (list kv))
    (tail : option (list kv)) : M V bool :=
  match ps with
  | p :: ps => go ← visitor p; if go : bool then visit_pages visitor ps tail else mret false
  | [] =>
      match tail with
      | None => throw (ResourcesExhausted "state scan entry exceeds the admitted page budget")
      | Some [] => mret true
      | Some page => _ ← visitor page; mret true
      end
  end.

(** Entries whose sizes do not overflow [usize]. *)
Definition scan_ok (es : list kv) : Prop := zsum entry_cost es <= USIZE_MAX.

Lemma entry_cost_pos p : 0 < entry_cost p.
Proof.
  unfold entry_cost. pose proof (len_nonneg p.1). pose proof (len_nonneg p.2). mlia.
Qed.

Lemma range_loop_pages {V} (visitor : list kv -> M V bool) max_rows max_bytes allow es :
  forall page bytes v, 0 <= bytes -> bytes + zsum entry_cost es <= USIZE_MAX ->
  range_loop visitor max_rows max_bytes allow page bytes es v =
    (let '(ps, tail) := paginate max_rows max_bytes allow page bytes es in
     visit_pages visitor ps tail v).
Proof.
  induction es as [|[k x] es IH]; intros page bytes v Hb Hsum; cbn [range_loop paginate].
  { by destruct page. }
  cbn [zsum foldr] in Hsum. change (foldr _ 0 es) with (zsum entry_cost es) in Hsum.
  assert (0 <= zsum entry_cost es) as Hnn.
  { apply zsum_nonneg. intros p _. pose proof (entry_cost_pos p). lia. }
  pose proof (entry_cost_pos (k, x)) as Hpos.
  change (sat_add (sat_add (len k) (len x)) 100) with (entry_cost (k, x)).
  assert (forall page bytes, 0 <= bytes -> bytes + (entry_cost (k, x) + zsum entry_cost es) <= USIZE_MAX ->
    forall v, range_loop visitor max_rows max_bytes allow page
        (wrapu 64 (bytes + entry_cost (k, x))) es v =
      (let '(ps, tail) := paginate max_rows max_bytes allow page (bytes + entry_cost (k, x)) es in
       visit_pages visitor ps tail v)) as Hstep.
  { intros page' bytes' Hb' Hs' v'. unfold wrapu. rewrite Z.mod_small by mlia. apply IH; lia. }
  pose proof (Hstep [(k, x)] 0 ltac:(lia) ltac:(lia)) as Hstep0.
  unfold wrapu in Hstep0. rewrite Z.mod_small in Hstep0 by mlia.
  destruct (len page =? max_rows); destruct ((max_bytes <? entry_cost (k, x)) && negb allow); cbn zeta.
  - cbn [visit_pages]. unfold mbind, M_bind. destruct (visitor page v) as [[[]| |] v']; done.
  - rewrite bool_decide_eq_true_2 by done. cbn [negb andb app].
    specialize (Hstep [(k, x)] 0 ltac:(lia) ltac:(lia)).
    destruct (paginate _ _ _ [(k, x)] _ es) as [ps tail]. cbn [visit_pages app].
    unfold mbind, M_bind. destruct (visitor page v) as [[[]| |] v']; done.
  - done.
  - destruct (negb (bool_decide (page = [])) && (max_bytes <? sat_add bytes (entry_cost (k, x)))).
    + cbn [app]. destruct (paginate _ _ _ [(k, x)] _ es) as [ps tail]. cbn [visit_pages app].
      unfold mbind, M_bind. destruct (visitor page v) as [[[]| |] v']; done.
    + specialize (Hstep (page ++ [(k, x)]) bytes Hb Hsum v). rewrite Hstep.
      by destruct (paginate _ _ _ (page ++ [(k, x)]) _ es).
Qed.

Definition page_fits (max_rows max_bytes : Z) (p : list kv) : Prop :=
  p <> [] /\ len p <= max_rows /\ (zsum entry_cost p <= max_bytes \/ len p = 1).

(** The pages are the entries in order, cut into non-empty pieces within both
    bounds (a single large entry may stand alone). *)
Definition pages_of (max_rows max_bytes : Z) (es : list kv) (ps : list (list kv))
    (tail : option (list kv)) : Prop :=
  Forall (page_fits max_rows max_bytes) ps /\
  match tail with
  | Some t => concat ps ++ t = es /\ (t = [] \/ page_fits max_rows max_bytes t)
  | None => (exists rest, es = concat ps ++ rest) /\ exists p, p ∈ es /\ max_bytes < entry_cost p
  end.

Lemma zsum_cost_nonneg l : 0 <= zsum entry_cost l.
Proof. apply zsum_nonneg. intros q _. pose proof (entry_cost_pos q). lia. Qed.

(** A full page is emitted before the next entry is looked at. *)
Lemma row_check max_rows max_bytes page :
  0 < max_rows -> page = [] \/ page_fits max_rows max_bytes page ->
  exists pre page' bytes',
    (if len page =? max_rows then ([page], [], 0) else ([], page, zsum entry_cost page)) =
      (pre, page', bytes') /\
    Forall (page_fits max_rows max_bytes) pre /\ concat pre ++ page' = page /\
    bytes' = zsum entry_cost page' /\ (page' = [] \/ page_fits max_rows max_bytes page') /\
    len page' < max_rows.
Proof.
  intros Hr Hpage. destruct (Z.eqb_spec (len page) max_rows).
  - exists [page], [], 0. split_and!; try done; [|simpl; by rewrite !app_nil_r|by left].
    constructor; [|done]. destruct Hpage as [->|]; [change (len []) with 0 in *; lia|done].
  - exists [], page, (zsum entry_cost page). split_and!; try done.
    destruct Hpage as [->|(_ & ? & _)]; [change (len (@nil kv)) with 0; lia|lia].
Qed.

(** A page that the next entry would overfill is emitted first. *)
Lemma byte_check max_rows max_bytes pre page p :
  0 < max_rows -> Forall (page_fits max_rows max_bytes) pre ->
  page = [] \/ page_fits max_rows max_bytes page -> len page < max_rows ->
  zsum entry_cost page + entry_cost p <= USIZE_MAX ->
  exists pre2 page2 bytes2,
    (if negb (bool_decide (page = [])) && (max_bytes <? sat_add (zsum entry_cost page) (entry_cost p))
     then (pre ++ [page], [], 0) else (pre, page, zsum entry_cost page)) = (pre2, page2, bytes2) /\
    Forall (page_fits max_rows max_bytes) pre2 /\ concat pre2 ++ page2 = concat pre ++ page /\
    bytes2 = zsum entry_cost page2 /\ page_fits max_rows max_bytes (page2 ++ [p]).
Proof.
  intros Hr Hpre Hpg Hlt Hsum. pose proof (zsum_cost_nonneg page). pose proof (entry_cost_pos p).
  destruct (negb (bool_decide (page = [])) && _) eqn:Eb.
  - apply andb_true_iff in Eb as [Hne%negb_true_iff%bool_decide_eq_false _].
    exists (pre ++ [page]), [], 0. split_and!; try done.
    + apply Forall_app; split; [done|]. constructor; [|done]. by destruct Hpg.
    + rewrite concat_app. simpl. by rewrite !app_nil_r.
    + split_and!; [done|change (len ([] ++ [p])) with 1; lia|by right].
  - exists pre, page, (zsum entry_cost page). split_and!; try done. split_and!; [by destruct page| |].
    + rewrite len_app. change (len [p]) with 1. lia.
    + apply andb_false_iff in Eb as [Hn|Hb%Z.ltb_ge].
      * apply negb_false_iff, bool_decide_eq_true in Hn as ->. by right.
      * left. rewrite zsum_app. cbn [zsum foldr]. mlia.
Qed.

Lemma paginate_ok max_rows max_bytes allow es : 0 < max_rows -> forall page,
  page = [] \/ page_fits max_rows max_bytes page ->
  scan_ok (page ++ es) ->
  let '(ps, tail) := paginate max_rows max_bytes allow page (zsum entry_cost page) es in
  pages_of max_rows max_bytes (page ++ es) ps tail /\ (allow = true -> tail <> None).
Proof.
  intros Hr. induction es as [|p es IH]; intros page Hpage Hscan; cbn [paginate].
  { rewrite app_nil_r. by split; [split|]. }
  unfold scan_ok in Hscan. rewrite zsum_app in Hscan. cbn [zsum foldr] in Hscan.
  change (foldr _ 0 es) with (zsum entry_cost es) in Hscan.
  pose proof zsum_cost_nonneg as Hnn. pose proof (Hnn es). pose proof (Hnn page). pose proof (entry_cost_pos p) as Hp.
  destruct (row_check max_rows max_bytes page Hr Hpage)
    as (pre & page' & bytes' & -> & Hpre & Hcat & -> & Hpg & Hlt).
  assert (zsum entry_cost page' <= zsum entry_cost page) as Hle.
  { rewrite <- Hcat, zsum_app. specialize (Hnn (concat pre)). lia. }
  destruct ((max_bytes <? entry_cost p) && negb allow) eqn:Ebig.
  { apply andb_true_iff in Ebig as [Hbig%Z.ltb_lt Ha]. split; [|by destruct allow].
    split; [done|]. split; [exists (page' ++ p :: es); by rewrite app_assoc, Hcat|].
    exists p. split; [|done]. apply elem_of_app. right. constructor. }
  destruct (byte_check max_rows max_bytes pre page' p Hr Hpre Hpg Hlt)
    as (pre2 & page2 & bytes2 & -> & Hpre2 & Hcat2 & -> & Hpg2); [lia|].
  rewrite Hcat in Hcat2.
  specialize (IH (page2 ++ [p]) (or_intror Hpg2)).
  rewrite zsum_app in IH. cbn [zsum foldr] in IH. change (foldr _ 0 page2) with (zsum entry_cost page2) in IH.
  rewrite Z.add_0_r in IH. rewrite <- app_assoc in IH. cbn [app] in IH.
  destruct (paginate _ _ _ _ _ es) as [ps tail].
  destruct IH as [[Hps Htail] Hall].
  { assert (zsum entry_cost page = zsum entry_cost (concat pre2) + zsum entry_cost page2)
      by (rewrite <- Hcat2; apply zsum_app).
    unfold scan_ok. rewrite zsum_app. cbn [zsum foldr].
    change (foldr _ 0 es) with (zsum entry_cost es). specialize (Hnn (concat pre2)). lia. }
  split; [|done]. split; [by apply Forall_app|]. rewrite concat_app.
  destruct tail as [t|].
  - destruct Htail as [Hc Ht]. split; [|done]. rewrite <- app_assoc, Hc, app_assoc. by rewrite Hcat2.
  - destruct Htail as [[rest Hc] (q & Hq & Hbig)]. split.
    + exists rest. rewrite <- app_assoc, <- Hc, app_assoc. by rewrite Hcat2.
    + exists q. split; [|done]. rewrite <- Hcat2, <- app_assoc. apply elem_of_app. by right.
Qed.
