(* ===== verification/OrderedWrites.v ===== *)
(** * Ordered keyed state: writes

    [write_batch] of [state/ordered_memory.rs] is atomic, applies the mutations
    in order, and charges exactly the footprint of the maps. *)

From Stdlib Require Import ZArith Lia Strings.Byte.
From stdpp Require Import base list option numbers strings sorting.
From S2P Require Import Prelude Bytes OrdMap MemoryPool Snapshot OrderedState.

(** ** One map *)

Definition entry_mem (p : kv) : Z := len p.1 + len p.2 + ENTRY_OVERHEAD.
Definition root_cost (g : list kv) : Z := if bool_decide (g = []) then 0 else ROOT_OVERHEAD.
Definition group_cost (g : list kv) : Z := root_cost g + zsum entry_mem g.
(** The directory, the trees and their entries. *)
Definition ordered_footprint (gs : list (list kv)) : Z :=
  size_of_group * len gs + zsum group_cost gs.

Lemma bytes_ocmp_eq (a b : bytes) : ocmp a b = Eq <-> a = b.
Proof. split; [apply ocmp_eq|intros ->; apply ocmp_refl]. Qed.

Lemma map_get_insert k v g k' :
  bt_sorted fst g -> map_get k' (map_insert k v g) = if decide (k' = k) then Some v else map_get k' g.
Proof.
  intros Hs. unfold map_get, map_insert. destruct (decide (k' = k)) as [->|Hne].
  - rewrite (bt_find_put_eq fst (fun p => (p.1, v)) ltac:(done) (k, v) g k Hs (ocmp_refl k)).
    by destruct (bt_find fst k g).
  - rewrite (bt_find_put_ne fst (fun p => (p.1, v)) ltac:(done) (k, v) g k'); [done|].
    simpl. by rewrite bytes_ocmp_eq.
Qed.

Lemma map_get_remove k g k' :
  bt_sorted fst g -> map_get k' (bt_remove fst k g) = if decide (k' = k) then None else map_get k' g.
Proof.
  intros Hs. unfold map_get. destruct (decide (k' = k)) as [->|Hne].
  - by rewrite bt_find_remove_eq.
  - rewrite (bt_find_remove_ne fst k k' g); [done|]. by rewrite bytes_ocmp_eq.
Qed.

Lemma entry_mem_pos p : 0 < entry_mem p.
Proof. unfold entry_mem, ENTRY_OVERHEAD. pose proof (len_nonneg p.1). pose proof (len_nonneg p.2). lia. Qed.
Lemma zsum_mem_nonneg g : 0 <= zsum entry_mem g.
Proof. apply zsum_nonneg. intros p _. pose proof (entry_mem_pos p). lia. Qed.
Lemma root_cost_range g : 0 <= root_cost g <= 1024.
Proof. unfold root_cost, ROOT_OVERHEAD. case_bool_decide; lia. Qed.
Lemma group_cost_nonneg g : 0 <= group_cost g.
Proof. unfold group_cost. pose proof (zsum_mem_nonneg g). pose proof (root_cost_range g). lia. Qed.

Lemma map_get_entry k g v :
  map_get k g = Some v -> exists p, bt_find fst k g = Some p /\ p = (k, v).
Proof.
  unfold map_get. destruct (bt_find fst k g) as [[k' v']|] eqn:E; [|done]. intros [= ->].
  exists (k', v). split; [done|]. apply (bt_find_Some fst) in E as [_ E]. by apply bytes_ocmp_eq in E as ->.
Qed.

Lemma map_insert_mem k v g :
  bt_sorted fst g ->
  zsum entry_mem (map_insert k v g) = zsum entry_mem g +
    match map_get k g with Some old => len v - len old | None => len k + len v + ENTRY_OVERHEAD end.
Proof.
  intros Hs. unfold map_insert. destruct (map_get k g) as [old|] eqn:E.
  - apply map_get_entry in E as ([? ?] & E & [= -> ->]).
    destruct (bt_put_replace fst (fun p => (p.1, v)) (k, v) g (k, old) Hs E)
      as (l1 & l2 & -> & ->). rewrite !zsum_app. cbn [zsum foldr]. unfold entry_mem at 2 5. simpl. lia.
  - assert (bt_find fst k g = None) as En.
    { unfold map_get in E. by destruct (bt_find fst k g). }
    rewrite (bt_put_perm fst (fun p => (p.1, v)) (k, v) g Hs En). cbn [zsum foldr].
    unfold entry_mem at 1. simpl. change (foldr _ 0 g) with (zsum entry_mem g). lia.
Qed.

Lemma map_remove_mem k g v :
  bt_sorted fst g -> map_get k g = Some v ->
  zsum entry_mem (bt_remove fst k g) = zsum entry_mem g - (len k + len v + ENTRY_OVERHEAD).
Proof.
  intros Hs (p & E & ->)%map_get_entry.
  assert (zsum entry_mem g = entry_mem (k, v) + zsum entry_mem (bt_remove fst k g)) as ->.
  { by rewrite (bt_remove_perm fst k g (k, v) E) at 1. }
  unfold entry_mem at 2. simpl. lia.
Qed.

(** ** One mutation *)

Definition group_apply (m : StateMutation) (g : list kv) : list kv :=
  let k := vdata (skey (mkey m)) in
  match mvalue m with
  | Some v => map_insert k (vdata v) g
  | None => match map_get k g with Some _ => bt_remove fst k g | None => g end
  end.

(** What a put may add to the entries. *)
Definition mutation_mem (m : StateMutation) : Z :=
  match mvalue m with
  | Some v => vlen (skey (mkey m)) + vlen v + ENTRY_OVERHEAD
  | None => 0
  end.

Lemma group_apply_sorted m g : bt_sorted fst g -> bt_sorted fst (group_apply m g).
Proof.
  intros Hs. unfold group_apply. destruct (mvalue m).
  - by apply bt_put_sorted.
  - destruct (map_get _ _); [by apply bt_remove_sorted|done].
Qed.

Lemma group_apply_get m g k :
  bt_sorted fst g ->
  map_get k (group_apply m g) =
    if decide (k = vdata (skey (mkey m))) then option_map vdata (mvalue m) else map_get k g.
Proof.
  intros Hs. unfold group_apply. destruct (mvalue m) as [v|]; [by apply map_get_insert|].
  destruct (map_get (vdata (skey (mkey m))) g) eqn:E; [by apply map_get_remove|].
  destruct (decide (k = vdata (skey (mkey m)))) as [->|]; done.
Qed.

Lemma group_apply_mem m g :
  bt_sorted fst g -> zsum entry_mem (group_apply m g) <= zsum entry_mem g + mutation_mem m.
Proof.
  intros Hs. unfold group_apply, mutation_mem, vlen.
  pose proof (len_nonneg (vdata (skey (mkey m)))). destruct (mvalue m) as [v|].
  - rewrite map_insert_mem by done. pose proof (len_nonneg (vdata v)).
    destruct (map_get _ g) as [old|]; [pose proof (len_nonneg old)|]; unfold ENTRY_OVERHEAD; lia.
  - destruct (map_get _ g) as [old|] eqn:E; [|lia].
    rewrite (map_remove_mem _ _ _ Hs E). pose proof (len_nonneg old). unfold ENTRY_OVERHEAD; lia.
Qed.

Lemma group_apply_nonempty m g : group_apply m g <> [] -> g <> [] \/ is_put m = true.
Proof.
  unfold group_apply, is_put. destruct (mvalue m); [by right|]. intros Hne. left. intros ->. done.
Qed.

Lemma root_cost_diff g g' n :
  0 <= n <= USIZE_MAX ->
  (let n := if bool_decide (g = []) && negb (bool_decide (g' = []))
            then wrapu 64 (n + ROOT_OVERHEAD) else n in
   if negb (bool_decide (g = [])) && bool_decide (g' = []) then wrapu 64 (n - ROOT_OVERHEAD) else n)
  = wrapu 64 (n + root_cost g' - root_cost g).
Proof.
  intros Hn. unfold root_cost. repeat case_bool_decide; cbn [andb negb]; rewrite ?Z.add_0_r, ?Z.sub_0_r.
  - by rewrite wrapu_small by mlia.
  - done.
  - done.
  - rewrite Z.add_simpl_r. by rewrite wrapu_small by mlia.
Qed.

Lemma apply_mutation_run m s i g :
  0 <= obytes s <= USIZE_MAX -> index s (key_group (mkey m)) = Ok i -> groups s !! i = Some g ->
  bt_sorted fst g ->
  apply_mutation m s = Ok (set_grp i (group_apply m g)
    (wrapu 64 (obytes s + group_cost (group_apply m g) - group_cost g)) s).
Proof.
  intros Hb Hi Hg Hs. unfold apply_mutation. rewrite Hi, outcome_bind_run, Hg.
  set (k := vdata (skey (mkey m))). unfold group_apply. fold k. unfold group_cost.
  assert (forall x, 0 <= wrapu 64 x <= USIZE_MAX) as Hw.
  { intros x. pose proof (wrapu_range 64 x ltac:(lia)). mlia. }
  destruct (mvalue m) as [v|]; [|destruct (map_get k g) as [old|] eqn:E].
  - rewrite map_insert_mem by done. unfold vlen.
    destruct (map_get k g) as [old|]; cbv zeta; f_equal; f_equal;
      (etransitivity; [apply root_cost_diff; apply Hw|]);
      rewrite <- Z.add_sub_assoc, wrapu_add; f_equal; lia.
  - rewrite (map_remove_mem _ _ _ Hs E). cbv zeta. f_equal. f_equal.
    etransitivity; [apply root_cost_diff; apply Hw|].
    rewrite <- Z.add_sub_assoc, wrapu_add. f_equal. lia.
  - cbv zeta. f_equal. f_equal. etransitivity; [by apply root_cost_diff|]. f_equal. lia.
Qed.

(** ** Whole batches *)

Definition mutation_ok (m : StateMutation) : Prop :=
  vec_ok (skey (mkey m)) /\ (forall v, mvalue m = Some v -> vec_ok v).

(** The key a mutation is about. *)
Definition mutation_slot (m : StateMutation) : Z * bytes := (key_group (mkey m), vdata (skey (mkey m))).

Lemma index_Ok s kg i :
  index s kg = Ok i <-> kg = first s + Z.of_nat i /\ (i < length (groups s))%nat.
Proof.
  unfold index, checked_sub, not_owned. pose proof (len_nonneg (groups s)).
  destruct (Z.leb_spec (first s) kg).
  - destruct (Z.ltb_spec (kg - first s) (len (groups s))); unfold len in *.
    + split; [intros; simplify_eq; lia|]. intros [-> ?]. f_equal. lia.
    + split; [done|lia].
  - split; [done|lia].
Qed.
Lemma index_owned s kg : (exists i, index s kg = Ok i) \/ index s kg = Err not_owned.
Proof. unfold index. repeat case_match; eauto. Qed.
Lemma index_lookup s kg i : index s kg = Ok i -> exists g, groups s !! i = Some g.
Proof. intros [_ Hi]%index_Ok. by apply lookup_lt_is_Some. Qed.
Lemma group_at_Ok s kg i g : index s kg = Ok i -> groups s !! i = Some g -> group_at s kg = Ok g.
Proof. intros Hi Hg. unfold group_at. by rewrite Hi, outcome_bind_run, Hg. Qed.

(** The groups that a batch makes non-empty. *)
Definition new_root_groups (s : OrderedMemoryKeyedState) (ms : list StateMutation) : list Z :=
  List.filter (fun g => match group_at s g with Ok [] => true | _ => false end)
    (remove_dups (map (fun m => key_group (mkey m)) (List.filter is_put ms))).

Lemma elem_of_new_roots s ms m i :
  m ∈ ms -> is_put m = true -> index s (key_group (mkey m)) = Ok i -> groups s !! i = Some [] ->
  key_group (mkey m) ∈ new_root_groups s ms.
Proof.
  intros Hm Hp Hi Hg. unfold new_root_groups. apply list_elem_of_In, filter_In. split.
  - apply list_elem_of_In, elem_of_remove_dups. apply list_elem_of_fmap. exists m. split; [done|].
    apply list_elem_of_In, filter_In. split; [by apply list_elem_of_In|done].
  - by rewrite (group_at_Ok s _ i []).
Qed.

Definition roots_in (f : Z) (R : list Z) (gs0 gs : list (list kv)) : Prop :=
  forall i g0 g, gs0 !! i = Some g0 -> gs !! i = Some g -> g <> [] -> g0 <> [] \/ f + Z.of_nat i ∈ R.

Lemma roots_bound_filter R gs0 : forall gs f,
  length gs = length gs0 -> roots_in f R gs0 gs ->
  zsum root_cost gs <=
    zsum root_cost gs0 + 1024 * Z.of_nat (length (filter (fun x => x ∈ R) (seqZ f (len gs0)))).
Proof.
  induction gs0 as [|g0 gs0 IH]; intros [|g gs] f Hlen Hr; try done.
  rewrite len_cons, seqZ_cons by (unfold len; lia).
  replace (Z.pred (1 + len gs0)) with (len gs0) by lia.
  specialize (IH gs (Z.succ f) ltac:(simpl in *; lia)).
  assert (roots_in (Z.succ f) R gs0 gs) as Hr'.
  { intros i a b Ha Hb Hne. destruct (Hr (S i) a b Ha Hb Hne) as [?|Hin]; [by left|right].
    by replace (Z.succ f + Z.of_nat i) with (f + Z.of_nat (S i)) by lia. }
  specialize (IH Hr'). specialize (Hr 0%nat g0 g eq_refl eq_refl). rewrite Z.add_0_r in Hr.
  cbn [zsum foldr]. change (foldr _ 0 gs) with (zsum root_cost gs).
  change (foldr _ 0 gs0) with (zsum root_cost gs0).
  pose proof (root_cost_range g). pose proof (root_cost_range g0).
  rewrite filter_cons. destruct (decide (f ∈ R)) as [Hin|Hni]; [simpl; lia|].
  assert (root_cost g <= root_cost g0); [|lia]. unfold root_cost at 1.
  case_bool_decide as Hg; [lia|]. destruct (Hr Hg) as [Hg0|]; [|done].
  unfold root_cost. by rewrite bool_decide_eq_false_2.
Qed.

Lemma roots_bound R gs0 gs f :
  length gs = length gs0 -> roots_in f R gs0 gs ->
  zsum root_cost gs <= zsum root_cost gs0 + 1024 * len R.
Proof.
  intros Hlen Hr. pose proof (roots_bound_filter R gs0 gs f Hlen Hr).
  assert (length (filter (fun x => x ∈ R) (seqZ f (len gs0))) <= length R)%nat; [|unfold len; lia].
  apply submseteq_length, NoDup_submseteq.
  - apply NoDup_filter, NoDup_seqZ.
  - intros x [Hx _]%list_elem_of_filter. done.
Qed.

Definition mem_sum (gs : list (list kv)) : Z := zsum (zsum entry_mem) gs.

Lemma footprint_split gs :
  ordered_footprint gs = size_of_group * len gs + zsum root_cost gs + mem_sum gs.
Proof.
  unfold ordered_footprint, mem_sum.
  pose proof (zsum_plus root_cost (zsum entry_mem) gs) as Hp.
  change (zsum (fun g => root_cost g + zsum entry_mem g) gs) with (zsum group_cost gs) in Hp. lia.
Qed.

Lemma ordered_footprint_nonneg gs : 0 <= ordered_footprint gs.
Proof.
  unfold ordered_footprint, size_of_group. pose proof (len_nonneg gs).
  assert (0 <= zsum group_cost gs); [|lia]. apply zsum_nonneg. intros g _. apply group_cost_nonneg.
Qed.

(** The backend without its credit: sorted maps and an exact byte count. *)
Record maps_ok (s : OrderedMemoryKeyedState) : Prop := {
  mo_first : 0 <= first s;
  mo_sorted : Forall (bt_sorted fst) (groups s);
  mo_bytes : obytes s = ordered_footprint (groups s);
}.

Definition kv_get (s : OrderedMemoryKeyedState) (kg : Z) (k : bytes) : option bytes :=
  match group_at s kg with Ok g => map_get k g | _ => None end.

(** The effect of the mutations on the mapping from (key group, key). *)
Fixpoint mutated (ms : list StateMutation) (f : Z -> bytes -> option bytes) (kg : Z) (k : bytes)
  : option bytes :=
  match ms with
  | [] => f kg k
  | m :: ms =>
      mutated ms (fun kg' k' =>
        if decide (kg' = key_group (mkey m) /\ k' = vdata (skey (mkey m)))
        then option_map vdata (mvalue m) else f kg' k') kg k
  end.

Lemma mutated_ext ms f f' kg k :
  (forall kg k, f kg k = f' kg k) -> mutated ms f kg k = mutated ms f' kg k.
Proof.
  revert f f'. induction ms as [|m ms IH]; intros f f' Hf; simpl; [done|].
  apply IH. intros. by case_decide.
Qed.

Lemma set_grp_index s i g n kg : index (set_grp i g n s) kg = index s kg.
Proof. unfold index; simpl. unfold len. by rewrite length_insert. Qed.

Lemma kv_get_set s kg i g g' n m :
  index s (key_group (mkey m)) = Ok i -> groups s !! i = Some g -> bt_sorted fst g ->
  g' = group_apply m g -> forall k,
  kv_get (set_grp i g' n s) kg k =
    if decide (kg = key_group (mkey m) /\ k = vdata (skey (mkey m)))
    then option_map vdata (mvalue m) else kv_get s kg k.
Proof.
  intros Hi Hg Hs -> k. unfold kv_get. destruct (index_owned s kg) as [[j Hj]|He].
  - destruct (index_lookup s kg j Hj) as [h Hh].
    rewrite (group_at_Ok s kg j h Hj Hh). apply index_Ok in Hi as Hi'. apply index_Ok in Hj as Hj'.
    destruct (decide (kg = key_group (mkey m))) as [->|Hne].
    + assert (j = i) as -> by lia. simplify_eq.
      rewrite (group_at_Ok _ _ i (group_apply m g)); [|by rewrite set_grp_index|simpl; apply list_lookup_insert_eq; lia].
      rewrite group_apply_get by done. by repeat case_decide; naive_solver.
    + rewrite (group_at_Ok _ _ j h); [|by rewrite set_grp_index|simpl; by rewrite list_lookup_insert_ne by lia].
      rewrite decide_False by naive_solver. done.
  - assert (kg <> key_group (mkey m)) as Hne by congruence.
    unfold group_at. rewrite set_grp_index, He. by rewrite decide_False by naive_solver.
Qed.

Lemma footprint_set s i g g' :
  groups s !! i = Some g ->
  ordered_footprint (<[i := g']> (groups s)) = ordered_footprint (groups s) + group_cost g' - group_cost g.
Proof.
  intros Hg. unfold ordered_footprint, len. rewrite length_insert.
  rewrite (zsum_insert group_cost _ i g) by done. lia.
Qed.

Lemma mem_sum_set s i g m :
  groups s !! i = Some g -> bt_sorted fst g ->
  mem_sum (<[i := group_apply m g]> (groups s)) <= mem_sum (groups s) + mutation_mem m.
Proof.
  intros Hg Hs. unfold mem_sum. rewrite (zsum_insert (zsum entry_mem) _ i g) by done.
  pose proof (group_apply_mem m g Hs). lia.
Qed.

(** A mutation that fits its admitted bound. *)
Lemma apply_mutation_ok s0 R m s i :
  maps_ok s -> index s (key_group (mkey m)) = Ok i ->
  length (groups s) = length (groups s0) -> first s = first s0 ->
  roots_in (first s0) R (groups s0) (groups s) ->
  (is_put m = true -> groups s0 !! i = Some [] -> key_group (mkey m) ∈ R) ->
  ordered_footprint (groups s) <= USIZE_MAX ->
  size_of_group * len (groups s0) + zsum root_cost (groups s0) + 1024 * len R +
    mem_sum (groups s) + mutation_mem m <= USIZE_MAX ->
  exists s', apply_mutation m s = Ok s' /\ maps_ok s' /\ reservation s' = reservation s /\
    first s' = first s0 /\ length (groups s') = length (groups s0) /\
    roots_in (first s0) R (groups s0) (groups s') /\
    mem_sum (groups s') <= mem_sum (groups s) + mutation_mem m /\
    ordered_footprint (groups s') <= USIZE_MAX /\
    forall kg k, kv_get s' kg k =
      if decide (kg = key_group (mkey m) /\ k = vdata (skey (mkey m)))
      then option_map vdata (mvalue m) else kv_get s kg k.
Proof.
  intros [Hf Hs Hb] Hi Hlen Hfirst Hroots HR Hfp Hbound.
  destruct (index_lookup s _ i Hi) as [g Hg].
  assert (bt_sorted fst g) as Hsg by (rewrite Forall_forall in Hs; by eapply Hs, list_elem_of_lookup_2).
  pose proof (ordered_footprint_nonneg (groups s)) as Hnn.
  pose proof (apply_mutation_run m s i g ltac:(lia) Hi Hg Hsg) as Hrun.
  assert (roots_in (first s0) R (groups s0) (<[i := group_apply m g]> (groups s))) as Hroots'.
  { intros j a c Ha Hc Hne. destruct (decide (i = j)) as [<-|Hij].
    - rewrite list_lookup_insert_eq in Hc by (by eapply lookup_lt_Some). simplify_eq.
      destruct (group_apply_nonempty m g Hne) as [Hgne|Hput]; [by eapply Hroots|].
      destruct (decide (a = [])) as [->|]; [|by left]. right.
      apply index_Ok in Hi as [Hkg _]. rewrite <- Hfirst, <- Hkg. by apply HR.
    - rewrite list_lookup_insert_ne in Hc by done. by eapply Hroots. }
  pose proof (mem_sum_set s i g m Hg Hsg) as Hmem.
  assert (length (<[i := group_apply m g]> (groups s)) = length (groups s0)) as Hlen'.
  { by rewrite length_insert. }
  pose proof (roots_bound R (groups s0) _ (first s0) Hlen' Hroots') as Hrb.
  pose proof (footprint_split (<[i := group_apply m g]> (groups s))) as Hsplit.
  pose proof (ordered_footprint_nonneg (<[i := group_apply m g]> (groups s))) as Hnn'.
  rewrite (footprint_set s i g _ Hg) in *. unfold len in Hsplit, Hbound at 1. rewrite Hlen' in Hsplit.
  eexists. split; [exact Hrun|]. split_and!; try done; try (simpl; lia).
  - split; simpl; [done|by apply Forall_insert, group_apply_sorted|].
    rewrite (footprint_set s i g _ Hg), Hb. apply wrapu_small. unfold len in *. mlia.
  - simpl. rewrite (footprint_set s i g _ Hg). unfold len in *. lia.
  - intros kg k. by eapply kv_get_set.
Qed.

Lemma mutation_mem_nonneg m : 0 <= mutation_mem m.
Proof.
  unfold mutation_mem, vlen, ENTRY_OVERHEAD. pose proof (len_nonneg (vdata (skey (mkey m)))).
  destruct (mvalue m) as [v|]; [pose proof (len_nonneg (vdata v))|]; lia.
Qed.
Lemma zsum_mutation_nonneg ms : 0 <= zsum mutation_mem ms.
Proof. apply zsum_nonneg. intros m _. apply mutation_mem_nonneg. Qed.

Lemma apply_mutations_ok `{Broker B} s0 R ms : forall s (b : B),
  maps_ok s -> length (groups s) = length (groups s0) -> first s = first s0 ->
  Forall (fun m => exists i, index s0 (key_group (mkey m)) = Ok i) ms ->
  roots_in (first s0) R (groups s0) (groups s) ->
  (forall m i, m ∈ ms -> is_put m = true -> index s0 (key_group (mkey m)) = Ok i ->
     groups s0 !! i = Some [] -> key_group (mkey m) ∈ R) ->
  ordered_footprint (groups s) <= USIZE_MAX ->
  size_of_group * len (groups s0) + zsum root_cost (groups s0) + 1024 * len R +
    mem_sum (groups s) + zsum mutation_mem ms <= USIZE_MAX ->
  exists s', apply_mutations ms (s, b) = (Ok tt, (s', b)) /\ maps_ok s' /\
    reservation s' = reservation s /\ first s' = first s0 /\
    length (groups s') = length (groups s0) /\ roots_in (first s0) R (groups s0) (groups s') /\
    mem_sum (groups s') <= mem_sum (groups s) + zsum mutation_mem ms /\
    forall kg k, kv_get s' kg k = mutated ms (kv_get s) kg k.
Proof.
  induction ms as [|m ms IH]; intros s b Hok Hlen Hf Hidx Hroots HR Hfp Hbound.
  { exists s. split_and!; try done. simpl. lia. }
  apply Forall_cons in Hidx as [[i Hi] Hidx].
  cbn [zsum foldr] in Hbound. change (foldr _ 0 ms) with (zsum mutation_mem ms) in Hbound.
  pose proof (zsum_mutation_nonneg ms) as Hnn.
  assert (index s (key_group (mkey m)) = Ok i) as Hi'.
  { apply index_Ok in Hi. apply index_Ok. by rewrite Hf, Hlen. }
  destruct (apply_mutation_ok s0 R m s i) as
    (s1 & E & Hok1 & Hr1 & Hf1 & Hl1 & Hroots1 & Hmem1 & Hfp1 & Hget); try done; [|lia|].
  { intros Hp Hg. eapply HR; [by constructor|done..]. }
  destruct (IH s1 b) as (s2 & E2 & Hok2 & Hr2 & Hf2 & Hl2 & Hroots2 & Hmem2 & Hget2); try done; [|lia|].
  { intros m' j Hm'. apply HR. by constructor. }
  exists s2. cbn [apply_mutations]. rewrite E. split_and!; try done; try congruence.
  - simpl. unfold zsum in *. lia.
  - intros kg k. rewrite Hget2. cbn [mutated]. apply mutated_ext. done.
Qed.

Lemma write_growth_spec s ms : forall n n',
  is_usize n -> Forall mutation_ok ms -> write_growth s ms n = Ok n' ->
  n <= n' <= USIZE_MAX /\ (n' < USIZE_MAX -> n + zsum mutation_mem ms <= n') /\
  Forall (fun m => exists i, index s (key_group (mkey m)) = Ok i) ms.
Proof.
  induction ms as [|m ms IH]; intros n n' Hn Hms Hg; simpl in Hg.
  { simplify_eq. split_and!; [mlia|mlia| |constructor]. simpl. lia. }
  apply Forall_cons in Hms as [[Hk Hv] Hms]. inv_M.
  assert (mutation_mem m <= match mvalue m with
     | Some v => vcap (skey (mkey m)) + vcap v + ENTRY_OVERHEAD | None => 0 end) as Hmem.
  { unfold mutation_mem, vlen, vec_ok in *. destruct (mvalue m) as [v|]; [|lia].
    specialize (Hv v eq_refl). lia. }
  pose proof (mutation_mem_nonneg m). pose proof (zsum_mutation_nonneg ms).
  apply IH in Hg as (Hr & Hlt & Hidx); [|unfold ENTRY_OVERHEAD in *; destruct (mvalue m); mlia|done].
  cbn [zsum foldr]. change (foldr _ 0 ms) with (zsum mutation_mem ms).
  split_and!; [| | |by constructor; eauto].
  - unfold ENTRY_OVERHEAD in *. destruct (mvalue m); mlia.
  - lia.
  - intros Hlt'. specialize (Hlt Hlt'). unfold ENTRY_OVERHEAD in *. destruct (mvalue m); mlia.
Qed.

Lemma write_growth_no_panic s ms n : write_growth s ms n <> Panic.
Proof.
  revert n. induction ms as [|m ms IH]; intros n; simpl; [done|].
  destruct (index_owned s (key_group (mkey m))) as [[i ->]| ->]; [|done]. apply IH.
Qed.

Section writes.
Context `{BrokerLaws B} {others : Z}.
Implicit Types (s : OrderedMemoryKeyedState) (b : B).

Record ordered_ok (s : OrderedMemoryKeyedState) (b : B) : Prop := OrderedOk {
  oo_maps : maps_ok s;
  oo_credit : obytes s <= rsize (reservation s) <= I64_MAX;
  oo_broker : reserved b = rsize (reservation s) + others /\ 0 <= others;
}.

Lemma ordered_resize_cases n s b :
  is_usize n -> ordered_ok s b ->
  exists o r' b', ordered_resize n (s, b) = (o, (set_resv r' s, b')) /\
    balanced (reservation s) b o r' b' /\ (o = Ok tt -> rsize r' = n) /\
    (ReleaseTotal B -> n <= rsize (reservation s) -> o = Ok tt).
Proof.
  intros Hn [Hm Hc Hb]. pose proof (ordered_footprint_nonneg (groups s)) as Hf. destruct Hm as [_ _ Hbytes].
  assert (rsize (reservation s) <= reserved b) as Hle by lia.
  pose proof (resize_balanced n (reservation s) b Hn ltac:(mlia) Hle) as Hbal.
  pose proof (fun (H : ReleaseTotal B) => resize_shrink n (reservation s) b) as Hs.
  unfold ordered_resize, zoom. destruct (resize n (reservation s, b)) as [o [r' b']].
  exists o, r', b'. destruct Hbal. split_and!; try done.
  intros Hrt Hnr. apply (Hs Hrt); [|lia]. unfold is_usize in Hn. lia.
Qed.

(** Credit for [n] bytes of maps, whatever the maps hold now. *)
Lemma ordered_resize_ok n s b o r' b' :
  ordered_ok s b -> balanced (reservation s) b o r' b' -> (o = Ok tt -> rsize r' = n) ->
  obytes s <= n -> ordered_ok (set_resv r' s) b' /\ (o = Ok tt -> n <= I64_MAX).
Proof.
  intros [Hm Hc [Hb Ho]] [Ht Hu Hp He _ Hmx] Hr Hle.
  destruct o as [[]|e|]; [|destruct (He e eq_refl) as [-> Hrb]; split; [split; [by destruct Hm|simpl; lia|simpl; lia]|done]|done].
  specialize (Hr eq_refl).
  assert (n <= I64_MAX) as Hmax.
  { destruct (Z.le_gt_cases n (rsize (reservation s))); [lia|].
    specialize (Hmx eq_refl ltac:(lia)). lia. }
  split; [|done]. split; [by destruct Hm|simpl; lia|simpl; lia].
Qed.

Definition write_post ms s (o : outcome unit) s' b' : Prop :=
  ordered_ok s' b' /\ first s' = first s /\ length (groups s') = length (groups s) /\
  match o with
  | Ok _ => rsize (reservation s') = obytes s' /\
      forall kg k, kv_get s' kg k = mutated ms (kv_get s) kg k
  | Err _ => ReleaseTotal B -> s' = s
  | Panic => False
  end.

Lemma write_batch_spec ms s b :
  ordered_ok s b -> Forall mutation_ok ms ->
  let '(o, (s', b')) := write_batch ms (s, b) in write_post ms s o s' b'.
Proof.
  intros Hok Hms. unfold write_batch. rewrite (M_bind_run _ _ _ s (s, b)) by done. cbn beta.
  pose proof (write_growth_no_panic s ms 0) as Hnp.
  destruct (write_growth s ms 0) as [growth|e|] eqn:Eg; [..|done].
  2:{ unfold mbind, M_bind, lift. by split_and!. }
  rewrite (M_bind_run _ _ _ growth (s, b)) by done.
  destruct (write_growth_spec s ms 0 growth ltac:(mlia) Hms Eg) as (Hgr & Hgm & Hidx).
  pose proof Hok as [[Hf Hs Hbytes] Hc Hb]. pose proof (ordered_footprint_nonneg (groups s)) as Hfp.
  assert (0 <= obytes s) as Hob by lia.
  assert (obytes s = size_of_group * len (groups s) + zsum root_cost (groups s) + mem_sum (groups s))
    as Hsp by (rewrite Hbytes; apply footprint_split).
  set (R := new_root_groups s ms). change (new_roots s ms) with (len R).
  pose proof (len_nonneg R) as HR0.
  set (n := sat_add (sat_add (obytes s) growth) (sat_mul (len R) 1024)).
  assert (is_usize n /\ obytes s <= n) as [Hn Hle] by (unfold n; mlia).
  destruct (ordered_resize_cases n s b Hn Hok) as (o1 & r1 & b1 & E1 & Hbal & Hr & _).
  destruct (ordered_resize_ok n s b o1 r1 b1 Hok Hbal Hr Hle) as [Hok1 Hmax].
  unfold mbind at 1, M_bind at 1. rewrite E1.
  destruct o1 as [[]|e|]; [| |by destruct Hbal].
  2:{ destruct (bal_err _ _ _ _ _ Hbal e eq_refl) as [-> _]. by destruct s. }
  specialize (Hmax eq_refl). specialize (Hr eq_refl).
  destruct (apply_mutations_ok s R ms (set_resv r1 s) b1)
    as (s2 & E2 & Hok2 & Hr2 & Hf2 & Hl2 & Hroots2 & Hmem2 & Hget2); try done.
  { intros i g0 g Hg0 Hg Hne. simpl in Hg. simplify_eq. by left. }
  { intros m i Hm Hp Hi Hg. by eapply elem_of_new_roots. }
  { simpl. mlia. }
  { simpl. unfold n in *. mlia. }
  rewrite (M_bind_run _ _ _ tt _ E2). rewrite (M_bind_run _ _ _ s2 (s2, b1)) by done. cbn beta.
  pose proof (roots_bound R (groups s) (groups s2) (first s) Hl2 Hroots2) as Hrb.
  assert (obytes s2 <= n) as Hle2.
  { rewrite (mo_bytes s2 Hok2), footprint_split. unfold len at 1. rewrite Hl2.
    simpl in Hmem2. unfold n in *. change (Z.of_nat (length (groups s))) with (len (groups s)). mlia. }
  simpl in Hr2. assert (ordered_ok s2 b1) as Hok3.
  { destruct Hok1 as [_ Hc1 Hb1]. simpl in *. split; [done| |]; rewrite Hr2; [lia|done]. }
  destruct (ordered_resize_cases (obytes s2) s2 b1) as (o3 & r3 & b3 & E3 & Hbal3 & Hr3 & Hrt3); [|done|].
  { pose proof (ordered_footprint_nonneg (groups s2)). rewrite (mo_bytes s2 Hok2) in *. mlia. }
  destruct (ordered_resize_ok (obytes s2) s2 b1 o3 r3 b3 Hok3 Hbal3 Hr3 (Z.le_refl _)) as [Hok4 _].
  rewrite E3. split_and!; try done. destruct o3 as [[]|e|]; [| |by destruct Hbal3].
  - split; [by apply Hr3|]. done.
  - intros Hrt. by specialize (Hrt3 Hrt ltac:(rewrite Hr2; lia)).
Qed.
End writes.
Arguments ordered_ok {B _ _} others s b.

(** ** Scans *)

Lemma zsum_filter_le (f : kv -> bool) l : zsum entry_cost (List.filter f l) <= zsum entry_cost l.
Proof.
  induction l as [|p l IH]; simpl; [done|]. pose proof (entry_cost_pos p).
  destruct (f p); simpl; unfold zsum in *; lia.
Qed.

Lemma range_entries_nil g start e :
  bytes_cmp start e <> Lt -> range_entries g start (Some e) = [].
Proof.
  intros Hge. unfold range_entries. induction g as [|[k v] g IH]; [done|].
  cbn [List.filter fst below].
  unfold at_or_after in *. destruct (bytes_cmp start k) eqn:E1; simpl; try done.
  - change (ocmp start k = Eq) in E1. apply bytes_ocmp_eq in E1 as ->.
    destruct (bytes_cmp k e); done.
  - destruct (bytes_cmp k e) eqn:E2; try done.
    exfalso. apply Hge. exact (ocmp_lt_trans start k e E1 E2).
Qed.

Lemma prefix_entries g prefix :
  range_entries g prefix (prefix_end prefix) = List.filter (fun p => starts_with p.1 prefix) g.
Proof. unfold range_entries. apply filter_ext. intros p. by rewrite starts_with_range. Qed.

(** The pages of a range scan; they do not depend on the visitor. *)
Definition scan_pages (g : list kv) (start : bytes) (e : option bytes) (rows bytes : Z) (allow : bool)
  : list (list kv) * option (list kv) :=
  paginate rows bytes allow [] 0 (range_entries g start e).

Lemma range_run {V} (visitor : list kv -> M V bool) s kg g start e rows bytes allow v :
  group_at s kg = Ok g -> 0 < rows -> 0 < bytes -> scan_ok g ->
  range visitor s kg start e rows bytes allow v =
    (let '(ps, tail) := scan_pages g start e rows bytes allow in visit_pages visitor ps tail v).
Proof.
  intros Hg Hr Hb Hscan. unfold range.
  rewrite (M_bind_run _ _ _ g v) by (unfold lift; by rewrite Hg).
  rewrite (M_bind_run _ _ _ tt v).
  2:{ unfold when. by rewrite (proj2 (Z.eqb_neq rows 0)), (proj2 (Z.eqb_neq bytes 0)) by lia. }
  unfold scan_pages. rewrite <- range_loop_pages; [|lia|].
  2:{ etransitivity; [apply zsum_filter_le|done]. }
  destruct e as [e|]; [|done].
  destruct (bytes_cmp start e) eqn:E; [|done|]; by rewrite range_entries_nil by (by rewrite E).
Qed.

Lemma scan_pages_ok g start e rows bytes allow :
  0 < rows -> scan_ok g ->
  let '(ps, tail) := scan_pages g start e rows bytes allow in
  pages_of rows bytes (range_entries g start e) ps tail /\ (allow = true -> tail <> None).
Proof.
  intros Hr Hscan. apply (paginate_ok rows bytes allow (range_entries g start e) Hr [] (or_introl eq_refl)).
  unfold scan_ok in *. etransitivity; [apply zsum_filter_le|done].
Qed.

(** A range scan of the ordered backend shows its visitor the entries with
    [start <= key < end], in byte order and each exactly once, in non-empty
    pages of at most [rows] entries and [bytes] bytes (a larger page is a single
    entry), and stops as soon as the visitor says so; an oversized entry is the
    only error, and cannot occur in an admitted scan. *)
Theorem ordered_range_pages {V} (visitor : list kv -> M V bool) s kg g start e rows bytes allow v :
  group_at s kg = Ok g -> 0 < rows -> 0 < bytes -> scan_ok g ->
  exists ps tail,
    range visitor s kg start e rows bytes allow v = visit_pages visitor ps tail v /\
    pages_of rows bytes (List.filter (fun p => at_or_after start p.1 && below e p.1) g) ps tail /\
    (allow = true -> tail <> None).
Proof.
  intros Hg Hr Hb Hscan. pose proof (scan_pages_ok g start e rows bytes allow Hr Hscan) as Hp.
  rewrite (range_run visitor s kg g) by done.
  destruct (scan_pages g start e rows bytes allow) as [ps tail]. by exists ps, tail.
Qed.

(** [visit_prefix] turns a prefix into the range [prefix, prefix_end) and so
    shows exactly the entries whose key starts with the prefix, in order, also
    when the prefix ends in 255 bytes and the range is unbounded. *)
Theorem ordered_prefix_exact {V} (visitor : list kv -> M V unit) s kg g prefix rows bytes v :
  group_at s kg = Ok g -> 0 < rows -> 0 < bytes -> scan_ok g ->
  exists ps tail,
    visit_prefix s kg prefix rows bytes visitor v =
      (_ ← visit_pages (keep_going visitor) ps tail; mret tt) v /\
    pages_of rows bytes (List.filter (fun p => starts_with p.1 prefix) g) ps tail.
Proof.
  intros Hg Hr Hb Hscan.
  pose proof (scan_pages_ok g prefix (prefix_end prefix) rows bytes false Hr Hscan) as Hp.
  unfold visit_prefix, visit_range, mbind, M_bind.
  rewrite (range_run (keep_going visitor) s kg g) by done. rewrite prefix_entries in Hp.
  destruct (scan_pages _ _ _ _ _ _) as [ps tail]. exists ps, tail. by destruct Hp.
Qed.

(** C4: a write batch of the ordered backend is atomic: it either applies all
    its mutations, in order (the last one on a key wins, [None] deletes), ends
    with the credit of exactly the maps it holds and leaves the broker's books
    balanced, or, on an unowned key group or denied memory, changes nothing. *)
Theorem ordered_write_atomic `{ReleaseTotal B} others ms (s : OrderedMemoryKeyedState) (b : B) :
  ordered_ok others s b -> Forall mutation_ok ms ->
  match write_batch ms (s, b) with
  | (Ok _, (s', b')) =>
      (forall kg k, kv_get s' kg k = mutated ms (kv_get s) kg k) /\
      Forall (bt_sorted fst) (groups s') /\
      rsize (reservation s') = ordered_footprint (groups s') /\
      reserved b' = ordered_footprint (groups s') + others
  | (Err _, (s', b')) => s' = s /\ reserved b' = reserved b
  | (Panic, _) => False
  end.
Proof.
  intros Hok Hms. pose proof (write_batch_spec ms s b Hok Hms) as Hp.
  destruct (write_batch ms (s, b)) as [[[]|e|] [s' b']]; destruct Hp as (Hok' & Hf & Hl & Hp); try done.
  - destruct Hp as [Hr Hget]. destruct Hok' as [[_ Hs Hb] _ [Hbr _]].
    split_and!; try done; [|rewrite Hbr]; by rewrite Hr, Hb.
  - specialize (Hp _). subst s'. split; [done|].
    destruct Hok as [_ _ [Hb _]], Hok' as [_ _ [Hb' _]]. lia.
Qed.
