(* ===== verification/KeyedState.v ===== *)
(** * The [KeyedState] interface and its clients

    The trait [KeyedState] of [state/mod.rs] as a class, what it promises as a
    class of laws, and the code written against it: [canonical_restore.rs],
    [checkpoint_import.rs], [checkpoint_source.rs], [batch_writer.rs],
    [read_keys.rs] and [snapshot_stream.rs]. The ordered backend is an instance. *)

From Stdlib Require Import ZArith Lia Strings.Byte.
From stdpp Require Import base list option numbers strings sorting.
From S2P Require Import Prelude Bytes OrdMap MemoryPool Snapshot OrderedState OrderedWrites.

(** ** The trait *)

Class KeyedState (S B : Type) `{Broker B} : Type := {
  ks_get_batch : S -> list StateKeyRef -> resv -> M B StateReadBatch;
  ks_write_batch : list StateMutation -> M (S * B) unit;
  ks_visit_key_group : forall V, S -> Z -> Z -> Z -> (list kv -> M V unit) -> M V unit;
  ks_visit_key_group_admitted :
    forall V, S -> Z -> Z -> Z -> resv -> (list kv -> M (V * B) unit) -> M (V * B) unit;
}.
Arguments ks_visit_key_group {S B _ _ V}.
Arguments ks_visit_key_group_admitted {S B _ _ V}.

#[global] Instance ordered_keyed_state `{Broker B} : KeyedState OrderedMemoryKeyedState B := {|
  ks_get_batch := get_batch;
  ks_write_batch := write_batch;
  ks_visit_key_group := fun V => visit_key_group;
  ks_visit_key_group_admitted := fun V s group rows bytes owner visitor =>
    visit_prefix_admitted s group [] rows owner visitor;
|}.

(** ** [snapshot_stream.rs]

    The sink is a callback over a state [V]. *)

Section stream.
Context {V : Type} (sink : bytes -> M V unit).

Definition stream_overflow : error := ResourcesExhausted "canonical snapshot size overflow".

Definition write_length (n : Z) : M V Z :=
  let header := if n <=? I32_MAX then 4 else 12 in
  framed ← lift (ok_or stream_overflow
    (match checked_add n header with
     | Some l => if l <=? I64_MAX then Some l else None
     | None => None
     end));
  _ ← (if header =? 4 then sink (i32_be n)
       else (_ ← sink (i32_be (-1)); sink (i64_be n)));
  mret framed.

Definition write_materialized (bs : bytes) : M V Z :=
  framed ← write_length (len bs);
  _ ← sink bs;
  mret framed.

Record Shape : Type := { shape_entries : Z; payload_bytes : Z }.
Definition shape_default : Shape := {| shape_entries := 0; payload_bytes := 0 |}.

Definition shape_add (key value : bytes) (s : Shape) : outcome Shape :=
  n ← ok_or stream_overflow (checked_add (shape_entries s) 1);
  p ← ok_or stream_overflow
        (p ← checked_add (payload_bytes s) 8;
         p ← checked_add p (len key);
         checked_add p (len value));
  Ok {| shape_entries := n; payload_bytes := p |}.

Fixpoint shape_of (es : list kv) (s : Shape) : outcome Shape :=
  match es with
  | [] => Ok s
  | (k, v) :: es => s ← shape_add k v s; shape_of es s
  end.

Definition shape_start (s : Shape) (group : Z) : M V Z :=
  n ← lift (ok_or stream_overflow (checked_add (payload_bytes s) 16));
  header ← lift (to_execution (key_group_snapshot_header group (shape_entries s) n));
  framed ← write_length n;
  _ ← sink header;
  mret framed.

Definition stream_entry (key value : bytes) : M V unit :=
  _ ← when (U32_MAX <? len key) stream_overflow;
  _ ← when (U32_MAX <? len value) stream_overflow;
  _ ← sink (u32_le (len key));
  _ ← sink key;
  _ ← sink (u32_le (len value));
  sink value.

Definition write_entries (group : Z) (es : list kv) : M V Z :=
  shape ← lift (shape_of es shape_default);
  n ← shape_start shape group;
  _ ← forM es (fun p => stream_entry p.1 p.2);
  mret n.
End stream.

(** [write_snapshot] of the ordered backend. *)
Definition write_snapshot {V} (s : OrderedMemoryKeyedState) (group : Z) (sink : bytes -> M V unit)
  : M V Z :=
  g ← lift (group_at s group); write_entries sink group g.

(** ** [canonical_restore.rs] and [checkpoint_import.rs] *)

(** The entries of a validated canonical frame, as the iterator yields them. *)
Definition frame_entries (group : Z) (bs : bytes) : outcome (list kv) :=
  it ← to_execution (key_group_snapshot_entries group bs);
  entries_collect (S (Z.to_nat (eremaining it))) it.

(** One write page: at most 1024 entries and 256 KiB (a larger entry alone). *)
Fixpoint take_page (count size : Z) (es : list kv) : list kv * list kv :=
  match es with
  | [] => ([], [])
  | (k, v) :: rest =>
      let next := sat_add (len k) (len v) in
      if negb (count =? 0) && (256 * 1024 <? sat_add size next) then ([], es)
      else if count + 1 =? 1024 then ([(k, v)], rest)
      else let '(page, rest) := take_page (count + 1) (sat_add size next) rest in
           ((k, v) :: page, rest)
  end.

Fixpoint page_bytes (page : list kv) (total : Z) : outcome Z :=
  match page with
  | [] => Ok total
  | (k, v) :: page =>
      n ← ok_or (ResourcesExhausted "checkpoint state write page size overflow")
            (p ← checked_add (len k) (len v);
             p ← checked_mul p 4;
             p ← checked_add p 384;
             checked_add total p);
      page_bytes page n
  end.

Definition put_of (group : Z) (p : kv) : StateMutation :=
  {| mkey := {| key_group := group; skey := to_vec p.1 |}; mvalue := Some (to_vec p.2) |}.

Section clients.
Context {St B : Type} `{Broker B} `{!KeyedState St B}.

Definition require_empty (group : Z) (owner : resv) : M (St * B) unit := fun '(s, b) =>
  with_scratch owner "checkpoint destination validation" 4096
    (ks_visit_key_group s group 1 4096
       (fun _ => throw (Execution "key group was restored more than once"))) (s, b).

Definition write_page (group : Z) (page : list kv) (owner : resv) : M (St * B) unit :=
  n ← lift (page_bytes page 4096);
  with_scratch owner "checkpoint state write page" n
    (ks_write_batch (map (put_of group) page)).

(** [while entries.peek().is_some()]: every round takes at least one entry. *)
Fixpoint restore_pages (fuel : nat) (group : Z) (es : list kv) (owner : resv) : M (St * B) unit :=
  match es with
  | [] => mret tt
  | _ =>
      match fuel with
      | O => panic
      | S fuel =>
          let '(page, rest) := take_page 0 0 es in
          _ ← write_page group page owner;
          restore_pages fuel group rest owner
      end
  end.

Definition restore (group : Z) (bs : bytes) (owner : resv) : M (St * B) unit :=
  es ← lift (frame_entries group bs);
  _ ← require_empty group owner;
  restore_pages (length es) group es owner.

(** The source may be another backend over the same broker. *)
Definition import_key_group {Src} `{!KeyedState Src B} (source : Src) (group : Z) (owner : resv)
    (validate : bytes -> bytes -> outcome unit) : M (St * B) unit :=
  _ ← require_empty group owner;
  ks_visit_key_group_admitted source group 1024 (256 * 1024) owner (fun page =>
    _ ← forM page (fun p => lift (validate p.1 p.2));
    write_page group page owner).

(** ** [checkpoint_source.rs] *)

Inductive CheckpointSource : Type :=
  | Canonical (bs : bytes)
  | Keyed (source : St).

Definition source_visit {V} (src : CheckpointSource) (group : Z) (owner : resv)
    (visitor : bytes -> bytes -> M (V * B) unit) : M (V * B) unit :=
  match src with
  | Canonical bs =>
      es ← lift (frame_entries group bs);
      forM es (fun p => visitor p.1 p.2)
  | Keyed source =>
      ks_visit_key_group_admitted source group 1024 (256 * 1024) owner (fun page =>
        forM page (fun p => visitor p.1 p.2))
  end.

(** [sort_unstable] of the keys and a look at neighbours. *)
Fixpoint insert_sorted (k : bytes) (ks : list bytes) : list bytes :=
  match ks with
  | [] => [k]
  | x :: ks => match bytes_cmp k x with Gt => x :: insert_sorted k ks | _ => k :: x :: ks end
  end.
Definition sort_keys (ks : list bytes) : list bytes := fold_right insert_sorted [] ks.
Fixpoint has_equal_neighbours (ks : list bytes) : bool :=
  match ks with
  | a :: ((b :: _) as ks) => bool_decide (a = b) || has_equal_neighbours ks
  | _ => false
  end.

Definition validate_unique_keys (src : CheckpointSource) (group : Z) (owner : resv)
  : M (unit * B) unit :=
  match src with
  | Keyed _ => mret tt
  | Canonical bs =>
      es ← lift (frame_entries group bs);
      with_scratch owner "checkpoint borrowed key validation" (sat_mul (len es) 32)
        (if has_equal_neighbours (sort_keys (map fst es))
         then throw (Execution "duplicate checkpoint key") else mret tt)
  end.

Definition with_value {V} (src : CheckpointSource) (group : Z) (key : bytes) (owner : resv)
    (visitor : option bytes -> M (V * B) unit) : M (V * B) unit :=
  match src with
  | Canonical bs =>
      es ← lift (frame_entries group bs);
      visitor (option_map snd (List.find (fun p => bool_decide (p.1 = key)) es))
  | Keyed source => fun '(v, b) =>
      match ks_get_batch source [{| r_key_group := group; r_key := key |}] owner b with
      | (Ok batch, b) =>
          match rb_values batch with
          | value :: _ =>
              let '(o, (v, b)) := visitor value (v, b) in
              match o with
              | Panic => (Panic, (v, b))
              | _ =>
                  match host_drop (rb_reservation batch) b with
                  | (Ok _, b) => (o, (v, b))
                  | (_, b) => (Panic, (v, b))
                  end
              end
          | [] => (Panic, (v, b))
          end
      | (Err e, b) => (Err e, (v, b))
      | (Panic, b) => (Panic, (v, b))
      end
  end.
End clients.
Arguments Canonical {St}.
Arguments Keyed {St}.
