(* ===== verification/Restore.v ===== *)
(** * Snapshot and restore through the [KeyedState] interface

    The promises of a backend as a class of laws, the ordered backend as an
    instance, and the theorems on canonical snapshots, streams, restores and
    imports, proved against the laws. *)

From Stdlib Require Import ZArith Lia Strings.Byte.
From stdpp Require Import base list option numbers strings sorting.
From S2P Require Import Prelude Bytes OrdMap MemoryPool Snapshot OrderedState OrderedWrites KeyedState.

(** ** What a backend promises *)

(** Non-empty pages of at most [rows] entries that show the entries in order, or
    a part of them before an error. *)
Definition pages_cover (rows : Z) (l : list kv) (ps : list (list kv)) (tail : option (list kv)) : Prop :=
  Forall (fun p => p <> [] /\ len p <= rows) ps /\
  match tail with
  | Some t => concat ps ++ t = l /\ len t <= rows
  | None => exists rest, l = concat ps ++ rest
  end.
Lemma pages_of_cover rows bytes l ps tail : 0 <= rows -> pages_of rows bytes l ps tail -> pages_cover rows l ps tail.
Proof.
  intros Hr [Hp Ht]. split; [eapply Forall_impl; [exact Hp|]; by intros p (? & ? & _)|].
  destruct tail as [t|]; [|by destruct Ht]. destruct Ht as [Hc [->|(_ & ? & _)]]; by split.
Qed.

Class KeyedStateLaws (St B : Type) `{KeyedState St B} `{!BrokerLaws B} : Type := {
  (** The state is well formed and the broker's books hold [others] bytes of
      other owners. *)
  ks_inv : Z -> St -> B -> Prop;
  ks_owned : St -> Z -> bool;
  ks_kv : St -> Z -> bytes -> option bytes;
  ks_others o s b : ks_inv o s b -> 0 <= o <= reserved b;
  ks_frame o s b b' d :
    ks_inv o s b -> reserved b' = reserved b + d -> 0 <= o + d -> ks_inv (o + d) s b';
  (** Batches the backend can admit before it touches anything; puts alone are. *)
  ks_batch_ok : list StateMutation -> Prop;
  ks_batch_app ms1 ms2 : ks_batch_ok (ms1 ++ ms2) -> ks_batch_ok ms1 /\ ks_batch_ok ms2;
  ks_batch_puts ms : Forall (fun m => is_put m = true) ms -> ks_batch_ok ms;
  ks_batch_distinct ms : NoDup (map mutation_slot ms) -> ks_batch_ok ms;
  (** A read batch has the value of every key, in order. *)
  ks_read o s b keys owner :
    ks_inv o s b ->
    match ks_get_batch s keys owner b with
    | (Ok rb, b') =>
        rb_values rb = map (fun k => ks_kv s (r_key_group k) (r_key k)) keys /\ 0 <= rsize (rb_reservation rb) /\
        reserved b' = reserved b + rsize (rb_reservation rb)
    | (Err _, b') => reserved b' = reserved b
    | (Panic, _) => False
    end;
  (** A write batch applies all mutations or none. *)
  ks_write o ms s b :
    ks_inv o s b -> Forall mutation_ok ms -> ks_batch_ok ms ->
    match ks_write_batch ms (s, b) with
    | (Ok _, (s', b')) =>
        ks_inv o s' b' /\ (forall kg, ks_owned s' kg = ks_owned s kg) /\
        forall kg k, ks_kv s' kg k = mutated ms (ks_kv s) kg k
    | (Err _, (s', b')) =>
        ks_inv o s' b' /\ (forall kg, ks_owned s' kg = ks_owned s kg) /\ forall kg k, ks_kv s' kg k = ks_kv s kg k
    | (Panic, _) => False
    end;
  (** A visit shows every entry of an owned group once. *)
  ks_visit o s b kg rows bytes :
    ks_inv o s b -> ks_owned s kg = true -> 0 < rows -> 0 < bytes <= I64_MAX ->
    exists l ps tail,
      (forall V (visitor : list kv -> M V unit) v,
         ks_visit_key_group s kg rows bytes visitor v =
           (_ ← visit_pages (keep_going visitor) ps tail; mret tt) v) /\
      pages_cover rows l ps tail /\ NoDup (map fst l) /\
      forall k v, (k, v) ∈ l <-> ks_kv s kg k = Some v;
}.

(** ** The ordered backend keeps them *)

Lemma scan_ok_mem g : zsum entry_mem g <= USIZE_MAX -> scan_ok g.
Proof.
  intros Hle. unfold scan_ok. etransitivity; [|exact Hle]. clear Hle.
  induction g as [|[k v] g IH]; [done|]. cbn [zsum foldr].
  change (foldr (fun a s => entry_cost a + s) 0 g) with (zsum entry_cost g).
  change (foldr (fun a s => entry_mem a + s) 0 g) with (zsum entry_mem g).
  assert (entry_cost (k, v) <= entry_mem (k, v)); [|lia].
  unfold entry_cost, entry_mem, ENTRY_OVERHEAD. pose proof (len_nonneg k). pose proof (len_nonneg v).
  simpl. mlia.
Qed.

Lemma ordered_group_scan `{BrokerLaws B} o s (b : B) i g :
  ordered_ok o s b -> groups s !! i = Some g -> scan_ok g /\ bt_sorted fst g.
Proof.
  intros [[Hf Hs Hb] Hc _] Hg. split.
  - apply scan_ok_mem. pose proof (zsum_lookup_le group_cost (groups s) i g) as Hle.
    specialize (Hle (fun a _ => group_cost_nonneg a) Hg). unfold ordered_footprint, size_of_group in Hb.
    pose proof (len_nonneg (groups s)). unfold group_cost in Hle at 1.
    pose proof (root_cost_range g). mlia.
  - rewrite Forall_forall in Hs. by eapply Hs, list_elem_of_lookup_2.
Qed.

Lemma sorted_keys_NoDup (g : list kv) : bt_sorted fst g -> NoDup (map fst g).
Proof.
  induction g as [|[k v] g IH]; [constructor|]. intros [Hk Hs]%bt_sorted_cons. simpl.
  constructor; [|auto]. intros (p & -> & Hp)%list_elem_of_fmap. specialize (Hk p Hp).
  simpl in Hk. by rewrite ocmp_refl in Hk.
Qed.

Lemma map_get_elem g k v : bt_sorted fst g -> (k, v) ∈ g <-> map_get k g = Some v.
Proof.
  intros Hs. split.
  - intros Hin. unfold map_get. by rewrite (bt_find_elem fst g (k, v) k Hs Hin (ocmp_refl k)).
  - intros (p & E & ->)%map_get_entry. by apply (bt_find_Some fst) in E as [? _].
Qed.

Lemma range_entries_all g : range_entries g [] None = g.
Proof.
  change (range_entries g [] (prefix_end []) = g). rewrite prefix_entries.
  induction g as [|p g IH]; [done|]. simpl in *. by rewrite IH.
Qed.

(** ** Reads *)

Section reads.
Context `{ReleaseTotal B}.

Lemma reserve_sibling_spec owner name n (b : B) :
  is_usize n -> 0 <= reserved b ->
  match reserve_sibling owner name n b with
  | (Ok r, b') => rsize r = n /\ reserved b' = reserved b + n
  | (Err _, b') => reserved b' = reserved b
  | (Panic, _) => False
  end.
Proof.
  intros Hn Hb. unfold reserve_sibling. set (r := sibling owner name).
  assert (is_usize (rsize r)) as Hr by (simpl; mlia).
  pose proof (resize_balanced n r b Hn Hr Hb) as Hbal.
  destruct (resize n (r, b)) as [[[]|e|] [r1 b1]]; destruct Hbal as [[Ht _ Hp He _ _] Hsz]; [| |done].
  - specialize (Hsz eq_refl). simpl in Ht. lia.
  - destruct (He e eq_refl) as [-> Hrb]. unfold fail_dropping, host_drop. done.
Qed.

Lemma group_at_no_panic s kg : group_at s kg <> Panic.
Proof.
  unfold group_at. destruct (index s kg) as [i| |] eqn:E; [|done|].
  - destruct (index_lookup s kg i E) as [g Hg]. cbn. by rewrite Hg.
  - unfold index in E. destruct (checked_sub _ _); [|done]. by destruct (_ <? _).
Qed.

(** Both in-memory backends admit the slots of a read and look every key up. *)
Lemma read_batch_law (f : StateKeyRef -> outcome (option bytes)) (kv : StateKeyRef -> option bytes) keys owner (b : B) :
  0 <= reserved b -> (forall k, match f k with Ok v => v = kv k | Err _ => True | Panic => False end) ->
  match (r ← read_admit (len keys) owner;
         match collect f keys with
         | Ok values => mret {| rb_values := values; rb_reservation := r |}
         | Err e => fail_dropping r e
         | Panic => panic
         end) b with
  | (Ok rb, b') => rb_values rb = map kv keys /\ 0 <= rsize (rb_reservation rb) /\ reserved b' = reserved b + rsize (rb_reservation rb)
  | (Err _, b') => reserved b' = reserved b
  | (Panic, _) => False
  end.
Proof.
  intros Hb Hf. unfold read_admit. set (n := sat_mul _ _).
  assert (is_usize n) as Hn by (unfold n, size_of_read_slot; pose proof (len_nonneg keys); mlia).
  pose proof (reserve_sibling_spec owner "native state read result slots" n b Hn Hb) as Hr. unfold mbind, M_bind.
  destruct (reserve_sibling _ _ _ _) as [[r|e|] b1]; [|done|done]. destruct Hr as [Hr Hb1].
  assert (match collect f keys with Ok values => values = map kv keys | Err _ => True | Panic => False end) as Hc.
  { clear -Hf. induction keys as [|k keys IH]; [done|]. cbn [collect map]. specialize (Hf k). destruct (f k) as [v| |]; [|done..].
    cbn [mbind outcome_bind]. destruct (collect f keys); [|done..]. cbn. by subst. }
  destruct (collect f keys) as [values|e|]; [|unfold fail_dropping|done].
  - cbn. subst values. unfold is_usize in Hn. split_and!; [done|lia|lia].
  - destruct (host_drop_total r b1) as (b2 & -> & Hb2); [unfold is_usize in Hn; lia|]. cbn. lia.
Qed.
End reads.

Definition ordered_owned (s : OrderedMemoryKeyedState) (kg : Z) : bool :=
  match index s kg with Ok _ => true | _ => false end.

Section ordered_laws.
Context `{ReleaseTotal B}.
Implicit Types (s : OrderedMemoryKeyedState) (b : B).

Lemma ordered_others o s b : ordered_ok o s b -> 0 <= o <= reserved b.
Proof.
  intros [Hm Hc Hb]. pose proof (ordered_footprint_nonneg (groups s)). destruct Hm as [_ _ Hm]. lia.
Qed.

Lemma ordered_frame o s b b' d :
  ordered_ok o s b -> reserved b' = reserved b + d -> 0 <= o + d -> ordered_ok (o + d) s b'.
Proof. intros [Hm Hc Hb] Hd Ho. split; try done. lia. Qed.

Lemma ordered_write_law o ms s b :
  ordered_ok o s b -> Forall mutation_ok ms -> True ->
  match write_batch ms (s, b) with
  | (Ok _, (s', b')) =>
      ordered_ok o s' b' /\ (forall kg, ordered_owned s' kg = ordered_owned s kg) /\
      forall kg k, kv_get s' kg k = mutated ms (kv_get s) kg k
  | (Err _, (s', b')) =>
      ordered_ok o s' b' /\ (forall kg, ordered_owned s' kg = ordered_owned s kg) /\ forall kg k, kv_get s' kg k = kv_get s kg k
  | (Panic, _) => False
  end.
Proof.
  intros Hok Hms _. pose proof (write_batch_spec ms s b Hok Hms) as Hp.
  destruct (write_batch ms (s, b)) as [[[]|e|] [s' b']]; destruct Hp as (Hok' & Hf & Hl & Hp); try done.
  - destruct Hp as [Hr Hget]. split_and!; [done| |done]. intros kg.
    unfold ordered_owned, index, len. by rewrite Hf, Hl.
  - specialize (Hp _). by subst s'.
Qed.

Lemma ordered_read_law o s b keys owner : ordered_ok o s b ->
  match get_batch s keys owner b with
  | (Ok rb, b') =>
      rb_values rb = map (fun k => kv_get s (r_key_group k) (r_key k)) keys /\ 0 <= rsize (rb_reservation rb) /\
      reserved b' = reserved b + rsize (rb_reservation rb)
  | (Err _, b') => reserved b' = reserved b
  | (Panic, _) => False
  end.
Proof.
  intros Hok. apply (read_batch_law (lookup_key s)); [apply ordered_others in Hok; lia|]. intros k. unfold lookup_key, kv_get.
  pose proof (group_at_no_panic s (r_key_group k)) as Hn. by destruct (group_at s (r_key_group k)).
Qed.

Lemma ordered_visit_law o s b kg rows bytes :
  ordered_ok o s b -> ordered_owned s kg = true -> 0 < rows -> 0 < bytes <= I64_MAX ->
  exists l ps tail,
    (forall V (visitor : list kv -> M V unit) v,
       visit_key_group s kg rows bytes visitor v =
         (_ ← visit_pages (keep_going visitor) ps tail; mret tt) v) /\
    pages_cover rows l ps tail /\ NoDup (map fst l) /\
    forall k v, (k, v) ∈ l <-> kv_get s kg k = Some v.
Proof.
  intros Hok Hown Hr [Hb _]. unfold ordered_owned in Hown.
  destruct (index s kg) as [i| |] eqn:Hi; [|done..]. destruct (index_lookup s kg i Hi) as [g Hg].
  destruct (ordered_group_scan o s b i g Hok Hg) as [Hscan Hs].
  pose proof (scan_pages_ok g [] None rows bytes false Hr Hscan) as Hp.
  pose proof (fun V visitor v => range_run (V := V) visitor s kg g [] None rows bytes false v
                (group_at_Ok s kg i g Hi Hg) Hr Hb Hscan) as Hrun.
  destruct (scan_pages g [] None rows bytes false) as [ps tail].
  exists g, ps, tail. rewrite range_entries_all in Hp.
  split_and!; [|destruct Hp as [Hp _]; eapply pages_of_cover; [lia|exact Hp]|by apply sorted_keys_NoDup|].
  - intros V visitor v. unfold visit_key_group, visit_range, mbind, M_bind. by rewrite Hrun.
  - intros k v. unfold kv_get. rewrite (group_at_Ok s kg i g Hi Hg). by apply map_get_elem.
Qed.
End ordered_laws.

#[global] Instance ordered_laws `{ReleaseTotal B} : KeyedStateLaws OrderedMemoryKeyedState B := {|
  ks_inv := ordered_ok;
  ks_owned := ordered_owned;
  ks_kv := kv_get;
  ks_others := ordered_others;
  ks_frame := ordered_frame;
  ks_batch_ok := fun _ => True;
  ks_batch_app := fun _ _ _ => conj I I;
  ks_batch_puts := fun _ _ => I;
  ks_batch_distinct := fun _ _ => I;
  ks_read := ordered_read_law;
  ks_write := ordered_write_law;
  ks_visit := ordered_visit_law;
|}.

(** ** Scratch reservations *)

Section scratch.
Context `{ReleaseTotal B}.

(** A scratch reservation is refused, or it is held around the body and given
    back, whatever the body returns. *)
Lemma with_scratch_cases {V A} owner name n (body : M (V * B) A) v (b : B) :
  is_usize n -> 0 <= reserved b ->
  (exists e b1, with_scratch owner name n body (v, b) = (Err e, (v, b1)) /\
     reserved b1 = reserved b) \/
  (exists b1, reserved b1 = reserved b + n /\
     let '(o, (v', b2)) := body (v, b1) in
     n <= reserved b2 -> o <> Panic ->
     exists b3, with_scratch owner name n body (v, b) = (o, (v', b3)) /\
       reserved b3 = reserved b2 - n).
Proof.
  intros Hn Hb. unfold with_scratch, scoped. set (r := sibling owner name).
  assert (is_usize (rsize r)) as Hr by (simpl; mlia).
  pose proof (resize_balanced n r b Hn Hr Hb) as Hbal.
  destruct (resize n (r, b)) as [[[]|e|] [r1 b1]]; destruct Hbal as [[Ht _ Hp He _ _] Hsz]; [right|left|done].
  - specialize (Hsz eq_refl). simpl in Ht. exists b1. split; [lia|].
    destruct (body (v, b1)) as [o [v' b2]]. intros Hle Ho.
    destruct (host_drop_total r1 b2) as (b3 & E & Hb3); [mlia|].
    rewrite Hsz in Hb3.
    exists b3. rewrite E. by destruct o.
  - destruct (He e eq_refl) as [-> Hrb]. exists e, b1. by rewrite Hrb.
Qed.
End scratch.

(** ** Pages and mutations *)

Lemma mutated_app ms1 ms2 f kg k : mutated (ms1 ++ ms2) f kg k = mutated ms2 (mutated ms1 f) kg k.
Proof.
  revert f. induction ms1 as [|m ms1 IH]; intros f; simpl; [done|]. apply IH.
Qed.

Lemma take_page_app es : forall c sz p r,
  take_page c sz es = (p, r) -> es = p ++ r /\ (c = 0 -> es <> [] -> p <> []).
Proof.
  induction es as [|[k v] es IH]; intros c sz p r; simpl; [intros; by simplify_eq|].
  destruct (_ && _) eqn:E1.
  { intros; simplify_eq. split; [done|]. intros ->. done. }
  destruct (c + 1 =? 1024); [by intros; simplify_eq|].
  destruct (take_page (c + 1) _ es) as [p' r'] eqn:E. intros; simplify_eq.
  apply IH in E as [-> _]. done.
Qed.

Lemma page_bytes_usize page : forall n n', is_usize n -> page_bytes page n = Ok n' -> is_usize n'.
Proof.
  induction page as [|[k v] page IH]; intros n n' Hn; simpl; [intros; by simplify_eq|].
  intros E. inv_M. eapply IH; [|exact E]. pose proof (len_nonneg k). pose proof (len_nonneg v).
  unfold ok_or in E0. destruct (checked_add (len k) (len v)) as [p1|] eqn:E1; simpl in E0; [|done].
  destruct (checked_mul p1 4) as [p2|] eqn:E2; simpl in E0; [|done].
  destruct (checked_add p2 384) as [p3|] eqn:E3; simpl in E0; [|done].
  destruct (checked_add n p3) as [p4|] eqn:E4; simpl in E0; [|done]. simplify_eq.
  apply checked_add_Some in E1, E3, E4. unfold checked_mul in E2. case_bool; simplify_eq. mlia.
Qed.

Lemma page_bytes_no_panic page n : page_bytes page n <> Panic.
Proof.
  revert n. induction page as [|[k v] page IH]; intros n; simpl; [done|].
  unfold ok_or. destruct (_ : option Z); simpl; [apply IH|done].
Qed.

Definition slices_ok (es : list kv) : Prop := Forall (fun p => slice_ok p.1 /\ slice_ok p.2) es.

Lemma put_of_ok kg es : slices_ok es -> Forall mutation_ok (map (put_of kg) es).
Proof.
  intros Hes. apply Forall_map. eapply Forall_impl; [exact Hes|]. intros [k v] [Hk Hv].
  unfold slice_ok in *. simpl in *. split; simpl; [unfold vec_ok; simpl; lia|].
  intros ? [= <-]. unfold vec_ok; simpl. lia.
Qed.

Lemma put_of_puts kg es : Forall (fun m => is_put m = true) (map (put_of kg) es).
Proof. apply Forall_map. by apply Forall_true. Qed.

(** ** Clients of the interface *)

Section clients.
Context {St B : Type} `{KeyedStateLaws St B} `{!ReleaseTotal B}.
Implicit Types (s : St) (b : B).

Lemma ks_reserved o s b : ks_inv o s b -> 0 <= reserved b.
Proof. intros Hi. pose proof (ks_others o s b Hi). lia. Qed.

(** Running a state computation under a scratch reservation. *)
Lemma with_scratch_inv owner name n (body : M (St * B) unit) s b
    (P : outcome unit -> St -> Prop) o :
  is_usize n -> ks_inv o s b -> (forall e, P (Err e) s) ->
  (forall b1, ks_inv (o + n) s b1 ->
     let '(x, (s', b2)) := body (s, b1) in ks_inv (o + n) s' b2 /\ x <> Panic /\ P x s') ->
  let '(x, (s', b')) := with_scratch owner name n body (s, b) in
  ks_inv o s' b' /\ x <> Panic /\ P x s'.
Proof.
  intros Hn Hi He Hbody. pose proof (ks_reserved o s b Hi) as Hr. pose proof (ks_others o s b Hi) as Ho.
  destruct (with_scratch_cases owner name n body s b Hn Hr) as [(e & b1 & -> & Hb)|(b1 & Hb1 & Hc)].
  - split_and!; [|done|done]. replace o with (o + 0) by lia. by apply (ks_frame o s b b1 0); [|lia|lia].
  - specialize (Hbody b1). destruct (body (s, b1)) as [x [s' b2]].
    destruct Hbody as (Hi2 & Hx & HP); [apply (ks_frame o s b b1 n); [done|lia|mlia]|].
    pose proof (ks_others (o + n) s' b2 Hi2) as Ho2.
    destruct Hc as (b3 & -> & Hb3); [lia|done|]. split_and!; [|done|done].
    replace o with (o + n + - n) by lia. apply (ks_frame (o + n) s' b2 b3 (- n)); [done|lia|lia].
Qed.

Lemma require_empty_spec o s b kg owner :
  ks_inv o s b -> ks_owned s kg = true ->
  let '(x, (s', b')) := require_empty kg owner (s, b) in
  ks_inv o s' b' /\ x <> Panic /\
  (s' = s /\ (x = Ok tt -> forall k, ks_kv s kg k = None)).
Proof.
  intros Hi Hown. unfold require_empty.
  destruct (ks_visit o s b kg 1 4096 Hi Hown) as (l & ps & tail & Hv & Hp & _ & Hl); [lia|mlia|].
  apply (with_scratch_inv _ _ _ _ s b (fun x s' => s' = s /\ (x = Ok tt -> forall k, ks_kv s kg k = None)) o);
    [mlia|done|done|].
  intros b1 Hi1. rewrite Hv. unfold mbind at 1, M_bind at 1.
  destruct ps as [|p ps]; [destruct tail as [[|q t]|]|]; try done.
  cbn [visit_pages mret M_ret]. split_and!; [done|done|done|].
  intros _ k. destruct Hp as [_ [Hcat _]]. simpl in Hcat. subst l.
  destruct (ks_kv s kg k) as [v|] eqn:E; [|done]. apply Hl in E. by apply elem_of_nil in E.
Qed.

Definition applied kg (es : list kv) s s' : Prop :=
  (forall kg', ks_owned s' kg' = ks_owned s kg') /\
  forall kg' k, ks_kv s' kg' k = mutated (map (put_of kg) es) (ks_kv s) kg' k.

Lemma applied_nil kg s : applied kg [] s s.
Proof. done. Qed.
Lemma applied_app kg es1 es2 s s1 s2 :
  applied kg es1 s s1 -> applied kg es2 s1 s2 -> applied kg (es1 ++ es2) s s2.
Proof.
  intros [O1 K1] [O2 K2]. split; [intros; by rewrite O2, O1|]. intros kg' k.
  rewrite K2, map_app, mutated_app. by apply mutated_ext.
Qed.

Lemma write_page_spec o s b kg page owner :
  ks_inv o s b -> slices_ok page ->
  let '(x, (s', b')) := write_page kg page owner (s, b) in
  ks_inv o s' b' /\ x <> Panic /\
  match x with Ok _ => applied kg page s s' | _ => applied kg [] s s' end.
Proof.
  intros Hi Hp. unfold write_page. pose proof (page_bytes_no_panic page 4096) as Hnp.
  destruct (page_bytes page 4096) as [n|e|] eqn:En; [|by split_and!|done].
  rewrite (M_bind_run _ _ _ n (s, b)) by done.
  apply (with_scratch_inv _ _ _ _ s b
           (fun x s' => match x with Ok _ => applied kg page s s' | _ => applied kg [] s s' end) o);
    [eapply page_bytes_usize; [|exact En]; mlia|done|done|].
  intros b1 Hi1. pose proof (ks_write (o + n) (map (put_of kg) page) s b1 Hi1 (put_of_ok kg page Hp) (ks_batch_puts _ (put_of_puts kg page))) as Hw.
  destruct (ks_write_batch _ _) as [[[]|e|] [s' b']]; try done.
  - destruct Hw as (Hi' & Ho' & Hk'). by split_and!.
  - destruct Hw as (Hi' & Ho' & Hk'). by split_and!.
Qed.

Lemma restore_pages_spec o kg owner es fuel : forall s b,
  (length es <= fuel)%nat -> ks_inv o s b -> slices_ok es ->
  let '(x, (s', b')) := restore_pages fuel kg es owner (s, b) in
  ks_inv o s' b' /\ x <> Panic /\
  exists es1 es2, es = es1 ++ es2 /\ applied kg es1 s s' /\ (x = Ok tt -> es2 = []).
Proof.
  revert es. induction fuel as [|fuel IH]; intros es s b Hf Hi Hes.
  { destruct es; [|simpl in Hf; lia]. cbn. split_and!; [done|done|]. by exists [], []. }
  destruct es as [|p0 es]; [cbn; split_and!; [done|done|]; by exists [], []|].
  cbn [restore_pages]. destruct (take_page 0 0 (p0 :: es)) as [page rest] eqn:Et.
  apply take_page_app in Et as [Heq Hne]. specialize (Hne eq_refl ltac:(done)).
  rewrite Heq in *. apply Forall_app in Hes as [Hpage Hrest].
  pose proof (write_page_spec o s b kg page owner Hi Hpage) as Hw.
  unfold mbind, M_bind. destruct (write_page kg page owner (s, b)) as [[[]|e|] [s1 b1]].
  - destruct Hw as (Hi1 & _ & Ha1).
    assert (length rest <= fuel)%nat as Hf'.
    { rewrite length_app in Hf. destruct page; [done|]. simpl in Hf. lia. }
    specialize (IH rest s1 b1 Hf' Hi1 Hrest).
    destruct (restore_pages fuel kg rest owner (s1, b1)) as [x [s2 b2]].
    destruct IH as (Hi2 & Hx & es1 & es2 & -> & Ha2 & Hok). split_and!; [done|done|].
    exists (page ++ es1), es2. rewrite <- app_assoc. split_and!; [done| |done]. by eapply applied_app.
  - destruct Hw as (Hi1 & _ & Ha). split_and!; [done|done|]. exists [], (page ++ rest).
    by split_and!.
  - by destruct Hw as (_ & ? & _).
Qed.
End clients.

(** ** Canonical frames *)

Lemma frame_entries_frame kg es :
  entries_ok es -> is_u32 kg -> slice_ok (frame kg es) -> frame_entries kg (frame kg es) = Ok es.
Proof.
  intros Hes Hkg Hok. unfold frame_entries, key_group_snapshot_entries.
  pose proof (validate_frame kg es [] Hes Hkg) as Hv. rewrite app_nil_r in Hv. rewrite Hv by done.
  rewrite outcome_bind_run. cbn [to_execution]. rewrite outcome_bind_run. cbn [eremaining].
  rewrite len_to_nat.
  assert ({| ibytes := frame kg es; ioff := 16 |} = cursor (header_bytes kg (len es)) (payload es)) as ->.
  { unfold cursor. by rewrite header_len. }
  by apply entries_collect_run; destruct Hes.
Qed.

(** Bytes that are not a frame of the key group are refused by the validation. *)
Lemma frame_entries_cases kg bs :
  is_u32 kg -> slice_ok bs ->
  (exists es, entries_ok es /\ bs = frame kg es /\ frame_entries kg bs = Ok es) \/
  (exists e, frame_entries kg bs = Err e).
Proof.
  intros Hkg Hok. destruct (validate_key_group_snapshot kg bs) as [n|e|] eqn:E; [left|right|].
  - apply validate_inv in E as (es & -> & Hes & _). exists es. eauto using frame_entries_frame.
  - eexists. unfold frame_entries, key_group_snapshot_entries. by rewrite E.
  - by apply validate_no_panic in E.
Qed.

Lemma payload_slices es bs : slice_ok (bs ++ payload es) -> slices_ok es.
Proof.
  revert bs. induction es as [|[k v] es IH]; intros bs Hok; [constructor|].
  rewrite payload_cons in Hok. constructor; simpl.
  - unfold slice_ok in *. rewrite !len_app, entry_bytes_len in Hok. simpl in Hok.
    pose proof (len_nonneg bs). pose proof (len_nonneg k). pose proof (len_nonneg v).
    pose proof (len_nonneg (payload es)). lia.
  - apply (IH (bs ++ entry_bytes (k, v))). by rewrite <- app_assoc.
Qed.

Lemma mutated_puts kg f k es :
  NoDup (map fst es) ->
  (forall v, (k, v) ∈ es -> mutated (map (put_of kg) es) f kg k = Some v) /\
  ((forall v, (k, v) ∉ es) -> mutated (map (put_of kg) es) f kg k = f kg k).
Proof.
  revert f. induction es as [|[k' v'] es IH]; intros f Hnd; simpl.
  { split; [by intros v ?%elem_of_nil|done]. }
  apply NoDup_cons in Hnd as [Hni Hnd]. specialize (IH (fun kg' k0 =>
    if decide (kg' = kg /\ k0 = k') then Some v' else f kg' k0) Hnd). simpl in IH.
  destruct IH as [IH1 IH2]. split.
  - intros v [[= -> ->]|Hin]%elem_of_cons; [|by apply IH1].
    rewrite IH2; [by rewrite decide_True|]. intros v Hin. apply Hni.
    apply list_elem_of_fmap. by exists (k', v).
  - intros Hno. rewrite IH2.
    + rewrite decide_False; [done|]. intros [_ ->]. apply (Hno v'). constructor.
    + intros v Hin. apply (Hno v). by constructor.
Qed.

Lemma mutated_other ms f kg k :
  (forall m, m ∈ ms -> kg <> key_group (mkey m)) -> mutated ms f kg k = f kg k.
Proof.
  revert f. induction ms as [|m ms IH]; intros f Hne; simpl; [done|].
  rewrite IH by (intros; apply Hne; by constructor).
  rewrite decide_False; [done|]. intros [? _]. by apply (Hne m); [constructor|].
Qed.

Lemma mutated_puts_elem (kg : Z) (k : bytes) (es : list kv) :
  (exists v, (k, v) ∈ es) \/ (forall v, (k, v) ∉ es).
Proof.
  induction es as [|[k' v'] es [[v Hin]|IH]].
  - right. by intros v ?%elem_of_nil.
  - left. exists v. by constructor.
  - destruct (decide (k = k')) as [->|Hne]; [left; exists v'; constructor|right].
    intros v [[= -> ->]|Hin]%elem_of_cons; [done|by apply (IH v)].
Qed.

Section restore.
Context {St B : Type} `{KeyedStateLaws St B} `{!ReleaseTotal B}.

Lemma restore_spec o s (b : B) kg es owner :
  ks_inv o s b -> ks_owned s kg = true -> is_u32 kg -> entries_ok es -> slice_ok (frame kg es) ->
  let '(x, (s', b')) := restore kg (frame kg es) owner (s, b) in
  ks_inv o s' b' /\ x <> Panic /\
  (x = Ok tt -> (forall k, ks_kv s kg k = None) /\ applied kg es s s').
Proof.
  intros Hi Hown Hkg Hes Hok. unfold restore.
  rewrite (M_bind_run _ _ _ es (s, b)) by (unfold lift; by rewrite frame_entries_frame).
  pose proof (require_empty_spec o s b kg owner Hi Hown) as Hr.
  unfold mbind, M_bind. destruct (require_empty kg owner (s, b)) as [[[]|e|] [s1 b1]];
    destruct Hr as (Hi1 & Hx & -> & He); [|by split_and!|done].
  pose proof (restore_pages_spec o kg owner es (length es) s b1 (Nat.le_refl _) Hi1
                (payload_slices es _ Hok)) as Hp.
  destruct (restore_pages _ _ _ _ _) as [x [s2 b2]].
  destruct Hp as (Hi2 & Hx2 & es1 & es2 & -> & Ha & Hend). split_and!; [done|done|].
  intros ->. specialize (Hend eq_refl). subst es2. rewrite app_nil_r. auto.
Qed.

(** C9: restoring a canonical snapshot into a backend that keeps the laws of
    [KeyedState]: a success proves the key group was empty and leaves exactly
    the entries of the snapshot in it and every other key group as it was; a
    failure never panics and leaves the memory accounts balanced; bytes that
    are not a canonical snapshot of this key group are refused before anything
    is touched. *)
Theorem restore_installs_snapshot (o : Z) (s : St) (b : B) kg bs owner :
  ks_inv o s b -> ks_owned s kg = true -> is_u32 kg -> slice_ok bs ->
  match restore kg bs owner (s, b) with
  | (Ok _, (s', b')) =>
      exists es, encode_key_group_snapshot kg es = Ok bs /\ ks_inv o s' b' /\
        (forall k, ks_kv s kg k = None) /\
        (forall kg' k, kg' <> kg -> ks_kv s' kg' k = ks_kv s kg' k) /\
        (NoDup (map fst es) -> forall k v, ks_kv s' kg k = Some v <-> (k, v) ∈ es)
  | (Err _, (s', b')) =>
      ks_inv o s' b' /\ ((forall es, encode_key_group_snapshot kg es <> Ok bs) -> s' = s /\ b' = b)
  | (Panic, _) => False
  end.
Proof.
  intros Hi Hown Hkg Hok.
  destruct (frame_entries_cases kg bs Hkg Hok) as [(es & Hes & -> & _)|[e He]].
  - pose proof (restore_spec o s b kg es owner Hi Hown Hkg Hes Hok) as Hs.
    destruct (restore kg (frame kg es) owner (s, b)) as [[[]|e|] [s' b']];
      destruct Hs as (Hi' & Hx & Hs); [| |done].
    + destruct (Hs eq_refl) as [Hnone [_ Hkv]]. exists es. split_and!; [by apply encode_spec|done|done| |].
      * intros kg' k Hne. rewrite Hkv. apply mutated_other. intros m (p & -> & _)%list_elem_of_fmap. done.
      * intros Hnd k v. rewrite Hkv. destruct (mutated_puts kg (ks_kv s) k es Hnd) as [Hm1 Hm2].
        split; [|apply Hm1]. intros Hm. destruct (mutated_puts_elem kg k es) as [[v' Hin]|Hno].
        -- rewrite (Hm1 v' Hin) in Hm. by simplify_eq.
        -- rewrite (Hm2 Hno), Hnone in Hm. done.
    + split; [done|]. intros Hno. exfalso. apply (Hno es). by apply encode_spec.
  - unfold restore. unfold mbind, M_bind, lift. rewrite He. done.
Qed.
End restore.

(** ** Snapshots of the ordered backend *)

Lemma snapshot_size_frame kg g :
  len (frame kg g) <= USIZE_MAX -> snapshot_bytes_size g = len (frame kg g).
Proof.
  unfold snapshot_bytes_size, frame. rewrite len_app, header_len, payload_len. intros Hle.
  assert (forall n, 0 <= n <= USIZE_MAX ->
    fold_left (fun n (p : kv) => sat_add n (8 + len p.1 + len p.2)) g n =
      Z.min (n + zsum (fun e => 8 + len e.1 + len e.2) g) USIZE_MAX) as Hf; [|rewrite Hf; mlia].
  clear Hle. induction g as [|p g IH]; intros n Hn; simpl; [lia|].
  assert (0 <= zsum (fun e : kv => 8 + len e.1 + len e.2) g).
  { apply zsum_nonneg. intros e _. pose proof (len_nonneg e.1). pose proof (len_nonneg e.2). lia. }
  pose proof (len_nonneg p.1). pose proof (len_nonneg p.2). rewrite IH by mlia. mlia.
Qed.

Lemma to_execution_Ok {A} (o : outcome A) a : to_execution o = Ok a <-> o = Ok a.
Proof. by destruct o. Qed.

Lemma to_execution_bind {A C} (m : outcome A) (k : A -> outcome C) :
  (a ← to_execution m; to_execution (k a)) = to_execution (m ≫= k).
Proof. by destruct m. Qed.

Lemma encode_group_writer kg n g :
  encode_group kg n g =
    to_execution (w ← writer_new kg (len g) n; w ← writer_append_all g w; writer_finish w).
Proof.
  unfold encode_group. rewrite <- to_execution_bind. destruct (writer_new kg (len g) n) as [w| |]; [|done..].
  cbn [to_execution]. rewrite !outcome_bind_run. apply to_execution_bind.
Qed.

Lemma encode_group_Ok kg n g bs :
  is_usize n -> is_usize (len g) ->
  encode_group kg n g = Ok bs <-> entries_ok g /\ bs = frame kg g /\ n = len bs.
Proof.
  intros Hn Hg. rewrite encode_group_writer, to_execution_Ok, writer_encodes, encode_spec by done.
  naive_solver.
Qed.

Lemma writer_append_all_no_panic es w : writer_append_all es w <> Panic.
Proof.
  revert w. induction es as [|[k v] es IH]; intros w; simpl; [done|].
  destruct (writer_append k v w) as [w'| |] eqn:E; [apply IH|done|].
  revert E. unfold writer_append, ok_or, mbind, outcome_bind. by repeat case_match.
Qed.

Lemma encode_group_no_panic kg n g : encode_group kg n g <> Panic.
Proof.
  rewrite encode_group_writer. intros E.
  assert ((w ← writer_new kg (len g) n; w ← writer_append_all g w; writer_finish w) = Panic) as Ep
    by (by destruct (_ ≫= _)).
  unfold writer_new, key_group_snapshot_header in Ep.
  destruct (U32_MAX <? len g); [done|]. destruct (_ || _); [done|]. rewrite !outcome_bind_run in Ep.
  destruct (writer_append_all g _) as [w| |] eqn:Ea; [|done|by apply writer_append_all_no_panic in Ea].
  rewrite outcome_bind_run in Ep. unfold writer_finish in Ep. by destruct (_ || _).
Qed.

Lemma frame_len_mem kg g : len (frame kg g) <= 16 + zsum entry_mem g.
Proof.
  unfold frame. rewrite len_app, header_len, payload_len.
  assert (zsum (fun e => 8 + len e.1 + len e.2) g <= zsum entry_mem g); [|lia].
  induction g as [|[k v] g IH]; simpl; [done|]. unfold entry_mem at 1, ENTRY_OVERHEAD; simpl.
  unfold zsum in *. lia.
Qed.

Section snapshot.
Context `{ReleaseTotal B}.

Lemma snapshot_spec o s (b : B) kg g owner :
  ordered_ok o s b -> group_at s kg = Ok g -> is_u32 kg ->
  match snapshot_key_group s kg owner b with
  | (Ok sb, b') =>
      entries_ok g /\ sb_bytes sb = frame kg g /\ rsize (sb_reservation sb) = len (sb_bytes sb) /\
      reserved b' = reserved b + len (sb_bytes sb)
  | (Err _, b') => reserved b' = reserved b
  | (Panic, _) => False
  end.
Proof.
  intros Hok Hg Hkg. unfold snapshot_key_group.
  rewrite (M_bind_run _ _ _ g b) by (unfold lift; by rewrite Hg).
  assert (exists i, groups s !! i = Some g) as [i Hi].
  { unfold group_at in Hg. apply outcome_bind_Ok in Hg as (i & _ & Hg).
    exists i. destruct (groups s !! i); by simplify_eq. }
  assert (zsum entry_mem g <= I64_MAX) as Hmem.
  { destruct Hok as [[Hf Hs Hb] Hc _]. pose proof (zsum_lookup_le group_cost (groups s) i g) as Hle.
    specialize (Hle (fun a _ => group_cost_nonneg a) Hi). unfold ordered_footprint, size_of_group in Hb.
    pose proof (len_nonneg (groups s)). unfold group_cost in Hle at 1. pose proof (root_cost_range g). lia. }
  pose proof (frame_len_mem kg g) as Hfl. pose proof (len_nonneg (frame kg g)) as Hf0.
  assert (is_usize (len g)) as Hlg.
  { unfold frame in Hfl. rewrite len_app, header_len in Hfl. pose proof (payload_len_ge g).
    pose proof (len_nonneg g). mlia. }
  cbv zeta. rewrite (snapshot_size_frame kg) by mlia.
  pose proof (ordered_others o s b Hok) as Ho.
  assert (is_usize (len (frame kg g))) as Hus by mlia. assert (0 <= reserved b) as Hb0 by lia.
  pose proof (reserve_sibling_spec owner "ordered state snapshot" (len (frame kg g)) b Hus Hb0) as Hr.
  unfold mbind, M_bind. destruct (reserve_sibling _ _ _ _) as [[r|e|] b1]; [|done|done].
  destruct Hr as [Hr Hb1].
  destruct (encode_group kg (len (frame kg g)) g) as [bs|e|] eqn:Ee.
  - apply encode_group_Ok in Ee as (Hes & -> & _); [|mlia|done]. split_and!; done.
  - unfold fail_dropping.
    destruct (host_drop_total r b1) as (b2 & -> & Hb2); [lia|]. simpl. lia.
  - by apply encode_group_no_panic in Ee.
Qed.
End snapshot.

(** ** Round trips *)

(** Putting the entries of a sorted group into an empty one. *)
Lemma puts_read kg f (g : list kv) k :
  bt_sorted fst g -> (forall k, f kg k = None) -> mutated (map (put_of kg) g) f kg k = map_get k g.
Proof.
  intros Hsg Hnone. destruct (mutated_puts kg f k g (sorted_keys_NoDup g Hsg)) as [Hm1 Hm2].
  destruct (mutated_puts_elem kg k g) as [[v Hin]|Hno].
  - rewrite (Hm1 v Hin). symmetry. by apply map_get_elem.
  - rewrite (Hm2 Hno), Hnone. destruct (map_get k g) as [v|] eqn:E; [|done].
    exfalso. apply (Hno v). by apply map_get_elem.
Qed.

(** C7: a key group moves between backends: the canonical snapshot of the
    ordered backend, restored into any backend that keeps the laws of
    [KeyedState], gives a key group with exactly the same mapping, and the
    snapshot's reservation is the size of its bytes. *)
Theorem snapshot_moves_key_group {St B : Type} `{KeyedStateLaws St B} `{!ReleaseTotal B}
    (o o' : Z) (src : OrderedMemoryKeyedState) (dst : St) (b b1 : B) kg g owner sb :
  ordered_ok o src b -> group_at src kg = Ok g -> is_u32 kg ->
  OrderedState.snapshot_key_group src kg owner b = (Ok sb, b1) -> slice_ok (sb_bytes sb) ->
  ks_inv o' dst b1 -> ks_owned dst kg = true ->
  rsize (sb_reservation sb) = len (sb_bytes sb) /\
  match restore kg (sb_bytes sb) owner (dst, b1) with
  | (Ok _, (dst', b2)) => ks_inv o' dst' b2 /\ forall k, ks_kv dst' kg k = kv_get src kg k
  | (Err _, (dst', b2)) => ks_inv o' dst' b2
  | (Panic, _) => False
  end.
Proof.
  intros Hok Hg Hkg Hsnap Hsl Hi Hown.
  pose proof (snapshot_spec o src b kg g owner Hok Hg Hkg) as Hs. rewrite Hsnap in Hs.
  destruct Hs as (Hes & Hbs & Hr & _). split; [done|]. rewrite Hbs in *.
  pose proof (restore_spec o' dst b1 kg g owner Hi Hown Hkg Hes Hsl) as Hrs.
  destruct (restore kg (frame kg g) owner (dst, b1)) as [[[]|e|] [dst' b2]];
    destruct Hrs as (Hi' & Hx & Hrs); [|done|done].
  split; [done|]. intros k. destruct (Hrs eq_refl) as [Hnone [_ Hkv]]. rewrite Hkv.
  unfold kv_get. rewrite Hg. apply puts_read; [|done].
  unfold group_at in Hg. apply outcome_bind_Ok in Hg as (i & _ & Hgi).
  destruct (groups src !! i) as [g'|] eqn:Egi; [|done]. simplify_eq.
  by destruct (ordered_group_scan o src b i g Hok Egi).
Qed.

(** *** The stream *)

(** A sink that records what it is given. *)
Definition recorder : bytes -> M bytes unit := fun bs => modS (fun out => out ++ bs).

Lemma recorder_run bs out : recorder bs out = (Ok tt, out ++ bs).
Proof. done. Qed.

Definition length_prefix (n : Z) : bytes :=
  if n <=? I32_MAX then i32_be n else i32_be (-1) ++ i64_be n.

Lemma write_length_records n out :
  0 <= n -> n + 12 <= I64_MAX ->
  write_length recorder n out =
    (Ok (n + (if n <=? I32_MAX then 4 else 12)), out ++ length_prefix n).
Proof.
  intros Hn Hle. unfold write_length, length_prefix. destruct (Z.leb_spec n I32_MAX); cbv zeta.
  - rewrite checked_add_small by mlia. rewrite (proj2 (Z.leb_le _ I64_MAX)) by mlia. done.
  - rewrite checked_add_small by mlia. rewrite (proj2 (Z.leb_le _ I64_MAX)) by mlia. cbn [ok_or].
    change (12 =? 4) with false. unfold mbind, M_bind, recorder, modS, lift, mret, M_ret.
    by rewrite <- app_assoc.
Qed.

Lemma shape_of_spec es : forall s,
  0 <= shape_entries s -> 0 <= payload_bytes s ->
  shape_entries s + len es <= USIZE_MAX -> payload_bytes s + len (payload es) <= USIZE_MAX ->
  shape_of es s = Ok {| shape_entries := shape_entries s + len es;
                        payload_bytes := payload_bytes s + len (payload es) |}.
Proof.
  induction es as [|[k v] es IH]; intros s H1 H2 H3 H4; cbn [shape_of].
  { change (len (@nil kv)) with 0. change (len (payload [])) with 0. rewrite !Z.add_0_r. by destruct s. }
  rewrite len_cons in H3. rewrite payload_cons, len_app, entry_bytes_len in H4. cbn [fst snd] in H4.
  pose proof (len_nonneg es). pose proof (len_nonneg (payload es)).
  pose proof (len_nonneg k). pose proof (len_nonneg v).
  unfold shape_add, ok_or, mbind, outcome_bind, option_bind.
  repeat (rewrite checked_add_small by lia; cbn beta iota).
  rewrite IH; cbn [shape_entries payload_bytes]; [|lia..].
  f_equal. rewrite len_cons, payload_cons, len_app, entry_bytes_len. cbn [fst snd]. f_equal; lia.
Qed.

Lemma stream_entries_record es out :
  Forall entry_ok es ->
  forM es (fun p => stream_entry recorder p.1 p.2) out = (Ok tt, out ++ payload es).
Proof.
  intros Hes. revert out. induction Hes as [|[k v] es [Hk Hv] Hes IH]; intros out; cbn [forM].
  { change (payload []) with (@nil byte). by rewrite app_nil_r. }
  rewrite (M_bind_run _ _ _ tt (out ++ entry_bytes (k, v))).
  - rewrite IH, payload_cons. by rewrite <- app_assoc.
  - unfold stream_entry, entry_bytes. cbn [fst snd] in *.
    rewrite (proj2 (Z.ltb_ge _ _)), (proj2 (Z.ltb_ge _ _)) by done.
    unfold when, mbind, M_bind, recorder, modS, mret, M_ret. cbn [fst snd]. by rewrite <- !app_assoc.
Qed.

(** The streaming writer produces, without materialising it, the length
    prefix and the bytes of the canonical snapshot; this is what
    [write_materialized] writes for the materialised snapshot, and the returned
    size is the number of bytes written. *)
Theorem stream_writes_canonical_frame (s : OrderedMemoryKeyedState) kg (g : list kv) bs (out : bytes) :
  group_at s kg = Ok g -> encode_key_group_snapshot kg g = Ok bs -> len bs + 12 <= I64_MAX ->
  write_snapshot s kg recorder out =
    (Ok (len (length_prefix (len bs) ++ bs)), out ++ length_prefix (len bs) ++ bs) /\
  write_materialized recorder bs out = write_snapshot s kg recorder out.
Proof.
  intros Hg [Hes ->]%encode_spec Hle. pose proof (len_nonneg (frame kg g)) as Hf0.
  assert (len (length_prefix (len (frame kg g)) ++ frame kg g) =
    len (frame kg g) + (if len (frame kg g) <=? I32_MAX then 4 else 12)) as Hlen.
  { rewrite len_app. unfold length_prefix. destruct (_ <=? _); rewrite ?len_app; unfold len at 1;
      [rewrite i32_be_length|unfold len at 1; rewrite i32_be_length, i64_be_length]; lia. }
  assert (write_snapshot s kg recorder out =
    (Ok (len (length_prefix (len (frame kg g)) ++ frame kg g)),
     out ++ length_prefix (len (frame kg g)) ++ frame kg g)) as E.
  { unfold write_snapshot. rewrite (M_bind_run _ _ _ g out) by (unfold lift; by rewrite Hg).
    unfold write_entries. destruct Hes as [Hes Hn].
    pose proof (payload_len_ge g) as Hge. pose proof (len_nonneg g) as Hg0.
    assert (len (frame kg g) = len (payload g) + 16) as Hfl
      by (unfold frame; rewrite len_app, header_len; lia).
    rewrite (M_bind_run _ _ _ {| shape_entries := len g; payload_bytes := len (payload g) |} out).
    2:{ unfold lift. by rewrite shape_of_spec by (cbn [shape_entries payload_bytes shape_default]; mlia). }
    unfold shape_start. cbn [shape_entries payload_bytes]. rewrite checked_add_small by mlia.
    rewrite <- Hfl. unfold key_group_snapshot_header. rewrite (proj2 (Z.ltb_ge U32_MAX _)) by lia.
    unfold mbind, M_bind, lift, to_execution. cbn [ok_or].
    rewrite (proj2 (Z.ltb_ge _ 16)) by mlia.
    rewrite (proj2 (Z.ltb_ge (_ / 8) _)) by (apply Z.div_le_lower_bound; lia). cbn [orb].
    rewrite write_length_records by (done || lia).
    rewrite recorder_run. unfold mret, M_ret. rewrite stream_entries_record by done.
    unfold mret, M_ret. rewrite Hlen. f_equal. unfold frame, header_bytes. by rewrite <- !app_assoc. }
  split; [done|]. rewrite E. unfold write_materialized, mbind, M_bind.
  rewrite write_length_records by (done || lia). unfold recorder, modS, mret, M_ret.
  by rewrite Hlen, <- app_assoc.
Qed.
