(* ===== verification/BatchWriter.v ===== *)
(** * Buffered writes: [state/batch_writer.rs]

    [StateBatchWriter] collects mutations, flushes them to a backend in bounded
    pages and keeps its buffers charged. Against the laws of [KeyedState] the
    buffering is invisible: after [finish] the backend holds exactly the effect
    of the pushed mutations, in order. *)

From Stdlib Require Import ZArith Lia Strings.Byte.
From stdpp Require Import base list option numbers strings sorting.
From S2P Require Import Prelude Bytes OrdMap MemoryPool Snapshot OrderedState OrderedWrites KeyedState Restore.

Definition WRITE_ROWS : Z := 4096.
Definition WRITE_BYTES : Z := 256 * 1024.
(** [size_of::<StateMutation>()] on a 64-bit target. *)
Definition size_of_mutation : Z := 56.

Record StateBatchWriter : Type := {
  bw_memory : resv;
  bw_retained : Z;
  bw_pending : list StateMutation;
  (** the capacity of the [pending] vector *)
  bw_capacity : Z;
  bw_bytes : Z;
  bw_writes : Z;
}.

Definition set_memory (r : resv) (w : StateBatchWriter) : StateBatchWriter :=
  {| bw_memory := r; bw_retained := bw_retained w; bw_pending := bw_pending w;
     bw_capacity := bw_capacity w; bw_bytes := bw_bytes w; bw_writes := bw_writes w |}.
Definition set_retained (n : Z) (w : StateBatchWriter) : StateBatchWriter :=
  {| bw_memory := bw_memory w; bw_retained := n; bw_pending := bw_pending w;
     bw_capacity := bw_capacity w; bw_bytes := bw_bytes w; bw_writes := bw_writes w |}.
(** [std::mem::take(&mut self.pending)]. *)
Definition take_pending (w : StateBatchWriter) : StateBatchWriter :=
  {| bw_memory := bw_memory w; bw_retained := bw_retained w; bw_pending := [];
     bw_capacity := 0; bw_bytes := bw_bytes w; bw_writes := bw_writes w |}.
(** [self.bytes = 0; *self.writes = self.writes.saturating_add(1)]. *)
Definition count_write (w : StateBatchWriter) : StateBatchWriter :=
  {| bw_memory := bw_memory w; bw_retained := bw_retained w; bw_pending := bw_pending w;
     bw_capacity := bw_capacity w; bw_bytes := 0;
     bw_writes := Z.min (bw_writes w + 1) U64_MAX |}.

Definition is_exhausted (e : error) : bool :=
  match e with ResourcesExhausted _ => true | _ => false end.

Section writer.
Context {St B : Type} `{Broker B} `{!KeyedState St B}.
(** How [Vec::push] grows a vector of a given length and capacity. *)
Context (grown : Z -> Z -> Z).

Abbreviation W := (M (StateBatchWriter * (St * B))).

Definition bw_resize (n : Z) : W unit := fun '(w, (s, b)) =>
  let '(o, (r, b')) := resize n (bw_memory w, b) in (o, (set_memory r w, (s, b'))).

Definition batch_writer_new (memory : resv) (retained writes : Z) (b : B)
  : outcome StateBatchWriter * (resv * B) :=
  let '(o, (r, b')) := resize retained (memory, b) in
  ((fun _ => {| bw_memory := r; bw_retained := retained; bw_pending := []; bw_capacity := 0;
                bw_bytes := 0; bw_writes := writes |}) <$> o, (r, b')).

Definition release_retained (n : Z) (w : StateBatchWriter) : StateBatchWriter :=
  set_retained (sat_sub (bw_retained w) n) w.

Definition bw_bound (w : StateBatchWriter) (bytes rows extra : Z) : Z :=
  sat_add (sat_add (sat_add (sat_add (bw_retained w) (sat_mul bytes 4)) (sat_mul rows 512)) extra)
    65536.

Definition bw_admit (bytes rows extra : Z) : W unit := fun '(w, (s, b)) =>
  let required := bw_bound w bytes rows extra in
  if rsize (bw_memory w) <? required then
    let rounded := match checked_add required 65535 with
                   | Some n => n / 65536 * 65536
                   | None => required
                   end in
    match bw_resize rounded (w, (s, b)) with
    | (Err e, (w, (s, b))) =>
        if negb (is_exhausted e) || (rounded =? required) || negb (bool_decide (bw_pending w = []))
        then (Err e, (w, (s, b)))
        else bw_resize required (w, (s, b))
    | r => r
    end
  else (Ok tt, (w, (s, b))).

Definition flush (extra : Z) : W unit := fun '(w, (s, b)) =>
  match bw_pending w with
  | [] => (Ok tt, (w, (s, b)))
  | _ =>
      match bw_resize (sat_add (sat_add (sat_add (sat_add (bw_retained w) (bw_bytes w))
                         (sat_mul (bw_capacity w) size_of_mutation)) extra) 65536) (w, (s, b)) with
      | (Ok _, (w, (s, b))) =>
          let '(o, (s, b)) := ks_write_batch (bw_pending w) (s, b) in
          match o with
          | Ok _ => (Ok tt, (count_write (take_pending w), (s, b)))
          | Err e => (Err e, (take_pending w, (s, b)))
          | Panic => (Panic, (take_pending w, (s, b)))
          end
      | r => r
      end
  end.

(** [Err(ResourcesExhausted(_)) if !self.pending.is_empty()]: flush, then ask
    again; any other error is returned. *)
Definition flush_and_retry (e : error) (flush_extra bytes rows extra : Z) : W unit :=
  fun '(w, (s, b)) =>
    if is_exhausted e && negb (bool_decide (bw_pending w = []))
    then (_ ← flush flush_extra; bw_admit bytes rows extra) (w, (s, b))
    else (Err e, (w, (s, b))).

Definition admit_extra (extra : Z) : W unit := fun '(w, (s, b)) =>
  match bw_admit (bw_bytes w) (len (bw_pending w)) extra (w, (s, b)) with
  | (Err e, (w, (s, b))) => flush_and_retry e 0 0 0 extra (w, (s, b))
  | r => r
  end.

Definition push_pending (m : StateMutation) (w : StateBatchWriter) : StateBatchWriter :=
  {| bw_memory := bw_memory w; bw_retained := bw_retained w;
     bw_pending := bw_pending w ++ [m];
     bw_capacity := grown (len (bw_pending w)) (bw_capacity w);
     bw_bytes := sat_add (bw_bytes w)
       (sat_add (vcap (skey (mkey m))) (match mvalue m with Some v => vcap v | None => 0 end));
     bw_writes := bw_writes w |}.

Definition flush_if_full (bytes extra : Z) : W unit := fun '(w, sb) =>
  if negb (bool_decide (bw_pending w = [])) &&
     ((len (bw_pending w) =? WRITE_ROWS) || (WRITE_BYTES <? sat_add (bw_bytes w) bytes))
  then flush extra (w, sb) else (Ok tt, (w, sb)).

Definition push (bytes extra : Z) (encode : outcome StateMutation) : W unit :=
  _ ← flush_if_full bytes extra;
  _ ← (fun '(w, (s, b)) =>
    match bw_admit (sat_add (bw_bytes w) bytes) (len (bw_pending w) + 1) extra (w, (s, b)) with
    | (Err e, (w, (s, b))) => flush_and_retry e extra bytes 1 extra (w, (s, b))
    | r => r
    end);
  mutation ← lift encode;
  modS (fun '(w, sb) => (push_pending mutation w, sb)).

Definition finish : W unit :=
  _ ← modS (fun '(w, sb) => (set_retained 0 w, sb));
  _ ← flush 0;
  bw_resize 0.
End writer.

Section buffered.
Context {St B : Type} `{KeyedStateLaws St B} `{!ReleaseTotal B}.
Context (grown : Z -> Z -> Z) (base : Z).
Implicit Types (w : StateBatchWriter) (s : St) (b : B).

(** The backend and the writer's buffers share the broker with [base] bytes
    of other owners. *)
Record writer_ok (w : StateBatchWriter) (s : St) (b : B) : Prop := {
  wo_inv : ks_inv (base + rsize (bw_memory w)) s b;
  wo_size : is_usize (rsize (bw_memory w));
  wo_base : 0 <= base;
  wo_pending : Forall mutation_ok (bw_pending w) /\ ks_batch_ok (bw_pending w);
  wo_fields : 0 <= bw_retained w /\ 0 <= bw_bytes w /\ 0 <= bw_capacity w;
}.

(** From [w] and [s], the mutations [ms] were accepted: those no longer
    pending have reached the backend, in order. *)
Definition delivered w s ms w' s' : Prop :=
  (forall kg, ks_owned s' kg = ks_owned s kg) /\
  exists flushed, bw_pending w ++ ms = flushed ++ bw_pending w' /\
    forall kg k, ks_kv s' kg k = mutated flushed (ks_kv s) kg k.

Lemma delivered_id w w' s : bw_pending w' = bw_pending w -> delivered w s [] w' s.
Proof. intros Hp. split; [done|]. exists []. by rewrite Hp, app_nil_r. Qed.

Lemma delivered_trans w s ms1 w1 s1 ms2 w2 s2 :
  delivered w s ms1 w1 s1 -> delivered w1 s1 ms2 w2 s2 -> delivered w s (ms1 ++ ms2) w2 s2.
Proof.
  intros [O1 (f1 & E1 & K1)] [O2 (f2 & E2 & K2)]. split; [intros; by rewrite O2, O1|].
  exists (f1 ++ f2). split; [by rewrite app_assoc, E1, <- app_assoc, E2, app_assoc|].
  intros kg k. rewrite K2, mutated_app. by apply mutated_ext.
Qed.

Definition writer_post w s ms (o : outcome unit) w' s' b' : Prop :=
  writer_ok w' s' b' /\ o <> Panic /\ (o = Ok tt -> delivered w s ms w' s').

Lemma bw_resize_spec n w s b :
  is_usize n -> writer_ok w s b ->
  let '(o, (w', (s', b'))) := bw_resize n (w, (s, b)) in
  writer_post w s [] o w' s' b' /\ s' = s /\ bw_pending w' = bw_pending w /\
  bw_retained w' = bw_retained w /\ bw_bytes w' = bw_bytes w /\
  (o = Ok tt -> rsize (bw_memory w') = n).
Proof.
  intros Hn [Hi Hu Hb Hp Hf]. unfold bw_resize. pose proof (ks_others _ _ _ Hi) as Ho.
  assert (rsize (bw_memory w) <= reserved b) as Hle by lia.
  pose proof (resize_balanced n (bw_memory w) b Hn Hu Hle) as Hbal.
  destruct (resize n (bw_memory w, b)) as [o [r b']]. destruct Hbal as [[Ht Hu' Hnp _ _ _] Hr].
  split; [|done]. split_and!; [|done|intros _; by apply delivered_id].
  split; simpl; try done.
  replace (base + rsize r) with (base + rsize (bw_memory w) + (rsize r - rsize (bw_memory w))) by lia.
  apply (ks_frame _ s b b'); [done|lia|]. unfold is_usize in Hu'. lia.
Qed.

Lemma bound_usize w bytes rows extra :
  0 <= bw_retained w -> 0 <= bytes -> 0 <= rows -> 0 <= extra ->
  is_usize (bw_bound w bytes rows extra).
Proof. intros. unfold bw_bound. mlia. Qed.

Lemma rounded_usize n : is_usize n ->
  is_usize (match checked_add n 65535 with Some m => m / 65536 * 65536 | None => n end).
Proof.
  intros Hn. unfold checked_add. case_bool; [|done].
  pose proof (Z.mul_div_le (n + 65535) 65536 ltac:(lia)).
  pose proof (Z.div_pos (n + 65535) 65536). mlia.
Qed.

Lemma bw_admit_spec bytes rows extra w s b :
  0 <= bytes -> 0 <= rows -> 0 <= extra -> writer_ok w s b ->
  let '(o, (w', (s', b'))) := bw_admit bytes rows extra (w, (s, b)) in
  writer_post w s [] o w' s' b' /\ s' = s /\ bw_pending w' = bw_pending w /\
  bw_retained w' = bw_retained w /\ bw_bytes w' = bw_bytes w.
Proof.
  intros H2 H3 H4 Hw. pose proof (wo_fields _ _ _ Hw) as (Hret & _ & _). unfold bw_admit.
  pose proof (bound_usize w bytes rows extra Hret H2 H3 H4) as Hu.
  set (required := bw_bound w bytes rows extra) in *. pose proof (rounded_usize required Hu) as Hru.
  set (rounded := match checked_add required 65535 with Some _ => _ | None => _ end) in *.
  destruct (rsize (bw_memory w) <? required).
  2:{ split; [|done]. split_and!; [done|done|]. intros _. by apply delivered_id. }
  pose proof (bw_resize_spec rounded w s b Hru Hw) as Hr.
  destruct (bw_resize rounded (w, (s, b))) as [[[]|e|] [w1 [s1 b1]]];
    destruct Hr as (Hpost & -> & Hp & Hrt & Hbt & _); [done| |by destruct Hpost as (_ & ? & _)].
  destruct (_ || _); [done|]. destruct Hpost as (Hw1 & _ & _).
  pose proof (bw_resize_spec required w1 s b1 Hu Hw1) as Hr2.
  destruct (bw_resize required (w1, (s, b1))) as [o [w2 [s2 b2]]].
  destruct Hr2 as ((Hw2 & Hnp & _) & -> & Hp2 & Hrt2 & Hbt2 & _).
  split; [|split_and!; congruence]. split_and!; [done|done|]. intros _. apply delivered_id. congruence.
Qed.

Lemma flush_spec extra w s b :
  0 <= extra -> writer_ok w s b ->
  let '(o, (w', (s', b'))) := flush extra (w, (s, b)) in
  writer_post w s [] o w' s' b' /\ (o = Ok tt -> bw_pending w' = []) /\
  bw_retained w' = bw_retained w.
Proof.
  intros He Hw. unfold flush. destruct (bw_pending w) as [|m ms] eqn:Epend.
  { split; [|done]. split_and!; [done|done|]. intros _. by apply delivered_id. }
  pose proof (wo_fields _ _ _ Hw) as (Hr1 & Hr2 & Hr3).
  set (n := sat_add _ 65536).
  assert (is_usize n) as Hn by (unfold n, size_of_mutation; mlia).
  pose proof (bw_resize_spec n w s b Hn Hw) as Hr.
  destruct (bw_resize n (w, (s, b))) as [[[]|e|] [w1 [s1 b1]]];
    destruct Hr as ((Hw1 & Hnp & _) & -> & Hp & Hrt & Hbt & _); [|by split_and!|done].
  destruct Hw1 as [Hi Hu Hb Hpend Hf]. rewrite Hp, Epend in *.
  pose proof (ks_write _ (m :: ms) s b1 Hi (proj1 Hpend) (proj2 Hpend)) as Hk.
  destruct (ks_write_batch (m :: ms) (s, b1)) as [[[]|e|] [s2 b2]]; [| |done].
  - destruct Hk as (Hi2 & Ho & Hkv). split; [|done]. split_and!; [|done|].
    + split; simpl; try done; [|lia]. split; [constructor|]. apply ks_batch_puts. constructor.
    + intros _. split; [done|]. exists (m :: ms). split; [|done].
      rewrite Epend. cbn [bw_pending count_write take_pending]. by rewrite !app_nil_r.
  - destruct Hk as (Hi2 & _). split; [|done]. split_and!; [|done|done]. split; simpl; try done; [|lia].
    split; [constructor|]. apply ks_batch_puts. constructor.
Qed.

(** An admission that may flush first. *)
Lemma retry_spec extra extra' bytes rows w s b (e : error) :
  0 <= extra -> 0 <= extra' -> 0 <= bytes -> 0 <= rows -> writer_ok w s b ->
  let '(o, (w', (s', b'))) := flush_and_retry e extra bytes rows extra' (w, (s, b)) in
  writer_post w s [] o w' s' b'.
Proof.
  intros H2 H3 H4 H5 Hw. unfold flush_and_retry. destruct (_ && _); [|by split_and!].
  pose proof (flush_spec extra w s b H2 Hw) as Hf. unfold mbind, M_bind.
  destruct (flush extra (w, (s, b))) as [[[]|e'|] [w1 [s1 b1]]];
    destruct Hf as ((Hw1 & Hnp & Hd1) & _ & _); [|by split_and!|done].
  pose proof (bw_admit_spec bytes rows extra' w1 s1 b1 H4 H5 H3 Hw1) as Ha.
  destruct (bw_admit bytes rows extra' (w1, (s1, b1))) as [o [w2 [s2 b2]]].
  destruct Ha as ((Hw2 & Hnp2 & Hd2) & _). split_and!; [done|done|]. intros Hok.
  apply (delivered_trans _ _ [] w1 s1 []); [by apply Hd1|by apply Hd2].
Qed.

Lemma admit_extra_spec extra w s b :
  0 <= extra -> writer_ok w s b ->
  let '(o, (w', (s', b'))) := admit_extra extra (w, (s, b)) in writer_post w s [] o w' s' b'.
Proof.
  intros He Hw. pose proof (wo_fields _ _ _ Hw) as (_ & Hb & _). unfold admit_extra.
  pose proof (bw_admit_spec (bw_bytes w) (len (bw_pending w)) extra w s b Hb (len_nonneg _) He Hw) as Ha.
  destruct (bw_admit _ _ _ _) as [[[]|e|] [w1 [s1 b1]]];
    destruct Ha as ((Hw1 & Hnp & Hd1) & -> & Hp & _); [by split_and!| |done].
  pose proof (retry_spec 0 extra 0 0 w1 s b1 e (Z.le_refl 0) He (Z.le_refl 0) (Z.le_refl 0) Hw1) as Hr.
  destruct (flush_and_retry _ _ _ _ _ _) as [o [w2 [s2 b2]]]. destruct Hr as (Hw2 & Hnp2 & Hd2).
  split_and!; [done|done|]. intros Hok. destruct (Hd2 Hok) as [Ho (fl & E & K)].
  split; [done|]. exists fl. by rewrite <- Hp.
Qed.

Context (Hgrown : forall l c, 0 <= l -> l < grown l c).

Lemma push_done m w0 s0 w s b :
  delivered w0 s0 [] w s -> mutation_ok m -> ks_batch_ok (bw_pending w0 ++ [m]) -> writer_ok w s b ->
  writer_post w0 s0 [m] (Ok tt) (push_pending grown m w) s b.
Proof.
  intros [Ho (fl & E & K)] Hm Hbatch [Hi Hu Hb [Hp _] (Hf1 & Hf2 & Hf3)]. split_and!; [|done|].
  - pose proof (Hgrown (len (bw_pending w)) (bw_capacity w) (len_nonneg _)).
    pose proof (len_nonneg (bw_pending w)). destruct Hm as [Hk Hv]. unfold vec_ok in *.
    pose proof (len_nonneg (vdata (skey (mkey m)))).
    split; simpl; try done.
    { split; [by apply Forall_app; split; [|constructor]|]. rewrite app_nil_r in E. rewrite E, <- app_assoc in Hbatch.
      by apply ks_batch_app in Hbatch as [_ ?]. }
    split_and!; [lia| |lia]. destruct (mvalue m) as [v|]; [|mlia].
    specialize (Hv v eq_refl). pose proof (len_nonneg (vdata v)). mlia.
  - intros _. split; [done|]. exists fl. split; [|done].
    cbn [bw_pending push_pending]. rewrite app_nil_r in E. by rewrite E, app_assoc.
Qed.

Lemma flush_if_full_spec bytes extra w s b :
  0 <= extra -> writer_ok w s b ->
  let '(o, (w', (s', b'))) := flush_if_full bytes extra (w, (s, b)) in
  writer_post w s [] o w' s' b'.
Proof.
  intros He Hw. unfold flush_if_full. destruct (_ && _).
  - pose proof (flush_spec extra w s b He Hw) as Hf.
    destruct (flush extra (w, (s, b))) as [o [w' [s' b']]]. apply Hf.
  - split_and!; [done|done|]. intros _. by apply delivered_id.
Qed.

Lemma push_spec bytes extra m w s b :
  0 <= bytes -> 0 <= extra -> mutation_ok m -> ks_batch_ok (bw_pending w ++ [m]) -> writer_ok w s b ->
  let '(o, (w', (s', b'))) := push grown bytes extra (Ok m) (w, (s, b)) in
  writer_post w s [m] o w' s' b'.
Proof.
  intros H2 H3 Hm Hbatch Hw. unfold push. pose proof (flush_if_full_spec bytes extra w s b H3 Hw) as Hf.
  unfold mbind at 1, M_bind at 1.
  destruct (flush_if_full bytes extra (w, (s, b))) as [[[]|e|] [w1 [s1 b1]]];
    destruct Hf as (Hw1 & Hnp1 & Hd1); [|by split_and!|done]. specialize (Hd1 eq_refl).
  pose proof (wo_fields _ _ _ Hw1) as (_ & Hb1 & Hc1).
  pose proof (bw_admit_spec (sat_add (bw_bytes w1) bytes) (len (bw_pending w1) + 1) extra w1 s1 b1
    ltac:(mlia) ltac:(pose proof (len_nonneg (bw_pending w1)); lia) H3 Hw1) as Ha.
  unfold mbind at 1, M_bind at 1.
  destruct (bw_admit _ _ _ _) as [[[]|e|] [w2 [s2 b2]]];
    destruct Ha as ((Hw2 & Hnp2 & Hd2) & -> & Hp2 & _); [| |done].
  - specialize (Hd2 eq_refl). by apply (push_done m w s w2 s1 b2 (delivered_trans _ _ _ _ _ _ _ _ Hd1 Hd2)).
  - pose proof (retry_spec extra extra bytes 1 w2 s1 b2 e H3 H3 H2 ltac:(lia) Hw2) as Hr.
    destruct (flush_and_retry _ _ _ _ _ _) as [[[]|e'|] [w3 [s3 b3]]];
      destruct Hr as (Hw3 & Hnp3 & Hd3); [|by split_and!|done]. specialize (Hd3 eq_refl).
    assert (delivered w1 s1 [] w3 s3) as Hd3'.
    { destruct Hd3 as [Ho (fl & E & K)]. split; [done|]. exists fl. by rewrite <- Hp2. }
    by apply (push_done m w s w3 s3 b3 (delivered_trans _ _ _ _ _ _ _ _ Hd1 Hd3')).
Qed.

Lemma finish_spec w s b :
  writer_ok w s b ->
  let '(o, (w', (s', b'))) := finish (w, (s, b)) in
  writer_ok w' s' b' /\ o <> Panic /\
  (o = Ok tt -> rsize (bw_memory w') = 0 /\ bw_pending w' = [] /\ delivered w s [] w' s').
Proof.
  intros Hw. unfold finish. rewrite (M_bind_run _ _ _ tt (set_retained 0 w, (s, b))) by done.
  assert (writer_ok (set_retained 0 w) s b) as Hw0.
  { destruct Hw as [? ? ? ? (? & ? & ?)]. split; simpl; try done. }
  pose proof (flush_spec 0 _ s b (Z.le_refl 0) Hw0) as Hf. unfold mbind, M_bind.
  destruct (flush 0 (set_retained 0 w, (s, b))) as [[[]|e|] [w1 [s1 b1]]];
    destruct Hf as ((Hw1 & Hnp & Hd) & Hp & _); [|by split_and!|done].
  specialize (Hp eq_refl). specialize (Hd eq_refl).
  pose proof (bw_resize_spec 0 w1 s1 b1 ltac:(mlia) Hw1) as Hr.
  destruct (bw_resize 0 (w1, (s1, b1))) as [o [w2 [s2 b2]]].
  destruct Hr as ((Hw2 & Hnp2 & _) & -> & Hp2 & _ & _ & Hsz). split_and!; [done|done|].
  intros Hok. split_and!; [by apply Hsz|congruence|].
  destruct Hd as [Ho (fl & E & K)]. split; [done|]. exists fl. by rewrite Hp2.
Qed.

(** A session: pushes with their encoded sizes and scratch allowances. *)
Fixpoint push_all (ms : list (Z * Z * StateMutation)) : M (StateBatchWriter * (St * B)) unit :=
  match ms with
  | [] => mret tt
  | (bytes, extra, m) :: ms => _ ← push grown bytes extra (Ok m); push_all ms
  end.
Definition pushes_ok (ms : list (Z * Z * StateMutation)) : Prop :=
  Forall (fun x => 0 <= x.1.1 /\ 0 <= x.1.2 /\ mutation_ok x.2) ms.

Lemma push_all_spec ms : forall w s b,
  pushes_ok ms -> ks_batch_ok (bw_pending w ++ map snd ms) -> writer_ok w s b ->
  let '(o, (w', (s', b'))) := push_all ms (w, (s, b)) in writer_post w s (map snd ms) o w' s' b'.
Proof.
  induction ms as [|[[bytes extra] m] ms IH]; intros w s b Hms Hbatch Hw; cbn [push_all map snd].
  { split_and!; [done|done|]. intros _. by apply delivered_id. }
  apply Forall_cons in Hms as [(Hb & He & Hm) Hms]. cbn [fst snd] in *.
  cbn [map snd] in Hbatch. change (m :: map snd ms) with ([m] ++ map snd ms) in Hbatch. rewrite app_assoc in Hbatch.
  pose proof (push_spec bytes extra m w s b Hb He Hm (proj1 (ks_batch_app _ _ Hbatch)) Hw) as Hp. unfold mbind, M_bind.
  destruct (push grown bytes extra (Ok m) (w, (s, b))) as [[[]|e|] [w1 [s1 b1]]];
    destruct Hp as (Hw1 & Hnp & Hd1); [|by split_and!|done].
  assert (ks_batch_ok (bw_pending w1 ++ map snd ms)) as Hbatch1.
  { destruct (Hd1 eq_refl) as [_ (fl & E & _)]. rewrite E, <- app_assoc in Hbatch. by apply ks_batch_app in Hbatch as [_ ?]. }
  specialize (IH w1 s1 b1 Hms Hbatch1 Hw1). destruct (push_all ms (w1, (s1, b1))) as [o [w2 [s2 b2]]].
  destruct IH as (Hw2 & Hnp2 & Hd2). split_and!; [done|done|]. intros Hok.
  change (m :: map snd ms) with ([m] ++ map snd ms).
  apply (delivered_trans _ _ [m] w1 s1); [by apply Hd1|by apply Hd2].
Qed.
End buffered.

(** C8: buffering is invisible: from an empty writer, any sequence of pushes
    followed by [finish], if it succeeds, leaves the backend with exactly the
    effect of the pushed mutations applied one after another, wherever the page
    and memory limits made it flush; the writer ends with no pending mutation
    and no credit, and on no path (failures included) does it panic or unbalance
    the memory accounts. *)
Theorem batch_writer_transparent {St B : Type} `{KeyedStateLaws St B} `{!ReleaseTotal B}
    (grown : Z -> Z -> Z) (base : Z) (w : StateBatchWriter) (s : St) (b : B) ms :
  (forall l c, 0 <= l -> l < grown l c) ->
  writer_ok base w s b -> bw_pending w = [] -> pushes_ok ms -> ks_batch_ok (map snd ms) ->
  let '(o, (w', (s', b'))) := (_ ← push_all grown ms; finish) (w, (s, b)) in
  o <> Panic /\ ks_inv (base + rsize (bw_memory w')) s' b' /\
  (o = Ok tt ->
     bw_pending w' = [] /\ rsize (bw_memory w') = 0 /\
     forall kg k, ks_kv s' kg k = mutated (map snd ms) (ks_kv s) kg k).
Proof.
  intros Hg Hw Hpend Hms Hbatch.
  assert (ks_batch_ok (bw_pending w ++ map snd ms)) as Hb0 by by rewrite Hpend.
  pose proof (push_all_spec grown base Hg ms w s b Hms Hb0 Hw) as Hp.
  unfold mbind, M_bind. destruct (push_all grown ms (w, (s, b))) as [[[]|e|] [w1 [s1 b1]]];
    destruct Hp as (Hw1 & Hnp & Hd1); [|by destruct Hw1|done].
  pose proof (finish_spec base w1 s1 b1 Hw1) as Hf.
  destruct (finish (w1, (s1, b1))) as [o [w2 [s2 b2]]]. destruct Hf as (Hw2 & Hnp2 & Hd2).
  split_and!; [done|by destruct Hw2|]. intros Hok. destruct (Hd2 Hok) as (Hsz & Hp2 & Hd3).
  split_and!; [done|done|]. intros kg k.
  destruct (delivered_trans _ _ _ _ _ _ _ _ (Hd1 eq_refl) Hd3) as [_ (fl & E & K)].
  rewrite Hpend, Hp2, !app_nil_r in E. simpl in E. by rewrite K, E.
Qed.
