(* ===== verification/HashState.v ===== *)
(** * Hashed keyed state: [state/memory.rs], [state/memory/table.rs], [state/memory/entry.rs]

    The point-state backend [MemoryKeyedState]: one [KeyGroupMap] per key group,
    which spreads packed entries over sixty-four hash tables so that growth never
    needs a second copy of a whole key group. The tables and hashers are those of
    [hashbrown] and [ahash]. The vectors of groups and of shards are collected from
    a range or reserved exactly, so their capacity is their length. *)

From Stdlib Require Import ZArith Lia Strings.Byte.
From stdpp Require Import base list option numbers strings sorting.
From S2P Require Import Prelude Bytes OrdMap MemoryPool Snapshot OrderedState KeyedState.

(** ** Packed entries *)

(** [bytes] holds the key and then the value; [new] is the only constructor. *)
Record PackedEntry : Type := { packed_bytes : bytes; key_len : Z }.
Definition packed_new (key value : bytes) : PackedEntry :=
  {| packed_bytes := key ++ value; key_len := len key |}.
Definition packed_key (e : PackedEntry) : bytes := take (Z.to_nat (key_len e)) (packed_bytes e).
Definition packed_value (e : PackedEntry) : bytes := drop (Z.to_nat (key_len e)) (packed_bytes e).
(** A value of the same length is copied in place. *)
Definition packed_update (key value : bytes) (e : PackedEntry) : PackedEntry :=
  if len (packed_value e) =? len value
  then {| packed_bytes := take (Z.to_nat (key_len e)) (packed_bytes e) ++ value; key_len := key_len e |}
  else packed_new key value.

(** ** Hash tables *)

(** [hashbrown::HashTable<PackedEntry>] and [ahash::RandomState], with the sizes
    of the structures built on them. [random_state] gives the hasher created for
    a position; every position is created once. *)
Class HashTables : Type := {
  Table : Type;
  Hasher : Type;
  hash_one : Hasher -> bytes -> Z;
  random_state : Z -> option Z -> Hasher;
  table_new : Table;
  table_iter : Table -> list PackedEntry;
  table_capacity : Table -> Z;
  table_allocation : Table -> Z;
  table_find : Z -> (PackedEntry -> bool) -> Table -> option PackedEntry;
  table_find_mut : Z -> (PackedEntry -> bool) -> (PackedEntry -> PackedEntry) -> Table -> Table;
  table_insert_unique : Z -> PackedEntry -> (PackedEntry -> Z) -> Table -> Table;
  table_remove : Z -> (PackedEntry -> bool) -> Table -> option (PackedEntry * Table);
  (** [None] when the allocator refuses. *)
  table_try_reserve : Z -> (PackedEntry -> Z) -> Table -> option Table;
  (** Whether the allocator grants the directory of a group. *)
  directory_reserve : Z -> bool;
  size_of_shard : Z;
  size_of_key_group_map : Z;
}.

Definition SHARDS : Z := 64.
Definition size_of_packed_entry : Z := 24.
Definition bucket_bytes : Z := size_of_packed_entry + 1.

(** [usize::checked_next_power_of_two]. *)
Definition checked_next_power_of_two (n : Z) : option Z :=
  let p := if n <=? 1 then 1 else 2 ^ Z.log2_up n in
  if p <=? USIZE_MAX then Some p else None.
Definition table_heap_size (capacity : Z) : Z :=
  if capacity =? 0 then 0
  else sat_add (sat_mul (default USIZE_MAX (checked_next_power_of_two (sat_add capacity 1))) bucket_bytes) 16.
Definition table_size_for_entries (entries : Z) : Z :=
  if entries <=? 3 then table_heap_size 3
  else if entries <=? 7 then table_heap_size 7
  else sat_add (sat_mul (default USIZE_MAX (checked_next_power_of_two (sat_add (sat_mul entries 8) 6 / 7))) bucket_bytes) 16.

Section hash_state.
Context `{HashTables}.

(** ** One key group *)

Record Shard : Type := { table : Table; hasher : Hasher }.
Record KeyGroupMap : Type := { routing : Hasher; shards : list Shard }.

Definition shard_hash (sh : Shard) (e : PackedEntry) : Z := hash_one (hasher sh) (packed_key e).
Definition has_key (key : bytes) (e : PackedEntry) : bool := bool_decide (packed_key e = key).
Definition with_table (t : Table) (sh : Shard) : Shard := {| table := t; hasher := hasher sh |}.
Definition with_shard (i : Z) (sh : Shard) (g : KeyGroupMap) : KeyGroupMap :=
  {| routing := routing g; shards := <[Z.to_nat i := sh]> (shards g) |}.
Definition shard_at (g : KeyGroupMap) (i : Z) : option Shard := shards g !! Z.to_nat i.

Definition with_hasher (r : Hasher) : KeyGroupMap := {| routing := r; shards := [] |}.
(** [self.routing.hash_one(key) as usize & (SHARDS - 1)]. *)
Definition shard_index (g : KeyGroupMap) (key : bytes) : Z :=
  Z.land (wrapu 64 (hash_one (routing g) key)) (SHARDS - 1).
Definition directory_growth (g : KeyGroupMap) : Z :=
  if bool_decide (length (shards g) = O) then SHARDS * size_of_shard else 0.
(** The retained growth and the table that coexists with its replacement. *)
Definition growth_for_shard (g : KeyGroupMap) (index additions : Z) : Z * Z :=
  let '(n, capacity) := match shard_at g index with
                        | Some sh => (len (table_iter (table sh)), table_capacity (table sh))
                        | None => (0, 0)
                        end in
  let required := sat_add n additions in
  if capacity <? required then
    let old := match shard_at g index with Some sh => table_allocation (table sh) | None => 0 end in
    let replacement := Z.max (table_size_for_entries required) (sat_mul old 2) in
    (sat_sub replacement old, old)
  else (0, 0).

Definition no_allocation : error := ResourcesExhausted "memory allocation failed".
Definition new_shards (group : Z) : list Shard :=
  map (fun i => {| table := table_new; hasher := random_state group (Some (Z.of_nat i)) |}) (seq 0 (Z.to_nat SHARDS)).
(** [group] is the position of the map in the backend. *)
Definition ensure_directory (group : Z) : M KeyGroupMap unit := fun g =>
  if bool_decide (length (shards g) = O) then
    if directory_reserve group then (Ok tt, {| routing := routing g; shards := new_shards group |}) else (Err no_allocation, g)
  else (Ok tt, g).
Definition reserve_table (index additions : Z) : M KeyGroupMap unit := fun g =>
  match shard_at g index with
  | None => (Panic, g)
  | Some sh =>
      match table_try_reserve additions (shard_hash sh) (table sh) with
      | Some t => (Ok tt, with_shard index (with_table t sh) g)
      | None => (Err no_allocation, g)
      end
  end.
Definition reserve_shard (group index additions : Z) : M KeyGroupMap unit :=
  _ ← ensure_directory group; reserve_table index additions.

Definition allocation_size (g : KeyGroupMap) : Z :=
  wrapu 64 (len (shards g) * size_of_shard + zsum (fun sh => table_allocation (table sh)) (shards g)).
Definition group_entries (g : KeyGroupMap) : list PackedEntry := flat_map (fun sh => table_iter (table sh)) (shards g).
(** [iter]. *)
Definition group_iter (g : KeyGroupMap) : list kv := map (fun e => (packed_key e, packed_value e)) (group_entries g).
Definition group_len (g : KeyGroupMap) : Z := zsum (fun sh => len (table_iter (table sh))) (shards g).

Definition group_get (g : KeyGroupMap) (key : bytes) : option bytes :=
  sh ← shard_at g (shard_index g key);
  option_map packed_value (table_find (hash_one (hasher sh) key) (has_key key) (table sh)).
Definition contains_key (g : KeyGroupMap) (key : bytes) : bool :=
  match group_get g key with Some _ => true | None => false end.

(** The bytes added and removed. *)
Definition group_insert (key value : bytes) : M KeyGroupMap (Z * Z) := fun g =>
  let index := shard_index g key in
  match shard_at g index with
  | None => (Panic, g)
  | Some sh =>
      let hash := hash_one (hasher sh) key in
      match table_find hash (has_key key) (table sh) with
      | Some e =>
          let old := len (packed_value e) in
          let t := table_find_mut hash (has_key key) (packed_update key value) (table sh) in
          (Ok (len value, old), with_shard index (with_table t sh) g)
      | None =>
          let added := sat_add (len key) (len value) in
          let t := table_insert_unique hash (packed_new key value) (shard_hash sh) (table sh) in
          (Ok (added, 0), with_shard index (with_table t sh) g)
      end
  end.
Definition remove_bytes (key : bytes) : M KeyGroupMap Z := fun g =>
  let index := shard_index g key in
  match shard_at g index with
  | None => (Ok 0, g)
  | Some sh =>
      match table_remove (hash_one (hasher sh) key) (has_key key) (table sh) with
      | Some (e, t) => (Ok (sat_add (len (packed_key e)) (len (packed_value e))), with_shard index (with_table t sh) g)
      | None => (Ok 0, g)
      end
  end.

(** ** The backend *)

Record MemoryKeyedState : Type := {
  first_key_group : Z;
  hgroups : list KeyGroupMap;
  hreservation : resv;
  entry_bytes_ : Z;
}.
Definition set_hreservation (r : resv) (s : MemoryKeyedState) : MemoryKeyedState :=
  {| first_key_group := first_key_group s; hgroups := hgroups s; hreservation := r; entry_bytes_ := entry_bytes_ s |}.
Definition set_hgroup (i : nat) (g : KeyGroupMap) (s : MemoryKeyedState) : MemoryKeyedState :=
  {| first_key_group := first_key_group s; hgroups := <[i := g]> (hgroups s); hreservation := hreservation s; entry_bytes_ := entry_bytes_ s |}.
Definition set_entry_bytes (n : Z) (s : MemoryKeyedState) : MemoryKeyedState :=
  {| first_key_group := first_key_group s; hgroups := hgroups s; hreservation := hreservation s; entry_bytes_ := n |}.

(** [group] and [group_mut] share their index. *)
Definition hash_index (s : MemoryKeyedState) (kg : Z) : outcome nat :=
  i ← ok_or not_owned (checked_sub kg (first_key_group s));
  if i <? len (hgroups s) then Ok (Z.to_nat i) else Err not_owned.
Definition hash_group (s : MemoryKeyedState) (kg : Z) : outcome KeyGroupMap :=
  i ← hash_index s kg;
  match hgroups s !! i with Some g => Ok g | None => Err not_owned end.
Definition estimated_heap_size (s : MemoryKeyedState) : Z :=
  sat_add (sat_add (sat_mul (len (hgroups s)) size_of_key_group_map) (entry_bytes_ s))
    (wrapu 64 (zsum allocation_size (hgroups s))).

(** A method of the group at a key group. *)
Definition on_group {A} (kg : Z) (m : Z -> M KeyGroupMap A) (s : MemoryKeyedState) : outcome A * MemoryKeyedState :=
  match hash_index s kg with
  | Ok i =>
      match hgroups s !! i with
      | Some g => let '(o, g') := m (Z.of_nat i) g in (o, set_hgroup i g' s)
      | None => (Err not_owned, s)
      end
  | Err e => (Err e, s)
  | Panic => (Panic, s)
  end.

(** *** What a write batch may need *)

(** The growth of the payload, and the largest entry that coexists with its replacement. *)
Definition mutation_growth (s : MemoryKeyedState) (m : StateMutation) (growth overlap : Z) : outcome (Z * Z) :=
  g ← hash_group s (key_group (mkey m));
  let key := skey (mkey m) in
  Ok match mvalue m, group_get g (vdata key) with
     | Some value, Some old =>
         (sat_add growth (sat_sub (vcap value) (len old)),
          if vlen value =? len old then overlap else Z.max overlap (sat_add (vlen key) (len old)))
     | Some value, None => (sat_add (sat_add (sat_add growth (vcap key)) (vcap value)) bucket_bytes, overlap)
     | None, _ => (growth, overlap)
     end.
Fixpoint payload_growth (s : MemoryKeyedState) (ms : list StateMutation) (growth overlap : Z) : outcome (Z * Z) :=
  match ms with
  | [] => Ok (growth, overlap)
  | m :: ms => '(growth, overlap) ← mutation_growth s m growth overlap; payload_growth s ms growth overlap
  end.
Definition is_addition (s : MemoryKeyedState) (m : StateMutation) : outcome bool :=
  match mvalue m with
  | None => Ok false
  | Some _ => g ← hash_group s (key_group (mkey m)); Ok (negb (contains_key g (vdata (skey (mkey m)))))
  end.
(** [.expect("validated key group")]. *)
Fixpoint additions_bound (s : MemoryKeyedState) (ms : list StateMutation) : outcome Z :=
  match ms with
  | [] => Ok 0
  | m :: ms => added ← expect (is_addition s m); n ← additions_bound s ms; Ok (if added : bool then n + 1 else n)
  end.
(** [BTreeMap<(u32, usize), usize>]: the additions of each shard. *)
Fixpoint count_additions (s : MemoryKeyedState) (ms : list StateMutation) (additions : list (Z * Z * Z)) : outcome (list (Z * Z * Z)) :=
  match ms with
  | [] => Ok additions
  | m :: ms =>
      added ← is_addition s m;
      additions ← (if added : bool then
                     g ← hash_group s (key_group (mkey m));
                     let slot := (key_group (mkey m), shard_index g (vdata (skey (mkey m)))) in
                     Ok (bt_put fst (fun p => (p.1, p.2 + 1)) (slot, 1) additions)
                   else Ok additions);
      count_additions s ms additions
  end.
Fixpoint table_growth (s : MemoryKeyedState) (additions : list (Z * Z * Z)) (previous : option Z) (bound overlap : Z) : outcome (Z * Z) :=
  match additions with
  | [] => Ok (bound, overlap)
  | (kg, shard, count) :: additions =>
      g ← hash_group s kg;
      let bound := if bool_decide (previous = Some kg) then bound else sat_add bound (directory_growth g) in
      let '(retained, old) := growth_for_shard g shard count in
      table_growth s additions (Some kg) (sat_add bound retained) (Z.max overlap old)
  end.

Section backend.
Context `{Broker B}.
Abbreviation HM := (M (MemoryKeyedState * B)).

Definition hash_new (f l : Z) (r : resv) : M B MemoryKeyedState := fun b =>
  if l <? f then fail_dropping r (Execution "invalid owned key-group range") b
  else
    let count := wrapu 32 (l - f + 1) in
    match resize (sat_mul count size_of_key_group_map) (r, b) with
    | (Ok _, (r', b')) =>
        (Ok {| first_key_group := f; hreservation := r'; entry_bytes_ := 0;
               hgroups := map (fun i => with_hasher (random_state (Z.of_nat i) None)) (seq 0 (Z.to_nat count)) |}, b')
    | (Err e, (r', b')) => fail_dropping r' e b'
    | (Panic, (_, b')) => (Panic, b')
    end.

Definition hash_lookup (s : MemoryKeyedState) (k : StateKeyRef) : outcome (option bytes) :=
  g ← hash_group s (r_key_group k); Ok (group_get g (r_key k)).
Definition hash_get_batch (s : MemoryKeyedState) (keys : list StateKeyRef) (owner : resv) : M B StateReadBatch :=
  r ← read_admit (len keys) owner;
  match collect (hash_lookup s) keys with
  | Ok values => mret {| rb_values := values; rb_reservation := r |}
  | Err e => fail_dropping r e
  | Panic => panic
  end.

(** *** Writes *)

Definition hash_resize (n : Z) : HM unit := zoom hreservation set_hreservation (resize n).
Fixpoint reserve_tables (additions : list (Z * Z * Z)) : HM unit := fun '(s, b) =>
  match additions with
  | [] => (Ok tt, (s, b))
  | (kg, shard, count) :: additions =>
      match hash_group s kg with
      | Ok _ =>
          match on_group kg (fun group => reserve_shard group shard count) s with
          | (Ok _, s) => reserve_tables additions (s, b)
          | (Err e, s) => (_ ← hash_resize (estimated_heap_size s); throw e) (s, b)
          | (Panic, s) => (Panic, (s, b))
          end
      | Err e => (Err e, (s, b))
      | Panic => (Panic, (s, b))
      end
  end.
Definition hash_mutation (m : StateMutation) : M MemoryKeyedState unit := fun s =>
  let key := vdata (skey (mkey m)) in
  let '(o, s) := on_group (key_group (mkey m)) (fun _ =>
    match mvalue m with
    | Some value => group_insert key (vdata value)
    | None => removed ← remove_bytes key; mret (0, removed)
    end) s in
  match o with
  | Ok (added, removed) => (Ok tt, set_entry_bytes (sat_add (sat_sub (entry_bytes_ s) removed) added) s)
  | Err e => (Err e, s)
  | Panic => (Panic, s)
  end.
Definition hash_mutations (ms : list StateMutation) : M MemoryKeyedState unit := forM ms hash_mutation.

(** The write directory of additions is charged while the batch is written. *)
Definition on_workspace {A} (m : M (resv * B) A) : M (resv * (MemoryKeyedState * B)) A := fun '(r, (s, b)) =>
  let '(o, (r', b')) := m (r, b) in (o, (r', (s, b'))).
Definition on_backend {A} (m : HM A) : M (resv * (MemoryKeyedState * B)) A := fun '(r, sb) =>
  let '(o, sb') := m sb in (o, (r, sb')).
Definition on_tables {A} (m : M MemoryKeyedState A) : HM A := fun '(s, b) =>
  let '(o, s') := m s in (o, (s', b)).
(** The admitted part: tables first, then the mutations, then the exact size. *)
Definition hash_apply (ms : list StateMutation) (additions : list (Z * Z * Z)) (n : Z) : HM unit :=
  _ ← hash_resize n;
  _ ← reserve_tables additions;
  _ ← on_tables (hash_mutations ms);
  s ← gets fst;
  hash_resize (estimated_heap_size s).
Definition hash_write_body (s : MemoryKeyedState) (ms : list StateMutation) (grows payload_overlap : Z) : M (resv * (MemoryKeyedState * B)) unit :=
  n ← lift (additions_bound s ms);
  _ ← on_workspace (host_try_grow (sat_mul (Z.min n (sat_mul (len (hgroups s)) SHARDS)) 512));
  additions ← lift (count_additions s ms []);
  '(bound, overlap) ← lift (table_growth s additions None 0 0);
  on_backend (hash_apply ms additions
    (sat_add (sat_add (sat_add (estimated_heap_size s) grows) bound) (Z.max overlap payload_overlap))).
Definition hash_write_batch (ms : list StateMutation) : HM unit :=
  s ← gets fst;
  '(grows, payload_overlap) ← lift (payload_growth s ms 0 0);
  scoped "native memory state write directory" (hreservation s) (hash_write_body s ms grows payload_overlap).

(** *** Visits and snapshots *)

Fixpoint hash_pages {V} (visitor : list kv -> M V unit) (prefix : bytes) (max_rows max_bytes : Z)
    (page : list kv) (n : Z) (es : list kv) : M V unit :=
  match es with
  | [] => match page with [] => mret tt | _ => visitor page end
  | (k, v) :: es =>
      if negb (starts_with k prefix) then hash_pages visitor prefix max_rows max_bytes page n es
      else
        let size := sat_add (sat_add (len k) (len v)) 96 in
        if max_bytes <? size then throw (ResourcesExhausted "state scan entry exceeds the admitted page budget")
        else if (len page =? max_rows) || (max_bytes <? sat_add n size) then
          _ ← visitor page;
          hash_pages visitor prefix max_rows max_bytes [(k, v)] (wrapu 64 (0 + size)) es
        else hash_pages visitor prefix max_rows max_bytes (page ++ [(k, v)]) (wrapu 64 (n + size)) es
  end.
Definition hash_visit_prefix {V} (s : MemoryKeyedState) (kg : Z) (prefix : bytes) (max_rows max_bytes : Z)
    (visitor : list kv -> M V unit) : M V unit :=
  _ ← when ((max_rows =? 0) || (max_bytes =? 0)) (Execution "state scan bounds must be positive");
  g ← lift (hash_group s kg);
  hash_pages visitor prefix max_rows max_bytes [] 0 (group_iter g).
Definition hash_visit_key_group {V} (s : MemoryKeyedState) (kg max_rows max_bytes : Z)
    (visitor : list kv -> M V unit) : M V unit := hash_visit_prefix s kg [] max_rows max_bytes visitor.
(** The admitted visits of the trait. *)
Definition hash_visit_prefix_admitted {V} (s : MemoryKeyedState) (kg : Z) (prefix : bytes) (rows bytes : Z) (owner : resv)
    (visitor : list kv -> M (V * B) unit) : M (V * B) unit :=
  with_scratch owner "state prefix page" (sat_add (sat_add bytes (sat_mul rows 32)) 4096)
    (hash_visit_prefix s kg prefix rows bytes visitor).

(** [sort_unstable_by] on distinct keys. *)
Definition sort_entries (l : list PackedEntry) : list PackedEntry := @merge_sort _ (@ole _ (ord_on packed_key)) _ l.
Definition entry_pair (e : PackedEntry) : kv := (packed_key e, packed_value e).
Definition snapshot_overflow : error := ResourcesExhausted "canonical snapshot size overflow".
Fixpoint snapshot_length (n : Z) (es : list kv) : outcome Z :=
  match es with
  | [] => Ok n
  | (k, v) :: es =>
      n ← ok_or snapshot_overflow (n ← checked_add n 8; n ← checked_add n (len k); checked_add n (len v));
      snapshot_length n es
  end.
(** The sorted references live until the end of the method. *)
Definition encode_sorted (kg n : Z) (g : KeyGroupMap) (r owner : resv) : M B SnapshotBytes := fun b =>
  match reserve_sibling owner "canonical snapshot sorted references" (sat_mul (group_len g) 8) b with
  | (Ok refs, b) =>
      let result := encode_group kg n (map entry_pair (sort_entries (group_entries g))) in
      match host_drop refs b with
      | (Ok _, b) =>
          match result with
          | Ok encoded => (Ok {| sb_bytes := encoded; sb_reservation := r |}, b)
          | Err e => fail_dropping r e b
          | Panic => (Panic, b)
          end
      | (_, b) => (Panic, b)
      end
  | (Err e, b) => fail_dropping r e b
  | (Panic, b) => (Panic, b)
  end.
Definition hash_snapshot_key_group (s : MemoryKeyedState) (kg : Z) (owner : resv) : M B SnapshotBytes :=
  g ← lift (hash_group s kg);
  n ← lift (snapshot_length 16 (group_iter g));
  r ← reserve_sibling owner "canonical snapshot bytes" n;
  encode_sorted kg n g r owner.
Definition hash_write_snapshot {V} (s : MemoryKeyedState) (kg : Z) (owner : resv) (sink : bytes -> M (V * B) unit) : M (V * B) Z :=
  g ← lift (hash_group s kg);
  with_scratch owner "canonical snapshot sorted references" (sat_mul (group_len g) 8)
    (write_entries sink kg (map entry_pair (sort_entries (group_entries g)))).
End backend.
End hash_state.
