(* ===== verification/HashTableSpec.v ===== *)
(** * One hashed key group

    What the sources rely on of hash tables, and that a [KeyGroupMap] is a map
    from keys to values whose tables grow only when they are full. *)

From Stdlib Require Import ZArith Lia Strings.Byte.
From stdpp Require Import base list option numbers strings sorting.
From S2P Require Import Prelude Bytes OrdMap MemoryPool Snapshot OrderedState KeyedState HashState.

(** [stored h t]: every entry of [t] sits under the hash [h] gives it. [capacity]
    is the number of entries a table holds without reallocating: an insertion
    into a table with room does not reallocate, a removal frees no room that was
    counted, and a reservation reallocates only a table without the room. How
    large a reallocated table is, is not among the laws. *)
Class HashTableLaws `{HashTables} : Type := {
  stored : (PackedEntry -> Z) -> Table -> Prop;
  table_new_law h : stored h table_new /\ table_iter table_new = [] /\ table_allocation table_new = 0 /\ table_capacity table_new = 0;
  table_bounds t : 0 <= table_allocation t /\ len (table_iter t) <= table_capacity t;
  table_find_law h hash p t : stored h t -> (forall e, p e = true -> h e = hash) ->
    match table_find hash p t with
    | Some e => e ∈ table_iter t /\ p e = true
    | None => forall e, e ∈ table_iter t -> p e = false
    end;
  table_find_mut_law h hash p f t e : stored h t -> (forall e, p e = true -> h e = hash) -> table_find hash p t = Some e -> h (f e) = h e ->
    (exists l, table_iter t ≡ₚ e :: l /\ table_iter (table_find_mut hash p f t) ≡ₚ f e :: l) /\
    stored h (table_find_mut hash p f t) /\ table_allocation (table_find_mut hash p f t) = table_allocation t /\
    table_capacity (table_find_mut hash p f t) = table_capacity t;
  table_insert_law h e t : stored h t ->
    table_iter (table_insert_unique (h e) e h t) ≡ₚ e :: table_iter t /\ stored h (table_insert_unique (h e) e h t) /\
    (len (table_iter t) < table_capacity t ->
       table_allocation (table_insert_unique (h e) e h t) = table_allocation t /\ table_capacity t <= table_capacity (table_insert_unique (h e) e h t));
  table_remove_law h hash p t : stored h t -> (forall e, p e = true -> h e = hash) ->
    match table_remove hash p t with
    | Some (e, t') => table_iter t ≡ₚ e :: table_iter t' /\ p e = true /\ stored h t' /\ table_allocation t' = table_allocation t /\
        table_capacity t - 1 <= table_capacity t'
    | None => forall e, e ∈ table_iter t -> p e = false
    end;
  table_reserve_law h n t t' : stored h t -> 0 <= n -> table_try_reserve n h t = Some t' ->
    len (table_iter t) + n <= USIZE_MAX /\
    table_iter t' ≡ₚ table_iter t /\ stored h t' /\ len (table_iter t) + n <= table_capacity t' /\
    (len (table_iter t) + n <= table_capacity t -> table_allocation t' = table_allocation t);
  size_laws : 0 <= size_of_shard /\ 0 <= size_of_key_group_map;
}.

(** The size [growth_for_shard] expects of a reallocated table, and that some
    reservation of the library exceeds it. *)
Definition expected_allocation `{HashTables} (n : Z) (t : Table) : Z :=
  Z.max (table_size_for_entries (len (table_iter t) + n)) (2 * table_allocation t).
Definition underestimated `{HashTableLaws} : Prop := exists h n t t',
  stored h t /\ 0 <= n /\ table_capacity t < len (table_iter t) + n /\ table_try_reserve n h t = Some t' /\ expected_allocation n t < table_allocation t'.
(** A library whose tables the sources estimate correctly. *)
Class GrowthEstimate `{HashTableLaws} : Prop := estimate_covers : ~ underestimated.

(** ** Entries *)

Definition packed_ok (e : PackedEntry) : Prop := 0 <= key_len e <= len (packed_bytes e).
Lemma packed_new_ok k v : packed_ok (packed_new k v).
Proof. unfold packed_ok, packed_new. cbn. rewrite len_app. pose proof (len_nonneg k). pose proof (len_nonneg v). lia. Qed.
Lemma packed_new_key k v : packed_key (packed_new k v) = k.
Proof. unfold packed_key, packed_new. cbn. by rewrite len_to_nat, take_app_length. Qed.
Lemma packed_new_value k v : packed_value (packed_new k v) = v.
Proof. unfold packed_value, packed_new. cbn. by rewrite len_to_nat, drop_app_length. Qed.
Lemma packed_len e : packed_ok e -> len (packed_bytes e) = len (packed_key e) + len (packed_value e).
Proof. intros [H0 H1]. unfold packed_key, packed_value, len in *. rewrite length_take, length_drop. lia. Qed.
Lemma packed_key_len e : packed_ok e -> len (packed_key e) = key_len e.
Proof. intros [H0 H1]. unfold packed_key, len in *. rewrite length_take. lia. Qed.
Lemma packed_update_ok k v e : packed_ok e -> packed_key e = k ->
  packed_ok (packed_update k v e) /\ packed_key (packed_update k v e) = k /\ packed_value (packed_update k v e) = v.
Proof.
  intros He Hk. unfold packed_update. destruct (len (packed_value e) =? len v).
  2:{ split_and!; [apply packed_new_ok|apply packed_new_key|apply packed_new_value]. }
  pose proof (packed_key_len e He) as Hl. unfold packed_key in Hk, Hl. rewrite Hk in *. rewrite <- Hl.
  split_and!; [apply packed_new_ok|apply packed_new_key|apply packed_new_value].
Qed.
Lemma has_key_true k e : has_key k e = true <-> packed_key e = k.
Proof. unfold has_key. apply bool_decide_eq_true. Qed.
Lemma has_key_false k e : has_key k e = false <-> packed_key e <> k.
Proof. unfold has_key. apply bool_decide_eq_false. Qed.

(** ** Groups *)

Section groups.
Context `{HashTableLaws}.
Implicit Types (g : KeyGroupMap) (sh : Shard) (e : PackedEntry) (k v : bytes).

Definition shard_ok g (i : nat) sh : Prop :=
  stored (shard_hash sh) (table sh) /\ Forall (fun e => packed_ok e /\ shard_index g (packed_key e) = Z.of_nat i) (table_iter (table sh)) /\
  NoDup (map packed_key (table_iter (table sh))).
Definition hgroup_ok g : Prop :=
  (shards g = [] \/ length (shards g) = 64%nat) /\ forall i sh, shards g !! i = Some sh -> shard_ok g i sh.
(** What a group allocates, and the room of a shard. *)
Definition group_alloc g : Z := len (shards g) * size_of_shard + zsum (fun sh => table_allocation (table sh)) (shards g).
Definition room g (i : Z) : Z :=
  match shard_at g i with Some sh => table_capacity (table sh) - len (table_iter (table sh)) | None => 0 end.
Definition group_bytes g : Z := zsum (fun e => len (packed_bytes e)) (group_entries g).

Lemma shard_index_range g k : 0 <= shard_index g k < SHARDS.
Proof.
  unfold shard_index. change (SHARDS - 1) with (Z.ones 6). rewrite Z.land_ones by lia. apply Z.mod_pos_bound. unfold SHARDS. lia.
Qed.
Lemma alloc_nonneg (l : list Shard) : 0 <= zsum (fun sh => table_allocation (table sh)) l.
Proof. apply zsum_nonneg. intros sh _. apply table_bounds. Qed.
Lemma group_alloc_nonneg g : 0 <= group_alloc g.
Proof. unfold group_alloc. pose proof (alloc_nonneg (shards g)). pose proof (proj1 size_laws). pose proof (len_nonneg (shards g)). nia. Qed.
Lemma room_nonneg g i : 0 <= room g i.
Proof. unfold room. destruct (shard_at g i); [|lia]. pose proof (proj2 (table_bounds (table s))). lia. Qed.
Lemma hgroup_bytes_nonneg g : 0 <= group_bytes g.
Proof. apply zsum_nonneg. intros e _. apply len_nonneg. Qed.

(** The entries of one shard and the others. *)
Lemma entries_split g i sh sh' : shards g !! i = Some sh ->
  exists rest, group_entries g ≡ₚ table_iter (table sh) ++ rest /\
    group_entries (with_shard (Z.of_nat i) sh' g) ≡ₚ table_iter (table sh') ++ rest.
Proof.
  intros Hi. unfold group_entries, with_shard. cbn [shards]. rewrite Nat2Z.id.
  exists (flat_map (fun sh => table_iter (table sh)) (delete i (shards g))).
  pose proof (delete_Permutation _ _ _ Hi) as Hp. split; [by rewrite Hp at 1|].
  assert (<[i := sh']> (shards g) !! i = Some sh') as Hi' by (apply list_lookup_insert_eq; by eapply lookup_lt_Some).
  pose proof (delete_Permutation _ _ _ Hi') as Hp'. rewrite Hp'. cbn [flat_map]. f_equiv.
  rewrite !delete_take_drop, take_insert_ge, drop_insert_lt by lia. done.
Qed.
Lemma with_shard_at g i sh' j : (i < length (shards g))%nat -> shard_at (with_shard (Z.of_nat i) sh' g) j =
  if decide (Z.to_nat j = i) then Some sh' else shard_at g j.
Proof.
  intros Hi. unfold shard_at, with_shard. cbn [shards]. rewrite Nat2Z.id. destruct (decide (Z.to_nat j = i)) as [->|Hj].
  - by apply list_lookup_insert_eq.
  - by apply list_lookup_insert_ne.
Qed.
Lemma shard_of_index g k sh : shard_at g (shard_index g k) = Some sh ->
  exists i, shards g !! i = Some sh /\ shard_index g k = Z.of_nat i.
Proof. intros Hs. exists (Z.to_nat (shard_index g k)). split; [done|]. pose proof (shard_index_range g k). lia. Qed.
Lemma with_shard_ok g i sh sh' : hgroup_ok g -> shards g !! i = Some sh -> shard_ok g i sh' -> hgroup_ok (with_shard (Z.of_nat i) sh' g).
Proof.
  intros [Hl Hg] Hi Hs. split.
  - unfold with_shard. cbn [shards]. rewrite length_insert. destruct Hl as [E|E]; [|by right]. rewrite E in Hi. done.
  - intros j s Hj. unfold with_shard in Hj. cbn [shards] in Hj. rewrite Nat2Z.id in Hj.
    change (shard_ok g j s). apply list_lookup_insert_Some in Hj as [(-> & -> & _)|[_ Hj]]; [done|by apply Hg].
Qed.
Lemma with_shard_alloc g i sh sh' : shards g !! i = Some sh ->
  group_alloc (with_shard (Z.of_nat i) sh' g) = group_alloc g - table_allocation (table sh) + table_allocation (table sh').
Proof.
  intros Hi. unfold group_alloc, with_shard. cbn [shards]. rewrite Nat2Z.id. unfold len. rewrite length_insert.
  rewrite (zsum_insert _ _ _ sh) by done. lia.
Qed.

Lemma elem_entries g e : e ∈ group_entries g <-> exists i sh, shards g !! i = Some sh /\ e ∈ table_iter (table sh).
Proof.
  unfold group_entries. rewrite list_elem_of_In, in_flat_map. split.
  - intros (sh & Hs%list_elem_of_In & He%list_elem_of_In). apply list_elem_of_lookup_1 in Hs as [i Hi]. eauto.
  - intros (i & sh & Hi & He). exists sh. split; apply list_elem_of_In; [by eapply list_elem_of_lookup_2|done].
Qed.
Lemma entry_facts g e : hgroup_ok g -> e ∈ group_entries g -> packed_ok e.
Proof.
  intros [_ Hg] (i & sh & Hi & He)%elem_entries. destruct (Hg i sh Hi) as (_ & Hf & _). rewrite Forall_forall in Hf. by apply Hf.
Qed.
(** Keys are unique in the group: equal keys share a shard. *)
Lemma entries_unique g e e' : hgroup_ok g -> e ∈ group_entries g -> e' ∈ group_entries g -> packed_key e = packed_key e' -> e = e'.
Proof.
  intros [_ Hg] (i & sh & Hi & He)%elem_entries (j & sh' & Hj & He')%elem_entries Hk.
  destruct (Hg i sh Hi) as (_ & Hf & Hn), (Hg j sh' Hj) as (_ & Hf' & _). rewrite Forall_forall in Hf, Hf'.
  destruct (Hf e He) as [_ Ei], (Hf' e' He') as [_ Ej]. rewrite Hk, Ej in Ei. apply Nat2Z.inj in Ei as ->. simplify_eq.
  apply list_elem_of_lookup_1 in He as [a Ha], He' as [b Hb].
  assert (map packed_key (table_iter (table sh)) !! a = Some (packed_key e)) as Ha' by by rewrite list_lookup_fmap, Ha.
  assert (map packed_key (table_iter (table sh)) !! b = Some (packed_key e)) as Hb' by by rewrite list_lookup_fmap, Hb, Hk.
  pose proof (NoDup_lookup _ _ _ _ Hn Ha' Hb') as ->. congruence.
Qed.
Lemma entries_nodup_keys g : hgroup_ok g -> NoDup (map packed_key (group_entries g)).
Proof.
  intros [_ Hg]. unfold group_entries. revert Hg. generalize (shards g) at 1 2. intros l Hg.
  assert (forall i sh, l !! i = Some sh -> shard_ok g (O + i) sh) as Hl by done. clear Hg. revert Hl. generalize O.
  induction l as [|sh l IH]; intros n Hl; [constructor|]. cbn [flat_map]. rewrite map_app. apply NoDup_app. split_and!.
  - specialize (Hl O sh eq_refl). apply Hl.
  - intros k (e & -> & He)%list_elem_of_fmap (e' & Ek & He')%list_elem_of_fmap.
    apply list_elem_of_In, in_flat_map in He' as (sh' & Hs'%list_elem_of_In & He'%list_elem_of_In). apply list_elem_of_lookup_1 in Hs' as [j Hj].
    destruct (Hl O sh eq_refl) as (_ & Hf & _), (Hl (S j) sh' Hj) as (_ & Hf' & _). rewrite Forall_forall in Hf, Hf'.
    destruct (Hf e He) as [_ Ei], (Hf' e' He') as [_ Ej]. rewrite Ek, Ej in Ei. lia.
  - apply (IH (S n)). intros i s Hi. specialize (Hl (S i) s Hi). by rewrite Nat.add_succ_r in Hl.
Qed.

(** ** Reading *)

Lemma shard_finds g k sh : hgroup_ok g -> shard_at g (shard_index g k) = Some sh ->
  match table_find (hash_one (hasher sh) k) (has_key k) (table sh) with
  | Some e => e ∈ table_iter (table sh) /\ packed_key e = k
  | None => forall e, e ∈ group_entries g -> packed_key e <> k
  end.
Proof.
  intros Hg Hs. destruct (shard_of_index g k sh Hs) as (i & Hi & Ei). pose proof (proj2 Hg _ _ Hi) as (Hst & _).
  pose proof (table_find_law (shard_hash sh) (hash_one (hasher sh) k) (has_key k) (table sh) Hst) as Hf.
  destruct (table_find _ _ _) as [e|].
  - rewrite <- has_key_true. apply Hf. intros e' He'%has_key_true. unfold shard_hash. by rewrite He'.
  - intros e (j & sh' & Hj & He)%elem_entries <-. destruct (proj2 Hg j sh' Hj) as (_ & Hall & _). rewrite Forall_forall in Hall.
    destruct (Hall e He) as [_ Ej]. rewrite Ej in Ei. apply Nat2Z.inj in Ei as ->. simplify_eq.
    assert (has_key (packed_key e) e = false) as Hc; [|apply has_key_false in Hc; done]. apply Hf; [|done].
    intros e' He'%has_key_true. unfold shard_hash. by rewrite He'.
Qed.
Lemma group_get_Some g k v : hgroup_ok g ->
  group_get g k = Some v <-> exists e, e ∈ group_entries g /\ packed_key e = k /\ packed_value e = v.
Proof.
  intros Hg. unfold group_get. destruct (shard_at g (shard_index g k)) as [sh|] eqn:Hs; cbn [mbind option_bind].
  - pose proof (shard_finds g k sh Hg Hs) as Hf. destruct (shard_of_index g k sh Hs) as (i & Hi & _).
    destruct (table_find _ _ _) as [e|]; cbn [option_map].
    + destruct Hf as [He Hk]. split.
      * intros [= <-]. exists e. split_and!; [|done..]. apply elem_entries. eauto.
      * intros (e' & He' & Hk' & <-). do 2 f_equal. apply (entries_unique g); [done| |done|congruence]. apply elem_entries. eauto.
    + split; [done|]. intros (e & He & Hk & _). by destruct (Hf e He).
  - split; [done|]. intros (e & (i & sh & Hi & He)%elem_entries & <- & _). destruct (proj2 Hg i sh Hi) as (_ & Hf & _).
    rewrite Forall_forall in Hf. destruct (Hf e He) as [_ Ei]. unfold shard_at in Hs. rewrite Ei, Nat2Z.id in Hs. congruence.
Qed.
Lemma group_get_None g k : hgroup_ok g -> group_get g k = None <-> forall e, e ∈ group_entries g -> packed_key e <> k.
Proof.
  intros Hg. split.
  - intros Hn e He <-. assert (group_get g (packed_key e) = Some (packed_value e)) as E by (apply group_get_Some; eauto). congruence.
  - intros Hn. destruct (group_get g k) as [v|] eqn:E; [|done]. apply group_get_Some in E as (e & He & Hk & _); [|done]. by destruct (Hn e He).
Qed.
Lemma contains_key_get g k : contains_key g k = true <-> group_get g k <> None.
Proof. unfold contains_key. by destruct (group_get g k). Qed.
(** A map is determined by its entries. *)
Lemma group_get_entries g g' k v e (l : list PackedEntry) : hgroup_ok g -> hgroup_ok g' -> packed_key e = k -> packed_value e = v ->
  (forall x, x ∈ group_entries g' <-> x = e \/ x ∈ l) -> (forall x, x ∈ l -> packed_key x <> k) ->
  (forall x, x ∈ group_entries g -> packed_key x <> k -> x ∈ l) -> (forall x, x ∈ l -> x ∈ group_entries g) ->
  forall k', group_get g' k' = if decide (k' = k) then Some v else group_get g k'.
Proof.
  intros Hg Hg' Hk Hv Hiff Hl Hin Hsub k'. destruct (decide (k' = k)) as [->|Hne].
  - apply group_get_Some; [done|]. exists e. split_and!; [|done..]. apply Hiff. by left.
  - destruct (group_get g k') as [v'|] eqn:E.
    + apply group_get_Some in E as (x & Hx & Hxk & Hxv); [|done]. apply group_get_Some; [done|]. exists x. split_and!; [|done..].
      apply Hiff. right. apply Hin; [done|congruence].
    + apply group_get_None; [done|]. intros x [->|Hx]%Hiff; [congruence|]. rewrite group_get_None in E by done. by apply E, Hsub.
Qed.

(** ** Writing *)

Definition other_rooms g g' (i : Z) : Prop := forall j, 0 <= j -> j <> i -> room g' j = room g j.
Lemma with_shard_rooms g i sh' : (i < length (shards g))%nat -> other_rooms g (with_shard (Z.of_nat i) sh' g) (Z.of_nat i).
Proof. intros Hi j Hj Hne. unfold room. rewrite with_shard_at by done. rewrite decide_False by lia. done. Qed.

(** A put: what is read afterwards, the bytes, and the tables, which stay the
    same when the key is present or its shard has room. *)
Definition put_spec g g' k v (added removed : Z) : Prop :=
  hgroup_ok g' /\ (forall k', group_get g' k' = if decide (k' = k) then Some v else group_get g k') /\
  group_bytes g' = group_bytes g - removed + added /\ routing g' = routing g /\ other_rooms g g' (shard_index g k) /\
  match group_get g k with
  | Some old => removed = len old /\ added = len v /\ group_alloc g' = group_alloc g /\ room g' (shard_index g k) = room g (shard_index g k)
  | None => removed = 0 /\ added = len k + len v /\
      (0 < room g (shard_index g k) -> group_alloc g' = group_alloc g /\ room g (shard_index g k) - 1 <= room g' (shard_index g k))
  end.

Lemma update_shard_ok g i sh e l k v t' :
  shard_ok g i sh -> table_iter (table sh) ≡ₚ e :: l -> packed_key e = k -> table_iter t' ≡ₚ packed_update k v e :: l ->
  stored (shard_hash sh) t' -> shard_ok g i (with_table t' sh).
Proof.
  intros (Hst & Hf & Hn) Hp Hk Hp' Hst'. rewrite Hp in Hf. apply Forall_cons in Hf as [[Hok Hi] Hf].
  destruct (packed_update_ok k v e Hok Hk) as (Hok' & Hk' & _). split_and!; [done| |].
  - cbn [table with_table]. rewrite Hp'. constructor; [|done]. split; [done|]. by rewrite Hk', <- Hk.
  - cbn [table with_table]. rewrite Hp'. rewrite Hp in Hn. cbn [map] in *. by rewrite Hk', <- Hk.
Qed.
Lemma group_insert_spec g k v : hgroup_ok g -> shard_at g (shard_index g k) <> None -> len k + len v <= USIZE_MAX ->
  exists added removed g', group_insert k v g = (Ok (added, removed), g') /\ put_spec g g' k v added removed.
Proof.
  intros Hg Hne Hle. unfold group_insert. destruct (shard_at g (shard_index g k)) as [sh|] eqn:Hs; [|done]. clear Hne.
  destruct (shard_of_index g k sh Hs) as (i & Hi & Ei). pose proof (lookup_lt_Some _ _ _ Hi) as Hlt. rewrite Ei in *.
  pose proof (proj2 Hg _ _ Hi) as Hsh. pose proof Hsh as (Hst & Hf & Hn).
  pose proof (shard_finds g k sh Hg) as Hfind. rewrite Ei in Hfind. specialize (Hfind Hs).
  assert (forall e, has_key k e = true -> shard_hash sh e = hash_one (hasher sh) k) as Hhash.
  { intros e He%has_key_true. unfold shard_hash. by rewrite He. }
  destruct (table_find (hash_one (hasher sh) k) (has_key k) (table sh)) as [e|] eqn:Ef.
  - destruct Hfind as [He Hk]. rewrite Forall_forall in Hf. destruct (Hf e He) as [Hok _]. rewrite <- Forall_forall in Hf.
    destruct (packed_update_ok k v e Hok Hk) as (Hok' & Hk' & Hv').
    destruct (table_find_mut_law (shard_hash sh) _ _ (packed_update k v) _ e Hst Hhash Ef) as ((l & Hp & Hp') & Hst' & Ha & Hc); [unfold shard_hash; by rewrite Hk', Hk|].
    set (t' := table_find_mut _ _ _ _) in *. set (sh' := with_table t' sh).
    pose proof (update_shard_ok g i sh e l k v t' Hsh Hp Hk Hp' Hst') as Hsh'.
    pose proof (with_shard_ok g i sh sh' Hg Hi Hsh') as Hg'.
    destruct (entries_split g i sh sh' Hi) as (rest & Hr & Hr'). rewrite Hp in Hr. cbn [table with_table sh'] in Hr'. rewrite Hp' in Hr'. cbn [app] in Hr, Hr'.
    assert (group_get g k = Some (packed_value e)) as Hget by (apply group_get_Some; [done|]; exists e; split_and!; [by rewrite Hr; constructor|done..]).
    pose proof (entries_nodup_keys g Hg) as Hnd. rewrite Hr in Hnd. cbn [map] in Hnd. apply NoDup_cons in Hnd as [Hni _].
    eexists _, _, _. split; [done|]. unfold put_spec. rewrite Ei. split_and!; [done| | |done|by apply with_shard_rooms|].
    + eapply (group_get_entries g _ k v (packed_update k v e) (l ++ rest)); [done..| | | |].
      * intros x. by rewrite Hr', elem_of_cons.
      * intros x Hx Hxk. apply Hni. rewrite Hk, <- Hxk. apply list_elem_of_fmap. eauto.
      * intros x. rewrite Hr, elem_of_cons. naive_solver.
      * intros x Hx. rewrite Hr. by right.
    + unfold group_bytes. rewrite Hr, Hr'. cbn [zsum foldr]. rewrite (packed_len _ Hok), (packed_len _ Hok'), Hk, Hk', Hv'. lia.
    + rewrite Hget. split_and!; [done|done| |].
      * rewrite (with_shard_alloc g i sh) by done. cbn. lia.
      * unfold room. rewrite with_shard_at by done. rewrite decide_True by lia. rewrite Hs. cbn [table with_table sh'].
        unfold len. rewrite (Permutation_length Hp), (Permutation_length Hp'). simpl. lia.
  - destruct (table_insert_law (shard_hash sh) (packed_new k v) (table sh) Hst) as (Hp & Hst' & Hroom).
    assert (shard_hash sh (packed_new k v) = hash_one (hasher sh) k) as Eh by (unfold shard_hash; by rewrite packed_new_key). rewrite Eh in *.
    set (t' := table_insert_unique _ _ _ _) in *. set (sh' := with_table t' sh).
    assert (shard_ok g i sh') as Hsh'.
    { split_and!; [done| |]; cbn [table with_table sh']; rewrite Hp.
      - constructor; [|done]. split; [apply packed_new_ok|]. rewrite packed_new_key. done.
      - cbn [map]. rewrite packed_new_key. apply NoDup_cons. split; [|done]. intros (x & Ex & Hx)%list_elem_of_fmap.
        symmetry in Ex. revert Ex. apply Hfind, elem_entries. eauto. }
    pose proof (with_shard_ok g i sh sh' Hg Hi Hsh') as Hg'.
    destruct (entries_split g i sh sh' Hi) as (rest & Hr & Hr'). cbn [table with_table sh'] in Hr'. rewrite Hp in Hr'. cbn [app] in Hr'. rewrite <- Hr in Hr'.
    assert (group_get g k = None) as Hget by by apply group_get_None.
    pose proof (len_nonneg k). pose proof (len_nonneg v).
    eexists _, _, _. split; [done|]. unfold put_spec. rewrite Ei. split_and!; [done| | |done|by apply with_shard_rooms|].
    + eapply (group_get_entries g _ k v (packed_new k v) (group_entries g)); [done|done|apply packed_new_key|apply packed_new_value| |done|done|done].
      intros x. by rewrite Hr', elem_of_cons.
    + unfold group_bytes. rewrite Hr'. rewrite zsum_cons. rewrite (packed_len _ (packed_new_ok k v)), packed_new_key, packed_new_value. mlia.
    + rewrite Hget. split_and!; [done|mlia|]. unfold room at 1. rewrite Hs. intros Hpos. destruct Hroom as [Ha Hc]; [lia|]. split.
      * rewrite (with_shard_alloc g i sh) by done. cbn. lia.
      * unfold room. rewrite with_shard_at by done. rewrite decide_True by lia. rewrite Hs. cbn [table with_table sh'].
        unfold len. rewrite (Permutation_length Hp). simpl. lia.
Qed.

Definition remove_spec g g' k (removed : Z) : Prop :=
  hgroup_ok g' /\ (forall k', group_get g' k' = if decide (k' = k) then None else group_get g k') /\
  group_bytes g' = group_bytes g - removed /\ routing g' = routing g /\ group_alloc g' = group_alloc g /\
  (forall j, 0 <= j -> room g j <= room g' j) /\
  removed = match group_get g k with Some v => len k + len v | None => 0 end.
Lemma remove_nothing g k : hgroup_ok g -> group_get g k = None -> remove_spec g g k 0.
Proof.
  intros Hg Hn. split_and!; [done| |lia|done|done|done|by rewrite Hn]. intros k'. by destruct (decide (k' = k)) as [->|].
Qed.
Lemma remove_bytes_spec g k : hgroup_ok g -> group_bytes g <= USIZE_MAX ->
  exists removed g', remove_bytes k g = (Ok removed, g') /\ remove_spec g g' k removed.
Proof.
  intros Hg Hle. unfold remove_bytes. destruct (shard_at g (shard_index g k)) as [sh|] eqn:Hs.
  2:{ eexists _, _. split; [done|]. apply remove_nothing; [done|]. unfold group_get. by rewrite Hs. }
  destruct (shard_of_index g k sh Hs) as (i & Hi & Ei). pose proof (lookup_lt_Some _ _ _ Hi) as Hlt. rewrite Ei in *.
  pose proof (proj2 Hg _ _ Hi) as (Hst & Hf & Hn).
  pose proof (table_remove_law (shard_hash sh) (hash_one (hasher sh) k) (has_key k) (table sh) Hst) as Hrem.
  destruct (table_remove (hash_one (hasher sh) k) (has_key k) (table sh)) as [[e t']|].
  2:{ eexists _, _. split; [done|]. apply remove_nothing; [done|]. apply group_get_None; [done|].
      intros x (j & sj & Hj & Hx)%elem_entries Hxk. destruct (proj2 Hg j sj Hj) as (_ & Hfj & _). rewrite Forall_forall in Hfj.
      destruct (Hfj x Hx) as [_ Ej]. rewrite Hxk in Ej. assert (j = i) as -> by lia. simplify_eq.
      assert (has_key (packed_key x) x = false) as Hc; [|apply has_key_false in Hc; done]. apply Hrem; [|done].
      intros y Hy%has_key_true. unfold shard_hash. by rewrite Hy. }
  destruct Hrem as (Hp & Hk%has_key_true & Hst' & Ha & Hc); [intros y Hy%has_key_true; unfold shard_hash; by rewrite Hy|].
  rewrite Hp in Hf, Hn. apply Forall_cons in Hf as [[Hok _] Hf]. cbn [map] in Hn. apply NoDup_cons in Hn as [_ Hn].
  set (sh' := with_table t' sh). assert (shard_ok g i sh') as Hsh' by done.
  pose proof (with_shard_ok g i sh sh' Hg Hi Hsh') as Hg'.
  destruct (entries_split g i sh sh' Hi) as (rest & Hr & Hr'). rewrite Hp in Hr. cbn [table with_table sh' app] in Hr, Hr'. rewrite <- Hr' in Hr.
  assert (group_get g k = Some (packed_value e)) as Hget by (apply group_get_Some; [done|]; exists e; split_and!; [by rewrite Hr; constructor|done..]).
  pose proof (entries_nodup_keys g Hg) as Hnd. rewrite Hr in Hnd. cbn [map] in Hnd. apply NoDup_cons in Hnd as [Hni _].
  pose proof (packed_len e Hok) as Hlen. rewrite Hk in Hlen.
  pose proof (len_nonneg (packed_value e)). pose proof (len_nonneg k).
  assert (group_bytes g = len (packed_bytes e) + group_bytes (with_shard (Z.of_nat i) sh' g)) as Hb.
  { unfold group_bytes at 1. by rewrite Hr. }
  pose proof (hgroup_bytes_nonneg (with_shard (Z.of_nat i) sh' g)).
  eexists _, _. split; [done|]. split_and!; [done| |rewrite Hk; mlia|done| | |rewrite Hget, Hk; mlia].
  - intros k'. destruct (decide (k' = k)) as [->|Hne].
    + apply group_get_None; [done|]. intros x Hx Hxk. apply Hni. rewrite Hk, <- Hxk. apply list_elem_of_fmap. eauto.
    + destruct (group_get g k') as [v'|] eqn:E.
      * apply group_get_Some in E as (x & Hx & Hxk & Hxv); [|done]. apply group_get_Some; [done|]. exists x. split_and!; [|done..].
        rewrite Hr in Hx. apply elem_of_cons in Hx as [->|Hx]; [congruence|done].
      * apply group_get_None; [done|]. intros x Hx. rewrite group_get_None in E by done. apply E. rewrite Hr. by right.
  - rewrite (with_shard_alloc g i sh) by done. cbn. lia.
  - intros j Hj. unfold room. rewrite with_shard_at by done. destruct (decide (Z.to_nat j = i)) as [Ej|]; [|done].
    assert (j = Z.of_nat i) as -> by lia. rewrite Hs. cbn [table with_table sh']. unfold len. rewrite (Permutation_length Hp). simpl. lia.
Qed.

(** ** Reserving *)

(** The same map in other tables. *)
Definition same_map g g' : Prop :=
  hgroup_ok g' /\ routing g' = routing g /\ group_entries g' ≡ₚ group_entries g.
Lemma same_map_refl g : hgroup_ok g -> same_map g g.
Proof. done. Qed.
Lemma same_map_trans g g1 g2 : same_map g g1 -> same_map g1 g2 -> same_map g g2.
Proof. intros (_ & R1 & E1) (H2 & R2 & E2). split_and!; [done|congruence|by rewrite E2]. Qed.
Lemma same_map_get g g' k : hgroup_ok g -> same_map g g' -> group_get g' k = group_get g k.
Proof.
  intros Hg (Hg' & _ & He). destruct (group_get g k) as [v|] eqn:E.
  - apply group_get_Some in E as (e & Hin & Hk & Hv); [|done]. apply group_get_Some; [done|]. exists e. by rewrite He.
  - apply group_get_None; [done|]. intros e. rewrite He. revert e. by apply group_get_None.
Qed.
Lemma same_map_bytes g g' : same_map g g' -> group_bytes g' = group_bytes g.
Proof. intros (_ & _ & He). unfold group_bytes. by rewrite He. Qed.

Lemma new_shards_at group i sh : new_shards group !! i = Some sh -> table sh = table_new.
Proof. unfold new_shards. rewrite list_lookup_fmap. intros (j & _ & ->)%fmap_Some. done. Qed.
Lemma new_shards_sums group : flat_map (fun sh => table_iter (table sh)) (new_shards group) = [] /\
  zsum (fun sh => table_allocation (table sh)) (new_shards group) = 0 /\ length (new_shards group) = 64%nat.
Proof.
  destruct (table_new_law (fun _ => 0)) as (_ & Hi & Ha & _). split_and!; [| |done]; unfold new_shards.
  - generalize (seq 0 (Z.to_nat SHARDS)). intros l. induction l as [|x l IH]; [done|]. cbn [map flat_map table]. by rewrite Hi, IH.
  - generalize (seq 0 (Z.to_nat SHARDS)). intros l. induction l as [|x l IH]; [done|]. cbn [map]. rewrite zsum_cons, IH. cbn [table]. lia.
Qed.
(** The tables reserved so far: the same map, and what they allocate. *)
Definition directory_made g g' : Prop :=
  same_map g g' /\ length (shards g') = 64%nat /\ group_alloc g' = group_alloc g + directory_growth g /\
  (forall j, room g' j = room g j) /\ (forall j c, growth_for_shard g' j c = growth_for_shard g j c).
Lemma ensure_directory_spec group g : hgroup_ok g ->
  match ensure_directory group g with
  | (Ok _, g') => directory_made g g'
  | (Err _, g') => g' = g
  | (Panic, _) => False
  end.
Proof.
  intros Hg. unfold ensure_directory. destruct Hg as [Hl Hs].
  destruct (shards g) as [|s0 l0] eqn:Es.
  - rewrite bool_decide_eq_true_2 by done. destruct (directory_reserve group); [|done].
    destruct (new_shards_sums group) as (He & Ha & Hn). destruct (table_new_law (fun _ => 0)) as (_ & Hi & Hal & Hc).
    assert (forall j, shard_at g j = None) as Hnone by (intros j; unfold shard_at; by rewrite Es).
    split; [split; [split|split]|split_and!]; [by right| |done| |done| | | ].
    + intros i sh Hi'. pose proof (new_shards_at _ _ _ Hi') as Et. split_and!; rewrite Et, ?Hi; [apply table_new_law|constructor..].
    + unfold group_entries. cbn [shards]. by rewrite Es, He.
    + unfold group_alloc, directory_growth. cbn [shards]. rewrite Es, Ha. unfold len. rewrite Hn. rewrite bool_decide_eq_true_2 by done. simpl. unfold SHARDS. lia.
    + intros j. unfold room. rewrite Hnone. unfold shard_at. cbn [shards]. destruct (new_shards group !! Z.to_nat j) as [sh|] eqn:Ej; [|done].
      rewrite (new_shards_at _ _ _ Ej), Hi, Hc. done.
    + intros j c. unfold growth_for_shard. rewrite !Hnone. unfold shard_at. cbn [shards]. destruct (new_shards group !! Z.to_nat j) as [sh|] eqn:Ej; [|done].
      rewrite (new_shards_at _ _ _ Ej), Hi, Hc, Hal. done.
  - rewrite bool_decide_eq_false_2 by done. destruct Hl as [?|Hl]; [done|].
    split; [split; [split|done]|split_and!]; [right; by rewrite Es|by rewrite Es|by rewrite Es| |done|done].
    unfold directory_growth. rewrite Es, bool_decide_eq_false_2 by done. lia.
Qed.

Definition reserved_shard g g' (i c : Z) : Prop :=
  same_map g g' /\
  (group_alloc g + directory_growth g <= I64_MAX -> underestimated \/ group_alloc g' <= group_alloc g + directory_growth g + (growth_for_shard g i c).1).
Lemma growth_nonneg g i c : 0 <= (growth_for_shard g i c).1.
Proof. unfold growth_for_shard. destruct (match shard_at g i with Some _ => _ | None => _ end) as [n m]. destruct (_ <? _); simpl; mlia. Qed.
Lemma directory_growth_nonneg g : 0 <= directory_growth g.
Proof. unfold directory_growth, SHARDS. pose proof (proj1 size_laws). destruct (bool_decide _); lia. Qed.

Lemma reserve_table_spec g i c : hgroup_ok g -> length (shards g) = 64%nat -> 0 <= i < SHARDS -> 0 <= c ->
  match reserve_table i c g with
  | (Ok _, g') => same_map g g' /\ (group_alloc g <= I64_MAX -> underestimated \/ group_alloc g' <= group_alloc g + (growth_for_shard g i c).1) /\ c <= room g' i /\
      (forall j, 0 <= j -> j <> i -> shard_at g' j = shard_at g j) /\ length (shards g') = 64%nat
  | (Err _, g') => g' = g
  | (Panic, _) => False
  end.
Proof.
  intros Hg Hl Hi Hc. unfold reserve_table, SHARDS in *. destruct (lookup_lt_is_Some_2 (shards g) (Z.to_nat i)) as [sh Hs]; [lia|].
  unfold shard_at at 1. rewrite Hs. destruct (table_try_reserve c (shard_hash sh) (table sh)) as [t'|] eqn:Et; [|done].
  pose proof (proj2 Hg _ _ Hs) as (Hst & Hf & Hn).
  destruct (table_reserve_law (shard_hash sh) c (table sh) t' Hst Hc Et) as (Hov & Hp & Hst' & Hroom & Hal).
  set (sh' := with_table t' sh). assert (shard_ok g (Z.to_nat i) sh') as Hsh' by (split_and!; [done|cbn; by rewrite Hp..]).
  assert (Z.of_nat (Z.to_nat i) = i) as Ei by lia. pose proof (lookup_lt_Some _ _ _ Hs) as Hlt.
  pose proof (with_shard_ok g _ sh sh' Hg Hs Hsh') as Hg'. rewrite Ei in Hg'.
  destruct (entries_split g _ sh sh' Hs) as (rest & Hr & Hr'). cbn [table with_table sh'] in Hr'. rewrite Hp, <- Hr, Ei in Hr'.
  assert (group_alloc g <= I64_MAX -> table_allocation (table sh) <= I64_MAX) as Hold.
  { intros Hmax. pose proof (zsum_lookup_le (fun sh => table_allocation (table sh)) (shards g) _ sh (fun a _ => proj1 (table_bounds (table a))) Hs) as Hle. cbn beta in Hle.
    unfold group_alloc in Hmax. pose proof (proj1 size_laws). pose proof (len_nonneg (shards g)). nia. }
  split; [split; [exact Hg'|by split]|]. split_and!; [ | | |by unfold with_shard; cbn; rewrite length_insert].
  - intros Hmax. specialize (Hold Hmax). pose proof (with_shard_alloc g _ sh sh' Hs) as Ha. rewrite Ei in Ha. rewrite Ha. cbn [table with_table sh'].
    destruct (Z.le_gt_cases (len (table_iter (table sh)) + c) (table_capacity (table sh))) as [Hfit|Hfull].
    { right. rewrite (Hal Hfit). pose proof (growth_nonneg g i c). lia. }
    destruct (Z.le_gt_cases (table_allocation t') (expected_allocation c (table sh))) as [Hest|Hover].
    2:{ left. exists (shard_hash sh), c, (table sh), t'. by split_and!. }
    right. unfold expected_allocation in Hest. unfold growth_for_shard, shard_at. rewrite Hs. pose proof (len_nonneg (table_iter (table sh))). pose proof (proj1 (table_bounds (table sh))).
    assert (sat_add (len (table_iter (table sh))) c = len (table_iter (table sh)) + c) as -> by mlia.
    rewrite (proj2 (Z.ltb_lt _ _) Hfull). simpl. mlia.
  - unfold room. pose proof (with_shard_at g _ sh' i Hlt) as Hat. rewrite Ei, decide_True in Hat by done. rewrite Hat. cbn [table with_table sh']. unfold len in *. rewrite (Permutation_length Hp). lia.
  - intros j Hj Hne. pose proof (with_shard_at g _ sh' j Hlt) as Hat. rewrite Ei, decide_False in Hat by lia. done.
Qed.
Lemma reserve_shard_spec group g i c : hgroup_ok g -> 0 <= i < SHARDS -> 0 <= c ->
  match reserve_shard group i c g with
  | (Ok _, g') => reserved_shard g g' i c /\ c <= room g' i /\ directory_growth g' = 0 /\
      (forall j, 0 <= j -> j <> i -> room g' j = room g j /\ forall c', growth_for_shard g' j c' = growth_for_shard g j c')
  | (Err _, g') => reserved_shard g g' i c
  | (Panic, _) => False
  end.
Proof.
  intros Hg Hi Hc. unfold reserve_shard, mbind, M_bind. pose proof (ensure_directory_spec group g Hg) as Hd.
  pose proof (growth_nonneg g i c) as Hg0. pose proof (directory_growth_nonneg g) as Hd0.
  destruct (ensure_directory group g) as [[[]|e|] g1]; [| |done].
  2:{ subst g1. split; [by apply same_map_refl|lia]. }
  destruct Hd as (Hm1 & Hl1 & Ha1 & Hr1 & Hgr1).
  pose proof (reserve_table_spec g1 i c (proj1 Hm1) Hl1 Hi Hc) as Ht. rewrite Hgr1 in Ht.
  destruct (reserve_table i c g1) as [[[]|e|] g2]; [| |done].
  - destruct Ht as (Hm2 & Ha2 & Hroom & Hat & Hl2). split.
    { split; [by eapply same_map_trans|]. intros Hmax. destruct (Ha2 ltac:(lia)); [by left|right; lia]. } split_and!; [done| |].
    + unfold directory_growth. by rewrite Hl2, bool_decide_eq_false_2.
    + intros j Hj Hne. split; [by rewrite <- Hr1; unfold room; rewrite Hat|]. intros c'. by rewrite <- Hgr1; unfold growth_for_shard; rewrite Hat.
  - subst g2. split; [done|]. intros _. right. lia.
Qed.
End groups.
