(* ===== verification/HashStateSpec.v ===== *)
(** * Hashed keyed state: writes

    A write batch of the hashed backend applies all its mutations or none, and
    what it admits in advance covers the tables and entries it ends with. *)

From Stdlib Require Import ZArith Lia Strings.Byte.
From stdpp Require Import base list option numbers strings sorting.
From S2P Require Import Prelude Bytes OrdMap MemoryPool Snapshot OrderedState OrderedWrites KeyedState Restore HashState HashTableSpec.

(** ** Sums over keys *)

Lemma zsum_subset {A} (f : A -> Z) l k : NoDup l -> NoDup k -> (forall x, x ∈ l -> x ∈ k) -> (forall x, x ∈ k -> x ∉ l -> f x = 0) ->
  zsum f k = zsum f l.
Proof.
  intros Hl Hk Hsub Hz. destruct (submseteq_Permutation l k) as [r Hr]; [by apply NoDup_submseteq|].
  rewrite Hr, zsum_app. rewrite Hr in Hk. apply NoDup_app in Hk as (_ & Hd & _).
  assert (zsum f r = 0) as ->; [|lia]. rewrite (zsum_ext f (fun _ => 0)); [apply zsum_zero|].
  intros x Hx. apply Hz; [rewrite Hr; apply elem_of_app; by right|]. intros Hxl. by apply (Hd x).
Qed.
Lemma zsum_indicator {A} `{!EqDecision A} (k : list A) x (n : Z) : NoDup k -> x ∈ k -> zsum (fun y => if decide (y = x) then n else 0) k = n.
Proof.
  intros Hk Hx. rewrite (zsum_subset _ [x] k); [simpl; rewrite decide_True by done; lia|apply NoDup_singleton|done| |].
  - by intros y ->%list_elem_of_singleton.
  - intros y _ Hy. rewrite decide_False; [done|]. intros ->. apply Hy. constructor.
Qed.
Lemma zsum_le {A} (f g : A -> Z) l : (forall x, x ∈ l -> f x <= g x) -> zsum f l <= zsum g l.
Proof.
  induction l as [|x l IH]; intros Hl; [done|]. rewrite !zsum_cons. pose proof (Hl x ltac:(constructor)).
  specialize (IH (fun y Hy => Hl y ltac:(by constructor))). lia.
Qed.
Lemma mutated_last ms f kg k : mutated ms f kg k = f kg k \/
  exists m, m ∈ ms /\ key_group (mkey m) = kg /\ vdata (skey (mkey m)) = k /\ mutated ms f kg k = option_map vdata (mvalue m).
Proof.
  revert f. induction ms as [|m ms IH]; intros f; [by left|]. cbn [mutated].
  destruct (IH (fun kg' k' => if decide (kg' = key_group (mkey m) /\ k' = vdata (skey (mkey m))) then option_map vdata (mvalue m) else f kg' k')) as [E|(x & Hx & Hg & Hk & E)].
  - rewrite E. destruct (decide _) as [[-> ->]|]; [|by left]. right. exists m. split_and!; [constructor|done..].
  - right. exists x. split_and!; [by constructor|done..].
Qed.

Section state.
Context `{HL : HashTableLaws}.
Implicit Types (s : MemoryKeyedState) (g : KeyGroupMap) (m : StateMutation).

(** ** The state *)

Definition hkv s (kg : Z) (k : bytes) : option bytes := match hash_group s kg with Ok g => group_get g k | _ => None end.
Definition hash_owned s (kg : Z) : bool := match hash_group s kg with Ok _ => true | _ => false end.
Definition state_bytes s : Z := zsum group_bytes (hgroups s).
Definition state_alloc s : Z := zsum group_alloc (hgroups s).
Definition hash_footprint s : Z := len (hgroups s) * size_of_key_group_map + state_bytes s + state_alloc s.
Record tables_ok s : Prop := {
  to_first : 0 <= first_key_group s;
  to_groups : Forall hgroup_ok (hgroups s);
  to_bytes : entry_bytes_ s = state_bytes s;
}.

Lemma hash_index_Ok s kg i : 0 <= first_key_group s ->
  hash_index s kg = Ok i <-> kg = first_key_group s + Z.of_nat i /\ (i < length (hgroups s))%nat.
Proof.
  intros Hf. unfold hash_index, checked_sub, ok_or. destruct (Z.leb_spec (first_key_group s) kg); cbn [mbind outcome_bind]; [|naive_solver lia].
  destruct (Z.ltb_spec (kg - first_key_group s) (len (hgroups s))) as [Hl|Hl]; unfold len in Hl; [|naive_solver lia].
  split; [intros [= <-]; lia|]. intros [-> _]. f_equal. lia.
Qed.
Lemma hash_group_Ok s kg g : 0 <= first_key_group s ->
  hash_group s kg = Ok g <-> exists i, hash_index s kg = Ok i /\ hgroups s !! i = Some g.
Proof.
  intros Hf. unfold hash_group. rewrite outcome_bind_Ok. split; intros (i & Hi & Hg); exists i; (split; [done|]).
  - destruct (hgroups s !! i); naive_solver.
  - by rewrite Hg.
Qed.
Lemma hash_group_no_panic s kg : hash_group s kg <> Panic.
Proof.
  unfold hash_group, hash_index, ok_or. destruct (checked_sub _ _); [|done]. cbn [mbind outcome_bind]. destruct (_ <? _); [|done]. cbn. by destruct (_ !! _).
Qed.
Lemma group_facts s kg g : tables_ok s -> hash_group s kg = Ok g ->
  exists i, hash_index s kg = Ok i /\ hgroups s !! i = Some g /\ hgroup_ok g.
Proof.
  intros [Hf Hg _] (i & Hi & Hl)%hash_group_Ok; [|done]. exists i. split_and!; [done|done|]. rewrite Forall_lookup in Hg. by eapply Hg.
Qed.
Lemma state_alloc_nonneg s : 0 <= state_alloc s.
Proof. apply zsum_nonneg. intros g _. apply group_alloc_nonneg. Qed.
Lemma state_bytes_nonneg s : 0 <= state_bytes s.
Proof. apply zsum_nonneg. intros g _. apply hgroup_bytes_nonneg. Qed.
Lemma hash_footprint_nonneg s : 0 <= hash_footprint s.
Proof.
  unfold hash_footprint. pose proof (state_alloc_nonneg s). pose proof (state_bytes_nonneg s). pose proof (len_nonneg (hgroups s)). pose proof (proj2 size_laws). nia.
Qed.
Lemma group_alloc_le s i g : hgroups s !! i = Some g -> group_alloc g <= state_alloc s.
Proof. intros Hi. apply (zsum_lookup_le group_alloc _ i); [|done]. intros; apply group_alloc_nonneg. Qed.
Lemma group_bytes_le s i g : hgroups s !! i = Some g -> group_bytes g <= state_bytes s.
Proof. intros Hi. apply (zsum_lookup_le group_bytes _ i); [|done]. intros; apply hgroup_bytes_nonneg. Qed.
(** The estimate is exact while it fits. *)
Lemma estimated_exact s : tables_ok s -> hash_footprint s <= USIZE_MAX -> estimated_heap_size s = hash_footprint s.
Proof.
  intros [_ _ Hb] Hle. unfold estimated_heap_size. rewrite Hb. unfold hash_footprint in *.
  pose proof (state_alloc_nonneg s). pose proof (state_bytes_nonneg s). pose proof (len_nonneg (hgroups s)). pose proof (proj2 size_laws).
  assert (0 <= len (hgroups s) * size_of_key_group_map) by nia.
  rewrite (zsum_ext allocation_size group_alloc).
  - change (zsum group_alloc (hgroups s)) with (state_alloc s). rewrite wrapu_small by mlia. mlia.
  - intros g [i Hi]%list_elem_of_lookup_1. pose proof (group_alloc_le s i g Hi). pose proof (group_alloc_nonneg g).
    change (wrapu 64 (group_alloc g) = group_alloc g). apply wrapu_small. mlia.
Qed.

Lemma hash_group_set s i g g' kg : tables_ok s -> hgroups s !! i = Some g ->
  hash_group (set_hgroup i g' s) kg = if decide (kg = first_key_group s + Z.of_nat i) then Ok g' else hash_group s kg.
Proof.
  intros [Hf _ _] Hi. unfold hash_group, hash_index. cbn [first_key_group hgroups set_hgroup]. unfold len. rewrite length_insert.
  pose proof (lookup_lt_Some _ _ _ Hi). unfold checked_sub, ok_or.
  destruct (decide (kg = first_key_group s + Z.of_nat i)) as [->|Hne].
  - rewrite (proj2 (Z.leb_le _ _)) by lia. cbn [mbind outcome_bind]. rewrite (proj2 (Z.ltb_lt _ _)) by lia. cbn.
    replace (Z.to_nat (first_key_group s + Z.of_nat i - first_key_group s)) with i by lia. by rewrite list_lookup_insert_eq by done.
  - destruct (Z.leb_spec (first_key_group s) kg); [|done]. cbn [mbind outcome_bind]. destruct (_ <? _); [|done]. cbn.
    by rewrite list_lookup_insert_ne by lia.
Qed.
Lemma hkv_set s i g g' kg k : tables_ok s -> hgroups s !! i = Some g ->
  hkv (set_hgroup i g' s) kg k = if decide (kg = first_key_group s + Z.of_nat i) then group_get g' k else hkv s kg k.
Proof. intros Hs Hi. unfold hkv. rewrite (hash_group_set s i g g' kg Hs Hi). by destruct (decide _). Qed.

(** ** The bytes of the keys *)

Fixpoint slots_from (kg : Z) (gs : list KeyGroupMap) : list (Z * bytes) :=
  match gs with
  | [] => []
  | g :: gs => map (fun e => (kg, packed_key e)) (group_entries g) ++ slots_from (kg + 1) gs
  end.
Lemma elem_slots kg gs x : x ∈ slots_from kg gs <->
  exists i g e, gs !! i = Some g /\ e ∈ group_entries g /\ x = (kg + Z.of_nat i, packed_key e).
Proof.
  revert kg. induction gs as [|g gs IH]; intros kg; cbn [slots_from].
  { split; [by intros ?%elem_of_nil|]. intros (i & g & e & Hi & _). by rewrite lookup_nil in Hi. }
  rewrite elem_of_app, IH. split.
  - intros [(e & -> & He)%list_elem_of_fmap|(i & g' & e & Hi & He & ->)].
    + exists O, g, e. split_and!; [done|done|]. f_equal. lia.
    + exists (S i), g', e. split_and!; [done|done|]. f_equal. lia.
  - intros ([|i] & g' & e & Hi & He & ->).
    + left. simpl in Hi. simplify_eq. apply list_elem_of_fmap. exists e. split; [f_equal; lia|done].
    + right. exists i, g', e. split_and!; [done|done|]. f_equal. lia.
Qed.
Lemma slots_nodup kg gs : Forall hgroup_ok gs -> NoDup (slots_from kg gs).
Proof.
  intros Hg. revert kg. induction Hg as [|g gs Hg Hgs IH]; intros kg; [constructor|]. cbn [slots_from]. apply NoDup_app. split_and!.
  - rewrite <- (map_map packed_key (fun k => (kg, k))). apply NoDup_fmap; [by intros ?? [= ->]|]. by apply entries_nodup_keys.
  - intros x (e & -> & _)%list_elem_of_fmap (i & g' & e' & _ & _ & [= E _])%elem_slots. lia.
  - apply IH.
Qed.
Lemma slots_sum (f : Z * bytes -> Z) kg gs :
  (forall i g e, gs !! i = Some g -> e ∈ group_entries g -> f (kg + Z.of_nat i, packed_key e) = len (packed_bytes e)) ->
  zsum f (slots_from kg gs) = zsum group_bytes gs.
Proof.
  revert kg. induction gs as [|g gs IH]; intros kg Hf; [done|]. cbn [slots_from]. rewrite zsum_app, zsum_cons, zsum_map, IH.
  - f_equal. unfold group_bytes. apply zsum_ext. intros e He. rewrite <- (Hf O g e) by done. do 2 f_equal. lia.
  - intros i g' e Hi He. rewrite <- (Hf (S i) g' e) by done. do 2 f_equal. lia.
Qed.
(** The bytes stored for a key. *)
Definition key_bytes (f : Z -> bytes -> option bytes) (x : Z * bytes) : Z :=
  match f x.1 x.2 with Some v => len x.2 + len v | None => 0 end.
Lemma hkv_slots s kg k v : tables_ok s -> hkv s kg k = Some v -> (kg, k) ∈ slots_from (first_key_group s) (hgroups s).
Proof.
  intros Hs Hv. unfold hkv in Hv. destruct (hash_group s kg) as [g| |] eqn:Eg; [|done..].
  destruct (group_facts s kg g Hs Eg) as (i & Hi & Hl & Hok). apply group_get_Some in Hv as (e & He & <- & _); [|done].
  apply hash_index_Ok in Hi as [-> _]; [|apply Hs]. apply elem_slots. by exists i, g, e.
Qed.
Lemma state_bytes_sum s K : tables_ok s -> NoDup K -> (forall kg k, hkv s kg k <> None -> (kg, k) ∈ K) -> state_bytes s = zsum (key_bytes (hkv s)) K.
Proof.
  intros Hs HK Hin. rewrite (zsum_subset _ (slots_from (first_key_group s) (hgroups s)) K); [|by apply slots_nodup, Hs|done| |].
  - symmetry. apply slots_sum. intros i g e Hi He. unfold key_bytes. cbn [fst snd].
    assert (hgroup_ok g) as Hg by (pose proof (to_groups s Hs) as Hg; rewrite Forall_lookup in Hg; by eapply Hg).
    assert (hkv s (first_key_group s + Z.of_nat i) (packed_key e) = Some (packed_value e)) as ->.
    { unfold hkv. rewrite (proj2 (hash_group_Ok s _ g (to_first s Hs))).
      - apply group_get_Some; [done|]. by exists e.
      - exists i. split; [|done]. apply hash_index_Ok; [apply Hs|]. split; [done|]. by eapply lookup_lt_Some. }
    symmetry. apply packed_len. by eapply entry_facts.
  - intros [kg k] (i & g & e & Hi & He & [= -> ->])%elem_slots. apply Hin. unfold hkv.
    assert (hgroup_ok g) as Hg by (pose proof (to_groups s Hs) as Hg; rewrite Forall_lookup in Hg; by eapply Hg).
    rewrite (proj2 (hash_group_Ok s _ g (to_first s Hs))).
    + assert (group_get g (packed_key e) = Some (packed_value e)) as -> by (apply group_get_Some; [done|]; by exists e). done.
    + exists i. split; [|done]. apply hash_index_Ok; [apply Hs|]. split; [done|]. by eapply lookup_lt_Some.
  - intros [kg k] _ Hn. unfold key_bytes. cbn [fst snd]. destruct (hkv s kg k) as [v|] eqn:E; [|done]. by apply hkv_slots in E.
Qed.

(** ** What a batch adds to the payload *)

Definition contribution s m : Z :=
  match mvalue m, hkv s (key_group (mkey m)) (vdata (skey (mkey m))) with
  | Some v, Some old => Z.max 0 (vcap v - len old)
  | Some v, None => vcap (skey (mkey m)) + vcap v + bucket_bytes
  | None, _ => 0
  end.
Lemma contribution_nonneg s m : mutation_ok m -> 0 <= contribution s m.
Proof.
  intros [Hk Hv]. unfold contribution, bucket_bytes, size_of_packed_entry, vec_ok in *. pose proof (len_nonneg (vdata (skey (mkey m)))).
  destruct (mvalue m) as [v|]; [|done]. specialize (Hv v eq_refl). pose proof (len_nonneg (vdata v)). destruct (hkv _ _ _); lia.
Qed.
Lemma contributions_nonneg s ms : Forall mutation_ok ms -> 0 <= zsum (contribution s) ms.
Proof. intros Hm. apply zsum_nonneg. intros m Hin. apply contribution_nonneg. rewrite Forall_forall in Hm. by apply Hm. Qed.
Lemma payload_growth_spec s ms : Forall mutation_ok ms -> forall growth overlap growth' overlap',
  is_usize growth -> payload_growth s ms growth overlap = Ok (growth', overlap') ->
  growth <= growth' <= USIZE_MAX /\ (growth' < USIZE_MAX -> growth + zsum (contribution s) ms <= growth') /\
  Forall (fun m => hash_owned s (key_group (mkey m)) = true) ms.
Proof.
  intros Hms. induction Hms as [|m ms Hm Hms IH]; intros gr ov gr' ov' Hgr; cbn [payload_growth].
  { intros [= <- <-]. split_and!; [mlia|mlia| |constructor]. simpl. lia. }
  unfold mutation_growth. destruct (hash_group s (key_group (mkey m))) as [g| |] eqn:Eg; [|done..]. cbn [mbind outcome_bind].
  pose proof (contribution_nonneg s m Hm) as H0. pose proof (contributions_nonneg s ms Hms) as H1. destruct Hm as [Hk Hv].
  unfold vec_ok in *. pose proof (len_nonneg (vdata (skey (mkey m)))).
  assert (hash_owned s (key_group (mkey m)) = true) as Ho by (unfold hash_owned; by rewrite Eg).
  rewrite zsum_cons. assert (hkv s (key_group (mkey m)) (vdata (skey (mkey m))) = group_get g (vdata (skey (mkey m)))) as Ekv by (unfold hkv; by rewrite Eg).
  unfold contribution at 1. unfold contribution in H0. rewrite Ekv in *. unfold bucket_bytes, size_of_packed_entry in *.
  destruct (mvalue m) as [v|].
  - specialize (Hv v eq_refl). pose proof (len_nonneg (vdata v)). destruct (group_get g _) as [old|]; intros E; apply IH in E as (Hr & Hlt & Hf); try mlia.
    + pose proof (len_nonneg old). split_and!; [mlia|mlia| |by constructor]. intros Hl. specialize (Hlt Hl). mlia.
    + split_and!; [mlia|mlia| |by constructor]. intros Hl. specialize (Hlt Hl). mlia.
  - intros E. apply IH in E as (Hr & Hlt & Hf); [|done]. split_and!; [mlia|mlia| |by constructor]. intros Hl. specialize (Hlt Hl). destruct (group_get g _); lia.
Qed.
(** A state reached by some of the mutations holds no more than they contribute. *)
Lemma state_bytes_bound s0 s ms : tables_ok s0 -> tables_ok s -> Forall mutation_ok ms ->
  (forall kg k, hkv s kg k = mutated ms (hkv s0) kg k) -> state_bytes s <= state_bytes s0 + zsum (contribution s0) ms.
Proof.
  intros H0 Hs Hms Hkv.
  set (K := remove_dups (slots_from (first_key_group s0) (hgroups s0) ++ slots_from (first_key_group s) (hgroups s) ++ map mutation_slot ms)).
  assert (NoDup K) as HK by apply NoDup_remove_dups.
  assert (forall x, x ∈ K <-> x ∈ slots_from (first_key_group s0) (hgroups s0) ++ slots_from (first_key_group s) (hgroups s) ++ map mutation_slot ms) as Hin
    by (intros x; apply elem_of_remove_dups).
  rewrite (state_bytes_sum s0 K H0 HK), (state_bytes_sum s K Hs HK).
  2:{ intros kg k Hne. apply Hin. destruct (hkv s kg k) as [v|] eqn:E; [|done]. apply elem_of_app. right. apply elem_of_app. left. by eapply hkv_slots. }
  2:{ intros kg k Hne. apply Hin. destruct (hkv s0 kg k) as [v|] eqn:E; [|done]. apply elem_of_app. left. by eapply hkv_slots. }
  assert (zsum (contribution s0) ms = zsum (fun x => zsum (fun m => if decide (x = mutation_slot m) then contribution s0 m else 0) ms) K) as ->.
  { rewrite zsum_swap. apply zsum_ext. intros m Hm. symmetry. apply zsum_indicator; [done|]. apply Hin. apply elem_of_app. right. apply elem_of_app. right.
    apply list_elem_of_fmap. eauto. }
  rewrite <- zsum_plus. apply zsum_le. intros [kg k] _. unfold key_bytes. cbn [fst snd].
  rewrite Forall_forall in Hms.
  assert (forall m, m ∈ ms -> 0 <= (if decide ((kg, k) = mutation_slot m) then contribution s0 m else 0)) as Hnn.
  { intros m Hm. destruct (decide _); [by apply contribution_nonneg, Hms|done]. }
  pose proof (zsum_nonneg _ ms Hnn) as Hsum. rewrite Hkv.
  destruct (mutated_last ms (hkv s0) kg k) as [->|(m & Hm & Hkg & Hk & ->)]; [lia|].
  apply list_elem_of_lookup_1 in Hm as [i Hi]. pose proof (zsum_lookup_le _ ms i m Hnn Hi) as Hle. cbn beta in Hle.
  assert (mutation_ok m) as [Hkm Hvm] by (apply Hms; by eapply list_elem_of_lookup_2).
  rewrite decide_True in Hle by (unfold mutation_slot; by rewrite Hkg, Hk). unfold contribution, bucket_bytes, size_of_packed_entry, vec_ok in *. rewrite Hkg, Hk in *.
  pose proof (len_nonneg k). destruct (mvalue m) as [v|]; cbn [option_map].
  - specialize (Hvm v eq_refl). destruct (hkv s0 kg k) as [old|]; lia.
  - destruct (hkv s0 kg k) as [old|]; [pose proof (len_nonneg old)|]; lia.
Qed.

(** ** One mutation *)

Definition sroom s (x : Z * Z) : Z := match hash_group s x.1 with Ok g => room g x.2 | _ => 0 end.
Definition shard_slot s m : Z * Z :=
  (key_group (mkey m), match hash_group s (key_group (mkey m)) with Ok g => shard_index g (vdata (skey (mkey m))) | _ => 0 end).
(** A put of a key the state does not hold. *)
Definition is_new s m : bool := is_put m && bool_decide (hkv s (key_group (mkey m)) (vdata (skey (mkey m))) = None).
Definition adds_to s m (x : Z * Z) : Z := if decide (is_new s m = true /\ shard_slot s m = x) then 1 else 0.
Definition need s (ms : list StateMutation) (x : Z * Z) : Z := zsum (fun m => adds_to s m x) ms.

(** The same shape: groups, routing and what the state reserves. *)
Definition same_shape s s' : Prop :=
  first_key_group s' = first_key_group s /\ length (hgroups s') = length (hgroups s) /\ hreservation s' = hreservation s /\
  (forall m, shard_slot s' m = shard_slot s m) /\ (forall kg, hash_owned s' kg = hash_owned s kg).
Lemma same_shape_refl s : same_shape s s.
Proof. done. Qed.
Lemma same_shape_trans s s1 s2 : same_shape s s1 -> same_shape s1 s2 -> same_shape s s2.
Proof.
  intros (F1 & L1 & R1 & S1 & O1) (F2 & L2 & R2 & S2 & O2). split_and!; [congruence..| |]; intros; [by rewrite S2|by rewrite O2].
Qed.
Lemma set_group_shape s i g g' : tables_ok s -> hgroups s !! i = Some g -> routing g' = routing g -> same_shape s (set_hgroup i g' s).
Proof.
  intros Hs Hi Hr. split_and!; [done|cbn; apply length_insert|done| |].
  - intros m. unfold shard_slot. f_equal. rewrite (hash_group_set s i g) by done. destruct (decide _) as [E|]; [|done].
    rewrite (proj2 (hash_group_Ok s _ g (to_first s Hs))).
    + unfold shard_index. by rewrite Hr.
    + exists i. split; [|done]. apply hash_index_Ok; [apply Hs|]. split; [done|]. by eapply lookup_lt_Some.
  - intros kg. unfold hash_owned. rewrite (hash_group_set s i g) by done. destruct (decide _) as [->|]; [|done].
    by rewrite (proj2 (hash_group_Ok s _ g (to_first s Hs))); [|exists i; split; [|done]; apply hash_index_Ok; [apply Hs|]; split; [done|]; by eapply lookup_lt_Some].
Qed.

Definition mutation_step s m s1 : Prop :=
  tables_ok (set_entry_bytes (state_bytes s1) s1) /\ (forall kg k, hkv s1 kg k = mutated [m] (hkv s) kg k) /\
  state_alloc s1 = state_alloc s /\ same_shape s s1 /\ (forall x, 0 <= x.2 -> sroom s x - adds_to s m x <= sroom s1 x).
(** A step on the group of the key. *)
Lemma group_step s m i g g' : tables_ok s -> hash_index s (key_group (mkey m)) = Ok i -> hgroups s !! i = Some g -> hgroup_ok g' ->
  routing g' = routing g -> group_alloc g' = group_alloc g ->
  (forall k, group_get g' k = if decide (k = vdata (skey (mkey m))) then option_map vdata (mvalue m) else group_get g k) ->
  (forall j, 0 <= j -> room g j - adds_to s m (key_group (mkey m), j) <= room g' j) ->
  mutation_step s m (set_hgroup i g' s).
Proof.
  intros Hs Hi Hl Hg' Hr Ha Hget Hroom. pose proof Hs as [Hf Hgs Hb]. apply hash_index_Ok in Hi as [Hkg Hlt]; [|done].
  split_and!; [split; [done| |done]|..].
  - cbn. by apply Forall_insert.
  - intros kg k. rewrite (hkv_set s i g g' kg k Hs Hl). cbn [mutated]. rewrite Hkg. destruct (decide (kg = _)) as [->|Hne].
    + rewrite Hget. assert (hkv s (first_key_group s + Z.of_nat i) k = group_get g k) as ->.
      { unfold hkv. rewrite (proj2 (hash_group_Ok s _ g Hf)); [done|]. exists i. split; [|done]. by apply hash_index_Ok. }
      destruct (decide (k = _)) as [->|]; [by rewrite decide_True|by rewrite decide_False by naive_solver].
    + by rewrite decide_False by naive_solver.
  - unfold state_alloc. cbn [hgroups set_hgroup]. rewrite (zsum_insert _ _ _ g) by done. lia.
  - by apply (set_group_shape s i g).
  - intros [kg j] Hj. cbn [snd] in Hj. unfold sroom. cbn [fst snd]. rewrite (hash_group_set s i g g' kg Hs Hl). destruct (decide (kg = _)) as [->|].
    + rewrite (proj2 (hash_group_Ok s _ g Hf)); [|exists i; split; [|done]; by apply hash_index_Ok]. rewrite <- Hkg. by apply Hroom.
    + destruct (hash_group s kg); unfold adds_to; destruct (decide _); lia.
Qed.
Lemma hash_mutation_spec s m : tables_ok s -> mutation_ok m -> hash_owned s (key_group (mkey m)) = true -> state_bytes s <= USIZE_MAX ->
  (is_new s m = true -> 0 < sroom s (shard_slot s m)) ->
  exists s1, hash_mutation m s = (Ok tt, set_entry_bytes (Z.min (state_bytes s1) USIZE_MAX) s1) /\ mutation_step s m s1.
Proof.
  intros Hs [Hkm Hvm] Hown Hle Hnew. unfold hash_owned in Hown. destruct (hash_group s (key_group (mkey m))) as [g| |] eqn:Eg; [|done..].
  destruct (group_facts s _ g Hs Eg) as (i & Hi & Hl & Hg). unfold hash_mutation, on_group. rewrite Hi, Hl.
  assert (shard_slot s m = (key_group (mkey m), shard_index g (vdata (skey (mkey m))))) as Eslot by (unfold shard_slot; by rewrite Eg).
  assert (hkv s (key_group (mkey m)) (vdata (skey (mkey m))) = group_get g (vdata (skey (mkey m)))) as Ekv by (unfold hkv; by rewrite Eg).
  assert (sroom s (shard_slot s m) = room g (shard_index g (vdata (skey (mkey m))))) as Eroom by (rewrite Eslot; unfold sroom; cbn; by rewrite Eg).
  pose proof (group_bytes_le s i g Hl) as Hgb. pose proof (state_bytes_nonneg s). pose proof (hgroup_bytes_nonneg g).
  assert (forall g', state_bytes (set_hgroup i g' s) = state_bytes s - group_bytes g + group_bytes g') as Hsum.
  { intros g'. unfold state_bytes. cbn [hgroups set_hgroup]. by rewrite (zsum_insert _ _ _ g). }
  rewrite Eroom in Hnew. unfold is_new, is_put in Hnew. rewrite Ekv in Hnew. destruct (mvalue m) as [v|] eqn:Ev.
  - specialize (Hvm v eq_refl). unfold vec_ok in *.
    assert (shard_at g (shard_index g (vdata (skey (mkey m)))) <> None) as Hsh.
    { intros Hn. assert (group_get g (vdata (skey (mkey m))) = None) as Hgn by (unfold group_get; by rewrite Hn).
      rewrite Hgn in Hnew. specialize (Hnew eq_refl). unfold room in Hnew. rewrite Hn in Hnew. lia. }
    destruct (group_insert_spec g (vdata (skey (mkey m))) (vdata v) Hg Hsh) as (added & removed & g' & -> & Hput); [mlia|].
    destruct Hput as (Hg' & Hget & Hbytes & Hrt & Hoth & Hcase). exists (set_hgroup i g' s). split.
    + f_equal. unfold set_hgroup at 1 2. cbn [entry_bytes_]. f_equal. rewrite (to_bytes s Hs), Hsum.
      assert (0 <= removed <= group_bytes g /\ 0 <= added) as [Hrem Hadd]; [|mlia].
      pose proof (len_nonneg (vdata (skey (mkey m)))). pose proof (len_nonneg (vdata v)). pose proof (hgroup_bytes_nonneg g').
      destruct (group_get g (vdata (skey (mkey m)))) as [old|] eqn:Eo; [|lia]. destruct Hcase as (-> & -> & _). pose proof (len_nonneg old).
      apply group_get_Some in Eo as (e & He & Hek & <-); [|done]. apply list_elem_of_lookup_1 in He as [j Hj].
      pose proof (zsum_lookup_le (fun e => len (packed_bytes e)) (group_entries g) j e (fun a _ => len_nonneg (packed_bytes a)) Hj) as Hple. cbn beta in Hple.
      rewrite (packed_len e) in Hple; [|eapply entry_facts; [exact Hg|by eapply list_elem_of_lookup_2]]. pose proof (len_nonneg (packed_key e)). unfold group_bytes. lia.
    + apply (group_step s m i g g'); [done..| | |].
      * destruct (group_get g _); [apply Hcase|]. apply Hcase. by apply Hnew.
      * by rewrite Ev.
      * intros j Hj. unfold adds_to. rewrite Eslot. unfold is_new, is_put. rewrite Ev, Ekv. destruct (decide (j = shard_index g (vdata (skey (mkey m))))) as [->|Hne].
        -- destruct (group_get g _) as [old|]; [rewrite decide_False by naive_solver; destruct Hcase as (_ & _ & _ & ->); lia|].
           rewrite decide_True by done. destruct Hcase as (_ & _ & Hc). apply Hc. by apply Hnew.
        -- rewrite (Hoth j Hj Hne). destruct (decide _); lia.
  - destruct (remove_bytes_spec g (vdata (skey (mkey m))) Hg ltac:(lia)) as (removed & g' & E & Hrem). unfold mbind, M_bind. rewrite E. cbn [mret M_ret].
    destruct Hrem as (Hg' & Hget & Hbytes & Hrt & Ha & Hroom & Hr). exists (set_hgroup i g' s). split.
    + f_equal. unfold set_hgroup at 1 2. cbn [entry_bytes_]. f_equal. rewrite (to_bytes s Hs), Hsum. pose proof (hgroup_bytes_nonneg g'). mlia.
    + apply (group_step s m i g g'); [done..| |]; [by rewrite Ev|]. intros j Hj. specialize (Hroom j Hj). unfold adds_to. destruct (decide _); lia.
Qed.

(** ** All mutations *)

(** No key is put again after it was deleted in the same batch. Such a put is not
    counted as an addition, because the state held the key when the batch was
    admitted, and the table may have no room for it. *)
Fixpoint no_reput (ms : list StateMutation) : Prop :=
  match ms with
  | [] => True
  | m :: ms => (is_put m = false -> Forall (fun m' => is_put m' = true -> mutation_slot m' <> mutation_slot m) ms) /\ no_reput ms
  end.
Lemma adds_to_range s m x : 0 <= adds_to s m x <= 1.
Proof. unfold adds_to. destruct (decide _); lia. Qed.
Lemma need_nonneg s ms x : 0 <= need s ms x.
Proof. apply zsum_nonneg. intros m _. apply adds_to_range. Qed.

Lemma hash_mutations_spec s0 ms : tables_ok s0 -> forall done s,
  Forall mutation_ok (done ++ ms) -> no_reput ms -> Forall (fun m => hash_owned s0 (key_group (mkey m)) = true) ms ->
  tables_ok s -> same_shape s0 s -> (forall kg k, hkv s kg k = mutated done (hkv s0) kg k) ->
  (forall x, 0 <= x.2 -> need s0 ms x <= sroom s x) ->
  Forall (fun m => is_put m = true -> is_new s m = true -> is_new s0 m = true) ms ->
  state_bytes s0 + zsum (contribution s0) (done ++ ms) <= USIZE_MAX ->
  exists s', hash_mutations ms s = (Ok tt, s') /\ tables_ok s' /\ same_shape s0 s' /\
    (forall kg k, hkv s' kg k = mutated (done ++ ms) (hkv s0) kg k) /\ state_alloc s' = state_alloc s.
Proof.
  intros H0. unfold hash_mutations. induction ms as [|m ms IH]; intros done s Hok Hre Hown Hs Hsh Hkv Hneed Hpres Hmax; cbn [forM].
  { exists s. split_and!; [done|done|done|by rewrite app_nil_r|done]. }
  apply Forall_cons in Hown as [Ho Hown]. apply Forall_cons in Hpres as [Hp Hpres]. destruct Hre as [Hdel Hre].
  assert (mutation_ok m) as Hm by (apply Forall_app in Hok as [_ [Hm _]%Forall_cons]; done).
  assert (Forall mutation_ok done) as Hokd by (by apply Forall_app in Hok as [? _]).
  assert (zsum (contribution s0) done <= zsum (contribution s0) (done ++ m :: ms)) as Hle.
  { rewrite zsum_app. apply Forall_app in Hok as [_ Hok2]. pose proof (contributions_nonneg s0 (m :: ms) Hok2). lia. }
  pose proof (state_bytes_bound s0 s done H0 Hs Hokd Hkv) as Hb.
  assert (is_new s m = true -> is_new s0 m = true) as Hnew.
  { intros Hn. apply Hp; [|done]. unfold is_new in Hn. by apply andb_true_iff in Hn as [? _]. }
  assert (forall x, adds_to s m x <= adds_to s0 m x) as Hadds.
  { intros x. unfold adds_to. destruct Hsh as (_ & _ & _ & Hslot & _). rewrite Hslot. destruct (decide (is_new s m = true /\ _)) as [[Hn Hx]|]; [|destruct (decide _); lia].
    by rewrite decide_True by auto. }
  destruct (hash_mutation_spec s m Hs Hm) as (s1 & E & Hs1 & Hkv1 & Ha1 & Hsh1 & Hroom1).
  { destruct Hsh as (_ & _ & _ & _ & Hos). by rewrite Hos. }
  { lia. }
  { intros Hn. assert (0 <= (shard_slot s m).2) as Hpos.
    { unfold shard_slot. destruct (hash_group s _) as [g| |]; cbn; [apply shard_index_range|lia..]. }
    pose proof (Hneed (shard_slot s m) Hpos) as Hnd. unfold need in Hnd. rewrite zsum_cons in Hnd. pose proof (need_nonneg s0 ms (shard_slot s m)) as Hnn. unfold need in Hnn.
    assert (adds_to s0 m (shard_slot s m) = 1); [|lia]. unfold adds_to. destruct Hsh as (_ & _ & _ & Hslot & _). rewrite decide_True; [done|]. by rewrite Hslot, Hnew. }
  rewrite (M_bind_run _ _ _ _ _ E).
  assert (forall kg k, hkv s1 kg k = mutated (done ++ [m]) (hkv s0) kg k) as Hkv1'.
  { intros kg k. rewrite Hkv1, mutated_app. by apply mutated_ext. }
  assert (Forall mutation_ok (done ++ [m])) as Hokd1 by (apply Forall_app; split; [done|by constructor]).
  assert (state_bytes s1 <= USIZE_MAX) as Hb1.
  { pose proof (state_bytes_bound s0 (set_entry_bytes (state_bytes s1) s1) (done ++ [m]) H0 Hs1 Hokd1 Hkv1') as Hb1.
    change (state_bytes (set_entry_bytes (state_bytes s1) s1)) with (state_bytes s1) in Hb1. rewrite !zsum_app, zsum_cons in *. cbn [zsum foldr] in Hb1.
    apply Forall_app in Hok as [_ [_ Hok2]%Forall_cons]. pose proof (contributions_nonneg s0 ms Hok2). lia. }
  rewrite Z.min_l by done.
  destruct (IH (done ++ [m]) (set_entry_bytes (state_bytes s1) s1)) as (s' & E' & Hs' & Hsh' & Hkv' & Ha'); [by rewrite <- app_assoc|done|done|done| |done| | |by rewrite <- app_assoc|].
  - eapply same_shape_trans; [exact Hsh|exact Hsh1].
  - intros x Hx. specialize (Hneed x Hx). specialize (Hroom1 x Hx). specialize (Hadds x). unfold need in *. rewrite zsum_cons in Hneed.
    change (sroom (set_entry_bytes (state_bytes s1) s1) x) with (sroom s1 x). lia.
  - rewrite Forall_forall in Hpres |- *. intros m' Hm' Hput' Hn'. apply Hpres; [done|done|]. unfold is_new in *. rewrite Hput' in *. cbn [andb] in *.
    apply bool_decide_eq_true in Hn'. apply bool_decide_eq_true. change (hkv (set_entry_bytes (state_bytes s1) s1)) with (hkv s1) in Hn'. rewrite Hkv1 in Hn'. cbn [mutated] in Hn'.
    destruct (decide _) as [[Ekg Ek]|]; [|done]. exfalso. destruct (is_put m) eqn:Eput; [unfold is_put in Eput; by destruct (mvalue m)|].
    specialize (Hdel eq_refl). rewrite Forall_forall in Hdel. apply (Hdel m' Hm' Hput'). unfold mutation_slot. by rewrite Ekg, Ek.
  - exists s'. rewrite <- app_assoc in Hkv'. split_and!; [done|done|done|done|]. rewrite Ha'. exact Ha1.
Qed.
End state.
