(* ===== verification/HashWrites.v ===== *)
(** * Hashed keyed state: admission and atomic batches

    The tables a batch may need are counted per shard, charged and reserved before
    the first mutation. *)

From Stdlib Require Import ZArith Lia Strings.Byte.
From stdpp Require Import base list option numbers strings sorting.
From S2P Require Import Prelude Bytes OrdMap MemoryPool Snapshot OrderedState OrderedWrites KeyedState Restore HashState HashTableSpec HashStateSpec.

Section writes.
Context `{HL : HashTableLaws}.
Implicit Types (s : MemoryKeyedState) (g : KeyGroupMap) (m : StateMutation).

(** ** Counting additions *)

Abbreviation addition := (Z * Z * Z)%type.
Definition addition_ok s (p : addition) : Prop := hash_owned s p.1.1 = true /\ 0 <= p.1.2 < SHARDS /\ 0 < p.2.
Definition count_of (l : list addition) (x : Z * Z) : Z := match bt_find fst x l with Some p => p.2 | None => 0 end.
Lemma is_addition_spec s m : hash_owned s (key_group (mkey m)) = true -> is_addition s m = Ok (is_new s m).
Proof.
  intros Ho. unfold is_addition, is_new, is_put, hkv, hash_owned in *. destruct (mvalue m); [|done].
  destruct (hash_group s _) as [g| |]; [|done..]. cbn. f_equal. unfold contains_key. by destruct (group_get g _).
Qed.
Lemma additions_bound_spec s ms : Forall (fun m => hash_owned s (key_group (mkey m)) = true) ms ->
  exists n, additions_bound s ms = Ok n /\ 0 <= n.
Proof.
  induction 1 as [|m ms Ho _ (n & E & Hn)]; [by exists 0|]. cbn [additions_bound]. rewrite is_addition_spec by done. cbn. rewrite E. cbn.
  destruct (is_new s m); eexists; (split; [done|]); lia.
Qed.
Lemma slot_range s m : hash_owned s (key_group (mkey m)) = true -> 0 <= (shard_slot s m).2 < SHARDS.
Proof. intros Ho. unfold shard_slot, hash_owned in *. destruct (hash_group s _) as [g| |]; [|done..]. apply shard_index_range. Qed.
Lemma slot_ocmp (x y : Z * Z) : ocmp x y = Eq <-> x = y.
Proof. split; [apply ocmp_eq|intros ->; apply ocmp_refl]. Qed.
Lemma count_put (l : list addition) x y : bt_sorted fst l ->
  count_of (bt_put fst (fun p => (p.1, p.2 + 1)) (x, 1) l) y = count_of l y + if decide (x = y) then 1 else 0.
Proof.
  intros Hs. unfold count_of. destruct (decide (x = y)) as [->|Hne].
  - rewrite (bt_find_put_eq fst (fun p : addition => (p.1, p.2 + 1)) ltac:(done) (y, 1) l y Hs (ocmp_refl y)).
    destruct (bt_find fst y l); [done|]. cbn. lia.
  - rewrite (bt_find_put_ne fst (fun p : addition => (p.1, p.2 + 1)) ltac:(done) (x, 1) l y); [lia|]. cbn. rewrite slot_ocmp. naive_solver.
Qed.
Lemma count_additions_spec s ms : Forall (fun m => hash_owned s (key_group (mkey m)) = true) ms -> forall l,
  bt_sorted fst l -> Forall (addition_ok s) l ->
  exists l', count_additions s ms l = Ok l' /\ bt_sorted fst l' /\ Forall (addition_ok s) l' /\
    forall x, count_of l' x = count_of l x + need s ms x.
Proof.
  induction 1 as [|m ms Ho _ IH]; intros l Hs Hl; cbn [count_additions].
  { exists l. split_and!; [done..|]. intros x. unfold need. cbn. lia. }
  rewrite is_addition_spec by done. cbn [mbind outcome_bind]. destruct (is_new s m) eqn:En.
  - assert (exists g, hash_group s (key_group (mkey m)) = Ok g) as [g Eg] by (unfold hash_owned in Ho; destruct (hash_group s _); naive_solver).
    rewrite Eg. cbn [mbind outcome_bind]. assert ((key_group (mkey m), shard_index g (vdata (skey (mkey m)))) = shard_slot s m) as -> by (unfold shard_slot; by rewrite Eg).
    destruct (IH (bt_put fst (fun p => (p.1, p.2 + 1)) (shard_slot s m, 1) l)) as (l' & E & Hs' & Hl' & Hc).
    + by apply bt_put_sorted.
    + rewrite Forall_forall in Hl |- *. pose proof (slot_range s m Ho). intros p Hp.
      destruct (elem_of_bt_put fst (fun p : addition => (p.1, p.2 + 1)) ltac:(done) _ _ _ Hp) as [->|[Hp'|(q & Hq & ->)]]; [done|by apply Hl|].
      destruct (Hl q Hq) as (? & ? & ?). split_and!; cbn; [done|lia..].
    + exists l'. split_and!; [done..|]. intros x. rewrite Hc, count_put by done. unfold need. rewrite zsum_cons. unfold adds_to at 2. rewrite En.
      destruct (decide (shard_slot s m = x)) as [->|]; [rewrite decide_True by done|rewrite decide_False by naive_solver]; lia.
  - destruct (IH l Hs Hl) as (l' & E & Hs' & Hl' & Hc). exists l'. split_and!; [done..|]. intros x. rewrite Hc. unfold need. rewrite zsum_cons.
    unfold adds_to at 2. rewrite En, decide_False by naive_solver. lia.
Qed.

(** ** The growth of the tables *)

Definition group_of s (kg : Z) : KeyGroupMap := match hash_group s kg with Ok g => g | _ => with_hasher (random_state 0 None) end.
Definition addition_growth s (previous : option Z) (p : addition) : Z :=
  (if bool_decide (previous = Some p.1.1) then 0 else directory_growth (group_of s p.1.1)) + (growth_for_shard (group_of s p.1.1) p.1.2 p.2).1.
Fixpoint additions_growth s (l : list addition) (previous : option Z) : Z :=
  match l with
  | [] => 0
  | p :: l => addition_growth s previous p + additions_growth s l (Some p.1.1)
  end.
Lemma addition_growth_nonneg s previous p : 0 <= addition_growth s previous p.
Proof.
  unfold addition_growth. pose proof (directory_growth_nonneg (group_of s p.1.1)). pose proof (growth_nonneg (group_of s p.1.1) p.1.2 p.2).
  destruct (bool_decide _); lia.
Qed.
Lemma additions_growth_nonneg s l previous : 0 <= additions_growth s l previous.
Proof. revert previous. induction l as [|p l IH]; intros previous; [done|]. cbn. pose proof (addition_growth_nonneg s previous p). specialize (IH (Some p.1.1)). lia. Qed.
Lemma growth_old_nonneg g i c : 0 <= (growth_for_shard g i c).2.
Proof.
  unfold growth_for_shard. destruct (match shard_at g i with Some _ => _ | None => _ end) as [n k]. destruct (_ <? _); [|done]. cbn.
  destruct (shard_at g i); [apply table_bounds|done].
Qed.
Lemma table_growth_spec s l : Forall (addition_ok s) l -> forall previous bound overlap, is_usize bound -> 0 <= overlap ->
  exists bound' overlap', table_growth s l previous bound overlap = Ok (bound', overlap') /\ is_usize bound' /\ 0 <= overlap' /\
    (bound' < USIZE_MAX -> bound + additions_growth s l previous <= bound').
Proof.
  induction 1 as [|[[kg i] c] l (Ho & _) _ IH]; intros previous bound overlap Hb Hov; cbn [table_growth additions_growth].
  { exists bound, overlap. split; [done|]. split; [done|]. split; [done|]. lia. }
  cbn [fst] in Ho. unfold hash_owned in Ho. destruct (hash_group s kg) as [g| |] eqn:Eg; [|done..]. cbn [mbind outcome_bind].
  assert (group_of s kg = g) as Egg by (unfold group_of; by rewrite Eg).
  unfold addition_growth. cbn [fst snd]. rewrite Egg. pose proof (directory_growth_nonneg g) as Hd. pose proof (growth_nonneg g i c) as Hgr. pose proof (growth_old_nonneg g i c) as Hold.
  destruct (growth_for_shard g i c) as [retained old]. cbn [fst snd] in *.
  set (bound1 := if bool_decide (previous = Some kg) then bound else sat_add bound (directory_growth g)).
  assert (is_usize bound1 /\ (bound1 < USIZE_MAX -> bound + (if bool_decide (previous = Some kg) then 0 else directory_growth g) <= bound1)) as [Hb1 Hle1].
  { unfold bound1. destruct (bool_decide _); split; mlia. }
  destruct (IH (Some kg) (sat_add bound1 retained) (Z.max overlap old)) as (b' & o' & E & Hb' & Ho' & Hle); [mlia|lia|].
  exists b', o'. split; [done|]. split; [done|]. split; [done|]. intros Hlt. specialize (Hle Hlt). pose proof (additions_growth_nonneg s l (Some kg)).
  destruct (Z.eq_dec bound1 USIZE_MAX); [mlia|]. specialize (Hle1 ltac:(mlia)). mlia.
Qed.

(** ** Reserving tables *)

(** The same maps in other tables. *)
Definition same_maps s s' : Prop :=
  tables_ok s' /\ same_shape s s' /\ entry_bytes_ s' = entry_bytes_ s /\ (forall kg k, hkv s' kg k = hkv s kg k) /\ state_bytes s' = state_bytes s.
Lemma same_maps_refl s : tables_ok s -> same_maps s s.
Proof. intros. by split_and!. Qed.
Lemma same_maps_trans s s1 s2 : same_maps s s1 -> same_maps s1 s2 -> same_maps s s2.
Proof.
  intros (_ & Sh1 & B1 & K1 & T1) (H2 & Sh2 & B2 & K2 & T2). split; [done|]. split; [by eapply same_shape_trans|]. split_and!; [congruence| |congruence].
  intros kg k. by rewrite K2.
Qed.
Lemma set_group_same s i g g' : tables_ok s -> hgroups s !! i = Some g -> hgroup_ok g -> same_map g g' ->
  same_maps s (set_hgroup i g' s) /\ state_alloc (set_hgroup i g' s) = state_alloc s - group_alloc g + group_alloc g'.
Proof.
  intros Hs Hi Hg Hm. pose proof (same_map_bytes g g' Hm) as Hb. pose proof Hm as (Hg' & Hr & _).
  assert (state_bytes (set_hgroup i g' s) = state_bytes s) as Hsb.
  { unfold state_bytes. cbn [hgroups set_hgroup]. rewrite (zsum_insert _ _ _ g) by done. lia. }
  split; [|unfold state_alloc; cbn [hgroups set_hgroup]; by rewrite (zsum_insert _ _ _ g)].
  split; [|split; [by apply (set_group_shape s i g)|split_and!; [done| |done]]].
  - destruct Hs as [Hf Hgs Hbt]. split; [done|by apply Forall_insert|]. by rewrite Hsb.
  - intros kg k. rewrite (hkv_set s i g) by done. destruct (decide _) as [->|]; [|done]. rewrite (same_map_get g g') by done. unfold hkv.
    rewrite (proj2 (hash_group_Ok s _ g (to_first s Hs))); [done|]. exists i. split; [|done]. apply hash_index_Ok; [apply Hs|]. split; [done|]. by eapply lookup_lt_Some.
Qed.

Definition reserve_step s (p : addition) s1 : Prop :=
  same_maps s s1 /\ (state_alloc s + directory_growth (group_of s p.1.1) <= I64_MAX ->
    underestimated \/ state_alloc s1 <= state_alloc s + directory_growth (group_of s p.1.1) + (growth_for_shard (group_of s p.1.1) p.1.2 p.2).1).
(** What later additions see of a step. *)
Definition reserve_frame s (p : addition) s1 : Prop :=
  p.2 <= sroom s1 p.1 /\ directory_growth (group_of s1 p.1.1) = 0 /\
  (forall kg, directory_growth (group_of s1 kg) <= directory_growth (group_of s kg)) /\
  (forall x, 0 <= x.2 -> x <> p.1 -> sroom s1 x = sroom s x /\ forall c, growth_for_shard (group_of s1 x.1) x.2 c = growth_for_shard (group_of s x.1) x.2 c).
Lemma reserve_one_spec s kg i c : tables_ok s -> addition_ok s (kg, i, c) ->
  match on_group kg (fun group => reserve_shard group i c) s with
  | (Ok _, s1) => reserve_step s (kg, i, c) s1 /\ reserve_frame s (kg, i, c) s1
  | (Err _, s1) => reserve_step s (kg, i, c) s1
  | (Panic, _) => False
  end.
Proof.
  intros Hs (Ho & Hi & Hc). cbn [fst snd] in *. unfold hash_owned in Ho. destruct (hash_group s kg) as [g| |] eqn:Eg; [|done..].
  destruct (group_facts s kg g Hs Eg) as (n & Hn & Hl & Hg). assert (group_of s kg = g) as Egg by (unfold group_of; by rewrite Eg).
  pose proof (group_alloc_le s n g Hl) as Hga. pose proof Hn as [Ekg _]%hash_index_Ok; [|apply Hs].
  unfold on_group. rewrite Hn, Hl. pose proof (reserve_shard_spec (Z.of_nat n) g i c Hg Hi ltac:(lia)) as Hr.
  destruct (reserve_shard (Z.of_nat n) i c g) as [[[]|e|] g']; [| |done].
  - destruct Hr as ([Hm Ha] & Hroom & Hd & Hoth). destruct (set_group_same s n g g' Hs Hl Hg Hm) as [Hsm Hal].
    assert (forall kg', hash_group (set_hgroup n g' s) kg' = if decide (kg' = kg) then Ok g' else hash_group s kg') as Hgrp.
    { intros kg'. rewrite (hash_group_set s n g) by done. by rewrite <- Ekg. }
    assert (forall kg', group_of (set_hgroup n g' s) kg' = if decide (kg' = kg) then g' else group_of s kg') as Hgo.
    { intros kg'. unfold group_of. rewrite Hgrp. by destruct (decide _). }
    split; [split; [done|cbn [fst snd]; rewrite Egg; intros Hmax; destruct (Ha ltac:(lia)); [by left|right; lia]]|]. split_and!; cbn [fst snd].
    + unfold sroom. cbn [fst snd]. by rewrite Hgrp, decide_True.
    + by rewrite Hgo, decide_True.
    + intros kg'. rewrite Hgo. destruct (decide (kg' = kg)) as [->|]; [rewrite Hd; apply directory_growth_nonneg|done].
    + intros [kg' j] Hj Hne. cbn [fst snd] in *. unfold sroom. cbn [fst snd]. rewrite Hgrp, Hgo. destruct (decide (kg' = kg)) as [->|]; [|done].
      rewrite Eg, Egg. apply Hoth; [done|]. intros ->. done.
  - destruct Hr as [Hm Ha]. destruct (set_group_same s n g g' Hs Hl Hg Hm) as [Hsm Hal]. split; [done|]. cbn [fst snd]. rewrite Egg.
    intros Hmax. destruct (Ha ltac:(lia)); [by left|right; lia].
Qed.
Lemma additions_growth_le s s1 l previous :
  (forall kg, directory_growth (group_of s1 kg) <= directory_growth (group_of s kg)) ->
  (forall p, p ∈ l -> forall c, growth_for_shard (group_of s1 p.1.1) p.1.2 c = growth_for_shard (group_of s p.1.1) p.1.2 c) ->
  additions_growth s1 l previous <= additions_growth s l previous.
Proof.
  intros Hd. revert previous. induction l as [|p l IH]; intros previous Hg; [done|]. cbn [additions_growth]. unfold addition_growth.
  rewrite Hg by constructor. specialize (IH (Some p.1.1) (fun q Hq => Hg q ltac:(by constructor))). specialize (Hd p.1.1). destruct (bool_decide _); lia.
Qed.

Lemma sorted_fresh (p : addition) l q : bt_sorted fst (p :: l) -> q ∈ l -> q.1 <> p.1.
Proof. intros [Hlt _]%bt_sorted_cons Hq E. specialize (Hlt q Hq). rewrite E in Hlt. by rewrite ocmp_refl in Hlt. Qed.
(** The same maps, within the growth charged for the additions. *)
Definition reserved_within s (l : list addition) previous s' : Prop :=
  same_maps s s' /\ (state_alloc s + additions_growth s l previous <= I64_MAX -> underestimated \/ state_alloc s' <= state_alloc s + additions_growth s l previous).
Lemma reserve_tables_spec `{Broker B} l : forall previous s (b : B), tables_ok s -> Forall (addition_ok s) l -> bt_sorted fst l ->
  (forall kg, previous = Some kg -> directory_growth (group_of s kg) = 0) ->
  (exists s', reserve_tables l (s, b) = (Ok tt, (s', b)) /\ reserved_within s l previous s' /\
     (forall p, p ∈ l -> p.2 <= sroom s' p.1) /\ (forall x, 0 <= x.2 -> x ∉ map fst l -> sroom s' x = sroom s x)) \/
  (exists s' e, reserve_tables l (s, b) = (_ ← hash_resize (estimated_heap_size s'); throw e) (s', b) /\ reserved_within s l previous s').
Proof.
  induction l as [|[[kg i] c] l IH]; intros previous s b Hs Hl Hsort Hprev.
  { left. exists s. split; [done|]. split; [split; [by apply same_maps_refl|cbn; lia]|]. split_and!; [by intros p ?%elem_of_nil|done]. }
  apply Forall_cons in Hl as [Hp Hl]. cbn [additions_growth reserve_tables] in *. set (p := (kg, i, c)) in *.
  pose proof (additions_growth_nonneg s l (Some p.1.1)) as Hrest.
  assert (exists g, hash_group s kg = Ok g) as [g Eg].
  { destruct Hp as (Ho & _). cbn in Ho. unfold hash_owned in Ho. destruct (hash_group s kg); naive_solver. }
  rewrite Eg.
  assert (addition_growth s previous p = directory_growth (group_of s kg) + (growth_for_shard (group_of s kg) i c).1) as Hgrow.
  { unfold addition_growth. cbn [fst snd p]. case_bool_decide as Ep; [|done]. rewrite (Hprev kg Ep). lia. }
  pose proof (growth_nonneg (group_of s kg) i c) as Hg0.
  pose proof (reserve_one_spec s kg i c Hs Hp) as Hone.
  destruct (on_group kg (fun group => reserve_shard group i c) s) as [[[]|e|] s1]; [| |done].
  2:{ right. destruct Hone as [Hm Ha]. cbn [fst snd] in Ha. exists s1, e. split; [done|]. split; [done|]. cbn [additions_growth p fst] in *. intros Hmax. destruct (Ha ltac:(lia)); [by left|right; lia]. }
  destruct Hone as [[Hm Ha] (Hroom & Hd & Hdle & Hoth)]. cbn [fst snd] in Ha. pose proof Hm as (Hs1 & Hsh1 & _).
  assert (forall q, q ∈ l -> 0 <= q.1.2 /\ q.1 <> p.1) as Hq.
  { intros q Hq. split; [|by eapply sorted_fresh]. rewrite Forall_forall in Hl. destruct (Hl q Hq) as (_ & ? & _). lia. }
  assert (additions_growth s1 l (Some kg) <= additions_growth s l (Some kg)) as Hle.
  { apply additions_growth_le; [done|]. intros q Hql. destruct (Hq q Hql). by apply Hoth. }
  assert (forall s', reserved_within s1 l (Some kg) s' -> reserved_within s (p :: l) previous s') as Hthen.
  { intros s' [Hm' Ha']. split; [by eapply same_maps_trans|]. cbn [additions_growth p fst] in *. intros Hmax.
    destruct (Ha ltac:(lia)) as [?|Ha1]; [by left|]. destruct (Ha' ltac:(lia)); [by left|right; lia]. }
  destruct (IH (Some kg) s1 b) as [(s' & E & Hw & Hin & Hout)|(s' & e & E & Hw)]; [done| | | | |].
  - eapply Forall_impl; [done|]. intros q (? & ? & ?). destruct Hsh1 as (_ & _ & _ & _ & Ho). split; [by rewrite Ho|done].
  - by apply bt_sorted_cons in Hsort as [_ ?].
  - by intros kg' [= <-].
  - left. exists s'. split; [done|]. split; [by apply Hthen|]. split_and!.
    + intros q [->|Hql]%elem_of_cons; [|by apply Hin]. rewrite Hout; [done| |].
      * destruct Hp as (_ & ? & _). cbn in *. lia.
      * intros (q & Eq & Hql)%list_elem_of_fmap. destruct (Hq q Hql). by symmetry in Eq.
    + intros x Hx [Hne Hnin]%not_elem_of_cons. rewrite Hout by done. by apply Hoth.
  - right. exists s', e. split; [done|]. by apply Hthen.
Qed.

(** ** A batch *)

Section batch.
Context `{BrokerLaws B}.
Implicit Types (b : B).
Record hash_ok (others : Z) s b : Prop := {
  ho_tables : tables_ok s;
  ho_credit : hash_footprint s <= rsize (hreservation s) <= I64_MAX;
  ho_broker : reserved b = rsize (hreservation s) + others /\ 0 <= others;
}.
Lemma hash_resize_cases others n s b : is_usize n -> 0 <= rsize (hreservation s) <= I64_MAX -> reserved b = rsize (hreservation s) + others -> 0 <= others ->
  exists o r' b', hash_resize n (s, b) = (o, (set_hreservation r' s, b')) /\
    match o with
    | Ok _ => rsize r' = n /\ n <= I64_MAX /\ reserved b' = n + others
    | Err _ => r' = hreservation s /\ reserved b' = reserved b
    | Panic => False
    end /\ (ReleaseTotal B -> n <= rsize (hreservation s) -> o = Ok tt).
Proof.
  intros Hn Hr Hb Ho. assert (rsize (hreservation s) <= reserved b) as Hle by lia.
  pose proof (resize_balanced n (hreservation s) b Hn ltac:(mlia) Hle) as Hbal.
  pose proof (fun (Hrt : ReleaseTotal B) => resize_shrink n (hreservation s) b) as Hs.
  unfold hash_resize, zoom. destruct (resize n (hreservation s, b)) as [o [r' b']]. exists o, r', b'. destruct Hbal as [[Ht Hu Hp He _ Hmx] Hsz]. split_and!; [done| |].
  - destruct o as [[]|e|]; [|by destruct (He e eq_refl)|done]. specialize (Hsz eq_refl). split_and!; [done| |lia].
    destruct (Z.le_gt_cases n (rsize (hreservation s))); [lia|]. specialize (Hmx eq_refl ltac:(lia)). lia.
  - intros Hrt Hle'. apply (Hs Hrt); [unfold is_usize in Hn; lia|lia].
Qed.
Lemma reservation_footprint r s : hash_footprint (set_hreservation r s) = hash_footprint s.
Proof. done. Qed.
Lemma reservation_growth r s l previous : additions_growth (set_hreservation r s) l previous = additions_growth s l previous.
Proof. revert previous. induction l as [|p l IH]; intros previous; [done|]. cbn [additions_growth]. by rewrite IH. Qed.
(** The books balance, and the tables are paid for unless the library exceeded
    an estimate. *)
Definition hash_books (others : Z) s b : Prop :=
  tables_ok s /\ 0 <= rsize (hreservation s) <= I64_MAX /\ reserved b = rsize (hreservation s) + others /\ 0 <= others.
Definition credited s : Prop := underestimated \/ hash_footprint s <= rsize (hreservation s).
Lemma hash_ok_books others s b : hash_ok others s b -> hash_books others s b /\ credited s.
Proof. intros [Hs Hc [Hb Ho]]. pose proof (hash_footprint_nonneg s). split; [|right; lia]. split; [done|]. split; [lia|done]. Qed.
Lemma books_hash_ok `{!GrowthEstimate} others s b : hash_books others s b -> credited s -> hash_ok others s b.
Proof. intros (Hs & Hr & Hb & Ho) [Hu|Hc]; [by destruct estimate_covers|]. split; [done|lia|done]. Qed.
(** The final resize to the size of the tables and entries. *)
Lemma settle_size `{!ReleaseTotal B} others s b : hash_books others s b -> credited s ->
  exists (o : outcome unit) r' b', hash_resize (estimated_heap_size s) (s, b) = (o, (set_hreservation r' s, b')) /\
    hash_books others (set_hreservation r' s) b' /\ credited (set_hreservation r' s) /\
    match o with
    | Ok _ => rsize r' = estimated_heap_size s /\ (underestimated \/ estimated_heap_size s = hash_footprint s)
    | Err _ => underestimated
    | Panic => False
    end.
Proof.
  intros (Hs & Hr & Hb & Ho) Hc. assert (is_usize (estimated_heap_size s)) as Hn.
  { pose proof (state_bytes_nonneg s). destruct Hs as [_ _ Hbt]. pose proof (len_nonneg (hgroups s)). pose proof (proj2 size_laws).
    unfold estimated_heap_size. rewrite Hbt. set (w := wrapu 64 _). assert (0 <= w) by (unfold w, wrapu; apply Z.mod_pos_bound; lia). mlia. }
  destruct (hash_resize_cases others (estimated_heap_size s) s b Hn Hr Hb Ho) as (o & r' & b' & E & Hcase & Hsh). exists o, r', b'.
  assert (0 <= rsize r' <= I64_MAX -> reserved b' = rsize r' + others -> hash_books others (set_hreservation r' s) b') as Hbk.
  { intros Hr' Hb'. split; [by destruct Hs|]. split; [done|]. by split. }
  destruct Hc as [Hu|Hc].
  - split; [done|]. destruct o as [[]|e|]; [| |done].
    + destruct Hcase as (Hr' & Hmax & Hb'). unfold is_usize in Hn. split; [apply Hbk; lia|]. split; [by left|]. split; [done|by left].
    + destruct Hcase as (-> & Hb'). split; [apply Hbk; lia|]. split; [by left|done].
  - pose proof (hash_footprint_nonneg s). assert (estimated_heap_size s = hash_footprint s) as Eq by (apply estimated_exact; [done|mlia]).
    rewrite (Hsh _ ltac:(lia)) in *. destruct Hcase as (Hr' & Hmax & Hb'). split; [done|]. split; [apply Hbk; lia|].
    split; [right; rewrite reservation_footprint; cbn; lia|]. split; [done|by right].
Qed.

(** What a batch leaves behind. *)
Definition write_result others ms s (o : outcome unit) s' b' : Prop :=
  hash_books others s' b' /\ credited s' /\ (forall kg, hash_owned s' kg = hash_owned s kg) /\
  match o with
  | Ok _ => rsize (hreservation s') = estimated_heap_size s' /\ (underestimated \/ estimated_heap_size s' = hash_footprint s') /\
      forall kg k, hkv s' kg k = mutated ms (hkv s) kg k
  | Err _ => (forall kg k, hkv s' kg k = hkv s kg k) \/ (underestimated /\ forall kg k, hkv s' kg k = mutated ms (hkv s) kg k)
  | Panic => False
  end.
Lemma hash_ok_unchanged others ms s b e : hash_ok others s b -> write_result others ms s (Err e) s b.
Proof. intros Hok%hash_ok_books. split; [apply Hok|]. split; [apply Hok|]. split; [done|]. by left. Qed.

Lemma hash_apply_spec `{!ReleaseTotal B} others ms l n s b :
  hash_ok others s b -> Forall mutation_ok ms -> no_reput ms -> Forall (fun m => hash_owned s (key_group (mkey m)) = true) ms ->
  bt_sorted fst l -> Forall (addition_ok s) l -> (forall x, count_of l x = need s ms x) -> is_usize n ->
  (n <= I64_MAX -> hash_footprint s + zsum (contribution s) ms + additions_growth s l None <= n) ->
  let '(o, (s', b')) := hash_apply ms l n (s, b) in write_result others ms s o s' b'.
Proof.
  intros Hok Hms Hre Hown Hsort Hl Hcount Hn Hle. pose proof Hok as [Hs Hc [Hb Ho]]. pose proof (hash_footprint_nonneg s) as Hf.
  unfold hash_apply. destruct (hash_resize_cases others n s b Hn ltac:(lia) Hb Ho) as (o1 & r1 & b1 & E1 & Hcase & _).
  unfold mbind at 1, M_bind at 1. rewrite E1. destruct o1 as [[]|e|]; [| |done].
  2:{ destruct Hcase as [-> Hb1]. assert (set_hreservation (hreservation s) s = s) as -> by (by destruct s). apply hash_ok_unchanged. split; [done|lia|lia]. }
  destruct Hcase as (Hr1 & Hmax & Hb1). specialize (Hle Hmax). set (s1 := set_hreservation r1 s).
  pose proof (contributions_nonneg s ms Hms) as Hc0. pose proof (additions_growth_nonneg s l None) as Hg0.
  pose proof (state_bytes_nonneg s) as Hsb0. pose proof (state_alloc_nonneg s) as Hsa0.
  assert (0 <= len (hgroups s) * size_of_key_group_map) as Hdir by (pose proof (len_nonneg (hgroups s)); pose proof (proj2 size_laws); nia).
  unfold hash_footprint in Hle. assert (tables_ok s1) as Hs1 by (by destruct Hs).
  assert (forall s2, reserved_within s1 l None s2 -> hash_books others s2 b1 /\
    (underestimated \/ hash_footprint s2 + zsum (contribution s) ms <= rsize (hreservation s2))) as Hfit.
  { intros s2 [(Hs2 & (_ & Hlen & Hres & _) & _ & _ & Hbt) Ha]. split.
    { split; [done|]. rewrite Hres. cbn [hreservation set_hreservation s1]. split; [mlia|]. split; [lia|done]. }
    pose proof (reservation_growth r1 s l None) as Hrg. fold s1 in Hrg. rewrite Hrg in Ha. change (state_alloc s1) with (state_alloc s) in Ha.
    destruct (Ha ltac:(lia)) as [?|Ha']; [by left|right]. change (state_bytes s1) with (state_bytes s) in Hbt.
    rewrite Hres. cbn [hreservation set_hreservation s1]. unfold hash_footprint, len in *. rewrite Hlen. cbn [hgroups set_hreservation s1]. lia. }
  destruct (reserve_tables_spec l None s1 b1 Hs1 Hl Hsort ltac:(done)) as [(s2 & E2 & Hw2 & Hin2 & _)|(s2 & e & E2 & Hw2)].
  - rewrite (M_bind_run _ _ _ _ _ E2). destruct (Hfit s2 Hw2) as [(_ & Hr2 & Hb2 & _) Hc2]. pose proof Hw2 as [(Hs2 & Hsh2 & _ & Hkv2 & Hbt2) _].
    destruct (hash_mutations_spec s1 ms Hs1 [] s2) as (s3 & E3 & Hs3 & Hsh3 & Hkv3 & Ha3); [done..| | | |].
    { intros x Hx. change (need s1 ms x) with (need s ms x). rewrite <- Hcount. unfold count_of.
      destruct (bt_find fst x l) as [p|] eqn:Ep; [|unfold sroom; destruct (hash_group s2 x.1); [apply room_nonneg|lia..]].
      apply (bt_find_Some fst) in Ep as [Hp ->%slot_ocmp]. by apply Hin2. }
    { apply Forall_forall. intros m _ _. unfold is_new. by rewrite Hkv2. }
    { change (zsum (contribution s1) ([] ++ ms)) with (zsum (contribution s) ms). change (state_bytes s1) with (state_bytes s). mlia. }
    assert (on_tables (hash_mutations ms) (s2, b1) = (Ok tt, (s3, b1))) as E3' by (unfold on_tables; by rewrite E3).
    rewrite (M_bind_run _ _ _ _ _ E3'), (M_bind_run _ _ _ s3 (s3, b1)) by done. cbn beta.
    pose proof (state_bytes_bound s1 s3 ms Hs1 Hs3 Hms Hkv3) as Hb3. change (state_bytes s1) with (state_bytes s) in *. change (contribution s1) with (contribution s) in Hb3.
    destruct Hsh2 as (_ & Hlen2 & Hres2 & _), Hsh3 as (_ & Hlen3 & Hres3 & _ & Ho3). rewrite Hres2 in *.
    assert (credited s3) as Hc3.
    { destruct Hc2 as [?|Hc2]; [by left|right]. rewrite Hres3. unfold hash_footprint, len in *. rewrite Hlen3. rewrite Hlen2 in Hc2. lia. }
    assert (hash_books others s3 b1) as Hbk3 by (split; [done|]; by rewrite Hres3).
    destruct (settle_size others s3 b1 Hbk3 Hc3) as (o4 & r4 & b4 & -> & Hbk4 & Hc4 & Ho4).
    split; [done|]. split; [done|]. split; [intros kg; apply Ho3|]. destruct o4 as [[]|e|]; [|by right|done]. by destruct Ho4.
  - unfold mbind at 1, M_bind at 1. rewrite E2. destruct (Hfit s2 Hw2) as [Hbk2 Hc2]. pose proof Hw2 as [(Hs2 & (_ & _ & _ & _ & Ho2) & _ & Hkv2 & _) _].
    assert (credited s2) as Hc2' by (destruct Hc2; [by left|right; lia]).
    destruct (settle_size others s2 b1 Hbk2 Hc2') as (o4 & r4 & b4 & E4 & Hbk4 & Hc4 & Ho4). unfold mbind, M_bind. rewrite E4.
    destruct o4 as [[]|e4|]; [| |done]; (split; [done|]; split; [done|]; split; [exact Ho2|]; by left).
Qed.

Lemma hash_ok_frame others s b b' d : hash_ok others s b -> reserved b' = reserved b + d -> 0 <= others + d -> hash_ok (others + d) s b'.
Proof. intros [Hs Hc Hb] Hd Ho. split; [done|done|lia]. Qed.
(** The body of the batch holds the directory of additions beside the backend. *)
Lemma write_body_spec `{!ReleaseTotal B} others ms s b grows overlap r :
  hash_ok others s b -> Forall mutation_ok ms -> no_reput ms -> payload_growth s ms 0 0 = Ok (grows, overlap) -> rsize r = 0 -> 0 <= overlap ->
  let '(o, (r', (s', b'))) := hash_write_body s ms grows overlap (r, (s, b)) in
  0 <= rsize r' /\ write_result (others + rsize r') ms s o s' b'.
Proof.
  intros Hok Hms Hre Hpg Hr Hov. unfold hash_write_body. pose proof Hok as [Hs Hc [Hb Ho]]. pose proof (hash_footprint_nonneg s) as Hf.
  destruct (payload_growth_spec s ms Hms 0 0 grows overlap ltac:(mlia) Hpg) as (Hgr & Hgrow & Hown).
  destruct (additions_bound_spec s ms Hown) as (n & En & Hn). rewrite (lift_run _ _ _ n) by done.
  pose proof (len_nonneg (hgroups s)) as Hlen. set (k := sat_mul _ 512).
  assert (is_usize k) as Hk by (unfold k, SHARDS in *; mlia).
  pose proof (host_try_grow_balanced k r b Hk ltac:(rewrite Hr; mlia)) as Hbal. unfold mbind at 1, M_bind at 1, on_workspace.
  destruct (host_try_grow k (r, b)) as [[[]|e|] [r1 b1]]; destruct Hbal as [[Ht Hu Hp He _ _] Hsz]; [| |done].
  2:{ destruct (He e eq_refl) as [-> Hb1]. rewrite Hr. split; [lia|]. replace others with (others + 0) in Hok by lia. apply hash_ok_unchanged.
      replace (others + 0) with (others + 0 + 0) by lia. apply (hash_ok_frame (others + 0) s b); [done|lia|lia]. }
  specialize (Hsz eq_refl). rewrite Hr in Hsz, Ht.
  assert (hash_ok (others + rsize r1) s b1) as Hok1 by (apply (hash_ok_frame others s b); [done|lia|unfold is_usize in Hu; lia]).
  destruct (count_additions_spec s ms Hown []) as (l & El & Hsort & Hl & Hcount); [constructor|constructor|]. rewrite (lift_run _ _ _ l) by done.
  destruct (table_growth_spec s l Hl None 0 0 ltac:(mlia) ltac:(lia)) as (bound & overlap' & Eb & Hbound & Hov' & Hble). rewrite (lift_run _ _ _ (bound, overlap')) by done.
  rewrite estimated_exact by (done || mlia). set (N := sat_add (sat_add (sat_add (hash_footprint s) grows) bound) (Z.max overlap' overlap)).
  assert (is_usize N) as HN by (unfold N; mlia).
  assert (N <= I64_MAX -> hash_footprint s + zsum (contribution s) ms + additions_growth s l None <= N) as HNle.
  { intros Hle. unfold N in *. specialize (Hgrow ltac:(mlia)). specialize (Hble ltac:(mlia)). mlia. }
  pose proof (hash_apply_spec (others + rsize r1) ms l N s b1 Hok1 Hms Hre Hown Hsort Hl ltac:(intros x; by rewrite Hcount) HN HNle) as Hw.
  unfold on_backend. destruct (hash_apply ms l N (s, b1)) as [o [s' b']]. split; [unfold is_usize in Hu; lia|done].
Qed.
Lemma payload_growth_no_panic s ms growth overlap : payload_growth s ms growth overlap <> Panic.
Proof.
  revert growth overlap. induction ms as [|m ms IH]; intros growth overlap; [done|]. cbn [payload_growth]. unfold mutation_growth.
  pose proof (hash_group_no_panic s (key_group (mkey m))) as Hn. destruct (hash_group s _) as [g| |]; [|done|done]. cbn [mbind outcome_bind].
  destruct (mvalue m), (group_get g (vdata (skey (mkey m)))); apply IH.
Qed.
Lemma payload_overlap_nonneg s ms growth overlap growth' overlap' : 0 <= overlap -> payload_growth s ms growth overlap = Ok (growth', overlap') -> 0 <= overlap'.
Proof.
  revert growth overlap. induction ms as [|m ms IH]; intros growth overlap Hov; cbn [payload_growth]; [by intros [= <- <-]|]. unfold mutation_growth.
  destruct (hash_group s _) as [g| |]; [|done..]. cbn [mbind outcome_bind]. destruct (mvalue m), (group_get g (vdata (skey (mkey m)))); try by apply IH.
  apply IH. destruct (_ =? _); lia.
Qed.
Lemma hash_write_spec `{!ReleaseTotal B} others ms s b :
  hash_ok others s b -> Forall mutation_ok ms -> no_reput ms ->
  let '(o, (s', b')) := hash_write_batch ms (s, b) in write_result others ms s o s' b'.
Proof.
  intros Hok Hms Hre. unfold hash_write_batch. rewrite (M_bind_run _ _ _ s (s, b)) by done. cbn beta zeta.
  pose proof (payload_growth_no_panic s ms 0 0) as Hnp. destruct (payload_growth s ms 0 0) as [[grows overlap]|e|] eqn:Epg; [| |done].
  2:{ by apply hash_ok_unchanged. }
  rewrite (lift_run _ _ _ (grows, overlap)) by done. unfold scoped. set (r := sibling (hreservation s) _).
  pose proof (write_body_spec others ms s b grows overlap r Hok Hms Hre Epg eq_refl (payload_overlap_nonneg s ms 0 0 _ _ (Z.le_refl 0) Epg)) as Hbody.
  destruct (hash_write_body s ms grows overlap (r, (s, b))) as [o [r' [s' b']]].
  destruct Hbody as [Hr' ((Hs' & Hc' & Hb' & _) & Hcr & Ho' & Hcase)].
  pose proof Hok as [_ _ [_ Ho0]]. destruct (host_drop_total r' b') as (b2 & E & Hb2); [lia|]. rewrite E.
  assert (hash_books others s' b2) as Hok2 by (split; [done|]; split; [done|lia]).
  by destruct o as [[]|e|].
Qed.
End batch.
End writes.
