(* ===== verification/HashBackend.v ===== *)
(** * The hashed backend behind the [KeyedState] interface

    The pages of a visit, the laws of [KeyedState], and that the canonical
    snapshots of the two backends are the same bytes for the same mapping. *)

From Stdlib Require Import ZArith Lia Strings.Byte.
From stdpp Require Import base list option numbers strings sorting.
From S2P Require Import Prelude Bytes OrdMap MemoryPool Snapshot OrderedState OrderedWrites KeyedState Restore HashState HashTableSpec HashStateSpec HashWrites.

#[global] Instance hash_keyed_state `{HashTables} `{Broker B} : KeyedState MemoryKeyedState B := {|
  ks_get_batch := hash_get_batch;
  ks_write_batch := hash_write_batch;
  ks_visit_key_group := fun V => hash_visit_key_group;
  ks_visit_key_group_admitted := fun V s group rows bytes owner visitor =>
    hash_visit_prefix_admitted s group [] rows bytes owner visitor;
|}.

(** ** Pages *)

(** The pages of a scan without its visitor; [None] when an entry alone exceeds
    the budget. *)
Definition pair_cost (p : kv) : Z := sat_add (sat_add (len p.1) (len p.2)) 96.
Fixpoint hash_cut (rows bytes : Z) (page : list kv) (n : Z) (es : list kv) : list (list kv) * option (list kv) :=
  match es with
  | [] => ([], Some page)
  | p :: es =>
      if bytes <? pair_cost p then ([], None)
      else if (len page =? rows) || (bytes <? n + pair_cost p) then
        let '(ps, tail) := hash_cut rows bytes [p] (pair_cost p) es in (page :: ps, tail)
      else hash_cut rows bytes (page ++ [p]) (n + pair_cost p) es
  end.
Lemma pair_cost_range p : 0 < pair_cost p <= USIZE_MAX.
Proof. unfold pair_cost. pose proof (len_nonneg p.1). pose proof (len_nonneg p.2). mlia. Qed.
Lemma keep_going_page {V} (visitor : list kv -> M V unit) page (c : list (list kv) * option (list kv)) v :
  (let '(ps, tail) := (let '(ps, tail) := c in (page :: ps, tail)) in (_ ← visit_pages (keep_going visitor) ps tail; mret tt) v) =
  (_ ← visitor page; let '(ps, tail) := c in _ ← visit_pages (keep_going visitor) ps tail; mret tt) v.
Proof. destruct c as [ps tail]. cbn [visit_pages]. unfold mbind, M_bind. change (keep_going visitor page v) with ((_ ← visitor page; mret true) v). unfold mbind, M_bind. by destruct (visitor page v) as [[[]| |] v1]. Qed.
Lemma hash_pages_cut {V} (visitor : list kv -> M V unit) prefix rows bytes es : forall page n v,
  0 <= n <= bytes -> bytes <= I64_MAX ->
  hash_pages visitor prefix rows bytes page n es v =
    (let '(ps, tail) := hash_cut rows bytes page n (List.filter (fun p => starts_with p.1 prefix) es) in
     (_ ← visit_pages (keep_going visitor) ps tail; mret tt) v).
Proof.
  induction es as [|[k w] es IH]; intros page n v Hn Hb.
  - cbn. destruct page as [|p page]; [done|]. unfold keep_going, mbind, M_bind. by destruct (visitor (p :: page) v) as [[[]| |] v'].
  - cbn [hash_pages List.filter fst]. destruct (starts_with k prefix); cbn [negb]; [|by apply IH]. cbn [hash_cut].
    change (sat_add (sat_add (len k) (len w)) 96) with (pair_cost (k, w)). pose proof (pair_cost_range (k, w)) as Hp.
    destruct (Z.ltb_spec bytes (pair_cost (k, w))); [done|].
    assert (sat_add n (pair_cost (k, w)) = n + pair_cost (k, w)) as -> by mlia. cbv zeta. rewrite Z.add_0_l, !wrapu_small by mlia.
    destruct ((len page =? rows) || (bytes <? n + pair_cost (k, w))) eqn:Ec; [|apply orb_false_iff in Ec as [_ Ec]; apply IH; lia].
    rewrite keep_going_page. unfold mbind, M_bind. destruct (visitor page v) as [[[]|e|] v1]; [|done..].
    rewrite IH by lia. by destruct (hash_cut _ _ _ _ _).
Qed.
Lemma hash_cut_cover rows bytes es : forall page n,
  0 < rows -> len page <= rows -> 0 <= n -> (page = [] -> n = 0) ->
  let '(ps, tail) := hash_cut rows bytes page n es in pages_cover rows (page ++ es) ps tail.
Proof.
  induction es as [|p es IH]; intros page n Hr Hl Hn H0; cbn [hash_cut].
  - split; [constructor|]. cbn. by rewrite app_nil_r.
  - pose proof (pair_cost_range p) as Hp. destruct (Z.ltb_spec bytes (pair_cost p)); [split; [constructor|]; by eexists|].
    destruct (_ || _) eqn:Ec.
    + specialize (IH [p] (pair_cost p) Hr ltac:(change (len [p]) with 1; lia) ltac:(lia) ltac:(done)). destruct (hash_cut _ _ _ _ _) as [ps tail].
      destruct IH as [Hps Ht]. split.
      * constructor; [|done]. split; [|done]. intros ->. rewrite (H0 eq_refl) in Ec. change (len (@nil kv)) with 0 in Ec.
        apply orb_true_iff in Ec as [Ec|Ec]; lia.
      * cbn [concat]. destruct tail as [t|]; [destruct Ht as [Ht ?]; split; [|done]; rewrite <- app_assoc; by f_equal|].
        destruct Ht as [rest Ht]. exists rest. rewrite <- app_assoc. f_equal. exact Ht.
    + apply orb_false_iff in Ec as [E1 _]. apply Z.eqb_neq in E1. specialize (IH (page ++ [p]) (n + pair_cost p) Hr).
      rewrite <- app_assoc in IH. apply IH; [rewrite len_app; change (len [p]) with 1; lia|lia|]. by destruct page.
Qed.

(** ** The laws *)

Section laws.
Context `{HashTableLaws} `{ReleaseTotal B}.
Implicit Types (s : MemoryKeyedState) (g : KeyGroupMap) (b : B).

Lemma hash_others o s b : hash_ok o s b -> 0 <= o <= reserved b.
Proof. intros [_ Hc Hb]. pose proof (hash_footprint_nonneg s). lia. Qed.
Lemma no_reput_app ms1 ms2 : no_reput (ms1 ++ ms2) -> no_reput ms1 /\ no_reput ms2.
Proof.
  induction ms1 as [|m ms1 IH]; [done|]. cbn [app no_reput]. intros [Hm Hr]. destruct (IH Hr) as [H1' H2']. split; [|done].
  split; [|done]. intros Hp. specialize (Hm Hp). by apply Forall_app in Hm as [? _].
Qed.
Lemma no_reput_puts ms : Forall (fun m => is_put m = true) ms -> no_reput ms.
Proof. induction 1 as [|m ms Hm Hms IH]; [done|]. split; [|done]. by rewrite Hm. Qed.
Lemma hash_write_law `{!GrowthEstimate} o ms s b : hash_ok o s b -> Forall mutation_ok ms -> no_reput ms ->
  match hash_write_batch ms (s, b) with
  | (Ok _, (s', b')) => hash_ok o s' b' /\ (forall kg, hash_owned s' kg = hash_owned s kg) /\ forall kg k, hkv s' kg k = mutated ms (hkv s) kg k
  | (Err _, (s', b')) => hash_ok o s' b' /\ (forall kg, hash_owned s' kg = hash_owned s kg) /\ forall kg k, hkv s' kg k = hkv s kg k
  | (Panic, _) => False
  end.
Proof.
  intros Hok Hms Hre. pose proof (hash_write_spec o ms s b Hok Hms Hre) as Hw.
  destruct (hash_write_batch ms (s, b)) as [[[]|e|] [s' b']]; destruct Hw as (Hbk & Hcr & Ho & Hw); [| |done];
    (split; [by apply books_hash_ok|]); (split; [done|]); [by destruct Hw as (_ & _ & ?)|].
  destruct Hw as [?|[Hu _]]; [done|by destruct estimate_covers].
Qed.
Lemma no_reput_distinct ms : NoDup (map mutation_slot ms) -> no_reput ms.
Proof.
  induction ms as [|m ms IH]; [done|]. cbn [map]. intros [Hnot Hn]%NoDup_cons. split; [|by apply IH]. intros _. apply Forall_forall.
  intros m' Hm' _ E. apply Hnot. rewrite <- E. by apply list_elem_of_fmap_2.
Qed.
Lemma hash_read_law o s b keys owner : hash_ok o s b ->
  match hash_get_batch s keys owner b with
  | (Ok rb, b') => rb_values rb = map (fun k => hkv s (r_key_group k) (r_key k)) keys /\ 0 <= rsize (rb_reservation rb) /\
      reserved b' = reserved b + rsize (rb_reservation rb)
  | (Err _, b') => reserved b' = reserved b
  | (Panic, _) => False
  end.
Proof.
  intros Hok. apply (read_batch_law (hash_lookup s)); [apply hash_others in Hok; lia|]. intros k. unfold hash_lookup, hkv.
  pose proof (hash_group_no_panic s (r_key_group k)) as Hn. by destruct (hash_group s (r_key_group k)).
Qed.
Lemma iter_keys g : map fst (group_iter g) = map packed_key (group_entries g).
Proof. unfold group_iter. rewrite map_map. by apply map_ext. Qed.
Lemma iter_elem g k v : hgroup_ok g -> (k, v) ∈ group_iter g <-> group_get g k = Some v.
Proof.
  intros Hg. rewrite group_get_Some by done. unfold group_iter. rewrite list_elem_of_fmap.
  split; [intros (e & [= -> ->] & He)|intros (e & He & <- & <-)]; eauto.
Qed.
Lemma unfiltered (l : list kv) : List.filter (fun p => starts_with p.1 []) l = l.
Proof. induction l as [|p l IH]; [done|]. cbn in *. by rewrite IH. Qed.
Lemma hash_visit_law o s b kg rows bytes : hash_ok o s b -> hash_owned s kg = true -> 0 < rows -> 0 < bytes <= I64_MAX ->
  exists l ps tail,
    (forall V (visitor : list kv -> M V unit) v,
       hash_visit_key_group s kg rows bytes visitor v = (_ ← visit_pages (keep_going visitor) ps tail; mret tt) v) /\
    pages_cover rows l ps tail /\ NoDup (map fst l) /\ forall k v, (k, v) ∈ l <-> hkv s kg k = Some v.
Proof.
  intros Hok Hown Hr Hb. unfold hash_owned in Hown. destruct (hash_group s kg) as [g| |] eqn:Eg; [|done..].
  destruct (group_facts s kg g (ho_tables _ _ _ Hok) Eg) as (i & _ & _ & Hg).
  pose proof (hash_cut_cover rows bytes (group_iter g) [] 0 Hr ltac:(change (len (@nil kv)) with 0; lia) ltac:(lia) ltac:(done)) as Hc.
  destruct (hash_cut rows bytes [] 0 (group_iter g)) as [ps tail] eqn:Ecut. exists (group_iter g), ps, tail. split.
  - intros V visitor v. unfold hash_visit_key_group, hash_visit_prefix.
    rewrite (proj2 (Z.eqb_neq rows 0)), (proj2 (Z.eqb_neq bytes 0)) by lia.
    rewrite (M_bind_run _ _ _ tt v) by done. rewrite (lift_run _ _ _ g) by done. rewrite hash_pages_cut, unfiltered, Ecut by lia. done.
  - split; [exact Hc|]. split; [rewrite iter_keys; by apply entries_nodup_keys|]. intros k v. unfold hkv. rewrite Eg. by apply iter_elem.
Qed.
End laws.

#[global] Instance hash_laws `{HashTableLaws} `{!GrowthEstimate} `{ReleaseTotal B} : KeyedStateLaws MemoryKeyedState B := {|
  ks_inv := hash_ok;
  ks_owned := hash_owned;
  ks_kv := hkv;
  ks_others := hash_others;
  ks_frame := fun o s b b' d => hash_ok_frame o s b b' d;
  ks_batch_ok := no_reput;
  ks_batch_app := no_reput_app;
  ks_batch_puts := no_reput_puts;
  ks_batch_distinct := no_reput_distinct;
  ks_read := hash_read_law;
  ks_write := hash_write_law;
  ks_visit := hash_visit_law;
|}.

(** ** A new backend *)

Section created.
Context `{HashTableLaws} `{ReleaseTotal B}.
Lemma new_group_ok (r : Hasher) : hgroup_ok (with_hasher r) /\ group_bytes (with_hasher r) = 0 /\ group_alloc (with_hasher r) = 0.
Proof. split; [split; [by left|done]|by split]. Qed.
(** An empty backend charges its directory of groups and nothing else. *)
Lemma hash_new_spec f l r (b : B) s b' others : 0 <= f -> l - f + 1 <= U32_MAX -> rsize r = 0 -> reserved b = others -> 0 <= others ->
  len (map (fun i => with_hasher (random_state (Z.of_nat i) None)) (seq 0 (Z.to_nat (l - f + 1)))) * size_of_key_group_map <= USIZE_MAX ->
  hash_new f l r b = (Ok s, b') ->
  hash_ok others s b' /\ (forall kg k, hkv s kg k = None) /\ (forall kg, hash_owned s kg = true <-> f <= kg <= l).
Proof.
  intros Hf Hl Hr Hb Ho Hsize. unfold hash_new. destruct (Z.ltb_spec l f); [unfold fail_dropping; destruct (host_drop r b) as [[]?]; done|].
  assert (wrapu 32 (l - f + 1) = l - f + 1) as -> by (apply wrapu_small; mlia).
  set (gs := map _ _) in *. assert (len gs = l - f + 1) as Hlen by (unfold gs, len; rewrite length_map, length_seq; lia).
  pose proof (proj2 size_laws) as Hk. assert (is_usize (sat_mul (l - f + 1) size_of_key_group_map)) as Hn by mlia.
  pose proof (resize_balanced _ r b Hn ltac:(rewrite Hr; mlia) ltac:(lia)) as Hbal.
  destruct (resize _ (r, b)) as [[[]|e|] [r1 b1]]; destruct Hbal as [[Ht Hu _ _ _ Hmx] Hsz];
    [|unfold fail_dropping; destruct (host_drop r1 b1) as [[]?]; done|done].
  intros [= <- <-]. specialize (Hsz eq_refl). set (s := {| first_key_group := f |}).
  assert (Forall (fun g => hgroup_ok g /\ group_bytes g = 0 /\ group_alloc g = 0) gs) as Hgs
    by (apply Forall_map, Forall_forall; intros i _; apply new_group_ok).
  rewrite Forall_forall in Hgs.
  assert (state_bytes s = 0 /\ state_alloc s = 0) as [Hsb Hsa].
  { assert (forall gs' : list KeyGroupMap, zsum (fun _ => 0) gs' = 0) as Hz
      by (intros gs'; induction gs' as [|g gs' IH]; [done|]; by rewrite zsum_cons, IH).
    unfold state_bytes, state_alloc. split; (rewrite (zsum_ext _ (fun _ => 0)); [apply Hz|]; intros g Hg; apply (Hgs g Hg)). }
  assert (hash_footprint s = rsize r1) as Hfoot by (unfold hash_footprint; rewrite Hsb, Hsa; cbn [hgroups s]; rewrite Hsz, Hlen; mlia).
  assert (tables_ok s) as Hs by (split; [done|apply Forall_forall; intros g Hg; apply (Hgs g Hg)|by rewrite Hsb]).
  split_and!.
  - split; [done|rewrite Hfoot; cbn [hreservation s]|cbn [hreservation s]; lia].
    destruct (Z.le_gt_cases (rsize r1) 0); [unfold is_usize in Hu; mlia|]. specialize (Hmx eq_refl ltac:(lia)). lia.
  - intros kg k. unfold hkv. destruct (hash_group s kg) as [g| |] eqn:Eg; [|done..]. destruct (group_facts s kg g Hs Eg) as (i & _ & Hi & Hg).
    cbn [hgroups s] in Hi. unfold gs in Hi. apply list_lookup_fmap_Some in Hi as (j & -> & _). done.
  - intros kg. unfold hash_owned. destruct (hash_group s kg) as [g| |] eqn:Eg.
    + apply hash_group_Ok in Eg as (i & Ei%hash_index_Ok & _); [|done..]. cbn [first_key_group hgroups s] in Ei. unfold len in Hlen. split; [lia|done].
    + split; [done|]. intros Hkg. exfalso. assert (hash_index s kg = Ok (Z.to_nat (kg - f))) as Ei
        by (apply hash_index_Ok; [done|]; cbn [first_key_group hgroups s]; unfold len in Hlen; lia).
      unfold hash_group in Eg. rewrite Ei in Eg. cbn in Eg. destruct (gs !! _) eqn:El; [done|]. apply lookup_ge_None in El. unfold len in Hlen. lia.
    + by destruct (hash_group_no_panic s kg).
Qed.
End created.

(** ** Snapshots *)

Section hash_snapshot.
Context `{HashTableLaws} `{ReleaseTotal B}.
Implicit Types (s : MemoryKeyedState) (g : KeyGroupMap) (b : B).

(** The entries in key order. *)
Definition sorted_pairs g : list kv := map entry_pair (sort_entries (group_entries g)).
Lemma sort_entries_perm l : sort_entries l ≡ₚ l.
Proof. apply merge_sort_Permutation. Qed.
Lemma strictly_sorted (l : list PackedEntry) : StronglySorted (@ole _ (ord_on packed_key)) l -> NoDup (map packed_key l) -> bt_sorted fst (map entry_pair l).
Proof.
  induction 1 as [|e l Hs IH He]; intros Hn; [constructor|]. cbn [map] in *. apply NoDup_cons in Hn as [Hnot Hn].
  constructor; [by apply IH|]. apply Forall_map. rewrite Forall_forall in *. intros e' Hin. cbn [entry_pair fst].
  specialize (He e' Hin). unfold ole, ord_on, ocmp in He. change (ocmp (packed_key e) (packed_key e') <> Gt) in He.
  destruct (ocmp (packed_key e) (packed_key e')) eqn:E; [|done..]. apply ocmp_eq in E. exfalso. apply Hnot. rewrite E. by apply list_elem_of_fmap_2.
Qed.
Lemma sorted_pairs_sorted g : hgroup_ok g -> bt_sorted fst (sorted_pairs g).
Proof.
  intros Hg. apply strictly_sorted.
  - apply (@ole_sorted _ (ord_on packed_key) (ord_on_laws packed_key)).
  - rewrite (fmap_Permutation packed_key _ _ (sort_entries_perm (group_entries g))). by apply entries_nodup_keys.
Qed.
Lemma sorted_pairs_perm g : sorted_pairs g ≡ₚ group_iter g.
Proof. unfold sorted_pairs, group_iter. apply fmap_Permutation, sort_entries_perm. Qed.
Lemma sorted_pairs_unique g (l : list kv) : hgroup_ok g -> bt_sorted fst l -> (forall k, map_get k l = group_get g k) -> sorted_pairs g = l.
Proof.
  intros Hg Hl Hk. apply (bt_sorted_ext fst); [by apply sorted_pairs_sorted|done|]. intros [k v].
  rewrite sorted_pairs_perm, iter_elem, map_get_elem, Hk by done. done.
Qed.

Lemma snapshot_length_spec es : forall n, 0 <= n ->
  match snapshot_length n es with
  | Ok m => m = n + zsum (fun e => 8 + len e.1 + len e.2) es /\ (n <= USIZE_MAX -> m <= USIZE_MAX)
  | Err _ => True
  | Panic => False
  end.
Proof.
  induction es as [|[k v] es IH]; intros n Hn; cbn [snapshot_length]; [split; [cbn; lia|done]|].
  destruct (checked_add n 8) as [n1|] eqn:E1; cbn [mbind option_bind ok_or outcome_bind]; [|done]. apply checked_add_Some in E1.
  destruct (checked_add n1 (len k)) as [n2|] eqn:E2; cbn [mbind option_bind ok_or outcome_bind]; [|done]. apply checked_add_Some in E2.
  destruct (checked_add n2 (len v)) as [n3|] eqn:E3; cbn [mbind option_bind ok_or outcome_bind]; [|done]. apply checked_add_Some in E3.
  pose proof (len_nonneg k). pose proof (len_nonneg v). specialize (IH n3 ltac:(lia)). destruct (snapshot_length n3 es) as [m| |]; [|done..].
  rewrite zsum_cons. cbn [fst snd]. destruct IH as [-> Hle]. split; [lia|]. intros _. apply Hle. lia.
Qed.
Lemma group_len_entries g : group_len g = len (group_entries g).
Proof.
  unfold group_len, group_entries. induction (shards g) as [|sh l IH]; [done|]. cbn [flat_map]. by rewrite zsum_cons, len_app, IH.
Qed.
Lemma sorted_pairs_len g : len (sorted_pairs g) = group_len g.
Proof. rewrite group_len_entries. unfold sorted_pairs, len. by rewrite length_map, sort_entries_perm. Qed.
Lemma drop_reserved r b e : 0 <= rsize r <= reserved b -> exists b', fail_dropping (A := SnapshotBytes) r e b = (Err e, b') /\ reserved b' = reserved b - rsize r.
Proof. intros Hr. destruct (host_drop_total r b Hr) as (b' & E & Hb). exists b'. unfold fail_dropping. by rewrite E. Qed.

(** The snapshot is the canonical frame of the sorted entries. *)
Lemma hash_snapshot_spec o s b kg g owner : hash_ok o s b -> hash_group s kg = Ok g ->
  match hash_snapshot_key_group s kg owner b with
  | (Ok sb, b') => entries_ok (sorted_pairs g) /\ sb_bytes sb = frame kg (sorted_pairs g) /\ rsize (sb_reservation sb) = len (sb_bytes sb) /\
      reserved b' = reserved b + len (sb_bytes sb)
  | (Err _, b') => reserved b' = reserved b
  | (Panic, _) => False
  end.
Proof.
  intros Hok Hg. pose proof (hash_others o s b Hok) as Ho. unfold hash_snapshot_key_group. rewrite (lift_run _ _ _ g) by done.
  pose proof (snapshot_length_spec (group_iter g) 16 ltac:(lia)) as Hlen. destruct (snapshot_length 16 (group_iter g)) as [n|e|] eqn:En; [|done..].
  destruct Hlen as [Hn Hmax]. specialize (Hmax ltac:(mlia)). rewrite (lift_run _ _ _ n) by done.
  assert (n = len (frame kg (sorted_pairs g))) as Hf.
  { unfold frame. rewrite len_app, header_len, payload_len. rewrite (zsum_perm _ _ _ (sorted_pairs_perm g)). lia. }
  assert (is_usize n) as Hus by (pose proof (len_nonneg (frame kg (sorted_pairs g))); mlia).
  assert (is_usize (len (sorted_pairs g))) as Hcount.
  { pose proof (len_nonneg (sorted_pairs g)). pose proof (payload_len_ge (sorted_pairs g)). unfold frame in Hf. rewrite len_app, header_len in Hf. mlia. }
  assert (0 <= reserved b) as Hb0 by lia. pose proof (reserve_sibling_spec owner "canonical snapshot bytes" n b Hus Hb0) as Hr.
  unfold mbind, M_bind. destruct (reserve_sibling owner "canonical snapshot bytes" n b) as [[r|e|] b1]; [|done|done]. destruct Hr as [Hr Hb1].
  assert (0 <= n) as Hn0 by mlia. unfold encode_sorted. change (map entry_pair (sort_entries (group_entries g))) with (sorted_pairs g).
  assert (is_usize (sat_mul (group_len g) 8)) as Hrefs by (rewrite <- sorted_pairs_len; mlia).
  assert (0 <= reserved b1) as Hb10 by lia. pose proof (reserve_sibling_spec owner "canonical snapshot sorted references" _ b1 Hrefs Hb10) as Hr2.
  destruct (reserve_sibling owner "canonical snapshot sorted references" _ b1) as [[refs|e|] b2]; [| |done].
  2:{ destruct (drop_reserved r b2 e ltac:(lia)) as (b3 & -> & Hb3). lia. }
  destruct Hr2 as [Hrf Hb2]. cbv zeta. destruct (host_drop_total refs b2) as (b3 & -> & Hb3); [mlia|].
  destruct (encode_group kg n (sorted_pairs g)) as [bs|e|] eqn:Ee.
  - apply encode_group_Ok in Ee as (Hes & -> & _); [|done|done]. cbn [sb_bytes sb_reservation]. split_and!; [done|done|lia|lia].
  - destruct (drop_reserved r b3 e ltac:(lia)) as (b4 & -> & Hb4). lia.
  - by apply encode_group_no_panic in Ee.
Qed.
End hash_snapshot.

(** ** The two theorems of the backend *)

(** C33: a write batch of the hashed backend, whose tables are reserved before
    anything is touched. Unless it puts a key it deleted before, a batch that
    succeeds has applied all its mutations in order and holds the credit of
    exactly its tables and entries; one that fails (an unowned key group, denied
    memory, an allocation that fails) leaves every mapping as it was. The broker's
    books stay balanced either way, and it never panics. The charge made before
    the tables grow is the backend's own estimate of the library's tables, which
    no law here supports: [underestimated] is the only escape, a reservation of
    the library larger than [growth_for_shard] expects, and then the last resize
    may be refused with all mutations applied, never with some of them. *)
Theorem hash_write_atomic `{HashTableLaws} `{ReleaseTotal B} others ms (s : MemoryKeyedState) (b : B) :
  hash_ok others s b -> Forall mutation_ok ms -> no_reput ms ->
  match hash_write_batch ms (s, b) with
  | (Ok _, (s', b')) =>
      (forall kg k, hkv s' kg k = mutated ms (hkv s) kg k) /\ Forall hgroup_ok (hgroups s') /\
      rsize (hreservation s') = estimated_heap_size s' /\ reserved b' = rsize (hreservation s') + others /\
      (underestimated \/ estimated_heap_size s' = hash_footprint s')
  | (Err _, (s', b')) =>
      ((forall kg k, hkv s' kg k = hkv s kg k) \/ (underestimated /\ forall kg k, hkv s' kg k = mutated ms (hkv s) kg k)) /\
      Forall hgroup_ok (hgroups s') /\ reserved b' = rsize (hreservation s') + others /\
      (underestimated \/ hash_footprint s' <= rsize (hreservation s'))
  | (Panic, _) => False
  end.
Proof.
  intros Hok Hms Hre. pose proof (hash_write_spec others ms s b Hok Hms Hre) as Hw.
  destruct (hash_write_batch ms (s, b)) as [[[]|e|] [s' b']]; destruct Hw as ((Hs & Hr & Hb & _) & Hcr & _ & Hw); [| |done].
  - destruct Hw as (Hsize & Hest & Hkv). split_and!; [done|apply Hs|done|done|done].
  - split_and!; [done|apply Hs|done|done].
Qed.

(** C34: the two backends share their checkpoint format: where they hold the same
    mapping, the snapshot of the hashed backend, whose entries are sorted by
    reference, is the canonical encoding of the ordered backend's key group, its
    reservation is the size of its bytes, a failure gives all scratch memory
    back, and the streaming writer sends what the ordered one sends. *)
Theorem backends_share_snapshots `{HashTableLaws} `{ReleaseTotal B} o o' (s : MemoryKeyedState) (src : OrderedMemoryKeyedState)
    (b b0 : B) kg (entries : list kv) owner {V} (sink : bytes -> M (V * B) unit) (v : V) :
  hash_ok o s b -> hash_owned s kg = true -> ordered_ok o' src b0 -> group_at src kg = Ok entries ->
  (forall k, hkv s kg k = kv_get src kg k) ->
  match hash_snapshot_key_group s kg owner b with
  | (Ok sb, b') =>
      encode_key_group_snapshot kg entries = Ok (sb_bytes sb) /\ rsize (sb_reservation sb) = len (sb_bytes sb) /\
      reserved b' = reserved b + len (sb_bytes sb)
  | (Err _, b') => reserved b' = reserved b
  | (Panic, _) => False
  end /\
  hash_write_snapshot s kg owner sink (v, b) =
    with_scratch owner "canonical snapshot sorted references" (sat_mul (len entries) 8) (write_snapshot src kg sink) (v, b).
Proof.
  intros Hok Hown Hsrc Hentries Hkv. unfold hash_owned in Hown. destruct (hash_group s kg) as [g| |] eqn:Hg; [|done..].
  destruct (group_facts s kg g (ho_tables _ _ _ Hok) Hg) as (_ & _ & _ & Hgok).
  assert (sorted_pairs g = entries) as Hpairs.
  { unfold group_at in Hentries. pose proof Hentries as (i & _ & Hi)%outcome_bind_Ok. destruct (groups src !! i) as [g'|] eqn:Ei; simplify_eq.
    apply sorted_pairs_unique; [done|by apply (ordered_group_scan o' src b0 i)|]. intros k. specialize (Hkv k).
    unfold hkv, kv_get, group_at in Hkv. by rewrite Hg, Hentries in Hkv. }
  split.
  - pose proof (hash_snapshot_spec o s b kg g owner Hok Hg) as Hs. destruct (hash_snapshot_key_group s kg owner b) as [[sb|e|] b']; [|done..].
    rewrite Hpairs in Hs. destruct Hs as (Hes & Hbs & Hr & Hb). split_and!; [by apply encode_spec|done|done].
  - unfold hash_write_snapshot. rewrite (lift_run _ _ _ g) by done. fold (sorted_pairs g). rewrite <- sorted_pairs_len, Hpairs.
    unfold with_scratch, scoped, write_snapshot. destruct (resize _ _) as [[[]|e|] [r b1]]; [|done..].
    by rewrite (lift_run _ _ _ entries) by done.
Qed.
