(* ===== verification/StateFixtures.v ===== *)
(** * Concrete runs of the state layer

    Each theorem of the ordered backend, of restores and of buffered writes,
    applied to a concrete state. *)

From Stdlib Require Import ZArith Lia Strings.Byte.
From stdpp Require Import base list option numbers strings sorting.
From S2P Require Import Prelude Bytes OrdMap MemoryPool Snapshot OrderedState OrderedWrites KeyedState Restore BatchWriter.

Ltac vm_dec := vm_compute; repeat split; congruence.

Definition demo_group : list kv := [([x61], [x6f; x6e; x65]); ([x61; xff], [x01]); ([x62], [])].
(** Key groups 3 and 4. *)
Definition demo_ordered : OrderedMemoryKeyedState :=
  {| first := 3; groups := [demo_group; []]; obytes := 1464; reservation := Resv 0 "state" 1464 |}.
Definition demo_budget : budget := Budget 1564 100000.

Lemma demo_ordered_ok : ordered_ok 100 demo_ordered demo_budget.
Proof.
  split; [split; [vm_dec| |vm_dec]|vm_dec|vm_dec].
  repeat apply Forall_cons_2; [|constructor|constructor].
  unfold bt_sorted. repeat constructor; vm_compute; reflexivity.
Qed.

Definition put (kg : Z) (k v : bytes) : StateMutation :=
  {| mkey := {| key_group := kg; skey := to_vec k |}; mvalue := Some (to_vec v) |}.
Definition del (kg : Z) (k : bytes) : StateMutation :=
  {| mkey := {| key_group := kg; skey := to_vec k |}; mvalue := None |}.

Lemma put_ok kg k v : slice_ok k -> slice_ok v -> mutation_ok (put kg k v).
Proof.
  unfold slice_ok. intros Hk Hv. split; simpl; [unfold vec_ok; simpl; lia|].
  intros ? [= <-]. unfold vec_ok; simpl; lia.
Qed.
Lemma del_ok kg k : slice_ok k -> mutation_ok (del kg k).
Proof. unfold slice_ok. intros Hk. split; simpl; [unfold vec_ok; simpl; lia|done]. Qed.

Definition demo_batch : list StateMutation :=
  [put 4 [x7a] [x09]; del 3 [x61]; put 3 [x62] [x08]; del 4 [x7a]].
Lemma demo_batch_ok : Forall mutation_ok demo_batch.
Proof. repeat apply Forall_cons_2; [..|constructor]; (apply put_ok || apply del_ok); vm_dec. Qed.

Lemma ordered_write_atomic_witness :
  match write_batch demo_batch (demo_ordered, demo_budget) with
  | (Ok _, (s', b')) =>
      kv_get s' 3 [x62] = Some [x08] /\ rsize (reservation s') = ordered_footprint (groups s')
  | _ => False
  end.
Proof.
  pose proof (ordered_write_atomic 100 demo_batch demo_ordered demo_budget demo_ordered_ok demo_batch_ok) as H.
  destruct (write_batch demo_batch (demo_ordered, demo_budget)) as [[u|e|] [s' b']] eqn:E.
  - destruct H as (Hk & _ & Hr & _). split; [|exact Hr]. rewrite Hk. reflexivity.
  - vm_compute in E. congruence.
  - exact H.
Defined.

Lemma ordered_range_pages_witness :
  exists ps tail,
    range (fun _ => mret true) demo_ordered 3 [x61] (Some [x62]) 1 1000 false tt =
      visit_pages (fun _ => mret true) ps tail tt /\
    pages_of 1 1000 [([x61], [x6f; x6e; x65]); ([x61; xff], [x01])] ps tail.
Proof.
  destruct (ordered_range_pages (fun _ => mret true) demo_ordered 3 demo_group [x61] (Some [x62]) 1 1000 false tt)
    as (ps & tail & H1 & H2 & _); [reflexivity|lia|lia|vm_dec|].
  exists ps, tail. split; [exact H1|exact H2].
Defined.

Lemma ordered_prefix_exact_witness :
  exists ps tail,
    visit_prefix demo_ordered 3 [x61; xff] 10 1000 (fun _ => mret tt) tt =
      (_ ← visit_pages (keep_going (fun _ => mret tt)) ps tail; mret tt) tt /\
    pages_of 10 1000 [([x61; xff], [x01])] ps tail.
Proof.
  destruct (ordered_prefix_exact (fun _ => mret tt) demo_ordered 3 demo_group [x61; xff] 10 1000 tt)
    as (ps & tail & H1 & H2); [reflexivity|lia|lia|vm_dec|].
  exists ps, tail. split; [exact H1|exact H2].
Defined.

(** ** Restores *)

(** Another subtask with key groups 3 to 5, all empty. *)
Definition empty_ordered : OrderedMemoryKeyedState :=
  {| first := 3; groups := [[]; []; []]; obytes := 72; reservation := Resv 0 "state" 72 |}.
Lemma empty_ordered_ok n : 0 <= n -> ordered_ok n empty_ordered (Budget (72 + n) 100000).
Proof.
  intros Hn. split; [split; [vm_dec|repeat constructor|vm_dec]|vm_dec|].
  unfold reserved; simpl. lia.
Qed.

Lemma restore_installs_snapshot_witness :
  match restore 3 (frame 3 demo_group) (Resv 0 "restore" 0) (empty_ordered, Budget 172 100000) with
  | (Ok _, (s', b')) => ordered_ok 100 s' b'
  | _ => False
  end.
Proof.
  assert (0 <= 100) as Hn by lia. pose proof (empty_ordered_ok 100 Hn) as Hi.
  assert (is_u32 3) as Hkg by vm_dec. assert (slice_ok (frame 3 demo_group)) as Hs by vm_dec.
  pose proof (restore_installs_snapshot (St := OrderedMemoryKeyedState) 100 empty_ordered (Budget 172 100000) 3
    (frame 3 demo_group) (Resv 0 "restore" 0) Hi eq_refl Hkg Hs) as H.
  destruct (restore 3 (frame 3 demo_group) (Resv 0 "restore" 0) (empty_ordered, Budget 172 100000))
    as [[u|e|] [s' b']] eqn:E.
  - destruct H as (es & _ & H & _). exact H.
  - vm_compute in E. congruence.
  - exact H.
Defined.

Lemma snapshot_moves_key_group_witness :
  match OrderedState.snapshot_key_group demo_ordered 3 (Resv 0 "snapshot" 0) demo_budget with
  | (Ok sb, b1) =>
      match restore 3 (sb_bytes sb) (Resv 0 "snapshot" 0) (empty_ordered, b1) with
      | (Ok _, (dst, _)) => forall k, kv_get dst 3 k = kv_get demo_ordered 3 k
      | _ => False
      end
  | _ => False
  end.
Proof.
  destruct (OrderedState.snapshot_key_group demo_ordered 3 (Resv 0 "snapshot" 0) demo_budget) as [[sb|e|] b1] eqn:E;
    [|vm_compute in E; congruence|vm_compute in E; congruence].
  assert (b1 = Budget 1612 100000 /\ sb_bytes sb = frame 3 demo_group) as [Hb1 Hsb].
  { vm_compute in E. injection E as <- <-. split; reflexivity. }
  assert (is_u32 3) as Hkg by vm_dec.
  assert (slice_ok (sb_bytes sb)) as Hs by (rewrite Hsb; vm_dec).
  assert (ordered_ok 1540 empty_ordered b1) as Hi.
  { rewrite Hb1. refine (empty_ordered_ok 1540 _). lia. }
  pose proof (snapshot_moves_key_group (St := OrderedMemoryKeyedState) 100 1540 demo_ordered empty_ordered
    demo_budget b1 3 demo_group (Resv 0 "snapshot" 0) sb demo_ordered_ok eq_refl Hkg E Hs Hi eq_refl) as [_ H].
  destruct (restore 3 (sb_bytes sb) (Resv 0 "snapshot" 0) (empty_ordered, b1)) as [[u|e|] [s' b']] eqn:Er.
  - exact (proj2 H).
  - rewrite Hsb, Hb1 in Er. vm_compute in Er. congruence.
  - exact H.
Defined.

Lemma stream_writes_canonical_frame_witness :
  write_snapshot demo_ordered 3 recorder [] =
    (Ok (len (length_prefix 48 ++ frame 3 demo_group)), length_prefix 48 ++ frame 3 demo_group).
Proof.
  refine (proj1 (stream_writes_canonical_frame demo_ordered 3 demo_group (frame 3 demo_group) [] _ _ _));
    [reflexivity|reflexivity|vm_dec].
Defined.

(** ** Buffered writes *)

Definition demo_writer : StateBatchWriter :=
  {| bw_memory := Resv 0 "writer" 100; bw_retained := 0; bw_pending := []; bw_capacity := 0;
     bw_bytes := 0; bw_writes := 0 |}.
Definition demo_pushes : list (Z * Z * StateMutation) :=
  [(10, 0, put 3 [x61] [x02]); (300000, 8, del 3 [x62]); (10, 0, put 4 [x00] [x03])].

(** Some growth of a vector. *)
Definition demo_grown (l c : Z) : Z := Z.abs l + Z.abs c + 4.

Lemma batch_writer_transparent_witness :
  match (_ ← push_all demo_grown demo_pushes; finish)
          (demo_writer, (demo_ordered, Budget 1564 2000000)) with
  | (Ok _, (w', (s', b'))) =>
      rsize (bw_memory w') = 0 /\ bw_writes w' = 2 /\
      forall kg k, kv_get s' kg k = mutated (map snd demo_pushes) (kv_get demo_ordered) kg k
  | _ => False
  end.
Proof.
  assert (writer_ok 0 demo_writer demo_ordered (Budget 1564 2000000)) as Hw.
  { split; simpl; [|vm_dec|lia|by split|lia].
    destruct demo_ordered_ok as [Hm Hc Hb]. split; [exact Hm|exact Hc|vm_dec]. }
  assert (pushes_ok demo_pushes) as Hp.
  { unfold pushes_ok. repeat apply Forall_cons_2; [..|constructor];
      (split; [vm_dec|split; [vm_dec|(apply put_ok || apply del_ok); vm_dec]]). }
  assert (forall l c, 0 <= l -> l < demo_grown l c) as Hg by (unfold demo_grown; lia).
  pose proof (batch_writer_transparent demo_grown 0 demo_writer demo_ordered
    (Budget 1564 2000000) demo_pushes Hg Hw eq_refl Hp I) as H.
  destruct ((_ ← push_all demo_grown demo_pushes; finish) (demo_writer, (demo_ordered, Budget 1564 2000000)))
    as [[[]|e|] [w' [s' b']]] eqn:E.
  - destruct H as (_ & _ & H). destruct (H eq_refl) as (_ & H1 & H2). split; [exact H1|].
    split; [|exact H2]. vm_compute in E. injection E as <- <- <-. reflexivity.
  - vm_compute in E. congruence.
  - vm_compute in E. congruence.
Defined.
