(* ===== verification/HashFixtures.v ===== *)
(** * Concrete runs of the hashed backend

    Hash tables as lists of hashed slots that keep the laws of hash tables, and
    each theorem of the backend applied to them. *)

From Stdlib Require Import ZArith Lia Strings.Byte.
From stdpp Require Import base list option numbers strings sorting.
From S2P Require Import Prelude Bytes OrdMap MemoryPool Snapshot OrderedState OrderedWrites KeyedState Restore HashState HashTableSpec HashStateSpec HashWrites HashBackend StateFixtures.

(** ** Tables of hashed slots *)

Definition slot_table : Type := list (Z * PackedEntry) * Z.
Definition slot_entries (t : slot_table) : list PackedEntry := map snd t.1.
Definition slot_capacity (t : slot_table) : Z := Z.max (len t.1) t.2.
Definition slot_allocation (t : slot_table) : Z := if slot_capacity t =? 0 then 0 else table_size_for_entries (slot_capacity t).
Definition slot_matches (hash : Z) (p : PackedEntry -> bool) (s : Z * PackedEntry) : bool := (s.1 =? hash) && p s.2.
Fixpoint slot_find (hash : Z) (p : PackedEntry -> bool) (l : list (Z * PackedEntry)) : option (nat * PackedEntry) :=
  match l with
  | [] => None
  | s :: l => if slot_matches hash p s then Some (O, s.2) else option_map (fun '(i, e) => (S i, e)) (slot_find hash p l)
  end.
Definition slot_find_mut (hash : Z) (p : PackedEntry -> bool) (f : PackedEntry -> PackedEntry) (t : slot_table) : slot_table :=
  match slot_find hash p t.1 with
  | Some (i, e) => (<[i := (hash, f e)]> t.1, t.2)
  | None => t
  end.
Definition slot_remove (hash : Z) (p : PackedEntry -> bool) (t : slot_table) : option (PackedEntry * slot_table) :=
  match slot_find hash p t.1 with
  | Some (i, e) => Some (e, (delete i t.1, slot_capacity t))
  | None => None
  end.
Definition slot_reserve (n : Z) (h : PackedEntry -> Z) (t : slot_table) : option slot_table :=
  if 2 ^ 32 <? len t.1 + n then None
  else if slot_capacity t <? len t.1 + n then Some (map (fun s => (h s.2, s.2)) t.1, len t.1 + n) else Some t.

#[global] Instance slot_tables : HashTables := {|
  Table := slot_table;
  Hasher := Z;
  hash_one := fun seed bs => fold_left (fun h c => wrapu 64 (h * 31 + b2z c)) bs seed;
  random_state := fun group shard => group * 65 + default 64 shard;
  table_new := ([], 0);
  table_iter := slot_entries;
  table_capacity := slot_capacity;
  table_allocation := slot_allocation;
  table_find := fun hash p t => option_map snd (slot_find hash p t.1);
  table_find_mut := slot_find_mut;
  table_insert_unique := fun hash e _ t => ((hash, e) :: t.1, slot_capacity t);
  table_remove := slot_remove;
  table_try_reserve := slot_reserve;
  directory_reserve := fun _ => true;
  size_of_shard := 64;
  size_of_key_group_map := 56;
|}.

Lemma slot_find_Some hash p l i e : slot_find hash p l = Some (i, e) -> l !! i = Some (hash, e) /\ p e = true.
Proof.
  revert i. induction l as [|[z x] l IH]; intros i; [done|]. cbn [slot_find]. unfold slot_matches. cbn [fst snd].
  destruct ((z =? hash) && p x) eqn:E; [intros [= <- <-]; apply andb_true_iff in E as [->%Z.eqb_eq ?]; done|].
  destruct (slot_find hash p l) as [[j y]|]; [|done]. cbn. intros [= <- <-]. by apply IH.
Qed.
Lemma slot_find_None hash p l s : slot_find hash p l = None -> s ∈ l -> slot_matches hash p s = false.
Proof.
  induction l as [|x l IH]; [by intros _ ?%not_elem_of_nil|]. cbn [slot_find]. destruct (slot_matches hash p x) eqn:E; [done|].
  destruct (slot_find hash p l) as [[j y]|]; [done|]. intros _ [->|Hs]%elem_of_cons; [done|by apply IH].
Qed.
Definition slots_stored (h : PackedEntry -> Z) (t : slot_table) : Prop := Forall (fun s => s.1 = h s.2) t.1.
Lemma slots_find_None h hash p t e : slots_stored h t -> (forall e, p e = true -> h e = hash) -> slot_find hash p t.1 = None ->
  e ∈ slot_entries t -> p e = false.
Proof.
  intros Hs Hp Hn (s & -> & Hin)%list_elem_of_fmap. pose proof (slot_find_None _ _ _ _ Hn Hin) as Hm. unfold slots_stored in Hs. rewrite Forall_forall in Hs.
  unfold slot_matches in Hm. destruct (p s.2) eqn:E; [|done]. by rewrite (Hs s Hin), (Hp _ E), Z.eqb_refl in Hm.
Qed.
Lemma next_power_nonneg n : 0 <= default USIZE_MAX (checked_next_power_of_two n).
Proof.
  unfold checked_next_power_of_two. cbv zeta. destruct (_ <=? USIZE_MAX); cbn; [|mlia].
  destruct (n <=? 1); [lia|]. by apply Z.pow_nonneg.
Qed.
Lemma size_for_entries_nonneg n : 0 <= table_size_for_entries n.
Proof.
  unfold table_size_for_entries. destruct (n <=? 3); [by vm_compute|]. destruct (n <=? 7); [by vm_compute|].
  unfold bucket_bytes, size_of_packed_entry. pose proof (next_power_nonneg (sat_add (sat_mul n 8) 6 / 7)). mlia.
Qed.

#[global] Instance slot_laws : HashTableLaws.
Proof.
  refine {| stored := slots_stored |}.
  - intros h. split; [constructor|done].
  - intros t. cbn. unfold slot_allocation, slot_capacity, slot_entries, len. rewrite length_map. split; [|lia].
    destruct (_ =? 0); [lia|apply size_for_entries_nonneg].
  - intros h hash p t Hs Hp. cbn. destruct (slot_find hash p t.1) as [[i e]|] eqn:E; cbn.
    + apply slot_find_Some in E as [Hi He]. split; [|done]. apply (list_elem_of_fmap_2 snd _ (hash, e)). by eapply list_elem_of_lookup_2.
    + intros e He. by eapply slots_find_None.
  - intros h hash p f t e Hs Hp Hf Hh. cbn in *. unfold slot_find_mut. destruct (slot_find hash p t.1) as [[i x]|] eqn:E; [|done].
    cbn in Hf. simplify_eq. apply slot_find_Some in E as [Hi He].
    assert (slot_capacity (<[i:=(hash, f e)]> t.1, t.2) = slot_capacity t) as Hcap by (unfold slot_capacity, len; cbn; by rewrite length_insert).
    split; [|split; [|split; [unfold slot_allocation; by rewrite Hcap|exact Hcap]]].
    + exists (map snd (delete i t.1)). unfold slot_entries. cbn. split.
      * by rewrite (fmap_Permutation snd _ _ (delete_Permutation _ _ _ Hi)).
      * assert (<[i:=(hash, f e)]> t.1 !! i = Some (hash, f e)) as Hi' by (apply list_lookup_insert_eq; by eapply lookup_lt_Some).
        rewrite (fmap_Permutation snd _ _ (delete_Permutation _ _ _ Hi')). cbn.
        by rewrite !delete_take_drop, take_insert_ge, drop_insert_lt by lia.
    + unfold slots_stored in *. cbn. apply Forall_insert; [done|]. cbn. by rewrite Hh, (Hp e He).
  - intros h e t Hs. cbn. split; [done|]. split; [by constructor|]. unfold slot_entries, slot_allocation, slot_capacity, len. cbn. rewrite length_map. intros Hlt.
    assert (Z.max (Z.of_nat (S (length t.1))) (Z.max (Z.of_nat (length t.1)) t.2) = Z.max (Z.of_nat (length t.1)) t.2) as -> by lia. split; [done|lia].
  - intros h hash p t Hs Hp. cbn. unfold slot_remove. destruct (slot_find hash p t.1) as [[i e]|] eqn:E; [|intros e He; by eapply slots_find_None].
    apply slot_find_Some in E as [Hi He]. pose proof (lookup_lt_Some _ _ _ Hi) as Hlt.
    assert (length (delete i t.1) = (length t.1 - 1)%nat) as Hlen by (by apply length_delete).
    assert (slot_capacity (delete i t.1, slot_capacity t) = slot_capacity t) as Hcap by (unfold slot_capacity, len; cbn; lia).
    split; [|split; [done|split; [|split; [unfold slot_allocation; by rewrite Hcap|rewrite Hcap; lia]]]].
    + unfold slot_entries. by rewrite (fmap_Permutation snd _ _ (delete_Permutation _ _ _ Hi)).
    + by apply Forall_delete.
  - intros h n t t' Hs Hn. cbn. unfold slot_reserve, slot_entries.
    assert (len (map snd t.1) = len t.1) as -> by (unfold len; by rewrite length_map).
    destruct (Z.ltb_spec (2 ^ 32) (len t.1 + n)); [done|]. pose proof (len_nonneg t.1) as Hl.
    destruct (Z.ltb_spec (slot_capacity t) (len t.1 + n)) as [Hlt|Hge]; intros [= <-].
    2:{ split; [mlia|]. split; [done|]. split; [done|]. by split; [lia|]. }
    assert (slot_capacity (map (fun s => (h s.2, s.2)) t.1, len t.1 + n) = len t.1 + n) as Hcap
      by (unfold slot_capacity, len; cbn; rewrite length_map; lia).
    split; [mlia|]. split; [cbn; by rewrite map_map|]. split; [apply Forall_map, Forall_forall; done|]. rewrite Hcap. split; [lia|].
    intros Hle. lia.
  - cbn. lia.
Qed.
(** These tables are never larger than estimated. *)
#[global] Instance slot_estimate : GrowthEstimate.
Proof.
  intros (h & n & t & t' & _ & Hn & Hfull & E & Hover). unfold expected_allocation in Hover. cbn in *. unfold slot_reserve in E. unfold slot_entries in *.
  assert (len (map snd t.1) = len t.1) as El by (unfold len; by rewrite length_map). rewrite El in *.
  destruct (2 ^ 32 <? len t.1 + n); [done|]. rewrite (proj2 (Z.ltb_lt _ _) Hfull) in E. injection E as <-. pose proof (len_nonneg t.1).
  assert (slot_capacity (map (fun s => (h s.2, s.2)) t.1, len t.1 + n) = len t.1 + n) as Hcap
    by (unfold slot_capacity, len; cbn; rewrite length_map; lia).
  unfold slot_allocation at 2 in Hover. rewrite Hcap in Hover. unfold slot_capacity in Hfull. destruct (_ =? 0) eqn:E0; lia.
Qed.

(** ** A backend with key groups 3 and 4 *)

Definition hash_budget : budget := Budget 100 1000000.
Definition hash_created : outcome MemoryKeyedState * budget := hash_new 3 4 (Resv 0 "state" 0) hash_budget.
Definition hash_demo : MemoryKeyedState := match hash_created.1 with Ok s => s | _ => {| first_key_group := 0; hgroups := []; hreservation := Resv 0 "state" 0; entry_bytes_ := 0 |} end.
Lemma hash_demo_ok : hash_ok 100 hash_demo hash_created.2 /\ forall kg k, hkv hash_demo kg k = None.
Proof.
  assert (hash_created = (Ok hash_demo, hash_created.2)) as E by reflexivity.
  destruct (hash_new_spec 3 4 (Resv 0 "state" 0) hash_budget hash_demo hash_created.2 100) as (H1 & H2 & _); [lia|vm_dec|reflexivity|reflexivity|lia|vm_dec|exact E|].
  split; [exact H1|exact H2].
Qed.

(** The batch of the ordered fixture, then a delete of a key it does not put again. *)
Definition hash_batch : list StateMutation := [put 4 [x7a] [x09]; put 3 [x62] [x08]; put 3 [x62] [x07]; del 4 [x7a]; del 3 [x00]].
Lemma hash_batch_ok : Forall mutation_ok hash_batch /\ no_reput hash_batch.
Proof.
  split; [repeat apply Forall_cons_2; [..|constructor]; (apply put_ok || apply del_ok); vm_dec|].
  cbn. repeat split; intros; repeat constructor; cbn; discriminate.
Qed.
Lemma hash_write_atomic_witness :
  match hash_write_batch hash_batch (hash_demo, hash_created.2) with
  | (Ok _, (s', b')) => hkv s' 3 [x62] = Some [x07] /\ hkv s' 4 [x7a] = None /\ rsize (hreservation s') = hash_footprint s'
  | _ => False
  end.
Proof.
  pose proof (hash_write_atomic 100 hash_batch hash_demo hash_created.2 (proj1 hash_demo_ok) (proj1 hash_batch_ok) (proj2 hash_batch_ok)) as H.
  assert (match hash_write_batch hash_batch (hash_demo, hash_created.2) with (Ok _, _) => true | _ => false end = true) as E by (vm_compute; reflexivity).
  destruct (hash_write_batch hash_batch (hash_demo, hash_created.2)) as [[u|e|] [s' b']]; [|discriminate E|discriminate E].
  destruct H as (Hk & _ & Hr & _ & [Hu|He]); [destruct (slot_estimate Hu)|].
  split; [rewrite Hk; reflexivity|]. split; [rewrite Hk; reflexivity|exact (eq_trans Hr He)].
Defined.

(** The entries of the ordered fixture, written to the hashed backend. *)
Definition hash_filled : outcome unit * (MemoryKeyedState * budget) := hash_write_batch (map (put_of 3) demo_group) (hash_demo, hash_created.2).
Lemma demo_group_sorted : bt_sorted fst demo_group.
Proof. unfold bt_sorted. repeat constructor; vm_compute; reflexivity. Qed.
Lemma hash_filled_ok : hash_ok 100 hash_filled.2.1 hash_filled.2.2 /\ hash_owned hash_filled.2.1 3 = true /\
  forall k, hkv hash_filled.2.1 3 k = kv_get demo_ordered 3 k.
Proof.
  assert (slices_ok demo_group) as Hsl by (unfold slices_ok; repeat constructor; vm_dec).
  pose proof (hash_write_spec 100 (map (put_of 3) demo_group) hash_demo hash_created.2 (proj1 hash_demo_ok)
    (put_of_ok 3 demo_group Hsl) (no_reput_puts _ (put_of_puts 3 demo_group))) as Hw. fold hash_filled in Hw.
  assert (match hash_filled with (Ok _, _) => true | _ => false end = true) as E by (vm_compute; reflexivity).
  destruct hash_filled as [[[]|e|] [s' b']]; [|done..]. destruct Hw as (Hbk & Hcr & Ho & _ & _ & Hkv). cbn [fst snd].
  split; [by apply books_hash_ok|]. split; [rewrite Ho; reflexivity|]. intros k. rewrite Hkv. rewrite puts_read; [reflexivity|exact demo_group_sorted|].
  intros k'. apply hash_demo_ok.
Qed.
Definition hash_sink : bytes -> M (bytes * budget) unit := fun bs => modS (fun '(out, b) => (out ++ bs, b)).
Lemma backends_share_snapshots_witness :
  match hash_snapshot_key_group hash_filled.2.1 3 (Resv 0 "snapshot" 0) hash_filled.2.2 with
  | (Ok sb, _) => sb_bytes sb = frame 3 demo_group
  | _ => False
  end /\
  hash_write_snapshot hash_filled.2.1 3 (Resv 0 "snapshot" 0) hash_sink ([], hash_filled.2.2) =
    with_scratch (Resv 0 "snapshot" 0) "canonical snapshot sorted references" 24 (write_snapshot demo_ordered 3 hash_sink) ([], hash_filled.2.2).
Proof.
  destruct hash_filled_ok as (H1 & H2 & H3).
  destruct (backends_share_snapshots 100 100 hash_filled.2.1 demo_ordered hash_filled.2.2 demo_budget 3 demo_group (Resv 0 "snapshot" 0) hash_sink []
    H1 H2 demo_ordered_ok eq_refl H3) as [H H'].
  split; [|exact H'].
  assert (match hash_snapshot_key_group hash_filled.2.1 3 (Resv 0 "snapshot" 0) hash_filled.2.2 with (Ok _, _) => true | _ => false end = true) as E by (vm_compute; reflexivity).
  destruct (hash_snapshot_key_group hash_filled.2.1 3 (Resv 0 "snapshot" 0) hash_filled.2.2) as [[sb|e|] b']; [|discriminate E|discriminate E].
  destruct H as (He & _). apply encode_spec in He. exact (proj2 He).
Defined.

(** A key group moves from the ordered backend to the hashed one and back to the
    same bytes. *)
Example hash_restores_ordered_snapshot :
  match restore 3 (frame 3 demo_group) (Resv 0 "restore" 0) (hash_demo, hash_created.2) with
  | (Ok _, (s', b')) => option_map sb_bytes (match hash_snapshot_key_group s' 3 (Resv 0 "snapshot" 0) b' with (Ok sb, _) => Some sb | _ => None end) = Some (frame 3 demo_group)
  | _ => False
  end.
Proof. vm_compute. reflexivity. Qed.
