(* ===== verification/KeyGroup.v ===== *)
(** * Key groups: [exchange/key_group.rs] and the routing geometry

    Flink's key-group assignment: the word hash of a binary row, the integer
    murmur hash and the reduction modulo the maximum parallelism, on 32-bit
    words with their wrap-around written out; and the two maps between key
    groups and destination channels that [partitioner/routing_rows.rs] and
    [exchange_framer.rs] use. *)

From Stdlib Require Import ZArith Lia Strings.Byte.
From stdpp Require Import base list option numbers strings.
From S2P Require Import Prelude Bytes.

(** ** 32-bit words *)

(** [u32::wrapping_mul], [wrapping_add], [rotate_left], [>>] and [^]. *)
Definition u32_mul (a b : Z) : Z := wrapu 32 (a * b).
Definition u32_add (a b : Z) : Z := wrapu 32 (a + b).
Definition u32_rotl (a n : Z) : Z :=
  Z.lor (wrapu 32 (Z.shiftl a n)) (Z.shiftr a (32 - n)).
(** [u32::saturating_mul] and [saturating_add]. *)
Definition u32_sat_mul (a b : Z) : Z := Z.min (a * b) U32_MAX.
Definition u32_sat_add (a b : Z) : Z := Z.min (a + b) U32_MAX.

(** ** [key_group.rs] *)

Definition C1 : Z := 0xcc9e2d51.
Definition C2 : Z := 0x1b873593.

Definition mix_word (value : Z) : Z :=
  let value := u32_mul value C1 in
  let value := u32_rotl value 15 in
  u32_mul value C2.

Definition mix_hash (hash word : Z) : Z :=
  u32_add (u32_mul (u32_rotl (Z.lxor hash word) 13) 5) 0xe6546b64.

Definition finalize (value : Z) : Z :=
  let value := Z.lxor value (Z.shiftr value 16) in
  let value := u32_mul value 0x85ebca6b in
  let value := Z.lxor value (Z.shiftr value 13) in
  let value := u32_mul value 0xc2b2ae35 in
  Z.lxor value (Z.shiftr value 16).

(** [chunks_exact(4)]: the full chunks; a shorter rest is dropped. *)
Fixpoint hash_words (hash : Z) (bs : bytes) : Z :=
  match bs with
  | a :: b :: c :: d :: rest =>
      hash_words (mix_hash hash (mix_word (of_le [a; b; c; d]))) rest
  | _ => hash
  end.

(** The [assert!] on the length panics. *)
Definition binary_row_hash (bs : bytes) : outcome Z :=
  if len bs mod 4 =? 0
  then Ok (wraps 32 (finalize (Z.lxor (hash_words 42 bs) (wrapu 32 (len bs)))))
  else Panic.

Definition flink_murmur_hash (value : Z) : Z :=
  let mixed := Z.lxor (mix_hash 0 (mix_word (wrapu 32 value))) 4 in
  let result := wraps 32 (finalize mixed) in
  if 0 <=? result then result
  else if negb (result =? I32_MIN) then - result
  else 0.

Definition assign_key_group (binary_row : bytes) (max_parallelism : Z) : outcome Z :=
  if (0 <? max_parallelism) && (max_parallelism <=? 32768) then
    hash ← binary_row_hash binary_row;
    Ok (wrapu 32 (flink_murmur_hash hash) mod max_parallelism)
  else Panic.

(** The vectors of the source's own tests. *)
Example murmur_vectors :
  map flink_murmur_hash [0; 42; -77] = [0x2362f9de; 0x43a46e1d; 0x2eeb27de].
Proof. vm_compute. reflexivity. Qed.
Example row_hash_vectors :
  binary_row_hash [] = Ok 142593372 /\
  binary_row_hash (i32_le 1) = Ok (-559580957) /\
  assign_key_group (i32_le 1) 128 = Ok 2.
Proof. vm_compute. auto. Qed.

(** ** Destinations *)

(** [key_group * destinations / max_parallelism] of [routing_rows], a wrapping
    [u32] product. *)
Definition destination_of (max_parallelism destinations key_group : Z) : Z :=
  wrapu 32 (key_group * destinations) / max_parallelism.

(** The key group a frame that gathers a whole destination is tagged with
    ([frame_hash_exchange_batch_accounted]). *)
Definition destination_tag (max_parallelism parallelism destination : Z) : Z :=
  u32_sat_add (u32_sat_mul destination max_parallelism) (parallelism - 1) / parallelism.

(** The geometry [route_batch] requires before it routes. *)
Definition geometry_ok (max_parallelism parallelism : Z) : bool :=
  negb ((parallelism =? 0) || (max_parallelism <? parallelism) || (32768 <? max_parallelism)).

(** ** Range of the hashes *)

Lemma flink_murmur_hash_range v : 0 <= flink_murmur_hash v <= I32_MAX.
Proof.
  unfold flink_murmur_hash. pose proof (wraps_range 32
    (finalize (Z.lxor (mix_hash 0 (mix_word (wrapu 32 v))) 4)) ltac:(lia)) as H.
  revert H. generalize (wraps 32 (finalize (Z.lxor (mix_hash 0 (mix_word (wrapu 32 v))) 4))).
  intros r Hr. change (2 ^ (32 - 1)) with (2 ^ 31) in Hr.
  unfold I32_MIN, I32_MAX. case_bool; simpl; lia.
Qed.

Lemma binary_row_hash_total bs : len bs mod 4 = 0 -> exists h, binary_row_hash bs = Ok h.
Proof. unfold binary_row_hash. intros ->. eauto. Qed.

Lemma assign_key_group_total bs mp :
  len bs mod 4 = 0 -> 0 < mp <= 32768 ->
  exists g, assign_key_group bs mp = Ok g /\ 0 <= g < mp.
Proof.
  intros Hbs Hmp. unfold assign_key_group.
  rewrite (proj2 (Z.ltb_lt _ _)), (proj2 (Z.leb_le _ _)) by lia. simpl.
  destruct (binary_row_hash_total bs Hbs) as [h ->]. rewrite outcome_bind_run.
  eexists; split; [done|]. apply Z.mod_pos_bound. lia.
Qed.

(** A successful assignment is a key group below the maximum parallelism. *)
Lemma assign_key_group_range bs mp g :
  assign_key_group bs mp = Ok g -> 0 <= g < mp.
Proof.
  unfold assign_key_group. case_bool; simpl; intros E; inv_M; simplify_eq; try done.
  apply Z.mod_pos_bound. lia.
Qed.

(** ** Destinations partition the key groups into intervals *)

Lemma geometry_spec mp p :
  0 <= p -> geometry_ok mp p = true <-> 0 < p <= mp /\ mp <= 32768.
Proof. unfold geometry_ok. intros. case_bool; simpl; split; lia || done. Qed.

Section geometry.
Context (mp p : Z) (Hp : 0 < p <= mp) (Hmp : mp <= 32768).

(** The [u32] product does not wrap. *)
Lemma destination_exact g : 0 <= g < mp -> destination_of mp p g = g * p / mp.
Proof. intros. unfold destination_of. rewrite wrapu_small by nia. done. Qed.

Lemma destination_range g : 0 <= g < mp -> 0 <= destination_of mp p g < p.
Proof.
  intros. rewrite destination_exact by done.
  split; [apply Z.div_pos; nia|apply Z.div_lt_upper_bound; nia].
Qed.

Lemma destination_tag_exact d :
  0 <= d <= p -> destination_tag mp p d = (d * mp + (p - 1)) / p.
Proof.
  intros. unfold destination_tag, u32_sat_add, u32_sat_mul, U32_MAX.
  rewrite !Z.min_l by nia. done.
Qed.

(** The tag is the least key group of the destination or beyond it. *)
Lemma destination_tag_le d g :
  0 <= d <= p -> 0 <= g < mp -> destination_tag mp p d <= g <-> d <= destination_of mp p g.
Proof.
  intros. rewrite destination_tag_exact, destination_exact by lia.
  pose proof (Z.div_mod (d * mp + (p - 1)) p ltac:(lia)).
  pose proof (Z.mod_pos_bound (d * mp + (p - 1)) p ltac:(lia)).
  pose proof (Z.div_mod (g * p) mp ltac:(lia)).
  pose proof (Z.mod_pos_bound (g * p) mp ltac:(lia)).
  split; intros; nia.
Qed.

Lemma destination_tag_range d : 0 <= d < p -> 0 <= destination_tag mp p d < mp.
Proof.
  intros. rewrite destination_tag_exact by lia.
  split; [apply Z.div_pos; nia|apply Z.div_lt_upper_bound; nia].
Qed.

Lemma destination_of_tag d : 0 <= d < p -> destination_of mp p (destination_tag mp p d) = d.
Proof.
  intros Hd. pose proof (destination_tag_range d Hd) as Ht.
  pose proof (proj1 (destination_tag_le d _ ltac:(lia) Ht) ltac:(lia)).
  pose proof (destination_range _ Ht) as Hr.
  assert (~ d + 1 <= destination_of mp p (destination_tag mp p d)); [|lia].
  intros Hle%(destination_tag_le (d + 1) _ ltac:(lia) Ht).
  rewrite !destination_tag_exact in Hle by lia.
  assert ((d * mp + (p - 1)) / p + 1 <= ((d + 1) * mp + (p - 1)) / p); [|lia].
  rewrite <- Z.div_add by lia. apply Z.div_le_mono; nia.
Qed.
End geometry.

(** C10: For a word-aligned key and a valid geometry the assignment returns a
    key group below the maximum parallelism without panicking; the key groups of
    destination [d] are exactly the interval that starts at the tag of [d] and
    ends before the tag of [d + 1], so every key group has one destination; and
    the tag of a gathered frame is a valid key group of that frame's own
    destination. No product or sum overflows 32 bits on the way. *)
Theorem key_group_intervals bs mp p :
  len bs mod 4 = 0 -> 0 < p <= mp -> mp <= 32768 ->
  exists g, assign_key_group bs mp = Ok g /\ 0 <= g < mp /\
    0 <= destination_of mp p g < p /\
    forall d, 0 <= d < p ->
      (destination_of mp p g = d <-> destination_tag mp p d <= g < destination_tag mp p (d + 1)) /\
      0 <= destination_tag mp p d < mp /\
      destination_of mp p (destination_tag mp p d) = d.
Proof.
  intros Hbs Hp Hmp.
  destruct (assign_key_group_total bs mp Hbs ltac:(lia)) as (g & Hg & Hr).
  exists g. split_and!; [done|lia|lia|by apply destination_range..|].
  intros d Hd. split_and!; [|by apply destination_tag_range..|by apply destination_of_tag].
  pose proof (destination_tag_le mp p Hp Hmp d g ltac:(lia) Hr).
  pose proof (destination_tag_le mp p Hp Hmp (d + 1) g ltac:(lia) Hr). lia.
Qed.

Lemma key_group_intervals_witness :
  exists g, assign_key_group (i64_le 42) 128 = Ok g /\ destination_of 128 5 g = 4 /\
    destination_tag 128 5 4 <= g < destination_tag 128 5 5.
Proof.
  destruct (key_group_intervals (i64_le 42) 128 5) as (g & Hg & Hr & Hd & Hk);
    [vm_compute; reflexivity|lia|lia|].
  exists g. split; [done|].
  assert (destination_of 128 5 g = 4) as E.
  { vm_compute in Hg. injection Hg as <-. vm_compute. reflexivity. }
  split; [done|]. apply (Hk 4); [lia|done].
Defined.
