(* ===== verification/Arrow.v ===== *)
(** * The Arrow arrays and batches the exchange reads

    The [arrow] crate is not part of the sources. Its types enter as a class of
    operations, [Arrow], with the documented behaviour the sources rely on as
    the class [ArrowLaws]; the clients are proved against the interface. The
    enumeration [DataType] keeps the variants the sources match on. *)

From Stdlib Require Import ZArith Lia Strings.Byte.
From stdpp Require Import base list option numbers strings.
From S2P Require Import Prelude Bytes.

(** ** Types *)

Inductive TimeUnit : Type := Second | Millisecond | Microsecond | Nanosecond.

(** Field names, nullability and time zones take no part in what is modelled. *)
#[warnings="-register-all"]
Inductive DataType : Type :=
  | DNull | DBoolean | DInt8 | DInt16 | DInt32 | DInt64
  | DUInt8 | DUInt16 | DUInt32 | DUInt64 | DFloat32 | DFloat64
  | DUtf8 | DLargeUtf8 | DBinary | DLargeBinary | DFixedSizeBinary (width : Z)
  | DDate32 | DDate64 | DTime32 (unit : TimeUnit) | DTime64 (unit : TimeUnit) | DTimestamp (unit : TimeUnit)
  | DDecimal128 (precision scale : Z)
  | DList (item : DataType) | DLargeList (item : DataType) | DFixedSizeList (item : DataType) (size : Z)
  | DStruct (fields : list DataType)
  | DMap (entries : DataType)
  | DOther (name : string).

#[global] Instance TimeUnit_eq : EqDecision TimeUnit.
Proof. solve_decision. Defined.
#[global] Instance DataType_eq : EqDecision DataType.
Proof.
  refine (fix go (x y : DataType) : {x = y} + {x <> y} := _).
  decide equality; try (apply Z.eq_dec || apply TimeUnit_eq || apply String.string_dec).
  exact (List.list_eq_dec go fields fields0).
Defined.

(** The nesting depth of a type. *)
Fixpoint dt_depth (t : DataType) : nat :=
  match t with
  | DList t | DLargeList t | DFixedSizeList t _ => S (dt_depth t)
  | DMap t => S (dt_depth t)
  | DStruct ts => S (list_max (map dt_depth ts))
  | _ => O
  end.

(** The array classes [downcast_ref] is called with. The value of a fixed-width
    array is an integer: a boolean is 0 or 1, a float is its bit pattern. *)
Inductive FixedArray : Type :=
  | BooleanArray | Int8Array | Int16Array | Int32Array | Int64Array
  | UInt8Array | UInt16Array | UInt32Array | UInt64Array
  | Float32Array | Float64Array | Date32Array | Date64Array
  | Time32SecondArray | Time32MillisecondArray | Time64MicrosecondArray | Time64NanosecondArray
  | TimestampSecondArray | TimestampMillisecondArray
  | TimestampMicrosecondArray | TimestampNanosecondArray
  | Decimal128Array.
Inductive BytesArray : Type := StringArray | LargeStringArray | BinaryArray | LargeBinaryArray | FixedSizeBinaryArray.
#[global] Instance FixedArray_eq : EqDecision FixedArray.
Proof. solve_decision. Defined.
#[global] Instance BytesArray_eq : EqDecision BytesArray.
Proof. solve_decision. Defined.

Definition in_signed (w z : Z) : Prop := - 2 ^ (w - 1) <= z < 2 ^ (w - 1).
Definition fixed_range (c : FixedArray) (z : Z) : Prop :=
  match c with
  | BooleanArray => 0 <= z <= 1
  | Int8Array => in_signed 8 z
  | Int16Array => in_signed 16 z
  | Int32Array | Date32Array | Time32SecondArray | Time32MillisecondArray => in_signed 32 z
  | Int64Array | Date64Array | Time64MicrosecondArray | Time64NanosecondArray
  | TimestampSecondArray | TimestampMillisecondArray
  | TimestampMicrosecondArray | TimestampNanosecondArray => in_signed 64 z
  | UInt8Array => 0 <= z < 2 ^ 8
  | UInt16Array => 0 <= z < 2 ^ 16
  | UInt32Array => 0 <= z < 2 ^ 32
  | UInt64Array => 0 <= z < 2 ^ 64
  | Float32Array => 0 <= z < 2 ^ 32
  | Float64Array => 0 <= z < 2 ^ 64
  | Decimal128Array => in_signed 128 z
  end.

(** ** Operations *)

Class Arrow : Type := {
  Array : Type;
  data_type : Array -> DataType;
  array_len : Array -> Z;
  is_null : Array -> Z -> bool;
  (** [downcast_ref::<T>()] with [value(row)]. *)
  as_fixed : FixedArray -> Array -> option (Z -> Z);
  as_bytes : BytesArray -> Array -> option (Z -> bytes);
  (** [ListArray]: [value_offsets()] and [values()]. *)
  as_list : Array -> option ((Z -> Z) * Array);
  as_large_list : Array -> option ((Z -> Z) * Array);
  (** [FixedSizeListArray]: [value_offset(row)], [value_length()] and [values()]. *)
  as_fixed_list : Array -> option ((Z -> Z) * Z * Array);
  (** [MapArray]: [value_offsets()], [keys()] and [values()]. *)
  as_map : Array -> option ((Z -> Z) * Array * Array);
  (** [StructArray]: its columns. *)
  as_struct : Array -> option (list Array);
  (** The [take] kernel with [u32] indices. *)
  array_take : Array -> list Z -> outcome Array;

  Batch : Type;
  num_rows : Batch -> Z;
  columns : Batch -> list Array;
  batch_slice : Batch -> Z -> Z -> Batch;
  (** [project(&(0..n))]. *)
  project_to : Batch -> Z -> outcome Batch;
  (** [RecordBatch::try_new(self.schema(), columns)]. *)
  with_columns : Batch -> list Array -> outcome Batch;
  (** The content of a cell, whatever its type. *)
  Cell : Type;
  array_cell : Array -> Z -> Cell;
}.

Section access.
Context `{Arrow}.

Definition num_columns (b : Batch) : Z := len (columns b).

(** [batch.column(i)] panics outside the schema. *)
Definition column (b : Batch) (i : Z) : outcome Array :=
  match (if 0 <=? i then columns b !! Z.to_nat i else None) with
  | Some a => Ok a
  | None => Panic
  end.

(** [value::<T>(array, row)?.value(row)]: a failed downcast is a [CastError],
    a row outside the array panics. *)
Definition fixed_at (c : FixedArray) (a : Array) (row : Z) : outcome Z :=
  v ← ok_or (CastError "key row expected another array class") (as_fixed c a);
  if (0 <=? row) && (row <? array_len a) then Ok (v row) else Panic.
Definition bytes_at (c : BytesArray) (a : Array) (row : Z) : outcome bytes :=
  v ← ok_or (CastError "key row expected another array class") (as_bytes c a);
  if (0 <=? row) && (row <? array_len a) then Ok (v row) else Panic.

(** The rows of a batch, column by column. *)
Definition batch_row (b : Batch) (i : Z) : list Cell := map (fun a => array_cell a i) (columns b).
Definition batch_rows (b : Batch) : list (list Cell) :=
  map (fun i => batch_row b (Z.of_nat i)) (seq 0 (Z.to_nat (num_rows b))).
End access.

(** ** Documented behaviour *)

Class ArrowLaws `{Arrow} : Prop := {
  fixed_law c a v i : as_fixed c a = Some v -> 0 <= i < array_len a ->
    fixed_range c (v i);
  bytes_law c a v i : as_bytes c a = Some v -> c <> LargeStringArray -> c <> LargeBinaryArray -> len (v i) <= I32_MAX;
  (** Offsets are monotone and stay within the child; children have the
      declared types. *)
  list_law a o v : as_list a = Some (o, v) ->
    data_type a = DList (data_type v) /\
    forall i, 0 <= i < array_len a -> 0 <= o i <= o (i + 1) /\ o (i + 1) <= array_len v;
  large_list_law a o v : as_large_list a = Some (o, v) ->
    data_type a = DLargeList (data_type v) /\
    forall i, 0 <= i < array_len a -> 0 <= o i <= o (i + 1) /\ o (i + 1) <= array_len v;
  fixed_list_law a o n v : as_fixed_list a = Some (o, n, v) ->
    data_type a = DFixedSizeList (data_type v) n /\
    forall i, 0 <= i < array_len a -> 0 <= o i /\ 0 <= n /\ o i + n <= array_len v;
  map_law a o k v : as_map a = Some (o, k, v) ->
    data_type a = DMap (DStruct [data_type k; data_type v]) /\
    forall i, 0 <= i < array_len a ->
      0 <= o i <= o (i + 1) /\ o (i + 1) <= array_len k /\ o (i + 1) <= array_len v;
  struct_law a cs : as_struct a = Some cs ->
    data_type a = DStruct (map data_type cs) /\
    Forall (fun c => array_len c = array_len a) cs;
  array_len_law a : 0 <= array_len a;
  (** Every column of a batch has the batch's rows. *)
  columns_law b : Forall (fun a => array_len a = num_rows b) (columns b);
  num_rows_law b : 0 <= num_rows b;
  (** A slice inside the batch is its rows from [s] on. *)
  slice_law b s n : 0 <= s -> 0 <= n -> s + n <= num_rows b ->
    num_rows (batch_slice b s n) = n /\
    Forall2 (fun a a' => forall i, 0 <= i < n -> array_cell a' i = array_cell a (s + i))
      (columns b) (columns (batch_slice b s n));
  (** Projecting to the first columns keeps them. *)
  project_law b n : 0 <= n <= num_columns b ->
    exists b', project_to b n = Ok b' /\ num_rows b' = num_rows b /\
      columns b' = take (Z.to_nat n) (columns b);
  (** [take] with indices inside the array gathers them. *)
  take_law a rows : Forall (fun r => 0 <= r < array_len a) rows ->
    exists a', array_take a rows = Ok a' /\ data_type a' = data_type a /\
      array_len a' = len rows /\
      forall i r, rows !! i = Some r -> array_cell a' (Z.of_nat i) = array_cell a r;
  (** Columns of equal length and of the schema's types form a batch, unless
      there is no column to give the length. *)
  with_columns_law b n cs : cs <> [] ->
    Forall2 (fun a c => data_type c = data_type a /\ array_len c = n) (columns b) cs ->
    exists b', with_columns b cs = Ok b' /\ num_rows b' = n /\ columns b' = cs;
}.

Section access_lemmas.
Context `{ArrowLaws}.

Lemma column_lookup b i a : column b i = Ok a <-> 0 <= i /\ columns b !! Z.to_nat i = Some a.
Proof. unfold column. case_bool; repeat case_match; naive_solver lia. Qed.

Lemma column_len b i a : column b i = Ok a -> array_len a = num_rows b.
Proof.
  intros [_ Hi]%column_lookup. pose proof (columns_law b) as Hb.
  rewrite Forall_lookup in Hb. eauto.
Qed.

Lemma column_total b i : 0 <= i < num_columns b -> exists a, column b i = Ok a.
Proof.
  intros Hi. destruct (lookup_lt_is_Some_2 (columns b) (Z.to_nat i)) as [a Ha].
  { unfold num_columns, len in Hi. lia. }
  exists a. apply column_lookup. split; [lia|done].
Qed.

Lemma fixed_at_no_panic c a row : 0 <= row < array_len a -> fixed_at c a row <> Panic.
Proof.
  intros. unfold fixed_at. destruct (as_fixed c a); [|done]. simpl. case_bool; done || lia.
Qed.
Lemma bytes_at_no_panic c a row : 0 <= row < array_len a -> bytes_at c a row <> Panic.
Proof.
  intros. unfold bytes_at. destruct (as_bytes c a); [|done]. simpl. case_bool; done || lia.
Qed.
End access_lemmas.
