(* ===== verification/Envelope.v ===== *)
(** * Record metadata: [operators/envelope.rs], [envelope/selection.rs]

    Native batches end with metadata columns: the record timestamp they own, the
    change kind and the ordinal of the input row. *)

From Stdlib Require Import ZArith Lia.
From stdpp Require Import base list option numbers strings.
From S2P Require Import Prelude Bytes Arrow.

(** ** Schemas *)

(** [size] is Arrow's estimate of the heap a field retains. *)
Record Field : Type := { field_name : string; field_type : DataType; nullable : bool; field_size : Z }.
#[global] Instance Field_eq : EqDecision Field.
Proof. solve_decision. Defined.
(** The fields of a batch; schema metadata takes no part. *)
Class ArrowSchema `{Arrow} : Type := { batch_schema : Batch -> list Field }.
(** A batch has the columns its schema declares. *)
Class SchemaLaws `{ArrowSchema} : Prop := {
  schema_law b : Forall2 (fun f a => field_type f = data_type a) (batch_schema b) (columns b);
  field_size_law b : Forall (fun f => 0 <= field_size f) (batch_schema b);
}.

Definition INPUT_ROW : string := "__streamfusion_input_row".
Definition ROW_KIND : string := "__streamfusion_row_kind".
Definition INPUT_ROW_KIND : string := "__streamfusion_input_row_kind".
Definition OWNED_TIMESTAMP_V1 : string := "__streamfusion_owned_timestamp_v1".
Definition PROCESSING_TIME_FIELD : string := "__streamfusion_processing_time_v1".
Definition owned_prefix : string := "__streamfusion_owned_timestamp_".
Definition clock_prefix : string := "__streamfusion_processing_time_".

Definition has_name (n : string) (f : Field) : bool := String.eqb (field_name f) n.
Definition starts (p : string) (f : Field) : bool := String.prefix p (field_name f).
Definition has_type (t : DataType) (f : Field) : bool := bool_decide (field_type f = t).
Definition is_kind_field (f : Field) : bool := has_name ROW_KIND f || has_name INPUT_ROW_KIND f.
(** [fields().iter().position(p)]. *)
Fixpoint position {A} (p : A -> bool) (l : list A) : option Z :=
  match l with
  | [] => None
  | x :: l => if p x then Some 0 else option_map (Z.add 1) (position p l)
  end.
(** [iter().filter(p).count()]. *)
Definition count_fields (p : Field -> bool) (l : list Field) : Z := len (List.filter p l).

(** ** The envelope *)

Record Envelope : Type := { payload_width : Z; width : Z }.

(** [&&] evaluates its right side only when the left holds. *)
Definition and_then (b : bool) (m : outcome bool) : outcome bool := if b then m else Ok false.
Definition bit (b : bool) : Z := if b then 1 else 0.

Definition from_schema (fields : list Field) : outcome Envelope :=
  ordinal ← ok_or (Plan "native input has no envelope") (checked_sub (len fields) 1);
  field ← at_index fields ordinal;
  _ ← guard_ok (has_name INPUT_ROW field && has_type DInt32 field && negb (nullable field))
        (Plan "native input must end with a non-null Int32 input-row ordinal");
  has_kind ← and_then (0 <? ordinal) (f ← at_index fields (ordinal - 1); Ok (is_kind_field f));
  _ ← (if has_kind : bool then
         f ← at_index fields (ordinal - 1);
         guard_ok (has_type DInt8 f && negb (nullable f)) (Plan "native RowKind must be a non-null Int8 column")
       else Ok tt);
  owned ← and_then (has_kind && (1 <? ordinal)) (f ← at_index fields (ordinal - 2); Ok (has_name OWNED_TIMESTAMP_V1 f));
  _ ← guard_ok (count_fields (starts owned_prefix) fields =? bit owned) (Plan "unsupported or misplaced owned native envelope version");
  _ ← (if owned : bool then
         f ← at_index fields (ordinal - 2);
         guard_ok (has_type DInt64 f) (Plan "owned native timestamp v1 must be Int64")
       else Ok tt);
  clock ← and_then (owned && (2 <? ordinal)) (f ← at_index fields (ordinal - 3); Ok (has_name PROCESSING_TIME_FIELD f));
  _ ← guard_ok (count_fields (starts clock_prefix) fields =? bit clock) (Plan "unsupported or misplaced processing-time input version");
  _ ← (if clock : bool then
         f ← at_index fields (ordinal - 3);
         guard_ok (has_type DInt64 f && negb (nullable f)) (Plan "processing-time input v1 must be non-null Int64")
       else Ok tt);
  let width := 1 + bit has_kind + bit owned + bit clock in
  Ok {| payload_width := len fields - width; width := width |}.

Definition owned_timestamp_index (fields : list Field) : outcome (option Z) :=
  if negb (existsb (starts owned_prefix) fields) then Ok None
  else _ ← from_schema fields; Ok (Some (len fields - 3)).

(** ** Facts *)

Lemma position_Some {A} (p : A -> bool) l i : position p l = Some i -> 0 <= i < len l /\ exists x, l !! Z.to_nat i = Some x /\ p x = true.
Proof.
  revert i. induction l as [|x l IH]; intros i; cbn [position]; [done|]. rewrite len_cons. pose proof (len_nonneg l). destruct (p x) eqn:E.
  - intros [= <-]. split; [lia|]. by exists x.
  - destruct (position p l) as [j|]; [|done]. cbn [option_map]. intros [= <-]. destruct (IH j eq_refl) as (Hj & y & Hy & Hp).
    split; [lia|]. exists y. split; [|done]. replace (Z.to_nat (1 + j)) with (S (Z.to_nat j)) by lia. done.
Qed.
Lemma at_index_in {A} (l : list A) i : 0 <= i < len l -> exists x, at_index l i = Ok x.
Proof.
  intros Hi. destruct (lookup_lt_is_Some_2 l (Z.to_nat i)) as [x Hx]; [unfold len in Hi; lia|]. exists x. apply at_index_Ok. split; [lia|done].
Qed.
Lemma tail_field_test (c : bool) (fields : list Field) i (q : Field -> bool) : (c = true -> 0 <= i < len fields) ->
  exists r, and_then c (f ← at_index fields i; Ok (q f)) = Ok r /\ (r = true -> c = true).
Proof.
  intros Hi. unfold and_then. destruct c; [|by exists false]. destruct (at_index_in fields i (Hi eq_refl)) as [f E]. exists (q f). by rewrite E.
Qed.
Lemma tail_field_guard (c : bool) (fields : list Field) i (q : Field -> bool) e : (c = true -> 0 <= i < len fields) ->
  (if c then f ← at_index fields i; guard_ok (q f) e else Ok tt) = Ok tt \/ (if c then f ← at_index fields i; guard_ok (q f) e else Ok tt) = Err e.
Proof.
  intros Hi. destruct c; [|by left]. destruct (at_index_in fields i (Hi eq_refl)) as [f E]. rewrite E. cbn. unfold guard_ok. destruct (q f); auto.
Qed.
Lemma guard_cases b e : (guard_ok b e = Ok tt /\ b = true) \/ guard_ok b e = Err e.
Proof. unfold guard_ok. destruct b; auto. Qed.
Lemma count_none p fields : count_fields p fields = 0 -> existsb p fields = false.
Proof.
  unfold count_fields, len. intros Hc. apply not_true_iff_false. intros (f & Hin & Hp)%existsb_exists.
  assert (In f (List.filter p fields)) as Hf by (by apply filter_In). destruct (List.filter p fields); [done|cbn in Hc; lia].
Qed.
(** Reading the envelope never panics, and a batch it accepts is its payload
    followed by the envelope; an owned timestamp is its third column from the end. *)
Lemma from_schema_spec fields :
  match from_schema fields with
  | Ok e => 0 <= payload_width e /\ 1 <= width e <= 4 /\ payload_width e + width e = len fields /\
      (existsb (starts owned_prefix) fields = true -> 3 <= width e)
  | Err _ => True
  | Panic => False
  end.
Proof.
  unfold from_schema, checked_sub. pose proof (len_nonneg fields) as Hl0. destruct (Z.leb_spec 1 (len fields)) as [Hl|]; cbn [ok_or mbind outcome_bind]; [|done].
  set (o := len fields - 1). destruct (at_index_in fields o ltac:(lia)) as [f0 E0]. rewrite E0. cbn [mbind outcome_bind].
  destruct (guard_cases (has_name INPUT_ROW f0 && has_type DInt32 f0 && negb (nullable f0)) (Plan "native input must end with a non-null Int32 input-row ordinal")) as [[-> _] | ->]; [|done]. cbn [mbind outcome_bind].
  destruct (tail_field_test (0 <? o) fields (o - 1) is_kind_field) as (k & -> & Hk); [intros; lia|]. cbn [mbind outcome_bind].
  destruct (tail_field_guard k fields (o - 1) (fun f => has_type DInt8 f && negb (nullable f)) (Plan "native RowKind must be a non-null Int8 column")) as [-> | ->]; [intros ?%Hk; lia| |done].
  cbn [mbind outcome_bind].
  destruct (tail_field_test (k && (1 <? o)) fields (o - 2) (has_name OWNED_TIMESTAMP_V1)) as (w & -> & Hw); [intros []%andb_true_iff; lia|]. cbn [mbind outcome_bind].
  destruct (guard_cases (count_fields (starts owned_prefix) fields =? bit w) (Plan "unsupported or misplaced owned native envelope version")) as [[-> Ec%Z.eqb_eq] | ->]; [|done]. cbn [mbind outcome_bind].
  destruct (tail_field_guard w fields (o - 2) (has_type DInt64) (Plan "owned native timestamp v1 must be Int64")) as [-> | ->]; [intros [? ?]%Hw%andb_true_iff; lia| |done].
  cbn [mbind outcome_bind].
  destruct (tail_field_test (w && (2 <? o)) fields (o - 3) (has_name PROCESSING_TIME_FIELD)) as (c & -> & Hc); [intros []%andb_true_iff; lia|]. cbn [mbind outcome_bind].
  destruct (guard_cases (count_fields (starts clock_prefix) fields =? bit c) (Plan "unsupported or misplaced processing-time input version")) as [[-> _] | ->]; [|done]. cbn [mbind outcome_bind].
  destruct (tail_field_guard c fields (o - 3) (fun f => has_type DInt64 f && negb (nullable f)) (Plan "processing-time input v1 must be non-null Int64")) as [-> | ->]; [intros [? ?]%Hc%andb_true_iff; lia| |done].
  cbn [mbind outcome_bind payload_width width].
  assert (0 <= bit k <= 1 /\ 0 <= bit w <= 1 /\ 0 <= bit c <= 1) as (Hbk & Hbw & Hbc) by (destruct k, w, c; cbn; lia).
  assert (1 + bit k + bit w + bit c <= len fields) as Hle.
  { destruct c; [destruct (proj1 (andb_true_iff _ _) (Hc eq_refl)) as [-> Hc2]; destruct (proj1 (andb_true_iff _ _) (Hw eq_refl)) as [-> Hw2]; cbn; lia|].
    destruct w; [destruct (proj1 (andb_true_iff _ _) (Hw eq_refl)) as [-> Hw2]; cbn; lia|]. destruct k; [specialize (Hk eq_refl); cbn; lia|cbn; lia]. }
  split_and!; [lia|lia|lia|lia|]. intros Hx. destruct w; [destruct (proj1 (andb_true_iff _ _) (Hw eq_refl)) as [-> _]; cbn; lia|].
  cbn in Ec. apply count_none in Ec. congruence.
Qed.
Lemma owned_timestamp_spec fields :
  match owned_timestamp_index fields with
  | Ok (Some i) => 0 <= i < len fields
  | Ok None | Err _ => True
  | Panic => False
  end.
Proof.
  unfold owned_timestamp_index. destruct (existsb _ _) eqn:E; cbn [negb]; [|done].
  pose proof (from_schema_spec fields) as Hs. destruct (from_schema fields) as [e| |]; [|done..]. cbn. destruct Hs as (H1 & H2 & H3 & H4).
  specialize (H4 E). lia.
Qed.
