(* ===== verification/BinaryRow.v ===== *)
(** * Flink's [BinaryRowData] keys: [exchange/binary_row.rs], [binary_row/nested.rs]

    The key encoder that the router hashes and stateful operators store. A
    [BinaryRowWriter] is the four layout numbers of the writer; the byte vector
    it borrows mutably is the state of the monad, shared between a row and the
    arrays, maps and rows nested in it, as the source shares [writer.bytes]. *)

From Stdlib Require Import ZArith Lia Strings.Byte.
From stdpp Require Import base list option numbers strings.
From S2P Require Import Prelude Bytes KeyGroup Arrow.

(** ** [Vec<u8>] operations *)

(** [bytes[off..off + v.len()].copy_from_slice(v)]. *)
Definition copy_at (off : Z) (v : bytes) : M bytes unit := fun bs =>
  if (0 <=? off) && (off + len v <=? len bs)
  then (Ok tt, take (Z.to_nat off) bs ++ v ++ drop (Z.to_nat (off + len v)) bs)
  else (Panic, bs).
(** [bytes[i] |= mask]. *)
Definition or_at (i mask : Z) : M bytes unit := fun bs =>
  match (if 0 <=? i then bs !! Z.to_nat i else None) with
  | Some b => (Ok tt, <[Z.to_nat i := z2b (Z.lor (b2z b) mask)]> bs)
  | None => (Panic, bs)
  end.
(** [extend_from_slice] and [resize(n, 0)]. *)
Definition extend (v : bytes) : M bytes unit := modS (fun bs => bs ++ v).
Definition vec_resize (n : Z) : M bytes unit := modS (fun bs =>
  take (Z.to_nat n) bs ++ replicate (Z.to_nat n - length bs) x00).
Definition bytes_len : M bytes Z := gets len.

(** [usize::next_multiple_of(8)] and [div_ceil]. *)
Definition next_multiple_of_8 (n : Z) : Z := (n + 7) / 8 * 8.
Definition div_ceil (n d : Z) : Z := (n + d - 1) / d.

(** ** The key types *)

Inductive KeyField : Type :=
  | PreencodedBinaryRow | Nested | KBoolean | TinyInt | SmallInt | Integer | BigInt
  | Float | Double | KString | KBinary | Date | Time
  | Timestamp (precision : Z)
  | Decimal (precision : Z).
#[global] Instance KeyField_eq : EqDecision KeyField.
Proof. solve_decision. Defined.

Definition unit_precision (u : TimeUnit) : Z :=
  match u with Second => 0 | Millisecond => 3 | Microsecond => 6 | Nanosecond => 9 end.

Fixpoint from_arrow_type (t : DataType) : outcome KeyField :=
  match t with
  | DBoolean => Ok KBoolean
  | DInt8 => Ok TinyInt
  | DInt16 => Ok SmallInt
  | DInt32 => Ok Integer
  | DInt64 => Ok BigInt
  | DFloat32 => Ok Float
  | DFloat64 => Ok Double
  | DUtf8 => Ok KString
  | DBinary | DFixedSizeBinary _ => Ok KBinary
  | DDate32 => Ok Date
  | DTime32 (Second | Millisecond) => Ok Time
  | DTimestamp unit => Ok (Timestamp (unit_precision unit))
  | DDecimal128 precision _ => Ok (Decimal precision)
  | DList t => _ ← from_arrow_type t; Ok Nested
  | DStruct ts =>
      (fix go (ts : list DataType) : outcome KeyField :=
         match ts with
         | [] => Ok Nested
         | t :: ts => _ ← from_arrow_type t; go ts
         end) ts
  | DMap t => _ ← from_arrow_type t; Ok Nested
  | _ => Err (InvalidArgument "Flink BinaryRow key does not support Arrow type")
  end.

(** ** The writer *)

Record BinaryRowWriter : Type :=
  { base : Z; stride : Z; null_bit_offset : Z; null_bytes : Z }.

Definition row_null_bytes (arity : Z) : Z := (arity + 63 + 8) / 64 * 8.
(** [BinaryRowWriter::new]: clears the buffer and lays out the fixed part. *)
Definition row_writer (arity : Z) : BinaryRowWriter :=
  {| base := 0; stride := 8; null_bit_offset := 8; null_bytes := row_null_bytes arity |}.
Definition row_writer_new (arity : Z) : M bytes BinaryRowWriter :=
  _ ← putS [];
  _ ← vec_resize (row_null_bytes arity + arity * 8);
  mret (row_writer arity).

Section writer.
Context (w : BinaryRowWriter).

Definition field_offset (position : Z) : Z := base w + null_bytes w + position * stride w.

Definition set_null (position : Z) : M bytes unit :=
  let bit := position + null_bit_offset w in
  or_at (base w + bit / 8) (Z.shiftl 1 (bit mod 8)).

Definition write_fixed (position : Z) (value : bytes) : M bytes unit :=
  copy_at (field_offset position) value.

(** [(((offset - base) as u64) << 32) | low]. *)
Definition offset_and_size (offset low : Z) : bytes :=
  to_le 8 (Z.lor (wrapu 64 (Z.shiftl (offset - base w) 32)) low).

Definition pad_to_word : M bytes unit :=
  n ← bytes_len; vec_resize (base w + next_multiple_of_8 (n - base w)).

Definition write_bytes (position : Z) (value : bytes) : M bytes unit :=
  let field_offset := field_offset position in
  if len value <=? 7 then
    _ ← copy_at field_offset value;
    copy_at (field_offset + 7) [z2b (Z.lor 0x80 (len value))]
  else
    variable_offset ← bytes_len;
    _ ← extend value;
    _ ← pad_to_word;
    copy_at field_offset (offset_and_size variable_offset (len value)).

Definition write_noncompact_timestamp (position millis nanos : Z) : M bytes unit :=
  variable_offset ← bytes_len;
  _ ← extend (to_le 8 millis);
  write_fixed position (offset_and_size variable_offset (wrapu 32 nanos)).

(** [minimal_twos_complement] over the 16 big-endian bytes of an [i128]: drop a
    leading sign byte while the next byte still carries the sign. *)
Fixpoint strip_sign (bs : bytes) : bytes :=
  match bs with
  | current :: ((next :: _) as rest) =>
      if (bool_decide (current = x00) && (Z.land (b2z next) 0x80 =? 0))
         || (bool_decide (current = xff) && negb (Z.land (b2z next) 0x80 =? 0))
      then strip_sign rest else bs
  | _ => bs
  end.
Definition minimal_twos_complement (value : Z) : bytes := strip_sign (to_be 16 value).

Definition write_noncompact_decimal (position unscaled : Z) : M bytes unit :=
  let encoded := minimal_twos_complement unscaled in
  variable_offset ← bytes_len;
  _ ← vec_resize (variable_offset + 16);
  _ ← copy_at variable_offset encoded;
  write_fixed position (offset_and_size variable_offset (len encoded)).
End writer.

(** ** Values *)

Section values.
Context `{Arrow}.

Definition i32_checked_mul (a b : Z) : option Z :=
  if (I32_MIN <=? a * b) && (a * b <=? I32_MAX) then Some (a * b) else None.
Definition i64_checked_mul (a b : Z) : option Z :=
  if (I64_MIN <=? a * b) && (a * b <=? I64_MAX) then Some (a * b) else None.

Definition time_millis (a : Array) (row : Z) : outcome Z :=
  match data_type a with
  | DTime32 Second =>
      v ← fixed_at Time32SecondArray a row;
      ok_or (InvalidArgument "TIME key milliseconds overflow") (i32_checked_mul v 1000)
  | DTime32 Millisecond => fixed_at Time32MillisecondArray a row
  | _ => Err (CastError "Flink TIME key requires Arrow Time32 second or millisecond")
  end.

(** Rust's [div_euclid] and [rem_euclid] by a positive constant are [/] and
    [mod]. *)
Definition timestamp_parts (a : Array) (row : Z) : outcome (Z * Z) :=
  match data_type a with
  | DTimestamp Second =>
      v ← fixed_at TimestampSecondArray a row;
      millis ← ok_or (InvalidArgument "timestamp key milliseconds overflow") (i64_checked_mul v 1000);
      Ok (millis, 0)
  | DTimestamp Millisecond =>
      millis ← fixed_at TimestampMillisecondArray a row; Ok (millis, 0)
  | DTimestamp Microsecond =>
      micros ← fixed_at TimestampMicrosecondArray a row;
      Ok (micros / 1000, micros mod 1000 * 1000)
  | DTimestamp Nanosecond =>
      nanos ← fixed_at TimestampNanosecondArray a row;
      Ok (nanos / 1000000, nanos mod 1000000)
  | _ => Err (CastError "Flink TIMESTAMP key requires an Arrow timestamp")
  end.

(** A fixed-width value in [n] little-endian bytes. *)
Definition write_prim (w : BinaryRowWriter) (position : Z) (c : FixedArray) (n : nat)
    (a : Array) (row : Z) : M bytes unit :=
  v ← lift (fixed_at c a row); write_fixed w position (to_le n v).
Definition write_var (w : BinaryRowWriter) (position : Z) (c : BytesArray)
    (a : Array) (row : Z) : M bytes unit :=
  v ← lift (bytes_at c a row); write_bytes w position v.

(** [write_value], with the recursion into nested values as an argument. *)
Definition write_value_with (nested : M bytes unit) (w : BinaryRowWriter) (position : Z)
    (a : Array) (row : Z) (kind : KeyField) : M bytes unit :=
  if is_null a row then set_null w position
  else match kind with
  | PreencodedBinaryRow => panic
  | Nested => nested
  | KBoolean => write_prim w position BooleanArray 1 a row
  | TinyInt => write_prim w position Int8Array 1 a row
  | SmallInt => write_prim w position Int16Array 2 a row
  | Integer => write_prim w position Int32Array 4 a row
  | BigInt => write_prim w position Int64Array 8 a row
  | Float => write_prim w position Float32Array 4 a row
  | Double => write_prim w position Float64Array 8 a row
  | KString => write_var w position StringArray a row
  | KBinary =>
      match data_type a with
      | DBinary => write_var w position BinaryArray a row
      | DFixedSizeBinary _ => write_var w position FixedSizeBinaryArray a row
      | _ => throw (CastError "Flink binary key requires Arrow Binary or FixedSizeBinary")
      end
  | Date => write_prim w position Date32Array 4 a row
  | Time => v ← lift (time_millis a row); write_fixed w position (to_le 4 v)
  | Timestamp precision =>
      '(millis, nanos) ← lift (timestamp_parts a row);
      if precision <=? 3 then write_fixed w position (to_le 8 millis)
      else write_noncompact_timestamp w position millis nanos
  | Decimal precision =>
      unscaled ← lift (fixed_at Decimal128Array a row);
      if precision <=? 18 then
        _ ← when (negb ((I64_MIN <=? unscaled) && (unscaled <=? I64_MAX)))
              (InvalidArgument "DECIMAL key does not fit Flink's compact representation");
        write_fixed w position (to_le 8 unscaled)
      else write_noncompact_decimal w position unscaled
  end.

(** ** [nested.rs] *)

(** [f32::is_nan] and [f64::is_nan] on the bit pattern. *)
Definition f32_is_nan (bits : Z) : bool := 0x7f800000 <? Z.land bits 0x7fffffff.
Definition f64_is_nan (bits : Z) : bool := 0x7ff0000000000000 <? Z.land bits 0x7fffffffffffffff.

Definition element_stride (kind : KeyField) : Z :=
  match kind with
  | KBoolean | TinyInt => 1
  | SmallInt => 2
  | Integer | Float | Date | Time => 4
  | _ => 8
  end.

Section nested.
(** [write_value] on the children. *)
Context (rec : BinaryRowWriter -> Z -> Array -> Z -> KeyField -> M bytes unit).

Definition write_element (w : BinaryRowWriter) (a : Array) (kind : KeyField) (from index : Z)
  : M bytes unit :=
  if negb (is_null a index) && bool_decide (kind = Float) then
    bits ← lift (fixed_at Float32Array a index);
    write_fixed w (index - from) (to_le 4 (if f32_is_nan bits then 0x7fc00000 else bits))
  else if negb (is_null a index) && bool_decide (kind = Double) then
    bits ← lift (fixed_at Float64Array a index);
    write_fixed w (index - from) (to_le 8 (if f64_is_nan bits then 0x7ff8000000000000 else bits))
  else rec w (index - from) a index kind.

(** The rows [from..to] of a range loop. *)
Definition rows_between (from to : Z) : list Z :=
  map (fun i => from + Z.of_nat i) (seq 0 (Z.to_nat (to - from))).

Definition append_array (a : Array) (from to : Z) : M bytes unit :=
  let count := to - from in
  kind ← lift (from_arrow_type (data_type a));
  let stride := element_stride kind in
  base ← bytes_len;
  let null_bytes := 4 + div_ceil count 32 * 4 in
  _ ← vec_resize (base + next_multiple_of_8 (null_bytes + count * stride));
  _ ← copy_at base (to_le 4 count);
  let w := {| base := base; stride := stride; null_bit_offset := 32; null_bytes := null_bytes |} in
  forM (rows_between from to) (write_element w a kind from).

(** The fields of a nested row, enumerated from [index]. *)
Fixpoint write_fields (w : BinaryRowWriter) (row index : Z) (ts : list DataType) (cs : list Array)
  : M bytes unit :=
  match ts with
  | [] => mret tt
  | t :: ts =>
      match cs with
      | [] => panic
      | c :: cs =>
          kind ← lift (from_arrow_type t);
          _ ← rec w index c row kind;
          write_fields w row (index + 1) ts cs
      end
  end.

Definition cast_error {A} : M bytes A := throw (CastError "key row expected another array class").

Definition write_container (start : Z) (a : Array) (row : Z) : M bytes unit :=
  match data_type a with
  | DList _ =>
      match as_list a with
      | None => cast_error
      | Some (offsets, values) => append_array values (offsets row) (offsets (row + 1))
      end
  | DMap _ =>
      match as_map a with
      | None => cast_error
      | Some (offsets, keys, values) =>
          let from := offsets row in
          let to := offsets (row + 1) in
          _ ← extend [x00; x00; x00; x00];
          _ ← append_array keys from to;
          n ← bytes_len;
          let key_size := n - start - 4 in
          _ ← copy_at start (to_le 4 key_size);
          append_array values from to
      end
  | DStruct fields =>
      match as_struct a with
      | None => cast_error
      | Some structure =>
          let null_bytes := (len fields + 71) / 64 * 8 in
          _ ← vec_resize (start + null_bytes + len fields * 8);
          write_fields
            {| base := start; stride := 8; null_bit_offset := 8; null_bytes := null_bytes |}
            row 0 fields structure
      end
  | _ => throw (InvalidArgument "expected nested key")
  end.

Definition write_nested (w : BinaryRowWriter) (position : Z) (a : Array) (row : Z) : M bytes unit :=
  start ← bytes_len;
  _ ← write_container start a row;
  n ← bytes_len;
  let size := n - start in
  _ ← write_fixed w position (offset_and_size w start size);
  pad_to_word w.
End nested.

(** The recursion goes down the type of the array, so the nesting depth of the
    type is enough fuel. *)
Fixpoint write_value_fuel (fuel : nat) (w : BinaryRowWriter) (position : Z) (a : Array) (row : Z)
    (kind : KeyField) : M bytes unit :=
  match fuel with
  | O => panic
  | S fuel => write_value_with (write_nested (write_value_fuel fuel) w position a row) w position a row kind
  end.
Definition write_value (w : BinaryRowWriter) (position : Z) (a : Array) (row : Z) (kind : KeyField)
  : M bytes unit := write_value_fuel (S (dt_depth (data_type a))) w position a row kind.

(** ** Rows *)

Fixpoint encode_fields (w : BinaryRowWriter) (b : Batch) (row position : Z)
    (fields : list (Z * KeyField)) : M bytes unit :=
  match fields with
  | [] => mret tt
  | (column_index, kind) :: fields =>
      a ← lift (column b column_index);
      _ ← write_value w position a row kind;
      encode_fields w b row (position + 1) fields
  end.

Definition is_preencoded (f : Z * KeyField) : bool := bool_decide (f.2 = PreencodedBinaryRow).

(** The state is the caller's scratch buffer. *)
Definition encode_binary_row_into (b : Batch) (row : Z) (fields : list (Z * KeyField))
  : M bytes unit :=
  _ ← when (num_rows b <=? row) (InvalidArgument "key row is outside the batch");
  if existsb is_preencoded fields then
    match fields with
    | [(c, PreencodedBinaryRow)] =>
        a ← lift (column b c);
        _ ← when (is_null a row) (InvalidArgument "a preencoded BinaryRow exchange key cannot be null");
        match data_type a with
        | DBinary => _ ← putS []; v ← lift (bytes_at BinaryArray a row); extend v
        | _ => throw (CastError "a preencoded BinaryRow exchange key requires Arrow Binary")
        end
    | _ => throw (InvalidArgument "a preencoded BinaryRow key must be the only exchange key field")
    end
  else
    w ← row_writer_new (len fields);
    encode_fields w b row 0 fields.

Definition encode_binary_row (b : Batch) (row : Z) (fields : list (Z * KeyField)) : outcome bytes :=
  let '(o, output) := encode_binary_row_into b row fields [] in
  _ ← o; Ok output.
End values.
