(* ===== verification/BinaryRowSafe.v ===== *)
(** * The key encoder neither panics nor misaligns a row

    A small Hoare logic for the writer monad (a computation that never panics
    and, when it succeeds, establishes a postcondition), and the specification
    of every writer operation in terms of the length of the buffer. *)

From Stdlib Require Import ZArith Lia Strings.Byte.
From stdpp Require Import base list option numbers strings.
From S2P Require Import Prelude Bytes KeyGroup Arrow BinaryRow.

(** ** Triples *)

Definition holds {S A} (P : S -> Prop) (m : M S A) (Q : A -> S -> Prop) : Prop :=
  forall s, P s -> match m s with
                   | (Ok a, s') => Q a s'
                   | (Err _, _) => True
                   | (Panic, _) => False
                   end.

Section triples.
Context {S : Type}.

Lemma holds_bind {A B} (P : S -> Prop) (m : M S A) (k : A -> M S B) Q R :
  holds P m Q -> (forall a, holds (Q a) (k a) R) -> holds P (m ≫= k) R.
Proof.
  intros Hm Hk s Hs. specialize (Hm s Hs). unfold mbind, M_bind.
  destruct (m s) as [[a|e|] s']; [by apply Hk|done|done].
Qed.

Lemma holds_weaken {A} (P P' : S -> Prop) (m : M S A) (Q Q' : A -> S -> Prop) :
  holds P' m Q' -> (forall s, P s -> P' s) -> (forall a s, Q' a s -> Q a s) -> holds P m Q.
Proof.
  intros Hm HP HQ s Hs. specialize (Hm s (HP s Hs)). destruct (m s) as [[]]; auto.
Qed.

Lemma holds_ret {A} (P : S -> Prop) (a : A) (Q : A -> S -> Prop) :
  (forall s, P s -> Q a s) -> holds P (mret a) Q.
Proof. intros HQ s Hs. by apply HQ. Qed.

Lemma holds_throw {A} (P : S -> Prop) e (Q : A -> S -> Prop) : holds P (throw e) Q.
Proof. by intros s Hs. Qed.

Lemma holds_when (P : S -> Prop) b e (Q : unit -> S -> Prop) :
  (b = false -> forall s, P s -> Q tt s) -> holds P (when b e) Q.
Proof. intros HQ s Hs. destruct b; simpl; auto. Qed.

(** A pure computation that does not panic. *)
Lemma holds_lift {A} (P : S -> Prop) (o : outcome A) (Q : A -> S -> Prop) :
  o <> Panic -> (forall a s, o = Ok a -> P s -> Q a s) -> holds P (lift o) Q.
Proof. intros Hp HQ s Hs. destruct o; simpl; auto. Qed.

Lemma holds_modS (P : S -> Prop) f (Q : unit -> S -> Prop) :
  (forall s, P s -> Q tt (f s)) -> holds P (modS f) Q.
Proof. intros HQ s Hs. by apply HQ. Qed.

Lemma holds_gets {A} (P : S -> Prop) (f : S -> A) (Q : A -> S -> Prop) :
  (forall s, P s -> Q (f s) s) -> holds P (gets f) Q.
Proof. intros HQ s Hs. by apply HQ. Qed.

(** A loop keeps an invariant its body keeps. *)
Lemma holds_forM {A} (l : list A) (body : A -> M S unit) (I : S -> Prop) :
  (forall x, x ∈ l -> holds I (body x) (fun _ => I)) -> holds I (forM l body) (fun _ => I).
Proof.
  induction l as [|x l IH]; intros Hb; simpl; [by apply holds_ret|].
  eapply holds_bind; [apply Hb; by left|cbv beta; intros _]. apply IH. intros y Hy. apply Hb. by right.
Qed.
End triples.

(** A loop whose iterations only look at the length of the buffer. *)
Lemma holds_at_len {A} (P : Z -> Prop) (m : M bytes A) Lmin Q :
  (forall L, Lmin <= L -> P L -> holds (fun bs => len bs = L) m Q) ->
  holds (fun bs => Lmin <= len bs /\ P (len bs)) m Q.
Proof. intros Hm bs [Hl Hp]. by apply (Hm (len bs)). Qed.

(** ** Lengths *)

Lemma len_replicate {A} n (x : A) : len (replicate n x) = Z.of_nat n.
Proof. unfold len. by rewrite length_replicate. Qed.
Lemma len_take {A} (l : list A) n : 0 <= n <= len l -> len (take (Z.to_nat n) l) = n.
Proof. unfold len. rewrite length_take. lia. Qed.
Lemma len_drop {A} (l : list A) n : 0 <= n <= len l -> len (drop (Z.to_nat n) l) = len l - n.
Proof. unfold len. rewrite length_drop. lia. Qed.

(** The writer operations and what they do to the length. *)
Lemma holds_copy_at L off v :
  0 <= off -> off + len v <= L ->
  holds (fun bs => len bs = L) (copy_at off v) (fun _ bs => len bs = L).
Proof.
  intros Ho Hv bs Hbs. unfold copy_at.
  rewrite (proj2 (Z.leb_le 0 off)), (proj2 (Z.leb_le _ (len bs))) by lia. simpl.
  pose proof (len_nonneg v). autorewrite with sf_len. rewrite len_take, len_drop by lia. lia.
Qed.

Lemma holds_or_at L i mask :
  0 <= i < L -> holds (fun bs => len bs = L) (or_at i mask) (fun _ bs => len bs = L).
Proof.
  intros Hi bs Hbs. unfold or_at. rewrite (proj2 (Z.leb_le 0 i)) by lia.
  destruct (lookup_lt_is_Some_2 bs (Z.to_nat i)) as [b ->]; [unfold len in Hbs; lia|].
  unfold len in *. by rewrite length_insert.
Qed.

Lemma holds_extend L v :
  holds (fun bs => len bs = L) (extend v) (fun _ bs => len bs = L + len v).
Proof. apply holds_modS. intros bs <-. by rewrite len_app. Qed.

Lemma holds_resize L n :
  L <= n -> holds (fun bs => len bs = L) (vec_resize n) (fun _ bs => len bs = n).
Proof.
  intros Hn. apply holds_modS. intros bs <-. pose proof (len_nonneg bs).
  rewrite len_app, len_replicate. unfold len in *. rewrite length_take. lia.
Qed.

Lemma holds_bytes_len L :
  holds (fun bs => len bs = L) bytes_len (fun n bs => n = L /\ len bs = L).
Proof. by apply holds_gets. Qed.

Lemma next_multiple_spec n :
  0 <= n -> n <= next_multiple_of_8 n < n + 8 /\ next_multiple_of_8 n mod 8 = 0.
Proof.
  intros. unfold next_multiple_of_8. rewrite Z.mod_mul by lia. split; [|done].
  pose proof (Z.div_mod (n + 7) 8 ltac:(lia)). pose proof (Z.mod_pos_bound (n + 7) 8 ltac:(lia)). lia.
Qed.

(** Bind after an operation of known effect. *)
Ltac step lem := eapply holds_bind; [eapply lem|cbv beta; intros ?].

(** ** Cells *)

Definition cell_width (kind : KeyField) : Z := element_stride kind.

(** The fixed cell and the null bit of [position] lie inside [L] bytes. *)
Record cell_ok (w : BinaryRowWriter) (kind : KeyField) (position L : Z) : Prop := {
  co_base : 0 <= base w;
  co_offset : 0 <= field_offset w position - base w;
  co_fits : field_offset w position + cell_width kind <= L;
  co_null : 0 <= position + null_bit_offset w;
  co_null_fits : base w + (position + null_bit_offset w) / 8 < L;
}.

Lemma cell_ok_mono w kind position L L' :
  cell_ok w kind position L -> L <= L' -> cell_ok w kind position L'.
Proof. intros [] ?. constructor; lia. Qed.

(** Word alignment relative to the writer's base. *)
Definition aligned (w : BinaryRowWriter) (L : Z) : Prop := (L - base w) mod 8 = 0.

(** What writing one value does: the buffer never shrinks and stays aligned. *)
Definition writes (w : BinaryRowWriter) (L : Z) (m : M bytes unit) : Prop :=
  holds (fun bs => len bs = L) m (fun _ bs => L <= len bs /\ aligned w (len bs)).

Section cells.
Context (w : BinaryRowWriter) (kind : KeyField) (position L : Z).
Context (Hc : cell_ok w kind position L) (Ha : aligned w L).

Lemma base_le : base w <= L.
Proof. destruct Hc. destruct kind; simpl in *; lia. Qed.

Lemma writes_same (m : M bytes unit) :
  holds (fun bs => len bs = L) m (fun _ bs => len bs = L) -> writes w L m.
Proof. intros. eapply holds_weaken; [done|done|]. intros _ bs ->. done. Qed.

Lemma set_null_writes : writes w L (set_null w position).
Proof.
  apply writes_same, holds_or_at. destruct Hc.
  pose proof (Z.div_pos (position + null_bit_offset w) 8). lia.
Qed.

Lemma write_fixed_writes v : len v <= cell_width kind -> writes w L (write_fixed w position v).
Proof. intros. apply writes_same, holds_copy_at; destruct Hc; lia. Qed.

Lemma write_fixed_after v L' :
  len v <= cell_width kind -> L <= L' ->
  holds (fun bs => len bs = L') (write_fixed w position v) (fun _ bs => len bs = L').
Proof. intros. apply holds_copy_at; destruct Hc; lia. Qed.

Lemma pad_writes L' : L <= L' -> 
  holds (fun bs => len bs = L') (pad_to_word w) (fun _ bs => L' <= len bs /\ aligned w (len bs)).
Proof.
  intros HL. pose proof base_le. unfold pad_to_word. step (holds_bytes_len L').
  destruct (next_multiple_spec (L' - base w) ltac:(lia)) as [Hn Hm].
  intros bs [-> Hbs].
  pose proof (holds_resize L' (base w + next_multiple_of_8 (L' - base w)) ltac:(lia) bs Hbs) as Hr.
  destruct (vec_resize _ bs) as [[]]; [|done..]. unfold aligned. rewrite Hr.
  replace (_ + _ - _) with (next_multiple_of_8 (L' - base w)) by lia. split; [lia|done].
Qed.

(** A write into the cell at a later, padded length. *)
Lemma copy_at_keeps L' off v :
  0 <= off -> off + len v <= L ->
  L <= L' /\ aligned w L' ->
  holds (fun bs => len bs = L') (copy_at off v) (fun _ bs => L <= len bs /\ aligned w (len bs)).
Proof.
  intros ? ? [? ?]. eapply holds_weaken; [apply (holds_copy_at L'); lia|done|]. by intros _ bs ->.
Qed.

Lemma offset_and_size_len off n : len (offset_and_size w off n) = 8.
Proof. unfold offset_and_size, len. by rewrite to_le_length. Qed.

Lemma write_bytes_writes v : cell_width kind = 8 -> writes w L (write_bytes w position v).
Proof.
  intros H8. pose proof Hc as [? ? Hf ? ?]. rewrite H8 in Hf. unfold writes, write_bytes.
  destruct (Z.leb_spec (len v) 7).
  - step (holds_copy_at L); [lia|lia|]. apply writes_same, holds_copy_at; [lia|].
    rewrite len_cons, len_nil. lia.
  - step (holds_bytes_len L). intros bs [-> Hbs]. revert bs Hbs.
    step (holds_extend L v). step (pad_writes (L + len v)); [lia|]. intros bs [? ?].
    apply (copy_at_keeps (len bs)); rewrite ?offset_and_size_len; auto with lia.
Qed.

Lemma write_timestamp_writes millis nanos :
  cell_width kind = 8 -> writes w L (write_noncompact_timestamp w position millis nanos).
Proof.
  intros H8. unfold writes, write_noncompact_timestamp. step (holds_bytes_len L).
  intros bs [-> Hbs]. revert bs Hbs. step (holds_extend L).
  assert (len (to_le 8 millis) = 8) as -> by (unfold len; by rewrite to_le_length).
  eapply holds_weaken; [apply (write_fixed_after _ (L + 8))|done|].
  - rewrite offset_and_size_len. lia.
  - lia.
  - intros _ bs ->. split; [lia|]. unfold aligned in *.
    replace (L + 8 - base w) with (L - base w + 1 * 8) by lia. by rewrite Z.mod_add by lia.
Qed.

Lemma strip_sign_len bs : len (strip_sign bs) <= len bs.
Proof.
  induction bs as [|a [|b bs] IH]; [done|done|].
  cbn [strip_sign] in *. destruct (_ || _); [|lia]. rewrite (len_cons a). lia.
Qed.

Lemma minimal_len v : len (minimal_twos_complement v) <= 16.
Proof.
  unfold minimal_twos_complement. pose proof (strip_sign_len (to_be 16 v)).
  unfold len in *. by rewrite to_be_length in *.
Qed.

Lemma write_decimal_writes v :
  cell_width kind = 8 -> writes w L (write_noncompact_decimal w position v).
Proof.
  intros H8. pose proof base_le. pose proof Hc as [? ? ? ? ?]. pose proof (minimal_len v).
  unfold writes, write_noncompact_decimal. step (holds_bytes_len L).
  intros bs [-> Hbs]. revert bs Hbs. step (holds_resize L); [lia|].
  step (holds_copy_at (L + 16)); [lia|lia|].
  eapply holds_weaken; [apply (write_fixed_after _ (L + 16))|done|].
  - rewrite offset_and_size_len. lia.
  - lia.
  - intros _ bs ->. split; [lia|]. unfold aligned in *.
    replace (L + 16 - base w) with (L - base w + 2 * 8) by lia. by rewrite Z.mod_add by lia.
Qed.
End cells.

(** ** Values *)

Section values_ok.
Context `{ArrowLaws}.

Lemma time_millis_no_panic a row : 0 <= row < array_len a -> time_millis a row <> Panic.
Proof.
  intros Hr. unfold time_millis. destruct (data_type a) as [ | | | | | | | | | | | | | | | | | | |[]| | | | | | | | | ]; try done;
    [|by apply fixed_at_no_panic].
  pose proof (fixed_at_no_panic Time32SecondArray a row Hr).
  destruct (fixed_at Time32SecondArray a row); [|done..].
  rewrite outcome_bind_run. by destruct (i32_checked_mul _ _).
Qed.

Lemma timestamp_parts_no_panic a row : 0 <= row < array_len a -> timestamp_parts a row <> Panic.
Proof.
  intros Hr. unfold timestamp_parts.
  destruct (data_type a) as [ | | | | | | | | | | | | | | | | | | | | |[]| | | | | | | ]; try done;
    match goal with |- context [fixed_at ?c a row] =>
      pose proof (fixed_at_no_panic c a row Hr); destruct (fixed_at c a row); [|done..] end;
    rewrite outcome_bind_run; try done.
  by destruct (i64_checked_mul _ _).
Qed.

Lemma from_arrow_type_spec t : from_arrow_type t <> Panic /\ from_arrow_type t <> Ok PreencodedBinaryRow.
Proof.
  revert t. fix IH 1. intros t. destruct t as [ | | | | | | | | | | | | | | | | | | |[]| | | |t| | |ts|t| ]; simpl; try (split; done).
  - destruct (IH t) as [Hp _]. by destruct (from_arrow_type t).
  - induction ts as [|t ts IHts]; [done|].
    destruct (IH t) as [Hp _]. destruct (from_arrow_type t); [exact IHts|done|done].
  - destruct (IH t) as [Hp _]. by destruct (from_arrow_type t).
Qed.

(** One fixed-width value. *)
Lemma lift_writes {A} w L (o : outcome A) (k : A -> M bytes unit) :
  o <> Panic -> (forall a, o = Ok a -> writes w L (k a)) -> writes w L (lift o ≫= k).
Proof.
  intros Hp Hk. eapply holds_bind with (Q := fun a bs => o = Ok a /\ len bs = L).
  - apply holds_lift; auto.
  - intros a bs [Ho Hbs]. by apply Hk.
Qed.

Lemma write_value_with_writes nested w position a row kind L :
  cell_ok w kind position L -> aligned w L -> 0 <= row < array_len a ->
  kind <> PreencodedBinaryRow -> (kind = Nested -> writes w L nested) ->
  writes w L (write_value_with nested w position a row kind).
Proof.
  intros Hc Ha Hr Hk Hn. unfold write_value_with. destruct (is_null a row).
  { by eapply set_null_writes. }
  assert (forall c n, Z.of_nat n <= cell_width kind -> writes w L (write_prim w position c n a row)) as Hprim.
  { intros c n Hw. apply lift_writes; [by apply fixed_at_no_panic|]. intros v _.
    eapply write_fixed_writes; [done|done|]. unfold len. by rewrite to_le_length. }
  assert (forall c, cell_width kind = 8 -> writes w L (write_var w position c a row)) as Hvar.
  { intros c Hw. apply lift_writes; [by apply bytes_at_no_panic|]. intros v _.
    by eapply write_bytes_writes. }
  assert (forall v, cell_width kind = 8 -> writes w L (write_fixed w position (to_le 8 v))) as Hword.
  { intros v Hw. eapply write_fixed_writes; [done|done|]. unfold len. rewrite to_le_length. lia. }
  destruct kind; try (apply Hprim; unfold cell_width; simpl; lia); try (by apply Hvar); try done.
  - by apply Hn.
  - destruct (data_type a); by apply Hvar || apply holds_throw.
  - apply lift_writes; [by apply time_millis_no_panic|]. intros v _.
    eapply write_fixed_writes; [done|done|]. unfold len. by rewrite to_le_length.
  - apply lift_writes; [by apply timestamp_parts_no_panic|]. intros [millis nanos] _.
    destruct (_ <=? _); [by apply Hword|by eapply write_timestamp_writes].
  - apply lift_writes; [by apply fixed_at_no_panic|]. intros v _.
    destruct (_ <=? _); [|by eapply write_decimal_writes].
    apply (holds_bind _ _ _ (fun _ bs => len bs = L)); [by apply holds_when|].
    intros _. by apply Hword.
Qed.

(** ** Nested values *)

(** What [write_value] guarantees for arrays less deep than [n]. *)
Definition writer_below (n : nat)
    (rec : BinaryRowWriter -> Z -> Array -> Z -> KeyField -> M bytes unit) : Prop :=
  forall w position a row kind L,
    (dt_depth (data_type a) < n)%nat -> 0 <= row < array_len a ->
    cell_ok w kind position L -> aligned w L -> kind <> PreencodedBinaryRow ->
    writes w L (rec w position a row kind).

Lemma elem_of_rows_between from to i : i ∈ rows_between from to <-> from <= i < to.
Proof.
  unfold rows_between. rewrite list_elem_of_fmap. setoid_rewrite elem_of_seq. split.
  - intros (k & -> & ?). lia.
  - intros. exists (Z.to_nat (i - from)). lia.
Qed.

Section below.
Context (n : nat) (rec : BinaryRowWriter -> Z -> Array -> Z -> KeyField -> M bytes unit).
Context (Hrec : writer_below n rec).

Lemma write_element_writes w a kind from index L :
  (dt_depth (data_type a) < n)%nat -> 0 <= index < array_len a ->
  cell_ok w kind (index - from) L -> aligned w L -> kind <> PreencodedBinaryRow ->
  writes w L (write_element rec w a kind from index).
Proof.
  intros Hd Hi Hc Ha Hk. unfold write_element.
  destruct (negb (is_null a index) && bool_decide (kind = Float)) eqn:Ef.
  { apply andb_true_iff in Ef as [_ ->%bool_decide_eq_true].
    apply lift_writes; [by apply fixed_at_no_panic|]. intros v _.
    eapply write_fixed_writes; [done|done|]. unfold len. by rewrite to_le_length. }
  destruct (negb (is_null a index) && bool_decide (kind = Double)) eqn:Ed; [|by apply Hrec].
  apply andb_true_iff in Ed as [_ ->%bool_decide_eq_true].
  apply lift_writes; [by apply fixed_at_no_panic|]. intros v _.
  eapply write_fixed_writes; [done|done|]. unfold len. by rewrite to_le_length.
Qed.

Lemma stride_range kind : 1 <= element_stride kind <= 8.
Proof. destruct kind; simpl; lia. Qed.

(** An element's cell lies inside the array's fixed part. *)
Lemma element_cell kind b count pos L :
  0 <= b -> 0 <= pos < count ->
  b + next_multiple_of_8 (4 + div_ceil count 32 * 4 + count * element_stride kind) <= L ->
  cell_ok {| base := b; stride := element_stride kind; null_bit_offset := 32;
             null_bytes := 4 + div_ceil count 32 * 4 |} kind pos L.
Proof.
  intros Hb Hp HL. unfold div_ceil in *. pose proof (stride_range kind) as Hs.
  set (words := (count + 32 - 1) / 32) in *.
  assert (32 * words <= count + 31 < 32 * words + 32) as Hw.
  { pose proof (Z.div_mod (count + 32 - 1) 32 ltac:(lia)).
    pose proof (Z.mod_pos_bound (count + 32 - 1) 32 ltac:(lia)). lia. }
  destruct (next_multiple_spec (4 + words * 4 + count * element_stride kind) ltac:(nia)) as [Hn _].
  constructor; unfold field_offset, cell_width; cbn [base stride null_bit_offset null_bytes].
  - done.
  - nia.
  - nia.
  - lia.
  - assert ((pos + 32) / 8 < 4 + words * 4); [|nia].
    apply Z.div_lt_upper_bound; lia.
Qed.

Lemma append_array_writes a from to L :
  (dt_depth (data_type a) < n)%nat -> 0 <= from <= to -> to <= array_len a -> 0 <= L ->
  holds (fun bs => len bs = L) (append_array rec a from to)
    (fun _ bs => L <= len bs /\ (len bs - L) mod 8 = 0).
Proof.
  intros Hd Hft Hto HL. unfold append_array.
  destruct (from_arrow_type_spec (data_type a)) as [Hp Hnp].
  eapply holds_bind with (Q := fun k bs => from_arrow_type (data_type a) = Ok k /\ len bs = L);
    [apply holds_lift; auto|].
  intros kind bs [Hk Hbs]. revert bs Hbs.
  assert (kind <> PreencodedBinaryRow) as Hkp by congruence. clear Hk.
  step (holds_bytes_len L). intros bs [-> Hbs]. revert bs Hbs.
  pose proof (stride_range kind). set (fixed := 4 + _ + _).
  assert (4 <= fixed) as Hf.
  { unfold fixed. pose proof (Z.div_pos (to - from + 32 - 1) 32). unfold div_ceil. nia. }
  destruct (next_multiple_spec fixed ltac:(lia)) as [Hn1 Hn2].
  step (holds_resize L); [lia|].
  step (holds_copy_at (L + next_multiple_of_8 fixed)); [lia|unfold len; rewrite to_le_length; lia|].
  set (w := {| base := L |}). set (LF := L + next_multiple_of_8 fixed).
  eapply holds_weaken with (P' := fun bs => LF <= len bs /\ aligned w (len bs))
                           (Q' := fun _ bs => LF <= len bs /\ aligned w (len bs)).
  - apply holds_forM. intros i Hi%elem_of_rows_between. apply holds_at_len. intros L' HL' Hal.
    eapply holds_weaken; [apply (write_element_writes w a kind from i L')|done|];
      [lia..|by apply element_cell; try lia; unfold LF, fixed in *|done|done|].
    intros _ bs [? ?]. split; [lia|done].
  - intros bs ->. unfold aligned, LF, w; simpl. split; [lia|].
    by replace (L + next_multiple_of_8 fixed - L) with (next_multiple_of_8 fixed) by lia.
  - unfold LF. intros _ bs [? Hal]. split; [lia|]. exact Hal.
Qed.

(** The fields of a nested row. *)
Lemma struct_cell kind b count pos L :
  0 <= b -> 0 <= pos < count ->
  b + (count + 71) / 64 * 8 + count * 8 <= L ->
  cell_ok {| base := b; stride := 8; null_bit_offset := 8;
             null_bytes := (count + 71) / 64 * 8 |} kind pos L.
Proof.
  intros Hb Hp HL. pose proof (stride_range kind).
  set (words := (count + 71) / 64) in *.
  assert (64 * words <= count + 71 < 64 * words + 64) as Hw.
  { pose proof (Z.div_mod (count + 71) 64 ltac:(lia)).
    pose proof (Z.mod_pos_bound (count + 71) 64 ltac:(lia)). lia. }
  constructor; unfold field_offset, cell_width; cbn [base stride null_bit_offset null_bytes].
  - done.
  - lia.
  - lia.
  - lia.
  - assert ((pos + 8) / 8 < words * 8); [|lia]. apply Z.div_lt_upper_bound; lia.
Qed.

Lemma write_fields_writes w row index ts cs L0 :
  ts = map data_type cs -> Forall (fun c => (dt_depth (data_type c) < n)%nat /\ 0 <= row < array_len c) cs ->
  (forall kind pos, index <= pos < index + len cs -> cell_ok w kind pos L0) ->
  holds (fun bs => L0 <= len bs /\ aligned w (len bs)) (write_fields rec w row index ts cs)
    (fun _ bs => L0 <= len bs /\ aligned w (len bs)).
Proof.
  intros -> Hcs. revert index. induction Hcs as [|c cs [Hd Hr] Hcs IH]; intros index Hcell; simpl.
  { by apply holds_ret. }
  destruct (from_arrow_type_spec (data_type c)) as [Hp Hnp].
  eapply holds_bind with (Q := fun k bs => k <> PreencodedBinaryRow /\ L0 <= len bs /\ aligned w (len bs)).
  { apply holds_lift; [done|]. intros k bs Hk Hbs. split; [congruence|done]. }
  intros kind bs [Hk Hbs]. revert bs Hbs. pose proof (len_nonneg cs).
  eapply holds_bind with (Q := fun _ bs => L0 <= len bs /\ aligned w (len bs)); [|intros _; apply IH].
  - apply holds_at_len. intros L' HL' Hal.
    eapply holds_weaken; [apply (Hrec w index c row kind L')|done|]; try done.
    + eapply cell_ok_mono; [apply Hcell; rewrite len_cons; lia|done].
    + intros _ bs [? ?]. split; [lia|done].
  - intros k pos Hpos. apply Hcell. rewrite len_cons. lia.
Qed.

Lemma struct_depth ts t : t ∈ ts -> (dt_depth t < dt_depth (DStruct ts))%nat.
Proof.
  intros Ht. simpl. apply Nat.lt_succ_r.
  pose proof (list_max_le (map dt_depth ts) (list_max (map dt_depth ts))) as [Hm _].
  specialize (Hm (Nat.le_refl _)). rewrite List.Forall_forall in Hm. apply Hm, List.in_map.
  by apply list_elem_of_In.
Qed.

Lemma write_map_writes a row L o k v t :
  data_type a = DMap t -> as_map a = Some (o, k, v) ->
  (dt_depth (data_type a) <= n)%nat -> 0 <= row < array_len a -> 0 <= L ->
  holds (fun bs => len bs = L) (write_container rec L a row) (fun _ bs => L <= len bs).
Proof.
  intros Ht Hm Hd Hr HL. unfold write_container. rewrite Ht, Hm.
  pose proof (map_law a o k v Hm) as [Hdt Ho]. specialize (Ho row Hr).
  rewrite Hdt in Hd. cbn [dt_depth] in Hd.
  pose proof (struct_depth [data_type k; data_type v] (data_type k) ltac:(by left)).
  pose proof (struct_depth [data_type k; data_type v] (data_type v) ltac:(by right; left)).
  cbn [dt_depth] in *.
  step (holds_extend L). change (len [x00; x00; x00; x00]) with 4.
  step (append_array_writes k (o row) (o (row + 1)) (L + 4)); [lia..|].
  intros bs [Hbs _].
  refine (holds_bind (fun b => len b = len bs) _ _ (fun n0 b => n0 = len bs /\ len b = len bs) _ _ _ bs eq_refl);
    [by apply holds_bytes_len|].
  intros n0 bs1 [-> Hbs1]. revert bs1 Hbs1. step (holds_copy_at (len bs)); [lia|unfold len at 1; rewrite to_le_length; lia|].
  eapply holds_weaken; [apply (append_array_writes v (o row) (o (row + 1)) (len bs)); lia|done|].
  intros _ bs2 [? _]. lia.
Qed.

Lemma write_struct_writes a row L ts cs :
  data_type a = DStruct ts -> as_struct a = Some cs ->
  (dt_depth (data_type a) <= n)%nat -> 0 <= row < array_len a -> 0 <= L ->
  holds (fun bs => len bs = L) (write_container rec L a row) (fun _ bs => L <= len bs).
Proof.
  intros Ht Hs Hd Hr HL. unfold write_container. rewrite Ht, Hs.
  pose proof (struct_law a cs Hs) as [Hdt Hlen]. rewrite Ht in Hdt. injection Hdt as Hts.
  rewrite Ht in Hd. pose proof (len_nonneg ts) as Hnn.
  set (nb := (len ts + 71) / 64 * 8).
  assert (0 <= nb /\ nb mod 8 = 0) as [Hnb Hnb8].
  { unfold nb. split; [pose proof (Z.div_pos (len ts + 71) 64); lia|by rewrite Z.mod_mul by lia]. }
  step (holds_resize L); [lia|].
  eapply holds_weaken; [apply (write_fields_writes _ row 0 ts cs (L + nb + len ts * 8))| |].
  - done.
  - apply Forall_forall. intros c Hc. rewrite Forall_forall in Hlen. rewrite (Hlen c Hc).
    split; [|done]. pose proof (struct_depth ts (data_type c)) as Hdc.
    specialize (Hdc ltac:(rewrite Hts; by apply list_elem_of_fmap_2)). lia.
  - intros kind pos Hpos. apply struct_cell; [done| |lia].
    assert (len ts = len cs) by (unfold len; rewrite Hts; by rewrite length_map). lia.
  - intros bs Hbs. cbv beta. rewrite Hbs. split; [lia|]. unfold aligned; cbn [base].
    replace (_ - L) with (nb + len ts * 8) by lia. by rewrite Z.mod_add by lia.
  - intros _ bs [? _]. lia.
Qed.

Lemma write_container_writes a row L :
  (dt_depth (data_type a) <= n)%nat -> 0 <= row < array_len a -> 0 <= L ->
  holds (fun bs => len bs = L) (write_container rec L a row) (fun _ bs => L <= len bs).
Proof.
  intros Hd Hr HL.
  destruct (data_type a) as [ | | | | | | | | | | | | | | | | | | | | | | |t| | |ts|t| ] eqn:Ht;
    try (unfold write_container; rewrite Ht; apply holds_throw).
  - unfold write_container. rewrite Ht.
    destruct (as_list a) as [[o v]|] eqn:El; [|apply holds_throw].
    pose proof (list_law a o v El) as [Hdt Ho]. specialize (Ho row Hr).
    rewrite Ht in Hdt. injection Hdt as ->. cbn [dt_depth] in Hd.
    eapply holds_weaken; [apply (append_array_writes v (o row) (o (row + 1)) L); lia|done|].
    by intros _ bs [? _].
  - destruct (as_struct a) as [cs|] eqn:Es;
      [eapply write_struct_writes; rewrite ?Ht; done|].
    unfold write_container. rewrite Ht, Es. apply holds_throw.
  - destruct (as_map a) as [[[o k] v]|] eqn:Em;
      [eapply write_map_writes; rewrite ?Ht; done|].
    unfold write_container. rewrite Ht, Em. apply holds_throw.
Qed.

Lemma write_nested_writes w position a row L :
  cell_ok w Nested position L -> aligned w L -> 0 <= row < array_len a ->
  (dt_depth (data_type a) <= n)%nat -> writes w L (write_nested rec w position a row).
Proof.
  intros Hc Ha Hr Hd. pose proof Hc as [? ? ? ? ?]. pose proof (base_le _ _ _ _ Hc).
  unfold writes, write_nested. step (holds_bytes_len L). intros bs [-> Hbs]. revert bs Hbs.
  step (write_container_writes a row L); [done|done|lia|]. intros bs Hbs.
  refine (holds_bind (fun b => len b = len bs) _ _ (fun n0 b => n0 = len bs /\ len b = len bs) _ _ _ bs eq_refl);
    [by apply holds_bytes_len|].
  intros n0 bs1 [-> Hbs1]. revert bs1 Hbs1.
  step (write_fixed_after _ _ _ _ Hc); [rewrite offset_and_size_len; done|done|].
  eapply holds_weaken; [by eapply (pad_writes _ _ _ _ Hc)|done|]. intros _ bs2 [? ?]. split; [lia|done].
Qed.
End below.

(** The fuel of [write_value] is enough, at every nesting depth. *)
Lemma write_value_fuel_below n : writer_below n (write_value_fuel n).
Proof.
  induction n as [|n IH]; intros w position a row kind L Hd Hr Hc Ha Hk; [lia|].
  cbn [write_value_fuel]. apply write_value_with_writes; auto. intros ->.
  apply (write_nested_writes n); auto. lia.
Qed.

Lemma write_value_writes w position a row kind L :
  0 <= row < array_len a -> cell_ok w kind position L -> aligned w L ->
  kind <> PreencodedBinaryRow -> writes w L (write_value w position a row kind).
Proof. intros. apply write_value_fuel_below; auto with lia. Qed.

(** ** Rows *)

Lemma encode_fields_writes w b row fields L0 position :
  0 <= row < num_rows b -> Forall (fun f => 0 <= f.1 < num_columns b) fields ->
  existsb is_preencoded fields = false ->
  (forall kind pos, position <= pos < position + len fields -> cell_ok w kind pos L0) ->
  holds (fun bs => L0 <= len bs /\ aligned w (len bs)) (encode_fields w b row position fields)
    (fun _ bs => L0 <= len bs /\ aligned w (len bs)).
Proof.
  intros Hr Hf. revert position. induction Hf as [|[c kind] fields Hc Hf IH];
    intros position Hpre Hcell; cbn [encode_fields existsb] in *; [by apply holds_ret|].
  apply orb_false_iff in Hpre as [Hk Hpre]. apply bool_decide_eq_false in Hk.
  destruct (column_total b c Hc) as [a Hcol]. pose proof (column_len _ _ _ Hcol) as Hlen.
  pose proof (len_nonneg fields).
  eapply holds_bind with (Q := fun x bs => x = a /\ L0 <= len bs /\ aligned w (len bs)).
  { apply holds_lift; rewrite Hcol; [done|]. by intros ? bs [= <-]. }
  intros x bs [-> Hbs]. revert bs Hbs.
  eapply holds_bind with (Q := fun _ bs => L0 <= len bs /\ aligned w (len bs)); [|intros _; apply IH; [done|]].
  - apply holds_at_len. intros L' HL' Hal.
    eapply holds_weaken; [apply (write_value_writes w position a row kind L')|done|]; try done.
    + lia.
    + eapply cell_ok_mono; [apply Hcell; rewrite len_cons; lia|done].
    + intros _ bs [? ?]. split; [lia|done].
  - intros k pos Hpos. apply Hcell. rewrite len_cons. lia.
Qed.
End values_ok.

(** ** The encoder *)

Section encoder.
Context `{ArrowLaws}.

(** Bytes of the fixed part of a row. *)
Definition fixed_part (arity : Z) : Z := row_null_bytes arity + arity * 8.

Lemma row_cell kind arity pos L :
  0 <= pos < arity -> fixed_part arity <= L -> cell_ok (row_writer arity) kind pos L.
Proof.
  unfold fixed_part, row_null_bytes. intros ? HL.
  replace (arity + 63 + 8) with (arity + 71) in * by lia.
  unfold row_writer, row_null_bytes. replace (arity + 63 + 8) with (arity + 71) by lia.
  apply struct_cell; lia.
Qed.

Lemma row_null_bytes_spec arity : 0 <= arity -> 0 <= row_null_bytes arity /\ row_null_bytes arity mod 8 = 0.
Proof.
  intros. unfold row_null_bytes. split; [|by rewrite Z.mod_mul by lia].
  pose proof (Z.div_pos (arity + 63 + 8) 64). lia.
Qed.

Lemma fixed_part_aligned arity : 0 <= arity -> 0 <= fixed_part arity /\ aligned (row_writer arity) (fixed_part arity).
Proof.
  intros Ha. destruct (row_null_bytes_spec arity Ha) as [Hn H8]. unfold fixed_part, aligned. cbn [base row_writer].
  split; [lia|]. rewrite Z.sub_0_r, Z.mod_add by lia. done.
Qed.

(** The writer starts from zeros, whatever the scratch buffer held. *)
Lemma row_writer_new_run arity scratch :
  0 <= arity ->
  row_writer_new arity scratch =
    (Ok (row_writer arity), replicate (Z.to_nat (fixed_part arity)) x00).
Proof.
  intros Ha. unfold row_writer_new, vec_resize. unfold_M. rewrite take_nil. simpl.
  by rewrite Nat.sub_0_r.
Qed.

Lemma encode_flat_holds b row fields scratch :
  0 <= row < num_rows b -> Forall (fun f => 0 <= f.1 < num_columns b) fields ->
  existsb is_preencoded fields = false ->
  match encode_binary_row_into b row fields scratch with
  | (Ok _, out) => fixed_part (len fields) <= len out /\ len out mod 8 = 0
  | (Err _, _) => True
  | (Panic, _) => False
  end.
Proof.
  intros Hr Hf Hpre. unfold encode_binary_row_into. rewrite Hpre.
  rewrite (M_bind_run _ _ _ tt scratch) by (unfold when; by rewrite (proj2 (Z.leb_gt _ _)) by lia).
  pose proof (len_nonneg fields) as Hn. destruct (fixed_part_aligned (len fields) Hn) as [Hfp Hal].
  rewrite (M_bind_run _ _ _ _ _ (row_writer_new_run (len fields) scratch Hn)).
  pose proof (encode_fields_writes (row_writer (len fields)) b row fields (fixed_part (len fields)) 0
    Hr Hf Hpre) as He.
  specialize (He ltac:(intros; apply row_cell; lia) (replicate (Z.to_nat (fixed_part (len fields))) x00)).
  cbv beta in He. rewrite len_replicate, Z2Nat.id in He by done. specialize (He (conj (Z.le_refl _) Hal)).
  destruct (encode_fields _ _ _ _ _ _) as [[] out]; [|done..]. destruct He as [? He].
  split; [done|]. unfold aligned in He. cbn [base row_writer] in He. by rewrite Z.sub_0_r in He.
Qed.

Lemma encode_preencoded_no_panic b row fields scratch :
  0 <= row -> Forall (fun f => 0 <= f.1 < num_columns b) fields ->
  existsb is_preencoded fields = true -> fst (encode_binary_row_into b row fields scratch) <> Panic.
Proof.
  intros Hr Hf Hpre. unfold encode_binary_row_into. rewrite Hpre.
  destruct (Z.leb_spec (num_rows b) row); [done|].
  rewrite (M_bind_run _ _ _ tt scratch) by done.
  destruct fields as [|[c []] [|f fs]]; try done.
  rewrite Forall_singleton in Hf. destruct (column_total b c Hf) as [a Hc].
  pose proof (column_len _ _ _ Hc). rewrite (M_bind_run _ _ _ a scratch) by by rewrite Hc.
  destruct (is_null a row); [done|]. rewrite (M_bind_run _ _ _ tt scratch) by done.
  destruct (data_type a); try done. rewrite (M_bind_run _ _ _ tt []) by done.
  pose proof (bytes_at_no_panic BinaryArray a row ltac:(lia)).
  unfold_M. by destruct (bytes_at BinaryArray a row).
Qed.

(** The scratch buffer only lends its allocation. *)
Lemma encode_scratch b row fields scratch out :
  encode_binary_row_into b row fields scratch = (Ok tt, out) ->
  encode_binary_row b row fields = Ok out.
Proof.
  intros He. unfold encode_binary_row.
  assert (encode_binary_row_into b row fields [] = (Ok tt, out)) as ->; [|done].
  revert He. unfold encode_binary_row_into, when. unfold_M.
  destruct (num_rows b <=? row); [done|].
  destruct (existsb is_preencoded fields).
  - destruct fields as [|[c []] [|f fs]]; try done.
    destruct (column b c) as [a| |]; try done. destruct (is_null a row); [done|].
    by destruct (data_type a).
  - pose proof (len_nonneg fields). by rewrite !row_writer_new_run by done.
Qed.

Lemma encode_any_scratch b row fields scratch out :
  encode_binary_row b row fields = Ok out ->
  encode_binary_row_into b row fields scratch = (Ok tt, out).
Proof.
  unfold encode_binary_row. destruct (encode_binary_row_into b row fields []) as [o bs] eqn:E.
  intros Ho. inv_M. simplify_eq. destruct a.
  revert E. unfold encode_binary_row_into, when. unfold_M.
  destruct (num_rows b <=? row); [done|].
  destruct (existsb is_preencoded fields).
  - destruct fields as [|[c []] [|f fs]]; try done.
    destruct (column b c) as [x| |]; try done. destruct (is_null x row); [done|].
    by destruct (data_type x).
  - pose proof (len_nonneg fields). by rewrite !row_writer_new_run by done.
Qed.
End encoder.

(** C11: For every row of a batch and every list of key fields whose columns
    exist, the key encoder never panics (whatever the scratch buffer holds, and
    for nested lists, maps and rows of any depth). When it succeeds, the scratch
    buffer holds exactly what a fresh buffer would hold, and for fields encoded
    natively that is the fixed part of the row at least, in whole eight-byte
    words, so that the key-group assignment of the key cannot panic either. *)
Theorem binary_row_encoder_safe `{ArrowLaws} b row fields scratch :
  0 <= row < num_rows b -> Forall (fun f => 0 <= f.1 < num_columns b) fields ->
  fst (encode_binary_row_into b row fields scratch) <> Panic /\
  forall out, encode_binary_row_into b row fields scratch = (Ok tt, out) ->
    encode_binary_row b row fields = Ok out /\
    (existsb is_preencoded fields = false ->
       fixed_part (len fields) <= len out /\ len out mod 8 = 0 /\
       forall mp, 0 < mp <= 32768 -> exists g, assign_key_group out mp = Ok g /\ 0 <= g < mp).
Proof.
  intros Hr Hf. split.
  - destruct (existsb is_preencoded fields) eqn:Hpre.
    + apply encode_preencoded_no_panic; [lia|done..].
    + pose proof (encode_flat_holds b row fields scratch Hr Hf Hpre) as He.
      by destruct (encode_binary_row_into b row fields scratch) as [[]].
  - intros out Ho. split; [by eapply encode_scratch|]. intros Hpre.
    pose proof (encode_flat_holds b row fields scratch Hr Hf Hpre) as He. rewrite Ho in He.
    destruct He as [Hl H8]. split_and!; [done|done|]. intros mp Hmp.
    apply assign_key_group_total; [|done].
    apply Z.mod_divide; [lia|]. apply Z.mod_divide in H8; [|lia].
    destruct H8 as [k ->]. exists (2 * k). lia.
Qed.
