(* ===== verification/BinaryRowLayout.v ===== *)
(** * Reading a key back: the layout of an encoded row

    What Flink's [BinaryRowData] getters read at a position of a row (the null
    bit, the fixed cell, inline bytes or the offset and size of the variable
    part) applied to what [encode_binary_row_into] wrote. Every flat field reads
    back as the value of the Arrow cell, so rows with different keys never share
    an encoding. *)

From Stdlib Require Import ZArith Lia Strings.Byte.
From stdpp Require Import base list option numbers strings.
From S2P Require Import Prelude Bytes KeyGroup Arrow BinaryRow BinaryRowSafe.

(** ** The reader *)

Inductive KeyValue : Type :=
  | VInt (z : Z)
  | VBytes (bs : bytes)
  | VTime (millis nanos : Z).

(** The offset and the low word of a variable-length cell; the variable part
    follows the fixed part. *)
Definition read_pointer (arity : Z) (bs : bytes) (off : Z) : option (Z * Z) :=
  word ← slice_get bs off (off + 8);
  let z := of_le word in
  let target := z / 2 ^ 32 in
  if fixed_part arity <=? target then Some (target, z mod 2 ^ 32) else None.

Definition be_signed (bs : bytes) : Z := wraps (8 * len bs) (of_be bs).

Definition read_signed (n : Z) (bs : bytes) (off : Z) : option Z :=
  v ← slice_get bs off (off + n); Some (wraps (8 * n) (of_le v)).
Definition read_unsigned (n : Z) (bs : bytes) (off : Z) : option Z :=
  v ← slice_get bs off (off + n); Some (of_le v).

(** A short value is inline, its last byte [0x80 | length]. *)
Definition read_var (arity : Z) (bs : bytes) (off : Z) : option bytes :=
  last ← slice_get bs (off + 7) (off + 8);
  if 0x80 <=? of_le last then
    if of_le last <=? 0x87 then slice_get bs off (off + (of_le last - 0x80)) else None
  else '(target, size) ← read_pointer arity bs off; slice_get bs target (target + size).

Definition cell_offset (arity position : Z) : Z := row_null_bytes arity + position * 8.

Definition read_field (arity : Z) (kind : KeyField) (bs : bytes) (position : Z) : option KeyValue :=
  let off := cell_offset arity position in
  match kind with
  | PreencodedBinaryRow | Nested => None
  | KBoolean => VInt <$> read_unsigned 1 bs off
  | TinyInt => VInt <$> read_signed 1 bs off
  | SmallInt => VInt <$> read_signed 2 bs off
  | Integer | Date | Time => VInt <$> read_signed 4 bs off
  | BigInt => VInt <$> read_signed 8 bs off
  | Float => VInt <$> read_unsigned 4 bs off
  | Double => VInt <$> read_unsigned 8 bs off
  | KString | KBinary => VBytes <$> read_var arity bs off
  | Timestamp precision =>
      if precision <=? 3 then VInt <$> read_signed 8 bs off
      else '(target, nanos) ← read_pointer arity bs off;
           millis ← read_signed 8 bs target;
           Some (VTime millis nanos)
  | Decimal precision =>
      if precision <=? 18 then VInt <$> read_signed 8 bs off
      else '(target, size) ← read_pointer arity bs off;
           v ← slice_get bs target (target + size);
           Some (VInt (be_signed v))
  end.

(** The null bit of a position; the first byte of a row is its row kind. *)
Definition null_bit (bs : bytes) (position : Z) : bool :=
  match bs !! Z.to_nat ((position + 8) / 8) with
  | Some b => Z.testbit (b2z b) ((position + 8) mod 8)
  | None => false
  end.

(** ** The value of an Arrow cell *)

Section cell.
Context `{Arrow}.

Definition outcome_option {A} (o : outcome A) : option A :=
  match o with Ok a => Some a | _ => None end.

(** [None] where the encoder reports an error: another array class, an
    overflowing time or a decimal beyond its compact form. *)
Definition cell_value (kind : KeyField) (a : Array) (row : Z) : option KeyValue :=
  let int c := VInt <$> outcome_option (fixed_at c a row) in
  let var c := VBytes <$> outcome_option (bytes_at c a row) in
  match kind with
  | PreencodedBinaryRow | Nested => None
  | KBoolean => int BooleanArray
  | TinyInt => int Int8Array
  | SmallInt => int Int16Array
  | Integer => int Int32Array
  | BigInt => int Int64Array
  | Float => int Float32Array
  | Double => int Float64Array
  | KString => var StringArray
  | KBinary => match data_type a with
               | DBinary => var BinaryArray
               | DFixedSizeBinary _ => var FixedSizeBinaryArray
               | _ => None
               end
  | Date => int Date32Array
  | Time => VInt <$> outcome_option (time_millis a row)
  | Timestamp precision =>
      '(millis, nanos) ← outcome_option (timestamp_parts a row);
      Some (if precision <=? 3 then VInt millis else VTime millis nanos)
  | Decimal precision =>
      unscaled ← outcome_option (fixed_at Decimal128Array a row);
      if precision <=? 18 then
        if (I64_MIN <=? unscaled) && (unscaled <=? I64_MAX) then Some (VInt unscaled) else None
      else Some (VInt unscaled)
  end.
End cell.

(** ** Bytes at an index *)

(** [bs] with [v] written over it from [off] on. *)
Definition put (off : Z) (v bs : bytes) : bytes :=
  take (Z.to_nat off) bs ++ v ++ drop (Z.to_nat (off + len v)) bs.

Lemma copy_at_run off v bs :
  0 <= off -> off + len v <= len bs -> copy_at off v bs = (Ok tt, put off v bs).
Proof.
  intros. unfold copy_at. by rewrite (proj2 (Z.leb_le 0 off)), (proj2 (Z.leb_le _ (len bs))) by lia.
Qed.

Lemma put_len off v bs : 0 <= off -> off + len v <= len bs -> len (put off v bs) = len bs.
Proof.
  intros. unfold put. pose proof (len_nonneg v). autorewrite with sf_len.
  rewrite len_take, len_drop by lia. lia.
Qed.

Lemma put_outside off v bs i :
  0 <= off -> off + len v <= len bs -> ~ (off <= Z.of_nat i < off + len v) -> put off v bs !! i = bs !! i.
Proof.
  unfold put, len. intros Ho Hl Hi.
  destruct (decide (i < Z.to_nat off)%nat).
  - rewrite lookup_app_l by (rewrite length_take; lia). by rewrite lookup_take_lt by lia.
  - rewrite lookup_app_r by (rewrite length_take; lia). rewrite length_take.
    rewrite lookup_app_r by lia. rewrite lookup_drop. f_equal. lia.
Qed.

Lemma put_inside off v bs i :
  0 <= off -> off + len v <= len bs -> (i < length v)%nat -> put off v bs !! (Z.to_nat off + i)%nat = v !! i.
Proof.
  unfold put, len. intros Ho Hl Hi.
  rewrite lookup_app_r by (rewrite length_take; lia). rewrite length_take.
  rewrite lookup_app_l by lia. f_equal. lia.
Qed.

(** A slice is determined by its length and its bytes. *)
Lemma slice_get_lookup bs off n v :
  0 <= off -> slice_get bs off (off + n) = Some v <->
  len v = n /\ off + n <= len bs /\ forall i, (i < length v)%nat -> bs !! (Z.to_nat off + i)%nat = v !! i.
Proof.
  intros Ho. unfold slice_get. split.
  - case_bool; simpl; try done. intros [= <-].
    assert (length (take (Z.to_nat (off + n - off)) (drop (Z.to_nat off) bs)) = Z.to_nat n) as Hl.
    { rewrite length_take, length_drop. unfold len in *. lia. }
    split_and!; [unfold len; rewrite Hl; lia|lia|]. intros i Hi. rewrite Hl in Hi.
    rewrite lookup_take_lt by lia. by rewrite lookup_drop.
  - intros (Hn & Hb & Hi). pose proof (len_nonneg v).
    rewrite (proj2 (Z.leb_le off _)), (proj2 (Z.leb_le _ (len bs))) by lia. simpl. f_equal.
    apply list_eq_same_length with (length v); [done| |].
    { rewrite length_take, length_drop. unfold len in *. lia. }
    intros i x y Hlt Hx Hy. rewrite lookup_take_lt in Hx by (unfold len in *; lia).
    rewrite lookup_drop, Hi in Hx by done. congruence.
Qed.

Lemma slice_get_agree bs bs' off n v :
  0 <= off -> len bs <= len bs' ->
  (forall i, off <= Z.of_nat i < off + n -> bs' !! i = bs !! i) ->
  slice_get bs off (off + n) = Some v -> slice_get bs' off (off + n) = Some v.
Proof.
  intros Ho Hl Hi. rewrite !slice_get_lookup by done. intros (Hn & Hb & Hv).
  split_and!; [done|lia|]. intros i Hlt. rewrite <- Hv by done. apply Hi. unfold len in *. lia.
Qed.

Lemma slice_get_put off v bs n :
  0 <= off -> off + len v <= len bs -> n = len v -> slice_get (put off v bs) off (off + n) = Some v.
Proof.
  intros Ho Hl ->. apply slice_get_lookup; [done|]. rewrite put_len by done.
  split_and!; [done|done|]. intros. by apply put_inside.
Qed.

Lemma slice_get_app bs v ext n :
  n = len v -> slice_get (bs ++ v ++ ext) (len bs) (len bs + n) = Some v.
Proof.
  intros ->. apply slice_get_lookup; [apply len_nonneg|]. autorewrite with sf_len.
  pose proof (len_nonneg ext). split_and!; [done|lia|]. intros i Hi.
  rewrite len_to_nat, lookup_app_r by lia. rewrite lookup_app_l by lia. f_equal. lia.
Qed.

(** ** Big-endian two's complement *)

Lemma of_le_app a b : of_le (a ++ b) = of_le a + 2 ^ (8 * len a) * of_le b.
Proof.
  induction a as [|x a IH]; simpl; [unfold len; simpl; lia|].
  rewrite IH, len_cons. replace (8 * (1 + len a)) with (8 + 8 * len a) by lia.
  rewrite Z.pow_add_r by (pose proof (len_nonneg a); lia). change (2 ^ 8) with 256. lia.
Qed.

Lemma of_be_cons x bs : of_be (x :: bs) = b2z x * 2 ^ (8 * len bs) + of_be bs.
Proof.
  unfold of_be. rewrite reverse_cons, of_le_app. unfold len. rewrite length_reverse. simpl. lia.
Qed.

Lemma of_be_range bs : 0 <= of_be bs < 2 ^ (8 * len bs).
Proof. pose proof (of_le_range (reverse bs)) as R. by rewrite length_reverse in R. Qed.

(** The sign of a two's complement string is the top bit of its first byte. *)
Lemma be_signed_cons x bs :
  be_signed (x :: bs) = (if 128 <=? b2z x then b2z x - 256 else b2z x) * 2 ^ (8 * len bs) + of_be bs.
Proof.
  unfold be_signed, wraps. rewrite of_be_cons, len_cons. pose proof (len_nonneg bs) as Hl.
  pose proof (of_be_range bs) as Hr. pose proof (b2z_range x) as Hx.
  replace (8 * (1 + len bs) - 1) with (7 + 8 * len bs) by lia.
  replace (8 * (1 + len bs)) with (8 + 8 * len bs) by lia.
  rewrite !Z.pow_add_r by lia. change (2 ^ 7) with 128. change (2 ^ 8) with 256.
  set (p := 2 ^ (8 * len bs)) in *.
  destruct (Z.leb_spec 128 (b2z x)).
  - replace (b2z x * p + of_be bs + 128 * p) with ((b2z x - 128) * p + of_be bs + 1 * (256 * p)) by lia.
    rewrite Z.mod_add, Z.mod_small by nia. lia.
  - rewrite Z.mod_small by nia. lia.
Qed.

Lemma land_0x80 z : 0 <= z < 256 -> (Z.land z 0x80 =? 0) = (z <? 128).
Proof.
  intros Hz. assert (forallb (fun n => Bool.eqb (Z.land (Z.of_nat n) 0x80 =? 0) (Z.of_nat n <? 128)) (seq 0 256) = true)
    as Hall by (vm_compute; reflexivity).
  rewrite forallb_forall in Hall. specialize (Hall (Z.to_nat z)).
  rewrite Z2Nat.id in Hall by lia. apply eqb_prop, Hall, in_seq. lia.
Qed.

Lemma strip_sign_signed bs : be_signed (strip_sign bs) = be_signed bs.
Proof.
  induction bs as [|a [|b bs] IH]; [done|done|]. cbn [strip_sign] in *.
  rewrite land_0x80 by apply b2z_range.
  destruct (_ || _) eqn:E; [|done]. rewrite IH. clear IH. rewrite !be_signed_cons, of_be_cons, !len_cons.
  replace (8 * (1 + len bs)) with (8 + 8 * len bs) by lia.
  rewrite Z.pow_add_r by (pose proof (len_nonneg bs); lia). change (2 ^ 8) with 256.
  apply orb_true_iff in E as [E|E]; apply andb_true_iff in E as [->%bool_decide_eq_true E].
  - change (b2z x00) with 0. cbn [Z.leb Z.compare]. case_bool; lia || done.
  - change (b2z xff) with 255. cbn [Z.leb Z.compare]. apply negb_true_iff in E. case_bool; lia || done.
Qed.

Lemma minimal_signed v : in_signed 128 v -> be_signed (minimal_twos_complement v) = v.
Proof.
  intros Hv. unfold minimal_twos_complement. rewrite strip_sign_signed. unfold be_signed.
  replace (len (to_be 16 v)) with 16 by (unfold len; by rewrite to_be_length).
  rewrite of_be_to_be. change (8 * Z.of_nat 16) with 128. change (8 * 16) with 128.
  fold (wrapu 128 v). rewrite wraps_wrapu by lia. by apply wraps_id.
Qed.

(** ** The offset word *)

Lemma lor_disjoint a low : 0 <= low < 2 ^ 32 -> Z.lor (Z.shiftl a 32) low = a * 2 ^ 32 + low.
Proof.
  intros Hlow. rewrite <- Z.shiftl_mul_pow2 by lia.
  assert (Z.land (Z.shiftl a 32) low = 0) as Hz.
  { apply Z.bits_inj'. intros i Hi. rewrite Z.land_spec, Z.bits_0.
    destruct (decide (i < 32)).
    - by rewrite Z.shiftl_spec_low by lia.
    - rewrite (Z.bits_above_log2 low i), andb_false_r; [done|lia|].
      destruct (decide (low = 0)) as [->|]; [cbn; lia|].
      enough (Z.log2 low < 32) by lia. apply Z.log2_lt_pow2; lia. }
  pose proof (Z.add_lor_land (Z.shiftl a 32) low). lia.
Qed.

Lemma offset_word w off low :
  base w = 0 -> 0 <= off < 2 ^ 31 -> 0 <= low < 2 ^ 32 ->
  of_le (offset_and_size w off low) = off * 2 ^ 32 + low.
Proof.
  intros Hb Ho Hl. unfold offset_and_size. rewrite Hb, Z.sub_0_r.
  rewrite wrapu_small by (rewrite Z.shiftl_mul_pow2 by lia; lia).
  rewrite lor_disjoint by done. apply of_to_le_small. change (8 * Z.of_nat 8) with 64. lia.
Qed.

(** ** The effect of one write

    A write at position [p] of a row changes the cell of [p] only; everything
    else it adds behind the end of the buffer. *)

Record cell_write (arity p : Z) (bs bs' : bytes) : Prop := {
  cw_len : len bs <= len bs';
  cw_keep i : Z.of_nat i < len bs ->
    ~ (cell_offset arity p <= Z.of_nat i < cell_offset arity p + 8) -> bs' !! i = bs !! i;
}.

Section effect.
Context (arity p : Z) (Hp : 0 <= p < arity).
Context (bs : bytes) (Hbs : fixed_part arity <= len bs).
Abbreviation w := (row_writer arity).
Abbreviation fo := (cell_offset arity p).

Lemma cell_inside : 0 <= fo /\ fo + 8 <= fixed_part arity.
Proof.
  destruct (row_null_bytes_spec arity ltac:(lia)). unfold cell_offset, fixed_part. lia.
Qed.

Lemma field_offset_row : field_offset w p = fo.
Proof. done. Qed.

Lemma put_cell_write v : len v <= 8 -> cell_write arity p bs (put fo v bs).
Proof.
  intros Hv. pose proof cell_inside. constructor; [rewrite put_len; lia|].
  intros i Hi Hn. apply put_outside; lia.
Qed.

Lemma write_fixed_run v : len v <= 8 -> write_fixed w p v bs = (Ok tt, put fo v bs).
Proof. intros Hv. pose proof cell_inside. apply copy_at_run; rewrite ?field_offset_row; lia. Qed.

(** The cell points at what was appended. *)
Definition pointed (ext : bytes) (low : Z) : bytes :=
  put fo (offset_and_size w (len bs) low) (bs ++ ext).

Lemma pointed_run ext low :
  copy_at fo (offset_and_size w (len bs) low) (bs ++ ext) = (Ok tt, pointed ext low).
Proof.
  pose proof cell_inside. pose proof (len_nonneg ext).
  apply copy_at_run; rewrite ?offset_and_size_len, ?len_app; lia.
Qed.

Lemma pointed_len ext low : len (pointed ext low) = len bs + len ext.
Proof.
  pose proof cell_inside. pose proof (len_nonneg ext). unfold pointed.
  rewrite put_len; rewrite ?offset_and_size_len, ?len_app; lia.
Qed.

Lemma pointed_outside ext low i :
  ~ (fo <= Z.of_nat i < fo + 8) -> pointed ext low !! i = (bs ++ ext) !! i.
Proof.
  intros Hi. pose proof cell_inside. pose proof (len_nonneg ext).
  apply put_outside; rewrite ?offset_and_size_len, ?len_app; lia.
Qed.

Lemma pointed_cell_write ext low : cell_write arity p bs (pointed ext low).
Proof.
  constructor; [rewrite pointed_len; pose proof (len_nonneg ext); lia|].
  intros i Hi Hn. rewrite pointed_outside by done. apply lookup_app_l. unfold len in Hi. lia.
Qed.

Lemma pointed_word ext low :
  slice_get (pointed ext low) fo (fo + 8) = Some (offset_and_size w (len bs) low).
Proof.
  pose proof cell_inside. pose proof (len_nonneg ext).
  apply slice_get_put; rewrite ?offset_and_size_len, ?len_app; lia.
Qed.

Lemma pointed_pointer ext low :
  len bs < 2 ^ 31 -> 0 <= low < 2 ^ 32 -> read_pointer arity (pointed ext low) fo = Some (len bs, low).
Proof.
  intros Hl Hlow. unfold read_pointer. rewrite pointed_word. unfold mbind, option_bind. cbv zeta.
  rewrite offset_word by (done || pose proof (len_nonneg bs); lia).
  rewrite Z.div_add_l, Z.div_small, Z.add_0_r by lia.
  rewrite (proj2 (Z.leb_le _ _)) by done.
  by rewrite (Z.add_comm _ low), Z.mod_add, Z.mod_small by lia.
Qed.

(** The appended bytes are found where the cell points. *)
Lemma pointed_target v ext low n :
  n = len v -> slice_get (pointed (v ++ ext) low) (len bs) (len bs + n) = Some v.
Proof.
  intros ->. pose proof cell_inside.
  apply slice_get_agree with (bs ++ v ++ ext); [apply len_nonneg| | |by apply slice_get_app].
  - rewrite pointed_len, len_app. lia.
  - intros i Hi. apply pointed_outside. lia.
Qed.

(** *** Fixed-width values *)

Lemma read_signed_put n z :
  (0 < n <= 8)%nat -> in_signed (8 * Z.of_nat n) z ->
  read_signed (Z.of_nat n) (put fo (to_le n z) bs) fo = Some z.
Proof.
  intros Hn Hz. pose proof cell_inside. unfold read_signed.
  assert (len (to_le n z) = Z.of_nat n) as Hl by (unfold len; by rewrite to_le_length).
  rewrite slice_get_put by lia. unfold mbind, option_bind. f_equal. rewrite of_to_le.
  fold (wrapu (8 * Z.of_nat n) z). rewrite wraps_wrapu by lia. apply wraps_id; [lia|done].
Qed.

Lemma read_unsigned_put n z :
  (0 < n <= 8)%nat -> 0 <= z < 2 ^ (8 * Z.of_nat n) ->
  read_unsigned (Z.of_nat n) (put fo (to_le n z) bs) fo = Some z.
Proof.
  intros Hn Hz. pose proof cell_inside. unfold read_unsigned.
  assert (len (to_le n z) = Z.of_nat n) as Hl by (unfold len; by rewrite to_le_length).
  rewrite slice_get_put by lia. unfold mbind, option_bind. f_equal. by apply of_to_le_small.
Qed.

(** *** Bytes *)

Lemma slice_get_sub (b v : bytes) off n k :
  0 <= off -> 0 <= k <= n -> slice_get b off (off + n) = Some v ->
  slice_get b (off + k) (off + n) = Some (drop (Z.to_nat k) v).
Proof.
  intros Ho Hk (Hn & Hb & Hi)%slice_get_lookup; [|done].
  replace (off + n) with (off + k + (n - k)) by lia. apply slice_get_lookup; [lia|].
  rewrite len_drop by lia. split_and!; [lia|lia|]. intros i Hlt. rewrite length_drop in Hlt.
  rewrite lookup_drop, <- Hi by lia. f_equal. lia.
Qed.

(** The mark byte of a pointer is below [0x80]. *)
Lemma pointed_mark ext low :
  len bs < 2 ^ 31 -> 0 <= low < 2 ^ 32 ->
  exists last, slice_get (pointed ext low) (fo + 7) (fo + 8) = Some last /\ of_le last < 128.
Proof.
  intros Hl Hlow. pose proof cell_inside.
  set (word := offset_and_size w (len bs) low).
  exists (drop 7 word). split.
  { rewrite (slice_get_sub _ word fo 8 7); [done|lia|lia|apply pointed_word]. }
  pose proof (offset_word w (len bs) low eq_refl ltac:(pose proof (len_nonneg bs); lia) Hlow) as Hw.
  fold word in Hw. rewrite <- (take_drop 7 word), of_le_app in Hw.
  assert (len (take 7 word) = 7) as H7.
  { unfold len. rewrite length_take. unfold word, offset_and_size. by rewrite to_le_length. }
  rewrite H7 in Hw. pose proof (of_le_range (take 7 word)). lia.
Qed.

Lemma lor_0x80 n : 0 <= n <= 7 -> Z.lor 0x80 n = 128 + n.
Proof.
  intros Hn. assert (n = 0 \/ n = 1 \/ n = 2 \/ n = 3 \/ n = 4 \/ n = 5 \/ n = 6 \/ n = 7) as Hc by lia.
  repeat destruct Hc as [->|Hc]; try reflexivity. by subst.
Qed.

Lemma write_bytes_short v :
  len v <= 7 ->
  exists bs', write_bytes w p v bs = (Ok tt, bs') /\ cell_write arity p bs bs' /\
    read_var arity bs' fo = Some v.
Proof.
  intros Hv. pose proof cell_inside. pose proof (len_nonneg v).
  set (mark := z2b (Z.lor 0x80 (len v))). set (b1 := put fo v bs).
  assert (len b1 = len bs) as Hb1 by (apply put_len; lia).
  assert (len [mark] = 1) as H1 by done.
  exists (put (fo + 7) [mark] b1). split_and!.
  - unfold write_bytes. rewrite (proj2 (Z.leb_le _ _)), field_offset_row by done.
    rewrite (M_bind_run _ _ _ tt b1) by (apply copy_at_run; lia). apply copy_at_run; lia.
  - constructor; [rewrite put_len; lia|]. intros i Hi Hn.
    rewrite put_outside by lia. apply put_outside; lia.
  - unfold read_var. replace (fo + 8) with (fo + 7 + 1) by lia. rewrite slice_get_put by lia.
    unfold mbind, option_bind.
    assert (of_le [mark] = 128 + len v) as ->.
    { simpl. unfold mark. rewrite b2z_z2b, lor_0x80, Z.mod_small by lia. lia. }
    rewrite !(proj2 (Z.leb_le _ _)) by lia. replace (fo + (128 + len v - 128)) with (fo + len v) by lia.
    apply slice_get_agree with b1; [lia|rewrite put_len; lia| |by apply slice_get_put; lia].
    intros i Hi. apply put_outside; lia.
Qed.

Lemma resize_run n b : len b <= n -> vec_resize n b = (Ok tt, b ++ replicate (Z.to_nat (n - len b)) x00).
Proof.
  intros Hn. pose proof (len_nonneg b). unfold vec_resize, modS, len in *. rewrite take_ge by lia.
  do 3 f_equal. lia.
Qed.

Lemma write_bytes_long v :
  7 < len v <= I32_MAX ->
  exists bs', write_bytes w p v bs = (Ok tt, bs') /\ cell_write arity p bs bs' /\
    (len bs' < 2 ^ 31 -> read_var arity bs' fo = Some v).
Proof.
  intros Hv. pose proof cell_inside. pose proof (len_nonneg bs).
  destruct (next_multiple_spec (len (bs ++ v)) (len_nonneg _)) as [Hnm _].
  set (ext := replicate (Z.to_nat (next_multiple_of_8 (len (bs ++ v)) - len (bs ++ v))) x00).
  exists (pointed (v ++ ext) (len v)). split_and!.
  - unfold write_bytes. rewrite (proj2 (Z.leb_gt _ _)), field_offset_row by lia.
    rewrite (M_bind_run _ _ _ (len bs) bs), (M_bind_run _ _ _ tt (bs ++ v)) by done.
    rewrite (M_bind_run _ _ _ tt (bs ++ v ++ ext)); [apply pointed_run|].
    unfold pad_to_word. rewrite (M_bind_run _ _ _ (len (bs ++ v)) (bs ++ v)) by done.
    cbn [base row_writer]. rewrite Z.sub_0_r, Z.add_0_l, resize_run by lia.
    by rewrite <- app_assoc.
  - apply pointed_cell_write.
  - intros Hl. rewrite pointed_len in Hl. pose proof (len_nonneg (v ++ ext)). unfold I32_MAX in Hv.
    destruct (pointed_mark (v ++ ext) (len v)) as (last & Hlast & Hm); [lia|lia|].
    unfold read_var. rewrite Hlast. unfold mbind, option_bind.
    rewrite (proj2 (Z.leb_gt _ _)), pointed_pointer by lia. by apply pointed_target.
Qed.

Lemma write_bytes_reads v :
  len v <= I32_MAX ->
  exists bs', write_bytes w p v bs = (Ok tt, bs') /\ cell_write arity p bs bs' /\
    (len bs' < 2 ^ 31 -> read_var arity bs' fo = Some v).
Proof.
  intros Hv. destruct (decide (len v <= 7)) as [Hs|Hs].
  - destruct (write_bytes_short v Hs) as (bs' & ? & ? & ?). eauto.
  - apply write_bytes_long. lia.
Qed.

(** *** Timestamps and decimals *)

Lemma write_timestamp_reads millis nanos :
  is_i64 millis -> 0 <= nanos < 2 ^ 31 ->
  exists bs', write_noncompact_timestamp w p millis nanos bs = (Ok tt, bs') /\
    cell_write arity p bs bs' /\
    (len bs' < 2 ^ 31 ->
      read_pointer arity bs' fo = Some (len bs, nanos) /\ read_signed 8 bs' (len bs) = Some millis).
Proof.
  intros Hm Hn. exists (pointed (to_le 8 millis) nanos). split_and!.
  - unfold write_noncompact_timestamp.
    rewrite (M_bind_run _ _ _ (len bs) bs), (M_bind_run _ _ _ tt (bs ++ to_le 8 millis)) by done.
    rewrite wrapu_small by lia. apply pointed_run.
  - apply pointed_cell_write.
  - rewrite pointed_len. pose proof (len_nonneg (to_le 8 millis)). intros Hl.
    split; [apply pointed_pointer; lia|]. unfold read_signed.
    rewrite <- (app_nil_r (to_le 8 millis)), pointed_target
      by (unfold len; by rewrite to_le_length).
    unfold mbind, option_bind. f_equal. rewrite of_to_le. change (2 ^ (8 * Z.of_nat 8)) with (2 ^ 64).
    change (8 * 8) with 64. fold (wrapu 64 millis). rewrite wraps_wrapu by lia.
    apply wraps_id; [lia|]. unfold is_i64, I64_MIN, I64_MAX in Hm. change (64 - 1) with 63. lia.
Qed.

Lemma write_decimal_reads z :
  in_signed 128 z ->
  exists bs', write_noncompact_decimal w p z bs = (Ok tt, bs') /\
    cell_write arity p bs bs' /\
    (len bs' < 2 ^ 31 -> exists size v, read_pointer arity bs' fo = Some (len bs, size) /\
      slice_get bs' (len bs) (len bs + size) = Some v /\ be_signed v = z).
Proof.
  intros Hz. set (enc := minimal_twos_complement z). pose proof (minimal_len z) as Hl. fold enc in Hl.
  pose proof (len_nonneg enc). pose proof (len_nonneg bs). set (ext := replicate (Z.to_nat (16 - len enc)) x00).
  exists (pointed (enc ++ ext) (len enc)). split_and!.
  - unfold write_noncompact_decimal.
    rewrite (M_bind_run _ _ _ (len bs) bs) by done. rewrite (M_bind_run _ _ _ _ _ (resize_run (len bs + 16) bs ltac:(lia))).
    rewrite (M_bind_run _ _ _ tt (bs ++ enc ++ ext)); [apply pointed_run|].
    fold enc. replace (len bs + 16 - len bs) with 16 by lia.
    rewrite copy_at_run by (rewrite ?len_app, ?len_replicate; lia). do 2 f_equal. unfold put.
    rewrite len_to_nat, take_app_length. do 2 f_equal.
    replace (Z.to_nat (len bs + len enc)) with (length bs + length enc)%nat by (unfold len; lia).
    rewrite drop_app_add, drop_replicate. unfold ext, len. f_equal. lia.
  - apply pointed_cell_write.
  - rewrite pointed_len, len_app. pose proof (len_nonneg ext). intros Hl2. exists (len enc), enc.
    split_and!; [apply pointed_pointer; lia|by apply pointed_target|by apply minimal_signed].
Qed.
End effect.

(** ** One value *)

Section values_read.
Context `{ArrowLaws}.

Lemma outcome_option_Some {A} (o : outcome A) a : outcome_option o = Some a -> o = Ok a.
Proof. destruct o; simpl; congruence. Qed.

Lemma fixed_at_range c a row z : fixed_at c a row = Ok z -> fixed_range c z.
Proof.
  unfold fixed_at. destruct (as_fixed c a) as [v|] eqn:Ev; [|done].
  unfold_M. case_bool; simpl; intros [= <-]. by eapply fixed_law.
Qed.
Lemma bytes_at_range c a row v : bytes_at c a row = Ok v -> c <> LargeStringArray -> c <> LargeBinaryArray -> len v <= I32_MAX.
Proof.
  intros Hv ? ?. revert Hv. unfold bytes_at. destruct (as_bytes c a) as [f|] eqn:Ev; [|done].
  unfold_M. case_bool; simpl; intros [= <-]. by eapply bytes_law.
Qed.

Lemma time_millis_range a row z : time_millis a row = Ok z -> in_signed 32 z.
Proof.
  unfold time_millis. destruct (data_type a) as [ | | | | | | | | | | | | | | | | | | |[]| | | | | | | | | ]; try done.
  - intros E. inv_M. unfold i32_checked_mul, I32_MIN, I32_MAX in E. unfold in_signed. change (32 - 1) with 31.
    revert E. case_bool; simpl; intros [= <-]. lia.
  - apply fixed_at_range.
Qed.

Lemma timestamp_parts_range a row millis nanos :
  timestamp_parts a row = Ok (millis, nanos) -> is_i64 millis /\ 0 <= nanos < 2 ^ 31.
Proof.
  unfold timestamp_parts, is_i64.
  destruct (data_type a) as [ | | | | | | | | | | | | | | | | | | | | |[]| | | | | | | ]; try done; intros E; inv_M.
  - unfold i64_checked_mul in E1. revert E1. case_bool; simpl; intros [= <-]; simplify_eq; lia.
  - simplify_eq. apply fixed_at_range in E0. unfold fixed_range, in_signed in E0. mlia.
  - apply fixed_at_range in E0. unfold fixed_range, in_signed in E0. change (64 - 1) with 63 in E0. simplify_eq.
    pose proof (Z.mod_pos_bound a0 1000 ltac:(lia)). pose proof (Z.div_mod a0 1000 ltac:(lia)). mlia.
  - apply fixed_at_range in E0. unfold fixed_range, in_signed in E0. change (64 - 1) with 63 in E0. simplify_eq.
    pose proof (Z.mod_pos_bound a0 1000000 ltac:(lia)). pose proof (Z.div_mod a0 1000000 ltac:(lia)). mlia.
Qed.

Context (arity p : Z) (Hp : 0 <= p < arity) (bs : bytes) (Hbs : fixed_part arity <= len bs).
Context (a : Array) (row : Z).

(** The computation succeeds, changes one cell and the field reads as [v]. *)
Definition stores (kind : KeyField) (v : KeyValue) (m : M bytes unit) : Prop :=
  exists bs', m bs = (Ok tt, bs') /\ cell_write arity p bs bs' /\
    (len bs' < 2 ^ 31 -> read_field arity kind bs' p = Some v).

Lemma stores_lift {A} kind v (o : outcome A) x k :
  o = Ok x -> stores kind v (k x) -> stores kind v (lift o ≫= k).
Proof. intros ->. done. Qed.

Lemma stores_fixed kind n z :
  (0 < n <= 8)%nat ->
  read_field arity kind (put (cell_offset arity p) (to_le n z) bs) p = Some (VInt z) ->
  stores kind (VInt z) (write_fixed (row_writer arity) p (to_le n z)).
Proof.
  intros Hn Hr. assert (len (to_le n z) <= 8) by (unfold len; rewrite to_le_length; lia).
  eexists. split_and!; [by apply write_fixed_run|by apply put_cell_write|done].
Qed.

Lemma stores_bytes kind v :
  kind = KString \/ kind = KBinary -> len v <= I32_MAX ->
  stores kind (VBytes v) (write_bytes (row_writer arity) p v).
Proof.
  intros Hk Hv. destruct (write_bytes_reads arity p Hp bs Hbs v Hv) as (bs' & ? & ? & Hr).
  exists bs'. split_and!; [done..|]. intros Hl. specialize (Hr Hl).
  destruct Hk as [-> | ->]; unfold read_field; by rewrite Hr.
Qed.

Lemma stores_word kind z :
  is_i64 z -> (forall b, read_field arity kind b p = VInt <$> read_signed 8 b (cell_offset arity p)) ->
  stores kind (VInt z) (write_fixed (row_writer arity) p (to_le 8 z)).
Proof.
  intros Hz Hr. apply stores_fixed; [lia|]. rewrite Hr. change 8 with (Z.of_nat 8) at 1.
  rewrite (read_signed_put arity p Hp bs Hbs 8 z); [done|lia|].
  unfold in_signed. change (8 * Z.of_nat 8 - 1) with 63. mlia.
Qed.

Lemma write_timestamp_stores precision v :
  cell_value (Timestamp precision) a row = Some v ->
  stores (Timestamp precision) v
    ('(millis, nanos) ← lift (timestamp_parts a row);
     if precision <=? 3 then write_fixed (row_writer arity) p (to_le 8 millis)
     else write_noncompact_timestamp (row_writer arity) p millis nanos).
Proof.
  cbn [cell_value]. intros ([millis nanos] & Ht%outcome_option_Some & Hv)%bind_Some.
  eapply stores_lift; [done|]. apply timestamp_parts_range in Ht as [Hm Hn].
  destruct (precision <=? 3) eqn:Ep; injection Hv as <-.
  - apply stores_word; [done|]. intros b. unfold read_field. by rewrite Ep.
  - destruct (write_timestamp_reads arity p Hp bs Hbs millis nanos Hm Hn) as (bs' & Hr & Hc & Hrd).
    exists bs'. split_and!; [done..|]. intros Hl. destruct (Hrd Hl) as [Hptr Hms].
    unfold read_field. rewrite Ep, Hptr. cbn [mbind option_bind]. by rewrite Hms.
Qed.

Lemma write_decimal_stores precision v :
  cell_value (Decimal precision) a row = Some v ->
  stores (Decimal precision) v
    (unscaled ← lift (fixed_at Decimal128Array a row);
     if precision <=? 18 then
       _ ← when (negb ((I64_MIN <=? unscaled) && (unscaled <=? I64_MAX)))
             (InvalidArgument "DECIMAL key does not fit Flink's compact representation");
       write_fixed (row_writer arity) p (to_le 8 unscaled)
     else write_noncompact_decimal (row_writer arity) p unscaled).
Proof.
  cbn [cell_value]. intros (z & Ht%outcome_option_Some & Hv)%bind_Some.
  eapply stores_lift; [done|]. destruct (precision <=? 18) eqn:Ep.
  - destruct ((I64_MIN <=? z) && (z <=? I64_MAX)) eqn:Ez; [|done]. injection Hv as <-.
    assert (stores (Decimal precision) (VInt z) (write_fixed (row_writer arity) p (to_le 8 z))) as Hw; [|exact Hw].
    apply stores_word; [unfold is_i64; lia|]. intros b. unfold read_field. by rewrite Ep.
  - injection Hv as <-. apply fixed_at_range in Ht.
    destruct (write_decimal_reads arity p Hp bs Hbs z Ht) as (bs' & Hr & Hc & Hrd).
    exists bs'. split_and!; [done..|]. intros Hl. destruct (Hrd Hl) as (size & x & Hptr & Hx & Hz).
    unfold read_field. rewrite Ep, Hptr. cbn [mbind option_bind]. by rewrite Hx; cbn; rewrite Hz.
Qed.

Lemma write_value_reads kind v :
  is_null a row = false -> cell_value kind a row = Some v ->
  stores kind v (write_value (row_writer arity) p a row kind).
Proof.
  intros Hn Hv. unfold write_value. cbn [write_value_fuel]. unfold write_value_with. rewrite Hn.
  assert (forall c n z, fixed_at c a row = Ok z -> (0 < n <= 8)%nat ->
    read_field arity kind (put (cell_offset arity p) (to_le n z) bs) p = Some (VInt z) ->
    stores kind (VInt z) (write_prim (row_writer arity) p c n a row)) as Hprim.
  { intros c n z Hz Hn8 Hr. eapply stores_lift; [done|]. by apply stores_fixed. }
  assert (forall c x, bytes_at c a row = Ok x -> c <> LargeStringArray -> c <> LargeBinaryArray -> kind = KString \/ kind = KBinary ->
    stores kind (VBytes x) (write_var (row_writer arity) p c a row)) as Hvar.
  { intros c x Hx Hc1 Hc2 Hk. eapply stores_lift; [done|]. apply stores_bytes; [done|by eapply bytes_at_range]. }
  assert (forall n z, (0 < n <= 8)%nat -> in_signed (8 * Z.of_nat n) z ->
    VInt <$> read_signed (Z.of_nat n) (put (cell_offset arity p) (to_le n z) bs) (cell_offset arity p)
      = Some (VInt z)) as Hs.
  { intros n z Hn8 Hz. by rewrite (read_signed_put arity p Hp bs Hbs n z Hn8 Hz). }
  assert (forall n z, (0 < n <= 8)%nat -> 0 <= z < 2 ^ (8 * Z.of_nat n) ->
    VInt <$> read_unsigned (Z.of_nat n) (put (cell_offset arity p) (to_le n z) bs) (cell_offset arity p)
      = Some (VInt z)) as Hu.
  { intros n z Hn8 Hz. by rewrite (read_unsigned_put arity p Hp bs Hbs n z Hn8 Hz). }
  destruct kind; cbn [cell_value] in Hv; try done;
    try (apply fmap_Some in Hv as (z & Hz%outcome_option_Some & ->)).
  - eapply (Hprim _ 1%nat); [done|lia|]. apply fixed_at_range in Hz. apply (Hu 1%nat); [lia|].
    cbn [fixed_range] in Hz. change (8 * Z.of_nat 1) with 8. lia.
  - eapply (Hprim _ 1%nat); [done|lia|]. apply fixed_at_range in Hz. by apply (Hs 1%nat); [lia|].
  - eapply (Hprim _ 2%nat); [done|lia|]. apply fixed_at_range in Hz. by apply (Hs 2%nat); [lia|].
  - eapply (Hprim _ 4%nat); [done|lia|]. apply fixed_at_range in Hz. by apply (Hs 4%nat); [lia|].
  - eapply (Hprim _ 8%nat); [done|lia|]. apply fixed_at_range in Hz. by apply (Hs 8%nat); [lia|].
  - eapply (Hprim _ 4%nat); [done|lia|]. apply fixed_at_range in Hz. by apply (Hu 4%nat); [lia|].
  - eapply (Hprim _ 8%nat); [done|lia|]. apply fixed_at_range in Hz. by apply (Hu 8%nat); [lia|].
  - eapply Hvar; eauto.
  - destruct (data_type a); try done;
      apply fmap_Some in Hv as (z & Hz%outcome_option_Some & ->); eapply Hvar; eauto.
  - eapply (Hprim _ 4%nat); [done|lia|]. apply fixed_at_range in Hz. by apply (Hs 4%nat); [lia|].
  - eapply stores_lift; [done|]. apply stores_fixed; [lia|]. apply time_millis_range in Hz.
    by apply (Hs 4%nat); [lia|].
  - apply write_timestamp_stores; auto.
  - apply write_decimal_stores; auto.
Qed.
End values_read.

(** ** Stability of the other fields *)

(** Behind the null bits only the cell of [q] changed. *)
Definition kept (arity q : Z) (bs bs' : bytes) : Prop :=
  len bs <= len bs' /\
  forall i, row_null_bytes arity <= Z.of_nat i < len bs ->
    ~ (cell_offset arity q <= Z.of_nat i < cell_offset arity q + 8) -> bs' !! i = bs !! i.

Lemma cell_write_kept arity q bs bs' : cell_write arity q bs bs' -> kept arity q bs bs'.
Proof. intros [Hl Hk]. split; [done|]. intros i Hi. apply Hk. lia. Qed.

Section stable.
Context (arity p q : Z) (Hp : 0 <= p < arity) (Hq : 0 <= q < arity) (Hpq : p <> q).
Context (bs bs' : bytes) (Hk : kept arity q bs bs').
Abbreviation fo := (cell_offset arity p).

(** A slice of the cell of [p], or of the variable part, is unchanged. *)
Lemma slice_stable off n v :
  0 <= n -> (fo <= off /\ off + n <= fo + 8) \/ fixed_part arity <= off ->
  slice_get bs off (off + n) = Some v -> slice_get bs' off (off + n) = Some v.
Proof.
  intros Hn Hoff Hs. destruct Hk as [Hl Hi].
  destruct (row_null_bytes_spec arity ltac:(lia)) as [Hnb _].
  assert (row_null_bytes arity <= off) as Ho.
  { unfold cell_offset, fixed_part in *. destruct Hoff; nia. }
  apply slice_get_agree with bs; [lia|done| |done].
  apply slice_get_lookup in Hs as (_ & Hb & _); [|lia].
  intros i Hin. apply Hi; [lia|]. unfold cell_offset, fixed_part in *. destruct Hoff; nia.
Qed.

Lemma read_signed_stable n off z :
  0 <= n -> (fo <= off /\ off + n <= fo + 8) \/ fixed_part arity <= off ->
  read_signed n bs off = Some z -> read_signed n bs' off = Some z.
Proof.
  unfold read_signed. intros Hn Ho (v & Hv & Hz)%bind_Some.
  by rewrite (slice_stable off n v Hn Ho Hv).
Qed.
Lemma read_unsigned_stable n z :
  0 <= n <= 8 -> read_unsigned n bs fo = Some z -> read_unsigned n bs' fo = Some z.
Proof.
  unfold read_unsigned. intros Hn (v & Hv & Hz)%bind_Some.
  by rewrite (slice_stable fo n v) by (done || lia).
Qed.

Lemma read_pointer_stable target low :
  read_pointer arity bs fo = Some (target, low) ->
  read_pointer arity bs' fo = Some (target, low) /\ fixed_part arity <= target /\ 0 <= low.
Proof.
  unfold read_pointer. intros (v & Hv & Hz)%bind_Some. cbv zeta in Hz.
  rewrite (slice_stable fo 8 v) by (done || lia). cbn [mbind option_bind]. cbv zeta.
  revert Hz. case_bool; intros [= <- <-]. split_and!; [done..|]. apply Z.mod_pos_bound. lia.
Qed.

Lemma read_var_stable v : read_var arity bs fo = Some v -> read_var arity bs' fo = Some v.
Proof.
  unfold read_var. intros (last & Hlast & Hv)%bind_Some.
  replace (fo + 8) with (fo + 7 + 1) in * by lia.
  rewrite (slice_stable (fo + 7) 1 last) by (done || lia). cbn [mbind option_bind].
  destruct (Z.leb_spec 128 (of_le last)).
  - destruct (Z.leb_spec (of_le last) 135); [|done]. apply slice_stable; [lia|left; lia|done].
  - apply bind_Some in Hv as ([t n] & Hptr & Hv).
    apply read_pointer_stable in Hptr as (-> & Ht & Hn). cbn [mbind option_bind].
    by apply slice_stable; [|right|].
Qed.

Lemma read_field_stable kind v :
  read_field arity kind bs p = Some v -> read_field arity kind bs' p = Some v.
Proof.
  unfold read_field. intros Hr.
  destruct kind; try done;
    try (apply fmap_Some in Hr as (z & Hr & ->);
         first [apply read_signed_stable in Hr; [by rewrite Hr|lia|left; lia]
               |apply read_unsigned_stable in Hr; [by rewrite Hr|lia]
               |apply read_var_stable in Hr; by rewrite Hr]).
  - destruct (precision <=? 3).
    { apply fmap_Some in Hr as (z & Hr & ->). apply read_signed_stable in Hr; [by rewrite Hr|lia|left; lia]. }
    apply bind_Some in Hr as ([t n] & Hptr & Hr). apply read_pointer_stable in Hptr as (-> & Ht & Hn).
    apply bind_Some in Hr as (millis & Hm & <-). cbn [mbind option_bind].
    by rewrite (read_signed_stable 8 t millis) by (lia || done || by right).
  - destruct (precision <=? 18).
    { apply fmap_Some in Hr as (z & Hr & ->). apply read_signed_stable in Hr; [by rewrite Hr|lia|left; lia]. }
    apply bind_Some in Hr as ([t n] & Hptr & Hr). apply read_pointer_stable in Hptr as (-> & Ht & Hn).
    apply bind_Some in Hr as (x & Hx & <-). cbn [mbind option_bind].
    by rewrite (slice_stable t n x) by (lia || done || by right).
Qed.
End stable.

(** ** Null bits *)

Lemma null_byte arity q : 0 <= q < arity ->
  0 <= (q + 8) / 8 < row_null_bytes arity /\ 0 <= (q + 8) mod 8 < 8.
Proof.
  intros Hq. unfold row_null_bytes. pose proof (Z.mod_pos_bound (q + 8) 8 ltac:(lia)).
  split; [|done]. split; [apply Z.div_pos; lia|]. apply Z.div_lt_upper_bound; [lia|].
  pose proof (Z.div_mod (arity + 63 + 8) 64 ltac:(lia)).
  pose proof (Z.mod_pos_bound (arity + 63 + 8) 64 ltac:(lia)). lia.
Qed.

(** A write of a value leaves every null bit alone. *)
Lemma null_bit_cell_write arity q bs bs' j :
  cell_write arity q bs bs' -> 0 <= q < arity -> 0 <= j < arity -> fixed_part arity <= len bs ->
  null_bit bs' j = null_bit bs j.
Proof.
  intros [Hl Hk] Hq Hj Hb. destruct (null_byte arity j Hj). unfold null_bit.
  unfold fixed_part in Hb. rewrite Hk; [done|lia|]. unfold cell_offset. nia.
Qed.

Lemma b2z_lor b i : 0 <= i < 8 -> b2z (z2b (Z.lor (b2z b) (Z.shiftl 1 i))) = Z.lor (b2z b) (Z.shiftl 1 i).
Proof.
  intros Hi. rewrite b2z_z2b. change 256 with (2 ^ 8). rewrite <- Z.land_ones by lia.
  apply Z.bits_inj'. intros n Hn. rewrite Z.land_spec.
  destruct (decide (n < 8)); [by rewrite Z.ones_spec_low, andb_true_r by lia|].
  rewrite Z.ones_spec_high, andb_false_r by lia. symmetry. rewrite Z.lor_spec. apply orb_false_iff.
  split; [|rewrite Z.shiftl_1_l, Z.pow2_bits_false; lia || done].
  pose proof (b2z_range b). destruct (decide (b2z b = 0)) as [->|]; [apply Z.bits_0|].
  apply Z.bits_above_log2; [lia|]. enough (Z.log2 (b2z b) < 8) by lia. apply Z.log2_lt_pow2; lia.
Qed.

Lemma set_null_spec arity q bs :
  0 <= q < arity -> fixed_part arity <= len bs ->
  exists bs', set_null (row_writer arity) q bs = (Ok tt, bs') /\ kept arity q bs bs' /\
    forall j, 0 <= j < arity -> null_bit bs' j = null_bit bs j || (j =? q).
Proof.
  intros Hq Hb. destruct (null_byte arity q Hq) as [Hby Hbi]. unfold fixed_part in Hb.
  unfold set_null, or_at. cbn [base null_bit_offset row_writer]. rewrite Z.add_0_l.
  rewrite (proj2 (Z.leb_le 0 _)) by lia. set (k := (q + 8) / 8) in *.
  destruct (lookup_lt_is_Some_2 bs (Z.to_nat k)) as [x Hx]; [unfold len in Hb; lia|]. rewrite Hx.
  eexists. split_and!; [done| |].
  - split; [unfold len; by rewrite length_insert|]. intros i Hi _. apply list_lookup_insert_ne. lia.
  - intros j Hj. destruct (null_byte arity j Hj) as [Hjy Hji]. unfold null_bit.
    destruct (decide ((j + 8) / 8 = k)) as [Ejk|Hne].
    + rewrite Ejk, list_lookup_insert_eq, Hx by (unfold len in Hb; lia). rewrite b2z_lor, Z.lor_spec by lia.
      f_equal. rewrite Z.shiftl_1_l. destruct (Z.eqb_spec j q) as [->|Hjq].
      * apply Z.pow2_bits_true. lia.
      * apply Z.pow2_bits_false. intros E. apply Hjq.
        pose proof (Z.div_mod (j + 8) 8 ltac:(lia)). pose proof (Z.div_mod (q + 8) 8 ltac:(lia)).
        unfold k in Ejk. lia.
    + rewrite list_lookup_insert_ne by lia. destruct (Z.eqb_spec j q) as [->|]; [done|by rewrite orb_false_r].
Qed.

(** ** Rows *)

Section rows.
Context `{ArrowLaws}.
Context (b : Batch) (row : Z).

(** The column exists and its cell is null or has a value the key type can
    represent. *)
Definition readable (f : Z * KeyField) : Prop :=
  f.2 <> PreencodedBinaryRow /\
  exists a, column b f.1 = Ok a /\ (is_null a row = true \/ is_Some (cell_value f.2 a row)).

(** What position [j] of [out] says about the field stored there. *)
Definition field_read (arity : Z) (out : bytes) (j : Z) (f : Z * KeyField) : Prop :=
  forall a, column b f.1 = Ok a ->
    null_bit out j = is_null a row /\
    (is_null a row = false -> read_field arity f.2 out j = cell_value f.2 a row).

Context (arity : Z).

(** One field: the position becomes readable, the others keep what they say. *)
Lemma write_value_spec p bs f a :
  0 <= p < arity -> fixed_part arity <= len bs -> null_bit bs p = false ->
  readable f -> column b f.1 = Ok a ->
  exists bs', write_value (row_writer arity) p a row f.2 bs = (Ok tt, bs') /\ kept arity p bs bs' /\
    (forall j, 0 <= j < arity -> j <> p -> null_bit bs' j = null_bit bs j) /\
    (len bs' < 2 ^ 31 -> field_read arity bs' p f).
Proof.
  intros Hp Hb Hnb [Hpre (a' & Ha' & Hval)] Ha. assert (a' = a) as -> by congruence.
  destruct (is_null a row) eqn:En.
  - destruct (set_null_spec arity p bs Hp Hb) as (bs' & Hr & Hk & Hn).
    exists bs'. split_and!; [|done| |].
    + unfold write_value. cbn [write_value_fuel]. unfold write_value_with. by rewrite En.
    + intros j Hj Hne. rewrite Hn by done. destruct (Z.eqb_spec j p); [done|by rewrite orb_false_r].
    + intros _ x Hx. assert (x = a) as -> by congruence. rewrite En, Hn, Z.eqb_refl, orb_true_r by done. done.
  - destruct Hval as [Hval|[v Hv]]; [done|].
    destruct (write_value_reads arity p Hp bs Hb a row f.2 v En Hv) as (bs' & Hr & Hc & Hrd).
    exists bs'. split_and!; [done|by apply cell_write_kept| |].
    + intros j Hj _. by eapply null_bit_cell_write.
    + intros Hl x Hx. assert (x = a) as -> by congruence.
      rewrite En, (null_bit_cell_write _ _ _ _ _ Hc) by done. split; [done|].
      intros _. rewrite Hv. by apply Hrd.
Qed.

Lemma field_read_stable p q bs bs' f :
  0 <= p < arity -> 0 <= q < arity -> p <> q -> kept arity q bs bs' ->
  null_bit bs' p = null_bit bs p -> readable f -> field_read arity bs p f -> field_read arity bs' p f.
Proof.
  intros Hp Hq Hpq Hk Hn [_ (a & Ha & Hval)] Hr x Hx. assert (x = a) as -> by congruence.
  destruct (Hr a Ha) as [Hnull Hcell]. split; [congruence|]. intros En.
  specialize (Hcell En). destruct Hval as [Hv|[v Hv]]; [congruence|].
  rewrite Hv in *. by eapply read_field_stable.
Qed.

(** The loop over the fields from position [p] on. *)
Lemma encode_fields_reads fields p bs done :
  Forall readable fields -> 0 <= p -> p + len fields <= arity ->
  fixed_part arity <= len bs -> (forall j, p <= j < arity -> null_bit bs j = false) ->
  Forall readable done -> len done = p ->
  (len bs < 2 ^ 31 -> forall j f, done !! j = Some f -> field_read arity bs (Z.of_nat j) f) ->
  exists out, encode_fields (row_writer arity) b row p fields bs = (Ok tt, out) /\ len bs <= len out /\
    (len out < 2 ^ 31 -> forall j f, (done ++ fields) !! j = Some f -> field_read arity out (Z.of_nat j) f).
Proof.
  intros Hf. revert p bs done. induction Hf as [|f fields Hf Hfs IH]; intros p bs done Hp0 Hpa Hb Hn Hd Hlen Hr.
  { exists bs. rewrite app_nil_r. split; [done|]. split; [lia|exact Hr]. }
  rewrite len_cons in Hpa. pose proof (len_nonneg fields).
  pose proof Hf as [_ (a & Ha & _)].
  destruct (write_value_spec p bs f a) as (bs1 & Hw & Hk & Hnb & Hr1); [lia|done|apply Hn; lia|done|done|].
  destruct f as [c kind]. cbn [encode_fields fst snd] in *.
  destruct (IH (p + 1) bs1 (done ++ [(c, kind)])) as (out & Hout & Hl & Hro).
  - lia.
  - lia.
  - destruct Hk. lia.
  - intros j Hj. rewrite Hnb by lia. apply Hn. lia.
  - by apply Forall_app_2; [|constructor].
  - rewrite len_app, len_cons, len_nil. lia.
  - intros Hl1 j f Hj. apply lookup_app_Some in Hj as [Hj|[Hge Hj]].
    + assert (Z.of_nat j < p) by (apply lookup_lt_Some in Hj; unfold len in Hlen; lia).
      apply field_read_stable with p bs; try lia; [done|by apply Hnb; lia| |].
      * rewrite Forall_lookup in Hd. eauto.
      * apply Hr; [destruct Hk; lia|done].
    + apply list_lookup_singleton_Some in Hj as [Hj <-].
      replace (Z.of_nat j) with p by (unfold len in Hlen; lia). by apply Hr1.
  - exists out. rewrite (M_bind_run _ _ _ a bs) by by unfold lift; rewrite Ha.
    rewrite (M_bind_run _ _ _ tt bs1) by done. rewrite <- app_assoc in Hro.
    split; [done|]. split; [destruct Hk; lia|exact Hro].
Qed.
End rows.

Lemma null_bit_zeros n j : null_bit (replicate n x00) j = false.
Proof.
  unfold null_bit. destruct (replicate n x00 !! _) as [x|] eqn:E; [|done].
  apply lookup_replicate in E as [-> _]. change (b2z x00) with 0. apply Z.bits_0.
Qed.

(** C12: For a row whose key cells are null or hold a value of the declared key
    type, the encoder succeeds, and while the encoded row is shorter than two
    gigabytes every position reads back through Flink's row layout: its null bit
    is the nullness of the cell, and a non-null field reads as exactly the value
    of the Arrow cell (integers with their sign, float bits, strings and binaries
    inline or in the variable part, timestamps in milliseconds and nanoseconds,
    decimals from their minimal two's complement). Two rows with different keys
    therefore never have the same key bytes. *)
Theorem binary_row_reads_back `{ArrowLaws} b row fields scratch :
  0 <= row < num_rows b -> Forall (readable b row) fields ->
  exists out, encode_binary_row_into b row fields scratch = (Ok tt, out) /\
    (len out < 2 ^ 31 -> forall i f a, fields !! i = Some f -> column b f.1 = Ok a ->
      null_bit out (Z.of_nat i) = is_null a row /\
      (is_null a row = false ->
         read_field (len fields) f.2 out (Z.of_nat i) = cell_value f.2 a row)).
Proof.
  intros Hr Hf. pose proof (len_nonneg fields) as Hn.
  destruct (fixed_part_aligned (len fields) Hn) as [Hfp _].
  destruct (encode_fields_reads b row (len fields) fields 0
    (replicate (Z.to_nat (fixed_part (len fields))) x00) []) as (out & Hout & _ & Hread); try done.
  - rewrite len_replicate. lia.
  - intros j _. apply null_bit_zeros.
  - exists out. split.
    + unfold encode_binary_row_into.
      rewrite (M_bind_run _ _ _ tt scratch) by (unfold when; by rewrite (proj2 (Z.leb_gt _ _)) by lia).
      assert (existsb is_preencoded fields = false) as ->.
      { apply not_true_iff_false. intros (f & Hin & Hp%bool_decide_eq_true)%existsb_exists.
        rewrite Forall_forall in Hf. destruct (Hf f) as [? _]; [by apply list_elem_of_In|done]. }
      by rewrite (M_bind_run _ _ _ _ _ (row_writer_new_run (len fields) scratch Hn)).
    + intros Hl i f a Hi Ha. by apply (Hread Hl i f Hi a Ha).
Qed.
