(* ===== verification/Routing.v ===== *)
(** * Routing a batch: [exchange/partitioner.rs], [partitioner/routing_rows.rs]

    The key of every row is encoded (or borrowed from the preencoded sidecar),
    hashed to its key group and handed to a visitor in input order. One router
    collects the row numbers of each destination, the other one runs of equal
    key groups; both keep lightweight selections that are materialised before
    serialisation. *)

From Stdlib Require Import ZArith Lia Strings.Byte.
From stdpp Require Import base list option numbers strings.
From S2P Require Import Prelude Bytes KeyGroup Arrow BinaryRow BinaryRowSafe.

Section routing.
Context `{Arrow}.

(** ** [visit_key_groups] *)

(** The rows [0..n]. *)
Definition row_numbers (n : Z) : list Z := map Z.of_nat (seq 0 (Z.to_nat n)).

(** The sidecar column, when the key fields name one. *)
Definition preencoded_column (b : Batch) (fields : list (Z * KeyField))
  : outcome (option (Array * (Z -> bytes))) :=
  if existsb is_preencoded fields then
    match fields with
    | [(c, _)] =>
        a ← column b c;
        keys ← ok_or (CastError "a preencoded BinaryRow exchange key requires Arrow Binary")
                 (as_bytes BinaryArray a);
        Ok (Some (a, keys))
    | _ => Err (InvalidArgument "a preencoded BinaryRow key must be the only exchange key field")
    end
  else Ok None.

Section visit.
Context {V : Type} (visit : Z -> Z -> M V unit).

(** The loop over the rows, with the scratch buffer of the native encoder. *)
Fixpoint visit_rows (b : Batch) (fields : list (Z * KeyField)) (mp : Z)
    (preencoded : option (Array * (Z -> bytes))) (scratch : bytes) (rows : list Z) : M V unit :=
  match rows with
  | [] => mret tt
  | row :: rows =>
      '(key, scratch) ←
        match preencoded with
        | Some (a, keys) =>
            _ ← when (is_null a row)
                  (InvalidArgument "a preencoded BinaryRow exchange key cannot be null");
            _ ← when (negb (len (keys row) mod 4 =? 0))
                  (InvalidArgument "a preencoded BinaryRow exchange key must be word aligned");
            mret (keys row, scratch)
        | None =>
            let '(o, scratch) := encode_binary_row_into b row fields scratch in
            _ ← lift o; mret (scratch, scratch)
        end;
      key_group ← lift (assign_key_group key mp);
      _ ← visit (wrapu 32 row) key_group;
      visit_rows b fields mp preencoded scratch rows
  end.

Definition visit_key_groups (b : Batch) (fields : list (Z * KeyField)) (mp : Z) : M V unit :=
  _ ← when (U32_MAX <? sat_sub (num_rows b) 1)
        (InvalidArgument "exchange batch exceeds UInt32 indexing");
  _ ← when (existsb (fun f => num_columns b <=? f.1) fields)
        (InvalidArgument "exchange key column is outside the input schema");
  preencoded ← lift (preencoded_column b fields);
  visit_rows b fields mp preencoded [] (row_numbers (num_rows b)).
End visit.

(** Run a computation on a fresh local state. *)
Definition run_local {V A} (m : M V A) (v : V) : outcome V :=
  let '(o, v') := m v in _ ← o; Ok v'.

(** ** Destination buckets *)

(** [rows[destination].push(row)] panics outside the buckets. *)
Definition push_bucket (mp destinations row key_group : Z) : M (list (list Z)) unit := fun buckets =>
  let d := destination_of mp destinations key_group in
  match buckets !! Z.to_nat d with
  | Some rows => (Ok tt, <[Z.to_nat d := rows ++ [row]]> buckets)
  | None => (Panic, buckets)
  end.

Definition routing_rows (b : Batch) (fields : list (Z * KeyField)) (mp destinations : Z)
  : outcome (list (list Z)) :=
  run_local (visit_key_groups (push_bucket mp destinations) b fields mp)
    (replicate (Z.to_nat destinations) []).

(** The batch is shared by reference ([Arc]); Arrow batches are immutable. *)
Record RoutedBatch : Type := { destination : Z; rb_batch : Batch; rb_rows : list Z }.

(** [enumerate], [filter(!rows.is_empty())] and [map]. *)
Fixpoint routed_batches (b : Batch) (d : Z) (buckets : list (list Z)) : list RoutedBatch :=
  match buckets with
  | [] => []
  | rows :: buckets =>
      (if bool_decide (rows = []) then []
       else [{| destination := wrapu 32 d; rb_batch := b; rb_rows := rows |}])
      ++ routed_batches b (d + 1) buckets
  end.

Definition route_batch (b : Batch) (fields : list (Z * KeyField)) (mp parallelism : Z)
  : outcome (list RoutedBatch) :=
  _ ← guard_ok (geometry_ok mp parallelism)
        (InvalidArgument "Flink exchange requires 0 < parallelism <= max parallelism <= 32768");
  destination_rows ← routing_rows b fields mp parallelism;
  Ok (routed_batches b 0 destination_rows).

(** ** Runs of one key group *)

Record KeyGroupBatch : Type :=
  { kg_key_group : Z; kg_batch : Batch; kg_start : Z; kg_len : Z }.

(** Extend the last run or open a new one. The runs are kept in reverse, the
    last run first, as the source only looks at [last_mut]. *)
Definition push_run (b : Batch) (row key_group : Z) : M (list KeyGroupBatch) unit := fun runs =>
  let open := {| kg_key_group := key_group; kg_batch := b; kg_start := row; kg_len := 1 |} in
  match runs with
  | last :: before =>
      if kg_key_group last =? key_group
      then (Ok tt, {| kg_key_group := kg_key_group last; kg_batch := kg_batch last;
                      kg_start := kg_start last; kg_len := kg_len last + 1 |} :: before)
      else (Ok tt, open :: runs)
  | [] => (Ok tt, [open])
  end.

Definition route_batch_by_key_group (b : Batch) (fields : list (Z * KeyField)) (mp : Z)
  : outcome (list KeyGroupBatch) :=
  _ ← guard_ok (negb ((mp =? 0) || (32768 <? mp)))
        (InvalidArgument "Flink exchange max parallelism is outside 1..=32768");
  runs ← run_local (visit_key_groups (push_run b) b fields mp) [];
  Ok (reverse runs).

(** ** Materialisation *)

Definition project_columns (b : Batch) (columns : Z) : outcome Batch :=
  _ ← guard_ok (columns <=? num_columns b)
        (InvalidArgument "exchange transport column count exceeds input schema");
  if columns =? num_columns b then Ok b else project_to b columns.

(** The selection is the rows [start], [start + 1], ... *)
Fixpoint contiguous_from (start : Z) (rows : list Z) : bool :=
  match rows with
  | [] => true
  | r :: rows => (r =? start) && contiguous_from (start + 1) rows
  end.

Definition materialize (b : Batch) (rows : list Z) (column_count : Z) : outcome Batch :=
  projected ← project_columns b column_count;
  match rows with
  | [] => Ok (batch_slice projected 0 0)
  | start :: _ =>
      if (start <? num_rows projected) && (len rows <=? num_rows projected - start)
         && contiguous_from start rows
      then Ok (batch_slice projected start (len rows))
      else
        columns ← collect (fun c => array_take c rows) (columns projected);
        with_columns projected columns
  end.

Definition routed_materialize (r : RoutedBatch) (columns : Z) : outcome Batch :=
  materialize (rb_batch r) (rb_rows r) columns.

Definition run_materialize (r : KeyGroupBatch) (columns : Z) : outcome Batch :=
  projected ← project_columns (kg_batch r) columns;
  Ok (batch_slice projected (kg_start r) (kg_len r)).
End routing.
