(* ===== verification/RoutingSpec.v ===== *)
(** * What routing guarantees

    [key_groups] is the reference: the key group of every row, computed row by
    row with a fresh buffer. Both routers are compared with it: destination
    buckets are the rows of the destination in input order, runs concatenate to
    the input, and materialising a selection gives exactly the selected rows,
    whichever of the slice and the gather path is taken. *)

From Stdlib Require Import ZArith Lia Strings.Byte.
From stdpp Require Import base list option numbers strings.
From S2P Require Import Prelude Bytes KeyGroup Arrow BinaryRow BinaryRowSafe Routing.

Section reference.
Context `{ArrowLaws}.
Context (b : Batch) (fields : list (Z * KeyField)) (mp : Z).

(** ** The reference *)

Definition row_key (preencoded : option (Array * (Z -> bytes))) (row : Z) : outcome bytes :=
  match preencoded with
  | Some (a, keys) =>
      _ ← guard_ok (negb (is_null a row))
            (InvalidArgument "a preencoded BinaryRow exchange key cannot be null");
      _ ← guard_ok (len (keys row) mod 4 =? 0)
            (InvalidArgument "a preencoded BinaryRow exchange key must be word aligned");
      Ok (keys row)
  | None => encode_binary_row b row fields
  end.

Definition row_key_group (preencoded : option (Array * (Z -> bytes))) (row : Z) : outcome Z :=
  key ← row_key preencoded row; assign_key_group key mp.

Definition key_groups : outcome (list Z) :=
  _ ← guard_ok (negb (U32_MAX <? sat_sub (num_rows b) 1))
        (InvalidArgument "exchange batch exceeds UInt32 indexing");
  _ ← guard_ok (negb (existsb (fun f => num_columns b <=? f.1) fields))
        (InvalidArgument "exchange key column is outside the input schema");
  preencoded ← preencoded_column b fields;
  collect (row_key_group preencoded) (row_numbers (num_rows b)).

(** The rows with their key groups. *)
Definition keyed_rows (kgs : list Z) : list (Z * Z) := zip (row_numbers (num_rows b)) kgs.

(** ** [visit_key_groups] computes the reference *)

Section visit.
Context {V : Type} (visit : Z -> Z -> M V unit).
Definition visit_pairs (pairs : list (Z * Z)) : M V unit :=
  forM pairs (fun p => visit (wrapu 32 p.1) p.2).

Lemma visit_rows_run pre scratch rows kgs v :
  collect (row_key_group pre) rows = Ok kgs ->
  visit_rows visit b fields mp pre scratch rows v = visit_pairs (zip rows kgs) v.
Proof.
  revert scratch kgs v. induction rows as [|row rows IH]; intros scratch kgs v Hc; [by injection Hc as <-|].
  apply collect_Ok, Forall2_cons_inv_l in Hc as (g & kgs' & Hg & Hc & ->). apply collect_Ok in Hc.
  unfold row_key_group in Hg. apply outcome_bind_Ok in Hg as (key & Hkey & Hg).
  assert (forall scr, (k ← lift (assign_key_group key mp); _ ← visit (wrapu 32 row) k;
    visit_rows visit b fields mp pre scr rows) v = visit_pairs ((row, g) :: zip rows kgs') v) as Hrest.
  { intros scr. rewrite (M_bind_run _ _ _ g v) by by unfold lift; rewrite Hg.
    unfold visit_pairs. cbn [forM fst snd]. unfold mbind, M_bind.
    destruct (visit (wrapu 32 row) g v) as [[[]| |] v']; [|done..]. by apply IH. }
  cbn [visit_rows zip zip_with]. destruct pre as [[a keys]|]; cbn [row_key] in Hkey.
  - unfold guard_ok in Hkey. destruct (is_null a row) eqn:En; [done|].
    destruct (len (keys row) mod 4 =? 0) eqn:E4; [|done]. unfold_M. injection Hkey as <-.
    exact (Hrest scratch).
  - apply (encode_any_scratch b row fields scratch) in Hkey. rewrite Hkey. exact (Hrest key).
Qed.

Lemma visit_rows_Ok pre scratch rows v v' :
  visit_rows visit b fields mp pre scratch rows v = (Ok tt, v') ->
  exists kgs, collect (row_key_group pre) rows = Ok kgs.
Proof.
  revert scratch v. induction rows as [|row rows IH]; intros scratch v Hv; [by exists []|].
  cbn [visit_rows] in Hv. apply M_bind_Ok in Hv as ([key scr] & v1 & Hkey & Hv).
  apply M_bind_Ok in Hv as (g & v2 & Hg & Hv). apply M_bind_Ok in Hv as (u & v3 & _ & Hv).
  destruct (IH _ _ Hv) as [kgs Hk]. exists (g :: kgs).
  assert (row_key pre row = Ok key) as Hrow.
  { destruct pre as [[a keys]|]; cbn [row_key].
    - inv_M. repeat match goal with Hb : _ = false |- _ => try apply negb_false_iff in Hb; rewrite ?Hb; clear Hb end. done.
    - destruct (encode_binary_row_into b row fields scratch) as [o s] eqn:E. inv_M.
      unfold lift in E0. simplify_eq. destruct a. by eapply encode_scratch. }
  assert (row_key_group pre row = Ok g) as Hgroup.
  { unfold row_key_group. rewrite Hrow, outcome_bind_run. unfold lift in Hg. by injection Hg as -> _. }
  cbn [collect]. by rewrite Hgroup, outcome_bind_run, Hk.
Qed.

Lemma visit_key_groups_run kgs v :
  key_groups = Ok kgs ->
  visit_key_groups visit b fields mp v = visit_pairs (keyed_rows kgs) v.
Proof.
  unfold key_groups, visit_key_groups, guard_ok, when. intros Hk.
  destruct (U32_MAX <? _); [done|]. destruct (existsb _ fields); [done|].
  unfold lift. unfold_M. destruct (preencoded_column b fields) as [pre| |]; [|done..].
  by apply visit_rows_run.
Qed.

Lemma visit_key_groups_Ok v v' :
  visit_key_groups visit b fields mp v = (Ok tt, v') -> exists kgs, key_groups = Ok kgs.
Proof.
  unfold key_groups, visit_key_groups, guard_ok, when. intros Hk.
  destruct (U32_MAX <? _); [done|]. destruct (existsb _ fields); [done|].
  unfold lift in *. unfold_M. destruct (preencoded_column b fields) as [pre| |]; [|done..].
  by eapply visit_rows_Ok.
Qed.
End visit.

(** ** Row numbers *)

Lemma row_numbers_len n : length (row_numbers n) = Z.to_nat n.
Proof. unfold row_numbers. by rewrite length_map, length_seq. Qed.

Lemma row_numbers_lookup n i r : row_numbers n !! i = Some r <-> r = Z.of_nat i /\ (i < Z.to_nat n)%nat.
Proof.
  unfold row_numbers. rewrite (list_lookup_fmap Z.of_nat), fmap_Some. setoid_rewrite lookup_seq.
  naive_solver.
Qed.

(** Every row is numbered below [2^32] and its key group below [mp]. *)
Lemma key_groups_spec kgs :
  key_groups = Ok kgs ->
  length kgs = Z.to_nat (num_rows b) /\ num_rows b <= 2 ^ 32 /\ Forall (fun g => 0 <= g < mp) kgs.
Proof.
  unfold key_groups, guard_ok. destruct (Z.ltb_spec U32_MAX (sat_sub (num_rows b) 1)); [done|].
  destruct (existsb _ fields); [done|]. cbn [negb]. rewrite !outcome_bind_run. intros Hc. inv_M.
  apply collect_Ok in Hc. split_and!.
  - by rewrite <- (Forall2_length _ _ _ Hc), row_numbers_len.
  - mlia.
  - clear E. induction Hc as [|r g rs gs Hg _ IH]; constructor; [|done].
    unfold row_key_group in Hg. inv_M. by eapply assign_key_group_range.
Qed.

Lemma keyed_rows_fst kgs : length kgs = Z.to_nat (num_rows b) -> (keyed_rows kgs).*1 = row_numbers (num_rows b).
Proof. intros Hl. apply fst_zip. rewrite row_numbers_len. lia. Qed.

Lemma keyed_rows_lookup kgs i r g :
  length kgs = Z.to_nat (num_rows b) ->
  keyed_rows kgs !! i = Some (r, g) <-> r = Z.of_nat i /\ kgs !! i = Some g.
Proof.
  intros Hl. unfold keyed_rows. rewrite lookup_zip_Some, row_numbers_lookup. split; [naive_solver|].
  intros [-> Hg]. split_and!; [done| |done]. apply lookup_lt_Some in Hg. lia.
Qed.
End reference.

(** ** Destination buckets *)

(** The rows of a destination, in input order. *)
Definition rows_for (mp p d : Z) (pairs : list (Z * Z)) : list Z :=
  (filter (fun x => destination_of mp p x.2 = d) pairs).*1.

Lemma rows_for_cons mp p d r g pairs :
  rows_for mp p d ((r, g) :: pairs) =
    (if decide (destination_of mp p g = d) then [r] else []) ++ rows_for mp p d pairs.
Proof. unfold rows_for. rewrite filter_cons. by destruct (decide _). Qed.

Lemma rows_for_app mp p d xs ys : rows_for mp p d (xs ++ ys) = rows_for mp p d xs ++ rows_for mp p d ys.
Proof. unfold rows_for. by rewrite filter_app, fmap_app. Qed.

Lemma push_buckets mp p pairs buckets :
  Forall (fun x => 0 <= x.1 < 2 ^ 32 /\ 0 <= destination_of mp p x.2 < len buckets) pairs ->
  visit_pairs (push_bucket mp p) pairs buckets =
    (Ok tt, imap (fun d rows => rows ++ rows_for mp p (Z.of_nat d) pairs) buckets).
Proof.
  intros Hp. revert buckets Hp. induction pairs as [|[r g] pairs IH]; intros buckets Hp.
  { cbn. f_equal. apply list_eq. intros i. rewrite list_lookup_imap.
    destruct (buckets !! i); cbn; [by rewrite app_nil_r|done]. }
  apply Forall_cons in Hp as [[Hr Hd] Hp]. cbn [fst snd] in *. unfold visit_pairs. cbn [forM fst snd].
  rewrite wrapu_small by done. set (d := destination_of mp p g) in *.
  destruct (lookup_lt_is_Some_2 buckets (Z.to_nat d)) as [rows Hrows]; [unfold len in Hd; lia|].
  rewrite (M_bind_run _ _ _ tt (<[Z.to_nat d := rows ++ [r]]> buckets))
    by (unfold push_bucket; fold d; by rewrite Hrows).
  fold (visit_pairs (push_bucket mp p) pairs). rewrite IH.
  2: { eapply Forall_impl; [done|]. unfold len. intros x. by rewrite length_insert. }
  f_equal. apply list_eq. intros i. rewrite !list_lookup_imap.
  destruct (decide (i = Z.to_nat d)) as [->|Hi].
  - rewrite list_lookup_insert_eq, Hrows by (unfold len in Hd; lia). unfold fmap, option_fmap, option_map.
    f_equal. rewrite rows_for_cons.
    rewrite Z2Nat.id by lia. fold d. rewrite decide_True by done. by rewrite <- app_assoc.
  - rewrite list_lookup_insert_ne by done. destruct (buckets !! i); [|done].
    unfold fmap, option_fmap, option_map. f_equal.
    rewrite rows_for_cons. fold d. rewrite decide_False by lia. done.
Qed.

(** ** Runs *)

Section runs.
Context `{Arrow}.

Definition run_rows (r : KeyGroupBatch) : list Z :=
  map (fun i => kg_start r + Z.of_nat i) (seq 0 (Z.to_nat (kg_len r))).
Definition run_pairs (r : KeyGroupBatch) : list (Z * Z) := map (fun i => (i, kg_key_group r)) (run_rows r).

(** [pairs] as runs: maximal, not empty, of rows of [b], up to the last row. *)
Record runs_ok (b : Batch) (pairs : list (Z * Z)) (runs : list KeyGroupBatch) : Prop := {
  ro_pairs : concat (map run_pairs runs) = pairs;
  ro_pos : Forall (fun r => 0 < kg_len r /\ kg_batch r = b) runs;
  ro_maximal i g : map kg_key_group runs !! i = Some g -> map kg_key_group runs !! S i <> Some g;
  ro_next r : last runs = Some r -> kg_start r + kg_len r = len pairs;
}.

Lemma run_rows_succ s l :
  0 <= l -> map (fun i => s + Z.of_nat i) (seq 0 (Z.to_nat (l + 1))) =
    map (fun i => s + Z.of_nat i) (seq 0 (Z.to_nat l)) ++ [s + l].
Proof.
  intros Hl. replace (Z.to_nat (l + 1)) with (S (Z.to_nat l)) by lia.
  rewrite seq_S, map_app. cbn [map]. do 3 f_equal. lia.
Qed.

Lemma run_pairs_extend g b s l :
  0 <= l ->
  run_pairs {| kg_key_group := g; kg_batch := b; kg_start := s; kg_len := l + 1 |} =
    run_pairs {| kg_key_group := g; kg_batch := b; kg_start := s; kg_len := l |} ++ [(s + l, g)].
Proof.
  intros Hl. unfold run_pairs, run_rows. cbn [kg_len kg_start kg_key_group].
  rewrite run_rows_succ by done. by rewrite map_app.
Qed.

(** A new run, after a run of another key group. *)
Lemma open_run_ok b pairs runs g :
  runs_ok b pairs runs -> (forall r, last runs = Some r -> kg_key_group r <> g) ->
  runs_ok b (pairs ++ [(len pairs, g)])
    (runs ++ [{| kg_key_group := g; kg_batch := b; kg_start := len pairs; kg_len := 0 + 1 |}]).
Proof.
  intros [Hp Hpos Hmax Hnext] Hlast. split.
  - rewrite map_app, concat_app, Hp. cbn [map concat]. rewrite run_pairs_extend by done.
    by rewrite Z.add_0_r, app_nil_r.
  - apply Forall_app_2; [done|]. constructor; [done|constructor].
  - intros i x. rewrite !map_app. intros H1 H2. apply lookup_app_Some in H2 as [H2|[Hge H2]].
    + rewrite lookup_app_l in H1 by (apply lookup_lt_Some in H2; lia). exact (Hmax i x H1 H2).
    + apply list_lookup_singleton_Some in H2 as [Hz <-]. cbn [kg_key_group] in *.
      rewrite lookup_app_l in H1 by lia. rewrite (list_lookup_fmap kg_key_group) in H1.
      apply fmap_Some in H1 as (r & Hr & Hg). apply (Hlast r); [|done].
      rewrite last_lookup. rewrite length_map in *. by replace (pred (length runs)) with i by lia.
  - intros r. rewrite last_snoc. intros [= <-]. cbn [kg_start kg_len].
    unfold len in *. rewrite length_app. simpl. lia.
Qed.

(** One more row in the last run. *)
Lemma extend_run_ok b pairs runs r :
  runs_ok b pairs (runs ++ [r]) ->
  runs_ok b (pairs ++ [(len pairs, kg_key_group r)])
    (runs ++ [{| kg_key_group := kg_key_group r; kg_batch := kg_batch r;
                 kg_start := kg_start r; kg_len := kg_len r + 1 |}]).
Proof.
  intros [Hp Hpos Hmax Hnext]. specialize (Hnext r (last_snoc _ _)).
  apply Forall_app in Hpos as [Hpos Hl]. rewrite Forall_singleton in Hl. destruct Hl as [Hl Hb].
  split.
  - rewrite map_app, concat_app in Hp |- *. cbn [map concat] in *. rewrite app_nil_r in *.
    rewrite run_pairs_extend, Hnext, app_assoc by lia. rewrite <- Hp at 2. destruct r; done.
  - apply Forall_app_2; [done|]. constructor; [split; [cbn; lia|done]|constructor].
  - rewrite map_app in *. exact Hmax.
  - intros x. rewrite last_snoc. intros [= <-]. cbn [kg_start kg_len].
    unfold len in *. rewrite length_app. simpl. lia.
Qed.

(** Pushing the next row onto the runs of the rows before it. *)
Lemma push_run_ok b pairs runs g :
  runs_ok b pairs (reverse runs) ->
  exists runs', push_run b (len pairs) g runs = (Ok tt, runs') /\
    runs_ok b (pairs ++ [(len pairs, g)]) (reverse runs').
Proof.
  intros Hok. unfold push_run. destruct runs as [|last before].
  { eexists. split; [done|]. by apply (open_run_ok b pairs []). }
  destruct (Z.eqb_spec (kg_key_group last) g) as [<-|Hg]; (eexists; split; [done|]).
  - rewrite reverse_cons in *. by apply extend_run_ok.
  - rewrite (reverse_cons (last :: before)). apply open_run_ok; [done|].
    intros r. rewrite reverse_cons, last_snoc. by intros [= <-].
Qed.

(** Visiting the rows in order builds the runs of all of them. *)
Lemma push_runs b todo pairs runs :
  runs_ok b pairs (reverse runs) ->
  (pairs ++ todo).*1 = row_numbers (len (pairs ++ todo)) -> len (pairs ++ todo) <= 2 ^ 32 ->
  exists runs', visit_pairs (push_run b) todo runs = (Ok tt, runs') /\
    runs_ok b (pairs ++ todo) (reverse runs').
Proof.
  revert pairs runs. induction todo as [|[r g] todo IH]; intros pairs runs Hok Hrows Hlen.
  { exists runs. by rewrite app_nil_r. }
  assert (r = len pairs) as ->.
  { assert ((pairs ++ (r, g) :: todo).*1 !! length pairs = Some r) as Hl.
    { rewrite fmap_app, lookup_app_r by by rewrite length_fmap. by rewrite length_fmap, Nat.sub_diag. }
    rewrite Hrows in Hl. by apply row_numbers_lookup in Hl as [-> _]. }
  destruct (push_run_ok b pairs runs g Hok) as (runs1 & Hr1 & Hok1).
  destruct (IH (pairs ++ [(len pairs, g)]) runs1) as (runs2 & Hr2 & Hok2);
    [done|by rewrite <- app_assoc..|].
  exists runs2. rewrite <- app_assoc in Hok2. split; [|done].
  unfold visit_pairs. cbn [forM fst snd]. pose proof (len_nonneg pairs). pose proof (len_nonneg todo).
  rewrite len_app, len_cons in Hlen. rewrite wrapu_small by lia.
  by rewrite (M_bind_run _ _ _ tt runs1).
Qed.

(** The rows of a destination, run by run. *)
Lemma runs_rows_for mp p d runs :
  rows_for mp p d (concat (map run_pairs runs)) =
    concat (map run_rows (filter (fun r => destination_of mp p (kg_key_group r) = d) runs)).
Proof.
  induction runs as [|r runs IH]; [done|]. cbn [map concat]. rewrite rows_for_app, filter_cons, IH.
  assert (rows_for mp p d (run_pairs r) =
    if decide (destination_of mp p (kg_key_group r) = d) then run_rows r else []) as ->.
  { unfold run_pairs. induction (run_rows r) as [|x xs IHx]; cbn [map]; [by destruct (decide _)|].
    rewrite rows_for_cons, IHx. by destruct (decide _). }
  by destruct (decide _).
Qed.
End runs.

(** ** Materialisation *)

Section materialise.
Context `{ArrowLaws}.

(** The rows [start], ..., [start + n - 1]. *)
Definition consecutive (start n : Z) : list Z :=
  map (fun i => start + Z.of_nat i) (seq 0 (Z.to_nat n)).

Lemma consecutive_lookup start n i r :
  consecutive start n !! i = Some r <-> r = start + Z.of_nat i /\ (i < Z.to_nat n)%nat.
Proof.
  unfold consecutive. rewrite (list_lookup_fmap (fun i => start + Z.of_nat i)), fmap_Some.
  setoid_rewrite lookup_seq. naive_solver.
Qed.

Lemma contiguous_consecutive start rows :
  contiguous_from start rows = true -> rows = consecutive start (len rows).
Proof.
  revert start. induction rows as [|r rows IH]; intros start; [done|]. cbn [contiguous_from].
  rewrite andb_true_iff, Z.eqb_eq. intros [-> Hr]. rewrite (IH _ Hr) at 1.
  unfold consecutive. rewrite len_cons. pose proof (len_nonneg rows).
  replace (Z.to_nat (1 + len rows)) with (S (Z.to_nat (len rows))) by lia.
  cbn [seq map]. rewrite <- seq_shift, map_map. f_equal; [lia|]. apply map_ext. lia.
Qed.

(** The rows of a batch at the given numbers, first columns only. *)
Definition selected (b : Batch) (columns : Z) (rows : list Z) : list (list Cell) :=
  map (fun r => take (Z.to_nat columns) (batch_row b r)) rows.

Lemma batch_rows_eq b n (f : Z -> list Cell) :
  num_rows b = n -> (forall i, 0 <= i < n -> batch_row b i = f i) ->
  batch_rows b = map f (row_numbers n).
Proof.
  intros Hn Hf. unfold batch_rows, row_numbers. rewrite Hn, map_map. apply map_ext_in.
  intros i Hi%in_seq. apply Hf. lia.
Qed.

Lemma project_columns_spec b cc :
  0 <= cc <= num_columns b ->
  exists pr, project_columns b cc = Ok pr /\ num_rows pr = num_rows b /\
    columns pr = take (Z.to_nat cc) (columns b).
Proof.
  intros Hcc. unfold project_columns, guard_ok. rewrite (proj2 (Z.leb_le _ _)) by lia.
  rewrite outcome_bind_run. destruct (Z.eqb_spec cc (num_columns b)) as [->|].
  - exists b. split_and!; [done..|]. unfold num_columns. by rewrite len_to_nat, firstn_all.
  - by apply project_law.
Qed.

Lemma project_columns_wide b cc : num_columns b < cc -> exists e, project_columns b cc = Err e.
Proof. intros. unfold project_columns, guard_ok. rewrite (proj2 (Z.leb_gt _ _)) by lia. by eexists. Qed.

Lemma projected_row b pr cc i :
  columns pr = take (Z.to_nat cc) (columns b) -> batch_row pr i = take (Z.to_nat cc) (batch_row b i).
Proof. intros Hc. unfold batch_row. by rewrite Hc, firstn_map. Qed.

Lemma slice_rows pr s n :
  0 <= s -> 0 <= n -> s + n <= num_rows pr ->
  batch_rows (batch_slice pr s n) = map (batch_row pr) (consecutive s n).
Proof.
  intros Hs Hn Hsn. destruct (slice_law pr s n Hs Hn Hsn) as [Hr Hc].
  rewrite (batch_rows_eq _ n (fun i => batch_row pr (s + i)) Hr).
  { unfold consecutive, row_numbers. by rewrite !map_map. }
  intros i Hi. unfold batch_row. revert Hc. generalize (columns (batch_slice pr s n)).
  intros cs Hc. induction Hc as [|a a' l l' Ha _ IH]; [done|]. cbn [map]. by rewrite Ha, IH.
Qed.

Lemma gather_rows pr rows :
  Forall (fun r => 0 <= r < num_rows pr) rows -> columns pr <> [] ->
  exists cs b', collect (fun c => array_take c rows) (columns pr) = Ok cs /\ with_columns pr cs = Ok b' /\
    batch_rows b' = map (batch_row pr) rows.
Proof.
  intros Hr Hne.
  assert (exists cs, collect (fun c => array_take c rows) (columns pr) = Ok cs /\
    Forall2 (fun a c => (data_type c = data_type a /\ array_len c = len rows) /\
      forall i r, rows !! i = Some r -> array_cell c (Z.of_nat i) = array_cell a r) (columns pr) cs)
    as (cs & Hcs & Hall).
  { pose proof (columns_law pr) as Hlen. revert Hlen. generalize (columns pr). intros l Hlen.
    induction Hlen as [|a l Ha Hlen (cs & Hcs & IH)]; [by exists []|].
    destruct (take_law a rows) as (a' & Ht & Hd & Hl & Hc); [by rewrite Ha|].
    exists (a' :: cs). cbn [collect]. by rewrite Ht, outcome_bind_run, Hcs; split; [|constructor]. }
  destruct (with_columns_law pr (len rows) cs) as (b' & Hb' & Hn & Hc).
  { intros ->. apply Forall2_nil_inv_r in Hall. done. }
  { eapply Forall2_impl; [done|]. by intros a c [? _]. }
  exists cs, b'. split_and!; [done..|].
  unfold batch_rows, batch_row. rewrite Hn, Hc, len_to_nat. apply list_eq_same_length with (length rows);
    [by rewrite length_map|by rewrite length_map, length_seq|].
  intros i x y Hi. rewrite (list_lookup_fmap (fun i => map _ cs)), (list_lookup_fmap (fun r => map _ _)).
  intros (k & [-> _]%lookup_seq & ->)%fmap_Some (r & Hr' & ->)%fmap_Some. cbn [Nat.add].
  clear -Hall Hr'. induction Hall as [|a c l l' [_ Ha] _ IH]; [done|]. cbn [map]. by rewrite (Ha _ _ Hr'), IH.
Qed.

(** Slice or gather, the selection is exactly the selected rows. *)
Lemma materialize_spec b rows cc :
  Forall (fun r => 0 <= r < num_rows b) rows -> 0 < cc <= num_columns b ->
  exists b', materialize b rows cc = Ok b' /\ batch_rows b' = selected b cc rows.
Proof.
  intros Hr Hcc. unfold materialize.
  destruct (project_columns_spec b cc ltac:(lia)) as (pr & Hp & Hn & Hc). rewrite Hp, outcome_bind_run.
  assert (forall l, map (batch_row pr) l = selected b cc l) as Hsel.
  { intros l. apply map_ext. intros r. by apply projected_row. }
  destruct rows as [|start rows].
  { eexists. split; [done|]. pose proof (num_rows_law b). by rewrite slice_rows by lia. }
  set (all := start :: rows) in *.
  destruct (_ && contiguous_from start all) eqn:E.
  - apply andb_true_iff in E as [E Hcont]. apply andb_true_iff in E as [E1 E2].
    apply Forall_cons in Hr as [Hs _]. pose proof (len_nonneg all).
    eexists. split; [done|]. rewrite slice_rows by lia. rewrite Hsel.
    by rewrite <- (contiguous_consecutive start all Hcont).
  - destruct (gather_rows pr all) as (cs & b' & Hcs & Hb' & Hrows).
    + by rewrite Hn.
    + rewrite Hc. unfold num_columns, len in Hcc. destruct (columns b); [simpl in *; lia|].
      by destruct (Z.to_nat cc) eqn:E0; [lia|].
    + exists b'. rewrite Hcs, outcome_bind_run. split; [done|]. by rewrite Hrows, Hsel.
Qed.

Lemma run_materialize_spec r cc :
  0 <= kg_start r -> 0 <= kg_len r -> kg_start r + kg_len r <= num_rows (kg_batch r) ->
  0 <= cc <= num_columns (kg_batch r) ->
  exists b', run_materialize r cc = Ok b' /\ batch_rows b' = selected (kg_batch r) cc (run_rows r).
Proof.
  intros Hs Hl Hsl Hcc. unfold run_materialize.
  destruct (project_columns_spec (kg_batch r) cc Hcc) as (pr & Hp & Hn & Hc). rewrite Hp, outcome_bind_run.
  eexists. split; [done|]. rewrite slice_rows by lia. apply map_ext. intros i. by apply projected_row.
Qed.
End materialise.
