(* ===== verification/Framing.v ===== *)
(** * Exchange frames: [exchange/batch_frame.rs], [exchange/exchange_framer.rs]

    Every selection of the router becomes one independently decodable network
    record: an Arrow IPC record-batch message tagged with a key group that Flink
    uses to select the destination channel. [FrameMemory] is the trait through
    which the caller admits and retains the frames. Arrow's IPC writer and reader
    are a class of operations with their documented round trip. *)

From Stdlib Require Import ZArith Lia Strings.Byte.
From stdpp Require Import base list option numbers strings.
From S2P Require Import Prelude Bytes KeyGroup Arrow BinaryRow BinaryRowSafe Routing RoutingSpec.

(** ** Arrow IPC *)

Class ArrowIpc `{Arrow} : Type := {
  Schema : Type;
  batch_schema : Batch -> Schema;
  Message : Type;
  Header : Type;
  (** [IpcDataGenerator::encode]: dictionaries, message and body. *)
  ipc_generate : Batch -> outcome (list bytes * vec * vec);
  root_as_message : bytes -> option Message;
  header_as_record_batch : Message -> option Header;
  read_record_batch : bytes -> Header -> Schema -> Message -> outcome Batch;
}.

Class ArrowIpcLaws `{ArrowIpc} : Prop := {
  ipc_generate_law b : ipc_generate b <> Panic;
  (** A batch without dictionaries is read back from its message and body. *)
  ipc_law b md body : ipc_generate b = Ok ([], md, body) ->
    exists m h b', root_as_message (vdata md) = Some m /\ header_as_record_batch m = Some h /\
      read_record_batch (vdata body) h (batch_schema b) m = Ok b' /\ batch_rows b' = batch_rows b;
  ipc_vec_law b ds md body : ipc_generate b = Ok (ds, md, body) -> vec_ok md /\ vec_ok body;
  slice_schema_law b s n : batch_schema (batch_slice b s n) = batch_schema b;
  with_columns_schema_law b cs b' : with_columns b cs = Ok b' -> batch_schema b' = batch_schema b;
  with_columns_panic_law b cs : with_columns b cs <> Panic;
  take_panic_law a rows : array_take a rows <> Panic;
}.

(** ** [IpcBatchFrame] *)

Record IpcBatchFrame : Type := { metadata : vec; body : vec }.

Section frame.
Context `{ArrowIpc}.

Definition frame_encode (b : Batch) : outcome IpcBatchFrame :=
  '(dictionaries, message, data) ← ipc_generate b;
  _ ← guard_ok (bool_decide (dictionaries = []))
        (NotYetImplemented "dictionary-encoded native exchange requires per-channel dictionary state");
  Ok {| metadata := message; body := data |}.

Definition parse_batch (metadata body : bytes) (schema : Schema) : outcome Batch :=
  message ← ok_or (ParseError "invalid exchange IPC metadata") (root_as_message metadata);
  batch ← ok_or (ParseError "exchange IPC frame is not a record batch") (header_as_record_batch message);
  read_record_batch body batch schema message.

Definition frame_decode (f : IpcBatchFrame) (schema : Schema) : outcome Batch :=
  parse_batch (vdata (metadata f)) (vdata (body f)) schema.

(** A contiguous payload: the metadata, then the body. *)
Definition decode_contiguous (payload : bytes) (metadata_length : Z) (schema : Schema) : outcome Batch :=
  _ ← guard_ok (metadata_length <=? len payload)
        (ParseError "exchange IPC metadata exceeds its payload");
  parse_batch (take (Z.to_nat metadata_length) payload) (drop (Z.to_nat metadata_length) payload) schema.

(** ** [RoutedFrame] *)

Record RoutedFrame : Type := { rf_key_group : Z; rf_frame : IpcBatchFrame }.
End frame.

(** The trait [FrameMemory]: admission before gathering and encoding a frame,
    retention after it. *)
Class FrameMemory (Mem : Type) : Type := {
  before_frame : M Mem unit;
  retain_frame : RoutedFrame -> M Mem unit;
}.
(** [impl FrameMemory for ()]: the default methods. *)
#[global] Instance unit_memory : FrameMemory unit := {|
  before_frame := mret tt;
  retain_frame := fun _ => mret tt;
|}.

Section framer.
Context `{ArrowIpc} `{FrameMemory Mem}.

Definition encode_frame (key_group : Z) (materialized : outcome Batch) : M Mem RoutedFrame :=
  _ ← before_frame;
  b ← lift materialized;
  f ← lift (frame_encode b);
  let frame := {| rf_key_group := key_group; rf_frame := f |} in
  _ ← retain_frame frame;
  mret frame.

Definition frame_hash_exchange_batch_accounted (b : Batch) (fields : list (Z * KeyField))
    (mp parallelism : Z) (preserve_key_groups : bool) (transport_column_count : Z)
  : M Mem (list RoutedFrame) :=
  if preserve_key_groups then
    runs ← lift (route_batch_by_key_group b fields mp);
    collectM (fun r => encode_frame (kg_key_group r) (run_materialize r transport_column_count)) runs
  else
    routed ← lift (route_batch b fields mp parallelism);
    collectM (fun r => encode_frame (destination_tag mp parallelism (destination r))
                         (routed_materialize r transport_column_count)) routed.
End framer.

Definition frame_hash_exchange_batch_projected `{ArrowIpc} (b : Batch) (fields : list (Z * KeyField))
    (mp parallelism : Z) (preserve_key_groups : bool) (transport_column_count : Z)
  : outcome (list RoutedFrame) :=
  fst (frame_hash_exchange_batch_accounted (Mem := unit) b fields mp parallelism
         preserve_key_groups transport_column_count tt).
Definition frame_hash_exchange_batch `{ArrowIpc} (b : Batch) (fields : list (Z * KeyField))
    (mp parallelism : Z) (preserve_key_groups : bool) : outcome (list RoutedFrame) :=
  frame_hash_exchange_batch_projected b fields mp parallelism preserve_key_groups (num_columns b).
