(* ===== verification/FramingSpec.v ===== *)
(** * Frames deliver every row once, in order

    Whatever the framing mode, the frames that Flink sends to one destination
    decode, one after the other, to exactly the rows of that destination in
    input order. *)

From Stdlib Require Import ZArith Lia Strings.Byte.
From stdpp Require Import base list option numbers strings.
From S2P Require Import Prelude Bytes KeyGroup Arrow BinaryRow BinaryRowSafe Routing RoutingSpec Framing.

(** ** Routers *)

Section routers.
Context `{ArrowLaws}.
Context (b : Batch) (fields : list (Z * KeyField)) (mp : Z) (Hmp : 0 < mp <= 32768).

Lemma run_local_Ok {V} (m : M V unit) v v' : run_local m v = Ok v' <-> m v = (Ok tt, v').
Proof. unfold run_local. destruct (m v) as [[[]| |] w]; unfold_M; naive_solver. Qed.

Lemma keyed_rows_Forall kgs p :
  key_groups b fields mp = Ok kgs -> 0 < p <= mp ->
  Forall (fun x => 0 <= x.1 < 2 ^ 32 /\ 0 <= destination_of mp p x.2 < p) (keyed_rows b kgs).
Proof.
  intros Hk Hp. destruct (key_groups_spec b fields mp kgs Hk) as (Hl & Hn & Hg).
  apply Forall_lookup. intros i [r g] (-> & Hi)%keyed_rows_lookup; [|done].
  rewrite Forall_lookup in Hg. pose proof (lookup_lt_Some _ _ _ Hi).
  split; [simpl; lia|]. apply destination_range; eauto. lia.
Qed.

Definition buckets (p : Z) (kgs : list Z) : list (list Z) :=
  map (fun d => rows_for mp p (Z.of_nat d) (keyed_rows b kgs)) (seq 0 (Z.to_nat p)).

Lemma routing_rows_spec p kgs :
  0 < p <= mp -> key_groups b fields mp = Ok kgs -> routing_rows b fields mp p = Ok (buckets p kgs).
Proof.
  intros Hp Hk. unfold routing_rows. apply run_local_Ok.
  rewrite (visit_key_groups_run b fields mp _ kgs) by done. rewrite push_buckets.
  - f_equal. apply list_eq. intros i. unfold buckets. rewrite list_lookup_imap.
    rewrite (list_lookup_fmap (fun d => rows_for mp p (Z.of_nat d) (keyed_rows b kgs))).
    destruct (decide (i < Z.to_nat p)%nat).
    + by rewrite lookup_replicate_2, lookup_seq_lt.
    + rewrite lookup_seq_ge by lia. rewrite lookup_ge_None_2 by (rewrite length_replicate; lia). done.
  - rewrite len_replicate, Z2Nat.id by lia. by apply keyed_rows_Forall.
Qed.

Lemma route_batch_Ok p rs :
  0 <= p -> route_batch b fields mp p = Ok rs ->
  0 < p <= mp /\ exists kgs, key_groups b fields mp = Ok kgs /\ rs = routed_batches b 0 (buckets p kgs).
Proof.
  intros Hp0. unfold route_batch, guard_ok. destruct (geometry_ok mp p) eqn:Eg; [|done].
  apply geometry_spec in Eg as [Hp _]; [|done]. rewrite outcome_bind_run. intros Hr. inv_M.
  simplify_eq. split; [done|].
  assert (exists kgs, key_groups b fields mp = Ok kgs) as [kgs Hk].
  { unfold routing_rows in E. apply run_local_Ok in E. by eapply visit_key_groups_Ok. }
  exists kgs. split; [done|]. rewrite routing_rows_spec with (kgs := kgs) in E by done. by simplify_eq.
Qed.

Lemma route_runs_spec kgs :
  key_groups b fields mp = Ok kgs ->
  exists runs, route_batch_by_key_group b fields mp = Ok runs /\ runs_ok b (keyed_rows b kgs) runs.
Proof.
  intros Hk. destruct (key_groups_spec b fields mp kgs Hk) as (Hl & Hn & Hg).
  assert (len (keyed_rows b kgs) = num_rows b) as Hlen.
  { pose proof (f_equal length (keyed_rows_fst b kgs Hl)) as Hf. rewrite length_fmap, row_numbers_len in Hf.
    unfold len. pose proof (num_rows_law b). lia. }
  destruct (push_runs b (keyed_rows b kgs) [] []) as (runs & Hr & Hok).
  - split; [done|constructor|done|done].
  - cbn [app]. by rewrite Hlen, keyed_rows_fst.
  - cbn [app]. lia.
  - exists (reverse runs). split; [|done]. unfold route_batch_by_key_group, guard_ok.
    destruct (Z.eqb_spec mp 0); [lia|]. rewrite (proj2 (Z.ltb_ge _ _)) by lia. cbn [orb negb].
    rewrite outcome_bind_run.
    assert (run_local (visit_key_groups (push_run b) b fields mp) [] = Ok runs) as ->; [|done].
    apply run_local_Ok. by rewrite (visit_key_groups_run b fields mp _ kgs).
Qed.

Lemma route_runs_Ok runs :
  route_batch_by_key_group b fields mp = Ok runs ->
  exists kgs, key_groups b fields mp = Ok kgs /\ runs_ok b (keyed_rows b kgs) runs.
Proof.
  intros Hr. assert (exists kgs, key_groups b fields mp = Ok kgs) as [kgs Hk].
  { unfold route_batch_by_key_group in Hr. inv_M. apply run_local_Ok in E0. by eapply visit_key_groups_Ok. }
  exists kgs. split; [done|]. destruct (route_runs_spec kgs Hk) as (runs' & Hr' & Hok). congruence.
Qed.

(** A run lies inside the batch and carries a valid key group. *)
Lemma runs_inside kgs runs r :
  key_groups b fields mp = Ok kgs -> runs_ok b (keyed_rows b kgs) runs -> r ∈ runs ->
  0 <= kg_start r /\ kg_start r + kg_len r <= num_rows b /\ 0 <= kg_key_group r < mp.
Proof.
  intros Hk [Hp Hpos _ _] Hin. destruct (key_groups_spec b fields mp kgs Hk) as (Hl & _ & Hg).
  rewrite Forall_forall in Hpos. destruct (Hpos r Hin) as [Hlen _].
  assert (forall i, (i < Z.to_nat (kg_len r))%nat ->
    (kg_start r + Z.of_nat i, kg_key_group r) ∈ keyed_rows b kgs) as Hmem.
  { intros i Hi. rewrite <- Hp. apply list_elem_of_In, in_concat. exists (run_pairs r). split.
    - apply in_map. by apply list_elem_of_In.
    - unfold run_pairs, run_rows. rewrite map_map. apply in_map_iff. exists i. split; [done|apply in_seq; lia]. }
  assert (forall i, (i < Z.to_nat (kg_len r))%nat ->
    0 <= kg_start r + Z.of_nat i < num_rows b /\ 0 <= kg_key_group r < mp) as Hin2.
  { intros i Hi. specialize (Hmem i Hi). apply list_elem_of_lookup in Hmem as [j Hj].
    apply keyed_rows_lookup in Hj as [-> Hj]; [|done]. pose proof (lookup_lt_Some _ _ _ Hj).
    rewrite Forall_lookup in Hg. split; [lia|]. eapply Hg, Hj. }
  pose proof (Hin2 0%nat ltac:(lia)). pose proof (Hin2 (Z.to_nat (kg_len r) - 1)%nat ltac:(lia)). lia.
Qed.
End routers.

(** ** Selections

    A frame seen as its tag and the row numbers it carries. *)

Definition rows_tagged (mp p d : Z) (sels : list (Z * list Z)) : list Z :=
  concat (map snd (filter (fun s => destination_of mp p s.1 = d) sels)).

Section selections.
Context `{ArrowLaws}.

Definition bucket_selections (mp p : Z) (rs : list RoutedBatch) : list (Z * list Z) :=
  map (fun r => (destination_tag mp p (destination r), rb_rows r)) rs.
Definition run_selections (runs : list KeyGroupBatch) : list (Z * list Z) :=
  map (fun r => (kg_key_group r, run_rows r)) runs.

(** Buckets from destination [k] on. *)
Lemma bucket_rows b mp p (F : Z -> list Z) d n k :
  0 < p <= mp -> mp <= 32768 -> 0 <= k -> k + Z.of_nat n <= p ->
  rows_tagged mp p d (bucket_selections mp p
    (routed_batches b k (map (fun i => F (Z.of_nat i)) (seq (Z.to_nat k) n)))) =
  if decide (k <= d < k + Z.of_nat n) then F d else [].
Proof.
  intros Hp Hmp. revert k. induction n as [|n IH]; intros k Hk Hkn.
  { rewrite decide_False by lia. done. }
  cbn [seq map routed_batches]. rewrite Z2Nat.id by lia.
  replace (S (Z.to_nat k)) with (Z.to_nat (k + 1)) by lia.
  specialize (IH (k + 1) ltac:(lia) ltac:(lia)).
  unfold rows_tagged, bucket_selections in *. rewrite map_app, filter_app, map_app, concat_app, IH.
  assert (concat (map snd (filter (fun s : Z * list Z => destination_of mp p s.1 = d)
    (map (fun r => (destination_tag mp p (destination r), rb_rows r))
      (if bool_decide (F k = []) then [] else [{| destination := wrapu 32 k; rb_batch := b; rb_rows := F k |}]))))
    = if decide (k = d) then F k else []) as ->.
  { destruct (bool_decide_reflect (F k = [])) as [Hnil|Hne].
    { rewrite Hnil. by destruct (decide (k = d)). }
    cbn [map destination rb_rows]. rewrite wrapu_small by lia. rewrite filter_cons. cbn [fst].
    rewrite destination_of_tag by lia.
    destruct (decide (k = d)); [|done]. rewrite filter_nil. cbn [map concat snd]. by rewrite app_nil_r. }
  destruct (decide (k = d)) as [->|].
  - rewrite (decide_True (P := d <= d < d + Z.of_nat (S n))) by lia. rewrite decide_False by lia. by rewrite app_nil_r.
  - cbn [app]. destruct (decide (k + 1 <= d < k + 1 + Z.of_nat n)).
    + by rewrite decide_True by lia.
    + by rewrite decide_False by lia.
Qed.

Lemma run_rows_tagged mp p d runs pairs b :
  runs_ok b pairs runs -> rows_tagged mp p d (run_selections runs) = rows_for mp p d pairs.
Proof.
  intros [<- _ _ _]. rewrite runs_rows_for. unfold rows_tagged, run_selections. f_equal.
  induction runs as [|r runs IH]; [done|]. cbn [map]. rewrite !filter_cons. cbn [fst].
  destruct (decide _); cbn [map snd]; by rewrite IH.
Qed.
End selections.

(** The batches of a bucket router: their rows lie inside the batch. *)
Lemma routed_batches_inside `{ArrowLaws} b fields mp p kgs :
  0 < p <= mp -> mp <= 32768 -> key_groups b fields mp = Ok kgs ->
  forall r, r ∈ routed_batches b 0 (buckets b mp p kgs) ->
    rb_batch r = b /\ Forall (fun i => 0 <= i < num_rows b) (rb_rows r) /\ 0 <= destination r < p.
Proof.
  intros Hp Hmp Hk. destruct (key_groups_spec b fields mp kgs Hk) as (Hl & _ & _).
  assert (Forall (Forall (fun i => 0 <= i < num_rows b)) (buckets b mp p kgs)) as Hall.
  { apply Forall_forall. intros rows (d & -> & _)%list_elem_of_fmap. apply Forall_forall.
    intros i ([r g] & -> & [_ (j & Hj)%list_elem_of_lookup]%list_elem_of_filter)%list_elem_of_fmap.
    apply keyed_rows_lookup in Hj as [-> Hj]; [|done]. apply lookup_lt_Some in Hj. simpl. lia. }
  assert (len (buckets b mp p kgs) = p) as Hlen.
  { unfold buckets, len. rewrite length_map, length_seq. lia. }
  assert (forall bs k, 0 <= k -> k + len bs <= p -> Forall (Forall (fun i => 0 <= i < num_rows b)) bs ->
    forall r, r ∈ routed_batches b k bs ->
      rb_batch r = b /\ Forall (fun i => 0 <= i < num_rows b) (rb_rows r) /\ 0 <= destination r < p) as Hgen;
    [|apply Hgen; [done|lia|done]].
  induction bs as [|rows bs IH]; intros k Hk0 Hkp Hbs r Hr; [by apply elem_of_nil in Hr|].
  apply Forall_cons in Hbs as [Hrows Hbs]. rewrite len_cons in Hkp. pose proof (len_nonneg bs).
  cbn [routed_batches] in Hr. apply elem_of_app in Hr as [Hr|Hr]; [|eapply (IH (k + 1)); done || lia].
  destruct (bool_decide (rows = [])); [by apply elem_of_nil in Hr|].
  apply list_elem_of_singleton in Hr as ->. cbn. rewrite wrapu_small by lia. split_and!; [done..|lia|lia].
Qed.

(** ** Frames *)

Section frames.
Context `{HA : Arrow} `{HAL : !ArrowLaws} `{HI : !ArrowIpc} `{HIL : !ArrowIpcLaws}.

(** The rows a frame decodes to under the negotiated schema. *)
Definition frame_rows (schema : Schema) (f : RoutedFrame) : list (list Cell) :=
  match frame_decode (rf_frame f) schema with Ok b => batch_rows b | _ => [] end.

Lemma frame_encode_decode b f :
  frame_encode b = Ok f ->
  exists b', frame_decode f (batch_schema b) = Ok b' /\ batch_rows b' = batch_rows b.
Proof.
  unfold frame_encode. intros Hf. inv_M. destruct a as [[dicts md] bd]. unfold guard_ok in Hf.
  destruct (bool_decide_reflect (dicts = [])) as [->|]; [|done]. rewrite outcome_bind_run in Hf. simplify_eq.
  destruct (ipc_law b md bd E) as (m & h & b' & Hm & Hh & Hr & Hrows).
  exists b'. split; [|done]. unfold frame_decode, parse_batch. cbn [metadata body].
  rewrite Hm. cbn [ok_or]. by rewrite outcome_bind_run, Hh.
Qed.

Lemma materialize_schema b rows cc pr b' :
  project_columns b cc = Ok pr -> materialize b rows cc = Ok b' -> batch_schema b' = batch_schema pr.
Proof.
  intros Hp. unfold materialize. rewrite Hp, outcome_bind_run. destruct rows as [|r rows].
  { intros [= <-]. apply slice_schema_law. }
  destruct (_ && _); [intros [= <-]; apply slice_schema_law|].
  intros Hm. inv_M. by eapply with_columns_schema_law.
Qed.

Lemma run_materialize_schema r cc pr b' :
  project_columns (kg_batch r) cc = Ok pr -> run_materialize r cc = Ok b' -> batch_schema b' = batch_schema pr.
Proof.
  intros Hp. unfold run_materialize. rewrite Hp, outcome_bind_run. intros [= <-]. apply slice_schema_law.
Qed.

Context `{FrameMemory Mem}.

Lemma encode_frame_Ok kg mat s f s' :
  encode_frame kg mat s = (Ok f, s') ->
  rf_key_group f = kg /\ exists b, mat = Ok b /\ frame_rows (batch_schema b) f = batch_rows b.
Proof.
  unfold encode_frame. intros Hf. inv_M. unfold lift in *. simplify_eq. cbn [rf_key_group].
  split; [done|]. eexists. split; [done|]. unfold frame_rows. cbn [rf_frame].
  match goal with E : frame_encode _ = Ok _ |- _ => destruct (frame_encode_decode _ _ E) as (b' & -> & Hb) end.
  done.
Qed.

(** Frames and selections, one by one. *)
Definition carries (b : Batch) (cc : Z) (schema : Schema) (s : Z * list Z) (f : RoutedFrame) : Prop :=
  rf_key_group f = s.1 /\ frame_rows schema f = selected b cc s.2.

Lemma carries_tagged b cc schema mp p d sels frames :
  Forall2 (carries b cc schema) sels frames ->
  concat (map (frame_rows schema) (filter (fun f => destination_of mp p (rf_key_group f) = d) frames)) =
    selected b cc (rows_tagged mp p d sels).
Proof.
  intros Hc. unfold rows_tagged. induction Hc as [|s f sels frames [Ht Hr] _ IH]; [done|].
  rewrite !filter_cons, Ht. destruct (decide _); [|done].
  cbn [map concat]. unfold selected in *. by rewrite map_app, <- IH, Hr.
Qed.

Lemma collect_carries {A} b cc schema (tag : A -> Z) (rows : A -> list Z) (mat : A -> outcome Batch) l s frames s' :
  (forall x, x ∈ l -> exists b', mat x = Ok b' /\ batch_schema b' = schema /\ batch_rows b' = selected b cc (rows x)) ->
  collectM (fun x => encode_frame (tag x) (mat x)) l s = (Ok frames, s') ->
  Forall2 (carries b cc schema) (map (fun x => (tag x, rows x)) l) frames.
Proof.
  intros Hmat Hc%collectM_Ok. induction Hc as [|x f l frames (s1 & s2 & Hx) _ IH]; [constructor|].
  cbn [map]. constructor; [|apply IH; intros y Hy; apply Hmat; by right].
  destruct (Hmat x ltac:(by left)) as (b' & Hb & <- & Hr).
  apply encode_frame_Ok in Hx as [Ht (b2 & Hb2 & Hr2)]. split; [done|]. cbn [snd]. congruence.
Qed.
End frames.

(** Both modes produce frames for selections that cover each destination. *)
Lemma framed_selections `{HA : Arrow} `{!ArrowLaws} `{!ArrowIpc} `{!ArrowIpcLaws} `{FrameMemory Mem}
    b fields mp p preserve cc pr m frames m' :
  0 < p <= mp -> mp <= 32768 -> 0 < cc <= num_columns b -> project_columns b cc = Ok pr ->
  frame_hash_exchange_batch_accounted b fields mp p preserve cc m = (Ok frames, m') ->
  exists kgs sels, key_groups b fields mp = Ok kgs /\ Forall2 (carries b cc (batch_schema pr)) sels frames /\
    Forall (fun s => 0 <= s.1 < mp) sels /\
    forall d, 0 <= d < p -> rows_tagged mp p d sels = rows_for mp p d (keyed_rows b kgs).
Proof.
  intros Hp Hmp Hcc Hpr Hf. unfold frame_hash_exchange_batch_accounted in Hf. destruct preserve.
  - apply M_bind_Ok in Hf as (runs & m1 & [= Hr _] & Hf).
    apply route_runs_Ok in Hr as (kgs & Hk & Hok); [|lia].
    exists kgs, (run_selections runs). pose proof (runs_inside b fields mp kgs runs) as Hin.
    pose proof (ro_pos _ _ _ Hok) as Hpos. rewrite Forall_forall in Hpos.
    split_and!; [done| | |intros d _; by eapply run_rows_tagged].
    + apply (collect_carries b cc (batch_schema pr) kg_key_group run_rows
        (fun r => run_materialize r cc) runs m1 frames m'); [|done].
      intros r Hr. destruct (Hpos r Hr) as [Hl Hb].
      destruct (Hin r Hk Hok Hr) as (Hs & Hsl & _).
      destruct (run_materialize_spec r cc) as (b' & Hb' & Hrows); rewrite ?Hb; try lia.
      exists b'. rewrite Hb in Hrows. split_and!; [done| |done].
      eapply run_materialize_schema; [|done]. by rewrite Hb.
    + apply Forall_forall. intros s (r & -> & Hr)%list_elem_of_fmap. by apply (Hin r).
  - apply M_bind_Ok in Hf as (rs & m1 & [= Hr _] & Hf).
    apply route_batch_Ok in Hr as (_ & kgs & Hk & ->); [|lia|lia].
    exists kgs, (bucket_selections mp p (routed_batches b 0 (buckets b mp p kgs))).
    pose proof (routed_batches_inside b fields mp p kgs Hp Hmp Hk) as Hin.
    split_and!; [done| | |].
    + apply (collect_carries b cc (batch_schema pr) (fun r => destination_tag mp p (destination r)) rb_rows
        (fun r => routed_materialize r cc) _ m1 frames m'); [|done].
      intros r Hr. destruct (Hin r Hr) as (Hb & Hrows & _).
      destruct (materialize_spec b (rb_rows r) cc) as (b' & Hb' & Hsel); [done..|].
      exists b'. unfold routed_materialize. rewrite Hb. split_and!; [done| |done].
      by eapply materialize_schema.
    + apply Forall_forall. intros s (r & -> & Hr)%list_elem_of_fmap. destruct (Hin r Hr) as (_ & _ & Hd).
      by apply destination_tag_range.
    + intros d Hd. pose proof (bucket_rows b mp p (fun d => rows_for mp p d (keyed_rows b kgs)) d
        (Z.to_nat p) 0 Hp Hmp) as Hb. rewrite Z2Nat.id in Hb by lia. rewrite decide_True in Hb by lia.
      by apply Hb; lia.
Qed.

(** C13: Take a batch, key fields, a valid geometry and a number of transport
    columns. When framing returns, in either mode and with any frame memory, all
    keys could be computed; every frame is tagged with a key group below the
    maximum parallelism; and for every destination the frames whose tag selects
    it decode, in the order they were produced, to exactly the rows of that
    destination in input order, cut to the transport columns. No row is lost,
    duplicated, reordered within its channel or sent to another channel. *)
Theorem exchange_delivers_rows `{HA : Arrow} `{!ArrowLaws} `{!ArrowIpc} `{!ArrowIpcLaws} `{FrameMemory Mem}
    b fields mp p preserve cc pr m frames m' :
  0 < p <= mp -> mp <= 32768 -> 0 < cc <= num_columns b -> project_columns b cc = Ok pr ->
  frame_hash_exchange_batch_accounted b fields mp p preserve cc m = (Ok frames, m') ->
  exists kgs, key_groups b fields mp = Ok kgs /\
    Forall (fun f => 0 <= rf_key_group f < mp) frames /\
    forall d, 0 <= d < p ->
      concat (map (frame_rows (batch_schema pr))
                (filter (fun f => destination_of mp p (rf_key_group f) = d) frames)) =
      selected b cc (rows_for mp p d (keyed_rows b kgs)).
Proof.
  intros Hp Hmp Hcc Hpr Hf.
  destruct (framed_selections b fields mp p preserve cc pr m frames m')
    as (kgs & sels & Hk & Hsel & Htags & Hd); [done..|].
  exists kgs. split; [done|]. split.
  - clear -Hsel Htags. induction Hsel as [|s f sels frames [Ht _] _ IH]; [constructor|].
    apply Forall_cons in Htags as [? ?]. constructor; [by rewrite Ht|auto].
  - intros d Hdp. by rewrite (carries_tagged b cc _ mp p d sels frames Hsel), Hd.
Qed.

(** ** No panic *)

Section safe.
Context `{HA : Arrow} `{HAL : !ArrowLaws} `{HI : !ArrowIpc} `{HIL : !ArrowIpcLaws}.
Context (b : Batch) (fields : list (Z * KeyField)) (mp : Z).
Context (Hmp : 0 < mp <= 32768) (Hf : Forall (fun f => 0 <= f.1) fields).

Lemma preencoded_column_no_panic :
  existsb (fun f => num_columns b <=? f.1) fields = false ->
  preencoded_column b fields <> Panic /\
  forall pre, preencoded_column b fields = Ok pre -> pre = None -> existsb is_preencoded fields = false.
Proof.
  intros Hcols. unfold preencoded_column. destruct (existsb is_preencoded fields) eqn:Ep; [|done].
  destruct fields as [|[c k] [|f fs]]; [done| |done].
  rewrite Forall_singleton in Hf. cbn [existsb fst] in *. rewrite orb_false_r in Hcols.
  destruct (column_total b c ltac:(lia)) as [a Ha]. rewrite Ha, outcome_bind_run.
  destruct (as_bytes BinaryArray a); simpl; [|done]. split; [done|]. by intros pre [= <-].
Qed.

Lemma visit_rows_holds {V} (visit : Z -> Z -> M V unit) (I : V -> Prop) pre scratch rows :
  existsb (fun f => num_columns b <=? f.1) fields = false ->
  (pre = None -> existsb is_preencoded fields = false) ->
  (forall row g, 0 <= g < mp -> holds I (visit row g) (fun _ => I)) ->
  Forall (fun r => 0 <= r < num_rows b) rows ->
  holds I (visit_rows visit b fields mp pre scratch rows) (fun _ => I).
Proof.
  intros Hcols Hpre Hv Hrows. revert scratch. induction Hrows as [|row rows Hr _ IH]; intros scratch; cbn [visit_rows].
  { by apply holds_ret. }
  apply (holds_bind _ _ _ (fun ks v => len ks.1 mod 4 = 0 /\ I v)).
  - destruct pre as [[a keys]|].
    + apply (holds_bind _ _ _ (fun _ => I)); [by apply holds_when|]. intros _.
      apply (holds_bind _ _ _ (fun _ v => len (keys row) mod 4 = 0 /\ I v)).
      { apply holds_when. intros E v HIv. split; [|done]. by apply negb_false_iff, Z.eqb_eq in E. }
      intros _. by apply holds_ret.
    + assert (Forall (fun f => 0 <= f.1 < num_columns b) fields) as Hin.
      { apply Forall_forall. intros f Hfin. rewrite Forall_forall in Hf. split; [auto|].
        apply not_true_iff_false in Hcols. apply Z.nle_gt. intros Hle. apply Hcols.
        apply existsb_exists. exists f. split; [by apply list_elem_of_In|by apply Z.leb_le]. }
      pose proof (encode_flat_holds b row fields scratch Hr Hin (Hpre eq_refl)) as He.
      destruct (encode_binary_row_into b row fields scratch) as [[u|e|] out]; [|by intros v|done].
      intros v HIv. destruct He as [_ He]. change (len out mod 4 = 0 /\ I v). split; [|done].
      apply Z.mod_divide; [lia|]. apply Z.mod_divide in He as [k ->]; [|lia]. exists (2 * k). lia.
  - intros [key scr]. cbn [fst]. intros v [Hk HIv].
    destruct (assign_key_group_total key mp Hk Hmp) as (g & Hg & Hgr).
    rewrite (M_bind_run _ _ _ g v) by by unfold lift; rewrite Hg.
    refine (holds_bind I _ _ (fun _ => I) (fun _ => I) _ _ v HIv); [by apply Hv|]. intros _. apply IH.
Qed.

Lemma visit_key_groups_holds {V} (visit : Z -> Z -> M V unit) (I : V -> Prop) :
  (forall row g, 0 <= g < mp -> holds I (visit row g) (fun _ => I)) ->
  holds I (visit_key_groups visit b fields mp) (fun _ => I).
Proof.
  intros Hv. unfold visit_key_groups.
  apply (holds_bind _ _ _ (fun _ => I)); [by apply holds_when|]. intros _.
  apply (holds_bind _ _ _ (fun _ v => existsb (fun f => num_columns b <=? f.1) fields = false /\ I v)).
  { apply holds_when. by intros. }
  intros _ v [Hcols HIv]. destruct (preencoded_column_no_panic Hcols) as [Hp Hn].
  revert v HIv. apply (holds_bind _ _ _ (fun pre v => (pre = None -> existsb is_preencoded fields = false) /\ I v)).
  { apply holds_lift; [done|]. intros pre v Hpre HIv. split; [|done]. by apply Hn. }
  intros pre v [Hpre HIv]. revert v HIv. apply visit_rows_holds; try done.
  apply Forall_forall. intros r [i Hi]%list_elem_of_lookup. apply row_numbers_lookup in Hi as [-> Hi]. lia.
Qed.

Lemma run_local_no_panic {V} (m : M V unit) (I : V -> Prop) v :
  holds I m (fun _ => I) -> I v -> run_local m v <> Panic.
Proof. intros Hm Hv. specialize (Hm v Hv). unfold run_local. by destruct (m v) as [[]]. Qed.
End safe.

Lemma project_columns_no_panic `{ArrowLaws} b cc : 0 <= cc -> project_columns b cc <> Panic.
Proof.
  intros Hcc. destruct (decide (cc <= num_columns b)).
  - destruct (project_columns_spec b cc ltac:(lia)) as (pr & -> & _). done.
  - destruct (project_columns_wide b cc ltac:(lia)) as [e ->]. done.
Qed.

Lemma outcome_bind_no_panic {A B} (o : outcome A) (k : A -> outcome B) :
  o <> Panic -> (forall a, o = Ok a -> k a <> Panic) -> o ≫= k <> Panic.
Proof. intros Ho Hk. destruct o; unfold_M; auto. Qed.

Lemma collect_no_panic {A B} (f : A -> outcome B) l : (forall x, f x <> Panic) -> collect f l <> Panic.
Proof.
  intros Hf. induction l as [|x l IH]; [done|]. cbn [collect].
  apply outcome_bind_no_panic; [done|]. intros y _. by apply outcome_bind_no_panic.
Qed.

Lemma collectM_safe {S A B} (f : A -> M S B) l : (forall x, safe (f x)) -> safe (collectM f l).
Proof. intros Hf. induction l as [|x l IH]; cbn [collectM]; auto with sf. Qed.

Lemma safe_lift {S A} (o : outcome A) : o <> Panic -> @safe S A (lift o).
Proof. by intros Ho s. Qed.
#[export] Hint Resolve safe_lift : sf.

(** Framing an arbitrary batch never panics: neither an empty batch, nor a
    geometry or column count out of range, a null or misaligned preencoded key,
    a key of the wrong type or an allocation refused by the frame memory does
    more than return an error. *)
Theorem exchange_never_panics `{HA : Arrow} `{!ArrowLaws} `{!ArrowIpc} `{!ArrowIpcLaws} `{FrameMemory Mem}
    b fields mp p preserve cc :
  safe (S := Mem) before_frame -> (forall f, safe (S := Mem) (retain_frame f)) ->
  Forall (fun f => 0 <= f.1) fields -> is_u32 mp -> is_u32 p -> 0 <= cc ->
  safe (S := Mem) (frame_hash_exchange_batch_accounted b fields mp p preserve cc).
Proof.
  intros Hbefore Hretain Hf Hmp Hp Hcc.
  assert (forall kg mat, mat <> Panic -> safe (S := Mem) (encode_frame kg mat)) as Henc.
  { intros kg mat Hmat. unfold encode_frame. apply safe_bind; [done|]. intros _. apply safe_bind; [by apply safe_lift|].
    intros b'. apply safe_bind; [|auto with sf]. apply safe_lift. unfold frame_encode.
    apply outcome_bind_no_panic; [apply ipc_generate_law|]. intros [[ds md] bd] _. unfold guard_ok.
    by destruct (bool_decide _). }
  unfold frame_hash_exchange_batch_accounted. destruct preserve; (apply safe_bind; [apply safe_lift|]).
  - unfold route_batch_by_key_group, guard_ok.
    destruct (Z.eqb_spec mp 0); [done|]. destruct (Z.ltb_spec 32768 mp); [done|]. cbn [orb negb].
    rewrite outcome_bind_run. apply outcome_bind_no_panic; [|done].
    apply (run_local_no_panic _ (fun _ => True)); [|done]. apply visit_key_groups_holds; [mlia|done|].
    intros row g _ runs _. unfold push_run. destruct runs as [|r runs]; [done|]. by destruct (_ =? _).
  - intros runs. apply collectM_safe. intros r. apply Henc. unfold run_materialize.
    apply outcome_bind_no_panic; [by apply project_columns_no_panic|done].
  - unfold route_batch, guard_ok. destruct (geometry_ok mp p) eqn:Eg; [|done].
    apply geometry_spec in Eg as [Hpm Hmax]; [|mlia]. rewrite outcome_bind_run.
    apply outcome_bind_no_panic; [|done]. unfold routing_rows.
    apply (run_local_no_panic _ (fun bs => len bs = p)); [|rewrite len_replicate; lia].
    apply visit_key_groups_holds; [lia|done|]. intros row g Hg bs Hbs. unfold push_bucket.
    pose proof (destination_range mp p Hpm Hmax g Hg).
    destruct (lookup_lt_is_Some_2 bs (Z.to_nat (destination_of mp p g))) as [x ->]; [unfold len in Hbs; lia|].
    unfold len in *. by rewrite length_insert.
  - intros rs. apply collectM_safe. intros r. apply Henc. unfold routed_materialize, materialize.
    apply outcome_bind_no_panic; [by apply project_columns_no_panic|]. intros pr _.
    destruct (rb_rows r) as [|x xs]; [done|]. destruct (_ && _); [done|].
    apply outcome_bind_no_panic; [apply collect_no_panic; intros; apply take_panic_law|].
    intros cs _. apply with_columns_panic_law.
Qed.
