(* ===== verification/ArrowFixture.v ===== *)
(** * A small Arrow implementation

    Nullable 32-bit and 8-bit integer, timestamp and binary columns, as lists: enough to show that
    the interface of [Arrow] and [Framing] has a model, and to run the exchange
    on concrete batches. *)

From Stdlib Require Import ZArith Lia Strings.Byte.
From stdpp Require Import base list option numbers strings.
From S2P Require Import Prelude Bytes KeyGroup Arrow BinaryRow Routing Framing.

Inductive carray : Type :=
  | CInt (vals : list (option Z))
  | CStamp (vals : list (option Z))
  | CKind (vals : list (option Z))
  | CBin (vals : list (option bytes)).
#[global] Instance carray_eq : EqDecision carray.
Proof. solve_decision. Defined.

Inductive ccell : Type := CNull | CZ (z : Z) | CB (bs : bytes).

Definition cval (v : option Z) : ccell := match v with Some z => CZ z | None => CNull end.
Definition cbin (v : option bytes) : ccell := match v with Some z => CB z | None => CNull end.

Definition clen (a : carray) : nat := match a with CInt l | CStamp l | CKind l => length l | CBin l => length l end.
Definition ctype (a : carray) : DataType := match a with CInt _ => DInt32 | CStamp _ => DTimestamp Millisecond | CKind _ => DInt8 | CBin _ => DBinary end.
Definition ccell_at (a : carray) (i : Z) : ccell :=
  match a with
  | CInt l | CStamp l | CKind l => cval (mjoin (l !! Z.to_nat i))
  | CBin l => cbin (mjoin (l !! Z.to_nat i))
  end.
Definition cnull (a : carray) (i : Z) : bool :=
  match ccell_at a i with CNull => true | _ => false end.

(** Exactly [n] rows from row [s] on. *)
Definition fit_list {A} (s n : nat) (l : list (option A)) : list (option A) :=
  map (fun i => mjoin (l !! (s + i)%nat)) (seq 0 n).
Definition fit (s n : nat) (a : carray) : carray :=
  match a with CInt l => CInt (fit_list s n l) | CStamp l => CStamp (fit_list s n l) | CKind l => CKind (fit_list s n l) | CBin l => CBin (fit_list s n l) end.

Definition pick_list {A} (rows : list Z) (l : list (option A)) : list (option A) :=
  map (fun r => mjoin (l !! Z.to_nat r)) rows.
Definition pick (rows : list Z) (a : carray) : carray :=
  match a with CInt l => CInt (pick_list rows l) | CStamp l => CStamp (pick_list rows l) | CKind l => CKind (pick_list rows l) | CBin l => CBin (pick_list rows l) end.

Record cbatch : Type := { crows : nat; craw : list carray }.
#[global] Instance cbatch_eq : EqDecision cbatch.
Proof. solve_decision. Defined.

Definition ccolumns (b : cbatch) : list carray := map (fit 0 (crows b)) (craw b).

#[global] Instance fixture_arrow : Arrow := {|
  Array := carray;
  data_type := ctype;
  array_len := fun a => Z.of_nat (clen a);
  is_null := cnull;
  as_fixed := fun c a =>
    match c, a with
    | Int32Array, CInt l => Some (fun i => wraps 32 (match mjoin (l !! Z.to_nat i) with Some z => z | None => 0 end))
    | Int8Array, CKind l => Some (fun i => wraps 8 (match mjoin (l !! Z.to_nat i) with Some z => z | None => 0 end))
    | TimestampMillisecondArray, CStamp l => Some (fun i => wraps 64 (match mjoin (l !! Z.to_nat i) with Some z => z | None => 0 end))
    | _, _ => None
    end;
  as_bytes := fun c a =>
    match c, a with
    | BinaryArray, CBin l => Some (fun i => match mjoin (l !! Z.to_nat i) with
                                            | Some v => if len v <=? I32_MAX then v else []
                                            | None => [] end)
    | _, _ => None
    end;
  as_list := fun _ => None;
  as_large_list := fun _ => None;
  as_fixed_list := fun _ => None;
  as_map := fun _ => None;
  as_struct := fun _ => None;
  array_take := fun a rows =>
    if forallb (fun r => (0 <=? r) && (r <? Z.of_nat (clen a))) rows
    then Ok (pick rows a) else Err (InvalidArgument "index out of bounds");
  Batch := cbatch;
  num_rows := fun b => Z.of_nat (crows b);
  columns := ccolumns;
  batch_slice := fun b s n =>
    {| crows := Z.to_nat n; craw := map (fit (Z.to_nat s) (Z.to_nat n)) (ccolumns b) |};
  project_to := fun b n => Ok {| crows := crows b; craw := take (Z.to_nat n) (craw b) |};
  with_columns := fun b cs =>
    match cs with
    | [] => Err (InvalidArgument "must either specify a row count or at least one column")
    | c :: _ =>
        if bool_decide (map ctype cs = map ctype (ccolumns b) /\ Forall (fun x => clen x = clen c) cs)
        then Ok {| crows := clen c; craw := cs |}
        else Err (InvalidArgument "column types must match schema types")
    end;
  Cell := ccell;
  array_cell := ccell_at;
|}.

(** ** The laws *)

Lemma fit_list_lookup {A} s n (l : list (option A)) i :
  (i < n)%nat -> mjoin (fit_list s n l !! i) = mjoin (l !! (s + i)%nat).
Proof.
  intros Hi. unfold fit_list. rewrite (list_lookup_fmap (fun i => mjoin (l !! (s + i)%nat))).
  rewrite lookup_seq_lt by done. done.
Qed.
Lemma pick_list_lookup {A} rows (l : list (option A)) i r :
  rows !! i = Some r -> mjoin (pick_list rows l !! i) = mjoin (l !! Z.to_nat r).
Proof.
  intros Hi. unfold pick_list. by rewrite (list_lookup_fmap (fun r => mjoin (l !! Z.to_nat r))), Hi.
Qed.
Lemma fit_len s n a : clen (fit s n a) = n.
Proof. destruct a; simpl; unfold fit_list; by rewrite length_map, length_seq. Qed.
Lemma fit_type s n a : ctype (fit s n a) = ctype a.
Proof. by destruct a. Qed.
Lemma fit_cell s n a i : 0 <= i < Z.of_nat n -> ccell_at (fit s n a) i = ccell_at a (Z.of_nat s + i).
Proof.
  intros Hi. replace (Z.to_nat (Z.of_nat s + i)) with (s + Z.to_nat i)%nat by lia.
  destruct a; simpl; rewrite fit_list_lookup by lia; by replace (Z.to_nat (Z.of_nat s + i)) with (s + Z.to_nat i)%nat by lia.
Qed.
Lemma fit_id a : fit 0 (clen a) a = a.
Proof.
  destruct a as [l|l|l|l]; simpl; f_equal; unfold fit_list; apply list_eq; intros i;
    rewrite (list_lookup_fmap (fun i => mjoin (l !! (0 + i)%nat)));
    (destruct (decide (i < length l)%nat) as [Hi|Hi];
      [rewrite lookup_seq_lt by done; destruct (lookup_lt_is_Some_2 l i Hi) as [x Hx]; simpl; by rewrite Hx
      |rewrite lookup_seq_ge, lookup_ge_None_2 by lia; done]).
Qed.

#[global] Instance fixture_arrow_laws : ArrowLaws.
Proof.
  split; simpl.
  - intros [] [l|l|l|l] v i Hv Hi; simplify_eq; apply wraps_range; lia.
  - intros [] [l|l|l|l] v i Hv; simplify_eq. destruct (mjoin _) as [x|]; [|done].
    destruct (Z.leb_spec (len x) I32_MAX); done.
  - done.
  - done.
  - done.
  - done.
  - done.
  - lia.
  - intros b. apply Forall_forall. intros a (x & -> & _)%list_elem_of_fmap. by rewrite fit_len.
  - lia.
  - intros b s n Hs Hn Hsn. split; [lia|]. unfold ccolumns. cbn [crows craw].
    rewrite Forall2_fmap_r. rewrite Forall2_fmap_r. apply Forall_Forall2_diag, Forall_forall.
    intros a _ i Hi. rewrite !fit_cell by lia. f_equal. lia.
  - intros b n Hn. eexists. split_and!; [done..|]. unfold ccolumns. cbn [crows craw]. by rewrite firstn_map.
  - intros a rows Hr. assert (forallb (fun r => (0 <=? r) && (r <? Z.of_nat (clen a))) rows = true) as ->.
    { apply forallb_forall. intros r Hin%list_elem_of_In. rewrite Forall_forall in Hr. specialize (Hr r Hin). lia. }
    eexists. split; [done|]. destruct a as [l|l|l|l]; simpl; unfold pick_list, len; rewrite length_map;
      (split_and!; [done..|]); intros i r Hi; rewrite Nat2Z.id; f_equal; by apply pick_list_lookup.
  - intros b n cs Hne Hcs. destruct cs as [|c cs]; [done|].
    assert (map ctype (c :: cs) = map ctype (ccolumns b)) as Ht.
    { clear Hne. induction Hcs as [|x y l k [Hxy _] _ IH]; [done|]. simpl. rewrite IH. by destruct x, y. }
    assert (Forall (fun x => Z.of_nat (clen x) = n) (c :: cs)) as Hl.
    { clear Hne Ht. induction Hcs as [|x y l k [_ Hy] _ IH]; constructor; done. }
    apply Forall_cons in Hl as [Hc Hl].
    assert (Forall (fun x => clen x = clen c) (c :: cs)) as Hl2.
    { constructor; [done|]. eapply Forall_impl; [done|]. simpl. lia. }
    rewrite bool_decide_eq_true_2 by done.
    eexists. split_and!; [done|done|]. unfold ccolumns. cbn [crows craw]. simpl. rewrite fit_id. f_equal.
    apply Forall_cons in Hl2 as [_ Hl2]. clear -Hl2.
    induction Hl2 as [|x l Hx _ IH]; [done|]. simpl. rewrite IH. f_equal. rewrite <- Hx. apply fit_id.
Qed.

(** ** IPC by reference

    A fixed list of batches stands for what was written: the message is the
    position of the batch. *)

Section ipc.
Context (known : list cbatch) (Hsmall : (length known <= 255)%nat).

Fixpoint position (b : cbatch) (l : list cbatch) : option nat :=
  match l with
  | [] => None
  | x :: l => if bool_decide (x = b) then Some O else S <$> position b l
  end.

Lemma position_lookup b l i : position b l = Some i -> l !! i = Some b.
Proof.
  revert i. induction l as [|x l IH]; intros i; simpl; [done|].
  destruct (bool_decide_reflect (x = b)) as [->|]; [by intros [= <-]|].
  intros (j & Hj & ->)%fmap_Some. by apply IH.
Qed.

Definition ipc_of : ArrowIpc := {|
  Schema := list DataType;
  batch_schema := fun b => map ctype (ccolumns b);
  Message := nat;
  Header := nat;
  ipc_generate := fun b =>
    match position b known with
    | Some i => Ok ([], to_vec [z2b (Z.of_nat i)], to_vec [])
    | None => Err (NotYetImplemented "unknown batch")
    end;
  root_as_message := fun bs => match bs with [x] => Some (Z.to_nat (b2z x)) | _ => None end;
  header_as_record_batch := Some;
  read_record_batch := fun _ h _ _ =>
    match known !! h with Some b => Ok b | None => Err (ParseError "no such batch") end;
|}.

Lemma ipc_of_laws : @ArrowIpcLaws fixture_arrow ipc_of.
Proof using Hsmall.
  split; simpl.
  - intros b. by destruct (position b known).
  - intros b md bd. destruct (position b known) as [i|] eqn:E; [|done]. intros [= <- <-]. simpl.
    apply position_lookup in E. exists i, i, b. pose proof (lookup_lt_Some _ _ _ E).
    rewrite b2z_z2b, Z.mod_small, Nat2Z.id by lia. by rewrite E.
  - intros b ds md bd. destruct (position b known) as [i|]; [|done]. intros [= <- <- <-].
    unfold vec_ok, to_vec, len. simpl. mlia.
  - intros b s n. unfold ccolumns. cbn [craw crows]. rewrite !map_map. apply map_ext. by intros [].
  - intros b cs b'. destruct cs as [|c cs]; [done|]. case_bool_decide as Hd; [|done]. intros [= <-].
    destruct Hd as [<- _]. unfold ccolumns. cbn [crows craw]. rewrite map_map. apply map_ext. by intros [].
  - intros b cs. destruct cs; [done|]. by case_bool_decide.
  - intros a rows. by destruct (forallb _ rows).
Qed.
End ipc.
