(* ===== verification/ExchangePlan.v ===== *)
(** * The exchange plan: [exchange/control.rs], [planner/expressions/null_literal.rs]

    The handshake a Flink exchange sends to the native router: the protobuf
    messages as records (decoding the wire format is [prost]'s), the validation
    of the plan, the Arrow types of Flink's logical types, and the lowering of
    the key columns to [KeyField]s. *)

From Stdlib Require Import ZArith Lia.
From stdpp Require Import base list option numbers strings.
From S2P Require Import Prelude Bytes KeyGroup Arrow BinaryRow BinaryRowSafe.

(** ** The messages *)

#[warnings="-register-all"]
Inductive Ty : Type :=
  | TyInteger | TyBigint | TyBoolean | TyVarchar | TyTinyint | TySmallint
  | TyFloat | TyDouble | TyBinary | TyDate
  | TyTime (precision : Z) | TyTimestamp (precision : Z) | TyTimestampLtz (precision : Z)
  | TyDecimal (precision scale : Z)
  | TyFixedBinary (length : Z) | TyFixedChar (length : Z)
  | TyArray (element : option LogicalType)
  | TyMap (key value : option LogicalType)
  | TyRow (fields : list (option LogicalType))
  | TyNull
with LogicalType : Type := Logical (nullable : bool) (ty : option Ty).

Definition lt_nullable (t : LogicalType) : bool := let 'Logical n _ := t in n.
Definition lt_type (t : LogicalType) : option Ty := let 'Logical _ ty := t in ty.

Record ExchangeMetadataColumns : Type := {
  row_kind_index : Z;
  stream_record_timestamp_index : option Z;
  routing_key_index : option Z;
}.
(** The schema is the list of its fields' types; names take no part. *)
Record NativeExchangePlan : Type := {
  protocol_version : Z;
  plan_schema : option (list (option LogicalType));
  distribution : Z;
  key_indices : list Z;
  max_parallelism : Z;
  transport : Z;
  metadata_columns : option ExchangeMetadataColumns;
  parallelism : Z;
  preserve_key_groups : bool;
  transport_routing_key : bool;
}.

Inductive ExchangeDistribution : Type := DistUnspecified | DistSingleton | DistHash.
Inductive ExchangeTransport : Type := TransportUnspecified | ArrowCStream | ArrowIpcStream.
#[global] Instance distribution_eq : EqDecision ExchangeDistribution.
Proof. solve_decision. Defined.
#[global] Instance transport_eq : EqDecision ExchangeTransport.
Proof. solve_decision. Defined.

(** [try_from(i32)] of the generated enumerations. *)
Definition distribution_of (n : Z) : option ExchangeDistribution :=
  if n =? 0 then Some DistUnspecified else if n =? 1 then Some DistSingleton
  else if n =? 2 then Some DistHash else None.
Definition transport_of (n : Z) : option ExchangeTransport :=
  if n =? 0 then Some TransportUnspecified else if n =? 1 then Some ArrowCStream
  else if n =? 2 then Some ArrowIpcStream else None.

(** ** Arrow types of logical types *)

Definition time_unit (precision : Z) : outcome TimeUnit :=
  if precision =? 0 then Ok Second
  else if (1 <=? precision) && (precision <=? 3) then Ok Millisecond
  else if (4 <=? precision) && (precision <=? 6) then Ok Microsecond
  else if (7 <=? precision) && (precision <=? 9) then Ok Nanosecond
  else Err (Plan "temporal precision is outside Flink's supported range").

Definition time_type (precision : Z) : outcome DataType :=
  unit ← time_unit precision;
  match unit with
  | Second => Ok (DTime32 Second)
  | Millisecond => Ok (DTime32 Millisecond)
  | Microsecond | Nanosecond => Ok (DTime64 unit)
  end.

Definition validate_length (length : Z) : outcome Z :=
  _ ← guard_ok (length <=? I32_MAX) (Plan "length is invalid");
  _ ← guard_ok (0 <? length) (Plan "length is invalid");
  Ok length.

Definition required_type {A} (o : option A) : outcome A := ok_or (Plan "type is missing") o.

Fixpoint type_data_type (t : LogicalType) : outcome DataType :=
  match t with
  | Logical _ ty =>
      match ty with
      | Some TyNull => Ok DNull
      | Some TyTinyint => Ok DInt8
      | Some TySmallint => Ok DInt16
      | Some TyInteger => Ok DInt32
      | Some TyBigint => Ok DInt64
      | Some TyFloat => Ok DFloat32
      | Some TyDouble => Ok DFloat64
      | Some TyBoolean => Ok DBoolean
      | Some TyVarchar => Ok DUtf8
      | Some (TyFixedChar length) => _ ← validate_length length; Ok DUtf8
      | Some TyBinary => Ok DBinary
      | Some (TyFixedBinary length) => length ← validate_length length; Ok (DFixedSizeBinary length)
      | Some TyDate => Ok DDate32
      | Some (TyTime precision) => time_type precision
      | Some (TyTimestamp precision) | Some (TyTimestampLtz precision) =>
          unit ← time_unit precision; Ok (DTimestamp unit)
      | Some (TyDecimal precision scale) =>
          _ ← guard_ok (precision <=? U8_MAX) (Plan "DECIMAL precision is invalid");
          _ ← guard_ok (scale <=? 127) (Plan "DECIMAL scale is invalid");
          _ ← guard_ok (negb ((precision =? 0) || (38 <? precision) || (scale <? 0)
                              || (precision <? scale)))
                (Plan "DECIMAL is outside Flink's supported range");
          Ok (DDecimal128 precision scale)
      | Some (TyArray element) =>
          match element with
          | None => Err (Plan "type is missing")
          | Some t => t ← type_data_type t; Ok (DList t)
          end
      | Some (TyMap key value) =>
          match key, value with
          | Some k, Some v =>
              k ← type_data_type k; v ← type_data_type v; Ok (DMap (DStruct [k; v]))
          | _, _ => Err (Plan "type is missing")
          end
      | Some (TyRow fields) =>
          ts ← (fix go (l : list (option LogicalType)) : outcome (list DataType) :=
                  match l with
                  | [] => Ok []
                  | None :: _ => Err (Plan "type is missing")
                  | Some t :: l => t ← type_data_type t; ts ← go l; Ok (t :: ts)
                  end) fields;
          Ok (DStruct ts)
      | None => Err (Plan "NULL literal type is not supported")
      end
  end.

(** The types of [planner::arrow_schema]. *)
Definition arrow_schema (fields : list (option LogicalType)) : outcome (list DataType) :=
  collect (fun t => t ← required_type t; type_data_type t) fields.

(** ** [exchange_key_fields] *)

(** [schema.fields[index]] panics outside the schema. *)
Definition field_type (fields : list (option LogicalType)) (index : Z) : outcome (option LogicalType) :=
  match fields !! Z.to_nat index with Some t => Ok t | None => Panic end.

Definition key_field (fields : list (option LogicalType)) (index : Z) : outcome (Z * KeyField) :=
  t ← field_type fields index;
  ty ← ok_or (Plan "exchange key does not have a logical type") (t ≫= lt_type);
  kind ← match ty with
         | TyBoolean => Ok KBoolean
         | TyTinyint => Ok TinyInt
         | TySmallint => Ok SmallInt
         | TyInteger => Ok Integer
         | TyBigint => Ok BigInt
         | TyFloat => Ok Float
         | TyDouble => Ok Double
         | TyFixedChar _ | TyVarchar => Ok KString
         | TyFixedBinary _ | TyBinary => Ok KBinary
         | TyDate => Ok Date
         | TyTime _ => Ok Time
         | TyTimestamp precision | TyTimestampLtz precision => Ok (Timestamp (wrapu 8 precision))
         | TyDecimal precision _ => Ok (Decimal (wrapu 8 precision))
         | TyArray _ | TyMap _ _ | TyRow _ =>
             schema ← arrow_schema fields;
             match schema !! Z.to_nat index with
             | Some t => from_arrow_type t
             | None => Panic
             end
         | TyNull => Err (Plan "exchange key type has no exact Flink BinaryRow encoding")
         end;
  Ok (index, kind).

Definition exchange_key_fields (plan : NativeExchangePlan) : outcome (list (Z * KeyField)) :=
  match metadata_columns plan ≫= routing_key_index with
  | Some index => Ok [(index, PreencodedBinaryRow)]
  | None =>
      schema ← ok_or (Plan "exchange schema is required") (plan_schema plan);
      collect (key_field schema) (key_indices plan)
  end.

(** ** [validate] *)

Definition reject (b : bool) (msg : string) : outcome unit := guard_ok (negb b) (Plan msg).

Definition type_is (nullable : bool) (which : Ty -> bool) (t : option LogicalType) : bool :=
  match t with
  | Some (Logical n (Some ty)) => Bool.eqb n nullable && which ty
  | _ => false
  end.
Definition is_tinyint (t : Ty) : bool := match t with TyTinyint => true | _ => false end.
Definition is_bigint (t : Ty) : bool := match t with TyBigint => true | _ => false end.

Definition validate_timestamp (fields : list (option LogicalType)) (meta : ExchangeMetadataColumns)
  : outcome unit :=
  match stream_record_timestamp_index meta with
  | None => Ok tt
  | Some index =>
      _ ← reject ((len fields <=? index) || (index =? row_kind_index meta))
            "exchange stream-record timestamp index is invalid";
      t ← field_type fields index;
      reject (negb (type_is true is_bigint t))
        "exchange stream-record timestamp metadata must be a nullable BIGINT"
  end.

Definition validate_routing_key (plan : NativeExchangePlan) (fields : list (option LogicalType))
    (dist : ExchangeDistribution) (meta : ExchangeMetadataColumns) : outcome unit :=
  match routing_key_index meta with
  | Some index =>
      _ ← reject (negb (bool_decide (dist = DistHash)))
            "exchange routing-key sidecar requires hash distribution";
      reject (negb (index =? len fields))
        "exchange routing-key sidecar must immediately follow the transport schema"
  | None =>
      reject (transport_routing_key plan
              && ((protocol_version plan <? 2) || negb (bool_decide (dist = DistHash))))
        "exchange cannot transport a missing routing-key sidecar"
  end.

Fixpoint validate_keys (fields : list (option LogicalType)) (meta : ExchangeMetadataColumns)
    (keys : list Z) : outcome unit :=
  match keys with
  | [] => Ok tt
  | index :: keys =>
      _ ← reject (len fields <=? index) "exchange key index is outside the schema";
      _ ← reject ((index =? row_kind_index meta)
                  || bool_decide (stream_record_timestamp_index meta = Some index))
            "exchange key index refers to a metadata column";
      validate_keys fields meta keys
  end.

Definition validate_distribution (plan : NativeExchangePlan) (fields : list (option LogicalType))
    (dist : ExchangeDistribution) (meta : ExchangeMetadataColumns) : outcome unit :=
  match dist with
  | DistHash =>
      _ ← reject (bool_decide (key_indices plan = [])) "hash exchange requires at least one key";
      _ ← reject ((max_parallelism plan =? 0) || (32768 <? max_parallelism plan))
            "hash exchange max parallelism is outside Flink's range";
      _ ← reject ((parallelism plan =? 0) || (max_parallelism plan <? parallelism plan))
            "hash exchange parallelism is outside the maximum";
      validate_keys fields meta (key_indices plan)
  | DistSingleton =>
      _ ← reject (negb (bool_decide (key_indices plan = [])))
            "singleton exchange must not define hash keys";
      reject (negb (max_parallelism plan =? 1) || negb (parallelism plan =? 1))
        "singleton exchange parallelism and max parallelism must both be one"
  | DistUnspecified => Err (Plan "exchange distribution is required")
  end.

Definition validate (plan : NativeExchangePlan) : outcome unit :=
  _ ← reject (negb ((protocol_version plan =? 1) || (protocol_version plan =? 2)))
        "unsupported StreamFusion exchange protocol version";
  dist ← ok_or (Plan "unknown exchange distribution") (distribution_of (distribution plan));
  trans ← ok_or (Plan "unknown exchange transport") (transport_of (transport plan));
  _ ← reject (bool_decide (trans = TransportUnspecified)) "exchange transport is required";
  fields ← ok_or (Plan "exchange schema is required") (plan_schema plan);
  meta ← ok_or (Plan "exchange row-kind metadata column is required") (metadata_columns plan);
  _ ← reject (len fields <=? row_kind_index meta) "exchange row-kind index is outside the schema";
  t ← field_type fields (row_kind_index meta);
  _ ← reject (negb (type_is false is_tinyint t))
        "exchange row-kind metadata must be a non-null TINYINT";
  _ ← validate_timestamp fields meta;
  _ ← validate_routing_key plan fields dist meta;
  validate_distribution plan fields dist meta.

(** [transport_schema]: the visible columns and the transported sidecar. *)
Definition transport_schema (plan : NativeExchangePlan) : outcome (list DataType) :=
  fields ← ok_or (Plan "exchange schema is required") (plan_schema plan);
  visible ← arrow_schema fields;
  Ok (if transport_routing_key plan then visible ++ [DBinary] else visible).

(** ** What a valid plan is *)

Record plan_valid (plan : NativeExchangePlan) (fields : list (option LogicalType))
    (meta : ExchangeMetadataColumns) : Prop := {
  pv_version : protocol_version plan = 1 \/ protocol_version plan = 2;
  pv_transport : transport plan = 1 \/ transport plan = 2;
  pv_schema : plan_schema plan = Some fields;
  pv_meta : metadata_columns plan = Some meta;
  (** The row kind is a non-null TINYINT column of the schema. *)
  pv_row_kind : fields !! Z.to_nat (row_kind_index meta) = Some (Some (Logical false (Some TyTinyint)));
  (** The timestamp, when there is one, is another, nullable BIGINT column. *)
  pv_timestamp i : stream_record_timestamp_index meta = Some i ->
    i <> row_kind_index meta /\ fields !! Z.to_nat i = Some (Some (Logical true (Some TyBigint)));
  (** A sidecar follows the schema, on a hash exchange; without one only
      protocol 2 may generate and transport a key. *)
  pv_sidecar i : routing_key_index meta = Some i -> distribution plan = 2 /\ i = len fields;
  pv_generated : routing_key_index meta = None -> transport_routing_key plan = true ->
    protocol_version plan = 2 /\ distribution plan = 2;
  (** Hash: keys of the schema that are not metadata, and Flink's geometry.
      Singleton: no keys and parallelism one. *)
  pv_distribution :
    (distribution plan = 2 /\ key_indices plan <> [] /\
       geometry_ok (max_parallelism plan) (parallelism plan) = true /\
       Forall (fun i => i < len fields /\ i <> row_kind_index meta /\
                        stream_record_timestamp_index meta <> Some i) (key_indices plan)) \/
    (distribution plan = 1 /\ key_indices plan = [] /\
       max_parallelism plan = 1 /\ parallelism plan = 1);
}.

(** Unsigned fields of the message. *)
Record plan_unsigned (plan : NativeExchangePlan) : Prop := {
  pu_mp : is_u32 (max_parallelism plan);
  pu_p : is_u32 (parallelism plan);
  pu_keys : Forall (fun i => 0 <= i) (key_indices plan);
  pu_meta meta : metadata_columns plan = Some meta -> 0 <= row_kind_index meta /\
    (forall i, stream_record_timestamp_index meta = Some i -> 0 <= i) /\
    (forall i, routing_key_index meta = Some i -> 0 <= i);
}.

Lemma reject_Ok b msg : reject b msg = Ok tt <-> b = false.
Proof. by destruct b. Qed.
Lemma reject_bind {A} b msg (k : unit -> outcome A) x :
  reject b msg ≫= k = Ok x <-> b = false /\ k tt = Ok x.
Proof. destruct b; unfold_M; naive_solver. Qed.
Lemma reject_no_panic b msg : reject b msg <> Panic.
Proof. by destruct b. Qed.
Lemma ok_or_bind {A B} e (o : option A) (k : A -> outcome B) x :
  ok_or e o ≫= k = Ok x <-> exists a, o = Some a /\ k a = Ok x.
Proof. destruct o; unfold_M; naive_solver. Qed.

Lemma type_is_spec n which t :
  type_is n which t = true <-> exists ty, t = Some (Logical n (Some ty)) /\ which ty = true.
Proof.
  destruct t as [[m [ty|]]|]; simpl; rewrite ?andb_true_iff, ?Bool.eqb_true_iff; naive_solver.
Qed.
Lemma is_tinyint_spec ty : is_tinyint ty = true <-> ty = TyTinyint.
Proof. by destruct ty. Qed.
Lemma is_bigint_spec ty : is_bigint ty = true <-> ty = TyBigint.
Proof. by destruct ty. Qed.

Lemma distribution_of_spec n d : distribution_of n = Some d <->
  n = (match d with DistUnspecified => 0 | DistSingleton => 1 | DistHash => 2 end).
Proof. unfold distribution_of. case_bool; destruct d; naive_solver lia. Qed.
Lemma transport_of_spec n t : transport_of n = Some t <->
  n = (match t with TransportUnspecified => 0 | ArrowCStream => 1 | ArrowIpcStream => 2 end).
Proof. unfold transport_of. case_bool; destruct t; naive_solver lia. Qed.

Lemma field_type_Ok fields i t : field_type fields i = Ok t <-> fields !! Z.to_nat i = Some t.
Proof. unfold field_type. destruct (fields !! Z.to_nat i); naive_solver. Qed.
Lemma field_type_inside fields i : 0 <= i < len fields -> field_type fields i <> Panic.
Proof.
  intros Hi. unfold field_type. destruct (lookup_lt_is_Some_2 fields (Z.to_nat i)) as [t ->]; [unfold len in Hi; lia|done].
Qed.

Lemma validate_keys_Ok fields meta keys :
  validate_keys fields meta keys = Ok tt <->
  Forall (fun i => i < len fields /\ i <> row_kind_index meta /\
                   stream_record_timestamp_index meta <> Some i) keys.
Proof.
  induction keys as [|i keys IH]; simpl; [split; [constructor|done]|].
  rewrite !reject_bind, IH, Forall_cons, Z.leb_gt, orb_false_iff, Z.eqb_neq, bool_decide_eq_false. tauto.
Qed.

Lemma lookup_inside (fields : list (option LogicalType)) i t : 0 <= i -> fields !! Z.to_nat i = Some t -> i < len fields.
Proof. intros ? Ht%lookup_lt_Some. unfold len. lia. Qed.

Section validation.
Context (plan : NativeExchangePlan) (Hu : plan_unsigned plan).

Lemma typed_column fields i n which (ty : Ty) :
  0 <= i -> (forall x, which x = true <-> x = ty) ->
  (i < len fields /\ exists t, field_type fields i = Ok t /\ type_is n which t = true) <->
  fields !! Z.to_nat i = Some (Some (Logical n (Some ty))).
Proof.
  intros Hi Hty. split.
  - intros (_ & t & Ht%field_type_Ok & (x & -> & Hx)%type_is_spec). by apply Hty in Hx as ->.
  - intros Ht. split; [by eapply lookup_inside|]. eexists. split; [by apply field_type_Ok|].
    apply type_is_spec. exists ty. by rewrite Hty.
Qed.

Lemma validate_timestamp_Ok fields meta :
  (forall i, stream_record_timestamp_index meta = Some i -> 0 <= i) ->
  validate_timestamp fields meta = Ok tt <->
  forall i, stream_record_timestamp_index meta = Some i ->
    i <> row_kind_index meta /\ fields !! Z.to_nat i = Some (Some (Logical true (Some TyBigint))).
Proof.
  intros Hpos. unfold validate_timestamp.
  destruct (stream_record_timestamp_index meta) as [i|]; [|split; [by intros _ i|done]].
  specialize (Hpos i eq_refl). rewrite reject_bind, orb_false_iff, Z.leb_gt, Z.eqb_neq.
  rewrite outcome_bind_Ok. setoid_rewrite reject_Ok. setoid_rewrite negb_false_iff.
  pose proof (typed_column fields i true is_bigint TyBigint Hpos is_bigint_spec) as Hc.
  split; [intros [[H1 H2] H3] j [= <-]; naive_solver|]. intros Hall. specialize (Hall i eq_refl). naive_solver.
Qed.

Lemma validate_routing_key_Ok fields dist meta :
  distribution_of (distribution plan) = Some dist ->
  protocol_version plan = 1 \/ protocol_version plan = 2 ->
  validate_routing_key plan fields dist meta = Ok tt <->
  (forall i, routing_key_index meta = Some i -> distribution plan = 2 /\ i = len fields) /\
  (routing_key_index meta = None -> transport_routing_key plan = true ->
     protocol_version plan = 2 /\ distribution plan = 2).
Proof.
  intros Hd%distribution_of_spec Hv. unfold validate_routing_key.
  assert (bool_decide (dist = DistHash) = (distribution plan =? 2)) as ->.
  { rewrite Hd. by destruct dist. }
  destruct (routing_key_index meta) as [i|].
  - rewrite reject_bind, reject_Ok, !negb_false_iff, !Z.eqb_eq. naive_solver.
  - rewrite reject_Ok. destruct (transport_routing_key plan); simpl; [|naive_solver].
    rewrite orb_false_iff, negb_false_iff, Z.ltb_ge, Z.eqb_eq. naive_solver lia.
Qed.

Lemma validate_distribution_Ok fields dist meta :
  distribution_of (distribution plan) = Some dist ->
  validate_distribution plan fields dist meta = Ok tt <->
    (distribution plan = 2 /\ key_indices plan <> [] /\
       geometry_ok (max_parallelism plan) (parallelism plan) = true /\
       Forall (fun i => i < len fields /\ i <> row_kind_index meta /\
                        stream_record_timestamp_index meta <> Some i) (key_indices plan)) \/
    (distribution plan = 1 /\ key_indices plan = [] /\
       max_parallelism plan = 1 /\ parallelism plan = 1).
Proof using Hu.
  intros Hd%distribution_of_spec. destruct Hu as [Hmp Hp _ _]. unfold is_u32 in *.
  rewrite Hd. unfold validate_distribution. destruct dist.
  - naive_solver lia.
  - rewrite reject_bind, reject_Ok, negb_false_iff, bool_decide_eq_true, orb_false_iff, !negb_false_iff, !Z.eqb_eq.
    naive_solver lia.
  - rewrite !reject_bind, validate_keys_Ok, bool_decide_eq_false, !orb_false_iff, !Z.eqb_neq, !Z.ltb_ge.
    rewrite geometry_spec by lia. split.
    + intros (Hk & [Hm1 Hm2] & [Hp1 Hp2] & Hkeys). left. split_and!; [done|done|lia..|done].
    + intros [(_ & Hk & [[Hp1 Hp2] Hm] & Hkeys)|[? _]]; [|done]. split_and!; [done|lia..|done].
Qed.

Lemma validate_Ok :
  validate plan = Ok tt <-> exists fields meta, plan_valid plan fields meta.
Proof using Hu.
  unfold validate. rewrite reject_bind, negb_false_iff, orb_true_iff, !Z.eqb_eq, ok_or_bind.
  setoid_rewrite ok_or_bind. setoid_rewrite reject_bind. setoid_rewrite ok_or_bind. setoid_rewrite ok_or_bind.
  setoid_rewrite reject_bind. setoid_rewrite outcome_bind_Ok. setoid_rewrite reject_bind.
  setoid_rewrite outcome_bind_Ok. setoid_rewrite outcome_bind_Ok. split.
  - intros (Hv & dist & Hd & trans & Ht & Hts & fields & Hs & meta & Hm & Hrk & t & Hft & Hty & [] & Hstamp & [] & Hroute & Hdist).
    exists fields, meta. destruct (pu_meta _ Hu meta Hm) as (H0 & H1 & H2).
    rewrite (validate_timestamp_Ok fields meta H1) in Hstamp. apply validate_routing_key_Ok in Hroute as [Hr1 Hr2]; [|done..].
    apply validate_distribution_Ok in Hdist; [|done].
    apply transport_of_spec in Ht. apply bool_decide_eq_false in Hts.
    split; try done.
    + destruct trans; auto; done.
    + apply (typed_column fields _ false is_tinyint TyTinyint H0 is_tinyint_spec).
      split; [by apply Z.leb_gt|]. exists t. split; [done|by apply negb_false_iff].
  - intros (fields & meta & [Hv Ht Hs Hm Hrk Hstamp Hr1 Hr2 Hdist]).
    destruct (pu_meta _ Hu meta Hm) as (H0 & H1 & H2). split; [done|].
    apply (typed_column fields _ false is_tinyint TyTinyint H0 is_tinyint_spec) in Hrk as (Hlt & t & Hft & Hty).
    assert (exists dist, distribution_of (distribution plan) = Some dist) as [dist Hd].
    { destruct Hdist as [[-> _]|[-> _]]; by eexists. }
    exists dist. split; [done|].
    assert (exists trans, transport_of (transport plan) = Some trans /\ trans <> TransportUnspecified) as (trans & Htr & Htn).
    { destruct Ht as [-> | ->]; by eexists. }
    exists trans. split; [done|]. split; [by apply bool_decide_eq_false|].
    exists fields. split; [done|]. exists meta. split; [done|]. split; [by apply Z.leb_gt|].
    exists t. split; [done|]. split; [by apply negb_false_iff|].
    exists tt. split; [by rewrite validate_timestamp_Ok|].
    exists tt. split; [by apply validate_routing_key_Ok|by apply validate_distribution_Ok].
Qed.
End validation.

(** ** Lowering the keys *)

Lemma bind_no_panic {A B} (o : outcome A) (k : A -> outcome B) :
  o <> Panic -> (forall a, o = Ok a -> k a <> Panic) -> o ≫= k <> Panic.
Proof. intros Ho Hk. destruct o; unfold_M; auto. Qed.
Lemma ok_or_no_panic {A} e (o : option A) : ok_or e o <> Panic.
Proof. by destruct o. Qed.
#[local] Hint Resolve reject_no_panic ok_or_no_panic field_type_inside : sf.

Lemma validate_keys_no_panic fields meta keys : validate_keys fields meta keys <> Panic.
Proof.
  induction keys as [|i keys IH]; [done|]. cbn [validate_keys].
  apply bind_no_panic; [auto with sf|intros _ _]. apply bind_no_panic; auto with sf.
Qed.

Lemma validate_timestamp_no_panic fields meta :
  (forall i, stream_record_timestamp_index meta = Some i -> 0 <= i) -> validate_timestamp fields meta <> Panic.
Proof.
  intros Hpos. unfold validate_timestamp. destruct (stream_record_timestamp_index meta) as [i|]; [|done].
  apply bind_no_panic; [auto with sf|]. intros [] [Hi _]%reject_Ok%orb_false_iff.
  apply bind_no_panic; [|auto with sf]. specialize (Hpos i eq_refl). apply Z.leb_gt in Hi. auto with sf.
Qed.

Lemma validate_plan_no_panic plan : plan_unsigned plan -> validate plan <> Panic.
Proof.
  intros Hu. unfold validate.
  apply bind_no_panic; [auto with sf|intros _ _]. apply bind_no_panic; [auto with sf|intros dist _].
  apply bind_no_panic; [auto with sf|intros trans _]. apply bind_no_panic; [auto with sf|intros _ _].
  apply bind_no_panic; [auto with sf|intros fields _].
  destruct (metadata_columns plan) as [meta|] eqn:Hm; [|done]. cbn [ok_or]. rewrite outcome_bind_run.
  destruct (pu_meta _ Hu meta Hm) as (H0 & H1 & _).
  apply bind_no_panic; [auto with sf|intros [] Hrk%reject_Ok]. apply Z.leb_gt in Hrk.
  apply bind_no_panic; [auto with sf|intros t _]. apply bind_no_panic; [auto with sf|intros _ _].
  apply bind_no_panic; [by apply validate_timestamp_no_panic|intros _ _]. apply bind_no_panic; [|intros _ _].
  - unfold validate_routing_key. destruct (routing_key_index meta); [|auto with sf].
    apply bind_no_panic; auto with sf.
  - unfold validate_distribution. destruct dist; [done| |].
    + apply bind_no_panic; auto with sf.
    + do 3 (apply bind_no_panic; [auto with sf|intros _ _]). apply validate_keys_no_panic.
Qed.

(** *** Key types and Arrow types *)

Lemma time_unit_precision p u :
  time_unit p = Ok u -> 0 <= p <= 9 /\ (p <=? 3) = (unit_precision u <=? 3).
Proof. unfold time_unit. case_bool; simpl; intros [= <-]; simpl; split; lia || done. Qed.

Lemma decimal_type_precision n p s t :
  type_data_type (Logical n (Some (TyDecimal p s))) = Ok t -> 0 <= p -> t = DDecimal128 p s /\ p <= 38.
Proof.
  simpl. unfold guard_ok. case_bool; simpl; intros [= <-]; simpl; lia || done.
Qed.

(** Two key types with the same encoding. *)
Definition same_key (k k' : KeyField) : Prop :=
  match k, k' with
  | Timestamp p, Timestamp q => (p <=? 3) = (q <=? 3)
  | _, _ => k = k'
  end.

Lemma same_key_refl k : same_key k k.
Proof. by destruct k. Qed.
Lemma same_key_write `{Arrow} k k' w pos a row : same_key k k' -> write_value w pos a row k = write_value w pos a row k'.
Proof.
  unfold write_value. cbn [write_value_fuel]. unfold write_value_with.
  destruct (is_null a row); [done|]. destruct k, k'; simpl; intros E; try discriminate E; try by rewrite ?E.
  - by injection E as <-.
Qed.

(** A logical type whose precision is a [u32]. *)
Definition unsigned_precision (ty : Ty) : Prop :=
  match ty with
  | TyTime p | TyTimestamp p | TyTimestampLtz p | TyDecimal p _ => 0 <= p
  | _ => True
  end.

Definition late_time (ty : Ty) : bool :=
  match ty with TyTime p => 3 <? p | _ => false end.

Lemma key_field_arrow fields i n ty c k types t :
  fields !! Z.to_nat i = Some (Some (Logical n (Some ty))) -> unsigned_precision ty ->
  key_field fields i = Ok (c, k) -> arrow_schema fields = Ok types -> types !! Z.to_nat i = Some t ->
  late_time ty = false -> exists k', from_arrow_type t = Ok k' /\ same_key k k'.
Proof.
  intros Hf Hp Hk Hs Ht Hl.
  assert (type_data_type (Logical n (Some ty)) = Ok t) as Hty.
  { pose proof Hs as Hall%collect_Ok. eapply Forall2_lookup_l in Hall as (t' & Ht' & Hd); [|done].
    cbn [required_type ok_or] in Hd. rewrite outcome_bind_run in Hd. congruence. }
  unfold key_field in Hk. rewrite (proj2 (field_type_Ok fields i _) Hf), outcome_bind_run in Hk.
  cbn [mbind option_bind lt_type ok_or] in Hk. rewrite outcome_bind_run in Hk.
  apply outcome_bind_Ok in Hk as (k0 & Hk & [= <- <-]).
  destruct ty; cbn [unsigned_precision late_time] in *; try discriminate Hk;
    try (rewrite Hs, outcome_bind_run, Ht in Hk; exists k0; split; [done|apply same_key_refl]);
    try (injection Hk as <-; injection Hty as <-; eexists; split; [done|reflexivity]).
  all: injection Hk as <-.
  - simpl in Hty. unfold time_type in Hty. apply outcome_bind_Ok in Hty as (u & Hu & Hty).
    unfold time_unit in Hu. revert Hu Hl. case_bool; simpl; try lia; intros [= <-] _; injection Hty as <-; by eexists.
  - simpl in Hty. apply outcome_bind_Ok in Hty as (u & Hu & [= <-]). apply time_unit_precision in Hu as [H1 H2].
    eexists. split; [done|]. simpl. by rewrite wrapu_small by lia.
  - simpl in Hty. apply outcome_bind_Ok in Hty as (u & Hu & [= <-]). apply time_unit_precision in Hu as [H1 H2].
    eexists. split; [done|]. simpl. by rewrite wrapu_small by lia.
  - apply decimal_type_precision in Hty as [-> H1]; [|done]. eexists. split; [done|].
    simpl. by rewrite wrapu_small by lia.
  - simpl in Hty. apply outcome_bind_Ok in Hty as (u & Hu & [= <-]). by eexists.
  - simpl in Hty. apply outcome_bind_Ok in Hty as (u & Hu & [= <-]). by eexists.
Qed.

(** *** The lowering never panics on a valid plan *)

Lemma guard_no_panic b e : guard_ok b e <> Panic.
Proof. by destruct b. Qed.
#[local] Hint Resolve guard_no_panic : sf.

Lemma time_unit_no_panic p : time_unit p <> Panic.
Proof. unfold time_unit. by repeat case_match. Qed.
Lemma validate_length_no_panic n : validate_length n <> Panic.
Proof. unfold validate_length. do 2 (apply bind_no_panic; [auto with sf|intros _ _]). done. Qed.

Lemma type_data_type_no_panic t : type_data_type t <> Panic.
Proof.
  revert t. fix IH 1. intros [n [ty|]]; [|discriminate].
  destruct ty as [| | | | | | | | | |p|p|p|p s|l|l|[t|]|[k|] [v|]|fields|]; try discriminate; cbn [type_data_type].
  - unfold time_type. apply bind_no_panic; [apply time_unit_no_panic|]. intros []; discriminate.
  - apply bind_no_panic; [apply time_unit_no_panic|discriminate].
  - apply bind_no_panic; [apply time_unit_no_panic|discriminate].
  - do 3 (apply bind_no_panic; [apply guard_no_panic|intros _ _]). discriminate.
  - apply bind_no_panic; [apply validate_length_no_panic|discriminate].
  - apply bind_no_panic; [apply validate_length_no_panic|discriminate].
  - apply bind_no_panic; [apply IH|discriminate].
  - apply bind_no_panic; [apply IH|]. intros a _. apply bind_no_panic; [apply IH|discriminate].
  - apply bind_no_panic; [|discriminate]. induction fields as [|[t|] fields IHf]; [discriminate| |discriminate].
    apply bind_no_panic; [apply IH|]. intros a _. apply bind_no_panic; [exact IHf|discriminate].
Qed.

Lemma collect_total {A B} (f : A -> outcome B) l : Forall (fun x => f x <> Panic) l -> collect f l <> Panic.
Proof.
  induction 1 as [|x l Hx _ IH]; [done|]. cbn [collect]. apply bind_no_panic; [done|].
  intros y _. by apply bind_no_panic.
Qed.

Lemma arrow_schema_no_panic fields : arrow_schema fields <> Panic.
Proof.
  apply collect_total, Forall_forall. intros t _.
  apply bind_no_panic; [apply ok_or_no_panic|intros a _; apply type_data_type_no_panic].
Qed.

Lemma key_field_no_panic fields i : 0 <= i < len fields -> key_field fields i <> Panic.
Proof.
  intros Hi. unfold key_field. apply bind_no_panic; [auto with sf|intros t _].
  apply bind_no_panic; [auto with sf|intros ty _]. apply bind_no_panic; [|done].
  assert ((schema ← arrow_schema fields;
    match schema !! Z.to_nat i with Some t => from_arrow_type t | None => Panic end) <> Panic) as Hn.
  { apply bind_no_panic; [apply arrow_schema_no_panic|]. intros ts Hts%collect_Ok%Forall2_length.
    destruct (lookup_lt_is_Some_2 ts (Z.to_nat i)) as [t' ->]; [unfold len in Hi; lia|].
    apply from_arrow_type_spec. }
  by destruct ty.
Qed.

Lemma collect_key_columns fields keys kf :
  collect (key_field fields) keys = Ok kf -> kf.*1 = keys.
Proof.
  intros Hc%collect_Ok. induction Hc as [|i [c k] idx ks Hk _ IH]; [done|]. simpl. f_equal; [|done].
  unfold key_field in Hk. by inv_M; simplify_eq.
Qed.

(** C14: Validation never panics and accepts exactly the well-formed plans: a
    known version, transport and distribution, a non-null TINYINT row kind, a
    nullable BIGINT timestamp elsewhere, a sidecar right behind the schema, keys
    that are data columns and Flink's geometry. On an accepted plan the keys are
    lowered without a panic, and the lowered columns lie inside the batch the
    plan announces, with the geometry the router requires. *)
Theorem exchange_plan_validated plan :
  plan_unsigned plan ->
  validate plan <> Panic /\
  (validate plan = Ok tt <-> exists fields meta, plan_valid plan fields meta) /\
  forall fields meta, plan_valid plan fields meta ->
    exchange_key_fields plan <> Panic /\
    forall keys, exchange_key_fields plan = Ok keys -> distribution plan = 2 ->
      keys <> [] /\ geometry_ok (max_parallelism plan) (parallelism plan) = true /\
      Forall (fun k => 0 <= k.1 < len fields + from_option (fun _ => 1) 0 (routing_key_index meta)) keys.
Proof.
  intros Hu. split_and!; [by apply validate_plan_no_panic|by apply validate_Ok|].
  intros fields meta Hv. destruct (pu_meta _ Hu meta (pv_meta _ _ _ Hv)) as (_ & _ & Hr).
  pose proof (pu_keys _ Hu) as Hpos. rewrite Forall_forall in Hpos.
  unfold exchange_key_fields. rewrite (pv_meta _ _ _ Hv). cbn [mbind option_bind].
  destruct (routing_key_index meta) as [i|] eqn:Hrk.
  { split; [done|]. intros keys [= <-] Hd. destruct (pv_sidecar _ _ _ Hv i Hrk) as [_ ->].
    destruct (pv_distribution _ _ _ Hv) as [(_ & _ & Hg & _)|[E _]]; [|congruence].
    split_and!; [done..|]. pose proof (len_nonneg fields). repeat constructor; simpl; lia. }
  rewrite (pv_schema _ _ _ Hv). cbn [ok_or]. rewrite outcome_bind_run.
  destruct (pv_distribution _ _ _ Hv) as [(Hd & Hne & Hg & Hkeys)|(Hd & Hnil & _)].
  2: { rewrite Hnil. split; [done|]. intros; lia. }
  rewrite Forall_forall in Hkeys. split.
  - apply collect_total, Forall_forall. intros i Hi. apply key_field_no_panic.
    destruct (Hkeys i Hi) as [? _]. auto.
  - intros keys Hk _. pose proof (collect_key_columns _ _ _ Hk) as Hcols.
    split_and!; [intros ->; by apply Hne|done|]. apply Forall_forall. intros k Hin.
    assert (k.1 ∈ key_indices plan) as Hi by (rewrite <- Hcols; by apply list_elem_of_fmap_2).
    destruct (Hkeys _ Hi) as [? _]. specialize (Hpos _ Hi). simpl in *. lia.
Qed.

(** C15: For a key column with a logical type, the lowered key type is, up to
    the encoding, the one the column's Arrow type has: every write of the column
    through the row encoder is the write of the Arrow type's own key type. The
    one exception is a TIME of more than millisecond precision: its Arrow column
    is refused by the encoder. *)
Theorem exchange_keys_match_columns `{Arrow} fields i n ty c k types t :
  fields !! Z.to_nat i = Some (Some (Logical n (Some ty))) -> unsigned_precision ty ->
  key_field fields i = Ok (c, k) -> arrow_schema fields = Ok types -> types !! Z.to_nat i = Some t ->
  if late_time ty
  then k = Time /\ forall a row, data_type a = t -> exists e, time_millis a row = Err e
  else exists k', from_arrow_type t = Ok k' /\
    forall w pos a row, write_value w pos a row k = write_value w pos a row k'.
Proof.
  intros Hf Hp Hk Hs Ht. destruct (late_time ty) eqn:El.
  - destruct ty; try done. cbn [late_time] in El. apply Z.ltb_lt in El.
    unfold key_field in Hk. rewrite (proj2 (field_type_Ok fields i _) Hf), outcome_bind_run in Hk.
    injection Hk as <- <-. split; [done|]. intros a row Ha. unfold time_millis. rewrite Ha.
    pose proof Hs as Hall%collect_Ok. eapply Forall2_lookup_l in Hall as (t' & Ht' & Hd); [|done].
    rewrite Ht in Ht'. injection Ht' as <-. cbn [required_type ok_or] in Hd. rewrite outcome_bind_run in Hd.
    cbn [type_data_type] in Hd. unfold time_type, time_unit in Hd. revert Hd.
    case_bool; simpl; try lia; intros [= <-]; by eexists.
  - destruct (key_field_arrow fields i n ty c k types t) as (k' & Hk' & Hsame); [done..|].
    exists k'. split; [done|]. intros. by apply same_key_write.
Qed.
