(* ===== verification/ManagedRouting.v ===== *)
(** * Routing under the host's budget: [exchange/managed_routing.rs] and its parts

    [route_record_batch] admits the routing tables, the generated key column and
    every frame against the broker before it allocates them, and hands the
    caller frames that own exactly their bytes. [ArrayData] is Arrow's buffer
    view of an array, as far as the admission bound reads it. *)

From Stdlib Require Import ZArith Lia Strings.Byte.
From stdpp Require Import base list option numbers strings.
From S2P Require Import Prelude Bytes OrdMap MemoryPool KeyGroup Arrow BinaryRow BinaryRowSafe.
From S2P Require Import Routing RoutingSpec Framing FramingSpec ExchangePlan.

(** ** Arrow data *)

(** Type, length, buffer lengths and children. *)
#[warnings="-register-all"]
Inductive ArrayData : Type := AD (dt : DataType) (n : Z) (buffers : list Z) (children : list ArrayData).

Class ArrowData `{Arrow} : Type := {
  array_data : Array -> ArrayData;
  (** A non-null [Binary] column appended to a batch ([BinaryBuilder::finish]
      and [RecordBatch::try_new] with the extended schema). *)
  append_binary : Batch -> list bytes -> outcome Batch;
}.
(** Lengths are unsigned. *)
Fixpoint ad_ok (d : ArrayData) : Prop :=
  let 'AD _ n buffers children := d in
  0 <= n /\ Forall (fun l => 0 <= l) buffers /\ foldr (fun c P => ad_ok c /\ P) True children.

Class ArrowDataLaws `{ArrowData} : Prop := {
  array_data_law a : ad_ok (array_data a);
  (** One value per row gives a batch with the column behind the others. *)
  append_binary_law b vals : len vals = num_rows b -> zsum len vals <= I32_MAX ->
    exists b' a v, append_binary b vals = Ok b' /\ num_rows b' = num_rows b /\
      columns b' = columns b ++ [a] /\ as_bytes BinaryArray a = Some v /\
      forall i x, vals !! i = Some x -> is_null a (Z.of_nat i) = false /\ v (Z.of_nat i) = x;
}.

(** ** [workspace.rs] *)

Definition overflow : error := MemoryError "native exchange workspace size overflow".
Definition add_or_overflow (a b : Z) : outcome Z := ok_or overflow (checked_add a b).
Definition mul_or_overflow (a b : Z) : outcome Z := ok_or overflow (checked_mul a b).

(** [try_fold] over the elements of a slice. *)
Fixpoint try_fold {A B} (f : B -> A -> outcome B) (acc : B) (l : list A) : outcome B :=
  match l with
  | [] => Ok acc
  | x :: l => acc ← f acc x; try_fold f acc l
  end.

Definition unsupported_transport (t : DataType) : bool :=
  match t with
  | DOther name => bool_decide (name ∈ ["Dictionary"; "RunEndEncoded"; "Union"; "ListView"; "LargeListView"]%string)
  | _ => false
  end.

Fixpoint array_workspace (d : ArrayData) (child : bool) : outcome Z :=
  let 'AD dt n buffers children := d in
  _ ← guard_ok (negb (unsupported_transport dt))
        (NotYetImplemented "unsupported native exchange transport array");
  bytes ← add_or_overflow (div_ceil n 8) 1024;
  bytes ← try_fold (fun bytes l => bytes ← add_or_overflow bytes l; add_or_overflow bytes 64) bytes buffers;
  bytes ← (if child then selection ← mul_or_overflow n 8; add_or_overflow bytes selection else Ok bytes);
  (fix go (cs : list ArrayData) (bytes : Z) : outcome Z :=
     match cs with
     | [] => Ok bytes
     | c :: cs => w ← array_workspace c true; bytes ← add_or_overflow bytes w; go cs bytes
     end) children bytes.

Fixpoint nested_key_bytes (d : ArrayData) : outcome Z :=
  let 'AD _ n buffers children := d in
  bytes ← mul_or_overflow n 24;
  bytes ← add_or_overflow bytes 32;
  bytes ← try_fold add_or_overflow bytes buffers;
  (fix go (cs : list ArrayData) (bytes : Z) : outcome Z :=
     match cs with
     | [] => Ok bytes
     | c :: cs => w ← nested_key_bytes c; bytes ← add_or_overflow bytes w; go cs bytes
     end) children bytes.

(** Sizes of the descriptors on the target ([size_of]). *)
Class Layout : Type := {
  size_of_vec_u32 : Z;
  size_of_routed_batch : Z;
  size_of_routed_frame : Z;
  (** The capacity of the collected vector of frames. *)
  frames_capacity : list RoutedFrame -> Z;
}.

Class LayoutLaws `{Layout} : Prop := {
  size_of_vec_u32_law : 0 <= size_of_vec_u32;
  size_of_routed_batch_law : 0 <= size_of_routed_batch;
  size_of_routed_frame_law : 0 <= size_of_routed_frame;
  frames_capacity_law l : len l <= frames_capacity l;
}.

Section managed.
Context `{HA : Arrow} `{HD : !ArrowData} `{HI : !ArrowIpc} `{HL : Layout} `{HB : Broker B}.

Definition key_extra (b : Batch) (bytes : Z) (k : Z * KeyField) : outcome Z :=
  a ← ok_or (InvalidArgument "exchange key column is outside the input schema")
        (columns b !! Z.to_nat k.1);
  let 'AD _ _ buffers _ := array_data a in
  extra ← match k.2 with
          | PreencodedBinaryRow => Ok 0
          | Nested => nested_key_bytes (array_data a)
          | KString | KBinary => try_fold add_or_overflow 32 buffers
          | _ => Ok 32
          end;
  add_or_overflow bytes extra.

Definition allowance (b : Batch) (keys : list (Z * KeyField)) (mp parallelism : Z)
    (preserve : bool) (ncolumns : Z) : outcome (Z * Z) :=
  _ ← guard_ok (geometry_ok mp parallelism) (InvalidArgument "invalid Flink exchange parallelism");
  _ ← guard_ok (ncolumns <=? num_columns b)
        (InvalidArgument "exchange transport columns exceed input schema");
  let destinations := if preserve then mp else parallelism in
  let nonempty := if preserve then num_rows b else Z.min (num_rows b) destinations in
  directory ← mul_or_overflow destinations size_of_vec_u32;
  rows ← mul_or_overflow (num_rows b) 8;
  routing ← add_or_overflow directory rows;
  descriptors ← mul_or_overflow nonempty (16 + 2 * size_of_routed_batch + 2 * size_of_routed_frame);
  routing ← add_or_overflow routing descriptors;
  routing ← add_or_overflow routing 4096;
  key_bytes ← try_fold (key_extra b) 0 keys;
  twice ← mul_or_overflow key_bytes 2;
  routing ← add_or_overflow routing twice;
  output ← try_fold (fun bytes a => w ← array_workspace (array_data a) false; add_or_overflow bytes w)
             0 (take (Z.to_nat ncolumns) (columns b));
  frame ← mul_or_overflow output 4;
  frame ← add_or_overflow frame 8192;
  Ok (routing, frame).

(** ** [RoutingMemory] *)

Record RoutingMemory : Type := {
  rm_reservation : resv;
  routing_bytes : Z;
  frame_workspace : Z;
  retained_bytes : Z;
}.
Definition set_reservation (r : resv) (m : RoutingMemory) : RoutingMemory :=
  {| rm_reservation := r; routing_bytes := routing_bytes m; frame_workspace := frame_workspace m;
     retained_bytes := retained_bytes m |}.
Definition set_retained (n : Z) (m : RoutingMemory) : RoutingMemory :=
  {| rm_reservation := rm_reservation m; routing_bytes := routing_bytes m;
     frame_workspace := frame_workspace m; retained_bytes := n |}.

(** [map_err(|error| ArrowError::ExternalError(..))]. *)
Definition to_external {A} (o : outcome A) : outcome A :=
  match o with Err e => Err (External (error_text e)) | o => o end.

Definition routing_before_frame : M (RoutingMemory * B) unit := fun '(m, b) =>
  match checked_add (routing_bytes m) (retained_bytes m) ≫= (fun n => checked_add n (frame_workspace m)) with
  | None => (Err overflow, (m, b))
  | Some bytes =>
      if bytes <=? rsize (rm_reservation m) then (Ok tt, (m, b))
      else
        let additional := Z.max (bytes - rsize (rm_reservation m)) (frame_workspace m / 4) in
        let '(o, (r, b')) := host_try_grow additional (rm_reservation m, b) in
        (to_external o, (set_reservation r m, b'))
  end.

Definition frame_size (f : RoutedFrame) : option Z :=
  checked_add (vcap (metadata (rf_frame f))) (vcap (body (rf_frame f))).

Definition routing_retain_frame (f : RoutedFrame) : M (RoutingMemory * B) unit := fun '(m, b) =>
  match frame_size f with
  | None => (Err overflow, (m, b))
  | Some bytes =>
      if frame_workspace m <? bytes
      then (Err (External "exchange IPC frame exceeded its preflight workspace"), (m, b))
      else match checked_add (retained_bytes m) bytes with
           | None => (Err overflow, (m, b))
           | Some n => (Ok tt, (set_retained n m, b))
           end
  end.

#[local] Instance routing_memory : FrameMemory (RoutingMemory * B) := {|
  before_frame := routing_before_frame;
  retain_frame := routing_retain_frame;
|}.

(** ** [generated_keys.rs] *)

(** The encoded key of every row, within Arrow's 32-bit offsets. *)
Fixpoint generate_keys (b : Batch) (keys : list (Z * KeyField)) (scratch : bytes) (total : Z) (rows : list Z)
  : outcome (list bytes) :=
  match rows with
  | [] => Ok []
  | row :: rows =>
      let '(o, scratch) := encode_binary_row_into b row keys scratch in
      _ ← o;
      _ ← guard_ok (match checked_add total (len scratch) with Some n => n <=? I32_MAX | None => false end)
            (ResourcesExhausted "native routing keys exceed Arrow Binary offset capacity");
      rest ← generate_keys b keys scratch (total + len scratch) rows;
      Ok (scratch :: rest)
  end.

Definition generated_bound (b : Batch) (keys : list (Z * KeyField)) : outcome Z :=
  bound ← try_fold (fun bytes (k : Z * KeyField) =>
              a ← column b k.1;
              n ← nested_key_bytes (array_data a);
              add_or_overflow bytes n) (sat_mul (num_rows b) 16) keys;
  four ← mul_or_overflow bound 4;
  add_or_overflow four 4096.

(** [append]: the reservation lives as long as the returned batch. *)
Definition append_keys (b : Batch) (keys : list (Z * KeyField)) (broker : nat) : M B (Batch * resv) := fun bk =>
  match generated_bound b keys with
  | Err e => (Err e, bk)
  | Panic => (Panic, bk)
  | Ok bound =>
      match resize bound (host_new broker "native exchange generated keys", bk) with
      | (Ok _, (memory, bk')) =>
          match (values ← generate_keys b keys [] 0 (row_numbers (num_rows b)); append_binary b values) with
          | Ok b' => (Ok (b', memory), bk')
          | Err e => fail_dropping memory e bk'
          | Panic => (Panic, bk')
          end
      | (Err e, (memory, bk')) => fail_dropping memory e bk'
      | (Panic, (_, bk')) => (Panic, bk')
      end
  end.

(** ** [route_record_batch] *)

Record AccountedFrames : Type := { af_frames : list RoutedFrame; af_reservation : resv }.

(** The bytes the frames own. *)
Definition frames_bytes (frames : list RoutedFrame) : outcome Z :=
  try_fold (fun bytes f =>
      ok_or (ResourcesExhausted "native exchange frame accounting overflowed usize")
        (n ← checked_add bytes (vcap (metadata (rf_frame f))); checked_add n (vcap (body (rf_frame f)))))
    (sat_mul (frames_capacity frames) size_of_routed_frame) frames.

(** The part after the key column has been generated: admission, framing and
    the final adjustment of the reservation to the frames. *)
Definition route_admitted (plan : NativeExchangePlan) (keys : list (Z * KeyField)) (b : Batch) (broker : nat)
    (columns : Z) : M B AccountedFrames := fun bk =>
  match allowance b keys (max_parallelism plan) (parallelism plan) (preserve_key_groups plan) columns with
  | Err e => (Err e, bk)
  | Panic => (Panic, bk)
  | Ok (routing, workspace) =>
      match host_try_grow routing (host_new broker "native exchange buffers", bk) with
      | (Panic, (_, bk')) => (Panic, bk')
      | (Err e, (r, bk')) => fail_dropping r e bk'
      | (Ok _, (r, bk')) =>
          let memory := {| rm_reservation := r; routing_bytes := routing; frame_workspace := workspace;
                           retained_bytes := 0 |} in
          let '(o, (memory, bk')) :=
            frame_hash_exchange_batch_accounted (Mem := RoutingMemory * B) b keys (max_parallelism plan)
              (parallelism plan) (preserve_key_groups plan) columns (memory, bk') in
          match (frames ← o; n ← frames_bytes frames; Ok (frames, n)) with
          | Panic => (Panic, bk')
          | Err e => fail_dropping (rm_reservation memory) e bk'
          | Ok (frames, n) =>
              match resize n (rm_reservation memory, bk') with
              | (Ok _, (r, bk')) => (Ok {| af_frames := frames; af_reservation := r |}, bk')
              | (Err e, (r, bk')) => fail_dropping r e bk'
              | (Panic, (_, bk')) => (Panic, bk')
              end
          end
      end
  end.

Definition is_generated (plan : NativeExchangePlan) : bool :=
  transport_routing_key plan &&
  match metadata_columns plan with Some meta => bool_decide (routing_key_index meta = None) | None => false end.

Definition transport_columns (plan : NativeExchangePlan) : outcome Z :=
  fields ← ok_or (Plan "exchange schema is required") (plan_schema plan);
  Ok (if transport_routing_key plan then sat_add (len fields) 1 else len fields).

(** A success keeps the value; the key memory is dropped on every exit. *)
Definition drop_after {A} (memory : resv) (m : M B A) : M B A := fun bk =>
  match m bk with
  | (Panic, bk') => (Panic, bk')
  | (o, bk') => let '(d, bk2) := host_drop memory bk' in (match d with Panic => Panic | _ => o end, bk2)
  end.

Definition route_record_batch (plan : NativeExchangePlan) (keys : list (Z * KeyField)) (b : Batch)
    (broker : nat) : M B AccountedFrames :=
  if is_generated plan then
    _ ← lift (guard_ok (match plan_schema plan with Some fields => len fields =? num_columns b | None => false end)
          (Execution "native routing-key generation requires exactly the declared input columns"));
    '(b, memory) ← append_keys b keys broker;
    drop_after memory
      (columns ← lift (transport_columns plan);
       route_admitted plan [(num_columns b - 1, PreencodedBinaryRow)] b broker columns)
  else
    columns ← lift (transport_columns plan);
    route_admitted plan keys b broker columns.
End managed.
