(* ===== verification/ManagedRoutingSpec.v ===== *)
(** * Accounting of the managed router *)

From Stdlib Require Import ZArith Lia Strings.Byte.
From stdpp Require Import base list option numbers strings.
From S2P Require Import Prelude Bytes OrdMap MemoryPool KeyGroup Arrow BinaryRow BinaryRowSafe.
From S2P Require Import Routing RoutingSpec Framing FramingSpec ExchangePlan ManagedRouting.

(** ** The admission bounds are [usize]s *)

Lemma add_or_overflow_Ok a b c : add_or_overflow a b = Ok c -> c = a + b /\ c <= USIZE_MAX.
Proof.
  unfold add_or_overflow. destruct (checked_add a b) eqn:E; [|done]. intros [= <-]. by apply checked_add_Some in E.
Qed.
Lemma mul_or_overflow_Ok a b c : mul_or_overflow a b = Ok c -> c = a * b /\ c <= USIZE_MAX.
Proof. unfold mul_or_overflow, checked_mul. case_bool; simpl; intros [= <-]; lia. Qed.

Lemma try_fold_nonneg {A} (f : Z -> A -> outcome Z) l acc n :
  (forall x a c, x ∈ l -> 0 <= a -> f a x = Ok c -> 0 <= c) -> 0 <= acc -> try_fold f acc l = Ok n -> 0 <= n.
Proof.
  revert acc. induction l as [|x l IH]; intros acc Hf Hacc; cbn [try_fold]; [by intros [= <-]|].
  intros (c & Hc & Hn)%outcome_bind_Ok. apply (IH c); [|by eapply Hf; [left| |]|done].
  intros y a c' Hy. apply Hf. by right.
Qed.

Lemma array_workspace_nonneg d child n : ad_ok d -> array_workspace d child = Ok n -> 0 <= n.
Proof.
  revert d child n. fix IH 1. intros [dt m buffers children] child n (Hm & Hb & Hc). cbn [array_workspace].
  intros (u & _ & H1)%outcome_bind_Ok.
  apply outcome_bind_Ok in H1 as (b0 & [E0 _]%add_or_overflow_Ok & H1).
  apply outcome_bind_Ok in H1 as (b1 & E1 & H1). apply outcome_bind_Ok in H1 as (b2 & E2 & H1).
  assert (0 <= b0) as P0 by (unfold div_ceil in E0; pose proof (Z.div_pos (m + 8 - 1) 8); lia).
  assert (0 <= b1) as P1.
  { apply try_fold_nonneg in E1; [exact E1| |exact P0]. intros x a c Hx Ha Hc2.
    apply outcome_bind_Ok in Hc2 as (y & [Ey _]%add_or_overflow_Ok & [Ec _]%add_or_overflow_Ok).
    rewrite Forall_forall in Hb. specialize (Hb x Hx). simpl in Hb. lia. }
  assert (0 <= b2) as P2.
  { destruct child; [|by injection E2 as <-].
    apply outcome_bind_Ok in E2 as (y & [Ey _]%mul_or_overflow_Ok & [Ec _]%add_or_overflow_Ok). nia. }
  clear E0 E1 E2 P0 P1 b0 b1 u Hb. revert b2 P2 H1. induction children as [|c cs IHc]; intros b2 P2 H1.
  { by injection H1 as <-. }
  destruct Hc as [Hc Hcs]. apply outcome_bind_Ok in H1 as (w & Hw & H1).
  apply outcome_bind_Ok in H1 as (b3 & [E3 _]%add_or_overflow_Ok & H1).
  pose proof (IH c true w Hc Hw). apply (IHc Hcs b3); [lia|exact H1].
Qed.

Lemma nested_key_bytes_nonneg d n : ad_ok d -> nested_key_bytes d = Ok n -> 0 <= n.
Proof.
  revert d n. fix IH 1. intros [dt m buffers children] n (Hm & Hb & Hc). cbn [nested_key_bytes].
  intros (a0 & [E0 _]%mul_or_overflow_Ok & H1)%outcome_bind_Ok.
  apply outcome_bind_Ok in H1 as (b0 & [E1 _]%add_or_overflow_Ok & H1).
  apply outcome_bind_Ok in H1 as (b2 & E2 & H1).
  assert (0 <= b2) as P2.
  { apply try_fold_nonneg in E2; [exact E2| |lia]. intros x a c Hx Ha [Ec _]%add_or_overflow_Ok.
    rewrite Forall_forall in Hb. specialize (Hb x Hx). simpl in Hb. lia. }
  clear E0 E1 E2 a0 b0 Hb Hm. revert b2 P2 H1. induction children as [|c cs IHc]; intros b2 P2 H1.
  { by injection H1 as <-. }
  destruct Hc as [Hc Hcs]. apply outcome_bind_Ok in H1 as (w & Hw & H1).
  apply outcome_bind_Ok in H1 as (b3 & [E3 _]%add_or_overflow_Ok & H1).
  pose proof (IH c w Hc Hw). apply (IHc Hcs b3); [lia|exact H1].
Qed.

Lemma key_extra_nonneg `{ArrowDataLaws} b bytes k n : 0 <= bytes -> key_extra b bytes k = Ok n -> 0 <= n.
Proof.
  intros Hb. unfold key_extra. intros (a & _ & Hk)%outcome_bind_Ok.
  pose proof (array_data_law a) as Ha. destruct (array_data a) as [dt m buffers children] eqn:Ed.
  apply outcome_bind_Ok in Hk as (e & He & [-> _]%add_or_overflow_Ok).
  assert (0 <= e); [|lia]. rewrite <- Ed in Ha.
  destruct k.2; try (injection He as <-; lia); try (rewrite <- Ed in He; by eapply nested_key_bytes_nonneg);
    (refine (try_fold_nonneg _ _ _ _ _ _ He); [|done]); intros x y c Hx Hy [-> _]%add_or_overflow_Ok;
    rewrite Ed in Ha; destruct Ha as (_ & Hbuf & _); rewrite Forall_forall in Hbuf;
    specialize (Hbuf x Hx); simpl in Hbuf; lia.
Qed.

Lemma allowance_usize `{HA : Arrow} `{!ArrowLaws} `{!ArrowData} `{!ArrowDataLaws} `{!Layout} `{!LayoutLaws} b keys mp p preserve n routing workspace :
  is_u32 mp -> is_u32 p -> allowance b keys mp p preserve n = Ok (routing, workspace) ->
  is_usize routing /\ is_usize workspace.
Proof.
  intros Hmp Hp. unfold allowance.
  intros (u1 & _ & Hk)%outcome_bind_Ok. apply outcome_bind_Ok in Hk as (u2 & _ & Hk).
  apply outcome_bind_Ok in Hk as (directory & [E1 L1]%mul_or_overflow_Ok & Hk).
  apply outcome_bind_Ok in Hk as (rows & [E2 L2]%mul_or_overflow_Ok & Hk).
  apply outcome_bind_Ok in Hk as (r1 & [E3 L3]%add_or_overflow_Ok & Hk).
  apply outcome_bind_Ok in Hk as (ds & [E4 L4]%mul_or_overflow_Ok & Hk).
  apply outcome_bind_Ok in Hk as (r2 & [E5 L5]%add_or_overflow_Ok & Hk).
  apply outcome_bind_Ok in Hk as (r3 & [E6 L6]%add_or_overflow_Ok & Hk).
  apply outcome_bind_Ok in Hk as (kb & E7 & Hk).
  apply outcome_bind_Ok in Hk as (tw & [E8 L8]%mul_or_overflow_Ok & Hk).
  apply outcome_bind_Ok in Hk as (r4 & [E9 L9]%add_or_overflow_Ok & Hk).
  apply outcome_bind_Ok in Hk as (out & E10 & Hk).
  apply outcome_bind_Ok in Hk as (fr & [E11 L11]%mul_or_overflow_Ok & Hk).
  apply outcome_bind_Ok in Hk as (fr2 & [E12 L12]%add_or_overflow_Ok & [= <- <-]).
  assert (0 <= kb).
  { refine (try_fold_nonneg _ _ _ _ _ _ E7); [|lia]. intros x a c _ Ha Hc. exact (key_extra_nonneg b a x c Ha Hc). }
  assert (0 <= out).
  { refine (try_fold_nonneg _ _ _ _ _ _ E10); [|lia]. intros x a c _ Hpos Hc.
    apply outcome_bind_Ok in Hc as (w & Hw & [-> _]%add_or_overflow_Ok).
    pose proof (array_workspace_nonneg _ _ _ (array_data_law x) Hw). lia. }
  pose proof size_of_vec_u32_law. pose proof size_of_routed_batch_law. pose proof size_of_routed_frame_law.
  pose proof (num_rows_law b).
  assert (0 <= directory) by (destruct preserve; unfold is_u32 in *; subst directory; nia).
  assert (0 <= ds) by (destruct preserve; unfold is_u32, is_usize in *; subst ds; nia).
  clear E1 E4 E7 E10. unfold is_usize in *. lia.
Qed.

Section accounting.
Context `{HA : Arrow} `{HAL : !ArrowLaws} `{HD : !ArrowData} `{HI : !ArrowIpc} `{HIL : !ArrowIpcLaws} `{HL : Layout}.
Context `{HB : Broker B} `{HBL : !BrokerLaws B}.
Existing Instance routing_memory.

(** The credit of the router and of the others: [others] is what the rest of
    the broker's clients hold. *)
Definition credit (others : Z) (s : RoutingMemory * B) : Prop :=
  is_usize (rsize (rm_reservation s.1)) /\ reserved s.2 = others + rsize (rm_reservation s.1).

(** Bytes of the frames retained so far. *)
Definition frame_bytes (f : RoutedFrame) : Z := vcap (metadata (rf_frame f)) + vcap (body (rf_frame f)).

Definition vecs_ok (f : RoutedFrame) : Prop :=
  0 <= vcap (metadata (rf_frame f)) /\ 0 <= vcap (body (rf_frame f)).
Lemma frame_bytes_nonneg f : vecs_ok f -> 0 <= frame_bytes f.
Proof. unfold vecs_ok, frame_bytes. lia. Qed.

(** The admission bound: the routing tables and all retained frames are covered. *)
Definition covered (routing workspace retained : Z) (s : RoutingMemory * B) : Prop :=
  routing_bytes s.1 = routing /\ frame_workspace s.1 = workspace /\ retained_bytes s.1 = retained /\
  routing + retained <= rsize (rm_reservation s.1).

Lemma before_frame_spec others routing workspace retained m b :
  is_usize workspace -> 0 <= others -> credit others (m, b) -> covered routing workspace retained (m, b) ->
  0 <= routing -> 0 <= retained ->
  match routing_before_frame (m, b) with
  | (Ok _, s) => credit others s /\ covered routing workspace retained s /\
                 routing + retained + workspace <= rsize (rm_reservation s.1)
  | (Err _, s) => credit others s
  | (Panic, _) => False
  end.
Proof.
  intros Hw Ho [Hu Hc] (H1 & H2 & H3 & H4) Hr Hret. cbn [fst snd] in *. unfold routing_before_frame.
  rewrite H1, H2, H3. unfold checked_add. cbn [mbind option_bind].
  destruct (Z.leb_spec (routing + retained) USIZE_MAX) as [L1|L1]; [|by split].
  cbn [mbind option_bind]. destruct (Z.leb_spec (routing + retained + workspace) USIZE_MAX) as [L2|L2]; [|by split].
  destruct (Z.leb_spec (routing + retained + workspace) (rsize (rm_reservation m))) as [L|L].
  { split; [by split|]. split; [done|exact L]. }
  set (n := Z.max _ _). assert (is_usize n) as Hn.
  { unfold n. pose proof (Z.div_le_upper_bound workspace 4 workspace). pose proof (Z.div_pos workspace 4). mlia. }
  pose proof (host_try_grow_balanced n (rm_reservation m) b Hn Hu) as Hg.
  destruct (host_try_grow n (rm_reservation m, b)) as [o [r b']]. destruct Hg as [[Ht Hus Hnp Herr _ _] Hok].
  destruct o as [[]|e|]; cbn [to_external]; [| |done].
  - specialize (Hok eq_refl). unfold n in Hok. unfold credit, covered. cbn. split_and!; try done; lia.
  - split; cbn; [done|]. lia.
Qed.

Lemma retain_frame_spec others routing workspace retained m b f :
  credit others (m, b) -> covered routing workspace retained (m, b) ->
  routing + retained + workspace <= rsize (rm_reservation m) ->
  match routing_retain_frame f (m, b) with
  | (Ok _, s) => credit others s /\ covered routing workspace (retained + frame_bytes f) s
  | (Err _, s) => credit others s
  | (Panic, _) => False
  end.
Proof.
  intros Hc (H1 & H2 & H3 & H4) Hle. cbn [fst snd] in *. unfold routing_retain_frame, frame_size.
  destruct (checked_add _ _) as [n|] eqn:En; [|done]. apply checked_add_Some in En as [-> _].
  rewrite H2. destruct (Z.ltb_spec workspace (vcap (metadata (rf_frame f)) + vcap (body (rf_frame f)))); [done|].
  rewrite H3. destruct (checked_add retained _) as [n|] eqn:En; [|done]. apply checked_add_Some in En as [-> _].
  split; [exact Hc|]. unfold covered, frame_bytes. cbn. split_and!; try done. lia.
Qed.

Lemma encode_frame_bytes kg mat s f s' :
  encode_frame (Mem := RoutingMemory * B) kg mat s = (Ok f, s') -> vecs_ok f.
Proof.
  unfold encode_frame. intros He. inv_M. unfold lift in *. simplify_eq. unfold vecs_ok. cbn [rf_frame].
  match goal with E : frame_encode _ = Ok _ |- _ => unfold frame_encode in E end. inv_M.
  match goal with E : ipc_generate _ = Ok ?x |- _ => destruct x as [[ds md] bd]; apply ipc_vec_law in E as [H1 H2] end.
  unfold guard_ok in *. destruct (bool_decide _); [|done]. unfold_M. simplify_eq. cbn [metadata body].
  unfold vec_ok in *. pose proof (len_nonneg (vdata md)). pose proof (len_nonneg (vdata bd)). lia.
Qed.

(** One frame. *)
Lemma encode_frame_spec others routing workspace retained kg mat s :
  is_usize workspace -> 0 <= others -> 0 <= routing -> 0 <= retained ->
  credit others s -> covered routing workspace retained s ->
  match encode_frame (Mem := RoutingMemory * B) kg mat s with
  | (Ok f, s') => credit others s' /\ covered routing workspace (retained + frame_bytes f) s'
  | (Err _, s') => credit others s'
  | (Panic, _) => True
  end.
Proof.
  intros Hw Ho Hr Hret Hc Hcov. unfold encode_frame, mbind, M_bind. destruct s as [m b].
  pose proof (before_frame_spec others routing workspace retained m b Hw Ho Hc Hcov Hr Hret) as Hb.
  change (@before_frame _ routing_memory) with (@routing_before_frame B HB).
  destruct (routing_before_frame (m, b)) as [[u|e|] [m1 b1]]; [|done|done]. destruct Hb as (Hc1 & Hcov1 & Hle).
  unfold lift. destruct mat as [bt|e|]; [|done|done]. destruct (frame_encode bt) as [fr|e|]; [|done|done].
  set (f := {| rf_key_group := kg; rf_frame := fr |}).
  pose proof (retain_frame_spec others routing workspace retained m1 b1 f Hc1 Hcov1 Hle) as Hf.
  change (@retain_frame _ routing_memory f) with (@routing_retain_frame B f).
  by destruct (routing_retain_frame f (m1, b1)) as [[v|e|] s2].
Qed.

(** All frames. *)
Lemma collect_frames_spec {A} others routing workspace (f : A -> M (RoutingMemory * B) RoutedFrame) l retained s :
  is_usize workspace -> 0 <= others -> 0 <= routing -> 0 <= retained ->
  (forall x, exists kg mat, f x = encode_frame kg mat) ->
  credit others s -> covered routing workspace retained s ->
  match collectM f l s with
  | (Ok frames, s') => credit others s' /\ covered routing workspace (retained + zsum frame_bytes frames) s'
  | (Err _, s') => credit others s'
  | (Panic, _) => True
  end.
Proof.
  intros Hw Ho Hr Hret Hf. revert retained Hret s.
  induction l as [|x l IH]; intros retained Hret s Hc Hcov; cbn [collectM].
  { cbn. by rewrite Z.add_0_r. }
  unfold mbind, M_bind. destruct (Hf x) as (kg & mat & Ex).
  pose proof (encode_frame_spec others routing workspace retained kg mat s Hw Ho Hr Hret Hc Hcov) as He.
  rewrite <- Ex in He. destruct (f x s) as [[fr|e|] s1] eqn:Efx; [|done|done]. destruct He as [Hc1 Hcov1].
  assert (0 <= frame_bytes fr) by (apply frame_bytes_nonneg; rewrite Ex in Efx; by eapply encode_frame_bytes).
  specialize (IH (retained + frame_bytes fr) ltac:(lia) s1 Hc1 Hcov1).
  destruct (collectM f l s1) as [[frames|e|] s2]; [|done|done].
  cbn. by rewrite Z.add_assoc.
Qed.

(** The whole framing step. *)
Lemma framing_spec others routing workspace b keys mp p preserve cc s :
  is_usize workspace -> 0 <= others -> 0 <= routing ->
  credit others s -> covered routing workspace 0 s ->
  match frame_hash_exchange_batch_accounted (Mem := RoutingMemory * B) b keys mp p preserve cc s with
  | (Ok frames, s') => credit others s' /\ covered routing workspace (zsum frame_bytes frames) s'
  | (Err _, s') => credit others s'
  | (Panic, _) => True
  end.
Proof.
  intros Hw Ho Hr Hc Hcov. unfold frame_hash_exchange_batch_accounted.
  destruct preserve; unfold mbind, M_bind, lift.
  - destruct (route_batch_by_key_group b keys mp) as [runs|e|]; [|done|done].
    apply (collect_frames_spec others routing workspace _ _ 0); try done. intros x. by eexists _, _.
  - destruct (route_batch b keys mp p) as [routed|e|]; [|done|done].
    apply (collect_frames_spec others routing workspace _ _ 0); try done. intros x. by eexists _, _.
Qed.

Lemma framed_vecs_ok b keys mp p preserve cc s frames s' :
  frame_hash_exchange_batch_accounted (Mem := RoutingMemory * B) b keys mp p preserve cc s = (Ok frames, s') ->
  Forall vecs_ok frames.
Proof.
  unfold frame_hash_exchange_batch_accounted.
  destruct preserve; intros (x & s1 & _ & Hc%collectM_Ok)%M_bind_Ok; apply Forall_forall; intros f Hf;
    apply list_elem_of_lookup in Hf as [i Hi];
    destruct (Forall2_lookup_r _ _ _ _ _ Hc Hi) as (r & _ & s2 & s3 & He); by eapply encode_frame_bytes.
Qed.

(** What the frames own: their vector and their two buffers each. *)
Lemma frames_bytes_Ok `{!LayoutLaws} frames n :
  Forall vecs_ok frames -> frames_bytes frames = Ok n ->
  is_usize n /\ n = sat_mul (frames_capacity frames) size_of_routed_frame + zsum frame_bytes frames.
Proof.
  intros Hf. unfold frames_bytes. pose proof (frames_capacity_law frames) as Hcap.
  pose proof size_of_routed_frame_law as Hs. pose proof (len_nonneg frames) as Hl.
  set (init := sat_mul _ _). assert (is_usize init) as Hi.
  { unfold init, sat_mul, is_usize, USIZE_MAX in *. nia. }
  clearbody init. clear Hcap Hs Hl. revert init Hi.
  induction Hf as [|f frames [H1 H2] _ IH]; intros init Hi; cbn [try_fold].
  { intros [= <-]. split; [done|]. cbn. lia. }
  intros (m & Hm & Hn)%outcome_bind_Ok. unfold ok_or in Hm. case_match eqn:E; [|done]. injection Hm as ->.
  apply bind_Some in E as (m1 & [-> L1]%checked_add_Some & [-> L2]%checked_add_Some).
  apply IH in Hn as [Hu ->]; [|unfold is_usize in *; lia]. split; [done|]. unfold zsum. cbn [foldr]. unfold frame_bytes at 2. lia.
Qed.

Lemma fail_dropping_spec `{!ReleaseTotal B} {A} r e b :
  0 <= rsize r <= reserved b ->
  exists b', @fail_dropping B _ A r e b = (Err e, b') /\ reserved b' = reserved b - rsize r.
Proof.
  intros Hr. unfold fail_dropping. destruct (host_drop_total r b Hr) as (b' & -> & Hb). by exists b'.
Qed.

Lemma route_admitted_settles `{!ReleaseTotal B} `{!LayoutLaws} `{!ArrowDataLaws} plan keys b broker cc bk :
  0 <= reserved bk -> is_u32 (max_parallelism plan) -> is_u32 (parallelism plan) ->
  match route_admitted plan keys b broker cc bk with
  | (Ok fr, bk') => reserved bk' = reserved bk + rsize (af_reservation fr) /\
      is_usize (rsize (af_reservation fr)) /\ frames_bytes (af_frames fr) = Ok (rsize (af_reservation fr)) /\
      Forall vecs_ok (af_frames fr)
  | (Err _, bk') => reserved bk' = reserved bk
  | (Panic, _) => True
  end.
Proof.
  intros Hbk Hmp Hp. unfold route_admitted.
  destruct (allowance _ _ _ _ _ _) as [[routing workspace]|e|] eqn:Ea; [|done|done].
  destruct (allowance_usize _ _ _ _ _ _ _ _ Hmp Hp Ea) as [Hr Hw].
  assert (is_usize (rsize (host_new broker "native exchange buffers"))) as Hnew by (unfold is_usize, USIZE_MAX; cbn; lia).
  pose proof (host_try_grow_balanced routing _ bk Hr Hnew) as Hg.
  destruct (host_try_grow _ _) as [[[]|e|] [r bk1]]; [| |done]; destruct Hg as [Hbal Hok].
  2: { destruct (bal_err _ _ _ _ _ Hbal e eq_refl) as [-> Hres].
       destruct (fail_dropping_spec (A := AccountedFrames) (host_new broker "native exchange buffers") e bk1) as (b2 & -> & Hb2);
         cbn in *; lia. }
  specialize (Hok eq_refl). pose proof (bal_total _ _ _ _ _ Hbal) as Ht. cbn [host_new rsize] in Ht, Hok.
  set (m := {| rm_reservation := r |}).
  pose proof (framing_spec (reserved bk) routing workspace b keys (max_parallelism plan) (parallelism plan)
    (preserve_key_groups plan) cc (m, bk1) Hw Hbk (proj1 Hr)) as Hfr.
  specialize (Hfr ltac:(split; cbn; [unfold is_usize in *; lia|lia]) ltac:(unfold covered; cbn; split_and!; try done; lia)).
  destruct (frame_hash_exchange_batch_accounted _ _ _ _ _ _ _) as [[frames|e|] [m1 bk2]] eqn:Ef; [| |done].
  2: { destruct Hfr as [Hu Hc]. cbn in Hu, Hc |- *.
       destruct (fail_dropping_spec (A := AccountedFrames) (rm_reservation m1) e bk2) as (b2 & -> & Hb2);
         unfold is_usize in *; lia. }
  destruct Hfr as [[Hu Hc] _]. cbn [fst snd] in Hu, Hc. rewrite outcome_bind_run.
  destruct (frames_bytes frames) as [n|e|] eqn:En; [|cbn|done].
  2: { destruct (fail_dropping_spec (A := AccountedFrames) (rm_reservation m1) e bk2) as (b2 & -> & Hb2);
         unfold is_usize in *; lia. }
  rewrite outcome_bind_run. pose proof (framed_vecs_ok _ _ _ _ _ _ _ _ _ Ef) as Hv.
  destruct (frames_bytes_Ok frames n Hv En) as [Hn _].
  assert (rsize (rm_reservation m1) <= reserved bk2) as Hle by lia.
  pose proof (resize_balanced n (rm_reservation m1) bk2 Hn Hu Hle) as Hz.
  destruct (resize n _) as [[[]|e|] [r3 bk3]]; destruct Hz as [Hbal3 Hok3]; [| |done].
  - specialize (Hok3 eq_refl). pose proof (bal_total _ _ _ _ _ Hbal3). cbn.
    split; [lia|]. rewrite Hok3. split; [exact Hn|]. split; [exact En|exact Hv].
  - destruct (bal_err _ _ _ _ _ Hbal3 e eq_refl) as [-> Hres].
    destruct (fail_dropping_spec (A := AccountedFrames) (rm_reservation m1) e bk3) as (b4 & -> & Hb4);
      unfold is_usize in *; lia.
Qed.

Lemma generated_bound_usize `{!ArrowDataLaws} b keys n : generated_bound b keys = Ok n -> is_usize n.
Proof.
  unfold generated_bound. intros (bound & E & Hk)%outcome_bind_Ok.
  apply outcome_bind_Ok in Hk as (four & [-> _]%mul_or_overflow_Ok & [-> L]%add_or_overflow_Ok).
  assert (0 <= bound); [|unfold is_usize; lia]. refine (try_fold_nonneg _ _ _ _ _ _ E).
  - intros x a c _ Ha Hc. apply outcome_bind_Ok in Hc as (arr & _ & Hc).
    apply outcome_bind_Ok in Hc as (m & Hm & [-> _]%add_or_overflow_Ok).
    pose proof (nested_key_bytes_nonneg _ _ (array_data_law arr) Hm). lia.
  - pose proof (num_rows_law b). unfold sat_mul, is_usize, USIZE_MAX in *. lia.
Qed.

Lemma append_keys_settles `{!ReleaseTotal B} `{!ArrowDataLaws} b keys broker bk :
  0 <= reserved bk ->
  match append_keys b keys broker bk with
  | (Ok (_, r), bk') => reserved bk' = reserved bk + rsize r /\ is_usize (rsize r)
  | (Err _, bk') => reserved bk' = reserved bk
  | (Panic, _) => True
  end.
Proof.
  intros Hbk. unfold append_keys. destruct (generated_bound b keys) as [n|e|] eqn:En; [|done|done].
  apply generated_bound_usize in En. set (r0 := host_new broker _).
  assert (is_usize (rsize r0)) as Hnew by (unfold is_usize, USIZE_MAX; cbn; lia).
  pose proof (resize_balanced n r0 bk En Hnew Hbk) as Hz.
  destruct (resize n _) as [[[]|e|] [r bk1]]; destruct Hz as [Hbal Hok]; [| |done].
  - pose proof (bal_total _ _ _ _ _ Hbal) as Ht. pose proof (bal_usize _ _ _ _ _ Hbal) as Hu. cbn [r0 host_new rsize] in Ht.
    set (generated := generate_keys _ _ _ _ _ ≫= _). destruct generated as [b'|e|]; [split; [lia|done]| |done].
    destruct (fail_dropping_spec (A := Batch * resv) r e bk1) as (b4 & -> & Hb4); unfold is_usize in *; lia.
  - destruct (bal_err _ _ _ _ _ Hbal e eq_refl) as [-> Hres].
    destruct (fail_dropping_spec (A := Batch * resv) r0 e bk1) as (b4 & -> & Hb4); cbn in *; lia.
Qed.
End accounting.

(** C16: Route a batch under a broker that keeps its books ([BrokerLaws]) and
    accepts every release. A success leaves the broker charged with exactly the
    reservation handed out with the frames, and that reservation is the size of
    what the frames own: the vector of descriptors plus the metadata and body
    capacities of each frame. The routing tables, the unused frame workspace and
    the generated key column have been returned. Any error returns everything. *)
Theorem routing_settles_memory `{HA : Arrow} `{!ArrowLaws} `{!ArrowData} `{!ArrowDataLaws} `{!ArrowIpc} `{!ArrowIpcLaws}
    `{!Layout} `{!LayoutLaws} `{HB : Broker B} `{!BrokerLaws B} `{!ReleaseTotal B} plan keys b broker bk :
  0 <= reserved bk -> is_u32 (max_parallelism plan) -> is_u32 (parallelism plan) ->
  match route_record_batch plan keys b broker bk with
  | (Ok fr, bk') =>
      reserved bk' = reserved bk + rsize (af_reservation fr) /\
      rsize (af_reservation fr) =
        sat_mul (frames_capacity (af_frames fr)) size_of_routed_frame +
        zsum (fun f => vcap (metadata (rf_frame f)) + vcap (body (rf_frame f))) (af_frames fr)
  | (Err _, bk') => reserved bk' = reserved bk
  | (Panic, _) => True
  end.
Proof.
  intros Hbk Hmp Hp. unfold route_record_batch.
  assert (forall keys b cc bk, 0 <= reserved bk -> match route_admitted plan keys b broker cc bk with
    | (Ok fr, bk') => reserved bk' = reserved bk + rsize (af_reservation fr) /\ is_usize (rsize (af_reservation fr)) /\
        rsize (af_reservation fr) = sat_mul (frames_capacity (af_frames fr)) size_of_routed_frame + zsum frame_bytes (af_frames fr)
    | (Err _, bk') => reserved bk' = reserved bk
    | (Panic, _) => True end) as Hadm.
  { intros keys' b' cc bk' Hb'. pose proof (route_admitted_settles plan keys' b' broker cc bk' Hb' Hmp Hp) as Hs.
    destruct (route_admitted _ _ _ _ _ _) as [[fr|e|] bk2]; [|done|done].
    destruct Hs as (Hs1 & Hs2 & Hs3 & Hs4). split; [done|]. split; [done|]. by apply frames_bytes_Ok. }
  destruct (is_generated plan); unfold mbind, M_bind, lift.
  - destruct (guard_ok _ _) as [[]|e|]; [|done|done].
    pose proof (append_keys_settles b keys broker bk Hbk) as Ha.
    destruct (append_keys b keys broker bk) as [[[b' r]|e|] bk1]; [|done|done]. destruct Ha as [Hr Hu].
    unfold drop_after. destruct (transport_columns plan) as [cc|e|]; [| |done].
    + specialize (Hadm [(num_columns b' - 1, PreencodedBinaryRow)] b' cc bk1 ltac:(unfold is_usize in *; lia)).
      destruct (route_admitted _ _ _ _ _ _) as [[fr|e|] bk2]; [| |done].
      * destruct Hadm as (Hs1 & Hs2 & Hs3). destruct (host_drop_total r bk2) as (b3 & -> & Hs4); [unfold is_usize in *; lia|].
        split; [lia|exact Hs3].
      * destruct (host_drop_total r bk2) as (b3 & -> & Hs4); unfold is_usize in *; lia.
    + destruct (host_drop_total r bk1) as (b3 & -> & Hs4); unfold is_usize in *; lia.
  - destruct (transport_columns plan) as [cc|e|]; [|done|done].
    specialize (Hadm keys b cc bk Hbk). destruct (route_admitted _ _ _ _ _ _) as [[fr|e|] bk2]; [|done|done].
    destruct Hadm as (Hs1 & Hs2 & Hs3). split; [exact Hs1|exact Hs3].
Qed.

(** ** The generated key column *)

Lemma generate_keys_Ok `{Arrow} b keys scratch total rows vals :
  generate_keys b keys scratch total rows = Ok vals ->
  Forall2 (fun row v => encode_binary_row b row keys = Ok v) rows vals /\
  (total <= I32_MAX -> total + zsum len vals <= I32_MAX).
Proof.
  revert scratch total vals. induction rows as [|row rows IH]; intros scratch total vals; cbn [generate_keys].
  { intros [= <-]. split; [constructor|]. cbn. lia. }
  destruct (encode_binary_row_into b row keys scratch) as [o out] eqn:E.
  intros ([] & -> & Hg)%outcome_bind_Ok. apply outcome_bind_Ok in Hg as (u & Hfit & Hg).
  apply outcome_bind_Ok in Hg as (rest & Hrest & [= <-]). apply IH in Hrest as [Hrows Htot].
  split; [constructor; [by eapply encode_scratch|done]|]. intros _.
  unfold guard_ok in Hfit. destruct (checked_add total (len out)) as [n|] eqn:En; [|done].
  apply checked_add_Some in En as [-> _]. destruct (Z.leb_spec (total + len out) I32_MAX); [|done].
  unfold zsum in *. cbn [foldr]. specialize (Htot ltac:(lia)). lia.
Qed.

Lemma append_keys_Ok `{HA : Arrow} `{!ArrowLaws} `{!ArrowData} `{!ArrowDataLaws} `{HB : Broker B} b keys broker bk b' r bk' :
  append_keys b keys broker bk = (Ok (b', r), bk') ->
  exists vals a v, Forall2 (fun row x => encode_binary_row b row keys = Ok x) (row_numbers (num_rows b)) vals /\
    num_rows b' = num_rows b /\ columns b' = columns b ++ [a] /\ as_bytes BinaryArray a = Some v /\
    forall i x, vals !! i = Some x -> is_null a (Z.of_nat i) = false /\ v (Z.of_nat i) = x.
Proof.
  unfold append_keys. destruct (generated_bound b keys) as [n|e|]; [|done|done].
  destruct (resize n _) as [[[]|e|] [memory bk1]]; [| |done].
  2: { unfold fail_dropping. by destruct (host_drop _ _) as [[] ?]. }
  destruct (generate_keys b keys [] 0 (row_numbers (num_rows b))) as [vals|e|] eqn:Eg; cbn [mbind outcome_bind].
  2, 3: unfold fail_dropping; try done; by destruct (host_drop _ _) as [[] ?].
  destruct (append_binary b vals) as [b2|e|] eqn:Eb; [| |done].
  2: { unfold fail_dropping. by destruct (host_drop _ _) as [[] ?]. }
  intros [= <- <- <-]. apply generate_keys_Ok in Eg as [Hrows Htot].
  specialize (Htot ltac:(unfold I32_MAX; lia)). destruct (append_binary_law b vals) as (b3 & a & v & E3 & Hn & Hc & Ha & Hv).
  - unfold len. rewrite <- (Forall2_length _ _ _ Hrows), row_numbers_len. pose proof (num_rows_law b). lia.
  - lia.
  - exists vals, a, v. rewrite E3 in Eb. injection Eb as <-. done.
Qed.

(** When the router generates the key column itself, every row keeps its
    key group: routing the extended batch on its new last column, read as
    preencoded keys, assigns the same key group to every row as encoding the
    declared key fields of the input batch row by row. *)
Theorem generated_column_keeps_key_groups `{HA : Arrow} `{!ArrowLaws} `{!ArrowData} `{!ArrowDataLaws} `{HB : Broker B}
    b keys mp broker bk b' r bk' kgs :
  existsb is_preencoded keys = false -> Forall (fun k => 0 <= k.1) keys ->
  key_groups b keys mp = Ok kgs -> append_keys b keys broker bk = (Ok (b', r), bk') ->
  key_groups b' [(num_columns b' - 1, PreencodedBinaryRow)] mp = Ok kgs.
Proof.
  intros Hpre Hpos Hk Ha. apply append_keys_Ok in Ha as (vals & a & v & Hrows & Hn & Hcols & Hbytes & Hv).
  revert Hk. unfold key_groups, guard_ok. rewrite Hn. destruct (U32_MAX <? _); [done|]. cbn [negb].
  destruct (existsb (fun f => num_columns b <=? f.1) keys) eqn:Hout; [done|]. cbn [negb]. rewrite !outcome_bind_run.
  assert (preencoded_column b keys = Ok None) as -> by (unfold preencoded_column; by rewrite Hpre).
  rewrite outcome_bind_run. intros Hc. assert (num_columns b' - 1 = num_columns b) as Hlast.
  { unfold num_columns, len. rewrite Hcols, length_app. simpl. lia. }
  cbn [existsb fst]. rewrite (proj2 (Z.leb_gt _ _)) by lia. cbn [orb negb]. rewrite outcome_bind_run, Hlast.
  assert (preencoded_column b' [(num_columns b, PreencodedBinaryRow)] = Ok (Some (a, v))) as ->.
  { unfold preencoded_column, column. assert (existsb is_preencoded [(num_columns b, PreencodedBinaryRow)] = true) as -> by reflexivity.
    rewrite (proj2 (Z.leb_le _ _)) by (unfold num_columns; apply len_nonneg).
    unfold num_columns, len. rewrite Nat2Z.id, Hcols, list_lookup_middle by done.
    rewrite outcome_bind_run. by rewrite Hbytes. }
  rewrite outcome_bind_run. apply collect_Ok. apply collect_Ok in Hc.
  apply Forall2_same_length_lookup. apply Forall2_same_length_lookup in Hc as [Hl Hc]. split; [done|].
  intros i row g Hrow Hg. specialize (Hc i row g Hrow Hg). revert Hc. unfold row_key_group. cbn [row_key].
  destruct (Forall2_lookup_l _ _ _ _ _ Hrows Hrow) as (x & Hx & He). rewrite He, outcome_bind_run.
  apply row_numbers_lookup in Hrow as [-> Hi]. destruct (Hv i x Hx) as [Hnull Hval].
  rewrite Hnull, Hval. unfold guard_ok. cbn [negb]. rewrite outcome_bind_run.
  assert (len x mod 4 = 0) as Hal; [|by rewrite Hal].
  pose proof (encode_flat_holds b (Z.of_nat i) keys []) as Hf.
  apply (encode_any_scratch _ _ _ []) in He. rewrite He in Hf. destruct Hf as [_ Hf]; [lia| |done|].
  - rewrite Forall_forall in Hpos |- *. intros k Hkin. split; [by apply Hpos|].
    apply not_true_iff_false in Hout. rewrite existsb_exists in Hout.
    destruct (Z.lt_ge_cases k.1 (num_columns b)); [done|]. exfalso. apply Hout. exists k.
    split; [by apply list_elem_of_In|]. lia.
  - apply Z.mod_divide in Hf as [q Hq]; [|done]. rewrite Hq. replace (q * 8) with (q * 2 * 4) by lia. apply Z_mod_mult.
Qed.
