(* ===== verification/ExchangeFixtures.v ===== *)
(** * The exchange on a concrete batch

    The batch of the sources' routing tests (keys -1, 0, 1 and 42) with a
    nullable binary column, and the theorems of the exchange applied to it. *)

From Stdlib Require Import ZArith Lia Strings.Byte.
From stdpp Require Import base list option numbers strings.
From S2P Require Import Prelude Bytes KeyGroup Arrow BinaryRow BinaryRowSafe BinaryRowLayout.
From S2P Require Import OrdMap MemoryPool Routing RoutingSpec Framing FramingSpec ArrowFixture ExchangePlan.
From S2P Require Import ManagedRouting ManagedRoutingSpec.

Definition demo : Batch :=
  {| crows := 4;
     craw := [CInt [Some (-1); Some 0; Some 1; Some 42];
              CBin [Some [x61]; None; Some [x62; x63]; Some (replicate 9 x64)]] |}.
Definition demo_keys : list (Z * KeyField) := [(0, Integer); (1, KBinary)].

(** The destinations the sources' tests expect. *)
Example demo_routing : routing_rows demo [(0, Integer)] 128 4 = Ok [[]; []; [2; 3]; [0; 1]].
Proof. vm_compute. reflexivity. Qed.

Lemma binary_row_encoder_safe_witness :
  exists out, encode_binary_row_into demo 3 demo_keys [xff] = (Ok tt, out) /\ len out mod 8 = 0.
Proof.
  destruct (binary_row_encoder_safe demo 3 demo_keys [xff]) as [_ H].
  - vm_compute. split; congruence.
  - repeat constructor; vm_compute; congruence.
  - destruct (encode_binary_row_into demo 3 demo_keys [xff]) as [o out] eqn:E.
    assert (o = Ok tt) as -> by (vm_compute in E; congruence).
    exists out. split; [done|]. apply (H out); [done|vm_compute; reflexivity].
Defined.

Lemma binary_row_reads_back_witness :
  exists out, encode_binary_row_into demo 3 demo_keys [] = (Ok tt, out) /\
    read_field 2 Integer out 0 = Some (VInt 42) /\
    read_field 2 KBinary out 1 = Some (VBytes (replicate 9 x64)).
Proof.
  destruct (binary_row_reads_back demo 3 demo_keys []) as (out & Ho & Hr).
  - vm_compute. split; congruence.
  - constructor; [|constructor; [|constructor]]; (split; [done|]); eexists; (split; [vm_compute; reflexivity|]);
      right; eexists; vm_compute; reflexivity.
  - exists out. split; [done|].
    assert (len out < 2 ^ 31) as Hl.
    { vm_compute in Ho. injection Ho as <-. vm_compute. reflexivity. }
    split.
    + exact (proj2 (Hr Hl 0%nat (0, Integer) _ eq_refl eq_refl) eq_refl).
    + exact (proj2 (Hr Hl 1%nat (1, KBinary) _ eq_refl eq_refl) eq_refl).
Defined.

(** The two batches the aligned frames carry. *)
Definition demo_sent : list cbatch :=
  [{| crows := 2; craw := [CInt [Some 1; Some 42]] |}; {| crows := 2; craw := [CInt [Some (-1); Some 0]] |}].
Definition demo_ipc : ArrowIpc := ipc_of demo_sent.
Lemma demo_ipc_laws : @ArrowIpcLaws fixture_arrow demo_ipc.
Proof. apply ipc_of_laws. simpl. lia. Qed.

Lemma exchange_delivers_rows_witness :
  exists frames,
    frame_hash_exchange_batch_projected (H0 := demo_ipc) demo [(0, Integer)] 128 4 false 1 = Ok frames /\
    concat (map (frame_rows (HI := demo_ipc) [DInt32])
      (filter (fun f => destination_of 128 4 (rf_key_group f) = 2) frames)) = [[CZ 1]; [CZ 42]].
Proof.
  pose proof demo_ipc_laws as Hlaws.
  destruct (frame_hash_exchange_batch_accounted (H0 := demo_ipc) (Mem := unit) demo [(0, Integer)] 128 4 false 1 tt)
    as [o m] eqn:E.
  destruct o as [frames|e|]; [|vm_compute in E; congruence..].
  destruct (exchange_delivers_rows (H0 := demo_ipc) demo [(0, Integer)] 128 4 false 1
    {| crows := 4; craw := [CInt [Some (-1); Some 0; Some 1; Some 42]] |} tt frames m) as (kgs & Hk & _ & Hd).
  - lia.
  - lia.
  - vm_compute. split; congruence.
  - vm_compute. reflexivity.
  - done.
  - exists frames. split; [unfold frame_hash_exchange_batch_projected; by rewrite E|].
    specialize (Hd 2 ltac:(lia)).
    assert (kgs = [106; 102; 94; 69]) as -> by (vm_compute in Hk; congruence).
    etransitivity; [exact Hd|]. vm_compute. reflexivity.
Defined.

Lemma exchange_never_panics_witness :
  fst (frame_hash_exchange_batch_accounted (H0 := demo_ipc) (Mem := unit) demo [(7, Integer)] 0 9 true 5 tt) <> Panic.
Proof.
  pose proof demo_ipc_laws as Hlaws.
  apply (exchange_never_panics (H0 := demo_ipc) (Mem := unit) demo [(7, Integer)] 0 9 true 5).
  - apply safe_ret.
  - intros f. apply safe_ret.
  - repeat constructor; simpl; lia.
  - unfold is_u32. vm_compute. split; congruence.
  - unfold is_u32. vm_compute. split; congruence.
  - lia.
Defined.

(** ** A plan *)

Definition demo_plan : NativeExchangePlan := {|
  protocol_version := 2;
  plan_schema := Some [Some (Logical false (Some (TyTimestamp 5))); Some (Logical false (Some TyTinyint));
                       Some (Logical true (Some TyBigint))];
  distribution := 2; key_indices := [0]; max_parallelism := 128; transport := 2;
  metadata_columns := Some {| row_kind_index := 1; stream_record_timestamp_index := Some 2;
                              routing_key_index := None |};
  parallelism := 4; preserve_key_groups := true; transport_routing_key := true |}.

Lemma demo_plan_unsigned : plan_unsigned demo_plan.
Proof.
  split; [vm_compute; split; congruence|vm_compute; split; congruence|repeat constructor; lia|].
  intros meta [= <-]. simpl. split_and!; [lia|naive_solver lia|done].
Qed.

Lemma exchange_plan_validated_witness :
  validate demo_plan = Ok tt /\ exists fields meta, plan_valid demo_plan fields meta.
Proof.
  split; [vm_compute; reflexivity|].
  apply (exchange_plan_validated demo_plan demo_plan_unsigned). vm_compute. reflexivity.
Defined.

Lemma exchange_keys_match_columns_witness :
  exists kind, from_arrow_type (DTimestamp Microsecond) = Ok kind /\
    forall w pos a row, write_value w pos a row (Timestamp 5) = write_value w pos a row kind.
Proof.
  pose proof (exchange_keys_match_columns
    [Some (Logical false (Some (TyTimestamp 5)))] 0 false (TyTimestamp 5) 0 (Timestamp 5)
    [DTimestamp Microsecond] (DTimestamp Microsecond)) as Hm.
  cbn [late_time] in Hm. apply Hm; [reflexivity|simpl; lia|reflexivity..].
Defined.

(** ** Routing under a budget *)

#[global] Instance fixture_data : ArrowData := {|
  array_data := fun a => AD (ctype a) (Z.of_nat (clen a)) [8 * Z.of_nat (clen a)] [];
  append_binary := fun b vals => Ok {| crows := crows b; craw := craw b ++ [CBin (map Some vals)] |};
|}.
#[global] Instance fixture_data_laws : ArrowDataLaws.
Proof.
  split.
  - intros a. simpl. split; [lia|]. split; [repeat constructor; lia|done].
  - intros b vals Hl Hsum. simpl in Hl. exists {| crows := crows b; craw := craw b ++ [CBin (map Some vals)] |}.
    eexists (fit 0 (crows b) (CBin (map Some vals))), _. split_and!; [done|done|simpl; unfold ccolumns; simpl; by rewrite map_app|done|].
    intros i x Hx. simpl. unfold cnull. simpl. pose proof (lookup_lt_Some _ _ _ Hx).
    rewrite Nat2Z.id, fit_list_lookup by (unfold len in Hl; lia). simpl. rewrite (list_lookup_fmap Some), Hx. simpl.
    split; [done|]. pose proof (zsum_lookup_le len vals i x) as Hle.
    rewrite (proj2 (Z.leb_le _ _)); [done|]. etransitivity; [apply Hle|exact Hsum]; [|done]. intros a _. apply len_nonneg.
Qed.
#[global] Instance fixture_layout : Layout := {|
  size_of_vec_u32 := 24; size_of_routed_batch := 72; size_of_routed_frame := 56; frames_capacity := len |}.
#[global] Instance fixture_layout_laws : LayoutLaws.
Proof. split; simpl; lia. Qed.

Definition managed_plan : NativeExchangePlan := {|
  protocol_version := 2;
  plan_schema := Some [Some (Logical false (Some TyInteger)); Some (Logical true (Some TyBigint))];
  distribution := 2; key_indices := [0]; max_parallelism := 128; transport := 2;
  metadata_columns := Some {| row_kind_index := 1; stream_record_timestamp_index := None; routing_key_index := None |};
  parallelism := 4; preserve_key_groups := false; transport_routing_key := true |}.

Definition managed_sent : list cbatch :=
  [{| crows := 2; craw := [CInt [Some 1; Some 42]; CBin [Some [x62; x63]; Some (replicate 9 x64)];
        CBin [Some (replicate 8 x00 ++ [x01] ++ replicate 7 x00); Some (replicate 8 x00 ++ [x2a] ++ replicate 7 x00)]] |};
   {| crows := 2; craw := [CInt [Some (-1); Some 0]; CBin [Some [x61]; None];
        CBin [Some (replicate 8 x00 ++ replicate 4 xff ++ replicate 4 x00); Some (replicate 16 x00)]] |}].
Definition managed_ipc : ArrowIpc := ipc_of managed_sent.
Lemma managed_ipc_laws : @ArrowIpcLaws fixture_arrow managed_ipc.
Proof. apply ipc_of_laws. simpl. lia. Qed.

Lemma routing_settles_memory_witness :
  exists fr, route_record_batch (HI := managed_ipc) managed_plan [(0, Integer)] demo 0 (Budget 7 1000000) =
      (Ok fr, Budget (7 + rsize (af_reservation fr)) 1000000) /\ rsize (af_reservation fr) = 114.
Proof.
  pose proof managed_ipc_laws as Hlaws.
  pose proof (routing_settles_memory (H2 := managed_ipc) managed_plan [(0, Integer)] demo 0 (Budget 7 1000000)) as Hs.
  destruct (route_record_batch _ _ _ _ _) as [o bk] eqn:E.
  destruct o as [fr|e|]; [|vm_compute in E; congruence..].
  destruct Hs as [Hr Hsize]; [simpl; lia|vm_compute; split; congruence..|].
  exists fr. vm_compute in E. injection E as <- <-. split; [|exact Hsize]. reflexivity.
Defined.

Lemma generated_column_keeps_key_groups_witness :
  exists b', num_columns b' = 3 /\ key_groups b' [(2, PreencodedBinaryRow)] 128 = Ok [106; 102; 94; 69].
Proof.
  destruct (append_keys demo [(0, Integer)] 0 (Budget 0 1000000)) as [o bk] eqn:E.
  destruct o as [[b' r]|e|]; [|vm_compute in E; congruence..].
  pose proof (generated_column_keeps_key_groups demo [(0, Integer)] 128 0 (Budget 0 1000000) b' r bk [106; 102; 94; 69]
    eq_refl) as Hk. specialize (Hk ltac:(repeat constructor; simpl; lia) ltac:(vm_compute; reflexivity) E).
  assert (num_columns b' = 3) as Hn by (vm_compute in E; injection E as <- _ _; vm_compute; reflexivity).
  exists b'. rewrite Hn in Hk. split; [exact Hn|exact Hk].
Defined.
