(* ===== verification/Deduplicate.v ===== *)
(** * Deduplication: [operators/deduplicate.rs], [deduplicate/rowtime.rs], [deduplicate/datafusion_rowtime.rs]

    The keyed operator that keeps the first or the last row of a key, by arrival
    or by a timestamp, or follows a changelog. A batch is one read and one write
    of the keyed state; rows of the batch that share a key see each other through
    staged values. The state is any backend behind [KeyedState]. *)

From Stdlib Require Import ZArith Lia Strings.Byte.
From stdpp Require Import base list option numbers strings.
From S2P Require Import Prelude Bytes MemoryPool OrderedState KeyedState KeyGroup Arrow Envelope BinaryRow Routing.

Definition INSERT : Z := 0.
Definition UPDATE_BEFORE : Z := 1.
Definition UPDATE_AFTER : Z := 2.
Definition DELETE : Z := 3.

(** The plan message. *)
Record Deduplicate : Type := {
  key_indices : list Z;
  order_index : Z;
  keep_last : bool;
  generate_insert : bool;
  input_changelog : bool;
  generate_update_before : bool;
  processing_time : bool;
}.
Definition validate_plan (plan : Deduplicate) (max_parallelism : Z) : outcome unit :=
  _ ← guard_ok (negb (bool_decide (key_indices plan = []))) (Plan "deduplicate requires at least one key field");
  guard_ok (negb ((max_parallelism =? 0) || (32768 <? max_parallelism))) (Plan "deduplicate max parallelism is outside 1..=32768").

(** ** Kernels of Arrow and DataFusion *)

(** [RowConverter]: the rows of columns as byte strings. *)
Class RowConverters `{Arrow} : Type := {
  RowConverter : Type;
  converter_new : list DataType -> outcome RowConverter;
  convert_columns : RowConverter -> list Array -> outcome (list bytes);
}.
(** The window aggregate MAX (or MIN) from the first row to the current one. *)
Class WindowKernels : Type := { running_extremum : bool -> list Z -> outcome (list Z) }.

#[global] Instance StateKeyRef_eq : EqDecision StateKeyRef.
Proof. solve_decision. Defined.

(** ** Stored values *)

Definition encode_value (order_millis : Z) (row : option bytes) : bytes := i64_le order_millis ++ default [] row.
Definition decode_order (value : bytes) : outcome Z :=
  if len value <? 8 then Err (Execution "deduplicate state value is shorter than its ordering field")
  else Ok (i64_of_le (take 8 value)).
Definition decode_stored_row (value : bytes) : outcome bytes :=
  if (len value <? 8) || (len value =? 8) then Err (Execution "deduplicate state has no stored BinaryRow for retraction")
  else Ok (drop 8 value).

(** ** Staged rows *)

(** The rows of a batch write into [staged_values]; a key points to its last slot
    and a slot that was replaced is empty. *)
Record Work (W : Type) : Type := {
  staged : list (StateKeyRef * Z);
  staged_values : list (option (Z * W));
  w_content : list Z;
  w_envelope : list Z;
  w_kinds : list Z;
  w_stored : option (list (option bytes));
}.
Arguments staged {W}. Arguments staged_values {W}. Arguments w_content {W}. Arguments w_envelope {W}. Arguments w_kinds {W}. Arguments w_stored {W}.
Definition no_work {W} (stored : option (list (option bytes))) : Work W :=
  {| staged := []; staged_values := []; w_content := []; w_envelope := []; w_kinds := []; w_stored := stored |}.

(** [HashMap::get] and [insert]. *)
Fixpoint staged_get (key : StateKeyRef) (l : list (StateKeyRef * Z)) : option Z :=
  match l with
  | [] => None
  | (k, i) :: l => if decide (k = key) then Some i else staged_get key l
  end.
Fixpoint staged_put (key : StateKeyRef) (i : Z) (l : list (StateKeyRef * Z)) : list (StateKeyRef * Z) :=
  match l with
  | [] => [(key, i)]
  | (k, j) :: l => if decide (k = key) then (k, i) :: l else (k, j) :: staged_put key i l
  end.
(** [v[i] = x] panics outside the vector. *)
Definition set_index {A} (l : list A) (i : Z) (x : A) : outcome (list A) :=
  if (0 <=? i) && (i <? len l) then Ok (<[Z.to_nat i := x]> l) else Panic.
Definition replace_staged {W} (key : StateKeyRef) (row : Z) (value : W) (w : Work W) : outcome (Work W) :=
  slots ← match staged_get key (staged w) with
          | Some previous => set_index (staged_values w) previous None
          | None => Ok (staged_values w)
          end;
  Ok {| staged := staged_put key (len (staged_values w)) (staged w); staged_values := slots ++ [Some (row, value)];
        w_content := w_content w; w_envelope := w_envelope w; w_kinds := w_kinds w; w_stored := w_stored w |}.
Definition push_output {W} (content envelope kind : Z) (stored : option bytes) (w : Work W) : Work W :=
  {| staged := staged w; staged_values := staged_values w; w_content := w_content w ++ [content];
     w_envelope := w_envelope w ++ [envelope]; w_kinds := w_kinds w ++ [kind];
     w_stored := option_map (fun l => l ++ [stored]) (w_stored w) |}.
Definition row_ordinal (row : Z) : outcome Z :=
  if row <=? I32_MAX then Ok row else Err (Execution "deduplicate batch exceeds Int32 indexing").

(** [for row in 0..batch.num_rows()]. *)
Fixpoint over_rows {W} (body : Z -> W -> outcome W) (rows : list Z) (w : W) : outcome W :=
  match rows with
  | [] => Ok w
  | row :: rows => w ← body row w; over_rows body rows w
  end.

(** The last staged value of every row, then the mutations in row order. *)
Fixpoint final_values {W} (slots : list (option (Z * W))) (finals : list (option W)) : outcome (list (option W)) :=
  match slots with
  | [] => Ok finals
  | None :: slots => final_values slots finals
  | Some (row, v) :: slots => finals ← set_index finals row (Some v); final_values slots finals
  end.
Definition key_mutation (key : Z * vec) (value : option vec) : StateMutation :=
  {| mkey := {| key_group := key.1; skey := key.2 |}; mvalue := value |}.
Fixpoint zip_mutations {W} (value : W -> option vec) (keys : list (Z * vec)) (finals : list (option W)) : list StateMutation :=
  match keys, finals with
  | key :: keys, Some v :: finals => key_mutation key (value v) :: zip_mutations value keys finals
  | _ :: keys, None :: finals => zip_mutations value keys finals
  | _, _ => []
  end.
Definition batch_mutations {W} (value : W -> option vec) (keys : list (Z * vec)) (n : Z) (w : Work W) : outcome (list StateMutation) :=
  finals ← final_values (staged_values w) (replicate (Z.to_nat n) None);
  Ok (zip_mutations value keys finals).

Section rows.
Context (plan : Deduplicate) (refs : list StateKeyRef) (existing : list (option bytes)).

(** *** First row by arrival *)

Definition first_row (keys : list (Z * vec)) (row : Z) (w : list StateKeyRef * list Z * list StateMutation) :
    outcome (list StateKeyRef * list Z * list StateMutation) :=
  let '(seen, ordinals, mutations) := w in
  key ← at_index refs row;
  old ← at_index existing row;
  if bool_decide (is_Some old) || bool_decide (key ∈ seen) then Ok (seen, ordinals, mutations)
  else
    ordinal ← row_ordinal row;
    k ← at_index keys row;
    Ok (seen ++ [key], ordinals ++ [ordinal], mutations ++ [key_mutation (k.1, to_vec (vdata k.2)) (Some (to_vec [x01]))]).

(** *** Last row by arrival *)

(** What the state holds for the key of a row, staged rows included. *)
Definition previous_value (row : Z) (key : StateKeyRef) (w : Work bytes) : outcome (option bytes) :=
  match staged_get key (staged w) with
  | Some i =>
      slot ← at_index (staged_values w) i;
      match slot with Some (_, v) => Ok (Some v) | None => at_index existing row end
  | None => at_index existing row
  end.
Definition last_row (encoded : list bytes) (row : Z) (w : Work bytes) : outcome (Work bytes) :=
  key ← at_index refs row;
  previous ← previous_value row key w;
  current ← at_index encoded row;
  if bool_decide (previous = Some current) then Ok w
  else
    w ← replace_staged key row current w;
    ordinal ← row_ordinal row;
    let w := match (if generate_update_before plan then previous else None) with
             | Some previous => push_output (-1) ordinal UPDATE_BEFORE (Some previous) w
             | None => w
             end in
    Ok (push_output ordinal ordinal (match previous with None => INSERT | Some _ => UPDATE_AFTER end) None w).

(** *** Changelogs *)

Definition previous_change (row : Z) (key : StateKeyRef) (w : Work (option bytes)) : outcome (option bytes) :=
  match staged_get key (staged w) with
  | Some i =>
      slot ← at_index (staged_values w) i;
      match slot with Some (_, v) => Ok v | None => Panic end
  | None => at_index existing row
  end.
Definition change_row (stored : Z -> outcome bytes) (kind : Z -> outcome Z) (row : Z) (w : Work (option bytes)) : outcome (Work (option bytes)) :=
  key ← at_index refs row;
  previous ← previous_change row key w;
  kind ← kind row;
  if (kind =? INSERT) || (kind =? UPDATE_AFTER) then
    current ← stored row;
    if bool_decide (previous = Some current) then Ok w
    else
      w ← match previous with
          | Some previous =>
              w ← (if generate_update_before plan then
                     ordinal ← row_ordinal row; Ok (push_output (-1) ordinal UPDATE_BEFORE (Some previous) w)
                   else Ok w);
              ordinal ← row_ordinal row;
              Ok (push_output ordinal ordinal UPDATE_AFTER None w)
          | None => ordinal ← row_ordinal row; Ok (push_output ordinal ordinal INSERT None w)
          end;
      replace_staged key row (Some current) w
  else if (kind =? UPDATE_BEFORE) || (kind =? DELETE) then
    match previous with
    | Some previous =>
        ordinal ← row_ordinal row;
        replace_staged key row None (push_output (-1) ordinal DELETE (Some previous) w)
    | None => Ok w
    end
  else Err (Execution "unknown Flink RowKind byte").

(** *** First or last row by a timestamp *)

(** [HashMap<StateKeyRef, Vec<usize>>]. The groups write disjoint rows, so the
    order in which they are visited does not matter. *)
Fixpoint add_to_group (key : StateKeyRef) (row : Z) (groups : list (StateKeyRef * list Z)) : list (StateKeyRef * list Z) :=
  match groups with
  | [] => [(key, [row])]
  | (k, rows) :: groups => if decide (k = key) then (k, rows ++ [row]) :: groups else (k, rows) :: add_to_group key row groups
  end.
Fixpoint group_rows (row : Z) (refs : list StateKeyRef) (groups : list (StateKeyRef * list Z)) : list (StateKeyRef * list Z) :=
  match refs with
  | [] => groups
  | key :: refs => group_rows (row + 1) refs (add_to_group key row groups)
  end.
Definition transpose {A} (o : option (outcome A)) : outcome (option A) :=
  match o with None => Ok None | Some (Ok a) => Ok (Some a) | Some (Err e) => Err e | Some Panic => Panic end.
Fixpoint mark_winners (orders extrema : list Z) (offset index : Z) (rows : list Z) (winners : list bool) : outcome (list bool) :=
  match rows with
  | [] => Ok winners
  | row :: rows =>
      let position := offset + index in
      order ← at_index orders row;
      won ← (if keep_last plan then extremum ← at_index extrema position; Ok (order =? extremum)
             else if position =? 0 then Ok true
             else extremum ← at_index extrema (position - 1); Ok (order <? extremum));
      winners ← set_index winners row won;
      mark_winners orders extrema offset (index + 1) rows winners
  end.
Section winners.
Context `{WindowKernels}.
Definition group_winners (orders : list Z) (rows : list Z) (winners : list bool) : outcome (list bool) :=
  first ← at_index rows 0;
  old ← at_index existing first;
  prior ← transpose (option_map decode_order old);
  values ← collect (at_index orders) rows;
  extrema ← running_extremum (keep_last plan) (match prior with Some p => [p] | None => [] end ++ values);
  mark_winners orders extrema (match prior with Some _ => 1 | None => 0 end) 0 rows winners.
Fixpoint all_winners (orders : list Z) (groups : list (StateKeyRef * list Z)) (winners : list bool) : outcome (list bool) :=
  match groups with
  | [] => Ok winners
  | (_, rows) :: groups => winners ← group_winners orders rows winners; all_winners orders groups winners
  end.
End winners.

Definition rowtime_row (orders : list Z) (winners : list bool) (sidecar : option (Z -> outcome bytes)) (encoded : option (list bytes))
    (row : Z) (w : Work bytes) : outcome (Work bytes) :=
  won ← at_index winners row;
  if negb won then Ok w
  else
    order ← at_index orders row;
    key ← at_index refs row;
    previous ← previous_value row key w;
    previous_order ← transpose (option_map decode_order previous);
    previous_stored ← (if generate_update_before plan then transpose (option_map decode_stored_row previous) else Ok None);
    encoded_row ← transpose (option_map (fun rows => at_index rows row) encoded);
    current ← match sidecar with Some rows => v ← rows row; Ok (Some v) | None => Ok encoded_row end;
    w ← replace_staged key row (encode_value order current) w;
    ordinal ← row_ordinal row;
    let w := match (if generate_update_before plan then previous_stored else None) with
             | Some previous => push_output (-1) ordinal UPDATE_BEFORE (Some previous) w
             | None => w
             end in
    Ok (push_output ordinal ordinal
          (if bool_decide (previous_order = None) && (generate_insert plan || generate_update_before plan) then INSERT else UPDATE_AFTER) None w).
End rows.

(** ** Reading a batch *)

Section loading.
Context {St B : Type} `{Broker B} `{!KeyedState St B}.
(** [state/workspace.rs]. *)
Fixpoint decoded_bytes (total : Z) (values : list (option bytes)) : outcome Z :=
  match values with
  | [] => Ok total
  | None :: values => decoded_bytes total values
  | Some v :: values =>
      total ← ok_or (ResourcesExhausted "loaded native state size overflow") (checked_add total (len v));
      decoded_bytes total values
  end.
Definition reserve_decoded_values (values : list (option bytes)) (owner : resv) : M B resv := fun b =>
  match decoded_bytes 0 values with
  | Ok n =>
      match host_try_grow (sat_add (sat_mul n 8) (sat_mul (len values) 64)) (sibling owner "native decoded state batch workspace", b) with
      | (Ok _, (r, b)) => (Ok r, b)
      | (Err e, (r, b)) => fail_dropping r e b
      | (Panic, (_, b)) => (Panic, b)
      end
  | Err e => (Err e, b)
  | Panic => (Panic, b)
  end.
Definition load (s : St) (owner : resv) (refs : list StateKeyRef) : M B (StateReadBatch * resv) := fun b =>
  match ks_get_batch s refs owner b with
  | (Ok reads, b) =>
      match reserve_decoded_values (rb_values reads) owner b with
      | (Ok workspace, b) => (Ok (reads, workspace), b)
      | (Err e, b) => fail_dropping (rb_reservation reads) e b
      | (Panic, b) => (Panic, b)
      end
  | (Err e, b) => (Err e, b)
  | (Panic, b) => (Panic, b)
  end.
(** Locals are dropped in the reverse order of their declaration. *)
Fixpoint drop_all (rs : list resv) : M B unit :=
  match rs with
  | [] => mret tt
  | r :: rs => _ ← host_drop r; drop_all rs
  end.
Definition fail_all {P A} (rs : list resv) (e : error) : M (P * B) A := _ ← on_broker (drop_all rs); throw e.
Definition or_fail {P A} (m : M (P * B) A) (rs : list resv) : M (P * B) A := fun pb =>
  match m pb with
  | (Err e, pb) => fail_all rs e pb
  | r => r
  end.
End loading.

(** ** Timestamps *)

Section processor.
Context `{ArrowSchema} `{!RowConverters} `{!WindowKernels}.

Definition bad_timestamp : error := Execution "deduplicate timestamp is outside Flink's range".
Definition downcast_value (c : FixedArray) (a : Array) (row : Z) : outcome Z :=
  v ← expect (ok_or bad_timestamp (as_fixed c a));
  if (0 <=? row) && (row <? array_len a) then Ok (v row) else Panic.
Definition timestamp_millis (a : Array) (row : Z) : outcome Z :=
  if is_null a row then Err (Execution "deduplicate ordering timestamp must not be null")
  else
    match data_type a with
    | DTimestamp Second => v ← downcast_value TimestampSecondArray a row; ok_or bad_timestamp (i64_checked_mul v 1000)
    | DTimestamp Millisecond => downcast_value TimestampMillisecondArray a row
    | DTimestamp Microsecond => v ← downcast_value TimestampMicrosecondArray a row; Ok (v / 1000)
    | DTimestamp Nanosecond => v ← downcast_value TimestampNanosecondArray a row; Ok (v / 1000000)
    | _ => Err (Execution "deduplicate expected timestamp ordering input")
    end.

(** ** The processor *)

Context {St B : Type} `{Broker B} `{!KeyedState St B}.
(** The capacity of the vector a key was encoded into. *)
Context (key_capacity : bytes -> Z).

Record DeduplicateProcessor : Type := {
  plan : Deduplicate;
  max_parallelism : Z;
  state : St;
  scratch_reservation : resv;
  input_schema : option (list Field);
  key_fields : list (Z * KeyField);
  preencoded_key_index : option Z;
  stored_row_index : option Z;
  input_kind_index : option Z;
  visible_count : option Z;
  row_converter : option RowConverter;
  control_reservation : resv;
  schema_reservation : option resv;
}.
Definition set_state (s : St) (p : DeduplicateProcessor) : DeduplicateProcessor :=
  {| plan := plan p; max_parallelism := max_parallelism p; state := s; scratch_reservation := scratch_reservation p;
     input_schema := input_schema p; key_fields := key_fields p; preencoded_key_index := preencoded_key_index p;
     stored_row_index := stored_row_index p; input_kind_index := input_kind_index p; visible_count := visible_count p;
     row_converter := row_converter p; control_reservation := control_reservation p; schema_reservation := schema_reservation p |}.
(** [content] is the input row of an output row, or -1 when it is a stored one. *)
Record Selection : Type := {
  content_ordinals : list Z;
  envelope_ordinals : list Z;
  row_kinds : list Z;
  sel_stored_rows : option (list (option bytes));
  input_rows : option (list bytes);
  historical_memory : option resv;
}.
Abbreviation DM := (M (DeduplicateProcessor * B)).

(** *** The schema of the first batch *)

Definition flatten_min (l : list (option Z)) : option Z :=
  fold_left (fun m o => match m, o with
                        | Some m, Some x => Some (Z.min m x)
                        | None, o => o
                        | m, None => m
                        end) l None.
Definition no_visible : error := Execution "deduplicate input has no visible columns".
Definition schema_key (plan : Deduplicate) (fields : list Field) (visible index : Z) : outcome (Z * KeyField) :=
  f ← ok_or (Plan "deduplicate key index is outside the input fields")
        (if (0 <=? index) && (index <? visible) then fields !! Z.to_nat index else None);
  kind ← from_arrow_type (field_type f);
  Ok (index, kind).
Definition is_timestamp (t : DataType) : bool := match t with DTimestamp _ => true | _ => false end.

(** What the schema says of the batch: the checks of [prepare_schema] in order. *)
Record SchemaFacts : Type := {
  sf_keys : list (Z * KeyField);
  sf_preencoded : option Z;
  sf_stored : option Z;
  sf_kind : option Z;
  sf_visible : Z;
  sf_converter : RowConverter;
}.
Definition analyse_schema (plan : Deduplicate) (fields : list Field) (column_count : Z) : outcome SchemaFacts :=
  let preencoded := position (has_name "__streamfusion_key") fields in
  let stored := position (has_name "__streamfusion_stored_row") fields in
  let kind := position is_kind_field fields in
  let ordinal := position (has_name "__streamfusion_input_row") fields in
  owned ← owned_timestamp_index fields;
  visible ← ok_or no_visible (flatten_min [preencoded; stored; kind; ordinal; owned; Some column_count]);
  _ ← guard_ok (negb (visible =? 0)) no_visible;
  _ ← guard_ok (negb (input_changelog plan && bool_decide (stored = None))) (Execution "deduplicate plan requires stored BinaryRow metadata");
  _ ← guard_ok (negb (input_changelog plan && bool_decide (kind = None))) (Execution "changelog deduplicate requires input RowKind metadata");
  let rowtime := negb (input_changelog plan) && negb (processing_time plan) in
  _ ← guard_ok (negb (rowtime && (visible <=? order_index plan))) (Plan "deduplicate order index is outside the input fields");
  _ ← (if rowtime : bool then
         f ← at_index fields (order_index plan);
         guard_ok (is_timestamp (field_type f)) (Plan "deduplicate ordering field must be a timestamp")
       else Ok tt);
  _ ← match ordinal with
      | Some i => f ← at_index fields i; guard_ok (has_type DInt32 f && negb (nullable f)) (Plan "deduplicate input ordinal must be non-null Int32")
      | None => Ok tt
      end;
  keys ← match preencoded with
         | None => collect (schema_key plan fields visible) (key_indices plan)
         | Some _ => Ok []
         end;
  converter ← (if visible <=? len fields then converter_new (map field_type (take (Z.to_nat visible) fields)) else Panic);
  Ok {| sf_keys := keys; sf_preencoded := preencoded; sf_stored := stored; sf_kind := kind; sf_visible := visible; sf_converter := converter |}.
Definition install_schema (fields : list Field) (facts : SchemaFacts) (r : resv) (p : DeduplicateProcessor) : DeduplicateProcessor :=
  {| plan := plan p; max_parallelism := max_parallelism p; state := state p; scratch_reservation := scratch_reservation p;
     input_schema := Some fields; key_fields := sf_keys facts; preencoded_key_index := sf_preencoded facts;
     stored_row_index := sf_stored facts; input_kind_index := sf_kind facts; visible_count := Some (sf_visible facts);
     row_converter := Some (sf_converter facts); control_reservation := control_reservation p; schema_reservation := Some r |}.
Definition schema_bytes (fields : list Field) : Z := fold_left (fun n f => sat_add n (sat_mul (field_size f) 16)) fields 4096.
Definition prepare_schema (batch : Batch) : DM unit := fun '(p, b) =>
  match input_schema p with
  | Some expected =>
      if decide (expected = batch_schema batch) then (Ok tt, (p, b))
      else (Err (Execution "deduplicate input schema changed while the operator was running"), (p, b))
  | None =>
      match reserve_sibling (control_reservation p) "deduplicate retained schema" (schema_bytes (batch_schema batch)) b with
      | (Ok r, b) =>
          match analyse_schema (plan p) (batch_schema batch) (num_columns batch) with
          | Ok facts => (Ok tt, (install_schema (batch_schema batch) facts r p, b))
          | Err e => let '(o, b) := fail_dropping r e b in (o, (p, b))
          | Panic => (Panic, (p, b))
          end
      | (Err e, b) => (Err e, (p, b))
      | (Panic, b) => (Panic, (p, b))
      end
  end.

(** *** Keys and rows of a batch *)

Definition not_binary (what : string) : error := Execution what.
Definition binary_value (v : Z -> bytes) (a : Array) (row : Z) : outcome bytes :=
  if (0 <=? row) && (row <? array_len a) then Ok (v row) else Panic.
Definition state_key (p : DeduplicateProcessor) (batch : Batch) (row : Z) : outcome (Z * vec) :=
  key ← match preencoded_key_index p with
        | Some i =>
            a ← column batch i;
            v ← ok_or (not_binary "deduplicate preencoded key column is not Arrow Binary") (as_bytes BinaryArray a);
            k ← binary_value v a row;
            Ok (to_vec k)
        | None => k ← encode_binary_row batch row (key_fields p); Ok {| vdata := k; vcap := key_capacity k |}
        end;
  kg ← assign_key_group (vdata key) (max_parallelism p);
  Ok (kg, key).
Definition rows_of_batch (batch : Batch) : list Z := row_numbers (num_rows batch).
Definition state_keys (p : DeduplicateProcessor) (batch : Batch) : outcome (list (Z * vec)) :=
  collect (state_key p batch) (rows_of_batch batch).
Definition key_ref (k : Z * vec) : StateKeyRef := {| r_key_group := k.1; r_key := vdata k.2 |}.
Definition stored_rows (p : DeduplicateProcessor) (batch : Batch) : outcome (option (Z -> outcome bytes)) :=
  match stored_row_index p with
  | None => Ok None
  | Some i =>
      a ← column batch i;
      v ← ok_or (not_binary "deduplicate stored-row metadata is not Arrow Binary") (as_bytes BinaryArray a);
      Ok (Some (binary_value v a))
  end.
Definition encode_visible_rows (p : DeduplicateProcessor) (batch : Batch) : outcome (list bytes) :=
  visible ← expect (ok_or no_visible (visible_count p));
  converter ← expect (ok_or no_visible (row_converter p));
  if visible <=? num_columns batch then convert_columns converter (take (Z.to_nat visible) (columns batch)) else Panic.
Definition input_kinds (p : DeduplicateProcessor) (batch : Batch) : outcome (Z -> outcome Z) :=
  i ← expect (ok_or no_visible (input_kind_index p));
  a ← column batch i;
  v ← ok_or (Execution "deduplicate input RowKind metadata is not Arrow Int8") (as_fixed Int8Array a);
  Ok (fun row => if (0 <=? row) && (row <? array_len a) then Ok (v row) else Panic).

(** *** One read, one write *)

Definition with_memory (s : Selection) (r : resv) : Selection :=
  {| content_ordinals := content_ordinals s; envelope_ordinals := envelope_ordinals s; row_kinds := row_kinds s;
     sel_stored_rows := sel_stored_rows s; input_rows := input_rows s; historical_memory := Some r |}.
(** The reads are dropped before the write; the workspace goes with the selection. *)
Definition finish (reads : StateReadBatch) (workspace : resv) (held : list resv)
    (result : outcome (Selection * list StateMutation)) : DM Selection :=
  '(selection, mutations) ← or_fail (lift result) (held ++ [workspace; rb_reservation reads]);
  _ ← on_broker (host_drop (rb_reservation reads));
  _ ← or_fail (zoom state set_state (ks_write_batch mutations)) (held ++ [workspace]);
  _ ← on_broker (drop_all held);
  mret (with_memory selection workspace).
Definition selection_of {W} (w : Work W) (encoded : option (list bytes)) : Selection :=
  {| content_ordinals := w_content w; envelope_ordinals := w_envelope w; row_kinds := w_kinds w; sel_stored_rows := w_stored w;
     input_rows := encoded; historical_memory := None |}.

(** *** The four selections *)

Definition select_processing_time_first (batch : Batch) : DM Selection :=
  p ← gets fst;
  keys ← lift (state_keys p batch);
  let refs := map key_ref keys in
  '(reads, workspace) ← on_broker (load (state p) (scratch_reservation p) refs);
  finish reads workspace []
    ('(_, ordinals, mutations) ← over_rows (first_row refs (rb_values reads) keys) (rows_of_batch batch) ([], [], []);
     Ok ({| content_ordinals := ordinals; envelope_ordinals := ordinals; row_kinds := replicate (length ordinals) INSERT;
            sel_stored_rows := None; input_rows := None; historical_memory := None |}, mutations)).

Definition select_processing_time_last (batch : Batch) : DM Selection :=
  p ← gets fst;
  if negb (generate_insert (plan p)) && negb (generate_update_before (plan p)) then
    ordinals ← lift (collect row_ordinal (rows_of_batch batch));
    mret {| content_ordinals := ordinals; envelope_ordinals := ordinals; row_kinds := replicate (length ordinals) UPDATE_AFTER;
            sel_stored_rows := None; input_rows := None; historical_memory := None |}
  else
    encoded ← lift (encode_visible_rows p batch);
    keys ← lift (state_keys p batch);
    let refs := map key_ref keys in
    '(reads, workspace) ← on_broker (load (state p) (scratch_reservation p) refs);
    finish reads workspace []
      (w ← over_rows (last_row (plan p) refs (rb_values reads) encoded) (rows_of_batch batch)
             (no_work (if generate_update_before (plan p) then Some [] else None));
       mutations ← batch_mutations (fun v => Some (to_vec v)) keys (num_rows batch) w;
       Ok (selection_of w (Some encoded), mutations)).

Definition select_processing_time (batch : Batch) : DM Selection :=
  _ ← prepare_schema batch;
  p ← gets fst;
  if keep_last (plan p) then select_processing_time_last batch else select_processing_time_first batch.

Definition select_changelog (batch : Batch) : DM Selection :=
  _ ← prepare_schema batch;
  p ← gets fst;
  stored ← lift (stored_rows p batch);
  stored ← lift (ok_or (Execution "changelog deduplicate requires opaque Flink BinaryRow bytes") stored);
  kinds ← lift (input_kinds p batch);
  keys ← lift (state_keys p batch);
  let refs := map key_ref keys in
  '(reads, workspace) ← on_broker (load (state p) (scratch_reservation p) refs);
  finish reads workspace []
    (w ← over_rows (change_row (plan p) refs (rb_values reads) stored kinds) (rows_of_batch batch) (no_work (Some []));
     mutations ← batch_mutations (option_map to_vec) keys (num_rows batch) w;
     Ok (selection_of w None, mutations)).

Definition winners_memory (n : Z) : Z := sat_add (sat_mul n 384) (64 * 1024).
Definition select_rowtime (batch : Batch) : DM Selection :=
  _ ← prepare_schema batch;
  p ← gets fst;
  sidecar ← lift (stored_rows p batch);
  encoded ← (if generate_update_before (plan p) && (match sidecar with None => true | Some _ => false end) then rows ← lift (encode_visible_rows p batch); mret (Some rows) else mret None);
  keys ← lift (state_keys p batch);
  let refs := map key_ref keys in
  '(reads, workspace) ← on_broker (load (state p) (scratch_reservation p) refs);
  times ← lift (column batch (order_index (plan p)));
  memory ← or_fail (on_broker (reserve_sibling (scratch_reservation p) "DataFusion deduplicate cumulative timestamps" (winners_memory (len refs))))
             [workspace; rb_reservation reads];
  finish reads workspace [memory]
    (orders ← collect (timestamp_millis times) (row_numbers (len refs));
     winners ← all_winners (plan p) (rb_values reads) orders (group_rows 0 refs []) (replicate (length refs) false);
     w ← over_rows (rowtime_row (plan p) refs (rb_values reads) orders winners sidecar encoded) (rows_of_batch batch)
           (no_work (if generate_update_before (plan p) then Some [] else None));
     mutations ← batch_mutations (fun v => Some (to_vec v)) keys (num_rows batch) w;
     Ok (selection_of w encoded, mutations)).

(** The selection a batch is processed with. *)
Definition select (batch : Batch) : DM Selection :=
  p ← gets fst;
  if input_changelog (plan p) then select_changelog batch
  else if processing_time (plan p) then select_processing_time batch
  else select_rowtime batch.
End processor.
