(* ===== verification/DeduplicateStaging.v ===== *)
(** * Staged rows, and what a row does

    The staged values of a batch are a view of the state after the rows so far,
    and the mutations of a batch write that view: one per key. Deduplication row by
    row is a function of what the key of the row holds, and the loops over a batch
    do it for every row. *)

From Stdlib Require Import ZArith Lia Strings.Byte.
From stdpp Require Import base list option numbers strings.
From S2P Require Import Prelude Bytes MemoryPool OrderedState OrderedWrites KeyedState Restore KeyGroup Arrow Envelope BinaryRow Routing Deduplicate.

(** ** Views and row steps *)

Definition view : Type := StateKeyRef -> option bytes.
Definition upd (f : view) (key : StateKeyRef) (v : option bytes) : view := fun k => if decide (k = key) then v else f k.

(** An output row: the input row it shows, or a stored row, the row whose record
    it belongs to, and its kind. *)
Record Event : Type := { ev_content : Z; ev_envelope : Z; ev_kind : Z; ev_stored : option bytes }.
(** What a row does, given what its key holds: nothing, or a new value and output. *)
Definition RowStep : Type := Z -> option bytes -> outcome (option (option bytes * list Event)).
(** The rows one after another. *)
Fixpoint sequential (step : RowStep) (refs : list StateKeyRef) (rows : list Z) (f : view) : outcome (list Event * view) :=
  match rows with
  | [] => Ok ([], f)
  | row :: rows =>
      key ← at_index refs row;
      s ← step row (f key);
      match s with
      | None => sequential step refs rows f
      | Some (v, events) => '(later, f) ← sequential step refs rows (upd f key v); Ok (events ++ later, f)
      end
  end.

Definition push_event {W} (w : Work W) (e : Event) : Work W := push_output (ev_content e) (ev_envelope e) (ev_kind e) (ev_stored e) w.
Definition outputs {W} (w : Work W) : list Z * list Z * list Z * option (list (option bytes)) := (w_content w, w_envelope w, w_kinds w, w_stored w).
Lemma push_outputs {W} (w w' : Work W) events : outputs w = outputs w' -> outputs (fold_left push_event events w) = outputs (fold_left push_event events w').
Proof.
  revert w w'. induction events as [|e events IH]; intros w w' Hw; [done|]. cbn [fold_left]. apply IH. unfold outputs in *. cbn. congruence.
Qed.
Lemma push_events_app {W} (w : Work W) es1 es2 : fold_left push_event (es1 ++ es2) w = fold_left push_event es2 (fold_left push_event es1 w).
Proof. apply fold_left_app. Qed.
Lemma outputs_events {W} (w : Work W) events : outputs (fold_left push_event events w) =
  (w_content w ++ map ev_content events, w_envelope w ++ map ev_envelope events, w_kinds w ++ map ev_kind events,
   option_map (fun l => l ++ map ev_stored events) (w_stored w)).
Proof.
  revert w. induction events as [|e events IH]; intros w.
  - unfold outputs. cbn. rewrite !app_nil_r. destruct (w_stored w); cbn; by rewrite ?app_nil_r.
  - cbn [fold_left map]. rewrite IH. unfold push_event. cbn. rewrite <- !app_assoc. destruct (w_stored w); cbn; by rewrite <- ?app_assoc.
Qed.

(** Mutations of distinct keys do not interfere. *)
Lemma mutated_absent ms f kg k : (kg, k) ∉ map mutation_slot ms -> mutated ms f kg k = f kg k.
Proof.
  revert f. induction ms as [|m ms IH]; intros f Hn; [done|]. cbn [map] in Hn. apply not_elem_of_cons in Hn as [Hne Hn]. cbn [mutated].
  rewrite IH by done. rewrite decide_False; [done|]. intros [-> ->]. by apply Hne.
Qed.
Lemma mutated_distinct ms f m : NoDup (map mutation_slot ms) -> m ∈ ms ->
  mutated ms f (mutation_slot m).1 (mutation_slot m).2 = option_map vdata (mvalue m).
Proof.
  revert f. induction ms as [|m' ms IH]; intros f Hd Hm; [by apply elem_of_nil in Hm|]. cbn [map] in Hd. apply NoDup_cons in Hd as [Hnot Hd]. cbn [mutated].
  apply elem_of_cons in Hm as [->|Hm]; [|by apply IH]. rewrite mutated_absent by done. by rewrite decide_True.
Qed.

(** ** The staging maps *)

Lemma staged_get_put key i l k : staged_get k (staged_put key i l) = if decide (k = key) then Some i else staged_get k l.
Proof.
  induction l as [|[k' j] l IH]; cbn [staged_put staged_get]; [repeat case_decide; congruence|].
  destruct (decide (k' = key)) as [->|Hne]; cbn [staged_get]; repeat case_decide; try congruence.
Qed.
Lemma set_index_Ok {A} (l : list A) i x : 0 <= i < len l -> set_index l i x = Ok (<[Z.to_nat i := x]> l).
Proof. intros Hi. unfold set_index. rewrite (proj2 (Z.leb_le _ _)), (proj2 (Z.ltb_lt _ _)) by lia. done. Qed.

Section staging.
Context {W : Type} (as_value : W -> option bytes) (refs : list StateKeyRef) (f0 : view).

Definition slot_value (o : option (option (Z * W))) : option bytes := match o with Some (Some (_, v)) => as_value v | _ => None end.
Record staged_ok (f : view) (w : Work W) : Prop := {
  so_view key : f key = match staged_get key (staged w) with
                        | Some i => slot_value (staged_values w !! Z.to_nat i)
                        | None => f0 key
                        end;
  so_slot key i : staged_get key (staged w) = Some i ->
    0 <= i < len (staged_values w) /\ exists row v, staged_values w !! Z.to_nat i = Some (Some (row, v)) /\ 0 <= row /\ refs !! Z.to_nat row = Some key;
  so_back i row v : staged_values w !! i = Some (Some (row, v)) ->
    exists key, 0 <= row /\ refs !! Z.to_nat row = Some key /\ staged_get key (staged w) = Some (Z.of_nat i);
}.
(** What is staged fits a vector. *)
Definition value_ok (o : option bytes) : Prop := forall v, o = Some v -> slice_ok v.
Definition values_ok (w : Work W) : Prop := forall i row v, staged_values w !! i = Some (Some (row, v)) -> value_ok (as_value v).
Lemma no_work_ok stored : staged_ok f0 (no_work stored).
Proof. by split. Qed.
Lemma push_ok f w c e k s : staged_ok f w -> staged_ok f (push_output c e k s w).
Proof. intros [H1 H2 H3]. by split. Qed.
Lemma push_events_ok f w events : staged_ok f w -> staged_ok f (fold_left push_event events w).
Proof. revert w. induction events as [|e events IH]; intros w Hw; [done|]. by apply IH, push_ok. Qed.
Lemma slots_distinct f w i j row v v' : staged_ok f w -> staged_values w !! i = Some (Some (row, v)) -> staged_values w !! j = Some (Some (row, v')) -> i = j.
Proof.
  intros Hw Hi Hj. destruct (so_back f w Hw _ _ _ Hi) as (k & _ & Hk & Ek), (so_back f w Hw _ _ _ Hj) as (k' & _ & Hk' & Ek'). simplify_eq. lia.
Qed.

Lemma replace_staged_spec f w key row v : staged_ok f w -> 0 <= row -> refs !! Z.to_nat row = Some key ->
  exists w', replace_staged key row v w = Ok w' /\ staged_ok (upd f key (as_value v)) w' /\ outputs w' = outputs w /\
    (value_ok (as_value v) -> values_ok w -> values_ok w').
Proof.
  intros Hw Hr Hk. unfold replace_staged.
  set (slots := match staged_get key (staged w) with Some i => <[Z.to_nat i := None]> (staged_values w) | None => staged_values w end).
  assert (match staged_get key (staged w) with Some previous => set_index (staged_values w) previous None | None => Ok (staged_values w) end = Ok slots) as ->.
  { unfold slots. destruct (staged_get key (staged w)) as [i|] eqn:E; [|done]. destruct (so_slot f w Hw key i E) as [Hi _]. by apply set_index_Ok. }
  cbn [mbind outcome_bind]. eexists. split; [done|]. split; [|split; [done|]].
  2:{ intros Hv Hvs i r x. cbn [staged_values]. intros [Hi|[_ Hi]]%lookup_app_Some; [|apply list_lookup_singleton_Some in Hi as [_ [= <- <-]]; done].
      apply (Hvs i r x). revert Hi. unfold slots. destruct (staged_get key (staged w)) as [j|]; [|done]. by intros [(_ & ? & _)|[_ ?]]%list_lookup_insert_Some. }
  assert (length slots = length (staged_values w)) as Hlen by (unfold slots; destruct (staged_get _ _); by rewrite ?length_insert).
  assert (forall k i, k <> key -> staged_get k (staged w) = Some i -> slots !! Z.to_nat i = staged_values w !! Z.to_nat i) as Hkeep.
  { intros k i Hne Ei. unfold slots. destruct (staged_get key (staged w)) as [j|] eqn:Ej; [|done]. apply list_lookup_insert_ne. intros Eij.
    destruct (so_slot f w Hw k i Ei) as (Hi & row1 & v1 & Hs1 & _ & Hk1), (so_slot f w Hw key j Ej) as (Hj & row2 & v2 & Hs2 & _ & Hk2).
    rewrite <- Eij in Hs1. rewrite Hs2 in Hs1. simplify_eq. }
  assert (forall j, j < length slots -> (slots ++ [Some (row, v)]) !! j = slots !! j)%nat as Hleft by (intros; by apply lookup_app_l).
  split; cbn [staged staged_values].
  - intros k. unfold upd. rewrite staged_get_put. destruct (decide (k = key)) as [->|Hne].
    + rewrite len_to_nat, <- Hlen, list_lookup_middle by done. done.
    + rewrite (so_view f w Hw k). destruct (staged_get k (staged w)) as [i|] eqn:E; [|done]. destruct (so_slot f w Hw k i E) as [Hi _].
      rewrite Hleft by (unfold len in Hi; lia). by rewrite (Hkeep k i).
  - intros k i. rewrite staged_get_put, len_app. change (len [Some (row, v)]) with 1. assert (len slots = len (staged_values w)) as Hl by (unfold len; by rewrite Hlen).
    pose proof (len_nonneg (staged_values w)). destruct (decide (k = key)) as [->|Hne].
    + intros [= <-]. split; [lia|]. exists row, v. rewrite len_to_nat, <- Hlen, list_lookup_middle by done. done.
    + intros E. destruct (so_slot f w Hw k i E) as (Hi & row1 & v1 & Hs & Hr1 & Hk1). split; [lia|]. exists row1, v1.
      rewrite Hleft by (unfold len in Hi; lia). by rewrite (Hkeep k i).
  - intros i row1 v1 Hi. destruct (decide (i < length slots)%nat) as [Hlt|Hge].
    + rewrite Hleft in Hi by done. assert (staged_values w !! i = Some (Some (row1, v1))) as Hi'.
      { revert Hi. unfold slots. destruct (staged_get key (staged w)) as [j|]; [|done]. intros [(_ & ? & _)|[_ ?]]%list_lookup_insert_Some; done. }
      destruct (so_back f w Hw i row1 v1 Hi') as (k & Hr1 & Hk1 & Ek). exists k. split; [done|]. split; [done|]. rewrite staged_get_put.
      destruct (decide (k = key)) as [->|]; [|done]. exfalso. unfold slots in Hi. rewrite Ek, Nat2Z.id in Hi.
      rewrite list_lookup_insert_eq in Hi by (by eapply lookup_lt_Some). done.
    + apply lookup_app_Some in Hi as [Hi%lookup_lt_Some|[_ Hi]]; [lia|]. apply list_lookup_singleton_Some in Hi as [Ei [= -> ->]].
      exists key. split; [done|]. split; [done|]. rewrite staged_get_put, decide_True by done. f_equal. unfold len. lia.
Qed.

(** ** Loops *)

(** A row of the loop does what its step says. *)
Definition row_refines (existing : list (option bytes)) (body : Z -> Work W -> outcome (Work W)) (step : RowStep) : Prop :=
  forall row key w f, staged_ok f w -> 0 <= row -> refs !! Z.to_nat row = Some key -> existing !! Z.to_nat row = Some (f0 key) ->
  match step row (f key) with
  | Ok None => body row w = Ok w
  | Ok (Some (v, events)) => exists w', body row w = Ok w' /\ staged_ok (upd f key v) w' /\ outputs w' = outputs (fold_left push_event events w) /\
      (value_ok v -> values_ok w -> values_ok w')
  | Err e => body row w = Err e
  | Panic => True
  end.
Lemma loop_refines existing body step rows : row_refines existing body step -> existing = map f0 refs ->
  Forall (fun row => 0 <= row < len refs) rows ->
  (forall row prev v events, 0 <= row < len refs -> step row prev = Ok (Some (v, events)) -> value_ok v) -> forall w f, staged_ok f w -> values_ok w ->
  match sequential step refs rows f with
  | Ok (events, f') => exists w', over_rows body rows w = Ok w' /\ staged_ok f' w' /\ outputs w' = outputs (fold_left push_event events w) /\ values_ok w'
  | Err e => over_rows body rows w = Err e
  | Panic => True
  end.
Proof.
  intros Hbody -> Hrows Hstep. induction Hrows as [|row rows Hr Hrows IH]; intros w f Hw Hvs; cbn [sequential over_rows]; [by exists w|].
  destruct (lookup_lt_is_Some_2 refs (Z.to_nat row)) as [key Hk]; [unfold len in Hr; lia|].
  rewrite (proj2 (at_index_Ok refs row key)) by (split; [lia|done]). cbn [mbind outcome_bind].
  specialize (Hbody row key w f Hw ltac:(lia) Hk ltac:(by rewrite list_lookup_fmap, Hk)).
  pose proof (Hstep row (f key)) as Hval.
  destruct (step row (f key)) as [[[v events]|]|e|]; cbn [mbind outcome_bind]; [| |by rewrite Hbody|done].
  - destruct Hbody as (w1 & -> & Hw1 & Ho1 & Hv1). cbn [mbind outcome_bind]. specialize (IH w1 _ Hw1 (Hv1 (Hval v events Hr eq_refl) Hvs)).
    destruct (sequential step refs rows (upd f key v)) as [[later f']|e|]; cbn [mbind outcome_bind]; [|done|done].
    destruct IH as (w' & E & Hw' & Ho' & Hv'). exists w'. split; [done|]. split; [done|]. split; [|done]. rewrite Ho', push_events_app. by apply push_outputs.
  - rewrite Hbody. by apply IH.
Qed.

(** ** The mutations *)

Lemma final_values_spec (slots : list (option (Z * W))) : forall finals,
  (forall i row v, slots !! i = Some (Some (row, v)) -> 0 <= row < len finals) ->
  (forall i j row v v', slots !! i = Some (Some (row, v)) -> slots !! j = Some (Some (row, v')) -> i = j) ->
  exists finals', final_values slots finals = Ok finals' /\ length finals' = length finals /\
    (forall i row v, slots !! i = Some (Some (row, v)) -> finals' !! Z.to_nat row = Some (Some v)) /\
    (forall r, (forall i v, slots !! i <> Some (Some (Z.of_nat r, v))) -> finals' !! r = finals !! r).
Proof.
  induction slots as [|[[row v]|] slots IH]; intros finals Hin Hd; cbn [final_values].
  - exists finals. split_and!; [done|done|intros i row v Hi; by rewrite lookup_nil in Hi|done].
  - pose proof (Hin O row v eq_refl) as Hr. rewrite set_index_Ok by done. cbn [mbind outcome_bind].
    assert (len (<[Z.to_nat row := Some v]> finals) = len finals) as Hl by (unfold len; by rewrite length_insert).
    destruct (IH (<[Z.to_nat row := Some v]> finals)) as (finals' & E & Hlen & Hyes & Hno).
    { intros i r x Hi. rewrite Hl. by apply (Hin (S i) r x). }
    { intros i j r x x' Hi Hj. pose proof (Hd (S i) (S j) r x x' Hi Hj). lia. }
    exists finals'. split; [done|]. split; [by rewrite Hlen, length_insert|]. split.
    + intros [|i] r x Hi; cbn in Hi; [simplify_eq|by eapply Hyes].
      rewrite Hno; [apply list_lookup_insert_eq; unfold len in Hr; lia|]. intros i y Hi. rewrite Z2Nat.id in Hi by lia.
      by specialize (Hd O (S i) r x y eq_refl Hi).
    + intros r Hr'. rewrite Hno by (intros i y; apply (Hr' (S i))). apply list_lookup_insert_ne. intros <-. apply (Hr' O v). cbn. by rewrite Z2Nat.id by lia.
  - destruct (IH finals) as (finals' & E & Hlen & Hyes & Hno).
    { intros i r x Hi. by apply (Hin (S i) r x). }
    { intros i j r x x' Hi Hj. pose proof (Hd (S i) (S j) r x x' Hi Hj). lia. }
    exists finals'. split; [done|]. split; [done|]. split.
    + intros [|i] r x Hi; cbn in Hi; [done|by eapply Hyes].
    + intros r Hr. apply Hno. intros i x. apply (Hr (S i)).
Qed.

Context (value : W -> option vec) (Hvalue : forall v, option_map vdata (value v) = as_value v).
Lemma zip_mutations_elem keys : forall (finals : list (option W)) m, length finals = length keys ->
  m ∈ zip_mutations value keys finals <-> exists r key v, keys !! r = Some key /\ finals !! r = Some (Some v) /\ m = key_mutation key (value v).
Proof.
  induction keys as [|key keys IH]; intros [|[v|] finals] m Hlen; try done; cbn [zip_mutations].
  - split; [by intros ?%elem_of_nil|]. by intros (r & key & v & Hr & _).
  - rewrite elem_of_cons, IH by (cbn in Hlen; lia). split.
    + intros [->|(r & key' & v' & ? & ? & ->)]; [by exists O, key, v|by exists (S r), key', v'].
    + intros ([|r] & key' & v' & Hk & Hf & ->); cbn in *; [left; by simplify_eq|right; by exists r, key', v'].
  - rewrite IH by (cbn in Hlen; lia). split.
    + intros (r & key' & v' & ? & ? & ->). by exists (S r), key', v'.
    + intros ([|r] & key' & v' & Hk & Hf & ->); cbn in *; [done|]. by exists r, key', v'.
Qed.
Lemma key_mutation_slot key v : mutation_slot (key_mutation key v) = (r_key_group (key_ref key), r_key (key_ref key)).
Proof. done. Qed.
Lemma zip_mutations_distinct keys : forall (finals : list (option W)), length finals = length keys ->
  (forall r r' key key' v v', keys !! r = Some key -> keys !! r' = Some key' -> finals !! r = Some (Some v) -> finals !! r' = Some (Some v') ->
     key_ref key = key_ref key' -> r = r') ->
  NoDup (map mutation_slot (zip_mutations value keys finals)).
Proof.
  induction keys as [|key keys IH]; intros [|[v|] finals] Hlen Hd; try done; cbn [zip_mutations map]; [constructor|constructor|].
  - intros (m & Em & Hm)%list_elem_of_fmap. apply zip_mutations_elem in Hm as (r & key' & v' & Hk & Hf & ->); [|cbn in Hlen; lia].
    specialize (Hd O (S r) key key' v v' eq_refl Hk eq_refl Hf). assert (O = S r) as ?; [|done]. apply Hd. rewrite !key_mutation_slot in Em.
    unfold key_ref in *. cbn in *. congruence.
  - apply IH; [cbn in Hlen; lia|]. intros r r' k k' x x' ? ? ? ? E. assert (S r = S r') as [=]; [|done]. by eapply (Hd (S r) (S r')).
  - apply IH; [cbn in Hlen; lia|]. intros r r' k k' x x' ? ? ? ? E. assert (S r = S r') as [=]; [|done]. by eapply (Hd (S r) (S r')).
Qed.

(** The write batch of the staged rows: it writes the view, one mutation per key. *)
Lemma batch_mutations_spec keys f w n : refs = map key_ref keys -> n = len keys -> staged_ok f w ->
  exists ms, batch_mutations value keys n w = Ok ms /\ NoDup (map mutation_slot ms) /\
    (forall kg k g, (forall kg k, g kg k = f0 {| r_key_group := kg; r_key := k |}) -> mutated ms g kg k = f {| r_key_group := kg; r_key := k |}) /\
    (forall m, m ∈ ms -> exists r key v i, keys !! r = Some key /\ staged_values w !! i = Some (Some (Z.of_nat r, v)) /\ m = key_mutation key (value v)).
Proof.
  intros Hrefs -> Hw. unfold batch_mutations. rewrite len_to_nat.
  assert (forall i row v, staged_values w !! i = Some (Some (row, v)) -> 0 <= row < len keys) as Hrow.
  { intros i row v Hi. destruct (so_back f w Hw i row v Hi) as (k & Hr & Hk & _). apply lookup_lt_Some in Hk. rewrite Hrefs, length_map in Hk. unfold len. lia. }
  destruct (final_values_spec (staged_values w) (replicate (length keys) None)) as (finals & -> & Hlen & Hyes & Hno).
  { intros i row v Hi. unfold len. rewrite length_replicate. by apply (Hrow i row v). }
  { intros i j row v v' Hi Hj. by eapply slots_distinct. }
  rewrite length_replicate in Hlen. cbn [mbind outcome_bind]. exists (zip_mutations value keys finals).
  assert (forall r v, finals !! r = Some (Some v) -> exists i, staged_values w !! i = Some (Some (Z.of_nat r, v))) as Hback.
  { intros r v Hf. destruct (list_find (fun s => option_map fst s = Some (Z.of_nat r)) (staged_values w)) as [[i s]|] eqn:E.
    - apply list_find_Some in E as (Hi & Es & _). destruct s as [[r' v']|]; [|done]. cbn in Es. simplify_eq. exists i. specialize (Hyes i _ v' Hi). rewrite Nat2Z.id in Hyes. congruence.
    - rewrite Hno in Hf; [apply lookup_replicate in Hf as [? _]; done|]. intros i v' Hi. apply list_find_None in E. rewrite Forall_forall in E.
      apply (E (Some (Z.of_nat r, v'))); [by eapply list_elem_of_lookup_2|done]. }
  assert (NoDup (map mutation_slot (zip_mutations value keys finals))) as Hnd.
  { apply zip_mutations_distinct; [done|]. intros r r' key key' v v' Hk Hk' Hf Hf' E.
    destruct (Hback r v Hf) as [i Hi], (Hback r' v' Hf') as [j Hj].
    destruct (so_back f w Hw _ _ _ Hi) as (k1 & _ & E1 & S1), (so_back f w Hw _ _ _ Hj) as (k2 & _ & E2 & S2).
    rewrite Hrefs, Nat2Z.id, list_lookup_fmap in E1, E2. rewrite Hk in E1. rewrite Hk' in E2. cbn in E1, E2. injection E1 as <-. injection E2 as <-. rewrite E, S2 in S1. injection S1 as S1.
    assert (i = j) as -> by lia. rewrite Hj in Hi. injection Hi. lia. }
  split; [done|]. split; [done|]. split.
  - intros kg k g Hg. set (key := {| r_key_group := kg; r_key := k |}). rewrite (so_view f w Hw key).
    destruct (staged_get key (staged w)) as [i|] eqn:Ei.
    + destruct (so_slot f w Hw key i Ei) as (Hi & row & v & Hs & Hr & Hk). rewrite Hs. cbn [slot_value]. rewrite <- Hvalue.
      rewrite Hrefs, list_lookup_fmap in Hk. destruct (keys !! Z.to_nat row) as [kv|] eqn:Ek; [|done]. cbn in Hk. simplify_eq.
      assert (key_mutation kv (value v) ∈ zip_mutations value keys finals) as Hm.
      { apply zip_mutations_elem; [done|]. exists (Z.to_nat row), kv, v. split_and!; [done| |done]. by eapply Hyes. }
      pose proof (mutated_distinct _ g _ Hnd Hm) as E. rewrite key_mutation_slot, Hk in E. exact E.
    + rewrite mutated_absent; [apply Hg|]. intros (m & Em & Hm)%list_elem_of_fmap. apply zip_mutations_elem in Hm as (r & kv & v & Hk & Hf & ->); [|done].
      destruct (Hback r v Hf) as [i Hi]. destruct (so_back f w Hw _ _ _ Hi) as (k1 & _ & E1 & S1).
      rewrite Hrefs, Nat2Z.id, list_lookup_fmap, Hk in E1. cbn in E1. simplify_eq. rewrite key_mutation_slot in Em.
      assert (key = key_ref kv) as Ekey by (unfold key, key_ref in *; cbn in *; congruence). congruence.
  - intros m Hm. apply zip_mutations_elem in Hm as (r & kv & v & Hk & Hf & ->); [|done]. destruct (Hback r v Hf) as [i Hi]. by exists r, kv, v, i.
Qed.
End staging.

(** ** The steps *)

Definition shown (ordinal kind : Z) : Event := {| ev_content := ordinal; ev_envelope := ordinal; ev_kind := kind; ev_stored := None |}.
Definition historical (ordinal kind : Z) (row : bytes) : Event := {| ev_content := -1; ev_envelope := ordinal; ev_kind := kind; ev_stored := Some row |}.
Section steps.
Context (plan : Deduplicate).
Definition retraction (ordinal : Z) (previous : option bytes) : list Event :=
  match (if generate_update_before plan then previous else None) with Some p => [historical ordinal UPDATE_BEFORE p] | None => [] end.

Definition first_step : RowStep := fun row previous =>
  match previous with
  | Some _ => Ok None
  | None => ordinal ← row_ordinal row; Ok (Some (Some [x01], [shown ordinal INSERT]))
  end.
Definition last_step (encoded : list bytes) : RowStep := fun row previous =>
  current ← at_index encoded row;
  if bool_decide (previous = Some current) then Ok None
  else
    ordinal ← row_ordinal row;
    Ok (Some (Some current, retraction ordinal previous ++ [shown ordinal (match previous with None => INSERT | Some _ => UPDATE_AFTER end)])).
Definition change_step (stored : Z -> outcome bytes) (kind : Z -> outcome Z) : RowStep := fun row previous =>
  k ← kind row;
  if (k =? INSERT) || (k =? UPDATE_AFTER) then
    current ← stored row;
    if bool_decide (previous = Some current) then Ok None
    else
      ordinal ← row_ordinal row;
      Ok (Some (Some current, retraction ordinal previous ++ [shown ordinal (match previous with None => INSERT | Some _ => UPDATE_AFTER end)]))
  else if (k =? UPDATE_BEFORE) || (k =? DELETE) then
    match previous with
    | Some p => ordinal ← row_ordinal row; Ok (Some (None, [historical ordinal DELETE p]))
    | None => Ok None
    end
  else Err (Execution "unknown Flink RowKind byte").

(** By timestamp: the last row replaces on a tie, the first row does not. *)
Definition wins (previous : option Z) (order : Z) : bool :=
  match previous with
  | None => true
  | Some p => if keep_last plan then p <=? order else order <? p
  end.
Definition rowtime_output (orders : list Z) (sidecar : option (Z -> outcome bytes)) (encoded : option (list bytes)) : RowStep := fun row previous =>
  order ← at_index orders row;
  previous_order ← transpose (option_map decode_order previous);
  previous_stored ← (if generate_update_before plan then transpose (option_map decode_stored_row previous) else Ok None);
  encoded_row ← transpose (option_map (fun rows => at_index rows row) encoded);
  current ← match sidecar with Some rows => v ← rows row; Ok (Some v) | None => Ok encoded_row end;
  ordinal ← row_ordinal row;
  Ok (Some (Some (encode_value order current), retraction ordinal previous_stored ++
    [shown ordinal (if bool_decide (previous_order = None) && (generate_insert plan || generate_update_before plan) then INSERT else UPDATE_AFTER)])).
Definition rowtime_step (orders : list Z) (sidecar : option (Z -> outcome bytes)) (encoded : option (list bytes)) : RowStep := fun row previous =>
  order ← at_index orders row;
  previous_order ← transpose (option_map decode_order previous);
  if wins previous_order order then rowtime_output orders sidecar encoded row previous else Ok None.
(** The winners computed before the loop. *)
Definition marked_step (winners : list bool) (orders : list Z) (sidecar : option (Z -> outcome bytes)) (encoded : option (list bytes)) : RowStep := fun row previous =>
  won ← at_index winners row;
  if negb won then Ok None else rowtime_output orders sidecar encoded row previous.

(** ** The loops *)

Context (refs : list StateKeyRef) (f0 : view) (existing : list (option bytes)).
Lemma previous_value_view f w row key : staged_ok Some refs f0 f w -> 0 <= row -> existing !! Z.to_nat row = Some (f0 key) ->
  previous_value existing row key w = Ok (f key).
Proof.
  intros Hw Hr He. unfold previous_value. pose proof (so_view _ _ _ f w Hw key) as Hv. destruct (staged_get key (staged w)) as [i|] eqn:E.
  - destruct (so_slot _ _ _ f w Hw key i E) as (Hi & row' & v & Hs & _). rewrite (proj2 (at_index_Ok _ _ _) (conj (proj1 Hi) Hs)). cbn. rewrite Hv, Hs. done.
  - rewrite Hv. by apply at_index_Ok.
Qed.
Lemma previous_change_view f w row key : staged_ok id refs f0 f w -> 0 <= row -> existing !! Z.to_nat row = Some (f0 key) ->
  previous_change existing row key w = Ok (f key).
Proof.
  intros Hw Hr He. unfold previous_change. pose proof (so_view _ _ _ f w Hw key) as Hv. destruct (staged_get key (staged w)) as [i|] eqn:E.
  - destruct (so_slot _ _ _ f w Hw key i E) as (Hi & row' & v & Hs & _). rewrite (proj2 (at_index_Ok _ _ _) (conj (proj1 Hi) Hs)). cbn. rewrite Hv, Hs. done.
  - rewrite Hv. by apply at_index_Ok.
Qed.
(** Staging a row and its output. *)
Lemma stage_row {W} (as_value : W -> option bytes) f w row key v events :
  staged_ok as_value refs f0 f w -> 0 <= row -> refs !! Z.to_nat row = Some key ->
  exists w', replace_staged key row v w = Ok w' /\ staged_ok as_value refs f0 (upd f key (as_value v)) (fold_left push_event events w') /\
    outputs (fold_left push_event events w') = outputs (fold_left push_event events w) /\
    (value_ok (as_value v) -> values_ok as_value w -> values_ok as_value (fold_left push_event events w')).
Proof.
  intros Hw Hr Hk. destruct (replace_staged_spec as_value refs f0 f w key row v Hw Hr Hk) as (w' & E & Hw' & Ho & Hv). exists w'. split; [done|].
  split; [by apply push_events_ok|]. split; [by apply push_outputs|]. intros H1 H2. specialize (Hv H1 H2). clear -Hv. revert w' Hv.
  induction events as [|e events IH]; intros w' Hv; [done|]. by apply IH.
Qed.
Lemma last_row_refines encoded : row_refines Some refs f0 existing (last_row plan refs existing encoded) (last_step encoded).
Proof.
  intros row key w f Hw Hr Hk He. unfold last_row, last_step. rewrite (proj2 (at_index_Ok refs row key)) by done. cbn [mbind outcome_bind].
  rewrite (previous_value_view f w row key) by done. cbn [mbind outcome_bind]. destruct (at_index encoded row) as [current|e|]; cbn [mbind outcome_bind]; [|done|done].
  case_bool_decide; [done|]. unfold row_ordinal. destruct (row <=? I32_MAX); cbn [mbind outcome_bind].
  - set (events := retraction row (f key) ++ [shown row _]). destruct (stage_row Some f w row key current events Hw Hr Hk) as (w' & -> & Hw' & Ho & Hv).
    cbn [mbind outcome_bind]. exists (fold_left push_event events w'). split; [|done]. unfold events, retraction.
    destruct (if generate_update_before plan then f key else None); done.
  - destruct (stage_row Some f w row key current [] Hw Hr Hk) as (w' & -> & _). done.
Qed.
Lemma push_stage {W} (key : StateKeyRef) row (v : W) w c e k s : replace_staged key row v (push_output c e k s w) =
  (w' ← replace_staged key row v w; Ok (push_output c e k s w')).
Proof. unfold replace_staged. cbn. destruct (staged_get key (staged w)); [destruct (set_index _ _ _)|]; done. Qed.
Lemma change_row_refines stored kind : row_refines id refs f0 existing (change_row plan refs existing stored kind) (change_step stored kind).
Proof.
  intros row key w f Hw Hr Hk He. unfold change_row, change_step. rewrite (proj2 (at_index_Ok refs row key)) by done. cbn [mbind outcome_bind].
  rewrite (previous_change_view f w row key) by done. cbn [mbind outcome_bind]. destruct (kind row) as [k|e|]; cbn [mbind outcome_bind]; [|done|done].
  destruct (_ || _).
  - destruct (stored row) as [current|e|]; cbn [mbind outcome_bind]; [|done|done]. case_bool_decide; [done|].
    unfold row_ordinal. destruct (row <=? I32_MAX); cbn [mbind outcome_bind].
    + set (events := retraction row (f key) ++ [shown row _]). destruct (stage_row id f w row key (Some current) events Hw Hr Hk) as (w' & E & Hw' & Ho & Hv).
      exists (fold_left push_event events w'). split; [|done]. unfold events, retraction.
      destruct (f key), (generate_update_before plan); cbn [mbind outcome_bind]; rewrite !push_stage, E; done.
    + by destruct (f key), (generate_update_before plan).
  - destruct (_ || _); [|done]. destruct (f key) as [p|]; [|done]. unfold row_ordinal. destruct (row <=? I32_MAX); cbn [mbind outcome_bind]; [|done].
    destruct (stage_row id f w row key None [historical row DELETE p] Hw Hr Hk) as (w' & E & Hw' & Ho & Hv).
    exists (fold_left push_event [historical row DELETE p] w'). split; [|done]. rewrite push_stage, E. done.
Qed.
Lemma rowtime_row_refines orders winners sidecar encoded :
  row_refines Some refs f0 existing (rowtime_row plan refs existing orders winners sidecar encoded) (marked_step winners orders sidecar encoded).
Proof.
  intros row key w f Hw Hr Hk He. unfold rowtime_row, marked_step, rowtime_output. destruct (at_index winners row) as [won|e|]; cbn [mbind outcome_bind]; [|done|done].
  destruct won; cbn [negb]; [|done]. destruct (at_index orders row) as [order|e|]; cbn [mbind outcome_bind]; [|done|done].
  rewrite (proj2 (at_index_Ok refs row key)) by done. cbn [mbind outcome_bind]. rewrite (previous_value_view f w row key) by done. cbn [mbind outcome_bind].
  destruct (transpose (option_map decode_order (f key))) as [po|e|]; cbn [mbind outcome_bind]; [|done|done].
  destruct (if generate_update_before plan then transpose (option_map decode_stored_row (f key)) else Ok None) as [ps|e|]; cbn [mbind outcome_bind]; [|done|done].
  destruct (transpose (option_map (fun rows => at_index rows row) encoded)) as [er|e|]; cbn [mbind outcome_bind]; [|done|done].
  destruct (match sidecar with Some rows => v ← rows row; Ok (Some v) | None => Ok er end) as [current|e|]; cbn [mbind outcome_bind]; [|done|done].
  unfold row_ordinal. destruct (row <=? I32_MAX); cbn [mbind outcome_bind].
  - set (events := retraction row ps ++ [shown row _]). destruct (stage_row Some f w row key (encode_value order current) events Hw Hr Hk) as (w' & -> & Hw' & Ho & Hv).
    cbn [mbind outcome_bind]. exists (fold_left push_event events w'). split; [|done]. unfold events, retraction.
    destruct (if generate_update_before plan then ps else None); done.
  - destruct (stage_row Some f w row key (encode_value order current) [] Hw Hr Hk) as (w' & -> & _). done.
Qed.
End steps.
