(* ===== verification/DeduplicateWinners.v ===== *)
(** * Winners by timestamp

    DataFusion computes, per key, the running extremum of the stored timestamp and
    the timestamps of the batch; the rows marked from it are those that win against
    what their key holds when they are processed one after another. *)

From Stdlib Require Import ZArith Lia Strings.Byte.
From stdpp Require Import base list option numbers strings.
From S2P Require Import Prelude Bytes MemoryPool OrderedState OrderedWrites KeyedState Restore KeyGroup Arrow Envelope BinaryRow Routing RoutingSpec Deduplicate DeduplicateStaging.

(** ** Running extrema *)

Definition extremum (last : bool) (acc : option Z) (x : Z) : Z :=
  match acc with None => x | Some a => if last then Z.max a x else Z.min a x end.
Definition extend (last : bool) (acc : option Z) (xs : list Z) : option Z := fold_left (fun a x => Some (extremum last a x)) xs acc.
Fixpoint running (last : bool) (acc : option Z) (xs : list Z) : list Z :=
  match xs with
  | [] => []
  | x :: xs => extremum last acc x :: running last (Some (extremum last acc x)) xs
  end.
(** MAX or MIN over rows from the first to the current one. *)
Class WindowLaws `{WindowKernels} : Prop := {
  extremum_law last xs : match running_extremum last xs with Ok l => l = running last None xs | Err _ => True | Panic => False end;
}.
Lemma running_length last acc xs : length (running last acc xs) = length xs.
Proof. revert acc. induction xs as [|x xs IH]; intros acc; [done|]. cbn. by rewrite IH. Qed.

Lemma decode_encode o row : is_i64 o -> decode_order (encode_value o row) = Ok o.
Proof.
  intros Ho. unfold decode_order, encode_value. rewrite len_app. unfold len at 1. rewrite i64_le_length.
  pose proof (len_nonneg (default [] row)). rewrite (proj2 (Z.ltb_ge _ _)) by lia.
  rewrite (take_app_le _ _ 8) by (by rewrite i64_le_length). rewrite (take_ge _ 8) by (by rewrite i64_le_length). by rewrite i64_of_i64_le.
Qed.

Section winners.
Context (plan : Deduplicate).

Lemma wins_extremum acc o : wins plan acc o = (if keep_last plan then o =? extremum true acc o
                                               else match acc with None => true | Some a => o <? a end).
Proof.
  unfold wins, extremum. destruct acc as [a|]; [|destruct (keep_last plan); [by rewrite Z.eqb_refl|done]].
  destruct (keep_last plan); [|done]. destruct (Z.leb_spec a o), (Z.eqb_spec o (Z.max a o)); lia || done.
Qed.

(** The orders of a list of rows. *)
Definition order_of (orders : list Z) (row : Z) : Z := nth (Z.to_nat row) orders 0.
Lemma order_at orders row : 0 <= row < len orders -> at_index orders row = Ok (order_of orders row).
Proof.
  intros Hr. apply at_index_Ok. split; [lia|]. unfold order_of. destruct (lookup_lt_is_Some_2 orders (Z.to_nat row)) as [x Hx]; [unfold len in Hr; lia|].
  rewrite Hx. f_equal. symmetry. apply nth_lookup_Some with (d := 0) in Hx. done.
Qed.
Lemma orders_collect orders rows : Forall (fun r => 0 <= r < len orders) rows -> collect (at_index orders) rows = Ok (map (order_of orders) rows).
Proof.
  induction 1 as [|r rows Hr Hrows IH]; [done|]. cbn [collect map]. rewrite order_at by done. cbn [mbind outcome_bind]. by rewrite IH.
Qed.

Lemma mark_winners_spec orders extrema offset rows : forall index acc winners,
  NoDup rows -> Forall (fun r => 0 <= r < len orders) rows -> length winners = length orders -> 0 <= offset + index ->
  drop (Z.to_nat (offset + index)) extrema = running (keep_last plan) acc (map (order_of orders) rows) ->
  match acc with
  | None => offset + index = 0
  | Some a => 0 < offset + index /\ at_index extrema (offset + index - 1) = Ok a
  end ->
  exists winners', mark_winners plan orders extrema offset index rows winners = Ok winners' /\ length winners' = length winners /\
    (forall j row, rows !! j = Some row ->
       winners' !! Z.to_nat row = Some (wins plan (extend (keep_last plan) acc (map (order_of orders) (take j rows))) (order_of orders row))) /\
    (forall r, Z.of_nat r ∉ rows -> winners' !! r = winners !! r).
Proof.
  induction rows as [|row rows IH]; intros index acc winners Hnd Hr Hlen Hpos Hdrop Hacc.
  { exists winners. split; [done|]. split; [done|]. split; [by intros j row Hj|done]. }
  apply NoDup_cons in Hnd as [Hnot Hnd]. apply Forall_cons in Hr as [Hrow Hr]. cbn [mark_winners map running] in *. set (o := order_of orders row) in *.
  rewrite (order_at orders row) by done. cbn [mbind outcome_bind]. fold o.
  assert (extrema !! Z.to_nat (offset + index) = Some (extremum (keep_last plan) acc o)) as Hext.
  { rewrite <- (Nat.add_0_r (Z.to_nat _)), <- lookup_drop, Hdrop. done. }
  assert ((if keep_last plan then x ← at_index extrema (offset + index); Ok (o =? x)
           else if offset + index =? 0 then Ok true else x ← at_index extrema (offset + index - 1); Ok (o <? x)) = Ok (wins plan acc o)) as ->.
  { rewrite wins_extremum. destruct (keep_last plan).
    - rewrite (proj2 (at_index_Ok _ _ _)) by done. done.
    - destruct acc as [a|]; [destruct Hacc as [Hp Ha]; rewrite (proj2 (Z.eqb_neq _ _)), Ha by lia; done|]. by rewrite Hacc. }
  cbn [mbind outcome_bind]. rewrite set_index_Ok by (unfold len in *; lia). cbn [mbind outcome_bind].
  destruct (IH (index + 1) (Some (extremum (keep_last plan) acc o)) (<[Z.to_nat row := wins plan acc o]> winners)) as (winners' & E & Hl & Hin & Hout); [done|done| |lia| | |].
  { by rewrite length_insert. }
  { replace (Z.to_nat (offset + (index + 1))) with (Z.to_nat (offset + index) + 1)%nat by lia. rewrite <- drop_drop, Hdrop. done. }
  { split; [lia|]. replace (offset + (index + 1) - 1) with (offset + index) by lia. by apply at_index_Ok. }
  exists winners'. split; [done|]. split; [by rewrite Hl, length_insert|]. split.
  - intros [|j] r Hj; cbn in Hj.
    + simplify_eq. rewrite Hout; [apply list_lookup_insert_eq; unfold len in *; lia|]. by rewrite Z2Nat.id by lia.
    + rewrite (Hin j r Hj). done.
  - intros r [Hne Hnin]%not_elem_of_cons. rewrite Hout by done. apply list_lookup_insert_ne. lia.
Qed.

(** ** Groups of rows *)

Definition rows_of (key : StateKeyRef) (refs : list StateKeyRef) (upto : nat) : list Z :=
  filter (fun r => refs !! Z.to_nat r = Some key) (map Z.of_nat (seq 0 upto)).
Lemma rows_of_S key refs n : rows_of key refs (S n) = rows_of key refs n ++ (if decide (refs !! n = Some key) then [Z.of_nat n] else []).
Proof.
  unfold rows_of. rewrite seq_S, map_app, filter_app. f_equal. cbn [map]. rewrite filter_cons, filter_nil. cbn [Nat.add]. rewrite Nat2Z.id. by case_decide.
Qed.
Definition groups_ok (refs : list StateKeyRef) (n : nat) (groups : list (StateKeyRef * list Z)) : Prop :=
  NoDup (map fst groups) /\ (forall key rows, (key, rows) ∈ groups -> rows = rows_of key refs n /\ rows <> []) /\
  forall key, rows_of key refs n <> [] -> key ∈ map fst groups.
Lemma add_to_group_elem key row groups : NoDup (map fst groups) -> forall k rows, (k, rows) ∈ add_to_group key row groups <->
  (k <> key /\ (k, rows) ∈ groups) \/ (k = key /\ (exists old : list Z, rows = (old ++ [row]) /\ ((key, old) ∈ groups \/ ((key ∉ map fst groups) /\ old = [])))).
Proof.
  induction groups as [|[k' rows'] groups IH]; intros Hnd k rows; cbn [add_to_group map fst].
  - rewrite list_elem_of_singleton. split.
    + intros [= -> ->]. right. split; [done|]. exists []. split; [done|]. right. split; [apply not_elem_of_nil|done].
    + intros [[_ ?%elem_of_nil]|[-> (old & -> & [?%elem_of_nil|[_ ->]])]]; done.
  - cbn [map fst] in Hnd. apply NoDup_cons in Hnd as [Hnot Hnd]. destruct (decide (k' = key)) as [->|Hne]; setoid_rewrite elem_of_cons.
    + split.
      * intros [[= -> ->]|Hin]; [right; split; [done|]; exists rows'; split; [done|]; left; by left|].
        left. split; [|by right]. intros ->. apply Hnot. by apply (list_elem_of_fmap_2 fst _ (key, rows)).
      * intros [[Hk [E|Hin]]|[-> (old & -> & [[E|Hin]|[Hn _]])]]; [congruence|by right|left; congruence| |].
        -- exfalso. apply Hnot. by apply (list_elem_of_fmap_2 fst _ (key, old)).
        -- exfalso. apply Hn. by left.
    + rewrite (IH Hnd). split.
      * intros [[= -> ->]|[[Hk Hin]|[-> (old & -> & Ho)]]]; [left; split; [done|by left]|left; split; [done|by right]|].
        right. split; [done|]. exists old. split; [done|]. destruct Ho as [Ho|[Ho ->]]; [left; by right|right]. split; [|done]. intros [?|?]; [congruence|by apply Ho].
      * intros [[Hk [E|Hin]]|[-> (old & -> & [[E|Hin]|[Hn ->]])]]; [by left|right; by left|congruence| |].
        -- right. right. split; [done|]. exists old. split; [done|]. by left.
        -- right. right. split; [done|]. exists []. split; [done|]. right. split; [|done]. intros Hc. apply Hn. by right.
Qed.
Lemma add_to_group_keys key row groups : forall k, k ∈ map fst (add_to_group key row groups) <-> k = key \/ k ∈ map fst groups.
Proof.
  induction groups as [|[k' rows'] groups IH]; intros k; cbn [add_to_group map fst]; [rewrite list_elem_of_singleton; split; [by left|intros [?|?%elem_of_nil]; done]|].
  destruct (decide (k' = key)) as [->|Hne]; cbn [map fst]; rewrite !elem_of_cons; [naive_solver|]. rewrite IH. naive_solver.
Qed.
Lemma add_to_group_nodup key row groups : NoDup (map fst groups) -> NoDup (map fst (add_to_group key row groups)).
Proof.
  induction groups as [|[k' rows'] groups IH]; cbn [add_to_group map fst]; [intros _; apply NoDup_singleton|]. intros [Hnot Hnd]%NoDup_cons.
  destruct (decide (k' = key)) as [->|Hne]; cbn [map fst]; [by constructor|]. constructor; [|by apply IH]. rewrite add_to_group_keys. intros [?|?]; done.
Qed.
Lemma add_group_ok refs n key groups : refs !! n = Some key -> groups_ok refs n groups -> groups_ok refs (S n) (add_to_group key (Z.of_nat n) groups).
Proof.
  intros Hn (Hnd & Hrows & Hall). split; [by apply add_to_group_nodup|]. split.
  - intros k rows Hin. apply add_to_group_elem in Hin; [|done]. rewrite rows_of_S, Hn. destruct Hin as [[Hk Hin]|[-> (old & -> & Ho)]].
    + rewrite decide_False by congruence. rewrite app_nil_r. by apply Hrows.
    + rewrite decide_True by done. split; [|by destruct old]. f_equal. destruct Ho as [Ho|[Ho ->]]; [by apply Hrows|].
      destruct (rows_of key refs n) eqn:E; [done|]. exfalso. apply Ho, Hall. by rewrite E.
  - intros k. rewrite rows_of_S, Hn, add_to_group_keys. destruct (decide (Some key = Some k)) as [[= ->]|]; [by left|]. rewrite app_nil_r. intros ?%Hall. by right.
Qed.
Lemma group_rows_ok refs : forall rest n groups, refs = take n refs ++ rest -> (n <= length refs)%nat -> groups_ok refs n groups ->
  groups_ok refs (length refs) (group_rows (Z.of_nat n) rest groups).
Proof.
  induction rest as [|key rest IH]; intros n groups Hrefs Hn Hg; cbn [group_rows].
  - rewrite app_nil_r in Hrefs. assert (length refs = n) as ->; [|done]. rewrite Hrefs at 1. rewrite length_take. lia.
  - assert (refs !! n = Some key) as Hk by (rewrite Hrefs, lookup_app_r; rewrite length_take, ?Nat.min_l, ?Nat.sub_diag by done; done).
    replace (Z.of_nat n + 1) with (Z.of_nat (S n)) by lia. pose proof (lookup_lt_Some _ _ _ Hk). apply IH; [|lia|by apply add_group_ok].
    rewrite (take_S_r _ _ _ Hk), <- app_assoc. done.
Qed.
Lemma rows_of_prefix key refs n j r : rows_of key refs n !! j = Some (Z.of_nat r) -> take j (rows_of key refs n) = rows_of key refs r.
Proof.
  revert j. induction n as [|n IH]; intros j Hj; [done|]. rewrite rows_of_S in *. apply lookup_app_Some in Hj as [Hj|[Hge Hj]].
  - rewrite take_app_le by (apply lookup_lt_Some in Hj; lia). by apply IH.
  - case_decide; [|done]. apply list_lookup_singleton_Some in Hj as [Hj E]. apply Nat2Z.inj in E as <-.
    rewrite take_app_ge, (proj2 (Nat.sub_0_le _ _)) by lia. by rewrite app_nil_r.
Qed.
Lemma rows_of_elem key refs n r : Z.of_nat r ∈ rows_of key refs n <-> (r < n)%nat /\ refs !! r = Some key.
Proof.
  unfold rows_of. rewrite list_elem_of_filter, Nat2Z.id, list_elem_of_fmap. split.
  - intros [Hk (x & E & Hx%elem_of_seq)]. apply Nat2Z.inj in E as <-. split; [lia|done].
  - intros [Hr Hk]. split; [done|]. exists r. split; [done|]. apply elem_of_seq. lia.
Qed.
Lemma rows_of_nodup key refs n : NoDup (rows_of key refs n).
Proof. apply NoDup_filter. apply NoDup_fmap; [intros ??; apply Nat2Z.inj|apply NoDup_seq]. Qed.
Lemma rows_of_range key refs n : Forall (fun r => 0 <= r < Z.of_nat n) (rows_of key refs n).
Proof. apply Forall_forall. intros r [_ (x & -> & Hx%elem_of_seq)%list_elem_of_fmap]%list_elem_of_filter. lia. Qed.

(** ** The marks *)

Context (refs : list StateKeyRef) (f0 : view) (orders : list Z) (Horders : length orders = length refs).
Abbreviation last := (keep_last plan).
Definition order_held (f : view) (key : StateKeyRef) : outcome (option Z) := transpose (option_map decode_order (f key)).
(** The row wins against the extremum of the stored order and the earlier rows of its key. *)
Definition marked (winners : list bool) (r : nat) (key : StateKeyRef) : Prop := exists p, order_held f0 key = Ok p /\
  winners !! r = Some (wins plan (extend last p (map (order_of orders) (rows_of key refs r))) (order_of orders (Z.of_nat r))).
Lemma order_held_no_panic f key : order_held f key <> Panic.
Proof. unfold order_held, decode_order. destruct (f key); [|done]. cbn. by destruct (_ <? 8). Qed.

Lemma group_winners_spec `{WindowLaws} key winners : rows_of key refs (length refs) <> [] -> length winners = length refs ->
  match group_winners plan (map f0 refs) orders (rows_of key refs (length refs)) winners with
  | Ok winners' => length winners' = length refs /\ (forall r, refs !! r = Some key -> marked winners' r key) /\
      (forall r, refs !! r <> Some key -> winners' !! r = winners !! r)
  | Err _ => True
  | Panic => False
  end.
Proof.
  intros Hne Hlen. unfold group_winners. set (rows := rows_of key refs (length refs)) in *.
  destruct rows as [|first rest] eqn:Erows; [done|]. assert (first ∈ rows_of key refs (length refs)) as Hfirst by (fold rows; rewrite Erows; constructor).
  pose proof (rows_of_range key refs (length refs)) as Hrange. fold rows in Hrange. rewrite Erows in Hrange. pose proof (proj1 (Forall_cons _ _ _) Hrange) as [Hf0 _].
  rewrite (proj2 (at_index_Ok (first :: rest) 0 first)) by done. cbn [mbind outcome_bind].
  replace first with (Z.of_nat (Z.to_nat first)) in Hfirst by lia. apply rows_of_elem in Hfirst as [_ Hk].
  rewrite (proj2 (at_index_Ok (map f0 refs) first (f0 key))) by (split; [lia|by rewrite list_lookup_fmap, Hk]). cbn [mbind outcome_bind].
  pose proof (order_held_no_panic f0 key) as Hnp. unfold order_held in Hnp. destruct (transpose (option_map decode_order (f0 key))) as [p|e|] eqn:Ep; [|done|done]. cbn [mbind outcome_bind].
  assert (Forall (fun r => 0 <= r < len orders) (first :: rest)) as Hr by (unfold len; rewrite Horders; exact Hrange).
  rewrite orders_collect by done. cbn [mbind outcome_bind].
  set (pre := match p with Some x => [x] | None => [] end). pose proof (extremum_law last (pre ++ map (order_of orders) (first :: rest))) as Hlaw.
  destruct (running_extremum last _) as [extrema|e|]; [|done|done]. cbn [mbind outcome_bind].
  set (offset := match p with Some _ => 1 | None => 0 end).
  destruct (mark_winners_spec orders extrema offset (first :: rest) 0 p winners) as (winners' & -> & Hl & Hin & Hout).
  { rewrite <- Erows. apply rows_of_nodup. }
  { exact Hr. }
  { by rewrite Hlen, Horders. }
  { unfold offset. destruct p; lia. }
  { rewrite Hlaw. unfold pre, offset. destruct p; done. }
  { rewrite Hlaw. unfold pre, offset. destruct p; [|lia]. split; [lia|]. done. }
  split; [congruence|]. split.
  - intros r Hr'. exists p. split; [done|]. pose proof (lookup_lt_Some _ _ _ Hr') as Hlt.
    assert (Z.of_nat r ∈ first :: rest) as Hmem by (rewrite <- Erows; by apply rows_of_elem). apply list_elem_of_lookup_1 in Hmem as [j Hj].
    specialize (Hin j _ Hj). rewrite Nat2Z.id in Hin. rewrite Hin, <- Erows. do 2 f_equal. f_equal. f_equal.
    apply rows_of_prefix. fold rows. by rewrite Erows.
  - intros r Hr'. apply Hout. rewrite <- Erows. intros [_ ?]%rows_of_elem. done.
Qed.
Lemma all_winners_spec `{WindowLaws} groups : forall winners, NoDup (map fst groups) ->
  (forall key rows, (key, rows) ∈ groups -> rows = rows_of key refs (length refs) /\ rows <> []) -> length winners = length refs ->
  match all_winners plan (map f0 refs) orders groups winners with
  | Ok winners' => length winners' = length refs /\ (forall r key, refs !! r = Some key -> key ∈ map fst groups -> marked winners' r key) /\
      (forall r, (forall key, refs !! r = Some key -> key ∉ map fst groups) -> winners' !! r = winners !! r)
  | Err _ => True
  | Panic => False
  end.
Proof.
  induction groups as [|[key rows] groups IH]; intros winners Hnd Hg Hlen; cbn [all_winners map fst] in *.
  - split; [done|]. split; [|done]. by intros r key _ ?%elem_of_nil.
  - apply NoDup_cons in Hnd as [Hnot Hnd]. destruct (Hg key rows ltac:(constructor)) as [-> Hne].
    pose proof (group_winners_spec key winners Hne Hlen) as H1. destruct (group_winners _ _ _ _ _) as [w1|e|]; [|done|done]. cbn [mbind outcome_bind].
    destruct H1 as (Hl1 & Hin1 & Hout1). specialize (IH w1 Hnd (fun k r Hkr => Hg k r ltac:(by constructor)) Hl1).
    destruct (all_winners _ _ _ _ _) as [w2|e|]; [|done|done]. destruct IH as (Hl2 & Hin2 & Hout2). split; [done|]. split.
    + intros r k Hr [->|Hk]%elem_of_cons; [|by apply Hin2]. destruct (Hin1 r Hr) as (p & Hp & Hw). exists p. split; [done|]. rewrite Hout2; [done|]. intros k' Hk'. congruence.
    + intros r Hr. rewrite Hout2 by (intros k Hk ?; apply (Hr k Hk); by constructor). apply Hout1. intros Hk. apply (Hr key Hk). constructor.
Qed.
Lemma winners_spec `{WindowLaws} :
  match all_winners plan (map f0 refs) orders (group_rows 0 refs []) (replicate (length refs) false) with
  | Ok winners => length winners = length refs /\ forall r key, refs !! r = Some key -> marked winners r key
  | Err _ => True
  | Panic => False
  end.
Proof.
  pose proof (group_rows_ok refs refs O [] ltac:(done) ltac:(lia)) as Hg. destruct Hg as (Hnd & Hrows & Hall).
  { split; [constructor|]. split; [by intros ?? ?%elem_of_nil|]. done. }
  pose proof (all_winners_spec (group_rows 0 refs []) (replicate (length refs) false) Hnd Hrows ltac:(apply length_replicate)) as Hw.
  destruct (all_winners _ _ _ _ _) as [w|e|]; [|done|done]. destruct Hw as (Hl & Hin & _). split; [done|]. intros r key Hr. apply Hin; [done|]. apply Hall.
  intros E. assert (Z.of_nat r ∈ rows_of key refs (length refs)) as Hx by (apply rows_of_elem; split; [by eapply lookup_lt_Some|done]). rewrite E in Hx. by apply elem_of_nil in Hx.
Qed.

(** ** Marked rows are the winners row by row *)

Lemma wins_extremum_held acc o : wins plan acc o = true -> extremum last acc o = o.
Proof. unfold wins, extremum. destruct acc as [a|]; [|done]. destruct last; lia. Qed.
Lemma loses_extremum_held acc o : wins plan acc o = false -> Some (extremum last acc o) = acc.
Proof. unfold wins, extremum. destruct acc as [a|]; [|done]. intros Hw. f_equal. destruct last; lia. Qed.
Lemma rowtime_output_value sidecar encoded row previous s : 0 <= row < len orders -> rowtime_output plan orders sidecar encoded row previous = Ok s ->
  exists current events, s = Some (Some (encode_value (order_of orders row) current), events).
Proof.
  intros Hr. unfold rowtime_output. rewrite (order_at orders row) by done. cbn [mbind outcome_bind].
  destruct (transpose (option_map decode_order previous)) as [po| |]; [|done..]. cbn [mbind outcome_bind].
  destruct (if generate_update_before plan then transpose (option_map decode_stored_row previous) else Ok None) as [ps| |]; [|done..]. cbn [mbind outcome_bind].
  destruct (transpose (option_map (fun rows => at_index rows row) encoded)) as [er| |]; [|done..]. cbn [mbind outcome_bind].
  destruct (match sidecar with Some rows => v ← rows row; Ok (Some v) | None => Ok er end) as [current| |]; [|done..]. cbn [mbind outcome_bind].
  destruct (row_ordinal row) as [ordinal| |]; [|done..]. cbn [mbind outcome_bind]. intros [= <-]. by eexists current, _.
Qed.
Lemma marked_is_rowtime winners sidecar encoded : (forall r key, refs !! r = Some key -> marked winners r key) -> Forall is_i64 orders ->
  forall k r0 f, (r0 + k = length refs)%nat ->
  (forall key, key ∈ refs -> exists p, order_held f0 key = Ok p /\ order_held f key = Ok (extend last p (map (order_of orders) (rows_of key refs r0)))) ->
  sequential (marked_step plan winners orders sidecar encoded) refs (map Z.of_nat (seq r0 k)) f =
  sequential (rowtime_step plan orders sidecar encoded) refs (map Z.of_nat (seq r0 k)) f.
Proof.
  intros Hm Hi64. induction k as [|k IH]; intros r0 f Hk Hheld; [done|]. cbn [seq map sequential].
  destruct (lookup_lt_is_Some_2 refs r0 ltac:(lia)) as [key Hkey].
  rewrite (proj2 (at_index_Ok refs (Z.of_nat r0) key)) by (rewrite Nat2Z.id; split; [lia|done]). cbn [mbind outcome_bind].
  assert (0 <= Z.of_nat r0 < len orders) as Hr by (unfold len; lia).
  destruct (Hheld key ltac:(by eapply list_elem_of_lookup_2)) as (p & Hp & Hacc). destruct (Hm r0 key Hkey) as (p' & Hp' & Hw). rewrite Hp in Hp'. injection Hp' as <-.
  set (acc := extend last p (map (order_of orders) (rows_of key refs r0))) in *. set (o := order_of orders (Z.of_nat r0)) in *.
  assert (marked_step plan winners orders sidecar encoded (Z.of_nat r0) (f key) =
    if negb (wins plan acc o) then Ok None else rowtime_output plan orders sidecar encoded (Z.of_nat r0) (f key)) as ->.
  { unfold marked_step. by rewrite (proj2 (at_index_Ok winners (Z.of_nat r0) (wins plan acc o))) by (rewrite Nat2Z.id; split; [lia|done]). }
  assert (rowtime_step plan orders sidecar encoded (Z.of_nat r0) (f key) =
    if wins plan acc o then rowtime_output plan orders sidecar encoded (Z.of_nat r0) (f key) else Ok None) as ->.
  { unfold rowtime_step. rewrite (order_at orders (Z.of_nat r0)) by done. cbn [mbind outcome_bind]. unfold order_held in Hacc. by rewrite Hacc. }
  assert (forall key', extend last (match order_held f0 key' with Ok q => q | _ => None end) (map (order_of orders) (rows_of key' refs (S r0))) =
    if decide (key' = key) then Some (extremum last acc o)
    else extend last (match order_held f0 key' with Ok q => q | _ => None end) (map (order_of orders) (rows_of key' refs r0))) as Hnext.
  { intros key'. rewrite rows_of_S, Hkey. destruct (decide (key' = key)) as [->|Hne].
    - rewrite Hp, decide_True by done. rewrite map_app. unfold extend. rewrite fold_left_app. done.
    - rewrite decide_False by congruence. by rewrite app_nil_r. }
  destruct (wins plan acc o) eqn:Ewin; cbn [negb].
  - destruct (rowtime_output plan orders sidecar encoded (Z.of_nat r0) (f key)) as [s|e|] eqn:Eo; cbn [mbind outcome_bind]; [|done|done].
    apply rowtime_output_value in Eo as (current & events & ->); [|done]. fold o. rewrite (IH (S r0)); [done|lia|].
    intros key' Hin. destruct (Hheld key' Hin) as (q & Hq & Hheld'). exists q. split; [done|]. specialize (Hnext key'). rewrite Hq in Hnext. rewrite Hnext.
    unfold order_held, upd. destruct (decide (key' = key)) as [->|Hne]; [|exact Hheld'].
    cbn [option_map transpose]. rewrite decode_encode; [by rewrite (wins_extremum_held acc o Ewin)|].
    rewrite Forall_forall in Hi64. apply Hi64.
    pose proof (order_at orders (Z.of_nat r0) Hr) as [_ Hx]%at_index_Ok. by eapply list_elem_of_lookup_2.
  - cbn [mbind outcome_bind]. rewrite (IH (S r0)); [done|lia|]. intros key' Hin. destruct (Hheld key' Hin) as (q & Hq & Hheld'). exists q. split; [done|].
    specialize (Hnext key'). rewrite Hq in Hnext. rewrite Hnext. destruct (decide (key' = key)) as [->|Hne]; [|exact Hheld'].
    rewrite (loses_extremum_held acc o Ewin). exact Hacc.
Qed.
End winners.
