(* ===== verification/DeduplicateBatch.v ===== *)
(** * A batch is its rows one after another

    Deduplicating a batch with one read and one write of the state, against any
    backend that keeps the laws of [KeyedState]: the kernels of the modes, the
    memory of a batch, the schema a processor reads from its first batch, and what
    a batch then means row by row. *)

From Stdlib Require Import ZArith Lia Strings.Byte.
From stdpp Require Import base list option numbers strings.
From S2P Require Import Prelude Bytes OrdMap MemoryPool OrderedState OrderedWrites KeyedState Restore KeyGroup Arrow Envelope BinaryRow BinaryRowSafe Routing RoutingSpec Deduplicate DeduplicateStaging DeduplicateWinners.

(** ** Rows kept first by arrival *)

Section first.
Context (refs : list StateKeyRef) (f0 : view) (keys : list (Z * vec)) (Hrefs : refs = map key_ref keys).
Definition ref_slot (k : StateKeyRef) : Z * bytes := (r_key_group k, r_key k).
Record first_ok (f : view) (seen : list StateKeyRef) (ms : list StateMutation) : Prop := {
  fo_view key : f key = if decide (key ∈ seen) then Some [x01] else f0 key;
  fo_new key : key ∈ seen -> f0 key = None;
  fo_nodup : NoDup seen;
  fo_slots : map mutation_slot ms = map ref_slot seen;
  fo_values : Forall (fun m => mvalue m = Some (to_vec [x01]) /\ exists k, k ∈ keys /\ skey (mkey m) = to_vec (vdata k.2)) ms;
}.
Lemma first_row_spec f seen ordinals ms row key : first_ok f seen ms -> 0 <= row -> refs !! Z.to_nat row = Some key ->
  match first_step row (f key) with
  | Ok None => first_row refs (map f0 refs) keys row (seen, ordinals, ms) = Ok (seen, ordinals, ms)
  | Ok (Some (v, events)) => exists seen' ms', first_row refs (map f0 refs) keys row (seen, ordinals, ms) = Ok (seen', ordinals ++ map ev_content events, ms') /\
      first_ok (upd f key v) seen' ms'
  | Err e => first_row refs (map f0 refs) keys row (seen, ordinals, ms) = Err e
  | Panic => False
  end.
Proof.
  intros Hf Hr Hk. unfold first_row, first_step. rewrite (proj2 (at_index_Ok refs row key)) by done. cbn [mbind outcome_bind].
  rewrite (proj2 (at_index_Ok (map f0 refs) row (f0 key))) by (rewrite list_lookup_fmap, Hk; done). cbn [mbind outcome_bind].
  rewrite (fo_view _ _ _ Hf key). destruct (decide (key ∈ seen)) as [Hs|Hs].
  { rewrite (bool_decide_eq_true_2 (key ∈ seen)) by done. by rewrite orb_true_r. }
  rewrite (bool_decide_eq_false_2 (key ∈ seen)) by done. rewrite orb_false_r. destruct (f0 key) as [v|] eqn:E0.
  { by rewrite bool_decide_eq_true_2. }
  rewrite bool_decide_eq_false_2 by (by intros [? ?]). unfold row_ordinal. destruct (row <=? I32_MAX); [|done]. cbn [mbind outcome_bind].
  rewrite Hrefs, list_lookup_fmap in Hk. destruct (keys !! Z.to_nat row) as [k|] eqn:Ek; [|done]. cbn in Hk. injection Hk as Hk.
  rewrite (proj2 (at_index_Ok keys row k)) by done. cbn [mbind outcome_bind]. eexists _, _. split; [done|]. destruct Hf as [H1 H2 H3 H4 H5]. split.
  - intros k'. unfold upd. rewrite H1. destruct (decide (k' = key)) as [->|Hne]; [rewrite decide_True by (apply elem_of_app; right; constructor); done|].
    apply decide_ext. rewrite elem_of_app, list_elem_of_singleton. naive_solver.
  - intros k' [Hk'|E%list_elem_of_singleton]%elem_of_app; [by apply H2|by subst].
  - apply NoDup_app. split; [done|]. split; [|apply NoDup_singleton]. intros x Hx E%list_elem_of_singleton. by subst.
  - rewrite !map_app, H4. f_equal. cbn. rewrite <- Hk. done.
  - apply Forall_app. split; [done|]. constructor; [|constructor]. split; [done|]. exists k. split; [by eapply list_elem_of_lookup_2|done].
Qed.
Lemma first_rows_spec rows : Forall (fun row => 0 <= row < len refs) rows -> forall f seen ordinals ms, first_ok f seen ms ->
  match sequential first_step refs rows f with
  | Ok (events, f') => exists seen' ms', over_rows (first_row refs (map f0 refs) keys) rows (seen, ordinals, ms) = Ok (seen', ordinals ++ map ev_content events, ms') /\
      first_ok f' seen' ms' /\ Forall (fun e => e = shown (ev_content e) INSERT) events
  | Err e => over_rows (first_row refs (map f0 refs) keys) rows (seen, ordinals, ms) = Err e
  | Panic => False
  end.
Proof.
  induction 1 as [|row rows Hr Hrows IH]; intros f seen ordinals ms Hf; cbn [sequential over_rows].
  { exists seen, ms. by rewrite app_nil_r. }
  destruct (lookup_lt_is_Some_2 refs (Z.to_nat row)) as [key Hk]; [unfold len in Hr; lia|].
  rewrite (proj2 (at_index_Ok refs row key)) by (split; [lia|done]). cbn [mbind outcome_bind].
  pose proof (first_row_spec f seen ordinals ms row key Hf ltac:(lia) Hk) as H1.
  destruct (first_step row (f key)) as [[[v events]|]|e|] eqn:Es; cbn [mbind outcome_bind]; [| |by rewrite H1|done].
  - destruct H1 as (seen1 & ms1 & -> & Hf1). cbn [mbind outcome_bind]. specialize (IH _ seen1 (ordinals ++ map ev_content events) ms1 Hf1).
    destruct (sequential first_step refs rows (upd f key v)) as [[later f']|e|]; cbn [mbind outcome_bind]; [|done|done].
    destruct IH as (seen' & ms' & E & Hf' & Hev). exists seen', ms'. split; [by rewrite E, map_app, app_assoc|]. split; [done|]. apply Forall_app. split; [|done].
    unfold first_step, row_ordinal in Es. destruct (f key); [done|]. destruct (row <=? I32_MAX); [|done]. cbn in Es. simplify_eq. by repeat constructor.
  - rewrite H1. cbn [mbind outcome_bind]. by apply IH.
Qed.
Lemma ref_slot_inj k k' : ref_slot k = ref_slot k' -> k = k'.
Proof. destruct k, k'. unfold ref_slot. cbn. by intros [= -> ->]. Qed.
Lemma first_mutations f seen ms : first_ok f seen ms -> Forall (fun k => vec_ok k.2) keys ->
  NoDup (map mutation_slot ms) /\ Forall mutation_ok ms /\
  forall g, (forall kg k, g kg k = f0 {| r_key_group := kg; r_key := k |}) -> forall kg k, mutated ms g kg k = f {| r_key_group := kg; r_key := k |}.
Proof.
  intros Hf Hkeys. assert (NoDup (map mutation_slot ms)) as Hnd.
  { rewrite (fo_slots _ _ _ Hf). apply NoDup_fmap; [intros ??; apply ref_slot_inj|apply (fo_nodup _ _ _ Hf)]. }
  split; [done|]. split.
  - eapply Forall_impl; [apply (fo_values _ _ _ Hf)|]. intros m [Hv (k & Hk & Es)]. rewrite Forall_forall in Hkeys. specialize (Hkeys k Hk). split.
    + rewrite Es. unfold vec_ok, to_vec in *. cbn. lia.
    + intros v Hv'. rewrite Hv in Hv'. simplify_eq. unfold vec_ok, to_vec. cbn. by vm_compute.
  - intros g Hg kg k. rewrite (fo_view _ _ _ Hf). destruct (decide _) as [Hs|Hs].
    + assert (ref_slot {| r_key_group := kg; r_key := k |} ∈ map mutation_slot ms) as Hm by (rewrite (fo_slots _ _ _ Hf); by apply list_elem_of_fmap_2).
      apply list_elem_of_fmap in Hm as (m & Em & Hm). pose proof (mutated_distinct ms g m Hnd Hm) as E. rewrite <- Em in E. cbn in E. rewrite E.
      pose proof (fo_values _ _ _ Hf) as Hv. rewrite Forall_forall in Hv. destruct (Hv m Hm) as [-> _]. done.
    + rewrite mutated_absent; [apply Hg|]. rewrite (fo_slots _ _ _ Hf). intros (k' & Ek & Hk')%list_elem_of_fmap. apply Hs.
      assert ({| r_key_group := kg; r_key := k |} = k') as ->; [|done]. by apply ref_slot_inj.
Qed.
End first.

(** ** Staged rows *)

Lemma staged_result {W} (as_value : W -> option bytes) (value : W -> option vec) (f0 : view) keys body step enc stored :
  (forall v, option_map vdata (value v) = as_value v) -> (forall v x, value v = Some x -> value_ok (as_value v) -> vec_ok x) ->
  row_refines as_value (map key_ref keys) f0 (map f0 (map key_ref keys)) body step ->
  (forall row prev v events, 0 <= row < len keys -> step row prev = Ok (Some (v, events)) -> value_ok v) ->
  Forall (fun k => vec_ok k.2) keys ->
  let rows := row_numbers (len keys) in
  let result := w ← over_rows body rows (no_work stored); ms ← batch_mutations value keys (len keys) w; Ok (selection_of w enc, ms) in
  match sequential step (map key_ref keys) rows f0 with
  | Ok (events, f') => exists (w : Work W) ms, result = Ok (selection_of w enc, ms) /\ outputs w = (map ev_content events, map ev_envelope events, map ev_kind events, option_map (fun l => l ++ map ev_stored events) stored) /\
      NoDup (map mutation_slot ms) /\ Forall mutation_ok ms /\
      forall g, (forall kg k, g kg k = f0 {| r_key_group := kg; r_key := k |}) -> forall kg k, mutated ms g kg k = f' {| r_key_group := kg; r_key := k |}
  | Err e => result = Err e
  | Panic => True
  end.
Proof.
  intros Hval Hvec Hbody Hstep Hkeys rows result. set (refs := map key_ref keys) in *. assert (len refs = len keys) as Hlen by (unfold refs, len; by rewrite length_map).
  assert (Forall (fun row => 0 <= row < len refs) rows) as Hrows.
  { apply Forall_forall. intros r (i & Hi)%list_elem_of_lookup_1. apply row_numbers_lookup in Hi as [-> Hi]. unfold len in *. lia. }
  rewrite <- Hlen in Hstep.
  pose proof (loop_refines as_value refs f0 _ body step rows Hbody eq_refl Hrows Hstep (no_work stored) f0 (no_work_ok as_value refs f0 stored) ltac:(by intros i ???)) as Hloop.
  destruct (sequential step refs rows f0) as [[events f']|e|]; [| |done].
  - destruct Hloop as (w & E & Hw & Ho & Hvs). destruct (batch_mutations_spec as_value refs f0 value Hval keys f' w (len keys) eq_refl eq_refl Hw) as (ms & Em & Hnd & Hmut & Hfrom).
    exists w, ms. unfold result. rewrite E. cbn [mbind outcome_bind]. rewrite Em. cbn [mbind outcome_bind]. split; [done|]. split; [by rewrite Ho, outputs_events|].
    split; [done|]. split; [|intros g Hg kg k; by apply Hmut]. apply Forall_forall. intros m Hm. destruct (Hfrom m Hm) as (r & key & v & i & Hk & Hi & ->).
    rewrite Forall_forall in Hkeys. split; [apply (Hkeys key); by eapply list_elem_of_lookup_2|]. cbn. intros x Hx. apply (Hvec v x Hx). by eapply Hvs.
  - unfold result. rewrite Hloop. done.
Qed.

(** ** Memory *)

Section loads.
Context {St B : Type} `{KeyedStateLaws St B} `{!ReleaseTotal B}.
Implicit Types (b : B).

Lemma drop_all_spec rs : forall b, Forall (fun r => 0 <= rsize r) rs -> zsum rsize rs <= reserved b ->
  exists b', drop_all rs b = (Ok tt, b') /\ reserved b' = reserved b - zsum rsize rs.
Proof.
  induction rs as [|r rs IH]; intros b Hr Hb; [exists b; split; [done|cbn; lia]|]. apply Forall_cons in Hr as [Hr0 Hr]. rewrite zsum_cons in *.
  assert (0 <= zsum rsize rs) by (apply zsum_nonneg; intros x Hx; rewrite Forall_forall in Hr; by apply Hr).
  destruct (host_drop_total r b) as (b1 & E & Hb1); [lia|]. destruct (IH b1 Hr ltac:(lia)) as (b2 & E2 & Hb2). exists b2. split; [|lia].
  cbn [drop_all]. by rewrite (M_bind_run _ _ _ _ _ E).
Qed.
Lemma fail_all_spec {P A} rs e (p : P) b : Forall (fun r => 0 <= rsize r) rs -> zsum rsize rs <= reserved b ->
  exists b', fail_all (A := A) rs e (p, b) = (Err e, (p, b')) /\ reserved b' = reserved b - zsum rsize rs.
Proof.
  intros Hr Hb. destruct (drop_all_spec rs b Hr Hb) as (b' & E & Hb'). exists b'. split; [|done].
  unfold fail_all. rewrite (M_bind_run _ _ _ tt (p, b')) by (unfold on_broker; by rewrite E). done.
Qed.
Lemma decoded_bytes_spec values : forall n, 0 <= n -> match decoded_bytes n values with Ok m => 0 <= m | Err _ => True | Panic => False end.
Proof.
  induction values as [|[v|] values IH]; intros n Hn; cbn [decoded_bytes]; [done| |by apply IH].
  destruct (checked_add n (len v)) as [m|] eqn:E; cbn [ok_or mbind outcome_bind]; [|done]. apply checked_add_Some in E. apply IH. pose proof (len_nonneg v). lia.
Qed.
Lemma reserve_decoded_spec values owner b : 0 <= reserved b ->
  match reserve_decoded_values values owner b with
  | (Ok r, b') => 0 <= rsize r /\ reserved b' = reserved b + rsize r
  | (Err _, b') => reserved b' = reserved b
  | (Panic, _) => False
  end.
Proof.
  intros Hb. unfold reserve_decoded_values. pose proof (decoded_bytes_spec values 0 ltac:(lia)) as Hd. destruct (decoded_bytes 0 values) as [n|e|]; [|done|done].
  set (k := sat_add _ _). assert (is_usize k) as Hk by (unfold k; pose proof (len_nonneg values); mlia). set (r := sibling owner _).
  pose proof (host_try_grow_balanced k r b Hk ltac:(cbn; mlia)) as Hbal.
  destruct (host_try_grow k (r, b)) as [[[]|e|] [r1 b1]]; destruct Hbal as [[Ht Hu Hp He _ _] Hsz]; [| |done].
  - specialize (Hsz eq_refl). cbn in Hsz, Ht. unfold is_usize in *. split; lia.
  - destruct (He e eq_refl) as [-> Hb1]. unfold fail_dropping, host_drop. cbn. done.
Qed.
(** What a state holds. *)
Definition held (s : St) : view := fun k => ks_kv s (r_key_group k) (r_key k).
Lemma load_spec o s owner b refs : ks_inv o s b ->
  match load s owner refs b with
  | (Ok (reads, workspace), b') => rb_values reads = map (held s) refs /\ 0 <= rsize (rb_reservation reads) /\ 0 <= rsize workspace /\
      reserved b' = reserved b + rsize (rb_reservation reads) + rsize workspace
  | (Err _, b') => reserved b' = reserved b
  | (Panic, _) => False
  end.
Proof.
  intros Hi. pose proof (ks_reserved o s b Hi) as Hb. unfold load. pose proof (ks_read o s b refs owner Hi) as Hr.
  destruct (ks_get_batch s refs owner b) as [[reads|e|] b1]; [|done|done]. destruct Hr as (Hv & Hr0 & Hb1).
  pose proof (reserve_decoded_spec (rb_values reads) owner b1 ltac:(lia)) as Hw.
  destruct (reserve_decoded_values (rb_values reads) owner b1) as [[workspace|e|] b2]; [|unfold fail_dropping|done].
  - destruct Hw as [Hw0 Hb2]. split_and!; [done|done|done|lia].
  - destruct (host_drop_total (rb_reservation reads) b2) as (b3 & -> & Hb3); [lia|]. cbn. lia.
Qed.
End loads.
Section memory.
Context {St B : Type} `{KeyedStateLaws St B} `{!ReleaseTotal B} `{ArrowSchema} `{!RowConverters}.
Implicit Types (p : DeduplicateProcessor (St := St)) (b : B).
Lemma selection_finish_spec o p b reads workspace extra result : 0 <= rsize (rb_reservation reads) -> 0 <= rsize workspace -> Forall (fun r => 0 <= rsize r) extra -> result <> Panic ->
  ks_inv (o + rsize (rb_reservation reads) + rsize workspace + zsum rsize extra) (state p) b -> 0 <= o ->
  (forall selection ms, result = Ok (selection, ms) -> NoDup (map mutation_slot ms) /\ Forall mutation_ok ms) ->
  match finish reads workspace extra result (p, b) with
  | (Ok sel, (p', b')) => exists selection ms, result = Ok (selection, ms) /\ sel = with_memory selection workspace /\ p' = set_state (state p') p /\
      ks_inv (o + rsize workspace) (state p') b' /\ forall kg k, ks_kv (state p') kg k = mutated ms (ks_kv (state p)) kg k
  | (Err _, (p', b')) => p' = set_state (state p') p /\ ks_inv o (state p') b' /\ forall kg k, ks_kv (state p') kg k = ks_kv (state p) kg k
  | (Panic, _) => False
  end.
Proof.
  intros Hr Hw Hx Hnp Hi Ho Hms. assert (0 <= zsum rsize extra) as Hx0 by (apply zsum_nonneg; intros x Hin; rewrite Forall_forall in Hx; by apply Hx).
  pose proof (ks_others _ _ _ Hi) as Hb. unfold finish. destruct result as [[selection ms]|e|]; [| |done].
  2:{ destruct (fail_all_spec (A := Selection * list StateMutation) (extra ++ [workspace; rb_reservation reads]) e p b) as (b1 & E & Hb1).
      { apply Forall_app. split; [done|]. by repeat constructor. }
      { rewrite zsum_app, !zsum_cons. cbn [zsum foldr]. lia. }
      rewrite zsum_app, !zsum_cons in Hb1. cbn [zsum foldr] in Hb1. rewrite (M_bind_err _ _ _ e (p, b1)) by (unfold or_fail, lift; exact E).
      split; [by destruct p|]. split; [|done].
      replace o with (o + rsize (rb_reservation reads) + rsize workspace + zsum rsize extra + - (rsize (rb_reservation reads) + rsize workspace + zsum rsize extra)) by lia.
      eapply ks_frame; [exact Hi|lia|lia]. }
  destruct (Hms selection ms eq_refl) as [Hnd Hmok]. rewrite (M_bind_run _ _ _ (selection, ms) (p, b)) by done.
  destruct (host_drop_total (rb_reservation reads) b) as (b1 & E1 & Hb1); [lia|]. rewrite (M_bind_run _ _ _ tt (p, b1)) by (unfold on_broker; by rewrite E1).
  assert (ks_inv (o + rsize workspace + zsum rsize extra) (state p) b1) as Hi1.
  { replace (o + rsize workspace + zsum rsize extra) with (o + rsize (rb_reservation reads) + rsize workspace + zsum rsize extra + - rsize (rb_reservation reads)) by lia.
    eapply ks_frame; [exact Hi|lia|lia]. }
  pose proof (ks_write _ ms (state p) b1 Hi1 Hmok (ks_batch_distinct ms Hnd)) as Hwr.
  destruct (ks_write_batch ms (state p, b1)) as [[[]|e|] [s' b2]] eqn:Ew; [| |done]; destruct Hwr as (Hi2 & _ & Hkv); pose proof (ks_others _ _ _ Hi2) as Hb2.
  - rewrite (M_bind_run _ _ _ tt (set_state s' p, b2)) by (unfold or_fail, zoom; by rewrite Ew).
    assert (zsum rsize extra <= reserved b2) as Hle by lia. destruct (drop_all_spec extra b2 Hx Hle) as (b3 & E3 & Hb3). rewrite (M_bind_run _ _ _ tt (set_state s' p, b3)) by (unfold on_broker; by rewrite E3).
    cbn. exists selection, ms. split; [done|]. split; [done|]. split; [done|]. split; [|done].
    replace (o + rsize workspace) with (o + rsize workspace + zsum rsize extra + - zsum rsize extra) by lia. eapply ks_frame; [exact Hi2|lia|lia].
  - destruct (fail_all_spec (A := unit) (extra ++ [workspace]) e (set_state s' p) b2) as (b3 & E3 & Hb3).
    { apply Forall_app. split; [done|]. by repeat constructor. }
    { rewrite zsum_app, zsum_cons. cbn [zsum foldr]. lia. }
    rewrite zsum_app, zsum_cons in Hb3. cbn [zsum foldr] in Hb3. rewrite (M_bind_err _ _ _ e (set_state s' p, b3)) by (unfold or_fail, zoom; by rewrite Ew).
    split; [done|]. split; [|done].
    cbn. replace o with (o + rsize workspace + zsum rsize extra + - (rsize workspace + zsum rsize extra)) by lia. eapply ks_frame; [exact Hi2|lia|lia].
Qed.
End memory.

(** ** Kernels *)

(** A converter of columns of equal length makes a row for each; with a timestamp
    before it, a row still fits a vector. *)
Class ConverterLaws `{RowConverters} : Prop := {
  converter_law types : converter_new types <> Panic;
  convert_law c cols n : cols <> [] -> Forall (fun a => array_len a = n) cols ->
    match convert_columns c cols with
    | Ok rows => len rows = n /\ Forall (fun r => len r + 8 <= I64_MAX) rows
    | Err _ => True
    | Panic => False
    end;
}.

Lemma collect_in {A B} (f : A -> outcome B) l : (forall x, x ∈ l -> f x <> Panic) -> collect f l <> Panic.
Proof.
  induction l as [|x l IH]; intros Hf; [done|]. cbn [collect]. pose proof (Hf x ltac:(constructor)) as Hx. destruct (f x); [|done|done]. cbn [mbind outcome_bind].
  assert (collect f l <> Panic) as Hl by (apply IH; intros; apply Hf; by constructor). by destruct (collect f l).
Qed.
Lemma flatten_min_last l n v : flatten_min (l ++ [Some n]) = Some v -> v <= n.
Proof.
  unfold flatten_min. rewrite fold_left_app. cbn. destruct (fold_left _ _ _) as [m|]; intros [= <-]; lia.
Qed.
Lemma flatten_min_nonneg l v : Forall (fun o => forall x, o = Some x -> 0 <= x) l -> flatten_min l = Some v -> 0 <= v.
Proof.
  intros Hl. unfold flatten_min. assert (forall m, (forall x, m = Some x -> 0 <= x) -> fold_left (fun m o => match m, o with
    | Some m, Some x => Some (Z.min m x) | None, o => o | m, None => m end) l m = Some v -> 0 <= v) as Hfold; [|by apply Hfold].
  induction Hl as [|o l Ho Hl IH]; intros m Hm; cbn [fold_left]; [by intros ->%Hm|]. apply IH. intros x. destruct m as [m|], o as [y|]; try apply Hm; try apply Ho.
  intros [= <-]. pose proof (Hm m eq_refl). pose proof (Ho y eq_refl). lia.
Qed.
Lemma rows_range n r : r ∈ row_numbers n <-> 0 <= r < n.
Proof.
  rewrite list_elem_of_lookup. setoid_rewrite row_numbers_lookup. split; [intros (i & -> & Hi); lia|]. intros Hr. exists (Z.to_nat r). lia.
Qed.

(** ** The schema *)

Section schema.
Context `{SchemaLaws} `{!ArrowLaws} `{!RowConverters} `{!ConverterLaws}.

Record facts_ok (plan : Deduplicate) (fields : list Field) (facts : SchemaFacts) : Prop := {
  fk_visible : 0 < sf_visible facts <= len fields;
  fk_preencoded i : sf_preencoded facts = Some i -> 0 <= i < len fields;
  fk_stored i : sf_stored facts = Some i -> 0 <= i < len fields;
  fk_kind i : sf_kind facts = Some i -> 0 <= i < len fields;
  fk_changelog : input_changelog plan = true -> is_Some (sf_stored facts) /\ is_Some (sf_kind facts);
  fk_order : input_changelog plan = false -> processing_time plan = false -> order_index plan < len fields;
  fk_keys : sf_preencoded facts = None -> Forall (fun f => 0 <= f.1 < len fields /\ f.2 <> PreencodedBinaryRow) (sf_keys facts);
}.
Lemma schema_key_spec plan fields visible index : visible <= len fields ->
  match schema_key plan fields visible index with
  | Ok f => 0 <= f.1 < len fields /\ f.2 <> PreencodedBinaryRow
  | Err _ => True
  | Panic => False
  end.
Proof.
  intros Hv. unfold schema_key. destruct (Z.leb_spec 0 index); [|done]. destruct (Z.ltb_spec index visible); [|done]. cbn [andb].
  destruct (fields !! Z.to_nat index) as [f|]; [|done]. cbn [ok_or mbind outcome_bind]. destruct (from_arrow_type_spec (field_type f)) as [Hp Hb].
  destruct (from_arrow_type (field_type f)) as [k|e|]; [|done|done]. cbn. split; [lia|congruence].
Qed.
Lemma analyse_schema_spec plan fields : 0 <= order_index plan ->
  match analyse_schema plan fields (len fields) with Ok facts => facts_ok plan fields facts | Err _ => True | Panic => False end.
Proof.
  intros Ho. unfold analyse_schema. pose proof (owned_timestamp_spec fields) as Hown. destruct (owned_timestamp_index fields) as [owned|e|]; [|done|done]. cbn [mbind outcome_bind].
  set (pre := position (has_name "__streamfusion_key") fields). set (stored := position (has_name "__streamfusion_stored_row") fields).
  set (kind := position is_kind_field fields). set (ordinal := position (has_name "__streamfusion_input_row") fields).
  assert (forall q i, position q fields = Some i -> 0 <= i < len fields) as Hpos by (intros q i Hq; apply position_Some in Hq; lia).
  destruct (flatten_min _) as [visible|] eqn:Ev; cbn [ok_or mbind outcome_bind]; [|done].
  pose proof (flatten_min_last [pre; stored; kind; ordinal; owned] (len fields) visible Ev) as Hv1. pose proof (len_nonneg fields) as Hl.
  apply flatten_min_nonneg in Ev.
  2:{ assert (forall q x, position q fields = Some x -> 0 <= x) as Hp by (intros q x Hx; apply Hpos in Hx; lia).
      do 4 (apply Forall_cons; split; [apply Hp|]). apply Forall_cons. split; [intros x ->; lia|]. apply Forall_cons. split; [intros x [= <-]; lia|constructor]. }
  destruct (guard_cases (negb (visible =? 0)) no_visible) as [[-> Hg1] | ->]; [|done]. cbn [mbind outcome_bind].
  destruct (guard_cases (negb (input_changelog plan && bool_decide (stored = None))) (Execution "deduplicate plan requires stored BinaryRow metadata")) as [[-> Hg2] | ->]; [|done]. cbn [mbind outcome_bind].
  destruct (guard_cases (negb (input_changelog plan && bool_decide (kind = None))) (Execution "changelog deduplicate requires input RowKind metadata")) as [[-> Hg3] | ->]; [|done]. cbn [mbind outcome_bind].
  set (rowtime := negb (input_changelog plan) && negb (processing_time plan)).
  destruct (guard_cases (negb (rowtime && (visible <=? order_index plan))) (Plan "deduplicate order index is outside the input fields")) as [[-> Hg4] | ->]; [|done]. cbn [mbind outcome_bind].
  destruct (tail_field_guard rowtime fields (order_index plan) (fun f => is_timestamp (field_type f)) (Plan "deduplicate ordering field must be a timestamp")) as [-> | ->]; [intros Hr; rewrite Hr in Hg4; cbn in Hg4; lia| |done].
  cbn [mbind outcome_bind].
  destruct (match ordinal with Some i => f ← at_index fields i; guard_ok (has_type DInt32 f && negb (nullable f)) (Plan "deduplicate input ordinal must be non-null Int32") | None => Ok tt end) as [[]|e|] eqn:Eo; [|done|].
  2:{ destruct ordinal as [i|] eqn:Ei; [|done]. apply Hpos in Ei. destruct (at_index_in fields i Ei) as [f Ef]. rewrite Ef in Eo. cbn [mbind outcome_bind] in Eo.
      destruct (guard_cases (has_type DInt32 f && negb (nullable f)) (Plan "deduplicate input ordinal must be non-null Int32")) as [[E _]|E]; by rewrite E in Eo. }
  cbn [mbind outcome_bind]. clear Eo.
  set (keys := match pre with None => collect (schema_key plan fields visible) (key_indices plan) | Some _ => Ok [] end).
  assert (match keys with Ok ks => Forall (fun f => 0 <= f.1 < len fields /\ f.2 <> PreencodedBinaryRow) ks | Err _ => True | Panic => False end) as Hkeys.
  { unfold keys. destruct pre; [constructor|]. destruct (collect _ _) as [ks|e|] eqn:Ec; [|done|].
    - apply collect_Ok in Ec. apply Forall_forall. intros k Hk. apply list_elem_of_lookup_1 in Hk as [i Hi]. destruct (Forall2_lookup_r _ _ _ _ _ Ec Hi) as (x & _ & Ex).
      pose proof (schema_key_spec plan fields visible x Hv1) as Hx. by rewrite Ex in Hx.
    - apply (collect_in _ _) in Ec; [done|]. intros x _ Ex. pose proof (schema_key_spec plan fields visible x Hv1) as Hx. by rewrite Ex in Hx. }
  destruct keys as [ks|e|]; [|done|done]. cbn [mbind outcome_bind]. rewrite (proj2 (Z.leb_le _ _)) by done.
  pose proof (converter_law (map field_type (take (Z.to_nat visible) fields))) as Hc. destruct (converter_new _) as [c|e|]; [|done|done]. cbn [mbind outcome_bind].
  split; cbn; try apply Hpos.
  - destruct (Z.eqb_spec visible 0); [done|lia].
  - intros Hi. rewrite Hi in Hg2, Hg3. split; [destruct stored|destruct kind]; done.
  - intros Hi1 Hi2. unfold rowtime in Hg4. rewrite Hi1, Hi2 in Hg4. cbn in Hg4. lia.
  - done.
Qed.
Lemma schema_columns batch : len (batch_schema batch) = num_columns batch.
Proof. unfold num_columns, len. by rewrite (Forall2_length _ _ _ (schema_law batch)). Qed.
End schema.

(** ** Steps *)

(** A step inside the batch does not panic, and what it stores fits a vector. *)
Definition step_ok (n : Z) (step : RowStep) : Prop := forall row prev, 0 <= row < n ->
  match step row prev with Ok (Some (v, _)) => value_ok v | Ok None | Err _ => True | Panic => False end.
Lemma sequential_no_panic step refs rows : step_ok (len refs) step -> Forall (fun row => 0 <= row < len refs) rows -> forall f, sequential step refs rows f <> Panic.
Proof.
  intros Hs. induction 1 as [|row rows Hr Hrows IH]; intros f; [done|]. cbn [sequential]. destruct (at_index_in refs row Hr) as [key ->]. cbn [mbind outcome_bind].
  specialize (Hs row (f key) Hr). destruct (step row (f key)) as [[[v events]|]|e|]; [|apply IH|done|done]. cbn [mbind outcome_bind].
  specialize (IH (upd f key v)). by destruct (sequential step refs rows (upd f key v)) as [[]| |].
Qed.
Lemma sequential_events (P : Event -> Prop) step refs rows : (forall row prev v events, step row prev = Ok (Some (v, events)) -> Forall P events) ->
  forall f events f', sequential step refs rows f = Ok (events, f') -> Forall P events.
Proof.
  intros Hs. induction rows as [|row rows IH]; intros f events f'; cbn [sequential]; [intros [= <- _]; constructor|].
  destruct (at_index refs row) as [key| |]; [|done..]. cbn [mbind outcome_bind]. destruct (step row (f key)) as [[[v new]|]|e|] eqn:Es; [|apply IH|done|done]. cbn [mbind outcome_bind].
  destruct (sequential step refs rows (upd f key v)) as [[later f1]| |] eqn:El; [|done..]. cbn. intros [= <- _]. apply Forall_app. split; [by eapply Hs|by eapply IH].
Qed.
Definition fresh (e : Event) : Prop := ev_stored e = None.
Section steps_ok.
Context (plan : Deduplicate) (n : Z).
Lemma row_ordinal_no_panic row : row_ordinal row <> Panic.
Proof. unfold row_ordinal. by destruct (_ <=? _). Qed.
Lemma no_retraction row previous : generate_update_before plan = false -> retraction plan row previous = [].
Proof. intros E. unfold retraction. by rewrite E. Qed.
Lemma last_step_ok encoded : len encoded = n -> Forall (fun r => len r + 8 <= I64_MAX) encoded -> step_ok n (last_step plan encoded).
Proof.
  intros Hn He row prev Hr. unfold last_step. destruct (at_index_in encoded row ltac:(lia)) as [current Ec]. rewrite Ec. cbn [mbind outcome_bind].
  case_bool_decide; [done|]. pose proof (row_ordinal_no_panic row). destruct (row_ordinal row); [|done|done]. cbn. intros v [= <-].
  apply at_index_Ok in Ec as [_ Ec]. rewrite Forall_lookup in He. specialize (He _ _ Ec). unfold slice_ok. lia.
Qed.
Lemma last_step_fresh encoded row prev v events : generate_update_before plan = false -> last_step plan encoded row prev = Ok (Some (v, events)) -> Forall fresh events.
Proof.
  intros Hg. unfold last_step. destruct (at_index encoded row); [|done..]. cbn [mbind outcome_bind]. case_bool_decide; [done|]. destruct (row_ordinal row); [|done..].
  cbn [mbind outcome_bind]. rewrite no_retraction by done. intros [= _ <-]. by repeat constructor.
Qed.
Lemma change_step_ok stored kind : (forall row, 0 <= row < n -> exists v, stored row = Ok v /\ len v <= I32_MAX) -> (forall row, 0 <= row < n -> exists k, kind row = Ok k) ->
  step_ok n (change_step plan stored kind).
Proof.
  intros Hs Hk row prev Hr. unfold change_step. destruct (Hk row Hr) as [k ->], (Hs row Hr) as (v & -> & Hv). cbn [mbind outcome_bind]. pose proof (row_ordinal_no_panic row) as Hp.
  destruct (_ || _); [case_bool_decide; [done|]|destruct (_ || _); [destruct prev as [x|]; [|done]|done]]; (destruct (row_ordinal row); [|done|done]); cbn; [|done].
  intros y [= <-]. unfold slice_ok. mlia.
Qed.
Lemma encode_value_ok order current : len (default [] current) + 8 <= I64_MAX -> value_ok (Some (encode_value order current)).
Proof. intros Hc v [= <-]. unfold slice_ok, encode_value. rewrite len_app. unfold len at 1. rewrite i64_le_length. lia. Qed.
(** Where the row to store comes from: the sidecar column, or the rows encoded here. *)
Record sources_ok (orders : list Z) (sidecar : option (Z -> outcome bytes)) (encoded : option (list bytes)) : Prop := {
  ss_orders : len orders = n;
  ss_sidecar g : sidecar = Some g -> forall row, 0 <= row < n -> exists v, g row = Ok v /\ len v <= I32_MAX;
  ss_encoded rows : encoded = Some rows -> len rows = n /\ Forall (fun r => len r + 8 <= I64_MAX) rows;
}.
Lemma transpose_decode {A} (f : bytes -> outcome A) o : (forall v, f v <> Panic) -> transpose (option_map f o) <> Panic.
Proof. intros Hf. destruct o as [v|]; [|done]. cbn. specialize (Hf v). by destruct (f v). Qed.
Lemma decode_order_no_panic v : decode_order v <> Panic.
Proof. unfold decode_order. by destruct (_ <? _). Qed.
Lemma decode_stored_no_panic v : decode_stored_row v <> Panic.
Proof. unfold decode_stored_row. by destruct (_ || _). Qed.
Lemma rowtime_output_ok orders sidecar encoded : sources_ok orders sidecar encoded -> step_ok n (rowtime_output plan orders sidecar encoded).
Proof.
  intros [Ho Hs He] row prev Hr. unfold rowtime_output. destruct (at_index_in orders row ltac:(lia)) as [order ->]. cbn [mbind outcome_bind].
  pose proof (transpose_decode decode_order prev decode_order_no_panic) as H1. destruct (transpose (option_map decode_order prev)) as [po| |]; [|done|done]. cbn [mbind outcome_bind].
  assert ((if generate_update_before plan then transpose (option_map decode_stored_row prev) else Ok None) <> Panic) as H2.
  { destruct (generate_update_before plan); [|done]. apply transpose_decode, decode_stored_no_panic. }
  destruct (if generate_update_before plan then _ else _) as [ps| |]; [|done|done]. cbn [mbind outcome_bind].
  assert (exists er, transpose (option_map (fun rows => at_index rows row) encoded) = Ok er /\ len (default [] er) + 8 <= I64_MAX) as (er & -> & Her).
  { destruct encoded as [rows|]; [|by exists None]. destruct (He rows eq_refl) as [Hl Hf]. destruct (at_index_in rows row ltac:(lia)) as [x Hx]. exists (Some x). cbn. rewrite Hx. split; [done|].
    apply at_index_Ok in Hx as [_ Hx]. by eapply (Forall_lookup_1 (fun r => len r + 8 <= I64_MAX)). }
  cbn [mbind outcome_bind].
  assert (exists current, match sidecar with Some rows => v ← rows row; Ok (Some v) | None => Ok er end = Ok current /\ len (default [] current) + 8 <= I64_MAX) as (current & -> & Hc).
  { destruct sidecar as [g|]; [|by exists er]. destruct (Hs g eq_refl row Hr) as (v & -> & Hv). exists (Some v). split; [done|]. cbn. mlia. }
  cbn [mbind outcome_bind]. pose proof (row_ordinal_no_panic row). destruct (row_ordinal row); [|done|done]. cbn [mbind outcome_bind]. by apply encode_value_ok.
Qed.
Lemma rowtime_output_fresh orders sidecar encoded row prev v events : generate_update_before plan = false ->
  rowtime_output plan orders sidecar encoded row prev = Ok (Some (v, events)) -> Forall fresh events.
Proof.
  intros Hg. unfold rowtime_output. rewrite Hg. intros Hx. inv_M. simplify_eq. rewrite no_retraction by done. by repeat constructor.
Qed.
Lemma rowtime_step_ok orders sidecar encoded : sources_ok orders sidecar encoded -> step_ok n (rowtime_step plan orders sidecar encoded).
Proof.
  intros Hs row prev Hr. unfold rowtime_step. destruct (at_index_in orders row) as [order ->]; [by rewrite (ss_orders _ _ _ Hs)|]. cbn [mbind outcome_bind].
  pose proof (transpose_decode decode_order prev decode_order_no_panic) as H1. destruct (transpose (option_map decode_order prev)) as [po| |]; [|done|done]. cbn [mbind outcome_bind].
  destruct (wins plan po order); [|done]. by apply rowtime_output_ok.
Qed.
Lemma rowtime_step_fresh orders sidecar encoded row prev v events : generate_update_before plan = false ->
  rowtime_step plan orders sidecar encoded row prev = Ok (Some (v, events)) -> Forall fresh events.
Proof.
  intros Hg. unfold rowtime_step. destruct (at_index orders row); [|done..]. cbn [mbind outcome_bind]. destruct (transpose _); [|done..]. cbn [mbind outcome_bind].
  destruct (wins _ _ _); [|done]. by apply rowtime_output_fresh.
Qed.
Lemma marked_step_value winners orders sidecar encoded row prev v events : sources_ok orders sidecar encoded -> 0 <= row < n ->
  marked_step plan winners orders sidecar encoded row prev = Ok (Some (v, events)) -> value_ok v.
Proof.
  intros Hs Hr. unfold marked_step. destruct (at_index winners row) as [[]| |]; cbn [mbind outcome_bind negb]; [|done..]. pose proof (rowtime_output_ok orders sidecar encoded Hs row prev Hr) as Ho.
  intros E. by rewrite E in Ho.
Qed.
End steps_ok.

(** An array of timestamps is of the array class of its unit. *)
Class TimestampLaws `{Arrow} : Prop := {
  second_law a : data_type a = DTimestamp Second -> is_Some (as_fixed TimestampSecondArray a);
  millisecond_law a : data_type a = DTimestamp Millisecond -> is_Some (as_fixed TimestampMillisecondArray a);
  microsecond_law a : data_type a = DTimestamp Microsecond -> is_Some (as_fixed TimestampMicrosecondArray a);
  nanosecond_law a : data_type a = DTimestamp Nanosecond -> is_Some (as_fixed TimestampNanosecondArray a);
}.

(** ** What a batch means *)

Section meaning.
Context {St : Type} `{SchemaLaws} `{!ArrowLaws} `{!TimestampLaws} `{!RowConverters} `{!ConverterLaws}.
Context (key_capacity : bytes -> Z).
Implicit Types (p : DeduplicateProcessor (St := St)).

(** The step of a row, from the columns the plan names. *)
Definition batch_step p (batch : Batch) : outcome RowStep :=
  if input_changelog (plan p) then
    stored ← stored_rows p batch;
    stored ← ok_or (Execution "changelog deduplicate requires opaque Flink BinaryRow bytes") stored;
    kinds ← input_kinds p batch;
    Ok (change_step (plan p) stored kinds)
  else if processing_time (plan p) then
    if keep_last (plan p) then encoded ← encode_visible_rows p batch; Ok (last_step (plan p) encoded)
    else Ok first_step
  else
    sidecar ← stored_rows p batch;
    encoded ← (if generate_update_before (plan p) && (match sidecar with None => true | Some _ => false end) then rows ← encode_visible_rows p batch; Ok (Some rows) else Ok None);
    times ← column batch (order_index (plan p));
    orders ← collect (timestamp_millis times) (rows_of_batch batch);
    Ok (rowtime_step (plan p) orders sidecar encoded).
(** Row after row, from what the state holds. *)
Definition row_by_row p (batch : Batch) (f : view) : outcome (list Event * view) :=
  keys ← state_keys key_capacity p batch;
  step ← batch_step p batch;
  sequential step (map key_ref keys) (rows_of_batch batch) f.
(** The processor has read the schema of the batch. *)
Definition prepared p (batch : Batch) : Prop := exists facts r,
  analyse_schema (plan p) (batch_schema batch) (num_columns batch) = Ok facts /\ p = install_schema (batch_schema batch) facts r p.
(** Keys that arrive encoded are rows of whole words, and every key fits a vector. *)
Record keys_ok p (batch : Batch) : Prop := {
  ko_words i a v : preencoded_key_index p = Some i -> column batch i = Ok a -> as_bytes BinaryArray a = Some v -> forall row, 0 <= row < num_rows batch -> len (v row) mod 4 = 0;
  ko_fit keys : state_keys key_capacity p batch = Ok keys -> Forall (fun k => vec_ok k.2) keys;
}.
(** A plan the processor accepts; its numbers are unsigned. *)
Record plan_ok p : Prop := {
  po_valid : validate_plan (plan p) (max_parallelism p) = Ok tt;
  po_order : 0 <= order_index (plan p);
  po_parallelism : 0 <= max_parallelism p;
}.

Lemma prepared_facts p batch : plan_ok p -> prepared p batch -> exists facts r,
  facts_ok (plan p) (batch_schema batch) facts /\ p = install_schema (batch_schema batch) facts r p.
Proof.
  intros Hp (facts & r & Ha & Hi). exists facts, r. split; [|done]. rewrite <- schema_columns in Ha. pose proof (analyse_schema_spec (plan p) (batch_schema batch) (po_order p Hp)) as Hs.
  by rewrite Ha in Hs.
Qed.
Lemma in_range (i n : Z) : 0 <= i < n -> (0 <=? i) && (i <? n) = true.
Proof. intros. rewrite (proj2 (Z.leb_le _ _)), (proj2 (Z.ltb_lt _ _)) by lia. done. Qed.

Lemma stored_rows_spec p batch : plan_ok p -> prepared p batch ->
  match stored_rows p batch with
  | Ok (Some g) => forall row, 0 <= row < num_rows batch -> exists v, g row = Ok v /\ len v <= I32_MAX
  | Ok None => stored_row_index p = None
  | Err _ => True
  | Panic => False
  end.
Proof.
  intros Hp (facts & r & Hf & ->)%prepared_facts; [|done]. unfold stored_rows. cbn [stored_row_index install_schema]. destruct (sf_stored facts) as [i|] eqn:Ei; [|done].
  destruct (column_total batch i) as [a Ha]; [rewrite <- schema_columns; by apply (fk_stored _ _ _ Hf)|]. rewrite Ha. cbn [mbind outcome_bind].
  destruct (as_bytes BinaryArray a) as [v|] eqn:Ev; [|done]. cbn [ok_or mbind outcome_bind]. intros row Hr. exists (v row). unfold binary_value.
  rewrite (column_len _ _ _ Ha), in_range by done. split; [done|]. by apply (bytes_law BinaryArray a v row).
Qed.
Lemma input_kinds_spec p batch : plan_ok p -> prepared p batch -> input_changelog (plan p) = true ->
  match input_kinds p batch with
  | Ok g => forall row, 0 <= row < num_rows batch -> exists k, g row = Ok k
  | Err _ => True
  | Panic => False
  end.
Proof.
  intros Hp (facts & r & Hf & ->)%prepared_facts Hc; [|done]. unfold input_kinds. cbn [input_kind_index install_schema]. cbn in Hc. destruct (fk_changelog _ _ _ Hf Hc) as [_ [i Ei]].
  rewrite Ei. cbn [ok_or expect mbind outcome_bind]. destruct (column_total batch i) as [a Ha]; [rewrite <- schema_columns; by apply (fk_kind _ _ _ Hf)|]. rewrite Ha. cbn [mbind outcome_bind].
  destruct (as_fixed Int8Array a) as [v|]; [|done]. cbn [ok_or mbind outcome_bind]. intros row Hr. exists (v row). by rewrite (column_len _ _ _ Ha), in_range.
Qed.
Lemma encode_visible_rows_spec p batch : plan_ok p -> prepared p batch ->
  match encode_visible_rows p batch with
  | Ok rows => len rows = num_rows batch /\ Forall (fun r => len r + 8 <= I64_MAX) rows
  | Err _ => True
  | Panic => False
  end.
Proof.
  intros Hp (facts & r & Hf & ->)%prepared_facts; [|done]. unfold encode_visible_rows. cbn [visible_count row_converter install_schema ok_or expect mbind outcome_bind].
  pose proof (fk_visible _ _ _ Hf) as Hv. rewrite schema_columns in Hv. rewrite (proj2 (Z.leb_le _ _)) by lia. apply convert_law.
  - unfold num_columns, len in Hv. destruct (columns batch); [cbn in Hv; lia|]. destruct (Z.to_nat (sf_visible facts)) eqn:E; [lia|done].
  - apply Forall_take, columns_law.
Qed.
Lemma downcast_spec c a row : is_Some (as_fixed c a) -> 0 <= row < array_len a -> exists v, downcast_value c a row = Ok v /\ fixed_range c v.
Proof.
  intros [v Hv] Hr. unfold downcast_value. rewrite Hv. cbn [ok_or expect mbind outcome_bind]. rewrite in_range by done. exists (v row). split; [done|]. by apply (fixed_law c a v row).
Qed.
Lemma signed_i64 v : in_signed 64 v -> is_i64 v.
Proof. unfold in_signed. change (2 ^ (64 - 1)) with (I64_MAX + 1). unfold is_i64, I64_MIN, I64_MAX. lia. Qed.
Lemma timestamp_millis_spec a row : 0 <= row < array_len a ->
  match timestamp_millis a row with Ok v => is_i64 v | Err _ => True | Panic => False end.
Proof.
  intros Hr. unfold timestamp_millis. destruct (is_null a row); [done|]. destruct (data_type a) as [ | | | | | | | | | | | | | | | | | | | | |unit| | | | | | | ] eqn:Et; try done. destruct unit.
  - destruct (downcast_spec _ a row (second_law a Et) Hr) as (v & -> & _). cbn [mbind outcome_bind]. unfold i64_checked_mul. destruct (_ && _) eqn:E; [|done]. apply andb_true_iff in E. cbn [ok_or]. unfold is_i64. lia.
  - destruct (downcast_spec _ a row (millisecond_law a Et) Hr) as (v & -> & Hv). by apply signed_i64.
  - destruct (downcast_spec _ a row (microsecond_law a Et) Hr) as (v & -> & Hv%signed_i64). cbn [mbind outcome_bind]. unfold is_i64, I64_MIN, I64_MAX in *. Z.to_euclidean_division_equations; lia.
  - destruct (downcast_spec _ a row (nanosecond_law a Et) Hr) as (v & -> & Hv%signed_i64). cbn [mbind outcome_bind]. unfold is_i64, I64_MIN, I64_MAX in *. Z.to_euclidean_division_equations; lia.
Qed.
(** A key encoded here has whole words, so its key group exists. *)
Lemma native_key_spec batch row fields mp : 0 <= row < num_rows batch -> Forall (fun f => 0 <= f.1 < num_columns batch /\ f.2 <> PreencodedBinaryRow) fields -> 0 < mp <= 32768 ->
  match encode_binary_row batch row fields with Ok k => exists g, assign_key_group k mp = Ok g | Err _ => True | Panic => False end.
Proof.
  intros Hr Hkf Hmp. unfold encode_binary_row.
  assert (existsb is_preencoded fields = false) as Hflat.
  { apply not_true_iff_false. intros (k & Hin & Hpre)%existsb_exists. rewrite List.Forall_forall in Hkf. destruct (Hkf k Hin) as [_ Hne]. unfold is_preencoded in Hpre. case_bool_decide; done. }
  assert (Forall (fun f => 0 <= f.1 < num_columns batch) fields) as Hin by (eapply Forall_impl; [exact Hkf|]; tauto).
  pose proof (encode_flat_holds batch row fields [] Hr Hin Hflat) as He. destruct (encode_binary_row_into batch row fields []) as [[[]|e|] out]; [|done|done].
  cbn [mbind outcome_bind]. destruct He as [_ H8]. destruct (assign_key_group_total out mp) as (g & E & _); [|done|by exists g].
  apply Z.mod_divide; [lia|]. apply Z.mod_divide in H8 as [k ->]; [|lia]. exists (2 * k). lia.
Qed.
Lemma state_keys_no_panic p batch : plan_ok p -> prepared p batch -> keys_ok p batch -> state_keys key_capacity p batch <> Panic.
Proof.
  intros Hp Hprep Hk. apply collect_in. intros row Hr%rows_range. unfold state_key. pose proof (po_valid p Hp) as Hv.
  assert (0 < max_parallelism p <= 32768) as Hmp.
  { unfold validate_plan, guard_ok in Hv. destruct (negb (bool_decide _)); [|done]. cbn in Hv. destruct (Z.eqb_spec (max_parallelism p) 0), (Z.ltb_spec 32768 (max_parallelism p)); try done.
    pose proof (po_parallelism p Hp). lia. }
  destruct (prepared_facts p batch Hp Hprep) as (facts & r & Hf & Ep). pose proof (f_equal preencoded_key_index Ep) as E1. pose proof (f_equal key_fields Ep) as E2. cbn in E1, E2.
  destruct (preencoded_key_index p) as [i|] eqn:Ei.
  - destruct (column_total batch i) as [a Ha]; [rewrite <- schema_columns; by apply (fk_preencoded _ _ _ Hf)|]. rewrite Ha. cbn [mbind outcome_bind].
    destruct (as_bytes BinaryArray a) as [v|] eqn:Ev; [|done]. cbn [ok_or mbind outcome_bind]. unfold binary_value. rewrite (column_len _ _ _ Ha), in_range by done. cbn [mbind outcome_bind].
    destruct (assign_key_group_total (v row) (max_parallelism p)) as (g & E & _); [by eapply (ko_words p batch Hk)|done|]. cbn [vdata to_vec]. by rewrite E.
  - pose proof (fk_keys _ _ _ Hf (eq_sym E1)) as Hkf. rewrite <- E2, schema_columns in Hkf.
    pose proof (native_key_spec batch row (key_fields p) (max_parallelism p) Hr Hkf Hmp) as Hn. destruct (encode_binary_row batch row (key_fields p)) as [k|e|]; [|done|done].
    cbn [mbind outcome_bind]. destruct Hn as [g E]. cbn [vdata]. by rewrite E.
Qed.
Lemma state_keys_len p batch keys : state_keys key_capacity p batch = Ok keys -> len keys = num_rows batch.
Proof.
  intros Hk%collect_Ok. apply Forall2_length in Hk. unfold rows_of_batch in Hk. rewrite row_numbers_len in Hk. pose proof (num_rows_law batch). unfold len. lia.
Qed.
End meaning.

(** ** Batches *)

(** A selection shows the events of a batch. *)
Definition shows (sel : Selection) (events : list Event) : Prop :=
  content_ordinals sel = map ev_content events /\ envelope_ordinals sel = map ev_envelope events /\ row_kinds sel = map ev_kind events /\
  match sel_stored_rows sel with Some rows => rows = map ev_stored events | None => Forall fresh events end.
(** The selection and the mutations of a batch are those of its rows. *)
Definition kernel_ok (f0 : view) (result : outcome (Selection * list StateMutation)) (spec : outcome (list Event * view)) : Prop :=
  match result with
  | Ok (sel, ms) => exists events f', spec = Ok (events, f') /\ shows sel events /\ NoDup (map mutation_slot ms) /\ Forall mutation_ok ms /\
      forall g, (forall kg k, g kg k = f0 {| r_key_group := kg; r_key := k |}) -> forall kg k, mutated ms g kg k = f' {| r_key_group := kg; r_key := k |}
  | Err _ => True
  | Panic => False
  end.
Lemma first_start f0 keys : first_ok f0 keys f0 [] [].
Proof. split; [|by intros ? ?%elem_of_nil|constructor|done|constructor]. intros key. rewrite decide_False; [done|apply not_elem_of_nil]. Qed.
Section kernels.
Context (f0 : view) (keys : list (Z * vec)) (Hkeys : Forall (fun k => vec_ok k.2) keys).
Abbreviation refs := (map key_ref keys).
Lemma refs_len : len refs = len keys.
Proof. unfold len. by rewrite length_map. Qed.
Lemma refs_rows n : n = len keys -> Forall (fun row => 0 <= row < len refs) (row_numbers n).
Proof. intros ->. rewrite refs_len. apply Forall_forall. intros r. apply rows_range. Qed.
Lemma first_kernel n : n = len keys ->
  kernel_ok f0 ('(_, ordinals, mutations) ← over_rows (first_row refs (map f0 refs) keys) (row_numbers n) ([], [], []);
    Ok ({| content_ordinals := ordinals; envelope_ordinals := ordinals; row_kinds := replicate (length ordinals) INSERT;
           sel_stored_rows := None; input_rows := None; historical_memory := None |}, mutations)) (sequential first_step refs (row_numbers n) f0).
Proof.
  intros Hn. pose proof (first_rows_spec refs f0 keys eq_refl (row_numbers n) (refs_rows n Hn) f0 [] [] [] (first_start _ _)) as Hf.
  destruct (sequential first_step refs (row_numbers n) f0) as [[events f']|e|]; [|by rewrite Hf|done]. destruct Hf as (seen & ms & -> & Hok & Hev). cbn [mbind outcome_bind app kernel_ok].
  exists events, f'. split; [done|]. destruct (first_mutations f0 keys f' seen ms Hok Hkeys) as (Hnd & Hm & Hg). split; [|done].
  rewrite Forall_forall in Hev. assert (map ev_envelope events = map ev_content events /\ map ev_kind events = replicate (length (map ev_content events)) INSERT /\ Forall fresh events) as (E1 & E2 & E3).
  { clear -Hev. induction events as [|e events IH]; [done|]. destruct IH as (E1 & E2 & E3); [intros x Hx; apply Hev; by constructor|].
    pose proof (Hev e ltac:(constructor)) as He. cbn. rewrite E1, E2. split_and!; [f_equal; by rewrite He|f_equal; by rewrite He|constructor; [by rewrite He|done]]. }
  unfold shows. cbn. rewrite E1, E2. done.
Qed.
Lemma staged_kernel {W} (as_value : W -> option bytes) (value : W -> option vec) body step enc stored n : n = len keys ->
  (forall v, option_map vdata (value v) = as_value v) -> (forall v x, value v = Some x -> value_ok (as_value v) -> vec_ok x) ->
  row_refines as_value refs f0 (map f0 refs) body step ->
  (forall row prev v events, 0 <= row < n -> step row prev = Ok (Some (v, events)) -> value_ok v) ->
  (stored = Some [] \/ stored = None /\ forall row prev v events, step row prev = Ok (Some (v, events)) -> Forall fresh events) ->
  sequential step refs (row_numbers n) f0 <> Panic ->
  kernel_ok f0 (w ← over_rows body (row_numbers n) (no_work stored); ms ← batch_mutations value keys n w; Ok (selection_of w enc, ms)) (sequential step refs (row_numbers n) f0).
Proof.
  intros -> Hv1 Hv2 Hr Hstep Hst Hnp. pose proof (staged_result as_value value f0 keys body step enc stored Hv1 Hv2 Hr Hstep Hkeys) as Hres. cbn zeta in Hres.
  destruct (sequential step refs (row_numbers (len keys)) f0) as [[events f']|e|] eqn:Es; [|by rewrite Hres|done].
  destruct Hres as (w & ms & -> & Ho & Hnd & Hm & Hg). cbn [kernel_ok]. exists events, f'. split; [done|]. split; [|done]. unfold outputs in Ho. injection Ho as E1 E2 E3 E4.
  unfold shows, selection_of. cbn. rewrite E1, E2, E3, E4. split; [done|]. split; [done|]. split; [done|]. destruct Hst as [->|[-> Hfr]]; [done|]. cbn. by eapply sequential_events.
Qed.
Lemma some_vec_ok (v : bytes) x : Some (to_vec v) = Some x -> value_ok (Some v) -> vec_ok x.
Proof. intros [= <-] Hv. specialize (Hv v eq_refl). unfold vec_ok, to_vec, slice_ok in *. cbn. lia. Qed.
Lemma option_vec_ok (v : option bytes) x : option_map to_vec v = Some x -> value_ok v -> vec_ok x.
Proof. destruct v as [v|]; [|done]. apply some_vec_ok. Qed.
End kernels.

(** *** By timestamp *)

Section rowtime.
Context `{ArrowLaws} `{!TimestampLaws} `{WindowLaws}.
Context (f0 : view) (keys : list (Z * vec)) (Hkeys : Forall (fun k => vec_ok k.2) keys).
Abbreviation refs := (map key_ref keys).
Lemma marked_rows plan orders winners sidecar encoded n : n = len keys -> len orders = n -> Forall is_i64 orders ->
  (forall r key, refs !! r = Some key -> marked plan refs f0 orders winners r key) ->
  sequential (marked_step plan winners orders sidecar encoded) refs (row_numbers n) f0 = sequential (rowtime_step plan orders sidecar encoded) refs (row_numbers n) f0.
Proof.
  intros -> Hl Hi Hm. pose proof (refs_len keys) as Hr. unfold len in Hl, Hr. unfold row_numbers. rewrite len_to_nat. apply marked_is_rowtime with (f0 := f0); [lia|done|done|lia|].
  intros key [r Hk]%list_elem_of_lookup_1. destruct (Hm r key Hk) as (q & Hq & _). by exists q.
Qed.
Lemma orders_spec times n : array_len times = n ->
  match collect (timestamp_millis times) (row_numbers n) with Ok orders => len orders = n /\ Forall is_i64 orders | Err _ => True | Panic => False end.
Proof.
  intros Hn. pose proof (array_len_law times) as Hn0. destruct (collect _ _) as [orders|e|] eqn:Ec; [|done|].
  - apply collect_Ok in Ec. split; [apply Forall2_length in Ec; rewrite row_numbers_len in Ec; unfold len; lia|].
    apply Forall_lookup. intros i o Ho. destruct (Forall2_lookup_r _ _ _ _ _ Ec Ho) as (r & Hr & E). apply row_numbers_lookup in Hr as [-> Hi].
    pose proof (timestamp_millis_spec times (Z.of_nat i) ltac:(lia)) as Hs. by rewrite E in Hs.
  - apply collect_in in Ec; [done|]. intros r Hr%rows_range E. pose proof (timestamp_millis_spec times r ltac:(lia)) as Hs. by rewrite E in Hs.
Qed.
Lemma rowtime_kernel plan times sidecar encoded n : n = len keys -> array_len times = n ->
  (forall orders, len orders = n -> sources_ok n orders sidecar encoded) ->
  kernel_ok f0 (orders ← collect (timestamp_millis times) (row_numbers (len refs));
     winners ← all_winners plan (map f0 refs) orders (group_rows 0 refs []) (replicate (length refs) false);
     w ← over_rows (rowtime_row plan refs (map f0 refs) orders winners sidecar encoded) (row_numbers n) (no_work (if generate_update_before plan then Some [] else None));
     mutations ← batch_mutations (fun v => Some (to_vec v)) keys n w;
     Ok (selection_of w encoded, mutations))
    (orders ← collect (timestamp_millis times) (row_numbers n); sequential (rowtime_step plan orders sidecar encoded) refs (row_numbers n) f0).
Proof.
  intros Hn Ht Hsrc. assert (len refs = n) as Hrn by (rewrite refs_len; done). rewrite Hrn. pose proof (orders_spec times n Ht) as Ho. destruct (collect _ _) as [orders|e|]; [|done|done]. cbn [mbind outcome_bind].
  destruct Ho as [Hl Hi]. specialize (Hsrc orders Hl). assert (length orders = length refs) as Hlen by (unfold len in *; lia).
  pose proof (winners_spec plan refs f0 orders Hlen) as Hw. destruct (all_winners _ _ _ _ _) as [winners|e|]; [|done|done]. cbn [mbind outcome_bind]. destruct Hw as [_ Hm].
  rewrite <- (marked_rows plan orders winners sidecar encoded n Hn Hl Hi Hm). apply staged_kernel with (as_value := Some).
  - done.
  - done.
  - done.
  - intros v x. apply some_vec_ok.
  - apply rowtime_row_refines.
  - intros row prev v events Hr. by apply (marked_step_value plan n).
  - destruct (generate_update_before plan) eqn:Eg; [by left|right]. split; [done|]. intros row prev v events. unfold marked_step.
    destruct (at_index winners row) as [[]| |]; cbn [mbind outcome_bind negb]; [by apply rowtime_output_fresh|done..].
  - rewrite (marked_rows plan orders winners sidecar encoded n Hn Hl Hi Hm). apply sequential_no_panic; [|by apply refs_rows]. rewrite Hrn. by apply rowtime_step_ok.
Qed.
End rowtime.
