(* ===== verification/DeduplicateSelect.v ===== *)
(** * The deduplicate processor against its state

    The invariant of a processor, and the correctness of [select] against any
    keyed state: a batch is its rows one after another, or it fails and leaves the
    state as it was; the books of the memory broker balance either way. *)

From Stdlib Require Import ZArith Lia Strings.Byte.
From stdpp Require Import base list option numbers strings.
From S2P Require Import Prelude Bytes OrdMap MemoryPool OrderedState OrderedWrites KeyedState Restore KeyGroup Arrow Envelope BinaryRow Routing RoutingSpec Deduplicate DeduplicateStaging DeduplicateWinners DeduplicateBatch.

Lemma M_bind_same {S A C} (m m' : M S A) (k : A -> M S C) s : m s = m' s -> (m ≫= k) s = (m' ≫= k) s.
Proof. intros E. unfold mbind, M_bind. by rewrite E. Qed.

Section select.
Context {St B : Type} `{KeyedStateLaws St B} `{!ReleaseTotal B}.
Context `{SchemaLaws} `{!ArrowLaws} `{!TimestampLaws} `{!RowConverters} `{!ConverterLaws} `{WindowLaws}.
Context (key_capacity : bytes -> Z).
Implicit Types (p : DeduplicateProcessor (St := St)) (b : B).

Definition retained p : Z := match schema_reservation p with Some r => rsize r | None => 0 end.
(** The plan is valid, the schema facts are those of the schema, and the broker
    holds what the state, the schema and [o] bytes of others reserve. *)
Record dedup_inv (o : Z) p b : Prop := {
  di_plan : plan_ok p;
  di_others : 0 <= o;
  di_retained : 0 <= retained p;
  di_state : ks_inv (o + retained p) (state p) b;
  di_schema : match input_schema p with
              | None => schema_reservation p = None
              | Some fields => exists facts r, analyse_schema (plan p) fields (len fields) = Ok facts /\ p = install_schema fields facts r p
              end;
}.
Lemma install_inv o p b fields facts r : dedup_inv o p b -> input_schema p = None -> analyse_schema (plan p) fields (len fields) = Ok facts ->
  0 <= rsize r -> forall b', reserved b' = reserved b + rsize r -> dedup_inv o (install_schema fields facts r p) b'.
Proof.
  intros [[Hp1 Hp2 Hp3] Ho Hr Hs Hsch] Hn Ha Hr0 b' Hb'. rewrite Hn in Hsch. split; [by split|done|done| |].
  - unfold retained in *. rewrite Hsch in *. rewrite Z.add_0_r in Hs. cbn. by eapply ks_frame; [exact Hs| |lia].
  - cbn. by exists facts, r.
Qed.
Lemma set_state_inv o o' p b s' b' : dedup_inv o p b -> 0 <= o' -> ks_inv (o' + retained p) s' b' -> dedup_inv o' (set_state s' p) b'.
Proof.
  intros [[Hp1 Hp2 Hp3] Ho Hr Hs Hsch] Ho' Hs'. split; [by split|done|done|done|]. cbn. destruct (input_schema p) as [fields|]; [|done].
  destruct Hsch as (facts & r & Ha & E). exists facts, r. split; [done|]. rewrite E at 1. done.
Qed.
Lemma schema_bytes_usize batch : is_usize (schema_bytes (batch_schema batch)).
Proof.
  unfold schema_bytes. pose proof (field_size_law batch) as Hf. assert (is_usize 4096) as Hn by mlia. revert Hn. generalize 4096.
  induction Hf as [|f fields Hf0 Hf IH]; intros n Hn; [done|]. cbn [fold_left]. apply IH. mlia.
Qed.
(** Reading the schema changes nothing but the schema. *)
(** The memory a batch retains beside the state: that of the schema, read with the
    first batch. *)
Definition retains p (batch : Batch) p' : Prop :=
  retained p' = retained p \/ (input_schema p = None /\ retained p' = schema_bytes (batch_schema batch)).
Lemma prepare_schema_spec o p b batch : dedup_inv o p b ->
  match prepare_schema batch (p, b) with
  | (Ok _, (p1, b1)) => dedup_inv o p1 b1 /\ prepared p1 batch /\ exists facts r, analyse_schema (plan p) (batch_schema batch) (num_columns batch) = Ok facts /\
      p1 = install_schema (batch_schema batch) facts r p /\ retains p batch p1
  | (Err _, (p1, b1)) => p1 = p /\ dedup_inv o p b1
  | (Panic, _) => False
  end.
Proof.
  intros Hi. unfold prepare_schema. destruct (input_schema p) as [fields|] eqn:Es.
  { destruct (decide (fields = batch_schema batch)) as [->|]; [|done]. pose proof (di_schema o p b Hi) as Hs. rewrite Es in Hs. destruct Hs as (facts & r & Ha & E).
    rewrite schema_columns in Ha. split; [done|]. split; exists facts, r; [done|]. split; [done|]. split; [done|by left]. }
  pose proof (ks_others _ _ _ (di_state o p b Hi)) as Hb. pose proof (di_retained o p b Hi) as Hr0. pose proof (di_others o p b Hi) as Ho.
  assert (0 <= reserved b) as Hb0 by lia.
  pose proof (reserve_sibling_spec (control_reservation p) "deduplicate retained schema" (schema_bytes (batch_schema batch)) b (schema_bytes_usize batch) Hb0) as Hres.
  assert (forall b1, reserved b1 = reserved b -> dedup_inv o p b1) as Hsame.
  { intros b1 Hb1. destruct Hi as [H1' H2' H3' H4' H5']. split; [done|done|done| |done]. replace (o + retained p) with (o + retained p + 0) by lia. eapply ks_frame; [exact H4'|lia|lia]. }
  destruct (reserve_sibling _ _ _ b) as [[r|e|] b1]; [|by split; [|apply Hsame]|done]. destruct Hres as [Hrs Hb1].
  pose proof (schema_bytes_usize batch) as Hu. unfold is_usize in Hu.
  rewrite <- schema_columns. pose proof (analyse_schema_spec (plan p) (batch_schema batch) (po_order p (di_plan o p b Hi))) as Ha.
  destruct (analyse_schema (plan p) (batch_schema batch) (len (batch_schema batch))) as [facts|e|] eqn:Ea; [| |done].
  - split; [eapply install_inv; [exact Hi|done|done|lia|lia]|]. rewrite schema_columns in Ea. split; exists facts, r; [done|].
    split; [done|]. split; [done|]. right. split; [done|]. cbn. lia.
  - unfold fail_dropping. destruct (host_drop_total r b1) as (b2 & E2 & Hb2); [lia|]. rewrite E2. cbn. split; [done|]. apply Hsame. lia.
Qed.

(** ** One batch *)

(** A batch ends with the rows done, or with nothing done. *)
Definition batch_done (o : Z) p (spec : outcome (list Event * view)) (r : outcome Selection * (DeduplicateProcessor (St := St) * B)) : Prop :=
  match r with
  | (Ok sel, (p', b')) => exists events f' memory, spec = Ok (events, f') /\ shows sel events /\ (forall key, held (state p') key = f' key) /\
      historical_memory sel = Some memory /\ p' = set_state (state p') p /\ dedup_inv (o + rsize memory) p' b'
  | (Err _, (p', b')) => p' = set_state (state p') p /\ (forall key, held (state p') key = held (state p) key) /\ dedup_inv o p' b'
  | (Panic, _) => False
  end.
Lemma finish_kernel o p b b0 reads workspace extra result spec : dedup_inv o p b0 ->
  0 <= rsize (rb_reservation reads) -> 0 <= rsize workspace -> Forall (fun r => 0 <= rsize r) extra ->
  reserved b = reserved b0 + rsize (rb_reservation reads) + rsize workspace + zsum rsize extra ->
  kernel_ok (held (state p)) result spec -> batch_done o p spec (finish reads workspace extra result (p, b)).
Proof.
  intros Hi Hr Hw Hx Hb Hk. pose proof (di_others o p b0 Hi) as Ho. pose proof (di_retained o p b0 Hi) as Hr0.
  assert (0 <= zsum rsize extra) as Hx0 by (apply zsum_nonneg; intros x Hin; rewrite Forall_forall in Hx; by apply Hx).
  pose proof (selection_finish_spec (o + retained p) p b reads workspace extra result Hr Hw Hx) as Hf.
  assert (result <> Panic) as Hnp by (intros ->; done). specialize (Hf Hnp).
  assert (ks_inv (o + retained p + rsize (rb_reservation reads) + rsize workspace + zsum rsize extra) (state p) b) as Hinv.
  { replace (o + retained p + rsize (rb_reservation reads) + rsize workspace + zsum rsize extra) with (o + retained p + (rsize (rb_reservation reads) + rsize workspace + zsum rsize extra)) by lia.
    eapply ks_frame; [exact (di_state o p b0 Hi)|lia|lia]. }
  specialize (Hf Hinv ltac:(lia)). unfold batch_done. destruct (finish reads workspace extra result (p, b)) as [[sel|e|] [p' b']].
  - destruct Hf as (selection & ms & -> & -> & Ep & Hs & Hkv).
    { intros selection ms ->. destruct Hk as (events & f' & _ & _ & Hnd & Hm & _). done. }
    destruct Hk as (events & f' & Hspec & Hsh & _ & _ & Hg). exists events, f', workspace. split; [done|]. split; [done|]. split; [|split; [done|]; split; [done|]].
    + intros [kg k]. unfold held. cbn. rewrite Hkv. by apply Hg.
    + rewrite Ep. eapply set_state_inv; [exact Hi|lia|]. replace (o + rsize workspace + retained p) with (o + retained p + rsize workspace) by lia. done.
  - destruct Hf as (Ep & Hs & Hkv). { intros selection ms ->. destruct Hk as (events & f' & _ & _ & Hnd & Hm & _). done. }
    split; [done|]. split; [intros key; apply Hkv|]. rewrite Ep. by eapply set_state_inv.
  - apply Hf. intros selection ms ->. destruct Hk as (events & f' & _ & _ & Hnd & Hm & _). done.
Qed.
Lemma batch_failed o p b e spec : dedup_inv o p b -> batch_done o p spec (Err e, (p, b)).
Proof. intros Hi. cbn. by split; [destruct p|]. Qed.
Lemma broker_inv o p b b' : dedup_inv o p b -> reserved b' = reserved b -> dedup_inv o p b'.
Proof.
  intros Hi Hb. replace p with (set_state (state p) p) by (by destruct p). eapply set_state_inv; [exact Hi|apply Hi|].
  replace (o + retained p) with (o + retained p + 0) by lia. pose proof (ks_others _ _ _ (di_state o p b Hi)). eapply ks_frame; [exact (di_state o p b Hi)|lia|lia].
Qed.
Lemma load_inv o p b refs : dedup_inv o p b ->
  match load (state p) (scratch_reservation p) refs b with
  | (Ok (reads, workspace), b1) => rb_values reads = map (held (state p)) refs /\ 0 <= rsize (rb_reservation reads) /\ 0 <= rsize workspace /\
      reserved b1 = reserved b + rsize (rb_reservation reads) + rsize workspace
  | (Err _, b1) => dedup_inv o p b1
  | (Panic, _) => False
  end.
Proof.
  intros Hi. pose proof (load_spec (o + retained p) (state p) (scratch_reservation p) b refs (di_state o p b Hi)) as Hl. destruct (load (state p) (scratch_reservation p) refs b) as [[[reads workspace]|e|] b1]; [done| |done].
  by eapply broker_inv.
Qed.
Lemma load_kernel o p b refs K spec : dedup_inv o p b -> kernel_ok (held (state p)) (K (map (held (state p)) refs)) spec ->
  batch_done o p spec (('(reads, workspace) ← on_broker (load (state p) (scratch_reservation p) refs); finish reads workspace [] (K (rb_values reads))) (p, b)).
Proof.
  intros Hi Hk. pose proof (load_inv o p b refs Hi) as Hl. destruct (load (state p) (scratch_reservation p) refs b) as [[[reads workspace]|e|] b1] eqn:El; [| |done].
  - destruct Hl as (Hv & Hr & Hw & Hb). rewrite (M_bind_run _ _ _ (reads, workspace) (p, b1)) by (unfold on_broker; by rewrite El). rewrite Hv.
    eapply finish_kernel; [exact Hi|done|done|constructor|cbn; lia|done].
  - rewrite (M_bind_err _ _ _ e (p, b1)) by (unfold on_broker; by rewrite El). by apply batch_failed.
Qed.
(** Reading a column, or failing before the state is touched. *)
Lemma lift_done {A} o p b (x : outcome A) (k : A -> M _ Selection) spec : dedup_inv o p b -> x <> Panic ->
  (forall a, x = Ok a -> batch_done o p spec (k a (p, b))) -> batch_done o p spec ((lift x ≫= k) (p, b)).
Proof.
  intros Hi Hx Hk. destruct x as [a|e|]; [rewrite (lift_run _ _ _ a) by done; by apply Hk| |done].
  rewrite (M_bind_err _ _ _ e (p, b)) by done. by apply batch_failed.
Qed.

(** ** The selections *)

Section modes.
Context (o : Z) (p : DeduplicateProcessor (St := St)) (b : B) (batch : Batch).
Context (Hi : dedup_inv o p b) (Hprep : prepared p batch) (Hkeys : keys_ok key_capacity p batch).
Abbreviation spec := (row_by_row key_capacity p batch (held (state p))).
Abbreviation Hp := (di_plan o p b Hi).
Lemma keys_no_panic : state_keys key_capacity p batch <> Panic.
Proof. apply state_keys_no_panic; [exact Hp|done|done]. Qed.
Lemma spec_run keys step : state_keys key_capacity p batch = Ok keys -> batch_step p batch = Ok step ->
  spec = sequential step (map key_ref keys) (row_numbers (num_rows batch)) (held (state p)).
Proof. intros Hk Hs. unfold row_by_row. rewrite Hk. cbn [mbind outcome_bind]. by rewrite Hs. Qed.
Lemma first_done : input_changelog (plan p) = false -> processing_time (plan p) = true -> keep_last (plan p) = false ->
  batch_done o p spec (select_processing_time_first key_capacity batch (p, b)).
Proof.
  intros Ec Et El. unfold select_processing_time_first. rewrite (M_bind_run _ _ _ p (p, b)) by done. apply lift_done; [done|apply keys_no_panic|].
  intros keys Hk. rewrite (spec_run keys first_step Hk) by (unfold batch_step; by rewrite Ec, Et, El).
  apply (load_kernel o p b (map key_ref keys) (fun values => '(_, ordinals, mutations) ← over_rows (first_row (map key_ref keys) values keys) (rows_of_batch batch) ([], [], []);
     Ok ({| content_ordinals := ordinals; envelope_ordinals := ordinals; row_kinds := replicate (length ordinals) INSERT;
            sel_stored_rows := None; input_rows := None; historical_memory := None |}, mutations)) _ Hi).
  apply first_kernel; [by apply (ko_fit _ _ _ Hkeys)|]. symmetry. by eapply state_keys_len.
Qed.
Lemma last_done : input_changelog (plan p) = false -> processing_time (plan p) = true -> keep_last (plan p) = true ->
  generate_insert (plan p) || generate_update_before (plan p) = true -> batch_done o p spec (select_processing_time_last key_capacity batch (p, b)).
Proof.
  intros Ec Et El Eg. unfold select_processing_time_last. rewrite (M_bind_run _ _ _ p (p, b)) by done. rewrite <- negb_orb, Eg. cbn [negb].
  pose proof (encode_visible_rows_spec p batch Hp Hprep) as Henc. apply lift_done; [done|by intros E; rewrite E in Henc|]. intros encoded Ee. rewrite Ee in Henc. destruct Henc as [Hl Hf].
  apply lift_done; [done|apply keys_no_panic|]. intros keys Hk. rewrite (spec_run keys (last_step (plan p) encoded) Hk) by (unfold batch_step; rewrite Ec, Et, El, Ee; done).
  pose proof (state_keys_len _ _ _ _ Hk) as Hn. pose proof (last_step_ok (plan p) (num_rows batch) encoded Hl Hf) as Hok.
  apply (load_kernel o p b (map key_ref keys) (fun values => w ← over_rows (last_row (plan p) (map key_ref keys) values encoded) (rows_of_batch batch)
             (no_work (if generate_update_before (plan p) then Some [] else None));
       mutations ← batch_mutations (fun v => Some (to_vec v)) keys (num_rows batch) w; Ok (selection_of w (Some encoded), mutations)) _ Hi).
  apply staged_kernel with (as_value := Some); [by apply (ko_fit _ _ _ Hkeys)|done|done|intros v x; apply some_vec_ok|apply last_row_refines| | |].
  - intros row prev v events Hr E. specialize (Hok row prev Hr). by rewrite E in Hok.
  - destruct (generate_update_before (plan p)) eqn:E; [by left|right]. split; [done|]. intros row prev v events. by apply last_step_fresh.
  - apply sequential_no_panic; [rewrite refs_len, Hn; done|by apply refs_rows].
Qed.
Lemma changelog_done q : prepare_schema batch q = (Ok tt, (p, b)) -> input_changelog (plan p) = true -> batch_done o p spec (select_changelog key_capacity batch q).
Proof.
  intros Epr Ec. unfold select_changelog. rewrite (M_bind_run _ _ _ tt (p, b)) by done. rewrite (M_bind_run _ _ _ p (p, b)) by done.
  pose proof (stored_rows_spec p batch Hp Hprep) as Hst. apply lift_done; [done|by intros E; rewrite E in Hst|]. intros stored Est. rewrite Est in Hst.
  apply lift_done; [done|by destruct stored|]. intros g Eg. destruct stored as [g'|]; [|done]. injection Eg as ->.
  pose proof (input_kinds_spec p batch Hp Hprep Ec) as Hkd. apply lift_done; [done|by intros E; rewrite E in Hkd|]. intros kinds Ekd. rewrite Ekd in Hkd.
  apply lift_done; [done|apply keys_no_panic|]. intros keys Hk.
  rewrite (spec_run keys (change_step (plan p) g kinds) Hk) by (unfold batch_step; rewrite Ec, Est; cbn [mbind outcome_bind ok_or]; by rewrite Ekd).
  pose proof (state_keys_len _ _ _ _ Hk) as Hn. pose proof (change_step_ok (plan p) (num_rows batch) g kinds Hst Hkd) as Hok.
  apply (load_kernel o p b (map key_ref keys) (fun values => w ← over_rows (change_row (plan p) (map key_ref keys) values g kinds) (rows_of_batch batch) (no_work (Some []));
     mutations ← batch_mutations (option_map to_vec) keys (num_rows batch) w; Ok (selection_of w None, mutations)) _ Hi).
  apply staged_kernel with (as_value := id); [by apply (ko_fit _ _ _ Hkeys)|done|by intros []|intros v x; apply option_vec_ok|apply change_row_refines| |by left|].
  - intros row prev v events Hr E. specialize (Hok row prev Hr). by rewrite E in Hok.
  - apply sequential_no_panic; [rewrite refs_len, Hn; done|by apply refs_rows].
Qed.
Lemma winners_memory_usize n : 0 <= n -> is_usize (winners_memory n).
Proof. intros. unfold winners_memory. mlia. Qed.
(** After the columns are read: the state, the memory of the window kernel, the write. *)
Lemma rowtime_tail keys sidecar encoded spec' : let refs := map key_ref keys in
  0 <= order_index (plan p) < num_columns batch ->
  (forall times, column batch (order_index (plan p)) = Ok times -> kernel_ok (held (state p))
    (orders ← collect (timestamp_millis times) (row_numbers (len refs));
     winners ← all_winners (plan p) (map (held (state p)) refs) orders (group_rows 0 refs []) (replicate (length refs) false);
     w ← over_rows (rowtime_row (plan p) refs (map (held (state p)) refs) orders winners sidecar encoded) (rows_of_batch batch)
           (no_work (if generate_update_before (plan p) then Some [] else None));
     mutations ← batch_mutations (fun v => Some (to_vec v)) keys (num_rows batch) w;
     Ok (selection_of w encoded, mutations)) spec') ->
  batch_done o p spec' (('(reads, workspace) ← on_broker (load (state p) (scratch_reservation p) refs);
    times ← lift (column batch (order_index (plan p)));
    memory ← or_fail (on_broker (reserve_sibling (scratch_reservation p) "DataFusion deduplicate cumulative timestamps" (winners_memory (len refs))))
               [workspace; rb_reservation reads];
    finish reads workspace [memory]
      (orders ← collect (timestamp_millis times) (row_numbers (len refs));
       winners ← all_winners (plan p) (rb_values reads) orders (group_rows 0 refs []) (replicate (length refs) false);
       w ← over_rows (rowtime_row (plan p) refs (rb_values reads) orders winners sidecar encoded) (rows_of_batch batch)
             (no_work (if generate_update_before (plan p) then Some [] else None));
       mutations ← batch_mutations (fun v => Some (to_vec v)) keys (num_rows batch) w;
       Ok (selection_of w encoded, mutations))) (p, b)).
Proof.
  intros refs Hord Hker. pose proof (load_inv o p b refs Hi) as Hl. destruct (load (state p) (scratch_reservation p) refs b) as [[[reads workspace]|e|] b1] eqn:El; [| |done].
  2:{ rewrite (M_bind_err _ _ _ e (p, b1)) by (unfold on_broker; by rewrite El). by apply batch_failed. }
  destruct Hl as (Hv & Hr & Hw & Hb). rewrite (M_bind_run _ _ _ (reads, workspace) (p, b1)) by (unfold on_broker; by rewrite El). cbn beta iota.
  destruct (column_total batch (order_index (plan p)) Hord) as [times Et]. rewrite (lift_run _ _ _ times) by done.
  pose proof (ks_others _ _ _ (di_state o p b Hi)) as Hbb. assert (0 <= reserved b1) as Hb1 by lia.
  pose proof (reserve_sibling_spec (scratch_reservation p) "DataFusion deduplicate cumulative timestamps" (winners_memory (len refs)) b1 (winners_memory_usize _ (len_nonneg refs)) Hb1) as Hm.
  pose proof (winners_memory_usize _ (len_nonneg refs)) as Hu. unfold is_usize in Hu.
  destruct (reserve_sibling (scratch_reservation p) "DataFusion deduplicate cumulative timestamps" (winners_memory (len refs)) b1) as [[memory|e|] b2] eqn:Em; [| |done].
  - destruct Hm as [Hms Hb2]. rewrite (M_bind_run _ _ _ memory (p, b2)) by (unfold or_fail, on_broker; by rewrite Em). rewrite Hv.
    eapply finish_kernel; [exact Hi|done|done|repeat constructor; lia|rewrite zsum_cons; cbn [zsum foldr]; lia|]. by apply Hker.
  - destruct (fail_all_spec (A := resv) [workspace; rb_reservation reads] e p b2) as (b3 & E3 & Hb3); [by repeat constructor|rewrite !zsum_cons; cbn [zsum foldr]; lia|].
    rewrite !zsum_cons in Hb3. cbn [zsum foldr] in Hb3. rewrite (M_bind_err _ _ _ e (p, b3)) by (unfold or_fail, on_broker; rewrite Em; exact E3).
    apply batch_failed. eapply broker_inv; [exact Hi|lia].
Qed.
Definition visible_rows (sidecar : option (Z -> outcome bytes)) : outcome (option (list bytes)) :=
  if generate_update_before (plan p) && (match sidecar with None => true | Some _ => false end) then rows ← encode_visible_rows p batch; Ok (Some rows) else Ok None.
Lemma visible_rows_spec sidecar :
  match visible_rows sidecar with
  | Ok (Some rows) => len rows = num_rows batch /\ Forall (fun r => len r + 8 <= I64_MAX) rows
  | Ok None | Err _ => True
  | Panic => False
  end.
Proof.
  unfold visible_rows. pose proof (encode_visible_rows_spec p batch Hp Hprep) as He. destruct (_ && _); [|done]. by destruct (encode_visible_rows p batch).
Qed.
Lemma rowtime_done q : prepare_schema batch q = (Ok tt, (p, b)) -> input_changelog (plan p) = false -> processing_time (plan p) = false ->
  batch_done o p spec (select_rowtime key_capacity batch q).
Proof.
  intros Epr Ec Et. unfold select_rowtime. rewrite (M_bind_run _ _ _ tt (p, b)) by done. rewrite (M_bind_run _ _ _ p (p, b)) by done.
  pose proof (stored_rows_spec p batch Hp Hprep) as Hst. apply lift_done; [done|by intros E; rewrite E in Hst|]. intros sidecar Est. rewrite Est in Hst.
  rewrite (M_bind_same _ (lift (visible_rows sidecar))) by (unfold visible_rows; destruct (_ && _); [|done]; by destruct (encode_visible_rows p batch)).
  pose proof (visible_rows_spec sidecar) as Hvis. apply lift_done; [done|by intros E; rewrite E in Hvis|]. intros encoded Ev. rewrite Ev in Hvis.
  apply lift_done; [done|apply keys_no_panic|]. intros keys Hk. pose proof (state_keys_len _ _ _ _ Hk) as Hn.
  assert (0 <= order_index (plan p) < num_columns batch) as Hord.
  { split; [apply (po_order p Hp)|]. destruct (prepared_facts p batch Hp Hprep) as (facts & r & Hf & _). rewrite <- schema_columns. by apply (fk_order _ _ _ Hf). }
  apply rowtime_tail; [done|]. intros times Etm.
  assert (spec = (orders ← collect (timestamp_millis times) (row_numbers (num_rows batch)); sequential (rowtime_step (plan p) orders sidecar encoded) (map key_ref keys) (row_numbers (num_rows batch)) (held (state p)))) as ->.
  { unfold row_by_row. rewrite Hk. cbn [mbind outcome_bind]. unfold batch_step. rewrite Ec, Et, Est. cbn [mbind outcome_bind]. unfold visible_rows in Ev. rewrite Ev. cbn [mbind outcome_bind]. rewrite Etm. cbn [mbind outcome_bind].
    unfold rows_of_batch. by destruct (collect _ _). }
  apply rowtime_kernel; [by apply (ko_fit _ _ _ Hkeys)|done|by eapply column_len|]. intros orders Ho. split; [done| |].
  - intros g ->. exact Hst.
  - intros rows ->. exact Hvis.
Qed.
End modes.

(** ** Any batch *)

(** Plans that keep rows in state: all but the last row by arrival without
    inserts and retractions, which passes every row on. *)
Definition keeps_rows (plan : Deduplicate) : bool :=
  input_changelog plan || negb (processing_time plan) || negb (keep_last plan) || generate_insert plan || generate_update_before plan.
Lemma select_prepared p b batch q : prepare_schema batch q = (Ok tt, (p, b)) -> plan (fst q) = plan p -> forall o, dedup_inv o p b -> prepared p batch -> keys_ok key_capacity p batch ->
  keeps_rows (plan p) = true -> batch_done o p (row_by_row key_capacity p batch (held (state p))) (select key_capacity batch q).
Proof.
  intros Epr Epl o Hi Hprep Hk Hkeep. unfold select. rewrite (M_bind_run _ _ _ (fst q) q) by done. rewrite Epl. unfold keeps_rows in Hkeep.
  destruct (input_changelog (plan p)) eqn:Ec; [by apply (changelog_done o p b batch Hi Hprep Hk q)|].
  destruct (processing_time (plan p)) eqn:Et; [|by apply (rowtime_done o p b batch Hi Hprep Hk q)].
  unfold select_processing_time. rewrite (M_bind_run _ _ _ tt (p, b)) by done. rewrite (M_bind_run _ _ _ p (p, b)) by done.
  destruct (keep_last (plan p)) eqn:El; [by apply last_done|by apply first_done].
Qed.
(** Without a schema nothing happens. *)
Lemma select_unprepared batch q e q' : prepare_schema batch q = (Err e, q') -> select key_capacity batch q = (Err e, q').
Proof.
  intros E. unfold select. rewrite (M_bind_run _ _ _ (fst q) q) by done.
  destruct (input_changelog (plan (fst q))); [|destruct (processing_time (plan (fst q)))]; by apply M_bind_err.
Qed.
(** The selection of a batch: its schema is refused, or its rows are done. *)
Lemma select_done o p b batch : dedup_inv o p b -> keeps_rows (plan p) = true ->
  (forall facts r, analyse_schema (plan p) (batch_schema batch) (num_columns batch) = Ok facts -> keys_ok key_capacity (install_schema (batch_schema batch) facts r p) batch) ->
  (exists e b', select key_capacity batch (p, b) = (Err e, (p, b')) /\ dedup_inv o p b') \/
  exists facts r b1, let p1 := install_schema (batch_schema batch) facts r p in
    dedup_inv o p1 b1 /\ prepared p1 batch /\ retains p batch p1 /\ batch_done o p1 (row_by_row key_capacity p1 batch (held (state p))) (select key_capacity batch (p, b)).
Proof.
  intros Hi Hkeep Hkeys. pose proof (prepare_schema_spec o p b batch Hi) as Hpr. destruct (prepare_schema batch (p, b)) as [[[]|e|] [p1 b1]] eqn:Epr; [| |done].
  - destruct Hpr as (Hi1 & Hprep & facts & r & Ha & -> & Hret). right. exists facts, r, b1. split; [done|]. split; [done|]. split; [done|].
    by apply (select_prepared _ _ batch (p, b) Epr eq_refl o Hi1 Hprep (Hkeys facts r Ha)).
  - destruct Hpr as [-> Hi1]. left. exists e, b1. by rewrite (select_unprepared batch (p, b) e (p, b1) Epr).
Qed.
End select.

(** C36: Deduplicating a batch is deduplicating its rows one after another. For
    every valid plan that keeps rows in state, and any keyed state that keeps its
    laws, [select] never panics. When it succeeds, its output is what the rows
    produce in order, each from what the rows before it left for its key (the first
    or the last row by arrival, the earliest or latest by timestamp with its tie
    rule, or the changelog), the state holds exactly what the last of them left, and
    the memory handed on with the selection is what the broker holds beyond the
    rest. When it fails, the state holds what it held, and of the memory taken on
    the way only the schema stays reserved, when it was this batch that showed it:
    [schema_bytes] of the schema of the first batch. *)
Theorem deduplicate_batch_sequential {St B} `{KeyedStateLaws St B} `{!ReleaseTotal B} `{SchemaLaws} `{!ArrowLaws} `{!TimestampLaws} `{!RowConverters} `{!ConverterLaws} `{WindowLaws}
    (key_capacity : bytes -> Z) (o : Z) (p : DeduplicateProcessor (St := St)) (b : B) (batch : Batch) :
  dedup_inv o p b -> keeps_rows (plan p) = true ->
  (forall facts r, analyse_schema (plan p) (batch_schema batch) (num_columns batch) = Ok facts -> keys_ok key_capacity (install_schema (batch_schema batch) facts r p) batch) ->
  match select key_capacity batch (p, b) with
  | (Ok sel, (p', b')) => exists events f' memory,
      row_by_row key_capacity p' batch (held (state p)) = Ok (events, f') /\ shows sel events /\ (forall key, held (state p') key = f' key) /\
      historical_memory sel = Some memory /\ dedup_inv (o + rsize memory) p' b' /\ plan p' = plan p /\ input_schema p' = Some (batch_schema batch)
  | (Err _, (p', b')) => (forall key, held (state p') key = held (state p) key) /\ dedup_inv o p' b' /\ plan p' = plan p /\
      (retained p' = retained p \/ (input_schema p = None /\ retained p' = schema_bytes (batch_schema batch)))
  | (Panic, _) => False
  end.
Proof.
  intros Hi Hkeep Hkeys. destruct (select_done key_capacity o p b batch Hi Hkeep Hkeys) as [(e & b' & -> & Hi')|(facts & r & b1 & _ & _ & Hret & Hd)]; [by split_and!; [..|left]|].
  destruct (select key_capacity batch (p, b)) as [[sel|e|] [p' b']]; [| |done].
  - destruct Hd as (events & f' & memory & Hs & Hsh & Hh & Hm & Ep & Hi'). exists events, f', memory. rewrite Ep in Hi'. rewrite Ep. done.
  - destruct Hd as (Ep & Hh & Hi'). split; [exact Hh|]. split; [done|]. rewrite Ep. split; [done|exact Hret].
Qed.
