(* ===== verification/DeduplicateMeaning.v ===== *)
(** * What deduplication keeps and emits

    By timestamp, the state of a key ends with the row that wins among the rows of
    the batch and the row stored before. With retractions, the output is a changelog
    that takes the stored rows before the batch to the stored rows after it. *)

From Stdlib Require Import ZArith Lia Strings.Byte.
From stdpp Require Import base list option numbers strings.
From S2P Require Import Prelude Bytes OrdMap MemoryPool OrderedState OrderedWrites KeyedState Restore KeyGroup Arrow Envelope BinaryRow Routing RoutingSpec Deduplicate DeduplicateStaging DeduplicateWinners DeduplicateBatch DeduplicateSelect.

(** ** Changelogs *)

Section replay.
Context (content : Z -> outcome bytes) (refs : list StateKeyRef).
Definition event_row (e : Event) : outcome bytes := match ev_stored e with Some r => Ok r | None => content (ev_content e) end.
Definition retracts (e : Event) : bool := (ev_kind e =? UPDATE_BEFORE) || (ev_kind e =? DELETE).
(** A table of rows by key: a retraction takes away the row it names, any other
    change adds a row where there is none. *)
Fixpoint replay (events : list Event) (t : view) : option view :=
  match events with
  | [] => Some t
  | e :: events =>
      match at_index refs (ev_envelope e), event_row e with
      | Ok key, Ok row =>
          if retracts e then (if bool_decide (t key = Some row) then replay events (upd t key None) else None)
          else if bool_decide (t key = None) then replay events (upd t key (Some row)) else None
      | _, _ => None
      end
  end.
Lemma events_replay_app es1 es2 t : replay (es1 ++ es2) t = replay es1 t ≫= replay es2.
Proof.
  revert t. induction es1 as [|e es1 IH]; intros t; [done|]. cbn [app replay]. destruct (at_index refs (ev_envelope e)) as [key| |]; [|done..]. destruct (event_row e) as [row| |]; [|done..].
  destruct (retracts e); case_bool_decide; done || apply IH.
Qed.
Lemma replay_shown row key kind r t : 0 <= row -> refs !! Z.to_nat row = Some key -> content row = Ok r -> retracts (shown row kind) = false -> t key = None ->
  replay [shown row kind] t = Some (upd t key (Some r)).
Proof.
  intros Hr Hk Hc Hret Ht. cbn [replay]. change (ev_envelope (shown row kind)) with row. rewrite (proj2 (at_index_Ok refs row key)) by done.
  change (event_row (shown row kind)) with (content row). rewrite Hc, Hret, bool_decide_eq_true_2 by done. done.
Qed.
Lemma replay_historical row key kind r t : 0 <= row -> refs !! Z.to_nat row = Some key -> retracts (historical row kind r) = true -> t key = Some r ->
  replay [historical row kind r] t = Some (upd t key None).
Proof.
  intros Hr Hk Hret Ht. cbn [replay]. change (ev_envelope (historical row kind r)) with row. rewrite (proj2 (at_index_Ok refs row key)) by done.
  change (event_row (historical row kind r)) with (Ok r). rewrite Hret, bool_decide_eq_true_2 by done. done.
Qed.
(** The events of a step change the table as the step changes the state. *)
Definition replays (row_of : option bytes -> option bytes) (step : RowStep) : Prop := forall row key prev v events t,
  step row prev = Ok (Some (v, events)) -> 0 <= row -> refs !! Z.to_nat row = Some key -> t key = row_of prev ->
  exists t', replay events t = Some t' /\ t' key = row_of v /\ forall k, k <> key -> t' k = t k.
Lemma sequential_replays row_of step : replays row_of step -> forall rows f events f' t, sequential step refs rows f = Ok (events, f') ->
  (forall key, t key = row_of (f key)) -> exists t', replay events t = Some t' /\ forall key, t' key = row_of (f' key).
Proof.
  intros Hs rows. induction rows as [|row rows IH]; intros f events f' t; cbn [sequential]; [intros [= <- <-] Ht; by exists t|].
  destruct (at_index refs row) as [key| |] eqn:Ek; [|done..]. cbn [mbind outcome_bind]. apply at_index_Ok in Ek as [Hr Hk].
  destruct (step row (f key)) as [[[v new]|]|e|] eqn:Es; [|apply IH|done|done]. cbn [mbind outcome_bind].
  destruct (sequential step refs rows (upd f key v)) as [[later f1]| |] eqn:El; [|done..]. cbn. intros [= <- <-] Ht.
  destruct (Hs row key (f key) v new t Es Hr Hk (Ht key)) as (t1 & E1 & Hkey & Hother).
  destruct (IH _ _ _ t1 El) as (t' & E' & Ht'); [|exists t'; split; [by rewrite events_replay_app, E1|done]].
  intros k. unfold upd. destruct (decide (k = key)) as [->|Hne]; [done|]. by rewrite Hother, Ht.
Qed.
Context (plan : Deduplicate) (Hub : generate_update_before plan = true).
(** A row in place of the previous one, which is retracted. *)
Lemma update_replays row key previous kind current t : 0 <= row -> refs !! Z.to_nat row = Some key -> content row = Ok current -> retracts (shown row kind) = false ->
  t key = previous -> exists t', replay (retraction plan row previous ++ [shown row kind]) t = Some t' /\ t' key = Some current /\ forall k, k <> key -> t' k = t k.
Proof.
  intros Hr Hk Hc Hret Ht. unfold retraction. rewrite Hub. destruct previous as [x|].
  - rewrite events_replay_app, (replay_historical row key UPDATE_BEFORE x t) by done. cbn [mbind option_bind].
    rewrite (replay_shown row key kind current) by (try done; unfold upd; by rewrite decide_True). eexists. split; [done|]. unfold upd.
    split; [by rewrite decide_True|]. intros k Hne. by rewrite !decide_False.
  - cbn [app]. rewrite (replay_shown row key kind current) by done. eexists. split; [done|]. unfold upd. split; [by rewrite decide_True|]. intros k Hne. by rewrite decide_False.
Qed.
Lemma row_ordinal_Ok row n : row_ordinal row = Ok n -> n = row.
Proof. unfold row_ordinal. destruct (_ <=? _); [|done]. by intros [= ->]. Qed.
Lemma update_kind (previous : option bytes) row : retracts (shown row (match previous with None => INSERT | Some _ => UPDATE_AFTER end)) = false.
Proof. by destruct previous. Qed.
Lemma last_replays encoded : (forall row, content row = at_index encoded row) -> replays (option_map id) (last_step plan encoded).
Proof.
  intros Hc row key prev v events t Hs Hr Hk Ht. unfold last_step in Hs. rewrite <- Hc in Hs. destruct (content row) as [current| |] eqn:Ec; [|done..]. cbn [mbind outcome_bind] in Hs.
  case_bool_decide; [done|]. destruct (row_ordinal row) as [ordinal| |] eqn:Eo; [|done..]. apply row_ordinal_Ok in Eo as ->. cbn [mbind outcome_bind] in Hs. injection Hs as <- <-.
  apply update_replays; [done|done|done|apply update_kind|]. rewrite Ht. by destruct prev.
Qed.
Lemma change_replays kinds : replays (option_map id) (change_step plan content kinds).
Proof.
  intros row key prev v events t Hs Hr Hk Ht. unfold change_step in Hs. destruct (kinds row) as [k| |]; [|done..]. cbn [mbind outcome_bind] in Hs. destruct (_ || _).
  - destruct (content row) as [current| |] eqn:Ec; [|done..]. cbn [mbind outcome_bind] in Hs.
    case_bool_decide; [done|]. destruct (row_ordinal row) as [ordinal| |] eqn:Eo; [|done..]. apply row_ordinal_Ok in Eo as ->. cbn [mbind outcome_bind] in Hs. injection Hs as <- <-.
    apply update_replays; [done|done|done|apply update_kind|]. rewrite Ht. by destruct prev.
  - destruct (_ || _); [|done]. destruct prev as [x|]; [|done]. destruct (row_ordinal row) as [ordinal| |] eqn:Eo; [|done..]. apply row_ordinal_Ok in Eo as ->. cbn [mbind outcome_bind] in Hs. injection Hs as <- <-.
    rewrite (replay_historical row key DELETE x t) by done. eexists. split; [done|]. unfold upd. split; [by rewrite decide_True|]. intros k' Hne. by rewrite decide_False.
Qed.
(** The row stored behind the timestamp. *)
Definition stored_content (sidecar : option (Z -> outcome bytes)) (encoded : option (list bytes)) (row : Z) : outcome (option bytes) :=
  match sidecar with Some rows => v ← rows row; Ok (Some v) | None => transpose (option_map (fun rows => at_index rows row) encoded) end.
Lemma drop_order order current : drop 8 (encode_value order current) = default [] current.
Proof. unfold encode_value. rewrite drop_app_ge by (by rewrite i64_le_length). by rewrite i64_le_length. Qed.
Lemma rowtime_replays orders sidecar encoded : is_Some sidecar \/ is_Some encoded ->
  (forall row, content row = match sidecar with Some g => g row | None => match encoded with Some rows => at_index rows row | None => Panic end end) ->
  replays (option_map (drop 8)) (rowtime_step plan orders sidecar encoded).
Proof.
  intros Hsrc Hc row key prev v events t Hs Hr Hk Ht. unfold rowtime_step, rowtime_output in Hs. rewrite Hub in Hs. inv_M. destruct (wins _ _ _); [|done]. inv_M. simplify_eq.
  apply row_ordinal_Ok in E6 as ->. cbn [option_map]. rewrite drop_order. assert (a3 = option_map (drop 8) prev) as ->.
  { destruct prev as [x|]; [|by injection E3 as <-]. cbn in E3. unfold decode_stored_row in E3. destruct (_ || _); [done|]. by injection E3 as <-. }
  apply update_replays; [done|done| |by destruct (_ && _)|done]. rewrite Hc. destruct sidecar as [g|].
  - destruct (g row) as [x| |]; cbn in E5; [|done..]. by injection E5 as <-.
  - injection E5 as <-. destruct Hsrc as [[? ?]|[rows ->]]; [done|]. cbn in E4. destruct (at_index rows row); [|done..]. by injection E4 as <-.
Qed.
End replay.

(** Rows of other keys leave a key alone. *)
Lemma sequential_other step refs key rows : (forall row, row ∈ rows -> at_index refs row <> Ok key) -> forall f events f',
  sequential step refs rows f = Ok (events, f') -> f' key = f key.
Proof.
  induction rows as [|row rows IH]; intros Hn f events f'; cbn [sequential]; [by intros [= _ <-]|]. pose proof (Hn row ltac:(constructor)) as Hne.
  assert (forall row, row ∈ rows -> at_index refs row <> Ok key) as Hn' by (intros r Hr; apply Hn; by constructor).
  destruct (at_index refs row) as [k| |]; [|done..]. cbn [mbind outcome_bind]. destruct (step row (f k)) as [[[v new]|]|e|]; [|by apply IH|done|done]. cbn [mbind outcome_bind].
  destruct (sequential step refs rows (upd f k v)) as [[later f1]| |] eqn:El; [|done..]. cbn. intros [= _ <-]. rewrite (IH Hn' _ _ _ El). unfold upd. by rewrite decide_False by congruence.
Qed.

(** ** The winner *)

Section winner.
Context (plan : Deduplicate) (refs : list StateKeyRef) (f0 : view) (orders : list Z) (sidecar : option (Z -> outcome bytes)) (encoded : option (list bytes)).
Abbreviation order r := (order_of orders r).
(** The later of two rows wins a tie for the last row, the earlier for the first. *)
Definition beats (r r' : Z) : Prop :=
  if keep_last plan then order r' < order r \/ (order r' = order r /\ r' <= r) else order r < order r' \/ (order r = order r' /\ r <= r').
(** What the key holds after its rows: what it held, when no row wins against it,
    or the row that beats all others. *)
Definition keeps (key : StateKeyRef) (rows : list Z) (held : option Z) (v : option bytes) : Prop :=
  (v = f0 key /\ forall r, r ∈ rows -> wins plan held (order r) = false) \/
  exists r current, r ∈ rows /\ v = Some (encode_value (order r) current) /\ stored_content sidecar encoded r = Ok current /\
    wins plan held (order r) = true /\ forall r', r' ∈ rows -> beats r r'.
Lemma keeps_none key rows v : keeps key rows None v -> rows <> [] -> exists r current, r ∈ rows /\ v = Some (encode_value (order r) current) /\ forall r', r' ∈ rows -> beats r r'.
Proof.
  intros [[_ Hn]|(r & current & Hr & Hv & _ & _ & Hb)] Hne; [|by exists r, current]. destruct rows as [|r rows]; [done|]. specialize (Hn r ltac:(constructor)). done.
Qed.
Lemma rowtime_value row previous v events : 0 <= row < len orders -> rowtime_output plan orders sidecar encoded row previous = Ok (Some (v, events)) ->
  exists current, v = Some (encode_value (order row) current) /\ stored_content sidecar encoded row = Ok current.
Proof.
  intros Hr Ho. unfold rowtime_output in Ho. rewrite (order_at orders row) in Ho by done. cbn [mbind outcome_bind] in Ho. unfold stored_content. inv_M. simplify_eq.
  eexists. split; [done|]. destruct sidecar; [done|congruence].
Qed.
Lemma keeps_order key rows held v : Forall (fun r => is_i64 (order r)) rows -> order_held f0 key = Ok held -> keeps key rows held v ->
  exists now, order_held (fun _ => v) key = Ok now /\ ((now = held /\ v = f0 key /\ forall r, r ∈ rows -> wins plan held (order r) = false) \/
    exists r, r ∈ rows /\ now = Some (order r) /\ wins plan held (order r) = true /\ forall r', r' ∈ rows -> beats r r').
Proof.
  intros Hi Hh [[-> Hn]|(r & current & Hr & -> & _ & Hw & Hb)]; [exists held; split; [done|by left]|]. exists (Some (order r)). split; [|right; by exists r].
  unfold order_held. cbn [option_map transpose]. rewrite decode_encode; [done|]. rewrite Forall_forall in Hi. by apply Hi.
Qed.
Lemma beats_trans r r' x : beats r r' -> wins plan (Some (order r)) (order x) = true -> r' <= x -> beats x r'.
Proof. unfold beats, wins. destruct (keep_last plan); lia. Qed.
Lemma beats_loser r x : wins plan (Some (order r)) (order x) = false -> r <= x -> beats r x.
Proof. unfold beats, wins. destruct (keep_last plan); lia. Qed.
Lemma beats_refl r : beats r r.
Proof. unfold beats. destruct (keep_last plan); lia. Qed.
Lemma beats_first held r' x : wins plan held (order r') = false -> wins plan held (order x) = true -> beats x r'.
Proof. unfold beats, wins. destruct held as [h|]; [|done]. destruct (keep_last plan); lia. Qed.
Lemma wins_chain held r x : wins plan held (order r) = true -> wins plan (Some (order r)) (order x) = true -> wins plan held (order x) = true.
Proof. unfold wins. destruct held as [h|]; [|done]. destruct (keep_last plan); lia. Qed.
(** A row of the key after the rows so far. *)
Lemma keeps_row key rows held v x s : 0 <= x < len orders -> Forall (fun r => is_i64 (order r) /\ r <= x) rows -> order_held f0 key = Ok held -> keeps key rows held v ->
  rowtime_step plan orders sidecar encoded x v = Ok s -> keeps key (rows ++ [x]) held (match s with None => v | Some (v', _) => v' end).
Proof.
  intros Hx Hrows Hh Hk Hs. destruct (keeps_order key rows held v) as (now & Hnow & Hcase); [by eapply Forall_impl; [exact Hrows|tauto]|done|done|].
  unfold rowtime_step in Hs. rewrite (order_at orders x Hx) in Hs. cbn [mbind outcome_bind] in Hs. unfold order_held in Hnow. rewrite Hnow in Hs. cbn [mbind outcome_bind] in Hs.
  rewrite Forall_forall in Hrows. destruct (wins plan now (order x)) eqn:Ew.
  - destruct s as [[v' events]|]; [|by unfold rowtime_output in Hs; inv_M]. destruct (rowtime_value x v v' events Hx Hs) as (current & -> & Hc). right. exists x, current.
    split; [apply elem_of_app; right; constructor|]. split; [done|]. split; [done|]. destruct Hcase as [(-> & -> & Hn)|(r & Hr & -> & Hw & Hb)].
    + split; [done|]. intros r' [Hr'|E%list_elem_of_singleton]%elem_of_app; [|subst; apply beats_refl]. apply (beats_first held); [by apply Hn|done].
    + split; [by apply (wins_chain held r x)|]. intros r' [Hr'|E%list_elem_of_singleton]%elem_of_app; [|subst; apply beats_refl].
      apply (beats_trans r); [by apply Hb|done|]. by apply Hrows.
  - injection Hs as <-. destruct Hcase as [(-> & -> & Hn)|(r & Hr & -> & Hw & Hb)].
    + left. split; [done|]. intros r [Hr|E%list_elem_of_singleton]%elem_of_app; [by apply Hn|by subst].
    + destruct Hk as [[-> Hn]|(r1 & current & Hr1 & -> & Hc & Hw1 & Hb1)]; [rewrite Hn in Hw by done; done|].
      assert (order r1 = order r) as Eo by (specialize (Hb r1 Hr1); specialize (Hb1 r Hr); unfold beats in *; destruct (keep_last plan); lia).
      right. exists r1, current. split; [apply elem_of_app; by left|]. split; [done|]. split; [done|]. split; [done|].
      intros r' [Hr'|E%list_elem_of_singleton]%elem_of_app; [by apply Hb1|]. subst. apply beats_loser; [by rewrite Eo|]. by apply Hrows.
Qed.
Context (Hlen : len orders = len refs) (Hi64 : Forall is_i64 orders).
Lemma order_i64 r : 0 <= r < len orders -> is_i64 (order r).
Proof. intros Hr. pose proof (order_at orders r Hr) as [_ Hx]%at_index_Ok. rewrite Forall_forall in Hi64. apply Hi64. by eapply list_elem_of_lookup_2. Qed.
Lemma rows_of_bounds key n : (n <= length refs)%nat -> Forall (fun r => is_i64 (order r) /\ r <= Z.of_nat n) (rows_of key refs n).
Proof.
  intros Hn. eapply Forall_impl; [apply rows_of_range|]. cbn. intros r Hr. split; [|lia]. apply order_i64. rewrite Hlen. unfold len. lia.
Qed.
Lemma keeps_loop key held : order_held f0 key = Ok held -> forall k r0 f events f', (r0 + k = length refs)%nat -> keeps key (rows_of key refs r0) held (f key) ->
  sequential (rowtime_step plan orders sidecar encoded) refs (map Z.of_nat (seq r0 k)) f = Ok (events, f') -> keeps key (rows_of key refs (length refs)) held (f' key).
Proof.
  intros Hh. induction k as [|k IH]; intros r0 f events f' Hk Hf; cbn [seq map sequential].
  { intros [= _ <-]. by replace (length refs) with r0 by lia. }
  destruct (lookup_lt_is_Some_2 refs r0 ltac:(lia)) as [key' Hkey]. rewrite (proj2 (at_index_Ok refs (Z.of_nat r0) key')) by (rewrite Nat2Z.id; split; [lia|done]). cbn [mbind outcome_bind].
  assert (0 <= Z.of_nat r0 < len orders) as Hr by (rewrite Hlen; unfold len; lia).
  assert (forall s, rowtime_step plan orders sidecar encoded (Z.of_nat r0) (f key') = Ok s ->
    keeps key (rows_of key refs (S r0)) held (match s with None => f | Some (v, _) => upd f key' v end key)) as Hnext.
  { intros s Es. rewrite rows_of_S, Hkey. destruct (decide (Some key' = Some key)) as [[= ->]|Hne].
    - pose proof (keeps_row key _ held (f key) _ s Hr (rows_of_bounds key r0 ltac:(lia)) Hh Hf Es) as Hx. destruct s as [[v ?]|]; [unfold upd; by rewrite decide_True|done].
    - rewrite app_nil_r. destruct s as [[v ?]|]; [unfold upd; by rewrite decide_False by congruence|done]. }
  destruct (rowtime_step plan orders sidecar encoded (Z.of_nat r0) (f key')) as [[[v new]|]|e|]; [| |done|done]; cbn [mbind outcome_bind]; specialize (Hnext _ eq_refl).
  - destruct (sequential _ refs _ _) as [[later f1]| |] eqn:El; [|done..]. cbn. intros [= _ <-]. by eapply (IH (S r0)); [lia|exact Hnext|exact El].
  - intros El. by eapply (IH (S r0)); [lia|exact Hnext|exact El].
Qed.
(** A batch that succeeds found a timestamp in every value it read. *)
Lemma held_orders : forall k r0 f events f', (r0 + k = length refs)%nat ->
  (forall key, rows_of key refs r0 = [] -> f key = f0 key) -> (forall key, rows_of key refs r0 <> [] -> exists held, order_held f0 key = Ok held) ->
  sequential (rowtime_step plan orders sidecar encoded) refs (map Z.of_nat (seq r0 k)) f = Ok (events, f') ->
  forall key, rows_of key refs (length refs) <> [] -> exists held, order_held f0 key = Ok held.
Proof.
  induction k as [|k IH]; intros r0 f events f' Hk Hf Hh; cbn [seq map sequential].
  { intros _. by replace (length refs) with r0 by lia. }
  destruct (lookup_lt_is_Some_2 refs r0 ltac:(lia)) as [key' Hkey]. rewrite (proj2 (at_index_Ok refs (Z.of_nat r0) key')) by (rewrite Nat2Z.id; split; [lia|done]). cbn [mbind outcome_bind].
  assert (0 <= Z.of_nat r0 < len orders) as Hr by (rewrite Hlen; unfold len; lia).
  assert (forall s, rowtime_step plan orders sidecar encoded (Z.of_nat r0) (f key') = Ok s -> forall key, rows_of key refs (S r0) <> [] -> exists held, order_held f0 key = Ok held) as Hnext.
  { intros s Es key. rewrite rows_of_S, Hkey. destruct (decide (Some key' = Some key)) as [[= ->]|Hne]; [|rewrite app_nil_r; apply Hh]. intros _.
    destruct (rows_of key refs r0) eqn:Er; [|apply Hh; by rewrite Er]. unfold rowtime_step in Es. rewrite (order_at orders _ Hr) in Es. cbn [mbind outcome_bind] in Es.
    rewrite (Hf key Er) in Es. unfold order_held. destruct (transpose (option_map decode_order (f0 key))); [by eexists|done..]. }
  assert (forall v key, rows_of key refs (S r0) = [] -> upd f key' v key = f0 key) as Hupd.
  { intros v key. rewrite rows_of_S, Hkey. unfold upd. destruct (decide (key = key')) as [->|Hne]; [rewrite decide_True by done; by destruct (rows_of _ _ _)|].
    rewrite decide_False by congruence. rewrite app_nil_r. apply Hf. }
  destruct (rowtime_step plan orders sidecar encoded (Z.of_nat r0) (f key')) as [[[v new]|]|e|]; [| |done|done]; cbn [mbind outcome_bind]; specialize (Hnext _ eq_refl).
  - destruct (sequential _ refs _ _) as [[later f1]| |] eqn:El; [|done..]. intros _. by eapply (IH (S r0)); [lia|apply Hupd|exact Hnext|exact El].
  - intros El. eapply (IH (S r0)); [lia| |exact Hnext|exact El]. intros key Hkey'. apply Hf. rewrite rows_of_S in Hkey'. by apply app_nil in Hkey' as [? _].
Qed.
Lemma rowtime_winner n events f' : n = len refs -> sequential (rowtime_step plan orders sidecar encoded) refs (row_numbers n) f0 = Ok (events, f') ->
  forall key, (rows_of key refs (length refs) = [] /\ f' key = f0 key) \/
    exists held, order_held f0 key = Ok held /\ keeps key (rows_of key refs (length refs)) held (f' key).
Proof.
  intros -> Hs key. unfold row_numbers in Hs. rewrite len_to_nat in Hs. destruct (rows_of key refs (length refs)) as [|r rows] eqn:Er; [left|right].
  - split; [done|]. eapply sequential_other; [|exact Hs]. intros row _ [Hr Hk]%at_index_Ok.
    assert (Z.of_nat (Z.to_nat row) ∈ rows_of key refs (length refs)) as Hin by (apply rows_of_elem; split; [by eapply lookup_lt_Some|done]). rewrite Er in Hin. by apply elem_of_nil in Hin.
  - destruct (held_orders (length refs) O f0 events f' ltac:(lia) ltac:(done) ltac:(by intros ? ?) Hs key ltac:(by rewrite Er)) as [held Hh].
    exists held. split; [done|]. rewrite <- Er. eapply (keeps_loop key held Hh (length refs) O); [lia| |exact Hs]. left. split; [done|]. intros r' Hr'. by apply elem_of_nil in Hr'.
Qed.
End winner.

(** ** Batches *)

Section batches.
Context {St B : Type} `{KeyedStateLaws St B} `{!ReleaseTotal B} `{SchemaLaws} `{!ArrowLaws} `{!TimestampLaws} `{!RowConverters} `{!ConverterLaws} `{WindowLaws}.
Context (key_capacity : bytes -> Z).
Implicit Types (p : DeduplicateProcessor (St := St)) (b : B).

(** The columns of a batch by timestamp. *)
Record rowtime_columns p (batch : Batch) (orders : list Z) (sidecar : option (Z -> outcome bytes)) (encoded : option (list bytes)) : Prop := {
  rc_orders : (times ← column batch (order_index (plan p)); collect (timestamp_millis times) (rows_of_batch batch)) = Ok orders;
  rc_sidecar : stored_rows p batch = Ok sidecar;
  rc_encoded : visible_rows p batch sidecar = Ok encoded;
}.
Lemma rowtime_columns_run p batch f r : input_changelog (plan p) = false -> processing_time (plan p) = false -> row_by_row key_capacity p batch f = Ok r ->
  exists keys orders sidecar encoded, state_keys key_capacity p batch = Ok keys /\ rowtime_columns p batch orders sidecar encoded /\
    sequential (rowtime_step (plan p) orders sidecar encoded) (map key_ref keys) (rows_of_batch batch) f = Ok r.
Proof.
  intros Ec Et Hr. unfold row_by_row, batch_step in Hr. rewrite Ec, Et in Hr. destruct (state_keys key_capacity p batch) as [keys| |] eqn:Ek; [|done..]. cbn [mbind outcome_bind] in Hr.
  destruct (stored_rows p batch) as [sidecar| |] eqn:Es; [|done..]. cbn [mbind outcome_bind] in Hr. fold (visible_rows p batch sidecar) in Hr.
  destruct (visible_rows p batch sidecar) as [encoded| |] eqn:Ee; [|done..]. cbn [mbind outcome_bind] in Hr.
  destruct (column batch (order_index (plan p))) as [times| |] eqn:Etm; [|done..]. cbn [mbind outcome_bind] in Hr.
  destruct (collect (timestamp_millis times) (rows_of_batch batch)) as [orders| |] eqn:Eo; [|done..]. cbn [mbind outcome_bind] in Hr.
  exists keys, orders, sidecar, encoded. split; [done|]. split; [|done]. split; [by rewrite Etm|done|done].
Qed.
Lemma rowtime_orders p batch orders sidecar encoded : rowtime_columns p batch orders sidecar encoded -> len orders = num_rows batch /\ Forall is_i64 orders.
Proof.
  intros [Ho _ _]. destruct (column batch (order_index (plan p))) as [times| |] eqn:Et; [|done..]. cbn [mbind outcome_bind] in Ho.
  pose proof (orders_spec times (num_rows batch) (column_len _ _ _ Et)) as Hs. unfold rows_of_batch in Ho. by rewrite Ho in Hs.
Qed.
(** The row an input row stands for, and the row in a stored value. *)
Definition row_content p (batch : Batch) : outcome (Z -> outcome bytes) :=
  if input_changelog (plan p) then
    stored ← stored_rows p batch; ok_or (Execution "changelog deduplicate requires opaque Flink BinaryRow bytes") stored
  else if processing_time (plan p) then encoded ← encode_visible_rows p batch; Ok (at_index encoded)
  else
    sidecar ← stored_rows p batch;
    match sidecar with Some g => Ok g | None => rows ← encode_visible_rows p batch; Ok (at_index rows) end.
Definition row_of_value (plan : Deduplicate) : bytes -> bytes := if input_changelog plan || processing_time plan then id else drop 8.
Definition table (plan : Deduplicate) (f : view) : view := fun key => option_map (row_of_value plan) (f key).
Definition emits_retractions (plan : Deduplicate) : bool := generate_update_before plan && (input_changelog plan || negb (processing_time plan) || keep_last plan).
Lemma row_by_row_replays p batch f events f' : emits_retractions (plan p) = true -> row_by_row key_capacity p batch f = Ok (events, f') ->
  exists keys content t', state_keys key_capacity p batch = Ok keys /\ row_content p batch = Ok content /\
    replay content (map key_ref keys) events (table (plan p) f) = Some t' /\ forall key, t' key = table (plan p) f' key.
Proof.
  intros [Hub Hm]%andb_true_iff Hr. unfold row_content, table, row_of_value. destruct (input_changelog (plan p)) eqn:Ec; [|destruct (processing_time (plan p)) eqn:Et].
  - unfold row_by_row, batch_step in Hr. rewrite Ec in Hr. destruct (state_keys key_capacity p batch) as [keys| |]; [|done..]. cbn [mbind outcome_bind] in Hr.
    destruct (stored_rows p batch) as [[g|]| |]; [|done..]. cbn [mbind outcome_bind ok_or] in Hr |- *. destruct (input_kinds p batch) as [kinds| |]; [|done..]. cbn [mbind outcome_bind] in Hr.
    destruct (sequential_replays g (map key_ref keys) (option_map id) _ (change_replays g (map key_ref keys) (plan p) Hub kinds) _ _ _ _ (fun key => option_map id (f key)) Hr ltac:(done)) as (t' & E & Ht).
    by exists keys, g, t'.
  - unfold row_by_row, batch_step in Hr. rewrite Ec, Et in Hr. cbn [negb orb] in Hm. rewrite Hm in Hr. destruct (state_keys key_capacity p batch) as [keys| |]; [|done..]. cbn [mbind outcome_bind] in Hr.
    destruct (encode_visible_rows p batch) as [encoded| |]; [|done..]. cbn [mbind outcome_bind] in Hr |- *.
    destruct (sequential_replays (at_index encoded) (map key_ref keys) (option_map id) _ (last_replays (at_index encoded) (map key_ref keys) (plan p) Hub encoded ltac:(done)) _ _ _ _ (fun key => option_map id (f key)) Hr ltac:(done)) as (t' & E & Ht).
    by exists keys, (at_index encoded), t'.
  - destruct (rowtime_columns_run p batch f _ Ec Et Hr) as (keys & orders & sidecar & encoded & Hk & [_ Hs He] & Hseq). rewrite Hs. cbn [mbind outcome_bind orb]. unfold visible_rows in He. rewrite Hub in He.
    assert (exists content, match sidecar with Some g => Ok g | None => rows ← encode_visible_rows p batch; Ok (at_index rows) end = Ok content /\ (is_Some sidecar \/ is_Some encoded) /\
      forall row, content row = match sidecar with Some g => g row | None => match encoded with Some rows => at_index rows row | None => Panic end end) as (content & -> & Hsrc & Hc).
    { destruct sidecar as [g|]; [exists g; split; [done|]; split; [by left|done]|]. cbn [andb] in He. destruct (encode_visible_rows p batch) as [rows| |]; [|done..]. cbn [mbind outcome_bind] in He |- *.
      injection He as <-. exists (at_index rows). split; [done|]. split; [by right|done]. }
    destruct (sequential_replays content (map key_ref keys) (option_map (drop 8)) _ (rowtime_replays content (map key_ref keys) (plan p) Hub orders sidecar encoded Hsrc Hc) _ _ _ _ (fun key => option_map (drop 8) (f key)) Hseq ltac:(done)) as (t' & E & Ht).
    by exists keys, content, t'.
Qed.
Lemma keeps_retractions plan : emits_retractions plan = true -> keeps_rows plan = true.
Proof. unfold emits_retractions, keeps_rows. intros [-> _]%andb_true_iff. by rewrite !orb_true_r. Qed.
End batches.

(** C37: By timestamp, the state keeps the winner. When a batch is deduplicated by
    timestamp, a key with no row in it holds what it held, and any other key holds
    either what it held, when none of its rows beats that, or the timestamp and the
    stored row of one of its rows, which beats what was held and every other row of
    the key: the latest, and the later of equals, when the last row is kept; the
    earliest, and the earlier of equals, when the first is. *)
Theorem rowtime_keeps_winner {St B} `{KeyedStateLaws St B} `{!ReleaseTotal B} `{SchemaLaws} `{!ArrowLaws} `{!TimestampLaws} `{!RowConverters} `{!ConverterLaws} `{WindowLaws}
    (key_capacity : bytes -> Z) (o : Z) (p : DeduplicateProcessor (St := St)) (b : B) (batch : Batch) sel p' b' :
  dedup_inv o p b -> input_changelog (plan p) = false -> processing_time (plan p) = false ->
  (forall facts r, analyse_schema (plan p) (batch_schema batch) (num_columns batch) = Ok facts -> keys_ok key_capacity (install_schema (batch_schema batch) facts r p) batch) ->
  select key_capacity batch (p, b) = (Ok sel, (p', b')) ->
  exists keys orders sidecar encoded, state_keys key_capacity p' batch = Ok keys /\ rowtime_columns p' batch orders sidecar encoded /\
    forall key, let rows := rows_of key (map key_ref keys) (length keys) in
      (rows = [] /\ held (state p') key = held (state p) key) \/
      exists before, order_held (held (state p)) key = Ok before /\ keeps (plan p) (held (state p)) orders sidecar encoded key rows before (held (state p') key).
Proof.
  intros Hi Ec Et Hkeys Hs. assert (keeps_rows (plan p) = true) as Hkeep by (unfold keeps_rows; by rewrite Ec, Et).
  destruct (select_done key_capacity o p b batch Hi Hkeep Hkeys) as [(e & b1 & E & _)|(facts & r & b1 & _ & _ & _ & Hd)]; [congruence|]. rewrite Hs in Hd.
  destruct Hd as (events & f' & memory & Hr & _ & Hh & _ & Ep & _). set (p1 := install_schema (batch_schema batch) facts r p) in *.
  destruct (rowtime_columns_run key_capacity p1 batch (held (state p)) (events, f') Ec Et Hr) as (keys & orders & sidecar & encoded & Hk & Hc & Hseq).
  exists keys, orders, sidecar, encoded. rewrite Ep. split; [done|]. split; [by destruct Hc|]. intros key rows.
  destruct (rowtime_orders p1 batch orders sidecar encoded Hc) as [Hl Hi64]. pose proof (state_keys_len _ _ _ _ Hk) as Hn.
  change (held (state (set_state (state p') p1)) key) with (held (state p') key). rewrite (Hh key). unfold rows.
  rewrite <- (length_map key_ref keys). eapply rowtime_winner; [rewrite refs_len; lia|done|rewrite refs_len; symmetry; exact Hn|exact Hseq].
Qed.

(** C38: With retractions the output is a changelog of the stored rows. For a plan
    that emits them (a changelog input, the last row by arrival, or either row by
    timestamp), replaying the output of a successful batch on the rows stored before
    it, where a retraction must name the row its key holds and any other change must
    find its key empty, succeeds and ends with the rows stored after it. *)
Theorem deduplicate_changelog_replays {St B} `{KeyedStateLaws St B} `{!ReleaseTotal B} `{SchemaLaws} `{!ArrowLaws} `{!TimestampLaws} `{!RowConverters} `{!ConverterLaws} `{WindowLaws}
    (key_capacity : bytes -> Z) (o : Z) (p : DeduplicateProcessor (St := St)) (b : B) (batch : Batch) sel p' b' :
  dedup_inv o p b -> emits_retractions (plan p) = true ->
  (forall facts r, analyse_schema (plan p) (batch_schema batch) (num_columns batch) = Ok facts -> keys_ok key_capacity (install_schema (batch_schema batch) facts r p) batch) ->
  select key_capacity batch (p, b) = (Ok sel, (p', b')) ->
  exists keys content events t', state_keys key_capacity p' batch = Ok keys /\ row_content p' batch = Ok content /\ shows sel events /\
    replay content (map key_ref keys) events (table (plan p) (held (state p))) = Some t' /\ forall key, t' key = table (plan p) (held (state p')) key.
Proof.
  intros Hi Hem Hkeys Hs. destruct (select_done key_capacity o p b batch Hi (keeps_retractions _ Hem) Hkeys) as [(e & b1 & E & _)|(facts & r & b1 & _ & _ & _ & Hd)]; [congruence|].
  rewrite Hs in Hd. destruct Hd as (events & f' & memory & Hr & Hsh & Hh & _ & Ep & _). set (p1 := install_schema (batch_schema batch) facts r p) in *.
  destruct (row_by_row_replays key_capacity p1 batch _ _ _ Hem Hr) as (keys & content & t' & Hk & Hc & Hrep & Ht).
  exists keys, content, events, t'. rewrite Ep. split; [done|]. split; [done|]. split; [done|]. split; [done|]. intros key. rewrite Ht. unfold table.
  change (held (state (set_state (state p') p1)) key) with (held (state p') key). by rewrite (Hh key).
Qed.
