(* ===== verification/RegularJoin.v ===== *)
(** * The streaming join transition: [operators/regular_join]

    [change_cursor.rs], the resumable transition of one input change;
    [transitions.rs], the transition as one pass; the match masks of
    [candidates.rs] and the state of [regular_join.rs]. *)

From Stdlib Require Import ZArith Lia Strings.Byte.
From stdpp Require Import base list option numbers strings.
From S2P Require Import Prelude Bytes.

(** ** State *)

Definition INSERT : Z := 0.
Definition UPDATE_BEFORE : Z := 1.
Definition UPDATE_AFTER : Z := 2.
Definition DELETE : Z := 3.

(** Planning refuses the unspecified variant. *)
Inductive RegularJoinType : Type := Inner | LeftJoin | RightJoin | Full | Semi | Anti.
#[global] Instance join_type_eq : EqDecision RegularJoinType.
Proof. solve_decision. Defined.

Record StoredRow : Type := { sr_id : Z; sr_row : bytes; associations : Z }.

(** [next_row_id] is an array of two. *)
Record JoinState : Type := {
  next_row_id : list Z;
  left_rows : list StoredRow;
  right_rows : list StoredRow;
  left_matchable : option bool;
  right_matchable : option bool;
}.

Record OutputRow : Type := {
  o_left : option bytes;
  o_right : option bytes;
  o_kind : Z;
  input_ordinal : Z;
}.

(** The rows of the input side and of the opposite side. *)
Definition own_rows (side : Z) (s : JoinState) : list StoredRow :=
  if side =? 0 then left_rows s else right_rows s.
Definition other_rows (side : Z) (s : JoinState) : list StoredRow :=
  if side =? 0 then right_rows s else left_rows s.
Definition set_left (rows : list StoredRow) (s : JoinState) : JoinState :=
  {| next_row_id := next_row_id s; left_rows := rows; right_rows := right_rows s;
     left_matchable := left_matchable s; right_matchable := right_matchable s |}.
Definition set_right (rows : list StoredRow) (s : JoinState) : JoinState :=
  {| next_row_id := next_row_id s; left_rows := left_rows s; right_rows := rows;
     left_matchable := left_matchable s; right_matchable := right_matchable s |}.
Definition set_own (side : Z) (rows : list StoredRow) (s : JoinState) : JoinState :=
  if side =? 0 then set_left rows s else set_right rows s.
Definition set_other (side : Z) (rows : list StoredRow) (s : JoinState) : JoinState :=
  if side =? 0 then set_right rows s else set_left rows s.
Definition set_next_id (side n : Z) (s : JoinState) : JoinState :=
  {| next_row_id := <[Z.to_nat side := n]> (next_row_id s); left_rows := left_rows s;
     right_rows := right_rows s; left_matchable := left_matchable s; right_matchable := right_matchable s |}.

Definition set_associations (n : Z) (r : StoredRow) : StoredRow :=
  {| sr_id := sr_id r; sr_row := sr_row r; associations := n |}.

(** [own.iter().position(|row| row.row == input)] and [own.remove(position)]. *)
Fixpoint remove_row (input : bytes) (rows : list StoredRow) : list StoredRow :=
  match rows with
  | [] => []
  | r :: rows => if bool_decide (sr_row r = input) then rows else r :: remove_row input rows
  end.

Definition is_outer (join_type : RegularJoinType) (side : Z) : bool :=
  bool_decide (join_type = Full)
  || ((side =? 0) && bool_decide (join_type = LeftJoin))
  || ((side =? 1) && bool_decide (join_type = RightJoin)).
Definition is_semi (join_type : RegularJoinType) : bool :=
  bool_decide (join_type = Semi) || bool_decide (join_type = Anti).
Definition is_anti (join_type : RegularJoinType) : bool := bool_decide (join_type = Anti).

(** ** [CandidateMatches] *)

Record CandidateMatches : Type := {
  cm_len : Z;
  cm_constant : bool;
  cm_values : option (list bool);
  cm_shared : option (list bool * Z);
  cm_count : Z;
}.

Definition count_true (l : list bool) : Z := len (filter (fun v => v = true) l).

Definition cm_constant_of (n : Z) (value : bool) : CandidateMatches :=
  {| cm_len := n; cm_constant := value; cm_values := None; cm_shared := None;
     cm_count := if value then n else 0 |}.
Definition cm_from_values (values : list bool) : CandidateMatches :=
  {| cm_len := len values; cm_constant := false; cm_values := Some values; cm_shared := None;
     cm_count := count_true values |}.
(** The slice [values[offset..offset + len]] panics outside the mask. *)
Definition cm_shared_of (n offset : Z) (mask : list bool) : outcome CandidateMatches :=
  if (0 <=? offset) && (0 <=? n) && (offset + n <=? len mask) then
    Ok {| cm_len := n; cm_constant := false; cm_values := None; cm_shared := Some (mask, offset);
          cm_count := count_true (take (Z.to_nat n) (drop (Z.to_nat offset) mask)) |}
  else Panic.

(** Indexing panics outside the mask. *)
Definition index_at (l : list bool) (i : Z) : outcome bool :=
  match l !! Z.to_nat i with Some v => Ok v | None => Panic end.
Definition cm_get (m : CandidateMatches) (i : Z) : outcome bool :=
  match cm_shared m with
  | Some (mask, offset) => index_at mask (offset + i)
  | None => match cm_values m with Some values => index_at values i | None => Ok (cm_constant m) end
  end.

(** ** [ChangeCursor] *)

Record ChangeCursor : Type := {
  c_join_type : RegularJoinType;
  c_side : Z;
  c_kind : Z;
  c_accumulate : bool;
  c_input : bytes;
  c_ordinal : Z;
  c_candidate : Z;
  c_initialized : bool;
  c_finished : bool;
}.

Definition cursor_new (join_type : RegularJoinType) (side kind : Z) (accumulate : bool) (input : bytes) (ordinal : Z)
  : ChangeCursor :=
  {| c_join_type := join_type; c_side := side; c_kind := kind; c_accumulate := accumulate; c_input := input;
     c_ordinal := ordinal; c_candidate := 0; c_initialized := false; c_finished := false |}.
Definition set_progress (candidate : Z) (initialized finished : bool) (c : ChangeCursor) : ChangeCursor :=
  {| c_join_type := c_join_type c; c_side := c_side c; c_kind := c_kind c; c_accumulate := c_accumulate c;
     c_input := c_input c; c_ordinal := c_ordinal c; c_candidate := candidate; c_initialized := initialized;
     c_finished := finished |}.
Definition retracted_history (c : ChangeCursor) : ChangeCursor :=
  set_progress (c_candidate c) true (c_finished c) c.
Definition set_candidate (n : Z) (c : ChangeCursor) : ChangeCursor :=
  set_progress n (c_initialized c) (c_finished c) c.

(** [ChangeCursor::push]: a row of the given side. *)
Definition output_row (side : Z) (own other : option bytes) (kind ordinal : Z) : OutputRow :=
  if side =? 0
  then {| o_left := own; o_right := other; o_kind := kind; input_ordinal := ordinal |}
  else {| o_left := other; o_right := own; o_kind := kind; input_ordinal := ordinal |}.

(** The part of [drain_page] that visits one matching candidate: its new
    association count and the rows it emits. *)
Definition visit_candidate (c : ChangeCursor) (row : StoredRow) : StoredRow * list OutputRow :=
  let out side own other kind := output_row side own other kind (c_ordinal c) in
  let own_outer := is_outer (c_join_type c) (c_side c) in
  let other_outer := is_outer (c_join_type c) (1 - c_side c) in
  let added := set_associations (wraps 32 (associations row + 1)) row in
  let removed := set_associations (wraps 32 (associations row - 1)) row in
  if is_semi (c_join_type c) then
    (if c_accumulate c then added else removed,
     if associations row =? (if c_accumulate c then 0 else 1)
     then [out 0 (Some (sr_row row)) None
             (if is_anti (c_join_type c) then if c_accumulate c then DELETE else INSERT else c_kind c)]
     else [])
  else if c_accumulate c then
    (if other_outer then added else row,
     (if other_outer && (associations row =? 0)
      then [out (1 - c_side c) (Some (sr_row row)) None DELETE] else []) ++
     [out (c_side c) (Some (c_input c)) (Some (sr_row row))
        (if own_outer || other_outer then INSERT else c_kind c)])
  else
    (if other_outer then removed else row,
     [out (c_side c) (Some (c_input c)) (Some (sr_row row)) (if own_outer then DELETE else c_kind c)] ++
     (if other_outer && (associations row =? 1)
      then [out (1 - c_side c) (Some (sr_row row)) None INSERT] else [])).

Definition Drain : Type -> Type := M (ChangeCursor * JoinState * list OutputRow).

(** The [while] loop over the candidates; [false] is the early return for a full
    output. One step of fuel per candidate and one for the exit. *)
Fixpoint drain_candidates (fuel : nat) (m : CandidateMatches) (limit : Z) : Drain bool := fun '(c, s, out) =>
  match fuel with
  | O => (Panic, (c, s, out))
  | S fuel =>
      if c_candidate c <? len (other_rows (c_side c) s) then
        match cm_get m (c_candidate c) with
        | Err e => (Err e, (c, s, out))
        | Panic => (Panic, (c, s, out))
        | Ok false => drain_candidates fuel m limit (set_candidate (c_candidate c + 1) c, s, out)
        | Ok true =>
            if limit <? sat_add (len out) 2 then (Ok false, (c, s, out))
            else match other_rows (c_side c) s !! Z.to_nat (c_candidate c) with
                 | None => (Panic, (c, s, out))
                 | Some row =>
                     let '(row', rows) := visit_candidate c row in
                     drain_candidates fuel m limit
                       (set_candidate (c_candidate c + 1) c,
                        set_other (c_side c)
                          (<[Z.to_nat (c_candidate c) := row']> (other_rows (c_side c) s)) s,
                        out ++ rows)
                 end
        end
      else (Ok true, (c, s, out))
  end.

(** Removing the retracted row, once. *)
Definition initialize (c : ChangeCursor) (s : JoinState) : ChangeCursor * JoinState :=
  if c_initialized c then (c, s)
  else (set_progress (c_candidate c) true (c_finished c) c,
        if c_accumulate c then s else set_own (c_side c) (remove_row (c_input c) (own_rows (c_side c) s)) s).

(** Whether the input row itself is emitted, with its kind. *)
Definition emit_own (c : ChangeCursor) (count : Z) : bool :=
  if is_semi (c_join_type c) && (c_side c =? 0) then Bool.eqb (count =? 0) (is_anti (c_join_type c))
  else negb (is_semi (c_join_type c)) && is_outer (c_join_type c) (c_side c) && (count =? 0).
Definition own_kind (c : ChangeCursor) : Z :=
  if is_semi (c_join_type c) then c_kind c else if c_accumulate c then INSERT else DELETE.
Definition own_associations (c : ChangeCursor) (count : Z) : Z :=
  if is_outer (c_join_type c) (c_side c) || (is_semi (c_join_type c) && (c_side c =? 0))
  then wraps 32 count else 0.

(** The end of the transition: the row of the input and its insertion. *)
Definition complete (m : CandidateMatches) (limit : Z) : Drain bool := fun '(c, s, out) =>
  let count := cm_count m in
  if emit_own c count && (limit <=? len out) then (Ok false, (c, s, out))
  else
    let out := if emit_own c count
               then out ++ [output_row (c_side c) (Some (c_input c)) None (own_kind c) (c_ordinal c)] else out in
    let finish s := (Ok true, (set_progress (c_candidate c) (c_initialized c) true c, s, out)) in
    if c_accumulate c then
      match next_row_id s !! Z.to_nat (c_side c) with
      | None => (Panic, (c, s, out))
      | Some id =>
          if id =? U64_MAX then (Err (Execution "regular join row identity exhausted"), (c, s, out))
          else
            finish (set_own (c_side c)
                      (own_rows (c_side c) s ++
                       [{| sr_id := id; sr_row := c_input c; associations := own_associations c count |}])
                      (set_next_id (c_side c) (id + 1) s))
      end
    else finish s.

Definition drain_page (m : CandidateMatches) (limit : Z) (final_page : bool) : Drain bool := fun '(c, s, out) =>
  if negb final_page && negb (bool_decide (c_join_type c = Inner))
  then (Err (Internal "paged history requires an inner join"), (c, s, out))
  else if limit <? 2 then (Err (Internal "regular join output limit must be at least two"), (c, s, out))
  else if c_finished c then (Ok true, (c, s, out))
  else match next_row_id s !! Z.to_nat (c_side c) with
  | None => (Panic, (c, s, out))
  | Some _ =>
      if negb (cm_len m =? len (other_rows (c_side c) s))
      then (Err (Internal "regular join candidates changed during a transition"), (c, s, out))
      else
        let '(c, s) := initialize c s in
        let '(o, (c, s, out)) :=
          if is_semi (c_join_type c) && (c_side c =? 0) then (Ok true, (c, s, out))
          else drain_candidates (S (length (other_rows (c_side c) s))) m limit (c, s, out) in
        match o with
        | Ok true =>
            if final_page then complete m limit (c, s, out)
            else (Ok true, (set_candidate 0 c, s, out))
        | o => (o, (c, s, out))
        end
  end.
Definition drain (m : CandidateMatches) (limit : Z) : Drain bool := drain_page m limit true.

(** [process_change]: the whole transition in one unbounded call. *)
Definition process_change (join_type : RegularJoinType) (side kind : Z) (accumulate : bool) (m : CandidateMatches)
    (input : bytes) (ordinal : Z) : M (JoinState * list OutputRow) unit := fun '(s, out) =>
  let '(o, (_, s, out)) := drain m USIZE_MAX (cursor_new join_type side kind accumulate input ordinal, s, out) in
  match o with
  | Ok true => (Ok tt, (s, out))
  | Ok false => (Err (Internal "unbounded join transition did not finish"), (s, out))
  | Err e => (Err e, (s, out))
  | Panic => (Panic, (s, out))
  end.

(** ** The transition as one pass *)

(** [for (candidate, _) in other.iter_mut().zip(matches).filter(matched)]. *)
Fixpoint for_matched (f : StoredRow -> StoredRow * list OutputRow) (rows : list StoredRow) (mask : list bool)
  : list StoredRow * list OutputRow :=
  match rows, mask with
  | r :: rows, b :: mask =>
      let '(r', o) := if b then f r else (r, []) in
      let '(rows', os) := for_matched f rows mask in (r' :: rows', o ++ os)
  | rows, _ => (rows, [])
  end.

(** [candidate_matches.iter()]: the mask. *)
Definition cm_iter (m : CandidateMatches) : outcome (list bool) :=
  collect (fun i => cm_get m (Z.of_nat i)) (seq 0 (Z.to_nat (cm_len m))).

Definition push_pair (side : Z) (input other : option bytes) (kind ordinal : Z) : OutputRow :=
  if side =? 0
  then {| o_left := input; o_right := other; o_kind := kind; input_ordinal := ordinal |}
  else {| o_left := other; o_right := input; o_kind := kind; input_ordinal := ordinal |}.

Definition process_semi_anti (inserted_id : Z) (join_type : RegularJoinType) (side kind : Z) (accumulate : bool)
    (mask : list bool) (input : bytes) (ordinal : Z) (s : JoinState) : JoinState * list OutputRow :=
  let anti := bool_decide (join_type = Anti) in
  let left_row row kind := {| o_left := Some row; o_right := None; o_kind := kind; input_ordinal := ordinal |} in
  if side =? 0 then
    let matches := count_true mask in
    (set_left (if accumulate
               then left_rows s ++ [{| sr_id := inserted_id; sr_row := input; associations := wraps 32 matches |}]
               else remove_row input (left_rows s)) s,
     if (anti && (matches =? 0)) || (negb anti && (0 <? matches)) then [left_row input kind] else [])
  else if accumulate then
    let s := set_right (right_rows s ++ [{| sr_id := inserted_id; sr_row := input; associations := 0 |}]) s in
    let '(rows, out) := for_matched (fun r =>
        (set_associations (wraps 32 (associations r + 1)) r,
         if associations r =? 0 then [left_row (sr_row r) (if anti then DELETE else kind)] else []))
      (left_rows s) mask in
    (set_left rows s, out)
  else
    let s := set_right (remove_row input (right_rows s)) s in
    let '(rows, out) := for_matched (fun r =>
        (set_associations (wraps 32 (associations r - 1)) r,
         if associations r =? 1 then [left_row (sr_row r) (if anti then INSERT else kind)] else []))
      (left_rows s) mask in
    (set_left rows s, out).

Definition process_outer (inserted_id : Z) (join_type : RegularJoinType) (side kind : Z) (accumulate : bool)
    (mask : list bool) (input : bytes) (ordinal : Z) (s : JoinState) : JoinState * list OutputRow :=
  let input_outer := is_outer join_type side in
  let other_outer := is_outer join_type (1 - side) in
  let matches := count_true mask in
  if accumulate then
    let '(others, out) :=
      if matches =? 0 then
        (other_rows side s, if input_outer then [push_pair side (Some input) None INSERT ordinal] else [])
      else for_matched (fun r =>
          (if other_outer then set_associations (wraps 32 (associations r + 1)) r else r,
           (if other_outer && (associations r =? 0)
            then [push_pair (1 - side) (Some (sr_row r)) None DELETE ordinal] else []) ++
           [push_pair side (Some input) (Some (sr_row r))
              (if input_outer || other_outer then INSERT else kind) ordinal]))
        (other_rows side s) mask in
    (set_own side
       (own_rows side s ++
        [{| sr_id := inserted_id; sr_row := input; associations := if input_outer then wraps 32 matches else 0 |}])
       (set_other side others s), out)
  else
    let s := set_own side (remove_row input (own_rows side s)) s in
    if matches =? 0 then
      (s, if input_outer then [push_pair side (Some input) None DELETE ordinal] else [])
    else
      let '(others, out) := for_matched (fun r =>
          (if other_outer then set_associations (wraps 32 (associations r - 1)) r else r,
           [push_pair side (Some input) (Some (sr_row r)) (if input_outer then DELETE else kind) ordinal] ++
           (if other_outer && (associations r =? 1)
            then [push_pair (1 - side) (Some (sr_row r)) None INSERT ordinal] else [])))
        (other_rows side s) mask in
      (set_other side others s, out).

Definition reference_process_change (join_type : RegularJoinType) (side kind : Z) (accumulate : bool)
    (m : CandidateMatches) (input : bytes) (ordinal : Z) (s : JoinState) : outcome (JoinState * list OutputRow) :=
  match next_row_id s !! Z.to_nat side with
  | None => Panic
  | Some inserted_id =>
      let s := if accumulate then set_next_id side (wrapu 64 (inserted_id + 1)) s else s in
      mask ← cm_iter m;
      Ok ((if is_semi join_type then process_semi_anti else process_outer)
            inserted_id join_type side kind accumulate mask input ordinal s)
  end.
