(* ===== verification/JoinCursor.v ===== *)
(** * Bounded pulls compute the one-pass join transition

    A change may be drained in any number of pulls with any output limits from
    two rows on: the concatenated output and the final state are those of the
    one-pass transition, every pull that does not finish emits something, and
    no pull exceeds its limit. *)

From Stdlib Require Import ZArith Lia Strings.Byte.
From stdpp Require Import base list option numbers strings.
From S2P Require Import Prelude Bytes RegularJoin.

(** ** Masks *)

(** What a [CandidateMatches] stands for. *)
Definition masks (m : CandidateMatches) (mask : list bool) : Prop :=
  cm_len m = len mask /\ cm_count m = count_true mask /\
  forall i v, mask !! i = Some v -> cm_get m (Z.of_nat i) = Ok v.

Lemma count_true_cons b l : count_true (b :: l) = (if b then 1 else 0) + count_true l.
Proof. unfold count_true, len. rewrite filter_cons. destruct b; simpl; lia. Qed.
Lemma count_true_nonneg l : 0 <= count_true l.
Proof. apply len_nonneg. Qed.
Lemma count_true_le l : count_true l <= len l.
Proof. unfold count_true, len. pose proof (length_filter (fun v => v = true) l). lia. Qed.

Lemma constant_masks (n : nat) v : masks (cm_constant_of (Z.of_nat n) v) (replicate n v).
Proof.
  split; [|split].
  - unfold len. rewrite length_replicate. done.
  - simpl. destruct v; induction n as [|n IH]; try done; simpl replicate; rewrite count_true_cons, <- IH; lia.
  - intros i w [-> _]%lookup_replicate. done.
Qed.
Lemma from_values_masks values : masks (cm_from_values values) values.
Proof.
  split; [done|]. split; [done|]. intros i v Hi. unfold cm_get. cbn. unfold index_at. by rewrite Nat2Z.id, Hi.
Qed.
Lemma shared_masks (n offset : nat) mask m :
  cm_shared_of (Z.of_nat n) (Z.of_nat offset) mask = Ok m -> masks m (take n (drop offset mask)).
Proof.
  unfold cm_shared_of. destruct (_ && _) eqn:E; [|done]. intros [= <-].
  apply andb_prop in E as [_ E]. apply Z.leb_le in E. unfold len in E.
  split; [|split]; cbn.
  - unfold len. rewrite length_take, length_drop. lia.
  - by rewrite !Nat2Z.id.
  - intros i v Hi. unfold cm_get. cbn. unfold index_at. rewrite <- Nat2Z.inj_add, Nat2Z.id.
    apply lookup_take_Some in Hi as [Hi _]. rewrite lookup_drop in Hi. by rewrite Hi.
Qed.

Lemma masks_iter m mask : masks m mask -> cm_iter m = Ok mask.
Proof.
  intros (Hl & _ & Hg). unfold cm_iter. rewrite Hl. unfold len. rewrite Nat2Z.id.
  apply collect_Ok. apply Forall2_same_length_lookup. rewrite length_seq. split; [done|].
  intros i x v [-> _]%lookup_seq Hv. by apply Hg.
Qed.

(** ** Sides *)

Section sides.
Context (side : Z).
Lemma other_set_other rows s : other_rows side (set_other side rows s) = rows.
Proof. unfold other_rows, set_other. by destruct (side =? 0). Qed.
Lemma own_set_own rows s : own_rows side (set_own side rows s) = rows.
Proof. unfold own_rows, set_own. by destruct (side =? 0). Qed.
Lemma own_set_other rows s : own_rows side (set_other side rows s) = own_rows side s.
Proof. unfold own_rows, set_other. by destruct (side =? 0). Qed.
Lemma other_set_own rows s : other_rows side (set_own side rows s) = other_rows side s.
Proof. unfold other_rows, set_own. by destruct (side =? 0). Qed.
Lemma set_other_set_other a b s : set_other side a (set_other side b s) = set_other side a s.
Proof. unfold set_other. by destruct (side =? 0). Qed.
Lemma set_other_same s : set_other side (other_rows side s) s = s.
Proof. unfold set_other, other_rows. destruct s. by destruct (side =? 0). Qed.
Lemma next_set_other rows s : next_row_id (set_other side rows s) = next_row_id s.
Proof. unfold set_other. by destruct (side =? 0). Qed.
Lemma next_set_own rows s : next_row_id (set_own side rows s) = next_row_id s.
Proof. unfold set_own. by destruct (side =? 0). Qed.
Lemma set_own_other a b s : set_own side a (set_other side b s) = set_other side b (set_own side a s).
Proof. unfold set_own, set_other. by destruct (side =? 0). Qed.
End sides.
Lemma set_candidate_same c : set_candidate (c_candidate c) c = c.
Proof. by destruct c. Qed.

(** ** The loop over the candidates *)

Section loop.
Context (f : StoredRow -> StoredRow * list OutputRow) (mask : list bool).

(** What is left from candidate [k] on, without a limit. *)
Definition left_from (k : nat) (others : list StoredRow) : list StoredRow * list OutputRow :=
  let '(r, o) := for_matched f (drop k others) (drop k mask) in (take k others ++ r, o).

Lemma left_from_skip k others r :
  others !! k = Some r -> mask !! k = Some false -> left_from k others = left_from (S k) others.
Proof.
  intros Hr Hm. unfold left_from. rewrite (drop_S others r k Hr), (drop_S mask false k Hm). cbn [for_matched].
  destruct (for_matched f (drop (S k) others) (drop (S k) mask)) as [rs os].
  by rewrite (take_S_r _ _ _ Hr), <- app_assoc.
Qed.
Lemma left_from_visit k others r :
  others !! k = Some r -> mask !! k = Some true ->
  left_from k others =
    let '(rs, os) := left_from (S k) (<[k := (f r).1]> others) in (rs, (f r).2 ++ os).
Proof.
  intros Hr Hm. unfold left_from. rewrite (drop_S others r k Hr), (drop_S mask true k Hm). cbn [for_matched].
  destruct (f r) as [r' o] eqn:Ef. cbn [fst snd]. rewrite drop_insert_lt by lia.
  destruct (for_matched f (drop (S k) others) (drop (S k) mask)) as [rs os]. f_equal.
  pose proof (lookup_lt_Some _ _ _ Hr).
  rewrite (take_S_r _ k r') by (apply list_lookup_insert_eq; lia).
  by rewrite take_insert_ge, <- app_assoc by lia.
Qed.
Lemma left_from_end others : left_from (length others) others = (others, []).
Proof. unfold left_from. rewrite drop_all, take_ge by done. simpl. by rewrite app_nil_r. Qed.
Lemma left_from_0 others : left_from 0 others = for_matched f others mask.
Proof. unfold left_from. rewrite !drop_0. by destruct (for_matched f others mask). Qed.
End loop.

Lemma visit_two c r : len (visit_candidate c r).2 <= 2.
Proof.
  unfold visit_candidate. destruct (is_semi _), (c_accumulate c); cbn [snd]; repeat case_match; unfold len; simpl; lia.
Qed.

Lemma drain_candidates_spec m mask limit fuel c s out k :
  masks m mask -> c_candidate c = Z.of_nat k -> length mask = length (other_rows (c_side c) s) ->
  (k <= length mask)%nat -> (length mask - k < fuel)%nat ->
  exists b k' others chunk,
    drain_candidates fuel m limit (c, s, out) =
      (Ok b, (set_candidate (Z.of_nat k') c, set_other (c_side c) others s, out ++ chunk)) /\
    length others = length mask /\ (k' <= length mask)%nat /\
    (left_from (visit_candidate c) mask k (other_rows (c_side c) s)).1 = (left_from (visit_candidate c) mask k' others).1 /\
    (left_from (visit_candidate c) mask k (other_rows (c_side c) s)).2 =
      chunk ++ (left_from (visit_candidate c) mask k' others).2 /\
    (if b then k' = length mask else limit < sat_add (len (out ++ chunk)) 2) /\
    (limit < USIZE_MAX -> len (out ++ chunk) <= Z.max (len out) limit).
Proof.
  intros (Hml & Hcount & Hget). revert c s out k. induction fuel as [|fuel IH]; intros c s out k Hk Hl Hle Hf; [lia|].
  cbn [drain_candidates]. rewrite Hk. destruct (Z.ltb_spec (Z.of_nat k) (len (other_rows (c_side c) s))) as [Hlt|Hge].
  2: { assert (k = length mask) as -> by (unfold len in *; lia).
       exists true, (length mask), (other_rows (c_side c) s), [].
       rewrite set_other_same, <- Hk, set_candidate_same, !app_nil_r. split_and!; try done; lia. }
  assert (k < length mask)%nat as Hk' by (unfold len in *; lia).
  destruct (lookup_lt_is_Some_2 mask k Hk') as [v Hv]. rewrite (Hget _ _ Hv).
  destruct (lookup_lt_is_Some_2 (other_rows (c_side c) s) k ltac:(lia)) as [r Hr].
  destruct v.
  - destruct (Z.ltb_spec limit (sat_add (len out) 2)) as [Hfull|Hroom].
    { exists false, k, (other_rows (c_side c) s), [].
      rewrite set_other_same, <- Hk, set_candidate_same, !app_nil_r. split_and!; try done; lia. }
    rewrite Nat2Z.id, Hr. rewrite (left_from_visit _ _ _ _ _ Hr Hv).
    destruct (visit_candidate c r) as [r' rows] eqn:Ev. cbn [fst snd].
    set (others1 := <[k := r']> (other_rows (c_side c) s)).
    destruct (IH (set_candidate (Z.of_nat k + 1) c) (set_other (c_side c) others1 s) (out ++ rows) (S k))
      as (b & k' & others & chunk & Hrun & Hlen & Hk2 & H1 & H2 & H3 & H4).
    { simpl. lia. }
    { cbn [set_candidate set_progress c_side]. rewrite other_set_other. unfold others1. by rewrite length_insert. }
    { lia. }
    { lia. }
    cbn [set_candidate set_progress c_side] in Hrun, H1, H2. rewrite other_set_other in H1, H2. rewrite set_other_set_other in Hrun.
    exists b, k', others, (rows ++ chunk). rewrite !app_assoc. split_and!; try done.
    + change (visit_candidate _) with (visit_candidate c) in H1. rewrite <- H1. by destruct (left_from _ _ (S k) _).
    + change (visit_candidate _) with (visit_candidate c) in H2. rewrite <- app_assoc, <- H2.
      by destruct (left_from _ _ (S k) _).
    + intros Hu. specialize (H4 Hu). pose proof (visit_two c r) as H2r. rewrite Ev in H2r. cbn [snd] in H2r.
      unfold len in *. rewrite !length_app in *. unfold sat_add, USIZE_MAX in *. lia.
  - destruct (IH (set_candidate (Z.of_nat k + 1) c) s out (S k))
      as (b & k' & others & chunk & Hrun & Hlen & Hk2 & H1 & H2 & H3 & H4).
    { simpl. lia. }
    { done. }
    { lia. }
    { lia. }
    rewrite (left_from_skip _ _ _ _ _ Hr Hv). exists b, k', others, chunk. by split_and!.
Qed.

(** ** One pull *)

(** What a cursor still has to do, without limits: the final state and the rows. *)
Definition own_row (c : ChangeCursor) (count : Z) : list OutputRow :=
  if emit_own c count then [output_row (c_side c) (Some (c_input c)) None (own_kind c) (c_ordinal c)] else [].
Definition insert_own (c : ChangeCursor) (count : Z) (s : JoinState) : JoinState :=
  if c_accumulate c then
    match next_row_id s !! Z.to_nat (c_side c) with
    | Some id =>
        set_own (c_side c)
          (own_rows (c_side c) s ++ [{| sr_id := id; sr_row := c_input c; associations := own_associations c count |}])
          (set_next_id (c_side c) (id + 1) s)
    | None => s
    end
  else s.
Definition visits (c : ChangeCursor) : bool := negb (is_semi (c_join_type c) && (c_side c =? 0)).
Definition remaining (mask : list bool) (c : ChangeCursor) (s : JoinState) : JoinState * list OutputRow :=
  let '(c, s) := initialize c s in
  let '(others, outs) :=
    if visits c then left_from (visit_candidate c) mask (Z.to_nat (c_candidate c)) (other_rows (c_side c) s)
    else (other_rows (c_side c) s, []) in
  (insert_own c (count_true mask) (set_other (c_side c) others s), outs ++ own_row c (count_true mask)).

(** A cursor in the middle of its change. *)
Record draining (mask : list bool) (c : ChangeCursor) (s : JoinState) : Prop := {
  dr_side : c_side c = 0 \/ c_side c = 1;
  dr_ids : exists id, next_row_id s !! Z.to_nat (c_side c) = Some id /\ id <> U64_MAX;
  dr_mask : length mask = length (other_rows (c_side c) s);
  dr_candidate : 0 <= c_candidate c <= len mask;
  dr_open : c_finished c = false;
}.

Lemma remove_row_length input rows : (length (remove_row input rows) <= length rows)%nat.
Proof. induction rows as [|r rows IH]; simpl; [done|]. case_bool_decide; simpl; lia. Qed.

Lemma initialize_draining mask c s :
  draining mask c s ->
  let '(c1, s1) := initialize c s in
  draining mask c1 s1 /\ c_initialized c1 = true /\ c_candidate c1 = c_candidate c /\ c_side c1 = c_side c /\
  remaining mask c1 s1 = remaining mask c s.
Proof.
  intros [Hs Hi Hm Hc Ho]. unfold initialize. destruct (c_initialized c) eqn:E; [by split_and!|].
  split; [split|].
  - done.
  - cbn [set_progress c_side]. destruct (c_accumulate c); [done|]. by rewrite next_set_own.
  - cbn [set_progress c_side]. destruct (c_accumulate c); [done|]. by rewrite other_set_own.
  - done.
  - done.
  - split_and!; try done. unfold remaining, initialize. rewrite E. done.
Qed.

Lemma left_from_length f mask k others : length (left_from f mask k others).1 = length others.
Proof.
  unfold left_from. assert (forall rows mask, length (for_matched f rows mask).1 = length rows) as Hf.
  { clear. induction rows as [|r rows IH]; intros [|b mask]; cbn [for_matched]; try done.
    specialize (IH mask). destruct (if b then f r else (r, [])), (for_matched f rows mask). simpl in *. lia. }
  specialize (Hf (drop k others) (drop k mask)). destruct (for_matched _ _ _) as [r o]. simpl in *.
  rewrite length_app, Hf, <- length_app, take_drop. done.
Qed.

(** The last part of a pull. *)
Lemma complete_spec m mask limit c s out :
  masks m mask -> draining mask c s -> c_initialized c = true -> 2 <= limit ->
  (visits c = true -> c_candidate c = len mask) ->
  exists b c' s' chunk, complete m limit (c, s, out) = (Ok b, (c', s', out ++ chunk)) /\
    (if b then c_finished c' = true /\ remaining mask c s = (s', chunk)
     else c' = c /\ s' = s /\ chunk = [] /\ limit <= len out) /\
    len (out ++ chunk) <= Z.max (len out) limit.
Proof.
  intros (Hml & Hcount & _) [Hs (id & Hid & Hmax) Hm Hc Ho] Hinit Hlim Hvis.
  assert (remaining mask c s = (insert_own c (count_true mask) s, own_row c (count_true mask))) as Hrem.
  { unfold remaining, initialize. rewrite Hinit. destruct (visits c) eqn:Ev.
    - rewrite Hvis by done. unfold len. rewrite Nat2Z.id, Hm, left_from_end, set_other_same. done.
    - by rewrite set_other_same. }
  unfold complete. rewrite Hcount. unfold own_row in Hrem.
  destruct (emit_own c (count_true mask)); cbn [andb].
  - destruct (Z.leb_spec limit (len out)).
    { exists false, c, s, []. rewrite app_nil_r. split_and!; try done; lia. }
    exists true. rewrite Hid. destruct (Z.eqb_spec id U64_MAX); [done|].
    unfold insert_own in Hrem. rewrite Hid in Hrem. rewrite Hrem.
    destruct (c_accumulate c); eexists _, _, _; (split; [done|]); (split; [done|]); unfold len; rewrite length_app; simpl; unfold len in *; lia.
  - exists true. rewrite Hid. destruct (Z.eqb_spec id U64_MAX); [done|].
    unfold insert_own in Hrem. rewrite Hid in Hrem. rewrite Hrem.
    destruct (c_accumulate c); eexists _, _, []; rewrite app_nil_r; (split; [done|]); (split; [done|]); lia.
Qed.

(** One pull: it either finishes the change or leaves a cursor that still has
    to do the rest, after at least one row. *)
Lemma drain_spec m mask limit c s out :
  masks m mask -> draining mask c s -> 2 <= limit < USIZE_MAX ->
  exists b c' s' chunk, drain m limit (c, s, out) = (Ok b, (c', s', out ++ chunk)) /\
    (if b then c_finished c' = true /\ remaining mask c s = (s', chunk)
     else draining mask c' s' /\ (out = [] -> chunk <> []) /\
       (remaining mask c s).1 = (remaining mask c' s').1 /\
       (remaining mask c s).2 = chunk ++ (remaining mask c' s').2) /\
    len (out ++ chunk) <= Z.max (len out) limit.
Proof.
  intros Hmask Hd Hlim. pose proof Hmask as (Hml & Hcount & _). unfold drain, drain_page. cbn [negb andb].
  destruct (Z.ltb_spec limit 2); [lia|]. rewrite (dr_open _ _ _ Hd).
  destruct (dr_ids _ _ _ Hd) as (id & Hid & Hmax). rewrite Hid.
  assert ((cm_len m =? len (other_rows (c_side c) s)) = true) as ->.
  { apply Z.eqb_eq. rewrite Hml. unfold len. by rewrite (dr_mask _ _ _ Hd). }
  cbn [negb]. pose proof (initialize_draining mask c s Hd) as Hi.
  destruct (initialize c s) as [c1 s1]. destruct Hi as (Hd1 & Hinit & Hcand & Hside & <-).
  assert (negb (visits c1) = is_semi (c_join_type c1) && (c_side c1 =? 0)) as <- by (unfold visits; by rewrite negb_involutive).
  destruct (visits c1) eqn:Ev; cbn [negb].
  - destruct (drain_candidates_spec m mask limit (S (length (other_rows (c_side c1) s1))) c1 s1 out (Z.to_nat (c_candidate c1)))
      as (b & k' & others & chunk & -> & Hlen & Hk' & H1 & H2 & H3 & H4); try done.
    { pose proof (dr_candidate _ _ _ Hd1). lia. }
    { apply Hd1. }
    { pose proof (dr_candidate _ _ _ Hd1). unfold len in *. lia. }
    { rewrite (dr_mask _ _ _ Hd1). lia. }
    specialize (H4 ltac:(lia)).
    assert (draining mask (set_candidate (Z.of_nat k') c1) (set_other (c_side c1) others s1)) as Hd2.
    { destruct Hd1 as [D1 (id1 & D2 & D2') D3 D4 D5]. split; cbn [set_candidate set_progress c_side]; try done.
      - exists id1. by rewrite next_set_other.
      - by rewrite other_set_other.
      - simpl. unfold len. lia. }
    assert (remaining mask c1 s1 = (
       (remaining mask (set_candidate (Z.of_nat k') c1) (set_other (c_side c1) others s1)).1,
       chunk ++ (remaining mask (set_candidate (Z.of_nat k') c1) (set_other (c_side c1) others s1)).2)) as Hrem.
    { unfold remaining, initialize. cbn [set_candidate set_progress c_initialized]. rewrite Hinit.
      change (visits _) with (visits c1). rewrite Ev. change (visit_candidate _) with (visit_candidate c1).
      cbn [set_candidate set_progress c_side c_candidate]. rewrite Nat2Z.id, other_set_other.
      destruct (left_from _ _ _ (other_rows (c_side c1) s1)) as [r1 o1] eqn:E1.
      destruct (left_from _ _ k' others) as [r2 o2] eqn:E2. cbn [fst snd] in *. subst.
      rewrite set_other_set_other, app_assoc. done. }
    destruct b.
    + destruct (complete_spec m mask limit (set_candidate (Z.of_nat k') c1) (set_other (c_side c1) others s1) (out ++ chunk))
        as (b & c' & s' & chunk2 & -> & Hb & Hl); [done|exact Hd2|exact Hinit|lia|intros _; simpl; by rewrite H3|].
      exists b, c', s', (chunk ++ chunk2). rewrite <- app_assoc. split; [done|]. rewrite app_assoc. split; [|lia].
      destruct b.
      * destruct Hb as [Hf Hr]. split; [done|]. rewrite Hrem, Hr. done.
      * destruct Hb as (-> & -> & -> & Hfull). rewrite app_nil_r. split; [done|]. split; [|by rewrite Hrem].
        intros -> ->. unfold len in Hfull. simpl in Hfull. lia.
    + exists false, (set_candidate (Z.of_nat k') c1), (set_other (c_side c1) others s1), chunk.
      split; [done|]. split; [|lia]. split; [done|]. split; [|by rewrite Hrem].
      intros -> ->. unfold sat_add, len, USIZE_MAX in H3. simpl in H3. lia.
  - destruct (complete_spec m mask limit c1 s1 out) as (b & c' & s' & chunk & -> & Hb & Hl);
      [done|done|done|lia|by rewrite Ev|].
    exists b, c', s', chunk. split; [done|]. split; [|done]. destruct b; [done|].
    destruct Hb as (-> & -> & -> & Hfull). split; [done|]. split; [|done]. intros ->. unfold len in Hfull. simpl in Hfull. lia.
Qed.

(** ** The one-pass transition is what a new cursor has to do *)

Lemma for_matched_ext f g rows mask : (forall r, f r = g r) -> for_matched f rows mask = for_matched g rows mask.
Proof.
  intros Hfg. revert mask. induction rows as [|r rows IH]; intros [|b mask]; cbn [for_matched]; try done.
  by rewrite IH, Hfg.
Qed.
Lemma for_matched_none f rows mask : count_true mask = 0 -> for_matched f rows mask = (rows, []).
Proof.
  revert mask. induction rows as [|r rows IH]; intros [|b mask]; cbn [for_matched]; try done.
  rewrite count_true_cons. pose proof (count_true_nonneg mask). intros Hc. destruct b; [lia|].
  by rewrite IH by lia.
Qed.

Lemma remaining_new mask jt side kind acc input ordinal s :
  let c := cursor_new jt side kind acc input ordinal in
  remaining mask c s =
    let s := if acc then s else set_own side (remove_row input (own_rows side s)) s in
    let '(others, outs) :=
      if visits c then for_matched (visit_candidate c) (other_rows side s) mask else (other_rows side s, []) in
    (insert_own c (count_true mask) (set_other side others s), outs ++ own_row c (count_true mask)).
Proof. cbv zeta. rewrite <- left_from_0. reflexivity. Qed.

(** The cases of the one-pass transition, with the candidates visited by one function. *)
Lemma process_outer_visits id jt side kind (acc : bool) mask input ordinal s :
  side = 0 \/ side = 1 -> is_semi jt = false ->
  let s1 := if acc then s else set_own side (remove_row input (own_rows side s)) s in
  let c := cursor_new jt side kind acc input ordinal in
  let '(others, outs) := for_matched (visit_candidate c) (other_rows side s1) mask in
  process_outer id jt side kind acc mask input ordinal s =
    ((if acc then set_own side (own_rows side s ++ [{| sr_id := id; sr_row := input;
                                  associations := own_associations c (count_true mask) |}]) (set_other side others s1)
      else set_other side others s1), outs ++ own_row c (count_true mask)).
Proof.
  intros Hside Hsemi s1 c. unfold process_outer, own_row, emit_own, own_associations, own_kind.
  cbn [c c_join_type c_side c_input c_kind c_accumulate c_ordinal cursor_new]. rewrite Hsemi. cbn [andb negb].
  destruct (Z.eqb_spec (count_true mask) 0) as [Hz|Hz].
  - rewrite for_matched_none by done. rewrite set_other_same, orb_false_r, andb_true_r. unfold s1.
    destruct acc; rewrite ?set_other_same, ?Hz; by destruct (is_outer jt side).
  - rewrite andb_false_r, orb_false_r. cbn match. unfold s1, c.
    destruct acc; cbv beta iota zeta; rewrite ?other_set_own.
    all: rewrite ?own_set_own.
    all: match goal with |- context [for_matched (visit_candidate ?d) ?l ?bits] =>
      destruct (for_matched (visit_candidate d) l bits) as [others outs] eqn:Ef;
      match goal with |- context [for_matched ?g l bits] =>
        rewrite (for_matched_ext g (visit_candidate d) l bits); [by rewrite Ef, app_nil_r|] end end.
    all: intros r; unfold visit_candidate; cbn -[is_semi is_outer Z.eqb output_row push_pair]; by rewrite Hsemi.
Qed.

Lemma process_semi_anti_visits id jt side kind (acc : bool) mask input ordinal s :
  side = 0 \/ side = 1 -> is_semi jt = true ->
  let s1 := if acc then s else set_own side (remove_row input (own_rows side s)) s in
  let c := cursor_new jt side kind acc input ordinal in
  let '(others, outs) :=
    if visits c then for_matched (visit_candidate c) (other_rows side s1) mask else (other_rows side s1, []) in
  process_semi_anti id jt side kind acc mask input ordinal s =
    ((if acc then set_own side (own_rows side s ++ [{| sr_id := id; sr_row := input;
                                  associations := own_associations c (count_true mask) |}]) (set_other side others s1)
      else set_other side others s1), outs ++ own_row c (count_true mask)).
Proof.
  intros Hside Hsemi s1 c. pose proof (count_true_nonneg mask) as Hpos.
  assert (jt = Semi \/ jt = Anti) as Hjt by (destruct jt; vm_compute in Hsemi; auto; discriminate).
  unfold s1, c, process_semi_anti, own_row, emit_own, own_associations, own_kind.
  cbn [c_join_type c_side c_input c_kind c_accumulate c_ordinal cursor_new]. rewrite Hsemi.
  destruct Hside as [-> | ->].
  - assert (visits (cursor_new jt 0 kind acc input ordinal) = false) as -> by (unfold visits; cbn; by rewrite Hsemi).
    cbn [Z.eqb andb app]. rewrite orb_true_r, set_other_same. unfold is_anti.
    assert ((bool_decide (jt = Anti) && (count_true mask =? 0) || negb (bool_decide (jt = Anti)) && (0 <? count_true mask)) =
      Bool.eqb (count_true mask =? 0) (bool_decide (jt = Anti))) as ->; [|by destruct acc].
    destruct (bool_decide _), (Z.eqb_spec (count_true mask) 0), (Z.ltb_spec 0 (count_true mask)); cbn; try done; lia.
  - assert (visits (cursor_new jt 1 kind acc input ordinal) = true) as -> by (unfold visits; cbn; by rewrite Hsemi).
    cbn [Z.eqb andb negb]. rewrite !orb_false_r.
    assert (is_outer jt 1 = false) as -> by (destruct Hjt as [-> | ->]; reflexivity).
    destruct acc; cbv beta iota zeta.
    all: match goal with |- context [for_matched (visit_candidate ?d) ?l ?bits] =>
      destruct (for_matched (visit_candidate d) l bits) as [others outs] eqn:Ef;
      match goal with |- context [for_matched ?g ?k bits] =>
        change k with l; rewrite (for_matched_ext g (visit_candidate d) l bits); [by rewrite Ef, app_nil_r|] end end.
    all: intros r; unfold visit_candidate; cbn -[is_semi is_outer Z.eqb output_row push_pair]; by rewrite Hsemi.
Qed.

Lemma set_own_next side rows n others s :
  set_own side rows (set_next_id side n (set_other side others s)) =
  set_own side rows (set_other side others (set_next_id side n s)).
Proof. unfold set_own, set_other. by destruct (side =? 0). Qed.
Lemma other_set_next side n s : other_rows side (set_next_id side n s) = other_rows side s.
Proof. unfold other_rows. by destruct (side =? 0). Qed.
Lemma own_set_next side n s : own_rows side (set_next_id side n s) = own_rows side s.
Proof. unfold own_rows. by destruct (side =? 0). Qed.

Lemma reference_is_remaining jt side kind acc m mask input ordinal s id :
  masks m mask -> side = 0 \/ side = 1 -> next_row_id s !! Z.to_nat side = Some id -> 0 <= id < U64_MAX ->
  reference_process_change jt side kind acc m input ordinal s =
    Ok (remaining mask (cursor_new jt side kind acc input ordinal) s).
Proof.
  intros Hm Hside Hid Hmax. unfold reference_process_change. rewrite Hid, (masks_iter _ _ Hm), outcome_bind_run. f_equal.
  assert (wrapu 64 (id + 1) = id + 1) as -> by (apply wrapu_small; unfold U64_MAX in *; lia).
  rewrite remaining_new. cbv zeta. set (c := cursor_new jt side kind acc input ordinal).
  set (s0 := if acc then set_next_id side (id + 1) s else s).
  assert (let s1 := if acc then s0 else set_own side (remove_row input (own_rows side s0)) s0 in
    let '(others, outs) :=
      if visits c then for_matched (visit_candidate c) (other_rows side s1) mask else (other_rows side s1, []) in
    (if is_semi jt then process_semi_anti else process_outer) id jt side kind acc mask input ordinal s0 =
    ((if acc then set_own side (own_rows side s0 ++ [{| sr_id := id; sr_row := input;
                                  associations := own_associations c (count_true mask) |}]) (set_other side others s1)
      else set_other side others s1), outs ++ own_row c (count_true mask))) as Hp.
  { destruct (is_semi jt) eqn:Hsemi; [by apply process_semi_anti_visits|].
    assert (visits c = true) as -> by (unfold visits; cbn; by rewrite Hsemi). by apply process_outer_visits. }
  unfold insert_own. change (c_side c) with side. change (c_accumulate c) with acc. change (c_input c) with input.
  unfold s0 in *. destruct acc; cbv zeta iota in Hp |- *; rewrite ?other_set_own, ?other_set_next in Hp |- *.
  all: set (v := if visits c then _ else _) in *; destruct v as [others outs]; rewrite Hp.
  2: done.
  rewrite next_set_other, Hid, set_own_next, own_set_other, own_set_next. done.
Qed.

(** ** Pulls *)

(** Pulls with the given limits, each into an empty buffer, until the change has
    drained. *)
Fixpoint pulls (m : CandidateMatches) (limits : list Z) (c : ChangeCursor) (s : JoinState)
  : outcome (bool * list (list OutputRow) * (ChangeCursor * JoinState)) :=
  match limits with
  | [] => Ok (false, [], (c, s))
  | limit :: limits =>
      let '(o, (c, s, chunk)) := drain m limit (c, s, []) in
      finished ← o;
      if (finished : bool) then Ok (true, [chunk], (c, s))
      else '(finished, chunks, cs) ← pulls m limits c s; Ok (finished, chunk :: chunks, cs)
  end.

Definition limit_ok (limit : Z) : Prop := 2 <= limit < USIZE_MAX.

Lemma pulls_spec m mask limits c s :
  masks m mask -> draining mask c s -> Forall limit_ok limits ->
  exists finished chunks c' s', pulls m limits c s = Ok (finished, chunks, (c', s')) /\
    (if finished
     then c_finished c' = true /\ remaining mask c s = (s', concat chunks) /\
          (length chunks <= S (length (concat chunks)))%nat
     else length chunks = length limits /\ Forall (fun chunk => chunk <> []) chunks /\ draining mask c' s' /\
          remaining mask c s = ((remaining mask c' s').1, concat chunks ++ (remaining mask c' s').2)) /\
    Forall2 (fun chunk limit => len chunk <= limit) chunks (take (length chunks) limits).
Proof.
  intros Hm Hd Hlim. revert c s Hd. induction Hlim as [|limit limits Hl Hlim IH]; intros c s Hd; cbn [pulls].
  { exists false, [], c, s. split; [done|]. split; [|constructor]. split; [done|]. split; [constructor|]. split; [done|].
    by destruct (remaining mask c s). }
  destruct (drain_spec m mask limit c s [] Hm Hd Hl) as (b & c1 & s1 & chunk & -> & Hb & Hsize).
  rewrite outcome_bind_run. cbn [app] in *. assert (len chunk <= limit) as Hc by (destruct Hl; unfold len in *; simpl in *; lia).
  destruct b.
  - destruct Hb as [Hf Hr]. exists true, [chunk], c1, s1. split; [done|]. cbn [concat]. rewrite app_nil_r.
    split; [|by repeat constructor]. split_and!; [done|done|simpl; lia].
  - destruct Hb as (Hd1 & Hne & H1 & H2). specialize (Hne eq_refl).
    destruct (IH c1 s1 Hd1) as (fin & chunks & c2 & s2 & -> & Hfin & Hsizes). rewrite outcome_bind_run.
    exists fin, (chunk :: chunks), c2, s2. split; [done|]. split; [|by constructor]. cbn [concat].
    assert (remaining mask c s = ((remaining mask c1 s1).1, chunk ++ (remaining mask c1 s1).2)) as Hrem.
    { rewrite <- H1, <- H2. by destruct (remaining mask c s). }
    destruct fin.
    + destruct Hfin as (Hf & Hr & Hn). split_and!; [done|by rewrite Hrem, Hr|].
      rewrite length_app. destruct chunk; [done|]. simpl. lia.
    + destruct Hfin as (Hn & Hall & Hd2 & Hr). split_and!; [simpl; lia|by constructor|done|].
      rewrite Hrem, Hr. cbn [fst snd]. by rewrite app_assoc.
Qed.

Lemma draining_new jt side kind acc input ordinal mask s id :
  side = 0 \/ side = 1 -> next_row_id s !! Z.to_nat side = Some id -> id <> U64_MAX ->
  length mask = length (other_rows side s) -> draining mask (cursor_new jt side kind acc input ordinal) s.
Proof. intros Hs Hid Hmax Hl. split; cbn; try done; [by exists id|]. pose proof (len_nonneg mask). lia. Qed.

(** Chunks that are all non-empty are no more than their rows. *)
Lemma nonempty_chunks {A} (chunks : list (list A)) :
  Forall (fun chunk => chunk <> []) chunks -> (length chunks <= length (concat chunks))%nat.
Proof. induction 1 as [|x l Hx _ IH]; simpl; [lia|]. rewrite length_app. destruct x; [done|]. simpl. lia. Qed.

(** C17: Drain one input change of any join type in bounded pulls, each with its
    own output limit of at least two rows. If the limits suffice to finish, the
    emitted rows are exactly those of the one-pass transition, in its order, and
    the join state is its state; if not, what was emitted is a prefix of it, in
    non-empty chunks. No chunk exceeds its limit, and a mask may be constant,
    owned or shared. *)
Theorem bounded_pulls_match_reference jt side kind acc m mask input ordinal s id s_ref out_ref limits :
  masks m mask -> length mask = length (other_rows side s) -> side = 0 \/ side = 1 ->
  next_row_id s !! Z.to_nat side = Some id -> 0 <= id < U64_MAX -> Forall limit_ok limits ->
  reference_process_change jt side kind acc m input ordinal s = Ok (s_ref, out_ref) ->
  exists finished chunks c' s',
    pulls m limits (cursor_new jt side kind acc input ordinal) s = Ok (finished, chunks, (c', s')) /\
    Forall2 (fun chunk limit => len chunk <= limit) chunks (take (length chunks) limits) /\
    if finished then concat chunks = out_ref /\ s' = s_ref /\ c_finished c' = true
    else Forall (fun chunk => chunk <> []) chunks /\ exists rest, out_ref = concat chunks ++ rest.
Proof.
  intros Hm Hl Hside Hid Hmax Hlim Href.
  rewrite (reference_is_remaining jt side kind acc m mask input ordinal s id Hm Hside Hid Hmax) in Href.
  injection Href as Href. assert (id <> U64_MAX) as Hne by lia.
  destruct (pulls_spec m mask limits _ s Hm (draining_new jt side kind acc input ordinal mask s id Hside Hid Hne Hl) Hlim)
    as (fin & chunks & c' & s' & Hrun & Hfin & Hsizes).
  exists fin, chunks, c', s'. split; [done|]. split; [done|]. rewrite Href in Hfin. destruct fin.
  - destruct Hfin as (Hf & [= -> ->] & _). done.
  - destruct Hfin as (_ & Hall & _ & [= _ ->]). split; [done|]. by eexists.
Qed.

(** C18: Draining terminates: one limit more than the change has output rows is
    always enough to finish it, however small the limits are, and a finished
    cursor finishes again without touching anything. *)
Theorem bounded_pulls_terminate jt side kind acc m mask input ordinal s id s_ref out_ref limits :
  masks m mask -> length mask = length (other_rows side s) -> side = 0 \/ side = 1 ->
  next_row_id s !! Z.to_nat side = Some id -> 0 <= id < U64_MAX -> Forall limit_ok limits ->
  reference_process_change jt side kind acc m input ordinal s = Ok (s_ref, out_ref) ->
  (length out_ref < length limits)%nat ->
  exists chunks c' s', pulls m limits (cursor_new jt side kind acc input ordinal) s = Ok (true, chunks, (c', s')) /\
    (length chunks <= S (length out_ref))%nat /\
    forall limit out, limit_ok limit -> drain m limit (c', s', out) = (Ok true, (c', s', out)).
Proof.
  intros Hm Hl Hside Hid Hmax Hlim Href Henough.
  rewrite (reference_is_remaining jt side kind acc m mask input ordinal s id Hm Hside Hid Hmax) in Href.
  injection Href as Href. assert (id <> U64_MAX) as Hne by lia.
  destruct (pulls_spec m mask limits _ s Hm (draining_new jt side kind acc input ordinal mask s id Hside Hid Hne Hl) Hlim)
    as (fin & chunks & c' & s' & Hrun & Hfin & Hsizes).
  rewrite Href in Hfin. destruct fin.
  - destruct Hfin as (Hf & [= -> ->] & Hn). exists chunks, c', s'. split; [done|]. split; [done|].
    intros limit out [H2 _]. unfold drain, drain_page. cbn [negb andb]. destruct (Z.ltb_spec limit 2); [lia|]. by rewrite Hf.
  - destruct Hfin as (Hn & Hall & _ & [= _ ->]). exfalso. rewrite length_app in Henough.
    pose proof (nonempty_chunks chunks Hall). lia.
Qed.
