(* ===== verification/JoinView.v ===== *)
(** * The join keeps its view

    The relational meaning of the streaming join: the changelog a change emits
    takes the join of the two stored sides before the change to the join after
    it, row by row with multiplicities, for inner, outer, semi and anti joins. *)

From Stdlib Require Import ZArith Lia Strings.Byte.
From stdpp Require Import base list option numbers strings.
From S2P Require Import Prelude Bytes OrdMap RegularJoin JoinCursor.

Definition out_key : Type := option bytes * option bytes.
Definition ind (b : bool) : Z := if b then 1 else 0.

(** ** The view *)

Section view.
(** The join condition on a left and a right row. *)
Context (theta : bytes -> bytes -> bool).

(** Does a row of the given side match a row of the other side? *)
Definition meets (side : Z) (own other : bytes) : bool := if side =? 0 then theta own other else theta other own.
Definition degree (side : Z) (row : bytes) (others : list bytes) : Z := zsum (fun x => ind (meets side row x)) others.
Definition unmatched (side : Z) (others : list bytes) (row : bytes) : bool := degree side row others =? 0.

Definition pairs (L R : list bytes) : list out_key :=
  flat_map (fun l => map (fun r => (Some l, Some r)) (filter (fun r => theta l r = true) R)) L.
Definition left_padded (L R : list bytes) : list out_key :=
  map (fun l => (Some l, None)) (filter (fun l => unmatched 0 R l = true) L).
Definition right_padded (L R : list bytes) : list out_key :=
  map (fun r => (None, Some r)) (filter (fun r => unmatched 1 L r = true) R).
Definition view (jt : RegularJoinType) (L R : list bytes) : list out_key :=
  match jt with
  | Inner => pairs L R
  | LeftJoin => pairs L R ++ left_padded L R
  | RightJoin => pairs L R ++ right_padded L R
  | Full => pairs L R ++ left_padded L R ++ right_padded L R
  | Semi => map (fun l => (Some l, None)) (filter (fun l => unmatched 0 R l = false) L)
  | Anti => left_padded L R
  end.

(** Multiplicities, and the net effect of a changelog. *)
Definition hit (k x : out_key) : Z := ind (bool_decide (x = k)).
Definition mult (k : out_key) (l : list out_key) : Z := zsum (hit k) l.
Definition sign (kind : Z) : Z :=
  if (kind =? INSERT) || (kind =? UPDATE_AFTER) then 1
  else if (kind =? UPDATE_BEFORE) || (kind =? DELETE) then -1 else 0.
Definition row_net (k : out_key) (o : OutputRow) : Z := sign (o_kind o) * hit k (o_left o, o_right o).
Definition net (k : out_key) (outs : list OutputRow) : Z := zsum (row_net k) outs.

(** ** Degrees *)

Lemma zsum_scale {A} c (f : A -> Z) l : zsum (fun x => c * f x) l = c * zsum f l.
Proof. induction l as [|x l IH]; [cbn; lia|]. rewrite !zsum_cons, IH. ring. Qed.

Lemma degree_nonneg side row others : 0 <= degree side row others.
Proof. apply zsum_nonneg. intros a _. unfold ind. destruct (meets _ _ _); lia. Qed.
Lemma degree_le side row others : degree side row others <= len others.
Proof.
  unfold degree. induction others as [|x l IH]; [done|]. rewrite zsum_cons. unfold len in *. simpl length.
  unfold ind at 1. destruct (meets _ _ _); lia.
Qed.

(** The multiplicities of the view, by side. *)
Definition pair_of (side : Z) (own other : option bytes) : out_key :=
  if side =? 0 then (own, other) else (other, own).
Definition pairs_sum (k : out_key) (side : Z) (own others : list bytes) : Z :=
  zsum (fun x => zsum (fun o => ind (meets side o x) * hit k (pair_of side (Some o) (Some x))) own) others.
Definition padded_sum (k : out_key) (side : Z) (own others : list bytes) : Z :=
  zsum (fun o => ind (unmatched side others o) * hit k (pair_of side (Some o) None)) own.

Lemma mult_filter {A} (k : out_key) (f : A -> out_key) (P : A -> bool) (v : bool) l :
  mult k (map f (filter (fun x => P x = v) l)) = zsum (fun x => ind (Bool.eqb (P x) v) * hit k (f x)) l.
Proof.
  unfold mult. rewrite zsum_map, zsum_filter. apply zsum_ext. intros x _. unfold ind.
  destruct (decide (P x = v)) as [->|Hn]; [rewrite Bool.eqb_reflx; lia|].
  destruct (Bool.eqb_spec (P x) v); [done|lia].
Qed.
Lemma mult_pairs k side own others :
  side = 0 \/ side = 1 ->
  mult k (pairs (if side =? 0 then own else others) (if side =? 0 then others else own)) = pairs_sum k side own others.
Proof.
  intros Hs. unfold pairs, pairs_sum. unfold mult at 1. rewrite zsum_flat_map.
  assert (forall l R, zsum (hit k) (map (fun r => (Some l, Some r)) (filter (fun r => theta l r = true) R)) =
    zsum (fun r => ind (theta l r) * hit k (Some l, Some r)) R) as He.
  { intros l R. etransitivity; [apply (mult_filter k (fun r => (Some l, Some r)) (theta l) true)|].
    apply zsum_ext. intros r _. by destruct (theta l r). }
  destruct Hs as [-> | ->]; cbn [Z.eqb]; [rewrite zsum_swap|]; apply zsum_ext; intros x _; by rewrite He.
Qed.
Lemma mult_left_padded k L R : mult k (left_padded L R) = padded_sum k 0 L R.
Proof.
  unfold left_padded, padded_sum. rewrite mult_filter. apply zsum_ext. intros x _. by destruct (unmatched _ _ _).
Qed.
Lemma mult_right_padded k L R : mult k (right_padded L R) = padded_sum k 1 R L.
Proof.
  unfold right_padded, padded_sum. rewrite mult_filter. apply zsum_ext. intros x _. by destruct (unmatched _ _ _).
Qed.

(** The view, seen from one side. *)
Definition side_view (jt : RegularJoinType) (side : Z) (own others : list bytes) : list out_key :=
  view jt (if side =? 0 then own else others) (if side =? 0 then others else own).

Lemma mult_app k l1 l2 : mult k (l1 ++ l2) = mult k l1 + mult k l2.
Proof. apply zsum_app. Qed.
Lemma mult_outer_view k jt side own others :
  side = 0 \/ side = 1 -> is_semi jt = false ->
  mult k (side_view jt side own others) =
    pairs_sum k side own others +
    (if is_outer jt side then padded_sum k side own others else 0) +
    (if is_outer jt (1 - side) then padded_sum k (1 - side) others own else 0).
Proof.
  intros Hs Hsemi. rewrite <- mult_pairs by done. unfold side_view.
  destruct jt; try done; destruct Hs as [-> | ->]; change (1 - 0) with 1; change (1 - 1) with 0;
    repeat match goal with |- context [is_outer ?a ?b] =>
      let v := eval vm_compute in (is_outer a b) in change (is_outer a b) with v end;
    cbn [view Z.eqb]; rewrite ?mult_app, ?mult_left_padded, ?mult_right_padded; lia.
Qed.
Lemma mult_semi_view k jt L R :
  is_semi jt = true ->
  mult k (view jt L R) = zsum (fun l => ind (Bool.eqb (unmatched 0 R l) (is_anti jt)) * hit k (Some l, None)) L.
Proof. intros Hs. destruct jt; try done; apply (mult_filter k (fun l => (Some l, None)) (unmatched 0 R)). Qed.

(** ** One more row *)

Lemma meets_flip side a b : side = 0 \/ side = 1 -> meets (1 - side) b a = meets side a b.
Proof. by intros [-> | ->]. Qed.
Lemma degree_snoc side row others i : degree side row (others ++ [i]) = degree side row others + ind (meets side row i).
Proof. unfold degree. rewrite zsum_app. unfold zsum. simpl. lia. Qed.
Lemma unmatched_snoc side row others i :
  unmatched side (others ++ [i]) row = unmatched side others row && negb (meets side row i).
Proof.
  unfold unmatched. rewrite degree_snoc. pose proof (degree_nonneg side row others) as Hp.
  destruct (meets side row i); unfold ind; cbn [negb].
  - rewrite andb_false_r. apply Z.eqb_neq. lia.
  - rewrite andb_true_r. f_equal. lia.
Qed.

(** What one more row [i] of the given side adds to the view. *)
Definition visit_delta (k : out_key) (jt : RegularJoinType) (side : Z) (own : list bytes) (i x : bytes) : Z :=
  if is_semi jt then
    if side =? 0 then 0
    else ind (unmatched 0 own x) * (if is_anti jt then -1 else 1) * hit k (Some x, None)
  else hit k (pair_of side (Some i) (Some x)) -
       ind (is_outer jt (1 - side) && unmatched (1 - side) own x) * hit k (pair_of (1 - side) (Some x) None).
Definition own_delta (k : out_key) (jt : RegularJoinType) (side : Z) (others : list bytes) (i : bytes) : Z :=
  ind (if is_semi jt && (side =? 0) then Bool.eqb (unmatched side others i) (is_anti jt)
       else negb (is_semi jt) && is_outer jt side && unmatched side others i) * hit k (pair_of side (Some i) None).
Definition delta (k : out_key) (jt : RegularJoinType) (side : Z) (own others : list bytes) (i : bytes) : Z :=
  zsum (fun x => ind (meets side i x) * visit_delta k jt side own i x) others + own_delta k jt side others i.

Lemma pairs_sum_snoc k side own others i :
  pairs_sum k side (own ++ [i]) others =
    pairs_sum k side own others + zsum (fun x => ind (meets side i x) * hit k (pair_of side (Some i) (Some x))) others.
Proof.
  unfold pairs_sum. rewrite <- zsum_plus. apply zsum_ext. intros x _. rewrite zsum_app. unfold zsum at 2. simpl. lia.
Qed.
Lemma padded_sum_own k side own others i :
  padded_sum k side (own ++ [i]) others =
    padded_sum k side own others + ind (unmatched side others i) * hit k (pair_of side (Some i) None).
Proof. unfold padded_sum. rewrite zsum_app. unfold zsum at 2. simpl. lia. Qed.
Lemma padded_sum_others k side own others i :
  side = 0 \/ side = 1 ->
  padded_sum k (1 - side) others (own ++ [i]) =
    padded_sum k (1 - side) others own -
    zsum (fun x => ind (meets side i x) * (ind (unmatched (1 - side) own x) * hit k (pair_of (1 - side) (Some x) None))) others.
Proof.
  intros Hs. unfold padded_sum.
  assert (forall a b c : Z, a + c = b -> a = b - c) as Hsub by (intros; lia). apply Hsub. rewrite <- zsum_plus.
  apply zsum_ext. intros x _. rewrite unmatched_snoc, meets_flip by done.
  destruct (unmatched (1 - side) own x), (meets side i x); unfold ind; cbn [negb andb]; lia.
Qed.

Lemma view_grows k jt side own others i :
  side = 0 \/ side = 1 ->
  mult k (side_view jt side (own ++ [i]) others) = mult k (side_view jt side own others) + delta k jt side own others i.
Proof.
  intros Hs. unfold delta, own_delta, visit_delta. destruct (is_semi jt) eqn:Hsemi.
  - unfold side_view. rewrite !mult_semi_view by done. destruct Hs as [-> | ->]; cbn [Z.eqb andb].
    + rewrite zsum_app. unfold zsum at 2. cbn [foldr].
      assert (zsum (fun x => ind (meets 0 i x) * 0) others = 0) as ->
        by (etransitivity; [apply (zsum_ext _ (fun _ => 0)); intros; lia|apply zsum_zero]).
      unfold pair_of. cbn [Z.eqb]. lia.
    + cbn [negb andb]. change (ind false) with 0. rewrite Z.mul_0_l, Z.add_0_r, <- zsum_plus. apply zsum_ext. intros x _.
      rewrite unmatched_snoc. change (meets 1 i x) with (meets 0 x i).
      destruct (unmatched 0 own x), (meets 0 x i), (is_anti jt); unfold ind; cbn [negb andb Bool.eqb]; lia.
  - rewrite !mult_outer_view by done. rewrite pairs_sum_snoc, padded_sum_own, padded_sum_others by done.
    cbn [andb negb].
    assert (forall f g h : bytes -> Z, (forall x, f x = g x - h x) -> zsum f others = zsum g others - zsum h others) as Hdiff.
    { intros f g h Hf. assert (zsum f others + zsum h others = zsum g others); [|lia]. rewrite <- zsum_plus.
      apply zsum_ext. intros x _. rewrite Hf. lia. }
    destruct (is_outer jt (1 - side)); cbn [andb].
    + rewrite (Hdiff (fun x => ind (meets side i x) * (hit k (pair_of side (Some i) (Some x)) -
          ind (unmatched (1 - side) own x) * hit k (pair_of (1 - side) (Some x) None)))
        (fun x => ind (meets side i x) * hit k (pair_of side (Some i) (Some x)))
        (fun x => ind (meets side i x) * (ind (unmatched (1 - side) own x) * hit k (pair_of (1 - side) (Some x) None))))
        by (intros; ring).
      destruct (is_outer jt side); cbn [andb]; [lia|]. change (ind false) with 0. lia.
    + rewrite (zsum_ext (fun x => ind (meets side i x) * (hit k (pair_of side (Some i) (Some x)) - ind false * _))
        (fun x => ind (meets side i x) * hit k (pair_of side (Some i) (Some x))) others)
        by (intros; change (ind false) with 0; ring).
      destruct (is_outer jt side); cbn [andb]; [lia|]. change (ind false) with 0. lia.
Qed.

(** ** The transition *)

Definition rows_of (rows : list StoredRow) : list bytes := map sr_row rows.
(** The sides whose rows count their matches, and what the counts mean. *)
Definition tracked (jt : RegularJoinType) (side : Z) : bool := is_outer jt side || (is_semi jt && (side =? 0)).
Definition counts (side : Z) (others : list bytes) (r : StoredRow) : Prop :=
  associations r = degree side (sr_row r) others.
Definition tracks (jt : RegularJoinType) (s : JoinState) : Prop :=
  forall side, side = 0 \/ side = 1 -> tracked jt side = true ->
    Forall (counts side (rows_of (other_rows side s))) (own_rows side s).
(** The mask of the join condition. *)
Definition mask_of (side : Z) (input : bytes) (s : JoinState) : list bool :=
  map (fun r => meets side input (sr_row r)) (other_rows side s).
(** Insertions carry an inserting kind, retractions a retracting one. *)
Definition kind_fits (acc : bool) (kind : Z) : Prop := sign kind = if acc then 1 else -1.

Lemma for_matched_map f (M : bytes -> bool) rows :
  for_matched f rows (map (fun r => M (sr_row r)) rows) =
    (map (fun r => if M (sr_row r) then (f r).1 else r) rows,
     flat_map (fun r => if M (sr_row r) then (f r).2 else []) rows).
Proof.
  induction rows as [|r rows IH]; [done|]. cbn [map for_matched flat_map]. rewrite IH.
  destruct (M (sr_row r)); [by destruct (f r)|done].
Qed.
Lemma count_true_mask (M : bytes -> bool) rows :
  count_true (map (fun r => M (sr_row r)) rows) = zsum (fun x => ind (M x)) (rows_of rows).
Proof.
  induction rows as [|r rows IH]; [done|]. cbn [map rows_of]. rewrite count_true_cons, IH. done.
Qed.
Lemma net_app k l1 l2 : net k (l1 ++ l2) = net k l1 + net k l2.
Proof. apply zsum_app. Qed.
Lemma net_flat_map {A} k (f : A -> list OutputRow) l : net k (flat_map f l) = zsum (fun x => net k (f x)) l.
Proof. apply zsum_flat_map. Qed.
Lemma net_row k side own other kind ordinal :
  net k [output_row side own other kind ordinal] = sign kind * hit k (pair_of side own other).
Proof. unfold net, output_row, pair_of. destruct (side =? 0); cbn [zsum foldr row_net o_kind o_left o_right]; unfold row_net; cbn; lia. Qed.
Lemma net_if k (b : bool) side own other kind ordinal :
  net k (if b then [output_row side own other kind ordinal] else []) = ind b * (sign kind * hit k (pair_of side own other)).
Proof. destruct b; [rewrite net_row; unfold ind; lia|done]. Qed.

(** One visited candidate, when its counter is right and the cursor adds a row. *)
Lemma visit_adds k jt side kind input ordinal own r :
  side = 0 \/ side = 1 -> kind_fits true kind -> visits (cursor_new jt side kind true input ordinal) = true ->
  (tracked jt (1 - side) = true -> counts (1 - side) own r) ->
  net k (visit_candidate (cursor_new jt side kind true input ordinal) r).2 = visit_delta k jt side own input (sr_row r).
Proof.
  intros Hs Hk Hv Hc. unfold visit_candidate, visit_delta, tracked, counts, unmatched in *.
  cbn [cursor_new c_join_type c_side c_accumulate c_kind c_ordinal c_input].
  destruct (is_semi jt) eqn:Hsemi; cbn [snd].
  - unfold visits in Hv. cbn in Hv. rewrite Hsemi in Hv. cbn [andb] in Hv.
    destruct Hs as [-> | ->]; [done|]. cbn [Z.eqb]. change (1 - 1) with 0 in Hc. rewrite orb_true_r in Hc.
    rewrite net_if, Hc by done. change (pair_of 0 (Some (sr_row r)) None) with ((Some (sr_row r), None) : out_key).
    destruct (is_anti jt); [change (sign DELETE) with (-1)|rewrite Hk]; ring.
  - cbn [andb] in Hc. rewrite orb_false_r in Hc. rewrite net_app, net_if, net_row.
    assert ((is_outer jt (1 - side) && (associations r =? 0)) =
      (is_outer jt (1 - side) && (degree (1 - side) (sr_row r) own =? 0))) as ->.
    { destruct (is_outer jt (1 - side)); [|done]. by rewrite Hc. }
    change (sign DELETE) with (-1).
    assert (sign (if is_outer jt side || is_outer jt (1 - side) then INSERT else kind) = 1) as -> by by destruct (_ || _).
    ring.
Qed.
(** The same when it removes one: the counter still counts the removed row. *)
Lemma visit_removes k jt side kind input ordinal own r :
  side = 0 \/ side = 1 -> kind_fits false kind -> visits (cursor_new jt side kind false input ordinal) = true ->
  meets side input (sr_row r) = true ->
  (tracked jt (1 - side) = true -> counts (1 - side) (own ++ [input]) r) ->
  net k (visit_candidate (cursor_new jt side kind false input ordinal) r).2 = - visit_delta k jt side own input (sr_row r).
Proof.
  intros Hs Hk Hv Hm Hc. unfold visit_candidate, visit_delta, tracked, counts, unmatched in *.
  rewrite degree_snoc, meets_flip, Hm in Hc by done. change (ind true) with 1 in Hc.
  cbn [cursor_new c_join_type c_side c_accumulate c_kind c_ordinal c_input].
  assert (forall b : bool, (b = true -> associations r = degree (1 - side) (sr_row r) own + 1) ->
    b && (associations r =? 1) = b && (degree (1 - side) (sr_row r) own =? 0)) as Hb.
  { intros [] Hb; [|done]. rewrite Hb by done. cbn [andb]. case_bool; (done || lia). }
  destruct (is_semi jt) eqn:Hsemi; cbn [snd].
  - unfold visits in Hv. cbn in Hv. rewrite Hsemi in Hv. cbn [andb] in Hv.
    destruct Hs as [-> | ->]; [done|]. cbn [Z.eqb]. change (1 - 1) with 0 in *. rewrite orb_true_r in Hc.
    specialize (Hb true). cbn [andb] in Hb. rewrite net_if, Hb by exact Hc.
    change (pair_of 0 (Some (sr_row r)) None) with ((Some (sr_row r), None) : out_key).
    destruct (is_anti jt); [change (sign INSERT) with 1|rewrite Hk]; ring.
  - cbn [andb] in Hc. rewrite orb_false_r in Hc. rewrite net_app, net_if, net_row, Hb by exact Hc.
    change (sign INSERT) with 1.
    assert (sign (if is_outer jt side then DELETE else kind) = -1) as -> by by destruct (is_outer jt side).
    ring.
Qed.
Lemma own_row_net k jt side kind acc input ordinal others :
  side = 0 \/ side = 1 -> kind_fits acc kind ->
  net k (own_row (cursor_new jt side kind acc input ordinal) (degree side input others)) =
    (if acc then 1 else -1) * own_delta k jt side others input.
Proof.
  intros Hs Hk. unfold own_row, own_delta, emit_own, own_kind, unmatched.
  cbn [cursor_new c_join_type c_side c_accumulate c_kind c_ordinal c_input]. rewrite net_if.
  destruct (is_semi jt) eqn:Hsemi; cbn [andb negb].
  - rewrite Hk. destruct Hs as [-> | ->], acc; cbn [Z.eqb]; ring.
  - destruct acc; [change (sign INSERT) with 1|change (sign DELETE) with (-1)]; ring.
Qed.

(** *** The state after a change *)

Lemma own_of_other side s : side = 0 \/ side = 1 -> own_rows (1 - side) s = other_rows side s.
Proof. by intros [-> | ->]. Qed.
Lemma other_of_own side s : side = 0 \/ side = 1 -> other_rows (1 - side) s = own_rows side s.
Proof. by intros [-> | ->]. Qed.
Lemma rows_of_remove input rows :
  input ∈ rows_of rows -> rows_of rows ≡ₚ rows_of (remove_row input rows) ++ [input].
Proof.
  unfold rows_of. induction rows as [|r rows IH]; cbn [map remove_row]; [by intros ?%not_elem_of_nil|].
  intros [->|Hin]%elem_of_cons.
  - rewrite bool_decide_eq_true_2 by done. by rewrite Permutation_cons_append.
  - case_bool_decide as Hd; [rewrite Hd; by rewrite Permutation_cons_append|]. cbn [map app]. by rewrite <- IH.
Qed.
Lemma remove_row_Forall (P : StoredRow -> Prop) input rows : Forall P rows -> Forall P (remove_row input rows).
Proof. induction 1 as [|r rows Hr Hrows IH]; cbn [remove_row]; [constructor|]. case_bool_decide; [done|by constructor]. Qed.

#[global] Instance degree_perm side row : Proper ((≡ₚ) ==> (=)) (degree side row).
Proof. intros l k Hlk. unfold degree. by rewrite Hlk. Qed.

Lemma visit_row c r : sr_row (visit_candidate c r).1 = sr_row r.
Proof.
  unfold visit_candidate. by destruct (is_semi (c_join_type c)), (c_accumulate c), (is_outer (c_join_type c) (1 - c_side c)).
Qed.
Lemma visit_counts jt side kind (acc : bool) input ordinal own r :
  side = 0 \/ side = 1 -> visits (cursor_new jt side kind acc input ordinal) = true -> tracked jt (1 - side) = true ->
  len own < 2 ^ 31 - 1 -> meets side input (sr_row r) = true ->
  counts (1 - side) (if acc then own else own ++ [input]) r ->
  counts (1 - side) (if acc then own ++ [input] else own) (visit_candidate (cursor_new jt side kind acc input ordinal) r).1.
Proof.
  intros Hs Hv Ht Hl Hm Hc. unfold counts in *. rewrite visit_row.
  assert (associations (visit_candidate (cursor_new jt side kind acc input ordinal) r).1 =
    wraps 32 (associations r + (if acc then 1 else -1))) as ->.
  { unfold visit_candidate, tracked in *. cbn [cursor_new c_join_type c_side c_accumulate].
    destruct (is_semi jt) eqn:Hsemi; cbn [fst].
    - destruct acc; cbn [set_associations associations]; f_equal; lia.
    - rewrite orb_false_r in Ht. rewrite Ht. destruct acc; cbn [fst set_associations associations]; f_equal; lia. }
  pose proof (degree_nonneg (1 - side) (sr_row r) own). pose proof (degree_le (1 - side) (sr_row r) own).
  destruct acc; rewrite Hc, ?degree_snoc, meets_flip, Hm by done; change (ind true) with 1;
    rewrite wraps_id by lia; lia.
Qed.

(** The state after a change, row by row. *)
Lemma remaining_rows jt side kind (acc : bool) input ordinal s s' outs :
  side = 0 \/ side = 1 ->
  (exists id, next_row_id s !! Z.to_nat side = Some id) ->
  remaining (mask_of side input s) (cursor_new jt side kind acc input ordinal) s = (s', outs) ->
  let c := cursor_new jt side kind acc input ordinal in
  other_rows side s' =
    (if visits c then map (fun r => if meets side input (sr_row r) then (visit_candidate c r).1 else r) (other_rows side s)
     else other_rows side s) /\
  (exists new, sr_row new = input /\ associations new = own_associations c (degree side input (rows_of (other_rows side s))) /\
    own_rows side s' = if acc then own_rows side s ++ [new] else remove_row input (own_rows side s)) /\
  outs = (if visits c then flat_map (fun r => if meets side input (sr_row r) then (visit_candidate c r).2 else []) (other_rows side s)
          else []) ++ own_row c (degree side input (rows_of (other_rows side s))).
Proof.
  intros Hs (id & Hid) Hrem c. rewrite remaining_new in Hrem. cbv zeta in Hrem. fold c in Hrem.
  unfold mask_of in Hrem. rewrite (count_true_mask (meets side input)) in Hrem.
  change (zsum (fun x => ind (meets side input x)) (rows_of (other_rows side s)))
    with (degree side input (rows_of (other_rows side s))) in Hrem.
  set (s1 := if acc then s else set_own side (remove_row input (own_rows side s)) s) in Hrem.
  assert (other_rows side s1 = other_rows side s) as Ho by (unfold s1; destruct acc; [done|by rewrite other_set_own]).
  rewrite Ho, for_matched_map in Hrem.
  set (others := if visits c then map _ _ else _). set (rows := if visits c then flat_map _ _ else _).
  assert ((if visits c
           then (map (fun r => if meets side input (sr_row r) then (visit_candidate c r).1 else r) (other_rows side s),
                 flat_map (fun r => if meets side input (sr_row r) then (visit_candidate c r).2 else []) (other_rows side s))
           else (other_rows side s, [])) = (others, rows)) as Hpair by (unfold others, rows; by destruct (visits c)).
  rewrite Hpair in Hrem. injection Hrem as <- <-. unfold insert_own. change (c_side c) with side. change (c_accumulate c) with acc.
  rewrite next_set_other. assert (next_row_id s1 !! Z.to_nat side = Some id) as Hid1
    by (unfold s1; destruct acc; [done|by rewrite next_set_own]).
  rewrite Hid1, own_set_other. split_and!; [| |done].
  - destruct acc; [|by rewrite other_set_other]. rewrite other_set_own, other_set_next, other_set_other. done.
  - eexists {| sr_id := id; sr_row := input; associations := _ |}. split_and!; [done|done|].
    destruct acc; [by rewrite own_set_own|]. rewrite own_set_other. unfold s1. by rewrite own_set_own.
Qed.

(** *** Directions

    Within one change all rows with the same content go the same way. *)
Definition plus (acc : bool) : Z := if acc then 1 else -1.
Definition direction (jt : RegularJoinType) (side : Z) (acc : bool) (k : out_key) : Z :=
  if is_semi jt then if (side =? 0) || negb (is_anti jt) then plus acc else - plus acc
  else match (if side =? 0 then k.1 else k.2) with Some _ => plus acc | None => - plus acc end.
Definition directed (jt : RegularJoinType) (side : Z) (acc : bool) (o : OutputRow) : Prop :=
  sign (o_kind o) = direction jt side acc (o_left o, o_right o).

Lemma directed_row jt side acc s own other kind ordinal :
  sign kind = direction jt side acc (pair_of s own other) -> directed jt side acc (output_row s own other kind ordinal).
Proof. unfold directed, output_row, pair_of. by destruct (s =? 0). Qed.

Lemma visit_directed jt side kind acc input ordinal r :
  side = 0 \/ side = 1 -> kind_fits acc kind -> visits (cursor_new jt side kind acc input ordinal) = true ->
  Forall (directed jt side acc) (visit_candidate (cursor_new jt side kind acc input ordinal) r).2.
Proof.
  intros Hs Hk Hv. unfold visit_candidate. cbn [cursor_new c_join_type c_side c_accumulate c_kind c_ordinal c_input].
  unfold visits in Hv. cbn [cursor_new c_join_type c_side] in Hv.
  destruct (is_semi jt) eqn:Hsemi; cbn [snd].
  - destruct Hs as [-> | ->]; [by rewrite andb_true_r in Hv|]. destruct (associations r =? _); [|constructor].
    constructor; [|constructor]. apply directed_row. unfold direction. rewrite Hsemi. cbn [Z.eqb orb].
    destruct (is_anti jt), acc; cbn [negb]; done.
  - assert (Forall (directed jt side acc)
      [output_row side (Some input) (Some (sr_row r)) (if is_outer jt side then if acc then INSERT else DELETE else kind) ordinal]) as Hpair.
    { constructor; [|constructor]. apply directed_row. unfold direction. rewrite Hsemi.
      assert (sign (if is_outer jt side then if acc then INSERT else DELETE else kind) = plus acc) as ->
        by (destruct (is_outer jt side); [by destruct acc|done]).
      by destruct Hs as [-> | ->]. }
    assert (forall b : bool, Forall (directed jt side acc)
      (if b then [output_row (1 - side) (Some (sr_row r)) None (if acc then DELETE else INSERT) ordinal] else [])) as Hpad.
    { intros []; [|constructor]. constructor; [|constructor]. apply directed_row. unfold direction. rewrite Hsemi.
      destruct Hs as [-> | ->], acc; done. }
    destruct acc; cbn [snd].
    + apply Forall_app. split; [apply Hpad|]. destruct (is_outer jt side); [exact Hpair|]. cbn [orb].
      destruct (is_outer jt (1 - side)); [|exact Hpair].
      constructor; [|constructor]. apply directed_row. unfold direction. rewrite Hsemi. by destruct Hs as [-> | ->].
    + apply Forall_app. split; [exact Hpair|apply Hpad].
Qed.

Lemma own_row_directed jt side kind acc input ordinal count :
  side = 0 \/ side = 1 -> kind_fits acc kind ->
  Forall (directed jt side acc) (own_row (cursor_new jt side kind acc input ordinal) count).
Proof.
  intros Hs Hk. unfold own_row, emit_own, own_kind. cbn [cursor_new c_join_type c_side c_accumulate c_kind c_ordinal c_input].
  destruct (if is_semi jt && (side =? 0) then _ else _) eqn:E; [|constructor]. constructor; [|constructor].
  apply directed_row. unfold direction. destruct (is_semi jt) eqn:Hsemi.
  - cbn [andb negb] in E. destruct (side =? 0); [|done]. cbn [orb]. done.
  - destruct Hs as [-> | ->], acc; done.
Qed.

Lemma net_between k jt side acc outs p :
  Forall (directed jt side acc) outs -> p `prefix_of` outs ->
  0 <= direction jt side acc k * net k p <= direction jt side acc k * net k outs.
Proof.
  intros Ho [q ->]. rewrite net_app. apply Forall_app in Ho as [Hp Hq].
  assert (forall l, Forall (directed jt side acc) l -> 0 <= direction jt side acc k * net k l) as Hpos.
  { clear. induction 1 as [|o l Hd _ IH]; [cbn; lia|]. unfold net in *. rewrite zsum_cons.
    unfold row_net at 1, hit. case_bool_decide as Hk; [subst k|];
      [change (ind true) with 1|change (ind false) with 0; by rewrite Z.mul_0_r, Z.add_0_l].
    unfold directed in Hd. rewrite Hd. nia. }
  specialize (Hpos p Hp) as H1. specialize (Hpos q Hq) as H2. lia.
Qed.
Lemma mult_nonneg k l : 0 <= mult k l.
Proof. apply zsum_nonneg. intros x _. unfold hit, ind. destruct (bool_decide _); lia. Qed.

(** *** One change *)

(** What a change needs: right counters, room in the 32-bit counters, and for a
    retraction the row it retracts. *)
Record change_ok (jt : RegularJoinType) (side kind : Z) (acc : bool) (input : bytes) (s : JoinState) : Prop := {
  ch_side : side = 0 \/ side = 1;
  ch_kind : kind_fits acc kind;
  ch_tracks : tracks jt s;
  ch_id : exists id, next_row_id s !! Z.to_nat side = Some id /\ 0 <= id < U64_MAX;
  ch_own : len (own_rows side s) < 2 ^ 31 - 1;
  ch_others : len (other_rows side s) < 2 ^ 31 - 1;
  ch_present : acc = false -> input ∈ rows_of (own_rows side s);
}.

Definition viewed (jt : RegularJoinType) (s : JoinState) : list out_key :=
  view jt (rows_of (left_rows s)) (rows_of (right_rows s)).
Lemma viewed_side jt side s :
  viewed jt s = side_view jt side (rows_of (own_rows side s)) (rows_of (other_rows side s)).
Proof. unfold viewed, side_view, own_rows, other_rows. by destruct (side =? 0). Qed.

#[global] Instance side_view_perm k jt side :
  side = 0 \/ side = 1 -> Proper ((≡ₚ) ==> eq ==> (=)) (fun own others => mult k (side_view jt side own others)).
Proof.
  intros Hs l l' Hl others _ <-. destruct (is_semi jt) eqn:Hsemi.
  - unfold side_view. rewrite !mult_semi_view by done. destruct Hs as [-> | ->]; cbn [Z.eqb]; [by rewrite Hl|].
    apply zsum_ext. intros x _. unfold unmatched. by rewrite Hl.
  - rewrite !mult_outer_view by done. f_equal; [f_equal|].
    + unfold pairs_sum. apply zsum_ext. intros x _. by rewrite Hl.
    + destruct (is_outer jt side); [|done]. unfold padded_sum. by rewrite Hl.
    + destruct (is_outer jt (1 - side)); [|done]. unfold padded_sum, unmatched. apply zsum_ext. intros x _. by rewrite Hl.
Qed.

Section change.
Context (jt : RegularJoinType) (side kind : Z) (acc : bool) (input : bytes) (ordinal : Z) (s s' : JoinState)
  (outs : list OutputRow).
Context (Hok : change_ok jt side kind acc input s)
  (Hrem : remaining (mask_of side input s) (cursor_new jt side kind acc input ordinal) s = (s', outs)).
Let c := cursor_new jt side kind acc input ordinal.
Let own := rows_of (own_rows side s).
Let others := rows_of (other_rows side s).
Let own' := rows_of (own_rows side s').

Lemma change_rows :
  rows_of (other_rows side s') = others /\
  (if acc then own' = own ++ [input] else own ≡ₚ own' ++ [input]) /\ len own < 2 ^ 31 - 1 /\ len own' < 2 ^ 31.
Proof using Hok Hrem.
  destruct Hok as [Hs Hk Ht (id & Hid & _) Ho Hx Hp].
  destruct (remaining_rows jt side kind acc input ordinal s s' outs Hs ltac:(by eexists) Hrem) as (H1 & (new & Hn & _ & H2) & _).
  assert (len own = len (own_rows side s)) as Hl by (unfold own, rows_of, len; by rewrite length_map).
  assert (if acc then own' = own ++ [input] else own ≡ₚ own' ++ [input]) as Hown.
  { unfold own', own. rewrite H2. destruct acc; [unfold rows_of; rewrite map_app; simpl; by rewrite Hn|].
    by apply rows_of_remove, Hp. }
  split_and!.
  - rewrite H1. unfold others, rows_of. destruct (visits _); [|done]. rewrite map_map. apply map_ext.
    intros r. destruct (meets _ _ _); [apply visit_row|done].
  - exact Hown.
  - lia.
  - destruct acc; [rewrite Hown; unfold len in *; rewrite length_app; simpl; lia|].
    apply Permutation_length in Hown. rewrite length_app in Hown. unfold len in *. simpl in Hown. lia.
Qed.

Lemma change_net k : net k outs = plus acc * delta k jt side (if acc then own else own') others input.
Proof using Hok Hrem.
  pose proof change_rows as (_ & Hown & _). destruct Hok as [Hs Hk Ht (id & Hid & _) Ho Hx Hp].
  destruct (remaining_rows jt side kind acc input ordinal s s' outs Hs ltac:(by eexists) Hrem) as (_ & _ & Hout).
  rewrite Hout, net_app. unfold delta. fold c. fold others. unfold c at 3. rewrite own_row_net by done.
  rewrite Z.mul_add_distr_l. f_equal. destruct (visits c) eqn:Hv.
  - rewrite net_flat_map. unfold others, rows_of. rewrite zsum_map.
    transitivity (zsum (fun r => plus acc * (ind (meets side input (sr_row r)) *
      visit_delta k jt side (if acc then own else own') input (sr_row r))) (other_rows side s)).
    2: by apply zsum_scale.
    apply zsum_ext. intros r Hr. destruct (meets side input (sr_row r)) eqn:Hm; [|unfold ind; cbn; lia].
    change (ind true) with 1. assert (tracked jt (1 - side) = true -> counts (1 - side) own r) as Hc.
    { intros Htr. specialize (Ht (1 - side) ltac:(lia) Htr). rewrite Forall_forall, own_of_other, other_of_own in Ht by done. by apply Ht. }
    destruct acc; unfold plus, c.
    + rewrite (visit_adds k jt side kind input ordinal own) by done. ring.
    + rewrite (visit_removes k jt side kind input ordinal own') by (try done; intros Htr; unfold counts; rewrite <- Hown; by apply Hc).
      ring.
  - assert (is_semi jt && (side =? 0) = true) as Hsemi by (apply negb_false_iff in Hv; exact Hv).
    apply andb_prop in Hsemi as [Hsemi Hz]. unfold visit_delta. rewrite Hsemi, Hz.
    assert (zsum (fun x => ind (meets side input x) * 0) others = 0) as ->
      by (etransitivity; [apply (zsum_ext _ (fun _ => 0)); intros; lia|apply zsum_zero]).
    cbn. lia.
Qed.

(** The multiplicities move by exactly what is emitted. *)
Lemma change_mult k : mult k (viewed jt s') = mult k (viewed jt s) + net k outs.
Proof using Hok Hrem.
  pose proof change_rows as (Ho & Hown & _). rewrite change_net, !(viewed_side jt side). fold own. fold others. fold own'. rewrite Ho.
  destruct Hok as [Hs _ _ _ _ _ _]. destruct acc; unfold plus.
  - rewrite Hown, view_grows by done. ring.
  - pose proof (side_view_perm k jt side Hs _ _ Hown others others eq_refl) as Hv. cbv beta in Hv. rewrite Hv, view_grows by done. ring.
Qed.

(** The counters stay right. *)
Lemma change_tracks : tracks jt s'.
Proof using Hok Hrem.
  pose proof change_rows as (Ho & Hown & Hl & Hl'). destruct Hok as [Hs Hk Ht (id & Hid & _) Hlo Hlx Hp].
  destruct (remaining_rows jt side kind acc input ordinal s s' outs Hs ltac:(by eexists) Hrem) as (H1 & (new & Hn & Ha & H2) & _).
  fold c in H1, Ha. intros sd Hsd Htr.
  assert (sd = side \/ sd = 1 - side) as [-> | ->] by lia.
  - rewrite Ho. specialize (Ht side Hs Htr). fold others in Ht. rewrite H2. destruct acc; [|by apply remove_row_Forall].
    apply Forall_app. split; [done|]. constructor; [|constructor]. unfold counts. rewrite Hn, Ha.
    unfold own_associations, c. cbn [cursor_new c_join_type c_side]. unfold tracked in Htr. rewrite Htr.
    fold others. pose proof (degree_nonneg side input others). pose proof (degree_le side input others).
    assert (len others = len (other_rows side s)) by (unfold others, rows_of, len; by rewrite length_map).
    apply wraps_id; lia.
  - specialize (Ht (1 - side) ltac:(lia) Htr). rewrite own_of_other, other_of_own in * by done. fold own in Ht. fold own'.
    assert (visits c = true) as Hv.
    { unfold visits, c. cbn [cursor_new c_join_type c_side]. unfold tracked in Htr.
      destruct Hs as [-> | ->]; [|by rewrite andb_false_r]. destruct jt; done. }
    rewrite H1, Hv. apply Forall_map. eapply Forall_impl; [exact Ht|]. intros r Hc. cbv beta.
    destruct (meets side input (sr_row r)) eqn:Hm.
    + pose proof (visit_counts jt side kind acc input ordinal (if acc then own else own') r Hs Hv Htr) as Hvc.
      fold c in Hvc. destruct acc; [rewrite Hown; apply Hvc; done|]. apply Hvc; [|done|unfold counts; by rewrite <- Hown].
      apply Permutation_length in Hown. rewrite length_app in Hown. unfold len in *. simpl in Hown. lia.
    + unfold counts in *. rewrite Hc. destruct acc; rewrite Hown, degree_snoc, meets_flip, Hm by done; change (ind false) with 0; lia.
Qed.

(** No prefix of the changelog retracts a row the view does not hold. *)
Lemma change_prefix k p : p `prefix_of` outs -> 0 <= mult k (viewed jt s) + net k p.
Proof using Hok Hrem.
  intros Hpre. destruct Hok as [Hs Hk Ht (id & Hid & _) Hlo Hlx Hp].
  destruct (remaining_rows jt side kind acc input ordinal s s' outs Hs ltac:(by eexists) Hrem) as (_ & _ & Hout).
  assert (Forall (directed jt side acc) outs) as Hd.
  { rewrite Hout. apply Forall_app. split; [|by apply own_row_directed]. destruct (visits _) eqn:Hv; [|constructor].
    apply Forall_flat_map, Forall_forall. intros r _. destruct (meets _ _ _); [by apply visit_directed|constructor]. }
  pose proof (net_between k jt side acc outs p Hd Hpre) as Hb. pose proof (change_mult k) as Hm.
  pose proof (mult_nonneg k (viewed jt s)). pose proof (mult_nonneg k (viewed jt s')).
  assert (direction jt side acc k = 1 \/ direction jt side acc k = -1) as [Hdir|Hdir]
    by (unfold direction, plus; repeat case_match; auto); rewrite Hdir in Hb; lia.
Qed.
End change.
End view.

(** Take any join type and any state whose match counters are right, and
    process one change of either side whose mask is the join condition against
    the opposite rows; a retraction names a stored row. Then for every output row
    its multiplicity in the relational join of the two sides moves by exactly
    what the emitted changelog inserts minus what it retracts; no prefix of the
    changelog retracts a row that is not there; the opposite rows keep their
    contents, the own side gains or loses the row, and the counters are right
    again. *)
Theorem join_change_maintains_view theta jt side kind acc m input ordinal s s' outs :
  change_ok theta jt side kind acc input s -> masks m (mask_of theta side input s) ->
  reference_process_change jt side kind acc m input ordinal s = Ok (s', outs) ->
  (forall k, mult k (viewed theta jt s') = mult k (viewed theta jt s) + net k outs) /\
  (forall k p, p `prefix_of` outs -> 0 <= mult k (viewed theta jt s) + net k p) /\
  rows_of (other_rows side s') = rows_of (other_rows side s) /\
  (if acc then rows_of (own_rows side s') = rows_of (own_rows side s) ++ [input]
   else rows_of (own_rows side s) ≡ₚ rows_of (own_rows side s') ++ [input]) /\
  tracks theta jt s'.
Proof.
  intros Hok Hm Href. destruct (ch_id _ _ _ _ _ _ _ Hok) as (id & Hid & Hmax).
  rewrite (reference_is_remaining jt side kind acc m _ input ordinal s id Hm (ch_side _ _ _ _ _ _ _ Hok) Hid Hmax) in Href.
  injection Href as Hrem. destruct (change_rows theta jt side kind acc input ordinal s s' outs Hok Hrem) as (H1 & H2 & _).
  split_and!; [|  |exact H1|exact H2|].
  - intros k. by eapply change_mult.
  - intros k p. by eapply change_prefix.
  - by eapply change_tracks.
Qed.

(** ** Runs *)

Record change : Type := { ch_at : Z; ch_kind_of : Z; ch_row : bytes }.
Definition accumulates (kind : Z) : bool := (kind =? INSERT) || (kind =? UPDATE_AFTER).

Fixpoint remove_first (x : bytes) (l : list bytes) : list bytes :=
  match l with [] => [] | y :: l => if bool_decide (y = x) then l else y :: remove_first x l end.
Lemma remove_first_perm x l : x ∈ l -> l ≡ₚ remove_first x l ++ [x].
Proof.
  induction l as [|y l IH]; cbn [remove_first]; [by intros ?%not_elem_of_nil|]. intros Hin.
  case_bool_decide as Hd; [rewrite Hd; apply Permutation_cons_append|]. cbn [app].
  apply elem_of_cons in Hin as [->|Hin]; [done|]. by rewrite <- IH.
Qed.

(** The contents of the two inputs, as bags. *)
Definition bag_step (ch : change) (bags : list bytes * list bytes) : list bytes * list bytes :=
  let upd l := if accumulates (ch_kind_of ch) then l ++ [ch_row ch] else remove_first (ch_row ch) l in
  if ch_at ch =? 0 then (upd bags.1, bags.2) else (bags.1, upd bags.2).
Definition bag_of (ch : change) (bags : list bytes * list bytes) : list bytes :=
  if ch_at ch =? 0 then bags.1 else bags.2.
(** Changes of the two sides with the four kinds, retractions only of rows that
    are there. *)
Fixpoint legal (chs : list change) (bags : list bytes * list bytes) : Prop :=
  match chs with
  | [] => True
  | ch :: chs =>
      (ch_at ch = 0 \/ ch_at ch = 1) /\ 0 <= ch_kind_of ch <= 3 /\
      (accumulates (ch_kind_of ch) = false -> ch_row ch ∈ bag_of ch bags) /\ legal chs (bag_step ch bags)
  end.

Section runs.
Context (theta : bytes -> bytes -> bool) (jt : RegularJoinType).

(** Process the changes one after another, each drained by pulls of any limits,
    with any representation of its mask. *)
Inductive join_run : JoinState -> list change -> JoinState -> list OutputRow -> Prop :=
  | run_done s : join_run s [] s []
  | run_change s ch m limits ordinal chunks c' s1 chs s2 outs :
      masks m (mask_of theta (ch_at ch) (ch_row ch) s) -> Forall limit_ok limits ->
      pulls m limits (cursor_new jt (ch_at ch) (ch_kind_of ch) (accumulates (ch_kind_of ch)) (ch_row ch) ordinal) s =
        Ok (true, chunks, (c', s1)) ->
      join_run s1 chs s2 outs -> join_run s (ch :: chs) s2 (concat chunks ++ outs).

Definition empty_join : JoinState :=
  {| next_row_id := [0; 0]; left_rows := []; right_rows := []; left_matchable := None; right_matchable := None |}.

(** The invariant after [n] changes. *)
Record run_inv (n : Z) (bags : list bytes * list bytes) (s : JoinState) : Prop := {
  ri_tracks : tracks theta jt s;
  ri_left : rows_of (left_rows s) ≡ₚ bags.1;
  ri_right : rows_of (right_rows s) ≡ₚ bags.2;
  ri_bags : len bags.1 <= n /\ len bags.2 <= n;
  ri_ids : exists a b, next_row_id s = [a; b] /\ 0 <= a <= n /\ 0 <= b <= n;
}.

Lemma run_inv_own n bags s side :
  run_inv n bags s -> side = 0 \/ side = 1 ->
  rows_of (own_rows side s) ≡ₚ (if side =? 0 then bags.1 else bags.2) /\
  rows_of (other_rows side s) ≡ₚ (if side =? 0 then bags.2 else bags.1).
Proof. intros [_ Hl Hr _ _] [-> | ->]; done. Qed.

Lemma rows_of_len rows : len (rows_of rows) = len rows.
Proof. unfold rows_of, len. by rewrite length_map. Qed.
Lemma perm_len {A} (l k : list A) : l ≡ₚ k -> len l = len k.
Proof. intros Hp. unfold len. by rewrite (Permutation_length Hp). Qed.

Lemma run_inv_change n bags s ch :
  run_inv n bags s -> n < 2 ^ 31 - 1 -> (ch_at ch = 0 \/ ch_at ch = 1) -> 0 <= ch_kind_of ch <= 3 ->
  (accumulates (ch_kind_of ch) = false -> ch_row ch ∈ bag_of ch bags) ->
  change_ok theta jt (ch_at ch) (ch_kind_of ch) (accumulates (ch_kind_of ch)) (ch_row ch) s.
Proof.
  intros Hi Hn Hs Hk Hp. destruct (run_inv_own _ _ _ _ Hi Hs) as [Ho Hx]. destruct Hi as [Ht _ _ [Hl Hr] (a & b & Hid & Ha & Hb)].
  assert (len (own_rows (ch_at ch) s) <= n /\ len (other_rows (ch_at ch) s) <= n) as [Hlo Hlx].
  { rewrite <- !rows_of_len, (perm_len _ _ Ho), (perm_len _ _ Hx). destruct (ch_at ch =? 0); lia. }
  split; [done| |done| |lia|lia|].
  - unfold kind_fits, accumulates, sign. assert (ch_kind_of ch = 0 \/ ch_kind_of ch = 1 \/ ch_kind_of ch = 2 \/ ch_kind_of ch = 3)
      as [-> | [-> | [-> | ->]]] by lia; done.
  - rewrite Hid. destruct Hs as [-> | ->]; eexists; (split; [done|]); unfold U64_MAX; lia.
  - intros Hacc. rewrite Ho. by apply Hp.
Qed.

Lemma remaining_ids side kind acc input ordinal mask s s' outs id :
  side = 0 \/ side = 1 -> next_row_id s !! Z.to_nat side = Some id ->
  remaining mask (cursor_new jt side kind acc input ordinal) s = (s', outs) ->
  next_row_id s' = if acc then <[Z.to_nat side := id + 1]> (next_row_id s) else next_row_id s.
Proof.
  intros Hs Hid. rewrite remaining_new. cbv zeta. set (c := cursor_new _ _ _ _ _ _).
  set (s1 := if acc then s else _). assert (next_row_id s1 = next_row_id s) as H1 by (unfold s1; destruct acc; [done|apply next_set_own]).
  destruct (if visits c then _ else _) as [others rows]. intros [= <- _]. unfold insert_own.
  change (c_side c) with side. change (c_accumulate c) with acc.
  destruct acc; rewrite next_set_other, H1; [|done]. rewrite Hid, next_set_own. cbn [set_next_id next_row_id]. by rewrite next_set_other, H1.
Qed.

(** One change keeps the invariant and moves the view. *)
Lemma run_step n bags s ch ordinal s1 outs :
  run_inv n bags s -> n < 2 ^ 31 - 1 -> legal [ch] bags ->
  remaining (mask_of theta (ch_at ch) (ch_row ch) s)
    (cursor_new jt (ch_at ch) (ch_kind_of ch) (accumulates (ch_kind_of ch)) (ch_row ch) ordinal) s = (s1, outs) ->
  run_inv (n + 1) (bag_step ch bags) s1 /\
  (forall k, mult k (viewed theta jt s1) = mult k (viewed theta jt s) + net k outs) /\
  (forall k p, p `prefix_of` outs -> 0 <= mult k (viewed theta jt s) + net k p).
Proof.
  intros Hi Hn (Hs & Hk & Hp & _) Hrem. pose proof (run_inv_change n bags s ch Hi Hn Hs Hk Hp) as Hok.
  destruct (change_rows _ _ _ _ _ _ _ _ _ _ Hok Hrem) as (H1 & H2 & _).
  split; [|split; [intros k; by eapply change_mult|intros k p; by eapply change_prefix]].
  destruct (run_inv_own _ _ _ _ Hi Hs) as [Ho Hx]. destruct Hi as [_ _ _ [Hl Hr] (a & b & Hid & Ha & Hb)].
  assert (rows_of (own_rows (ch_at ch) s1) ≡ₚ
    (if accumulates (ch_kind_of ch) then bag_of ch bags ++ [ch_row ch] else remove_first (ch_row ch) (bag_of ch bags))) as Hown.
  { fold (bag_of ch bags) in Ho. destruct (accumulates (ch_kind_of ch)); [by rewrite H2, Ho|].
    specialize (Hp eq_refl). rewrite Ho, (remove_first_perm _ _ Hp) in H2.
    symmetry. eapply (inj (.++ [ch_row ch])). exact H2. }
  assert (len (if accumulates (ch_kind_of ch) then bag_of ch bags ++ [ch_row ch] else remove_first (ch_row ch) (bag_of ch bags)) <= n + 1) as Hlen.
  { assert (len (bag_of ch bags) <= n) by (unfold bag_of; destruct (ch_at ch =? 0); lia).
    destruct (accumulates (ch_kind_of ch)); [unfold len in *; rewrite length_app; simpl; lia|].
    specialize (Hp eq_refl). apply remove_first_perm, perm_len in Hp. unfold len in *. rewrite length_app in Hp. simpl in Hp. lia. }
  destruct (ch_id _ _ _ _ _ _ _ Hok) as (id & Hid' & Hmax).
  pose proof (remaining_ids _ _ _ _ _ _ _ _ _ _ Hs Hid' Hrem) as Hids.
  unfold bag_step. rewrite <- H1 in Hx. unfold bag_of in Hown, Hlen.
  split; [by eapply change_tracks| | | |].
  1-3: destruct Hs as [Hs | Hs]; rewrite Hs in *; cbn [Z.eqb fst snd own_rows other_rows] in *; (done || lia).
  rewrite Hids, Hid. rewrite Hid in Hid'. destruct Hs as [Hs | Hs]; rewrite Hs in *; cbn in Hid'; injection Hid' as ->;
    destruct (accumulates (ch_kind_of ch)); cbn; eexists _, _; (split; [done|]); lia.
Qed.

Lemma prefix_split {A} (p l k : list A) : p `prefix_of` l ++ k -> p `prefix_of` l \/ exists q, p = l ++ q /\ q `prefix_of` k.
Proof.
  intros [r Hr]. apply app_eq_app in Hr as (q & [[-> Hq] | [-> Hq]]).
  - left. by exists q.
  - right. exists q. split; [done|]. by exists r.
Qed.

Lemma finished_pulls n bags s ch m limits ordinal chunks c' s1 :
  run_inv n bags s -> n < 2 ^ 31 - 1 -> legal [ch] bags ->
  masks m (mask_of theta (ch_at ch) (ch_row ch) s) -> Forall limit_ok limits ->
  pulls m limits (cursor_new jt (ch_at ch) (ch_kind_of ch) (accumulates (ch_kind_of ch)) (ch_row ch) ordinal) s =
    Ok (true, chunks, (c', s1)) ->
  remaining (mask_of theta (ch_at ch) (ch_row ch) s)
    (cursor_new jt (ch_at ch) (ch_kind_of ch) (accumulates (ch_kind_of ch)) (ch_row ch) ordinal) s = (s1, concat chunks).
Proof.
  intros Hi Hn (Hs & Hk & Hp & _) Hm Hlim Hrun. pose proof (run_inv_change n bags s ch Hi Hn Hs Hk Hp) as Hok.
  destruct (ch_id _ _ _ _ _ _ _ Hok) as (id & Hid & Hmax). assert (id <> U64_MAX) as Hne by lia.
  assert (length (mask_of theta (ch_at ch) (ch_row ch) s) = length (other_rows (ch_at ch) s)) as Hl by (unfold mask_of; by rewrite length_map).
  destruct (pulls_spec m _ limits _ s Hm (draining_new jt (ch_at ch) (ch_kind_of ch) (accumulates (ch_kind_of ch)) (ch_row ch)
    ordinal _ s id Hs Hid Hne Hl) Hlim) as (fin & chunks' & c2 & s2 & Hrun2 & Hfin & _).
  rewrite Hrun in Hrun2. injection Hrun2 as <- <- <- <-. apply Hfin.
Qed.

Lemma run_maintains n bags s chs s2 outs :
  run_inv n bags s -> legal chs bags -> n + len chs < 2 ^ 31 -> join_run s chs s2 outs ->
  run_inv (n + len chs) (fold_left (fun b ch => bag_step ch b) chs bags) s2 /\
  (forall k, mult k (viewed theta jt s2) = mult k (viewed theta jt s) + net k outs) /\
  (forall k p, p `prefix_of` outs -> 0 <= mult k (viewed theta jt s) + net k p).
Proof.
  intros Hi Hlegal Hn Hrun. revert n bags Hi Hlegal Hn.
  induction Hrun as [s|s ch m limits ordinal chunks c' s1 chs s2 outs Hm Hlim Hpull Hrun IH]; intros n bags Hi Hlegal Hn.
  { cbn [fold_left]. rewrite Z.add_0_r. split; [done|]. split; [intros k; cbn; lia|].
    intros k p ->%prefix_nil_inv. pose proof (mult_nonneg k (viewed theta jt s)). cbn. lia. }
  destruct Hlegal as (Hs & Hk & Hp & Hrest). assert (legal [ch] bags) as Hl by done.
  assert (len (ch :: chs) = 1 + len chs) as Hlen by (unfold len; simpl; lia). pose proof (len_nonneg chs).
  pose proof (finished_pulls n bags s ch m limits ordinal chunks c' s1 Hi ltac:(lia) Hl Hm Hlim Hpull) as Hrem.
  destruct (run_step n bags s ch ordinal s1 (concat chunks) Hi ltac:(lia) Hl Hrem) as (Hi1 & Hm1 & Hp1).
  destruct (IH (n + 1) _ Hi1 Hrest ltac:(lia)) as (Hi2 & Hm2 & Hp2). rewrite Hlen.
  split; [|split].
  - replace (n + (1 + len chs)) with (n + 1 + len chs) by lia. exact Hi2.
  - intros k. rewrite net_app, Hm2, Hm1. lia.
  - intros k p [Hpre|(q & -> & Hpre)]%prefix_split; [by apply Hp1|]. rewrite net_app.
    specialize (Hp2 k q Hpre). rewrite Hm1 in Hp2. lia.
Qed.

Lemma run_exists limit n bags s chs :
  limit_ok limit -> run_inv n bags s -> legal chs bags -> n + len chs < 2 ^ 31 -> exists s2 outs, join_run s chs s2 outs.
Proof.
  intros Hlim. revert n bags s. induction chs as [|ch chs IH]; intros n bags s Hi Hlegal Hn; [by eexists _, _; constructor|].
  destruct Hlegal as (Hs & Hk & Hp & Hrest). assert (legal [ch] bags) as Hl by done.
  assert (len (ch :: chs) = 1 + len chs) as Hlen by (unfold len; simpl; lia). pose proof (len_nonneg chs).
  pose proof (run_inv_change n bags s ch Hi ltac:(lia) Hs Hk Hp) as Hok.
  destruct (ch_id _ _ _ _ _ _ _ Hok) as (id & Hid & Hmax). assert (id <> U64_MAX) as Hne by lia.
  set (mask := mask_of theta (ch_at ch) (ch_row ch) s). set (c := cursor_new jt (ch_at ch) (ch_kind_of ch) (accumulates (ch_kind_of ch)) (ch_row ch) 0).
  assert (length mask = length (other_rows (ch_at ch) s)) as Hml by (unfold mask, mask_of; by rewrite length_map).
  set (limits := replicate (S (length (remaining mask c s).2)) limit).
  assert (Forall limit_ok limits) as Hlims by (by apply Forall_replicate).
  destruct (pulls_spec (cm_from_values mask) mask limits c s (from_values_masks mask)
    (draining_new jt _ _ _ _ 0 mask s id Hs Hid Hne Hml) Hlims) as (fin & chunks & c' & s1 & Hpull & Hfin & _).
  destruct fin.
  - destruct Hfin as (_ & Hrem & _). destruct (run_step n bags s ch 0 s1 (concat chunks) Hi ltac:(lia) Hl Hrem) as (Hi1 & _).
    destruct (IH (n + 1) _ s1 Hi1 Hrest ltac:(lia)) as (s2 & outs & Hrun). exists s2, (concat chunks ++ outs).
    eapply run_change; [apply (from_values_masks mask)|exact Hlims|exact Hpull|exact Hrun].
  - exfalso. destruct Hfin as (Hlen2 & Hall & _ & Hrem). unfold limits in Hlen2. rewrite length_replicate, Hrem in Hlen2. cbn [snd] in Hlen2.
    rewrite length_app in Hlen2. pose proof (nonempty_chunks chunks Hall). lia.
Qed.

Lemma empty_run_inv : run_inv 0 ([], []) empty_join.
Proof. split; [|done|done|done|by exists 0, 0]. intros side [-> | ->] _; constructor. Qed.

Lemma viewed_bags k L R s :
  rows_of (left_rows s) ≡ₚ L -> rows_of (right_rows s) ≡ₚ R -> mult k (viewed theta jt s) = mult k (view theta jt L R).
Proof.
  intros Hl Hr. pose proof (side_view_perm theta k jt 0 (or_introl eq_refl) _ _ Hl (rows_of (right_rows s)) _ eq_refl) as H0.
  pose proof (side_view_perm theta k jt 1 (or_intror eq_refl) _ _ Hr L _ eq_refl) as H1.
  unfold side_view in H0, H1. cbn [Z.eqb] in H0, H1. unfold viewed. etransitivity; [exact H0|exact H1].
Qed.
End runs.

(** C19: Start from empty state and feed any interleaving of insertions,
    updates and retractions to both inputs, where a retraction always names a row
    present on its side, fewer than 2^31 - 1 changes in all. Every change can be
    drained with any output limit from two rows on, and however the changelog was
    cut into chunks, its net effect is the relational join of the two input bags:
    inner, left, right and full outer, semi and anti join alike. At no point has
    the changelog retracted a row more often than it had inserted it. *)
Theorem join_run_is_the_join theta jt chs limit :
  legal chs ([], []) -> len chs < 2 ^ 31 - 1 -> limit_ok limit ->
  (exists s outs, join_run theta jt empty_join chs s outs) /\
  forall s outs, join_run theta jt empty_join chs s outs ->
    let '(L, R) := fold_left (fun b ch => bag_step ch b) chs ([], []) in
    (forall k, net k outs = mult k (view theta jt L R)) /\
    (forall k p, p `prefix_of` outs -> 0 <= net k p) /\
    rows_of (left_rows s) ≡ₚ L /\ rows_of (right_rows s) ≡ₚ R.
Proof.
  intros Hlegal Hn Hlim. split; [apply (run_exists theta jt limit 0 ([], [])); [done|apply empty_run_inv|done|lia]|].
  intros s outs Hrun.
  destruct (run_maintains theta jt 0 ([], []) empty_join chs s outs (empty_run_inv theta jt) Hlegal ltac:(lia) Hrun) as (Hi & Hm & Hp).
  destruct (fold_left _ chs _) as [L R]. destruct Hi as [_ Hl Hr _ _]. cbn [fst snd] in Hl, Hr.
  assert (forall k, mult k (viewed theta jt empty_join) = 0) as H0 by (intros k; by destruct jt).
  split_and!; [| |done|done].
  - intros k. specialize (Hm k). rewrite H0 in Hm. rewrite <- (viewed_bags theta jt k L R s Hl Hr). lia.
  - intros k p Hpre. specialize (Hp k p Hpre). rewrite H0 in Hp. lia.
Qed.
