(* ===== verification/JoinCodec.v ===== *)
(** * Persistent form of the join state: [regular_join/state_codec.rs],
    [paged_codec.rs] and its parts

    The one-value format (SFRJ), the paged formats with a manifest (SFJM), inline
    pages for small keys (SFJC) and presence bitmaps for single rows (SFJI), and
    the directories [EntryIds]. A [Reader] is the bounded cursor of [Bytes]. *)

From Stdlib Require Import ZArith Lia Strings.Byte.
From stdpp Require Import base list option numbers strings.
From S2P Require Import Prelude Bytes OrdMap RegularJoin.

(** ** [state_codec.rs] *)

Definition STATE_MAGIC : bytes := [x53; x46; x52; x4a].
Definition LEGACY_STATE_VERSION : byte := x01.
Definition STATE_VERSION : byte := x02.

Definition truncated : error := Execution "truncated native regular join state".
Definition encode_matchable (v : option bool) : byte :=
  match v with None => x00 | Some false => x01 | Some true => x02 end.
Definition decode_matchable_with (e : error) (b : byte) : outcome (option bool) :=
  match b with x00 => Ok None | x01 => Ok (Some false) | x02 => Ok (Some true) | _ => Err e end.
Definition decode_matchable : byte -> outcome (option bool) :=
  decode_matchable_with (Execution "invalid bounded regular join matchability byte").

Definition encode_state_row (r : StoredRow) : bytes :=
  i32_le (associations r) ++ u32_le (len (sr_row r)) ++ sr_row r.
Definition encode_state_rows (rows : list StoredRow) : bytes :=
  u32_le (len rows) ++ concat (map encode_state_row rows).
Definition encode_state (s : JoinState) : bytes :=
  STATE_MAGIC ++ [STATE_VERSION] ++ [encode_matchable (left_matchable s)] ++ [encode_matchable (right_matchable s)] ++
  encode_state_rows (left_rows s) ++ encode_state_rows (right_rows s).

Definition st_read (n : Z) : M input bytes := read_exact_with truncated truncated n.
Definition st_read_u32 : M input Z := v ← st_read 4; mret (of_le v).
Definition st_read_i32 : M input Z := v ← st_read 4; mret (i32_of_le v).
Definition read_row : M input (Z * bytes) :=
  associations ← st_read_i32;
  length ← st_read_u32;
  row ← st_read length;
  mret (associations, row).

(** A validated slice of rows. *)
Record RowsView : Type := { rv_bytes : bytes; rv_count : Z }.

Fixpoint read_rows (count : nat) : M input unit :=
  match count with O => mret tt | S count => _ ← read_row; read_rows count end.
Definition rows_parse : M input RowsView :=
  count ← st_read_u32;
  i ← getS;
  _ ← when (sat_sub (len (ibytes i)) (ioff i) / 8 <? count) truncated;
  _ ← read_rows (Z.to_nat count);
  j ← getS;
  match slice_get (ibytes j) (ioff i) (ioff j) with
  | Some bs => mret {| rv_bytes := bs; rv_count := count |}
  | None => panic
  end.

(** [iter]: reading a row again must succeed ([expect]). *)
Fixpoint rows_iter (id : Z) (count : nat) (i : input) : outcome (list StoredRow) :=
  match count with
  | O => Ok []
  | S count =>
      match read_row i with
      | (Ok (associations, row), i) =>
          rest ← rows_iter (id + 1) count i;
          Ok ({| sr_id := id; sr_row := row; associations := associations |} :: rest)
      | _ => Panic
      end
  end.
Definition rows_to_owned (v : RowsView) : outcome (list StoredRow) :=
  rows_iter 0 (Z.to_nat (rv_count v)) {| ibytes := rv_bytes v; ioff := 0 |}.

Record StateView : Type := { sv_matchable : option bool * option bool; sv_left : RowsView; sv_right : RowsView }.

(** [bytes[i]] of a slice that is long enough. *)
Definition byte_at (bs : bytes) (i : nat) : outcome byte :=
  match bs !! i with Some b => Ok b | None => Panic end.

Definition state_parse (bs : bytes) : outcome StateView :=
  _ ← guard_ok (13 <=? len bs) (Execution "invalid native regular join state");
  version ← byte_at bs 4;
  _ ← guard_ok (bool_decide (take 4 bs = STATE_MAGIC) &&
                (bool_decide (version = LEGACY_STATE_VERSION) || bool_decide (version = STATE_VERSION)))
        (Execution "invalid native regular join state");
  '(matchable, offset) ←
    (if bool_decide (version = STATE_VERSION) then
       _ ← guard_ok (15 <=? len bs) truncated;
       b5 ← byte_at bs 5; b6 ← byte_at bs 6;
       l ← decode_matchable b5; r ← decode_matchable b6;
       Ok ((l, r), 7)
     else Ok ((None, None), 5));
  fst ((left ← rows_parse;
        right ← rows_parse;
        i ← getS;
        _ ← when (negb (ioff i =? len (ibytes i))) (Execution "regular join state has trailing bytes");
        mret {| sv_matchable := matchable; sv_left := left; sv_right := right |})
       {| ibytes := bs; ioff := offset |}).

Definition view_to_owned (v : StateView) : outcome JoinState :=
  left ← rows_to_owned (sv_left v);
  right ← rows_to_owned (sv_right v);
  Ok {| next_row_id := [len left; len right]; left_rows := left; right_rows := right;
        left_matchable := (sv_matchable v).1; right_matchable := (sv_matchable v).2 |}.
Definition decode_state (bs : bytes) : outcome JoinState := v ← state_parse bs; view_to_owned v.

(** ** [entry_ids.rs] *)

Definition PAGE_ROWS : Z := 64.

(** Ids are explicit or packed as one bitmap per 64 ids. *)
Record EntryIds : Type := { explicit : list Z; bitmaps : list (Z * Z); id_count : Z }.

(** [slice::chunk_by] with equal pages. *)
Fixpoint chunk_by {A} (page : A -> Z) (l : list A) : list (list A) :=
  match l with
  | [] => []
  | x :: l =>
      match chunk_by page l with
      | (y :: c) :: cs => if page x =? page y then (x :: y :: c) :: cs else [x] :: (y :: c) :: cs
      | cs => [x] :: cs
      end
  end.
Definition bit (id : Z) : Z := Z.shiftl 1 (id mod PAGE_ROWS).
(** The page and the presence bits of a chunk. *)
Definition bitmap_of (ids : list Z) : Z * Z :=
  (match ids with id :: _ => id / PAGE_ROWS | [] => 0 end, fold_left (fun bits id => Z.lor bits (bit id)) ids 0).

Definition trailing_zeros (bits : Z) : Z :=
  match bits with Zpos p => (fix tz (p : positive) : Z := match p with xO p => 1 + tz p | _ => 0 end) p | _ => 64 end.
Fixpoint pos_ones (p : positive) : Z :=
  match p with xH => 1 | xO p => pos_ones p | xI p => 1 + pos_ones p end.
Definition count_ones (bits : Z) : Z := match bits with Zpos p => pos_ones p | _ => 0 end.

(** The iterator [BitmapBits]; a bitmap has at most 64 bits. *)
Fixpoint expand_fuel (fuel : nat) (page bits : Z) : list Z :=
  match fuel with
  | O => []
  | S fuel =>
      if bits =? 0 then []
      else page * PAGE_ROWS + trailing_zeros bits :: expand_fuel fuel page (Z.land bits (bits - 1))
  end.
Definition expand (b : Z * Z) : list Z := expand_fuel 64 b.1 b.2.

Definition ids_explicit (ids : list Z) : EntryIds := {| explicit := ids; bitmaps := []; id_count := len ids |}.
Definition ids_from_bitmaps (pages : list (Z * Z)) : EntryIds :=
  {| explicit := []; bitmaps := pages; id_count := zsum (fun b => count_ones b.2) pages |}.
Definition ids_iter (e : EntryIds) : list Z := explicit e ++ concat (map expand (bitmaps e)).
Definition ids_bitmaps (e : EntryIds) : list (Z * Z) :=
  filter (fun b => b.2 <> 0) (bitmaps e) ++ map bitmap_of (chunk_by (fun id => id / PAGE_ROWS) (explicit e)).
Definition bitmap_count (e : EntryIds) : Z :=
  len (filter (fun b : Z * Z => b.2 <> 0) (bitmaps e)) + len (chunk_by (fun id => id / PAGE_ROWS) (explicit e)).

(** [binary_search] on a slice sorted without duplicates. *)
Fixpoint search {A} (key : A -> Z) (x : Z) (l : list A) : option nat :=
  match l with
  | [] => None
  | y :: l => if key y =? x then Some O else S <$> search key x l
  end.
Definition ids_contains (e : EntryIds) (id : Z) : bool :=
  match search (fun x => x) id (explicit e) with
  | Some _ => true
  | None =>
      match search fst (id / PAGE_ROWS) (bitmaps e) ≫= (fun i => bitmaps e !! i) with
      | Some (_, bits) => negb (Z.land bits (bit id) =? 0)
      | None => false
      end
  end.

(** [!mask] on 64 bits. *)
Definition not64 (z : Z) : Z := U64_MAX - z.
Definition ids_remove (e : EntryIds) (id : Z) : bool * EntryIds :=
  match search (fun x => x) id (explicit e) with
  | Some i =>
      (true, {| explicit := delete i (explicit e); bitmaps := bitmaps e; id_count := id_count e - 1 |})
  | None =>
      match search fst (id / PAGE_ROWS) (bitmaps e) with
      | Some i =>
          match bitmaps e !! i with
          | Some (page, bits) =>
              if negb (Z.land bits (bit id) =? 0)
              then (true, {| explicit := explicit e;
                             bitmaps := <[i := (page, Z.land bits (not64 (bit id)))]> (bitmaps e);
                             id_count := id_count e - 1 |})
              else (false, e)
          | None => (false, e)
          end
      | None => (false, e)
      end
  end.

(** Appending the next id of an ordered directory; the assertions panic. *)
Definition ids_append (id : Z) (e : EntryIds) : outcome EntryIds :=
  let page := id / PAGE_ROWS in
  match last (bitmaps e) with
  | Some (previous, bits) =>
      if previous =? page then
        if Z.land bits (bit id) =? 0
        then Ok {| explicit := explicit e; bitmaps := <[pred (length (bitmaps e)) := (previous, Z.lor bits (bit id))]> (bitmaps e);
                   id_count := id_count e + 1 |}
        else Panic
      else if previous <? page
        then Ok {| explicit := explicit e; bitmaps := bitmaps e ++ [(page, bit id)]; id_count := id_count e + 1 |}
        else Panic
  | None => Ok {| explicit := explicit e; bitmaps := bitmaps e ++ [(page, bit id)]; id_count := id_count e + 1 |}
  end.

(** The merge of [removed_from]: the pages of the original against the current
    ones, which are skipped in step. *)
Fixpoint skip_before (page : Z) (current : list (Z * Z)) : list (Z * Z) :=
  match current with
  | (next, bits) :: rest => if next <? page then skip_before page rest else current
  | [] => []
  end.
Fixpoint removed_bits (original current : list (Z * Z)) : list Z :=
  match original with
  | [] => []
  | (page, bits) :: original =>
      let current := skip_before page current in
      match current with
      | (next, kept) :: rest =>
          if next =? page then expand (page, Z.land bits (not64 kept)) ++ removed_bits original rest
          else expand (page, bits) ++ removed_bits original current
      | [] => expand (page, bits) ++ removed_bits original []
      end
  end.
Definition removed_from (current original : EntryIds) : list Z :=
  if id_count current =? id_count original then [] else removed_bits (ids_bitmaps original) (ids_bitmaps current).
