(* ===== verification/JoinPages.v ===== *)
(** * Paged join state: [regular_join/paged_codec.rs], [compact.rs], [row_entries.rs]

    Keys of the backend entries, pages of up to 64 rows, and the three kinds of
    manifest. *)

From Stdlib Require Import ZArith Lia Strings.Byte.
From stdpp Require Import base list option numbers strings.
From S2P Require Import Prelude Bytes OrdMap RegularJoin JoinCodec.

Inductive Layout : Type := Compact | Pages | Rows.
#[global] Instance layout_eq : EqDecision Layout.
Proof. solve_decision. Defined.

Definition MANIFEST_MAGIC : bytes := [x53; x46; x4a; x4d; x01].
Definition PAGE_MAGIC : bytes := [x53; x46; x4a; x50; x01].
Definition COMPACT_MAGIC : bytes := [x53; x46; x4a; x43; x01].
Definition ROWS_MAGIC : bytes := [x53; x46; x4a; x49; x01].
Definition MAX_BYTES : Z := 8 * 1024.

Record Manifest : Type := {
  m_layout : Layout;
  m_next_row_id : Z * Z;
  m_matchable : option bool * option bool;
  m_pages : EntryIds * EntryIds;
  m_inline : option (list StoredRow * list StoredRow);
}.

Definition invalid : error := Execution "invalid paged regular join state".

(** ** Keys

    The bytes of the keys; the key group is copied. *)

Definition manifest_key (key : bytes) : bytes := x00 :: key.
Definition page_key (key : bytes) (side page : Z) : bytes :=
  x01 :: to_le 8 (len key) ++ key ++ [z2b side] ++ to_le 8 page.
Definition row_key (key : bytes) (side id : Z) : bytes :=
  x02 :: to_be 8 (len key) ++ key ++ [z2b side] ++ to_be 8 id.
Definition entry_key (key : bytes) (side id : Z) (layout : Layout) : bytes :=
  match layout with Rows => row_key key side id | _ => page_key key side id end.

(** ** The reader *)

(** [Reader::new] over a slice with a magic prefix. *)
Definition reader_new (bs magic : bytes) : outcome input :=
  if starts_with bs magic then Ok {| ibytes := bs; ioff := len magic |} else Err invalid.
Definition r_take (n : Z) : M input bytes := read_exact_with invalid invalid n.
Definition r_u64 : M input Z := v ← r_take 8; mret (of_le v).
Definition r_u32 : M input Z := v ← r_take 4; mret (of_le v).
Definition r_remaining : M input Z := gets (fun i => len (ibytes i) - ioff i).
Definition r_finish : M input unit := n ← r_remaining; when (negb (n =? 0)) invalid.
Definition r_matchable : M input (option bool) :=
  v ← r_take 1;
  match v with b :: _ => lift (decode_matchable_with invalid b) | [] => panic end.

(** Run a reader over a slice with a magic prefix. *)
Definition read_with {A} (bs magic : bytes) (p : M input A) : outcome A :=
  i ← reader_new bs magic; fst (p i).

(** ** Pages *)

Definition page_of (r : StoredRow) : Z := sr_id r / PAGE_ROWS.
Definition pages (rows : list StoredRow) : list (Z * list StoredRow) :=
  map (fun c => (match c with r :: _ => page_of r | [] => 0 end, c)) (chunk_by page_of rows).

Definition append_row (id associations : Z) (row : bytes) : bytes :=
  to_le 8 id ++ i32_le associations ++ u32_le (len row) ++ row.
Definition append_page (rows : list StoredRow) : bytes :=
  PAGE_MAGIC ++ u32_le (len rows) ++ concat (map (fun r => append_row (sr_id r) (associations r) (sr_row r)) rows).
Definition encode_page (rows : list StoredRow) : outcome bytes :=
  if (len rows =? 0) || (PAGE_ROWS <? len rows) || existsb (fun r => U32_MAX <? len (sr_row r)) rows
  then Err invalid else Ok (append_page rows).
Definition encode_row (id associations : Z) (row : bytes) : outcome bytes :=
  if U32_MAX <? len row then Err invalid
  else Ok (PAGE_MAGIC ++ u32_le 1 ++ append_row id associations row).

(** The rows of a page, [last] being the id before. *)
Fixpoint decode_rows (page next_id : Z) (last : option Z) (count : nat) : M input (list StoredRow) :=
  match count with
  | O => mret []
  | S count =>
      id ← r_u64;
      _ ← when (negb (id / PAGE_ROWS =? page) || (next_id <=? id) ||
                match last with Some l => id <=? l | None => false end) invalid;
      associations ← r_u32;
      length ← r_u32;
      row ← r_take length;
      rest ← decode_rows page next_id (Some id) count;
      mret ({| sr_id := id; sr_row := row; associations := wraps 32 associations |} :: rest)
  end.
Definition decode_page (bs : bytes) (page next_id : Z) : outcome (list StoredRow) :=
  read_with bs PAGE_MAGIC
    (count ← r_u32;
     remaining ← r_remaining;
     _ ← when ((count =? 0) || (PAGE_ROWS <? count) || (remaining / 16 <? count)) invalid;
     rows ← decode_rows page next_id None (Z.to_nat count);
     _ ← r_finish;
     mret rows).
Definition decode_workspace (bs : bytes) : outcome Z :=
  read_with bs PAGE_MAGIC
    (count ← r_u32;
     remaining ← r_remaining;
     _ ← when ((count =? 0) || (PAGE_ROWS <? count) || (remaining / 16 <? count)) invalid;
     mret (sat_add (sat_mul (len bs) 2) (sat_mul count 128))).

Definition decode_entry (bs : bytes) (id next : Z) (layout : Layout) : outcome (list StoredRow) :=
  rows ← decode_page bs (if bool_decide (layout = Rows) then id / PAGE_ROWS else id) next;
  _ ← guard_ok (negb (bool_decide (layout = Rows) &&
        (negb (len rows =? 1) || negb (match rows with r :: _ => sr_id r =? id | [] => false end)))) invalid;
  Ok rows.

(** ** The paged manifest *)

Definition next_ids (s : JoinState) : Z * Z :=
  match next_row_id s with [a; b] => (a, b) | _ => (0, 0) end.
Definition manifest_body (matchable : option bool * option bool) (next : Z * Z) : bytes :=
  [encode_matchable matchable.1] ++ [encode_matchable matchable.2] ++ to_le 8 next.1 ++ to_le 8 next.2.
Definition encode_page_list (rows : list StoredRow) : bytes :=
  to_le 8 (len (pages rows)) ++ concat (map (fun p => to_le 8 p.1) (pages rows)).
Definition encode_manifest_with (magic : bytes) (s : JoinState) : bytes :=
  magic ++ manifest_body (left_matchable s, right_matchable s) (next_ids s) ++
  encode_page_list (left_rows s) ++ encode_page_list (right_rows s).
Definition encode_manifest (s : JoinState) : bytes := encode_manifest_with MANIFEST_MAGIC s.

Fixpoint read_pages (next : Z) (last : option Z) (count : nat) : M input (list Z) :=
  match count with
  | O => mret []
  | S count =>
      page ← r_u64;
      _ ← when ((U64_MAX / PAGE_ROWS <? page) || (next <=? page * PAGE_ROWS) ||
                match last with Some previous => page <=? previous | None => false end) invalid;
      rest ← read_pages next (Some page) count;
      mret (page :: rest)
  end.
Definition read_page_list (next : Z) : M input (list Z) :=
  count ← r_u64;
  remaining ← r_remaining;
  _ ← when (remaining / 8 <? count) invalid;
  read_pages next None (Z.to_nat count).
Definition read_manifest : M input Manifest :=
  l ← r_matchable;
  r ← r_matchable;
  a ← r_u64;
  b ← r_u64;
  left ← read_page_list a;
  right ← read_page_list b;
  mret {| m_layout := Pages; m_next_row_id := (a, b); m_matchable := (l, r);
          m_pages := (ids_explicit left, ids_explicit right); m_inline := None |}.

(** ** [compact.rs] *)

Definition is_compact (bs : bytes) : bool := starts_with bs COMPACT_MAGIC.

Definition page_size (rows : list StoredRow) : Z := 9 + zsum (fun r => 16 + len (sr_row r)) rows.
Definition encoded_size (s : JoinState) : option Z :=
  if PAGE_ROWS <? len (left_rows s) + len (right_rows s) then None
  else
    let add_rows n rows := fold_left (fun n p =>
      fold_left (fun n r => sat_add (sat_add n 16) (len (sr_row r))) p.2 (sat_add n 21)) (pages rows) n in
    let n := add_rows (add_rows 39 (left_rows s)) (right_rows s) in
    if n <=? MAX_BYTES then Some n else None.
Definition eligible (s : JoinState) : bool := bool_decide (is_Some (encoded_size s)).

Definition encode_inline (rows : list StoredRow) : bytes :=
  concat (map (fun p => u32_le (page_size p.2) ++ append_page p.2) (pages rows)).
(** The magic of the manifest is overwritten in place; both have five bytes. The
    reservation of the rest panics when the size is below the manifest's. *)
Definition encode_compact (s : JoinState) : outcome bytes :=
  match encoded_size s with
  | None => Err invalid
  | Some size =>
      let manifest := encode_manifest_with COMPACT_MAGIC s in
      if size <? len manifest then Panic
      else Ok (manifest ++ encode_inline (left_rows s) ++ encode_inline (right_rows s))
  end.

(** The inline pages of one side; the count of rows runs over both. *)
Fixpoint read_inline (next count : Z) (page_ids : list Z) : M input (list StoredRow * Z) :=
  match page_ids with
  | [] => mret ([], count)
  | page :: page_ids =>
      length ← r_u32;
      bs ← r_take length;
      decoded ← lift (decode_page bs page next);
      let count := count + len decoded in
      _ ← when (PAGE_ROWS <? count) invalid;
      '(rest, count) ← read_inline next count page_ids;
      mret (decoded ++ rest, count)
  end.
Definition decode_compact (bs : bytes) : outcome Manifest :=
  _ ← guard_ok (len bs <=? MAX_BYTES) invalid;
  read_with bs COMPACT_MAGIC
    (manifest ← read_manifest;
     '(lefts, count) ← read_inline (m_next_row_id manifest).1 0 (ids_iter (m_pages manifest).1);
     '(rights, count) ← read_inline (m_next_row_id manifest).2 count (ids_iter (m_pages manifest).2);
     _ ← r_finish;
     mret {| m_layout := Compact; m_next_row_id := m_next_row_id manifest; m_matchable := m_matchable manifest;
             m_pages := m_pages manifest; m_inline := Some (lefts, rights) |}).

Fixpoint add_workspace (workspace : Z) (count : nat) : M input Z :=
  match count with
  | O => mret workspace
  | S count =>
      length ← r_u32;
      bs ← r_take length;
      n ← lift (decode_workspace bs);
      add_workspace (sat_add workspace n) count
  end.
Definition count_pages : M input Z :=
  count ← r_u64;
  _ ← when (PAGE_ROWS <? count) invalid;
  _ ← r_take (count * 8);
  mret count.
Definition compact_workspace (bs : bytes) : outcome Z :=
  _ ← guard_ok (len bs <=? MAX_BYTES) invalid;
  read_with bs COMPACT_MAGIC
    (_ ← r_take 18;
     a ← count_pages;
     b ← count_pages;
     _ ← when (PAGE_ROWS <? a + b) invalid;
     workspace ← add_workspace 256 (Z.to_nat (a + b));
     _ ← r_finish;
     mret workspace).

(** ** [row_entries.rs] *)

Definition is_rows_manifest (bs : bytes) : bool := starts_with bs ROWS_MAGIC.
Definition rows_header (matchable : option bool * option bool) (next : Z * Z) : bytes :=
  ROWS_MAGIC ++ manifest_body matchable next.

(** Consecutive bitmaps of one page are merged. *)
Fixpoint merge_bitmaps (pending : option (Z * Z)) (l : list (Z * Z)) : list (Z * Z) :=
  match l with
  | [] => match pending with Some p => [p] | None => [] end
  | (page, page_bits) :: l =>
      match pending with
      | Some (previous, bits) =>
          if previous =? page then merge_bitmaps (Some (page, Z.lor bits page_bits)) l
          else (previous, bits) :: merge_bitmaps (Some (page, page_bits)) l
      | None => merge_bitmaps (Some (page, page_bits)) l
      end
  end.
Definition encode_bitmap (b : Z * Z) : bytes := to_le 8 b.1 ++ to_le 8 b.2.
(** The count is written first and patched at the end. *)
Definition append_bitmaps (l : list (Z * Z)) : bytes :=
  to_le 8 (len (merge_bitmaps None l)) ++ concat (map encode_bitmap (merge_bitmaps None l)).

Definition row_bitmaps (rows : list StoredRow) : list (Z * Z) :=
  map (fun c => bitmap_of (map sr_id c)) (chunk_by page_of rows).
Definition unloaded_bitmaps (e : option EntryIds) : list (Z * Z) :=
  match e with Some e => ids_bitmaps e | None => [] end.
Definition encode_with_unloaded (s : JoinState) (unloaded : option (EntryIds * EntryIds)) : bytes :=
  rows_header (left_matchable s, right_matchable s) (next_ids s) ++
  append_bitmaps (unloaded_bitmaps (fst <$> unloaded) ++ row_bitmaps (left_rows s)) ++
  append_bitmaps (unloaded_bitmaps (snd <$> unloaded) ++ row_bitmaps (right_rows s)).
Definition encode_rows_manifest (s : JoinState) : bytes := encode_with_unloaded s None.

Definition dense_bitmaps (count : Z) : list (Z * Z) :=
  map (fun page => let rows := Z.min (count - page * PAGE_ROWS) PAGE_ROWS in
         (page, if rows =? 64 then U64_MAX else Z.shiftl 1 rows - 1))
    (map Z.of_nat (seq 0 (Z.to_nat ((count + PAGE_ROWS - 1) / PAGE_ROWS)))).
Definition encode_dense (matchable : option bool * option bool) (counts : Z * Z) : bytes :=
  rows_header matchable counts ++ append_bitmaps (dense_bitmaps counts.1) ++ append_bitmaps (dense_bitmaps counts.2).

(** [63 - leading_zeros()] of a nonzero bitmap. *)
Definition highest_bit (bits : Z) : Z := Z.log2 bits.

(** The bitmaps of one side, with the running number of rows; the visitor gets
    the ids page by page. *)
Fixpoint scan_side {S} (visit : Z -> Z -> Z -> M S unit) (next : Z) (previous : option Z) (total : Z) (count : nat)
  : M (input * S) Z :=
  match count with
  | O => mret total
  | Datatypes.S count => fun '(i, st) =>
      match (page ← r_u64;
             bits ← r_u64;
             _ ← when ((U64_MAX / PAGE_ROWS <? page) || (bits =? 0) ||
                       match previous with Some p => page <=? p | None => false end) invalid;
             _ ← when (next <=? page * PAGE_ROWS + highest_bit bits) invalid;
             total ← lift (ok_or invalid (checked_add total (count_ones bits)));
             mret (page, bits, total)) i
      with
      | (Ok (page, bits, total), i) =>
          match visit page bits next st with
          | (Ok _, st) => scan_side visit next (Some page) total count (i, st)
          | (Err e, st) => (Err e, (i, st))
          | (Panic, st) => (Panic, (i, st))
          end
      | (Err e, i) => (Err e, (i, st))
      | (Panic, i) => (Panic, (i, st))
      end
  end.
Definition on_input {S A} (p : M input A) : M (input * S) A := fun '(i, st) => let '(o, i) := p i in (o, (i, st)).

Definition scan_bitmaps {S} (visit : Z -> Z -> Z -> Z -> M S unit) (bs : bytes)
  : M S ((option bool * option bool) * (Z * Z) * Z) := fun st =>
  match reader_new bs ROWS_MAGIC with
  | Err e => (Err e, st)
  | Panic => (Panic, st)
  | Ok i =>
      let side_scan n next total :=
        count ← on_input r_u64;
        remaining ← on_input r_remaining;
        _ ← on_input (when (remaining / 16 <? count) invalid);
        scan_side (visit n) next None total (Z.to_nat count) in
      let '(o, (_, st)) :=
        (l ← on_input r_matchable;
         r ← on_input r_matchable;
         a ← on_input r_u64;
         b ← on_input r_u64;
         total ← side_scan 0 a 0;
         total ← side_scan 1 b total;
         _ ← on_input r_finish;
         mret ((l, r), (a, b), total)) (i, st) in
      (o, st)
  end.

(** [scan]: every referenced row. *)
Definition scan_rows {S} (row : Z -> Z -> Z -> M S unit) (bs : bytes)
  : M S ((option bool * option bool) * (Z * Z) * Z) :=
  scan_bitmaps (fun side page bits next => forM (expand (page, bits)) (fun id => row side id next)) bs.

Definition rows_workspace (bs : bytes) : outcome Z :=
  _ ← fst (scan_bitmaps (S := unit) (fun _ _ _ _ => mret tt) bs tt);
  Ok (sat_add (sat_mul (len bs) 4) 512).

Definition push_bitmap (side page bits next : Z) : M (list (Z * Z) * list (Z * Z)) unit := fun '(l, r) =>
  (Ok tt, if side =? 0 then (l ++ [(page, bits)], r) else (l, r ++ [(page, bits)])).
Definition decode_rows_manifest (bs : bytes) : outcome Manifest :=
  _ ← fst (scan_bitmaps (S := unit) (fun _ _ _ _ => mret tt) bs tt);
  let '(o, (l, r)) := scan_bitmaps push_bitmap bs ([], []) in
  '(matchable, next, _) ← o;
  Ok {| m_layout := Rows; m_next_row_id := next; m_matchable := matchable;
        m_pages := (ids_from_bitmaps l, ids_from_bitmaps r); m_inline := None |}.

(** ** Dispatch on the magic *)

Definition decode_manifest (bs : bytes) : outcome Manifest :=
  if is_rows_manifest bs then decode_rows_manifest bs
  else if is_compact bs then decode_compact bs
  else read_with bs MANIFEST_MAGIC (manifest ← read_manifest; _ ← r_finish; mret manifest).
Definition is_manifest (bs : bytes) : bool :=
  starts_with bs MANIFEST_MAGIC || is_compact bs || is_rows_manifest bs.
Definition manifest_workspace (bs : bytes) : outcome Z :=
  if is_rows_manifest bs then rows_workspace bs
  else if is_compact bs then compact_workspace bs
  else Ok (sat_mul (len bs) 8).
