(* ===== verification/JoinCodecSpec.v ===== *)
(** * Round trips of the one-value join state *)

From Stdlib Require Import ZArith Lia Strings.Byte.
From stdpp Require Import base list option numbers strings.
From S2P Require Import Prelude Bytes OrdMap RegularJoin JoinCodec.

(** ** Rows *)

Definition row_ok (r : StoredRow) : Prop := is_i32 (associations r) /\ len (sr_row r) <= U32_MAX.

Lemma reads_st_u32 z : is_u32 z -> reads st_read_u32 (u32_le z) z.
Proof.
  intros Hz. unfold st_read_u32. eapply reads_bind_ret; [apply reads_exact; unfold len; by rewrite u32_le_length|].
  intros i. by rewrite of_u32_le.
Qed.
Lemma reads_st_i32 z : is_i32 z -> reads st_read_i32 (i32_le z) z.
Proof.
  intros Hz. unfold st_read_i32. eapply reads_bind_ret; [apply reads_exact; unfold len; by rewrite i32_le_length|].
  intros i. by rewrite i32_of_i32_le.
Qed.
Lemma reads_row r : row_ok r -> reads read_row (encode_state_row r) (associations r, sr_row r).
Proof.
  intros [Ha Hl]. unfold read_row, encode_state_row. eapply reads_bind; [by apply reads_st_i32|].
  eapply reads_bind; [apply reads_st_u32; split; [apply len_nonneg|done]|].
  eapply reads_bind_ret; [by apply reads_exact|done].
Qed.
Lemma reads_rows rows : Forall row_ok rows -> reads (read_rows (length rows)) (concat (map encode_state_row rows)) tt.
Proof.
  induction 1 as [|r rows Hr Hrows IH]; cbn [length read_rows map concat]; [apply reads_ret|].
  eapply reads_bind; [by apply reads_row|done].
Qed.

Lemma state_row_size r : 8 <= len (encode_state_row r).
Proof. unfold encode_state_row. rewrite !len_app. unfold len. rewrite i32_le_length, u32_le_length. lia. Qed.
Lemma state_rows_size rows : 8 * len rows <= len (concat (map encode_state_row rows)).
Proof.
  induction rows as [|r rows IH]; [done|]. cbn [map concat]. rewrite len_app, len_cons. pose proof (state_row_size r). lia.
Qed.

Lemma slice_middle pre bs r : slice_get (pre ++ bs ++ r) (len pre) (len (pre ++ bs)) = Some bs.
Proof.
  unfold slice_get. rewrite !len_app. pose proof (len_nonneg bs). pose proof (len_nonneg r).
  rewrite !(proj2 (Z.leb_le _ _)) by lia. cbn [andb].
  replace (Z.to_nat (len pre + len bs - len pre)) with (length bs) by (unfold len; lia).
  by rewrite len_to_nat, drop_app_length, take_app_length.
Qed.

Definition rows_view (rows : list StoredRow) : RowsView :=
  {| rv_bytes := concat (map encode_state_row rows); rv_count := len rows |}.
Lemma reads_rows_parse rows :
  Forall row_ok rows -> len rows <= U32_MAX -> reads rows_parse (encode_state_rows rows) (rows_view rows).
Proof.
  intros Hrows Hn. unfold rows_parse, encode_state_rows.
  eapply reads_bind; [apply reads_st_u32; split; [apply len_nonneg|done]|].
  intros pre r Hok. set (bs := concat (map encode_state_row rows)) in *.
  rewrite (M_bind_run _ _ _ (cursor pre (bs ++ r)) (cursor pre (bs ++ r))) by done.
  rewrite (M_bind_run _ _ _ tt (cursor pre (bs ++ r))).
  2: { unfold when. rewrite cursor_left, len_app. rewrite (proj2 (Z.ltb_ge _ _)); [done|].
       apply Z.div_le_lower_bound; [lia|]. pose proof (state_rows_size rows). pose proof (len_nonneg r). fold bs in H. lia. }
  rewrite len_to_nat, (M_bind_run _ _ _ tt (cursor (pre ++ bs) r)) by by apply reads_rows.
  rewrite (M_bind_run _ _ _ (cursor (pre ++ bs) r) (cursor (pre ++ bs) r)) by done.
  cbn [ibytes ioff cursor]. by rewrite <- app_assoc, slice_middle.
Qed.

(** Rows numbered in order. *)
Fixpoint renumbered (id : Z) (rows : list StoredRow) : list StoredRow :=
  match rows with
  | [] => []
  | r :: rows => {| sr_id := id; sr_row := sr_row r; associations := associations r |} :: renumbered (id + 1) rows
  end.
Lemma renumbered_length id rows : len (renumbered id rows) = len rows.
Proof. revert id. induction rows as [|r rows IH]; intros id; [done|]. cbn [renumbered]. by rewrite !len_cons, IH. Qed.

Lemma rows_iter_encoded rows id pre :
  Forall row_ok rows -> slice_ok (pre ++ concat (map encode_state_row rows)) ->
  rows_iter id (length rows) (cursor pre (concat (map encode_state_row rows))) = Ok (renumbered id rows).
Proof.
  intros Hrows. revert id pre. induction Hrows as [|r rows Hr Hrows IH]; intros id pre Hok; [done|].
  cbn [length rows_iter map concat renumbered] in *. rewrite (reads_row r Hr pre _ Hok).
  rewrite IH by (by rewrite <- app_assoc). done.
Qed.

(** ** States *)

Record state_ok (s : JoinState) : Prop := {
  so_left : Forall row_ok (left_rows s);
  so_right : Forall row_ok (right_rows s);
  so_counts : len (left_rows s) <= U32_MAX /\ len (right_rows s) <= U32_MAX;
  so_slice : slice_ok (encode_state s);
}.
Definition canonical_ids (s : JoinState) : JoinState :=
  {| next_row_id := [len (left_rows s); len (right_rows s)]; left_rows := renumbered 0 (left_rows s);
     right_rows := renumbered 0 (right_rows s); left_matchable := left_matchable s; right_matchable := right_matchable s |}.

Lemma decode_encode_matchable e v : decode_matchable_with e (encode_matchable v) = Ok v.
Proof. by destruct v as [[]|]. Qed.

Lemma state_parse_encoded s :
  state_ok s -> state_parse (encode_state s) =
    Ok {| sv_matchable := (left_matchable s, right_matchable s); sv_left := rows_view (left_rows s);
          sv_right := rows_view (right_rows s) |}.
Proof.
  intros [Hl Hr [Hnl Hnr] Hok]. unfold state_parse.
  assert (15 <= len (encode_state s)) as Hlen.
  { unfold encode_state, encode_state_rows. rewrite !len_app. unfold len. rewrite !u32_le_length. simpl. lia. }
  unfold guard_ok. rewrite (proj2 (Z.leb_le 13 _)) by lia. rewrite outcome_bind_run.
  change (byte_at (encode_state s) 4) with (Ok STATE_VERSION). rewrite outcome_bind_run.
  change (take 4 (encode_state s)) with STATE_MAGIC. rewrite !bool_decide_eq_true_2 by done. rewrite orb_true_r. cbn [andb].
  rewrite (proj2 (Z.leb_le 15 _)) by lia. rewrite !outcome_bind_run.
  change (byte_at (encode_state s) 5) with (Ok (encode_matchable (left_matchable s))).
  change (byte_at (encode_state s) 6) with (Ok (encode_matchable (right_matchable s))).
  rewrite !outcome_bind_run. unfold decode_matchable. rewrite !decode_encode_matchable, !outcome_bind_run.
  set (pre := STATE_MAGIC ++ [STATE_VERSION; encode_matchable (left_matchable s); encode_matchable (right_matchable s)]).
  change ({| ibytes := encode_state s; ioff := 7 |}) with (cursor pre (encode_state_rows (left_rows s) ++ encode_state_rows (right_rows s))).
  assert (reads_end (lefts ← rows_parse; rights ← rows_parse; i ← getS;
      _ ← when (negb (ioff i =? len (ibytes i))) (Execution "regular join state has trailing bytes");
      mret {| sv_matchable := (left_matchable s, right_matchable s); sv_left := lefts; sv_right := rights |})
    pre (encode_state_rows (left_rows s) ++ encode_state_rows (right_rows s))
    {| sv_matchable := (left_matchable s, right_matchable s); sv_left := rows_view (left_rows s);
       sv_right := rows_view (right_rows s) |}) as He.
  { eapply reads_end_bind; [by apply reads_rows_parse|].
    apply (reads_end_eq _ _ (encode_state_rows (right_rows s) ++ [])); [|by rewrite app_nil_r].
    eapply reads_end_bind; [by apply reads_rows_parse|]. apply reads_end_getS, reads_end_when; [apply cursor_not_end|apply reads_end_ret]. }
  by rewrite He.
Qed.

Lemma view_to_owned_encoded m rows_l rows_r :
  Forall row_ok rows_l -> Forall row_ok rows_r ->
  slice_ok (concat (map encode_state_row rows_l)) -> slice_ok (concat (map encode_state_row rows_r)) ->
  view_to_owned {| sv_matchable := m; sv_left := rows_view rows_l; sv_right := rows_view rows_r |} =
    Ok {| next_row_id := [len rows_l; len rows_r]; left_rows := renumbered 0 rows_l; right_rows := renumbered 0 rows_r;
          left_matchable := m.1; right_matchable := m.2 |}.
Proof.
  intros Hl Hr Hol Hor. unfold view_to_owned, rows_to_owned, rows_view. cbn [sv_left sv_right sv_matchable rv_bytes rv_count].
  rewrite !len_to_nat.
  assert (forall bs, {| ibytes := bs; ioff := 0 |} = cursor [] bs) as Hc by done. rewrite !Hc.
  rewrite !rows_iter_encoded by done. rewrite !outcome_bind_run. by rewrite !renumbered_length.
Qed.

(** *** The other direction *)

Lemma read_row_inv pre r a row i :
  read_row (cursor pre r) = (Ok (a, row), i) ->
  exists x r', row_ok x /\ associations x = a /\ sr_row x = row /\
    r = encode_state_row x ++ r' /\ i = cursor (pre ++ encode_state_row x) r'.
Proof.
  unfold read_row. intros Hr. inv_M. unfold st_read_i32, st_read_u32, st_read in *. inv_M.
  match goal with E : read_exact_with _ _ 4 (cursor pre r) = _ |- _ =>
    apply read_exact_cursor_inv in E as (r1 & -> & -> & Hl1); [|lia] end.
  match goal with E : read_exact_with _ _ 4 (cursor _ r1) = _ |- _ =>
    apply read_u32_cursor_inv in E as (r2 & -> & -> & Hu) end.
  match goal with E : read_exact_with _ _ (of_le _) (cursor _ r2) = _ |- _ =>
    apply read_exact_cursor_inv in E as (r3 & -> & -> & Hl3); [|by destruct Hu] end.
  match goal with |- context [i32_of_le ?v] => set (assoc := v) in * end.
  assert (length assoc = 4%nat) as H4 by (unfold len in Hl1; lia).
  exists {| sr_id := 0; sr_row := row; associations := i32_of_le assoc |}, r3.
  unfold encode_state_row. cbn [associations sr_row]. rewrite i32_le_of_le by done. rewrite Hl3, <- !app_assoc.
  split_and!; try done. split; cbn [associations sr_row]; [|rewrite Hl3; by destruct Hu].
  unfold i32_of_le. pose proof (wraps_range 32 (of_le assoc) ltac:(lia)). unfold is_i32, I32_MIN, I32_MAX. lia.
Qed.
Lemma read_rows_inv n pre r i :
  read_rows n (cursor pre r) = (Ok tt, i) ->
  exists rows r', length rows = n /\ Forall row_ok rows /\ r = concat (map encode_state_row rows) ++ r' /\
    i = cursor (pre ++ concat (map encode_state_row rows)) r'.
Proof.
  revert pre r. induction n as [|n IH]; intros pre r; cbn [read_rows].
  { intros [= <-]. exists [], r. cbn. by rewrite app_nil_r. }
  intros ([a row] & i1 & (x & r1 & Hx & _ & _ & -> & ->)%read_row_inv & Hr)%M_bind_Ok.
  destruct (IH _ _ Hr) as (rows & r2 & Hn & Hrows & -> & ->). exists (x :: rows), r2. cbn [length map concat].
  rewrite <- !app_assoc, Hn. split_and!; try done. by constructor.
Qed.
Lemma rows_parse_inv pre r v i :
  rows_parse (cursor pre r) = (Ok v, i) ->
  exists rows r', Forall row_ok rows /\ len rows <= U32_MAX /\ v = rows_view rows /\
    r = encode_state_rows rows ++ r' /\ i = cursor (pre ++ encode_state_rows rows) r'.
Proof.
  unfold rows_parse. intros Hr. inv_M. unfold st_read_u32, st_read, getS in *. inv_M. simplify_eq.
  match goal with E : read_exact_with _ _ 4 _ = _ |- _ => apply read_u32_cursor_inv in E as (r1 & -> & -> & Hu) end.
  match goal with E : read_rows _ _ = (Ok ?u, _) |- _ => destruct u; apply read_rows_inv in E as (rows & r2 & Hn & Hrows & -> & ->) end.
  match goal with |- context [u32_le ?z] => set (count := z) in * end.
  assert (len rows = count) as Hlen by (unfold len; rewrite Hn; destruct Hu; lia).
  cbn [ibytes ioff cursor] in Hr. rewrite <- app_assoc, slice_middle in Hr. unfold mret, M_ret in Hr. simplify_eq.
  exists rows, r2. unfold encode_state_rows, rows_view. rewrite Hlen, <- !app_assoc. split_and!; try done. by destruct Hu.
Qed.

Lemma safe_exact eo et n : safe (read_exact_with eo et n).
Proof. intros i. apply read_exact_no_panic. Qed.
#[local] Hint Resolve safe_exact : sf.
Lemma safe_st_u32 : safe st_read_u32.
Proof. unfold st_read_u32, st_read. eauto with sf. Qed.
Lemma safe_read_rows n : safe (read_rows n).
Proof.
  induction n as [|n IH]; cbn [read_rows]; [apply safe_ret|]. apply safe_bind; [|done].
  unfold read_row, st_read_i32, st_read_u32, st_read. eauto 10 with sf.
Qed.

Lemma rows_parse_no_panic pre r : fst (rows_parse (cursor pre r)) <> Panic.
Proof.
  unfold rows_parse. unfold mbind, M_bind. pose proof (safe_st_u32 (cursor pre r)) as Hs.
  destruct (st_read_u32 (cursor pre r)) as [[count|e|] i1] eqn:E1; [|done|done].
  unfold st_read_u32, st_read in E1. inv_M.
  match goal with E : read_exact_with _ _ 4 _ = _ |- _ => apply read_u32_cursor_inv in E as (r1 & -> & -> & Hu) end.
  unfold getS, when. destruct (_ <? _); [done|]. unfold mret, M_ret.
  match goal with |- context [read_rows ?n ?c] =>
    pose proof (safe_read_rows n c); destruct (read_rows n c) as [[[]|e|] j] eqn:E2 end; [|done|done].
  apply read_rows_inv in E2 as (rows & r2 & _ & _ & -> & ->). cbn [ibytes ioff cursor].
  by rewrite <- app_assoc, slice_middle.
Qed.

(** What an accepted value is made of. *)
Lemma state_parse_inv bs v :
  state_parse bs = Ok v ->
  exists m rows_l rows_r, v = {| sv_matchable := m; sv_left := rows_view rows_l; sv_right := rows_view rows_r |} /\
    Forall row_ok rows_l /\ Forall row_ok rows_r /\ len rows_l <= U32_MAX /\ len rows_r <= U32_MAX /\
    bs = STATE_MAGIC ++ (if bool_decide (bs !! 4%nat = Some STATE_VERSION)
                         then [STATE_VERSION; encode_matchable m.1; encode_matchable m.2] else [LEGACY_STATE_VERSION]) ++
      encode_state_rows rows_l ++ encode_state_rows rows_r.
Proof.
  unfold state_parse, guard_ok. destruct (Z.leb_spec 13 (len bs)) as [Hlen|]; [|done]. rewrite outcome_bind_run.
  destruct bs as [|a0 [|a1 [|a2 [|a3 [|a4 [|a5 [|a6 bs]]]]]]]; try (unfold len in Hlen; simpl in Hlen; lia).
  change (byte_at _ 4) with (Ok a4). rewrite outcome_bind_run. destruct (_ && _) eqn:Hm; [|done].
  apply andb_prop in Hm as [[= -> -> -> ->]%bool_decide_eq_true Hv]. rewrite outcome_bind_run.
  assert (forall m pre r,
    fst ((lefts ← rows_parse; rights ← rows_parse; i ← getS;
      _ ← when (negb (ioff i =? len (ibytes i))) (Execution "regular join state has trailing bytes");
      mret {| sv_matchable := m; sv_left := lefts; sv_right := rights |}) (cursor pre r)) = Ok v ->
    exists rows_l rows_r, v = {| sv_matchable := m; sv_left := rows_view rows_l; sv_right := rows_view rows_r |} /\
      Forall row_ok rows_l /\ Forall row_ok rows_r /\ len rows_l <= U32_MAX /\ len rows_r <= U32_MAX /\
      r = encode_state_rows rows_l ++ encode_state_rows rows_r) as Hrows.
  { intros m pre r Hr.
    destruct ((lefts ← rows_parse; _) (cursor pre r)) as [o i] eqn:E. cbn [fst] in Hr. subst o. inv_M.
    match goal with E : rows_parse (cursor pre r) = _ |- _ => apply rows_parse_inv in E as (rl & r1 & H1 & H2 & -> & -> & ->) end.
    match goal with E : rows_parse _ = _ |- _ => apply rows_parse_inv in E as (rr & r2 & H3 & H4 & -> & -> & ->) end.
    unfold getS in *. simplify_eq. match goal with E : negb _ = false |- _ => apply negb_false_iff, cursor_end in E as -> end.
    exists rl, rr. rewrite app_nil_r. by split_and!. }
  destruct (bool_decide_reflect (a4 = STATE_VERSION)) as [->|Hne].
  - destruct (Z.leb_spec 15 (len (x53 :: x46 :: x52 :: x4a :: STATE_VERSION :: a5 :: a6 :: bs))); [|done]. rewrite outcome_bind_run.
    change (byte_at _ 5) with (Ok a5). change (byte_at _ 6) with (Ok a6). rewrite !outcome_bind_run.
    destruct (decode_matchable a5) as [l| |] eqn:E5; [|done..]. destruct (decode_matchable a6) as [r| |] eqn:E6; [|done..].
    rewrite !outcome_bind_run. change ({| ibytes := _; ioff := 7 |}) with (cursor [x53; x46; x52; x4a; STATE_VERSION; a5; a6] bs).
    intros (rl & rr & -> & H1 & H2 & H3 & H4 & ->)%Hrows. exists (l, r), rl, rr. split_and!; try done.
    rewrite bool_decide_eq_true_2 by done. cbn [fst snd app STATE_MAGIC].
    assert (forall b m, decode_matchable b = Ok m -> encode_matchable m = b) as Hinv.
    { unfold decode_matchable, decode_matchable_with. intros b m. destruct b; try done; by intros [= <-]. }
    by rewrite (Hinv _ _ E5), (Hinv _ _ E6).
  - rewrite outcome_bind_run. change ({| ibytes := _; ioff := 5 |}) with (cursor [x53; x46; x52; x4a; a4] (a5 :: a6 :: bs)).
    intros (rl & rr & -> & H1 & H2 & H3 & H4 & Heq)%Hrows. exists (None, None), rl, rr. split_and!; try done.
    rewrite bool_decide_eq_false_2 by (cbn; congruence). rewrite Heq. cbn [app STATE_MAGIC].
    rewrite orb_false_r in Hv. by apply bool_decide_eq_true in Hv as ->.
Qed.

Lemma state_rows_no_panic m pre r :
  fst ((lefts ← rows_parse; rights ← rows_parse; i ← getS;
        _ ← when (negb (ioff i =? len (ibytes i))) (Execution "regular join state has trailing bytes");
        mret {| sv_matchable := m; sv_left := lefts; sv_right := rights |}) (cursor pre r)) <> Panic.
Proof.
  unfold mbind, M_bind. pose proof (rows_parse_no_panic pre r) as H1.
  destruct (rows_parse (cursor pre r)) as [[v1| |] i1] eqn:E1; [|done|done].
  apply rows_parse_inv in E1 as (rows & r1 & _ & _ & _ & _ & ->).
  match goal with |- context [rows_parse (cursor ?p r1)] => pose proof (rows_parse_no_panic p r1) as H2;
    destruct (rows_parse (cursor p r1)) as [[v2| |] i2]; [|done|done] end.
  unfold getS, when. by destruct (negb _).
Qed.
Lemma state_parse_no_panic bs : state_parse bs <> Panic.
Proof.
  unfold state_parse, guard_ok. destruct (Z.leb_spec 13 (len bs)) as [Hlen|]; [|done]. rewrite outcome_bind_run.
  destruct bs as [|a0 [|a1 [|a2 [|a3 [|a4 [|a5 [|a6 bs]]]]]]]; try (unfold len in Hlen; simpl in Hlen; lia).
  change (byte_at _ 4) with (Ok a4). rewrite outcome_bind_run. destruct (_ && _); [|done]. rewrite outcome_bind_run.
  destruct (bool_decide (a4 = STATE_VERSION)).
  - destruct (15 <=? _); [|done]. rewrite outcome_bind_run.
    change (byte_at _ 5) with (Ok a5). change (byte_at _ 6) with (Ok a6). rewrite !outcome_bind_run.
    destruct (decode_matchable a5) as [l| |] eqn:E5; [|done|by destruct a5].
    destruct (decode_matchable a6) as [r| |] eqn:E6; [|done|by destruct a6]. rewrite !outcome_bind_run.
    exact (state_rows_no_panic (l, r) [a0; a1; a2; a3; a4; a5; a6] bs).
  - exact (state_rows_no_panic (None, None) [a0; a1; a2; a3; a4] (a5 :: a6 :: bs)).
Qed.

Lemma renumbered_encoded id rows : map encode_state_row (renumbered id rows) = map encode_state_row rows.
Proof. revert id. induction rows as [|r rows IH]; intros id; [done|]. cbn [renumbered map]. by rewrite IH. Qed.
Lemma renumbered_twice id k rows : renumbered id (renumbered k rows) = renumbered id rows.
Proof. revert id k. induction rows as [|r rows IH]; intros id k; [done|]. cbn [renumbered]. by rewrite IH. Qed.
Lemma renumbered_ok id rows : Forall row_ok rows -> Forall row_ok (renumbered id rows).
Proof. intros Hr. revert id. induction Hr; intros id; cbn [renumbered]; constructor; [done|auto]. Qed.
Lemma slice_ok_app_r pre bs : slice_ok (pre ++ bs) -> slice_ok bs.
Proof. unfold slice_ok. rewrite len_app. pose proof (len_nonneg pre). lia. Qed.
Lemma slice_ok_app_l bs post : slice_ok (bs ++ post) -> slice_ok bs.
Proof. unfold slice_ok. rewrite len_app. pose proof (len_nonneg post). lia. Qed.

Lemma decode_encode_state s : state_ok s -> decode_state (encode_state s) = Ok (canonical_ids s).
Proof.
  intros Hs. unfold decode_state. rewrite (state_parse_encoded s Hs), outcome_bind_run.
  destruct Hs as [Hl Hr _ Hok]. unfold encode_state in Hok. do 4 apply slice_ok_app_r in Hok.
  pose proof (slice_ok_app_l _ _ Hok) as Hok1. apply slice_ok_app_r in Hok. unfold encode_state_rows in *.
  apply slice_ok_app_r in Hok, Hok1. by rewrite view_to_owned_encoded.
Qed.

(** What decoding an accepted value gives. *)
Lemma decode_state_inv bs s :
  slice_ok bs -> decode_state bs = Ok s ->
  exists m rows_l rows_r, Forall row_ok rows_l /\ Forall row_ok rows_r /\ len rows_l <= U32_MAX /\ len rows_r <= U32_MAX /\
    s = {| next_row_id := [len rows_l; len rows_r]; left_rows := renumbered 0 rows_l; right_rows := renumbered 0 rows_r;
           left_matchable := m.1; right_matchable := m.2 |} /\
    bs = STATE_MAGIC ++ (if bool_decide (bs !! 4%nat = Some STATE_VERSION)
                         then [STATE_VERSION; encode_matchable m.1; encode_matchable m.2] else [LEGACY_STATE_VERSION]) ++
      encode_state_rows rows_l ++ encode_state_rows rows_r.
Proof.
  intros Hok (v & Hv & Hs)%outcome_bind_Ok. destruct (state_parse_inv bs v Hv) as (m & rl & rr & -> & H1 & H2 & H3 & H4 & Hbs).
  pose proof Hok as Hok2. rewrite Hbs in Hok2. do 2 apply slice_ok_app_r in Hok2.
  pose proof (slice_ok_app_l _ _ Hok2) as Hok1. apply slice_ok_app_r in Hok2. unfold encode_state_rows in Hok1, Hok2.
  apply slice_ok_app_r in Hok1, Hok2. rewrite view_to_owned_encoded in Hs by done. injection Hs as <-.
  exists m, rl, rr. by split_and!.
Qed.

(** C20: The stored form of a join state. A state with 32-bit counters and
    lengths decodes to the same rows, counters and flags, numbered from zero.
    Decoding never panics on any bytes: the second, unchecked pass over validated
    rows always succeeds. Whatever is accepted in the current version is the
    encoding of what it decodes to, byte for byte, and what was accepted in the
    legacy version is read back unchanged after it has been rewritten. *)
Theorem join_state_codec :
  (forall s, state_ok s -> decode_state (encode_state s) = Ok (canonical_ids s)) /\
  (forall bs, slice_ok bs -> decode_state bs <> Panic) /\
  (forall bs s, slice_ok bs -> decode_state bs = Ok s -> bs !! 4%nat = Some STATE_VERSION -> encode_state s = bs) /\
  (forall bs s, slice_ok bs -> decode_state bs = Ok s -> slice_ok (encode_state s) -> decode_state (encode_state s) = Ok s).
Proof.
  split_and!.
  - apply decode_encode_state.
  - intros bs Hok. unfold decode_state. destruct (state_parse bs) as [v| |] eqn:Hv; [|done|].
    + destruct (state_parse_inv bs v Hv) as (m & rl & rr & -> & H1 & H2 & H3 & H4 & Hbs).
      rewrite outcome_bind_run. rewrite Hbs in Hok. do 2 apply slice_ok_app_r in Hok.
      pose proof (slice_ok_app_l _ _ Hok) as Hok1. apply slice_ok_app_r in Hok. unfold encode_state_rows in Hok, Hok1.
      apply slice_ok_app_r in Hok, Hok1. by rewrite view_to_owned_encoded.
    + by destruct (state_parse_no_panic bs).
  - intros bs s Hok Hs H4. destruct (decode_state_inv bs s Hok Hs) as (m & rl & rr & _ & _ & _ & _ & -> & Hbs).
    rewrite H4, bool_decide_eq_true_2 in Hbs by done. rewrite Hbs. unfold encode_state, encode_state_rows. cbn [left_matchable right_matchable left_rows right_rows].
    by rewrite !renumbered_encoded, !renumbered_length.
  - intros bs s Hok Hs Hok2. destruct (decode_state_inv bs s Hok Hs) as (m & rl & rr & H1 & H2 & H3 & H4 & -> & _).
    rewrite decode_encode_state.
    + unfold canonical_ids. cbn [left_rows right_rows left_matchable right_matchable]. by rewrite !renumbered_twice, !renumbered_length.
    + split; cbn [left_rows right_rows]; try by apply renumbered_ok. by rewrite !renumbered_length. done.
Qed.
