(* ===== verification/JoinPagesSpec.v ===== *)
(** * Round trips of the paged join state *)

From Stdlib Require Import ZArith Lia Strings.Byte.
From stdpp Require Import base list option numbers strings sorting.
From S2P Require Import Prelude Bytes OrdMap RegularJoin JoinCodec JoinCodecSpec JoinPages.

(** ** Chunks *)

Section chunks.
Context {A : Type} (page : A -> Z).

Lemma chunk_by_concat l : concat (chunk_by page l) = l.
Proof.
  induction l as [|x l IH]; [done|]. cbn [chunk_by]. destruct (chunk_by page l) as [|[|y c] cs]; cbn in *.
  - by rewrite IH.
  - by rewrite IH.
  - destruct (page x =? page y); cbn; by rewrite IH.
Qed.
(** Chunks are non-empty and lie on one page. *)
Definition chunk_ok (c : list A) : Prop := exists x, head c = Some x /\ Forall (fun y => page y = page x) c.
Lemma chunk_by_ok l : Forall chunk_ok (chunk_by page l).
Proof.
  induction l as [|x l IH]; [constructor|]. cbn [chunk_by]. destruct (chunk_by page l) as [|[|y c] cs].
  - constructor; [|constructor]. exists x. split; [done|by repeat constructor].
  - apply Forall_cons in IH as [(y & Hy & _) _]. done.
  - apply Forall_cons in IH as [(z & Hz & Hc) Hcs]. cbn in Hz. injection Hz as <-.
    destruct (Z.eqb_spec (page x) (page y)) as [E|E].
    + constructor; [|done]. exists x. split; [done|]. constructor; [done|]. rewrite E. exact Hc.
    + constructor; [exists x; split; [done|by repeat constructor]|]. constructor; [|done]. by exists y.
Qed.
(** The pages of the chunks of a list ordered by page are strictly ordered. *)
Definition chunk_page (c : list A) : Z := match c with x :: _ => page x | [] => 0 end.
Lemma chunk_by_head x l : exists c cs, chunk_by page (x :: l) = (x :: c) :: cs.
Proof.
  cbn [chunk_by]. destruct (chunk_by page l) as [|[|y c] cs]; [by eexists _, _..|].
  destruct (page x =? page y); by eexists _, _.
Qed.
Lemma chunk_by_sorted l :
  StronglySorted (fun x y => page x <= page y) l -> StronglySorted (fun c d => chunk_page c < chunk_page d) (chunk_by page l).
Proof.
  induction 1 as [|x l Hs IH Hx]; [constructor|].
  pose proof (chunk_by_ok l) as Hok. pose proof (chunk_by_concat l) as Hcat. cbn [chunk_by].
  destruct (chunk_by page l) as [|[|y c] cs] eqn:E.
  - by repeat constructor.
  - apply Forall_cons in Hok as [(y & Hy & _) _]. done.
  - assert (page x <= page y) as Hxy.
    { rewrite Forall_forall in Hx. apply Hx. rewrite <- Hcat. left. }
    inversion IH as [|? ? IHs IHall]; subst.
    destruct (Z.eqb_spec (page x) (page y)) as [Ep|Ep].
    + constructor; [done|]. eapply Forall_impl; [exact IHall|]. intros d. cbn [chunk_page]. lia.
    + constructor; [by constructor|]. constructor; [cbn [chunk_page]; lia|].
      eapply Forall_impl; [exact IHall|]. intros d. cbn [chunk_page]. lia.
Qed.
End chunks.

Lemma chunk_by_map {A B} (f : A -> B) (page : B -> Z) l :
  chunk_by page (map f l) = map (map f) (chunk_by (fun x => page (f x)) l).
Proof.
  induction l as [|x l IH]; [done|]. cbn [map chunk_by]. rewrite IH.
  destruct (chunk_by (fun x => page (f x)) l) as [|[|y c] cs]; [done|done|]. cbn [map].
  by destruct (page (f x) =? page (f y)).
Qed.

(** ** Fixed-width fields *)

Lemma len_to_le n z : len (to_le n z) = Z.of_nat n.
Proof. unfold len. by rewrite to_le_length. Qed.
Lemma reads_r_u32 z : is_u32 z -> reads r_u32 (u32_le z) z.
Proof.
  intros Hz. unfold r_u32. eapply reads_bind_ret; [apply reads_exact; unfold len; by rewrite u32_le_length|].
  intros i. by rewrite of_u32_le.
Qed.
Lemma reads_r_u64 z : is_u64 z -> reads r_u64 (to_le 8 z) z.
Proof.
  intros Hz. unfold r_u64. eapply reads_bind_ret; [apply reads_exact; unfold len; by rewrite to_le_length|].
  intros i. rewrite of_to_le_small; [done|]. change (8 * Z.of_nat 8) with 64. mlia.
Qed.
(** Associations are written as [i32] and read as [u32]. *)
Lemma reads_r_i32 z : is_i32 z -> exists u, reads r_u32 (i32_le z) u /\ wraps 32 u = z.
Proof.
  intros Hz. exists (of_le (i32_le z)). split; [|exact (i32_of_i32_le z Hz)].
  unfold r_u32. eapply reads_bind_ret; [apply reads_exact; unfold len; by rewrite i32_le_length|done].
Qed.
Lemma reads_matchable v : reads r_matchable [encode_matchable v] v.
Proof.
  unfold r_matchable. eapply reads_bind_ret; [by apply reads_exact|]. intros i. cbn. unfold lift.
  by rewrite decode_encode_matchable.
Qed.
Lemma reads_remaining {A} (k : Z -> M input A) bs a :
  (forall n, len bs <= n -> reads (k n) bs a) -> reads (r_remaining ≫= k) bs a.
Proof.
  intros Hk pre r Hok. rewrite (M_bind_run _ _ _ (len (bs ++ r)) (cursor pre (bs ++ r))).
  - apply Hk; [rewrite len_app; pose proof (len_nonneg r); lia|done].
  - unfold r_remaining, gets. cbn [ibytes ioff cursor]. do 2 f_equal. rewrite !len_app. lia.
Qed.
Lemma reads_end_finish {A} (a : A) pre : reads_end (_ ← r_finish; mret a) pre [] a.
Proof.
  intros Hok. unfold r_finish, r_remaining, gets, mbind, M_bind. cbn [ibytes ioff cursor].
  rewrite !app_nil_r, Z.sub_diag. done.
Qed.

(** ** Pages *)

(** The stored rows of one side. *)
Record side_ok (next : Z) (rows : list StoredRow) : Prop := {
  sd_next : is_u64 next;
  sd_rows : Forall row_ok rows;
  sd_ids : Forall (fun r => 0 <= sr_id r < next) rows;
  sd_sorted : StronglySorted (fun a b => sr_id a < sr_id b) rows;
}.

Definition row_bytes (r : StoredRow) : bytes := append_row (sr_id r) (associations r) (sr_row r).
Lemma row_bytes_size r : len (row_bytes r) = 16 + len (sr_row r).
Proof. unfold row_bytes, append_row. rewrite !len_app. unfold len at 1 2 3. rewrite to_le_length, i32_le_length, u32_le_length. lia. Qed.
Lemma rows_bytes_size rows : len (concat (map row_bytes rows)) = zsum (fun r => 16 + len (sr_row r)) rows.
Proof. induction rows as [|r rows IH]; [done|]. cbn [map concat]. by rewrite len_app, row_bytes_size, IH. Qed.

Lemma reads_decode_rows page next last rows :
  side_ok next rows -> Forall (fun r => page_of r = page) rows ->
  (forall l, last = Some l -> Forall (fun r => l < sr_id r) rows) ->
  reads (decode_rows page next last (length rows)) (concat (map row_bytes rows)) rows.
Proof.
  intros [Hn Hr Hi Hs] Hp. revert last. induction rows as [|r rows IH]; intros last Hlast; cbn [length decode_rows map concat]; [apply reads_ret|].
  apply Forall_cons in Hr as [[Ha Hl] Hr]. apply Forall_cons in Hi as [Hid Hi]. apply Forall_cons in Hp as [Hpage Hp].
  inversion Hs as [|? ? Hs' Hlt]; subst.
  unfold row_bytes at 1, append_row. rewrite <- !app_assoc.
  eapply reads_bind; [apply reads_r_u64; unfold is_u64 in *; lia|]. apply reads_when.
  { unfold page_of. rewrite Z.eqb_refl. cbn [negb orb]. rewrite (proj2 (Z.leb_gt _ _)) by lia. cbn [orb].
    destruct last as [l|]; [|done]. specialize (Hlast l eq_refl). apply Forall_cons in Hlast as [Hl' _]. apply Z.leb_gt. lia. }
  destruct (reads_r_i32 (associations r) Ha) as (u & Hu & Hwu).
  eapply reads_bind; [exact Hu|]. eapply reads_bind; [apply reads_r_u32; split; [apply len_nonneg|done]|].
  eapply reads_bind; [by apply reads_exact|]. rewrite <- (app_nil_r (concat _)).
  eapply reads_bind; [apply IH; try done; by intros l [= <-]|]. rewrite Hwu. destruct r. apply reads_ret.
Qed.

Lemma decode_page_encoded page next rows :
  side_ok next rows -> Forall (fun r => page_of r = page) rows -> 0 < len rows <= PAGE_ROWS ->
  slice_ok (append_page rows) -> decode_page (append_page rows) page next = Ok rows.
Proof.
  intros Hs Hp Hl Hok. unfold decode_page, read_with, reader_new.
  assert (starts_with (append_page rows) PAGE_MAGIC = true) as -> by (apply starts_with_spec; by eexists).
  rewrite outcome_bind_run. unfold append_page in *.
  change ({| ibytes := PAGE_MAGIC ++ ?b; ioff := len PAGE_MAGIC |}) with (cursor PAGE_MAGIC b) in *.
  match goal with |- fst (?p (cursor ?pre ?bs)) = _ => assert (reads_end p pre bs rows) as He end.
  { eapply reads_end_bind; [apply reads_r_u32; unfold is_u32, PAGE_ROWS, U32_MAX in *; lia|].
    change (map (fun r => append_row (sr_id r) (associations r) (sr_row r)) rows) with (map row_bytes rows).
    intros Hok2. rewrite (M_bind_run _ _ _ (len (concat (map row_bytes rows))) (cursor (PAGE_MAGIC ++ u32_le (len rows)) (concat (map row_bytes rows)))).
    2: { unfold r_remaining, gets. cbn [ibytes ioff cursor]. do 2 f_equal. rewrite !len_app. lia. }
    revert Hok2. apply reads_end_when.
    { rewrite (proj2 (Z.eqb_neq _ _)), (proj2 (Z.ltb_ge _ _)) by lia. cbn [orb]. apply Z.ltb_ge.
      rewrite rows_bytes_size. apply Z.div_le_lower_bound; [lia|]. clear. induction rows as [|r rows IH]; [done|].
      rewrite zsum_cons, len_cons. pose proof (len_nonneg (sr_row r)). lia. }
    apply (reads_end_eq _ _ (concat (map row_bytes rows) ++ [])); [|by rewrite app_nil_r].
    eapply reads_end_bind; [rewrite len_to_nat; apply reads_decode_rows; [done|done|by intros ? [=]]|]. apply reads_end_finish. }
  by rewrite He.
Qed.

(** ** The pages of a side *)

Definition page_ids (rows : list StoredRow) : list Z := map fst (pages rows).

Lemma sorted_weaken {A} (R S : A -> A -> Prop) l : (forall x y, R x y -> S x y) -> StronglySorted R l -> StronglySorted S l.
Proof. intros HRS. induction 1 as [|x l Hs IH Hx]; constructor; [done|]. eapply Forall_impl; [exact Hx|]. by apply HRS. Qed.
Lemma sorted_map {A B} (f : A -> B) (R : B -> B -> Prop) l :
  StronglySorted (fun x y => R (f x) (f y)) l -> StronglySorted R (map f l).
Proof. induction 1 as [|x l Hs IH Hx]; cbn [map]; constructor; [done|]. by apply Forall_map. Qed.

Lemma page_ids_chunks rows : page_ids rows = map (chunk_page page_of) (chunk_by page_of rows).
Proof. unfold page_ids, pages. rewrite map_map. apply map_ext. by intros []. Qed.
Lemma pages_rows rows : concat (map snd (pages rows)) = rows.
Proof. unfold pages. rewrite map_map. cbn [snd]. rewrite map_id. apply chunk_by_concat. Qed.

Lemma pages_sorted next rows : side_ok next rows -> StronglySorted Z.lt (page_ids rows).
Proof.
  intros [_ _ _ Hs]. rewrite page_ids_chunks. apply sorted_map, chunk_by_sorted.
  eapply sorted_weaken; [|exact Hs]. intros x y Hxy. cbv beta in Hxy. unfold page_of. apply Z.div_le_mono; unfold PAGE_ROWS; lia.
Qed.

(** Every page is a side of its own, on one page. *)
Lemma sorted_app_inv {A} (R : A -> A -> Prop) l k : StronglySorted R (l ++ k) -> StronglySorted R l /\ StronglySorted R k.
Proof.
  induction l as [|x l IH]; cbn [app]; [intros; split; [constructor|done]|].
  inversion 1 as [|? ? Hs Hx]; subst. destruct (IH Hs) as [Hl Hk]. apply Forall_app in Hx as [Hx _].
  split; [by constructor|done].
Qed.
Lemma side_ok_app next l k : side_ok next (l ++ k) -> side_ok next l /\ side_ok next k.
Proof.
  intros [Hn Hr Hi Hs]. apply Forall_app in Hr as [? ?]. apply Forall_app in Hi as [? ?].
  apply sorted_app_inv in Hs as [? ?]. by split.
Qed.
Definition page_entry_ok (next : Z) (p : Z * list StoredRow) : Prop :=
  side_ok next p.2 /\ Forall (fun r => page_of r = p.1) p.2 /\ 0 < len p.2 /\ 0 <= p.1 /\ p.1 * PAGE_ROWS < next.
Lemma pages_ok next rows : side_ok next rows -> Forall (page_entry_ok next) (pages rows).
Proof.
  intros Hs. unfold pages. apply Forall_map. pose proof (chunk_by_ok page_of rows) as Hok.
  pose proof (chunk_by_concat page_of rows) as Hcat. rewrite <- Hcat in Hs. clear Hcat.
  induction Hok as [|c cs (x & Hx & Hc) _ IH]; constructor; cbn [concat] in Hs; apply side_ok_app in Hs as [Hs1 Hs2].
  - destruct c as [|y c]; [done|]. cbn in Hx. injection Hx as ->. unfold page_entry_ok. cbn [fst snd].
    pose proof Hs1 as [Hn Hr Hi _]. pose proof Hi as [Hid _]%Forall_cons. split_and!; try done.
    + unfold page_of, PAGE_ROWS. apply Z.div_pos; lia.
    + unfold page_of, PAGE_ROWS. pose proof (Z.mul_div_le (sr_id x) 64). lia.
  - by apply IH.
Qed.

(** ** The manifest *)

Lemma reads_read_pages next last ids :
  is_u64 next -> StronglySorted Z.lt ids -> Forall (fun p => 0 <= p /\ p * PAGE_ROWS < next) ids ->
  (forall l, last = Some l -> Forall (fun p => l < p) ids) ->
  reads (read_pages next last (length ids)) (concat (map (to_le 8) ids)) ids.
Proof.
  intros Hn Hs Hp. revert last. induction ids as [|p ids IH]; intros last Hl; cbn [length read_pages map concat]; [apply reads_ret|].
  apply Forall_cons in Hp as [[Hp0 Hp1] Hp]. inversion Hs as [|? ? Hs' Hlt]; subst.
  assert (p <= U64_MAX / PAGE_ROWS) as Hmax by (apply Z.div_le_lower_bound; [done|unfold is_u64 in Hn; lia]).
  eapply reads_bind; [apply reads_r_u64; unfold is_u64, PAGE_ROWS in *; lia|]. apply reads_when.
  { rewrite (proj2 (Z.ltb_ge _ _)), (proj2 (Z.leb_gt _ _)) by lia. cbn [orb].
    destruct last as [l|]; [|done]. specialize (Hl l eq_refl). apply Forall_cons in Hl as [Hl _]. by apply Z.leb_gt. }
  rewrite <- (app_nil_r (concat _)). eapply reads_bind; [apply IH; try done; by intros l [= <-]|]. apply reads_ret.
Qed.
Lemma reads_page_list next rows :
  side_ok next rows -> len (pages rows) <= U64_MAX -> reads (read_page_list next) (encode_page_list rows) (page_ids rows).
Proof.
  intros Hs Hl. unfold read_page_list, encode_page_list. eapply reads_bind; [apply reads_r_u64; split; [apply len_nonneg|done]|].
  assert (concat (map (fun p : Z * list StoredRow => to_le 8 p.1) (pages rows)) = concat (map (to_le 8) (page_ids rows))) as ->
    by (unfold page_ids; by rewrite map_map).
  assert (len (pages rows) = len (page_ids rows)) as -> by (unfold len, page_ids; by rewrite length_map).
  apply reads_remaining. intros n Hn. apply reads_when.
  { apply Z.ltb_ge. apply Z.div_le_lower_bound; [lia|]. etransitivity; [|exact Hn]. clear.
    generalize (page_ids rows). intros ids. induction ids as [|p ids IH]; [done|]. cbn [map concat]. rewrite len_app, len_cons, len_to_le. lia. }
  rewrite len_to_nat. apply reads_read_pages; [apply Hs|by eapply pages_sorted| |by intros ? [=]].
  unfold page_ids. apply Forall_map. eapply Forall_impl; [by apply pages_ok|]. intros p (_ & _ & _ & H0 & H1). cbn. lia.
Qed.

(** A state in the paged form. *)
Record paged_ok (s : JoinState) : Prop := {
  pg_ids : exists a b, next_row_id s = [a; b] /\ side_ok a (left_rows s) /\ side_ok b (right_rows s);
  pg_counts : len (left_rows s) <= U32_MAX /\ len (right_rows s) <= U32_MAX;
}.
Lemma chunks_length {A} (page : A -> Z) l : len (chunk_by page l) <= len l.
Proof.
  pose proof (chunk_by_ok page l) as Hok. rewrite <- (chunk_by_concat page l) at 2.
  induction Hok as [|c cs (x & Hx & _) _ IH]; [done|]. cbn [concat]. rewrite len_app, len_cons.
  destruct c; [done|]. rewrite len_cons. pose proof (len_nonneg c). lia.
Qed.
Lemma pages_length rows : len (pages rows) <= len rows.
Proof. unfold pages. unfold len at 1. rewrite length_map. apply chunks_length. Qed.

Definition manifest_of (layout : Layout) (s : JoinState) (inline : option (list StoredRow * list StoredRow)) : Manifest :=
  {| m_layout := layout; m_next_row_id := next_ids s; m_matchable := (left_matchable s, right_matchable s);
     m_pages := (ids_explicit (page_ids (left_rows s)), ids_explicit (page_ids (right_rows s))); m_inline := inline |}.
Definition manifest_bytes (s : JoinState) : bytes :=
  manifest_body (left_matchable s, right_matchable s) (next_ids s) ++
  encode_page_list (left_rows s) ++ encode_page_list (right_rows s).
Lemma reads_manifest s : paged_ok s -> reads read_manifest (manifest_bytes s) (manifest_of Pages s None).
Proof.
  intros [(a & b & Hid & Hl & Hr) [Hnl Hnr]]. unfold read_manifest, manifest_bytes, manifest_body, manifest_of, next_ids. rewrite Hid.
  cbn [fst snd]. rewrite <- !app_assoc.
  eapply reads_bind; [apply reads_matchable|]. eapply reads_bind; [apply reads_matchable|].
  eapply reads_bind; [apply reads_r_u64, Hl|]. eapply reads_bind; [apply reads_r_u64, Hr|].
  pose proof (pages_length (left_rows s)). pose proof (pages_length (right_rows s)). unfold U32_MAX, U64_MAX in *.
  eapply reads_bind; [apply reads_page_list; [done|unfold U64_MAX; lia]|].
  rewrite <- (app_nil_r (encode_page_list (right_rows s))).
  eapply reads_bind; [apply reads_page_list; [done|unfold U64_MAX; lia]|]. apply reads_ret.
Qed.

Lemma decode_manifest_pages s :
  paged_ok s -> slice_ok (encode_manifest s) -> decode_manifest (encode_manifest s) = Ok (manifest_of Pages s None).
Proof.
  intros Hs Hok. unfold decode_manifest, is_rows_manifest, is_compact, encode_manifest, encode_manifest_with in *.
  change (starts_with (MANIFEST_MAGIC ++ _) ROWS_MAGIC) with false. change (starts_with (MANIFEST_MAGIC ++ _) COMPACT_MAGIC) with false.
  fold (manifest_bytes s) in *. unfold read_with, reader_new.
  assert (starts_with (MANIFEST_MAGIC ++ manifest_bytes s) MANIFEST_MAGIC = true) as -> by (apply starts_with_spec; by eexists).
  rewrite outcome_bind_run. change ({| ibytes := MANIFEST_MAGIC ++ ?b; ioff := len MANIFEST_MAGIC |}) with (cursor MANIFEST_MAGIC b).
  match goal with |- fst (?p (cursor ?pre ?bs)) = _ => assert (reads_end p pre bs (manifest_of Pages s None)) as He end.
  { apply (reads_end_eq _ _ (manifest_bytes s ++ [])); [|by rewrite app_nil_r].
    eapply reads_end_bind; [by apply reads_manifest|apply reads_end_finish]. }
  by rewrite He.
Qed.

(** ** Inline pages *)

Definition inline_entry (p : Z * list StoredRow) : bytes := u32_le (page_size p.2) ++ append_page p.2.
Lemma append_page_size rows : len (append_page rows) = page_size rows.
Proof.
  unfold append_page, page_size. fold row_bytes. rewrite !len_app.
  change (map (fun r => append_row (sr_id r) (associations r) (sr_row r)) rows) with (map row_bytes rows).
  rewrite rows_bytes_size. unfold len. rewrite u32_le_length. simpl length. lia.
Qed.
Lemma page_size_pos rows : 9 <= page_size rows.
Proof.
  unfold page_size. assert (0 <= zsum (fun r => 16 + len (sr_row r)) rows); [|lia].
  apply zsum_nonneg. intros r _. pose proof (len_nonneg (sr_row r)). lia.
Qed.

Lemma reads_read_inline next ps count :
  Forall (page_entry_ok next) ps -> Forall (fun p => page_size p.2 <= MAX_BYTES) ps ->
  0 <= count -> count + len (concat (map snd ps)) <= PAGE_ROWS ->
  reads (read_inline next count (map fst ps)) (concat (map inline_entry ps))
    (concat (map snd ps), count + len (concat (map snd ps))).
Proof.
  intros Hp Hsz. revert count. induction ps as [|[page rows] ps IH]; intros count Hc Hl; cbn [map concat read_inline fst snd].
  { rewrite len_nil, Z.add_0_r. apply reads_ret. }
  apply Forall_cons in Hp as [(Hs & Hpg & Hne & _) Hp]. apply Forall_cons in Hsz as [Hsz1 Hsz]. cbn [fst snd] in *.
  cbn [map concat snd] in Hl. rewrite len_app in *. pose proof (len_nonneg (concat (map snd ps))) as Hpos.
  unfold inline_entry at 1. cbn [snd]. rewrite <- app_assoc. pose proof (page_size_pos rows).
  eapply reads_bind; [apply reads_r_u32; unfold is_u32, U32_MAX, MAX_BYTES in *; lia|].
  eapply reads_bind; [apply reads_exact; by rewrite append_page_size|].
  intros pre r Hok. rewrite (M_bind_run _ _ _ rows (cursor pre (concat (map inline_entry ps) ++ r))).
  2: { unfold lift. f_equal. apply decode_page_encoded; [done|done|lia|].
       unfold slice_ok. rewrite append_page_size. unfold MAX_BYTES, I64_MAX in *. lia. }
  cbv zeta. revert pre r Hok. apply reads_when; [apply Z.ltb_ge; lia|].
  rewrite <- (app_nil_r (concat (map inline_entry ps))).
  eapply reads_bind; [apply IH; [done|done|lia|lia]|]. cbn beta iota. rewrite Z.add_assoc. apply reads_ret.
Qed.

(** ** The size of the compact form *)

Lemma fold_rows_size rows n : 0 <= n <= USIZE_MAX ->
  fold_left (fun n r => sat_add (sat_add n 16) (len (sr_row r))) rows n =
    Z.min (n + zsum (fun r => 16 + len (sr_row r)) rows) USIZE_MAX.
Proof.
  revert n. induction rows as [|r rows IH]; intros n Hn; cbn [fold_left].
  { cbn. lia. }
  pose proof (len_nonneg (sr_row r)).
  assert (0 <= zsum (fun r => 16 + len (sr_row r)) rows)
    by (apply zsum_nonneg; intros x _; pose proof (len_nonneg (sr_row x)); lia).
  rewrite IH, zsum_cons by mlia. mlia.
Qed.
Definition pages_size (ps : list (Z * list StoredRow)) : Z := zsum (fun p => 12 + page_size p.2) ps.
Lemma pages_size_nonneg ps : 0 <= pages_size ps.
Proof. apply zsum_nonneg. intros p _. pose proof (page_size_pos p.2). lia. Qed.
Lemma fold_pages_size ps n : 0 <= n <= USIZE_MAX ->
  fold_left (fun n (p : Z * list StoredRow) =>
    fold_left (fun n r => sat_add (sat_add n 16) (len (sr_row r))) p.2 (sat_add n 21)) ps n =
  Z.min (n + pages_size ps) USIZE_MAX.
Proof.
  revert n. induction ps as [|p ps IH]; intros n Hn; cbn [fold_left].
  { cbn. lia. }
  pose proof (pages_size_nonneg ps) as Hp. pose proof (page_size_pos p.2) as H9.
  rewrite (fold_rows_size p.2) by mlia. unfold page_size in *. rewrite IH by mlia. unfold pages_size in *. rewrite zsum_cons.
  unfold page_size in *. mlia.
Qed.
Lemma encoded_size_Some s n :
  encoded_size s = Some n ->
  n = 39 + pages_size (pages (left_rows s)) + pages_size (pages (right_rows s)) /\ n <= MAX_BYTES /\
  len (left_rows s) + len (right_rows s) <= PAGE_ROWS.
Proof.
  unfold encoded_size. destruct (Z.ltb_spec PAGE_ROWS (len (left_rows s) + len (right_rows s))); [done|].
  pose proof (pages_size_nonneg (pages (left_rows s))). pose proof (pages_size_nonneg (pages (right_rows s))).
  cbv zeta. rewrite (fold_pages_size (pages (left_rows s)) 39), fold_pages_size by mlia. unfold MAX_BYTES in *.
  destruct (Z.leb_spec (Z.min (Z.min (39 + pages_size (pages (left_rows s))) USIZE_MAX + pages_size (pages (right_rows s))) USIZE_MAX) (8 * 1024));
    [|done]. intros [= <-]. split; [|lia]. mlia.
Qed.

Lemma page_list_size rows : len (encode_page_list rows) = 8 + 8 * len (pages rows).
Proof.
  unfold encode_page_list. rewrite len_app, len_to_le. assert (forall ps : list (Z * list StoredRow), len (concat (map (fun p => to_le 8 p.1) ps)) = 8 * len ps) as ->; [|lia].
  induction ps as [|p ps IH]; [done|]. cbn [map concat]. rewrite len_app, len_cons, len_to_le, IH. lia.
Qed.
Lemma inline_size rows : len (encode_inline rows) = pages_size (pages rows) - 8 * len (pages rows).
Proof.
  unfold encode_inline, pages_size. generalize (pages rows). intros ps. induction ps as [|p ps IH]; [done|].
  cbn [map concat]. rewrite !len_app, zsum_cons, len_cons, IH, append_page_size.
  assert (len (u32_le (page_size p.2)) = 4) as -> by (unfold len; by rewrite u32_le_length). lia.
Qed.
Lemma compact_manifest_size s :
  len (encode_manifest_with COMPACT_MAGIC s) = 39 + 8 * len (pages (left_rows s)) + 8 * len (pages (right_rows s)).
Proof.
  unfold encode_manifest_with, manifest_body. rewrite !len_app, !page_list_size, !len_to_le. unfold len. simpl length. lia.
Qed.

(** Every page fits when the whole does. *)
Lemma pages_fit ps bound : pages_size ps <= bound -> Forall (fun p => page_size p.2 <= bound) ps.
Proof.
  intros Hb. apply Forall_forall. intros p Hp. apply list_elem_of_lookup in Hp as [i Hi].
  pose proof (zsum_lookup_le (fun p : Z * list StoredRow => 12 + page_size p.2) ps i p) as Hle.
  unfold pages_size in Hb. cbv beta in Hle. specialize (Hle ltac:(intros q _; pose proof (page_size_pos q.2); lia) Hi). lia.
Qed.
Lemma pages_count_rows rows : len (concat (map snd (pages rows))) = len rows.
Proof. by rewrite pages_rows. Qed.

(** C21: A join state that fits the compact form (at most 64 rows and 8 KiB) is
    encoded in exactly the admitted size, and decoding gives back everything:
    next identities, null-match flags, the page directory and all rows with their
    ids and counters, in order. *)
Theorem compact_state_roundtrip s n :
  paged_ok s -> encoded_size s = Some n ->
  exists bs, encode_compact s = Ok bs /\ len bs = n /\
    decode_manifest bs = Ok (manifest_of Compact s (Some (left_rows s, right_rows s))).
Proof.
  intros Hs Hn. destruct (encoded_size_Some s n Hn) as (Hsize & Hmax & Hrows).
  pose proof (pages_size_nonneg (pages (left_rows s))) as Hpl. pose proof (pages_size_nonneg (pages (right_rows s))) as Hpr.
  pose proof (compact_manifest_size s) as Hms. pose proof (inline_size (left_rows s)) as Hil. pose proof (inline_size (right_rows s)) as Hir.
  pose proof (len_nonneg (encode_inline (left_rows s))). pose proof (len_nonneg (encode_inline (right_rows s))).
  set (bs := encode_manifest_with COMPACT_MAGIC s ++ encode_inline (left_rows s) ++ encode_inline (right_rows s)).
  assert (len bs = n) as Hlen by (unfold bs; rewrite !len_app; lia).
  exists bs. unfold encode_compact. rewrite Hn, (proj2 (Z.ltb_ge _ _)) by lia. split; [done|]. split; [done|].
  unfold decode_manifest, is_rows_manifest, is_compact, bs, encode_manifest_with. rewrite <- app_assoc.
  change (starts_with (COMPACT_MAGIC ++ _) ROWS_MAGIC) with false. cbv iota.
  assert (starts_with (COMPACT_MAGIC ++ (manifest_bytes s) ++ encode_inline (left_rows s) ++ encode_inline (right_rows s)) COMPACT_MAGIC = true) as Hmagic
    by (apply starts_with_spec; by eexists).
  fold (manifest_bytes s). rewrite Hmagic. unfold decode_compact, guard_ok.
  assert (COMPACT_MAGIC ++ manifest_bytes s ++ encode_inline (left_rows s) ++ encode_inline (right_rows s) = bs) as Hbs
    by (unfold bs, encode_manifest_with; by rewrite <- app_assoc).
  rewrite Hbs, (proj2 (Z.leb_le _ _)) by lia. rewrite outcome_bind_run. rewrite <- Hbs. unfold read_with, reader_new. rewrite Hmagic, outcome_bind_run.
  change ({| ibytes := COMPACT_MAGIC ++ ?b; ioff := len COMPACT_MAGIC |}) with (cursor COMPACT_MAGIC b).
  match goal with |- fst (?p (cursor ?pre ?b)) = Ok ?v => assert (reads_end p pre b v) as He end.
  { eapply reads_end_bind; [by apply reads_manifest|]. destruct Hs as [(a & b & Hid & Hl & Hr) _].
    assert (m_next_row_id (manifest_of Pages s None) = (a, b)) as -> by (unfold manifest_of, next_ids; by rewrite Hid).
    assert (ids_iter (m_pages (manifest_of Pages s None)).1 = page_ids (left_rows s)) as -> by apply app_nil_r.
    assert (ids_iter (m_pages (manifest_of Pages s None)).2 = page_ids (right_rows s)) as -> by apply app_nil_r.
    cbn [fst snd].
    eapply reads_end_bind.
    { apply (reads_read_inline a (pages (left_rows s)) 0); [by apply pages_ok|apply pages_fit; lia|lia|]. rewrite pages_count_rows.
      pose proof (len_nonneg (right_rows s)). lia. }
    rewrite pages_rows. cbn beta iota. rewrite <- (app_nil_r (encode_inline (right_rows s))).
    eapply reads_end_bind.
    { apply (reads_read_inline b (pages (right_rows s)) (0 + len (left_rows s))); [by apply pages_ok|apply pages_fit; lia| |].
      - pose proof (len_nonneg (left_rows s)). lia.
      - rewrite pages_count_rows. lia. }
    rewrite pages_rows. cbn beta iota. unfold manifest_of, next_ids. rewrite Hid. apply reads_end_finish. }
  rewrite He; [done|]. rewrite Hbs. unfold slice_ok, I64_MAX, MAX_BYTES in *. lia.
Qed.
