(* ===== verification/EntryIdsSpec.v ===== *)
(** * Directories of row identities are sets

    [EntryIds] keeps ids explicitly or as presence bitmaps; whatever the form, it
    behaves as the strictly increasing list of its ids. *)

From Stdlib Require Import ZArith Lia Strings.Byte.
From stdpp Require Import base list option numbers strings sorting.
From S2P Require Import Prelude Bytes OrdMap RegularJoin JoinCodec JoinCodecSpec JoinPages JoinPagesSpec.

(** ** Sorted lists of ids *)

Definition increasing (l : list Z) : Prop := StronglySorted Z.lt l.
#[global] Instance Zle_antisymm : AntiSymm (=) Z.le.
Proof. intros x y. lia. Qed.
Lemma increasing_le l : increasing l -> StronglySorted Z.le l.
Proof. induction 1 as [|x l Hs IH Hx]; constructor; [done|]. eapply Forall_impl; [exact Hx|]. cbn. lia. Qed.
Lemma increasing_NoDup l : increasing l -> NoDup l.
Proof.
  induction 1 as [|x l Hs IH Hx]; constructor; [|done]. rewrite Forall_forall in Hx. intros Hin. specialize (Hx x Hin). lia.
Qed.
(** An increasing list is determined by its elements. *)
Lemma increasing_ext l k : increasing l -> increasing k -> (forall x, x ∈ l <-> x ∈ k) -> l = k.
Proof.
  intros Hl Hk Hx. apply (StronglySorted_unique Z.le); [by apply increasing_le|by apply increasing_le|].
  apply NoDup_Permutation; [by apply increasing_NoDup|by apply increasing_NoDup|done].
Qed.
Lemma increasing_app l k : increasing l -> increasing k -> (forall x y, x ∈ l -> y ∈ k -> x < y) -> increasing (l ++ k).
Proof.
  intros Hl Hk. induction Hl as [|x l Hs IH Hx]; intros Hlt; cbn [app]; [done|]. constructor.
  - apply IH. intros a b Ha Hb. apply Hlt; [by right|done].
  - apply Forall_app. split; [done|]. apply Forall_forall. intros b Hb. apply Hlt; [left|done].
Qed.
Lemma increasing_filter (P : Z -> Prop) `{!forall x, Decision (P x)} l : increasing l -> increasing (filter P l).
Proof.
  induction 1 as [|x l Hs IH Hx]; [constructor|]. rewrite filter_cons. destruct (decide (P x)); [|done].
  constructor; [done|]. rewrite Forall_forall in Hx |- *. intros y [_ Hy]%list_elem_of_filter. by apply Hx.
Qed.
Lemma increasing_map_add c l : increasing l -> increasing (map (Z.add c) l).
Proof. induction 1 as [|x l Hs IH Hx]; cbn [map]; constructor; [done|]. apply Forall_map. eapply Forall_impl; [exact Hx|]. cbn. lia. Qed.

(** ** Bits *)

(** The lowest set bit, and clearing it. *)
Lemma lowest_bit p :
  let t := trailing_zeros (Zpos p) in
  0 <= t /\ Z.testbit (Zpos p) t = true /\ (forall i, 0 <= i < t -> Z.testbit (Zpos p) i = false) /\
  (forall i, 0 <= i -> Z.testbit (Z.land (Zpos p) (Zpos p - 1)) i = Z.testbit (Zpos p) i && negb (i =? t)) /\
  count_ones (Z.land (Zpos p) (Zpos p - 1)) = count_ones (Zpos p) - 1.
Proof.
  induction p as [p IH|p IH|]; cbv zeta in *.
  - change (trailing_zeros (Zpos p~1)) with 0.
    assert (Z.land (Zpos p~1) (Zpos p~1 - 1) = 2 * Zpos p) as ->.
    { apply Z.bits_inj'. intros i Hi. rewrite Z.land_spec. change (Zpos p~1 - 1) with (2 * Zpos p).
      change (Zpos p~1) with (2 * Zpos p + 1). destruct (Z.eq_dec i 0) as [->|]; [by rewrite Z.testbit_even_0, andb_false_r|].
      replace i with (Z.succ (Z.pred i)) by lia. rewrite Z.testbit_even_succ, Z.testbit_odd_succ by lia. apply andb_diag. }
    split_and!; [done|done|intros; lia| |change (pos_ones p = 1 + pos_ones p - 1); lia].
    intros i Hi. destruct (Z.eqb_spec i 0) as [->|]; [by rewrite andb_false_r, Z.testbit_even_0|]. rewrite andb_true_r.
    replace i with (Z.succ (Z.pred i)) by lia. change (Zpos p~1) with (2 * Zpos p + 1).
    rewrite Z.testbit_even_succ, Z.testbit_odd_succ by lia. done.
  - destruct IH as (Ht & Hb & Hlow & Hclear & Hones). set (t := trailing_zeros (Zpos p)) in *.
    change (trailing_zeros (Zpos p~0)) with (1 + t).
    assert (Z.land (Zpos p~0) (Zpos p~0 - 1) = 2 * Z.land (Zpos p) (Zpos p - 1)) as Hland.
    { apply Z.bits_inj'. intros i Hi. rewrite Z.land_spec. replace (Zpos p~0 - 1) with (2 * (Zpos p - 1) + 1) by lia.
      change (Zpos p~0) with (2 * Zpos p). destruct (Z.eq_dec i 0) as [->|]; [by rewrite !Z.testbit_even_0|].
      replace i with (Z.succ (Z.pred i)) by lia.
      rewrite !Z.testbit_even_succ, Z.testbit_odd_succ, Z.land_spec by lia. done. }
    split_and!; [lia| | | |].
    + change (Zpos p~0) with (2 * Zpos p). replace (1 + t) with (Z.succ t) by lia. by rewrite Z.testbit_even_succ by lia.
    + intros i Hi. change (Zpos p~0) with (2 * Zpos p). destruct (Z.eq_dec i 0) as [->|]; [by rewrite Z.testbit_even_0|].
      replace i with (Z.succ (Z.pred i)) by lia. rewrite Z.testbit_even_succ by lia. apply Hlow. lia.
    + intros i Hi. rewrite Hland. change (Zpos p~0) with (2 * Zpos p). destruct (Z.eq_dec i 0) as [->|]; [by rewrite !Z.testbit_even_0|].
      replace i with (Z.succ (Z.pred i)) by lia. rewrite !Z.testbit_even_succ, Hclear by lia.
      f_equal. f_equal. destruct (Z.eqb_spec (Z.pred i) t), (Z.eqb_spec (Z.succ (Z.pred i)) (1 + t)); lia.
    + rewrite Hland. change (count_ones (Zpos p~0)) with (count_ones (Zpos p)). rewrite <- Hones.
      by destruct (Z.land (Zpos p) (Zpos p - 1)).
  - change (trailing_zeros 1) with 0. split; [done|]. split; [done|]. split; [intros; lia|]. split; [|done].
    intros i Hi. change (Z.land 1 (1 - 1)) with 0. rewrite Z.testbit_0_l. destruct (Z.eqb_spec i 0) as [->|Hne]; [done|].
    by rewrite (Z.bits_above_log2 1) by (cbn; lia).
Qed.

Definition bit_range (bits : Z) : Prop := 0 <= bits < 2 ^ 64.
Lemma testbit_high bits i : bit_range bits -> 64 <= i -> Z.testbit bits i = false.
Proof.
  intros Hb Hi. destruct (Z.eq_dec bits 0) as [->|]; [apply Z.testbit_0_l|].
  apply Z.bits_above_log2; [apply Hb|]. assert (Z.log2 bits < 64) by (apply Z.log2_lt_pow2; unfold bit_range in Hb; lia). lia.
Qed.

Lemma bit_range_intro x : 0 <= x -> (forall i, 64 <= i -> Z.testbit x i = false) -> bit_range x.
Proof.
  intros H0 Hhigh. assert (x = x mod 2 ^ 64) as ->; [|apply Z.mod_pos_bound; lia].
  apply Z.bits_inj'. intros i Hi. destruct (Z.lt_ge_cases i 64).
  - by rewrite Z.mod_pow2_bits_low by lia.
  - rewrite Z.mod_pow2_bits_high by lia. by apply Hhigh.
Qed.
Lemma land_range x y : bit_range x -> bit_range (Z.land x y).
Proof.
  intros Hx. apply bit_range_intro; [apply Z.land_nonneg; left; apply Hx|]. intros i Hi. by rewrite Z.land_spec, testbit_high.
Qed.
Lemma lor_range x y : bit_range x -> bit_range y -> bit_range (Z.lor x y).
Proof.
  intros Hx Hy. apply bit_range_intro; [apply Z.lor_nonneg; split; [apply Hx|apply Hy]|].
  intros i Hi. by rewrite Z.lor_spec, !testbit_high.
Qed.

Lemma count_ones_nonneg bits : 0 <= count_ones bits.
Proof. destruct bits as [|p|p]; cbn; [done| |done]. induction p; cbn; lia. Qed.
Lemma expand_fuel_spec fuel page bits k :
  bit_range bits -> (forall i, 0 <= i < k -> Z.testbit bits i = false) -> 0 <= k <= 64 -> 64 - k <= Z.of_nat fuel ->
  increasing (expand_fuel fuel page bits) /\ len (expand_fuel fuel page bits) = count_ones bits /\
  forall x, x ∈ expand_fuel fuel page bits <-> exists i, x = page * PAGE_ROWS + i /\ k <= i < 64 /\ Z.testbit bits i = true.
Proof.
  revert bits k. induction fuel as [|fuel IH]; intros bits k Hb Hlow Hk Hf.
  { assert (bits = 0) as ->.
    { apply Z.bits_inj'. intros i Hi. rewrite Z.testbit_0_l. destruct (Z.lt_ge_cases i k); [by apply Hlow; lia|]. apply testbit_high; [done|lia]. }
    cbn. split; [constructor|]. split; [done|]. intros x. split; [by intros ?%not_elem_of_nil|]. intros (i & _ & _ & Hi). by rewrite Z.testbit_0_l in Hi. }
  cbn [expand_fuel]. destruct (Z.eqb_spec bits 0) as [->|Hne].
  { split; [constructor|]. split; [done|]. intros x. split; [by intros ?%not_elem_of_nil|]. intros (i & _ & _ & Hi). by rewrite Z.testbit_0_l in Hi. }
  destruct bits as [|p|p]; [done| |unfold bit_range in Hb; lia].
  destruct (lowest_bit p) as (Ht & Hset & Hmin & Hclear & Hones). set (t := trailing_zeros (Zpos p)) in *.
  set (bits' := Z.land (Zpos p) (Zpos p - 1)) in *.
  assert (k <= t < 64) as Htk.
  { split; [destruct (Z.lt_ge_cases t k); [|lia]; by rewrite Hlow in Hset by lia|].
    destruct (Z.lt_ge_cases t 64); [done|]. by rewrite testbit_high in Hset. }
  assert (bit_range bits') as Hb'.
  { by apply land_range. }
  destruct (IH bits' (t + 1) Hb') as (Hinc & Hlen & Hin).
  { intros i Hi. rewrite Hclear by lia. destruct (Z.eqb_spec i t) as [->|]; [by rewrite andb_false_r|]. rewrite Hmin by lia. done. }
  { lia. }
  { lia. }
  split_and!.
  - constructor; [done|]. apply Forall_forall. intros x (i & -> & Hi & _)%Hin. lia.
  - rewrite len_cons, Hlen, Hones. lia.
  - intros x. rewrite elem_of_cons, Hin. split.
    + intros [->|(i & -> & Hi & Hbit)]; [exists t; split_and!; (done || lia)|]. exists i. rewrite Hclear in Hbit by lia.
      apply andb_prop in Hbit as [Hbit _]. split_and!; (done || lia).
    + intros (i & -> & Hi & Hbit). destruct (Z.eq_dec i t) as [->|Hneq]; [by left|]. right. exists i.
      assert (t < i) by (destruct (Z.lt_ge_cases i t); [by rewrite Hmin in Hbit by lia|lia]).
      rewrite Hclear, Hbit, (proj2 (Z.eqb_neq _ _)) by lia. split_and!; (done || lia).
Qed.

Lemma expand_spec page bits :
  bit_range bits -> increasing (expand (page, bits)) /\ len (expand (page, bits)) = count_ones bits /\
  forall x, x ∈ expand (page, bits) <-> x / PAGE_ROWS = page /\ Z.testbit bits (x mod PAGE_ROWS) = true.
Proof.
  intros Hb. destruct (expand_fuel_spec 64 page bits 0 Hb) as (Hinc & Hlen & Hin); [intros; lia|lia|lia|].
  split; [done|]. split; [done|]. intros x. unfold expand. cbn [fst snd]. rewrite Hin. unfold PAGE_ROWS. split.
  - intros (i & -> & Hi & Hbit). rewrite (Z.add_comm (page * 64)), Z.div_add, Z.div_small, Z.mod_add, Z.mod_small by lia. done.
  - intros [<- Hbit]. exists (x mod 64). pose proof (Z.mod_pos_bound x 64). pose proof (Z.div_mod x 64). split_and!; (done || lia).
Qed.

Lemma bit_spec id i : 0 <= i -> Z.testbit (bit id) i = (i =? id mod PAGE_ROWS).
Proof.
  intros Hi. unfold bit, PAGE_ROWS. pose proof (Z.mod_pos_bound id 64). rewrite Z.shiftl_1_l.
  rewrite Z.pow2_bits_eqb by lia. by rewrite Z.eqb_sym.
Qed.
Lemma bit_in_range id : bit_range (bit id).
Proof.
  apply bit_range_intro; [unfold bit; apply Z.shiftl_nonneg; lia|]. intros i Hi. rewrite bit_spec by lia.
  apply Z.eqb_neq. unfold PAGE_ROWS. pose proof (Z.mod_pos_bound id 64). lia.
Qed.
Lemma land_bit bits id : (Z.land bits (bit id) =? 0) = negb (Z.testbit bits (id mod PAGE_ROWS)).
Proof.
  pose proof (Z.mod_pos_bound id PAGE_ROWS ltac:(done)) as Hm. destruct (Z.testbit bits (id mod PAGE_ROWS)) eqn:E; cbn [negb].
  - apply Z.eqb_neq. intros H0. assert (Z.testbit (Z.land bits (bit id)) (id mod PAGE_ROWS) = true) as Ht.
    { rewrite Z.land_spec, bit_spec, E, Z.eqb_refl by lia. done. }
    by rewrite H0, Z.testbit_0_l in Ht.
  - apply Z.eqb_eq. apply Z.bits_inj'. intros i Hi. rewrite Z.land_spec, bit_spec, Z.testbit_0_l by lia.
    destruct (Z.eqb_spec i (id mod PAGE_ROWS)) as [->|]; [by rewrite E|apply andb_false_r].
Qed.
Lemma not64_spec m i : bit_range m -> 0 <= i < 64 -> Z.testbit (not64 m) i = negb (Z.testbit m i).
Proof.
  intros Hm Hi. unfold not64, U64_MAX. change (2 ^ 64 - 1) with (Z.ones 64).
  rewrite Z.sub_nocarry_ldiff.
  - rewrite Z.ldiff_spec, Z.ones_spec_low by lia. done.
  - apply Z.bits_inj'. intros j Hj. rewrite Z.ldiff_spec, Z.testbit_0_l. destruct (Z.lt_ge_cases j 64).
    + rewrite Z.ones_spec_low by lia. apply andb_false_r.
    + by rewrite testbit_high.
Qed.

(** ** Bitmaps *)

Definition bitmaps_ok (l : list (Z * Z)) : Prop :=
  StronglySorted (fun a b : Z * Z => a.1 < b.1) l /\ Forall (fun b => bit_range b.2) l.
Definition ids_of (l : list (Z * Z)) : list Z := concat (map expand l).

Lemma bitmaps_ok_cons b l : bitmaps_ok (b :: l) <-> bit_range b.2 /\ Forall (fun c => b.1 < c.1) l /\ bitmaps_ok l.
Proof.
  unfold bitmaps_ok. rewrite Forall_cons. split.
  - intros [Hs [Hb Hl]]. inversion Hs; subst. by split_and!.
  - intros (Hb & Hlt & Hs & Hl). split_and!; try done. by constructor.
Qed.
Lemma ids_of_spec l x : Forall (fun b => bit_range b.2) l ->
  x ∈ ids_of l <-> exists bits, (x / PAGE_ROWS, bits) ∈ l /\ Z.testbit bits (x mod PAGE_ROWS) = true.
Proof.
  unfold ids_of. induction 1 as [|[page bits] l Hb Hl IH]; cbn [map concat].
  { split; [by intros ?%not_elem_of_nil|]. by intros (b & ?%not_elem_of_nil & _). }
  rewrite elem_of_app, IH, (proj2 (proj2 (expand_spec page bits Hb))). split.
  - intros [[<- Ht]|(b & Hin & Ht)]; [exists bits; split; [left|done]|exists b; split; [by right|done]].
  - intros (b & [[= -> ->]|Hin]%elem_of_cons & Ht); [by left|]. right. by exists b.
Qed.
Lemma ids_of_increasing l : bitmaps_ok l -> increasing (ids_of l).
Proof.
  induction l as [|[page bits] l IH]; [constructor|]. intros (Hb & Hlt & Hl)%bitmaps_ok_cons. cbn [ids_of map concat].
  apply increasing_app; [by apply expand_spec|by apply IH|]. intros x y Hx Hy.
  apply (expand_spec page bits Hb) in Hx as [Hx _]. apply ids_of_spec in Hy as (b & Hin & _); [|apply Hl].
  rewrite Forall_forall in Hlt. specialize (Hlt _ Hin). cbn [fst] in Hlt.
  destruct (Z.lt_ge_cases x y); [done|]. pose proof (Z.div_le_mono y x PAGE_ROWS). unfold PAGE_ROWS in *. lia.
Qed.
Lemma ids_of_count l : Forall (fun b => bit_range b.2) l -> len (ids_of l) = zsum (fun b => count_ones b.2) l.
Proof.
  unfold ids_of. induction 1 as [|[page bits] l Hb Hl IH]; [done|]. cbn [map concat]. rewrite len_app, zsum_cons, IH.
  by rewrite (proj1 (proj2 (expand_spec page bits Hb))).
Qed.
Lemma ids_of_page l page bits x : bitmaps_ok l -> (page, bits) ∈ l -> x / PAGE_ROWS = page ->
  x ∈ ids_of l <-> Z.testbit bits (x mod PAGE_ROWS) = true.
Proof.
  intros [Hs Hr] Hin Hx. rewrite ids_of_spec by done. rewrite Hx. split; [|intros; by exists bits].
  intros (b & Hb & Ht). assert (b = bits) as ->; [|done]. clear -Hs Hin Hb.
  induction Hs as [|c l Hs IH Hlt]; [by apply not_elem_of_nil in Hin|]. rewrite Forall_forall in Hlt.
  apply elem_of_cons in Hin, Hb. destruct Hin as [Hin|Hin], Hb as [Hb|Hb]; [congruence| | |by apply IH].
  - specialize (Hlt _ Hb). subst c. cbn in Hlt. lia.
  - specialize (Hlt _ Hin). subst c. cbn in Hlt. lia.
Qed.
Lemma empty_bitmap page : expand (page, 0) = [].
Proof. reflexivity. Qed.
Lemma ids_of_nonzero l : ids_of (filter (fun b => b.2 <> 0) l) = ids_of l.
Proof.
  unfold ids_of. induction l as [|[page bits] l IH]; [done|]. rewrite filter_cons. cbn [map concat snd].
  destruct (decide (bits <> 0)) as [Hn|Hz]; cbn [map concat]; [by rewrite IH|].
  apply dec_stable in Hz as ->. by rewrite empty_bitmap, IH.
Qed.
Lemma bitmaps_ok_filter (P : Z * Z -> Prop) `{!forall x, Decision (P x)} l : bitmaps_ok l -> bitmaps_ok (filter P l).
Proof.
  induction l as [|b l IH]; [done|]. intros (Hb & Hlt & Hl)%bitmaps_ok_cons. rewrite filter_cons. destruct (decide (P b)); [|by apply IH].
  apply bitmaps_ok_cons. split_and!; [done| |by apply IH]. rewrite Forall_forall in Hlt |- *.
  intros c [_ Hc]%list_elem_of_filter. by apply Hlt.
Qed.

(** The bitmap of the ids of one page. *)
Lemma bitmap_of_spec page ids :
  ids <> [] -> increasing ids -> Forall (fun id => id / PAGE_ROWS = page) ids ->
  (bitmap_of ids).1 = page /\ bit_range (bitmap_of ids).2 /\ expand (bitmap_of ids) = ids.
Proof.
  intros Hne Hinc Hp. assert ((bitmap_of ids).1 = page) as H1 by (destruct ids; [done|]; by apply Forall_cons in Hp as [<- _]).
  assert (forall l acc, bit_range acc -> bit_range (fold_left (fun bits id => Z.lor bits (bit id)) l acc) /\
    forall i, 0 <= i -> Z.testbit (fold_left (fun bits id => Z.lor bits (bit id)) l acc) i = true <->
      Z.testbit acc i = true \/ exists id, id ∈ l /\ i = id mod PAGE_ROWS) as Hfold.
  { clear. induction l as [|id l IH]; intros acc Hacc; cbn [fold_left].
    { split; [done|]. intros i Hi. split; [by left|]. intros [?|(id & ?%not_elem_of_nil & _)]; done. }
    destruct (IH (Z.lor acc (bit id))) as [Hr Hb]; [apply lor_range; [done|apply bit_in_range]|].
    split; [done|]. intros i Hi. rewrite Hb, Z.lor_spec, orb_true_iff, bit_spec, Z.eqb_eq by done. setoid_rewrite elem_of_cons. naive_solver. }
  destruct (Hfold ids 0) as [Hr Hb]; [unfold bit_range; lia|]. split; [done|]. split; [exact Hr|].
  destruct (bitmap_of ids) as [pg bits] eqn:E. cbn [fst snd] in *. subst pg. unfold bitmap_of in E. injection E as _ <-.
  destruct (expand_spec page (fold_left (fun bits id => Z.lor bits (bit id)) ids 0) Hr) as (Hi & _ & Hin).
  apply increasing_ext; [done|done|]. intros x. rewrite Hin, Hb by (apply Z.mod_pos_bound; done). rewrite Z.testbit_0_l.
  rewrite Forall_forall in Hp. split.
  - intros [Hx [?|(id & Hid & Hm)]]; [done|]. specialize (Hp id Hid).
    assert (x = id) as ->; [|done]. rewrite (Z.div_mod x PAGE_ROWS), (Z.div_mod id PAGE_ROWS) by done. congruence.
  - intros Hx. split; [by apply Hp|]. right. by exists x.
Qed.

(** ** Directories *)

(** One of the two forms, ordered, with the right count. *)
Record ids_ok (e : EntryIds) : Prop := {
  io_explicit : increasing (explicit e);
  io_bitmaps : bitmaps_ok (bitmaps e);
  io_form : explicit e = [] \/ bitmaps e = [];
  io_count : id_count e = len (ids_iter e);
}.

Lemma ids_iter_increasing e : ids_ok e -> increasing (ids_iter e).
Proof.
  intros [He Hb Hf _]. unfold ids_iter. fold (ids_of (bitmaps e)).
  destruct Hf as [-> | ->]; [by apply ids_of_increasing|]. cbn. by rewrite app_nil_r.
Qed.

Lemma search_Some {A} (key : A -> Z) x l i : search key x l = Some i -> exists a, l !! i = Some a /\ key a = x.
Proof.
  revert i. induction l as [|y l IH]; intros i; cbn [search]; [done|]. destruct (Z.eqb_spec (key y) x) as [E|]; [intros [= <-]; by exists y|].
  intros (j & Hj & ->)%fmap_Some. by apply IH.
Qed.
Lemma search_None {A} (key : A -> Z) x l : search key x l = None -> forall a, a ∈ l -> key a <> x.
Proof.
  induction l as [|y l IH]; cbn [search]; intros Hs a Ha; [by apply not_elem_of_nil in Ha|].
  destruct (Z.eqb_spec (key y) x) as [|Hne]; [done|]. apply fmap_None in Hs.
  apply elem_of_cons in Ha as [->|Ha]; [done|by apply IH].
Qed.

Lemma ids_contains_spec e id : ids_ok e -> ids_contains e id = true <-> id ∈ ids_iter e.
Proof.
  intros [He Hb Hf _]. unfold ids_contains, ids_iter. fold (ids_of (bitmaps e)). rewrite elem_of_app.
  destruct (search _ id (explicit e)) as [i|] eqn:Es.
  { apply search_Some in Es as (a & Ha & ->). split; [intros _; left; by eapply list_elem_of_lookup_2|done]. }
  assert (id ∉ explicit e) as Hn by (intros Hin; by apply (search_None _ _ _ Es id Hin)).
  destruct (search fst (id / PAGE_ROWS) (bitmaps e)) as [i|] eqn:Eb; cbn [mbind option_bind].
  - apply search_Some in Eb as ([page bits] & Hi & Hp). rewrite Hi. cbn [fst] in Hp.
    rewrite land_bit, negb_involutive, (ids_of_page _ page bits id Hb (list_elem_of_lookup_2 _ _ _ Hi) (eq_sym Hp)). naive_solver.
  - split; [done|]. intros [?|Hin]; [done|]. apply ids_of_spec in Hin as (b & Hin & _); [|apply Hb].
    by destruct (search_None _ _ _ Eb _ Hin).
Qed.

(** Removing one element of an increasing list. *)
Lemma delete_increasing l i x : increasing l -> l !! i = Some x -> delete i l = filter (fun y => y <> x) l.
Proof.
  intros Hl. revert i. induction Hl as [|y l Hs IH Hy]; intros i Hi; [done|]. rewrite filter_cons. rewrite Forall_forall in Hy.
  destruct i as [|i]; cbn in Hi.
  - injection Hi as ->. rewrite decide_False by naive_solver. cbn. symmetry. apply filter_all. intros z Hz. specialize (Hy z Hz). lia.
  - rewrite decide_True by (apply list_elem_of_lookup_2 in Hi; specialize (Hy x Hi); lia). cbn. f_equal. by apply IH.
Qed.
Lemma filter_not_length (l : list Z) x : increasing l -> x ∈ l -> len (filter (fun y => y <> x) l) = len l - 1.
Proof.
  intros Hl [i Hi]%list_elem_of_lookup. rewrite <- (delete_increasing l i x Hl Hi). unfold len. rewrite length_delete by by exists x.
  pose proof (lookup_lt_Some _ _ _ Hi). lia.
Qed.

Lemma bitmaps_ok_insert l i page bits bits' :
  bitmaps_ok l -> l !! i = Some (page, bits) -> bit_range bits' -> bitmaps_ok (<[i := (page, bits')]> l).
Proof.
  revert i. induction l as [|b l IH]; intros i Hl Hi Hr; [done|]. apply bitmaps_ok_cons in Hl as (Hb & Hlt & Hl).
  destruct i as [|i]; cbn in Hi.
  - injection Hi as ->. cbn. apply bitmaps_ok_cons. by split_and!.
  - change (<[S i := (page, bits')]> (b :: l)) with (b :: <[i := (page, bits')]> l).
    apply bitmaps_ok_cons. split_and!; [done| |by apply IH]. rewrite Forall_forall in Hlt |- *. intros c Hc.
    apply list_elem_of_lookup in Hc as [j Hj]. destruct (decide (i = j)) as [->|Hne].
    + rewrite list_lookup_insert_eq in Hj by (by eapply lookup_lt_Some). injection Hj as <-. cbn.
      by apply (Hlt (page, bits)), (list_elem_of_lookup_2 _ j).
    + rewrite list_lookup_insert_ne in Hj by done. by apply Hlt, (list_elem_of_lookup_2 _ j).
Qed.
Lemma sorted_lookup_lt {A} (R : A -> A -> Prop) l i j x y :
  StronglySorted R l -> l !! i = Some x -> l !! j = Some y -> (i < j)%nat -> R x y.
Proof.
  intros Hs. revert i j. induction Hs as [|z l Hs IH Hz]; intros i j Hi Hj Hlt; [done|].
  destruct j as [|j]; [lia|]. cbn in Hj. destruct i as [|i]; cbn in Hi.
  - injection Hi as ->. rewrite Forall_forall in Hz. by apply Hz, (list_elem_of_lookup_2 _ j).
  - apply (IH i j); [done|done|lia].
Qed.
Lemma elem_of_insert_page l i page bits bits' p b :
  bitmaps_ok l -> l !! i = Some (page, bits) ->
  (p, b) ∈ <[i := (page, bits')]> l <-> (p = page /\ b = bits') \/ (p <> page /\ (p, b) ∈ l).
Proof.
  intros [Hs _] Hi. assert (forall j q, l !! j = Some (page, q) -> j = i) as Huniq.
  { intros j q Hj. destruct (Nat.lt_trichotomy j i) as [Hlt|[Heq|Hlt]]; [|done|]; exfalso;
      [pose proof (sorted_lookup_lt _ _ _ _ _ _ Hs Hj Hi Hlt)|pose proof (sorted_lookup_lt _ _ _ _ _ _ Hs Hi Hj Hlt)]; cbn in *; lia. }
  rewrite !list_elem_of_lookup. split.
  - intros [j Hj]. destruct (decide (i = j)) as [->|Hne].
    + rewrite list_lookup_insert_eq in Hj by (by eapply lookup_lt_Some). injection Hj as -> ->. by left.
    + rewrite list_lookup_insert_ne in Hj by done. right. split; [|by exists j]. intros ->. by apply Hne, eq_sym, (Huniq j b).
  - intros [[-> ->]|[Hne [j Hj]]].
    + exists i. apply list_lookup_insert_eq. by eapply lookup_lt_Some.
    + exists j. rewrite list_lookup_insert_ne; [done|]. intros ->. rewrite Hi in Hj. by injection Hj as -> _.
Qed.

Lemma ids_remove_spec e id :
  ids_ok e ->
  let '(removed, e') := ids_remove e id in
  ids_ok e' /\ (removed = true <-> id ∈ ids_iter e) /\ ids_iter e' = filter (fun x => x <> id) (ids_iter e).
Proof.
  intros Hok. pose proof (ids_contains_spec e id Hok) as Hc. pose proof (ids_iter_increasing e Hok) as Hinc.
  destruct Hok as [He Hb Hf Hn]. unfold ids_contains in Hc. unfold ids_remove.
  assert (id ∉ ids_iter e -> ids_ok e /\ (false = true <-> id ∈ ids_iter e) /\
    ids_iter e = filter (fun x => x <> id) (ids_iter e)) as Hno.
  { intros Hout. split; [done|]. split; [split; done|]. symmetry. apply filter_all. by intros x Hx ->. }
  destruct (search _ id (explicit e)) as [i|] eqn:Es.
  - apply search_Some in Es as (a & Ha & ->). assert (bitmaps e = []) as Hbn by (destruct Hf as [Hf|]; [by rewrite Hf in Ha|done]).
    unfold ids_iter in *. cbn [explicit bitmaps]. rewrite Hbn in *. cbn [map concat] in *. rewrite !app_nil_r in *.
    rewrite (delete_increasing _ i id He Ha). assert (id ∈ explicit e) as Hin by by eapply list_elem_of_lookup_2.
    split; [|done]. split; cbn [explicit bitmaps id_count]; [by apply increasing_filter|done|by right|].
    unfold ids_iter. cbn [explicit bitmaps map concat]. by rewrite app_nil_r, filter_not_length, Hn.
  - destruct (search fst (id / PAGE_ROWS) (bitmaps e)) as [i|] eqn:Eb; [|apply Hno; intros Hin; by apply Hc in Hin].
    apply search_Some in Eb as ([page bits] & Hi & Hp). cbn [fst] in Hp. cbn [mbind option_bind] in Hc. rewrite Hi in Hc |- *.
    destruct (Z.land bits (bit id) =? 0) eqn:El; cbn [negb] in *; [apply Hno; intros Hin; by apply Hc in Hin|].
    assert (id ∈ ids_iter e) as Hin by by apply Hc.
    assert (explicit e = []) as Hen by (destruct Hf as [|Hf]; [done|by rewrite Hf in Hi]).
    set (bits' := Z.land bits (not64 (bit id))).
    assert (bit_range bits) as Hr by (destruct Hb as [_ Hb]; rewrite Forall_forall in Hb; by apply (Hb (page, bits)), (list_elem_of_lookup_2 _ i)).
    assert (bit_range bits') as Hr' by by apply land_range.
    pose proof (bitmaps_ok_insert _ i page bits bits' Hb Hi Hr') as Hb'.
    assert (ids_of (<[i := (page, bits')]> (bitmaps e)) = filter (fun x => x <> id) (ids_iter e)) as Heq.
    { apply increasing_ext; [by apply ids_of_increasing|by apply increasing_filter|]. intros x.
      rewrite list_elem_of_filter. unfold ids_iter. fold (ids_of (bitmaps e)). rewrite Hen. cbn [app].
      rewrite !ids_of_spec by (apply Hb || apply Hb'). setoid_rewrite (elem_of_insert_page _ i page bits bits' _ _ Hb Hi).
      pose proof (Z.mod_pos_bound x PAGE_ROWS ltac:(done)) as Hm. unfold PAGE_ROWS in Hm.
      assert (Z.testbit bits' (x mod PAGE_ROWS) = Z.testbit bits (x mod PAGE_ROWS) && negb (x mod PAGE_ROWS =? id mod PAGE_ROWS)) as Hbit.
      { unfold bits'. rewrite Z.land_spec, not64_spec, bit_spec by (apply bit_in_range || (unfold PAGE_ROWS; lia)). done. }
      destruct (decide (x / PAGE_ROWS = page)) as [Hx|Hx].
      - split.
        + intros (b & [[_ ->]|[? _]] & Ht); [|done]. rewrite Hbit in Ht. apply andb_prop in Ht as [Ht Hne].
          split; [intros ->; by rewrite Z.eqb_refl in Hne|]. exists bits. rewrite Hx. split; [by eapply list_elem_of_lookup_2|done].
        + intros (Hne & b & Hbin & Ht). exists bits'. split; [by left|]. rewrite Hbit.
          assert (b = bits) as ->.
          { assert (x ∈ ids_of (bitmaps e)) as Hxin by (apply ids_of_spec; [apply Hb|by exists b]).
            destruct Hb as [Hs _]. apply list_elem_of_lookup in Hbin as [j Hj]. rewrite Hx in Hj.
            destruct (Nat.lt_trichotomy j i) as [Hl|[->|Hl]]; [|congruence|]; exfalso;
              [pose proof (sorted_lookup_lt _ _ _ _ _ _ Hs Hj Hi Hl)|pose proof (sorted_lookup_lt _ _ _ _ _ _ Hs Hi Hj Hl)]; cbn in *; lia. }
          rewrite Ht. cbn [andb]. apply negb_true_iff, Z.eqb_neq. intros Hmod. apply Hne.
          rewrite (Z.div_mod x PAGE_ROWS), (Z.div_mod id PAGE_ROWS) by done. congruence.
      - split.
        + intros (b & [[? _]|[_ Hbin]] & Ht); [done|]. split; [intros ->; congruence|]. by exists b.
        + intros (_ & b & Hbin & Ht). exists b. split; [by right|done]. }
    set (e' := {| explicit := explicit e |}).
    assert (ids_iter e' = filter (fun x => x <> id) (ids_iter e)) as Hit.
    { rewrite <- Heq. unfold ids_iter, e'. cbn [explicit bitmaps]. by rewrite Hen. }
    split; [|by split; [split|]]. split; [unfold e'; cbn; by rewrite Hen; constructor|done|by left|].
    rewrite Hit, filter_not_length by done. unfold e'. cbn [id_count]. by rewrite Hn.
Qed.

(** ** The bitmap form of a directory *)

Lemma chunk_bitmaps ids :
  increasing ids ->
  bitmaps_ok (map bitmap_of (chunk_by (fun id => id / PAGE_ROWS) ids)) /\
  ids_of (map bitmap_of (chunk_by (fun id => id / PAGE_ROWS) ids)) = ids.
Proof.
  intros Hinc. set (page := fun id => id / PAGE_ROWS).
  assert (StronglySorted (fun x y => page x <= page y) ids) as Hle.
  { eapply sorted_weaken; [|exact Hinc]. intros x y Hxy. apply Z.div_le_mono; unfold PAGE_ROWS; lia. }
  pose proof (chunk_by_sorted page ids Hle) as Hs. pose proof (chunk_by_ok page ids) as Hok.
  pose proof (chunk_by_concat page ids) as Hcat. rewrite <- Hcat in Hinc.
  assert (Forall (fun c => (bitmap_of c).1 = chunk_page page c /\ bit_range (bitmap_of c).2 /\ expand (bitmap_of c) = c) (chunk_by page ids)) as Hall.
  { clear Hs Hcat. induction Hok as [|c cs (x & Hx & Hc) _ IH]; constructor; cbn [concat] in Hinc; apply sorted_app_inv in Hinc as [H1 H2].
    - destruct c as [|y c]; [done|]. cbn in Hx. injection Hx as ->. by apply bitmap_of_spec.
    - by apply IH. }
  split; [split|].
  - apply sorted_map. clear -Hs Hall. induction Hs as [|c cs Hs IH Hlt]; [constructor|].
    apply Forall_cons in Hall as [(Hc & _) Hall]. constructor; [by apply IH|].
    rewrite Forall_forall in Hlt, Hall |- *. intros d Hd. destruct (Hall d Hd) as (-> & _). rewrite Hc. by apply Hlt.
  - apply Forall_map. eapply Forall_impl; [exact Hall|]. naive_solver.
  - unfold ids_of. rewrite map_map. etransitivity; [|exact Hcat]. f_equal.
    clear -Hall. induction Hall as [|c cs (_ & _ & Hc) _ IH]; [done|]. cbn [map]. by rewrite Hc, IH.
Qed.

Lemma ids_bitmaps_spec e : ids_ok e -> bitmaps_ok (ids_bitmaps e) /\ ids_of (ids_bitmaps e) = ids_iter e.
Proof.
  intros [He Hb Hf _]. unfold ids_bitmaps, ids_iter. fold (ids_of (bitmaps e)).
  destruct Hf as [-> | ->].
  - cbn [chunk_by map app]. rewrite app_nil_r. split; [by apply bitmaps_ok_filter|apply ids_of_nonzero].
  - cbn [map app]. rewrite filter_nil, app_nil_r. by apply chunk_bitmaps.
Qed.

(** ** Differences *)

Lemma skip_before_spec page l :
  bitmaps_ok l -> bitmaps_ok (skip_before page l) /\ Forall (fun b => page <= b.1) (skip_before page l) /\
  forall b, page <= b.1 -> b ∈ l <-> b ∈ skip_before page l.
Proof.
  induction l as [|[next bits] l IH]; intros Hl; cbn [skip_before]; [done|].
  apply bitmaps_ok_cons in Hl as (Hb & Hlt & Hl). cbn [fst] in *. destruct (Z.ltb_spec next page).
  - destruct (IH Hl) as (H1 & H2 & H3). split_and!; [done|done|]. intros b Hb'. rewrite elem_of_cons, <- H3 by done.
    split; [|by right]. intros [->|?]; [cbn in Hb'; lia|done].
  - split_and!; [by apply bitmaps_ok_cons| |done]. constructor; [done|]. eapply Forall_impl; [exact Hlt|]. cbn. lia.
Qed.

Lemma removed_bits_spec original current :
  bitmaps_ok original -> bitmaps_ok current ->
  forall x, x ∈ removed_bits original current <-> x ∈ ids_of original /\ x ∉ ids_of current.
Proof.
  revert current. induction original as [|[page bits] original IH]; intros current Ho Hc x; cbn [removed_bits].
  { split; [by intros ?%not_elem_of_nil|by intros [?%not_elem_of_nil _]]. }
  apply bitmaps_ok_cons in Ho as (Hb & Hlt & Ho). cbn [fst snd] in *.
  destruct (skip_before_spec page current Hc) as (Hk & Hge & Hmem). set (kept := skip_before page current) in *.
  assert (forall y, page <= y / PAGE_ROWS -> y ∈ ids_of current <-> y ∈ ids_of kept) as Hsame.
  { intros y Hy. rewrite !ids_of_spec by (apply Hc || apply Hk). split; intros (b & Hin & Ht); exists b; (split; [|done]); by apply Hmem. }
  assert (forall y, y ∈ ids_of original -> page < y / PAGE_ROWS) as Hlater.
  { intros y (b & Hin & _)%ids_of_spec; [|apply Ho]. rewrite Forall_forall in Hlt. by apply (Hlt _ Hin). }
  assert (forall y, y ∈ ids_of ((page, bits) :: original) <-> y ∈ expand (page, bits) \/ y ∈ ids_of original) as Hcons
    by (intros y; unfold ids_of; cbn [map concat]; apply elem_of_app).
  rewrite Hcons. destruct kept as [|[next keep] rest] eqn:Ek.
  - rewrite elem_of_app, (proj2 (proj2 (expand_spec page bits Hb))), IH by done. split.
    + intros [[Hx Ht]|[Hx _]]; (split; [auto|]); rewrite Hsame by (try specialize (Hlater x Hx); lia); by intros ?%not_elem_of_nil.
    + intros [[?|Hx] Hn]; [by left|]. right. split; [done|by intros ?%not_elem_of_nil].
  - apply bitmaps_ok_cons in Hk as (Hkb & Hklt & Hkr). cbn [fst snd] in *.
    assert (bitmaps_ok ((next, keep) :: rest)) as Hkall by (by apply bitmaps_ok_cons).
    apply Forall_cons in Hge as [Hnext _]. cbn [fst] in Hnext.
    destruct (Z.eqb_spec next page) as [->|Hne].
    + assert (forall y, y / PAGE_ROWS = page -> y ∈ ids_of current <-> Z.testbit keep (y mod PAGE_ROWS) = true) as Hpage.
      { intros y Hy. rewrite Hsame by lia. by apply (ids_of_page _ page keep); [|left|]. }
      assert (forall y, page < y / PAGE_ROWS -> y ∈ ids_of current <-> y ∈ ids_of rest) as Hrest.
      { intros y Hy. rewrite Hsame by lia. unfold ids_of. cbn [map concat]. rewrite elem_of_app.
        rewrite (proj2 (proj2 (expand_spec page keep Hkb))). split; [|by right]. intros [[? _]|?]; [lia|done]. }
      rewrite elem_of_app, (proj2 (proj2 (expand_spec page (Z.land bits (not64 keep)) (land_range _ _ Hb)))), IH by done.
      rewrite (proj2 (proj2 (expand_spec page bits Hb))). pose proof (Z.mod_pos_bound x PAGE_ROWS ltac:(done)) as Hm.
      rewrite Z.land_spec, not64_spec by (done || (unfold PAGE_ROWS in *; lia)). rewrite andb_true_iff, negb_true_iff. split.
      * intros [(Hx & Ht & Hkp)|[Hx Hn]]; (split; [auto|]).
        -- rewrite Hpage by done. congruence.
        -- rewrite Hrest; [done|by apply Hlater].
      * intros [[[Hx Ht]|Hx] Hn].
        -- left. split_and!; [done|done|]. rewrite Hpage in Hn by done. by apply not_true_iff_false.
        -- right. split; [done|]. rewrite Hrest in Hn; [done|by apply Hlater].
    + rewrite elem_of_app, IH, (proj2 (proj2 (expand_spec page bits Hb))) by done. split.
      * intros [[Hx Ht]|[Hx Hn]]; (split; [auto|]).
        -- rewrite Hsame by lia. intros (b & Hin & _)%ids_of_spec; [|apply Hkall]. rewrite Hx in Hin.
           apply elem_of_cons in Hin as [[= <- _]|Hin]; [done|]. rewrite Forall_forall in Hklt. specialize (Hklt _ Hin). cbn in Hklt. lia.
        -- rewrite Hsame; [done|]. specialize (Hlater x Hx). lia.
      * intros [[[Hx Ht]|Hx] Hn]; [by left|]. right. split; [done|]. rewrite <- Hsame; [done|]. specialize (Hlater x Hx). lia.
Qed.

Lemma removed_bits_increasing original current :
  bitmaps_ok original -> bitmaps_ok current -> increasing (removed_bits original current).
Proof.
  revert current. induction original as [|[page bits] original IH]; intros current Ho Hc; cbn [removed_bits]; [constructor|].
  apply bitmaps_ok_cons in Ho as (Hb & Hlt & Ho). cbn [fst snd] in *.
  destruct (skip_before_spec page current Hc) as (Hk & _ & _). set (kept := skip_before page current) in *.
  assert (forall bs rest, bit_range bs -> bitmaps_ok rest -> increasing (expand (page, bs) ++ removed_bits original rest)) as Hstep.
  { intros bs rest Hbs Hrest. apply increasing_app; [by apply expand_spec|by apply IH|]. intros x y Hx Hy.
    apply (expand_spec page bs Hbs) in Hx as [Hx _]. apply removed_bits_spec in Hy as [Hy _]; [|done|done].
    apply ids_of_spec in Hy as (b & Hin & _); [|apply Ho]. rewrite Forall_forall in Hlt. specialize (Hlt _ Hin). cbn [fst] in Hlt.
    destruct (Z.lt_ge_cases x y); [done|]. pose proof (Z.div_le_mono y x PAGE_ROWS). unfold PAGE_ROWS in *. lia. }
  destruct kept as [|[next keep] rest]; [by apply Hstep|]. destruct (next =? page); [|by apply Hstep].
  apply Hstep; [by apply land_range|]. by apply bitmaps_ok_cons in Hk as (_ & _ & Hk).
Qed.

Lemma removed_from_spec current original :
  ids_ok current -> ids_ok original -> (forall x, x ∈ ids_iter current -> x ∈ ids_iter original) ->
  removed_from current original = filter (fun x => x ∉ ids_iter current) (ids_iter original).
Proof.
  intros Hc Ho Hsub. pose proof (ids_iter_increasing _ Hc) as Ic. pose proof (ids_iter_increasing _ Ho) as Io.
  unfold removed_from. rewrite (io_count _ Hc), (io_count _ Ho). destruct (Z.eqb_spec (len (ids_iter current)) (len (ids_iter original))) as [E|E].
  - symmetry. apply filter_none. intros x Hx Hn. apply Hn.
    assert (ids_iter current ≡ₚ ids_iter original) as Hp; [|by rewrite Hp].
    apply submseteq_length_Permutation; [|unfold len in E; lia].
    apply NoDup_submseteq; [by apply increasing_NoDup|done].
  - destruct (ids_bitmaps_spec _ Hc) as [Bc Ec], (ids_bitmaps_spec _ Ho) as [Bo Eo].
    apply increasing_ext; [by apply removed_bits_increasing|by apply increasing_filter|].
    intros x. rewrite removed_bits_spec, list_elem_of_filter, Ec, Eo by done. tauto.
Qed.

#[local] Opaque expand.
(** Building a directory from an ordered list of ids. *)
Lemma ids_append_spec e id :
  ids_ok e -> explicit e = [] -> 0 <= id -> Forall (fun x => x < id) (ids_iter e) -> Forall (fun b => b.2 <> 0) (bitmaps e) ->
  exists e', ids_append id e = Ok e' /\ ids_ok e' /\ explicit e' = [] /\ ids_iter e' = ids_iter e ++ [id] /\
    Forall (fun b => b.2 <> 0) (bitmaps e').
Proof.
  intros Hok He Hid Hlt Hnz. pose proof (ids_iter_increasing e Hok) as Hinc. destruct Hok as [_ Hb _ Hn].
  unfold ids_iter in *. rewrite He in *. cbn [app] in *. fold (ids_of (bitmaps e)) in *.
  assert (forall l, bitmaps_ok l -> Forall (fun b => b.2 <> 0) l -> ids_of l = ids_of (bitmaps e) ++ [id] ->
    let e' := {| explicit := []; bitmaps := l; id_count := id_count e + 1 |} in
    ids_ok e' /\ explicit e' = [] /\ explicit e' ++ ids_of (bitmaps e') = ids_of (bitmaps e) ++ [id] /\
    Forall (fun b => b.2 <> 0) (bitmaps e')) as Hmk.
  { intros l Hl Hz Hids. split; [|done]. split; cbn [explicit bitmaps id_count]; [constructor|done|by left|].
    unfold ids_iter. cbn [explicit bitmaps app]. fold (ids_of l). rewrite Hids, len_app, Hn. done. }
  assert (forall page, Forall (fun b : Z * Z => b.1 < page) (bitmaps e) -> page = id / PAGE_ROWS ->
    bitmaps_ok (bitmaps e ++ [(page, bit id)]) /\ ids_of (bitmaps e ++ [(page, bit id)]) = ids_of (bitmaps e) ++ [id]) as Hnew.
  { intros page Hall ->. split.
    - destruct Hb as [Hs Hr]. split; [|apply Forall_app; split; [done|constructor; [apply bit_in_range|constructor]]].
      clear -Hs Hall. induction Hs as [|b l Hs IH Hb]; cbn [app]; [by repeat constructor|]. apply Forall_cons in Hall as [Hb1 Hall].
      constructor; [by apply IH|]. apply Forall_app. split; [done|by repeat constructor].
    - unfold ids_of. rewrite map_app, concat_app. cbn [map concat]. rewrite app_nil_r. f_equal.
      destruct (bitmap_of_spec (id / PAGE_ROWS) [id]) as (_ & _ & Hx); [done|by repeat constructor|by repeat constructor|].
      unfold bitmap_of in Hx. cbn [fold_left] in Hx. by rewrite Z.lor_0_l in Hx. }
  assert (bit id <> 0) as Hbit.
  { intros H0. assert (Z.testbit (bit id) (id mod PAGE_ROWS) = true) as Ht by (rewrite bit_spec; [apply Z.eqb_refl|apply Z.mod_pos_bound; done]).
    by rewrite H0, Z.testbit_0_l in Ht. }
  unfold ids_append. destruct (last (bitmaps e)) as [[previous bits]|] eqn:El.
  2: { apply last_None in El. rewrite El in *. destruct (Hnew _ ltac:(constructor) eq_refl) as [H1 H2].
       eexists. split; [done|]. rewrite He. apply Hmk; [exact H1|constructor; [exact Hbit|constructor]|exact H2]. }
  apply last_Some in El as [pre Epre]. rewrite Forall_forall in Hlt.
  assert ((previous, bits) ∈ bitmaps e) as Hlast by (rewrite Epre; apply elem_of_app; right; left).
  pose proof Hnz as Hnz'. rewrite Forall_forall in Hnz'. pose proof Hb as [Hs Hr]. pose proof Hr as Hr'. rewrite Forall_forall in Hr'.
  assert (bit_range bits) as Hbr by (by apply (Hr' (previous, bits))).
  assert (bits <> 0) as Hbits by (by apply (Hnz' (previous, bits))).
  assert (exists x, x ∈ ids_of (bitmaps e) /\ x / PAGE_ROWS = previous) as (x & Hx & Hxp).
  { destruct bits as [|p|p]; [done| |unfold bit_range in Hbr; lia]. destruct (lowest_bit p) as (H0 & Ht & _).
    set (t := trailing_zeros (Zpos p)) in *. assert (t < 64) by (destruct (Z.lt_ge_cases t 64); [done|]; by rewrite testbit_high in Ht).
    exists (previous * PAGE_ROWS + t). unfold PAGE_ROWS. rewrite (Z.add_comm (previous * 64)), Z.div_add, Z.div_small, Z.add_0_l by lia.
    split; [|done]. apply ids_of_spec; [done|]. exists (Zpos p). unfold PAGE_ROWS.
    by rewrite Z.div_add, Z.div_small, Z.add_0_l, Z.mod_add, Z.mod_small by lia. }
  pose proof (Hlt x Hx) as Hxid. assert (previous <= id / PAGE_ROWS) as Hle by (subst previous; apply Z.div_le_mono; unfold PAGE_ROWS; lia).
  destruct (Z.eqb_spec previous (id / PAGE_ROWS)) as [Ep|Ep].
  - rewrite land_bit. assert (Z.testbit bits (id mod PAGE_ROWS) = false) as Hfree.
    { apply not_true_iff_false. intros Ht. assert (id ∈ ids_of (bitmaps e)) as Hin by (apply ids_of_spec; [done|]; exists bits; by rewrite <- Ep).
      specialize (Hlt id Hin). lia. }
    rewrite Hfree. cbn [negb]. eexists. split; [done|]. rewrite He.
    assert (<[pred (length (bitmaps e)) := (previous, Z.lor bits (bit id))]> (bitmaps e) = pre ++ [(previous, Z.lor bits (bit id))]) as ->.
    { rewrite Epre, length_app. cbn [length]. rewrite Nat.add_1_r. cbn [pred]. rewrite insert_app_r_alt, Nat.sub_diag by lia. done. }
    assert (bit_range (Z.lor bits (bit id))) as Hbr' by (apply lor_range; [done|apply bit_in_range]).
    rewrite Epre in Hs, Hr, Hnz, Hinc, Hlt. apply Hmk.
    + split.
      * clear -Hs. induction pre as [|b pre IH]; cbn [app] in *; [by repeat constructor|].
        inversion Hs as [|? ? Hs' Hall]; subst. constructor; [by apply IH|]. apply Forall_app in Hall as [Ha Hc].
        apply Forall_app. split; [done|]. apply Forall_cons in Hc as [Hc _]. by repeat constructor.
      * apply Forall_app in Hr as [Hr _]. apply Forall_app. split; [done|]. constructor; [exact Hbr'|constructor].
    + apply Forall_app in Hnz as [Hnz _]. apply Forall_app. split; [done|]. constructor; [|constructor]. cbn [snd].
      intros H0%Z.lor_eq_0_iff. lia.
    + rewrite Epre. unfold ids_of in *. rewrite !map_app, !concat_app in *. cbn [map concat] in *. rewrite !app_nil_r in *.
      rewrite <- app_assoc. f_equal. destruct (expand_spec previous bits Hbr) as (I1 & _ & M1).
      destruct (expand_spec previous (Z.lor bits (bit id)) Hbr') as (I2 & _ & M2).
      apply increasing_ext; [done| |].
      * apply increasing_app; [done|by repeat constructor|]. intros a b Ha ->%list_elem_of_singleton. apply Hlt, elem_of_app. by right.
      * intros y. rewrite elem_of_app, list_elem_of_singleton, M1, M2, Z.lor_spec, orb_true_iff.
        rewrite bit_spec, Z.eqb_eq by (apply Z.mod_pos_bound; done). split.
        -- intros [Hy [Ht|Hm]]; [by left|]. right. rewrite (Z.div_mod y PAGE_ROWS), (Z.div_mod id PAGE_ROWS) by done. congruence.
        -- intros [[Hy Ht]|Hy]; [by auto|]. subst y. by auto.
  - rewrite (proj2 (Z.ltb_lt _ _)) by lia. eexists. split; [done|]. rewrite He.
    destruct (Hnew (id / PAGE_ROWS)) as [H1 H2]; [|done|].
    { rewrite Epre in Hs |- *. apply Forall_app. split; [|constructor; [cbn; lia|constructor]]. apply Forall_forall. intros b Hbin.
      apply list_elem_of_lookup in Hbin as [i Hi].
      assert (b.1 < previous); [|lia]. apply (sorted_lookup_lt _ _ i (length pre) b (previous, bits) Hs).
      - by apply lookup_app_l_Some.
      - by apply list_lookup_middle.
      - by eapply lookup_lt_Some. }
    apply Hmk; [done| |done]. apply Forall_app. split; [done|]. constructor; [exact Hbit|constructor].
Qed.

(** A directory of row identities, explicit or as bitmaps, behaves as the
    increasing list of its ids. Membership and removal act on exactly the given
    id and report whether it was there, the count stays the number of ids, and
    the difference with an earlier directory (computed by merging bitmaps, or
    skipped when the counts agree) is exactly the ids removed since, in order.
    Appending ids in increasing order never panics and appends. *)
Theorem entry_ids_refine_lists :
  (forall e id, ids_ok e -> ids_contains e id = true <-> id ∈ ids_iter e) /\
  (forall e id, ids_ok e ->
     let '(removed, e') := ids_remove e id in
     ids_ok e' /\ (removed = true <-> id ∈ ids_iter e) /\ ids_iter e' = filter (fun x => x <> id) (ids_iter e)) /\
  (forall current original, ids_ok current -> ids_ok original ->
     (forall x, x ∈ ids_iter current -> x ∈ ids_iter original) ->
     removed_from current original = filter (fun x => x ∉ ids_iter current) (ids_iter original)) /\
  (forall e id, ids_ok e -> explicit e = [] -> 0 <= id -> Forall (fun x => x < id) (ids_iter e) ->
     Forall (fun b => b.2 <> 0) (bitmaps e) ->
     exists e', ids_append id e = Ok e' /\ ids_ok e' /\ ids_iter e' = ids_iter e ++ [id]) /\
  (forall e, ids_ok e -> increasing (ids_iter e)).
Proof.
  split_and!.
  - intros e id. apply ids_contains_spec.
  - intros e id. apply ids_remove_spec.
  - apply removed_from_spec.
  - intros e id H1 H2 H3 H4 H5. destruct (ids_append_spec e id H1 H2 H3 H4 H5) as (e' & Ha & Hb & _ & Hc & _). by exists e'.
  - apply ids_iter_increasing.
Qed.
