(* ===== verification/RowEntriesSpec.v ===== *)
(** * The bitmap manifest keeps every row identity *)

From Stdlib Require Import ZArith Lia Strings.Byte.
From stdpp Require Import base list option numbers strings sorting.
From S2P Require Import Prelude Bytes OrdMap RegularJoin JoinCodec JoinCodecSpec JoinPages JoinPagesSpec EntryIdsSpec.

#[local] Opaque expand.

(** ** Merging bitmaps *)

(** Bitmaps with ids, ordered by page; neighbours may share a page. *)
Definition bitmap_ok (b : Z * Z) : Prop := bit_range b.2 /\ b.2 <> 0.
Definition mergeable (l : list (Z * Z)) : Prop :=
  StronglySorted (fun a b : Z * Z => a.1 <= b.1) l /\ Forall bitmap_ok l.

Lemma mergeable_cons b l : mergeable (b :: l) <-> bitmap_ok b /\ Forall (fun c => b.1 <= c.1) l /\ mergeable l.
Proof.
  unfold mergeable. rewrite Forall_cons. split.
  - intros [Hs [Hb Hl]]. inversion Hs; subst. by split_and!.
  - intros (Hb & Hlt & Hs & Hl). split_and!; try done. by constructor.
Qed.
Lemma bitmap_ok_lor page b c : bitmap_ok (page, b) -> bitmap_ok (page, c) -> bitmap_ok (page, Z.lor b c).
Proof.
  intros [Hb Hb0] [Hc _]. cbn [snd] in *. split; [by apply lor_range|]. cbn [snd]. intros H0%Z.lor_eq_0_iff. by destruct H0.
Qed.
Lemma expand_lor page b c x :
  bit_range b -> bit_range c -> x ∈ expand (page, Z.lor b c) <-> x ∈ expand (page, b) \/ x ∈ expand (page, c).
Proof.
  intros Hb Hc. destruct (expand_spec page (Z.lor b c) (lor_range _ _ Hb Hc)) as (_ & _ & ->).
  destruct (expand_spec page b Hb) as (_ & _ & ->), (expand_spec page c Hc) as (_ & _ & ->). rewrite Z.lor_spec, orb_true_iff. tauto.
Qed.
Lemma elem_of_ids_of_cons b l x : x ∈ ids_of (b :: l) <-> x ∈ expand b \/ x ∈ ids_of l.
Proof. unfold ids_of. cbn [map concat]. apply elem_of_app. Qed.

Lemma merge_from page bits l :
  bitmap_ok (page, bits) -> Forall (fun c => page <= c.1) l -> mergeable l ->
  bitmaps_ok (merge_bitmaps (Some (page, bits)) l) /\ Forall bitmap_ok (merge_bitmaps (Some (page, bits)) l) /\
  Forall (fun c => page <= c.1) (merge_bitmaps (Some (page, bits)) l) /\
  forall x, x ∈ ids_of (merge_bitmaps (Some (page, bits)) l) <-> x ∈ expand (page, bits) \/ x ∈ ids_of l.
Proof.
  revert page bits. induction l as [|[p b] l IH]; intros page bits Hb Hle Hm; cbn [merge_bitmaps].
  { split_and!; [split; [by repeat constructor|constructor; [apply Hb|constructor]]|by constructor|by constructor; [cbn|]|].
    intros x. apply elem_of_ids_of_cons. }
  apply mergeable_cons in Hm as (Hpb & Hge & Hm). apply Forall_cons in Hle as [Hpp Hle]. cbn [fst] in *.
  destruct (Z.eqb_spec page p) as [->|Hne].
  - destruct (IH p (Z.lor bits b) (bitmap_ok_lor _ _ _ Hb Hpb) Hge Hm) as (H1 & H2 & H3 & H4). split_and!; [done..|].
    intros x. rewrite H4, elem_of_ids_of_cons, expand_lor by (apply Hb || apply Hpb). tauto.
  - destruct (IH p b Hpb Hge Hm) as (H1 & H2 & H3 & H4). split_and!.
    + apply bitmaps_ok_cons. split_and!; [apply Hb| |done]. eapply Forall_impl; [exact H3|]. cbn. lia.
    + by constructor.
    + constructor; [done|]. eapply Forall_impl; [exact H3|]. cbn. lia.
    + intros x. rewrite !elem_of_ids_of_cons, H4. done.
Qed.
Lemma merge_spec l :
  mergeable l -> bitmaps_ok (merge_bitmaps None l) /\ Forall bitmap_ok (merge_bitmaps None l) /\
  forall x, x ∈ ids_of (merge_bitmaps None l) <-> x ∈ ids_of l.
Proof.
  destruct l as [|[p b] l]; intros Hm; cbn [merge_bitmaps].
  { split_and!; [by split; constructor|constructor|done]. }
  apply mergeable_cons in Hm as (Hb & Hge & Hm). destruct (merge_from p b l Hb Hge Hm) as (H1 & H2 & _ & H4).
  split_and!; [done|done|]. intros x. by rewrite H4, elem_of_ids_of_cons.
Qed.

(** ** The bitmaps of a side *)

Definition opt_ids (e : option EntryIds) : list Z := match e with Some e => ids_iter e | None => [] end.
(** Unloaded ids lie below those of the loaded rows, all below the next one. *)
Record ids_side_ok (next : Z) (unloaded : option EntryIds) (rows : list StoredRow) : Prop := {
  is_rows : side_ok next rows;
  is_unloaded : forall e, unloaded = Some e -> ids_ok e;
  is_below : forall x, x ∈ opt_ids unloaded -> 0 <= x < next /\ Forall (fun r => x < sr_id r) rows;
}.
Definition side_ids (unloaded : option EntryIds) (rows : list StoredRow) : list Z := opt_ids unloaded ++ map sr_id rows.
Definition side_bitmaps (unloaded : option EntryIds) (rows : list StoredRow) : list (Z * Z) :=
  merge_bitmaps None (unloaded_bitmaps unloaded ++ row_bitmaps rows).

Lemma row_bitmaps_spec next rows :
  side_ok next rows -> bitmaps_ok (row_bitmaps rows) /\ ids_of (row_bitmaps rows) = map sr_id rows.
Proof.
  intros [_ _ _ Hs]. assert (increasing (map sr_id rows)) as Hinc by (by apply sorted_map).
  assert (row_bitmaps rows = map bitmap_of (chunk_by (fun id => id / PAGE_ROWS) (map sr_id rows))) as ->.
  { unfold row_bitmaps. rewrite chunk_by_map, map_map. done. }
  by apply chunk_bitmaps.
Qed.
Lemma unloaded_spec e :
  (forall x, e = Some x -> ids_ok x) -> bitmaps_ok (unloaded_bitmaps e) /\ ids_of (unloaded_bitmaps e) = opt_ids e.
Proof. destruct e as [e|]; intros He; [by apply ids_bitmaps_spec, He|]. split; [by split; constructor|done]. Qed.

Lemma bitmap_has_id page bits : bitmap_ok (page, bits) -> page * PAGE_ROWS + Z.log2 bits ∈ expand (page, bits) /\ 0 <= Z.log2 bits < 64.
Proof.
  intros [Hb Hn]. cbn [snd] in *. assert (0 < bits) as Hpos by (unfold bit_range in Hb; lia).
  assert (0 <= Z.log2 bits < 64) as Hl by (split; [apply Z.log2_nonneg|apply Z.log2_lt_pow2; unfold bit_range in Hb; lia]).
  split; [|done]. destruct (expand_spec page bits Hb) as (_ & _ & ->). unfold PAGE_ROWS.
  rewrite (Z.add_comm (page * 64)), Z.div_add, Z.div_small, Z.mod_add, Z.mod_small by lia. split; [lia|by apply Z.bit_log2].
Qed.
(** Bitmaps without empty ones. *)
Lemma nonzero_bitmaps e : (forall x, e = Some x -> ids_ok x) -> Forall bitmap_ok (unloaded_bitmaps e).
Proof.
  intros He. destruct (unloaded_spec e He) as [[_ Hr] _]. destruct e as [e|]; [|constructor]. cbn [unloaded_bitmaps] in *.
  specialize (He e eq_refl). unfold ids_bitmaps in *. apply Forall_app in Hr as [Hr1 Hr2]. apply Forall_app. split.
  - rewrite Forall_forall in Hr1 |- *. intros b Hb. split; [by apply Hr1|]. by apply list_elem_of_filter in Hb as [Hb _].
  - destruct He as [Hinc _ _ _]. destruct (chunk_bitmaps (explicit e) Hinc) as [_ Hids]. clear Hr1.
    pose proof (chunk_by_ok (fun id => id / PAGE_ROWS) (explicit e)) as Hok.
    pose proof (chunk_by_concat (fun id => id / PAGE_ROWS) (explicit e)) as Hcat. rewrite <- Hcat in Hinc. clear Hids Hcat Hr2.
    apply Forall_map. induction Hok as [|c cs (x & Hx & Hc) _ IH]; constructor; cbn [concat] in Hinc; apply sorted_app_inv in Hinc as [H1 H2].
    + destruct c as [|y c]; [done|]. destruct (bitmap_of_spec (x / PAGE_ROWS) (y :: c)) as (_ & Hr & Hexp); [done|done|done|].
      split; [done|]. intros H0. destruct (bitmap_of (y :: c)) as [pg bs]. cbn in H0. subst bs. by rewrite empty_bitmap in Hexp.
    + by apply IH.
Qed.

Lemma rows_nonzero next rows : side_ok next rows -> Forall bitmap_ok (row_bitmaps rows).
Proof.
  intros [_ _ _ Hs]. assert (increasing (map sr_id rows)) as Hinc by (by apply sorted_map).
  pose proof (nonzero_bitmaps (Some (ids_explicit (map sr_id rows)))) as Hn. cbn [unloaded_bitmaps] in Hn.
  unfold ids_bitmaps, ids_explicit in Hn. cbn [bitmaps explicit] in Hn. rewrite filter_nil in Hn. cbn [app] in Hn.
  unfold row_bitmaps. rewrite chunk_by_map, map_map in Hn. apply Hn. intros x [= <-].
  split; [done|by split; constructor|by right|]. unfold ids_iter. cbn [explicit bitmaps map concat id_count]. by rewrite app_nil_r.
Qed.

Lemma side_mergeable next unloaded rows :
  ids_side_ok next unloaded rows -> mergeable (unloaded_bitmaps unloaded ++ row_bitmaps rows).
Proof.
  intros [Hr Hu Hb]. destruct (row_bitmaps_spec next rows Hr) as [[Rs Rr] Ri], (unloaded_spec unloaded Hu) as [[Us Ur] Ui].
  split; [|apply Forall_app; split; [by apply nonzero_bitmaps|by eapply rows_nonzero]].
  apply StronglySorted_app_2.
  - intros [p1 b1] [p2 b2] H1 H2. cbn [fst].
    pose proof (nonzero_bitmaps unloaded Hu) as Hnu. pose proof (rows_nonzero next rows Hr) as Hnr. rewrite Forall_forall in Hnu, Hnr.
    destruct (bitmap_has_id p1 b1 (Hnu _ H1)) as [Hi1 Hl1], (bitmap_has_id p2 b2 (Hnr _ H2)) as [Hi2 Hl2].
    assert (forall b l x, b ∈ l -> x ∈ expand b -> x ∈ ids_of l) as Hin.
    { intros b l x Hbl Hx. unfold ids_of. apply list_elem_of_In, in_concat. exists (expand b).
      split; [apply list_elem_of_In, list_elem_of_fmap; by exists b|by apply list_elem_of_In]. }
    pose proof (Hin _ _ _ H1 Hi1) as Hx1. pose proof (Hin _ _ _ H2 Hi2) as Hx2. rewrite Ui in Hx1. rewrite Ri in Hx2.
    destruct (Hb _ Hx1) as [_ Hlt]. apply list_elem_of_fmap in Hx2 as (r & Hr2 & Hrin). rewrite Forall_forall in Hlt.
    specialize (Hlt r Hrin). rewrite <- Hr2 in Hlt. unfold PAGE_ROWS in Hlt. lia.
  - eapply sorted_weaken; [|exact Us]. cbn. lia.
  - eapply sorted_weaken; [|exact Rs]. cbn. lia.
Qed.

Lemma side_bitmaps_spec next unloaded rows :
  ids_side_ok next unloaded rows ->
  bitmaps_ok (side_bitmaps unloaded rows) /\ Forall bitmap_ok (side_bitmaps unloaded rows) /\
  ids_of (side_bitmaps unloaded rows) = side_ids unloaded rows /\
  Forall (fun x => 0 <= x < next) (side_ids unloaded rows).
Proof.
  intros Hs. destruct (merge_spec _ (side_mergeable next unloaded rows Hs)) as (H1 & H2 & H3). destruct Hs as [Hr Hu Hb].
  destruct (row_bitmaps_spec next rows Hr) as [_ Ri], (unloaded_spec unloaded Hu) as [Uok Ui].
  split_and!; [done|done| |].
  - apply increasing_ext; [by apply ids_of_increasing| |].
    + unfold side_ids. apply increasing_app; [rewrite <- Ui; by apply ids_of_increasing|by apply sorted_map, Hr|].
      intros x y Hx (r & -> & Hrin)%list_elem_of_fmap. destruct (Hb x Hx) as [_ Hlt]. rewrite Forall_forall in Hlt. by apply Hlt.
    + intros x. unfold side_bitmaps. rewrite H3. unfold ids_of. rewrite map_app, concat_app. fold (ids_of (unloaded_bitmaps unloaded)).
      fold (ids_of (row_bitmaps rows)). by rewrite Ui, Ri.
  - unfold side_ids. apply Forall_app. split; [apply Forall_forall; intros x Hx; apply (Hb x Hx)|]. apply Forall_map, Hr.
Qed.

(** ** Scanning *)

(** [p] reads [bs], gives [a] and turns the visitor's state into [st']. *)
Definition scans {S A} (p : M (input * S) A) (bs : bytes) (st : S) (a : A) (st' : S) : Prop :=
  forall pre r, slice_ok (pre ++ bs ++ r) -> p (cursor pre (bs ++ r), st) = (Ok a, (cursor (pre ++ bs) r, st')).

Section scans.
Context {S : Type}.

Lemma scans_on {A} (p : M input A) bs a (st : S) : reads p bs a -> scans (on_input p) bs st a st.
Proof. intros Hp pre r Hok. unfold on_input. by rewrite (Hp pre r Hok). Qed.
Lemma scans_bind {A B} (p : M (input * S) A) (k : A -> M (input * S) B) x y st st1 st2 a b :
  scans p x st a st1 -> scans (k a) y st1 b st2 -> scans (p ≫= k) (x ++ y) st b st2.
Proof.
  intros Hp Hk pre r Hok. rewrite <- app_assoc in *. rewrite (M_bind_run _ _ _ a (cursor (pre ++ x) (y ++ r), st1)).
  - rewrite Hk; [by rewrite app_assoc|by rewrite <- app_assoc].
  - by apply Hp.
Qed.
Lemma scans_ret {A} (a : A) (st : S) : scans (mret a) [] st a st.
Proof. intros pre r _. by rewrite app_nil_r. Qed.
Lemma scans_remaining {A} (k : Z -> M (input * S) A) bs a st st' :
  (forall n, len bs <= n -> scans (k n) bs st a st') -> scans (on_input r_remaining ≫= k) bs st a st'.
Proof.
  intros Hk pre r Hok. rewrite (M_bind_run _ _ _ (len (bs ++ r)) (cursor pre (bs ++ r), st)).
  - apply Hk; [rewrite len_app; pose proof (len_nonneg r); lia|done].
  - unfold on_input, r_remaining, gets. cbn [ibytes ioff cursor]. do 2 f_equal. rewrite !len_app. lia.
Qed.
Lemma scans_when {A} b e (k : M (input * S) A) bs a st st' :
  b = false -> scans k bs st a st' -> scans (on_input (when b e) ≫= fun _ => k) bs st a st'.
Proof. intros -> Hk pre r Hok. by apply Hk. Qed.

(** The visitor accepts every bitmap in turn. *)
Fixpoint visits (visit : Z -> Z -> Z -> M S unit) (next : Z) (l : list (Z * Z)) (st st' : S) : Prop :=
  match l with
  | [] => st' = st
  | (page, bits) :: l => exists st1, visit page bits next st = (Ok tt, st1) /\ visits visit next l st1 st'
  end.

(** Bitmaps the reader accepts below [next]. *)
Record scannable (next : Z) (l : list (Z * Z)) : Prop := {
  sc_next : is_u64 next;
  sc_ok : bitmaps_ok l;
  sc_nonzero : Forall bitmap_ok l;
  sc_below : Forall (fun x => 0 <= x < next) (ids_of l);
}.
Lemma scannable_cons next page bits l :
  scannable next ((page, bits) :: l) ->
  bit_range bits /\ bits <> 0 /\ 0 <= page <= U64_MAX / PAGE_ROWS /\ page * PAGE_ROWS + highest_bit bits < next /\
  Forall (fun b => page < b.1) l /\ scannable next l.
Proof.
  intros [Hn Hok Hz Hb]. apply bitmaps_ok_cons in Hok as (Hr & Hlt & Hok). apply Forall_cons in Hz as [Hz Hzs].
  unfold ids_of in Hb. cbn [map concat] in Hb. apply Forall_app in Hb as [Hb Hbs].
  destruct (bitmap_has_id page bits Hz) as [Hin Hlog]. rewrite Forall_forall in Hb. pose proof (Hb _ Hin) as Hid.
  assert (0 <= page) as Hp by (unfold PAGE_ROWS in Hid; lia).
  split_and!; try done; [apply Hz| |apply Hid]. apply Z.div_le_lower_bound; [done|]. unfold is_u64 in Hn. unfold PAGE_ROWS in *. lia.
Qed.

Lemma scans_side (visit : Z -> Z -> Z -> M S unit) next previous total l st st' :
  scannable next l -> (forall p, previous = Some p -> Forall (fun b => p < b.1) l) ->
  0 <= total -> total + len (ids_of l) <= USIZE_MAX -> visits visit next l st st' ->
  scans (scan_side visit next previous total (length l)) (concat (map encode_bitmap l)) st (total + len (ids_of l)) st'.
Proof.
  revert previous total st. induction l as [|[page bits] l IH]; intros previous total st Hs Hp Ht Hmax Hv; cbn [length scan_side map concat].
  { cbn in Hv. subst. change (len (ids_of [])) with 0. rewrite Z.add_0_r. apply scans_ret. }
  pose proof (sc_next _ _ Hs) as Hn. destruct (scannable_cons _ _ _ _ Hs) as (Hr & Hz & Hpg & Hhigh & Hlt & Hs').
  destruct Hv as (st1 & Hv1 & Hv). unfold ids_of in Hmax. cbn [map concat] in Hmax. fold (ids_of l) in Hmax. rewrite len_app in Hmax.
  destruct (expand_spec page bits Hr) as (_ & Hcount & _). rewrite Hcount in Hmax.
  pose proof (count_ones_nonneg bits). pose proof (len_nonneg (ids_of l)).
  intros pre r Hok. rewrite <- app_assoc in *.
  match goal with |- context [match ?p (cursor pre _) with _ => _ end] =>
    assert (reads p (encode_bitmap (page, bits)) (page, bits, total + count_ones bits)) as Hread end.
  { unfold encode_bitmap. cbn [fst snd].
    eapply reads_bind; [apply reads_r_u64; unfold is_u64; assert (U64_MAX / PAGE_ROWS <= U64_MAX) by done; lia|].
    rewrite <- (app_nil_r (to_le 8 bits)).
    eapply reads_bind; [apply reads_r_u64; unfold is_u64, bit_range, U64_MAX in *; lia|].
    apply reads_when.
    { rewrite (proj2 (Z.ltb_ge _ _)), (proj2 (Z.eqb_neq _ _)) by lia. cbn [orb].
      destruct previous as [p|]; [|done]. specialize (Hp p eq_refl). apply Forall_cons in Hp as [Hp _]. by apply Z.leb_gt. }
    apply reads_when; [apply Z.leb_gt; lia|].
    assert (checked_add total (count_ones bits) = Some (total + count_ones bits)) as -> by (unfold checked_add; rewrite (proj2 (Z.leb_le _ _)) by lia; done).
    intros pre0 r0 _. by rewrite app_nil_r. }
  rewrite (Hread pre _ Hok), Hv1. rewrite (IH (Some page)).
  - rewrite <- app_assoc. f_equal; f_equal. unfold ids_of. cbn [map concat]. rewrite len_app, Hcount. fold (ids_of l). lia.
  - done.
  - by intros p [= <-].
  - lia.
  - lia.
  - done.
  - by rewrite <- app_assoc.
Qed.
End scans.

(** ** The whole manifest *)

Definition encode_bitmaps (l : list (Z * Z)) : bytes := to_le 8 (len l) ++ concat (map encode_bitmap l).
Lemma bitmaps_size l : len (concat (map encode_bitmap l)) = 16 * len l.
Proof.
  induction l as [|b l IH]; [done|]. cbn [map concat]. rewrite len_app, len_cons, IH. unfold encode_bitmap.
  rewrite len_app, !len_to_le. lia.
Qed.

Definition side_scan {S} (visit : Z -> Z -> Z -> M S unit) (next total : Z) : M (input * S) Z :=
  count ← on_input r_u64;
  remaining ← on_input r_remaining;
  _ ← on_input (when (remaining / 16 <? count) invalid);
  scan_side visit next None total (Z.to_nat count).
Lemma scans_side_scan {S} (visit : Z -> Z -> Z -> M S unit) next total l (st st' : S) :
  scannable next l -> len l <= U64_MAX -> 0 <= total -> total + len (ids_of l) <= USIZE_MAX -> visits visit next l st st' ->
  scans (side_scan visit next total) (encode_bitmaps l) st (total + len (ids_of l)) st'.
Proof.
  intros Hs Hl Ht Hmax Hv. unfold side_scan, encode_bitmaps. pose proof (len_nonneg l).
  eapply scans_bind; [apply scans_on, reads_r_u64; unfold is_u64; lia|]. apply scans_remaining. intros n Hn. apply scans_when.
  { apply Z.ltb_ge. rewrite bitmaps_size in Hn. apply Z.div_le_lower_bound; lia. }
  rewrite len_to_nat. by apply scans_side.
Qed.

(** Reading up to the end of the slice. *)
Definition scans_end {S A} (p : M (input * S) A) (pre bs : bytes) (st : S) (a : A) (st' : S) : Prop :=
  slice_ok (pre ++ bs) -> exists i, p (cursor pre bs, st) = (Ok a, (i, st')).
Lemma scans_end_bind {S A B} (p : M (input * S) A) (k : A -> M (input * S) B) pre x y st st1 st2 a b :
  scans p x st a st1 -> scans_end (k a) (pre ++ x) y st1 b st2 -> scans_end (p ≫= k) pre (x ++ y) st b st2.
Proof.
  intros Hp Hk Hok. rewrite (M_bind_run _ _ _ a (cursor (pre ++ x) y, st1)) by by apply Hp.
  apply Hk. by rewrite <- app_assoc.
Qed.
Lemma scans_end_finish {S A} (a : A) pre (st : S) : scans_end (_ ← on_input r_finish; mret a) pre [] st a st.
Proof.
  intros Hok. eexists. unfold on_input, r_finish, r_remaining, gets, mbind, M_bind. cbn [ibytes ioff cursor].
  by rewrite !app_nil_r, Z.sub_diag.
Qed.

Definition rows_bytes (m : option bool * option bool) (next : Z * Z) (l r : list (Z * Z)) : bytes :=
  rows_header m next ++ encode_bitmaps l ++ encode_bitmaps r.

Lemma scan_bitmaps_encoded {S} (visit : Z -> Z -> Z -> Z -> M S unit) m a b l r (st st1 st2 : S) :
  scannable a l -> scannable b r -> len (ids_of l) + len (ids_of r) <= USIZE_MAX -> slice_ok (rows_bytes m (a, b) l r) ->
  visits (visit 0) a l st st1 -> visits (visit 1) b r st1 st2 ->
  scan_bitmaps visit (rows_bytes m (a, b) l r) st = (Ok (m, (a, b), len (ids_of l) + len (ids_of r)), st2).
Proof.
  intros Hl Hr Hmax Hok Hvl Hvr. unfold scan_bitmaps, reader_new.
  assert (starts_with (rows_bytes m (a, b) l r) ROWS_MAGIC = true) as -> by (apply starts_with_spec; eexists; unfold rows_bytes, rows_header; by rewrite <- app_assoc).
  assert (len l <= U64_MAX /\ len r <= U64_MAX) as [Hll Hlr].
  { unfold slice_ok, rows_bytes, encode_bitmaps in Hok. rewrite !len_app, !bitmaps_size, !len_to_le in Hok.
    pose proof (len_nonneg (rows_header m (a, b))). pose proof (len_nonneg l). pose proof (len_nonneg r). unfold I64_MAX, U64_MAX in *. lia. }
  pose proof (len_nonneg (ids_of l)). pose proof (len_nonneg (ids_of r)).
  unfold rows_bytes, rows_header in *. rewrite <- app_assoc in *.
  change ({| ibytes := ROWS_MAGIC ++ ?b; ioff := len ROWS_MAGIC |}) with (cursor ROWS_MAGIC b).
  match goal with |- context [let '(_, _) := ?p (cursor ?pre ?bs, st) in _] =>
    assert (scans_end p pre bs st (m, (a, b), len (ids_of l) + len (ids_of r)) st2) as He end.
  { unfold manifest_body. destruct m as [m1 m2]. cbn [fst snd]. rewrite <- !app_assoc.
    eapply scans_end_bind; [apply scans_on, reads_matchable|]. eapply scans_end_bind; [apply scans_on, reads_matchable|].
    eapply scans_end_bind; [apply scans_on, reads_r_u64, Hl|]. eapply scans_end_bind; [apply scans_on, reads_r_u64, Hr|].
    eapply scans_end_bind; [apply (scans_side_scan (visit 0) a 0); try done; lia|]. rewrite <- (app_nil_r (encode_bitmaps r)).
    eapply scans_end_bind; [apply (scans_side_scan (visit 1) b); try done; lia|]. apply scans_end_finish. }
  destruct (He Hok) as [i Hi]. by rewrite Hi.
Qed.

Lemma visits_none next l : visits (S := unit) (fun _ _ _ => mret tt) next l tt tt.
Proof. induction l as [|[p b] l IH]; [done|]. by exists tt. Qed.
Lemma visits_left next l x y : visits (push_bitmap 0) next l (x, y) (x ++ l, y).
Proof.
  revert x. induction l as [|[p b] l IH]; intros x; cbn [visits]; [by rewrite app_nil_r|].
  exists (x ++ [(p, b)], y). split; [done|]. rewrite (app_assoc x [(p, b)] l : x ++ (p, b) :: l = _). apply IH.
Qed.
Lemma visits_right next l x y : visits (push_bitmap 1) next l (x, y) (x, y ++ l).
Proof.
  revert y. induction l as [|[p b] l IH]; intros y; cbn [visits]; [by rewrite app_nil_r|].
  exists (x, y ++ [(p, b)]). split; [done|]. rewrite (app_assoc y [(p, b)] l : y ++ (p, b) :: l = _). apply IH.
Qed.

Definition rows_manifest (m : option bool * option bool) (next : Z * Z) (l r : list (Z * Z)) : Manifest :=
  {| m_layout := Rows; m_next_row_id := next; m_matchable := m;
     m_pages := (ids_from_bitmaps l, ids_from_bitmaps r); m_inline := None |}.
Lemma decode_rows_encoded m a b l r :
  scannable a l -> scannable b r -> len (ids_of l) + len (ids_of r) <= USIZE_MAX -> slice_ok (rows_bytes m (a, b) l r) ->
  decode_manifest (rows_bytes m (a, b) l r) = Ok (rows_manifest m (a, b) l r).
Proof.
  intros Hl Hr Hmax Hok. unfold decode_manifest, is_rows_manifest.
  assert (starts_with (rows_bytes m (a, b) l r) ROWS_MAGIC = true) as -> by (apply starts_with_spec; eexists; unfold rows_bytes, rows_header; by rewrite <- app_assoc).
  unfold decode_rows_manifest.
  rewrite (scan_bitmaps_encoded (S := unit) (fun _ _ _ _ => mret tt) m a b l r tt tt tt) by (done || apply visits_none).
  cbn [fst]. rewrite outcome_bind_run.
  by rewrite (scan_bitmaps_encoded push_bitmap m a b l r ([], []) (l, []) (l, r)) by (done || apply visits_left || apply visits_right).
Qed.
Lemma scannable_ids next l : scannable next l -> ids_ok (ids_from_bitmaps l).
Proof.
  intros [_ Hok _ _]. split; cbn [ids_from_bitmaps explicit bitmaps id_count ids_iter].
  all: try done. all: try (by constructor). all: try (by left).
  all: try (unfold ids_iter; cbn; fold (ids_of l); symmetry; apply ids_of_count, Hok).
Qed.

(** ** Dense manifests *)

Lemma merge_sorted_from b l : bitmaps_ok (b :: l) -> merge_bitmaps (Some b) l = b :: l.
Proof.
  revert b. induction l as [|[p c] l IH]; intros [page bits] Hok; cbn [merge_bitmaps]; [done|].
  apply bitmaps_ok_cons in Hok as (_ & Hlt & Hok). apply Forall_cons in Hlt as [Hlt _]. cbn [fst] in Hlt.
  rewrite (proj2 (Z.eqb_neq _ _)) by lia. by rewrite IH.
Qed.
Lemma merge_sorted l : bitmaps_ok l -> merge_bitmaps None l = l.
Proof. destruct l as [|[p b] l]; [done|]. apply merge_sorted_from. Qed.

Definition dense_mask (rows : Z) : Z := if rows =? 64 then U64_MAX else Z.shiftl 1 rows - 1.
Lemma dense_mask_ones rows : 0 <= rows <= 64 -> dense_mask rows = Z.ones rows.
Proof.
  intros Hr. unfold dense_mask. destruct (Z.eqb_spec rows 64) as [->|]; [done|]. rewrite Z.shiftl_1_l, Z.ones_equiv. lia.
Qed.
Lemma dense_mask_spec rows i : 0 <= rows <= 64 -> 0 <= i -> Z.testbit (dense_mask rows) i = (i <? rows).
Proof.
  intros Hr Hi. rewrite dense_mask_ones by done. destruct (Z.ltb_spec i rows).
  - apply Z.ones_spec_low. lia.
  - apply Z.ones_spec_high. lia.
Qed.
Lemma dense_mask_ok rows : 0 < rows <= 64 -> bit_range (dense_mask rows) /\ dense_mask rows <> 0.
Proof.
  intros Hr. rewrite dense_mask_ones, Z.ones_equiv by lia. unfold bit_range.
  pose proof (Z.pow_le_mono_r 2 rows 64). pose proof (Z.pow_le_mono_r 2 1 rows). lia.
Qed.

Definition dense_rows (count page : Z) : Z := Z.min (count - page * PAGE_ROWS) PAGE_ROWS.
Lemma dense_scannable count :
  is_u64 count -> scannable count (dense_bitmaps count) /\ ids_of (dense_bitmaps count) = seqZ 0 count.
Proof.
  intros Hc. set (n := Z.to_nat ((count + PAGE_ROWS - 1) / PAGE_ROWS)).
  assert (forall page, page ∈ map Z.of_nat (seq 0 n) -> 0 <= page /\ 0 < dense_rows count page <= 64) as Hpages.
  { intros page (k & -> & Hk%elem_of_seq)%list_elem_of_fmap. unfold n, dense_rows, PAGE_ROWS, is_u64 in *. split; [lia|].
    pose proof (Z.mul_div_le (count + 64 - 1) 64). lia. }
  assert (dense_bitmaps count = map (fun page => (page, dense_mask (dense_rows count page))) (map Z.of_nat (seq 0 n))) as Hd by done.
  assert (Forall bitmap_ok (dense_bitmaps count)) as Hz.
  { rewrite Hd. apply Forall_map, Forall_forall. intros page Hp. destruct (Hpages page Hp) as [_ Hr]. by apply dense_mask_ok. }
  assert (bitmaps_ok (dense_bitmaps count)) as Hok.
  { split; [|eapply Forall_impl; [exact Hz|]; by intros b []]. rewrite Hd. apply sorted_map. cbn [fst]. apply (sorted_map Z.of_nat Z.lt).
    clear. generalize 0%nat. induction n as [|n IH]; intros k; constructor; [apply IH|]. apply Forall_forall. intros x [Hx _]%elem_of_seq. lia. }
  assert (ids_of (dense_bitmaps count) = seqZ 0 count) as Hids.
  { apply increasing_ext; [by apply ids_of_increasing| |].
    - unfold seqZ. apply sorted_map. generalize (Z.to_nat count) 0%nat. clear. intros n.
      induction n as [|n IH]; intros k; constructor; [apply IH|]. apply Forall_forall. intros x [Hx _]%elem_of_seq. lia.
    - intros x. rewrite elem_of_seqZ, ids_of_spec by apply Hok. rewrite Hd. pose proof (Z.mod_pos_bound x 64) as Hm. pose proof (Z.div_mod x 64) as Hdm.
      split.
      + intros (bits & (page & [= <- ->] & Hin)%list_elem_of_fmap & Hb). destruct (Hpages _ Hin) as [H0 Hr].
        rewrite dense_mask_spec in Hb by (unfold PAGE_ROWS in *; lia). apply Z.ltb_lt in Hb. unfold dense_rows, PAGE_ROWS in *. lia.
      + intros Hx. exists (dense_mask (dense_rows count (x / PAGE_ROWS))).
        assert (x / PAGE_ROWS ∈ map Z.of_nat (seq 0 n)) as Hin.
        { apply list_elem_of_fmap. exists (Z.to_nat (x / PAGE_ROWS)). unfold n, PAGE_ROWS in *.
          pose proof (Z.div_pos x 64). split; [lia|]. apply elem_of_seq. pose proof (Z.div_mod (count + 64 - 1) 64).
          pose proof (Z.mod_pos_bound (count + 64 - 1) 64). lia. }
        split; [apply list_elem_of_fmap; by eexists|]. destruct (Hpages _ Hin) as [H0 Hr].
        rewrite dense_mask_spec by (unfold PAGE_ROWS in *; lia). apply Z.ltb_lt. unfold dense_rows, PAGE_ROWS in *. lia. }
  split; [|done]. split; [done|done|done|]. rewrite Hids. apply Forall_forall. intros x Hx%elem_of_seqZ. lia.
Qed.

(** ** The claim *)

(** A state whose rows are partly left unloaded, to be written as row entries. *)
Record rows_state_ok (s : JoinState) (unloaded : option (EntryIds * EntryIds)) : Prop := {
  ro_sides : exists a b, next_row_id s = [a; b] /\ ids_side_ok a (fst <$> unloaded) (left_rows s) /\
    ids_side_ok b (snd <$> unloaded) (right_rows s);
  ro_total : len (side_ids (fst <$> unloaded) (left_rows s)) + len (side_ids (snd <$> unloaded) (right_rows s)) <= USIZE_MAX;
  ro_slice : slice_ok (encode_with_unloaded s unloaded);
}.
Lemma side_scannable next unloaded rows :
  ids_side_ok next unloaded rows ->
  scannable next (side_bitmaps unloaded rows) /\ ids_of (side_bitmaps unloaded rows) = side_ids unloaded rows.
Proof.
  intros Hs. destruct (side_bitmaps_spec next unloaded rows Hs) as (Hok & Hz & Hids & Hb). split; [|done].
  split; [apply Hs|done|done|]. by rewrite Hids.
Qed.

(** The bitmap manifest keeps every row identity. Writing a state with rows
    still unloaded and reading the manifest back gives the next identities, the
    null-match flags and, per side, a well-formed directory of exactly the
    unloaded ids followed by those of the loaded rows; and the manifest written
    for freshly numbered rows lists exactly the ids from zero up to the counts. *)
Theorem row_manifest_keeps_ids s unloaded :
  rows_state_ok s unloaded ->
  (exists l r, decode_manifest (encode_with_unloaded s unloaded) =
     Ok {| m_layout := Rows; m_next_row_id := next_ids s; m_matchable := (left_matchable s, right_matchable s);
           m_pages := (l, r); m_inline := None |} /\
   ids_ok l /\ ids_iter l = side_ids (fst <$> unloaded) (left_rows s) /\
   ids_ok r /\ ids_iter r = side_ids (snd <$> unloaded) (right_rows s)) /\
  forall matchable a b, is_u64 a -> is_u64 b -> a + b <= USIZE_MAX -> slice_ok (encode_dense matchable (a, b)) ->
  exists l r, decode_manifest (encode_dense matchable (a, b)) =
     Ok {| m_layout := Rows; m_next_row_id := (a, b); m_matchable := matchable; m_pages := (l, r); m_inline := None |} /\
   ids_ok l /\ ids_iter l = seqZ 0 a /\ ids_ok r /\ ids_iter r = seqZ 0 b.
Proof.
  intros [(a & b & Hid & Hl & Hr) Ht Hok]. split.
  - destruct (side_scannable _ _ _ Hl) as [Sl Il], (side_scannable _ _ _ Hr) as [Sr Ir].
    eexists _, _. split; [|by split_and!; [eapply scannable_ids, Sl|exact Il|eapply scannable_ids, Sr|exact Ir]].
    assert (next_ids s = (a, b)) as Hnext by (unfold next_ids; by rewrite Hid).
    unfold encode_with_unloaded in *. rewrite Hnext in *. apply decode_rows_encoded; [done|done| |done]. unfold side_bitmaps in Il, Ir. by rewrite Il, Ir.
  - clear. intros m a b Ha Hb Hab Hok. destruct (dense_scannable a Ha) as [Sl Il], (dense_scannable b Hb) as [Sr Ir].
    eexists _, _. split; [|by split_and!; [eapply scannable_ids, Sl|exact Il|eapply scannable_ids, Sr|exact Ir]].
    unfold encode_dense, append_bitmaps in *. cbn [fst snd] in *. rewrite !merge_sorted in * by (apply Sl || apply Sr).
    apply decode_rows_encoded; [done|done| |done]. rewrite Il, Ir. unfold len. rewrite !length_seqZ. unfold is_u64 in *. lia.
Qed.
