(* ===== verification/JoinFixtures.v ===== *)
(** * The join on concrete inputs

    A full outer join on equal first bytes, and the theorems of the join applied
    to it. *)

From Stdlib Require Import ZArith Lia Strings.Byte.
From stdpp Require Import base list option numbers strings.
From S2P Require Import Prelude Bytes OrdMap RegularJoin JoinCursor JoinView JoinCodec JoinPages.
From S2P Require Import JoinCodecSpec JoinPagesSpec EntryIdsSpec RowEntriesSpec.

Definition same_first (l r : bytes) : bool :=
  match l, r with x :: _, y :: _ => bool_decide (x = y) | _, _ => false end.

(** Two unmatched right rows and one matched pair are stored. *)
Definition demo_join : JoinState := {|
  next_row_id := [1; 3];
  left_rows := [{| sr_id := 0; sr_row := [x61; x01]; associations := 1 |}];
  right_rows := [{| sr_id := 0; sr_row := [x61; x02]; associations := 1 |};
                 {| sr_id := 1; sr_row := [x62; x03]; associations := 0 |};
                 {| sr_id := 2; sr_row := [x62; x04]; associations := 0 |}];
  left_matchable := None; right_matchable := None |}.
Definition demo_mask : CandidateMatches := cm_from_values [false; true; true].

Lemma demo_masks : masks demo_mask [false; true; true].
Proof. apply from_values_masks. Qed.

(** A matching left row retracts both padded rows and emits both pairs. *)
Example demo_transition :
  exists s', reference_process_change Full 0 INSERT true demo_mask [x62] 7 demo_join = Ok (s',
    [output_row 1 (Some [x62; x03]) None DELETE 7; output_row 0 (Some [x62]) (Some [x62; x03]) INSERT 7;
     output_row 1 (Some [x62; x04]) None DELETE 7; output_row 0 (Some [x62]) (Some [x62; x04]) INSERT 7]).
Proof. eexists. vm_compute. reflexivity. Qed.

Lemma bounded_pulls_match_reference_witness :
  exists s_ref out_ref chunks c', reference_process_change Full 0 INSERT true demo_mask [x62] 7 demo_join = Ok (s_ref, out_ref) /\
    pulls demo_mask [2; 3; 2] (cursor_new Full 0 INSERT true [x62] 7) demo_join = Ok (true, chunks, (c', s_ref)) /\
    concat chunks = out_ref /\ length chunks = 2%nat.
Proof.
  destruct (reference_process_change Full 0 INSERT true demo_mask [x62] 7 demo_join) as [[s_ref out_ref]|e|] eqn:E;
    [|vm_compute in E; discriminate..].
  destruct (bounded_pulls_match_reference Full 0 INSERT true demo_mask [false; true; true] [x62] 7 demo_join 1
    s_ref out_ref [2; 3; 2]) as (fin & chunks & c' & s' & Hrun & Hsize & Hfin).
  - exact demo_masks.
  - reflexivity.
  - by left.
  - reflexivity.
  - unfold U64_MAX. lia.
  - repeat constructor; unfold USIZE_MAX; lia.
  - exact E.
  - pose proof Hrun as Hrun'. vm_compute in Hrun'. destruct fin; [|discriminate].
    destruct Hfin as (Hc & -> & _). exists s_ref, out_ref, chunks, c'. split; [reflexivity|].
    split; [exact Hrun|]. split; [exact Hc|]. injection Hrun' as <- _ _. reflexivity.
Defined.

Lemma bounded_pulls_terminate_witness :
  exists chunks c' s', pulls demo_mask [2; 2; 2; 2; 2] (cursor_new Full 0 INSERT true [x62] 7) demo_join =
    Ok (true, chunks, (c', s')) /\ (length chunks <= 5)%nat.
Proof.
  destruct (reference_process_change Full 0 INSERT true demo_mask [x62] 7 demo_join) as [[s_ref out_ref]|e|] eqn:E;
    [|vm_compute in E; discriminate..].
  assert (length out_ref = 4%nat) as Hlen by (vm_compute in E; injection E as _ <-; reflexivity).
  destruct (bounded_pulls_terminate Full 0 INSERT true demo_mask [false; true; true] [x62] 7 demo_join 1
    s_ref out_ref [2; 2; 2; 2; 2]) as (chunks & c' & s' & Hrun & Hn & _).
  - exact demo_masks.
  - reflexivity.
  - by left.
  - reflexivity.
  - unfold U64_MAX. lia.
  - repeat constructor; unfold USIZE_MAX; lia.
  - exact E.
  - rewrite Hlen. simpl. lia.
  - exists chunks, c', s'. split; [exact Hrun|]. rewrite Hlen in Hn. exact Hn.
Defined.

Lemma demo_tracks : tracks same_first Full demo_join.
Proof. intros side [-> | ->] _; repeat constructor. Qed.

Lemma join_change_maintains_view_witness :
  exists s' outs, reference_process_change Full 1 DELETE false (cm_from_values [true]) [x61; x02] 9 demo_join = Ok (s', outs) /\
    mult (Some [x61; x01], None) (viewed same_first Full s') =
      mult (Some [x61; x01], None) (viewed same_first Full demo_join) + 1.
Proof.
  destruct (reference_process_change Full 1 DELETE false (cm_from_values [true]) [x61; x02] 9 demo_join)
    as [[s' outs]|e|] eqn:E; [|vm_compute in E; discriminate..].
  destruct (join_change_maintains_view same_first Full 1 DELETE false (cm_from_values [true]) [x61; x02] 9 demo_join s' outs)
    as (Hm & _).
  - split; [by right|reflexivity|exact demo_tracks|exists 3; split; [reflexivity|unfold U64_MAX; lia]|reflexivity|reflexivity|].
    intros _. cbn. left.
  - exact (from_values_masks [true]).
  - exact E.
  - exists s', outs. split; [reflexivity|]. rewrite Hm. f_equal. vm_compute in E. injection E as _ <-. reflexivity.
Defined.

Definition demo_changes : list change :=
  [{| ch_at := 0; ch_kind_of := INSERT; ch_row := [x61] |}; {| ch_at := 1; ch_kind_of := UPDATE_AFTER; ch_row := [x61; x05] |};
   {| ch_at := 0; ch_kind_of := DELETE; ch_row := [x61] |}].

Lemma join_run_is_the_join_witness :
  exists s outs, join_run same_first RightJoin empty_join demo_changes s outs /\
    net (None, Some [x61; x05]) outs = 1 /\ net (Some [x61], Some [x61; x05]) outs = 0.
Proof.
  destruct (join_run_is_the_join same_first RightJoin demo_changes 2) as [(s & outs & Hrun) Hall].
  - cbn. split_and!; try done; try (by left); try (by right); intros; left.
  - reflexivity.
  - unfold limit_ok, USIZE_MAX. lia.
  - exists s, outs. split; [exact Hrun|]. destruct (Hall s outs Hrun) as (Hn & _). rewrite !Hn. split; reflexivity.
Defined.

(** ** Stored forms *)

Lemma demo_rows_ok : Forall row_ok (left_rows demo_join) /\ Forall row_ok (right_rows demo_join).
Proof.
  split; unfold demo_join; cbn [left_rows right_rows].
  - by apply Forall_singleton.
  - by rewrite !Forall_cons.
Qed.

Lemma join_state_codec_witness :
  exists bs, encode_state demo_join = bs /\ decode_state bs = Ok demo_join /\ len bs = 55.
Proof.
  exists (encode_state demo_join). split; [reflexivity|]. split; [|reflexivity].
  apply (proj1 join_state_codec demo_join). split; [apply demo_rows_ok|apply demo_rows_ok|split; vm_compute; congruence|vm_compute; congruence].
Defined.

Lemma demo_sides : side_ok 1 (left_rows demo_join) /\ side_ok 3 (right_rows demo_join).
Proof.
  split; (split; [unfold is_u64, U64_MAX; lia|apply demo_rows_ok|repeat constructor; cbn; lia|repeat constructor; cbn; lia]).
Qed.

Lemma compact_state_roundtrip_witness :
  exists bs, encode_compact demo_join = Ok bs /\ len bs = 153 /\
    decode_manifest bs = Ok (manifest_of Compact demo_join (Some (left_rows demo_join, right_rows demo_join))).
Proof.
  apply (compact_state_roundtrip demo_join 153).
  - split; [exists 1, 3; split; [reflexivity|exact demo_sides]|split; vm_compute; congruence].
  - vm_compute. reflexivity.
Defined.

(** Rows 1, 3 and 70 in two bitmaps. *)
Definition demo_ids : EntryIds := ids_from_bitmaps [(0, 10); (1, 64)].
Lemma demo_ids_ok : ids_ok demo_ids.
Proof.
  split; [constructor| |by left|reflexivity]. split; [repeat constructor|]. repeat constructor; cbn; lia.
Qed.

Lemma entry_ids_refine_lists_witness :
  exists e, ids_remove demo_ids 3 = (true, e) /\ ids_iter e = [1; 70] /\ removed_from e demo_ids = [3].
Proof.
  destruct entry_ids_refine_lists as (_ & Hrem & Hdiff & _). specialize (Hrem demo_ids 3 demo_ids_ok).
  destruct (ids_remove demo_ids 3) as [removed e] eqn:E. destruct Hrem as (Hok & Hin & He).
  exists e. assert (removed = true) as -> by (vm_compute in E; injection E as <- _; reflexivity).
  assert (ids_iter e = [1; 70]) as He' by (rewrite He; vm_compute; reflexivity).
  split; [reflexivity|]. split; [exact He'|].
  rewrite (Hdiff e demo_ids Hok demo_ids_ok), He'; [vm_compute; reflexivity|].
  intros x. rewrite He. apply list_elem_of_filter.
Defined.

(** Row 71 is loaded and changed, the others stay on disk. *)
Definition demo_partial : JoinState := {|
  next_row_id := [72; 0]; left_rows := [{| sr_id := 71; sr_row := [x61]; associations := 0 |}]; right_rows := [];
  left_matchable := Some true; right_matchable := None |}.

Lemma row_manifest_keeps_ids_witness :
  exists l r, decode_manifest (encode_with_unloaded demo_partial (Some (demo_ids, ids_explicit []))) =
      Ok {| m_layout := Rows; m_next_row_id := (72, 0); m_matchable := (Some true, None); m_pages := (l, r); m_inline := None |} /\
    ids_iter l = [1; 3; 70; 71] /\ ids_iter r = [].
Proof.
  destruct (row_manifest_keeps_ids demo_partial (Some (demo_ids, ids_explicit []))) as [(l & r & Hd & _ & Hl & _ & Hr) _].
  - split; [|vm_compute; congruence|vm_compute; congruence].
    exists 72, 0. split; [reflexivity|]. split; split.
    + split; [unfold is_u64, U64_MAX; lia|by apply Forall_singleton|apply Forall_singleton; cbn; lia|repeat constructor].
    + intros e [= <-]. exact demo_ids_ok.
    + intros x Hx. change (x ∈ [1; 3; 70]) in Hx. cbn [left_rows demo_partial]. rewrite Forall_singleton. cbn [sr_id].
      rewrite !elem_of_cons in Hx. destruct Hx as [-> | [-> | [-> | Hx]]]; [lia..|]. by apply not_elem_of_nil in Hx.
    + split; [unfold is_u64, U64_MAX; lia|constructor..].
    + intros e [= <-]. split; [constructor|split; constructor|by right|reflexivity].
    + intros x Hx. cbn in Hx. by apply not_elem_of_nil in Hx.
  - exists l, r. split; [exact Hd|]. split; [rewrite Hl; vm_compute; reflexivity|exact Hr].
Defined.
