(* ===== verification/Decimal.v ===== *)
(** * Decimal arithmetic: [planner/expressions/decimal.rs]

    Casts between decimals and division with Flink's rounding: a quotient is
    first rounded half up to 38 significant digits and then to the result's
    scale. Division has a 256-bit fast path and an arbitrary-precision one. The
    two integer types are those of the [arrow] and [num-bigint] crates; they enter
    as classes of operations with their documented behaviour. *)

From Stdlib Require Import ZArith Lia.
From stdpp Require Import base list option numbers strings.
From S2P Require Import Prelude Bytes Arrow.

(** ** Integer types *)

(** [arrow::datatypes::i256]. *)
Class I256 : Type := {
  i256 : Type;
  i256_from_i128 : Z -> i256;
  i256_checked_mul : i256 -> i256 -> option i256;
  i256_wrapping_mul : i256 -> i256 -> i256;
  i256_checked_add : i256 -> i256 -> option i256;
  i256_checked_sub : i256 -> i256 -> option i256;
  i256_checked_div : i256 -> i256 -> option i256;
  i256_checked_rem : i256 -> i256 -> option i256;
  i256_checked_abs : i256 -> option i256;
  i256_checked_neg : i256 -> option i256;
  i256_checked_ilog10 : i256 -> option Z;
  i256_to_i128 : i256 -> option Z;
  i256_lt : i256 -> i256 -> bool;
  i256_ge : i256 -> i256 -> bool;
}.

Definition in_i128 (z : Z) : Prop := - 2 ^ 127 <= z < 2 ^ 127.
Definition in_i256 (z : Z) : Prop := - 2 ^ 255 <= z < 2 ^ 255.

(** A checked operation returns the exact result, or nothing when it is
    undefined or does not fit. *)
Definition checks {A} (val : A -> Z) (o : option A) (defined : Prop) (z : Z) : Prop :=
  match o with Some r => defined /\ val r = z | None => defined -> ~ in_i256 z end.

Class I256Laws `{I256} : Type := {
  val256 : i256 -> Z;
  val256_range x : in_i256 (val256 x);
  from_i128_law z : in_i128 z -> val256 (i256_from_i128 z) = z;
  mul_law x y : checks val256 (i256_checked_mul x y) True (val256 x * val256 y);
  wrapping_mul_law x y : val256 (i256_wrapping_mul x y) = wraps 256 (val256 x * val256 y);
  add_law x y : checks val256 (i256_checked_add x y) True (val256 x + val256 y);
  sub_law x y : checks val256 (i256_checked_sub x y) True (val256 x - val256 y);
  div_law x y : checks val256 (i256_checked_div x y) (val256 y <> 0) (Z.quot (val256 x) (val256 y));
  (** Nothing for a zero divisor, and possibly where the quotient overflows. *)
  rem_law x y : match i256_checked_rem x y with
    | Some r => val256 y <> 0 /\ val256 r = Z.rem (val256 x) (val256 y)
    | None => val256 y = 0 \/ (val256 x = - 2 ^ 255 /\ val256 y = -1)
    end;
  abs_law x : checks val256 (i256_checked_abs x) True (Z.abs (val256 x));
  neg_law x : checks val256 (i256_checked_neg x) True (- val256 x);
  ilog10_law x : match i256_checked_ilog10 x with
    | Some k => 0 <= k /\ 10 ^ k <= val256 x < 10 ^ (k + 1)
    | None => val256 x <= 0
    end;
  to_i128_law x : (in_i128 (val256 x) -> i256_to_i128 x = Some (val256 x)) /\
    (~ in_i128 (val256 x) -> i256_to_i128 x = None);
  lt_law x y : i256_lt x y = (val256 x <? val256 y);
  ge_law x y : i256_ge x y = (val256 y <=? val256 x);
}.

(** [num_bigint::BigInt]. *)
Class BigInteger : Type := {
  BigInt : Type;
  big_from : Z -> BigInt;
  big_abs : BigInt -> BigInt;
  big_neg : BigInt -> BigInt;
  big_mul : BigInt -> BigInt -> BigInt;
  big_add : BigInt -> BigInt -> BigInt;
  big_sub : BigInt -> BigInt -> BigInt;
  big_div : BigInt -> BigInt -> BigInt;
  big_rem : BigInt -> BigInt -> BigInt;
  big_pow : BigInt -> Z -> BigInt;
  big_lt : BigInt -> BigInt -> bool;
  big_ge : BigInt -> BigInt -> bool;
  big_is_negative : BigInt -> bool;
  (** [to_str_radix(10).len()]. *)
  big_digits : BigInt -> Z;
  big_to_i128 : BigInt -> option Z;
}.

Class BigIntegerLaws `{BigInteger} : Type := {
  bval : BigInt -> Z;
  big_from_law z : bval (big_from z) = z;
  big_abs_law x : bval (big_abs x) = Z.abs (bval x);
  big_neg_law x : bval (big_neg x) = - bval x;
  big_mul_law x y : bval (big_mul x y) = bval x * bval y;
  big_add_law x y : bval (big_add x y) = bval x + bval y;
  big_sub_law x y : bval (big_sub x y) = bval x - bval y;
  big_div_law x y : bval y <> 0 -> bval (big_div x y) = Z.quot (bval x) (bval y);
  big_rem_law x y : bval y <> 0 -> bval (big_rem x y) = Z.rem (bval x) (bval y);
  big_pow_law x n : 0 <= n -> bval (big_pow x n) = bval x ^ n;
  big_lt_law x y : big_lt x y = (bval x <? bval y);
  big_ge_law x y : big_ge x y = (bval y <=? bval x);
  big_is_negative_law x : big_is_negative x = (bval x <? 0);
  big_digits_law x : 0 < bval x -> 0 < big_digits x /\ 10 ^ (big_digits x - 1) <= bval x < 10 ^ big_digits x;
  big_to_i128_law x : (in_i128 (bval x) -> big_to_i128 x = Some (bval x)) /\
    (~ in_i128 (bval x) -> big_to_i128 x = None);
}.

Definition FLINK_DIVIDE_PRECISION : Z := 38.

(** A number cast to [u32]. *)
Definition as_u32 (z : Z) : Z := wrapu 32 z.

(** ** 256-bit routines *)

Section fixed.
Context `{I256}.

(** The table of powers, each entry from the one before. *)
Fixpoint i256_powers_of_ten (index : nat) : i256 :=
  match index with
  | O => i256_from_i128 1
  | S index => i256_wrapping_mul (i256_powers_of_ten index) (i256_from_i128 10)
  end.
Definition pow10_i256 (power : Z) : option i256 :=
  if power <? 77 then Some (i256_powers_of_ten (Z.to_nat power)) else None.

Definition checked_decimal_i256 (value : i256) (precision : Z) : option Z :=
  a ← i256_checked_abs value;
  limit ← pow10_i256 precision;
  if i256_ge a limit then None else i256_to_i128 value.

Definition round_half_up_i256 (numerator denominator : i256) : option i256 :=
  quotient ← i256_checked_div numerator denominator;
  remainder ← i256_checked_rem numerator denominator;
  a ← i256_checked_abs remainder;
  twice ← i256_checked_mul a (i256_from_i128 2);
  if negb (i256_ge twice denominator) then Some quotient
  else if i256_lt numerator (i256_from_i128 0) then i256_checked_sub quotient (i256_from_i128 1)
  else i256_checked_add quotient (i256_from_i128 1).

Definition decimal_exponent_i256 (numerator denominator : i256) : option Z :=
  n ← i256_checked_ilog10 numerator;
  d ← i256_checked_ilog10 denominator;
  let candidate := (n + 1) - (d + 1) in
  if 0 <=? candidate then
    p ← pow10_i256 (as_u32 candidate);
    scaled ← i256_checked_mul denominator p;
    Some (if i256_lt numerator scaled then candidate - 1 else candidate)
  else
    p ← pow10_i256 (as_u32 (- candidate));
    scaled ← i256_checked_mul numerator p;
    Some (if i256_lt scaled denominator then candidate - 1 else candidate).

(** [None]: an intermediate value does not fit. *)
Definition flink_divide_nonzero_i256 (left left_scale right right_scale precision target_scale : Z) : option (option Z) :=
  let negative := negb (Bool.eqb (left <? 0) (right <? 0)) in
  la ← i256_checked_abs (i256_from_i128 left);
  lp ← pow10_i256 (as_u32 right_scale);
  numerator ← i256_checked_mul la lp;
  ra ← i256_checked_abs (i256_from_i128 right);
  rp ← pow10_i256 (as_u32 left_scale);
  denominator ← i256_checked_mul ra rp;
  exponent ← decimal_exponent_i256 numerator denominator;
  let significant_shift := (FLINK_DIVIDE_PRECISION - 1) - exponent in
  significant ←
    (if 0 <=? significant_shift then
       p ← pow10_i256 (as_u32 significant_shift);
       scaled ← i256_checked_mul numerator p;
       round_half_up_i256 scaled denominator
     else
       p ← pow10_i256 (as_u32 (- significant_shift));
       scaled ← i256_checked_mul denominator p;
       round_half_up_i256 numerator scaled);
  let output_shift := exponent - (FLINK_DIVIDE_PRECISION - 1) + target_scale in
  unscaled ←
    (if 0 <=? output_shift then
       p ← pow10_i256 (as_u32 output_shift);
       i256_checked_mul significant p
     else
       p ← pow10_i256 (as_u32 (- output_shift));
       round_half_up_i256 significant p);
  unscaled ← (if negative then i256_checked_neg unscaled else Some unscaled);
  Some (checked_decimal_i256 unscaled precision).

Definition flink_rescale (value source_scale precision target_scale : Z) : option Z :=
  let value := i256_from_i128 value in
  rescaled ←
    (if source_scale <=? target_scale then
       p ← pow10_i256 (as_u32 (wraps 8 (target_scale - source_scale)));
       i256_checked_mul value p
     else
       p ← pow10_i256 (as_u32 (wraps 8 (source_scale - target_scale)));
       round_half_up_i256 value p);
  checked_decimal_i256 rescaled precision.
End fixed.

(** ** Arbitrary precision *)

Section big.
Context `{BigInteger}.

Definition pow10 (power : Z) : BigInt := big_pow (big_from 10) power.

Definition checked_decimal (value : BigInt) (precision : Z) : option Z :=
  if big_ge (big_abs value) (pow10 precision) then None else big_to_i128 value.

Definition round_half_up (numerator denominator : BigInt) : BigInt :=
  let quotient := big_div numerator denominator in
  let remainder := big_rem numerator denominator in
  if big_ge (big_mul (big_abs remainder) (big_from 2)) denominator then
    if big_is_negative numerator then big_sub quotient (big_from 1) else big_add quotient (big_from 1)
  else quotient.

Definition decimal_exponent (numerator denominator : BigInt) : Z :=
  let candidate := big_digits numerator - big_digits denominator in
  if 0 <=? candidate then
    if big_lt numerator (big_mul denominator (pow10 (as_u32 candidate))) then candidate - 1 else candidate
  else if big_lt (big_mul numerator (pow10 (as_u32 (- candidate)))) denominator then candidate - 1
  else candidate.

Definition flink_divide_nonzero_bigint (left left_scale right right_scale precision target_scale : Z) : option Z :=
  let negative := negb (Bool.eqb (left <? 0) (right <? 0)) in
  let numerator := big_mul (big_abs (big_from left)) (pow10 (as_u32 right_scale)) in
  let denominator := big_mul (big_abs (big_from right)) (pow10 (as_u32 left_scale)) in
  let exponent := decimal_exponent numerator denominator in
  let significant_shift := (FLINK_DIVIDE_PRECISION - 1) - exponent in
  let significant :=
    if 0 <=? significant_shift then
      round_half_up (big_mul numerator (pow10 (as_u32 significant_shift))) denominator
    else round_half_up numerator (big_mul denominator (pow10 (as_u32 (- significant_shift)))) in
  let output_shift := exponent - (FLINK_DIVIDE_PRECISION - 1) + target_scale in
  let unscaled :=
    if 0 <=? output_shift then big_mul significant (pow10 (as_u32 output_shift))
    else round_half_up significant (pow10 (as_u32 (- output_shift))) in
  let unscaled := if negative then big_neg unscaled else unscaled in
  checked_decimal unscaled precision.
End big.

(** ** Division *)

Section divide.
Context `{I256} `{BigInteger}.

Definition flink_divide_nonzero (left left_scale right right_scale precision target_scale : Z) : option Z :=
  if left =? 0 then Some 0
  else match flink_divide_nonzero_i256 left left_scale right right_scale precision target_scale with
       | Some result => result
       | None => flink_divide_nonzero_bigint left left_scale right right_scale precision target_scale
       end.

Definition flink_divide (left left_scale right right_scale precision target_scale : Z) : outcome (option Z) :=
  if right =? 0 then Err (Execution "Division by zero")
  else Ok (flink_divide_nonzero left left_scale right right_scale precision target_scale).

(** [decimal_type]: precision and scale of a decimal type. *)
Definition decimal_type (t : DataType) : outcome (Z * Z) :=
  match t with
  | DDecimal128 precision scale =>
      if (precision <=? 38) && (0 <=? scale) then Ok (precision, scale)
      else Err (Plan "Flink decimal must be DECIMAL(1..38, 0..precision)")
  | _ => Err (Plan "Flink decimal must be DECIMAL(1..38, 0..precision)")
  end.
End divide.

(** ** The expression *)

Section evaluate.
Context `{I256} `{BigInteger} `{Arrow}.

Inductive DecimalOperation : Type := Cast | Divide.
(** Without the operands, which are evaluated to arrays first. *)
Record FlinkDecimalExpr : Type := {
  de_operation : DecimalOperation;
  de_left_type : DataType;
  de_left_scale : Z;
  de_right_scale : Z;
  de_target_precision : Z;
  de_target_scale : Z;
}.

(** [cast] and [divide]: the expression over operands of these types. *)
Definition decimal_cast (left target : DataType) : outcome FlinkDecimalExpr :=
  left_scale ← match left with
    | DDecimal128 _ scale => Ok scale
    | DInt8 | DInt16 | DInt32 | DInt64 => Ok 0
    | _ => Err (Plan "Flink decimal cast source must be a signed integer or DECIMAL")
    end;
  '(precision, scale) ← decimal_type target;
  Ok {| de_operation := Cast; de_left_type := left; de_left_scale := left_scale; de_right_scale := 0;
        de_target_precision := precision; de_target_scale := scale |}.
Definition decimal_divide (left right target : DataType) : outcome FlinkDecimalExpr :=
  '(_, left_scale) ← decimal_type left;
  '(_, right_scale) ← decimal_type right;
  '(precision, scale) ← decimal_type target;
  Ok {| de_operation := Divide; de_left_type := left; de_left_scale := left_scale; de_right_scale := right_scale;
        de_target_precision := precision; de_target_scale := scale |}.

(** [value(index)] of a downcast array panics outside it. *)
Definition value_of (c : FixedArray) (a : Array) (index : Z) : outcome Z :=
  v ← ok_or (Execution "Flink decimal cast evaluated as another type") (as_fixed c a);
  if (0 <=? index) && (index <? array_len a) then Ok (v index) else Panic.
Definition numeric_unscaled (a : Array) (index : Z) (t : DataType) : outcome Z :=
  match t with
  | DInt8 => value_of Int8Array a index
  | DInt16 => value_of Int16Array a index
  | DInt32 => value_of Int32Array a index
  | DInt64 => value_of Int64Array a index
  | DDecimal128 _ _ => value_of Decimal128Array a index
  | _ => Err (Execution "unsupported Flink decimal cast source")
  end.

(** One row of the loop of [evaluate]. *)
Definition evaluate_row (e : FlinkDecimalExpr) (left : Array) (right : option Array) (index : Z) : outcome (option Z) :=
  if is_null left index || match right with Some r => is_null r index | None => false end then Ok None
  else match right with
       | Some r =>
           l ← value_of Decimal128Array left index;
           r ← value_of Decimal128Array r index;
           flink_divide l (de_left_scale e) r (de_right_scale e) (de_target_precision e) (de_target_scale e)
       | None =>
           l ← numeric_unscaled left index (de_left_type e);
           Ok (flink_rescale l (de_left_scale e) (de_target_precision e) (de_target_scale e))
       end.
(** The values appended to the builder, labelled with the target type; the right
    operand is downcast before the loop. [with_precision_and_scale] is the method
    of the Arrow array. *)
Definition evaluate (with_precision_and_scale : Z -> Z -> list (option Z) -> outcome (list (option Z))) (e : FlinkDecimalExpr) (left : Array) (right : option Array) (rows : Z) : outcome (list (option Z)) :=
  _ ← match right with
      | Some r => guard_ok (bool_decide (is_Some (as_fixed Decimal128Array r))) (Execution "Flink decimal right evaluated as another type")
      | None => Ok tt
      end;
  values ← collect (evaluate_row e left right) (map Z.of_nat (seq 0 (Z.to_nat rows)));
  with_precision_and_scale (de_target_precision e) (de_target_scale e) values.
End evaluate.
