(* ===== verification/DecimalSpec.v ===== *)
(** * Decimal division rounds as specified

    The reference is written on the integers; the fixed-width and the
    arbitrary-precision routine are both shown to compute it. *)

From Stdlib Require Import ZArith Lia.
From stdpp Require Import base list option numbers strings.
From S2P Require Import Prelude Bytes Arrow Decimal.

(** ** Reference *)

(** [n / d] rounded half away from zero, for [0 < d]. *)
Definition half_up (n d : Z) : Z :=
  if n <? 0 then - ((2 * - n + d) / (2 * d)) else (2 * n + d) / (2 * d).
(** [z] times ten to the [k] when [k] is positive. *)
Definition shifted (z k : Z) : Z := z * 10 ^ Z.max k 0.
(** [d * 10^e <= n]. *)
Definition le10 (d e n : Z) : bool := shifted d e <=? shifted n (- e).

Fixpoint digits_fuel (fuel : nat) (z : Z) : Z :=
  match fuel with
  | O => 1
  | S fuel => if z <? 10 then 1 else 1 + digits_fuel fuel (z / 10)
  end.
Definition digits10 (z : Z) : Z := digits_fuel (Z.to_nat (Z.log2 z)) z.
(** The exponent of the leading digit of [n / d]. *)
Definition exponent_of (n d : Z) : Z :=
  let candidate := digits10 n - digits10 d in
  if le10 d candidate n then candidate else candidate - 1.
(** [n / d] rounded to 38 significant digits. *)
Definition significand (n d e : Z) : Z := half_up (shifted n (37 - e)) (shifted d (e - 37)).
(** The significand brought to [scale] fractional digits. *)
Definition to_scale (scale e s : Z) : Z :=
  let shift := e - 37 + scale in
  if 0 <=? shift then s * 10 ^ shift else half_up s (10 ^ (- shift)).
Definition bounded (precision z : Z) : option Z := if 10 ^ precision <=? Z.abs z then None else Some z.
Definition decimal_quotient (left left_scale right right_scale precision scale : Z) : option Z :=
  if left =? 0 then Some 0
  else
    let n := Z.abs left * 10 ^ right_scale in
    let d := Z.abs right * 10 ^ left_scale in
    let e := exponent_of n d in
    let u := to_scale scale e (significand n d e) in
    bounded precision (if Bool.eqb (left <? 0) (right <? 0) then u else - u).
Definition decimal_rescaled (value source_scale precision scale : Z) : option Z :=
  bounded precision
    (if source_scale <=? scale then value * 10 ^ (scale - source_scale)
     else half_up value (10 ^ (source_scale - scale))).

(** ** Rounding *)

Lemma half_up_rem n d : 0 < d ->
  half_up n d = if d <=? Z.abs (Z.rem n d) * 2 then (if n <? 0 then Z.quot n d - 1 else Z.quot n d + 1) else Z.quot n d.
Proof.
  intros Hd. unfold half_up. destruct (Z.ltb_spec n 0) as [Hn|Hn].
  - assert (exists m, n = - m) as [m ->] by (exists (- n); lia). rewrite Z.opp_involutive.
    rewrite Z.rem_opp_l, Z.quot_opp_l, Z.abs_opp by lia. rewrite Z.rem_mod_nonneg, Z.quot_div_nonneg by lia.
    pose proof (Z.mod_pos_bound m d Hd). pose proof (Z.div_mod m d). rewrite Z.abs_eq by lia. case_bool.
    + assert ((2 * m + d) / (2 * d) = m / d + 1) by (symmetry; apply Z.div_unique with (2 * (m mod d) - d); lia). lia.
    + assert ((2 * m + d) / (2 * d) = m / d) by (symmetry; apply Z.div_unique with (2 * (m mod d) + d); lia). lia.
  - rewrite Z.rem_mod_nonneg, Z.quot_div_nonneg by lia.
    pose proof (Z.mod_pos_bound n d Hd). pose proof (Z.div_mod n d). rewrite Z.abs_eq by lia. case_bool.
    + symmetry. apply Z.div_unique with (2 * (n mod d) - d); lia.
    + symmetry. apply Z.div_unique with (2 * (n mod d) + d); lia.
Qed.
(** Rounding is to the nearest integer. *)
Lemma half_up_near n d : 0 < d -> 2 * Z.abs (half_up n d * d - n) <= d.
Proof.
  intros Hd. unfold half_up. destruct (Z.ltb_spec n 0).
  - pose proof (Z.mod_pos_bound (2 * - n + d) (2 * d)). pose proof (Z.div_mod (2 * - n + d) (2 * d)). nia.
  - pose proof (Z.mod_pos_bound (2 * n + d) (2 * d)). pose proof (Z.div_mod (2 * n + d) (2 * d)). nia.
Qed.
Lemma half_up_nonneg n d : 0 < d -> 0 <= n -> 0 <= half_up n d.
Proof. intros. unfold half_up. rewrite (proj2 (Z.ltb_ge _ _)) by lia. apply Z.div_pos; lia. Qed.

(** ** Exponents *)

Lemma pow10_pos k : 0 <= k -> 0 < 10 ^ k.
Proof. intros. apply Z.pow_pos_nonneg; lia. Qed.

(** Both sides may be scaled by any large enough power. *)
Lemma le10_scale k d e n : 0 <= k -> - k <= e -> le10 d e n = true <-> d * 10 ^ (k + e) <= n * 10 ^ k.
Proof.
  intros Hk He. unfold le10, shifted. rewrite Z.leb_le.
  pose proof (pow10_pos (k - Z.max (- e) 0) ltac:(lia)) as Hp.
  rewrite (Z.mul_le_mono_pos_r _ _ _ Hp), <- !Z.mul_assoc, <- !Z.pow_add_r by lia.
  replace (Z.max e 0 + (k - Z.max (- e) 0)) with (k + e) by lia.
  by replace (Z.max (- e) 0 + (k - Z.max (- e) 0)) with k by lia.
Qed.
Lemma le10_mono d e e' n : 0 <= d -> e' <= e -> le10 d e n = true -> le10 d e' n = true.
Proof.
  intros Hd He. set (k := Z.max (- e') 0). rewrite !(le10_scale k) by lia. intros Hle.
  etransitivity; [|exact Hle]. apply Z.mul_le_mono_nonneg_l; [done|]. apply Z.pow_le_mono_r; lia.
Qed.

Definition is_exponent (n d e : Z) : Prop := le10 d e n = true /\ le10 d (e + 1) n = false.
Lemma is_exponent_unique n d e e' : 0 <= d -> is_exponent n d e -> is_exponent n d e' -> e = e'.
Proof.
  intros Hd [H1 H2] [H3 H4]. destruct (Z.lt_trichotomy e e') as [Hlt|[->|Hlt]]; [|done|].
  - rewrite (le10_mono d e' (e + 1) n) in H2; [done|done|lia|done].
  - rewrite (le10_mono d e (e' + 1) n) in H4; [done|done|lia|done].
Qed.

(** [k] is the number of digits of [z]. *)
Definition has_digits (z k : Z) : Prop := 0 < k /\ 10 ^ (k - 1) <= z < 10 ^ k.
Lemma exponent_candidate n d a b :
  has_digits n a -> has_digits d b -> is_exponent n d (if le10 d (a - b) n then a - b else a - b - 1).
Proof.
  intros [Ha [Hn1 Hn2]] [Hb [Hd1 Hd2]]. set (k := Z.max (b - a + 1) 0).
  assert (le10 d (a - b - 1) n = true) as Hlow.
  { apply (le10_scale k); [lia|lia|]. transitivity (10 ^ b * 10 ^ (k + (a - b - 1))); [apply Z.mul_le_mono_nonneg_r; lia|].
    rewrite <- Z.pow_add_r by lia. replace (b + (k + (a - b - 1))) with (a - 1 + k) by lia. rewrite Z.pow_add_r by lia.
    apply Z.mul_le_mono_nonneg_r; [lia|done]. }
  assert (le10 d (a - b + 1) n = false) as Hhigh.
  { apply not_true_iff_false. rewrite (le10_scale k) by lia. apply Z.lt_nge.
    apply Z.lt_le_trans with (10 ^ a * 10 ^ k); [apply Z.mul_lt_mono_pos_r; [apply pow10_pos; lia|done]|].
    rewrite <- Z.pow_add_r by lia. replace (a + k) with (b - 1 + (k + (a - b + 1))) by lia. rewrite Z.pow_add_r by lia.
    apply Z.mul_le_mono_nonneg_r; [lia|done]. }
  destruct (le10 d (a - b) n) eqn:E; [by split|]. split; [done|]. by replace (a - b - 1 + 1) with (a - b) by lia.
Qed.

Lemma digits_fuel_spec fuel z : 0 < z -> z < 10 * 2 ^ Z.of_nat fuel -> has_digits z (digits_fuel fuel z).
Proof.
  revert z. induction fuel as [|fuel IH]; intros z Hz Hlt; cbn [digits_fuel].
  { split; [lia|]. change (10 ^ (1 - 1)) with 1. change (10 ^ 1) with 10. change (2 ^ Z.of_nat 0) with 1 in Hlt. lia. }
  destruct (Z.ltb_spec z 10).
  { split; [lia|]. change (10 ^ (1 - 1)) with 1. change (10 ^ 1) with 10. lia. }
  pose proof (Z.div_mod z 10). pose proof (Z.mod_pos_bound z 10).
  assert (2 ^ Z.of_nat (S fuel) = 2 * 2 ^ Z.of_nat fuel) as Hp by (rewrite Nat2Z.inj_succ, Z.pow_succ_r by lia; done).
  destruct (IH (z / 10)) as [Hk [Hl Hu]]; [lia|lia|]. set (k := digits_fuel fuel (z / 10)) in *. split; [lia|].
  replace (1 + k - 1) with (Z.succ (k - 1)) by lia. replace (1 + k) with (Z.succ k) by lia. rewrite !Z.pow_succ_r by lia. lia.
Qed.
Lemma digits10_spec z : 0 < z -> has_digits z (digits10 z).
Proof.
  intros Hz. apply digits_fuel_spec; [done|]. rewrite Z2Nat.id by apply Z.log2_nonneg.
  pose proof (Z.log2_spec z Hz). rewrite Z.pow_succ_r in * by apply Z.log2_nonneg. lia.
Qed.
Lemma exponent_of_spec n d : 0 < n -> 0 < d -> is_exponent n d (exponent_of n d).
Proof. intros. apply exponent_candidate; by apply digits10_spec. Qed.

(** Exponents of numbers of bounded size are bounded. *)
Lemma digits_bound z k m : has_digits z k -> 0 <= m -> z < 10 ^ m -> k <= m.
Proof.
  intros [Hk [Hl _]] Hm Hz. destruct (Z.le_gt_cases k m); [done|].
  assert (10 ^ m <= 10 ^ (k - 1)) by (apply Z.pow_le_mono_r; lia). lia.
Qed.

(** ** Sizes *)

Lemma as_u32_id z : 0 <= z < 2 ^ 32 -> as_u32 z = z.
Proof. apply wrapu_small. Qed.
Lemma pow10_38 : 10 ^ 38 < 2 ^ 127.
Proof. done. Qed.
Lemma bounded_abs precision z : 0 <= precision <= 38 -> Z.abs z < 10 ^ precision -> in_i128 z.
Proof.
  intros Hp Hz. assert (10 ^ precision <= 10 ^ 38) by (apply Z.pow_le_mono_r; lia). pose proof pow10_38. unfold in_i128. lia.
Qed.

(** The operands of a division. *)
Record divides (left left_scale right right_scale precision scale : Z) : Prop := {
  dv_left : in_i128 left;
  dv_right : in_i128 right;
  dv_nonzero : right <> 0;
  dv_scales : 0 <= left_scale <= 127 /\ 0 <= right_scale <= 127 /\ 0 <= scale <= 127;
  dv_precision : 0 <= precision <= 38;
}.
Lemma scaled_size z s : in_i128 z -> z <> 0 -> 0 <= s <= 127 -> 0 < Z.abs z * 10 ^ s < 10 ^ 166.
Proof.
  intros Hz Hn Hs. pose proof (pow10_pos s ltac:(lia)). split; [nia|].
  assert (Z.abs z < 10 ^ 39) by (unfold in_i128 in Hz; assert (2 ^ 127 < 10 ^ 39) by done; lia).
  change (10 ^ 166) with (10 ^ 39 * 10 ^ 127). assert (10 ^ s <= 10 ^ 127) by (apply Z.pow_le_mono_r; lia). nia.
Qed.
Lemma exponent_bound n d e : 0 < n < 10 ^ 166 -> 0 < d < 10 ^ 166 -> is_exponent n d e -> - 200 < e < 200.
Proof.
  intros Hn Hd He.
  pose proof (digits10_spec n ltac:(lia)) as Dn. pose proof (digits10_spec d ltac:(lia)) as Dd.
  rewrite (is_exponent_unique n d e (exponent_of n d)); [|lia|done|apply exponent_of_spec; lia].
  pose proof (digits_bound _ _ 166 Dn). pose proof (digits_bound _ _ 166 Dd). pose proof (proj1 Dn). pose proof (proj1 Dd).
  unfold exponent_of. destruct (le10 _ _ _); lia.
Qed.

(** ** Arbitrary precision *)

Create Rewrite HintDb big.
Section big.
Context `{BigIntegerLaws}.
#[local] Hint Rewrite big_from_law big_abs_law big_neg_law big_mul_law big_add_law big_sub_law big_lt_law big_ge_law
  big_is_negative_law : big.

Lemma pow10_val k : 0 <= k -> bval (pow10 k) = 10 ^ k.
Proof. intros. unfold pow10. by rewrite big_pow_law, big_from_law. Qed.
Lemma round_half_up_val x y : 0 < bval y -> bval (round_half_up x y) = half_up (bval x) (bval y).
Proof.
  intros Hy. rewrite half_up_rem by done. unfold round_half_up. autorewrite with big. rewrite big_rem_law by lia.
  repeat case_match; autorewrite with big; rewrite ?big_div_law by lia; done.
Qed.
Lemma checked_decimal_val x precision : 0 <= precision <= 38 -> checked_decimal x precision = bounded precision (bval x).
Proof.
  intros Hp. unfold checked_decimal, bounded. autorewrite with big. rewrite pow10_val by lia.
  destruct (Z.leb_spec (10 ^ precision) (Z.abs (bval x))); [done|]. by apply big_to_i128_law, (bounded_abs precision).
Qed.
Lemma decimal_exponent_val x y :
  0 < bval x < 10 ^ 166 -> 0 < bval y < 10 ^ 166 -> is_exponent (bval x) (bval y) (decimal_exponent x y).
Proof.
  intros Hx Hy. destruct (big_digits_law x) as [Hxd Hxr]; [lia|]. destruct (big_digits_law y) as [Hyd Hyr]; [lia|].
  pose proof (digits_bound (bval x) (big_digits x) 166 ltac:(by split)). pose proof (digits_bound (bval y) (big_digits y) 166 ltac:(by split)).
  pose proof (exponent_candidate (bval x) (bval y) (big_digits x) (big_digits y) ltac:(by split) ltac:(by split)) as He.
  unfold decimal_exponent. set (c := big_digits x - big_digits y) in *. unfold le10, shifted in He.
  destruct (Z.leb_spec 0 c).
  - rewrite as_u32_id by lia. autorewrite with big. rewrite pow10_val by lia.
    rewrite (Z.max_l c 0), (Z.max_r (- c) 0), Z.pow_0_r, Z.mul_1_r in He by lia.
    rewrite Z.ltb_antisym. by destruct (_ <=? _).
  - rewrite as_u32_id by lia. autorewrite with big. rewrite pow10_val by lia.
    rewrite (Z.max_r c 0), (Z.max_l (- c) 0), Z.pow_0_r, Z.mul_1_r in He by lia.
    rewrite Z.ltb_antisym. by destruct (_ <=? _).
Qed.

Lemma divide_bigint_spec l ls r rs p t :
  divides l ls r rs p t -> l <> 0 -> flink_divide_nonzero_bigint l ls r rs p t = decimal_quotient l ls r rs p t.
Proof.
  intros [Hl Hr Hr0 (Hls & Hrs & Ht) Hp] Hl0. unfold flink_divide_nonzero_bigint, decimal_quotient.
  rewrite (proj2 (Z.eqb_neq l 0)) by done. cbv zeta.
  set (x := big_mul (big_abs (big_from l)) (pow10 (as_u32 rs))). set (y := big_mul (big_abs (big_from r)) (pow10 (as_u32 ls))).
  assert (bval x = Z.abs l * 10 ^ rs) as Hx by (unfold x; rewrite as_u32_id by lia; autorewrite with big; by rewrite pow10_val by lia).
  assert (bval y = Z.abs r * 10 ^ ls) as Hy by (unfold y; rewrite as_u32_id by lia; autorewrite with big; by rewrite pow10_val by lia).
  pose proof (scaled_size l rs Hl Hl0 Hrs) as Sx. pose proof (scaled_size r ls Hr Hr0 Hls) as Sy.
  rewrite <- Hx in Sx |- *. rewrite <- Hy in Sy |- *. clearbody x y. clear Hx Hy.
  pose proof (decimal_exponent_val x y Sx Sy) as He.
  pose proof (exponent_of_spec (bval x) (bval y) (proj1 Sx) (proj1 Sy)) as He'.
  assert (exponent_of (bval x) (bval y) = decimal_exponent x y) as -> by (eapply is_exponent_unique; [|done|done]; lia).
  set (e := decimal_exponent x y) in *. pose proof (exponent_bound _ _ _ Sx Sy He) as Hb. clearbody e.
  change (FLINK_DIVIDE_PRECISION - 1) with 37.
  match goal with |- context [if 0 <=? 37 - e then ?a else ?b] => set (sig := if 0 <=? 37 - e then a else b) end.
  assert (bval sig = significand (bval x) (bval y) e) as <-.
  { unfold sig, significand, shifted. destruct (Z.leb_spec 0 (37 - e)).
    - rewrite round_half_up_val, as_u32_id by lia. autorewrite with big. rewrite pow10_val by lia.
      rewrite (Z.max_l (37 - e)), (Z.max_r (e - 37)), Z.pow_0_r, Z.mul_1_r by lia. done.
    - pose proof (pow10_pos (e - 37) ltac:(lia)). rewrite as_u32_id by lia. rewrite round_half_up_val.
      + autorewrite with big. rewrite pow10_val by lia. rewrite (Z.max_r (37 - e)), (Z.max_l (e - 37)), Z.pow_0_r, Z.mul_1_r by lia.
        by replace (- (37 - e)) with (e - 37) by lia.
      + autorewrite with big. rewrite pow10_val by lia. replace (- (37 - e)) with (e - 37) by lia. nia. }
  rewrite checked_decimal_val by done. f_equal. unfold to_scale. cbv zeta.
  match goal with |- bval (if _ then big_neg ?u else ?u) = _ => set (u0 := u) end.
  assert (bval u0 = if 0 <=? e - 37 + t then bval sig * 10 ^ (e - 37 + t) else half_up (bval sig) (10 ^ (- (e - 37 + t)))) as <-.
  { unfold u0. destruct (Z.leb_spec 0 (e - 37 + t)).
    - rewrite as_u32_id by lia. autorewrite with big. by rewrite pow10_val by lia.
    - rewrite as_u32_id by lia. rewrite round_half_up_val; rewrite pow10_val by lia; [done|]. apply pow10_pos. lia. }
  destruct (Bool.eqb (l <? 0) (r <? 0)); cbn [negb]; by autorewrite with big.
Qed.
End big.

(** ** Fixed width *)

Section fixed.
Context `{I256Laws}.

Lemma in_i128_256 z : in_i128 z -> in_i256 z.
Proof. unfold in_i128, in_i256. assert (2 ^ 127 < 2 ^ 255) by done. lia. Qed.
Lemma powers_val n : (n <= 76)%nat -> val256 (i256_powers_of_ten n) = 10 ^ Z.of_nat n.
Proof.
  induction n as [|n IH]; intros Hn; cbn [i256_powers_of_ten]; [by rewrite from_i128_law|].
  rewrite wrapping_mul_law, from_i128_law, IH by (done || lia).
  replace (10 ^ Z.of_nat (S n)) with (10 ^ Z.of_nat n * 10) by (rewrite Nat2Z.inj_succ, Z.pow_succ_r by lia; lia).
  apply wraps_id; [lia|]. assert (10 ^ Z.of_nat n <= 10 ^ 75) by (apply Z.pow_le_mono_r; lia).
  pose proof (pow10_pos (Z.of_nat n)). assert (10 ^ 75 * 10 < 2 ^ (256 - 1)) by done. lia.
Qed.
Lemma pow10_i256_Some k p : 0 <= k -> pow10_i256 k = Some p -> val256 p = 10 ^ k /\ k < 77.
Proof.
  intros Hk. unfold pow10_i256. destruct (Z.ltb_spec k 77); [|done]. intros [= <-].
  rewrite powers_val by lia. by rewrite Z2Nat.id.
Qed.

(** Inversion of the checked operations. *)
Lemma mul_Some x y z : i256_checked_mul x y = Some z -> val256 z = val256 x * val256 y.
Proof. intros E. pose proof (mul_law x y) as Hl. rewrite E in Hl. apply Hl. Qed.
Lemma abs_Some x z : i256_checked_abs x = Some z -> val256 z = Z.abs (val256 x).
Proof. intros E. pose proof (abs_law x) as Hl. rewrite E in Hl. apply Hl. Qed.
Lemma neg_Some x z : i256_checked_neg x = Some z -> val256 z = - val256 x.
Proof. intros E. pose proof (neg_law x) as Hl. rewrite E in Hl. apply Hl. Qed.
Lemma from_small k : 0 <= k <= 10 -> val256 (i256_from_i128 k) = k.
Proof. intros. apply from_i128_law. assert (10 < 2 ^ 127) by done. unfold in_i128. lia. Qed.

Ltac inv_opt := repeat match goal with
  | E : (_ ≫= _) = Some _ |- _ => let a := fresh "a" in apply bind_Some in E as (a & ? & E)
  end.

Lemma round_i256_Some x y z : 0 < val256 y -> round_half_up_i256 x y = Some z -> val256 z = half_up (val256 x) (val256 y).
Proof.
  intros Hy Hz. unfold round_half_up_i256 in Hz. inv_opt. rewrite half_up_rem by done.
  match goal with E : i256_checked_div x y = Some ?q |- _ => pose proof (div_law x y) as Hq; rewrite E in Hq; destruct Hq as [_ Hq] end.
  match goal with E : i256_checked_rem x y = Some ?q |- _ => pose proof (rem_law x y) as Hm; rewrite E in Hm; destruct Hm as [_ Hm] end.
  match goal with E : i256_checked_abs _ = Some _ |- _ => apply abs_Some in E as Ha end.
  match goal with E : i256_checked_mul _ _ = Some _ |- _ => apply mul_Some in E as Ht end.
  rewrite from_small in Ht by lia. rewrite ge_law, lt_law, from_small, Ht, Ha, Hm in Hz by lia.
  destruct (val256 y <=? _); cbn [negb] in Hz; [|by simplify_eq].
  destruct (val256 x <? 0).
  - match type of Hz with i256_checked_sub ?q ?w = _ => pose proof (sub_law q w) as Hl end. rewrite Hz, from_small in Hl by lia.
    destruct Hl as [_ ->]. lia.
  - match type of Hz with i256_checked_add ?q ?w = _ => pose proof (add_law q w) as Hl end. rewrite Hz, from_small in Hl by lia.
    destruct Hl as [_ ->]. lia.
Qed.

Lemma checked_decimal_i256_val x precision : 0 <= precision <= 38 -> checked_decimal_i256 x precision = bounded precision (val256 x).
Proof.
  intros Hp. unfold checked_decimal_i256, bounded. pose proof (abs_law x) as Ha.
  assert (10 ^ precision <= 10 ^ 38) as Hle by (apply Z.pow_le_mono_r; lia). pose proof pow10_38 as H38.
  destruct (i256_checked_abs x) as [a|].
  - destruct Ha as [_ Ha]. cbn [mbind option_bind]. unfold pow10_i256. rewrite (proj2 (Z.ltb_lt _ _)) by lia. cbn [mbind option_bind].
    rewrite ge_law, powers_val, Ha, Z2Nat.id by lia. destruct (Z.leb_spec (10 ^ precision) (Z.abs (val256 x))); [done|].
    by apply to_i128_law, (bounded_abs precision).
  - cbn [mbind option_bind]. rewrite (proj2 (Z.leb_le _ _)); [done|]. pose proof (val256_range x) as Hr.
    specialize (Ha I). unfold in_i256 in *. assert (2 ^ 127 < 2 ^ 255) by done. lia.
Qed.

Lemma ilog10_Some x k : i256_checked_ilog10 x = Some k -> has_digits (val256 x) (k + 1) /\ k + 1 <= 77.
Proof.
  intros E. pose proof (ilog10_law x) as Hl. rewrite E in Hl. destruct Hl as [Hk Hr].
  assert (has_digits (val256 x) (k + 1)) as Hd by (split; [lia|]; by replace (k + 1 - 1) with k by lia).
  split; [done|]. apply (digits_bound (val256 x)); [done|lia|]. pose proof (val256_range x) as [_ Hv].
  assert (2 ^ 255 < 10 ^ 77) by done. lia.
Qed.
Lemma exponent_i256_Some x y e :
  decimal_exponent_i256 x y = Some e -> 0 < val256 x /\ 0 < val256 y /\ is_exponent (val256 x) (val256 y) e /\ - 80 < e < 80.
Proof.
  intros He. unfold decimal_exponent_i256 in He. inv_opt.
  match goal with E : i256_checked_ilog10 x = Some ?n, F : i256_checked_ilog10 y = Some ?d |- _ =>
    apply ilog10_Some in E as [Dx Bx]; apply ilog10_Some in F as [Dy By]; set (da := n + 1) in *; set (db := d + 1) in * end.
  pose proof (exponent_candidate _ _ _ _ Dx Dy) as Hc. destruct Dx as [Ha Rx], Dy as [Hb Ry].
  assert (0 < 10 ^ (da - 1)) by (apply pow10_pos; lia). assert (0 < 10 ^ (db - 1)) by (apply pow10_pos; lia). split; [lia|]. split; [lia|]. unfold le10, shifted in Hc. clearbody da db.
  destruct (Z.leb_spec 0 (da - db)).
  - inv_opt. match goal with E : pow10_i256 _ = Some _ |- _ => rewrite as_u32_id in E by lia; apply pow10_i256_Some in E as [Hp _]; [|lia] end.
    match goal with E : i256_checked_mul _ _ = Some _ |- _ => apply mul_Some in E as Hm end.
    rewrite lt_law, Hm, Hp, Z.ltb_antisym in He. rewrite (Z.max_l (da - db)), (Z.max_r (- (da - db))), Z.pow_0_r, Z.mul_1_r in Hc by lia.
    injection He as <-. destruct (_ <=? _); cbn [negb]; split; (done || lia).
  - inv_opt. match goal with E : pow10_i256 _ = Some _ |- _ => rewrite as_u32_id in E by lia; apply pow10_i256_Some in E as [Hp _]; [|lia] end.
    match goal with E : i256_checked_mul _ _ = Some _ |- _ => apply mul_Some in E as Hm end.
    rewrite lt_law, Hm, Hp, Z.ltb_antisym in He. rewrite (Z.max_r (da - db)), (Z.max_l (- (da - db))), Z.pow_0_r, Z.mul_1_r in Hc by lia.
    injection He as <-. destruct (_ <=? _); cbn [negb]; split; (done || lia).
Qed.

(** The significand and the scaling of the fast path. *)
Lemma significand_i256_Some x y e z : 0 < val256 x -> 0 < val256 y -> - 80 < e < 80 ->
  (if 0 <=? 37 - e then p ← pow10_i256 (as_u32 (37 - e)); scaled ← i256_checked_mul x p; round_half_up_i256 scaled y
   else p ← pow10_i256 (as_u32 (- (37 - e))); scaled ← i256_checked_mul y p; round_half_up_i256 x scaled) = Some z ->
  val256 z = significand (val256 x) (val256 y) e.
Proof.
  intros Hx Hy He Hz. unfold significand, shifted. destruct (Z.leb_spec 0 (37 - e)); inv_opt.
  - match goal with E : pow10_i256 _ = Some _ |- _ => rewrite as_u32_id in E by lia; apply pow10_i256_Some in E as [Hp _]; [|lia] end.
    match goal with E : i256_checked_mul _ _ = Some _ |- _ => apply mul_Some in E as Hm end.
    apply round_i256_Some in Hz as ->; [|done]. rewrite Hm, Hp, (Z.max_l (37 - e)), (Z.max_r (e - 37)), Z.pow_0_r, Z.mul_1_r by lia. done.
  - match goal with E : pow10_i256 _ = Some _ |- _ => rewrite as_u32_id in E by lia; apply pow10_i256_Some in E as [Hp _]; [|lia] end.
    match goal with E : i256_checked_mul _ _ = Some _ |- _ => apply mul_Some in E as Hm end.
    assert (0 < 10 ^ (- (37 - e))) by (apply pow10_pos; lia).
    apply round_i256_Some in Hz as ->; [|rewrite Hm, Hp; nia].
    rewrite Hm, Hp, (Z.max_r (37 - e)), (Z.max_l (e - 37)), Z.pow_0_r, Z.mul_1_r by lia. do 3 f_equal. lia.
Qed.
Lemma to_scale_i256_Some s e t z : - 80 < e < 80 -> 0 <= t <= 127 ->
  (if 0 <=? e - 37 + t then p ← pow10_i256 (as_u32 (e - 37 + t)); i256_checked_mul s p
   else p ← pow10_i256 (as_u32 (- (e - 37 + t))); round_half_up_i256 s p) = Some z ->
  val256 z = to_scale t e (val256 s).
Proof.
  intros He Ht Hz. unfold to_scale. cbv zeta. destruct (Z.leb_spec 0 (e - 37 + t)); inv_opt;
    (match goal with E : pow10_i256 _ = Some _ |- _ => rewrite as_u32_id in E by lia; apply pow10_i256_Some in E as [Hp _]; [|lia] end).
  - by rewrite (mul_Some _ _ _ Hz), Hp.
  - apply round_i256_Some in Hz as ->; [by rewrite Hp|]. rewrite Hp. apply pow10_pos. lia.
Qed.

Lemma divide_i256_Some l ls r rs p t o :
  divides l ls r rs p t -> l <> 0 -> flink_divide_nonzero_i256 l ls r rs p t = Some o -> o = decimal_quotient l ls r rs p t.
Proof.
  intros [Hl Hr Hr0 (Hls & Hrs & Ht) Hp] Hl0 Ho. unfold flink_divide_nonzero_i256 in Ho. cbv zeta in Ho.
  change (FLINK_DIVIDE_PRECISION - 1) with 37 in Ho. rewrite !as_u32_id in Ho by lia.
  apply bind_Some in Ho as (la & Hla & Ho). apply bind_Some in Ho as (lp & Hlp & Ho). apply bind_Some in Ho as (x & Hx & Ho).
  apply bind_Some in Ho as (ra & Hra & Ho). apply bind_Some in Ho as (rp & Hrp & Ho). apply bind_Some in Ho as (y & Hy & Ho).
  apply bind_Some in Ho as (e & He & Ho). apply bind_Some in Ho as (sig & Hsig & Ho). apply bind_Some in Ho as (u & Hu & Ho).
  apply bind_Some in Ho as (v & Hv & [= <-]).
  apply abs_Some in Hla. apply abs_Some in Hra. apply pow10_i256_Some in Hlp as [Hlp _]; [|lia]. apply pow10_i256_Some in Hrp as [Hrp _]; [|lia].
  apply mul_Some in Hx. apply mul_Some in Hy. rewrite from_i128_law in Hla, Hra by done. rewrite Hla, Hlp in Hx. rewrite Hra, Hrp in Hy.
  apply exponent_i256_Some in He as (Px & Py & He & Be). unfold decimal_quotient. rewrite (proj2 (Z.eqb_neq l 0)) by done. cbv zeta.
  rewrite <- Hx, <- Hy.
  assert (exponent_of (val256 x) (val256 y) = e) as -> by (eapply is_exponent_unique; [|by apply exponent_of_spec|done]; lia).
  apply significand_i256_Some in Hsig; [|done..]. apply to_scale_i256_Some in Hu; [|done..].
  rewrite <- Hsig, <- Hu, checked_decimal_i256_val by done. f_equal.
  destruct (Bool.eqb (l <? 0) (r <? 0)); cbn [negb] in Hv; [by simplify_eq|by apply neg_Some].
Qed.

(** Rounding an integer of 128 bits never overflows. *)
Lemma round_i256_total x y : in_i128 (val256 x) -> 0 < val256 y <= 10 ^ 76 ->
  exists z, round_half_up_i256 x y = Some z /\ val256 z = half_up (val256 x) (val256 y).
Proof.
  intros Hx Hy. assert (10 ^ 76 * 2 < 2 ^ 255) as H76 by done. assert (2 ^ 127 + 1 < 2 ^ 255) as H127 by done. unfold in_i128 in Hx.
  enough (is_Some (round_half_up_i256 x y)) as [z Hz] by (exists z; split; [done|]; apply round_i256_Some; [lia|done]).
  assert (Z.abs (Z.rem (val256 x) (val256 y)) < Z.abs (val256 y)) as Hrem by (apply Z.rem_bound_abs; lia).
  assert (Z.abs (Z.quot (val256 x) (val256 y)) <= Z.abs (val256 x)) as Hquot.
  { rewrite <- Z.quot_abs by lia. apply Z.quot_le_upper_bound; [lia|]. nia. }
  unfold round_half_up_i256.
  pose proof (div_law x y) as Hd. destruct (i256_checked_div x y) as [q|]; [|exfalso; apply Hd; [lia|unfold in_i256; lia]].
  pose proof (rem_law x y) as Hm. destruct (i256_checked_rem x y) as [m|]; [|exfalso; lia].
  destruct Hd as [_ Hd], Hm as [_ Hm]. cbn [mbind option_bind].
  pose proof (abs_law m) as Ha. destruct (i256_checked_abs m) as [a|]; [|exfalso; apply Ha; [done|unfold in_i256; lia]].
  destruct Ha as [_ Ha]. cbn [mbind option_bind].
  pose proof (mul_law a (i256_from_i128 2)) as Ht. rewrite from_small in Ht by lia.
  destruct (i256_checked_mul a _) as [t|]; [|exfalso; apply Ht; [done|unfold in_i256; lia]].
  cbn [mbind option_bind]. destruct (negb _); [done|]. destruct (i256_lt _ _).
  - pose proof (sub_law q (i256_from_i128 1)) as Hs. rewrite from_small in Hs by lia.
    destruct (i256_checked_sub _ _); [done|exfalso; apply Hs; [done|unfold in_i256; lia]].
  - pose proof (add_law q (i256_from_i128 1)) as Hs. rewrite from_small in Hs by lia.
    destruct (i256_checked_add _ _); [done|exfalso; apply Hs; [done|unfold in_i256; lia]].
Qed.

Lemma rescale_spec v s p t :
  in_i128 v -> 0 <= s <= 76 -> 0 <= t <= 76 -> 0 <= p <= 38 -> flink_rescale v s p t = decimal_rescaled v s p t.
Proof.
  intros Hv Hs Ht Hp. unfold flink_rescale, decimal_rescaled. cbv zeta.
  destruct (Z.leb_spec s t).
  - rewrite wraps_id, as_u32_id by (assert (2 ^ (8 - 1) = 128) by done; lia).
    unfold pow10_i256. rewrite (proj2 (Z.ltb_lt _ _)) by lia. cbn [mbind option_bind].
    pose proof (mul_law (i256_from_i128 v) (i256_powers_of_ten (Z.to_nat (t - s)))) as Hm.
    rewrite from_i128_law, powers_val, Z2Nat.id in Hm by (done || lia).
    destruct (i256_checked_mul _ _) as [z|]; cbn [mbind option_bind].
    + destruct Hm as [_ <-]. by apply checked_decimal_i256_val.
    + specialize (Hm I). unfold bounded. rewrite (proj2 (Z.leb_le _ _)); [done|].
      assert (10 ^ p <= 10 ^ 38) by (apply Z.pow_le_mono_r; lia). assert (10 ^ 38 < 2 ^ 255) by done. unfold in_i256 in Hm. lia.
  - rewrite wraps_id, as_u32_id by (assert (2 ^ (8 - 1) = 128) by done; lia).
    unfold pow10_i256. rewrite (proj2 (Z.ltb_lt _ _)) by lia. cbn [mbind option_bind].
    assert (val256 (i256_powers_of_ten (Z.to_nat (s - t))) = 10 ^ (s - t)) as Hpow by (rewrite powers_val, Z2Nat.id by lia; done).
    destruct (round_i256_total (i256_from_i128 v) (i256_powers_of_ten (Z.to_nat (s - t)))) as (z & -> & Hz).
    + by rewrite from_i128_law.
    + rewrite Hpow. split; [apply pow10_pos; lia|]. apply Z.pow_le_mono_r; lia.
    + cbn [mbind option_bind]. rewrite Hpow, from_i128_law in Hz by done. rewrite <- Hz. by apply checked_decimal_i256_val.
Qed.
End fixed.

(** ** The claims *)

Lemma significand_digits n d e :
  0 < n -> 0 < d -> is_exponent n d e -> 10 ^ 37 <= significand n d e <= 10 ^ 38.
Proof.
  intros Hn Hd [Hlow Hhigh]. unfold significand. set (k := Z.max (- e) 0 + Z.max (37 - e) 0 + 1).
  assert (0 < shifted d (e - 37)) as Hpos by (unfold shifted; pose proof (pow10_pos (Z.max (e - 37) 0)); nia).
  assert (10 ^ 37 * shifted d (e - 37) <= shifted n (37 - e)) as Hge.
  { unfold shifted. apply (le10_scale (Z.max (37 - e) 0)) in Hlow; [|lia|lia].
    rewrite Z.mul_assoc, (Z.mul_comm (10 ^ 37)), <- Z.mul_assoc, <- Z.pow_add_r by lia.
    by replace (37 + Z.max (e - 37) 0) with (Z.max (37 - e) 0 + e) by lia. }
  assert (shifted n (37 - e) < 10 ^ 38 * shifted d (e - 37)) as Hlt.
  { unfold shifted. apply not_true_iff_false in Hhigh. rewrite (le10_scale (Z.max (37 - e) 0)) in Hhigh by lia.
    rewrite Z.mul_assoc, (Z.mul_comm (10 ^ 38)), <- Z.mul_assoc, <- Z.pow_add_r by lia.
    replace (38 + Z.max (e - 37) 0) with (Z.max (37 - e) 0 + (e + 1)) by lia. lia. }
  pose proof (half_up_near (shifted n (37 - e)) (shifted d (e - 37)) Hpos) as Hnear.
  set (s := half_up _ _) in *. set (a := shifted n _) in *. set (b := shifted d _) in *. clearbody s a b. nia.
Qed.

Section division.
Context `{I256Laws} `{BigIntegerLaws}.

Lemma flink_divide_spec l ls r rs p t :
  divides l ls r rs p t -> flink_divide l ls r rs p t = Ok (decimal_quotient l ls r rs p t).
Proof.
  intros Hd. unfold flink_divide. rewrite (proj2 (Z.eqb_neq r 0)) by apply Hd. f_equal. unfold flink_divide_nonzero.
  destruct (Z.eqb_spec l 0) as [->|Hl]; [done|].
  destruct (flink_divide_nonzero_i256 l ls r rs p t) as [o|] eqn:E; [by apply divide_i256_Some|by apply divide_bigint_spec].
Qed.

(** C22: Decimal division rounds as Flink does, whichever routine computes it.
    The 256-bit fast path, where it does not give up, and the arbitrary-precision
    fallback both return the quotient rounded half up to exactly 38 significant
    digits and then to the result's scale, with the sign of the operands, and
    null beyond the precision; only a zero divisor is an error. Casting between
    scales rounds half up and is null beyond the precision. *)
Theorem decimal_rounding_exact :
  (forall l ls r rs p t, divides l ls r rs p t ->
     flink_divide l ls r rs p t = Ok (decimal_quotient l ls r rs p t) /\
     (l <> 0 ->
        flink_divide_nonzero_bigint l ls r rs p t = decimal_quotient l ls r rs p t /\
        (forall o, flink_divide_nonzero_i256 l ls r rs p t = Some o -> o = decimal_quotient l ls r rs p t) /\
        let n := Z.abs l * 10 ^ rs in
        let d := Z.abs r * 10 ^ ls in
        let e := exponent_of n d in
        let s := significand n d e in
        10 ^ 37 <= s <= 10 ^ 38 /\
        2 * Z.abs (s * shifted d (e - 37) - shifted n (37 - e)) <= shifted d (e - 37))) /\
  (forall l ls rs p t, flink_divide l ls 0 rs p t = Err (Execution "Division by zero")) /\
  (forall v s p t, in_i128 v -> 0 <= s <= 76 -> 0 <= t <= 76 -> 0 <= p <= 38 ->
     flink_rescale v s p t = decimal_rescaled v s p t).
Proof.
  split; [|split; [done|apply rescale_spec]]. intros l ls r rs p t Hd. split.
  - by apply flink_divide_spec.
  - intros Hl. split; [by apply divide_bigint_spec|]. split; [by intros o; apply divide_i256_Some|]. cbv zeta.
    destruct Hd as [Dl Dr Dr0 (Hls & Hrs & _) _].
    pose proof (scaled_size l rs Dl Hl Hrs) as [Hn _]. pose proof (scaled_size r ls Dr Dr0 Hls) as [Hm _].
    split; [apply significand_digits; [done..|by apply exponent_of_spec]|]. apply half_up_near. unfold shifted.
    match goal with |- 0 < ?a * 10 ^ ?k => pose proof (pow10_pos k ltac:(lia)) end. nia.
Qed.
End division.

(** ** Evaluation over arrays *)

Section evaluation.
Context `{I256Laws} `{BigIntegerLaws} `{ArrowLaws}.

(** Precision and scale within their machine types. *)
Definition decimal_ok (t : DataType) : Prop :=
  match t with DDecimal128 p s => 0 <= p <= 255 /\ - 128 <= s <= 127 | _ => True end.
Lemma decimal_type_Ok t p s : decimal_ok t -> decimal_type t = Ok (p, s) -> 0 <= p <= 38 /\ 0 <= s <= 127.
Proof.
  destruct t; cbn [decimal_type decimal_ok]; try done. intros [Hp Hs].
  destruct (Z.leb_spec precision 38), (Z.leb_spec 0 scale); cbn [andb]; intros E; simplify_eq. lia.
Qed.

Definition row_null (left right : Array) (i : Z) : bool := is_null left i || is_null right i.
Definition quotient_at (e : FlinkDecimalExpr) (lv rv : Z -> Z) (left right : Array) (i : Z) : option Z :=
  if row_null left right i then None
  else decimal_quotient (lv i) (de_left_scale e) (rv i) (de_right_scale e) (de_target_precision e) (de_target_scale e).

Lemma collect_first {A B} (f : A -> outcome B) (g : A -> B) (bad : A -> bool) err l :
  (forall x, x ∈ l -> f x = if bad x then Err err else Ok (g x)) ->
  collect f l = if existsb bad l then Err err else Ok (map g l).
Proof.
  induction l as [|x l IH]; intros Hf; [done|]. cbn [collect existsb map]. rewrite (Hf x) by left.
  destruct (bad x); [done|]. rewrite outcome_bind_run, IH by (intros; apply Hf; by right). by destruct (existsb bad l).
Qed.

Lemma evaluate_divides with_precision_and_scale lt rt target e left right lv rv rows :
  decimal_ok lt -> decimal_ok rt -> decimal_ok target -> decimal_divide lt rt target = Ok e ->
  as_fixed Decimal128Array left = Some lv -> as_fixed Decimal128Array right = Some rv ->
  0 <= rows <= array_len left -> rows <= array_len right ->
  evaluate with_precision_and_scale e left (Some right) rows =
    let indices := map Z.of_nat (seq 0 (Z.to_nat rows)) in
    if existsb (fun i => negb (row_null left right i) && (rv i =? 0)) indices
    then Err (Execution "Division by zero")
    else with_precision_and_scale (de_target_precision e) (de_target_scale e) (map (quotient_at e lv rv left right) indices).
Proof.
  intros Hlt Hrt Htt He Hl Hr Hrows Hrows'. unfold decimal_divide in He. inv_M.
  repeat match goal with p : (Z * Z)%type |- _ => destruct p end. cbn beta iota in He. inv_M.
  repeat match goal with p : (Z * Z)%type |- _ => destruct p end. cbn beta iota in He. inv_M.
  repeat match goal with p : (Z * Z)%type |- _ => destruct p end. cbn beta iota in He. injection He as <-.
  repeat match goal with E : decimal_type _ = Ok _ |- _ => apply decimal_type_Ok in E; [|done] end.
  unfold evaluate, guard_ok. rewrite Hr, bool_decide_eq_true_2 by done. rewrite outcome_bind_run. cbv zeta.
  set (indices := map Z.of_nat (seq 0 (Z.to_nat rows))). set (bad := fun i => negb (row_null left right i) && (rv i =? 0)). set (e := {| de_operation := Divide |}).
  enough (collect (evaluate_row e left (Some right)) indices = if existsb bad indices then Err (Execution "Division by zero") else Ok (map (quotient_at e lv rv left right) indices)) as ->
    by (destruct (existsb bad indices); [reflexivity|by rewrite outcome_bind_run]).
  apply collect_first.
  intros i (k & -> & Hk%elem_of_seq)%list_elem_of_fmap. unfold evaluate_row, quotient_at, bad, row_null, e.
  destruct (is_null left (Z.of_nat k) || is_null right (Z.of_nat k)); [done|]. cbn [negb andb].
  unfold value_of. rewrite Hl, Hr. unfold ok_or. rewrite !outcome_bind_run.
  rewrite !(proj2 (Z.leb_le _ _)), !(proj2 (Z.ltb_lt _ _)) by lia. cbn [andb]. rewrite !outcome_bind_run. cbn [de_left_scale de_right_scale de_target_precision de_target_scale].
  destruct (Z.eqb_spec (rv (Z.of_nat k)) 0) as [->|Hnz]; [done|].
  apply flink_divide_spec. pose proof (fixed_law _ _ _ (Z.of_nat k) Hl ltac:(lia)) as Rl. pose proof (fixed_law _ _ _ (Z.of_nat k) Hr ltac:(lia)) as Rr.
  split; [exact Rl|exact Rr|done|lia|lia].
Qed.
End evaluation.
