(* ===== verification/DecimalFixture.v ===== *)
(** * Integers of the two crates, and a division

    The interfaces of the wide integer types can be implemented: both are given
    here on [Z], and the theorems on decimals applied to them. *)

From Stdlib Require Import ZArith Lia.
From stdpp Require Import base list option numbers strings.
From S2P Require Import Prelude Bytes Arrow Decimal DecimalSpec.

(** ** 256-bit integers *)

Definition fits (z : Z) : bool := (- 2 ^ 255 <=? z) && (z <? 2 ^ 255).
Lemma fits_spec z : fits z = true <-> in_i256 z.
Proof. unfold fits, in_i256. rewrite andb_true_iff, Z.leb_le, Z.ltb_lt. done. Qed.
Record wide : Type := { wide_val : Z; wide_fits : fits wide_val = true }.

Definition narrow (z : Z) : option wide :=
  match Sumbool.sumbool_of_bool (fits z) with
  | left E => Some {| wide_val := z; wide_fits := E |}
  | right _ => None
  end.
Lemma wraps_fits z : fits (wraps 256 z) = true.
Proof. apply fits_spec. pose proof (wraps_range 256 z ltac:(lia)). unfold in_i256. by change (256 - 1) with 255 in *. Qed.
Definition wrapped (z : Z) : wide := {| wide_val := wraps 256 z; wide_fits := wraps_fits z |}.

Lemma narrow_checks z P : P -> checks wide_val (narrow z) P z.
Proof.
  intros HP. unfold narrow. destruct (Sumbool.sumbool_of_bool (fits z)) as [E|E]; cbn; [done|].
  intros _ Hz%fits_spec. congruence.
Qed.

#[global] Instance wide_i256 : I256 := {|
  i256 := wide;
  i256_from_i128 := wrapped;
  i256_checked_mul x y := narrow (wide_val x * wide_val y);
  i256_wrapping_mul x y := wrapped (wide_val x * wide_val y);
  i256_checked_add x y := narrow (wide_val x + wide_val y);
  i256_checked_sub x y := narrow (wide_val x - wide_val y);
  i256_checked_div x y := if wide_val y =? 0 then None else narrow (Z.quot (wide_val x) (wide_val y));
  i256_checked_rem x y := if wide_val y =? 0 then None else narrow (Z.rem (wide_val x) (wide_val y));
  i256_checked_abs x := narrow (Z.abs (wide_val x));
  i256_checked_neg x := narrow (- wide_val x);
  i256_checked_ilog10 x := if 0 <? wide_val x then Some (digits10 (wide_val x) - 1) else None;
  i256_to_i128 x := if (- 2 ^ 127 <=? wide_val x) && (wide_val x <? 2 ^ 127) then Some (wide_val x) else None;
  i256_lt x y := wide_val x <? wide_val y;
  i256_ge x y := wide_val y <=? wide_val x;
|}.

Lemma to_i128_checked z :
  (in_i128 z -> (if (- 2 ^ 127 <=? z) && (z <? 2 ^ 127) then Some z else None) = Some z) /\
  (~ in_i128 z -> (if (- 2 ^ 127 <=? z) && (z <? 2 ^ 127) then Some z else None) = None).
Proof. unfold in_i128. destruct (Z.leb_spec (- 2 ^ 127) z), (Z.ltb_spec z (2 ^ 127)); cbn [andb]; split; intros; (done || lia). Qed.

#[global] Instance wide_laws : I256Laws.
Proof.
  refine {| val256 := wide_val |}.
  - intros x. apply fits_spec, wide_fits.
  - intros z Hz. cbn. apply wraps_id; [lia|]. apply in_i128_256 in Hz. by change (256 - 1) with 255.
  - intros x y. by apply narrow_checks.
  - done.
  - intros x y. by apply narrow_checks.
  - intros x y. by apply narrow_checks.
  - intros x y. cbn. destruct (Z.eqb_spec (wide_val y) 0); [by intros ?|by apply narrow_checks].
  - intros x y. cbn. destruct (Z.eqb_spec (wide_val y) 0) as [|Hy]; [by left|].
    pose proof (narrow_checks (Z.rem (wide_val x) (wide_val y)) (wide_val y <> 0) Hy) as Hn. destruct (narrow _); [done|]. exfalso. apply Hn; [done|].
    pose proof (proj1 (fits_spec _) (wide_fits y)) as Hr. pose proof (Z.rem_bound_abs (wide_val x) (wide_val y) Hy). unfold in_i256 in *. lia.
  - intros x. by apply narrow_checks.
  - intros x. by apply narrow_checks.
  - intros x. cbn. destruct (Z.ltb_spec 0 (wide_val x)) as [Hx|Hx]; [|done]. destruct (digits10_spec _ Hx) as [Hd Hr].
    split; [lia|]. by replace (digits10 (wide_val x) - 1 + 1) with (digits10 (wide_val x)) by lia.
  - intros x. apply to_i128_checked.
  - done.
  - done.
Defined.

(** ** Arbitrary precision *)

#[global] Instance Z_bigint : BigInteger := {|
  BigInt := Z;
  big_from z := z;
  big_abs := Z.abs;
  big_neg := Z.opp;
  big_mul := Z.mul;
  big_add := Z.add;
  big_sub := Z.sub;
  big_div := Z.quot;
  big_rem := Z.rem;
  big_pow := Z.pow;
  big_lt := Z.ltb;
  big_ge x y := y <=? x;
  big_is_negative x := x <? 0;
  big_digits := digits10;
  big_to_i128 x := if (- 2 ^ 127 <=? x) && (x <? 2 ^ 127) then Some x else None;
|}.
#[global] Instance Z_bigint_laws : BigIntegerLaws.
Proof. refine {| bval := fun z : BigInt => z |}; try done; [intros x Hx; by apply digits10_spec|intros x; apply to_i128_checked]. Defined.

(** ** Examples *)

Example divide_thirds : flink_divide 1 0 3 0 10 6 = Ok (Some 333333).
Proof. vm_compute. reflexivity. Qed.
(** The significand is rounded first: just below a half becomes one. *)
Example double_rounding :
  flink_divide (10 ^ 38 - 1) 38 2 0 38 0 = Ok (Some 1) /\ half_up (10 ^ 38 - 1) (2 * 10 ^ 38) = 0.
Proof. vm_compute. done. Qed.
Example casts :
  flink_rescale 1245 3 3 2 = Some 125 /\ flink_rescale (-1245) 3 3 2 = Some (-125) /\ flink_rescale 999 0 3 1 = None.
Proof. vm_compute. done. Qed.

Lemma decimal_rounding_exact_witness :
  exists q, flink_divide (-2) 0 3 0 10 6 = Ok q /\ q = Some (-666667) /\
    flink_divide_nonzero_bigint (-2) 0 3 0 10 6 = q /\ flink_rescale 1245 3 3 2 = Some 125.
Proof.
  destruct decimal_rounding_exact as (Hdiv & _ & Hcast). destruct (Hdiv (-2) 0 3 0 10 6) as [Hq Hrest].
  - split; [split; reflexivity || (vm_compute; congruence)|split; vm_compute; congruence|lia|lia|lia].
  - destruct Hrest as [Hbig _]; [lia|]. eexists. split; [exact Hq|]. split; [vm_compute; reflexivity|]. split; [exact Hbig|].
    rewrite Hcast; [vm_compute; reflexivity|split; vm_compute; congruence|lia|lia|lia].
Defined.
