(* ===== verification/Aggregate.v ===== *)
(** * Aggregate accumulators: [operators/group_aggregate] ([accumulator.rs], [values.rs])

    The accumulators of COUNT, SUM, AVG, MIN and MAX, plain and DISTINCT, append
    only and retractable, with the arithmetic of their values. *)

From Stdlib Require Import ZArith Lia Strings.Byte.
From Corelib Require Import SpecFloat.
From stdpp Require Import base list option numbers strings.
From S2P Require Import Prelude Bytes OrdMap Arrow Decimal.

(** ** Floats

    A float is its bit pattern. [ff_mantissa] is the number of stored mantissa
    bits; arithmetic is that of IEEE 754 with the precision and the exponent
    range of the format, rounding to nearest even. *)

Record FloatFormat : Type := { ff_width : Z; ff_mantissa : Z }.
Definition F32 : FloatFormat := {| ff_width := 32; ff_mantissa := 23 |}.
Definition F64 : FloatFormat := {| ff_width := 64; ff_mantissa := 52 |}.

Section floats.
Context (f : FloatFormat).

Definition ff_prec : Z := ff_mantissa f + 1.
Definition ff_emax : Z := 2 ^ (ff_width f - ff_mantissa f - 2).
Definition float_sign (b : Z) : bool := Z.testbit b (ff_width f - 1).
(** The bits below the sign. *)
Definition float_mag (b : Z) : Z := b mod 2 ^ (ff_width f - 1).
Definition float_inf : Z := (2 ^ (ff_width f - 1 - ff_mantissa f) - 1) * 2 ^ ff_mantissa f.
Definition is_nan (b : Z) : bool := float_inf <? float_mag b.
(** The canonical [NAN]. *)
Definition float_nan : Z := float_inf + 2 ^ (ff_mantissa f - 1).

(** [from_bits(l) < from_bits(r)]: magnitudes are ordered as integers. *)
Definition float_rank (b : Z) : Z := if float_sign b then - float_mag b else float_mag b.
Definition float_lt (l r : Z) : bool := negb (is_nan l) && negb (is_nan r) && (float_rank l <? float_rank r).
Definition float_is_zero (b : Z) : bool := float_mag b =? 0.

(** The value of a bit pattern, and back; [to_bits] of any NaN is canonical. *)
Definition float_value (b : Z) : spec_float :=
  let s := float_sign b in
  let m := float_mag b mod 2 ^ ff_mantissa f in
  let e := float_mag b / 2 ^ ff_mantissa f in
  if is_nan b then S754_nan
  else if float_mag b =? float_inf then S754_infinity s
  else if e =? 0 then match m with Zpos p => S754_finite s p (emin ff_prec ff_emax) | _ => S754_zero s end
  else match m + 2 ^ ff_mantissa f with
       | Zpos p => S754_finite s p (e + emin ff_prec ff_emax - 1)
       | _ => S754_nan
       end.
Definition float_bits (x : spec_float) : Z :=
  let signed (s : bool) (m : Z) := if s then m + 2 ^ (ff_width f - 1) else m in
  match x with
  | S754_zero s => signed s 0
  | S754_infinity s => signed s float_inf
  | S754_nan => float_nan
  | S754_finite s m e =>
      if Zpos m <? 2 ^ ff_mantissa f then signed s (Zpos m)
      else signed s ((e - emin ff_prec ff_emax + 1) * 2 ^ ff_mantissa f + (Zpos m - 2 ^ ff_mantissa f))
  end.

Definition float_add (l r : Z) : Z := float_bits (SFadd ff_prec ff_emax (float_value l) (float_value r)).
Definition float_sub (l r : Z) : Z := float_bits (SFsub ff_prec ff_emax (float_value l) (float_value r)).
Definition float_div (l r : Z) : Z := float_bits (SFdiv ff_prec ff_emax (float_value l) (float_value r)).
(** A value rounded to this format: [as f32], [as f64]. *)
Definition float_round (x : spec_float) : Z :=
  match x with
  | S754_finite s m e => float_bits (binary_normalize ff_prec ff_emax (if s then Zneg m else Zpos m) e s)
  | x => float_bits x
  end.
Definition float_of_int (z : Z) : Z := float_bits (binary_normalize ff_prec ff_emax z 0 false).

(** [flink_f32_cmp], [flink_f64_cmp]. *)
Definition flink_float_cmp (l r : Z) : comparison :=
  if float_lt l r then Lt
  else if float_lt r l then Gt
  else Z.compare (wraps (ff_width f) l) (wraps (ff_width f) r).
End floats.

(** ** Values *)

Inductive AggregateValue : Type :=
  | VBoolean (b : bool)
  | VInt (z : Z)
  | VFloat32 (bits : Z)
  | VFloat64 (bits : Z)
  | VBytes (b : bytes).
#[global] Instance AggregateValue_eq : EqDecision AggregateValue.
Proof. solve_decision. Defined.

Definition value_tag (v : AggregateValue) : Z :=
  match v with VBoolean _ => 1 | VInt _ => 2 | VFloat32 _ => 3 | VFloat64 _ => 4 | VBytes _ => 5 end.
Definition bool_cmp (x y : bool) : comparison := Z.compare (Z.b2z x) (Z.b2z y).
#[global] Instance value_ord : Ord AggregateValue := fun x y =>
  match x, y with
  | VBoolean l, VBoolean r => bool_cmp l r
  | VInt l, VInt r => Z.compare l r
  | VFloat32 l, VFloat32 r => flink_float_cmp F32 l r
  | VFloat64 l, VFloat64 r => flink_float_cmp F64 l r
  | VBytes l, VBytes r => bytes_cmp l r
  | _, _ => Z.compare (value_tag x) (value_tag y)
  end.

(** NaNs are made canonical. *)
Definition float32_value (b : Z) : AggregateValue := VFloat32 (if is_nan F32 b then float_nan F32 else b).
Definition float64_value (b : Z) : AggregateValue := VFloat64 (if is_nan F64 b then float_nan F64 else b).
Definition zero_value (t : DataType) : AggregateValue :=
  match t with DFloat32 => float32_value 0 | DFloat64 => float64_value 0 | _ => VInt 0 end.
Definition value_is_zero (v : AggregateValue) : bool :=
  match v with
  | VBoolean b => negb b
  | VInt z => z =? 0
  | VFloat32 b => float_is_zero F32 b
  | VFloat64 b => float_is_zero F64 b
  | VBytes b => forallb (fun c => bool_decide (c = x00)) b
  end.

(** [i128::checked_add], [i128::checked_sub]. *)
Definition i128_checked (z : Z) : option Z := if (- 2 ^ 127 <=? z) && (z <? 2 ^ 127) then Some z else None.
Definition decimal_operation (l r : Z) (t : DataType) (operation : Z -> Z -> option Z) : outcome (option AggregateValue) :=
  match t with
  | DDecimal128 precision _ =>
      let maximum := wraps 128 (wraps 128 (10 ^ precision) - 1) in
      Ok (z ← operation l r;
          if (wraps 128 (- maximum) <=? z) && (z <=? maximum) then Some (VInt z) else None)
  | _ => Panic
  end.

Definition operation_error : error := Internal "group aggregate cannot combine these values".
Definition aggregate_add (l r : AggregateValue) (t : DataType) : outcome (option AggregateValue) :=
  match l, r, t with
  | VInt l, VInt r, DInt8 => Ok (Some (VInt (wraps 8 (wraps 8 l + wraps 8 r))))
  | VInt l, VInt r, DInt16 => Ok (Some (VInt (wraps 16 (wraps 16 l + wraps 16 r))))
  | VInt l, VInt r, DInt32 => Ok (Some (VInt (wraps 32 (wraps 32 l + wraps 32 r))))
  | VInt l, VInt r, DInt64 => Ok (Some (VInt (wraps 64 (wraps 64 l + wraps 64 r))))
  | VInt l, VInt r, DDecimal128 _ _ => decimal_operation l r t (fun a b => i128_checked (a + b))
  | VFloat32 l, VFloat32 r, DFloat32 => Ok (Some (float32_value (float_add F32 l r)))
  | VFloat64 l, VFloat64 r, DFloat64 => Ok (Some (float64_value (float_add F64 l r)))
  | _, _, _ => Err operation_error
  end.
Definition aggregate_sub (l r : AggregateValue) (t : DataType) : outcome (option AggregateValue) :=
  match l, r, t with
  | VInt l, VInt r, DInt8 => Ok (Some (VInt (wraps 8 (wraps 8 l - wraps 8 r))))
  | VInt l, VInt r, DInt16 => Ok (Some (VInt (wraps 16 (wraps 16 l - wraps 16 r))))
  | VInt l, VInt r, DInt32 => Ok (Some (VInt (wraps 32 (wraps 32 l - wraps 32 r))))
  | VInt l, VInt r, DInt64 => Ok (Some (VInt (wraps 64 (wraps 64 l - wraps 64 r))))
  | VInt l, VInt r, DDecimal128 _ _ => decimal_operation l r t (fun a b => i128_checked (a - b))
  | VFloat32 l, VFloat32 r, DFloat32 => Ok (Some (float32_value (float_sub F32 l r)))
  | VFloat64 l, VFloat64 r, DFloat64 => Ok (Some (float64_value (float_sub F64 l r)))
  | _, _, _ => Err operation_error
  end.

Definition flink_append_extremum (current candidate : AggregateValue) (minimum : bool) : AggregateValue :=
  let replace :=
    match current, candidate with
    | VFloat32 cu, VFloat32 ca => if minimum then float_lt F32 ca cu else float_lt F32 cu ca
    | VFloat64 cu, VFloat64 ca => if minimum then float_lt F64 ca cu else float_lt F64 cu ca
    | _, _ => bool_decide (ocmp candidate current = if minimum then Lt else Gt)
    end in
  if replace then candidate else current.

(** ** Calls *)

Inductive AggregateFunction : Type := Unspecified | CountStar | Count | Sum | Min | Max | Avg | Sum0.
#[global] Instance AggregateFunction_eq : EqDecision AggregateFunction.
Proof. solve_decision. Defined.

Record Call : Type := {
  function : AggregateFunction;
  input_index : option Z;
  filter_index : option Z;
  distinct : bool;
  input_type : option DataType;
  output_type : DataType;
  retractable : bool;
}.

Definition average_accumulator_type (c : Call) : outcome DataType :=
  match input_type c with
  | Some (DInt8 | DInt16 | DInt32 | DInt64) => Ok DInt64
  | Some (DFloat32 | DFloat64) => Ok DFloat64
  | Some (DDecimal128 _ scale) => Ok (DDecimal128 38 scale)
  | _ => Panic
  end.

Definition average_contribution (v : AggregateValue) (c : Call) : outcome AggregateValue :=
  t ← average_accumulator_type c;
  match v, input_type c, t with
  | VInt z, Some (DInt8 | DInt16 | DInt32 | DInt64), DInt64 => Ok (VInt z)
  | VFloat32 b, Some DFloat32, DFloat64 => Ok (float64_value (float_round F64 (float_value F32 b)))
  | VFloat64 b, Some DFloat64, DFloat64 => Ok (VFloat64 b)
  | VInt z, Some (DDecimal128 _ input_scale), DDecimal128 38 sum_scale =>
      if input_scale =? sum_scale then Ok (VInt z) else Err (Internal "AVG cannot convert")
  | _, _, _ => Err (Internal "AVG cannot convert")
  end.

(** ** Accumulators *)

Definition counted : Type := list (AggregateValue * Z).
Inductive Accumulator : Type :=
  | ACount (n : Z)
  | ADistinctCount (count : Z) (values : counted)
  | ASum (value : option AggregateValue) (count : Z)
  | ADistinctSum (value : option AggregateValue) (count : Z) (values : counted)
  | AAverage (value : option AggregateValue) (count : Z)
  | ADistinctAverage (value : option AggregateValue) (count : Z) (values : counted)
  | AAppendExtremum (value : option AggregateValue)
  | AExtremum (values : counted).
Record AccumulatorState : Type := { row_count : Z; accumulators : list Accumulator }.

(** [BTreeMap<AggregateValue, i64>]. *)
Definition counted_get (v : AggregateValue) (m : counted) : Z :=
  match bt_find fst v m with Some e => e.2 | None => 0 end.
(** An entry keeps the key inserted first. *)
Definition counted_insert (v : AggregateValue) (n : Z) (m : counted) : counted :=
  bt_put fst (fun e => (e.1, n)) (v, n) m.
Definition counted_remove (v : AggregateValue) (m : counted) : counted := bt_remove fst v m.
(** The new count of a value, dropped at zero. *)
Definition counted_set (v : AggregateValue) (current : Z) (m : counted) : counted :=
  if current =? 0 then counted_remove v m else counted_insert v current m.

Definition new_accumulator (c : Call) : outcome Accumulator :=
  match function c with
  | CountStar | Count => Ok (if distinct c then ADistinctCount 0 [] else ACount 0)
  | Sum | Sum0 => Ok (if distinct c then ADistinctSum None 0 [] else ASum None 0)
  | Avg =>
      t ← average_accumulator_type c;
      Ok (if distinct c then ADistinctAverage (Some (zero_value t)) 0 [] else AAverage (Some (zero_value t)) 0)
  | Min | Max => Ok (if retractable c then AExtremum [] else AAppendExtremum None)
  | Unspecified => Panic
  end.
Definition new_state (calls : list Call) : outcome AccumulatorState :=
  l ← collect new_accumulator calls;
  Ok {| row_count := 0; accumulators := l |}.

(** ** Applying a row *)

Definition delta_of (accumulate : bool) : Z := if accumulate then 1 else -1.
(** [value] with [operand] added or taken away. *)
Definition combine (accumulate : bool) (current operand : AggregateValue) (t : DataType) : outcome (option AggregateValue) :=
  if accumulate then aggregate_add current operand t else aggregate_sub current operand t.
Definition sum_step (accumulate : bool) (sum : option AggregateValue) (v : AggregateValue) (t : DataType)
  : outcome (option AggregateValue) :=
  match sum with
  | Some current => combine accumulate current v t
  | None => if accumulate then Ok (Some v) else aggregate_sub (zero_value t) v t
  end.
Definition average_step (accumulate : bool) (sum : option AggregateValue) (v : AggregateValue) (c : Call)
  : outcome (option AggregateValue) :=
  contribution ← average_contribution v c;
  match sum with
  | Some current => t ← average_accumulator_type c; combine accumulate current contribution t
  | None => Ok None
  end.

(** One call's accumulator; it keeps what was assigned before an error. *)
Definition apply_accumulator (c : Call) (value : option AggregateValue) (accumulate : bool) : M Accumulator unit := fun acc =>
  let delta := delta_of accumulate in
  let changed previous current := (accumulate && (previous =? 0)) || (negb accumulate && (current =? 0)) in
  match acc, value with
  | ACount n, _ =>
      (Ok tt, if bool_decide (input_index c = None) || bool_decide (is_Some value) then ACount (wraps 64 (n + delta)) else acc)
  | _, None => (Ok tt, acc)
  | ADistinctCount count values, Some v =>
      let previous := counted_get v values in
      let current := wraps 64 (previous + delta) in
      (Ok tt, ADistinctCount (if changed previous current then wraps 64 (count + delta) else count)
                (counted_set v current values))
  | ASum sum count, Some v =>
      match sum_step accumulate sum v (output_type c) with
      | Ok sum => (Ok tt, ASum sum (wraps 64 (count + delta)))
      | Err e => (Err e, acc)
      | Panic => (Panic, acc)
      end
  | ADistinctSum sum count values, Some v =>
      let previous := counted_get v values in
      let current := wraps 64 (previous + delta) in
      let values := counted_set v current values in
      if changed previous current then
        match sum_step accumulate sum v (output_type c) with
        | Ok sum => (Ok tt, ADistinctSum sum (wraps 64 (count + delta)) values)
        | Err e => (Err e, ADistinctSum sum count values)
        | Panic => (Panic, ADistinctSum sum count values)
        end
      else (Ok tt, ADistinctSum sum count values)
  | AAverage sum count, Some v =>
      match average_step accumulate sum v c with
      | Ok sum => (Ok tt, AAverage sum (wraps 64 (count + delta)))
      | Err e => (Err e, acc)
      | Panic => (Panic, acc)
      end
  | ADistinctAverage sum count values, Some v =>
      let previous := counted_get v values in
      let current := wraps 64 (previous + delta) in
      let values := counted_set v current values in
      if changed previous current then
        match average_step accumulate sum v c with
        | Ok sum => (Ok tt, ADistinctAverage sum (wraps 64 (count + delta)) values)
        | Err e => (Err e, ADistinctAverage sum count values)
        | Panic => (Panic, ADistinctAverage sum count values)
        end
      else (Ok tt, ADistinctAverage sum count values)
  | AAppendExtremum extremum, Some v =>
      match extremum, function c with
      | Some current, Min => (Ok tt, AAppendExtremum (Some (flink_append_extremum current v true)))
      | Some current, Max => (Ok tt, AAppendExtremum (Some (flink_append_extremum current v false)))
      | None, _ => (Ok tt, AAppendExtremum (Some v))
      | _, _ => (Panic, acc)
      end
  | AExtremum values, Some v =>
      (Ok tt, AExtremum (counted_set v (wraps 64 (counted_get v values + delta)) values))
  end.

(** The zipped loop: calls, accumulators, values and activity, up to the
    shortest. *)
Fixpoint apply_all (calls : list Call) (values : list (option AggregateValue)) (active : list bool) (accumulate : bool)
  : M (list Accumulator) unit := fun accs =>
  match calls, accs, values, active with
  | c :: calls, acc :: accs, v :: values, a :: active =>
      match (if a then apply_accumulator c v accumulate acc else (Ok tt, acc)) with
      | (Ok _, acc) => let '(o, accs) := apply_all calls values active accumulate accs in (o, acc :: accs)
      | (o, acc) => (o, acc :: accs)
      end
  | _, accs, _, _ => (Ok tt, accs)
  end.
Definition on_accumulators {A} (m : M (list Accumulator) A) : M AccumulatorState A := fun s =>
  let '(o, l) := m (accumulators s) in (o, {| row_count := row_count s; accumulators := l |}).

Definition apply_values_with_activity (calls : list Call) (values : list (option AggregateValue)) (active : list bool)
    (accumulate : bool) : M AccumulatorState unit :=
  _ ← when (negb (len values =? len calls)) (Internal "aggregate contribution has values for other calls");
  _ ← modS (fun s => {| row_count := wraps 64 (row_count s + delta_of accumulate); accumulators := accumulators s |});
  on_accumulators (apply_all calls values active accumulate).
Definition apply_values (calls : list Call) (values : list (option AggregateValue)) (accumulate : bool) : M AccumulatorState unit :=
  apply_values_with_activity calls values (replicate (length calls) true) accumulate.

(** ** Merging *)

Definition positive (n : Z) : Z := Z.b2z (0 <? n).
(** One entry of the other DISTINCT SUM. *)
Definition merge_distinct_sum (c : Call) (entry : AggregateValue * Z) : M (option AggregateValue * Z * counted) unit :=
  fun '(sum, count, values) =>
  let previous := counted_get entry.1 values in
  let current := wraps 64 (previous + entry.2) in
  let values := counted_set entry.1 current values in
  match 0 <? previous, 0 <? current with
  | false, true =>
      match (match sum with
             | Some s => aggregate_add s entry.1 (output_type c)
             | None => Ok (if count =? 0 then Some entry.1 else None)
             end) with
      | Ok sum => (Ok tt, (sum, wraps 64 (count + 1), values))
      | Err e => (Err e, (sum, count, values))
      | Panic => (Panic, (sum, count, values))
      end
  | true, false =>
      match (match sum with Some s => aggregate_sub s entry.1 (output_type c) | None => Ok None end) with
      | Ok sum => (Ok tt, (sum, wraps 64 (count - 1), values))
      | Err e => (Err e, (sum, count, values))
      | Panic => (Panic, (sum, count, values))
      end
  | _, _ => (Ok tt, (sum, count, values))
  end.
Definition merge_distinct_average (c : Call) (entry : AggregateValue * Z) : M (option AggregateValue * Z * counted) unit :=
  fun '(sum, count, values) =>
  let previous := counted_get entry.1 values in
  let current := wraps 64 (previous + entry.2) in
  let values := counted_set entry.1 current values in
  match average_contribution entry.1 c with
  | Err e => (Err e, (sum, count, values))
  | Panic => (Panic, (sum, count, values))
  | Ok contribution =>
      let combined (accumulate : bool) : outcome (option AggregateValue) :=
        match sum with
        | Some s => t ← average_accumulator_type c; combine accumulate s contribution t
        | None => Ok None
        end in
      match 0 <? previous, 0 <? current with
      | false, true =>
          match combined true with
          | Ok sum => (Ok tt, (sum, wraps 64 (count + 1), values))
          | Err e => (Err e, (sum, count, values))
          | Panic => (Panic, (sum, count, values))
          end
      | true, false =>
          match combined false with
          | Ok sum => (Ok tt, (sum, wraps 64 (count - 1), values))
          | Err e => (Err e, (sum, count, values))
          | Panic => (Panic, (sum, count, values))
          end
      | _, _ => (Ok tt, (sum, count, values))
      end
  end.

Definition merge_distinct_count (m : Z * counted) (entry : AggregateValue * Z) : Z * counted :=
  let '(count, values) := m in
  let previous := counted_get entry.1 values in
  let current := wraps 64 (previous + entry.2) in
  (wraps 64 (count + (positive current - positive previous)), counted_set entry.1 current values).
Definition merge_extremum (values : counted) (entry : AggregateValue * Z) : counted :=
  counted_set entry.1 (wraps 64 (counted_get entry.1 values + entry.2)) values.

Definition merge_accumulator (c : Call) (other : Accumulator) : M Accumulator unit := fun acc =>
  match acc, other with
  | ACount n, ACount k => (Ok tt, ACount (wraps 64 (n + k)))
  | ADistinctCount count values, ADistinctCount _ others =>
      let '(count, values) := fold_left merge_distinct_count others (count, values) in
      (Ok tt, ADistinctCount count values)
  | ADistinctSum sum count values, ADistinctSum _ _ others =>
      let '(o, (sum, count, values)) := forM others (merge_distinct_sum c) (sum, count, values) in
      (o, ADistinctSum sum count values)
  | ADistinctAverage sum count values, ADistinctAverage _ _ others =>
      let '(o, (sum, count, values)) := forM others (merge_distinct_average c) (sum, count, values) in
      (o, ADistinctAverage sum count values)
  | ASum sum count, ASum sum' count' =>
      if bool_decide (is_Some sum') || negb (count' =? 0) then
        match (match sum, sum' with
               | Some l, Some r => aggregate_add l r (output_type c)
               | None, Some r => Ok (if count =? 0 then Some r else None)
               | _, _ => Ok None
               end) with
        | Ok sum => (Ok tt, ASum sum (wraps 64 (count + count')))
        | Err e => (Err e, acc)
        | Panic => (Panic, acc)
        end
      else (Ok tt, acc)
  | AAverage sum count, AAverage sum' count' =>
      if bool_decide (is_Some sum') || negb (count' =? 0) then
        match (match sum, sum' with
               | Some l, Some r => t ← average_accumulator_type c; aggregate_add l r t
               | _, _ => Ok None
               end) with
        | Ok sum => (Ok tt, AAverage sum (wraps 64 (count + count')))
        | Err e => (Err e, acc)
        | Panic => (Panic, acc)
        end
      else (Ok tt, acc)
  | AAppendExtremum extremum, AAppendExtremum other =>
      match other with
      | None => (Ok tt, acc)
      | Some v =>
          match extremum, function c with
          | Some current, Min => (Ok tt, AAppendExtremum (Some (flink_append_extremum current v true)))
          | Some current, Max => (Ok tt, AAppendExtremum (Some (flink_append_extremum current v false)))
          | None, _ => (Ok tt, AAppendExtremum (Some v))
          | _, _ => (Panic, acc)
          end
      end
  | AExtremum values, AExtremum others => (Ok tt, AExtremum (fold_left merge_extremum others values))
  | _, _ => (Err (Internal "aggregate accumulator variants do not match their calls"), acc)
  end.
Fixpoint merge_all (calls : list Call) (others : list Accumulator) : M (list Accumulator) unit := fun accs =>
  match calls, accs, others with
  | c :: calls, acc :: accs, other :: others =>
      match merge_accumulator c other acc with
      | (Ok _, acc) => let '(o, accs) := merge_all calls others accs in (o, acc :: accs)
      | (o, acc) => (o, acc :: accs)
      end
  | _, accs, _ => (Ok tt, accs)
  end.
Definition merge_state (calls : list Call) (other : AccumulatorState) : M AccumulatorState unit :=
  s ← getS;
  _ ← when (negb (len (accumulators s) =? len calls) || negb (len (accumulators other) =? len calls))
        (Internal "aggregate accumulator shape does not match its calls");
  _ ← modS (fun s => {| row_count := wraps 64 (row_count s + row_count other); accumulators := accumulators s |});
  on_accumulators (merge_all calls (accumulators other)).

(** ** Results *)

Section results.
Context `{I256} `{BigInteger}.

Definition average_value (value : option AggregateValue) (count : Z) (c : Call) : outcome (option AggregateValue) :=
  if count =? 0 then Ok None
  else
    t ← average_accumulator_type c;
    let quotient sum := wraps 64 (Z.quot (wraps 64 sum) count) in
    Ok (match value with
        | None => None
        | Some v =>
            match v, t, output_type c with
            | VInt sum, DInt64, DInt8 => Some (VInt (wraps 8 (quotient sum)))
            | VInt sum, DInt64, DInt16 => Some (VInt (wraps 16 (quotient sum)))
            | VInt sum, DInt64, DInt32 => Some (VInt (wraps 32 (quotient sum)))
            | VInt sum, DInt64, DInt64 => Some (VInt (quotient sum))
            | VFloat64 sum, DFloat64, DFloat32 =>
                Some (float32_value (float_round F32 (float_value F64 (float_div F64 sum (float_of_int F64 count)))))
            | VFloat64 sum, DFloat64, DFloat64 => Some (float64_value (float_div F64 sum (float_of_int F64 count)))
            | VInt sum, DDecimal128 _ sum_scale, DDecimal128 precision scale =>
                VInt <$> flink_divide_nonzero sum sum_scale count 0 precision scale
            | _, _, _ => None
            end
        end).

(** The first key with a positive count. *)
Definition first_positive (m : counted) : option AggregateValue :=
  fst <$> List.find (fun e => 0 <? e.2) m.
Definition accumulator_value (c : Call) (acc : Accumulator) : outcome (option AggregateValue) :=
  match acc with
  | ACount n => Ok (Some (VInt n))
  | ADistinctCount count _ => Ok (Some (VInt count))
  | ASum value count =>
      Ok (if count =? 0 then (if bool_decide (function c = Sum0) then Some (zero_value (output_type c)) else None) else value)
  | ADistinctSum value count _ => Ok (if count =? 0 then None else value)
  | AAverage value count | ADistinctAverage value count _ => average_value value count c
  | AAppendExtremum value => Ok value
  | AExtremum values =>
      match function c with
      | Min => Ok (first_positive values)
      | Max => Ok (first_positive (reverse values))
      | _ => Panic
      end
  end.
Fixpoint state_values (calls : list Call) (accs : list Accumulator) : outcome (list (option AggregateValue)) :=
  match calls, accs with
  | c :: calls, acc :: accs => v ← accumulator_value c acc; vs ← state_values calls accs; Ok (v :: vs)
  | _, _ => Ok []
  end.
End results.
