(* ===== verification/AggregateSpec.v ===== *)
(** * Accumulators compute the SQL aggregates of the rows they stand for *)

From Stdlib Require Import ZArith Lia Strings.Byte.
From stdpp Require Import base list option numbers strings sorting.
From S2P Require Import Prelude Bytes OrdMap Arrow Decimal Aggregate.

(** ** The order of values *)

(** The float formats in use. *)
Definition format_ok (f : FloatFormat) : Prop := 0 < ff_mantissa f /\ ff_mantissa f < ff_width f - 1.

(** A key that orders bit patterns as [flink_float_cmp]: negative numbers come
    first, largest magnitude first; everything else is ordered as a signed
    integer. *)
Definition float_key (f : FloatFormat) (b : Z) : Z :=
  if negb (is_nan f b) && float_sign f b then - 2 ^ ff_width f - float_mag f b else wraps (ff_width f) b.

Section float_order.
Context (f : FloatFormat) (Hf : format_ok f).
Let w := ff_width f.

Lemma pow_width : 2 ^ w = 2 * 2 ^ (w - 1) /\ 0 < 2 ^ (w - 1).
Proof.
  destruct Hf. split; [|apply Z.pow_pos_nonneg; unfold w in *; lia].
  rewrite <- Z.pow_succ_r by (unfold w in *; lia). f_equal. lia.
Qed.
Lemma mag_range b : 0 <= float_mag f b < 2 ^ (w - 1).
Proof. unfold float_mag. apply Z.mod_pos_bound. apply pow_width. Qed.
Lemma inf_range : 0 < float_inf f < 2 ^ (w - 1).
Proof.
  destruct Hf as [Hm Hw]. unfold float_inf. fold w. set (m := ff_mantissa f) in *.
  assert (2 ^ (w - 1) = 2 ^ (w - 1 - m) * 2 ^ m) as -> by (rewrite <- Z.pow_add_r by (unfold w in *; lia); f_equal; lia).
  assert (2 <= 2 ^ (w - 1 - m)) by (change 2 with (2 ^ 1) at 1; apply Z.pow_le_mono_r; unfold w in *; lia).
  assert (0 < 2 ^ m) by (apply Z.pow_pos_nonneg; lia). nia.
Qed.
(** The signed reading of a bit pattern. *)
Lemma signed_bits b : wraps w b = float_mag f b - (if float_sign f b then 2 ^ (w - 1) else 0).
Proof.
  destruct pow_width as [Hp Hpos]. unfold float_sign, float_mag, wraps. fold w. destruct Hf.
  rewrite Z.testbit_eqb by (unfold w in *; lia).
  set (P := 2 ^ (w - 1)) in *. rewrite Hp.
  pose proof (Z.div_mod b P ltac:(lia)) as Hb. pose proof (Z.mod_pos_bound b P Hpos) as Hm.
  pose proof (Z.div_mod (b / P) 2 ltac:(lia)) as Hq. pose proof (Z.mod_pos_bound (b / P) 2 ltac:(lia)) as Hq2.
  set (r := b mod P) in *. set (q := b / P) in *. destruct (Z.eqb_spec (q mod 2) 1) as [E|E].
  - assert ((b + P) mod (2 * P) = r) as ->; [|lia]. symmetry. apply Z.mod_unique with (q / 2 + 1); [lia|]. nia.
  - assert (q mod 2 = 0) as E0 by lia. assert ((b + P) mod (2 * P) = r + P) as ->; [|lia].
    symmetry. apply Z.mod_unique with (q / 2); [lia|]. nia.
Qed.

Lemma flink_float_key l r : flink_float_cmp f l r = Z.compare (float_key f l) (float_key f r).
Proof.
  destruct pow_width as [Hp Hpos]. pose proof inf_range as Hinf.
  pose proof (mag_range l) as Hl. pose proof (mag_range r) as Hr.
  unfold flink_float_cmp, float_key, float_lt, float_rank. fold w. rewrite !signed_bits. unfold is_nan.
  destruct (Z.ltb_spec (float_inf f) (float_mag f l)), (Z.ltb_spec (float_inf f) (float_mag f r)), (float_sign f l), (float_sign f r);
    cbn [negb andb]; case_bool;
    repeat match goal with |- context [?a ?= ?b] => destruct (Z.compare_spec a b) end; first [reflexivity|exfalso; lia].
Qed.
End float_order.

Lemma F32_ok : format_ok F32.
Proof. done. Qed.
Lemma F64_ok : format_ok F64.
Proof. done. Qed.

(** Bit patterns of the width. *)
Definition bits_ok (f : FloatFormat) (b : Z) : Prop := 0 <= b < 2 ^ ff_width f.
Lemma bits_mag f b : format_ok f -> bits_ok f b -> b = float_mag f b + (if float_sign f b then 2 ^ (ff_width f - 1) else 0).
Proof.
  intros Hf Hb. destruct (pow_width f Hf) as [Hp Hpos]. unfold bits_ok in Hb. rewrite Hp in Hb. unfold float_sign, float_mag.
  destruct Hf. rewrite Z.testbit_eqb by lia. set (P := 2 ^ (ff_width f - 1)) in *.
  pose proof (Z.div_mod b P ltac:(lia)). pose proof (Z.mod_pos_bound b P Hpos).
  assert (b / P = 0 \/ b / P = 1) as [Hq|Hq].
  { assert (0 <= b / P) by (apply Z.div_pos; lia). assert (b / P < 2) by (apply Z.div_lt_upper_bound; lia). lia. }
  - replace ((b / P) mod 2 =? 1) with false by (by rewrite Hq). lia.
  - replace ((b / P) mod 2 =? 1) with true by (by rewrite Hq). lia.
Qed.
Lemma float_key_inj f l r : format_ok f -> bits_ok f l -> bits_ok f r -> float_key f l = float_key f r -> l = r.
Proof.
  intros Hf Hl Hr. rewrite (bits_mag f l Hf Hl), (bits_mag f r Hf Hr). rewrite <- !(bits_mag f) by done.
  destruct (pow_width f Hf) as [Hp Hpos]. pose proof (mag_range f Hf l). pose proof (mag_range f Hf r).
  pose proof (bits_mag f l Hf Hl). pose proof (bits_mag f r Hf Hr).
  unfold float_key. rewrite !signed_bits by done. destruct (is_nan f l), (is_nan f r), (float_sign f l), (float_sign f r); cbn [negb andb]; lia.
Qed.

(** Values as tagged keys. *)
Definition value_key (v : AggregateValue) : Z * (Z * bytes) :=
  (value_tag v, match v with
                | VBoolean b => (Z.b2z b, [])
                | VInt z => (z, [])
                | VFloat32 b => (float_key F32 b, [])
                | VFloat64 b => (float_key F64 b, [])
                | VBytes b => (0, b)
                end).
Lemma value_cmp_key x y : ocmp x y = ocmp (value_key x) (value_key y).
Proof.
  rewrite !prod_ocmp. destruct x, y; cbn [value_key fst snd value_tag]; try done;
    unfold ocmp at 1; cbn [value_ord]; unfold ocmp, Z_ord, bytes_ord, bool_cmp;
    rewrite ?Z.compare_refl, ?(flink_float_key F32 F32_ok), ?(flink_float_key F64 F64_ok); try done; by destruct (Z.compare _ _).
Qed.
#[global] Instance value_ord_laws : OrdLaws AggregateValue.
Proof.
  split; intros *; rewrite !value_cmp_key; [apply ocmp_sym|apply ocmp_eq_l|apply ocmp_lt_trans].
Qed.

Definition value_ok (v : AggregateValue) : Prop :=
  match v with VFloat32 b => bits_ok F32 b | VFloat64 b => bits_ok F64 b | _ => True end.
Lemma value_cmp_eq x y : value_ok x -> value_ok y -> ocmp x y = Eq -> x = y.
Proof.
  intros Hx Hy. rewrite value_cmp_key. intros E%ocmp_eq. destruct x, y; cbn [value_key] in E; try discriminate.
  - injection E as E. by destruct b, b0.
  - by injection E as ->.
  - injection E as E. f_equal. by apply (float_key_inj F32).
  - injection E as E. f_equal. by apply (float_key_inj F64).
  - by injection E as ->.
Qed.

(** ** Counted maps are bags *)

Definition times (v : AggregateValue) (l : list AggregateValue) : Z := len (filter (fun x => x = v) l).

Lemma times_nonneg v l : 0 <= times v l.
Proof. apply len_nonneg. Qed.
Lemma times_cons v x l : times v (x :: l) = (if decide (x = v) then 1 else 0) + times v l.
Proof. unfold times. rewrite filter_cons. destruct (decide (x = v)); rewrite ?len_cons; lia. Qed.
Lemma times_app v l k : times v (l ++ k) = times v l + times v k.
Proof. unfold times. by rewrite filter_app, len_app. Qed.
#[global] Instance times_perm v : Proper ((≡ₚ) ==> (=)) (times v).
Proof. intros l k E. unfold times, len. by rewrite E. Qed.
Lemma times_replicate v x n : times v (replicate n x) = if decide (x = v) then Z.of_nat n else 0.
Proof. induction n as [|n IH]; [by destruct (decide _)|]. cbn [replicate]. rewrite times_cons, IH. destruct (decide _); lia. Qed.
Lemma times_pos v l : 0 < times v l <-> v ∈ l.
Proof.
  induction l as [|x l IH]; [split; [done|by intros ?%not_elem_of_nil]|]. rewrite times_cons, elem_of_cons, <- IH.
  pose proof (times_nonneg v l). destruct (decide (x = v)) as [->|]; split; intros; [by left|lia|right; lia|].
  match goal with H : _ \/ _ |- _ => destruct H; [congruence|lia] end.
Qed.
Lemma times_le v l : times v l <= len l.
Proof. induction l as [|x l IH]; [done|]. rewrite times_cons, len_cons. destruct (decide _); lia. Qed.

(** [m] counts the values of [l]. *)
Record counts (m : counted) (l : list AggregateValue) : Prop := {
  ct_sorted : bt_sorted fst m;
  ct_entries : Forall (fun e => value_ok e.1 /\ 0 < e.2) m;
  ct_values : Forall value_ok l;
  ct_get : forall v, value_ok v -> counted_get v m = times v l;
}.

Lemma counted_get_elem m v n : bt_sorted fst m -> (v, n) ∈ m -> counted_get v m = n.
Proof. intros Hs Hin. unfold counted_get. by rewrite (bt_find_elem fst m (v, n) v Hs Hin (ocmp_refl v)). Qed.
Lemma counted_get_pos m v : bt_sorted fst m -> Forall (fun e => value_ok e.1 /\ 0 < e.2) m -> value_ok v ->
  0 < counted_get v m -> exists n, (v, n) ∈ m.
Proof.
  intros Hs He Hv Hp. unfold counted_get in Hp. destruct (bt_find fst v m) as [[x n]|] eqn:E; [|lia].
  apply bt_find_Some in E as [Hin Hc]; [|done]. rewrite Forall_forall in He. destruct (He _ Hin) as [Hx _].
  apply value_cmp_eq in Hc; [|done|done]. cbn in Hc. subst x. by exists n.
Qed.

Lemma counted_set_sorted v n m : bt_sorted fst m -> bt_sorted fst (counted_set v n m).
Proof.
  intros Hs. unfold counted_set, counted_remove, counted_insert. destruct (n =? 0); [by apply bt_remove_sorted|].
  by apply bt_put_sorted.
Qed.
Lemma counted_set_entries v n m :
  bt_sorted fst m -> value_ok v -> 0 <= n -> Forall (fun e => value_ok e.1 /\ 0 < e.2) m ->
  Forall (fun e => value_ok e.1 /\ 0 < e.2) (counted_set v n m).
Proof.
  intros Hs Hv Hn He. rewrite Forall_forall in He |- *. intros e. unfold counted_set, counted_remove, counted_insert.
  destruct (Z.eqb_spec n 0).
  - intros Hin. apply He. by eapply bt_remove_sublist.
  - intros Hin. apply elem_of_bt_put in Hin; try done. destruct Hin as [-> | [Hin | (c & Hc & ->)]]; cbn;
      [split; [done|lia]|by apply He|split; [by apply (He c)|lia]].
Qed.
Lemma counted_set_get v n m x :
  bt_sorted fst m -> Forall (fun e => value_ok e.1 /\ 0 < e.2) m -> value_ok v -> value_ok x ->
  counted_get x (counted_set v n m) = if decide (x = v) then n else counted_get x m.
Proof.
  intros Hs He Hv Hx. unfold counted_set, counted_remove, counted_insert, counted_get.
  destruct (decide (x = v)) as [->|Hne].
  - destruct (Z.eqb_spec n 0) as [->|]; [by rewrite bt_find_remove_eq|].
    rewrite bt_find_put_eq by (done || apply ocmp_refl). by destruct (bt_find fst v m).
  - assert (ocmp x v <> Eq) as Hc by (intros E; by apply value_cmp_eq in E).
    destruct (n =? 0); [by rewrite bt_find_remove_ne|]. by rewrite bt_find_put_ne.
Qed.

Lemma counts_nil : counts [] [].
Proof. split; [constructor..|done]. Qed.
#[global] Instance counts_perm m : Proper ((≡ₚ) ==> iff) (counts m).
Proof.
  assert (forall l k, l ≡ₚ k -> counts m l -> counts m k) as Hp.
  { intros l k E [H1 H2 H3 H4]. split; [done|done|by rewrite <- E|]. intros v Hv. rewrite <- E. by apply H4. }
  intros l k E. split; [by apply Hp|by apply Hp].
Qed.
(** Adding copies of a value, and taking one away. *)
Lemma counts_add m l v k :
  counts m l -> value_ok v -> 0 < k -> counts (counted_set v (counted_get v m + k) m) (replicate (Z.to_nat k) v ++ l).
Proof.
  intros [Hs He Hl Hg] Hv Hk. pose proof (times_nonneg v l). rewrite Hg by done. split.
  - by apply counted_set_sorted.
  - apply counted_set_entries; (done || lia).
  - apply Forall_app. split; [by apply Forall_replicate|done].
  - intros x Hx. rewrite counted_set_get, times_app, times_replicate by done.
    destruct (decide (x = v)) as [->|Hne]; [rewrite decide_True by done; lia|]. rewrite decide_False by congruence. by rewrite Hg.
Qed.
Lemma counts_remove m l v : counts m (v :: l) -> counts (counted_set v (counted_get v m - 1) m) l.
Proof.
  intros [Hs He Hl Hg]. apply Forall_cons in Hl as [Hv Hl]. pose proof (times_nonneg v l).
  assert (counted_get v m - 1 = times v l) as -> by (rewrite Hg, times_cons, decide_True by done; lia). split.
  - by apply counted_set_sorted.
  - apply counted_set_entries; done.
  - done.
  - intros x Hx. rewrite counted_set_get by done. destruct (decide (x = v)) as [->|Hne]; [done|].
    rewrite Hg, times_cons, decide_False by (done || congruence). lia.
Qed.

(** The keys are the distinct values. *)
Lemma counts_keys m l : counts m l -> NoDup (map fst m) /\ forall v, v ∈ map fst m <-> v ∈ l.
Proof.
  intros [Hs He Hl Hg]. split.
  - clear -Hs. induction m as [|e m IH]; [constructor|]. apply bt_sorted_cons in Hs as [Hlt Hs]. constructor; [|by apply IH].
    intros (d & Hd & Hin)%list_elem_of_fmap. specialize (Hlt d Hin). rewrite <- Hd, ocmp_refl in Hlt. done.
  - intros v. rewrite <- (times_pos v l). split.
    + intros ([x n] & -> & Hin)%list_elem_of_fmap. rewrite Forall_forall in He. destruct (He _ Hin) as [Hx Hn]. cbn in *.
      rewrite <- Hg by done. by rewrite (counted_get_elem m x n).
    + intros Hp. assert (value_ok v) as Hv by (rewrite times_pos in Hp; rewrite Forall_forall in Hl; by apply Hl).
      rewrite <- Hg in Hp by done. destruct (counted_get_pos m v Hs He Hv Hp) as [n Hn].
      apply list_elem_of_fmap. by exists (v, n).
Qed.
Lemma counts_distinct m l : counts m l -> map fst m ≡ₚ remove_dups l.
Proof.
  intros [Hnd Hin]%counts_keys. apply NoDup_Permutation; [done|apply NoDup_remove_dups|].
  intros v. by rewrite Hin, elem_of_remove_dups.
Qed.
(** The bag of a map. *)
Definition bag_of (m : counted) : list AggregateValue := flat_map (fun e => replicate (Z.to_nat e.2) e.1) m.
Lemma times_bag m v : bt_sorted fst m -> Forall (fun e => value_ok e.1 /\ 0 < e.2) m -> value_ok v ->
  times v (bag_of m) = counted_get v m.
Proof.
  induction m as [|[x n] m IH]; intros Hs He Hv; [done|]. unfold bag_of in *. cbn [flat_map fst snd].
  apply bt_sorted_cons in Hs as [Hlt Hs]. apply Forall_cons in He as [[Hx Hn] He]. cbn [fst snd] in *.
  rewrite times_app, times_replicate, IH by done. unfold counted_get. cbn [bt_find fst].
  destruct (decide (x = v)) as [->|Hne].
  - rewrite ocmp_refl. cbn [snd]. destruct (bt_find fst v m) as [[y k]|] eqn:E; [|lia].
    apply bt_find_Some in E as [Hin Hc]; [|done]. by rewrite (Hlt _ Hin) in Hc.
  - destruct (ocmp v x) eqn:E; [apply value_cmp_eq in E; [congruence|done|done]|lia|lia].
Qed.
Lemma counts_bag m l : counts m l -> bag_of m ≡ₚ l.
Proof.
  intros [Hs He Hl Hg].
  assert (forall l k : list AggregateValue, (forall v, v ∈ l \/ v ∈ k -> times v l = times v k) -> l ≡ₚ k) as Hperm.
  { clear. induction l as [|x l IH]; intros k Ht.
    - destruct k as [|y k]; [done|]. specialize (Ht y (or_intror (list_elem_of_here _ _))). rewrite times_cons, decide_True in Ht by done.
      pose proof (times_nonneg y k). change (times y []) with 0 in Ht. lia.
    - assert (x ∈ k) as (k1 & k2 & ->)%list_elem_of_split.
      { apply times_pos. rewrite <- Ht by (left; left). rewrite times_cons, decide_True by done. pose proof (times_nonneg x l). lia. }
      rewrite <- Permutation_middle. constructor. apply IH. intros v Hv.
      specialize (Ht v ltac:(rewrite elem_of_app, !elem_of_cons; rewrite elem_of_app in Hv; tauto)).
      rewrite times_cons, !times_app, times_cons in Ht. rewrite times_app. lia. }
  apply Hperm. intros v Hv. assert (value_ok v) as Hok; [|rewrite times_bag by done; by apply Hg].
  destruct Hv as [Hv|Hv]; [|rewrite Forall_forall in Hl; by apply Hl].
  unfold bag_of in Hv. apply list_elem_of_In, in_flat_map in Hv as ([x n] & Hin%list_elem_of_In & Hr%list_elem_of_In).
  apply elem_of_replicate in Hr as [-> _]. rewrite Forall_forall in He. by apply (He _ Hin).
Qed.

(** ** What an accumulator stands for *)

Definition int_width (t : DataType) : option Z :=
  match t with DInt8 => Some 8 | DInt16 => Some 16 | DInt32 => Some 32 | DInt64 => Some 64 | _ => None end.
Definition int_of (v : AggregateValue) : Z := match v with VInt z => z | _ => 0 end.
Definition total (l : list AggregateValue) : Z := zsum int_of l.
Definition is_float (v : AggregateValue) : bool := match v with VFloat32 _ | VFloat64 _ => true | _ => false end.

(** The calls covered: sums and averages over the integer types. *)
Definition call_ok (c : Call) : Prop :=
  match function c with
  | CountStar | Count | Min | Max => True
  | Sum => is_Some (int_width (output_type c))
  | Sum0 => is_Some (int_width (output_type c)) /\ distinct c = false
  | Avg => is_Some (int_width (output_type c)) /\ exists t, input_type c = Some t /\ is_Some (int_width t)
  | Unspecified => False
  end.
(** The non-null inputs of a call. *)
Definition input_ok (c : Call) (v : AggregateValue) : Prop :=
  value_ok v /\
  match function c with
  | Sum | Sum0 => exists z w, v = VInt z /\ int_width (output_type c) = Some w /\ in_signed w z
  | Avg => exists z, v = VInt z /\ in_signed 64 z
  | Min | Max => retractable c = false -> is_float v = false
  | _ => True
  end.
Definition inputs_ok (c : Call) (bag : list (option AggregateValue)) : Prop := Forall (input_ok c) (omap id bag).

Definition rows_counted (c : Call) (bag : list (option AggregateValue)) : Z :=
  if decide (input_index c = None) then len bag else len (omap id bag).
(** A sum of [l], absent only when nothing was ever added. *)
Definition sum_of (w : Z) (v : option AggregateValue) (l : list AggregateValue) : Prop :=
  (v = None /\ l = []) \/ v = Some (VInt (wraps w (total l))).
Definition average_of (v : option AggregateValue) (l : list AggregateValue) : Prop := v = Some (VInt (wraps 64 (total l))).
(** [x] is a least ([Min]) or greatest value of [l]. *)
Definition extremum_of (c : Call) (v : option AggregateValue) (l : list AggregateValue) : Prop :=
  match v with
  | None => l = []
  | Some x => x ∈ l /\ forall y, y ∈ l -> ocmp x y <> if decide (function c = Min) then Gt else Lt
  end.

(** The accumulator [acc] of call [c] stands for the inputs [bag]. *)
Definition denotes (c : Call) (acc : Accumulator) (bag : list (option AggregateValue)) : Prop :=
  let l := omap id bag in
  match function c, acc with
  | (CountStar | Count), ACount n => distinct c = false /\ n = rows_counted c bag
  | (CountStar | Count), ADistinctCount n m => distinct c = true /\ counts m l /\ n = len m
  | (Sum | Sum0), ASum v n =>
      distinct c = false /\ n = len l /\ exists w, int_width (output_type c) = Some w /\ sum_of w v l
  | (Sum | Sum0), ADistinctSum v n m =>
      distinct c = true /\ counts m l /\ n = len m /\ exists w, int_width (output_type c) = Some w /\ sum_of w v (map fst m)
  | Avg, AAverage v n => distinct c = false /\ n = len l /\ average_of v l
  | Avg, ADistinctAverage v n m => distinct c = true /\ counts m l /\ n = len m /\ average_of v (map fst m)
  | (Min | Max), AAppendExtremum v => retractable c = false /\ extremum_of c v l
  | (Min | Max), AExtremum m => retractable c = true /\ counts m l
  | _, _ => False
  end.

(** The SQL value of a call over the inputs [bag]. *)
Definition sql_value (c : Call) (bag : list (option AggregateValue)) (o : option AggregateValue) : Prop :=
  let l := omap id bag in
  let d := if distinct c then remove_dups l else l in
  let width := default 64 (int_width (output_type c)) in
  match function c with
  | CountStar | Count => o = Some (VInt (if distinct c then len d else rows_counted c bag))
  | Sum => o = if decide (l = []) then None else Some (VInt (wraps width (total d)))
  | Sum0 => o = Some (VInt (wraps width (total d)))
  | Avg => o = if decide (l = []) then None
               else Some (VInt (wraps width (wraps 64 (Z.quot (wraps 64 (total d)) (len d)))))
  | Min | Max => extremum_of c o l
  | Unspecified => False
  end.

(** *** Bags *)

Lemma total_cons v l : total (v :: l) = int_of v + total l.
Proof. done. Qed.
#[global] Instance total_perm : Proper ((≡ₚ) ==> (=)) total.
Proof. unfold total. apply zsum_perm. Qed.
#[global] Instance nonnull_perm {A} : Proper ((≡ₚ) ==> (≡ₚ)) (omap (M := list) (A := option A) id).
Proof. intros l k E. by rewrite E. Qed.
Lemma perm_len' {A} (l k : list A) : l ≡ₚ k -> len l = len k.
Proof. intros E. unfold len. by rewrite E. Qed.
Lemma extremum_perm c v l k : l ≡ₚ k -> extremum_of c v l -> extremum_of c v k.
Proof.
  intros E. destruct v as [x|]; cbn [extremum_of].
  - intros [Hx Hy]. split; [by rewrite <- E|]. intros y Hk. apply Hy. by rewrite E.
  - intros ->. by apply Permutation_nil.
Qed.
Lemma denotes_perm c acc bag bag' : bag ≡ₚ bag' -> denotes c acc bag -> denotes c acc bag'.
Proof.
  intros E. assert (omap id bag ≡ₚ omap id bag') as El by (by rewrite E).
  pose proof (perm_len' _ _ E) as Hlen. pose proof (perm_len' _ _ El) as Hlen'.
  assert (rows_counted c bag = rows_counted c bag') as Hr by (unfold rows_counted; by rewrite Hlen, Hlen').
  assert (forall w v, sum_of w v (omap id bag) -> sum_of w v (omap id bag')) as Hs.
  { intros w v [[-> Hn]|Hv]; [left; split; [done|]; rewrite Hn in El; by apply Permutation_nil in El|right; by rewrite <- El]. }
  unfold denotes. destruct (function c), acc; rewrite ?Hr, ?El, ?Hlen'; try done.
  all: try (intros (? & ? & w & ? & ?); split_and!; [done..|]; exists w; split; [done|by apply Hs]).
  all: try (intros (? & ?); split; [done|]; by eapply extremum_perm).
  all: unfold average_of; rewrite ?El; done.
Qed.

(** ** Arithmetic *)

Lemma wraps_add_l w a b : wraps w (wraps w a + b) = wraps w (a + b).
Proof.
  unfold wraps. f_equal. replace ((a + 2 ^ (w - 1)) mod 2 ^ w - 2 ^ (w - 1) + b + 2 ^ (w - 1)) with ((a + 2 ^ (w - 1)) mod 2 ^ w + b) by lia.
  rewrite Zplus_mod_idemp_l. f_equal. lia.
Qed.
Lemma wraps_add w a b : wraps w (wraps w a + wraps w b) = wraps w (a + b).
Proof. rewrite wraps_add_l, Z.add_comm, wraps_add_l. f_equal. lia. Qed.
Lemma wraps_sub w a b : wraps w (wraps w a - wraps w b) = wraps w (a - b).
Proof.
  rewrite <- Z.add_opp_r, wraps_add_l. unfold wraps. f_equal.
  replace (a + - ((b + 2 ^ (w - 1)) mod 2 ^ w - 2 ^ (w - 1)) + 2 ^ (w - 1)) with (a + 2 ^ (w - 1) + 2 ^ (w - 1) - (b + 2 ^ (w - 1)) mod 2 ^ w) by lia.
  rewrite Zminus_mod_idemp_r. f_equal. lia.
Qed.
Lemma wraps_twice w a : wraps w (wraps w a) = wraps w a.
Proof. pose proof (wraps_add_l w a 0) as E. by rewrite !Z.add_0_r in E. Qed.
Lemma wraps_signed w z : 0 < w -> in_signed w z -> wraps w z = z.
Proof. intros Hw Hz. by apply wraps_id. Qed.
(** Row counts stay below the width of a counter. *)
Lemma wraps_count n : - 2 ^ 63 <= n <= I64_MAX -> wraps 64 n = n.
Proof. intros Hn. apply wraps_id; [lia|]. unfold I64_MAX in Hn. change (64 - 1) with 63. lia. Qed.

Lemma width_pos t w : int_width t = Some w -> 0 < w.
Proof. destruct t; cbn; intros; simplify_eq; done. Qed.
Lemma add_ints t w x y : int_width t = Some w -> aggregate_add (VInt x) (VInt y) t = Ok (Some (VInt (wraps w (x + y)))).
Proof. destruct t; cbn [int_width]; intros; simplify_eq; cbn [aggregate_add]; by rewrite wraps_add. Qed.
Lemma sub_ints t w x y : int_width t = Some w -> aggregate_sub (VInt x) (VInt y) t = Ok (Some (VInt (wraps w (x - y)))).
Proof. destruct t; cbn [int_width]; intros; simplify_eq; cbn [aggregate_sub]; by rewrite wraps_sub. Qed.
Lemma combine_ints accumulate t w x y :
  int_width t = Some w -> combine accumulate (VInt x) (VInt y) t = Ok (Some (VInt (wraps w (x + delta_of accumulate * y)))).
Proof.
  intros Ht. unfold combine, delta_of. destruct accumulate; [rewrite (add_ints t w) by done|rewrite (sub_ints t w) by done]; do 4 f_equal; lia.
Qed.

Lemma sum_step_add t w sum z l :
  int_width t = Some w -> sum_of w sum l -> in_signed w z ->
  exists sum', sum_step true sum (VInt z) t = Ok sum' /\ sum_of w sum' (VInt z :: l).
Proof.
  intros Ht Hs Hz. pose proof (width_pos t w Ht). unfold sum_step. destruct Hs as [[-> ->]| ->].
  - eexists. split; [done|]. right. rewrite total_cons. change (total []) with 0. cbn [int_of].
    by rewrite Z.add_0_r, wraps_signed.
  - rewrite (combine_ints true t w) by done. eexists. split; [done|]. right. rewrite total_cons, wraps_add_l. cbn [delta_of int_of].
    do 3 f_equal. lia.
Qed.
Lemma sum_step_remove t w sum z l :
  int_width t = Some w -> sum_of w sum (VInt z :: l) ->
  exists sum', sum_step false sum (VInt z) t = Ok sum' /\ sum_of w sum' l.
Proof.
  intros Ht Hs. unfold sum_step. destruct Hs as [[_ Hs]| ->]; [done|].
  rewrite (combine_ints false t w) by done. eexists. split; [done|]. right. rewrite total_cons, wraps_add_l. cbn [delta_of int_of].
  do 3 f_equal. lia.
Qed.

(** The average accumulates in 64 bits. *)
Lemma average_int c z : call_ok c -> function c = Avg ->
  average_accumulator_type c = Ok DInt64 /\ average_contribution (VInt z) c = Ok (VInt z).
Proof.
  unfold call_ok. intros Hc Hf. rewrite Hf in Hc. destruct Hc as (_ & t & Ht & Hw).
  unfold average_contribution, average_accumulator_type. rewrite Ht. destruct t; cbn [int_width] in Hw; try (by destruct Hw as [? [=]]); done.
Qed.
Lemma average_step_spec c accumulate sum z l :
  call_ok c -> function c = Avg -> average_of sum l ->
  exists sum', average_step accumulate sum (VInt z) c = Ok sum' /\
    sum' = Some (VInt (wraps 64 (total l + delta_of accumulate * z))).
Proof.
  intros Hc Hf ->. destruct (average_int c z Hc Hf) as [Ht Hv]. unfold average_step. rewrite Hv, outcome_bind_run, Ht, outcome_bind_run.
  rewrite (combine_ints _ _ 64) by done. eexists. split; [done|]. by rewrite wraps_add_l.
Qed.

(** ** Extrema *)

Lemma append_extremum_spec c x v l :
  function c = Min \/ function c = Max -> is_float x = false -> is_float v = false -> extremum_of c (Some x) l ->
  extremum_of c (Some (flink_append_extremum x v (bool_decide (function c = Min)))) (v :: l).
Proof.
  intros Hf Hx Hv [Hin Hall].
  assert (forall y, is_float y = false -> flink_append_extremum x y (bool_decide (function c = Min)) =
    if bool_decide (ocmp y x = if bool_decide (function c = Min) then Lt else Gt) then y else x) as Happ.
  { intros y Hy. unfold flink_append_extremum. destruct x, y; try done. }
  rewrite Happ by done. clear Happ. cbn [extremum_of].
  destruct Hf as [Hf|Hf]; rewrite Hf in *; rewrite ?decide_True, ?decide_False, ?bool_decide_eq_true_2, ?bool_decide_eq_false_2 in * by done.
  - case_bool_decide as Hlt.
    + split; [left|]. intros y [->|Hy]%elem_of_cons; [by rewrite ocmp_refl|]. specialize (Hall y Hy).
      destruct (ocmp x y) eqn:E; [by rewrite <- (ocmp_eq_r _ _ _ E), Hlt|by rewrite (ocmp_lt_trans _ _ _ Hlt E)|done].
    + split; [by right|]. intros y [->|Hy]%elem_of_cons; [|by apply Hall]. intros E. apply ocmp_gt_lt in E. done.
  - case_bool_decide as Hgt.
    + split; [left|]. intros y [->|Hy]%elem_of_cons; [by rewrite ocmp_refl|]. specialize (Hall y Hy).
      apply ocmp_gt_lt in Hgt. destruct (ocmp x y) eqn:E; [|done|].
      * rewrite <- (ocmp_eq_r _ _ v E). by apply ocmp_lt_not_ge.
      * apply ocmp_gt_lt in E. by apply ocmp_lt_not_ge, (ocmp_lt_trans _ x).
    + split; [by right|]. intros y [->|Hy]%elem_of_cons; [|by apply Hall]. intros E. by apply ocmp_gt_lt in E.
Qed.

(** ** Distinct values *)

Lemma sum_of_perm w s l k : l ≡ₚ k -> sum_of w s l -> sum_of w s k.
Proof.
  intros E [[-> ->]| ->]; [left; split; [done|by apply Permutation_nil]|right; by rewrite E].
Qed.
Lemma len_keys (m : counted) : len (map fst m) = len m.
Proof. unfold len. by rewrite length_map. Qed.
Lemma times_zero v l : (times v l =? 0) = negb (bool_decide (v ∈ l)).
Proof.
  pose proof (times_nonneg v l). pose proof (times_pos v l) as [H1 H2].
  case_bool_decide as Hv; cbn [negb]; [apply Z.eqb_neq; specialize (H2 Hv)|apply Z.eqb_eq; destruct (Z.lt_ge_cases 0 (times v l)) as [Hlt|]; [by destruct (Hv (H1 Hlt))|]]; lia.
Qed.

Definition counted_add (v : AggregateValue) (m : counted) : counted := counted_set v (counted_get v m + 1) m.
Definition counted_drop (v : AggregateValue) (m : counted) : counted := counted_set v (counted_get v m - 1) m.
Lemma counts_cons m l v : counts m l -> value_ok v -> counts (counted_add v m) (v :: l).
Proof. intros Hm Hv. by apply (counts_add m l v 1). Qed.
Lemma remove_dups_cons (v : AggregateValue) l :
  remove_dups (v :: l) = if decide (v ∈ l) then remove_dups l else v :: remove_dups l.
Proof. cbn [remove_dups]. unfold decide_rel. by destruct (decide _), (list_elem_of_dec v l). Qed.
Lemma keys_add m l v : counts m l -> value_ok v ->
  map fst (counted_add v m) ≡ₚ if decide (v ∈ l) then map fst m else v :: map fst m.
Proof.
  intros Hm Hv. rewrite (counts_distinct _ _ (counts_cons m l v Hm Hv)), remove_dups_cons.
  pose proof (counts_distinct m l Hm) as E. destruct (decide (v ∈ l)); by rewrite E.
Qed.
Lemma keys_drop m l v : counts m (v :: l) ->
  map fst m ≡ₚ if decide (v ∈ l) then map fst (counted_drop v m) else v :: map fst (counted_drop v m).
Proof.
  intros Hm. rewrite (counts_distinct _ _ Hm), remove_dups_cons.
  pose proof (counts_distinct _ _ (counts_remove m l v Hm)) as E. fold (counted_drop v m) in E. destruct (decide (v ∈ l)); by rewrite E.
Qed.

(** ** Applying a row *)

Definition maybe (v : option AggregateValue) : list AggregateValue := match v with Some v => [v] | None => [] end.
Lemma nonnull_cons v bag : omap id (v :: bag) = maybe v ++ omap id bag.
Proof. by destruct v. Qed.
Lemma nonnull_len (bag : list (option AggregateValue)) : 0 <= len (omap id bag) <= len bag.
Proof.
  split; [apply len_nonneg|]. induction bag as [|v bag IH]; [done|]. rewrite nonnull_cons, len_app, len_cons.
  destruct v; cbn [maybe]; rewrite ?len_cons, len_nil; lia.
Qed.
Lemma inputs_ok_cons c v bag : inputs_ok c (v :: bag) <-> (forall x, v = Some x -> input_ok c x) /\ inputs_ok c bag.
Proof.
  unfold inputs_ok. rewrite nonnull_cons. destruct v as [x|]; cbn [maybe app]; [rewrite Forall_cons|]; naive_solver.
Qed.


(** The new count of a value, and whether the value appears or disappears. *)
Lemma distinct_add v m l : counts m l -> value_ok v -> len l < I64_MAX ->
  wraps 64 (counted_get v m + 1) = counted_get v m + 1 /\ (counted_get v m =? 0) = negb (bool_decide (v ∈ l)).
Proof.
  intros Hm Hv Hl. rewrite (ct_get m l Hm v Hv), times_zero. pose proof (times_nonneg v l). pose proof (times_le v l).
  split; [apply wraps_count; lia|done].
Qed.
Lemma distinct_drop v m l : counts m (v :: l) -> len l < I64_MAX ->
  wraps 64 (counted_get v m + -1) = counted_get v m - 1 /\ (counted_get v m - 1 =? 0) = negb (bool_decide (v ∈ l)).
Proof.
  intros Hm Hl. pose proof (ct_values _ _ Hm) as [Hv _]%Forall_cons. rewrite (ct_get _ _ Hm v Hv), times_cons, decide_True by done.
  replace (1 + times v l - 1) with (times v l) by lia. rewrite times_zero. pose proof (times_nonneg v l). pose proof (times_le v l).
  split; [rewrite wraps_count; lia|done].
Qed.
Lemma keys_add_len m l v : counts m l -> value_ok v -> len (counted_add v m) = len m + if bool_decide (v ∈ l) then 0 else 1.
Proof.
  intros Hm Hv. rewrite <- !len_keys, (perm_len' _ _ (keys_add m l v Hm Hv)).
  destruct (decide (v ∈ l)); [rewrite bool_decide_eq_true_2 by done; lia|rewrite bool_decide_eq_false_2, len_cons by done; lia].
Qed.
Lemma keys_drop_len m l v : counts m (v :: l) -> len m = len (counted_drop v m) + if bool_decide (v ∈ l) then 0 else 1.
Proof.
  intros Hm. rewrite <- !len_keys, (perm_len' _ _ (keys_drop m l v Hm)).
  destruct (decide (v ∈ l)); [rewrite bool_decide_eq_true_2 by done; lia|rewrite bool_decide_eq_false_2, len_cons by done; lia].
Qed.
Lemma distinct_len m l : counts m l -> 0 <= len m <= len l.
Proof.
  intros Hm. split; [apply len_nonneg|]. rewrite <- len_keys, (perm_len' _ _ (counts_distinct m l Hm)). clear.
  induction l as [|x l IH]; [done|]. rewrite remove_dups_cons. destruct (decide _); rewrite ?len_cons; lia.
Qed.

Section apply_one.
Context (c : Call) (Hc : call_ok c).

Lemma apply_null acc bag (accumulate : bool) :
  denotes c acc (if accumulate then bag else None :: bag) -> len bag < I64_MAX ->
  exists acc', apply_accumulator c None accumulate acc = (Ok tt, acc') /\
    denotes c acc' (if accumulate then None :: bag else bag).
Proof.
  intros Hd Hlen. pose proof (len_nonneg bag). assert (omap id (None :: bag) = omap id bag) as En by done.
  destruct acc; try (eexists; split; [done|]; unfold denotes in *; destruct accumulate; rewrite ?En in *; done).
  cbn [apply_accumulator delta_of]. rewrite (bool_decide_eq_false_2 (is_Some None)) by apply is_Some_None. rewrite orb_false_r.
  eexists. split; [done|]. unfold denotes, rows_counted in *. rewrite ?En in *.
  destruct (decide (input_index c = None)) as [E|E].
  - rewrite bool_decide_eq_true_2 by done. destruct accumulate, (function c); try done; destruct Hd as [Hdist ->];
      (split; [done|]); cbn [delta_of]; rewrite len_cons; apply wraps_count || (rewrite wraps_count; lia); lia.
  - rewrite bool_decide_eq_false_2 by done. by destruct accumulate.
Qed.

(** One input taken in. *)
Lemma apply_add acc bag v :
  denotes c acc bag -> inputs_ok c (Some v :: bag) -> len bag < I64_MAX ->
  exists acc', apply_accumulator c (Some v) true acc = (Ok tt, acc') /\ denotes c acc' (Some v :: bag).
Proof.
  intros Hd Hin Hlen. pose proof (nonnull_len bag) as Hn. apply inputs_ok_cons in Hin as [Hv Hbag].
  destruct (Hv v eq_refl) as [Hok Hty]. clear Hv. assert (omap id (Some v :: bag) = v :: omap id bag) as En by done.
  assert (forall m, counts m (omap id bag) -> wraps 64 (counted_get v m + 1) = counted_get v m + 1 /\
    (counted_get v m =? 0) = negb (bool_decide (v ∈ omap id bag)) /\ counts (counted_add v m) (v :: omap id bag) /\
    0 <= len m <= len bag /\ len (counted_add v m) = len m + if bool_decide (v ∈ omap id bag) then 0 else 1) as Hset.
  { intros m Hm. destruct (distinct_add v m _ Hm Hok) as [H1 H2]; [lia|]. pose proof (distinct_len _ _ Hm).
    split_and!; [done|done|by apply counts_cons|lia|lia|by apply keys_add_len]. }
  unfold denotes in Hd. destruct acc; cbn [apply_accumulator delta_of]; unfold denotes; rewrite En;
    unfold rows_counted in *; cbn [andb negb]; rewrite ?orb_false_r.
  - rewrite (bool_decide_eq_true_2 (is_Some (Some v))), orb_true_r by done. eexists. split; [done|].
    destruct (function c); try done; destruct Hd as [Hdist ->]; (split; [done|]);
      destruct (decide (input_index c = None)); rewrite ?En, len_cons, wraps_count by lia; lia.
  - destruct (function c); try done; destruct Hd as (Hdist & Hm & ->); destruct (Hset _ Hm) as (-> & -> & Hm' & Hb & Hk);
      fold (counted_add v values); (eexists; split; [done|]; split; [done|]; split; [done|]);
      rewrite Hk; case_bool_decide; cbn [negb]; rewrite ?wraps_count by lia; lia.
  - assert (exists z w, v = VInt z /\ int_width (output_type c) = Some w /\ in_signed w z) as (z & w & -> & Hw & Hz) by (by destruct (function c)).
    destruct (function c); try done; destruct Hd as (Hdist & -> & w' & Hw' & Hs); assert (w' = w) as -> by congruence;
      destruct (sum_step_add _ _ _ z _ Hw Hs Hz) as (s' & -> & Hs');
      (eexists; split; [done|]; split; [done|]; split; [rewrite wraps_count, len_cons by lia; lia|by exists w]).
  - assert (exists z w, v = VInt z /\ int_width (output_type c) = Some w /\ in_signed w z) as (z & w & -> & Hw & Hz) by (by destruct (function c)).
    destruct (function c); try done; destruct Hd as (Hdist & Hm & -> & w' & Hw' & Hs); assert (w' = w) as -> by congruence;
      destruct (Hset _ Hm) as (-> & -> & Hm' & Hb & Hk); fold (counted_add (VInt z) values);
      pose proof (keys_add _ _ _ Hm Hok) as Hp; revert Hk Hp; (case_bool_decide; intros Hk Hp;
      rewrite ?decide_True, ?decide_False in Hp by done; cbn [negb];
      [eexists; split; [done|]; (split; [done|]); (split; [done|]); (split; [lia|]); exists w; split; [done|by eapply sum_of_perm]|
       destruct (sum_step_add _ _ _ z _ Hw Hs Hz) as (s' & -> & Hs'); eexists; split; [done|];
       (split; [done|]); (split; [done|]); (split; [rewrite wraps_count by lia; lia|]); exists w; split; [done|by eapply sum_of_perm]]).
  - destruct (function c) eqn:Ef; try done. destruct Hd as (Hdist & -> & Hs). destruct Hty as (z & -> & Hz).
    destruct (average_step_spec c true _ z _ Hc Ef Hs) as (s' & -> & ->). eexists. split; [done|]. split; [done|].
    split; [rewrite wraps_count, len_cons by lia; lia|]. unfold average_of. rewrite total_cons. cbn [delta_of int_of]. do 3 f_equal. lia.
  - destruct (function c) eqn:Ef; try done. destruct Hd as (Hdist & Hm & -> & Hs). destruct Hty as (z & -> & Hz).
    destruct (Hset _ Hm) as (-> & -> & Hm' & Hb & Hk). fold (counted_add (VInt z) values).
    pose proof (keys_add _ _ _ Hm Hok) as Hp. revert Hk Hp. case_bool_decide; intros Hk Hp; rewrite ?decide_True, ?decide_False in Hp by done; cbn [negb].
    + eexists. split; [done|]. split_and!; [done|done|lia|]. unfold average_of in *. by rewrite Hp.
    + destruct (average_step_spec c true _ z _ Hc Ef Hs) as (s' & -> & ->). eexists. split; [done|].
      split_and!; [done|done|rewrite wraps_count by lia; lia|]. unfold average_of. rewrite Hp, total_cons. cbn [delta_of int_of]. do 3 f_equal. lia.
  - assert (function c = Min \/ function c = Max) as Hf by (destruct (function c); auto; done).
    assert (retractable c = false /\ extremum_of c value (omap id bag)) as [Hr He] by (destruct Hf as [Hf|Hf]; by rewrite Hf in Hd).
    assert (is_float v = false) as Hfl by (destruct Hf as [Hf|Hf]; rewrite Hf in Hty; by apply Hty).
    assert (forall acc', extremum_of c acc' (v :: omap id bag) ->
      match function c with Min | Max => retractable c = false /\ extremum_of c acc' (v :: omap id bag) | _ => False end) as Hgoal
      by (intros acc' Ha; destruct Hf as [Hf|Hf]; by rewrite Hf).
    destruct value as [x|].
    + pose proof (append_extremum_spec c x v (omap id bag) Hf) as Happ.
      assert (is_float x = false) as Hx.
      { destruct He as [Hin _]. unfold inputs_ok in Hbag. rewrite Forall_forall in Hbag. destruct (Hbag x Hin) as [_ Hx].
        destruct Hf as [Hf|Hf]; rewrite Hf in Hx; by apply Hx. }
      specialize (Happ Hx Hfl He). destruct Hf as [Hf|Hf]; rewrite Hf in *;
        rewrite ?bool_decide_eq_true_2, ?bool_decide_eq_false_2 in Happ by done; eexists; (split; [done|]); by apply Hgoal.
    + cbn in He. rewrite He in *. eexists. split; [by destruct (function c)|]. apply Hgoal. split; [left|].
      intros y [->|Hy]%elem_of_cons; [rewrite ocmp_refl; by destruct (decide _)|by apply not_elem_of_nil in Hy].
  - destruct (function c); try done; destruct Hd as [Hr Hm]; destruct (Hset _ Hm) as (-> & _ & Hm' & _);
      (eexists; split; [done|]; by split).
Qed.

(** One input taken back. *)
Lemma apply_remove acc bag v :
  denotes c acc (Some v :: bag) -> inputs_ok c (Some v :: bag) -> len bag < I64_MAX ->
  (function c = Min \/ function c = Max -> retractable c = true) ->
  exists acc', apply_accumulator c (Some v) false acc = (Ok tt, acc') /\ denotes c acc' bag.
Proof.
  intros Hd Hin Hlen Hret. pose proof (nonnull_len bag) as Hn. apply inputs_ok_cons in Hin as [Hv Hbag].
  destruct (Hv v eq_refl) as [Hok Hty]. clear Hv. assert (omap id (Some v :: bag) = v :: omap id bag) as En by done.
  assert (forall m, counts m (v :: omap id bag) -> wraps 64 (counted_get v m + -1) = counted_get v m - 1 /\
    (counted_get v m - 1 =? 0) = negb (bool_decide (v ∈ omap id bag)) /\ counts (counted_drop v m) (omap id bag) /\
    0 <= len (counted_drop v m) <= len bag /\ len m = len (counted_drop v m) + if bool_decide (v ∈ omap id bag) then 0 else 1) as Hset.
  { intros m Hm. destruct (distinct_drop v m _ Hm) as [H1 H2]; [lia|]. pose proof (counts_remove _ _ _ Hm) as Hm'.
    pose proof (distinct_len _ _ Hm'). split_and!; [done|done|done|unfold counted_drop; lia|unfold counted_drop; lia|by apply keys_drop_len]. }
  unfold denotes in Hd. destruct acc; cbn [apply_accumulator delta_of]; unfold denotes; rewrite ?En in Hd;
    unfold rows_counted in *; cbn [andb negb orb].
  - rewrite (bool_decide_eq_true_2 (is_Some (Some v))), orb_true_r by done. eexists. split; [done|].
    destruct (function c); try done; destruct Hd as [Hdist ->]; (split; [done|]);
      destruct (decide (input_index c = None)); rewrite ?En, len_cons, wraps_count by lia; lia.
  - destruct (function c); try done; destruct Hd as (Hdist & Hm & ->); destruct (Hset _ Hm) as (-> & -> & Hm' & Hb & Hk);
      fold (counted_drop v values); (eexists; split; [done|]; split; [done|]; split; [done|]);
      rewrite Hk; case_bool_decide; cbn [negb]; rewrite ?wraps_count by lia; lia.
  - assert (exists z w, v = VInt z /\ int_width (output_type c) = Some w /\ in_signed w z) as (z & w & -> & Hw & Hz) by (by destruct (function c)).
    destruct (function c); try done; destruct Hd as (Hdist & -> & w' & Hw' & Hs); assert (w' = w) as -> by congruence;
      destruct (sum_step_remove _ _ _ z _ Hw Hs) as (s' & -> & Hs');
      (eexists; split; [done|]; split; [done|]; split; [rewrite len_cons, wraps_count by lia; lia|by exists w]).
  - assert (exists z w, v = VInt z /\ int_width (output_type c) = Some w /\ in_signed w z) as (z & w & -> & Hw & Hz) by (by destruct (function c)).
    destruct (function c); try done; destruct Hd as (Hdist & Hm & -> & w' & Hw' & Hs); assert (w' = w) as -> by congruence;
      destruct (Hset _ Hm) as (-> & -> & Hm' & Hb & Hk); fold (counted_drop (VInt z) values);
      pose proof (keys_drop _ _ _ Hm) as Hp; revert Hk Hp; (case_bool_decide; intros Hk Hp;
      rewrite ?decide_True, ?decide_False in Hp by done; cbn [negb]; apply (sum_of_perm _ _ _ _ Hp) in Hs;
      [eexists; split; [done|]; (split; [done|]); (split; [done|]); (split; [lia|]); by exists w|
       destruct (sum_step_remove _ _ _ z _ Hw Hs) as (s' & -> & Hs'); eexists; split; [done|];
       (split; [done|]); (split; [done|]); (split; [rewrite wraps_count by lia; lia|]); by exists w]).
  - destruct (function c) eqn:Ef; try done. destruct Hd as (Hdist & -> & Hs). destruct Hty as (z & -> & Hz).
    destruct (average_step_spec c false _ z _ Hc Ef Hs) as (s' & -> & ->). eexists. split; [done|]. split; [done|].
    split; [rewrite len_cons, wraps_count by lia; lia|]. unfold average_of. rewrite total_cons. cbn [delta_of int_of]. do 3 f_equal. lia.
  - destruct (function c) eqn:Ef; try done. destruct Hd as (Hdist & Hm & -> & Hs). destruct Hty as (z & -> & Hz).
    destruct (Hset _ Hm) as (-> & -> & Hm' & Hb & Hk). fold (counted_drop (VInt z) values).
    pose proof (keys_drop _ _ _ Hm) as Hp. revert Hk Hp. case_bool_decide; intros Hk Hp; rewrite ?decide_True, ?decide_False in Hp by done; cbn [negb].
    + eexists. split; [done|]. split_and!; [done|done|lia|]. unfold average_of in *. by rewrite <- Hp.
    + destruct (average_step_spec c false _ z _ Hc Ef Hs) as (s' & -> & ->). eexists. split; [done|].
      split_and!; [done|done|rewrite wraps_count by lia; lia|]. unfold average_of. rewrite Hp, total_cons. cbn [delta_of int_of]. do 3 f_equal. lia.
  - destruct (function c) eqn:Ef; try done; destruct Hd as [Hr _]; by rewrite Hret in Hr by auto.
  - destruct (function c); try done; destruct Hd as [Hr Hm]; destruct (Hset _ Hm) as (-> & _ & Hm' & _);
      (eexists; split; [done|]; by split).
Qed.
End apply_one.
