(* ===== verification/AggregateRuns.v ===== *)
(** * Results of accumulators

    The value of an accumulator is the SQL value of the inputs it stands for. *)

From Stdlib Require Import ZArith Lia Strings.Byte.
From stdpp Require Import base list option numbers strings sorting.
From S2P Require Import Prelude Bytes OrdMap Arrow Decimal Aggregate AggregateSpec.

(** ** Results *)

Lemma len_zero {A} (l : list A) : (len l =? 0) = bool_decide (l = []).
Proof.
  destruct l as [|x l]; [done|]. rewrite bool_decide_eq_false_2, len_cons by done. apply Z.eqb_neq. pose proof (len_nonneg l). lia.
Qed.
Lemma counts_empty m l : counts m l -> m = [] <-> l = [].
Proof.
  intros Hm. destruct (counts_keys m l Hm) as [_ Hk]. split; intros E.
  - destruct l as [|x l]; [done|]. pose proof (proj2 (Hk x) (list_elem_of_here _ _)) as Hx. rewrite E in Hx. by apply not_elem_of_nil in Hx.
  - destruct m as [|[v n] m]; [done|]. exfalso. apply (not_elem_of_nil v). rewrite <- E. apply Hk. left.
Qed.

Section extremum.
Context (m : counted) (l : list AggregateValue) (Hm : counts m l).

Lemma first_positive_head : first_positive m = fst <$> head m.
Proof.
  destruct Hm as [_ He _ _]. unfold first_positive. destruct m as [|[v n] k]; [done|]. apply Forall_cons in He as [[_ Hn] _].
  cbn [List.find]. cbn [snd] in *. by rewrite (proj2 (Z.ltb_lt 0 n)) by done.
Qed.
Lemma first_positive_last : first_positive (reverse m) = fst <$> last m.
Proof.
  destruct Hm as [_ He _ _]. unfold first_positive. destruct m as [|e k _] using rev_ind; [done|].
  rewrite reverse_snoc, last_snoc. apply Forall_app in He as [_ He]. apply Forall_cons in He as [[_ Hn] _]. destruct e as [v n].
  cbn [List.find]. cbn [snd] in *. by rewrite (proj2 (Z.ltb_lt 0 n)) by done.
Qed.
Lemma least_value c : function c = Min -> extremum_of c (fst <$> head m) l.
Proof.
  intros Hf. pose proof (counts_empty m l Hm) as Hne. destruct (counts_keys m l Hm) as [_ Hk]. destruct Hm as [Hs _ _ _].
  destruct m as [|[v n] k]; [by apply Hne|]. cbn [head fmap option_fmap option_map extremum_of fst]. rewrite Hf, decide_True by done.
  apply bt_sorted_cons in Hs as [Hlt _]. split; [apply Hk; left|].
  intros y Hy. apply Hk in Hy. cbn [map fst] in Hy. apply elem_of_cons in Hy as [->|Hy]; [by rewrite ocmp_refl|].
  apply list_elem_of_fmap in Hy as (e & -> & Hin). pose proof (Hlt e Hin) as Hl. cbn [fst] in Hl. by rewrite Hl.
Qed.
Lemma sorted_last (k : counted) e x : bt_sorted fst (k ++ [e]) -> x ∈ k -> ocmp x.1 e.1 = Lt.
Proof.
  induction k as [|y k IH]; intros Hs Hx; [by apply not_elem_of_nil in Hx|]. cbn [app] in Hs. apply bt_sorted_cons in Hs as [Hlt Hs].
  apply elem_of_cons in Hx as [->|Hx]; [apply Hlt, elem_of_app; right; left|by apply IH].
Qed.
Lemma greatest_value c : function c = Max -> extremum_of c (fst <$> last m) l.
Proof.
  intros Hf. pose proof (counts_empty m l Hm) as Hne. destruct (counts_keys m l Hm) as [_ Hk]. destruct Hm as [Hs _ _ _].
  destruct m as [|e k _] using rev_ind; [by apply Hne|]. rewrite last_snoc. cbn [fmap option_fmap option_map extremum_of].
  rewrite Hf, decide_False by done. split; [apply Hk, list_elem_of_fmap; exists e; split; [done|]; apply elem_of_app; right; left|].
  intros y Hy. apply Hk in Hy. apply list_elem_of_fmap in Hy as (x & -> & Hin). apply elem_of_app in Hin as [Hin|Hin].
  - pose proof (sorted_last k e x Hs Hin) as Hlt. by apply ocmp_lt_not_ge.
  - apply list_elem_of_singleton in Hin as ->. by rewrite ocmp_refl.
Qed.
End extremum.

Section results.
Context `{I256} `{BigInteger}.

Lemma average_value_spec c w s n :
  call_ok c -> function c = Avg -> int_width (output_type c) = Some w -> n <> 0 ->
  average_value (Some (VInt (wraps 64 s))) n c = Ok (Some (VInt (wraps w (wraps 64 (Z.quot (wraps 64 s) n))))).
Proof.
  intros Hc Hf Hw Hn. unfold average_value. rewrite (proj2 (Z.eqb_neq n 0)) by done.
  destruct (average_int c 0 Hc Hf) as [-> _]. rewrite outcome_bind_run, wraps_twice.
  destruct (output_type c); cbn [int_width] in Hw; simplify_eq; try done. by rewrite wraps_twice.
Qed.

Lemma value_spec c acc bag :
  call_ok c -> denotes c acc bag -> exists o, accumulator_value c acc = Ok o /\ sql_value c bag o.
Proof.
  intros Hc Hd. unfold denotes in Hd. unfold sql_value.
  assert (forall m, counts m (omap id bag) -> len m = len (remove_dups (omap id bag)) /\ total (map fst m) = total (remove_dups (omap id bag)) /\
    (len m =? 0) = bool_decide (omap id bag = [])) as Hdist.
  { intros m Hm. pose proof (counts_distinct m _ Hm) as E. split; [by rewrite <- len_keys, (perm_len' _ _ E)|]. split; [by rewrite E|].
    rewrite len_zero. apply bool_decide_ext, (counts_empty _ _ Hm). }
  destruct acc; cbn [accumulator_value].
  - destruct (function c); try done; destruct Hd as [-> ->]; by eexists.
  - destruct (function c); try done; destruct Hd as (-> & Hm & ->); destruct (Hdist _ Hm) as (-> & _ & _); by eexists.
  - destruct (function c) eqn:Ef; try done; destruct Hd as (-> & -> & w & Hw & Hs); rewrite Hw, len_zero; eexists; (split; [done|]);
      cbn [default]; destruct (decide (omap id bag = [])) as [E|E];
      rewrite ?bool_decide_eq_true_2, ?bool_decide_eq_false_2 by done; try done.
    + destruct Hs as [[_ ?]| ->]; done.
    + rewrite E. destruct (output_type c); cbn [int_width] in Hw; simplify_eq; done.
    + destruct Hs as [[_ ?]| ->]; done.
  - destruct (function c) eqn:Ef; try done; destruct Hd as (Hdi & Hm & -> & w & Hw & Hs); rewrite Hdi, Hw; destruct (Hdist _ Hm) as (_ & <- & ->).
    + eexists. split; [done|]. cbn [default]. destruct (decide (omap id bag = [])) as [E|E];
        rewrite ?bool_decide_eq_true_2, ?bool_decide_eq_false_2 by done; [done|]. destruct Hs as [[_ Hn]| ->]; [|done].
      apply map_eq_nil in Hn. by apply (counts_empty _ _ Hm) in Hn.
    + unfold call_ok in Hc. rewrite Ef in Hc. destruct Hc; congruence.
  - destruct (function c) eqn:Ef; try done. destruct Hd as (-> & -> & ->). unfold call_ok in Hc. pose proof Hc as Hc'. rewrite Ef in Hc'.
    destruct Hc' as [[w Hw] _]. rewrite Hw. cbn [default]. destruct (decide (omap id bag = [])) as [E|E].
    + rewrite E. by eexists.
    + eexists. split; [apply (average_value_spec c w); try done|done]. apply Z.eqb_neq. rewrite len_zero. by apply bool_decide_eq_false_2.
  - destruct (function c) eqn:Ef; try done. destruct Hd as (-> & Hm & -> & ->). unfold call_ok in Hc. pose proof Hc as Hc'. rewrite Ef in Hc'.
    destruct Hc' as [[w Hw] _]. rewrite Hw. cbn [default]. destruct (Hdist _ Hm) as (<- & <- & Hz). destruct (decide (omap id bag = [])) as [E|E].
    + apply (counts_empty _ _ Hm) in E as ->. by eexists.
    + eexists. split; [apply (average_value_spec c w); try done|done]. apply Z.eqb_neq. rewrite Hz. by apply bool_decide_eq_false_2.
  - destruct (function c); try done; destruct Hd as [_ He]; by eexists.
  - destruct (function c) eqn:Ef; try done; destruct Hd as [_ Hm]; eexists; (split; [done|]).
    + rewrite (first_positive_head _ _ Hm). by apply least_value.
    + rewrite (first_positive_last _ _ Hm). by apply greatest_value.
Qed.
End results.
