(* ===== verification/AggregateMerge.v ===== *)
(** * Merging accumulators

    The accumulator merged from those of two bags of inputs stands for their
    union; the DISTINCT and retractable forms merge entry by entry. *)

From Stdlib Require Import ZArith Lia Strings.Byte.
From stdpp Require Import base list option numbers strings sorting.
From S2P Require Import Prelude Bytes OrdMap Arrow Decimal Aggregate AggregateSpec AggregateRuns.

(** ** Entries *)

Definition entry_bag (e : AggregateValue * Z) : list AggregateValue := replicate (Z.to_nat e.2) e.1.
Definition entry_ok (e : AggregateValue * Z) : Prop := value_ok e.1 /\ 0 < e.2.

Lemma entry_bag_len e : entry_ok e -> len (entry_bag e) = e.2.
Proof. intros [_ He]. unfold len, entry_bag. rewrite length_replicate. lia. Qed.
Lemma bag_of_cons e m : bag_of (e :: m) = entry_bag e ++ bag_of m.
Proof. done. Qed.
Lemma keys_entry m l e : counts m l -> entry_ok e ->
  map fst (counted_set e.1 (counted_get e.1 m + e.2) m) ≡ₚ if decide (e.1 ∈ l) then map fst m else e.1 :: map fst m.
Proof.
  intros Hm [Hv Hk]. destruct (counts_keys m l Hm) as [Hnd Hin].
  destruct (counts_keys _ _ (counts_add m l e.1 e.2 Hm Hv Hk)) as [Hnd' Hin'].
  assert (forall x, x ∈ replicate (Z.to_nat e.2) e.1 <-> x = e.1) as Hrep by (intros x; rewrite elem_of_replicate; intuition lia).
  destruct (decide (e.1 ∈ l)) as [He|He]; apply NoDup_Permutation; try done.
  - intros x. rewrite Hin', Hin, elem_of_app, Hrep. naive_solver.
  - constructor; [by rewrite Hin|done].
  - intros x. rewrite Hin', elem_of_app, elem_of_cons, Hrep. by rewrite Hin.
Qed.

(** Everything the loops over an entry compute. *)
Lemma merge_entry m l e : counts m l -> entry_ok e -> len (entry_bag e ++ l) <= I64_MAX ->
  let m' := counted_set e.1 (counted_get e.1 m + e.2) m in
  wraps 64 (counted_get e.1 m + e.2) = counted_get e.1 m + e.2 /\
  (0 <? counted_get e.1 m) = bool_decide (e.1 ∈ l) /\ (0 <? counted_get e.1 m + e.2) = true /\
  counts m' (entry_bag e ++ l) /\ len m' = len m + (if bool_decide (e.1 ∈ l) then 0 else 1) /\ len m' <= I64_MAX.
Proof.
  intros Hm He Hlen. pose proof He as [Hv Hk]. rewrite len_app, entry_bag_len in Hlen by done.
  pose proof (times_nonneg e.1 l). pose proof (times_le e.1 l). pose proof (counts_add m l e.1 e.2 Hm Hv Hk) as Hm'.
  fold (entry_bag e) in Hm'.
  assert ((0 <? times e.1 l) = bool_decide (e.1 ∈ l)) as Hb
    by (apply eq_iff_eq_true; by rewrite Z.ltb_lt, bool_decide_eq_true, times_pos).
  pose proof (distinct_len _ _ Hm') as Hd. rewrite len_app, entry_bag_len in Hd by done.
  cbn zeta. rewrite <- len_keys at 1. rewrite (perm_len' _ _ (keys_entry m l e Hm He)).
  rewrite (ct_get m l Hm e.1 Hv) in *. split_and!; [apply wraps_count; lia|done|by apply Z.ltb_lt; lia|done| |lia].
  destruct (decide (e.1 ∈ l)); [rewrite bool_decide_eq_true_2 by done|rewrite bool_decide_eq_false_2, len_cons by done];
    rewrite len_keys; lia.
Qed.

(** The loops, for an invariant that relates the accumulated state to the bag. *)
Section loops.
Context {A : Type} (P : A -> list AggregateValue -> Prop) (Q : AggregateValue -> Prop).
Context (Hperm : forall a l k, l ≡ₚ k -> P a l -> P a k).
Let fits (m : counted) (l : list AggregateValue) : Prop := len (bag_of m ++ l) <= I64_MAX.

Lemma fits_cons e m l : fits (e :: m) l -> len (entry_bag e ++ l) <= I64_MAX /\ fits m (entry_bag e ++ l).
Proof.
  unfold fits. rewrite bag_of_cons, !len_app. pose proof (len_nonneg (bag_of m)). lia.
Qed.
Lemma bag_shift e m l : bag_of m ++ entry_bag e ++ l ≡ₚ bag_of (e :: m) ++ l.
Proof. rewrite bag_of_cons. solve_Permutation. Qed.

Lemma fold_entries (f : A -> AggregateValue * Z -> A) others a l :
  (forall a l e, P a l -> entry_ok e -> Q e.1 -> len (entry_bag e ++ l) <= I64_MAX -> P (f a e) (entry_bag e ++ l)) ->
  Forall (fun e => entry_ok e /\ Q e.1) others -> fits others l -> P a l ->
  P (fold_left f others a) (bag_of others ++ l).
Proof.
  intros Hstep. revert a l. induction others as [|e others IH]; intros a l Ho Hf Ha; [done|].
  apply Forall_cons in Ho as [[He Hq] Ho]. apply fits_cons in Hf as [Hl Hf]. cbn [fold_left].
  apply (Hperm _ _ _ (bag_shift e others l)), IH; [done|done|by apply Hstep].
Qed.
Lemma forM_entries (f : AggregateValue * Z -> M A unit) others a l :
  (forall a l e, P a l -> entry_ok e -> Q e.1 -> len (entry_bag e ++ l) <= I64_MAX ->
     exists a', f e a = (Ok tt, a') /\ P a' (entry_bag e ++ l)) ->
  Forall (fun e => entry_ok e /\ Q e.1) others -> fits others l -> P a l ->
  exists a', forM others f a = (Ok tt, a') /\ P a' (bag_of others ++ l).
Proof.
  intros Hstep. revert a l. induction others as [|e others IH]; intros a l Ho Hf Ha; [by exists a|].
  apply Forall_cons in Ho as [[He Hq] Ho]. apply fits_cons in Hf as [Hl Hf]. cbn [forM].
  destruct (Hstep a l e Ha He Hq Hl) as (a1 & E1 & Ha1). rewrite (M_bind_run _ _ _ _ _ E1).
  destruct (IH a1 _ Ho Hf Ha1) as (a2 & E2 & Ha2). exists a2. split; [done|].
  by apply (Hperm _ _ _ (bag_shift e others l)).
Qed.
End loops.

Lemma counts_fits m l k : counts m k -> len (k ++ l) <= I64_MAX -> len (bag_of m ++ l) <= I64_MAX.
Proof. intros Hm. by rewrite !len_app, (perm_len' _ _ (counts_bag m k Hm)). Qed.
Lemma counts_entries (Q : AggregateValue -> Prop) m l :
  counts m l -> Forall Q l -> Forall (fun e => entry_ok e /\ Q e.1) m.
Proof.
  intros Hm Hl. destruct (counts_keys m l Hm) as [_ Hk]. pose proof (ct_entries m l Hm) as He. rewrite Forall_forall in He. rewrite Forall_forall in Hl. apply Forall_forall.
  intros e Hin. split; [by apply He|]. apply Hl, Hk, list_elem_of_fmap. by exists e.
Qed.

(** ** Extrema *)

Lemma le_trans (x y z : AggregateValue) : ocmp x y <> Gt -> ocmp y z <> Gt -> ocmp x z <> Gt.
Proof.
  intros Hxy Hyz. destruct (ocmp x y) eqn:E; [|clear Hxy|done].
  - apply ocmp_eq_sym in E. by rewrite <- (ocmp_eq_l y x z E).
  - destruct (ocmp y z) eqn:F; [by rewrite <- (ocmp_eq_r _ _ x F), E|by rewrite (ocmp_lt_trans _ _ _ E F)|done].
Qed.
Lemma cmp_flip (x y : AggregateValue) : ocmp x y <> Lt <-> ocmp y x <> Gt.
Proof. by rewrite ocmp_gt_lt. Qed.
Lemma extremum_join c x v l k :
  extremum_of c (Some x) (v :: l) -> extremum_of c (Some v) k -> extremum_of c (Some x) (l ++ k).
Proof.
  intros [Hx Hl] [Hv Hk]. cbn [extremum_of]. split.
  - apply elem_of_cons in Hx as [->|Hx]; apply elem_of_app; auto.
  - pose proof (Hl v (list_elem_of_here _ _)) as Hxv. intros y [Hy|Hy]%elem_of_app; [apply Hl; by right|].
    specialize (Hk y Hy). destruct (decide (function c = Min)); [by eapply le_trans|].
    rewrite cmp_flip in *. by eapply le_trans.
Qed.

(** ** One call *)

Section merge_one.
Context (c : Call) (Hc : call_ok c).

Lemma merge_count_entries n m l others k :
  counts m l -> n = len m -> counts others k -> len (k ++ l) <= I64_MAX ->
  exists m', fold_left merge_distinct_count others (n, m) = (len m', m') /\ counts m' (k ++ l).
Proof.
  intros Hm -> Ho Hlen. pose (P := fun (a : Z * counted) l => a.1 = len a.2 /\ counts a.2 l).
  assert (P (fold_left merge_distinct_count others (len m, m)) (bag_of others ++ l)) as [E Hc'].
  { apply (fold_entries P (fun _ => True)); [| |by apply (counts_entries (fun _ => True) _ k), Forall_true|by apply (counts_fits _ _ k)|done].
    - intros a l1 l2 E [? Hk]. split; [done|]. by rewrite <- E.
    - intros [n' m'] l' e [Hn' Hm'] He _ Hl. cbn [fst snd] in *. subst n'. destruct (merge_entry m' l' e Hm' He Hl) as (Hw & Hp & Hpos & Hm2 & Hk & Hb).
      unfold merge_distinct_count, positive. rewrite Hw, Hpos, Hp. split; [|done]. cbn [fst snd]. rewrite Hk. rewrite wraps_count;
        case_bool_decide; cbn [Z.b2z]; pose proof (len_nonneg m'); lia. }
  destruct (fold_left _ _ _) as [n' m']. cbn [fst snd] in *. subst n'. exists m'. split; [done|]. by rewrite <- (counts_bag others k).
Qed.
Lemma merge_extremum_entries m l others k :
  counts m l -> counts others k -> len (k ++ l) <= I64_MAX -> counts (fold_left merge_extremum others m) (k ++ l).
Proof.
  intros Hm Ho Hlen. rewrite <- (counts_bag others k) by done.
  apply (fold_entries counts (fun _ => True)); [| |by apply (counts_entries (fun _ => True) _ k), Forall_true|by apply (counts_fits _ _ k)|done].
  - intros a l1 l2 E Hk. by rewrite <- E.
  - intros m' l' e Hm' He _ Hl. destruct (merge_entry m' l' e Hm' He Hl) as (Hw & _ & _ & Hm2 & _).
    unfold merge_extremum. by rewrite Hw.
Qed.

(** The state of a DISTINCT sum or average: [R] relates the sum to the values. *)
Definition distinct_state (R : option AggregateValue -> list AggregateValue -> Prop)
    (a : option AggregateValue * Z * counted) (l : list AggregateValue) : Prop :=
  counts a.2 l /\ a.1.2 = len a.2 /\ R a.1.1 (map fst a.2).
Lemma distinct_state_perm R a l k : l ≡ₚ k -> distinct_state R a l -> distinct_state R a k.
Proof. intros E (Hm & ? & ?). split_and!; [by rewrite <- E|done|done]. Qed.

Lemma merge_sum_entries w s n m l others k :
  int_width (output_type c) = Some w -> Forall (fun v => exists z, v = VInt z /\ in_signed w z) k ->
  distinct_state (sum_of w) (s, n, m) l -> counts others k -> len (k ++ l) <= I64_MAX ->
  exists a, forM others (merge_distinct_sum c) (s, n, m) = (Ok tt, a) /\ distinct_state (sum_of w) a (k ++ l).
Proof.
  intros Hw Hk Hs Ho Hlen.
  destruct (forM_entries (distinct_state (sum_of w)) (fun v => exists z, v = VInt z /\ in_signed w z) (distinct_state_perm _)
    (merge_distinct_sum c) others (s, n, m) l) as (a & E & Ha);
    [|by apply (counts_entries (fun v => exists z, v = VInt z /\ in_signed w z) _ k)|by apply (counts_fits _ _ k)|done|].
  - intros [[s' n'] m'] l' [v q] (Hm' & Hn' & Hs') He (z & Hv & Hz) Hl. cbn [fst snd] in *. subst n' v.
    destruct (merge_entry m' l' _ Hm' He Hl) as (Hwr & Hp & Hpos & Hm2 & Hk2 & Hb). cbn [fst snd] in *.
    pose proof (keys_entry _ _ _ Hm' He) as Hperm. cbn [fst snd] in *.
    unfold merge_distinct_sum. cbn [fst snd]. rewrite Hwr, Hp, Hpos. revert Hk2 Hperm. case_bool_decide; intros Hk2 Hperm;
      rewrite ?decide_True, ?decide_False in Hperm by done.
    + eexists. split; [done|]. split; [done|]. split; [cbn [fst snd]; lia|]. by eapply sum_of_perm.
    + assert (exists s2, match s' with Some s => aggregate_add s (VInt z) (output_type c) | None => Ok (if len m' =? 0 then Some (VInt z) else None) end
        = Ok s2 /\ sum_of w s2 (VInt z :: map fst m')) as (s2 & -> & Hs2).
      { destruct (sum_step_add _ _ _ z _ Hw Hs' Hz) as (s2 & E2 & Hs2). exists s2. split; [|done]. rewrite <- E2.
        destruct Hs' as [[-> Hnil]| ->]; [|done]. by rewrite <- len_keys, Hnil. }
      eexists. split; [done|]. split; [done|]. cbn [fst snd]. split; [rewrite Hk2, wraps_count; pose proof (len_nonneg m'); lia|]. by eapply sum_of_perm.
  - exists a. split; [done|]. eapply distinct_state_perm; [|done]. by rewrite (counts_bag others k).
Qed.
Lemma merge_average_entries s n m l others k :
  function c = Avg -> Forall (fun v => exists z, v = VInt z) k ->
  distinct_state average_of (s, n, m) l -> counts others k -> len (k ++ l) <= I64_MAX ->
  exists a, forM others (merge_distinct_average c) (s, n, m) = (Ok tt, a) /\ distinct_state average_of a (k ++ l).
Proof.
  intros Hf Hk Hs Ho Hlen.
  destruct (forM_entries (distinct_state average_of) (fun v => exists z, v = VInt z) (distinct_state_perm _)
    (merge_distinct_average c) others (s, n, m) l) as (a & E & Ha);
    [|by apply (counts_entries (fun v => exists z, v = VInt z) _ k)|by apply (counts_fits _ _ k)|done|].
  - intros [[s' n'] m'] l' [v q] (Hm' & Hn' & Hs') He (z & Hv) Hl. cbn [fst snd] in *. subst n' v.
    destruct (merge_entry m' l' _ Hm' He Hl) as (Hwr & Hp & Hpos & Hm2 & Hk2 & Hb). cbn [fst snd] in *.
    pose proof (keys_entry _ _ _ Hm' He) as Hperm. cbn [fst snd] in *.
    destruct (average_int c z Hc Hf) as [Ht Hv]. unfold merge_distinct_average. cbn [fst snd]. rewrite Hv, Hwr, Hp, Hpos.
    revert Hk2 Hperm. case_bool_decide; intros Hk2 Hperm; rewrite ?decide_True, ?decide_False in Hperm by done.
    + eexists. split; [done|]. split; [done|]. split; [cbn [fst snd]; lia|]. cbn [fst snd]. unfold average_of in *. by rewrite Hperm.
    + unfold average_of in Hs'. rewrite Hs', Ht, outcome_bind_run, (combine_ints true _ 64) by done.
      eexists. split; [done|]. split; [done|]. cbn [fst snd]. split; [rewrite Hk2, wraps_count; pose proof (len_nonneg m'); lia|].
      unfold average_of. rewrite Hperm, total_cons, wraps_add_l. cbn [delta_of int_of]. do 3 f_equal. lia.
  - exists a. split; [done|]. eapply distinct_state_perm; [|done]. by rewrite (counts_bag others k).
Qed.

(** The plain sum: an absent sum has counted nothing. *)
Lemma merge_plain_sum w sum sum' l k :
  int_width (output_type c) = Some w -> sum_of w sum l -> sum_of w sum' k -> len (k ++ l) <= I64_MAX ->
  exists sum2, merge_accumulator c (ASum sum' (len k)) (ASum sum (len l)) = (Ok tt, ASum sum2 (len (k ++ l))) /\
    sum_of w sum2 (k ++ l).
Proof.
  intros Hw Hs Hs' Hlen. pose proof (len_nonneg l). pose proof (len_nonneg k). rewrite len_app in Hlen. rewrite len_app. cbn [merge_accumulator].
  destruct Hs' as [[-> ->]| ->]; [by exists sum|]. rewrite bool_decide_eq_true_2 by done. cbn [orb]. rewrite (wraps_count (len l + len k)) by lia.
  replace (len l + len k) with (len k + len l) by lia. destruct Hs as [[-> ->]| ->].
  - eexists. split; [done|]. right. by rewrite app_nil_r.
  - rewrite (add_ints _ w) by done. eexists. split; [done|]. right. rewrite wraps_add. unfold total. rewrite zsum_app. do 3 f_equal. lia.
Qed.
Lemma merge_plain_average sum sum' l k :
  function c = Avg -> average_of sum l -> average_of sum' k -> len (k ++ l) <= I64_MAX ->
  exists sum2, merge_accumulator c (AAverage sum' (len k)) (AAverage sum (len l)) = (Ok tt, AAverage sum2 (len (k ++ l))) /\
    average_of sum2 (k ++ l).
Proof.
  intros Hf -> -> Hlen. pose proof (len_nonneg l). pose proof (len_nonneg k). rewrite len_app in Hlen. rewrite len_app. cbn [merge_accumulator].
  rewrite bool_decide_eq_true_2 by done. cbn [orb]. rewrite (wraps_count (len l + len k)) by lia. replace (len l + len k) with (len k + len l) by lia.
  destruct (average_int c 0 Hc Hf) as [-> _]. rewrite outcome_bind_run, (add_ints _ 64) by done. eexists. split; [done|].
  unfold average_of, total. rewrite wraps_add, zsum_app. do 3 f_equal. lia.
Qed.
Lemma merge_append_extremum x y l k :
  function c = Min \/ function c = Max -> (forall v, v ∈ k ++ l -> is_float v = false) ->
  extremum_of c x l -> extremum_of c y k ->
  exists z, merge_accumulator c (AAppendExtremum y) (AAppendExtremum x) = (Ok tt, AAppendExtremum z) /\ extremum_of c z (k ++ l).
Proof.
  intros Hf Hfl Hx Hy. cbn [merge_accumulator]. destruct y as [v|]; [|cbn in Hy; subst k; by exists x].
  destruct x as [u|]; [|cbn in Hx; subst l; exists (Some v); rewrite app_nil_r; by destruct (function c)].
  assert (is_float u = false /\ is_float v = false) as [Hu Hv]
    by (destruct Hx as [Hu _], Hy as [Hv _]; split; apply Hfl, elem_of_app; auto).
  pose proof (append_extremum_spec c u v l Hf Hu Hv Hx) as He. apply (extremum_join _ _ _ _ k) in He; [|done].
  apply (extremum_perm _ _ _ _ (Permutation_app_comm l k)) in He.
  destruct Hf as [Hf|Hf]; rewrite Hf in *; rewrite ?bool_decide_eq_true_2, ?bool_decide_eq_false_2 in He by done; by eexists.
Qed.

(** The accumulators of two bags merge to one of both. *)
Lemma merge_accumulator_spec a b bag bag' :
  denotes c a bag -> denotes c b bag' -> inputs_ok c bag -> inputs_ok c bag' -> len (bag' ++ bag) <= I64_MAX ->
  exists a', merge_accumulator c b a = (Ok tt, a') /\ denotes c a' (bag' ++ bag).
Proof.
  intros Ha Hb Hin Hin' Hlen. unfold denotes in Ha, Hb.
  assert (omap id (bag' ++ bag) = omap id bag' ++ omap id bag) as En by apply omap_app.
  pose proof (nonnull_len (bag' ++ bag)) as Hn. rewrite En in Hn.
  assert (len (omap id bag' ++ omap id bag) <= I64_MAX) as Hfit by lia.
  assert (Forall (input_ok c) (omap id bag' ++ omap id bag)) as Hall by (apply Forall_app; by split).
  unfold inputs_ok in Hin'. destruct a, b; try (by destruct (function c); try done; destruct Ha, Hb; congruence).
  - cbn [merge_accumulator]. eexists. split; [done|]. unfold denotes, rows_counted in *. rewrite En. rewrite !len_app in *.
    pose proof (len_nonneg (omap id bag)). pose proof (len_nonneg (omap id bag')). pose proof (len_nonneg bag). pose proof (len_nonneg bag').
    destruct (function c); try done; destruct Ha as [Hd ->], Hb as [_ ->]; (split; [done|]); destruct (decide _); rewrite wraps_count; lia.
  - cbn [merge_accumulator]. assert (distinct c = true /\ counts values (omap id bag) /\ count = len values) as (Hd & Hm & ->) by (by destruct (function c)).
    assert (counts values0 (omap id bag')) as Hm' by (destruct (function c); try done; apply Hb).
    destruct (merge_count_entries _ values _ values0 _ Hm eq_refl Hm' Hfit) as (m' & -> & Hm2). eexists. split; [done|].
    unfold denotes. rewrite En. by destruct (function c).
  - assert (exists w, int_width (output_type c) = Some w /\ distinct c = false /\ sum_of w value (omap id bag) /\ sum_of w value0 (omap id bag') /\
      count = len (omap id bag) /\ count0 = len (omap id bag')) as (w & Hw & Hd & Hs & Hs' & -> & ->).
    { destruct (function c); try done; destruct Ha as (? & ? & w & Hw & ?), Hb as (? & ? & w' & Hw' & ?);
        assert (w' = w) as -> by congruence; by exists w. }
    destruct (merge_plain_sum w _ _ _ _ Hw Hs Hs' Hfit) as (s2 & -> & Hs2). eexists. split; [done|]. unfold denotes. rewrite En.
    destruct (function c); try done; (split; [done|]; split; [done|]; by exists w).
  - cbn [merge_accumulator]. assert (exists w, int_width (output_type c) = Some w /\ distinct c = true /\
      distinct_state (sum_of w) (value, count, values) (omap id bag) /\ counts values0 (omap id bag') /\
      Forall (fun v => exists z, v = VInt z /\ in_signed w z) (omap id bag')) as (w & Hw & Hd & Hs & Hm' & Hz).
    { destruct (function c) eqn:Ef; try done; destruct Ha as (? & ? & ? & w & Hw & ?), Hb as (_ & ? & _); exists w;
        (split_and!; [done..|]); (eapply Forall_impl; [exact Hin'|]); intros v [_ Hv]; rewrite Ef in Hv;
        destruct Hv as (z & w' & -> & Hw' & Hz); exists z; assert (w' = w) as -> by congruence; done. }
    destruct (merge_sum_entries w _ _ _ _ _ _ Hw Hz Hs Hm' Hfit) as ([[s2 n2] m2] & -> & Hm2 & Hn2 & Hs2). eexists. split; [done|].
    cbn [fst snd] in *. unfold denotes. rewrite En. destruct (function c); try done; (split_and!; [done..|]; by exists w).
  - destruct (function c) eqn:Ef; try done. destruct Ha as (Hd & -> & Hs), Hb as (_ & -> & Hs').
    destruct (merge_plain_average _ _ _ _ Ef Hs Hs' Hfit) as (s2 & -> & Hs2). eexists. split; [done|]. unfold denotes. by rewrite Ef, En.
  - cbn [merge_accumulator]. destruct (function c) eqn:Ef; try done. destruct Ha as (Hd & Hs), Hb as (_ & Hm' & _).
    destruct (merge_average_entries value count values (omap id bag) values0 (omap id bag') Ef) as ([[s2 n2] m2] & -> & Hm2 & Hn2 & Hs2); try done.
    + eapply Forall_impl; [exact Hin'|]. intros v [_ Hv]. rewrite Ef in Hv. destruct Hv as (z & -> & _). by exists z.
    + eexists. split; [done|]. cbn [fst snd] in *. unfold denotes. by rewrite Ef, En.
  - assert (function c = Min \/ function c = Max) as Hf by (destruct (function c); auto; done).
    assert (retractable c = false /\ extremum_of c value (omap id bag) /\ extremum_of c value0 (omap id bag')) as (Hr & He & He')
      by (destruct Hf as [Hf|Hf]; rewrite Hf in Ha, Hb; by destruct Ha, Hb).
    destruct (merge_append_extremum value value0 (omap id bag) (omap id bag') Hf) as (z & -> & Hz); [|done|done|].
    + intros v Hv. rewrite Forall_forall in Hall. destruct (Hall v Hv) as [_ Hfl]. destruct Hf as [Hf|Hf]; rewrite Hf in Hfl; by apply Hfl.
    + eexists. split; [done|]. unfold denotes. rewrite En. by destruct Hf as [Hf|Hf]; rewrite Hf.
  - cbn [merge_accumulator]. assert (retractable c = true /\ counts values (omap id bag) /\ counts values0 (omap id bag')) as (Hr & Hm & Hm')
      by (destruct (function c); try done; by destruct Ha, Hb).
    pose proof (merge_extremum_entries _ _ _ _ Hm Hm' Hfit). eexists. split; [done|]. unfold denotes. rewrite En. by destruct (function c).
Qed.
End merge_one.
