(* ===== verification/AggregateChanges.v ===== *)
(** * Changelogs: the state of a group is the SQL aggregate of its live rows

    The rows of a group are accumulated and retracted one by one; a state built
    from any legal changelog, or merged from the states of two, holds the
    aggregates of the rows that are live. *)

From Stdlib Require Import ZArith Lia Strings.Byte.
From stdpp Require Import base list option numbers strings sorting.
From S2P Require Import Prelude Bytes OrdMap Arrow Decimal Aggregate AggregateSpec AggregateRuns AggregateMerge.

(** ** Rows

    A row has, for each call, its argument and whether the call's FILTER lets
    the row through. *)

Definition GroupRow : Type := list (option AggregateValue * bool).
Definition row_input (i : nat) (r : GroupRow) : option (option AggregateValue) :=
  match r !! i with Some (v, true) => Some v | _ => None end.
(** The inputs of call [i]. *)
Definition column (i : nat) (rows : list GroupRow) : list (option AggregateValue) := omap (row_input i) rows.

Definition group_row_ok (calls : list Call) (r : GroupRow) : Prop :=
  length r = length calls /\ forall i c v, calls !! i = Some c -> row_input i r = Some (Some v) -> input_ok c v.
Definition group_state (calls : list Call) (s : AccumulatorState) (rows : list GroupRow) : Prop :=
  row_count s = len rows /\ length (accumulators s) = length calls /\
  forall i c acc, calls !! i = Some c -> accumulators s !! i = Some acc -> denotes c acc (column i rows).

(** A changelog: each row with whether it is accumulated or retracted. A
    retraction takes back a row that is live. *)
Fixpoint take_out (r : GroupRow) (rows : list GroupRow) : option (list GroupRow) :=
  match rows with
  | [] => None
  | x :: rows => if decide (x = r) then Some rows else cons x <$> take_out r rows
  end.
Definition live_step (rows : list GroupRow) (change : bool * GroupRow) : option (list GroupRow) :=
  if change.1 then Some (change.2 :: rows) else take_out change.2 rows.
Definition live (changes : list (bool * GroupRow)) (rows : list GroupRow) : option (list GroupRow) :=
  foldl (fun rows change => rows ← rows; live_step rows change) (Some rows) changes.
Definition apply_change (calls : list Call) (change : bool * GroupRow) : M AccumulatorState unit :=
  apply_values_with_activity calls (map fst change.2) (map snd change.2) change.1.

Lemma take_out_perm r rows rows' : take_out r rows = Some rows' -> rows ≡ₚ r :: rows'.
Proof.
  revert rows'. induction rows as [|x rows IH]; intros rows'; cbn [take_out]; [done|].
  destruct (decide (x = r)) as [->|Hne]; [by intros [= ->]|]. destruct (take_out r rows) as [k|]; [|done]. intros [= <-].
  rewrite (IH k eq_refl). constructor.
Qed.

(** ** Rows of columns *)

Lemma column_cons i r rows :
  column i (r :: rows) = match row_input i r with Some v => v :: column i rows | None => column i rows end.
Proof. unfold column. cbn. by destruct (row_input i r). Qed.
Lemma column_app i rows rows' : column i (rows ++ rows') = column i rows ++ column i rows'.
Proof. apply omap_app. Qed.
Lemma input_column_len i rows : len (column i rows) <= len rows.
Proof. induction rows as [|r rows IH]; [done|]. rewrite column_cons, len_cons. destruct (row_input i r); rewrite ?len_cons; lia. Qed.
Lemma column_inputs calls rows i c :
  Forall (group_row_ok calls) rows -> calls !! i = Some c -> inputs_ok c (column i rows).
Proof.
  intros Hr Hi. induction Hr as [|r rows [_ Hr] _ IH]; [constructor|]. rewrite column_cons.
  destruct (row_input i r) as [v|] eqn:E; [|done]. apply inputs_ok_cons. split; [|done]. intros x ->. by apply (Hr i).
Qed.
#[global] Instance column_perm i : Proper ((≡ₚ) ==> (≡ₚ)) (column i).
Proof. intros l k E. unfold column. by rewrite E. Qed.
Lemma group_state_perm calls s rows rows' : rows ≡ₚ rows' -> group_state calls s rows -> group_state calls s rows'.
Proof.
  intros E (Hn & Hl & Hd). split; [by rewrite <- (perm_len' _ _ E)|]. split; [done|]. intros i c acc Hc Ha.
  eapply denotes_perm; [|by apply Hd]. by rewrite E.
Qed.

(** ** The loops over the calls *)

Lemma apply_all_spec (Q : nat -> Accumulator -> Prop) calls accs (r : GroupRow) accumulate :
  length accs = length calls -> length r = length calls ->
  (forall i c acc, calls !! i = Some c -> accs !! i = Some acc ->
    match row_input i r with
    | Some v => exists acc', apply_accumulator c v accumulate acc = (Ok tt, acc') /\ Q i acc'
    | None => Q i acc
    end) ->
  exists accs', apply_all calls (map fst r) (map snd r) accumulate accs = (Ok tt, accs') /\ length accs' = length calls /\
    forall i acc', accs' !! i = Some acc' -> Q i acc'.
Proof.
  revert Q accs r. induction calls as [|c calls IH]; intros Q [|acc accs] [|[v a] r] Hl Hr Hstep; try done.
  { by exists []. }
  destruct (IH (fun i => Q (S i)) accs r) as (accs' & E & Hl' & HQ); [naive_solver|naive_solver|intros i; apply (Hstep (S i))|].
  pose proof (Hstep 0%nat c acc eq_refl eq_refl) as H0. unfold row_input in H0. cbn [lookup list_lookup] in H0. cbn [map fst snd apply_all].
  assert (exists acc', (if a then apply_accumulator c v accumulate acc else (Ok tt, acc)) = (Ok tt, acc') /\ Q 0%nat acc') as (acc' & -> & Hacc)
    by (destruct a; [done|by exists acc]).
  rewrite E. exists (acc' :: accs'). split; [done|]. split; [cbn; lia|]. intros [|i] x Hx; cbn in Hx; [by simplify_eq|by apply HQ].
Qed.
Lemma merge_all_spec (Q : nat -> Accumulator -> Prop) calls accs others :
  length accs = length calls -> length others = length calls ->
  (forall i c acc other, calls !! i = Some c -> accs !! i = Some acc -> others !! i = Some other ->
    exists acc', merge_accumulator c other acc = (Ok tt, acc') /\ Q i acc') ->
  exists accs', merge_all calls others accs = (Ok tt, accs') /\ length accs' = length calls /\
    forall i acc', accs' !! i = Some acc' -> Q i acc'.
Proof.
  revert Q accs others. induction calls as [|c calls IH]; intros Q [|acc accs] [|other others] Hl Ho Hstep; try done.
  { by exists []. }
  destruct (IH (fun i => Q (S i)) accs others) as (accs' & E & Hl' & HQ); [naive_solver|naive_solver|intros i; apply (Hstep (S i))|].
  destruct (Hstep 0%nat c acc other eq_refl eq_refl eq_refl) as (acc' & E' & Hacc). cbn [merge_all]. rewrite E', E.
  exists (acc' :: accs'). split; [done|]. split; [cbn; lia|]. intros [|i] x Hx; cbn in Hx; [by simplify_eq|by apply HQ].
Qed.

(** ** Changes *)

Section changes.
Context (calls : list Call) (Hcalls : Forall call_ok calls).

Lemma call_at i c : calls !! i = Some c -> call_ok c.
Proof. rewrite Forall_lookup in Hcalls. apply Hcalls. Qed.

Lemma new_denotes c : call_ok c -> exists acc, new_accumulator c = Ok acc /\ denotes c acc [].
Proof.
  intros Hc. unfold new_accumulator, denotes, rows_counted. pose proof counts_nil. unfold call_ok in Hc.
  destruct (function c) eqn:Ef; try done.
  - destruct (distinct c) eqn:Ed; (eexists; split; [done|]); split; try done. by destruct (decide _).
  - destruct (distinct c) eqn:Ed; (eexists; split; [done|]); split; try done. by destruct (decide _).
  - destruct Hc as [w Hw]. destruct (distinct c) eqn:Ed; (eexists; split; [done|]); split_and!; try done; exists w; split; try done; by left.
  - destruct (retractable c) eqn:Er; (eexists; split; [done|]); by split.
  - destruct (retractable c) eqn:Er; (eexists; split; [done|]); by split.
  - destruct (average_int c 0) as [-> _]; [unfold call_ok; by rewrite Ef|done|]. rewrite outcome_bind_run.
    destruct (distinct c) eqn:Ed; (eexists; split; [done|]); by split_and!.
  - destruct Hc as [[w Hw] Hd]. rewrite Hd. eexists. split; [done|]. split_and!; try done. exists w. split; [done|]. by left.
Qed.
Lemma new_accumulators l : Forall call_ok l -> exists accs, collect new_accumulator l = Ok accs /\ length accs = length l /\
  forall i c acc, l !! i = Some c -> accs !! i = Some acc -> denotes c acc [].
Proof.
  induction 1 as [|c l Hc _ IH]; [by exists []|]. destruct IH as (accs & E & Hl & Hd).
  destruct (new_denotes c Hc) as (acc & Ea & Ha). exists (acc :: accs). cbn [collect].
  rewrite Ea, outcome_bind_run, E, outcome_bind_run. split; [done|]. split; [cbn; lia|].
  intros [|i] c' a Hi Ha'; cbn in Hi, Ha'; [by simplify_eq|by apply (Hd i)].
Qed.
Lemma new_group : exists s, new_state calls = Ok s /\ group_state calls s [].
Proof.
  destruct (new_accumulators calls Hcalls) as (accs & E & Hl & Hd).
  exists {| row_count := 0; accumulators := accs |}. split; [unfold new_state; by rewrite E|]. by split.
Qed.

(** Retractions need counted extrema. *)
Definition retractions_ok : Prop := Forall (fun c => function c = Min \/ function c = Max -> retractable c = true) calls.
Definition change_ok (change : bool * GroupRow) : Prop :=
  group_row_ok calls change.2 /\ (change.1 = false -> retractions_ok).

Lemma apply_change_run change s accs :
  group_row_ok calls change.2 ->
  apply_all calls (map fst change.2) (map snd change.2) change.1 (accumulators s) = (Ok tt, accs) ->
  apply_change calls change s = (Ok tt, {| row_count := wraps 64 (row_count s + delta_of change.1); accumulators := accs |}).
Proof.
  intros [Hl _] E. unfold apply_change, apply_values_with_activity.
  rewrite (M_bind_run _ _ s tt s); [|unfold when, len; rewrite length_map, Hl, Z.eqb_refl; done].
  rewrite (M_bind_run _ _ s tt {| row_count := wraps 64 (row_count s + delta_of change.1); accumulators := accumulators s |}) by done.
  unfold on_accumulators. cbn [accumulators row_count]. by rewrite E.
Qed.

(** One legal change. *)
Lemma apply_change_spec change s rows rows' :
  change_ok change -> group_state calls s rows -> Forall (group_row_ok calls) rows ->
  live_step rows change = Some rows' -> Z.max (len rows) (len rows') <= I64_MAX ->
  exists s', apply_change calls change s = (Ok tt, s') /\ group_state calls s' rows'.
Proof.
  intros [Hrow Hret] Hs Hrows Hlive Hlen. destruct change as [accumulate r]. cbn [fst snd] in *.
  unfold live_step in Hlive. cbn [fst snd] in Hlive. pose proof Hrow as [Hl Hin].
  destruct accumulate.
  - injection Hlive as <-. destruct Hs as (Hn & Hla & Hd). rewrite len_cons in *.
    destruct (apply_all_spec (fun i acc => forall c, calls !! i = Some c -> denotes c acc (column i (r :: rows))) calls (accumulators s) r true)
      as (accs & E & Hla' & Hd'); [done|done| |].
    + intros i c acc Hc Ha. specialize (Hd i c acc Hc Ha). rewrite column_cons. pose proof (input_column_len i rows).
      destruct (row_input i r) as [v|] eqn:Ev; [|intros c' ?; by simplify_eq].
      assert (exists acc', apply_accumulator c v true acc = (Ok tt, acc') /\ denotes c acc' (v :: column i rows)) as (acc' & E & Hacc).
      { destruct v as [v|]; [apply (apply_add c (call_at i c Hc)); [done| |lia]|by apply (apply_null c acc (column i rows) true); [|lia]].
        apply inputs_ok_cons. split; [intros x [= ->]; by apply (Hin i)|by apply (column_inputs calls)]. }
      exists acc'. split; [done|]. intros c' ?. by simplify_eq.
    + eexists. split; [by apply apply_change_run|]. split; [cbn [row_count]; rewrite Hn, len_cons, wraps_count; unfold delta_of; pose proof (len_nonneg rows); cbn [fst]; lia|].
      split; [done|]. intros i c acc Hc Ha. by apply (Hd' i).
  - apply take_out_perm in Hlive. apply (group_state_perm _ _ _ _ Hlive) in Hs. rewrite Hlive in Hrows. apply Forall_cons in Hrows as [_ Hrows].
    rewrite (perm_len' _ _ Hlive), len_cons in Hlen. destruct Hs as (Hn & Hla & Hd). specialize (Hret eq_refl). unfold retractions_ok in Hret. rewrite Forall_lookup in Hret.
    destruct (apply_all_spec (fun i acc => forall c, calls !! i = Some c -> denotes c acc (column i rows')) calls (accumulators s) r false)
      as (accs & E & Hla' & Hd'); [done|done| |].
    + intros i c acc Hc Ha. specialize (Hd i c acc Hc Ha). rewrite column_cons in Hd. pose proof (input_column_len i rows').
      destruct (row_input i r) as [v|] eqn:Ev; [|intros c' ?; by simplify_eq].
      assert (exists acc', apply_accumulator c v false acc = (Ok tt, acc') /\ denotes c acc' (column i rows')) as (acc' & E & Hacc).
      { destruct v as [v|]; [apply (apply_remove c (call_at i c Hc)); [done| |lia|by apply (Hret i)]|by apply (apply_null c acc (column i rows') false); [|lia]].
        apply inputs_ok_cons. split; [intros x [= ->]; by apply (Hin i)|by apply (column_inputs calls)]. }
      exists acc'. split; [done|]. intros c' ?. by simplify_eq.
    + eexists. split; [by apply apply_change_run|]. split; [cbn [row_count]; rewrite Hn, len_cons, wraps_count; unfold delta_of; pose proof (len_nonneg rows'); cbn [fst]; lia|].
      split; [done|]. intros i c acc Hc Ha. by apply (Hd' i).
Qed.

Lemma live_len change rows rows' : live_step rows change = Some rows' -> len rows' <= len rows + 1.
Proof.
  unfold live_step. destruct change as [[] r]; cbn [fst snd]; [intros [= <-]; rewrite len_cons; lia|].
  intros E%take_out_perm. rewrite (perm_len' _ _ E), len_cons. lia.
Qed.
Lemma live_rows_ok change rows rows' :
  change_ok change -> live_step rows change = Some rows' -> Forall (group_row_ok calls) rows -> Forall (group_row_ok calls) rows'.
Proof.
  intros [Hr _]. unfold live_step. destruct change as [[] r]; cbn [fst snd] in *; [intros [= <-] ?; by constructor|].
  intros E%take_out_perm Hrows. rewrite E in Hrows. by apply Forall_cons in Hrows as [_ Hrows].
Qed.
Lemma live_none changes : foldl (fun rows change => rows ← rows; live_step rows change) None changes = None.
Proof. by induction changes. Qed.

(** A changelog, from any state of live rows. *)
Lemma apply_changes_spec changes s rows rows' :
  Forall change_ok changes -> group_state calls s rows -> Forall (group_row_ok calls) rows ->
  live changes rows = Some rows' -> len rows + len changes <= I64_MAX ->
  exists s', forM changes (apply_change calls) s = (Ok tt, s') /\ group_state calls s' rows' /\ Forall (group_row_ok calls) rows' /\
    len rows' <= len rows + len changes.
Proof.
  intros Hch. revert s rows. induction Hch as [|change changes Hc _ IH]; intros s rows Hs Hrows Hlive Hlen.
  { injection Hlive as <-. exists s. split_and!; [done..|]. rewrite len_nil. lia. }
  unfold live in Hlive. cbn [foldl mbind option_bind] in Hlive. destruct (live_step rows change) as [rows1|] eqn:E1; [|by rewrite live_none in Hlive].
  rewrite len_cons in *. pose proof (live_len _ _ _ E1). pose proof (len_nonneg changes).
  destruct (apply_change_spec change s rows rows1 Hc Hs Hrows E1) as (s1 & E & Hs1); [lia|].
  destruct (IH s1 rows1 Hs1) as (s' & E' & Hs' & Hrows' & Hl'); [by apply (live_rows_ok change rows)|done|lia|].
  exists s'. cbn [forM]. rewrite (M_bind_run _ _ _ _ _ E). split_and!; [done..|lia].
Qed.

(** Merging two groups. *)
Lemma merge_state_spec s t rows rows' :
  group_state calls s rows -> group_state calls t rows' -> Forall (group_row_ok calls) rows -> Forall (group_row_ok calls) rows' ->
  len rows + len rows' <= I64_MAX ->
  exists s', merge_state calls t s = (Ok tt, s') /\ group_state calls s' (rows' ++ rows).
Proof.
  intros (Hn & Hl & Hd) (Hn' & Hl' & Hd') Hrows Hrows' Hlen.
  destruct (merge_all_spec (fun i acc => forall c, calls !! i = Some c -> denotes c acc (column i (rows' ++ rows))) calls (accumulators s) (accumulators t))
    as (accs & E & Hla & Hq); [done|done| |].
  { intros i c a b Hc Ha Hb. rewrite column_app. pose proof (input_column_len i rows). pose proof (input_column_len i rows').
    destruct (merge_accumulator_spec c (call_at i c Hc) a b (column i rows) (column i rows')) as (a' & Ea & Ha');
      [by apply Hd|by apply Hd'|by apply (column_inputs calls)|by apply (column_inputs calls)|rewrite len_app; lia|].
    exists a'. split; [done|]. intros c' ?. by simplify_eq. }
  unfold merge_state. rewrite (M_bind_run _ _ s s s) by done.
  rewrite (M_bind_run _ _ s tt s) by (unfold when, len; by rewrite Hl, Hl', Z.eqb_refl).
  rewrite (M_bind_run _ _ s tt {| row_count := wraps 64 (row_count s + row_count t); accumulators := accumulators s |}) by done.
  unfold on_accumulators. cbn [accumulators row_count]. rewrite E. eexists. split; [done|].
  split; [|split; [done|]]; cbn [row_count accumulators].
  - rewrite Hn, Hn', len_app, wraps_count; pose proof (len_nonneg rows); pose proof (len_nonneg rows'); lia.
  - intros i c acc Hc Ha. by apply (Hq i).
Qed.

Section values.
Context `{I256} `{BigInteger}.

Definition sql_values (rows : list GroupRow) (vs : list (option AggregateValue)) : Prop :=
  length vs = length calls /\ forall i c v, calls !! i = Some c -> vs !! i = Some v -> sql_value c (column i rows) v.

Lemma group_values s rows : group_state calls s rows -> exists vs, state_values calls (accumulators s) = Ok vs /\ sql_values rows vs.
Proof.
  intros (_ & Hl & Hd). unfold sql_values. pose proof call_at as Hcs. clear Hcalls. revert Hl Hd Hcs. generalize (accumulators s).
  assert (forall (P : nat -> Call -> option AggregateValue -> Prop) (cs : list Call) (accs : list Accumulator), length accs = length cs ->
    (forall i c acc, cs !! i = Some c -> accs !! i = Some acc -> exists o, accumulator_value c acc = Ok o /\ P i c o) ->
    exists vs, state_values cs accs = Ok vs /\ length vs = length cs /\ forall i c v, cs !! i = Some c -> vs !! i = Some v -> P i c v) as Hloop.
  { intros P cs. revert P. induction cs as [|c cs IH]; intros P [|acc accs] Hl Hstep; try done; [by exists []|].
    destruct (IH (fun i => P (S i)) accs) as (vs & E & Hlv & Hp); [naive_solver|intros i; apply (Hstep (S i))|].
    destruct (Hstep 0%nat c acc eq_refl eq_refl) as (o & Eo & Ho). exists (o :: vs). cbn [state_values]. rewrite Eo, outcome_bind_run, E, outcome_bind_run.
    split; [done|]. split; [cbn; lia|]. intros [|i] c' v Hc Hv; cbn in Hc, Hv; [by simplify_eq|by apply (Hp i)]. }
  intros accs Hl Hd Hcs. destruct (Hloop (fun i c v => sql_value c (column i rows) v) calls accs Hl) as (vs & E & Hv); [|by exists vs].
  intros i c acc Hc Ha. apply value_spec; [by apply (Hcs i)|by apply Hd].
Qed.
End values.
End changes.

(** C23: a group's state after any legal changelog, which accumulates rows and
    retracts rows that are live, never fails: it counts the live rows, and each
    call's result is the SQL aggregate, with its FILTER, of the live rows it lets
    through. Covered ([call_ok], [change_ok]) are COUNT of any type, SUM and AVG
    of the integer types in their wrapping arithmetic, all plain or DISTINCT, SUM0
    of the integer types without DISTINCT, and MIN and MAX of any type with counted
    values or, in changelogs without retractions, the append-only ones of any type
    but floating point. Sums and averages of DECIMAL and of floating point and DISTINCT SUM0 are not: see
    [decimal_sum_merge_differs] and [distinct_sum0_of_nulls]. *)
Theorem aggregate_changelog `{I256} `{BigInteger} (calls : list Call) (changes : list (bool * GroupRow)) (rows : list GroupRow) :
  Forall call_ok calls -> Forall (change_ok calls) changes -> live changes [] = Some rows -> len changes <= I64_MAX ->
  exists s0 s vs, new_state calls = Ok s0 /\ forM changes (apply_change calls) s0 = (Ok tt, s) /\
    row_count s = len rows /\ state_values calls (accumulators s) = Ok vs /\ sql_values calls rows vs.
Proof.
  intros Hcalls Hch Hlive Hlen. destruct (new_group calls Hcalls) as (s0 & E0 & Hs0).
  destruct (apply_changes_spec calls Hcalls changes s0 [] rows) as (s & E & Hs & _); [done..|rewrite len_nil; lia|].
  destruct (group_values calls Hcalls s rows Hs) as (vs & Ev & Hv). exists s0, s, vs. split_and!; try done. apply Hs.
Qed.

(** C24: for the same calls and inputs (COUNT; SUM and AVG of the integer types;
    SUM0 of the integer types without DISTINCT; MIN and MAX, append-only ones
    without retractions and floating point), merging the states two changelogs reach gives the
    aggregates of all their live rows, as one changelog of both would. For DECIMAL
    sums it does not. *)
Theorem aggregate_merge `{I256} `{BigInteger} (calls : list Call) (changes changes' : list (bool * GroupRow)) (rows rows' : list GroupRow) :
  Forall call_ok calls -> Forall (change_ok calls) (changes ++ changes') ->
  live changes [] = Some rows -> live changes' [] = Some rows' -> len changes + len changes' <= I64_MAX ->
  exists s0 s t m vs, new_state calls = Ok s0 /\ forM changes (apply_change calls) s0 = (Ok tt, s) /\
    forM changes' (apply_change calls) s0 = (Ok tt, t) /\ merge_state calls t s = (Ok tt, m) /\
    row_count m = len rows + len rows' /\ state_values calls (accumulators m) = Ok vs /\ sql_values calls (rows' ++ rows) vs.
Proof.
  intros Hcalls [Hch Hch']%Forall_app Hlive Hlive' Hlen. destruct (new_group calls Hcalls) as (s0 & E0 & Hs0).
  pose proof (len_nonneg changes). pose proof (len_nonneg changes').
  destruct (apply_changes_spec calls Hcalls changes s0 [] rows) as (s & E & Hs & Hr & Hb); [done..|rewrite len_nil; lia|].
  destruct (apply_changes_spec calls Hcalls changes' s0 [] rows') as (t & E' & Ht & Hr' & Hb'); [done..|rewrite len_nil; lia|].
  rewrite len_nil in *. destruct (merge_state_spec calls Hcalls s t rows rows' Hs Ht Hr Hr') as (m & Em & Hm); [lia|].
  destruct (group_values calls Hcalls m _ Hm) as (vs & Ev & Hv). exists s0, s, t, m, vs. split_and!; try done.
  destruct Hm as [-> _]. rewrite len_app. lia.
Qed.
