(* ===== verification/Sessions.v ===== *)
(** * Session windows: [operators/window_aggregate/session_changes.rs],
    [shared_sessions/assignments.rs]

    Two implementations of Flink's merging session windows. [Assignments] keeps
    the namespaces of a batch apart from the aggregates: disjoint intervals by
    their end, and a forest of slots that records which namespaces have merged.
    [apply_session_changes] keeps the aggregates with the intervals and also
    takes retractions. *)

From Stdlib Require Import ZArith Lia Strings.Byte.
From stdpp Require Import base list option numbers strings sorting.
From S2P Require Import Prelude Bytes OrdMap Arrow Aggregate.

(** ** Namespaces: [assignments.rs] *)

Record Interval : Type := { iv_start : Z; iv_end : Z; iv_slot : nat }.
(** [intervals] is keyed by the end. *)
Record Assignments : Type := { intervals : list Interval; parents : list nat }.
Definition no_assignments : Assignments := {| intervals := []; parents := [] |}.

Definition insert_interval (iv : Interval) : M Assignments unit :=
  modS (fun a => {| intervals := bt_put iv_end (fun _ => iv) iv (intervals a); parents := parents a |}).
Definition remove_interval (key : Z) : M Assignments unit :=
  modS (fun a => {| intervals := bt_remove iv_end key (intervals a); parents := parents a |}).
(** [parents.push(parents.len())]. *)
Definition push_slot : M Assignments nat := fun a =>
  (Ok (length (parents a)), {| intervals := intervals a; parents := parents a ++ [length (parents a)] |}).
(** [parents[slot] = target]. *)
Definition link (slot target : nat) : M Assignments unit := fun a =>
  if decide (slot < length (parents a))%nat
  then (Ok tt, {| intervals := intervals a; parents := <[slot := target]> (parents a) |})
  else (Panic, a).

Definition existing (start end_ : Z) : M Assignments nat :=
  a ← getS;
  let next_overlaps :=
    match bt_lower_bound iv_end start (intervals a) with Some next => iv_start next <=? end_ | None => false end in
  _ ← when ((end_ <=? start) || next_overlaps) (Execution "overlapping or invalid persisted sessions");
  slot ← push_slot;
  _ ← insert_interval {| iv_start := start; iv_end := end_; iv_slot := slot |};
  mret slot.

(** The [while let] loop of [assign]. Each turn removes an interval. *)
Fixpoint absorb (fuel : nat) (start end_ : Z) (slot : option nat) : M Assignments (Z * Z * option nat) :=
  match fuel with
  | O => panic
  | S fuel =>
      a ← getS;
      match bt_lower_bound iv_end start (intervals a) with
      | None => mret (start, end_, slot)
      | Some overlap =>
          if end_ <? iv_start overlap then mret (start, end_, slot)
          else
            _ ← remove_interval (iv_end overlap);
            _ ← match slot with
                | None => mret tt
                | Some target => link (iv_slot overlap) target
                end;
            absorb fuel (Z.min start (iv_start overlap)) (Z.max end_ (iv_end overlap))
              (match slot with None => Some (iv_slot overlap) | Some target => Some target end)
      end
  end.
Definition assign (timestamp gap watermark : Z) : M Assignments (option nat) :=
  end_ ← lift (ok_or (Execution "session window end overflows TIMESTAMP(3)")
                 (e ← i64_checked_add timestamp gap; if timestamp <? e then Some e else None));
  a ← getS;
  '(start, end_, slot) ← absorb (S (length (intervals a))) timestamp end_ None;
  if end_ - 1 <=? watermark then
    match slot with
    | Some _ => throw (Execution "expired session remained in active state")
    | None => mret None
    end
  else
    slot ← match slot with Some slot => mret slot | None => push_slot end;
    _ ← insert_interval {| iv_start := start; iv_end := end_; iv_slot := slot |};
    mret (Some slot).

(** [resolve]: the root of a slot, with path compression. Indexing panics out
    of bounds. *)
Fixpoint find_root (fuel : nat) (parents : list nat) (root : nat) : outcome nat :=
  match fuel, parents !! root with
  | S fuel, Some parent => if decide (parent = root) then Ok root else find_root fuel parents parent
  | _, _ => Panic
  end.
Fixpoint compress (fuel : nat) (parents : list nat) (current root : nat) : outcome (list nat) :=
  match fuel, parents !! current with
  | S fuel, Some parent =>
      if decide (parent = root) then Ok parents else compress fuel (<[current := root]> parents) parent root
  | _, _ => Panic
  end.
Definition resolve (slot : nat) : M Assignments nat := fun a =>
  let fuel := S (length (parents a)) in
  match find_root fuel (parents a) slot with
  | Ok root =>
      match compress fuel (parents a) slot root with
      | Ok l => (Ok root, {| intervals := intervals a; parents := l |})
      | Err e => (Err e, a)
      | Panic => (Panic, a)
      end
  | Err e => (Err e, a)
  | Panic => (Panic, a)
  end.

(** ** Sessions with aggregates: [session_changes.rs] *)

Record SessionEvent : Type := { timestamp : Z; values : list (option AggregateValue) }.
#[global] Instance SessionEvent_eq : EqDecision SessionEvent.
Proof. solve_decision. Defined.
Record ActiveSession : Type := { start : Z; end_ : Z; accumulator : AccumulatorState; events : list SessionEvent }.

(** [sort_by] on timestamps is stable. *)
Fixpoint insert_event (e : SessionEvent) (l : list SessionEvent) : list SessionEvent :=
  match l with
  | [] => [e]
  | x :: l => if timestamp e <=? timestamp x then e :: x :: l else x :: insert_event e l
  end.
Definition sort_events (l : list SessionEvent) : list SessionEvent := foldr insert_event [] l.

(** [iter().position(p)] and [remove] at it: the element and the others. *)
Fixpoint remove_first {A} (p : A -> bool) (l : list A) : option (A * list A) :=
  match l with
  | [] => None
  | x :: l => if p x then Some (x, l) else '(y, k) ← remove_first p l; Some (y, x :: k)
  end.
(** The [while let] loop: absorbs sessions until none overlaps. *)
Fixpoint merge_overlapping (fuel : nat) (first last : Z) (merged sessions : list ActiveSession)
  : outcome (Z * Z * list ActiveSession * list ActiveSession) :=
  match fuel with
  | O => Panic
  | S fuel =>
      match remove_first (fun s => (start s <=? last) && (first <=? end_ s)) sessions with
      | None => Ok (first, last, merged, sessions)
      | Some (s, rest) => merge_overlapping fuel (Z.min first (start s)) (Z.max last (end_ s)) (merged ++ [s]) rest
      end
  end.

Section changes.
Context (gap : Z) (calls : list Call) (retain_events : bool) (is_late : Z -> outcome bool).

Definition accumulate_event (event : SessionEvent) : M (list ActiveSession) bool :=
  sessions ← getS;
  '(first, last, merged, rest) ← lift (merge_overlapping (S (length sessions)) (timestamp event)
    (i64_sat (timestamp event + gap)) [] sessions);
  _ ← putS rest;
  late ← lift (is_late last);
  if late : bool then mret true
  else
    fresh ← lift (new_state calls);
    let '(merge_result, acc) := forM merged (fun s => merge_state calls (accumulator s)) fresh in
    _ ← lift merge_result;
    let '(apply_result, acc) := apply_values calls (values event) true acc in
    _ ← lift apply_result;
    let kept := if retain_events then sort_events (flat_map events merged ++ [event]) else [] in
    _ ← modS (fun rest => rest ++ [{| start := first; end_ := last; accumulator := acc; events := kept |}]);
    mret false.

(** The greatest end of the sessions an event's window touches. *)
Definition retraction_end (event : SessionEvent) (sessions : list ActiveSession) : Z :=
  match map end_ (List.filter (fun s => (start s <=? i64_sat (timestamp event + gap)) && (timestamp event <=? end_ s)) sessions) with
  | [] => i64_sat (timestamp event + gap)
  | e :: l => foldl Z.max e l
  end.
(** The first session that holds the event, and the others around it. *)
Fixpoint find_event (event : SessionEvent) (before sessions : list ActiveSession)
  : option (list ActiveSession * ActiveSession * list SessionEvent * list ActiveSession) :=
  match sessions with
  | [] => None
  | s :: after =>
      match remove_first (fun e => bool_decide (e = event)) (events s) with
      | Some (_, rest) => Some (before, s, rest, after)
      | None => find_event event (before ++ [s]) after
      end
  end.
Definition retract_event (event : SessionEvent) : M (list ActiveSession) bool :=
  sessions ← getS;
  late ← lift (is_late (retraction_end event sessions));
  if late : bool then mret true
  else
    match find_event event [] sessions with
    | None => throw (Execution "session window received a retraction without a matching accumulated row")
    | Some (before, s, rest, after) =>
        let '(result, acc) := apply_values calls (values event) false (accumulator s) in
        let s := {| start := start s; end_ := end_ s; accumulator := acc; events := rest |} in
        _ ← putS (before ++ s :: after);
        _ ← lift result;
        _ ← putS (if row_count acc =? 0 then before ++ after else before ++ s :: after);
        mret false
    end.

Fixpoint session_changes (changes : list (bool * SessionEvent)) (dropped : Z) : M (list ActiveSession) Z :=
  match changes with
  | [] => mret dropped
  | (accumulate, event) :: changes =>
      late ← (if accumulate : bool then accumulate_event event else retract_event event);
      session_changes changes (if late : bool then wrapu 64 (dropped + 1) else dropped)
  end.
Definition apply_session_changes (changes : list (bool * SessionEvent)) : M (list ActiveSession) Z :=
  session_changes changes 0.
End changes.

(** The runs of the sources' tests. *)
Example assignments_test :
  let run := (f ← existing 10000 20000; s ← existing 30000 40000; d ← assign (-1) 10000 15000; o ← assign 0 10000 15000;
              b ← assign 20000 10000 15000; r ← resolve f; r' ← resolve s; mret (d, r, r')) in
  exists n, let '(r, a) := run no_assignments in
    r = Ok (None, n, n) /\ intervals a = [{| iv_start := 0; iv_end := 40000; iv_slot := n |}].
Proof. eexists. vm_compute. done. Qed.
