(* ===== verification/SessionsSpec.v ===== *)
(** * Namespaces of sessions are the connected components of the windows

    Windows are closed intervals; two of them touch when they share a point.
    The intervals kept by [Assignments] are separated, so the loop of [assign]
    absorbs exactly the intervals the new window touches, and the forest of slots
    records the components of the touching windows. *)

From Stdlib Require Import ZArith Lia Strings.Byte.
From stdpp Require Import base list option numbers strings sorting relations.
From S2P Require Import Prelude Bytes OrdMap Arrow Aggregate Sessions.

(** ** Separated intervals *)

Definition touches (v w : Z * Z) : Prop := v.1 <= w.2 /\ w.1 <= v.2.
#[global] Instance touches_dec v w : Decision (touches v w).
Proof. unfold touches. apply _. Defined.
Lemma touches_sym v w : touches v w -> touches w v.
Proof. unfold touches. tauto. Qed.
Definition bounds (iv : Interval) : Z * Z := (iv_start iv, iv_end iv).
Definition separated (l : list Interval) : Prop :=
  StronglySorted (fun a b => iv_end a < iv_start b) l /\ Forall (fun iv => iv_start iv < iv_end iv) l.

Lemma separated_cons x l :
  separated (x :: l) <-> iv_start x < iv_end x /\ separated l /\ forall b, b ∈ l -> iv_end x < iv_start b.
Proof.
  unfold separated. rewrite StronglySorted_cons, Forall_cons, Forall_forall. tauto.
Qed.
Lemma separated_app l k :
  separated (l ++ k) <-> separated l /\ separated k /\ forall a b, a ∈ l -> b ∈ k -> iv_end a < iv_start b.
Proof.
  induction l as [|x l IH]; cbn [app].
  - split; [|tauto]. intros Hk. split; [split; constructor|]. split; [done|]. by intros ? ? ?%not_elem_of_nil.
  - rewrite !separated_cons, IH. setoid_rewrite elem_of_cons. setoid_rewrite elem_of_app. naive_solver.
Qed.
Lemma separated_sorted l : separated l -> bt_sorted iv_end l.
Proof.
  induction l as [|x l IH]; [constructor|]. intros (Hx & Hl & Hb)%separated_cons. apply bt_sorted_cons. split; [|by apply IH].
  intros y Hy. specialize (Hb y Hy). destruct Hl as [_ Hf]. rewrite Forall_forall in Hf. specialize (Hf y Hy). unfold ocmp, Z_ord. apply Z.compare_lt_iff. lia.
Qed.
(** Where an interval is found, removed and inserted. *)
Lemma lower_bound_app s l k : (forall a, a ∈ l -> iv_end a < s) -> bt_lower_bound iv_end s (l ++ k) = bt_lower_bound iv_end s k.
Proof.
  induction l as [|x l IH]; intros Hl; [done|]. cbn [app bt_lower_bound]. unfold ocmp, Z_ord.
  rewrite (proj2 (Z.compare_lt_iff (iv_end x) s)) by (apply Hl; left). apply IH. intros a Ha. apply Hl. by right.
Qed.
Lemma lower_bound_here s x k : s <= iv_end x -> bt_lower_bound iv_end s (x :: k) = Some x.
Proof. intros Hx. cbn [bt_lower_bound]. unfold ocmp, Z_ord. destruct (Z.compare_spec (iv_end x) s); [done|lia|done]. Qed.
Lemma remove_app l x k : (forall a, a ∈ l -> iv_end a < iv_end x) -> bt_remove iv_end (iv_end x) (l ++ x :: k) = l ++ k.
Proof.
  induction l as [|y l IH]; intros Hl; cbn [app bt_remove]; unfold ocmp, Z_ord; [by rewrite Z.compare_refl|].
  assert (iv_end y < iv_end x) as Hy by (apply Hl; left).
  destruct (Z.compare_spec (iv_end x) (iv_end y)); [lia|lia|]. f_equal. apply IH. intros a Ha. apply Hl. by right.
Qed.
Lemma put_app upd l x k :
  (forall a, a ∈ l -> iv_end a < iv_end x) -> (forall a, a ∈ k -> iv_end x < iv_end a) -> bt_put iv_end upd x (l ++ k) = l ++ x :: k.
Proof.
  intros Hl Hk. induction l as [|y l IH]; cbn [app bt_put]; unfold ocmp, Z_ord.
  - destruct k as [|y k]; [done|]. cbn [bt_put]. unfold ocmp, Z_ord. by rewrite (proj2 (Z.compare_lt_iff _ _) (Hk y (list_elem_of_here _ _))).
  - assert (iv_end y < iv_end x) as Hy by (apply Hl; left). destruct (Z.compare_spec (iv_end x) (iv_end y)); [lia|lia|].
    f_equal. apply IH. intros a Ha. apply Hl. by right.
Qed.

(** The intervals around a window. *)
Record around (w : Z * Z) (l hits k : list Interval) : Prop := {
  ar_before : forall a, a ∈ l -> iv_end a < w.1;
  ar_hits : forall a, a ∈ hits -> touches w (bounds a);
  ar_after : forall a, a ∈ k -> w.2 < iv_start a;
}.
Lemma split_around l w : separated l -> exists before hits after, l = before ++ hits ++ after /\ around w before hits after.
Proof.
  induction l as [|x l IH]; intros Hs.
  { exists [], [], []. split; [done|]. split; by intros ? ?%not_elem_of_nil. }
  apply separated_cons in Hs as (Hx & Hs & Hxl). destruct (IH Hs) as (b & h & k & -> & [Hb Hh Hk]).
  destruct (decide (iv_end x < w.1)) as [Hlt|Hge].
  { exists (x :: b), h, k. split; [done|]. split; [|done..]. intros a [->|Ha]%elem_of_cons; [done|by apply Hb]. }
  assert (b = []) as ->.
  { destruct b as [|y b]; [done|]. exfalso. assert (iv_end y < w.1) by (apply Hb; left).
    assert (iv_end x < iv_start y) by (apply Hxl, elem_of_app; left; left).
    assert (iv_start y < iv_end y); [|lia]. destruct Hs as [_ Hf]. rewrite Forall_forall in Hf. apply Hf, elem_of_app. left. left. }
  destruct (decide (w.2 < iv_start x)) as [Hgt|Hle].
  - exists [], [], (x :: h ++ k). split; [done|]. split; [by intros ? ?%not_elem_of_nil..|].
    intros a [->|Ha]%elem_of_cons; [done|]. specialize (Hxl a Ha). lia.
  - exists [], (x :: h), k. split; [done|]. split; [done| |done]. intros a [->|Ha]%elem_of_cons; [unfold touches, bounds; cbn; lia|by apply Hh].
Qed.

Definition hull (w : Z * Z) (hits : list Interval) : Z * Z :=
  foldl (fun w iv => (Z.min w.1 (iv_start iv), Z.max w.2 (iv_end iv))) w hits.
Definition link_all (target : nat) (hits : list Interval) (parents : list nat) : list nat :=
  foldl (fun p iv => <[iv_slot iv := target]> p) parents hits.

Lemma hull_cons w x hits : hull w (x :: hits) = hull (Z.min w.1 (iv_start x), Z.max w.2 (iv_end x)) hits.
Proof. done. Qed.
Lemma hull_bounds w hits : (hull w hits).1 <= w.1 /\ w.2 <= (hull w hits).2 /\
  forall h, h ∈ hits -> (hull w hits).1 <= iv_start h /\ iv_end h <= (hull w hits).2.
Proof.
  revert w. induction hits as [|x hits IH]; intros w; [cbn; split_and!; [lia|lia|by intros ? ?%not_elem_of_nil]|].
  rewrite hull_cons. destruct (IH (Z.min w.1 (iv_start x), Z.max w.2 (iv_end x))) as (H1 & H2 & H3). cbn [fst snd] in *.
  split_and!; [lia|lia|]. intros h [->|Hh]%elem_of_cons; [lia|by apply H3].
Qed.
Lemma hull_attained w hits :
  ((hull w hits).1 = w.1 \/ exists h, h ∈ hits /\ (hull w hits).1 = iv_start h) /\
  ((hull w hits).2 = w.2 \/ exists h, h ∈ hits /\ (hull w hits).2 = iv_end h).
Proof.
  revert w. induction hits as [|x hits IH]; intros w; [by split; left|]. rewrite hull_cons.
  destruct (IH (Z.min w.1 (iv_start x), Z.max w.2 (iv_end x))) as [H1 H2]. cbn [fst snd] in *. split.
  - destruct H1 as [->|(h & Hh & ->)]; [|right; exists h; split; [by right|done]].
    destruct (Z.min_spec w.1 (iv_start x)) as [[_ ->]|[_ ->]]; [by left|right; exists x; split; [left|done]].
  - destruct H2 as [->|(h & Hh & ->)]; [|right; exists h; split; [by right|done]].
    destruct (Z.max_spec w.2 (iv_end x)) as [[_ ->]|[_ ->]]; [right; exists x; split; [left|done]|by left].
Qed.

Lemma hull_cover w hits x :
  (forall h, h ∈ hits -> touches w (bounds h)) -> (hull w hits).1 <= x <= (hull w hits).2 ->
  (w.1 <= x <= w.2) \/ exists h, h ∈ hits /\ iv_start h <= x <= iv_end h.
Proof.
  intros Ht Hx. destruct (hull_attained w hits) as [H1 H2]. destruct (decide (x < w.1)) as [Hlt|].
  { right. destruct H1 as [H1|(h & Hh & H1)]; [lia|]. exists h. split; [done|].
    pose proof (Ht h Hh) as [Ha Hb]. unfold bounds in *. cbn [fst snd] in *. lia. }
  destruct (decide (w.2 < x)) as [Hgt|]; [|left; lia].
  right. destruct H2 as [H2|(h & Hh & H2)]; [lia|]. exists h. split; [done|].
  pose proof (Ht h Hh) as [Ha Hb]. unfold bounds in *. cbn [fst snd] in *. lia.
Qed.

(** ** The loop of [assign] *)

Definition slots_ok (p : list nat) (hits : list Interval) : Prop := Forall (fun h => (iv_slot h < length p)%nat) hits.
Lemma slots_ok_insert p hits i x : slots_ok p hits -> slots_ok (<[i := x]> p) hits.
Proof. unfold slots_ok. intros Hp. eapply Forall_impl; [exact Hp|]. cbn. intros h. by rewrite length_insert. Qed.
Definition after_absorb (slot : option nat) (hits : list Interval) (p : list nat) : list nat :=
  match slot, hits with
  | Some t, hits => link_all t hits p
  | None, h :: hits => link_all (iv_slot h) hits p
  | None, [] => p
  end.
Lemma absorb_spec fuel w slot before hits after p :
  (length hits < fuel)%nat -> separated (before ++ hits ++ after) -> around w before hits after -> slots_ok p hits ->
  absorb fuel w.1 w.2 slot {| intervals := before ++ hits ++ after; parents := p |} =
    (Ok ((hull w hits).1, (hull w hits).2, match slot with Some t => Some t | None => iv_slot <$> head hits end),
     {| intervals := before ++ after; parents := after_absorb slot hits p |}).
Proof.
  revert fuel w slot p. induction hits as [|x hits IH]; intros fuel w slot p Hf Hs Ha Hp; (destruct fuel as [|fuel]; [cbn in Hf; lia|]); cbn [absorb].
  - rewrite (M_bind_run _ getS _ _ _ eq_refl). cbn [intervals app]. rewrite lower_bound_app by apply (ar_before _ _ _ _ Ha).
    assert (match bt_lower_bound iv_end w.1 after with None => True | Some o => w.2 < iv_start o end) as Hb.
    { destruct (bt_lower_bound iv_end w.1 after) as [o|] eqn:E; [|done]. apply bt_lower_bound_Some in E; try apply _. destruct E as (l1 & l2 & -> & _).
      apply (ar_after _ _ _ _ Ha), elem_of_app. right. left. }
    destruct (bt_lower_bound iv_end w.1 after) as [o|]; [rewrite (proj2 (Z.ltb_lt _ _) Hb)|]; by destruct slot.
  - rewrite (M_bind_run _ getS _ _ _ eq_refl). cbn [intervals app]. destruct Ha as [Hb Hh Hk].
    pose proof (Hh x (list_elem_of_here _ _)) as [Hx1 Hx2]. cbn [bounds fst snd] in Hx1, Hx2.
    apply separated_app in Hs as (Hsb & Hsx & Hbx). cbn [app] in *. apply separated_cons in Hsx as (Hxx & Hsh & Hxh).
    rewrite lower_bound_app, lower_bound_here by done. rewrite (proj2 (Z.ltb_ge _ _)) by done.
    assert (forall a, a ∈ before -> iv_end a < iv_start x) as Hbx' by (intros a Ha; apply Hbx; [done|left]).
    rewrite (M_bind_run _ _ _ tt {| intervals := before ++ hits ++ after; parents := p |});
      [|unfold remove_interval, modS; cbn [intervals parents]; rewrite remove_app; [done|intros a Ha; specialize (Hbx' a Ha); lia]].
    apply Forall_cons in Hp as [Hpx Hp].
    set (p' := match slot with Some t => <[iv_slot x := t]> p | None => p end).
    rewrite (M_bind_run _ _ _ tt {| intervals := before ++ hits ++ after; parents := p' |})
      by (destruct slot; [unfold link; cbn [parents]; by rewrite decide_True|done]).
    rewrite (IH fuel (Z.min w.1 (iv_start x), Z.max w.2 (iv_end x))).
    + rewrite hull_cons. by destruct slot.
    + cbn in Hf. lia.
    + apply separated_app. split_and!; [done|done|]. intros a b Ha' Hb'. apply Hbx; [done|by right].
    + split; cbn [fst snd].
      * intros a Ha. pose proof (Hb a Ha). pose proof (Hbx' a Ha). lia.
      * intros a Ha. pose proof (Hh a (list_elem_of_further _ _ _ Ha)) as [H1 H2]. unfold touches, bounds in *. cbn [fst snd] in *. lia.
      * intros a Ha. pose proof (Hk a Ha). assert (iv_end x < iv_start a) by (apply Hxh, elem_of_app; by right). lia.
    + unfold p'. destruct slot; [by apply slots_ok_insert|done].
Qed.

(** ** The forest of slots *)

(** [root] and [depth] describe the forest [p]; a path is no longer than the
    slots that are not among the [n] roots. *)
Record forest (p : list nat) (n : nat) (root depth : nat -> nat) : Prop := {
  fo_root : forall i, (i < length p)%nat -> (root i < length p)%nat /\ p !! root i = Some (root i);
  fo_self : forall i, p !! i = Some i -> root i = i /\ depth i = 0%nat;
  fo_step : forall i j, p !! i = Some j -> j <> i -> (j < length p)%nat /\ root j = root i /\ (depth j < depth i)%nat;
  fo_depth : forall i, (i < length p)%nat -> (depth i + n <= length p)%nat;
  fo_count : (n <= length p)%nat;
}.

Lemma find_root_spec p n root depth i fuel :
  forest p n root depth -> (i < length p)%nat -> (depth i < fuel)%nat -> find_root fuel p i = Ok (root i).
Proof.
  intros Hf. revert i. induction fuel as [|fuel IH]; intros i Hi Hd; [lia|]. cbn [find_root].
  destruct (lookup_lt_is_Some_2 p i Hi) as [j Hj]. rewrite Hj. destruct (decide (j = i)) as [->|Hne].
  - by destruct (fo_self _ _ _ _ Hf i Hj) as [-> _].
  - destruct (fo_step _ _ _ _ Hf i j Hj Hne) as (Hl & <- & Hlt). apply IH; [done|lia].
Qed.
Lemma root_idem p n root depth i : forest p n root depth -> (i < length p)%nat -> root (root i) = root i /\ depth (root i) = 0%nat.
Proof. intros Hf Hi. destruct (fo_root _ _ _ _ Hf i Hi) as [_ Hr]. by apply (fo_self _ _ _ _ Hf). Qed.
(** Pointing a slot at its root keeps every root. *)
Lemma forest_shortcut p n root depth i j :
  forest p n root depth -> p !! i = Some j -> j <> root i -> forest (<[i := root i]> p) n root depth.
Proof.
  intros Hf Hj Hne. assert (i < length p)%nat as Hi by (by eapply lookup_lt_Some).
  assert (j <> i) as Hji by (intros ->; by destruct (fo_self _ _ _ _ Hf i Hj) as [E _]).
  destruct (fo_step _ _ _ _ Hf i j Hj Hji) as (_ & _ & Hdi). destruct (root_idem p n root depth i Hf Hi) as [Hrr Hr0].
  destruct (fo_root _ _ _ _ Hf i Hi) as [Hrl Hrs].
  assert (root i <> i) as Hri by (intros E; rewrite E in Hrs; congruence).
  split; try setoid_rewrite length_insert.
  - intros k Hk. destruct (fo_root _ _ _ _ Hf k Hk) as [H1 H2]. split; [done|]. rewrite list_lookup_insert_ne; [done|].
    intros ->. congruence.
  - intros k Hk. destruct (decide (k = i)) as [->|Hki]; [|rewrite list_lookup_insert_ne in Hk by done; by apply (fo_self _ _ _ _ Hf)].
    rewrite list_lookup_insert_eq in Hk by done. congruence.
  - intros k l Hk Hkl. destruct (decide (k = i)) as [->|Hki].
    + rewrite list_lookup_insert_eq in Hk by done. injection Hk as <-. split_and!; [done|done|lia].
    + rewrite list_lookup_insert_ne in Hk by done. by apply (fo_step _ _ _ _ Hf).
  - apply Hf.
  - apply Hf.
Qed.
Lemma compress_spec p n root depth i fuel :
  forest p n root depth -> (i < length p)%nat -> (depth i < fuel)%nat ->
  exists p', compress fuel p i (root i) = Ok p' /\ forest p' n root depth /\ length p' = length p /\
    forall k, p !! k = Some k -> p' !! k = Some k.
Proof.
  revert p i. induction fuel as [|fuel IH]; intros p i Hf Hi Hd; [lia|]. cbn [compress].
  destruct (lookup_lt_is_Some_2 p i Hi) as [j Hj]. rewrite Hj. destruct (decide (j = root i)) as [->|Hne]; [by exists p|].
  assert (j <> i) as Hji by (intros ->; by destruct (fo_self _ _ _ _ Hf i Hj) as [E _]).
  destruct (fo_step _ _ _ _ Hf i j Hj Hji) as (Hl & Er & Hlt). rewrite <- Er.
  destruct (IH (<[i := root j]> p) j) as (p' & E & Hf' & Hl' & Hk); [rewrite Er; by eapply forest_shortcut|by rewrite length_insert|lia|].
  exists p'. split_and!; [done|done|by rewrite Hl', length_insert|]. intros k Hks. apply Hk. rewrite list_lookup_insert_ne; [done|].
  intros ->. congruence.
Qed.

(** A fresh slot, and a root below another. *)
Lemma forest_push p n root depth :
  forest p n root depth ->
  exists root' depth', forest (p ++ [length p]) (S n) root' depth' /\ root' (length p) = length p /\
    forall k, (k < length p)%nat -> root' k = root k.
Proof.
  intros Hf. exists (fun k => if decide (k = length p) then k else root k), (fun k => if decide (k = length p) then 0%nat else depth k).
  split; [|split; [by rewrite decide_True|intros k Hk; rewrite decide_False by lia; done]].
  split; try setoid_rewrite length_app; cbn [length].
  - intros i Hi. destruct (decide (i = length p)) as [->|Hne]; [split; [lia|by rewrite lookup_app_r, Nat.sub_diag]|].
    destruct (fo_root _ _ _ _ Hf i) as [H1 H2]; [lia|]. split; [lia|]. by rewrite lookup_app_l.
  - intros i Hi. destruct (decide (i = length p)) as [->|Hne]; [done|].
    destruct (decide (i < length p)%nat) as [Hlt|Hge]; [rewrite lookup_app_l in Hi by done; by apply (fo_self _ _ _ _ Hf)|].
    apply lookup_lt_Some in Hi. rewrite length_app in Hi. cbn in Hi. lia.
  - intros i j Hi Hne. destruct (decide (i = length p)) as [->|Hni]; [rewrite lookup_app_r, Nat.sub_diag in Hi by done; cbn in Hi; congruence|].
    assert (i < length p)%nat as Hlt by (apply lookup_lt_Some in Hi; rewrite length_app in Hi; cbn in Hi; lia).
    rewrite lookup_app_l in Hi by done. destruct (fo_step _ _ _ _ Hf i j Hi Hne) as (? & ? & ?).
    rewrite !decide_False by lia. split_and!; [lia|done|done].
  - intros i Hi. destruct (decide (i = length p)) as [->|Hne]; [|pose proof (fo_depth _ _ _ _ Hf i); lia].
    pose proof (fo_count _ _ _ _ Hf). lia.
  - pose proof (fo_count _ _ _ _ Hf). lia.
Qed.
Lemma forest_link p n root depth a b :
  forest p (S n) root depth -> p !! a = Some a -> p !! b = Some b -> a <> b ->
  exists root' depth', forest (<[a := b]> p) n root' depth' /\ forall k, root' k = if decide (root k = a) then b else root k.
Proof.
  intros Hf Ha Hb Hne. exists (fun k => if decide (root k = a) then b else root k), (fun k => if decide (root k = a) then S (depth k) else depth k).
  split; [|done]. assert (a < length p)%nat as Hla by (by eapply lookup_lt_Some). assert (b < length p)%nat as Hlb by (by eapply lookup_lt_Some).
  destruct (fo_self _ _ _ _ Hf a Ha) as [Hra Hda], (fo_self _ _ _ _ Hf b Hb) as [Hrb Hdb].
  split; try setoid_rewrite length_insert.
  - intros i Hi. destruct (decide (root i = a)); [split; [done|by rewrite list_lookup_insert_ne]|].
    destruct (fo_root _ _ _ _ Hf i Hi). split; [done|]. by rewrite list_lookup_insert_ne.
  - intros i Hi. destruct (decide (i = a)) as [->|Hia]; [rewrite list_lookup_insert_eq in Hi by done; congruence|].
    rewrite list_lookup_insert_ne in Hi by done. destruct (fo_self _ _ _ _ Hf i Hi) as [Hri Hdi]. rewrite !decide_False by congruence. done.
  - intros i j Hi Hij. destruct (decide (i = a)) as [->|Hia].
    + rewrite list_lookup_insert_eq in Hi by done. injection Hi as <-. rewrite Hrb, Hra, !(decide_True (P := a = a)), !(decide_False (P := b = a)) by congruence. split_and!; [done|done|lia].
    + rewrite list_lookup_insert_ne in Hi by done. destruct (fo_step _ _ _ _ Hf i j Hi Hij) as (H1 & -> & H3). split; [done|]. split; [done|].
      destruct (decide (root i = a)); lia.
  - intros i Hi. pose proof (fo_depth _ _ _ _ Hf i Hi). destruct (decide (root i = a)); lia.
  - pose proof (fo_count _ _ _ _ Hf). lia.
Qed.
Lemma forest_link_all p n root depth b hits :
  forest p (length hits + n) root depth -> p !! b = Some b -> NoDup (b :: map iv_slot hits) ->
  (forall h, h ∈ hits -> p !! iv_slot h = Some (iv_slot h)) ->
  exists root' depth', forest (link_all b hits p) n root' depth' /\ length (link_all b hits p) = length p /\
    (forall k, root' k = if decide (root k ∈ map iv_slot hits) then b else root k) /\
    forall k, k ∉ map iv_slot hits -> link_all b hits p !! k = p !! k.
Proof.
  revert p root depth. induction hits as [|h hits IH]; intros p root depth Hf Hb Hnd Hh.
  { exists root, depth. split_and!; try done. }
  cbn [map] in *. apply NoDup_cons in Hnd as [Hbn Hnd]. pose proof Hnd as [Hhn Hnd']%NoDup_cons. rewrite not_elem_of_cons in Hbn. destruct Hbn as [Hbh Hbn].
  assert (iv_slot h <> b) as Hhb by congruence.
  assert (p !! iv_slot h = Some (iv_slot h)) as Hph by (apply Hh; left).
  destruct (forest_link p (length hits + n) root depth (iv_slot h) b) as (root1 & depth1 & Hf1 & Hr1); [done|done|done|done|].
  destruct (IH (<[iv_slot h := b]> p) root1 depth1 Hf1) as (root2 & depth2 & Hf2 & Hl2 & Hr2 & Hp2).
  - by rewrite list_lookup_insert_ne.
  - by apply NoDup_cons.
  - intros x Hx. rewrite list_lookup_insert_ne; [apply Hh; by right|]. intros E. apply Hhn. rewrite E. apply list_elem_of_fmap. by exists x.
  - change (link_all b (h :: hits) p) with (link_all b hits (<[iv_slot h := b]> p)). exists root2, depth2. split; [done|]. split; [by rewrite Hl2, length_insert|]. split.
    + intros k. rewrite Hr2, Hr1. destruct (decide (root k = iv_slot h)) as [->|Hne].
      * rewrite (decide_True (P := iv_slot h ∈ iv_slot h :: map iv_slot hits)) by left. by destruct (decide _).
      * destruct (decide (root k ∈ map iv_slot hits)) as [Hin|Hnin].
        -- by rewrite decide_True by (by right).
        -- rewrite decide_False; [done|]. by rewrite not_elem_of_cons.
    + intros k Hk. rewrite not_elem_of_cons in Hk. destruct Hk as [Hkh Hk].
      rewrite Hp2 by done. by rewrite list_lookup_insert_ne by congruence.
Qed.

(** The slots after a window joins the intervals it touches: the slot of the
    first of them or a fresh one. *)
Definition merged_slot (hits : list Interval) (p : list nat) : nat :=
  match hits with h :: _ => iv_slot h | [] => length p end.
Definition merged_parents (hits : list Interval) (p : list nat) : list nat :=
  match hits with h :: hits => link_all (iv_slot h) hits p | [] => p ++ [length p] end.
Lemma forest_merge p n root depth hits :
  forest p (length hits + n) root depth -> NoDup (map iv_slot hits) -> (forall h, h ∈ hits -> p !! iv_slot h = Some (iv_slot h)) ->
  let slot := merged_slot hits p in
  exists root' depth', forest (merged_parents hits p) (S n) root' depth' /\ (length p <= length (merged_parents hits p))%nat /\
    merged_parents hits p !! slot = Some slot /\
    (forall k, (k < length p)%nat -> root' k = if decide (root k ∈ map iv_slot hits) then slot else root k) /\
    forall k, k ∉ map iv_slot hits -> p !! k = Some k -> merged_parents hits p !! k = Some k.
Proof.
  intros Hf Hnd Hh. destruct hits as [|h hits]; cbn [merged_slot merged_parents length map].
  - destruct (forest_push p n root depth Hf) as (root' & depth' & Hf' & Hs & Hr). exists root', depth'.
    split_and!; [done|rewrite length_app; lia|by rewrite lookup_app_r, Nat.sub_diag| |].
    + intros k Hk. rewrite Hr by done. rewrite decide_False; [done|apply not_elem_of_nil].
    + intros k _ Hk. rewrite lookup_app_l; [done|]. by eapply lookup_lt_Some.
  - assert (p !! iv_slot h = Some (iv_slot h)) as Hph by (apply Hh; left). cbn [map] in Hnd.
    destruct (forest_link_all p (S n) root depth (iv_slot h) hits) as (root' & depth' & Hf' & Hl & Hr & Hp).
    + cbn [length] in Hf. by replace (length hits + S n)%nat with (S (length hits) + n)%nat by lia.
    + done.
    + done.
    + intros x Hx. apply Hh. by right.
    + exists root', depth'. apply NoDup_cons in Hnd as [Hhn Hnd]. split_and!; [done|rewrite Hl; lia|by rewrite Hp| |].
      * intros k Hk. rewrite Hr. destruct (decide (root k = iv_slot h)) as [E|E].
        -- rewrite E, (decide_False (P := iv_slot h ∈ map iv_slot hits)) by done. rewrite decide_True; [done|left].
        -- destruct (decide (root k ∈ map iv_slot hits)) as [Hin|Hnin]; [by rewrite decide_True by (by right)|].
           rewrite decide_False; [done|]. by rewrite not_elem_of_cons.
      * intros k Hk Hpk. rewrite not_elem_of_cons in Hk. destruct Hk as [_ Hk]. by rewrite Hp.
Qed.

(** ** Windows and namespaces *)

(** A window with the slot it was given. *)
Definition Window : Type := (Z * Z) * nat.
Definition step (ws : list Window) (u v : Window) : Prop := u ∈ ws /\ v ∈ ws /\ touches u.1 v.1.
Definition connected (ws : list Window) : relation Window := rtc (step ws).

Lemma connected_sym ws u v : connected ws u v -> connected ws v u.
Proof.
  induction 1 as [|x y z (Hx & Hy & Ht) _ IH]; [done|]. eapply rtc_r; [exact IH|]. split_and!; [done|done|by apply touches_sym].
Qed.
Lemma connected_mono ws ws' u v : (forall w, w ∈ ws -> w ∈ ws') -> connected ws u v -> connected ws' u v.
Proof. intros Hs. apply rtc_subrel. intros x y (Hx & Hy & Ht). split_and!; auto. Qed.

Record namespaces (a : Assignments) (ws : list Window) (root depth : nat -> nat) : Prop := {
  ns_forest : forest (parents a) (length (intervals a)) root depth;
  ns_separated : separated (intervals a);
  ns_roots : forall iv, iv ∈ intervals a -> parents a !! iv_slot iv = Some (iv_slot iv);
  ns_distinct : NoDup (map iv_slot (intervals a));
  ns_window : forall w, w ∈ ws -> (w.2 < length (parents a))%nat /\ w.1.1 < w.1.2 /\
    exists iv, iv ∈ intervals a /\ iv_slot iv = root w.2 /\ iv_start iv <= w.1.1 /\ w.1.2 <= iv_end iv;
  ns_cover : forall iv x, iv ∈ intervals a -> iv_start iv <= x <= iv_end iv ->
    exists w, w ∈ ws /\ root w.2 = iv_slot iv /\ w.1.1 <= x <= w.1.2;
  ns_connected : forall u v, u ∈ ws -> v ∈ ws -> root u.2 = root v.2 -> connected ws u v;
}.

Lemma no_namespaces : namespaces no_assignments [] id (fun _ => 0%nat).
Proof.
  split; cbn [no_assignments intervals parents]; try (by intros ? ?%not_elem_of_nil); try (by intros ? ? ?%not_elem_of_nil); try constructor.
  all: try done; cbn; try lia. all: constructor.
Qed.

Lemma separated_unique l x y : separated l -> x ∈ l -> y ∈ l -> touches (bounds x) (bounds y) -> x = y.
Proof.
  induction l as [|z l IH]; intros Hs Hx Hy Ht; [by apply not_elem_of_nil in Hx|].
  apply separated_cons in Hs as (Hz & Hs & Hlt). destruct Ht as [H1 H2]. cbn [bounds fst snd] in *.
  apply elem_of_cons in Hx as [->|Hx]; apply elem_of_cons in Hy as [->|Hy]; [done| | |by apply IH].
  - specialize (Hlt y Hy). lia.
  - specialize (Hlt x Hx). lia.
Qed.

Lemma slot_unique l x y : NoDup (map iv_slot l) -> x ∈ l -> y ∈ l -> iv_slot x = iv_slot y -> x = y.
Proof.
  induction l as [|z l IH]; intros Hnd Hx Hy E; [by apply not_elem_of_nil in Hx|]. cbn [map] in Hnd. apply NoDup_cons in Hnd as [Hz Hnd].
  apply elem_of_cons in Hx as [->|Hx]; apply elem_of_cons in Hy as [->|Hy]; [done| | |by apply IH].
  - destruct Hz. rewrite E. apply list_elem_of_fmap. by exists y.
  - destruct Hz. rewrite <- E. apply list_elem_of_fmap. by exists x.
Qed.

Section facts.
Context (a : Assignments) (ws : list Window) (root depth : nat -> nat) (Hns : namespaces a ws root depth).

Lemma touching_same u v : u ∈ ws -> v ∈ ws -> touches u.1 v.1 -> root u.2 = root v.2.
Proof.
  intros Hu Hv [H1 H2]. destruct (ns_window _ _ _ _ Hns u Hu) as (_ & _ & i & Hi & <- & Hi1 & Hi2).
  destruct (ns_window _ _ _ _ Hns v Hv) as (_ & _ & j & Hj & <- & Hj1 & Hj2).
  f_equal. apply (separated_unique (intervals a)); [apply Hns|done|done|]. unfold touches, bounds. cbn [fst snd]. lia.
Qed.
(** Two windows share a root exactly when a chain of windows joins them. *)
Lemma same_root_connected u v : u ∈ ws -> v ∈ ws -> root u.2 = root v.2 <-> connected ws u v.
Proof.
  intros Hu Hv. split; [by apply Hns|]. intros Hc. induction Hc as [|x y z (Hx & Hy & Ht) _ IH]; [done|].
  rewrite (touching_same x y Hx Hy Ht). by apply IH.
Qed.

Lemma resolve_spec k : (k < length (parents a))%nat ->
  exists b, resolve k a = (Ok (root k), b) /\ intervals b = intervals a /\ namespaces b ws root depth.
Proof.
  intros Hk. pose proof (ns_forest _ _ _ _ Hns) as Hf. pose proof (fo_depth _ _ _ _ Hf k Hk) as Hd.
  unfold resolve. rewrite (find_root_spec _ _ _ _ k _ Hf Hk) by lia.
  destruct (compress_spec _ _ _ _ k (S (length (parents a))) Hf Hk) as (p & -> & Hf' & Hl & Hs); [lia|].
  eexists. split; [done|]. split; [done|]. destruct Hns as [_ H2 H3 H4 H5 H6 H7]. split; cbn [intervals parents]; try done.
  - intros iv Hiv. by apply Hs, H3.
  - intros w Hw. rewrite Hl. by apply H5.
Qed.
End facts.

(** A new window joins the intervals it touches. *)
Section add.
Context (before hits after : list Interval) (p : list nat) (ws : list Window) (root depth : nat -> nat) (w : Z * Z).
Context (Hns : namespaces {| intervals := before ++ hits ++ after; parents := p |} ws root depth).
Context (Har : around w before hits after) (Hw : w.1 < w.2).
Let slot := merged_slot hits p.
Let joined := {| iv_start := (hull w hits).1; iv_end := (hull w hits).2; iv_slot := slot |}.

Lemma joined_cover x : iv_start joined <= x <= iv_end joined -> (w.1 <= x <= w.2) \/ exists h, h ∈ hits /\ iv_start h <= x <= iv_end h.
Proof. apply hull_cover, Har. Qed.
Lemma joined_separated : separated (before ++ joined :: after).
Proof.
  destruct (ns_separated _ _ _ _ Hns : separated (before ++ hits ++ after)) as [Hs Hf].
  pose proof (conj Hs Hf : separated (before ++ hits ++ after)) as Hsep. clear Hs Hf.
  apply separated_app in Hsep as (Hb & Hha & Hbha). apply separated_app in Hha as (Hh & Ha & Hha).
  destruct (hull_bounds w hits) as (H1 & H2 & _). destruct (hull_attained w hits) as [H3 H4].
  assert (forall x, x ∈ before -> iv_end x < iv_start joined) as Hbj.
  { intros x Hx. cbn [joined iv_start]. destruct H3 as [->|(h & Hh' & ->)]; [by apply (ar_before _ _ _ _ Har)|].
    apply Hbha; [done|apply elem_of_app; by left]. }
  assert (forall x, x ∈ after -> iv_end joined < iv_start x) as Hja.
  { intros x Hx. cbn [joined iv_end]. destruct H4 as [->|(h & Hh' & ->)]; [by apply (ar_after _ _ _ _ Har)|]. by apply Hha. }
  apply separated_app. split; [done|]. split.
  - apply separated_cons. split_and!; [cbn [joined iv_start iv_end]; lia|done|done].
  - intros x y Hx [->|Hy]%elem_of_cons; [by apply Hbj|]. apply Hbha; [done|apply elem_of_app; by right].
Qed.

Let old := before ++ hits ++ after.
Let kept := before ++ after.

Lemma hit_slot h : h ∈ hits -> iv_slot h ∈ map iv_slot hits.
Proof. intros Hh. apply list_elem_of_fmap. by exists h. Qed.
Lemma old_cases iv : iv ∈ old <-> iv ∈ kept \/ iv ∈ hits.
Proof. unfold old, kept. rewrite !elem_of_app. tauto. Qed.
Lemma old_slots : NoDup (map iv_slot kept) /\ NoDup (map iv_slot hits) /\ forall iv, iv ∈ kept -> iv_slot iv ∉ map iv_slot hits.
Proof.
  pose proof (ns_distinct _ _ _ _ Hns) as Hnd. cbn [intervals] in Hnd.
  rewrite !map_app in Hnd. apply NoDup_app in Hnd as (Hndb & Hdisj & Hndh). apply NoDup_app in Hndh as (Hndh & Hdisj' & Hnda).
  unfold kept. split_and!; [|done|].
  - rewrite map_app. apply NoDup_app. split_and!; [done| |done]. intros k Hk Hk'. apply (Hdisj k Hk), elem_of_app. by right.
  - intros iv Hiv Hc. apply elem_of_app in Hiv as [Hiv|Hiv].
    + apply (Hdisj (iv_slot iv)); [apply list_elem_of_fmap; by exists iv|apply elem_of_app; by left].
    + apply (Hdisj' (iv_slot iv)); [done|apply list_elem_of_fmap; by exists iv].
Qed.
Lemma kept_slot iv : iv ∈ kept -> iv_slot iv <> slot.
Proof.
  intros Hiv E. destruct old_slots as (_ & _ & Hout). unfold slot, merged_slot in E. destruct hits as [|h hs] eqn:Eh.
  - pose proof (ns_roots _ _ _ _ Hns iv) as Hx. cbn [intervals parents] in Hx. rewrite E in Hx.
    assert (length p < length p)%nat; [|lia]. eapply lookup_lt_Some, Hx. unfold kept in Hiv. rewrite elem_of_app in *. tauto.
  - apply (Hout iv Hiv). rewrite E. left.
Qed.

(** [root'] sends the windows of the touched intervals to the new slot. *)
Section merged.
Context (root' depth' : nat -> nat).
Context (Hf' : forest (merged_parents hits p) (S (length kept)) root' depth') (Hlen : (length p <= length (merged_parents hits p))%nat).
Context (Hslot : merged_parents hits p !! slot = Some slot).
Context (Hr : forall k, (k < length p)%nat -> root' k = if decide (root k ∈ map iv_slot hits) then slot else root k).
Let ws' := ws ++ [(w, slot)].

Lemma slot_root : root' slot = slot /\ (slot < length (merged_parents hits p))%nat.
Proof. split; [by destruct (fo_self _ _ _ _ Hf' slot Hslot)|by eapply lookup_lt_Some]. Qed.
Lemma old_window u : u ∈ ws -> (u.2 < length p)%nat /\ u.1.1 < u.1.2 /\
  exists iv, iv ∈ old /\ iv_slot iv = root u.2 /\ iv_start iv <= u.1.1 /\ u.1.2 <= iv_end iv.
Proof. apply Hns. Qed.
Lemma joined_windows u : u ∈ ws' -> (u.2 < length (merged_parents hits p))%nat /\ u.1.1 < u.1.2 /\
  exists iv, iv ∈ before ++ joined :: after /\ iv_slot iv = root' u.2 /\ iv_start iv <= u.1.1 /\ u.1.2 <= iv_end iv.
Proof.
  destruct (hull_bounds w hits) as (H1 & H2 & H3). destruct slot_root as [Hrs Hsl]. destruct old_slots as (_ & _ & Hout).
  assert (joined ∈ before ++ joined :: after) as Hj by (apply elem_of_app; right; left). intros [Hu|Hu]%elem_of_app.
  - destruct (old_window u Hu) as (Hul & Huw & iv & Hiv & Ei & Hs & He). split_and!; [lia|done|]. rewrite Hr by done. rewrite <- Ei.
    apply old_cases in Hiv as [Hiv|Hiv].
    + rewrite decide_False by (by apply Hout). exists iv. split; [|done]. unfold kept in Hiv. rewrite elem_of_app in Hiv.
      rewrite elem_of_app, elem_of_cons. tauto.
    + rewrite decide_True by (by apply hit_slot). exists joined. split; [done|]. split; [done|]. cbn [joined iv_start iv_end].
      specialize (H3 iv Hiv). lia.
  - apply list_elem_of_singleton in Hu as ->. cbn [fst snd]. split_and!; [done|done|]. exists joined. rewrite Hrs.
    split; [done|]. split; [done|]. cbn [joined iv_start iv_end]. lia.
Qed.
Lemma joined_points iv x : iv ∈ before ++ joined :: after -> iv_start iv <= x <= iv_end iv ->
  exists u, u ∈ ws' /\ root' u.2 = iv_slot iv /\ u.1.1 <= x <= u.1.2.
Proof.
  intros Hiv Hx. destruct slot_root as [Hrs _]. destruct old_slots as (_ & _ & Hout).
  assert (forall h, h ∈ old -> iv_start h <= x <= iv_end h -> exists u, u ∈ ws /\ (u.2 < length p)%nat /\ root u.2 = iv_slot h /\ u.1.1 <= x <= u.1.2) as Hcov.
  { intros h Hh Hhx. destruct (ns_cover _ _ _ _ Hns h x Hh Hhx) as (u & Hu & Eu & Hux). destruct (old_window u Hu) as (Hul & _). by exists u. }
  assert (iv ∈ kept \/ iv = joined) as [Hk| ->] by (unfold kept; rewrite elem_of_app, elem_of_cons in Hiv; rewrite elem_of_app; tauto).
  - destruct (Hcov iv (proj2 (old_cases iv) (or_introl Hk)) Hx) as (u & Hu & Hul & Eu & Hux). exists u. split; [apply elem_of_app; by left|].
    split; [|done]. rewrite Hr, Eu by done. by rewrite decide_False by (by apply Hout).
  - destruct (joined_cover x Hx) as [Hwx|(h & Hh & Hhx)].
    + exists (w, slot). split; [apply elem_of_app; right; left|done].
    + destruct (Hcov h (proj2 (old_cases h) (or_intror Hh)) Hhx) as (u & Hu & Hul & Eu & Hux). exists u. split; [apply elem_of_app; by left|].
      split; [|done]. rewrite Hr, Eu by done. by rewrite decide_True by (by apply hit_slot).
Qed.
Lemma joins_window u : u ∈ ws -> root' u.2 = slot -> connected ws' u (w, slot).
Proof.
  intros Hu Eu. destruct (old_window u Hu) as (Hul & _ & iv & Hiv & Ei & _). rewrite Hr in Eu by done.
  apply old_cases in Hiv as [Hiv|Hh].
  { destruct old_slots as (_ & _ & Hout). rewrite <- Ei, decide_False in Eu by (by apply Hout). by destruct (kept_slot iv Hiv). }
  destruct (ar_hits _ _ _ _ Har iv Hh) as [Ha Hb]. cbn [bounds fst snd] in Ha, Hb. pose proof (proj2 (old_cases iv) (or_intror Hh)) as Hio.
  assert (iv_start iv < iv_end iv) as Hhl.
  { destruct (ns_separated _ _ _ _ Hns) as [_ Hf0]. rewrite Forall_forall in Hf0. by apply Hf0. }
  destruct (ns_cover _ _ _ _ Hns iv (Z.max w.1 (iv_start iv)) Hio) as (v & Hv & Ev & Hvx); [lia|].
  eapply rtc_r.
  - eapply connected_mono; [intros x Hx; apply elem_of_app; left; exact Hx|]. apply (ns_connected _ _ _ _ Hns u v Hu Hv). congruence.
  - split_and!; [apply elem_of_app; by left|apply elem_of_app; right; left|]. unfold touches. cbn [fst snd]. lia.
Qed.
Lemma joined_connected u v : u ∈ ws' -> v ∈ ws' -> root' u.2 = root' v.2 -> connected ws' u v.
Proof.
  destruct slot_root as [Hrs _]. intros [Hu|Hu]%elem_of_app [Hv|Hv]%elem_of_app Euv.
  - destruct (decide (root' u.2 = slot)) as [Es|Es].
    + eapply (transitivity (R := rtc _)); [by apply joins_window|]. apply connected_sym, joins_window; [done|congruence].
    + apply (connected_mono ws); [intros x Hx; apply elem_of_app; by left|]. apply (ns_connected _ _ _ _ Hns); [done|done|].
      destruct (old_window u Hu) as (Hul & _), (old_window v Hv) as (Hvl & _).
      rewrite Hr in Euv, Es by done. rewrite Hr in Euv by done. destruct (decide (root u.2 ∈ _)); [done|].
      destruct (decide (root v.2 ∈ _)); [by destruct Es|done].
  - apply list_elem_of_singleton in Hv as ->. apply joins_window; [done|]. cbn [snd] in Euv. congruence.
  - apply list_elem_of_singleton in Hu as ->. apply connected_sym, joins_window; [done|]. cbn [snd] in Euv. congruence.
  - apply list_elem_of_singleton in Hu as ->. apply list_elem_of_singleton in Hv as ->. done.
Qed.
End merged.

Lemma add_window : exists root' depth',
  namespaces {| intervals := before ++ joined :: after; parents := merged_parents hits p |} (ws ++ [(w, slot)]) root' depth'.
Proof.
  pose proof (ns_forest _ _ _ _ Hns) as Hf. cbn [intervals parents] in Hf. rewrite !length_app in Hf. destruct old_slots as (Hndk & Hndh & Hout).
  destruct (forest_merge p (length kept) root depth hits) as (root' & depth' & Hf' & Hlen & Hslot & Hr & Hkeep).
  { unfold kept. rewrite length_app. by replace (length hits + (length before + length after))%nat with (length before + (length hits + length after))%nat by lia. }
  { done. }
  { intros h Hh. apply (ns_roots _ _ _ _ Hns), old_cases. by right. }
  exists root', depth'. split; cbn [intervals parents].
  - rewrite length_app. cbn [length]. unfold kept in Hf'. rewrite length_app in Hf'.
    by replace (length before + S (length after))%nat with (S (length before + length after)) by lia.
  - apply joined_separated.
  - intros iv Hiv. rewrite elem_of_app, elem_of_cons in Hiv.
    assert (iv ∈ kept \/ iv = joined) as [Hk| ->] by (unfold kept; rewrite elem_of_app; tauto); [|done].
    apply Hkeep; [by apply Hout|]. apply (ns_roots _ _ _ _ Hns), old_cases. by left.
  - assert (map iv_slot (before ++ joined :: after) ≡ₚ slot :: map iv_slot kept) as -> by (by rewrite <- Permutation_middle).
    apply NoDup_cons. split; [|done]. intros (iv & E & Hiv)%list_elem_of_fmap. by apply (kept_slot iv Hiv).
  - by apply (joined_windows root' depth').
  - by apply (joined_points root' depth').
  - by apply (joined_connected root' depth').
Qed.
End add.

(** ** Arrivals *)

Definition live (watermark : Z) (a : Assignments) : Prop := forall iv, iv ∈ intervals a -> watermark < iv_end iv - 1.
Definition touched (w : Z * Z) (ws : list (Z * Z)) : bool := existsb (fun u => bool_decide (touches w u)) ws.
Lemma touched_true w (ws : list Window) : touched w (map fst ws) = true <-> exists u, u ∈ ws /\ touches w u.1.
Proof.
  unfold touched. rewrite existsb_exists. setoid_rewrite bool_decide_eq_true. setoid_rewrite <- list_elem_of_In. split.
  - intros (x & (u & -> & Hu)%list_elem_of_fmap & Ht). by exists u.
  - intros (u & Hu & Ht). exists u.1. split; [|done]. apply list_elem_of_fmap. by exists u.
Qed.

Section arrivals.
Context (ws : list Window) (root depth : nat -> nat) (w : Z * Z) (Hw : w.1 < w.2).

Lemma hits_touched before hits after p :
  namespaces {| intervals := before ++ hits ++ after; parents := p |} ws root depth -> around w before hits after ->
  touched w (map fst ws) = negb (bool_decide (hits = [])).
Proof.
  intros Hns Har. apply eq_iff_eq_true. rewrite touched_true, negb_true_iff, bool_decide_eq_false. split.
  - intros (u & Hu & Ht) ->. destruct (ns_window _ _ _ _ Hns u Hu) as (_ & Huw & iv & Hiv & _ & H1 & H2). destruct Ht as [H3 H4].
    cbn [intervals app] in Hiv. apply elem_of_app in Hiv as [Hiv|Hiv].
    + pose proof (ar_before _ _ _ _ Har iv Hiv). lia.
    + pose proof (ar_after _ _ _ _ Har iv Hiv). lia.
  - destruct hits as [|h hits]; [done|]. intros _. destruct (ar_hits _ _ _ _ Har h (list_elem_of_here _ _)) as [H1 H2]. cbn [bounds fst snd] in *.
    assert (h ∈ before ++ (h :: hits) ++ after) as Hh by (apply elem_of_app; right; left).
    assert (iv_start h < iv_end h) as Hl by (destruct (ns_separated _ _ _ _ Hns) as [_ Hf]; rewrite Forall_forall in Hf; by apply Hf).
    destruct (ns_cover _ _ _ _ Hns h (Z.max w.1 (iv_start h)) Hh) as (u & Hu & _ & Hux); [lia|].
    exists u. split; [done|]. unfold touches. lia.
Qed.

Lemma insert_joined before hits after p slot :
  namespaces {| intervals := before ++ hits ++ after; parents := p |} ws root depth -> around w before hits after ->
  forall q, insert_interval {| iv_start := (hull w hits).1; iv_end := (hull w hits).2; iv_slot := slot |} {| intervals := before ++ after; parents := q |} =
    (Ok tt, {| intervals := before ++ {| iv_start := (hull w hits).1; iv_end := (hull w hits).2; iv_slot := slot |} :: after; parents := q |}).
Proof.
  intros Hns Har q. unfold insert_interval, modS. cbn [intervals parents]. pose proof (joined_separated _ _ _ _ _ _ _ _ Hns Har Hw) as Hs.
  apply separated_app in Hs as (_ & Hs & Hb). apply separated_cons in Hs as (Hj & [_ Hf] & Ha). rewrite Forall_forall in Hf. cbn [iv_start iv_end] in *.
  rewrite put_app; [done|..]; intros x Hx; cbn [iv_end].
  - specialize (Hb x _ Hx (list_elem_of_here _ _)). cbn [iv_start] in Hb. lia.
  - specialize (Ha x Hx). specialize (Hf x Hx). lia.
Qed.

(** [existing] starts a namespace of its own. *)
Lemma existing_spec a :
  namespaces a ws root depth -> touched w (map fst ws) = false ->
  exists k b root' depth', existing w.1 w.2 a = (Ok k, b) /\ namespaces b (ws ++ [(w, k)]) root' depth' /\
    forall wm, live wm a -> wm < w.2 - 1 -> live wm b.
Proof.
  intros Hns Ht. destruct a as [l p]. destruct (split_around l w) as (before & hits & after & -> & Har); [apply Hns|].
  rewrite (hits_touched _ _ _ _ Hns Har) in Ht. apply negb_false_iff, bool_decide_eq_true in Ht as ->.
  destruct (add_window _ _ _ _ _ _ _ _ Hns Har Hw) as (root' & depth' & Hns').
  pose proof (insert_joined _ _ _ _ (length p) Hns Har (p ++ [length p])) as Hins. cbn [hull foldl app] in *.
  exists (length p), {| intervals := before ++ {| iv_start := w.1; iv_end := w.2; iv_slot := length p |} :: after; parents := p ++ [length p] |}, root', depth'.
  split; [|split; [done|]].
  - unfold existing. rewrite (M_bind_run _ getS _ _ _ eq_refl). cbn [intervals]. rewrite lower_bound_app by apply (ar_before _ _ _ _ Har).
    assert (match bt_lower_bound iv_end w.1 after with Some next => iv_start next <=? w.2 | None => false end = false) as ->.
    { destruct (bt_lower_bound iv_end w.1 after) as [o|] eqn:E; [|done]. apply bt_lower_bound_Some in E; try apply _. destruct E as (l1 & l2 & -> & _).
      apply Z.leb_gt, (ar_after _ _ _ _ Har), elem_of_app. right. left. }
    rewrite (proj2 (Z.leb_gt _ _)) by done. cbn [orb]. rewrite (M_bind_run _ (when false _) _ tt {| intervals := before ++ after; parents := p |}) by done.
    rewrite (M_bind_run _ push_slot _ _ _ eq_refl). cbn [intervals parents]. by rewrite (M_bind_run _ _ _ _ _ Hins).
  - intros wm Hlive Hwm iv. cbn [intervals]. intros [Hiv|[->|Hiv]%elem_of_cons]%elem_of_app; [|cbn; lia|]; apply Hlive; cbn [intervals]; apply elem_of_app; auto.
Qed.
End arrivals.

(** [assign]: the window joins the namespaces it touches, or is late. *)
Lemma assign_spec a ws root depth t gap wm :
  namespaces a ws root depth -> live wm a -> 0 < gap -> I64_MIN <= t -> t + gap <= I64_MAX ->
  let w := (t, t + gap) in
  if touched w (map fst ws) || (wm <? t + gap - 1)
  then exists k b root' depth', assign t gap wm a = (Ok (Some k), b) /\ namespaces b (ws ++ [(w, k)]) root' depth' /\ live wm b /\
    exists before hits after, intervals a = before ++ hits ++ after /\ around w before hits after /\
      map bounds (intervals b) = map bounds before ++ ((hull w hits).1, (hull w hits).2) :: map bounds after
  else assign t gap wm a = (Ok None, a) /\
    exists before after, intervals a = before ++ after /\ around w before [] after.
Proof.
  intros Hns Hlive Hg Ht1 Ht2 w. destruct a as [l p]. destruct (split_around l w) as (before & hits & after & -> & Har); [apply Hns|].
  assert (w.1 < w.2) as Hw by (cbn; lia). rewrite (hits_touched _ _ _ w Hw _ _ _ _ Hns Har).
  assert (slots_ok p hits) as Hslots.
  { apply Forall_forall. intros h Hh. eapply lookup_lt_Some, (ns_roots _ _ _ _ Hns). cbn [intervals]. rewrite !elem_of_app. auto. }
  pose proof (absorb_spec (S (length (before ++ hits ++ after))) w None before hits after p) as Habs.
  specialize (Habs ltac:(rewrite !length_app; lia) (ns_separated _ _ _ _ Hns) Har Hslots).
  assert (forall b, assign t gap wm {| intervals := before ++ hits ++ after; parents := p |} = b <->
    (if (hull w hits).2 - 1 <=? wm then match iv_slot <$> head hits with Some _ => throw (Execution "expired session remained in active state") | None => mret None end
     else slot ← match iv_slot <$> head hits with Some slot => mret slot | None => push_slot end;
       _ ← insert_interval {| iv_start := (hull w hits).1; iv_end := (hull w hits).2; iv_slot := slot |}; mret (Some slot))
    {| intervals := before ++ after; parents := after_absorb None hits p |} = b) as Hrun.
  { intros b. unfold assign, i64_checked_add. rewrite (proj2 (Z.leb_le _ _)), (proj2 (Z.leb_le _ _)) by (unfold w in *; lia). cbn [andb].
    rewrite (M_bind_run _ (lift _) _ (t + gap) {| intervals := before ++ hits ++ after; parents := p |})
      by (cbn; by rewrite (proj2 (Z.ltb_lt _ _)) by lia).
    rewrite (M_bind_run _ getS _ _ _ eq_refl), (M_bind_run _ _ _ _ _ Habs). done. }
  destruct (hull_bounds w hits) as (_ & Hh2 & Hh3). cbn [fst snd] in Hh2. destruct (add_window _ _ _ _ _ _ _ _ Hns Har Hw) as (root' & depth' & Hns').
  pose proof (insert_joined ws root depth w Hw before hits after p) as Hins.
  destruct hits as [|h hs].
  - specialize (Hins (length p) Hns Har (p ++ [length p])). rewrite bool_decide_eq_true_2 by done. cbn [negb orb]. change (hull w []) with w in *. cbn [head fmap option_fmap option_map after_absorb app] in *. unfold w in *. cbn [fst snd] in *.
    destruct (Z.ltb_spec wm (t + gap - 1)) as [Hwm|Hwm]; [|split; [apply Hrun; by rewrite (proj2 (Z.leb_le _ _)) by lia|by exists before, after]].
    eexists (length p), _, root', depth'. split; [apply Hrun; rewrite (proj2 (Z.leb_gt _ _)) by lia|].
    + rewrite (M_bind_run _ push_slot _ _ _ eq_refl). cbn [intervals parents].
      rewrite (M_bind_run _ _ _ _ _ Hins). done.
    + split; [exact Hns'|]. split; [|exists before, [], after; split_and!; [done|done|cbn [intervals]; by rewrite map_app]]. intros iv. cbn [intervals].
      intros [Hiv|[->|Hiv]%elem_of_cons]%elem_of_app; [|cbn; lia|]; apply Hlive; cbn [intervals]; apply elem_of_app; auto.
  - rewrite bool_decide_eq_false_2 by done. cbn [negb orb].
    assert (wm < iv_end h - 1) as Hh by (apply Hlive; cbn [intervals]; apply elem_of_app; right; left).
    pose proof (Hh3 h (list_elem_of_here _ _)) as [_ Hhe].
    eexists (iv_slot h), _, root', depth'. split; [apply Hrun; rewrite (proj2 (Z.leb_gt _ _)) by lia|].
    + cbn [head fmap option_fmap option_map after_absorb]. rewrite (M_bind_run _ (mret _) _ _ _ eq_refl).
      rewrite (M_bind_run _ _ _ _ _ (Hins (iv_slot h) Hns Har (link_all (iv_slot h) hs p))). done.
    + split; [exact Hns'|]. split; [|exists before, (h :: hs), after; split_and!; [done|done|cbn [intervals]; by rewrite map_app]]. intros iv. cbn [intervals].
      intros [Hiv|[->|Hiv]%elem_of_cons]%elem_of_app; [|cbn [iv_end]; lia|]; apply Hlive; cbn [intervals]; rewrite !elem_of_app; auto.
Qed.

(** The arrivals a batch keeps: those that touch a window, or whose window is
    still open at the watermark. *)
Fixpoint accepted (gap wm : Z) (ws : list (Z * Z)) (ts : list Z) : list bool :=
  match ts with
  | [] => []
  | t :: ts =>
      let w := (t, t + gap) in
      let ok := touched w ws || (wm <? t + gap - 1) in
      ok :: accepted gap wm (if ok then ws ++ [w] else ws) ts
  end.
(** The windows of the rows that were given a slot. *)
Definition arrivals (gap : Z) (ts : list Z) (rows : list (option nat)) : list Window :=
  omap (fun '(t, r) => pair (t, t + gap) <$> r) (zip ts rows).

Lemma existing_all l a ws root depth :
  namespaces a ws root depth -> Forall (fun w => w.1 < w.2) l -> StronglySorted (fun u v => ~ touches v u) (map fst ws ++ l) ->
  exists ks b root' depth', collectM (fun w => existing w.1 w.2) l a = (Ok ks, b) /\ length ks = length l /\
    namespaces b (ws ++ zip l ks) root' depth' /\ forall wm, live wm a -> Forall (fun w => wm < w.2 - 1) l -> live wm b.
Proof.
  revert a ws root depth. induction l as [|w l IH]; intros a ws root depth Hns Hl Hs.
  { exists [], a, root, depth. cbn [zip zip_with]. rewrite app_nil_r. by split_and!. }
  apply Forall_cons in Hl as [Hw Hl]. cbn [collectM].
  assert (touched w (map fst ws) = false) as Ht.
  { apply not_true_iff_false. unfold touched. rewrite existsb_exists. intros (u & Hu%list_elem_of_In & Ht%bool_decide_eq_true).
    by apply (StronglySorted_app_1_elem_of _ _ _ u w Hs Hu (list_elem_of_here _ _)). }
  destruct (existing_spec ws root depth w Hw a Hns Ht) as (k & b & root1 & depth1 & E & Hns1 & Hlive1).
  destruct (IH b _ root1 depth1 Hns1 Hl) as (ks & c & root2 & depth2 & E2 & Hlen & Hns2 & Hlive2).
  { rewrite map_app, <- app_assoc. exact Hs. }
  exists (k :: ks), c, root2, depth2. rewrite (M_bind_run _ _ _ _ _ E), (M_bind_run _ _ _ _ _ E2). split; [done|]. split; [cbn; lia|].
  split; [by rewrite <- app_assoc in Hns2|]. intros wm Hlive [Hwm Hlw]%Forall_cons. by apply Hlive2, Hlw; apply Hlive1.
Qed.
Lemma assign_all gap wm ts a ws root depth :
  namespaces a ws root depth -> live wm a -> 0 < gap -> Forall (fun t => I64_MIN <= t /\ t + gap <= I64_MAX) ts ->
  exists rows b root' depth', collectM (fun t => assign t gap wm) ts a = (Ok rows, b) /\
    map (fun r => bool_decide (is_Some r)) rows = accepted gap wm (map fst ws) ts /\ namespaces b (ws ++ arrivals gap ts rows) root' depth'.
Proof.
  intros Hns Hlive Hg Hts. revert a ws root depth Hns Hlive. induction Hts as [|t ts [Ht1 Ht2] _ IH]; intros a ws root depth Hns Hlive.
  { exists [], a, root, depth. unfold arrivals. cbn. by rewrite app_nil_r. }
  pose proof (assign_spec a ws root depth t gap wm Hns Hlive Hg Ht1 Ht2) as Ha. cbn [collectM accepted]. cbn zeta in *.
  destruct (touched (t, t + gap) (map fst ws) || (wm <? t + gap - 1)).
  - destruct Ha as (k & b & root1 & depth1 & E & Hns1 & Hlive1 & _). destruct (IH b _ root1 depth1 Hns1 Hlive1) as (rows & c & root2 & depth2 & E2 & Hr & Hns2).
    exists (Some k :: rows), c, root2, depth2. rewrite (M_bind_run _ _ _ _ _ E), (M_bind_run _ _ _ _ _ E2). split; [done|].
    rewrite map_app in Hr. split; [cbn [map]; by rewrite Hr|]. by rewrite <- app_assoc in Hns2.
  - destruct Ha as [Ha _]. destruct (IH a ws root depth Hns Hlive) as (rows & c & root2 & depth2 & E2 & Hr & Hns2).
    exists (None :: rows), c, root2, depth2. rewrite (M_bind_run _ _ _ _ _ Ha), (M_bind_run _ _ _ _ _ E2). split; [done|].
    split; [cbn [map]; by rewrite Hr|done].
Qed.
Lemma resolve_all qs a ws root depth :
  namespaces a ws root depth -> (forall u, u ∈ qs -> u ∈ ws) ->
  exists b, collectM (fun u => resolve u.2) qs a = (Ok (map (fun u => root u.2) qs), b) /\ intervals b = intervals a.
Proof.
  revert a. induction qs as [|u qs IH]; intros a Hns Hq; [by exists a|]. cbn [collectM].
  assert (u.2 < length (parents a))%nat as Hu by (apply (ns_window _ _ _ _ Hns), Hq; left).
  destruct (resolve_spec a ws root depth Hns u.2 Hu) as (b & E & Ei & Hns1).
  destruct (IH b Hns1) as (c & E2 & Ei2); [intros v Hv; apply Hq; by right|]. exists c.
  rewrite (M_bind_run _ _ _ _ _ E), (M_bind_run _ _ _ _ _ E2). split; [done|congruence].
Qed.

(** C25: whatever the persisted sessions (disjoint and still open) and the order
    of the arrivals, recording the sessions and assigning the arrivals never
    fails; an arrival is dropped exactly when it touches no window kept so far
    and its own window has expired; every slot resolves, in any order and any
    number of times; two windows resolve to one namespace exactly when a chain of
    touching windows joins them; and the interval of a namespace is exactly the
    union of its windows. *)
Theorem session_namespaces (stored : list (Z * Z)) (gap wm : Z) (ts : list Z) :
  Forall (fun w => w.1 < w.2) stored -> Forall (fun w => wm < w.2 - 1) stored -> StronglySorted (fun u v => ~ touches v u) stored ->
  0 < gap -> Forall (fun t => I64_MIN <= t /\ t + gap <= I64_MAX) ts ->
  exists ks rows a b, collectM (fun w => existing w.1 w.2) stored no_assignments = (Ok ks, a) /\
    collectM (fun t => assign t gap wm) ts a = (Ok rows, b) /\
    map (fun r => bool_decide (is_Some r)) rows = accepted gap wm stored ts /\
    let ws := zip stored ks ++ arrivals gap ts rows in
    forall qs, (forall u, u ∈ qs -> u ∈ ws) ->
    exists rs c, collectM (fun u => resolve u.2) qs b = (Ok rs, c) /\ intervals c = intervals b /\ length rs = length qs /\
      (forall u v r r', (u, r) ∈ zip qs rs -> (v, r') ∈ zip qs rs -> r = r' <-> connected ws u v) /\
      (forall u r, (u, r) ∈ zip qs rs -> exists iv, iv ∈ intervals b /\ iv_slot iv = r /\
         forall x, iv_start iv <= x <= iv_end iv <-> exists v, v ∈ ws /\ connected ws u v /\ v.1.1 <= x <= v.1.2).
Proof.
  intros Hl Hopen Hs Hg Hts.
  destruct (existing_all stored no_assignments [] _ _ no_namespaces Hl Hs) as (ks & a & root1 & depth1 & E1 & Hlen & Hns1 & Hlive).
  assert (live wm a) as Hlive1 by (apply Hlive; [by intros ? ?%not_elem_of_nil|done]).
  destruct (assign_all gap wm ts a _ root1 depth1 Hns1 Hlive1 Hg Hts) as (rows & b & root & depth & E2 & Hr & Hns).
  exists ks, rows, a, b. split; [done|]. split; [done|]. cbn [app] in *.
  rewrite fst_zip in Hr by lia. split; [done|]. cbn zeta. intros qs Hq.
  destruct (resolve_all qs b _ root depth Hns Hq) as (c & E3 & Ei). exists (map (fun u => root u.2) qs), c.
  split; [done|]. split; [done|]. split; [by rewrite length_map|].
  assert (forall u r, (u, r) ∈ zip qs (map (fun u => root u.2) qs) -> u ∈ zip stored ks ++ arrivals gap ts rows /\ r = root u.2) as Hzip.
  { intros u r Hu. split; [apply Hq; by apply elem_of_zip_l in Hu|]. clear -Hu. induction qs as [|q qs IH]; [by apply not_elem_of_nil in Hu|].
    cbn in Hu. apply elem_of_cons in Hu as [[= -> ->]|Hu]; [done|by apply IH]. }
  split.
  - intros u v r r' [Hu ->]%Hzip [Hv ->]%Hzip. by apply (same_root_connected b _ root depth).
  - intros u r [Hu ->]%Hzip. destruct (ns_window _ _ _ _ Hns u Hu) as (_ & _ & iv & Hiv & Ei' & _). exists iv. split; [done|]. split; [done|].
    intros x. split.
    + intros Hx. destruct (ns_cover _ _ _ _ Hns iv x Hiv Hx) as (v & Hv & Ev & Hvx). exists v. split; [done|]. split; [|done].
      apply (same_root_connected b _ root depth); [done..|congruence].
    + intros (v & Hv & Hc & Hvx). apply (same_root_connected b _ root depth) in Hc; [|done..].
      destruct (ns_window _ _ _ _ Hns v Hv) as (_ & Hvw & jv & Hjv & Ej & Hj1 & Hj2).
      assert (jv = iv) as ->; [|lia]. apply (slot_unique (intervals b)); [apply Hns|done|done|congruence].
Qed.
