(* ===== verification/SessionChangesSpec.v ===== *)
(** * Sessions with aggregates keep their events

    [apply_session_changes] keeps sessions apart, each with the aggregates of the
    events it holds; the events it holds are the accumulated ones that were not
    late, less the retracted ones. *)

From Stdlib Require Import ZArith Lia Strings.Byte.
From stdpp Require Import base list option numbers strings sorting relations.
From S2P Require Import Prelude Bytes OrdMap Arrow Decimal Aggregate AggregateSpec AggregateRuns AggregateMerge AggregateChanges Sessions SessionsSpec.

(** ** The loop over overlapping sessions *)

Definition span (s : ActiveSession) : Z * Z := (start s, end_ s).
Definition span_iv (s : ActiveSession) : Interval := {| iv_start := start s; iv_end := end_ s; iv_slot := 0%nat |}.
Definition session_hull (w : Z * Z) (hits : list ActiveSession) : Z * Z := hull w (map span_iv hits).
Definition apart (l : list ActiveSession) : Prop :=
  StronglySorted (fun s t => ~ touches (span s) (span t)) l /\ Forall (fun s => start s <= end_ s) l.
Definition hit (w : Z * Z) (s : ActiveSession) : Prop := touches w (span s).

#[global] Instance hit_dec w s : Decision (hit w s).
Proof. unfold hit. apply _. Defined.

Lemma filter_no_elem {A} (P : A -> Prop) `{!forall x, Decision (P x)} (l : list A) : Forall (fun x => ~ P x) l -> filter P l = [].
Proof. intros Hl. apply filter_none. by apply Forall_forall. Qed.
Lemma filter_every {A} (P : A -> Prop) `{!forall x, Decision (P x)} (l : list A) : Forall P l -> filter P l = l.
Proof. intros Hl. apply filter_all. by apply Forall_forall. Qed.
Lemma filter_cong {A} (P Q : A -> Prop) `{!forall x, Decision (P x)} `{!forall x, Decision (Q x)} (l : list A) :
  (forall x, x ∈ l -> P x <-> Q x) -> filter P l = filter Q l.
Proof.
  induction l as [|x l IH]; intros Hx; [done|]. rewrite !filter_cons, IH by (intros y Hy; apply Hx; by right).
  pose proof (Hx x (list_elem_of_here _ _)). destruct (decide (P x)), (decide (Q x)); tauto.
Qed.
Lemma Forall_kept {A} (P Q : A -> Prop) `{!forall x, Decision (Q x)} (l : list A) : Forall P l -> Forall P (filter Q l).
Proof. rewrite !Forall_forall. intros Hl x [_ Hx]%list_elem_of_filter. by apply Hl. Qed.
Lemma remove_first_Some {A} (p : A -> bool) l x k :
  remove_first p l = Some (x, k) -> exists l1 l2, l = l1 ++ x :: l2 /\ k = l1 ++ l2 /\ p x = true /\ Forall (fun y => p y = false) l1.
Proof.
  revert x k. induction l as [|y l IH]; intros x k; cbn [remove_first]; [done|]. destruct (p y) eqn:E.
  - intros [= <- <-]. exists [], l. by split_and!.
  - destruct (remove_first p l) as [[z m]|]; [|done]. intros [= <- <-]. destruct (IH z m eq_refl) as (l1 & l2 & -> & -> & Hp & Hf).
    exists (y :: l1), l2. split_and!; [done|done|done|by constructor].
Qed.
Lemma remove_first_None {A} (p : A -> bool) l : remove_first p l = None -> Forall (fun y => p y = false) l.
Proof.
  induction l as [|y l IH]; cbn [remove_first]; [constructor|]. destruct (p y) eqn:E; [done|].
  destruct (remove_first p l) as [[z m]|]; [done|]. intros _. constructor; auto.
Qed.

Lemma apart_cons s l : apart (s :: l) <-> start s <= end_ s /\ (forall t, t ∈ l -> ~ touches (span s) (span t)) /\ apart l.
Proof. unfold apart. rewrite StronglySorted_cons, Forall_cons, Forall_forall. tauto. Qed.
Lemma apart_perm l k : l ≡ₚ k -> apart l -> apart k.
Proof.
  induction 1 as [|x l k E IH|x y l|l k m _ IH1 _ IH2]; [done| | |by eauto].
  - rewrite !apart_cons. intros (H1 & H2 & H3). split_and!; [done| |by apply IH]. intros t Ht. apply H2. by rewrite E.
  - rewrite !apart_cons. intros (H1 & H2 & H3 & H4 & H5). split_and!; [done| |done| |done].
    + intros t [->|Ht]%elem_of_cons; [|by apply H4]. intros Ht%touches_sym. apply (H2 x); [left|done].
    + intros t Ht. apply H2. by right.
Qed.
#[global] Instance apart_proper : Proper ((≡ₚ) ==> iff) apart.
Proof. intros l k E. split; by apply apart_perm. Qed.
Lemma apart_sublist l k : (exists m, l ≡ₚ k ++ m) -> apart l -> apart k.
Proof.
  intros [m E] Hl. apply (apart_perm _ _ E) in Hl. clear E. induction k as [|x k IH]; [split; constructor|].
  cbn [app] in Hl. rewrite apart_cons in *. destruct Hl as (H1 & H2 & H3). split_and!; [done| |by apply IH]. intros t Ht. apply H2, elem_of_app. by left.
Qed.

(** Joining one session does not reach another. *)
Lemma hit_step w s t :
  w.1 <= w.2 -> start s <= end_ s -> start t <= end_ t -> hit w s -> ~ touches (span s) (span t) ->
  hit (Z.min w.1 (start s), Z.max w.2 (end_ s)) t <-> hit w t.
Proof. unfold hit, touches, span. cbn [fst snd]. lia. Qed.

Lemma merge_overlapping_spec fuel w merged sessions :
  (length (filter (hit w) sessions) < fuel)%nat -> w.1 <= w.2 -> apart sessions ->
  merge_overlapping fuel w.1 w.2 merged sessions =
    Ok ((session_hull w (filter (hit w) sessions)).1, (session_hull w (filter (hit w) sessions)).2,
        merged ++ filter (hit w) sessions, filter (fun s => ~ hit w s) sessions).
Proof.
  revert w merged sessions. induction fuel as [|fuel IH]; intros w merged sessions Hf Hw Ha; [lia|]. cbn [merge_overlapping].
  assert (forall s, (start s <=? w.2) && (w.1 <=? end_ s) = bool_decide (hit w s)) as Hb.
  { intros s. apply eq_iff_eq_true. rewrite bool_decide_eq_true, andb_true_iff, !Z.leb_le. unfold hit, touches, span. cbn. lia. }
  destruct (remove_first _ sessions) as [[s rest]|] eqn:E.
  - apply remove_first_Some in E as (l1 & l2 & -> & -> & Hs & Hl1). rewrite Hb in Hs. apply bool_decide_eq_true in Hs.
    assert (Forall (fun y => ~ hit w y) l1) as Hn1 by (eapply Forall_impl; [exact Hl1|]; cbn; intros y; rewrite Hb; by intros ?%bool_decide_eq_false).
    assert (filter (hit w) l1 = []) as F1 by (by apply filter_no_elem). pose proof Ha as Ha'.
    apply (apart_perm _ (s :: l1 ++ l2)) in Ha'; [|by rewrite Permutation_middle]. apply apart_cons in Ha' as (Hse & Hst & Har).
    set (w' := (Z.min w.1 (start s), Z.max w.2 (end_ s))).
    assert (forall t, t ∈ l1 ++ l2 -> hit w' t <-> hit w t) as Hiff.
    { intros t Ht. apply hit_step; [done|done| |done|by apply Hst]. destruct Har as [_ Hok]. rewrite Forall_forall in Hok. by apply Hok. }
    assert (filter (hit w') (l1 ++ l2) = filter (hit w) l2) as F2.
    { rewrite (filter_cong _ (hit w)) by (intros t Ht; by apply Hiff). rewrite filter_app, F1. done. }
    assert (filter (fun t => ~ hit w' t) (l1 ++ l2) = filter (fun t => ~ hit w t) (l1 ++ s :: l2)) as F3.
    { rewrite (filter_cong _ (fun t => ~ hit w t)) by (intros t Ht; by rewrite Hiff). rewrite !filter_app, filter_cons, decide_False by tauto. done. }
    assert (filter (hit w) (l1 ++ s :: l2) = s :: filter (hit w) l2) as F4 by (rewrite filter_app, F1, filter_cons_True by done; done).
    rewrite F4 in *. rewrite (IH w'); rewrite ?F2, ?F3; [by rewrite <- app_assoc|cbn [length] in Hf; lia|unfold w'; cbn; lia|done].
  - apply remove_first_None in E. assert (Forall (fun y => ~ hit w y) sessions) as Hn
      by (eapply Forall_impl; [exact E|]; cbn; intros y; rewrite Hb; by intros ?%bool_decide_eq_false).
    rewrite filter_no_elem, app_nil_r, filter_every by done. done.
Qed.

(** ** Events and sessions *)

Lemma insert_event_perm e l : insert_event e l ≡ₚ e :: l.
Proof.
  induction l as [|x l IH]; [done|]. cbn [insert_event]. destruct (timestamp e <=? timestamp x); [done|]. rewrite IH. constructor.
Qed.
Lemma sort_events_perm l : sort_events l ≡ₚ l.
Proof. induction l as [|x l IH]; [done|]. cbn [sort_events foldr]. fold (sort_events l). by rewrite insert_event_perm, IH. Qed.

Definition event_row (e : SessionEvent) : GroupRow := map (fun v => (v, true)) (values e).
Definition held (l : list ActiveSession) : list SessionEvent := flat_map events l.
#[global] Instance held_perm : Proper ((≡ₚ) ==> (≡ₚ)) held.
Proof. intros l k E. unfold held. by rewrite E. Qed.
Lemma held_app l k : held (l ++ k) = held l ++ held k.
Proof. apply flat_map_app. Qed.
Lemma elem_of_held e l : e ∈ held l <-> exists s, s ∈ l /\ e ∈ events s.
Proof. unfold held. rewrite list_elem_of_In, in_flat_map. setoid_rewrite list_elem_of_In. done. Qed.

Section sessions.
Context (gap : Z) (calls : list Call) (late : Z -> bool).
Context (Hcalls : Forall call_ok calls) (Hgap : 0 < gap).
(** A window that ends later is not late before one that ends earlier. *)
Context (Hmono : forall x y, x <= y -> late y = true -> late x = true).

Definition event_ok (e : SessionEvent) : Prop :=
  group_row_ok calls (event_row e) /\ I64_MIN <= timestamp e /\ timestamp e + gap <= I64_MAX.
Record session_ok (s : ActiveSession) : Prop := {
  so_rows : group_state calls (accumulator s) (map event_row (events s));
  so_valid : Forall event_ok (events s);
  so_within : Forall (fun e => start s <= timestamp e /\ timestamp e + gap <= end_ s) (events s);
  so_some : events s <> [];
  so_live : late (end_ s) = false;
}.
Definition sessions_ok (l : list ActiveSession) : Prop := apart l /\ Forall session_ok l.

Lemma apply_values_row e accumulate : event_ok e -> apply_values calls (values e) accumulate = apply_change calls (accumulate, event_row e).
Proof.
  intros [[Hl _] _]. unfold apply_values, apply_change, event_row in *. cbn [fst snd] in *. rewrite length_map in Hl.
  rewrite !map_map. cbn [fst snd]. rewrite map_id, <- Hl. f_equal. clear. by induction (values e) as [|v l IH]; cbn; [|rewrite <- IH].
Qed.
Lemma valid_rows l : Forall event_ok l -> Forall (group_row_ok calls) (map event_row l).
Proof. intros Hl. apply Forall_fmap. eapply Forall_impl; [exact Hl|]. by intros e [He _]. Qed.
Lemma window_sat e : event_ok e -> i64_sat (timestamp e + gap) = timestamp e + gap.
Proof. intros (_ & H1 & H2). unfold i64_sat. unfold_bounds. lia. Qed.

Lemma merge_sessions merged acc rows :
  Forall session_ok merged -> group_state calls acc rows -> Forall (group_row_ok calls) rows -> len rows + len (held merged) <= I64_MAX ->
  exists acc' rows', forM merged (fun s => merge_state calls (accumulator s)) acc = (Ok tt, acc') /\ group_state calls acc' rows' /\
    rows' ≡ₚ map event_row (held merged) ++ rows.
Proof.
  intros Hm. revert acc rows. induction Hm as [|s merged Hs _ IH]; intros acc rows Hacc Hrows Hlen; [by exists acc, rows|].
  change (held (s :: merged)) with (events s ++ held merged) in *. rewrite len_app in Hlen. pose proof (len_nonneg (held merged)).
  assert (len (map event_row (events s)) = len (events s)) as El by (unfold len; by rewrite length_map).
  destruct (merge_state_spec calls Hcalls acc (accumulator s) rows (map event_row (events s)) Hacc (so_rows s Hs) Hrows) as (acc1 & E1 & Hacc1).
  { apply valid_rows, Hs. }
  { lia. }
  destruct (IH acc1 _ Hacc1) as (acc2 & rows2 & E2 & Hacc2 & Hp).
  { apply Forall_app. split; [apply valid_rows, Hs|done]. }
  { rewrite len_app. lia. }
  exists acc2, rows2. cbn [forM]. rewrite (M_bind_run _ _ _ _ _ E1). split_and!; [done|done|].
  rewrite Hp, map_app. solve_Permutation.
Qed.

Definition window (e : SessionEvent) : Z * Z := (timestamp e, timestamp e + gap).
Definition dropped_now (e : SessionEvent) (l : list ActiveSession) : bool :=
  bool_decide (filter (hit (window e)) l = []) && late (timestamp e + gap).

Lemma hull_apart w l : w.1 <= w.2 -> apart l ->
  forall t, t ∈ filter (fun s => ~ hit w s) l -> ~ touches (session_hull w (filter (hit w) l)) (span t).
Proof.
  intros Hw Hl t [Hn Ht]%list_elem_of_filter [H1 H2]. cbn [span fst snd] in *.
  assert (forall h, h ∈ l -> start h <= end_ h) as Hle by (destruct Hl as [_ Hf]; by rewrite Forall_forall in Hf).
  destruct (hull_bounds w (map span_iv (filter (hit w) l))) as (Hb1 & Hb2 & _). fold (session_hull w (filter (hit w) l)) in *. specialize (Hle t Ht) as Htt.
  destruct (hull_cover w (map span_iv (filter (hit w) l)) (Z.max (session_hull w (filter (hit w) l)).1 (start t))) as [Hx|(i & (h & -> & [Hh Hhl]%list_elem_of_filter)%list_elem_of_fmap & Hx)].
  - intros i (h & -> & [Hh _]%list_elem_of_filter)%list_elem_of_fmap. exact Hh.
  - unfold session_hull in *. lia.
  - apply Hn. unfold hit, touches, span. cbn. lia.
  - cbn [span_iv iv_start iv_end] in Hx. assert (h <> t) as Hne by (intros ->; done).
    assert (touches (span h) (span t)) as Htch by (unfold touches, span; cbn; lia). clear -Hl Hhl Ht Hne Htch.
    induction l as [|y l IH]; [by apply not_elem_of_nil in Ht|]. apply apart_cons in Hl as (_ & Hy & Hl).
    apply elem_of_cons in Hhl as [->|Hhl]; apply elem_of_cons in Ht as [->|Ht]; [done|by apply (Hy t)| |by apply IH].
    by apply (Hy h), touches_sym.
Qed.

Let is_late := fun e => Ok (late e).

Lemma held_split w l : held l ≡ₚ held (filter (hit w) l) ++ held (filter (fun s => ~ hit w s) l).
Proof. rewrite <- held_app. apply held_perm. symmetry. apply (filter_app_complement (hit w)).  Qed.

Section joining.
Context (e : SessionEvent) (l : list ActiveSession) (Hl : sessions_ok l) (He : event_ok e) (Hlen : len (held l) < I64_MAX).
Let w := window e.
Let hits := filter (hit w) l.
Let rest := filter (fun s => ~ hit w s) l.

Lemma parts_ok : Forall session_ok hits /\ Forall session_ok rest /\ Forall event_ok (held hits) /\ len (held hits) + len (held rest) = len (held l).
Proof.
  destruct Hl as [_ Hs]. assert (Forall session_ok hits) as Hhits by (by apply Forall_kept). split_and!; [done|by apply Forall_kept| |].
  - apply Forall_forall. intros x (s & Hss & Hx)%elem_of_held. rewrite Forall_forall in Hhits. pose proof (so_valid s (Hhits s Hss)) as Hv. rewrite Forall_forall in Hv. by apply Hv.
  - pose proof (perm_len' _ _ (held_split w l)) as E. by rewrite len_app in E.
Qed.
Lemma joins_bounds : (session_hull w hits).1 <= timestamp e /\ timestamp e + gap <= (session_hull w hits).2 /\
  forall s, s ∈ hits -> (session_hull w hits).1 <= start s /\ end_ s <= (session_hull w hits).2.
Proof.
  destruct (hull_bounds w (map span_iv hits)) as (H1 & H2 & H3). split_and!; [done|done|]. intros s Hs.
  apply (H3 (span_iv s)), list_elem_of_fmap. by exists s.
Qed.
(** A session that is touched is live, and so is what it joins. *)
Lemma joins_late : late (session_hull w hits).2 = dropped_now e l.
Proof.
  destruct parts_ok as [Hhits _]. destruct joins_bounds as (_ & _ & Hb). unfold dropped_now. fold w. fold hits.
  destruct hits as [|h hs] eqn:Eh; [done|]. rewrite bool_decide_eq_false_2 by done. cbn [andb].
  apply Forall_cons in Hhits as [Hh _]. destruct (late _) eqn:El; [|done]. destruct (Hb h) as [_ Hle]; [left|].
  apply (Hmono _ _ Hle) in El. pose proof (so_live h Hh). congruence.
Qed.
Lemma dropped_rest : dropped_now e l = true -> rest = l.
Proof.
  intros Hd. unfold dropped_now in Hd. apply andb_true_iff in Hd as [Hn%bool_decide_eq_true _].
  apply filter_every, Forall_forall. intros s Hs Hh. eapply filter_nil_not_elem_of; [exact Hn|exact Hh|done].
Qed.

Lemma joined_ok acc new :
  group_state calls acc (event_row e :: map event_row (held hits)) -> dropped_now e l = false ->
  new = {| start := (session_hull w hits).1; end_ := (session_hull w hits).2; accumulator := acc; events := sort_events (flat_map events hits ++ [e]) |} ->
  sessions_ok (rest ++ [new]) /\ held (rest ++ [new]) ≡ₚ e :: held l.
Proof.
  intros Hacc Hd ->. destruct parts_ok as (Hhits & Hrest & Hev & _). destruct joins_bounds as (Hb1 & Hb2 & Hb3).
  assert (sort_events (flat_map events hits ++ [e]) ≡ₚ e :: held hits) as Hn by (rewrite sort_events_perm; unfold held; solve_Permutation).
  split; [split|].
  - rewrite Permutation_app_comm. apply apart_cons. cbn [start end_]. split_and!; [lia| |].
    + intros t Ht. unfold span at 1. cbn [start end_]. rewrite <- surjective_pairing. apply (hull_apart w l); [cbn; lia|apply Hl|done].
    + apply (apart_sublist l); [|apply Hl]. exists hits. unfold rest, hits. rewrite <- (filter_app_complement (hit w) l) at 1. solve_Permutation.
  - apply Forall_app. split; [done|]. apply Forall_singleton. split; cbn [accumulator events start end_].
    + eapply group_state_perm; [|exact Hacc]. by rewrite Hn.
    + rewrite Hn. by constructor.
    + rewrite Hn. constructor; [lia|]. apply Forall_forall. intros x (s & Hs & Hx)%elem_of_held.
      rewrite Forall_forall in Hhits. pose proof (so_within s (Hhits s Hs)) as Hwi. rewrite Forall_forall in Hwi. specialize (Hwi x Hx).
      specialize (Hb3 s Hs). lia.
    + intros E. rewrite E in Hn. by apply Permutation_nil_cons in Hn.
    + by rewrite joins_late.
  - rewrite held_app, (held_split w l). fold hits rest. unfold held at 2. cbn [flat_map events]. rewrite app_nil_r, Hn. solve_Permutation.
Qed.

(** An accumulated event joins the sessions its window touches. *)
Lemma accumulate_spec :
  exists l', accumulate_event gap calls true is_late e l = (Ok (dropped_now e l), l') /\ sessions_ok l' /\
    if dropped_now e l then l' = l
    else held l' ≡ₚ e :: held l /\ exists new, l' = rest ++ [new] /\ span new = session_hull w hits /\ events new ≡ₚ e :: held hits.
Proof.
  destruct parts_ok as (Hhits & _ & Hev & Hls). pose proof (len_nonneg (held rest)).
  unfold accumulate_event. rewrite (M_bind_run _ getS _ _ _ eq_refl), window_sat by done.
  rewrite (M_bind_run _ (lift _) _ ((session_hull w hits).1, (session_hull w hits).2, hits, rest) l).
  2: { unfold lift. change (timestamp e) with w.1. change (w.1 + gap) with w.2. rewrite merge_overlapping_spec; [done| |cbn; lia|apply Hl].
    pose proof (length_filter (hit w) l). lia. }
  rewrite (M_bind_run _ (putS rest) _ tt rest) by done. rewrite (M_bind_run _ (lift _) _ (dropped_now e l) rest) by (unfold is_late; by rewrite joins_late).
  destruct (dropped_now e l) eqn:Edrop; [exists rest; by rewrite (dropped_rest Edrop)|].
  destruct (new_group calls Hcalls) as (fresh & Ef & Hfresh). rewrite Ef, (M_bind_run _ (lift (Ok fresh)) _ fresh rest) by done.
  destruct (merge_sessions hits fresh [] Hhits Hfresh) as (acc & rows & Em & Hacc & Hrows); [constructor|rewrite len_nil; lia|].
  rewrite Em, (M_bind_run _ (lift (Ok tt)) _ tt rest) by done. rewrite app_nil_r in Hrows. apply (group_state_perm _ _ _ _ Hrows) in Hacc.
  rewrite (apply_values_row e true He). assert (len (map event_row (held hits)) = len (held hits)) as El by (unfold len; by rewrite length_map).
  destruct (apply_change_spec calls Hcalls (true, event_row e) acc (map event_row (held hits)) (event_row e :: map event_row (held hits))) as (acc' & Ea & Hacc');
    [split; [apply He|done]|done|by apply valid_rows|done|rewrite len_cons; lia|].
  rewrite Ea, (M_bind_run _ (lift (Ok tt)) _ tt rest) by done.
  destruct (joined_ok acc' _ Hacc' Edrop eq_refl) as [Hok Hheld]. eexists. split; [done|]. split; [exact Hok|]. split; [exact Hheld|].
  eexists. split; [done|]. split; [unfold span; cbn; by destruct (session_hull w hits)|]. cbn [events]. rewrite sort_events_perm. unfold held. solve_Permutation.
Qed.
End joining.

(** *** Retractions *)

Lemma find_event_Some e before l b s rest after :
  find_event e before l = Some (b, s, rest, after) -> e ∉ held before -> before ++ l = b ++ s :: after /\ events s ≡ₚ e :: rest /\ e ∉ held b.
Proof.
  revert before. induction l as [|x l IH]; intros before; cbn [find_event]; [done|].
  destruct (remove_first _ (events x)) as [[y k]|] eqn:E.
  - intros [= <- <- <- <-] Hn. split; [done|]. split; [|done]. apply remove_first_Some in E as (l1 & l2 & -> & -> & Hy & _).
    apply bool_decide_eq_true in Hy as ->. by rewrite Permutation_middle.
  - intros Hf Hn. destruct (IH _ Hf) as (E' & Hp & Hb); [|by rewrite <- app_assoc in E'].
    apply remove_first_None in E. rewrite Forall_forall in E. rewrite held_app, elem_of_app. intros [?|Hx]; [done|].
    unfold held in Hx. cbn [flat_map] in Hx. rewrite app_nil_r in Hx. specialize (E e Hx). by apply bool_decide_eq_false in E.
Qed.
Lemma find_event_None e before l : find_event e before l = None -> e ∉ held l.
Proof.
  revert before. induction l as [|x l IH]; intros before; cbn [find_event]; [intros _; apply not_elem_of_nil|].
  destruct (remove_first _ (events x)) as [[y k]|] eqn:E; [done|]. intros Hf. apply remove_first_None in E. rewrite Forall_forall in E.
  change (held (x :: l)) with (events x ++ held l). rewrite elem_of_app. intros [Hx|Hx]; [|by apply (IH _ Hf)].
  specialize (E e Hx). by apply bool_decide_eq_false in E.
Qed.
Lemma foldl_max_le x l y : y = x \/ y ∈ l -> y <= foldl Z.max x l.
Proof.
  assert (forall l x, x <= foldl Z.max x l) as Hge by (clear; intros l; induction l as [|z l IH]; intros x; cbn [foldl]; [lia|specialize (IH (Z.max x z)); lia]).
  revert x. induction l as [|z l IH]; intros x Hy; cbn [foldl]; [destruct Hy as [->|Hy]; [lia|by apply not_elem_of_nil in Hy]|].
  destruct Hy as [->|[->|Hy]%elem_of_cons]; [specialize (Hge l (Z.max x z)); lia|specialize (Hge l (Z.max x z)); lia|by apply IH; right].
Qed.
Lemma foldl_max_in x l : foldl Z.max x l = x \/ foldl Z.max x l ∈ l.
Proof.
  revert x. induction l as [|z l IH]; intros x; cbn [foldl]; [by left|]. rewrite elem_of_cons. destruct (IH (Z.max x z)) as [->|Hin]; [|tauto].
  destruct (Z.max_spec x z) as [[_ ->]|[_ ->]]; tauto.
Qed.
(** A retraction is late when it touches no session and its own window has expired. *)
Lemma retraction_late e l : sessions_ok l -> event_ok e -> late (retraction_end gap e l) = dropped_now e l.
Proof.
  intros [_ Hl] He. unfold retraction_end, dropped_now. rewrite window_sat by done. rewrite Forall_forall in Hl.
  assert (forall s, (start s <=? timestamp e + gap) && (timestamp e <=? end_ s) = true <-> hit (window e) s) as Hh.
  { intros s. rewrite andb_true_iff, !Z.leb_le. unfold hit, touches, span, window. cbn. lia. }
  assert (forall s, s ∈ List.filter (fun s => (start s <=? timestamp e + gap) && (timestamp e <=? end_ s)) l <-> s ∈ filter (hit (window e)) l) as Hin.
  { intros s. rewrite list_elem_of_In, filter_In, Hh, <- list_elem_of_In, list_elem_of_filter. tauto. }
  destruct (List.filter _ l) as [|s k].
  - rewrite bool_decide_eq_true_2; [done|]. destruct (filter (hit (window e)) l) as [|t m]; [done|]. exfalso. apply (not_elem_of_nil t), Hin. left.
  - rewrite bool_decide_eq_false_2 by (intros E; rewrite E in Hin; apply (not_elem_of_nil s), Hin; left). cbn [map andb].
    assert (exists t, t ∈ s :: k /\ foldl Z.max (end_ s) (map end_ k) = end_ t) as (t & Ht & ->).
    { destruct (foldl_max_in (end_ s) (map end_ k)) as [->|(t & -> & Ht)%list_elem_of_fmap]; [exists s; split; [left|done]|exists t; split; [by right|done]]. }
    apply Hin, list_elem_of_filter in Ht as [_ Ht]. apply (so_live t (Hl t Ht)).
Qed.
Lemma held_touched e l : sessions_ok l -> e ∈ held l -> dropped_now e l = false.
Proof.
  intros [_ Hl] (s & Hs & He)%elem_of_held. rewrite Forall_forall in Hl. pose proof (so_within s (Hl s Hs)) as Hw. rewrite Forall_forall in Hw. specialize (Hw e He). cbn beta in Hw.
  unfold dropped_now. rewrite bool_decide_eq_false_2; [done|]. intros E. eapply filter_nil_not_elem_of; [exact E| |exact Hs]. unfold hit, touches, span, window. cbn. lia.
Qed.

Definition unmatched : error := Execution "session window received a retraction without a matching accumulated row".
Lemma retract_missing e l : sessions_ok l -> event_ok e -> e ∉ held l ->
  retract_event gap calls is_late e l = (if dropped_now e l then Ok true else Err unmatched, l).
Proof.
  intros Hl Hok He. unfold retract_event. rewrite (M_bind_run _ getS _ _ _ eq_refl), (M_bind_run _ (lift _) _ (dropped_now e l) l) by (unfold lift, is_late; by rewrite retraction_late).
  destruct (dropped_now e l); [done|]. destruct (find_event e [] l) as [[[[b s] rest] after]|] eqn:E; [|done].
  destruct He. apply find_event_Some in E as (E & Hp & _); [|apply not_elem_of_nil]. cbn [app] in E. rewrite E. apply elem_of_held. exists s. split; [apply elem_of_app; right; left|].
  rewrite Hp. left.
Qed.
Lemma retract_spec e l :
  sessions_ok l -> event_ok e -> retractions_ok calls -> len (held l) <= I64_MAX -> e ∈ held l ->
  exists l', retract_event gap calls is_late e l = (Ok false, l') /\ sessions_ok l' /\ held l ≡ₚ e :: held l' /\
    exists b s rest after s', l = b ++ s :: after /\ (e ∉ held b) /\ events s ≡ₚ e :: rest /\ span s' = span s /\ events s' = rest /\
      l' = (if bool_decide (rest = []) then b ++ after else b ++ s' :: after).
Proof.
  intros Hl He Hret Hlen Hin. unfold retract_event. rewrite (M_bind_run _ getS _ _ _ eq_refl).
  rewrite (M_bind_run _ (lift _) _ false l) by (unfold lift, is_late; by rewrite retraction_late, held_touched).
  destruct (find_event e [] l) as [[[[b s] rest] after]|] eqn:E; [|by apply find_event_None in E].
  apply find_event_Some in E as (E & Hp & Hnb); [|apply not_elem_of_nil]. cbn [app] in E. subst l. destruct Hl as [Ha Hl]. pose proof Hl as [Hb [Hs Haf]%Forall_cons]%Forall_app.
  rewrite (apply_values_row e false He).
  pose proof (so_rows s Hs) as Hrows. pose proof (so_valid s Hs) as Hv. pose proof (so_within s Hs) as Hw.
  assert (map event_row (events s) ≡ₚ event_row e :: map event_row rest) as Hpr by (by rewrite Hp).
  apply (group_state_perm _ _ _ _ Hpr) in Hrows. rewrite Hp in Hv, Hw. apply Forall_cons in Hv as [_ Hv]. apply Forall_cons in Hw as [_ Hw].
  rewrite held_app in Hlen. change (held (s :: after)) with (events s ++ held after) in Hlen. rewrite !len_app, (perm_len' _ _ Hp), len_cons in Hlen.
  pose proof (len_nonneg (held b)). pose proof (len_nonneg (held after)). assert (len (map event_row rest) = len rest) as El by (unfold len; by rewrite length_map).
  destruct (apply_change_spec calls Hcalls (false, event_row e) (accumulator s) (event_row e :: map event_row rest) (map event_row rest)) as (acc & Eacc & Hacc).
  { split; [apply He|done]. }
  { done. }
  { constructor; [apply He|by apply valid_rows]. }
  { unfold live_step. cbn [fst snd take_out]. by rewrite decide_True. }
  { rewrite len_cons. lia. }
  rewrite Eacc. rewrite (M_bind_run _ (putS _) _ _ _ eq_refl), (M_bind_run _ (lift (Ok tt)) _ _ _ eq_refl), (M_bind_run _ (putS _) _ _ _ eq_refl).
  set (s' := {| start := start s |}). destruct Hacc as (Hn & Hacc). rewrite Hn, El, len_zero. eexists. split; [done|].
  assert (held (b ++ s :: after) ≡ₚ e :: held (b ++ after) ++ rest) as Hheld.
  { rewrite !held_app. change (held (s :: after)) with (events s ++ held after). rewrite Hp. solve_Permutation. }
  assert (Permutation (b ++ s :: after) (s :: b ++ after)) as Hmid by solve_Permutation. rewrite Hmid in Ha. apply apart_cons in Ha as (Hse & Hst & Hba).
  assert (exists b0 s0 rest0 after0 s1, b ++ s :: after = b0 ++ s0 :: after0 /\ (e ∉ held b0) /\ events s0 ≡ₚ e :: rest0 /\ span s1 = span s0 /\ events s1 = rest0 /\
    (if bool_decide (rest = []) then b ++ after else b ++ s' :: after) = (if bool_decide (rest0 = []) then b0 ++ after0 else b0 ++ s1 :: after0)) as Hshape
    by (by exists b, s, rest, after, s').
  case_bool_decide as Hr.
  - rewrite Hr, app_nil_r in Hheld. split; [|done]. split; [done|]. by apply Forall_app.
  - split; [split|split; [|done]].
    + assert (Permutation (b ++ s' :: after) (s' :: b ++ after)) as -> by solve_Permutation. apply apart_cons. by split_and!.
    + apply Forall_app. split; [done|]. constructor; [|done]. split; cbn [s' accumulator events start end_]; try done. apply (so_live s Hs).
    + rewrite Hheld, !held_app. change (held (s' :: after)) with (rest ++ held after). solve_Permutation.
Qed.
End sessions.

(** ** Runs *)

Definition grow (w b : Z * Z) : Z * Z := (Z.min w.1 b.1, Z.max w.2 b.2).
Lemma hull_grow w l : hull w l = foldl grow w (map bounds l).
Proof. revert w. induction l as [|x l IH]; intros w; [done|]. rewrite hull_cons, IH. done. Qed.
Lemma span_hull w l : session_hull w l = foldl grow w (map span l).
Proof. unfold session_hull. rewrite hull_grow, map_map. done. Qed.

(** *** The reference

    A session is an interval and the bag of its events. An event whose window
    touches no session and has expired is dropped; any other accumulated event
    joins all the sessions its window touches; a retracted event leaves its
    session, which disappears with its last event. *)
Definition RefSession : Type := (Z * Z) * list SessionEvent.
Fixpoint remove_one (e : SessionEvent) (l : list SessionEvent) : list SessionEvent :=
  match l with
  | [] => []
  | x :: l => if decide (x = e) then l else x :: remove_one e l
  end.
Fixpoint forget (e : SessionEvent) (l : list RefSession) : option (list RefSession) :=
  match l with
  | [] => None
  | s :: l =>
      if decide (e ∈ s.2) then Some (if bool_decide (remove_one e s.2 = []) then l else (s.1, remove_one e s.2) :: l)
      else cons s <$> forget e l
  end.
Section reference.
Context (gap : Z) (late : Z -> bool).
Definition joined (e : SessionEvent) (l : list RefSession) : list RefSession := filter (fun s => touches (window gap e) s.1) l.
Definition expired (e : SessionEvent) (l : list RefSession) : bool := bool_decide (joined e l = []) && late (timestamp e + gap).
Definition ref_join (e : SessionEvent) (l : list RefSession) : list RefSession :=
  filter (fun s => ~ touches (window gap e) s.1) l ++ [(foldl grow (window gap e) (map fst (joined e l)), e :: flat_map snd (joined e l))].
(** Whether the change was dropped, and the sessions after it; [None] when there is nothing to retract. *)
Definition ref_step (c : bool * SessionEvent) (l : list RefSession) : option (bool * list RefSession) :=
  if expired c.2 l then Some (true, l)
  else if c.1 then Some (false, ref_join c.2 l)
  else pair false <$> forget c.2 l.
Fixpoint ref_run (changes : list (bool * SessionEvent)) (l : list RefSession) : option (Z * list RefSession) :=
  match changes with
  | [] => Some (0, l)
  | c :: changes =>
      '(dropped, l) ← ref_step c l;
      '(n, l) ← ref_run changes l;
      Some ((if dropped : bool then 1 + n else n), l)
  end.
End reference.

Definition depicts (s : ActiveSession) (r : RefSession) : Prop := span s = r.1 /\ events s ≡ₚ r.2.
Lemma depicts_filter (P : Z * Z -> Prop) (Q : ActiveSession -> Prop) `{!forall x, Decision (P x)} `{!forall x, Decision (Q x)} l r :
  (forall s, Q s <-> P (span s)) -> Forall2 depicts l r -> Forall2 depicts (filter Q l) (filter (fun s => P s.1) r).
Proof.
  intros Hq. induction 1 as [|s x l r [Hs He] _ IH]; [constructor|]. specialize (Hq s). rewrite Hs in Hq.
  rewrite !filter_cons. destruct (decide (P x.1)), (decide (Q s)); [by constructor|tauto|tauto|done].
Qed.
Lemma depicts_spans l r : Forall2 depicts l r -> map span l = map fst r.
Proof. induction 1 as [|s x l r [Hs _] _ IH]; [done|]. cbn. by rewrite Hs, IH. Qed.
Lemma depicts_held l r : Forall2 depicts l r -> held l ≡ₚ flat_map snd r.
Proof. induction 1 as [|s x l r [_ He] _ IH]; [done|]. change (held (s :: l)) with (events s ++ held l). cbn [flat_map]. by rewrite He, IH. Qed.
Lemma depicts_nil l r : Forall2 depicts l r -> (l = [] <-> r = []).
Proof. by intros []. Qed.
Lemma remove_one_perm e l : e ∈ l -> l ≡ₚ e :: remove_one e l.
Proof.
  induction l as [|x l IH]; [by intros ?%not_elem_of_nil|]. cbn [remove_one]. destruct (decide (x = e)) as [->|Hne]; [done|]. intros [->|Hin]%elem_of_cons; [done|].
  rewrite (IH Hin) at 1. solve_Permutation.
Qed.
Lemma forget_missing e r : e ∉ flat_map snd r -> forget e r = None.
Proof.
  induction r as [|s r IH]; [done|]. cbn [flat_map forget]. rewrite elem_of_app. intros Hn. rewrite decide_False by tauto. by rewrite IH by tauto.
Qed.
Lemma forget_found e b s r : e ∉ flat_map snd b -> e ∈ s.2 ->
  forget e (b ++ s :: r) = Some (if bool_decide (remove_one e s.2 = []) then b ++ r else b ++ (s.1, remove_one e s.2) :: r).
Proof.
  intros Hb Hs. induction b as [|x b IH]; cbn [app forget].
  - rewrite decide_True by done. by case_bool_decide.
  - cbn [flat_map] in Hb. rewrite elem_of_app in Hb. rewrite decide_False by tauto. rewrite IH by tauto. by case_bool_decide.
Qed.

Section runs.
Context (gap : Z) (calls : list Call) (late : Z -> bool).
Context (Hcalls : Forall call_ok calls) (Hgap : 0 < gap) (Hmono : forall x y, x <= y -> late y = true -> late x = true).
Definition session_change_ok (c : bool * SessionEvent) : Prop := event_ok gap calls c.2 /\ (c.1 = false -> retractions_ok calls).

Lemma expired_dropped e l r : Forall2 depicts l r -> expired gap late e r = dropped_now gap late e l.
Proof.
  intros Hr. unfold expired, dropped_now, joined. f_equal. apply bool_decide_ext. symmetry. apply depicts_nil. by apply (depicts_filter (touches (window gap e)) (hit (window gap e))).
Qed.
Lemma join_depicts e l r new : Forall2 depicts l r -> span new = session_hull (window gap e) (filter (hit (window gap e)) l) -> events new ≡ₚ e :: held (filter (hit (window gap e)) l) ->
  Forall2 depicts (filter (fun s => ~ hit (window gap e) s) l ++ [new]) (ref_join gap e r).
Proof.
  intros Hr Hs He. pose proof (depicts_filter (touches (window gap e)) (hit (window gap e)) l r ltac:(done) Hr) as Hhits. apply Forall2_app.
  - exact (depicts_filter (fun w => ~ touches (window gap e) w) (fun s => ~ hit (window gap e) s) l r ltac:(done) Hr).
  - constructor; [|constructor]. split; cbn [fst snd].
    + rewrite Hs, span_hull. unfold joined. by rewrite <- (depicts_spans _ _ Hhits).
    + rewrite He. constructor. by apply depicts_held.
Qed.
Lemma forget_depicts e b s rest after s' r : Forall2 depicts (b ++ s :: after) r -> e ∉ held b -> events s ≡ₚ e :: rest -> span s' = span s -> events s' = rest ->
  exists r', forget e r = Some r' /\ Forall2 depicts (if bool_decide (rest = []) then b ++ after else b ++ s' :: after) r'.
Proof.
  intros (rb & rs & Hb & Hrs & ->)%Forall2_app_inv_l Hnb Hp Hsp Hev. apply Forall2_cons_inv_l in Hrs as (x & ra & [Hx1 Hx2] & Ha & ->).
  assert (e ∈ x.2) as Hin by (rewrite <- Hx2, Hp; left).
  assert (remove_one e x.2 ≡ₚ rest) as Hrem by (apply (Permutation_cons_inv (a := e)); by rewrite <- remove_one_perm, <- Hx2, Hp).
  eexists. split; [apply forget_found; [by rewrite <- (depicts_held _ _ Hb)|done]|].
  assert (bool_decide (remove_one e x.2 = []) = bool_decide (rest = [])) as ->.
  { apply bool_decide_ext. split; intros E; rewrite E in Hrem; [by apply Permutation_nil_l in Hrem|by apply Permutation_nil_r in Hrem]. }
  case_bool_decide; apply Forall2_app; [done|done|done|]. constructor; [|done]. split; cbn [fst snd]; [congruence|]. by rewrite Hev, Hrem.
Qed.

(** The loop follows the reference, event by event. *)
Definition session_result (dropped : Z) (result : outcome Z * list ActiveSession) (reference : option (Z * list RefSession)) : Prop :=
  match result, reference with
  | (Ok dropped', l'), Some (n, r') => dropped' = dropped + n /\ sessions_ok gap calls late l' /\ Forall2 depicts l' r'
  | (Err e, _), None => e = unmatched
  | _, _ => False
  end.
Lemma session_changes_spec changes l r dropped :
  Forall session_change_ok changes -> sessions_ok gap calls late l -> Forall2 depicts l r -> len (held l) + len changes <= I64_MAX -> 0 <= dropped -> dropped + len changes < 2 ^ 64 ->
  session_result dropped (session_changes gap calls true (fun e => Ok (late e)) changes dropped l) (ref_run gap late changes r).
Proof.
  intros Hch. revert l r dropped. induction Hch as [|[accumulate e] changes [He Hret] _ IH]; intros l r dropped Hl Hr Hlen Hd1 Hd2.
  { cbn. split; [lia|done]. }
  cbn [fst snd] in *. rewrite len_cons in *. pose proof (len_nonneg changes). cbn [session_changes ref_run]. unfold ref_step. cbn [fst snd].
  assert (forall l1 r1 (late_now : bool), sessions_ok gap calls late l1 -> Forall2 depicts l1 r1 -> len (held l1) <= len (held l) + 1 ->
    session_result dropped (session_changes gap calls true (fun e => Ok (late e)) changes (if late_now then wrapu 64 (dropped + 1) else dropped) l1)
      ('(n, l) ← ref_run gap late changes r1; Some (if late_now then 1 + n else n, l))) as Hnext.
  { intros l1 r1 late_now Hl1 Hr1 Hlen1. assert (wrapu 64 (dropped + 1) = dropped + 1) as -> by (apply Z.mod_small; lia).
    specialize (IH l1 r1 (if late_now then dropped + 1 else dropped) Hl1 Hr1). assert (0 <= (if late_now then dropped + 1 else dropped) <= dropped + 1) by (destruct late_now; lia).
    specialize (IH ltac:(lia) ltac:(lia) ltac:(lia)). destruct (session_changes _ _ _ _ _ _ _) as [[dropped'|e'|] l''], (ref_run gap late changes r1) as [[n r']|]; try done.
    destruct IH as (-> & Hok & Hdep). split; [destruct late_now; lia|done]. }
  rewrite (expired_dropped e l r Hr). destruct accumulate.
  - destruct (accumulate_spec gap calls late Hcalls Hgap Hmono e l Hl He) as (l1 & E & Hl1 & Hstep); [lia|]. rewrite (M_bind_run _ _ _ _ _ E).
    destruct (dropped_now gap late e l); [subst l1; apply (Hnext l r true); [done|done|lia]|]. destruct Hstep as (Hp & new & -> & Hsp & Hev).
    apply (Hnext _ (ref_join gap e r) false); [done|by apply join_depicts|rewrite (perm_len' _ _ Hp), len_cons; lia].
  - destruct (decide (e ∈ held l)) as [Hin|Hout].
    + destruct (retract_spec gap calls late Hcalls Hgap e l Hl He (Hret eq_refl)) as (l1 & E & Hl1 & Hp & b & s & rest & after & s' & El & Hnb & Hps & Hsp & Hev & El1); [lia|done|].
      rewrite (M_bind_run _ _ _ _ _ E), (held_touched gap calls late Hgap e l Hl Hin). rewrite El in Hr. destruct (forget_depicts e b s rest after s' r Hr Hnb Hps Hsp Hev) as (r1 & -> & Hr1).
      rewrite <- El1 in Hr1. apply (Hnext l1 r1 false); [done|done|]. rewrite (perm_len' _ _ Hp), len_cons. lia.
    + unfold mbind at 1, M_bind. rewrite (retract_missing gap calls late Hgap e l Hl He Hout). destruct (dropped_now gap late e l); [apply (Hnext l r true); [done|done|lia]|].
      rewrite forget_missing by (by rewrite <- (depicts_held _ _ Hr)). done.
Qed.
End runs.

(** C26: session changes follow the reference. Applied to sessions that are apart,
    live and hold the aggregates of their events, a list of accumulated and
    retracted events drops exactly the events whose window touches no session and
    has expired, lets every other accumulated event join the sessions its window
    touches, takes every other retracted event out of its session, and fails
    exactly at a retraction that is neither dropped nor held. The sessions end with
    the intervals and the events of the reference, apart and live, and each one's
    results are the SQL aggregates of the events it holds, for calls of the kinds
    of [call_ok]. *)
Theorem session_changes_exact `{I256} `{BigInteger} (gap : Z) (calls : list Call) (late : Z -> bool)
    (sessions : list ActiveSession) (changes : list (bool * SessionEvent)) :
  Forall call_ok calls -> 0 < gap -> (forall x y, x <= y -> late y = true -> late x = true) ->
  Forall (session_change_ok gap calls) changes -> sessions_ok gap calls late sessions -> len (held sessions) + len changes <= I64_MAX ->
  match apply_session_changes gap calls true (fun e => Ok (late e)) changes sessions, ref_run gap late changes (map (fun s => (span s, events s)) sessions) with
  | (Ok dropped, sessions'), Some (n, reference) =>
      dropped = n /\ Forall2 depicts sessions' reference /\ sessions_ok gap calls late sessions' /\
      forall s, s ∈ sessions' -> row_count (accumulator s) = len (events s) /\
        exists vs, state_values calls (accumulators (accumulator s)) = Ok vs /\ sql_values calls (map event_row (events s)) vs
  | (Err e, _), None => e = unmatched
  | _, _ => False
  end.
Proof.
  intros Hcalls Hgap Hmono Hch Hl Hlen. pose proof (len_nonneg (held sessions)).
  assert (Forall2 depicts sessions (map (fun s => (span s, events s)) sessions)) as Hr by (clear; induction sessions; by constructor).
  pose proof (session_changes_spec gap calls late Hcalls Hgap Hmono changes sessions _ 0 Hch Hl Hr Hlen) as Hrun. unfold apply_session_changes.
  unfold I64_MAX in Hlen. specialize (Hrun ltac:(lia) ltac:(lia)). unfold session_result in Hrun.
  destruct (session_changes _ _ _ _ _ _ _) as [[dropped|e|] sessions'], (ref_run gap late changes (map (fun s => (span s, events s)) sessions)) as [[n reference]|]; try done.
  destruct Hrun as (-> & Hok & Hdep). split; [lia|]. split; [done|]. split; [done|]. intros s Hs.
  destruct Hok as [_ Hok]. rewrite Forall_forall in Hok. pose proof (so_rows _ _ _ s (Hok s Hs)) as Hrows.
  split; [destruct Hrows as [-> _]; unfold len; by rewrite length_map|]. by apply (group_values calls Hcalls).
Qed.

(** ** The two implementations agree *)

Lemma grow_perm l k : l ≡ₚ k -> forall w, foldl grow w l = foldl grow w k.
Proof.
  induction 1 as [|x l k _ IH|x y l|l k m _ IH1 _ IH2]; intros w; [done|by cbn [foldl]| |by rewrite IH1].
  cbn [foldl]. f_equal. unfold grow. cbn [fst snd]. f_equal; lia.
Qed.
Lemma span_filter (P : Z * Z -> Prop) (Q : ActiveSession -> Prop) `{!forall x, Decision (P x)} `{!forall x, Decision (Q x)} l :
  (forall s, Q s <-> P (span s)) -> map span (filter Q l) = filter P (map span l).
Proof.
  intros Hq. induction l as [|s l IH]; [done|]. cbn [map]. rewrite !filter_cons. pose proof (Hq s).
  destruct (decide (Q s)), (decide (P (span s))); cbn [map]; rewrite ?IH; tauto.
Qed.

Lemma around_filter w before hits after :
  around w before hits after -> Forall (fun iv => iv_start iv < iv_end iv) (before ++ after) ->
  filter (touches w) (map bounds (before ++ hits ++ after)) = map bounds hits /\
  filter (fun b => ~ touches w b) (map bounds (before ++ hits ++ after)) = map bounds before ++ map bounds after.
Proof.
  intros [Hb Hh Ha] [Hlb Hla]%Forall_app. rewrite Forall_forall in Hlb. rewrite Forall_forall in Hla.
  assert (Forall (fun b => ~ touches w b) (map bounds before)) as Hb'.
  { apply Forall_fmap, Forall_forall. intros x Hx [H1 H2]. cbn in *. specialize (Hb x Hx). specialize (Hlb x Hx). lia. }
  assert (Forall (fun b => ~ touches w b) (map bounds after)) as Ha'.
  { apply Forall_fmap, Forall_forall. intros x Hx [H1 H2]. cbn in *. specialize (Ha x Hx). lia. }
  assert (Forall (touches w) (map bounds hits)) as Hh' by (by apply Forall_fmap, Forall_forall).
  rewrite !map_app, !filter_app. split.
  - rewrite (filter_no_elem _ _ Hb'), (filter_no_elem _ _ Ha'), (filter_every _ _ Hh'). by rewrite app_nil_r.
  - rewrite (filter_every _ _ Hb'), (filter_every _ _ Ha'), (filter_no_elem _ (map bounds hits)); [done|].
    eapply Forall_impl; [exact Hh'|]. cbn. tauto.
Qed.

Section agree.
Context (gap wm : Z) (calls : list Call) (Hcalls : Forall call_ok calls) (Hgap : 0 < gap).
Let late (x : Z) : bool := x - 1 <=? wm.
Lemma late_mono x y : x <= y -> late y = true -> late x = true.
Proof. unfold late. rewrite !Z.leb_le. lia. Qed.
Definition same_spans (a : Assignments) (l : list ActiveSession) : Prop := map bounds (intervals a) ≡ₚ map span l.

Lemma agree_step a ws root depth l e :
  namespaces a ws root depth -> live wm a -> sessions_ok gap calls late l -> same_spans a l -> event_ok gap calls e -> len (held l) < I64_MAX ->
  exists r b root' depth' ws' l', assign (timestamp e) gap wm a = (Ok r, b) /\
    accumulate_event gap calls true (fun e => Ok (late e)) e l = (Ok (bool_decide (r = None)), l') /\
    namespaces b ws' root' depth' /\ live wm b /\ sessions_ok gap calls late l' /\ same_spans b l' /\ len (held l') <= len (held l) + 1.
Proof.
  intros Hns Hlive Hl Hsame He Hlen. destruct (accumulate_spec gap calls late Hcalls Hgap late_mono e l Hl He Hlen) as (l' & El & Hl' & Hstep).
  pose proof He as (_ & Ht1 & Ht2). pose proof (assign_spec a ws root depth (timestamp e) gap wm Hns Hlive Hgap Ht1 Ht2) as Ha. cbn zeta in Ha.
  change (timestamp e, timestamp e + gap) with (window gap e) in Ha. set (w := window gap e) in *. assert (w.1 < w.2) as Hw by (cbn; lia).
  assert (forall before hits after, intervals a = before ++ hits ++ after -> around w before hits after ->
    map span (filter (hit w) l) ≡ₚ map bounds hits /\ map span (filter (fun s => ~ hit w s) l) ≡ₚ map bounds before ++ map bounds after /\
    touched w (map fst ws) = negb (bool_decide (filter (hit w) l = []))) as Hfil.
  { intros before hits after E Har. pose proof (ns_separated _ _ _ _ Hns) as [_ Hlt]. rewrite E, !Forall_app in Hlt.
    destruct (around_filter w before hits after Har) as [F1 F2]; [apply Forall_app; tauto|]. rewrite <- E in F1, F2.
    assert (map span (filter (hit w) l) ≡ₚ map bounds hits) as G1.
    { assert (map span (filter (hit w) l) = filter (touches w) (map span l)) as -> by (by apply span_filter). by rewrite <- F1, Hsame. }
    split_and!; [done| |].
    - assert (map span (filter (fun s => ~ hit w s) l) = filter (fun b => ~ touches w b) (map span l)) as -> by (by apply span_filter). by rewrite <- F2, Hsame.
    - destruct a as [ivs p]. cbn [intervals] in E. subst ivs. rewrite (hits_touched _ _ _ w Hw _ _ _ _ Hns Har). f_equal. apply bool_decide_ext.
      split; intros Hn; [rewrite Hn in G1; by apply Permutation_nil_r, fmap_nil_inv in G1|].
      rewrite Hn in G1. apply Permutation_nil_l in G1. symmetry in G1. by apply fmap_nil_inv in G1. }
  assert (dropped_now gap late e l = bool_decide (filter (hit w) l = []) && (timestamp e + gap - 1 <=? wm)) as Hd by done.
  destruct (touched w (map fst ws) || (wm <? timestamp e + gap - 1)) eqn:Et.
  - destruct Ha as (k & b & root' & depth' & Ea & Hns' & Hlive' & before & hits & after & E & Har & Hb).
    destruct (Hfil _ _ _ E Har) as (F1 & F2 & F3).
    assert (dropped_now gap late e l = false) as Hnd.
    { rewrite Hd. apply orb_true_iff in Et as [Et|Et]; [rewrite F3 in Et; by apply negb_true_iff in Et as ->|].
      rewrite (proj2 (Z.leb_gt _ _)) by (apply Z.ltb_lt; done). apply andb_false_r. }
    rewrite Hnd in *. destruct Hstep as (Hheld & new & Enew & Hspan & _). exists (Some k), b, root', depth', (ws ++ [(w, k)]), l'.
    rewrite bool_decide_eq_false_2 by done. split_and!; try done; [|rewrite (perm_len' _ _ Hheld), len_cons; lia].
    unfold same_spans. rewrite Enew, map_app, Hb, <- surjective_pairing. cbn [map]. rewrite Hspan. fold w in F1, F2 |- *. rewrite F2, hull_grow, span_hull, (grow_perm _ _ F1). solve_Permutation.
  - destruct Ha as (Ea & before & after & E & Har). apply orb_false_iff in Et as [Et Hwm].
    destruct (Hfil before [] after E Har) as (_ & _ & F3). rewrite F3 in Et. apply negb_false_iff in Et.
    assert (dropped_now gap late e l = true) as Hnd by (rewrite Hd, Et; apply Z.leb_le; apply Z.ltb_ge in Hwm; lia).
    rewrite Hnd in *. subst l'. exists None, a, root, depth, ws, l. rewrite bool_decide_eq_true_2 by done. split_and!; try done. lia.
Qed.

Lemma agree_run evs a ws root depth l dropped :
  namespaces a ws root depth -> live wm a -> sessions_ok gap calls late l -> same_spans a l -> Forall (event_ok gap calls) evs ->
  len (held l) + len evs <= I64_MAX -> 0 <= dropped -> dropped + len evs < 2 ^ 64 ->
  exists rows b l', collectM (fun e => assign (timestamp e) gap wm) evs a = (Ok rows, b) /\
    session_changes gap calls true (fun e => Ok (late e)) (map (pair true) evs) dropped l = (Ok (dropped + len (filter (fun r => r = None) rows)), l') /\
    same_spans b l'.
Proof.
  intros Hns Hlive Hl Hsame Hev. revert a ws root depth l dropped Hns Hlive Hl Hsame.
  induction Hev as [|e evs He _ IH]; intros a ws root depth l dropped Hns Hlive Hl Hsame Hlen Hd1 Hd2.
  { exists [], a, l. split_and!; [done| |done]. cbn. unfold len. cbn. by rewrite Z.add_0_r. }
  rewrite len_cons in *. pose proof (len_nonneg evs). pose proof (len_nonneg (held l)).
  destruct (agree_step a ws root depth l e Hns Hlive Hl Hsame He) as (r & b & root' & depth' & ws' & l1 & E1 & E2 & Hns1 & Hlive1 & Hl1 & Hsame1 & Hlen1); [lia|].
  assert (wrapu 64 (dropped + 1) = dropped + 1) as Hwr by (apply Z.mod_small; lia).
  destruct (IH b ws' root' depth' l1 (if bool_decide (r = None) then dropped + 1 else dropped) Hns1 Hlive1 Hl1 Hsame1) as (rows & c & l2 & E3 & E4 & Hsame2);
    [lia|case_bool_decide; lia|case_bool_decide; lia|].
  exists (r :: rows), c, l2. cbn [collectM map session_changes]. rewrite (M_bind_run _ _ _ _ _ E1), (M_bind_run _ _ _ _ _ E3).
  split; [done|]. split; [|done]. rewrite (M_bind_run _ _ _ _ _ E2), Hwr, E4. rewrite filter_cons. do 2 f_equal.
  case_bool_decide as Hr; [rewrite decide_True, len_cons by done; lia|by rewrite decide_False].
Qed.
End agree.

(** C27: on accumulated events the two implementations of session windows agree:
    namespaces assigned by slots and sessions merged with their aggregates drop
    the same number of late events and end with the same intervals, for every
    arrival order. *)
Theorem session_engines_agree (gap wm : Z) (calls : list Call) (evs : list SessionEvent) :
  Forall call_ok calls -> 0 < gap -> Forall (event_ok gap calls) evs -> len evs <= I64_MAX ->
  exists rows a dropped sessions, collectM (fun e => assign (timestamp e) gap wm) evs no_assignments = (Ok rows, a) /\
    apply_session_changes gap calls true (fun e => Ok (e - 1 <=? wm)) (map (pair true) evs) [] = (Ok dropped, sessions) /\
    dropped = len (filter (fun r => r = None) rows) /\ map bounds (intervals a) ≡ₚ map span sessions.
Proof.
  intros Hcalls Hgap Hev Hlen. destruct (agree_run gap wm calls Hcalls Hgap evs no_assignments [] _ _ [] 0 no_namespaces) as (rows & b & l & E1 & E2 & Hsame);
    [by intros ? ?%not_elem_of_nil|split; [split; [apply SSorted_nil|apply Forall_nil_2]|apply Forall_nil_2]|by unfold same_spans|done|unfold len in *; cbn; lia|lia|unfold I64_MAX in Hlen; lia|].
  exists rows, b, (0 + len (filter (fun r => r = None) rows)), l. split_and!; [done|exact E2|done|exact Hsame].
Qed.
