(* ===== verification/AggregateCodec.v ===== *)
(** * Persistent form of aggregate states: [group_aggregate/state_codec.rs],
    [state_codec/counted_values.rs]

    A state is written as its magic, a version, the row count and one tagged
    accumulator per call; an accumulator that holds nothing is a single zero byte.
    The writer is generic in its sink, which is a byte vector or a size. *)

From Stdlib Require Import ZArith Lia Strings.Byte.
From stdpp Require Import base list option numbers strings.
From S2P Require Import Prelude Bytes OrdMap Arrow Aggregate.

Definition AGGREGATE_STATE_MAGIC : bytes := [x53; x46; x47; x41].
Definition AGGREGATE_STATE_VERSION : Z := 6.
Definition BOUNDED_STATE_MAGIC : bytes := [x53; x46; x42; x47].
Definition BOUNDED_STATE_VERSION : byte := x01.

(** ** Writing *)

Class StateSink (S : Type) : Type := {
  sink_push : byte -> S -> S;
  sink_extend : bytes -> S -> S;
}.
#[global] Instance vec_sink : StateSink bytes := {| sink_push b s := s ++ [b]; sink_extend v s := s ++ v |}.
Record EncodedSize : Type := { encoded_size_of : Z }.
#[global] Instance size_sink : StateSink EncodedSize := {|
  sink_push _ s := {| encoded_size_of := sat_add (encoded_size_of s) 1 |};
  sink_extend v s := {| encoded_size_of := sat_add (encoded_size_of s) (len v) |};
|}.

(** [f32::from_bits(b) == 0.0]. *)
Definition optional_value_is_zero (v : option AggregateValue) : bool :=
  match v with
  | None => true
  | Some (VInt z) => z =? 0
  | Some (VFloat32 b) => float_is_zero F32 b
  | Some (VFloat64 b) => float_is_zero F64 b
  | Some (VBoolean _ | VBytes _) => false
  end.
Definition accumulator_is_neutral (acc : Accumulator) : bool :=
  match acc with
  | ACount n => n =? 0
  | ADistinctCount count values => (count =? 0) && bool_decide (values = [])
  | ASum value count | AAverage value count => (count =? 0) && optional_value_is_zero value
  | ADistinctSum value count values | ADistinctAverage value count values =>
      (count =? 0) && bool_decide (values = []) && optional_value_is_zero value
  | AAppendExtremum value => bool_decide (value = None)
  | AExtremum values => bool_decide (values = [])
  end.

Section writing.
Context {S : Type} `{StateSink S}.

Definition encode_value (v : AggregateValue) (s : S) : S :=
  let s := sink_push (z2b (value_tag v)) s in
  match v with
  | VBoolean b => sink_push (if b then x01 else x00) s
  | VInt z => sink_extend (to_le 16 z) s
  | VFloat32 b => sink_extend (to_le 4 b) s
  | VFloat64 b => sink_extend (to_le 8 b) s
  | VBytes b => sink_extend b (sink_extend (u32_le (len b)) s)
  end.
Definition encode_counted_values (m : counted) (s : S) : S :=
  fold_left (fun s e => sink_extend (i64_le e.2) (encode_value e.1 s)) m (sink_extend (u32_le (len m)) s).
(** A presence byte and the value. *)
Definition encode_optional (v : option AggregateValue) (s : S) : S :=
  match v with Some v => encode_value v (sink_push x01 s) | None => sink_push x00 s end.

Definition encode_accumulator (acc : Accumulator) (s : S) : S :=
  if accumulator_is_neutral acc then sink_push x00 s
  else match acc with
  | ACount n => sink_extend (i64_le n) (sink_push x01 s)
  | ADistinctCount count values => encode_counted_values values (sink_extend (i64_le count) (sink_push x05 s))
  | ASum value count => sink_extend (i64_le count) (encode_optional value (sink_push x02 s))
  | ADistinctSum value count values =>
      encode_counted_values values (sink_extend (i64_le count) (encode_optional value (sink_push x06 s)))
  | AAverage value count => sink_extend (i64_le count) (encode_optional value (sink_push x07 s))
  | ADistinctAverage value count values =>
      encode_counted_values values (sink_extend (i64_le count) (encode_optional value (sink_push x08 s)))
  | AAppendExtremum value => encode_optional value (sink_push x04 s)
  | AExtremum values => encode_counted_values values (sink_push x03 s)
  end.
Definition encode_state_into (st : AccumulatorState) (s : S) : S :=
  let s := sink_extend AGGREGATE_STATE_MAGIC s in
  let s := sink_push (z2b AGGREGATE_STATE_VERSION) s in
  let s := sink_extend (i64_le (row_count st)) s in
  let s := sink_extend (u32_le (len (accumulators st))) s in
  fold_left (fun s acc => encode_accumulator acc s) (accumulators st) s.
End writing.

Definition encode_aggregate_state (st : AccumulatorState) : bytes := encode_state_into st [].
Definition encoded_state_size (st : AccumulatorState) : Z := encoded_size_of (encode_state_into st {| encoded_size_of := 0 |}).

(** ** Reading *)

Definition ag_truncated : error := Execution "group aggregate state is truncated".
Definition ag_read (n : Z) : M input bytes := read_exact_with (Execution "group aggregate state length overflow") ag_truncated n.
Definition ag_u8 : M input Z := v ← ag_read 1; match v with b :: _ => mret (b2z b) | [] => panic end.
Definition ag_u32 : M input Z := v ← ag_read 4; mret (of_le v).
Definition ag_i64 : M input Z := v ← ag_read 8; mret (i64_of_le v).
Definition ag_u64 : M input Z := v ← ag_read 8; mret (of_le v).
Definition ag_i128 : M input Z := v ← ag_read 16; mret (wraps 128 (of_le v)).

Definition decode_value : M input AggregateValue :=
  tag ← ag_u8;
  match tag with
  | 1 =>
      b ← ag_u8;
      match b with
      | 0 => mret (VBoolean false)
      | 1 => mret (VBoolean true)
      | _ => throw (Execution "group aggregate Boolean state byte is invalid")
      end
  | 2 => z ← ag_i128; mret (VInt z)
  | 3 => z ← ag_u32; mret (VFloat32 z)
  | 4 => z ← ag_u64; mret (VFloat64 z)
  | 5 => length ← ag_u32; b ← ag_read length; mret (VBytes b)
  | _ => throw (Execution "group aggregate value state tag is invalid")
  end.
Definition decode_optional_value (e : error) : M input (option AggregateValue) :=
  present ← ag_u8;
  match present with
  | 0 => mret None
  | 1 => v ← decode_value; mret (Some v)
  | _ => throw e
  end.

(** The entries, and whether each key was greater than the one before. *)
Fixpoint read_entries (legacy : bool) (entries : nat) (last : option AggregateValue) : M input (counted * bool) :=
  match entries with
  | O => mret ([], true)
  | S entries =>
      v ← (if legacy then z ← ag_i128; mret (VInt z) else decode_value);
      let ordered := match last with Some p => bool_decide (ocmp p v = Lt) | None => true end in
      n ← ag_i64;
      '(rest, strict) ← read_entries legacy entries (Some v);
      mret ((v, n) :: rest, ordered && strict)
  end.
Definition decode_counted_values (legacy : bool) : M input counted :=
  entries ← ag_u32;
  i ← getS;
  _ ← when ((len (ibytes i) - ioff i) / (if legacy then 24 else 10) <? entries) ag_truncated;
  '(staged, strict) ← read_entries legacy (Z.to_nat entries) None;
  mret (if strict : bool then staged else fold_left (fun m e => counted_insert e.1 e.2 m) staged []).

Definition aggregate_value_matches_type (v : AggregateValue) (t : DataType) : bool :=
  match v with
  | VBoolean _ => match t with DBoolean => true | _ => false end
  | VFloat32 _ => match t with DFloat32 => true | _ => false end
  | VFloat64 _ => match t with DFloat64 => true | _ => false end
  | VBytes _ => match t with DUtf8 => true | _ => false end
  | VInt _ =>
      match t with
      | DInt8 | DInt16 | DInt32 | DInt64 | DDecimal128 _ _ | DDate32 | DTime32 _ | DTime64 _ | DTimestamp _ => true
      | _ => false
      end
  end.
Definition value_mismatch : error := Execution "group aggregate state value does not match".
(** Every value against a type computed for it. *)
Fixpoint check_values (t : outcome DataType) (l : list AggregateValue) : outcome unit :=
  match l with
  | [] => Ok tt
  | v :: l =>
      ty ← t;
      _ ← guard_ok (aggregate_value_matches_type v ty) value_mismatch;
      check_values t l
  end.
Definition validate_accumulator_values (acc : Accumulator) (c : Call) : outcome unit :=
  let input := match input_type c with Some t => Ok t | None => Panic end in
  let state := if bool_decide (function c = Avg) then average_accumulator_type c else Ok (output_type c) in
  let one (v : option AggregateValue) := match v with Some v => [v] | None => [] end in
  match acc with
  | ACount _ => Ok tt
  | ADistinctCount _ values => check_values input (map fst values)
  | ASum v _ | AAverage v _ => check_values state (one v)
  | ADistinctSum v _ values | ADistinctAverage v _ values =>
      _ ← check_values input (map fst values);
      check_values state (one v)
  | AAppendExtremum v => check_values state (one v)
  | AExtremum values => check_values state (map fst values)
  end.

Definition expected_tag (c : Call) : outcome Z :=
  match function c with
  | CountStar | Count => Ok (if distinct c then 5 else 1)
  | Sum | Sum0 => Ok (if distinct c then 6 else 2)
  | Avg => Ok (if distinct c then 8 else 7)
  | Min | Max => Ok (if retractable c then 3 else 4)
  | Unspecified => Panic
  end.
Definition sum_presence : error := Execution "group aggregate sum presence is invalid".
Definition read_accumulator (version : Z) (c : Call) (tag : Z) : M input Accumulator :=
  match tag with
  | 1 => n ← ag_i64; mret (ACount n)
  | 2 =>
      v ← (if version =? 1 then z ← ag_i128; mret (Some (VInt z))
           else if version =? 2 then v ← decode_value; mret (Some v)
           else decode_optional_value sum_presence);
      n ← ag_i64;
      mret (ASum v n)
  | 3 => m ← decode_counted_values (version =? 1); mret (AExtremum m)
  | 4 =>
      present ← ag_u8;
      match present with
      | 0 => mret (AAppendExtremum None)
      | 1 => v ← (if version =? 1 then z ← ag_i128; mret (VInt z) else decode_value); mret (AAppendExtremum (Some v))
      | _ => throw (Execution "group aggregate append extremum presence is invalid")
      end
  | 5 => if 4 <=? version then n ← ag_i64; m ← decode_counted_values false; mret (ADistinctCount n m)
         else throw (Execution "group aggregate state accumulator tag is invalid")
  | 6 => if 4 <=? version then
           v ← decode_optional_value (Execution "group aggregate distinct sum presence is invalid");
           n ← ag_i64; m ← decode_counted_values false; mret (ADistinctSum v n m)
         else throw (Execution "group aggregate state accumulator tag is invalid")
  | 7 => if 5 <=? version then
           v ← decode_optional_value (Execution "group aggregate average presence is invalid"); n ← ag_i64; mret (AAverage v n)
         else throw (Execution "group aggregate state accumulator tag is invalid")
  | 8 => if 5 <=? version then
           v ← decode_optional_value (Execution "group aggregate distinct average presence is invalid");
           n ← ag_i64; m ← decode_counted_values false; mret (ADistinctAverage v n m)
         else throw (Execution "group aggregate state accumulator tag is invalid")
  | 0 => if 6 <=? version then lift (new_accumulator c)
         else throw (Execution "group aggregate state accumulator tag is invalid")
  | _ => throw (Execution "group aggregate state accumulator tag is invalid")
  end.
Definition decode_accumulator (version : Z) (c : Call) : M input Accumulator :=
  tag ← ag_u8;
  acc ← read_accumulator version c tag;
  expected ← lift (expected_tag c);
  _ ← when (negb (tag =? 0) && negb (tag =? expected)) (Execution "group aggregate state does not match its plan");
  _ ← lift (validate_accumulator_values acc c);
  mret acc.

Definition decode_aggregate_input (calls : list Call) : M input AccumulatorState :=
  magic ← ag_read 4;
  _ ← when (negb (bool_decide (magic = AGGREGATE_STATE_MAGIC))) (Execution "group aggregate state has invalid magic");
  version ← ag_u8;
  _ ← when ((version <? 1) || (AGGREGATE_STATE_VERSION <? version)) (Execution "group aggregate state version is unsupported");
  rows ← ag_i64;
  count ← ag_u32;
  _ ← when (negb (count =? len calls)) (Execution "group aggregate state has other accumulators");
  accs ← collectM (decode_accumulator version) calls;
  i ← getS;
  _ ← when (negb (ioff i =? len (ibytes i))) (Execution "group aggregate state has trailing bytes");
  mret {| row_count := rows; accumulators := accs |}.
Definition decode_aggregate_state (bs : bytes) (calls : list Call) : outcome AccumulatorState :=
  fst (decode_aggregate_input calls {| ibytes := bs; ioff := 0 |}).

(** ** Bounded states carry their grouping row *)

Definition encode_bounded_state (grouping_row : bytes) (st : AccumulatorState) : outcome bytes :=
  let accumulator := encode_aggregate_state st in
  if len grouping_row <=? U32_MAX then
    Ok (BOUNDED_STATE_MAGIC ++ [BOUNDED_STATE_VERSION] ++ u32_le (len grouping_row) ++ grouping_row ++ accumulator)
  else Err (Execution "bounded group aggregate grouping row exceeds the canonical u32 length").
(** [bytes[a..b]] panics outside the slice. *)
Definition slice (bs : bytes) (a b : Z) : outcome bytes :=
  match slice_get bs a b with Some v => Ok v | None => Panic end.
Definition decode_bounded_state (bs : bytes) (calls : list Call) : outcome (bytes * AccumulatorState) :=
  let header := 9 in
  if (len bs <? header) || negb (bool_decide (take 4 bs = BOUNDED_STATE_MAGIC)) then Err (Execution "invalid bounded group aggregate state magic")
  else
    version ← slice bs 4 5;
    if negb (bool_decide (version = [BOUNDED_STATE_VERSION])) then Err (Execution "unsupported bounded group aggregate state version")
    else
      n ← slice bs 5 9;
      match checked_add header (of_le n) with
      | None => Err (Execution "bounded group aggregate grouping length overflow")
      | Some grouping_end =>
          if len bs <? grouping_end then Err (Execution "truncated bounded group aggregate grouping row")
          else
            row ← slice bs header grouping_end;
            tail ← slice bs grouping_end (len bs);
            st ← decode_aggregate_state tail calls;
            Ok (row, st)
      end.
