(* ===== verification/AggregateCodecSpec.v ===== *)
(** * Aggregate states survive their encoding

    A state that stands for rows is decoded from its bytes to a state that
    stands for the same rows; sizing runs the same writer; decoding never panics. *)

From Stdlib Require Import ZArith Lia Strings.Byte.
From stdpp Require Import base list option numbers strings sorting.
From S2P Require Import Prelude Bytes OrdMap Arrow Decimal Aggregate AggregateSpec AggregateRuns AggregateMerge AggregateChanges AggregateCodec.

(** ** Writers are parametric in their sink *)

Section parametric.
Context {S T : Type} `{StateSink S} `{StateSink T} (R : S -> T -> Prop).
Context (Hpush : forall b s t, R s t -> R (sink_push b s) (sink_push b t)).
Context (Hextend : forall v s t, R s t -> R (sink_extend v s) (sink_extend v t)).

Lemma encode_value_rel v s t : R s t -> R (encode_value v s) (encode_value v t).
Proof. intros Hr. unfold encode_value. destruct v; auto. Qed.
Lemma encode_optional_rel v s t : R s t -> R (encode_optional v s) (encode_optional v t).
Proof. intros Hr. unfold encode_optional. destruct v; auto using encode_value_rel. Qed.
Lemma encode_counted_rel m s t : R s t -> R (encode_counted_values m s) (encode_counted_values m t).
Proof.
  intros Hr. unfold encode_counted_values. apply (Hextend (u32_le (len m))) in Hr. revert Hr. generalize (sink_extend (u32_le (len m)) s), (sink_extend (u32_le (len m)) t).
  induction m as [|e m IH]; intros s' t' Hr; [done|]. cbn [fold_left]. apply IH, Hextend. by apply encode_value_rel.
Qed.
Lemma encode_accumulator_rel acc s t : R s t -> R (encode_accumulator acc s) (encode_accumulator acc t).
Proof.
  intros Hr. unfold encode_accumulator. destruct (accumulator_is_neutral acc); [auto|].
  destruct acc; auto using encode_optional_rel, encode_counted_rel.
Qed.
Lemma encode_state_rel st s t : R s t -> R (encode_state_into st s) (encode_state_into st t).
Proof.
  intros Hr. unfold encode_state_into.
  assert (forall l s t, R s t -> R (fold_left (fun s acc => encode_accumulator acc s) l s) (fold_left (fun s acc => encode_accumulator acc s) l t)) as Hf.
  { induction l as [|acc l IH]; intros s' t' Hr'; [done|]. cbn [fold_left]. by apply IH, encode_accumulator_rel. }
  apply Hf. auto.
Qed.
End parametric.

(** The size is the length of what is written. *)
Lemma encoded_state_size_spec st : len (encode_aggregate_state st) <= USIZE_MAX -> encoded_state_size st = len (encode_aggregate_state st).
Proof.
  intros Hl. assert (encoded_state_size st = Z.min (len (encode_aggregate_state st)) USIZE_MAX) as ->; [|lia].
  apply (encode_state_rel (fun (s : bytes) t => encoded_size_of t = Z.min (len s) USIZE_MAX)).
  - intros b s t E. cbn. rewrite E, len_app. unfold sat_add. pose proof (len_nonneg s). change (len [b]) with 1. lia.
  - intros v s t E. cbn. rewrite E, len_app. unfold sat_add. pose proof (len_nonneg s). pose proof (len_nonneg v). lia.
  - done.
Qed.

(** What each writer appends. *)
Definition appended (f : bytes -> bytes) (bs : bytes) : Prop := forall s, f s = s ++ bs.
Lemma appends (f : bytes -> bytes) :
  (forall pre s t, s = pre ++ t -> f s = pre ++ f t) -> appended f (f []).
Proof. intros Hf s. rewrite (Hf s s []); [done|]. by rewrite app_nil_r. Qed.
Ltac prove_appends lemma :=
  apply appends; intros pre s t E;
  apply (lemma bytes bytes vec_sink vec_sink (fun s t => s = pre ++ t)); [intros ? ? ? ->; cbn; by rewrite <- app_assoc|intros ? ? ? ->; cbn; by rewrite <- app_assoc|done].

Definition value_bytes (v : AggregateValue) : bytes := encode_value v [].
Definition optional_bytes (v : option AggregateValue) : bytes :=
  match v with Some v => x01 :: value_bytes v | None => [x00] end.
Definition entry_bytes (e : AggregateValue * Z) : bytes := value_bytes e.1 ++ i64_le e.2.
Definition counted_bytes (m : counted) : bytes := u32_le (len m) ++ concat (map entry_bytes m).
Definition accumulator_bytes (acc : Accumulator) : bytes := encode_accumulator acc [].

Lemma encode_value_app v : appended (encode_value v) (value_bytes v).
Proof. prove_appends @encode_value_rel. Qed.
Lemma encode_optional_app v : appended (encode_optional v) (optional_bytes v).
Proof. intros s. destruct v as [v|]; [|done]. cbn [encode_optional optional_bytes]. rewrite encode_value_app. cbn. by rewrite <- app_assoc. Qed.
Lemma encode_counted_app m : appended (encode_counted_values m) (counted_bytes m).
Proof.
  intros s. unfold encode_counted_values, counted_bytes. cbn [sink_extend vec_sink]. rewrite (app_assoc s). generalize (s ++ u32_le (len m)).
  induction m as [|e m IH]; intros s'; cbn [fold_left map concat]; [by rewrite app_nil_r|]. rewrite IH, encode_value_app. unfold entry_bytes. by rewrite <- !app_assoc.
Qed.
Lemma encode_accumulator_app acc : appended (encode_accumulator acc) (accumulator_bytes acc).
Proof. prove_appends @encode_accumulator_rel. Qed.
Lemma accumulator_bytes_cases acc :
  accumulator_bytes acc =
    if accumulator_is_neutral acc then [x00]
    else match acc with
    | ACount n => x01 :: i64_le n
    | ADistinctCount n m => x05 :: i64_le n ++ counted_bytes m
    | ASum v n => x02 :: optional_bytes v ++ i64_le n
    | ADistinctSum v n m => x06 :: optional_bytes v ++ i64_le n ++ counted_bytes m
    | AAverage v n => x07 :: optional_bytes v ++ i64_le n
    | ADistinctAverage v n m => x08 :: optional_bytes v ++ i64_le n ++ counted_bytes m
    | AAppendExtremum v => x04 :: optional_bytes v
    | AExtremum m => x03 :: counted_bytes m
    end.
Proof.
  unfold accumulator_bytes, encode_accumulator. destruct (accumulator_is_neutral acc); [done|].
  destruct acc; rewrite ?encode_counted_app, ?encode_optional_app; cbn [sink_push sink_extend vec_sink app]; rewrite ?encode_optional_app; cbn [app]; by rewrite <- ?app_assoc.
Qed.
Lemma state_bytes st :
  encode_aggregate_state st = AGGREGATE_STATE_MAGIC ++ [x06] ++ i64_le (row_count st) ++ u32_le (len (accumulators st)) ++
    concat (map accumulator_bytes (accumulators st)).
Proof.
  unfold encode_aggregate_state, encode_state_into.
  assert (forall l s, fold_left (fun s acc => encode_accumulator acc s) l s = s ++ concat (map accumulator_bytes l)) as Hf.
  { induction l as [|acc l IH]; intros s; cbn [fold_left map concat]; [by rewrite app_nil_r|]. by rewrite IH, encode_accumulator_app, <- app_assoc. }
  rewrite Hf. cbn [sink_extend sink_push vec_sink app]. by rewrite <- !app_assoc.
Qed.

(** ** Readers invert the writers *)

Definition value_wf (v : AggregateValue) : Prop :=
  match v with
  | VBoolean _ => True
  | VInt z => in_signed 128 z
  | VFloat32 b => 0 <= b < 2 ^ 32
  | VFloat64 b => 0 <= b < 2 ^ 64
  | VBytes b => len b <= U32_MAX
  end.
Lemma ag_reads_u8 b : reads ag_u8 [b] (b2z b).
Proof. unfold ag_u8. by eapply reads_bind_ret; [apply reads_exact|]. Qed.
Lemma ag_reads_u32 z : is_u32 z -> reads ag_u32 (u32_le z) z.
Proof. intros Hz. eapply reads_bind_ret; [apply reads_exact; unfold len; by rewrite u32_le_length|]. intros i. by rewrite of_u32_le. Qed.
Lemma ag_reads_i64 z : is_i64 z -> reads ag_i64 (i64_le z) z.
Proof. intros Hz. eapply reads_bind_ret; [apply reads_exact; unfold len; by rewrite i64_le_length|]. intros i. by rewrite i64_of_i64_le. Qed.
Lemma i128_le z : in_signed 128 z -> wraps 128 (of_le (to_le 16 z)) = z.
Proof.
  intros Hz. rewrite of_to_le. change (8 * Z.of_nat 16) with 128. change (z mod 2 ^ 128) with (wrapu 128 z).
  rewrite wraps_wrapu by lia. by apply wraps_id.
Qed.

Lemma reads_i128 z : in_signed 128 z -> reads ag_i128 (to_le 16 z) z.
Proof. intros Hz. eapply reads_bind_ret; [apply reads_exact; unfold len; by rewrite to_le_length|]. intros i. by rewrite i128_le. Qed.
Lemma reads_u64 z : 0 <= z < 2 ^ 64 -> reads ag_u64 (to_le 8 z) z.
Proof. intros Hz. eapply reads_bind_ret; [apply reads_exact; unfold len; by rewrite to_le_length|]. intros i. by rewrite of_to_le_small. Qed.
Lemma reads_value v : value_wf v -> reads decode_value (value_bytes v) v.
Proof.
  intros Hv. unfold decode_value, value_bytes, encode_value. cbn [sink_push sink_extend vec_sink app].
  assert (forall (k : Z -> M input AggregateValue) b bs a, reads (k (b2z b)) bs a -> reads (x ← ag_u8; k x) (b :: bs) a) as Hcons.
  { intros k b bs a Hk. by apply (reads_bind ag_u8 k [b] bs (b2z b)); [apply ag_reads_u8|]. }
  destruct v as [b|z|z|z|b]; apply Hcons; cbn [value_tag].
  - destruct b; (apply Hcons, reads_ret).
  - eapply reads_bind_ret; [by apply reads_i128|done].
  - eapply reads_bind_ret; [apply ag_reads_u32; cbn [value_wf] in Hv; unfold is_u32, U32_MAX; lia|done].
  - eapply reads_bind_ret; [by apply reads_u64|done].
  - eapply reads_bind; [apply ag_reads_u32; split; [apply len_nonneg|done]|]. eapply reads_bind_ret; [by apply reads_exact|done].
Qed.
Lemma reads_optional e v : (forall x, v = Some x -> value_wf x) -> reads (decode_optional_value e) (optional_bytes v) v.
Proof.
  intros Hv. unfold decode_optional_value. destruct v as [v|]; cbn [optional_bytes].
  - apply (reads_bind ag_u8 _ [x01] (value_bytes v) 1); [apply ag_reads_u8|]. eapply reads_bind_ret; [by apply reads_value, Hv|done].
  - apply (reads_bind ag_u8 _ [x00] [] 0); [apply ag_reads_u8|apply reads_ret].
Qed.

Definition entry_wf (e : AggregateValue * Z) : Prop := value_wf e.1 /\ is_i64 e.2.
Lemma reads_entries m last :
  Forall entry_wf m -> bt_sorted fst m -> (forall p e, last = Some p -> e ∈ m -> ocmp p e.1 = Lt) ->
  reads (read_entries false (length m) last) (concat (map entry_bytes m)) (m, true).
Proof.
  intros Hm. revert last. induction Hm as [|[v n] m [Hv Hn] _ IH]; intros last Hs Hl; cbn [length read_entries map concat]; [apply reads_ret|].
  apply bt_sorted_cons in Hs as [Hlt Hs]. unfold entry_bytes. cbn [fst snd] in *. rewrite <- app_assoc.
  eapply reads_bind; [by apply reads_value|]. eapply reads_bind; [by apply ag_reads_i64|].
  assert (match last with Some p => bool_decide (ocmp p v = Lt) | None => true end = true) as ->.
  { destruct last as [p|]; [|done]. apply bool_decide_eq_true. by apply (Hl p (v, n) eq_refl), list_elem_of_here. }
  eapply reads_bind_ret; [apply (IH (Some v) Hs)|done]. intros p e [= <-] He. by apply (Hlt e).
Qed.
Lemma entries_size m : 10 * len m <= len (concat (map entry_bytes m)).
Proof.
  induction m as [|[v n] m IH]; [done|]. cbn [map concat]. change (entry_bytes (v, n)) with (value_bytes v ++ i64_le n). rewrite !len_app, len_cons.
  assert (2 <= len (value_bytes v)).
  { unfold value_bytes, encode_value. destruct v; cbn [sink_push sink_extend vec_sink app]; rewrite ?len_cons, ?len_app; unfold len; rewrite ?to_le_length, ?u32_le_length; cbn; lia. }
  assert (len (i64_le n) = 8) by (unfold len; by rewrite i64_le_length). lia.
Qed.
Lemma reads_counted m : Forall entry_wf m -> bt_sorted fst m -> len m <= U32_MAX -> reads (decode_counted_values false) (counted_bytes m) m.
Proof.
  intros Hm Hs Hl. unfold decode_counted_values, counted_bytes. eapply reads_bind; [apply ag_reads_u32; split; [apply len_nonneg|done]|].
  intros pre r Hok. set (bs := concat (map entry_bytes m)) in *.
  rewrite (M_bind_run _ getS _ (cursor pre (bs ++ r)) (cursor pre (bs ++ r))) by done.
  rewrite (M_bind_run _ (when _ _) _ tt (cursor pre (bs ++ r))).
  2: { unfold when. replace (len (ibytes (cursor pre (bs ++ r))) - ioff (cursor pre (bs ++ r))) with (len bs + len r) by (cbn [ibytes ioff cursor]; rewrite !len_app; lia).
       rewrite (proj2 (Z.ltb_ge _ _)); [done|]. apply Z.div_le_lower_bound; [lia|]. pose proof (entries_size m) as Hsz. fold bs in Hsz. pose proof (len_nonneg r). lia. }
  rewrite len_to_nat. assert (reads (read_entries false (length m) None) bs (m, true)) as He by (by apply reads_entries). by rewrite (M_bind_run _ _ _ _ _ (He pre r Hok)).
Qed.

(** ** Accumulators of rows *)

(** What decoding makes of an accumulator: one that holds nothing is created
    anew. *)
Definition normal (c : Call) (acc acc' : Accumulator) : Prop :=
  if accumulator_is_neutral acc then new_accumulator c = Ok acc' else acc' = acc.

(** The calls and inputs the plan admits: argument types are known for DISTINCT,
    and values have the types of the columns. *)
Definition call_typed (c : Call) : Prop := distinct c = true -> is_Some (input_type c).
Definition input_typed (c : Call) (v : AggregateValue) : Prop :=
  value_wf v /\ (distinct c = true -> exists t, input_type c = Some t /\ aggregate_value_matches_type v t = true) /\
  (function c = Min \/ function c = Max -> aggregate_value_matches_type v (output_type c) = true).
Definition inputs_typed (c : Call) (bag : list (option AggregateValue)) : Prop := Forall (input_typed c) (omap id bag).

Lemma check_values_ok t l : (forall v, v ∈ l -> exists ty, t = Ok ty /\ aggregate_value_matches_type v ty = true) -> check_values t l = Ok tt.
Proof.
  induction l as [|v l IH]; intros Hl; [done|]. cbn [check_values]. destruct (Hl v (list_elem_of_here _ _)) as (ty & E & Hm).
  rewrite E, outcome_bind_run, Hm. unfold guard_ok. rewrite outcome_bind_run, <- E. apply IH. intros x Hx. apply Hl. by right.
Qed.
Lemma wraps_i128 w z : 0 < w <= 128 -> in_signed 128 (wraps w z).
Proof.
  intros Hw. pose proof (wraps_range w z ltac:(lia)). assert (2 ^ (w - 1) <= 2 ^ (128 - 1)) by (apply Z.pow_le_mono_r; lia). unfold in_signed. lia.
Qed.
Lemma int_width_le t w : int_width t = Some w -> 0 < w <= 64 /\ forall z, aggregate_value_matches_type (VInt z) t = true.
Proof. destruct t; cbn; intros; simplify_eq; split; (lia || done). Qed.

Section accumulators.
Context (c : Call) (Hc : call_ok c) (bag : list (option AggregateValue)) (Hin : inputs_typed c bag) (Hlen : len bag <= U32_MAX).
Let l := omap id bag.

Lemma bag_bound : len l <= U32_MAX.
Proof. pose proof (nonnull_len bag). unfold l. lia. Qed.
Lemma counted_wf m : counts m l -> Forall entry_wf m /\ bt_sorted fst m /\ len m <= U32_MAX /\ forall v, v ∈ map fst m -> input_typed c v.
Proof.
  intros Hm. pose proof (distinct_len m l Hm). pose proof bag_bound. destruct (counts_keys m l Hm) as [_ Hk].
  assert (forall v, v ∈ map fst m -> input_typed c v) as Ht by (intros v Hv; apply Hk in Hv; unfold inputs_typed in Hin; rewrite Forall_forall in Hin; by apply Hin).
  split_and!; [|apply Hm|lia|done]. apply Forall_forall. intros [v n] He. split.
  - apply Ht, list_elem_of_fmap. by exists (v, n).
  - pose proof (ct_entries m l Hm) as Hen. rewrite Forall_forall in Hen. destruct (Hen _ He) as [Hok Hpos]. cbn [fst snd] in *.
    pose proof (counted_get_elem m v n (ct_sorted m l Hm) He) as Hg. rewrite (ct_get m l Hm v Hok) in Hg. pose proof (times_le v l). unfold_bounds. lia.
Qed.
Lemma input_checked m : counts m l -> distinct c = true ->
  check_values (match input_type c with Some t => Ok t | None => Panic end) (map fst m) = Ok tt.
Proof.
  intros Hm Hd. destruct (counted_wf m Hm) as (_ & _ & _ & Ht). apply check_values_ok. intros v Hv.
  destruct (Ht v Hv) as (_ & Hdt & _). destruct (Hdt Hd) as (t & -> & E). by exists t.
Qed.
Lemma sum_wf w v k : int_width (output_type c) = Some w -> sum_of w v k ->
  (forall x, v = Some x -> value_wf x) /\ check_values (Ok (output_type c)) (match v with Some v => [v] | None => [] end) = Ok tt.
Proof.
  intros Hw Hs. destruct (int_width_le _ _ Hw) as [Hwl Hm]. destruct Hs as [[-> _]| ->]; [done|]. split.
  - intros x [= <-]. apply wraps_i128. lia.
  - apply check_values_ok. intros x ->%list_elem_of_singleton. eexists. split; [done|apply Hm].
Qed.
Lemma average_wf v k : function c = Avg -> average_of v k ->
  (forall x, v = Some x -> value_wf x) /\ check_values (average_accumulator_type c) (match v with Some v => [v] | None => [] end) = Ok tt.
Proof.
  intros Hf Hv. unfold average_of in Hv. subst v. destruct (average_int c 0 Hc Hf) as [-> _]. split; [intros x Ex; unfold average_of in *; simplify_eq; apply wraps_i128; lia|].
  apply check_values_ok. intros x ->%list_elem_of_singleton. by exists DInt64.
Qed.
End accumulators.

Lemma reads_lift {A B} (o : outcome A) (a : A) (k : A -> M input B) bs b : o = Ok a -> reads (k a) bs b -> reads (lift o ≫= k) bs b.
Proof. intros -> Hk pre r Hok. rewrite (M_bind_run _ (lift (Ok a)) _ a (cursor pre (bs ++ r))) by done. by apply Hk. Qed.
Lemma reads_accumulator c tag bs acc e :
  reads (read_accumulator 6 c (b2z tag)) bs acc -> expected_tag c = Ok e -> b2z tag = 0 \/ b2z tag = e ->
  validate_accumulator_values acc c = Ok tt -> reads (decode_accumulator 6 c) (tag :: bs) acc.
Proof.
  intros Hr He Ht Hv. unfold decode_accumulator. apply (reads_bind ag_u8 _ [tag] bs (b2z tag)); [apply ag_reads_u8|].
  apply (reads_eq _ (bs ++ [])); [|by rewrite app_nil_r]. eapply reads_bind; [exact Hr|]. eapply reads_lift; [exact He|].
  apply reads_when; [destruct Ht as [->| ->]; [done|by rewrite Z.eqb_refl, andb_false_r]|]. eapply reads_lift; [exact Hv|apply reads_ret].
Qed.

Section decoding.
Context (c : Call) (Hc : call_ok c) (bag : list (option AggregateValue)) (Hin : inputs_typed c bag) (Hlen : len bag <= U32_MAX).
Let l := omap id bag.

Lemma neutral_empty acc : denotes c acc bag -> accumulator_is_neutral acc = true ->
  l = [] /\ (forall n, acc = ACount n -> rows_counted c bag = 0).
Proof.
  intros Hd Hn. unfold denotes in Hd. fold l in Hd.
  assert (forall m, counts m l -> bool_decide (m = []) = true -> l = []) as Hm by (intros m Hm E; apply bool_decide_eq_true in E as ->; by apply (counts_empty [] l)).
  assert (forall n, n = len l -> (n =? 0) = true -> l = []) as Hz by (intros n -> E; rewrite len_zero in E; by apply bool_decide_eq_true in E).
  destruct acc as [n| | | | | | |]; cbn [accumulator_is_neutral] in Hn.
  - apply Z.eqb_eq in Hn as ->. assert (rows_counted c bag = 0) as Hr by (destruct (function c); try done; by destruct Hd).
    split; [|done]. unfold rows_counted in Hr. apply (Hz 0); [|done]. destruct (decide (input_index c = None)); [|done].
    pose proof (nonnull_len bag). unfold l. lia.
  - apply andb_true_iff in Hn as [_ Hn]. split; [|done]. destruct (function c); try done; destruct Hd as (_ & Hk & _); by eapply Hm.
  - apply andb_true_iff in Hn as [Hn _]. split; [|done]. destruct (function c); try done; destruct Hd as (_ & Hk & _); by eapply Hz.
  - apply andb_true_iff in Hn as [Hn _]. apply andb_true_iff in Hn as [_ Hn]. split; [|done]. destruct (function c); try done; destruct Hd as (_ & Hk & _); by eapply Hm.
  - apply andb_true_iff in Hn as [Hn _]. split; [|done]. destruct (function c); try done; destruct Hd as (_ & Hk & _); by eapply Hz.
  - apply andb_true_iff in Hn as [Hn _]. apply andb_true_iff in Hn as [_ Hn]. split; [|done]. destruct (function c); try done; destruct Hd as (_ & Hk & _); by eapply Hm.
  - apply bool_decide_eq_true in Hn as ->. split; [|done]. destruct (function c); try done; by destruct Hd.
  - split; [|done]. destruct (function c); try done; destruct Hd as [_ Hk]; by eapply Hm.
Qed.
Lemma fresh_denotes acc fresh :
  denotes c acc bag -> accumulator_is_neutral acc = true -> denotes c fresh [] -> (forall n, fresh = ACount n -> exists k, acc = ACount k) -> denotes c fresh bag.
Proof.
  intros Hd Hn Hf Hshape. destruct (neutral_empty acc Hd Hn) as [Hl Hr]. unfold denotes in Hf |- *. fold l. change (omap id (@nil (option AggregateValue))) with (@nil AggregateValue) in Hf.
  rewrite Hl. destruct fresh; try done. destruct (Hshape _ eq_refl) as [k ->]. specialize (Hr k eq_refl). unfold rows_counted in Hf at 1 2. rewrite Hr.
  destruct (function c); try done; destruct Hf as [Hdi ->]; (split; [done|]); by destruct (decide (input_index c = None)).
Qed.
(** A fresh accumulator has the shape of its call and passes validation. *)
Lemma fresh_valid fresh : new_accumulator c = Ok fresh -> (exists e, expected_tag c = Ok e) /\ validate_accumulator_values fresh c = Ok tt.
Proof.
  unfold call_ok in Hc. unfold new_accumulator, expected_tag. destruct (function c) eqn:Ef; try done; intros Hn.
  - split; [by eexists|]. injection Hn as <-. by destruct (distinct c).
  - split; [by eexists|]. injection Hn as <-. by destruct (distinct c).
  - split; [by eexists|]. injection Hn as <-. by destruct (distinct c).
  - split; [by eexists|]. injection Hn as <-. by destruct (retractable c).
  - split; [by eexists|]. injection Hn as <-. by destruct (retractable c).
  - split; [by eexists|]. destruct (average_int c 0) as [Ht _]; [unfold call_ok; by rewrite Ef|done|]. rewrite Ht, outcome_bind_run in Hn. injection Hn as <-.
    unfold validate_accumulator_values. rewrite Ef, bool_decide_eq_true_2, Ht by done. by destruct (distinct c).
  - split; [by eexists|]. injection Hn as <-. by destruct (distinct c).
Qed.
Lemma decode_neutral acc : denotes c acc bag -> accumulator_is_neutral acc = true ->
  exists acc', reads (decode_accumulator 6 c) (accumulator_bytes acc) acc' /\ denotes c acc' bag.
Proof.
  intros Hd Hn. rewrite accumulator_bytes_cases, Hn. destruct (new_denotes c Hc) as (fresh & Ef & Hf).
  destruct (fresh_valid fresh Ef) as [[e He] Hv]. exists fresh. split.
  - eapply reads_accumulator; [|exact He|by left|exact Hv]. intros pre r Hok. change (read_accumulator 6 c (b2z x00)) with (@lift input _ (new_accumulator c)). rewrite Ef. unfold lift. by rewrite app_nil_r.
  - eapply fresh_denotes; [exact Hd|done|done|]. intros n ->. unfold denotes in Hd. unfold new_accumulator in Ef.
    destruct (function c); destruct acc; try done; try (by eexists); destruct (distinct c), (retractable c); try done; destruct Hd as [? _]; try done;
      by destruct (average_accumulator_type c).
Qed.

Lemma count_i64 n : n = len l -> is_i64 n.
Proof. intros ->. pose proof (bag_bound bag Hlen). pose proof (len_nonneg l). unfold l in *. unfold_bounds. lia. Qed.
Lemma key_count_i64 m : counts m l -> is_i64 (len m).
Proof. intros Hm. destruct (counted_wf c bag Hin Hlen m Hm) as (_ & _ & Hl & _). pose proof (len_nonneg m). unfold_bounds. lia. Qed.
Lemma reads_map m : counts m l -> reads (decode_counted_values false) (counted_bytes m) m.
Proof. intros Hm. destruct (counted_wf c bag Hin Hlen m Hm) as (H1 & H2 & H3 & _). by apply reads_counted. Qed.
(** The tail of the plain and of the DISTINCT forms. *)
Lemma reads_tail {A} (k : Z -> A) n : is_i64 n -> reads (n ← ag_i64; mret (k n)) (i64_le n) (k n).
Proof. intros Hn. eapply reads_bind_ret; [by apply ag_reads_i64|done]. Qed.
Lemma reads_distinct_tail {A} (k : Z -> counted -> A) n m : is_i64 n -> counts m l ->
  reads (n ← ag_i64; m ← decode_counted_values false; mret (k n m)) (i64_le n ++ counted_bytes m) (k n m).
Proof. intros Hn Hm. eapply reads_bind; [by apply ag_reads_i64|]. eapply reads_bind_ret; [by apply reads_map|done]. Qed.

Lemma extremum_typed v : function c = Min \/ function c = Max -> v ∈ l -> value_wf v /\ aggregate_value_matches_type v (output_type c) = true.
Proof. intros Hf Hv. unfold inputs_typed in Hin. rewrite Forall_forall in Hin. destruct (Hin v Hv) as (Hw & _ & Hm). split; [done|by apply Hm]. Qed.
Lemma state_type_not_avg : function c <> Avg -> (if bool_decide (function c = Avg) then average_accumulator_type c else Ok (output_type c)) = Ok (output_type c).
Proof. intros Hf. by rewrite bool_decide_eq_false_2. Qed.
Lemma state_type_avg : function c = Avg -> (if bool_decide (function c = Avg) then average_accumulator_type c else Ok (output_type c)) = average_accumulator_type c.
Proof. intros Hf. by rewrite bool_decide_eq_true_2. Qed.

Lemma decode_sum v n w : function c = Sum \/ function c = Sum0 -> distinct c = false -> n = len l -> int_width (output_type c) = Some w -> sum_of w v l ->
  reads (decode_accumulator 6 c) (x02 :: optional_bytes v ++ i64_le n) (ASum v n).
Proof.
  intros Hf Hd Hn Hw Hs. destruct (sum_wf c w v l Hw Hs) as [Hv Hk]. apply (reads_accumulator c x02 _ _ 2).
  - eapply (reads_bind (decode_optional_value sum_presence) (fun v => n ← ag_i64; mret (ASum v n))); [by apply reads_optional|].
    by apply (reads_tail (ASum v)), count_i64.
  - unfold expected_tag. rewrite Hd. by destruct Hf as [-> | ->].
  - by right.
  - unfold validate_accumulator_values. rewrite state_type_not_avg; [done|]. destruct Hf as [-> | ->]; done.
Qed.
Lemma decode_distinct_sum v n m w : function c = Sum \/ function c = Sum0 -> distinct c = true -> counts m l -> n = len m ->
  int_width (output_type c) = Some w -> sum_of w v (map fst m) ->
  reads (decode_accumulator 6 c) (x06 :: optional_bytes v ++ i64_le n ++ counted_bytes m) (ADistinctSum v n m).
Proof.
  intros Hf Hd Hm -> Hw Hs. destruct (sum_wf c w v _ Hw Hs) as [Hv Hk]. apply (reads_accumulator c x06 _ _ 6).
  - eapply (reads_bind (decode_optional_value _) (fun v => n ← ag_i64; m ← decode_counted_values false; mret (ADistinctSum v n m))); [by apply reads_optional|].
    apply (reads_distinct_tail (ADistinctSum v)); [by apply key_count_i64|done].
  - unfold expected_tag. rewrite Hd. by destruct Hf as [-> | ->].
  - by right.
  - unfold validate_accumulator_values. rewrite (input_checked c bag Hin Hlen m Hm Hd), outcome_bind_run, state_type_not_avg; [done|]. destruct Hf as [-> | ->]; done.
Qed.
Lemma decode_average v n : function c = Avg -> distinct c = false -> n = len l -> average_of v l ->
  reads (decode_accumulator 6 c) (x07 :: optional_bytes v ++ i64_le n) (AAverage v n).
Proof.
  intros Hf Hd Hn Hs. destruct (average_wf c Hc v l Hf Hs) as [Hv Hk]. apply (reads_accumulator c x07 _ _ 7).
  - eapply (reads_bind (decode_optional_value _) (fun v => n ← ag_i64; mret (AAverage v n))); [by apply reads_optional|].
    by apply (reads_tail (AAverage v)), count_i64.
  - unfold expected_tag. by rewrite Hf, Hd.
  - by right.
  - unfold validate_accumulator_values. by rewrite state_type_avg.
Qed.
Lemma decode_distinct_average v n m : function c = Avg -> distinct c = true -> counts m l -> n = len m -> average_of v (map fst m) ->
  reads (decode_accumulator 6 c) (x08 :: optional_bytes v ++ i64_le n ++ counted_bytes m) (ADistinctAverage v n m).
Proof.
  intros Hf Hd Hm -> Hs. destruct (average_wf c Hc v _ Hf Hs) as [Hv Hk]. apply (reads_accumulator c x08 _ _ 8).
  - eapply (reads_bind (decode_optional_value _) (fun v => n ← ag_i64; m ← decode_counted_values false; mret (ADistinctAverage v n m))); [by apply reads_optional|].
    apply (reads_distinct_tail (ADistinctAverage v)); [by apply key_count_i64|done].
  - unfold expected_tag. by rewrite Hf, Hd.
  - by right.
  - unfold validate_accumulator_values. by rewrite (input_checked c bag Hin Hlen m Hm Hd), outcome_bind_run, state_type_avg.
Qed.
Lemma decode_count n : function c = CountStar \/ function c = Count -> distinct c = false -> n = rows_counted c bag ->
  reads (decode_accumulator 6 c) (x01 :: i64_le n) (ACount n).
Proof.
  intros Hf Hd Hn. apply (reads_accumulator c x01 _ _ 1); [|unfold expected_tag; rewrite Hd; by destruct Hf as [-> | ->]|by right|done].
  apply (reads_tail ACount). subst n. unfold rows_counted. pose proof (nonnull_len bag). pose proof (len_nonneg bag). destruct (decide _); unfold_bounds; lia.
Qed.
Lemma decode_distinct_count n m : function c = CountStar \/ function c = Count -> distinct c = true -> counts m l -> n = len m ->
  reads (decode_accumulator 6 c) (x05 :: i64_le n ++ counted_bytes m) (ADistinctCount n m).
Proof.
  intros Hf Hd Hm ->. apply (reads_accumulator c x05 _ _ 5); [|unfold expected_tag; rewrite Hd; by destruct Hf as [-> | ->]|by right|by apply (input_checked c bag Hin Hlen)].
  apply (reads_distinct_tail ADistinctCount); [by apply key_count_i64|done].
Qed.
Lemma decode_append v : function c = Min \/ function c = Max -> retractable c = false -> extremum_of c v l ->
  reads (decode_accumulator 6 c) (x04 :: optional_bytes v) (AAppendExtremum v).
Proof.
  intros Hf Hr He. apply (reads_accumulator c x04 _ _ 4); [|unfold expected_tag; rewrite Hr; by destruct Hf as [-> | ->]|by right|].
  - destruct v as [v|]; cbn [optional_bytes].
    + destruct He as [Hv _]. destruct (extremum_typed v Hf Hv) as [Hw _]. eapply (reads_bind ag_u8 _ [x01] (value_bytes v) 1); [apply ag_reads_u8|].
      eapply (reads_bind_ret decode_value); [by apply reads_value|done].
    + eapply (reads_bind ag_u8 _ [x00] [] 0); [apply ag_reads_u8|apply reads_ret].
  - unfold validate_accumulator_values. rewrite state_type_not_avg by (by destruct Hf as [-> | ->]). apply check_values_ok.
    intros x Hx. destruct v as [v|]; [|by apply not_elem_of_nil in Hx]. apply list_elem_of_singleton in Hx as ->. destruct He as [Hv _].
    eexists. split; [done|]. by apply extremum_typed.
Qed.
Lemma decode_extremum m : function c = Min \/ function c = Max -> retractable c = true -> counts m l ->
  reads (decode_accumulator 6 c) (x03 :: counted_bytes m) (AExtremum m).
Proof.
  intros Hf Hr Hm. apply (reads_accumulator c x03 _ _ 3); [|unfold expected_tag; rewrite Hr; by destruct Hf as [-> | ->]|by right|].
  - eapply (reads_bind_ret (decode_counted_values false)); [by apply reads_map|done].
  - unfold validate_accumulator_values. rewrite state_type_not_avg by (by destruct Hf as [-> | ->]). apply check_values_ok.
    intros v Hv. destruct (counts_keys m l Hm) as [_ Hk]. apply Hk in Hv. eexists. split; [done|]. by apply extremum_typed.
Qed.

Lemma decode_full acc : denotes c acc bag -> accumulator_is_neutral acc = false -> reads (decode_accumulator 6 c) (accumulator_bytes acc) acc.
Proof.
  intros Hd Hn. rewrite accumulator_bytes_cases, Hn. clear Hn. unfold denotes in Hd. fold l in Hd.
  destruct acc as [n|n m|v n|v n m|v n|v n m|v|m].
  - destruct (function c) eqn:Ef; try done; apply decode_count; tauto.
  - destruct (function c) eqn:Ef; try done; apply decode_distinct_count; tauto.
  - destruct (function c) eqn:Ef; try done; destruct Hd as (? & ? & w & ? & ?); apply (decode_sum v n w); tauto.
  - destruct (function c) eqn:Ef; try done; destruct Hd as (? & ? & ? & w & ? & ?); apply (decode_distinct_sum v n m w); tauto.
  - destruct (function c) eqn:Ef; try done; apply decode_average; tauto.
  - destruct (function c) eqn:Ef; try done; apply decode_distinct_average; tauto.
  - destruct (function c) eqn:Ef; try done; apply decode_append; tauto.
  - destruct (function c) eqn:Ef; try done; apply decode_extremum; tauto.
Qed.
Lemma decode_denotes acc : denotes c acc bag -> exists acc', reads (decode_accumulator 6 c) (accumulator_bytes acc) acc' /\ denotes c acc' bag.
Proof.
  intros Hd. destruct (accumulator_is_neutral acc) eqn:Hn; [by apply decode_neutral|]. exists acc. split; [by apply decode_full|done].
Qed.
End decoding.

(** ** States *)

Lemma reads_accumulators (Q : nat -> Accumulator -> Prop) calls accs :
  length accs = length calls ->
  (forall i c acc, calls !! i = Some c -> accs !! i = Some acc -> exists acc', reads (decode_accumulator 6 c) (accumulator_bytes acc) acc' /\ Q i acc') ->
  exists accs', reads (collectM (decode_accumulator 6) calls) (concat (map accumulator_bytes accs)) accs' /\ length accs' = length calls /\
    forall i acc', accs' !! i = Some acc' -> Q i acc'.
Proof.
  revert Q accs. induction calls as [|c calls IH]; intros Q [|acc accs] Hl Hstep; try done.
  { exists []. split; [apply reads_ret|done]. }
  destruct (IH (fun i => Q (S i)) accs) as (accs' & Hr & Hl' & HQ); [naive_solver|intros i; apply (Hstep (S i))|].
  destruct (Hstep 0%nat c acc eq_refl eq_refl) as (acc' & Hr' & Hacc). exists (acc' :: accs'). cbn [collectM map concat]. split; [|split; [cbn; lia|]].
  - eapply reads_bind; [exact Hr'|]. eapply reads_bind_ret; [exact Hr|done].
  - intros [|i] x Hx; cbn in Hx; [by simplify_eq|by apply HQ].
Qed.

Definition group_row_typed (calls : list Call) (r : GroupRow) : Prop :=
  forall i c v, calls !! i = Some c -> row_input i r = Some (Some v) -> input_typed c v.
Lemma column_typed calls rows i c : Forall (group_row_typed calls) rows -> calls !! i = Some c -> inputs_typed c (column i rows).
Proof.
  intros Hr Hi. induction Hr as [|r rows Hr _ IH]; [constructor|]. rewrite column_cons. destruct (row_input i r) as [[v|]|] eqn:E; [|done|done].
  constructor; [by apply (Hr i)|done].
Qed.

Lemma decode_encoded calls s rows :
  Forall call_ok calls -> Forall (group_row_typed calls) rows -> group_state calls s rows ->
  len rows <= U32_MAX -> len calls <= U32_MAX -> slice_ok (encode_aggregate_state s) ->
  exists s', decode_aggregate_state (encode_aggregate_state s) calls = Ok s' /\ group_state calls s' rows.
Proof.
  intros Hcalls Htyped (Hn & Hl & Hd) Hrows Hcl Hok. rewrite Forall_lookup in Hcalls.
  destruct (reads_accumulators (fun i acc => forall c, calls !! i = Some c -> denotes c acc (column i rows)) calls (accumulators s) Hl) as (accs & Hr & Hl' & HQ).
  { intros i c acc Hc Ha. pose proof (input_column_len i rows). destruct (decode_denotes c (Hcalls i c Hc) (column i rows) (column_typed _ _ _ _ Htyped Hc)) with (acc := acc) as (acc' & Hr & Hd');
      [lia|by apply Hd|]. exists acc'. split; [done|]. intros c' ?. by simplify_eq. }
  exists {| row_count := row_count s; accumulators := accs |}. split; [|split; [done|split; [done|intros i c acc Hc Ha; by apply (HQ i)]]].
  rewrite state_bytes in *. unfold decode_aggregate_state.
  set (bs := concat (map accumulator_bytes (accumulators s))) in *.
  assert (len (accumulators s) = len calls) as Hlc by (unfold len; by rewrite Hl).
  change {| ibytes := AGGREGATE_STATE_MAGIC ++ [x06] ++ i64_le (row_count s) ++ u32_le (len (accumulators s)) ++ bs; ioff := 0 |}
    with (cursor [] (AGGREGATE_STATE_MAGIC ++ [x06] ++ i64_le (row_count s) ++ u32_le (len (accumulators s)) ++ bs)).
  assert (reads_end (decode_aggregate_input calls) [] (AGGREGATE_STATE_MAGIC ++ [x06] ++ i64_le (row_count s) ++ u32_le (len (accumulators s)) ++ bs)
    {| row_count := row_count s; accumulators := accs |}) as He; [|by rewrite He].
  unfold decode_aggregate_input. eapply reads_end_bind; [by apply reads_exact|]. apply reads_end_when; [by rewrite bool_decide_eq_true_2|].
  eapply (reads_end_bind ag_u8 _ _ [x06] _ 6); [apply ag_reads_u8|]. apply reads_end_when; [done|].
  eapply reads_end_bind; [apply ag_reads_i64; rewrite Hn; pose proof (len_nonneg rows); unfold_bounds; lia|].
  eapply reads_end_bind; [apply ag_reads_u32; split; [apply len_nonneg|lia]|]. apply reads_end_when; [by rewrite Hlc, Z.eqb_refl|].
  apply (reads_end_eq _ _ (bs ++ [])); [|by rewrite app_nil_r]. eapply reads_end_bind; [exact Hr|].
  apply reads_end_getS, reads_end_when; [apply cursor_not_end|apply reads_end_ret].
Qed.

(** ** Decoding never panics *)

(** A reader that neither panics nor moves before the start of its input, and
    whose results satisfy [P]. *)
Definition total_reader {A} (m : M input A) (P : A -> Prop) : Prop :=
  forall i, 0 <= ioff i -> match m i with (Ok a, j) => 0 <= ioff j /\ P a | (Err _, j) => 0 <= ioff j | (Panic, _) => False end.
Lemma total_bind {A B} (m : M input A) (k : A -> M input B) (P : A -> Prop) (Q : B -> Prop) :
  total_reader m P -> (forall a, P a -> total_reader (k a) Q) -> total_reader (m ≫= k) Q.
Proof.
  intros Hm Hk i Hi. unfold mbind, M_bind. specialize (Hm i Hi). destruct (m i) as [[a| |] j]; [|done|done]. destruct Hm as [Hj Ha]. by apply Hk.
Qed.
Lemma total_ret {A} (a : A) (P : A -> Prop) : P a -> total_reader (mret a) P.
Proof. by intros Ha i Hi. Qed.
Lemma total_throw {A} e (P : A -> Prop) : total_reader (throw e) P.
Proof. by intros i Hi. Qed.
Lemma total_when b e : total_reader (when b e) (fun _ => b = false).
Proof. intros i Hi. by destruct b. Qed.
Lemma total_getS : total_reader getS (fun _ => True).
Proof. by intros i Hi. Qed.
Lemma total_lift {A} (o : outcome A) (P : A -> Prop) : (match o with Ok a => P a | Err _ => True | Panic => False end) -> total_reader (lift o) P.
Proof. intros Ho i Hi. unfold lift. by destruct o. Qed.
Lemma total_weaken {A} (m : M input A) (P Q : A -> Prop) : total_reader m P -> (forall a, P a -> Q a) -> total_reader m Q.
Proof. intros Hm HPQ i Hi. specialize (Hm i Hi). destruct (m i) as [[a| |] j]; [|done|done]. destruct Hm. auto. Qed.
Lemma total_read n : 0 <= n -> total_reader (ag_read n) (fun v => len v = n).
Proof.
  intros Hn i Hi. unfold ag_read, read_exact_with, checked_add. case_bool; [|done]. unfold slice_get.
  destruct ((ioff i <=? ioff i + n) && (ioff i + n <=? len (ibytes i))) eqn:E; [|done]. cbn [ioff]. split; [lia|].
  apply andb_true_iff in E as [H1 H2]. apply Z.leb_le in H1, H2. unfold len in *. rewrite length_take, length_drop. lia.
Qed.
Lemma total_u8 : total_reader ag_u8 (fun _ => True).
Proof.
  unfold ag_u8. eapply total_bind; [by apply total_read|]. intros [|b v] Hl; [done|by apply total_ret].
Qed.
Lemma total_u32 : total_reader ag_u32 (fun z => 0 <= z).
Proof. unfold ag_u32. eapply total_bind; [by apply total_read|]. intros v Hl. apply total_ret, of_le_range. Qed.
Lemma total_i64 : total_reader ag_i64 (fun _ => True).
Proof. unfold ag_i64. eapply total_bind; [by apply total_read|]. intros v Hl. by apply total_ret. Qed.
Lemma total_i128 : total_reader ag_i128 (fun _ => True).
Proof. unfold ag_i128. eapply total_bind; [by apply total_read|]. intros v Hl. by apply total_ret. Qed.
Lemma total_u64 : total_reader ag_u64 (fun _ => True).
Proof. unfold ag_u64. eapply total_bind; [by apply total_read|]. intros v Hl. by apply total_ret. Qed.
Create HintDb readers.
#[local] Hint Resolve total_throw total_u8 total_u64 total_u32 total_i64 total_i128 total_getS : readers.
(** One step of a reader. *)
Ltac total_step :=
  first [ by apply total_ret | apply total_throw | (eapply total_bind; [solve [eauto with readers] | intros]) | (case_match; subst) ].

Lemma total_value : total_reader decode_value (fun _ => True).
Proof.
  unfold decode_value. repeat total_step. eapply total_bind; [by apply total_read|]. intros. by apply total_ret.
Qed.
#[local] Hint Resolve total_value : readers.
Lemma total_optional e : total_reader (decode_optional_value e) (fun _ => True).
Proof. unfold decode_optional_value. repeat total_step. Qed.
Lemma total_entries legacy n last : total_reader (read_entries legacy n last) (fun _ => True).
Proof.
  revert last. induction n as [|n IH]; intros last; cbn [read_entries]; [by apply total_ret|].
  eapply total_bind with (P := fun _ => True); [destruct legacy; [eapply total_bind; [apply total_i128|intros; by apply total_ret]|apply total_value]|].
  intros v _. eapply total_bind; [apply total_i64|]. intros k _. eapply total_bind; [apply IH|]. intros [rest strict] _. by apply total_ret.
Qed.
Lemma total_counted legacy : total_reader (decode_counted_values legacy) (fun _ => True).
Proof.
  unfold decode_counted_values. eapply total_bind; [apply total_u32|]. intros n _. eapply total_bind; [apply total_getS|]. intros i _.
  eapply total_bind; [apply total_when|]. intros _ _. eapply total_bind; [apply total_entries|]. intros [staged strict] _. by apply total_ret.
Qed.
#[local] Hint Resolve total_optional total_counted : readers.

Definition tag_of (acc : Accumulator) : Z :=
  match acc with
  | ACount _ => 1 | ASum _ _ => 2 | AExtremum _ => 3 | AAppendExtremum _ => 4 | ADistinctCount _ _ => 5
  | ADistinctSum _ _ _ => 6 | AAverage _ _ => 7 | ADistinctAverage _ _ _ => 8
  end.
(** The accumulator has the shape of its tag, or is the fresh one. *)
Lemma total_accumulator version c tag : call_ok c ->
  total_reader (read_accumulator version c tag) (fun acc => tag_of acc = tag \/ new_accumulator c = Ok acc).
Proof.
  intros Hc. unfold read_accumulator. destruct (new_denotes c Hc) as (fresh & Ef & _).
  repeat first [ by apply total_ret; left | apply total_throw | (apply total_lift; rewrite Ef; by right)
               | (eapply total_bind; [solve [eauto with readers] | intros]) | case_match; subst ].
  all: eapply total_bind with (P := fun _ => True); [repeat total_step; eauto with readers|].
  all: intros v _; repeat first [ by apply total_ret; left | (eapply total_bind; [solve [eauto with readers] | intros]) ].
Qed.

(** Validation reaches no type that is not there. *)
Lemma check_values_total t l : (l = [] \/ exists ty, t = Ok ty) -> check_values t l <> Panic.
Proof.
  intros [-> |[ty ->]]; [done|]. induction l as [|v l IH]; [done|]. cbn [check_values]. rewrite outcome_bind_run. unfold guard_ok.
  by destruct (aggregate_value_matches_type v ty).
Qed.
Lemma validate_total acc c : call_ok c -> call_typed c -> (expected_tag c = Ok (tag_of acc) \/ new_accumulator c = Ok acc) ->
  validate_accumulator_values acc c <> Panic.
Proof.
  intros Hc Ht [He|Hf]; [|by destruct (fresh_valid c Hc acc Hf) as [_ ->]].
  assert (distinct c = true -> exists ty, match input_type c with Some t => Ok t | None => Panic end = Ok ty) as Hin
    by (intros Hd; destruct (Ht Hd) as [t ->]; by exists t).
  assert (exists ty, (if bool_decide (function c = Avg) then average_accumulator_type c else Ok (output_type c)) = Ok ty) as Hst.
  { case_bool_decide as Ha; [|by eexists]. destruct (average_int c 0 Hc Ha) as [-> _]. by eexists. }
  assert (tag_of acc = 5 \/ tag_of acc = 6 \/ tag_of acc = 8 -> distinct c = true) as Hdist
    by (unfold expected_tag in He; destruct (function c), (distinct c), (retractable c); simplify_eq; try done; lia).
  unfold validate_accumulator_values. destruct acc; cbn [tag_of] in *; try done; try (apply check_values_total; by right).
  - apply check_values_total. right. apply Hin, Hdist. lia.
  - destruct (check_values _ (map fst values)) as [[]| |] eqn:E; [|done|]; [rewrite outcome_bind_run; apply check_values_total; by right|].
    exfalso. revert E. apply check_values_total. right. apply Hin, Hdist. lia.
  - destruct (check_values _ (map fst values)) as [[]| |] eqn:E; [|done|]; [rewrite outcome_bind_run; apply check_values_total; by right|].
    exfalso. revert E. apply check_values_total. right. apply Hin, Hdist. lia.
Qed.
Lemma total_decode_accumulator version c : call_ok c -> call_typed c -> total_reader (decode_accumulator version c) (fun _ => True).
Proof.
  intros Hc Ht. unfold decode_accumulator. eapply total_bind; [apply total_u8|]. intros tag _.
  eapply total_bind; [by apply total_accumulator|]. intros acc Hacc. destruct (new_denotes c Hc) as (fresh & Ef & _).
  destruct (fresh_valid c Hc fresh Ef) as [[e He] _]. rewrite He. eapply total_bind; [by apply total_lift with (P := fun e' => e' = e)|]. intros e' ->.
  eapply total_bind; [apply total_when|]. intros [] Htag. eapply total_bind; [apply total_lift with (P := fun _ => True)|intros; by apply total_ret].
  assert (validate_accumulator_values acc c <> Panic) as Hv; [|by destruct (validate_accumulator_values acc c)].
  apply validate_total; [done|done|]. destruct Hacc as [Htg|Hacc]; [|by right]. left. rewrite He. f_equal. cbn beta in Htag. rewrite <- Htg in Htag.
  apply andb_false_iff in Htag as [Hz|Hz]; apply negb_false_iff, Z.eqb_eq in Hz; [by destruct acc|done].
Qed.

Lemma decode_total bs calls : Forall call_ok calls -> Forall call_typed calls -> decode_aggregate_state bs calls <> Panic.
Proof.
  intros Hc Ht. unfold decode_aggregate_state.
  assert (total_reader (decode_aggregate_input calls) (fun _ => True)) as Hd.
  { unfold decode_aggregate_input. eapply total_bind; [by apply total_read|]. intros m _. eapply total_bind; [apply total_when|]. intros _ _.
    eapply total_bind; [apply total_u8|]. intros version _. eapply total_bind; [apply total_when|]. intros _ _.
    eapply total_bind; [apply total_i64|]. intros rows _. eapply total_bind; [apply total_u32|]. intros n _. eapply total_bind; [apply total_when|]. intros _ _.
    eapply total_bind with (P := fun _ => True).
    - clear -Hc Ht. induction Hc as [|c calls Hc _ IH]; cbn [collectM]; [by apply total_ret|]. apply Forall_cons in Ht as [Htc Ht].
      eapply total_bind; [by apply total_decode_accumulator|]. intros acc _. eapply total_bind; [by apply IH|]. intros accs _. by apply total_ret.
    - intros accs _. eapply total_bind; [apply total_getS|]. intros i _. eapply total_bind; [apply total_when|]. intros _ _. by apply total_ret. }
  specialize (Hd {| ibytes := bs; ioff := 0 |} ltac:(done)). by destruct (decode_aggregate_input _ _) as [[]].
Qed.

(** ** Bounded states *)

Lemma slice_inside bs a b : 0 <= a <= b -> b <= len bs -> exists v, slice bs a b = Ok v /\ len v = b - a.
Proof.
  intros Ha Hb. unfold slice, slice_get. rewrite !(proj2 (Z.leb_le _ _)) by lia. cbn [andb]. eexists. split; [done|].
  unfold len in *. rewrite length_take, length_drop. lia.
Qed.
Lemma slice_middle_ok pre v r : slice (pre ++ v ++ r) (len pre) (len pre + len v) = Ok v.
Proof.
  unfold slice, slice_get. rewrite !len_app. pose proof (len_nonneg v). pose proof (len_nonneg r). rewrite !(proj2 (Z.leb_le _ _)) by lia. cbn [andb].
  replace (Z.to_nat (len pre + len v - len pre)) with (length v) by (unfold len; lia). by rewrite len_to_nat, drop_app_length, take_app_length.
Qed.
Lemma bounded_roundtrip g s s' calls :
  decode_aggregate_state (encode_aggregate_state s) calls = Ok s' -> len g <= U32_MAX ->
  exists bs, encode_bounded_state g s = Ok bs /\ decode_bounded_state bs calls = Ok (g, s').
Proof.
  intros Hd Hg. unfold encode_bounded_state. rewrite (proj2 (Z.leb_le _ _)) by done. eexists. split; [done|]. set (tail := encode_aggregate_state s) in *.
  pose proof (len_nonneg g). pose proof (len_nonneg tail). assert (len (u32_le (len g)) = 4) as H4 by (unfold len; by rewrite u32_le_length).
  set (bs := BOUNDED_STATE_MAGIC ++ [BOUNDED_STATE_VERSION] ++ u32_le (len g) ++ g ++ tail).
  assert (len bs = 9 + len g + len tail) as Hl by (unfold bs; rewrite !len_app, H4; change (len BOUNDED_STATE_MAGIC) with 4; change (len [BOUNDED_STATE_VERSION]) with 1; lia).
  unfold decode_bounded_state. rewrite (proj2 (Z.ltb_ge (len bs) 9)) by lia. change (take 4 bs) with BOUNDED_STATE_MAGIC. rewrite bool_decide_eq_true_2 by done. cbn [negb orb].
  pose proof (slice_middle_ok BOUNDED_STATE_MAGIC [BOUNDED_STATE_VERSION] (u32_le (len g) ++ g ++ tail)) as S1.
  pose proof (slice_middle_ok (BOUNDED_STATE_MAGIC ++ [BOUNDED_STATE_VERSION]) (u32_le (len g)) (g ++ tail)) as S2.
  pose proof (slice_middle_ok (BOUNDED_STATE_MAGIC ++ [BOUNDED_STATE_VERSION] ++ u32_le (len g)) g tail) as S3.
  pose proof (slice_middle_ok (BOUNDED_STATE_MAGIC ++ [BOUNDED_STATE_VERSION] ++ u32_le (len g) ++ g) tail []) as S4.
  rewrite app_nil_r in S4. rewrite <- !app_assoc in S2. rewrite <- !app_assoc in S3. rewrite <- !app_assoc in S4. fold bs in S1, S2, S3, S4. rewrite !len_app, H4 in *.
  change (len BOUNDED_STATE_MAGIC) with 4 in *. change (len [BOUNDED_STATE_VERSION]) with 1 in *. change (4 + 1) with 5 in *. change (4 + (1 + 4)) with 9 in *. change (5 + 4) with 9 in *.
  rewrite S1, outcome_bind_run, bool_decide_eq_true_2 by done. cbn [negb]. rewrite S2, outcome_bind_run, of_u32_le by (split; [lia|done]).
  rewrite checked_add_small by mlia. rewrite (proj2 (Z.ltb_ge _ _)) by lia. rewrite S3, outcome_bind_run.
  replace (4 + (1 + (4 + len g))) with (9 + len g) in S4 by lia. rewrite Hl, S4, outcome_bind_run, Hd. done.
Qed.
Lemma decode_bounded_total bs calls : Forall call_ok calls -> Forall call_typed calls -> decode_bounded_state bs calls <> Panic.
Proof.
  intros Hc Ht. unfold decode_bounded_state. destruct (Z.ltb_spec (len bs) 9); [done|]. cbn [orb]. destruct (negb _); [done|].
  destruct (slice_inside bs 4 5) as (v & -> & _); [lia|lia|]. rewrite outcome_bind_run. destruct (negb _); [done|].
  destruct (slice_inside bs 5 9) as (n & -> & _); [lia|lia|]. rewrite outcome_bind_run. pose proof (of_le_range n).
  destruct (checked_add 9 (of_le n)) as [e|] eqn:E; [|done]. apply checked_add_Some in E as [-> _]. destruct (Z.ltb_spec (len bs) (9 + of_le n)); [done|].
  destruct (slice_inside bs 9 (9 + of_le n)) as (row & -> & _); [lia|lia|]. rewrite outcome_bind_run.
  destruct (slice_inside bs (9 + of_le n) (len bs)) as (tail & -> & _); [lia|lia|]. rewrite outcome_bind_run.
  pose proof (decode_total tail calls Hc Ht). by destruct (decode_aggregate_state tail calls).
Qed.

(** C28: the state of a group survives its encoding: what is written for a state
    that stands for [rows] is decoded, with the same calls, to a state that stands
    for the same rows, so its row count and the SQL value of every call are the
    same and every later change applies to it, also with a grouping row in front;
    the size announced beforehand is the size written; and decoding never panics,
    whatever the bytes. *)
Theorem aggregate_state_codec `{I256} `{BigInteger} (calls : list Call) (s : AccumulatorState) (rows : list GroupRow) :
  Forall call_ok calls -> Forall call_typed calls -> Forall (group_row_typed calls) rows -> group_state calls s rows ->
  len rows <= U32_MAX -> len calls <= U32_MAX -> slice_ok (encode_aggregate_state s) ->
  (exists s', decode_aggregate_state (encode_aggregate_state s) calls = Ok s' /\ group_state calls s' rows /\ row_count s' = row_count s /\
    exists vs vs', state_values calls (accumulators s) = Ok vs /\ state_values calls (accumulators s') = Ok vs' /\
      sql_values calls rows vs /\ sql_values calls rows vs' /\
    forall g, len g <= U32_MAX -> exists bs, encode_bounded_state g s = Ok bs /\ decode_bounded_state bs calls = Ok (g, s')) /\
  encoded_state_size s = len (encode_aggregate_state s) /\
  forall bs, decode_aggregate_state bs calls <> Panic /\ decode_bounded_state bs calls <> Panic.
Proof.
  intros Hc Hct Hr Hs Hn Hcl Hok. destruct (decode_encoded calls s rows) as (s' & E & Hs'); [done..|]. split; [|split].
  - exists s'. split; [done|]. split; [done|]. split; [destruct Hs as [-> _], Hs' as [-> _]; done|].
    destruct (group_values calls Hc s rows Hs) as (vs & Ev & Hv), (group_values calls Hc s' rows Hs') as (vs' & Ev' & Hv'). exists vs, vs'. split_and!; [done..|].
    intros g Hg. by apply bounded_roundtrip.
  - apply encoded_state_size_spec. unfold slice_ok in Hok. unfold_bounds. lia.
  - intros bs. split; [by apply decode_total|by apply decode_bounded_total].
Qed.
