(* ===== verification/AggregateFixtures.v ===== *)
(** * Concrete runs of the aggregates

    A group with six calls, its state through the codec, and sessions of it. *)

From Stdlib Require Import ZArith Lia Strings.Byte.
From stdpp Require Import base list option numbers strings sorting.
From S2P Require Import Prelude Bytes OrdMap Arrow Decimal DecimalFixture Aggregate AggregateSpec AggregateChanges.

(** COUNT( * ), COUNT(DISTINCT a), SUM(a) FILTER, AVG(a), MIN(a), MAX(a). *)
Definition int_call (f : AggregateFunction) (d : bool) : Call :=
  {| function := f; input_index := if decide (f = CountStar) then None else Some 0; filter_index := None; distinct := d;
     input_type := Some DInt32; output_type := DInt32; retractable := true |}.
Definition sample_calls : list Call :=
  [int_call CountStar false; int_call Count true; int_call Sum false; int_call Avg false; int_call Min false; int_call Max false].
Definition sample_row (v : option Z) (passes : bool) : GroupRow :=
  let v := VInt <$> v in [(v, true); (v, true); (v, passes); (v, true); (v, true); (v, true)].
Definition sample_changes : list (bool * GroupRow) :=
  [(true, sample_row (Some 2147483647) true); (true, sample_row (Some 3) true); (true, sample_row None true);
   (true, sample_row (Some 3) false); (true, sample_row (Some 9) true); (false, sample_row (Some 9) true)].
Definition sample_live : list GroupRow :=
  [sample_row (Some 3) false; sample_row None true; sample_row (Some 3) true; sample_row (Some 2147483647) true].

Lemma sample_calls_ok : Forall call_ok sample_calls.
Proof. unfold sample_calls. rewrite !Forall_cons. split_and!; try done; try (by eexists). split; [by eexists|by exists DInt32; split; [|by eexists]]. Qed.
Lemma sample_row_ok v passes : in_signed 32 (default 0 v) -> group_row_ok sample_calls (sample_row v passes).
Proof.
  intros Hv. split; [done|]. intros i c x Hc Hx.
  assert (exists z, x = VInt z /\ in_signed 32 z) as (z & -> & Hz).
  { destruct v as [v|].
    - exists v. split; [|done]. do 6 (destruct i as [|i]; [cbn in Hx; destruct passes; by simplify_eq|]). done.
    - do 6 (destruct i as [|i]; [cbn in Hx; destruct passes; by simplify_eq|]). done. }
  assert (in_signed 64 z) as Hz' by (unfold in_signed in *; lia).
  do 6 (destruct i as [|i]; [cbn in Hc; injection Hc as <-; split; [done|]; cbn; try done; eauto|]). done.
Qed.
Lemma sample_changes_ok : Forall (change_ok sample_calls) sample_changes.
Proof.
  assert (retractions_ok sample_calls) as Hr by (unfold retractions_ok, sample_calls; rewrite !Forall_cons; by cbn).
  unfold sample_changes. rewrite !Forall_cons. split_and!; try done; (split; [apply sample_row_ok; split; vm_compute; congruence|done]).
Qed.

Lemma aggregate_changelog_witness :
  live sample_changes [] = Some sample_live /\
  exists s0 s vs, new_state sample_calls = Ok s0 /\ forM sample_changes (apply_change sample_calls) s0 = (Ok tt, s) /\
    row_count s = 4 /\ state_values sample_calls (accumulators s) = Ok vs /\ sql_values sample_calls sample_live vs.
Proof.
  split; [vm_compute; reflexivity|].
  apply (aggregate_changelog sample_calls sample_changes sample_live sample_calls_ok sample_changes_ok);
    [vm_compute; reflexivity|vm_compute; congruence].
Defined.
Lemma aggregate_merge_witness :
  exists s0 s t m vs, new_state sample_calls = Ok s0 /\ forM sample_changes (apply_change sample_calls) s0 = (Ok tt, s) /\
    forM sample_changes (apply_change sample_calls) s0 = (Ok tt, t) /\ merge_state sample_calls t s = (Ok tt, m) /\
    row_count m = 8 /\ state_values sample_calls (accumulators m) = Ok vs /\ sql_values sample_calls (sample_live ++ sample_live) vs.
Proof.
  apply (aggregate_merge sample_calls sample_changes sample_changes sample_live sample_live sample_calls_ok);
    [apply Forall_app; split; apply sample_changes_ok|vm_compute; reflexivity|vm_compute; reflexivity|vm_compute; congruence].
Defined.

(** The results: the sum wraps in 32 bits and its filter drops one row; the
    average of a 32-bit column accumulates in 64 bits. *)
Example sample_results :
  exists s0, new_state sample_calls = Ok s0 /\
    state_values sample_calls (accumulators (forM sample_changes (apply_change sample_calls) s0).2) =
      Ok [Some (VInt 4); Some (VInt 2); Some (VInt (-2147483646)); Some (VInt 715827884); Some (VInt 3); Some (VInt 2147483647)].
Proof. eexists. split; [vm_compute; reflexivity|vm_compute; reflexivity]. Qed.

(** A DECIMAL SUM that overflowed: the next row restarts the sum, merging the
    same row keeps it NULL. *)
Definition decimal_call : Call :=
  {| function := Sum; input_index := Some 0; filter_index := None; distinct := false; input_type := Some (DDecimal128 38 0);
     output_type := DDecimal128 38 0; retractable := false |}.
Definition decimal_row (z : Z) : bool * GroupRow := (true, [(Some (VInt z), true)]).
Definition overflowed : list (bool * GroupRow) := [decimal_row (10 ^ 38 - 1); decimal_row 1].
Definition run_decimal (changes : list (bool * GroupRow)) : AccumulatorState :=
  match new_state [decimal_call] with
  | Ok s => (forM changes (apply_change [decimal_call]) s).2
  | _ => {| row_count := 0; accumulators := [] |}
  end.
Theorem decimal_sum_merge_differs :
  state_values [decimal_call] (accumulators (run_decimal (overflowed ++ [decimal_row 5]))) = Ok [Some (VInt 5)] /\
  state_values [decimal_call] (accumulators (merge_state [decimal_call] (run_decimal [decimal_row 5]) (run_decimal overflowed)).2) = Ok [None].
Proof. split; vm_compute; reflexivity. Qed.
(** SUM0 of nulls is zero, but DISTINCT SUM0 of nulls is null. *)
Definition sum0_call (d : bool) : Call :=
  {| function := Sum0; input_index := Some 0; filter_index := None; distinct := d; input_type := Some DInt64;
     output_type := DInt64; retractable := false |}.
Definition run_sum0 (d : bool) : outcome (list (option AggregateValue)) :=
  s ← new_state [sum0_call d]; state_values [sum0_call d] (accumulators (forM [(true, [(None, true)])] (apply_change [sum0_call d]) s).2).
Theorem distinct_sum0_of_nulls : run_sum0 false = Ok [Some (VInt 0)] /\ run_sum0 true = Ok [None].
Proof. split; vm_compute; reflexivity. Qed.

(** ** Sessions *)

From S2P Require Import Sessions SessionsSpec SessionChangesSpec.

Definition stored_sessions : list (Z * Z) := [(10000, 20000); (30000, 40000)].
Definition arrival_times : list Z := [-1; 0; 20000; 70000].

(** One arrival is late, one extends a session, one bridges two, one is alone. *)
Lemma session_namespaces_witness :
  exists ks rows a b, collectM (fun w => existing w.1 w.2) stored_sessions no_assignments = (Ok ks, a) /\
    collectM (fun t => assign t 10000 15000) arrival_times a = (Ok rows, b) /\
    map (fun r => bool_decide (is_Some r)) rows = [false; true; true; true] /\
    let ws := zip stored_sessions ks ++ arrivals 10000 arrival_times rows in
    forall qs, (forall u, u ∈ qs -> u ∈ ws) ->
    exists rs c, collectM (fun u => resolve u.2) qs b = (Ok rs, c) /\ intervals c = intervals b /\ length rs = length qs /\
      (forall u v r r', (u, r) ∈ zip qs rs -> (v, r') ∈ zip qs rs -> r = r' <-> connected ws u v) /\
      (forall u r, (u, r) ∈ zip qs rs -> exists iv, iv ∈ intervals b /\ iv_slot iv = r /\
         forall x, iv_start iv <= x <= iv_end iv <-> exists v, v ∈ ws /\ connected ws u v /\ v.1.1 <= x <= v.1.2).
Proof.
  apply (session_namespaces stored_sessions 10000 15000 arrival_times).
  - unfold stored_sessions. rewrite !Forall_cons. split_and!; [done|done|constructor].
  - unfold stored_sessions. rewrite !Forall_cons. split_and!; [done|done|constructor].
  - apply SSorted_cons; [apply SSorted_cons; [apply SSorted_nil|apply Forall_nil_2]|].
    apply Forall_singleton. intros [H1 H2]. vm_compute in H1. by apply H1.
  - done.
  - unfold arrival_times. rewrite !Forall_cons. split_and!; try apply Forall_nil_2; vm_compute; congruence.
Defined.

Definition session_event (t : Z) (v : option Z) : SessionEvent :=
  {| timestamp := t; values := replicate 6 (VInt <$> v) |}.
Definition session_sample : list (bool * SessionEvent) :=
  [(true, session_event 0 (Some 5)); (true, session_event 10 (Some 7)); (true, session_event 100 None); (false, session_event 0 (Some 5))].
Definition late_by (wm x : Z) : bool := x - 1 <=? wm.

Lemma session_event_ok t v : in_signed 32 (default 0 v) -> I64_MIN <= t -> t + 20 <= I64_MAX -> event_ok 20 sample_calls (session_event t v).
Proof. intros Hv H1 H2. split; [|done]. apply (sample_row_ok v true Hv). Qed.
Lemma sample_retractions : retractions_ok sample_calls.
Proof. unfold retractions_ok, sample_calls. rewrite !Forall_cons. by cbn. Qed.
Lemma session_sample_ok : Forall (session_change_ok 20 sample_calls) session_sample.
Proof.
  unfold session_sample. rewrite !Forall_cons. split_and!; try constructor; cbn [fst snd]; try (intros _; apply sample_retractions);
    apply session_event_ok; try (split; vm_compute; congruence); vm_compute; congruence.
Qed.

Lemma session_changes_exact_witness :
  match apply_session_changes 20 sample_calls true (fun e => Ok (late_by 5 e)) session_sample [], ref_run 20 (late_by 5) session_sample [] with
  | (Ok dropped, sessions'), Some (n, reference) =>
      dropped = n /\ Forall2 depicts sessions' reference /\ sessions_ok 20 sample_calls (late_by 5) sessions' /\
      forall s, s ∈ sessions' -> row_count (accumulator s) = len (events s) /\
        exists vs, state_values sample_calls (accumulators (accumulator s)) = Ok vs /\ sql_values sample_calls (map event_row (events s)) vs
  | (Err e, _), None => e = unmatched
  | _, _ => False
  end.
Proof.
  apply (session_changes_exact 20 sample_calls (late_by 5) [] session_sample sample_calls_ok); [done| |apply session_sample_ok| |vm_compute; congruence].
  - unfold late_by. intros x y Hxy. rewrite !Z.leb_le. lia.
  - split; [split; [apply SSorted_nil|apply Forall_nil_2]|apply Forall_nil_2].
Defined.
(** The bridged session survives the retraction of the row that started it. *)
Example session_sample_run :
  match apply_session_changes 20 sample_calls true (fun e => Ok (late_by 5 e)) session_sample [] with
  | (Ok dropped, l) => dropped = 0 /\ map span l = [(0, 30); (100, 120)] /\ map (fun s => row_count (accumulator s)) l = [1; 1]
  | _ => False
  end.
Proof. vm_compute. done. Qed.

Definition agreeing_events : list SessionEvent := [session_event 0 (Some 1); session_event 60 None; session_event 30 (Some 2); session_event (-40) (Some 3)].
Lemma session_engines_agree_witness :
  exists rows a dropped sessions, collectM (fun e => assign (timestamp e) 20 (-10)) agreeing_events no_assignments = (Ok rows, a) /\
    apply_session_changes 20 sample_calls true (fun e => Ok (e - 1 <=? -10)) (map (pair true) agreeing_events) [] = (Ok dropped, sessions) /\
    dropped = len (filter (fun r => r = None) rows) /\ map bounds (intervals a) ≡ₚ map span sessions.
Proof.
  apply (session_engines_agree 20 (-10) sample_calls agreeing_events sample_calls_ok); [done| |vm_compute; congruence].
  unfold agreeing_events. rewrite !Forall_cons. split_and!; try constructor; apply session_event_ok; try (split; vm_compute; congruence); vm_compute; congruence.
Defined.

(** ** The codec *)

From S2P Require Import AggregateCodec AggregateCodecSpec.

Definition sample_state : AccumulatorState :=
  match new_state sample_calls with
  | Ok s => (forM sample_changes (apply_change sample_calls) s).2
  | _ => {| row_count := 0; accumulators := [] |}
  end.
Lemma sample_state_ok : group_state sample_calls sample_state sample_live.
Proof.
  destruct (new_group sample_calls sample_calls_ok) as (s0 & E0 & Hs0).
  destruct (apply_changes_spec sample_calls sample_calls_ok sample_changes s0 [] sample_live sample_changes_ok Hs0) as (s & E & Hs & _);
    [constructor|vm_compute; reflexivity|vm_compute; congruence|].
  unfold sample_state. rewrite E0, E. exact Hs.
Qed.
Lemma sample_calls_typed : Forall call_typed sample_calls.
Proof. unfold sample_calls. rewrite !Forall_cons. split_and!; try (intros _; by eexists). apply Forall_nil_2. Qed.
Lemma sample_row_typed v passes : in_signed 32 (default 0 v) -> group_row_typed sample_calls (sample_row v passes).
Proof.
  intros Hv i c x Hc Hx.
  assert (exists z, x = VInt z /\ in_signed 32 z) as (z & -> & Hz).
  { destruct v as [v|]; [exists v; split; [|done]|]; do 6 (destruct i as [|i]; [cbn in Hx; destruct passes; by simplify_eq|]); done. }
  assert (value_wf (VInt z)) as Hw by (unfold value_wf, in_signed in *; lia).
  do 6 (destruct i as [|i]; [cbn in Hc; injection Hc as <-; split; [done|]; split; [intros _; by exists DInt32|done]|]). done.
Qed.
Lemma sample_live_typed : Forall (group_row_typed sample_calls) sample_live.
Proof. unfold sample_live. rewrite !Forall_cons. split_and!; try (apply sample_row_typed; split; vm_compute; congruence). apply Forall_nil_2. Qed.

Lemma aggregate_state_codec_witness :
  (exists s', decode_aggregate_state (encode_aggregate_state sample_state) sample_calls = Ok s' /\ group_state sample_calls s' sample_live /\ row_count s' = row_count sample_state /\
    exists vs vs', state_values sample_calls (accumulators sample_state) = Ok vs /\ state_values sample_calls (accumulators s') = Ok vs' /\
      sql_values sample_calls sample_live vs /\ sql_values sample_calls sample_live vs' /\
    forall g, len g <= U32_MAX -> exists bs, encode_bounded_state g sample_state = Ok bs /\ decode_bounded_state bs sample_calls = Ok (g, s')) /\
  encoded_state_size sample_state = 253 /\
  forall bs, decode_aggregate_state bs sample_calls <> Panic /\ decode_bounded_state bs sample_calls <> Panic.
Proof.
  apply (aggregate_state_codec sample_calls sample_state sample_live sample_calls_ok sample_calls_typed sample_live_typed sample_state_ok);
    vm_compute; congruence.
Defined.
(** An empty group is one byte per call. *)
Example neutral_state_bytes :
  match new_state sample_calls with Ok s => encode_aggregate_state s | _ => [] end =
    AGGREGATE_STATE_MAGIC ++ [x06] ++ repeat x00 8 ++ [x06; x00; x00; x00] ++ repeat x00 6.
Proof. vm_compute. reflexivity. Qed.
