(* ===== verification/TopNCompare.v ===== *)
(** * Row comparison of the ranking operators: [operators/top_n/compare.rs]

    Rows of Arrow batches are compared column by column as Flink's generated
    comparators do: nulls first, floats by [<] and [>], nested values
    lexicographically. Recursion follows the nesting of the type of the left
    array, whose depth is the fuel. *)

From Stdlib Require Import ZArith Lia Strings.Byte.
From stdpp Require Import base list option numbers strings.
From S2P Require Import Prelude Bytes OrdMap Arrow Aggregate.

Inductive FloatEquality : Type := Ieee | CanonicalBits.

(** [partial_cmp(..).unwrap_or(Equal)] on floats, [==], and the equality of a mode. *)
Definition float_partial (f : FloatFormat) (l r : Z) : comparison :=
  if float_lt f l r then Lt else if float_lt f r l then Gt else Eq.
Definition float_eq (f : FloatFormat) (l r : Z) : bool :=
  negb (is_nan f l) && negb (is_nan f r) && (float_rank f l =? float_rank f r).
Definition float_equal (f : FloatFormat) (l r : Z) (mode : FloatEquality) : bool :=
  match mode with
  | Ieee => float_eq f l r
  | CanonicalBits => (is_nan f l && is_nan f r) || (l =? r)
  end.

Section compare.
Context `{Arrow}.

Definition downcast {A} (o : option A) : outcome A := ok_or (Execution "top-n expected another array class") o.
(** [downcast::<T>(array)?.value(row)]. *)
Definition value_of {A} (o : option (Z -> A)) (a : Array) (row : Z) : outcome A :=
  v ← downcast o;
  if (0 <=? row) && (row <? array_len a) then Ok (v row) else Panic.
(** [value_offsets()[row]] and [value_length(row)]. *)
Definition span_of (o : Z -> Z) (a : Array) (row : Z) : outcome (Z * Z) :=
  if (0 <=? row) && (row <? array_len a) then Ok (o row, o (row + 1) - o row) else Panic.

(** The range of the child array a nested cell covers, and the child. *)
Definition list_span (a : Array) (row : Z) : outcome (Array * Z * Z) :=
  '(o, v) ← downcast (as_list a); '(s, n) ← span_of o a row; Ok (v, s, n).
Definition large_list_span (a : Array) (row : Z) : outcome (Array * Z * Z) :=
  '(o, v) ← downcast (as_large_list a); '(s, n) ← span_of o a row; Ok (v, s, n).
Definition fixed_list_span (a : Array) (row : Z) : outcome (Array * Z * Z) :=
  '(o, n, v) ← downcast (as_fixed_list a); Ok (v, o row, n).

(** ** Order *)

Section compare_nested.
Context (rec : Array -> Z -> Array -> Z -> outcome comparison).

(** [for offset in 0..n]. *)
Fixpoint compare_offsets (la ra : Array) (n : nat) (ls rs : Z) : outcome comparison :=
  match n with
  | O => Ok Eq
  | S n =>
      ordering ← rec la ls ra rs;
      match ordering with Eq => compare_offsets la ra n (ls + 1) (rs + 1) | _ => Ok ordering end
  end.
Definition compare_ranges (l r : Array * Z * Z) : outcome comparison :=
  let '(la, ls, ll) := l in
  let '(ra, rs, rl) := r in
  ordering ← compare_offsets la ra (Z.to_nat (Z.min ll rl)) ls rs;
  match ordering with Eq => Ok (ll ?= rl) | _ => Ok ordering end.
Definition compare_list (la : Array) (lr : Z) (ra : Array) (rr : Z) : outcome comparison :=
  l ← list_span la lr; r ← list_span ra rr; compare_ranges l r.
Definition compare_large_list (la : Array) (lr : Z) (ra : Array) (rr : Z) : outcome comparison :=
  l ← large_list_span la lr; r ← large_list_span ra rr; compare_ranges l r.
Definition compare_fixed_list (la : Array) (lr : Z) (ra : Array) (rr : Z) : outcome comparison :=
  l ← fixed_list_span la lr; r ← fixed_list_span ra rr; compare_ranges l r.
(** [zip] stops at the shorter list of columns. *)
Fixpoint compare_columns (la : list Array) (lr : Z) (ra : list Array) (rr : Z) : outcome comparison :=
  match la, ra with
  | l :: la, r :: ra =>
      ordering ← rec l lr r rr;
      match ordering with Eq => compare_columns la lr ra rr | _ => Ok ordering end
  | _, _ => Ok Eq
  end.
Definition compare_struct (la : Array) (lr : Z) (ra : Array) (rr : Z) : outcome comparison :=
  l ← downcast (as_struct la); r ← downcast (as_struct ra); compare_columns l lr r rr.
End compare_nested.

Definition primitive (c : FixedArray) (la : Array) (lr : Z) (ra : Array) (rr : Z) : outcome comparison :=
  l ← value_of (as_fixed c la) la lr; r ← value_of (as_fixed c ra) ra rr; Ok (l ?= r).
Definition partial (c : FixedArray) (f : FloatFormat) (la : Array) (lr : Z) (ra : Array) (rr : Z) : outcome comparison :=
  l ← value_of (as_fixed c la) la lr; r ← value_of (as_fixed c ra) ra rr; Ok (float_partial f l r).
Definition compare_bytes (c : BytesArray) (la : Array) (lr : Z) (ra : Array) (rr : Z) : outcome comparison :=
  l ← value_of (as_bytes c la) la lr; r ← value_of (as_bytes c ra) ra rr; Ok (bytes_cmp l r).

Definition null_order (nulls_last : bool) : comparison := if nulls_last then Gt else Lt.

Fixpoint compare_values (fuel : nat) (la : Array) (lr : Z) (ra : Array) (rr : Z) (nulls_last : bool) : outcome comparison :=
  match fuel with
  | O => Panic
  | S fuel =>
      match is_null la lr, is_null ra rr with
      | true, true => Ok Eq
      | true, false => Ok (null_order nulls_last)
      | false, true => Ok (CompOpp (null_order nulls_last))
      | false, false =>
          if negb (bool_decide (data_type la = data_type ra)) then Err (Execution "top-n compared different Arrow types")
          else
            let rec l lr r rr := compare_values fuel l lr r rr false in
            match data_type la with
            | DNull => Ok Eq
            | DBoolean => primitive BooleanArray la lr ra rr
            | DInt8 => primitive Int8Array la lr ra rr
            | DInt16 => primitive Int16Array la lr ra rr
            | DInt32 => primitive Int32Array la lr ra rr
            | DInt64 => primitive Int64Array la lr ra rr
            | DUInt8 => primitive UInt8Array la lr ra rr
            | DUInt16 => primitive UInt16Array la lr ra rr
            | DUInt32 => primitive UInt32Array la lr ra rr
            | DUInt64 => primitive UInt64Array la lr ra rr
            | DFloat32 => partial Float32Array F32 la lr ra rr
            | DFloat64 => partial Float64Array F64 la lr ra rr
            | DUtf8 => compare_bytes StringArray la lr ra rr
            | DLargeUtf8 => compare_bytes LargeStringArray la lr ra rr
            | DBinary => compare_bytes BinaryArray la lr ra rr
            | DLargeBinary => compare_bytes LargeBinaryArray la lr ra rr
            | DFixedSizeBinary _ => compare_bytes FixedSizeBinaryArray la lr ra rr
            | DDecimal128 _ _ => primitive Decimal128Array la lr ra rr
            | DDate32 => primitive Date32Array la lr ra rr
            | DDate64 => primitive Date64Array la lr ra rr
            | DTime32 Second => primitive Time32SecondArray la lr ra rr
            | DTime32 Millisecond => primitive Time32MillisecondArray la lr ra rr
            | DTime64 Microsecond => primitive Time64MicrosecondArray la lr ra rr
            | DTime64 Nanosecond => primitive Time64NanosecondArray la lr ra rr
            | DTimestamp Second => primitive TimestampSecondArray la lr ra rr
            | DTimestamp Millisecond => primitive TimestampMillisecondArray la lr ra rr
            | DTimestamp Microsecond => primitive TimestampMicrosecondArray la lr ra rr
            | DTimestamp Nanosecond => primitive TimestampNanosecondArray la lr ra rr
            | DList _ => compare_list rec la lr ra rr
            | DLargeList _ => compare_large_list rec la lr ra rr
            | DFixedSizeList _ _ => compare_fixed_list rec la lr ra rr
            | DStruct _ => compare_struct rec la lr ra rr
            | DTime32 (Microsecond | Nanosecond) | DTime64 (Second | Millisecond) | DMap _ | DOther _ =>
                Err (Plan "Flink Top-N ordering type is not implemented natively")
            end
      end
  end.
Definition depth_of (a : Array) : nat := S (dt_depth (data_type a)).

(** One sort column: its index, its direction and where nulls go. *)
Fixpoint compare_rows (la : Batch) (lr : Z) (ra : Batch) (rr : Z) (order : list (Z * bool * bool)) : outcome comparison :=
  match order with
  | [] => Ok Eq
  | (index, ascending, nulls_last) :: order =>
      l ← column la index;
      r ← column ra index;
      ordering ← compare_values (depth_of l) l lr r rr nulls_last;
      match ordering with
      | Eq => compare_rows la lr ra rr order
      | _ => Ok (if ascending || is_null l lr || is_null r rr then ordering else CompOpp ordering)
      end
  end.

(** ** NaN *)

Fixpoint data_type_can_have_nan (t : DataType) : bool :=
  match t with
  | DFloat32 | DFloat64 => true
  | DList t | DLargeList t | DFixedSizeList t _ => data_type_can_have_nan t
  | DStruct ts => existsb data_type_can_have_nan ts
  | _ => false
  end.

Section nan_nested.
Context (rec : Array -> Z -> outcome bool).
Fixpoint range_has_nan (a : Array) (start : Z) (n : nat) : outcome bool :=
  match n with
  | O => Ok false
  | S n => found ← rec a start; if found : bool then Ok true else range_has_nan a (start + 1) n
  end.
Fixpoint columns_have_nan (l : list Array) (row : Z) : outcome bool :=
  match l with
  | [] => Ok false
  | a :: l => found ← rec a row; if found : bool then Ok true else columns_have_nan l row
  end.
End nan_nested.
Fixpoint value_has_nan (fuel : nat) (a : Array) (row : Z) : outcome bool :=
  match fuel with
  | O => Panic
  | S fuel =>
      if is_null a row then Ok false
      else match data_type a with
      | DFloat32 => v ← value_of (as_fixed Float32Array a) a row; Ok (is_nan F32 v)
      | DFloat64 => v ← value_of (as_fixed Float64Array a) a row; Ok (is_nan F64 v)
      | DList _ => '(v, s, n) ← list_span a row; range_has_nan (value_has_nan fuel) v s (Z.to_nat n)
      | DLargeList _ => '(v, s, n) ← large_list_span a row; range_has_nan (value_has_nan fuel) v s (Z.to_nat n)
      | DFixedSizeList _ _ => '(v, s, n) ← fixed_list_span a row; range_has_nan (value_has_nan fuel) v s (Z.to_nat n)
      | DStruct _ => l ← downcast (as_struct a); columns_have_nan (value_has_nan fuel) l row
      | _ => Ok false
      end
  end.
Fixpoint row_has_nan (b : Batch) (row : Z) (indices : list Z) : outcome bool :=
  match indices with
  | [] => Ok false
  | index :: indices =>
      a ← column b index;
      found ← value_has_nan (depth_of a) a row;
      if found : bool then Ok true else row_has_nan b row indices
  end.

(** ** Equality *)

Section equal_nested.
Context (rec : Array -> Z -> Array -> Z -> outcome bool).
Fixpoint equal_offsets (la ra : Array) (n : nat) (ls rs : Z) : outcome bool :=
  match n with
  | O => Ok true
  | S n => same ← rec la ls ra rs; if same : bool then equal_offsets la ra n (ls + 1) (rs + 1) else Ok false
  end.
Definition equal_ranges (l r : Array * Z * Z) : outcome bool :=
  let '(la, ls, ll) := l in
  let '(ra, rs, rl) := r in
  if negb (ll =? rl) then Ok false else equal_offsets la ra (Z.to_nat ll) ls rs.
(** [equal &= ..; if !equal { break }] from an initial [equal]. *)
Fixpoint equal_columns (equal : bool) (l : list Array) (lr : Z) (r : list Array) (rr : Z) : outcome bool :=
  match l, r with
  | la :: l, ra :: r =>
      same ← rec la lr ra rr;
      if equal && same : bool then equal_columns true l lr r rr else Ok false
  | _, _ => Ok equal
  end.
(** The entries of the other map, up to the first with an equal key: [None] when there is none,
    else whether the values are equal. *)
Fixpoint find_entry (lk lv : Array) (li : Z) (rk rv : Array) (n : nat) (ri : Z) : outcome (option bool) :=
  match n with
  | O => Ok None
  | S n =>
      same ← rec lk li rk ri;
      if same : bool then v ← rec lv li rv ri; Ok (Some v)
      else find_entry lk lv li rk rv n (ri + 1)
  end.
Fixpoint equal_entries (lk lv : Array) (n : nat) (li : Z) (rk rv : Array) (rn : nat) (rs : Z) : outcome bool :=
  match n with
  | O => Ok true
  | S n =>
      found ← find_entry lk lv li rk rv rn rs;
      match found with
      | Some true => equal_entries lk lv n (li + 1) rk rv rn rs
      | Some false | None => Ok false
      end
  end.
Definition equal_maps (la : Array) (lr : Z) (ra : Array) (rr : Z) : outcome bool :=
  '(lo, lk, lv) ← downcast (as_map la);
  '(ro, rk, rv) ← downcast (as_map ra);
  '(ls, ln) ← span_of lo la lr;
  '(rs, rn) ← span_of ro ra rr;
  if negb (ln =? rn) then Ok false
  else equal_entries lk lv (Z.to_nat ln) ls rk rv (Z.to_nat rn) rs.
End equal_nested.

Fixpoint equal_values (fuel : nat) (la : Array) (lr : Z) (ra : Array) (rr : Z) (mode : FloatEquality) : outcome bool :=
  match fuel with
  | O => Panic
  | S fuel =>
      if is_null la lr || is_null ra rr then Ok (Bool.eqb (is_null la lr) (is_null ra rr))
      else if negb (bool_decide (data_type la = data_type ra)) then Ok false
      else
        let rec l lr r rr := equal_values fuel l lr r rr mode in
        match data_type la with
        | DFloat32 => l ← value_of (as_fixed Float32Array la) la lr; r ← value_of (as_fixed Float32Array ra) ra rr; Ok (float_equal F32 l r mode)
        | DFloat64 => l ← value_of (as_fixed Float64Array la) la lr; r ← value_of (as_fixed Float64Array ra) ra rr; Ok (float_equal F64 l r mode)
        | DList _ => l ← list_span la lr; r ← list_span ra rr; equal_ranges rec l r
        | DLargeList _ => l ← large_list_span la lr; r ← large_list_span ra rr; equal_ranges rec l r
        | DFixedSizeList _ _ => l ← fixed_list_span la lr; r ← fixed_list_span ra rr; equal_ranges rec l r
        | DStruct _ =>
            l ← downcast (as_struct la); r ← downcast (as_struct ra);
            equal_columns rec (len l =? len r) l lr r rr
        | DMap _ => equal_maps rec la lr ra rr
        | _ => c ← compare_values (S fuel) la lr ra rr false; Ok (bool_decide (c = Eq))
        end
  end.
Fixpoint equal_rows_with_float_mode (l : Batch) (lr : Z) (r : Batch) (rr : Z) (indices : list Z) (mode : FloatEquality) : outcome bool :=
  match indices with
  | [] => Ok true
  | index :: indices =>
      la ← column l index;
      ra ← column r index;
      same ← equal_values (depth_of la) la lr ra rr mode;
      if same : bool then equal_rows_with_float_mode l lr r rr indices mode else Ok false
  end.
Definition equal_rows (l : Batch) (lr : Z) (r : Batch) (rr : Z) (indices : list Z) : outcome bool :=
  equal_rows_with_float_mode l lr r rr indices Ieee.
Definition record_equaliser_rows (l : Batch) (lr : Z) (r : Batch) (rr : Z) (indices : list Z) : outcome bool :=
  equal_rows_with_float_mode l lr r rr indices CanonicalBits.
End compare.
