(* ===== verification/TopNOrder.v ===== *)
(** * What row comparison computes

    A cell without NaN has a key: an integer (a float is its rank among the
    floats), a byte string, a sequence, or null. Keys are totally ordered, and the
    comparison and the equality of [TopNCompare] are those of the keys. *)

From Stdlib Require Import ZArith Lia Strings.Byte.
From stdpp Require Import base list option numbers strings.
From S2P Require Import Prelude Bytes OrdMap Arrow Aggregate TopNCompare.

#[warnings="-register-all"]
Inductive Key : Type :=
  | KNull
  | KInt (z : Z)
  | KBytes (b : bytes)
  | KSeq (l : list Key).

Section Key_induction.
Context (P : Key -> Prop) (Hn : P KNull) (Hi : forall z, P (KInt z)) (Hb : forall b, P (KBytes b)).
Context (Hs : forall l, Forall P l -> P (KSeq l)).
Fixpoint Key_nested (k : Key) : P k :=
  match k with
  | KNull => Hn
  | KInt z => Hi z
  | KBytes b => Hb b
  | KSeq l => Hs l ((fix go l : Forall P l := match l with [] => Forall_nil_2 _ | k :: l => Forall_cons_2 _ _ _ (Key_nested k) (go l) end) l)
  end.
End Key_induction.

(** The lexicographic order of lists. *)
Section lex.
Context {A : Type} (cmp : A -> A -> comparison).
Fixpoint lex (l r : list A) : comparison :=
  match l, r with
  | [], [] => Eq
  | [], _ :: _ => Lt
  | _ :: _, [] => Gt
  | x :: l, y :: r => match cmp x y with Eq => lex l r | c => c end
  end.
End lex.
Definition key_tag (k : Key) : Z := match k with KNull => 0 | KInt _ => 1 | KBytes _ => 2 | KSeq _ => 3 end.
Fixpoint key_cmp (x y : Key) : comparison :=
  match x, y with
  | KInt a, KInt b => a ?= b
  | KBytes a, KBytes b => bytes_cmp a b
  | KSeq a, KSeq b => lex key_cmp a b
  | _, _ => key_tag x ?= key_tag y
  end.
#[global] Instance key_ord : Ord Key := key_cmp.

(** Laws that hold at the elements of a list hold at the list. *)
Lemma lex_sym {A} (cmp : A -> A -> comparison) l :
  Forall (fun x => forall y, cmp y x = CompOpp (cmp x y)) l -> forall r, lex cmp r l = CompOpp (lex cmp l r).
Proof.
  induction 1 as [|x l Hx _ IH]; intros [|y r]; simpl; try done. rewrite Hx, IH. by destruct (cmp x y).
Qed.
Lemma lex_eq_l {A} (cmp : A -> A -> comparison) l :
  Forall (fun x => forall y z, cmp x y = Eq -> cmp x z = cmp y z) l -> forall r s, lex cmp l r = Eq -> lex cmp l s = lex cmp r s.
Proof.
  induction 1 as [|x l Hx _ IH]; intros [|y r] [|z s]; simpl; try done.
  destruct (cmp x y) eqn:E; try done. intros El. rewrite (Hx y z E). by rewrite (IH r s El).
Qed.
Lemma lex_lt_trans {A} (cmp : A -> A -> comparison) l :
  Forall (fun x => (forall y, cmp y x = CompOpp (cmp x y)) /\ (forall y z, cmp x y = Eq -> cmp x z = cmp y z) /\
    (forall y z, cmp y z = Eq -> cmp x y = cmp x z) /\ forall y z, cmp x y = Lt -> cmp y z = Lt -> cmp x z = Lt) l ->
  forall r s, lex cmp l r = Lt -> lex cmp r s = Lt -> lex cmp l s = Lt.
Proof.
  induction 1 as [|x l (_ & He & Hr & Ht) _ IH]; intros [|y r] [|z s]; simpl; try done.
  destruct (cmp x y) eqn:E; try done.
  - intros El. rewrite (He y z E). destruct (cmp y z); try done. by apply IH.
  - intros _. destruct (cmp y z) eqn:E2; try done; intros _; [by rewrite <- (Hr y z E2), E|by rewrite (Ht y z E E2)].
Qed.

Lemma key_sym x : forall y, key_cmp y x = CompOpp (key_cmp x y).
Proof.
  induction x as [|z|b|l IH] using Key_nested; intros [|z'|b'|l']; simpl; try done; [apply (ocmp_sym z z')|apply (ocmp_sym b b')|by apply lex_sym].
Qed.
Lemma key_eq_l x : forall y z, key_cmp x y = Eq -> key_cmp x z = key_cmp y z.
Proof.
  induction x as [|z|b|l IH] using Key_nested; intros [|z'|b'|l'] [|z''|b''|l'']; simpl; try done.
  - apply (ocmp_eq_l z z' z'').
  - apply (ocmp_eq_l b b' b'').
  - by apply lex_eq_l.
Qed.
Lemma key_lt_trans x : forall y z, key_cmp x y = Lt -> key_cmp y z = Lt -> key_cmp x z = Lt.
Proof.
  induction x as [|z|b|l IH] using Key_nested; intros [|z'|b'|l'] [|z''|b''|l'']; simpl; try done.
  - apply (ocmp_lt_trans z z' z'').
  - apply (ocmp_lt_trans b b' b'').
  - apply lex_lt_trans. apply (Forall_impl _ _ _ IH). intros k Hk. split_and!; [apply key_sym|apply key_eq_l| |done].
    intros y z E. rewrite (key_sym y k), (key_sym z k). by rewrite (key_eq_l y z k E).
Qed.
#[global] Instance key_ord_laws : OrdLaws Key.
Proof. split; intros *; [apply key_sym|apply key_eq_l|apply key_lt_trans]. Qed.
#[global] Instance key_ord_leibniz : OrdLeibniz Key.
Proof.
  unfold OrdLeibniz. intros x. change (forall y, key_cmp x y = Eq -> x = y).
  induction x as [|z|b|l IH] using Key_nested; intros [|z'|b'|l']; simpl; try done.
  - intros ->%(ocmp_eq z z'). done.
  - intros ->%(ocmp_eq b b'). done.
  - intros E. f_equal. revert l' E. induction IH as [|x l Hx _ IHl]; intros [|y r]; simpl; try done.
    destruct (key_cmp x y) eqn:E; try done. intros E2. f_equal; auto.
Qed.

Lemma key_cmp_eq x y : key_cmp x y = Eq <-> x = y.
Proof. split; [apply key_ord_leibniz|]. intros ->. apply (ocmp_refl y). Qed.
#[global] Instance key_eq_dec : EqDecision Key.
Proof. refine (fun x y => cast_if (decide (key_cmp x y = Eq))); by rewrite <- key_cmp_eq. Defined.

(** ** One sort column *)

Definition column_cmp (ascending nulls_last : bool) (x y : Key) : comparison :=
  match x, y with
  | KNull, KNull => Eq
  | KNull, _ => null_order nulls_last
  | _, KNull => CompOpp (null_order nulls_last)
  | _, _ => if ascending then key_cmp x y else CompOpp (key_cmp x y)
  end.
Lemma opp_eq c : CompOpp c = Eq -> c = Eq.
Proof. by destruct c. Qed.
Lemma column_laws ascending nulls_last : @OrdLaws Key (column_cmp ascending nulls_last).
Proof.
  split; unfold ocmp.
  - intros x y. pose proof (key_sym x y) as K. destruct x, y, ascending, nulls_last; try done; cbn in *; by rewrite K.
  - assert (forall x y, column_cmp ascending nulls_last x y = Eq -> x = y) as Hl.
    { intros x y E. assert (x = y \/ key_cmp x y = Eq) as [->|E']; [|done|by apply key_ord_leibniz].
      destruct x, y, ascending, nulls_last; try done; try (by left); right; done || by apply opp_eq. }
    intros x y z E. by rewrite (Hl x y E).
  - assert (forall x y z, CompOpp (key_cmp x y) = Lt -> CompOpp (key_cmp y z) = Lt -> CompOpp (key_cmp x z) = Lt) as Hopp.
    { intros x y z. rewrite <- !key_sym. intros. by eapply key_lt_trans. }
    intros x y z. destruct x, y, z, ascending, nulls_last; try done; solve [apply key_lt_trans|apply Hopp].
Qed.

(** ** Keys of cells *)

(** How a type is read. *)
Inductive Shape : Type :=
  | SUnit
  | SFixed (c : FixedArray)
  | SFloat (c : FixedArray) (f : FloatFormat)
  | SBytes (c : BytesArray)
  | SList | SLargeList | SFixedList | SStruct
  | SUnordered.
Definition shape_of (t : DataType) : Shape :=
  match t with
  | DNull => SUnit
  | DBoolean => SFixed BooleanArray
  | DInt8 => SFixed Int8Array
  | DInt16 => SFixed Int16Array
  | DInt32 => SFixed Int32Array
  | DInt64 => SFixed Int64Array
  | DUInt8 => SFixed UInt8Array
  | DUInt16 => SFixed UInt16Array
  | DUInt32 => SFixed UInt32Array
  | DUInt64 => SFixed UInt64Array
  | DFloat32 => SFloat Float32Array F32
  | DFloat64 => SFloat Float64Array F64
  | DUtf8 => SBytes StringArray
  | DLargeUtf8 => SBytes LargeStringArray
  | DBinary => SBytes BinaryArray
  | DLargeBinary => SBytes LargeBinaryArray
  | DFixedSizeBinary _ => SBytes FixedSizeBinaryArray
  | DDecimal128 _ _ => SFixed Decimal128Array
  | DDate32 => SFixed Date32Array
  | DDate64 => SFixed Date64Array
  | DTime32 Second => SFixed Time32SecondArray
  | DTime32 Millisecond => SFixed Time32MillisecondArray
  | DTime64 Microsecond => SFixed Time64MicrosecondArray
  | DTime64 Nanosecond => SFixed Time64NanosecondArray
  | DTimestamp Second => SFixed TimestampSecondArray
  | DTimestamp Millisecond => SFixed TimestampMillisecondArray
  | DTimestamp Microsecond => SFixed TimestampMicrosecondArray
  | DTimestamp Nanosecond => SFixed TimestampNanosecondArray
  | DList _ => SList
  | DLargeList _ => SLargeList
  | DFixedSizeList _ _ => SFixedList
  | DStruct _ => SStruct
  | DTime32 _ | DTime64 _ | DMap _ | DOther _ => SUnordered
  end.

Definition ok_some {A} (o : outcome A) : option A := match o with Ok a => Some a | _ => None end.
Lemma ok_some_Some {A} (o : outcome A) a : ok_some o = Some a <-> o = Ok a.
Proof. destruct o; naive_solver. Qed.

Section keys.
Context `{Arrow}.

(** The keys of the rows [start .. start + n]. *)
Fixpoint range_keys (rec : Array -> Z -> option Key) (a : Array) (start : Z) (n : nat) : option (list Key) :=
  match n with
  | O => Some []
  | S n => k ← rec a start; l ← range_keys rec a (start + 1) n; Some (k :: l)
  end.
Definition span_keys (rec : Array -> Z -> option Key) (span : outcome (Array * Z * Z)) : option Key :=
  '(v, s, n) ← ok_some span;
  KSeq <$> range_keys rec v s (Z.to_nat n).
Fixpoint cell_key (fuel : nat) (a : Array) (row : Z) : option Key :=
  match fuel with
  | O => None
  | S fuel =>
      if is_null a row then Some KNull
      else match shape_of (data_type a) with
      | SUnit => Some (KInt 0)
      | SFixed c => KInt <$> ok_some (value_of (as_fixed c a) a row)
      | SFloat c f => v ← ok_some (value_of (as_fixed c a) a row); if is_nan f v then None else Some (KInt (float_rank f v))
      | SBytes c => KBytes <$> ok_some (value_of (as_bytes c a) a row)
      | SList => span_keys (cell_key fuel) (list_span a row)
      | SLargeList => span_keys (cell_key fuel) (large_list_span a row)
      | SFixedList => span_keys (cell_key fuel) (fixed_list_span a row)
      | SStruct => cs ← as_struct a; KSeq <$> mapM (fun c => cell_key fuel c row) cs
      | SUnordered => None
      end
  end.

(** The comparison by shape. *)
Definition compare_shape (rec : Array -> Z -> Array -> Z -> outcome comparison) (la : Array) (lr : Z) (ra : Array) (rr : Z) : outcome comparison :=
  match shape_of (data_type la) with
  | SUnit => Ok Eq
  | SFixed c => primitive c la lr ra rr
  | SFloat c f => partial c f la lr ra rr
  | SBytes c => compare_bytes c la lr ra rr
  | SList => compare_list rec la lr ra rr
  | SLargeList => compare_large_list rec la lr ra rr
  | SFixedList => compare_fixed_list rec la lr ra rr
  | SStruct => compare_struct rec la lr ra rr
  | SUnordered => Err (Plan "Flink Top-N ordering type is not implemented natively")
  end.
Lemma compare_values_shape n la lr ra rr nulls_last :
  is_null la lr = false -> is_null ra rr = false -> data_type la = data_type ra ->
  compare_values (S n) la lr ra rr nulls_last = compare_shape (fun l lr r rr => compare_values n l lr r rr false) la lr ra rr.
Proof.
  intros Hl Hr Ht. cbn [compare_values]. rewrite Hl, Hr. rewrite bool_decide_true by done. unfold compare_shape. cbn [negb].
  destruct (data_type la) as [ | | | | | | | | | | | | | | | | | | |[]|[]|[]| | | | | | | ]; done.
Qed.

Lemma float_partial_rank f l r : is_nan f l = false -> is_nan f r = false -> float_partial f l r = (float_rank f l ?= float_rank f r).
Proof.
  intros Hl Hr. unfold float_partial, float_lt. rewrite Hl, Hr. simpl.
  destruct (Z.compare_spec (float_rank f l) (float_rank f r)); case_bool; done || lia.
Qed.

(** What the recursive calls must satisfy. *)
Definition compares (rec : Array -> Z -> Array -> Z -> outcome comparison) (key : Array -> Z -> option Key) : Prop :=
  forall la lr ra rr k k', data_type la = data_type ra -> key la lr = Some k -> key ra rr = Some k' -> rec la lr ra rr = Ok (key_cmp k k').

Section nested.
Context (rec : Array -> Z -> Array -> Z -> outcome comparison) (key : Array -> Z -> option Key) (Hrec : compares rec key).

Lemma range_keys_length a s n l : range_keys key a s n = Some l -> length l = n.
Proof.
  revert s l. induction n as [|n IH]; intros s l; cbn [range_keys]; [by intros [= <-]|].
  intros (k & _ & (l' & E & [= <-])%bind_Some)%bind_Some. simpl. f_equal. by eapply IH.
Qed.
(** The loop over the common prefix, then the lengths. *)
Lemma compare_offsets_keys la ra n m ls rs l r :
  data_type la = data_type ra -> range_keys key la ls n = Some l -> range_keys key ra rs m = Some r ->
  (c ← compare_offsets rec la ra (Nat.min n m) ls rs; match c with Eq => Ok (Nat.compare n m) | c => Ok c end) = Ok (lex key_cmp l r).
Proof.
  intros Ht. revert m ls rs l r. induction n as [|n IH]; intros [|m] ls rs l r; cbn [range_keys]; try (intros [= <-]).
  - by intros [= <-].
  - by intros (k & _ & (l' & _ & [= <-])%bind_Some)%bind_Some.
  - intros (k & Hk & (l' & Hl & [= <-])%bind_Some)%bind_Some [= <-]. done.
  - intros (k & Hk & (l' & Hl & [= <-])%bind_Some)%bind_Some (k' & Hk' & (r' & Hr & [= <-])%bind_Some)%bind_Some.
    cbn [Nat.min compare_offsets lex]. rewrite (Hrec la ls ra rs k k' Ht Hk Hk'). cbn [mbind outcome_bind].
    destruct (key_cmp k k'); [|done..]. by apply IH.
Qed.
Lemma compare_ranges_keys ls lspan rspan rs :
  ok_some lspan = Some ls -> ok_some rspan = Some rs -> data_type ls.1.1 = data_type rs.1.1 -> (0 <= ls.2 /\ 0 <= rs.2) \/ ls.2 = rs.2 ->
  forall k k', span_keys key lspan = Some k -> span_keys key rspan = Some k' ->
  (l ← lspan; r ← rspan; compare_ranges rec l r) = Ok (key_cmp k k').
Proof.
  intros El Er Ht Hn k k'. unfold span_keys. rewrite El, Er. apply ok_some_Some in El as ->, Er as ->.
  destruct ls as [[la ls] ln], rs as [[ra rs] rn]. simpl in *.
  intros (l & El & ->)%fmap_Some (r & Er & ->)%fmap_Some. pose proof (compare_offsets_keys la ra _ _ ls rs l r Ht El Er) as Hc.
  rewrite <- Z2Nat.inj_min in Hc. unfold mbind, outcome_bind in *. cbn [key_cmp]. rewrite <- Hc.
  destruct (compare_offsets _ _ _ _ _ _) as [[]| |]; try done. f_equal.
  destruct Hn as [[? ?]|<-]; [by rewrite <- Z2Nat.inj_compare by done|by rewrite Nat.compare_refl, Z.compare_refl].
Qed.
Lemma compare_columns_keys lc lr rc rr l r :
  map data_type lc = map data_type rc -> mapM (fun c => key c lr) lc = Some l -> mapM (fun c => key c rr) rc = Some r ->
  compare_columns rec lc lr rc rr = Ok (lex key_cmp l r).
Proof.
  revert rc l r. induction lc as [|a lc IH]; intros [|b rc] l r; try done; cbn [mapM map].
  - by intros _ [= <-] [= <-].
  - intros [= Ht Hts] (k & Hk & (l' & Hl & [= <-])%bind_Some)%bind_Some (k' & Hk' & (r' & Hr & [= <-])%bind_Some)%bind_Some.
    cbn [compare_columns lex]. rewrite (Hrec a lr b rr k k' Ht Hk Hk'). cbn [mbind outcome_bind].
    destruct (key_cmp k k'); [|done..]. by apply IH.
Qed.
End nested.

Context {Hlaws : ArrowLaws}.

Lemma downcast_Ok {A} (o : option A) a : downcast o = Ok a <-> o = Some a.
Proof. destruct o; simpl; naive_solver. Qed.
Lemma span_of_Ok o a row s n : span_of o a row = Ok (s, n) -> 0 <= row < array_len a /\ s = o row /\ n = o (row + 1) - o row.
Proof. unfold span_of. case_bool; simpl; try done. by intros [= <- <-]. Qed.
Lemma list_span_Ok a row v s n : list_span a row = Ok (v, s, n) -> data_type a = DList (data_type v) /\ 0 <= n.
Proof.
  unfold list_span. intros ([o v'] & E%downcast_Ok & ([s' n'] & Es%span_of_Ok & [= -> -> ->])%outcome_bind_Ok)%outcome_bind_Ok.
  destruct (list_law _ _ _ E) as [Ht Ho]. split; [done|]. destruct Es as (Hr & _ & ->). specialize (Ho row Hr). lia.
Qed.
Lemma large_list_span_Ok a row v s n : large_list_span a row = Ok (v, s, n) -> data_type a = DLargeList (data_type v) /\ 0 <= n.
Proof.
  unfold large_list_span. intros ([o v'] & E%downcast_Ok & ([s' n'] & Es%span_of_Ok & [= -> -> ->])%outcome_bind_Ok)%outcome_bind_Ok.
  destruct (large_list_law _ _ _ E) as [Ht Ho]. split; [done|]. destruct Es as (Hr & _ & ->). specialize (Ho row Hr). lia.
Qed.
Lemma fixed_list_span_Ok a row v s n : fixed_list_span a row = Ok (v, s, n) -> data_type a = DFixedSizeList (data_type v) n.
Proof.
  unfold fixed_list_span. intros ([[o n'] v'] & E%downcast_Ok & [= -> <- ->])%outcome_bind_Ok.
  by destruct (fixed_list_law _ _ _ _ E) as [Ht _].
Qed.
Lemma span_keys_Ok key span k : span_keys key span = Some k -> exists s, ok_some span = Some s.
Proof. unfold span_keys. intros (s & E & _)%bind_Some. by exists s. Qed.

(** A cell that is not null has a key other than null. *)
Lemma cell_key_null n a row k : cell_key n a row = Some k -> is_null a row = bool_decide (key_tag k = 0).
Proof.
  destruct n as [|n]; [done|]. cbn [cell_key]. destruct (is_null a row); [by intros [= <-]|].
  destruct (shape_of (data_type a)); unfold span_keys; intros E; repeat (apply bind_Some in E as (? & ? & E) || apply fmap_Some in E as (? & ? & ->) || (destruct (is_nan _ _); [done|])); simplify_eq; try done.
  all: repeat match goal with x : (_ * _)%type |- _ => destruct x end; repeat (apply fmap_Some in E as (? & ? & ->)); done.
Qed.
Lemma column_cmp_nested x y : column_cmp true false x y = key_cmp x y.
Proof. by destruct x, y. Qed.

Lemma compare_spans rec key (span : Array -> Z -> outcome (Array * Z * Z)) la lr ra rr k k' :
  compares rec key ->
  (forall a b v w s t n m row row', span a row = Ok (v, s, n) -> span b row' = Ok (w, t, m) -> data_type a = data_type b -> data_type v = data_type w /\ ((0 <= n /\ 0 <= m) \/ n = m)) ->
  data_type la = data_type ra -> span_keys key (span la lr) = Some k -> span_keys key (span ra rr) = Some k' ->
  (l ← span la lr; r ← span ra rr; compare_ranges rec l r) = Ok (key_cmp k k').
Proof.
  intros Hrec Hspan Ht Hk Hk'. destruct (span_keys_Ok _ _ _ Hk) as [[[v s] n] Es], (span_keys_Ok _ _ _ Hk') as [[[w t] m] Et].
  pose proof Es as Es'%ok_some_Some. pose proof Et as Et'%ok_some_Some. destruct (Hspan _ _ _ _ _ _ _ _ _ _ Es' Et' Ht) as [Hd Hn].
  by eapply (compare_ranges_keys rec key Hrec _ _ _ _ Es Et).
Qed.

Lemma compare_values_keys n la lr ra rr nulls_last k k' :
  data_type la = data_type ra -> cell_key n la lr = Some k -> cell_key n ra rr = Some k' ->
  compare_values n la lr ra rr nulls_last = Ok (column_cmp true nulls_last k k').
Proof.
  revert la lr ra rr nulls_last k k'. induction n as [|n IH]; intros la lr ra rr nulls_last k k' Ht Hk Hk'; [done|].
  pose proof (cell_key_null _ _ _ _ Hk) as Hn. pose proof (cell_key_null _ _ _ _ Hk') as Hn'.
  destruct (is_null la lr) eqn:Nl, (is_null ra rr) eqn:Nr.
  1-3: cbn [compare_values]; rewrite Nl, Nr; symmetry in Hn, Hn'; (apply bool_decide_eq_true in Hn || apply bool_decide_eq_false in Hn);
    (apply bool_decide_eq_true in Hn' || apply bool_decide_eq_false in Hn'); by destruct k, k'.
  rewrite compare_values_shape by done. symmetry in Hn, Hn'. apply bool_decide_eq_false in Hn, Hn'.
  assert (column_cmp true nulls_last k k' = key_cmp k k') as -> by (destruct k, k'; done).
  assert (compares (fun l lr r rr => compare_values n l lr r rr false) (cell_key n)) as Hrec.
  { intros a r b r' x y Hab Hx Hy. rewrite (IH a r b r' false x y Hab Hx Hy). by rewrite column_cmp_nested. }
  unfold compare_shape. cbn [cell_key] in Hk, Hk'. rewrite Nl in Hk. rewrite Nr in Hk'. rewrite <- Ht in Hk'.
  destruct (shape_of (data_type la)) as [|c|c f|c| | | | |] eqn:Es; simplify_eq; try done.
  - apply fmap_Some in Hk as (x & Hx%ok_some_Some & ->), Hk' as (y & Hy%ok_some_Some & ->). unfold primitive. by rewrite Hx, Hy.
  - apply bind_Some in Hk as (x & Hx%ok_some_Some & Hk), Hk' as (y & Hy%ok_some_Some & Hk').
    destruct (is_nan f x) eqn:Fx, (is_nan f y) eqn:Fy; simplify_eq. unfold partial. rewrite Hx, Hy. cbn. by rewrite float_partial_rank.
  - apply fmap_Some in Hk as (x & Hx%ok_some_Some & ->), Hk' as (y & Hy%ok_some_Some & ->). unfold compare_bytes. by rewrite Hx, Hy.
  - apply (compare_spans _ _ list_span _ _ _ _ _ _ Hrec); [|done..]. intros * [E ?]%list_span_Ok [E' ?]%list_span_Ok Hab. rewrite E, E' in Hab. split; [congruence|by left].
  - apply (compare_spans _ _ large_list_span _ _ _ _ _ _ Hrec); [|done..]. intros * [E ?]%large_list_span_Ok [E' ?]%large_list_span_Ok Hab. rewrite E, E' in Hab. split; [congruence|by left].
  - apply (compare_spans _ _ fixed_list_span _ _ _ _ _ _ Hrec); [|done..]. intros * E%fixed_list_span_Ok E'%fixed_list_span_Ok Hab. rewrite E, E' in Hab. split; [congruence|right; congruence].
  - apply bind_Some in Hk as (x & Hx & (l & Hl & ->)%fmap_Some), Hk' as (y & Hy & (r & Hr & ->)%fmap_Some).
    unfold compare_struct. rewrite Hx, Hy. cbn [downcast ok_or mbind outcome_bind].
    apply (compare_columns_keys _ _ Hrec); [|done..].
    destruct (struct_law _ _ Hx) as [E _], (struct_law _ _ Hy) as [E' _]. rewrite E, E' in Ht. congruence.
Qed.

(** ** Equality is that of the keys *)

Definition key_eqb (x y : Key) : bool := bool_decide (key_cmp x y = Eq).
Lemma key_eqb_eq x y : key_eqb x y = bool_decide (x = y).
Proof. unfold key_eqb. apply bool_decide_ext, key_cmp_eq. Qed.
Definition equals (rec : Array -> Z -> Array -> Z -> outcome bool) (key : Array -> Z -> option Key) : Prop :=
  forall la lr ra rr k k', data_type la = data_type ra -> key la lr = Some k -> key ra rr = Some k' -> rec la lr ra rr = Ok (key_eqb k k').

Section equal_nested.
Context (rec : Array -> Z -> Array -> Z -> outcome bool) (key : Array -> Z -> option Key) (Hrec : equals rec key).
Lemma equal_offsets_keys la ra n ls rs l r :
  data_type la = data_type ra -> range_keys key la ls n = Some l -> range_keys key ra rs n = Some r ->
  equal_offsets rec la ra n ls rs = Ok (bool_decide (lex key_cmp l r = Eq)).
Proof.
  intros Ht. revert ls rs l r. induction n as [|n IH]; intros ls rs l r; cbn [range_keys]; [by intros [= <-] [= <-]|].
  intros (k & Hk & (l' & Hl & [= <-])%bind_Some)%bind_Some (k' & Hk' & (r' & Hr & [= <-])%bind_Some)%bind_Some.
  cbn [equal_offsets lex]. rewrite (Hrec la ls ra rs k k' Ht Hk Hk'). cbn [mbind outcome_bind]. unfold key_eqb.
  destruct (key_cmp k k'); simpl; [by apply IH|done..].
Qed.
Lemma lex_length {A} (cmp : A -> A -> comparison) l r : lex cmp l r = Eq -> length l = length r.
Proof. revert r. induction l as [|x l IH]; intros [|y r]; simpl; try done. destruct (cmp x y); try done. intros E. f_equal. by apply IH. Qed.
Lemma equal_spans (span : Array -> Z -> outcome (Array * Z * Z)) la lr ra rr k k' :
  (forall a b v w s t n m row row', span a row = Ok (v, s, n) -> span b row' = Ok (w, t, m) -> data_type a = data_type b -> data_type v = data_type w /\ ((0 <= n /\ 0 <= m) \/ n = m)) ->
  data_type la = data_type ra -> span_keys key (span la lr) = Some k -> span_keys key (span ra rr) = Some k' ->
  (l ← span la lr; r ← span ra rr; equal_ranges rec l r) = Ok (key_eqb k k').
Proof.
  intros Hspan Ht Hk Hk'. destruct (span_keys_Ok _ _ _ Hk) as [[[v s] n] Es], (span_keys_Ok _ _ _ Hk') as [[[w t] m] Et].
  unfold span_keys in *. rewrite Es in Hk. rewrite Et in Hk'. apply ok_some_Some in Es as Es', Et as Et'. rewrite Es', Et'.
  destruct (Hspan _ _ _ _ _ _ _ _ _ _ Es' Et' Ht) as [Hd Hn]. cbn [mbind option_bind outcome_bind] in *.
  apply fmap_Some in Hk as (l & Hl & ->), Hk' as (r & Hr & ->). unfold equal_ranges, key_eqb. cbn [key_cmp].
  destruct (Z.eqb_spec n m) as [<-|Hnm]; cbn [negb]; [by apply equal_offsets_keys|].
  symmetry. f_equal. apply bool_decide_eq_false. intros E%lex_length.
  rewrite (range_keys_length _ _ _ _ _ Hl), (range_keys_length _ _ _ _ _ Hr) in E. destruct Hn as [|]; lia.
Qed.
Lemma equal_columns_keys lc lr rc rr l r :
  map data_type lc = map data_type rc -> mapM (fun c => key c lr) lc = Some l -> mapM (fun c => key c rr) rc = Some r ->
  equal_columns rec true lc lr rc rr = Ok (bool_decide (lex key_cmp l r = Eq)).
Proof.
  revert rc l r. induction lc as [|a lc IH]; intros [|b rc] l r; try done; cbn [mapM map].
  - by intros _ [= <-] [= <-].
  - intros [= Ht Hts] (k & Hk & (l' & Hl & [= <-])%bind_Some)%bind_Some (k' & Hk' & (r' & Hr & [= <-])%bind_Some)%bind_Some.
    cbn [equal_columns lex]. rewrite (Hrec a lr b rr k k' Ht Hk Hk'). cbn [mbind outcome_bind]. unfold key_eqb.
    destruct (key_cmp k k'); simpl; [by apply IH|done..].
Qed.
End equal_nested.

(** Equality by shape, on types that have keys. *)
Definition equal_shape (n : nat) (rec : Array -> Z -> Array -> Z -> outcome bool) (la : Array) (lr : Z) (ra : Array) (rr : Z) : outcome bool :=
  match shape_of (data_type la) with
  | SFloat c f => l ← value_of (as_fixed c la) la lr; r ← value_of (as_fixed c ra) ra rr; Ok (float_eq f l r)
  | SList => l ← list_span la lr; r ← list_span ra rr; equal_ranges rec l r
  | SLargeList => l ← large_list_span la lr; r ← large_list_span ra rr; equal_ranges rec l r
  | SFixedList => l ← fixed_list_span la lr; r ← fixed_list_span ra rr; equal_ranges rec l r
  | SStruct => l ← downcast (as_struct la); r ← downcast (as_struct ra); equal_columns rec (len l =? len r) l lr r rr
  | _ => c ← compare_values (S n) la lr ra rr false; Ok (bool_decide (c = Eq))
  end.
Lemma equal_values_shape n la lr ra rr :
  is_null la lr = false -> is_null ra rr = false -> data_type la = data_type ra -> shape_of (data_type la) <> SUnordered ->
  equal_values (S n) la lr ra rr Ieee = equal_shape n (fun l lr r rr => equal_values n l lr r rr Ieee) la lr ra rr.
Proof.
  intros Hl Hr Ht Hs. cbn [equal_values]. rewrite Hl, Hr. cbn [orb]. rewrite bool_decide_true by done. unfold equal_shape. cbn [negb].
  destruct (data_type la) as [ | | | | | | | | | | | | | | | | | | |[]|[]|[]| | | | | | | ]; done.
Qed.
Lemma float_eq_rank f l r : is_nan f l = false -> is_nan f r = false -> float_eq f l r = key_eqb (KInt (float_rank f l)) (KInt (float_rank f r)).
Proof.
  intros Hl Hr. unfold float_eq, key_eqb. rewrite Hl, Hr. cbn [negb andb key_cmp].
  destruct (Z.compare_spec (float_rank f l) (float_rank f r)); case_bool; done || lia.
Qed.
Lemma equal_values_keys n la lr ra rr k k' :
  data_type la = data_type ra -> cell_key n la lr = Some k -> cell_key n ra rr = Some k' ->
  equal_values n la lr ra rr Ieee = Ok (key_eqb k k').
Proof.
  revert la lr ra rr k k'. induction n as [|n IH]; intros la lr ra rr k k' Ht Hk Hk'; [done|].
  pose proof (cell_key_null _ _ _ _ Hk) as Hn. pose proof (cell_key_null _ _ _ _ Hk') as Hn'.
  destruct (is_null la lr || is_null ra rr) eqn:N.
  { cbn [equal_values]. rewrite N, Hn, Hn'. rewrite Hn, Hn' in N. f_equal. by destruct k, k'. }
  apply orb_false_iff in N as [Nl Nr]. rewrite Nl in Hn. rewrite Nr in Hn'. symmetry in Hn, Hn'. apply bool_decide_eq_false in Hn, Hn'.
  pose proof (compare_values_keys (S n) la lr ra rr false k k' Ht Hk Hk') as Hcmp. rewrite column_cmp_nested in Hcmp.
  cbn [cell_key] in Hk, Hk'. rewrite Nl in Hk. rewrite Nr in Hk'. rewrite <- Ht in Hk'.
  assert (shape_of (data_type la) <> SUnordered) as Hs by (intros E; by rewrite E in Hk).
  rewrite equal_values_shape by done. unfold equal_shape. rewrite Hcmp.
  destruct (shape_of (data_type la)) as [|c|c f|c| | | | |] eqn:Es; try done.
  - apply bind_Some in Hk as (x & Hx%ok_some_Some & Hk), Hk' as (y & Hy%ok_some_Some & Hk').
    destruct (is_nan f x) eqn:Fx, (is_nan f y) eqn:Fy; simplify_eq. rewrite Hx, Hy. cbn [mbind outcome_bind]. by rewrite float_eq_rank.
  - apply (equal_spans _ _ IH list_span); [|done..]. intros * [E ?]%list_span_Ok [E' ?]%list_span_Ok Hab. rewrite E, E' in Hab. split; [congruence|by left].
  - apply (equal_spans _ _ IH large_list_span); [|done..]. intros * [E ?]%large_list_span_Ok [E' ?]%large_list_span_Ok Hab. rewrite E, E' in Hab. split; [congruence|by left].
  - apply (equal_spans _ _ IH fixed_list_span); [|done..]. intros * E%fixed_list_span_Ok E'%fixed_list_span_Ok Hab. rewrite E, E' in Hab. split; [congruence|right; congruence].
  - apply bind_Some in Hk as (x & Hx & (l & Hl & ->)%fmap_Some), Hk' as (y & Hy & (r & Hr & ->)%fmap_Some).
    rewrite Hx, Hy. cbn [downcast ok_or mbind outcome_bind].
    assert (map data_type x = map data_type y) as Hxy.
    { destruct (struct_law _ _ Hx) as [E _], (struct_law _ _ Hy) as [E' _]. rewrite E, E' in Ht. congruence. }
    assert ((len x =? len y) = true) as ->. { apply Z.eqb_eq. unfold len. by rewrite <- (length_map data_type x), Hxy, length_map. }
    by apply (equal_columns_keys _ _ IH).
Qed.

(** ** Rows *)

Definition batch_key (b : Batch) (row : Z) (index : Z) : option Key :=
  match column b index with Ok a => cell_key (depth_of a) a row | _ => None end.
(** The keys of the columns of a row, in order. *)
Definition row_keys (b : Batch) (row : Z) (indices : list Z) : option (list Key) := mapM (batch_key b row) indices.
(** Two batches have the same column types. *)
Definition same_schema (b c : Batch) : Prop := map data_type (columns b) = map data_type (columns c).
Fixpoint order_cmp (order : list (Z * bool * bool)) (l r : list Key) : comparison :=
  match order with
  | [] => Eq
  | (_, asc, nl) :: order =>
      match l, r with
      | [], [] => Eq
      | [], _ :: _ => Lt
      | _ :: _, [] => Gt
      | x :: l, y :: r => match column_cmp asc nl x y with Eq => order_cmp order l r | c => c end
      end
  end.
Lemma order_laws order : @OrdLaws (list Key) (order_cmp order).
Proof.
  induction order as [|[[i asc] nl] order IH]; [done|].
  pose proof (column_laws asc nl) as Hc. split; unfold ocmp in *.
  - intros [|x l] [|y r]; try done. cbn [order_cmp]. pose proof (@ocmp_sym _ _ Hc x y) as E. unfold ocmp in E. rewrite E.
    pose proof (@ocmp_sym _ _ IH l r) as E2. unfold ocmp in E2. rewrite E2. by destruct (column_cmp asc nl x y).
  - intros [|x l] [|y r] [|z s]; try done; cbn [order_cmp]; destruct (column_cmp asc nl x y) eqn:E; try done. intros E2.
    pose proof (@ocmp_eq_l _ _ Hc x y z E) as E3. unfold ocmp in E3. rewrite E3.
    pose proof (@ocmp_eq_l _ _ IH l r s E2) as E4. unfold ocmp in E4. by rewrite E4.
  - intros [|x l] [|y r] [|z s]; try done; cbn [order_cmp]. destruct (column_cmp asc nl x y) eqn:E; try done.
    + pose proof (@ocmp_eq_l _ _ Hc x y z E) as E3. unfold ocmp in E3. rewrite E3. destruct (column_cmp asc nl y z); try done.
      apply (@ocmp_lt_trans _ _ IH).
    + intros _. destruct (column_cmp asc nl y z) eqn:E2; try done; intros _.
      * pose proof (@ocmp_eq_r _ _ Hc y z x E2) as E3. unfold ocmp in E3. by rewrite <- E3, E.
      * pose proof (@ocmp_lt_trans _ _ Hc x y z E E2) as E3. unfold ocmp in E3. by rewrite E3.
Qed.
Lemma column_cmp_direction asc nl l lr r rr x y :
  is_null l lr = bool_decide (key_tag x = 0) -> is_null r rr = bool_decide (key_tag y = 0) -> 
  (if asc || is_null l lr || is_null r rr then column_cmp true nl x y else CompOpp (column_cmp true nl x y)) = column_cmp asc nl x y.
Proof. intros -> ->. by destruct asc, x, y. Qed.
Lemma same_schema_column b c i x y : same_schema b c -> column b i = Ok x -> column c i = Ok y -> data_type x = data_type y.
Proof.
  intros Hs [_ Hx]%column_lookup [_ Hy]%column_lookup. apply (f_equal (fun l => l !! Z.to_nat i)) in Hs.
  rewrite !list_lookup_fmap, Hx, Hy in Hs. by injection Hs.
Qed.
Lemma batch_key_Some b row i k : batch_key b row i = Some k -> exists a, column b i = Ok a /\ cell_key (depth_of a) a row = Some k.
Proof. unfold batch_key. destruct (column b i) as [a| |]; try done. by exists a. Qed.

Definition order_indices (order : list (Z * bool * bool)) : list Z := map (fun o => o.1.1) order.
Lemma compare_rows_keys b lr c rr order l r :
  same_schema b c -> row_keys b lr (order_indices order) = Some l -> row_keys c rr (order_indices order) = Some r ->
  compare_rows b lr c rr order = Ok (order_cmp order l r).
Proof.
  intros Hs. revert l r. induction order as [|[[i asc] nl] order IH]; intros l r; [done|].
  unfold row_keys. cbn [order_indices map mapM fst]. intros (x & Hx & (l' & Hl & [= <-])%bind_Some)%bind_Some (y & Hy & (r' & Hr & [= <-])%bind_Some)%bind_Some.
  cbn [compare_rows order_cmp]. destruct (batch_key_Some _ _ _ _ Hx) as (a & Ea & Ka), (batch_key_Some _ _ _ _ Hy) as (a' & Ea' & Ka').
  rewrite Ea, Ea'. pose proof (same_schema_column _ _ _ _ _ Hs Ea Ea') as Ht.
  assert (depth_of a' = depth_of a) as Hd by (unfold depth_of; by rewrite Ht). rewrite Hd in Ka'.
  cbn [mbind outcome_bind]. rewrite (compare_values_keys _ _ _ _ _ nl _ _ Ht Ka Ka').
  rewrite <- (column_cmp_direction asc nl a lr a' rr x y) by (by eapply cell_key_null).
  destruct (column_cmp true nl x y) eqn:E; simpl.
  - destruct (asc || _ || _); by apply IH.
  - by destruct (asc || _ || _).
  - by destruct (asc || _ || _).
Qed.
Lemma equal_rows_keys b lr c rr indices l r :
  same_schema b c -> row_keys b lr indices = Some l -> row_keys c rr indices = Some r ->
  equal_rows b lr c rr indices = Ok (bool_decide (l = r)).
Proof.
  intros Hs. unfold equal_rows. revert l r. induction indices as [|i indices IH]; intros l r; unfold row_keys; cbn [mapM].
  { intros [= <-] [= <-]. done. }
  intros (x & Hx & (l' & Hl & [= <-])%bind_Some)%bind_Some (y & Hy & (r' & Hr & [= <-])%bind_Some)%bind_Some.
  cbn [equal_rows_with_float_mode]. destruct (batch_key_Some _ _ _ _ Hx) as (a & Ea & Ka), (batch_key_Some _ _ _ _ Hy) as (a' & Ea' & Ka').
  rewrite Ea, Ea'. pose proof (same_schema_column _ _ _ _ _ Hs Ea Ea') as Ht.
  assert (depth_of a' = depth_of a) as Hd by (unfold depth_of; by rewrite Ht). rewrite Hd in Ka'.
  cbn [mbind outcome_bind]. rewrite (equal_values_keys _ _ _ _ _ _ _ Ht Ka Ka').
  rewrite key_eqb_eq. destruct (decide (x = y)) as [->|Hxy].
  - rewrite bool_decide_true by done. cbn [mbind outcome_bind]. rewrite (IH l' r' Hl Hr). f_equal. apply bool_decide_ext. naive_solver.
  - rewrite bool_decide_false by done. rewrite bool_decide_false; [done|congruence].
Qed.

(** ** Rows with keys have no NaN *)

Definition nan_shape (rec : Array -> Z -> outcome bool) (a : Array) (row : Z) : outcome bool :=
  match shape_of (data_type a) with
  | SFloat c f => v ← value_of (as_fixed c a) a row; Ok (is_nan f v)
  | SList => '(v, s, n) ← list_span a row; range_has_nan rec v s (Z.to_nat n)
  | SLargeList => '(v, s, n) ← large_list_span a row; range_has_nan rec v s (Z.to_nat n)
  | SFixedList => '(v, s, n) ← fixed_list_span a row; range_has_nan rec v s (Z.to_nat n)
  | SStruct => l ← downcast (as_struct a); columns_have_nan rec l row
  | _ => Ok false
  end.
Lemma value_has_nan_shape n a row : is_null a row = false -> value_has_nan (S n) a row = nan_shape (value_has_nan n) a row.
Proof.
  intros Hn. cbn [value_has_nan]. rewrite Hn. unfold nan_shape.
  destruct (data_type a) as [ | | | | | | | | | | | | | | | | | | |[]|[]|[]| | | | | | | ]; done.
Qed.
Section nan_nested.
Context (rec : Array -> Z -> outcome bool) (key : Array -> Z -> option Key) (Hrec : forall a row k, key a row = Some k -> rec a row = Ok false).
Lemma span_no_nan span k :
  span_keys key span = Some k -> ('(v, s, n) ← span; range_has_nan rec v s (Z.to_nat n)) = Ok false.
Proof.
  unfold span_keys. intros ([[v s] n] & E%ok_some_Some & Hk)%bind_Some. rewrite E. cbn [mbind outcome_bind].
  apply fmap_Some in Hk as (l & Hl & _). clear E. revert s l Hl. induction (Z.to_nat n) as [|m IH]; intros s l; [done|].
  cbn [range_keys]. intros (x & Hx & (l' & Hl & [= <-])%bind_Some)%bind_Some. cbn [range_has_nan]. rewrite (Hrec _ _ _ Hx). by apply (IH _ l').
Qed.
Lemma columns_no_nan cs row l : mapM (fun c => key c row) cs = Some l -> columns_have_nan rec cs row = Ok false.
Proof.
  revert l. induction cs as [|a cs IH]; intros l; [done|]. cbn [mapM].
  intros (x & Hx & (l' & Hl & [= <-])%bind_Some)%bind_Some. cbn [columns_have_nan]. rewrite (Hrec _ _ _ Hx). by apply (IH l').
Qed.
End nan_nested.
Lemma value_no_nan n a row k : cell_key n a row = Some k -> value_has_nan n a row = Ok false.
Proof.
  revert a row k. induction n as [|n IH]; intros a row k; [done|]. destruct (is_null a row) eqn:N; [cbn; by rewrite N|].
  rewrite value_has_nan_shape by done. cbn [cell_key]. rewrite N. unfold nan_shape.
  destruct (shape_of (data_type a)) as [|c|c f|c| | | | |]; try done; intros Hk; try by eapply span_no_nan.
  - apply bind_Some in Hk as (x & Hx%ok_some_Some & Hk). rewrite Hx. cbn [mbind outcome_bind]. by destruct (is_nan f x).
  - apply bind_Some in Hk as (cs & -> & (l & Hl & _)%fmap_Some). cbn [downcast ok_or mbind outcome_bind]. by eapply columns_no_nan.
Qed.
Lemma row_no_nan b row indices l : row_keys b row indices = Some l -> row_has_nan b row indices = Ok false.
Proof.
  unfold row_keys. revert l. induction indices as [|i indices IH]; intros l; [done|]. cbn [mapM].
  intros (x & Hx & (l' & Hl & [= <-])%bind_Some)%bind_Some. cbn [row_has_nan].
  destruct (batch_key_Some _ _ _ _ Hx) as (a & -> & Ka). cbn [mbind outcome_bind]. rewrite (value_no_nan _ _ _ _ Ka). by apply (IH l').
Qed.
End keys.

(** C31: the comparison of rows by sort columns is, on rows of one schema whose
    sort cells have keys (anything but NaN and maps), the lexicographic order of
    their keys with each column's direction and null placement: it never fails,
    it is antisymmetric and a total preorder, it agrees with row equality, and
    such rows are found to have no NaN. *)
Theorem flink_row_order `{ArrowLaws} (b c : Batch) (lr rr : Z) (order : list (Z * bool * bool)) (l r : list Key) :
  same_schema b c -> row_keys b lr (order_indices order) = Some l -> row_keys c rr (order_indices order) = Some r ->
  compare_rows b lr c rr order = Ok (order_cmp order l r) /\
  compare_rows c rr b lr order = Ok (CompOpp (order_cmp order l r)) /\
  equal_rows b lr c rr (order_indices order) = Ok (bool_decide (order_cmp order l r = Eq)) /\
  row_has_nan b lr (order_indices order) = Ok false /\ @OrdLaws (list Key) (order_cmp order).
Proof.
  intros Hs Hl Hr. pose proof (order_laws order) as Hlaws. split_and!.
  - by apply compare_rows_keys.
  - rewrite (compare_rows_keys c rr b lr order r l) by done. f_equal. apply (@ocmp_sym _ _ Hlaws l r).
  - rewrite (equal_rows_keys b lr c rr _ l r Hs Hl Hr). f_equal. apply bool_decide_ext. unfold row_keys in *.
    apply mapM_Some in Hl, Hr. clear Hs. revert l r Hl Hr. induction order as [|[[i asc] nl] order IH]; intros l r Hl Hr.
    { apply Forall2_nil_inv_l in Hl as ->, Hr as ->. done. }
    cbn [order_indices map] in *. apply Forall2_cons_inv_l in Hl as (x & l' & _ & Hl & ->), Hr as (y & r' & _ & Hr & ->).
    cbn [order_cmp]. assert (column_cmp asc nl x y = Eq <-> x = y) as Hxy.
    { split; [|intros ->; apply (@ocmp_refl _ _ (column_laws asc nl) y)]. intros E. apply key_cmp_eq. destruct x, y, asc, nl; try done; by apply opp_eq. }
    destruct (column_cmp asc nl x y) eqn:E; [rewrite <- (IH (order_laws order) l' r' Hl Hr)|..]; naive_solver.
  - by eapply row_no_nan.
  - done.
Qed.
