(* ===== verification/TopN.v ===== *)
(** * Streaming Top-N: [operators/top_n/selection.rs], [top_n/batch.rs], [top_n/planning.rs]

    A group keeps its candidate rows in rank order. Each input row of a batch
    changes the candidates of its group by the strategy of the plan, and the
    difference between the selected ranks before and after is emitted. Candidates
    refer to rows of two batches: the input and the rows restored from state. *)

From Stdlib Require Import ZArith Lia Strings.Byte.
From stdpp Require Import base list option numbers strings.
From S2P Require Import Prelude Bytes OrdMap Arrow Aggregate TopNCompare.

Definition INSERT : Z := 0.
Definition UPDATE_BEFORE : Z := 1.
Definition UPDATE_AFTER : Z := 2.
Definition DELETE : Z := 3.

(** ** Plan *)

Inductive TopNStrategy : Type := Unspecified_ | AppendFast | UpdateFast | Retract.
#[global] Instance TopNStrategy_eq : EqDecision TopNStrategy.
Proof. solve_decision. Defined.
Definition strategy_of (z : Z) : option TopNStrategy :=
  match z with 0 => Some Unspecified_ | 1 => Some AppendFast | 2 => Some UpdateFast | 3 => Some Retract | _ => None end.
Inductive TopNRankType : Type := RankUnspecified | RowNumber | Rank.
#[global] Instance TopNRankType_eq : EqDecision TopNRankType.
Proof. solve_decision. Defined.
Definition rank_type_of (z : Z) : option TopNRankType :=
  match z with 0 => Some RankUnspecified | 1 => Some RowNumber | 2 => Some Rank | _ => None end.

Record TopNPlan : Type := {
  partition_key_indices : list Z;
  sort_key_indices : list Z;
  sort_ascending : list bool;
  sort_nulls_last : list bool;
  primary_key_indices : list Z;
  rank_start : Z;
  plan_rank_end : option Z;
  variable_rank_end_index : option Z;
  output_rank_number : bool;
  generate_update_before : bool;
  strategy : Z;
  has_schemas : bool;
  state_ttl_millis : Z;
  plan_rank_type : Z;
  bounded_final_output : bool;
  physical_input_semantics : bool;
}.

Definition is_some {A} (o : option A) : bool := match o with Some _ => true | None => false end.
Definition validate_plan (plan : TopNPlan) (max_parallelism : Z) : outcome unit :=
  let known := match strategy_of (strategy plan) with Some (AppendFast | UpdateFast | Retract) => true | _ => false end in
  if (max_parallelism =? 0) || (32768 <? max_parallelism) || (rank_start plan =? 0)
     || Bool.eqb (is_some (plan_rank_end plan)) (is_some (variable_rank_end_index plan))
     || negb (has_schemas plan) || negb known
     || negb (len (sort_key_indices plan) =? len (sort_ascending plan))
     || negb (len (sort_key_indices plan) =? len (sort_nulls_last plan))
  then Err (Plan "top-n requires valid schemas, strategy, range, ordering, and max parallelism")
  else
    _ ← match plan_rank_end plan with
        | Some e => guard_ok (negb ((e <? rank_start plan) || (I64_MAX <? e))) (Plan "top-n rank end is outside its valid one-based range")
        | None => Ok tt
        end;
    rank ← ok_or (Plan "top-n rank type is unknown") (rank_type_of (plan_rank_type plan));
    let is_rank := bool_decide (rank = Rank) in
    if is_rank && (negb (bounded_final_output plan) || negb (physical_input_semantics plan)
         || negb (strategy plan =? 1) || negb (is_some (plan_rank_end plan)) || negb (state_ttl_millis plan =? 0))
    then Err (Plan "SQL RANK selection requires bounded physical append-state with a constant range")
    else if bounded_final_output plan && negb is_rank
    then Err (Plan "bounded Top-N final output currently requires SQL RANK semantics")
    else if bool_decide (sort_key_indices plan = []) &&
         (negb (bool_decide (partition_key_indices plan = [])) || output_rank_number plan || is_some (variable_rank_end_index plan))
    then Err (Plan "unordered top-n is valid only for a global constant LIMIT/OFFSET")
    else Ok tt.

Definition rank_type (plan : TopNPlan) : TopNRankType :=
  match rank_type_of (plan_rank_type plan) with Some Rank => Rank | _ => RowNumber end.
Definition is_append_limit (plan : TopNPlan) : bool :=
  bool_decide (sort_key_indices plan = []) && bool_decide (partition_key_indices plan = [])
  && is_some (plan_rank_end plan) && (strategy plan =? 1).
Definition is_non_expiring_append_limit (plan : TopNPlan) : bool := is_append_limit plan && (state_ttl_millis plan =? 0).

(** [indices.iter().zip(ascending).zip(nulls_last)]. *)
Definition sort_order (plan : TopNPlan) : list (Z * bool * bool) :=
  zip (zip (sort_key_indices plan) (sort_ascending plan)) (sort_nulls_last plan).

(** ** Candidates *)

Record CandidateRef : Type := { source : Z; row : Z; sequence : Z; kind : Z }.
#[global] Instance CandidateRef_eq : EqDecision CandidateRef.
Proof. solve_decision. Defined.
Record GroupWork : Type := { next_sequence : Z; rank_end : option Z; candidates : list CandidateRef }.
Record OutputEvent : Type := { candidate : CandidateRef; rank : Z; event_kind : Z }.

Definition sequence_after (sequence : Z) : outcome Z :=
  if sequence + 1 <=? U64_MAX then Ok (sequence + 1) else Err (Execution "top-n sequence overflow").
Definition unknown_row_kind : error := Execution "unknown Flink RowKind byte".
Definition require_insert (kind : Z) : outcome unit :=
  if kind =? INSERT then Ok tt
  else if (0 <=? kind) && (kind <=? 3) then Err (Execution "append-fast Top-N received RowKind")
  else Err unknown_row_kind.

(** [comparator_calls.saturating_add(1)]. *)
Definition tick : M Z unit := modS (fun n => sat_add n 1).

Section selection.
Context `{Arrow}.

(** The batches candidates refer to, and the encoded sort keys of their rows when
    the ordering has an order-preserving encoding. *)
Record CandidateSources : Type := { batches : list Batch; orders : option (list (list bytes)) }.

Section ordering.
Context (plan : TopNPlan) (sources : CandidateSources).

Definition order_row (o : list (list bytes)) (c : CandidateRef) : outcome bytes :=
  rows ← at_index o (source c); at_index rows (row c).
Definition sort_key_order (l r : CandidateRef) : outcome comparison :=
  match orders sources with
  | Some o => x ← order_row o l; y ← order_row o r; Ok (bytes_cmp x y)
  | None =>
      lb ← at_index (batches sources) (source l);
      rb ← at_index (batches sources) (source r);
      compare_rows lb (row l) rb (row r) (sort_order plan)
  end.
Definition candidate_order (l r : CandidateRef) : outcome comparison :=
  c ← sort_key_order l r;
  Ok match c with Eq => sequence l ?= sequence r | c => c end.
Definition sort_key_has_nan (c : CandidateRef) : outcome bool :=
  b ← at_index (batches sources) (source c); row_has_nan b (row c) (sort_key_indices plan).
(** [any] over the sort columns. *)
Fixpoint columns_can_have_nan (b : Batch) (indices : list Z) : outcome bool :=
  match indices with
  | [] => Ok false
  | i :: indices => a ← column b i; if data_type_can_have_nan (data_type a) then Ok true else columns_can_have_nan b indices
  end.
Fixpoint any_nan (l : list CandidateRef) : outcome bool :=
  match l with
  | [] => Ok false
  | c :: l => found ← sort_key_has_nan c; if found : bool then Ok true else any_nan l
  end.

(** The length of the run of candidates equal to [representative]. *)
Fixpoint peers (representative : CandidateRef) (l : list CandidateRef) : M Z nat :=
  match l with
  | [] => mret O
  | c :: l =>
      _ ← tick;
      o ← lift (sort_key_order representative c);
      match o with Eq => n ← peers representative l; mret (S n) | _ => mret O end
  end.
(** Into a bucket, before the first greater sequence. *)
Fixpoint insert_by_sequence (c : CandidateRef) (bucket : list CandidateRef) : list CandidateRef :=
  match bucket with
  | [] => [c]
  | x :: bucket => if sequence c <? sequence x then c :: x :: bucket else x :: insert_by_sequence c bucket
  end.
(** The first candidate comparator-equal to the new one starts its bucket. *)
Fixpoint insert_in_bucket (before rest : list CandidateRef) (c : CandidateRef) : M Z (option (list CandidateRef)) :=
  match rest with
  | [] => mret None
  | x :: rest =>
      _ ← tick;
      o ← lift (sort_key_order x c);
      match o with
      | Eq => n ← peers x rest; mret (Some (before ++ insert_by_sequence c (x :: take n rest) ++ drop n rest))
      | _ => insert_in_bucket (before ++ [x]) rest c
      end
  end.
(** [while low < high]. *)
Fixpoint binary_search (fuel : nat) (l : list CandidateRef) (c : CandidateRef) (low high : Z) : M Z Z :=
  if low <? high then
    match fuel with
    | O => panic
    | S fuel =>
        let middle := low + (high - low) / 2 in
        _ ← tick;
        x ← lift (at_index l middle);
        o ← lift (candidate_order x c);
        match o with Lt => binary_search fuel l c (middle + 1) high | _ => binary_search fuel l c low middle end
    end
  else mret low.
Definition insert_sorted (l : list CandidateRef) (c : CandidateRef) : M Z (list CandidateRef) :=
  if bool_decide (sort_key_indices plan = []) then mret (l ++ [c])
  else
    b ← lift (at_index (batches sources) (source c));
    can ← lift (columns_can_have_nan b (sort_key_indices plan));
    has ← (if can : bool then here ← lift (sort_key_has_nan c); if here : bool then mret true else lift (any_nan l) else mret false);
    placed ← (if has : bool then insert_in_bucket [] l c else mret None);
    match placed with
    | Some l => mret l
    | None => low ← binary_search (length l) l c 0 (len l); mret (take (Z.to_nat low) l ++ c :: drop (Z.to_nat low) l)
    end.

Definition truncate (n : Z) (l : list CandidateRef) : list CandidateRef := take (Z.to_nat n) l.
(** [usize::try_from(rank_end.max(0)).unwrap_or(usize::MAX)]. *)
Definition retained_end (rank_end : Z) : Z := Z.max rank_end 0.
Definition truncate_rank (l : list CandidateRef) (rank_end : Z) : M Z (list CandidateRef) :=
  let e := retained_end rank_end in
  if (len l <=? e) || (e =? 0) then mret (truncate e l)
  else
    cutoff ← lift (at_index l (e - 1));
    n ← peers cutoff (drop (Z.to_nat e) l);
    mret (truncate (e + Z.of_nat n) l).

(** The candidates of ranks [rank_start ..= rank_end]. *)
Definition selected (l : list CandidateRef) (rank_end : Z) : outcome (list CandidateRef) :=
  if rank_end <? wraps 64 (rank_start plan) then Ok []
  else
    let from := Z.min (rank_start plan - 1) (len l) in
    let to := Z.min (if rank_end <? 0 then USIZE_MAX else rank_end) (len l) in
    if from <=? to then Ok (take (Z.to_nat (to - from)) (drop (Z.to_nat from) l)) else Panic.

Definition equal_candidates (l r : CandidateRef) (indices : list Z) : outcome bool :=
  lb ← at_index (batches sources) (source l);
  rb ← at_index (batches sources) (source r);
  equal_rows lb (row l) rb (row r) indices.
Fixpoint find_equal (l : list CandidateRef) (c : CandidateRef) (indices : list Z) : outcome (option nat) :=
  match l with
  | [] => Ok None
  | x :: l =>
      same ← equal_candidates x c indices;
      if same : bool then Ok (Some O) else found ← find_equal l c indices; Ok (option_map S found)
  end.

(** ** The difference of two selections *)

(** [0..batch.num_columns()]. *)
Definition all_columns (c : CandidateRef) : outcome (list Z) :=
  b ← at_index (batches sources) (source c); Ok (map Z.of_nat (seq 0 (length (columns b)))).
Definition same_row (l r : CandidateRef) : outcome bool := indices ← all_columns l; equal_candidates l r indices.
Definition same_output (l r : option CandidateRef) : outcome bool :=
  match l, r with
  | None, None => Ok true
  | Some l, Some r =>
      if bool_decide (l = r) then Ok true
      else if sequence l =? sequence r then same_row l r
      else Ok false
  | _, _ => Ok false
  end.
Definition event (c : CandidateRef) (rank kind : Z) : OutputEvent := {| candidate := c; rank := rank; event_kind := kind |}.
Definition update_events (old next : CandidateRef) (rank : Z) : list OutputEvent :=
  (if generate_update_before plan then [event old rank UPDATE_BEFORE] else []) ++ [event next rank UPDATE_AFTER].
Definition change_events (old next : option CandidateRef) (rank : Z) : list OutputEvent :=
  match old, next with
  | Some old, Some next => update_events old next rank
  | Some old, None => [event old rank DELETE]
  | None, Some next => [event next rank INSERT]
  | None, None => []
  end.
(** [for index in 0..before.len().max(after.len())]. *)
Fixpoint rank_difference (before after : list CandidateRef) (n : nat) (index : Z) : outcome (list OutputEvent) :=
  match n with
  | O => Ok []
  | S n =>
      let old := head before in
      let next := head after in
      same ← same_output old next;
      let rank := i64_sat ((if rank_start plan <=? I64_MAX then rank_start plan else I64_MAX) + index) in
      rest ← rank_difference (tail before) (tail after) n (index + 1);
      Ok ((if same : bool then [] else change_events old next rank) ++ rest)
  end.
Fixpoint removed_events (before after : list CandidateRef) : outcome (list OutputEvent) :=
  match before with
  | [] => Ok []
  | old :: before =>
      events ← match List.find (fun next => sequence next =? sequence old) after with
               | None => Ok [event old 0 DELETE]
               | Some next =>
                   if bool_decide (old = next) then Ok []
                   else same ← same_row old next; Ok (if same : bool then [] else update_events old next 0)
               end;
      rest ← removed_events before after;
      Ok (events ++ rest)
  end.
Definition inserted_events (before after : list CandidateRef) : list OutputEvent :=
  map (fun next => event next 0 INSERT) (List.filter (fun next => negb (existsb (fun old => sequence old =? sequence next) before)) after).
Definition emit_difference (before after : list CandidateRef) : outcome (list OutputEvent) :=
  if output_rank_number plan || (1 <? rank_start plan) then
    rank_difference before after (Nat.max (length before) (length after)) 0
  else if (rank_start plan =? 1) && bool_decide (plan_rank_end plan = Some 1) && negb (strategy plan =? 3) then
    same ← same_output (head before) (head after);
    Ok (if same : bool then [] else change_events (head before) (head after) 0)
  else
    removed ← removed_events before after;
    Ok (removed ++ inserted_events before after).
End ordering.

(** ** One input row *)

Record TopNWork : Type := {
  groups : list GroupWork;
  output : list OutputEvent;
  triggering_rows : list Z;
  comparator_calls : Z;
  invalid_retractions : Z;
  invalid_top_sizes : Z;
}.
Abbreviation T := (M TopNWork).
Definition with_groups (f : list GroupWork -> list GroupWork) (w : TopNWork) : TopNWork :=
  {| groups := f (groups w); output := output w; triggering_rows := triggering_rows w; comparator_calls := comparator_calls w; invalid_retractions := invalid_retractions w; invalid_top_sizes := invalid_top_sizes w |}.
Definition push_events (l : list OutputEvent) (w : TopNWork) : TopNWork :=
  {| groups := groups w; output := output w ++ l; triggering_rows := triggering_rows w; comparator_calls := comparator_calls w; invalid_retractions := invalid_retractions w; invalid_top_sizes := invalid_top_sizes w |}.
Definition push_triggers (l : list Z) (w : TopNWork) : TopNWork :=
  {| groups := groups w; output := output w; triggering_rows := triggering_rows w ++ l; comparator_calls := comparator_calls w; invalid_retractions := invalid_retractions w; invalid_top_sizes := invalid_top_sizes w |}.
Definition set_calls (n : Z) (w : TopNWork) : TopNWork :=
  {| groups := groups w; output := output w; triggering_rows := triggering_rows w; comparator_calls := n; invalid_retractions := invalid_retractions w; invalid_top_sizes := invalid_top_sizes w |}.
Definition count_retraction (w : TopNWork) : TopNWork :=
  {| groups := groups w; output := output w; triggering_rows := triggering_rows w; comparator_calls := comparator_calls w; invalid_retractions := sat_add (invalid_retractions w) 1; invalid_top_sizes := invalid_top_sizes w |}.
Definition count_top_size (w : TopNWork) : TopNWork :=
  {| groups := groups w; output := output w; triggering_rows := triggering_rows w; comparator_calls := comparator_calls w; invalid_retractions := invalid_retractions w; invalid_top_sizes := sat_add (invalid_top_sizes w) 1 |}.
(** [&mut self.comparator_calls]. *)
Definition counted {A} (m : M Z A) : T A := fun w =>
  let '(o, n) := m (comparator_calls w) in (o, set_calls n w).
(** [groups[i]] and a write to it. *)
Definition group_at (i : Z) : T GroupWork := w ← getS; lift (at_index (groups w) i).
Definition set_group (i : Z) (g : GroupWork) : T unit := modS (with_groups (<[Z.to_nat i := g]>)).

Definition with_candidates (l : list CandidateRef) (g : GroupWork) : GroupWork :=
  {| next_sequence := next_sequence g; rank_end := rank_end g; candidates := l |}.
Definition with_sequence (n : Z) (g : GroupWork) : GroupWork :=
  {| next_sequence := n; rank_end := rank_end g; candidates := candidates g |}.
Definition with_rank_end (r : option Z) (g : GroupWork) : GroupWork :=
  {| next_sequence := next_sequence g; rank_end := r; candidates := candidates g |}.

(** The rank end of a group is the one of its first row. *)
Definition variable_rank_end (input : Batch) (index r : Z) : outcome Z :=
  a ← column input index;
  if is_null a r then Ok 0
  else match data_type a with
  | DInt16 => expect (value_of (as_fixed Int16Array a) a r)
  | DInt32 => expect (value_of (as_fixed Int32Array a) a r)
  | DInt64 => expect (value_of (as_fixed Int64Array a) a r)
  | _ => Err (Execution "top-n variable rank end has another Arrow type")
  end.
Definition group_rank_end (plan : TopNPlan) (input : Batch) (r : Z) (g : GroupWork) : T (Z * GroupWork) :=
  match plan_rank_end plan with
  | Some e => if e <=? I64_MAX then mret (e, g) else throw (Execution "top-n rank end exceeds i64")
  | None =>
      match variable_rank_end_index plan with
      | None => panic
      | Some index =>
          value ← lift (variable_rank_end input index r);
          match rank_end g with
          | None => mret (value, with_rank_end (Some value) g)
          | Some existing =>
              _ ← (if existing =? value then mret tt else modS count_top_size);
              mret (existing, g)
          end
      end
  end.

(** The DataFusion paths of append-only plans: whether a row wins its Top-1, and
    the retention of the first candidates by a precomputed priority. *)
Record Selection : Type := { retain : list CandidateRef -> Z -> outcome (list CandidateRef) }.
Definition selection_insert (s : Selection) (l : list CandidateRef) (c : CandidateRef) (limit : Z) : outcome (list CandidateRef) :=
  retain s (l ++ [c]) limit.

Section rows.
Context (plan : TopNPlan) (sources : CandidateSources) (kinds : list Z) (row_groups : list Z).
Context (top_one_winners : option (list bool)) (append_selection : option Selection) (native : bool) (field_count : Z).

Definition append_row (r : Z) (kind end_ : Z) (c : CandidateRef) (g : GroupWork) : T GroupWork :=
  _ ← (if physical_input_semantics plan then mret tt else lift (require_insert kind));
  n ← lift (sequence_after (next_sequence g));
  let g := with_sequence n g in
  match top_one_winners with
  | Some winners =>
      won ← lift (at_index winners r);
      mret (if won : bool then with_candidates [c] g else g)
  | None =>
      l ← match append_selection with
          | Some s => lift (selection_insert s (candidates g) c (retained_end end_))
          | None => counted (insert_sorted plan sources (candidates g) c)
          end;
      mret (with_candidates l g)
  end.
Definition update_row (kind : Z) (c : CandidateRef) (g : GroupWork) : T GroupWork :=
  _ ← when (negb ((kind =? INSERT) || (kind =? UPDATE_AFTER))) (Execution "update-fast Top-N received RowKind");
  previous ← lift (find_equal sources (candidates g) c (primary_key_indices plan));
  '(c, g) ← match previous with
            | Some i =>
                old ← lift (at_index (candidates g) (Z.of_nat i));
                mret ({| source := source c; row := row c; sequence := sequence old; kind := TopN.kind c |},
                      with_candidates (delete i (candidates g)) g)
            | None => n ← lift (sequence_after (next_sequence g)); mret (c, with_sequence n g)
            end;
  l ← counted (insert_sorted plan sources (candidates g) c);
  mret (with_candidates l g).
Definition retract_row (kind : Z) (c : CandidateRef) (g : GroupWork) : T GroupWork :=
  if (kind =? INSERT) || (kind =? UPDATE_AFTER) then
    n ← lift (sequence_after (next_sequence g));
    l ← counted (insert_sorted plan sources (candidates g) c);
    mret (with_candidates l (with_sequence n g))
  else if (kind =? UPDATE_BEFORE) || (kind =? DELETE) then
    previous ← lift (find_equal sources (candidates g) c (map Z.of_nat (seq 0 (Z.to_nat field_count))));
    match previous with
    | Some i => mret (with_candidates (delete i (candidates g)) g)
    | None => _ ← modS count_retraction; mret g
    end
  else throw unknown_row_kind.

(** LIMIT over appended rows keeps only the number of rows seen. *)
Definition limit_row (r : Z) (kind limit_end : Z) (g : GroupWork) : T GroupWork :=
  _ ← lift (require_insert kind);
  let g := with_rank_end (Some 0) g in
  if next_sequence g <? limit_end then
    let c := {| source := 0; row := r; sequence := next_sequence g; kind := INSERT |} in
    n ← lift (sequence_after (next_sequence g));
    _ ← (if rank_start plan <=? n then modS (push_events [event c (wraps 64 n) INSERT]) else mret tt);
    mret (with_sequence n g)
  else mret g.

Definition strategy_row (r kind end_ : Z) (c : CandidateRef) (g : GroupWork) : T GroupWork :=
  match strategy_of (strategy plan) with
  | None => throw (Plan "top-n strategy is unknown")
  | Some AppendFast => append_row r kind end_ c g
  | Some UpdateFast => update_row kind c g
  | Some Retract => retract_row kind c g
  | Some Unspecified_ => panic
  end.
(** Candidates beyond the last rank are dropped unless a retraction can bring them back. *)
Definition truncate_row (end_ : Z) (g : GroupWork) : T GroupWork :=
  if bounded_final_output plan && bool_decide (rank_type plan = Rank) then
    l ← counted (truncate_rank plan sources (candidates g) end_);
    mret (with_candidates l g)
  else if negb (strategy plan =? 3) then mret (with_candidates (truncate (retained_end end_) (candidates g)) g)
  else mret g.
Definition ranked_row (r kind : Z) (g : GroupWork) : T GroupWork :=
  input ← lift (at_index (batches sources) 0);
  '(end_, g) ← group_rank_end plan input r g;
  candidate_kind ← (if physical_input_semantics plan
                    then (if (0 <=? kind) && (kind <=? 3) then mret kind else throw unknown_row_kind)
                    else mret INSERT);
  let c := {| source := 0; row := r; sequence := next_sequence g; TopN.kind := candidate_kind |} in
  before ← (if bounded_final_output plan then mret [] else lift (selected plan (candidates g) end_));
  g ← strategy_row r kind end_ c g;
  g ← truncate_row end_ g;
  _ ← (if bounded_final_output plan then mret tt
       else
         after ← lift (selected plan (candidates g) end_);
         events ← lift (emit_difference plan sources before after);
         modS (push_events events));
  mret g.

Definition process_row (r : Z) : T unit :=
  start ← gets (fun w => len (output w));
  i ← lift (at_index row_groups r);
  g ← group_at i;
  kind ← lift (at_index kinds r);
  if is_append_limit plan then
    g ← limit_row r kind (default 0 (plan_rank_end plan)) g;
    set_group i g
  else
    g ← ranked_row r kind g;
    _ ← set_group i g;
    if native then modS (fun w => push_triggers (repeat r (Z.to_nat (len (output w) - start))) w) else mret tt.
(** [for row in 0..batch.num_rows()]. *)
Definition process_rows (n : Z) : T unit := forM (map Z.of_nat (seq 0 (Z.to_nat n))) process_row.
End rows.
End selection.
