(* ===== verification/TopNChangelog.v ===== *)
(** * The changelog of a Top-N moves the view by its difference

    The rows a consumer sees are the selected candidates, with their ranks when
    the plan outputs them. What [emit_difference] emits turns the view before a
    row into the view after it, as a bag of rows when retractions are emitted and
    as a keyed table in any case. Rows that compare equal are the same row. *)

From Stdlib Require Import ZArith Lia Strings.Byte.
From stdpp Require Import base list option numbers strings.
From S2P Require Import Prelude Bytes OrdMap Arrow Aggregate TopNCompare TopN.

Lemma nodup_map_inj {A B} (f : A -> B) l x y : NoDup (map f l) -> x ∈ l -> y ∈ l -> f x = f y -> x = y.
Proof.
  induction l as [|a l IH]; [by intros _ ?%elem_of_nil|]. cbn [map]. intros [Ha Hl]%NoDup_cons Hx Hy E.
  apply elem_of_cons in Hx as [->|Hx], Hy as [->|Hy]; [done|..|by apply IH]; destruct Ha; apply list_elem_of_fmap; eauto.
Qed.

Definition ranked_mode (plan : TopNPlan) : bool := output_rank_number plan || (1 <? rank_start plan).
Definition top_one_mode (plan : TopNPlan) : bool :=
  (rank_start plan =? 1) && bool_decide (plan_rank_end plan = Some 1) && negb (strategy plan =? 3).
Definition rank_at (plan : TopNPlan) (index : Z) : Z :=
  i64_sat ((if rank_start plan <=? I64_MAX then rank_start plan else I64_MAX) + index).
(** The visible rows of a selection whose first row has the given index. *)
Fixpoint view_from (plan : TopNPlan) (index : Z) (l : list CandidateRef) : list (CandidateRef * Z) :=
  match l with
  | [] => []
  | c :: l => (c, if ranked_mode plan then rank_at plan index else 0) :: view_from plan (index + 1) l
  end.
Definition view (plan : TopNPlan) (l : list CandidateRef) : list (CandidateRef * Z) := view_from plan 0 l.

Definition sign (e : OutputEvent) : Z :=
  if (event_kind e =? INSERT) || (event_kind e =? UPDATE_AFTER) then 1 else -1.
Definition observed (f : CandidateRef -> Z -> Z) (l : list (CandidateRef * Z)) : Z := zsum (fun p => f p.1 p.2) l.
Definition net (f : CandidateRef -> Z -> Z) (l : list OutputEvent) : Z := zsum (fun e => sign e * f (candidate e) (rank e)) l.

Section changelog.
Context `{Arrow} (plan : TopNPlan) (sources : CandidateSources).

(** An observation of rows does not tell equal rows apart. *)
Definition respects (f : CandidateRef -> Z -> Z) : Prop := forall c d r, same_row sources c d = Ok true -> f c r = f d r.
Lemma events_net_app f l k : net f (l ++ k) = net f l + net f k.
Proof. apply zsum_app. Qed.

Section bag.
Context (f : CandidateRef -> Z -> Z) (Hf : respects f) (Hub : generate_update_before plan = true).

Lemma update_net old next r : net f (update_events plan old next r) = f next r - f old r.
Proof. unfold update_events. rewrite Hub. unfold net. simpl. unfold sign. simpl. lia. Qed.
Definition at_rank (r : Z) (o : option CandidateRef) : Z := match o with Some c => f c r | None => 0 end.
Lemma change_events_net old next r : net f (change_events plan old next r) = at_rank r next - at_rank r old.
Proof.
  destruct old, next; simpl; [apply update_net|unfold net, sign; simpl; lia..].
Qed.
Lemma same_output_rank old next r : same_output sources old next = Ok true -> at_rank r old = at_rank r next.
Proof.
  destruct old as [o|], next as [n|]; simpl; try done. case_bool_decide as E; [by subst|]. case_bool; [|done]. apply Hf.
Qed.
Lemma step_net old next r same :
  same_output sources old next = Ok same ->
  net f (if same then [] else change_events plan old next r) = at_rank r next - at_rank r old.
Proof. destruct same; [|by intros _; apply change_events_net]. intros E. rewrite (same_output_rank _ _ _ E). unfold net. simpl. lia. Qed.

Lemma view_head i l : observed f (view_from plan i l) = at_rank (if ranked_mode plan then rank_at plan i else 0) (head l) + observed f (view_from plan (i + 1) (tail l)).
Proof. destruct l; simpl; [unfold observed; simpl; lia|done]. Qed.
Lemma rank_difference_net before after n i events :
  ranked_mode plan = true -> (length before <= n)%nat -> (length after <= n)%nat ->
  rank_difference plan sources before after n i = Ok events ->
  net f events = observed f (view_from plan i after) - observed f (view_from plan i before).
Proof.
  intros Hm. revert before after i events. induction n as [|n IH]; intros before after i events Hb Ha; cbn [rank_difference].
  - intros [= <-]. destruct before, after; simpl in *; lia || done.
  - intros (same & Es & (rest & Er & [= <-])%outcome_bind_Ok)%outcome_bind_Ok.
    rewrite events_net_app, (step_net _ _ _ _ Es), (IH (tail before) (tail after) (i + 1) rest); [|destruct before; simpl in *; lia|destruct after; simpl in *; lia|done].
    rewrite (view_head i before), (view_head i after), Hm. unfold rank_at. lia.
Qed.

(** Without ranks, rows are followed by their sequence. *)
Lemma view_unranked i l : ranked_mode plan = false -> observed f (view_from plan i l) = zsum (fun c => f c 0) l.
Proof. intros Hm. revert i. induction l as [|c l IH]; intros i; [done|]. unfold observed in *. simpl. rewrite Hm. f_equal. apply IH. Qed.
Definition kept (before : list CandidateRef) (c : CandidateRef) : bool := existsb (fun old => sequence old =? sequence c) before.
Definition value_at (l : list CandidateRef) (s : Z) : Z := zsum (fun c => if sequence c =? s then f c 0 else 0) l.

Lemma find_sequence l s : 
  match List.find (fun next => sequence next =? s) l with
  | Some next => next ∈ l /\ sequence next = s
  | None => forall c, c ∈ l -> sequence c <> s
  end.
Proof.
  induction l as [|c l IH]; simpl; [by intros c Hc%elem_of_nil|]. case_bool; [by split; [constructor|]|].
  destruct (List.find _ l); [destruct IH; split; [by constructor|done]|]. intros d [->|Hd]%elem_of_cons; auto.
Qed.
Lemma value_at_found l s c : NoDup (map sequence l) -> c ∈ l -> sequence c = s -> value_at l s = f c 0.
Proof.
  unfold value_at. induction l as [|d l IH]; [by intros _ ?%elem_of_nil|]. cbn [map]. intros [Hd Hl]%NoDup_cons Hc Hs. simpl.
  apply elem_of_cons in Hc as [->|Hc].
  - rewrite (proj2 (Z.eqb_eq _ _) Hs). assert (zsum (fun c => if sequence c =? s then f c 0 else 0) l = 0) as ->; [|lia].
    clear IH. induction l as [|e l IH]; [done|]. simpl. cbn [map] in Hd. apply not_elem_of_cons in Hd as [He Hd]. apply NoDup_cons in Hl as [_ Hl].
    rewrite IH by done. case_bool; lia.
  - rewrite IH by done. case_bool; [|lia]. destruct Hd. rewrite Hs in *. subst. apply list_elem_of_fmap. eauto.
Qed.
Lemma value_at_none l s : (forall c, c ∈ l -> sequence c <> s) -> value_at l s = 0.
Proof.
  unfold value_at. induction l as [|c l IH]; intros Hl; [done|]. simpl. rewrite IH by (intros; apply Hl; by constructor).
  pose proof (Hl c ltac:(constructor)). case_bool; lia.
Qed.
Lemma removed_net before after events :
  NoDup (map sequence after) -> removed_events plan sources before after = Ok events ->
  net f events = zsum (fun c => value_at after (sequence c) - f c 0) before.
Proof.
  intros Hnd. revert events. induction before as [|old before IH]; intros events; cbn [removed_events]; [by intros [= <-]|].
  intros (ev & Ee & (rest & Er & [= <-])%outcome_bind_Ok)%outcome_bind_Ok. rewrite events_net_app, (IH _ Er). simpl.
  pose proof (find_sequence after (sequence old)) as Hfind. destruct (List.find _ after) as [next|].
  - destruct Hfind as [Hin Hseq]. rewrite (value_at_found _ _ _ Hnd Hin Hseq).
    case_bool_decide as E; [subst; injection Ee as <-; unfold net; simpl; lia|].
    apply outcome_bind_Ok in Ee as (same & Es & [= <-]). destruct same; [rewrite (Hf _ _ 0 Es); unfold net; simpl; lia|]. rewrite update_net. lia.
  - rewrite (value_at_none _ _ Hfind). injection Ee as <-. unfold net, sign. simpl. lia.
Qed.
Lemma indicator_sum before d : NoDup (map sequence before) ->
  zsum (fun c => if sequence d =? sequence c then f d 0 else 0) before = if kept before d then f d 0 else 0.
Proof.
  induction before as [|c before IH]; [done|]. cbn [map]. intros [Hc Hb]%NoDup_cons. simpl. rewrite IH by done. clear IH.
  rewrite (Z.eqb_sym (sequence c)). destruct (Z.eqb_spec (sequence d) (sequence c)) as [E|E]; simpl; [|lia].
  destruct (kept before d) eqn:Hk; [|lia]. destruct Hc. apply existsb_exists in Hk as (x & Hx%list_elem_of_In & Hs%Z.eqb_eq).
  apply list_elem_of_fmap. exists x. split; [congruence|done].
Qed.
Lemma inserted_net before after : NoDup (map sequence before) ->
  net f (inserted_events before after) + zsum (fun c => value_at after (sequence c)) before = zsum (fun c => f c 0) after.
Proof.
  intros Hnd. unfold inserted_events. induction after as [|d after IH]; simpl.
  { unfold net, value_at. simpl. clear. induction before; simpl in *; lia. }
  rewrite zsum_plus, (indicator_sum before d Hnd). unfold kept. 
  destruct (existsb _ before) eqn:E; cbn [negb]; [lia|]. unfold net in *. simpl. unfold sign at 1. simpl. lia.
Qed.

Lemma emit_difference_net before after events :
  NoDup (map sequence before) -> NoDup (map sequence after) ->
  (top_one_mode plan = true -> (length before <= 1 /\ length after <= 1)%nat) ->
  emit_difference plan sources before after = Ok events ->
  net f events = observed f (view plan after) - observed f (view plan before).
Proof.
  intros Hb Ha Hone. unfold emit_difference, view. change (output_rank_number plan || (1 <? rank_start plan)) with (ranked_mode plan).
  change ((rank_start plan =? 1) && _ && _) with (top_one_mode plan). destruct (ranked_mode plan) eqn:Hm.
  { intros E. eapply (rank_difference_net _ _ _ _ _ Hm); [| |done]; lia. }
  destruct (top_one_mode plan) eqn:Ht.
  - intros (same & Es & [= <-])%outcome_bind_Ok. rewrite (step_net _ _ _ _ Es). destruct (Hone eq_refl) as [H1 H2].
    rewrite (view_head 0 before), (view_head 0 after), Hm. 
    assert (tail before = [] /\ tail after = []) as [-> ->] by (destruct before as [|? []], after as [|? []]; simpl in *; done || lia). simpl. lia.
  - intros (removed & Er & [= <-])%outcome_bind_Ok. rewrite events_net_app, (removed_net _ _ _ Ha Er), !view_unranked by done.
    pose proof (inserted_net before after Hb) as Hi. 
    assert (zsum (fun c => value_at after (sequence c) - f c 0) before = zsum (fun c => value_at after (sequence c)) before - zsum (fun c => f c 0) before) as ->; [|lia].
    clear. induction before as [|c before IH]; simpl; lia.
Qed.
End bag.

(** ** Keyed tables

    Without retractions a consumer keeps one row per key: the rank, the single row
    of a Top-1, or the sequence of the row. *)

Definition entry_key (c : CandidateRef) (r : Z) : Z :=
  if ranked_mode plan then r else if top_one_mode plan then 0 else sequence c.
Definition Table : Type := Z -> option CandidateRef.
Definition put (k : Z) (v : option CandidateRef) (t : Table) : Table := fun x => if x =? k then v else t x.
Definition apply_event (t : Table) (e : OutputEvent) : Table :=
  let k := entry_key (candidate e) (rank e) in
  if (event_kind e =? INSERT) || (event_kind e =? UPDATE_AFTER) then put k (Some (candidate e)) t
  else if event_kind e =? DELETE then put k None t
  else t.
Definition replay (l : list OutputEvent) (t : Table) : Table := fold_left apply_event l t.
Definition table_of (l : list (CandidateRef * Z)) : Table := fun k =>
  fst <$> List.find (fun p => entry_key p.1 p.2 =? k) l.
Definition same_entry (x y : option CandidateRef) : Prop :=
  match x, y with
  | None, None => True
  | Some c, Some d => c = d \/ same_row sources c d = Ok true
  | _, _ => False
  end.
Definition agrees (t u : Table) : Prop := forall k, same_entry (t k) (u k).

Lemma same_entry_refl x : same_entry x x.
Proof. destruct x; simpl; auto. Qed.
Lemma replay_app l k t : replay (l ++ k) t = replay k (replay l t).
Proof. apply fold_left_app. Qed.
Lemma same_output_entry old next : same_output sources old next = Ok true -> same_entry old next.
Proof. destruct old, next; simpl; try done. case_bool_decide; [by left|]. case_bool; [by right|done]. Qed.
(** A change at one key. *)
Lemma change_replay old next r t k x :
  (forall c, old = Some c \/ next = Some c -> entry_key c r = k) ->
  replay (change_events plan old next r) t x = if x =? k then match old, next with None, None => t x | _, _ => next end else t x.
Proof.
  intros Hk. destruct old as [o|], next as [n|]; simpl.
  - unfold update_events. rewrite replay_app. assert (replay (if generate_update_before plan then [event o r UPDATE_BEFORE] else []) t = t) as -> by by destruct (generate_update_before plan).
    unfold replay, apply_event. simpl. unfold put. by rewrite (Hk n) by auto.
  - unfold replay, apply_event. simpl. unfold put. by rewrite (Hk o) by auto.
  - unfold replay, apply_event. simpl. unfold put. by rewrite (Hk n) by auto.
  - by destruct (x =? k).
Qed.
Lemma step_replay old next r t k same :
  same_output sources old next = Ok same -> (forall c, old = Some c \/ next = Some c -> entry_key c r = k) -> t k = old ->
  let t' := replay (if same then [] else change_events plan old next r) t in
  same_entry (t' k) next /\ forall x, x <> k -> t' x = t x.
Proof.
  intros Es Hk Ht t'. unfold t'. destruct same.
  - simpl. rewrite Ht. split; [by apply same_output_entry|done].
  - split; [|intros x Hx]; rewrite (change_replay _ _ _ _ k) by done; [|by rewrite (proj2 (Z.eqb_neq _ _) Hx)].
    rewrite Z.eqb_refl, Ht. destruct old, next; apply same_entry_refl.
Qed.

Section ranked.
Context (Hm : ranked_mode plan = true) (Hs : 0 <= rank_start plan).
Lemma rank_at_small i : rank_start plan + i <= I64_MAX -> 0 <= i -> rank_at plan i = rank_start plan + i.
Proof. intros. unfold rank_at, i64_sat. case_bool; unfold_bounds; lia. Qed.
Lemma table_ranked i l k : 0 <= i -> rank_start plan + i + len l <= I64_MAX + 1 ->
  table_of (view_from plan i l) k = if k <? rank_start plan + i then None else l !! Z.to_nat (k - (rank_start plan + i)).
Proof.
  unfold table_of, entry_key. rewrite Hm. revert i. induction l as [|c l IH]; intros i Hi Hl; cbn [view_from List.find].
  { case_bool; by rewrite ?lookup_nil. }
  unfold len in *. simpl length in *. cbn [fst snd]. rewrite Hm, rank_at_small by lia.
  destruct (Z.eqb_spec (rank_start plan + i) k) as [<-|Hk].
  - replace (rank_start plan + i - (rank_start plan + i)) with 0 by lia. case_bool; [lia|done].
  - rewrite IH by lia. case_bool; try lia; try done. replace (Z.to_nat (k - (rank_start plan + i))) with (S (Z.to_nat (k - (rank_start plan + (i + 1))))) by lia. done.
Qed.
Lemma table_ranked_head i l k : 0 <= i -> rank_start plan + i + len l <= I64_MAX + 1 -> rank_start plan + i < k ->
  table_of (view_from plan i l) k = table_of (view_from plan (i + 1) (tail l)) k.
Proof.
  intros Hi Hl Hk. destruct l as [|c l]; [done|]. unfold len in *. simpl in Hl. cbn [tail].
  rewrite (table_ranked i (c :: l)), (table_ranked (i + 1) l) by (unfold len; simpl; lia). case_bool; try lia.
  by replace (Z.to_nat (k - (rank_start plan + i))) with (S (Z.to_nat (k - (rank_start plan + (i + 1))))) by lia.
Qed.
Lemma rank_difference_replay before after n i events t :
  0 <= i -> rank_start plan + i + Z.of_nat n <= I64_MAX + 1 -> (length before <= n)%nat -> (length after <= n)%nat ->
  rank_difference plan sources before after n i = Ok events ->
  (forall k, rank_start plan + i <= k -> t k = table_of (view_from plan i before) k) ->
  forall k, (k < rank_start plan + i -> replay events t k = t k) /\
    (rank_start plan + i <= k -> same_entry (replay events t k) (table_of (view_from plan i after) k)).
Proof.
  revert before after i events t. induction n as [|n IH]; intros before after i events t Hi Hn Hb Ha; cbn [rank_difference].
  - intros [= <-] Ht k. destruct before, after; simpl in *; try lia. split; [done|]. intros Hk. rewrite Ht by lia. apply same_entry_refl.
  - intros (same & Es & (rest & Er & [= <-])%outcome_bind_Ok)%outcome_bind_Ok Ht k.
    change (i64_sat _) with (rank_at plan i) in *. rewrite rank_at_small by lia. rewrite replay_app.
    assert (forall c, head before = Some c \/ head after = Some c -> entry_key c (rank_start plan + i) = rank_start plan + i) as Hkey.
    { intros c _. unfold entry_key. by rewrite Hm. }
    assert (forall l, (length l <= S n)%nat -> table_of (view_from plan i l) (rank_start plan + i) = head l) as Hhead.
    { intros l Hl. rewrite table_ranked by (unfold len; lia). case_bool; [lia|]. replace (rank_start plan + i - (rank_start plan + i)) with 0 by lia. by destruct l. }
    destruct (step_replay _ _ _ t _ _ Es Hkey) as [H1 H2]; [by rewrite Ht, Hhead by lia|].
    set (t1 := replay _ t) in *.
    destruct (IH (tail before) (tail after) (i + 1) rest t1 ltac:(lia) ltac:(lia)) with (k := k) as [H3 H4];
      [destruct before; simpl in *; lia|destruct after; simpl in *; lia|done|..].
    { intros x Hx. rewrite H2 by lia. rewrite Ht by lia. apply table_ranked_head; [lia|unfold len; lia|lia]. }
    split; [intros Hk; rewrite H3 by lia; apply H2; lia|]. intros Hk.
    destruct (decide (k = rank_start plan + i)) as [->|]; [rewrite H3 by lia; by rewrite Hhead by lia|].
    rewrite (table_ranked_head i after) by (unfold len; lia). apply H4. lia.
Qed.
End ranked.

Definition lookup_sequence (l : list CandidateRef) (s : Z) : option CandidateRef := List.find (fun c => sequence c =? s) l.
Section unranked.
Context (Hm : ranked_mode plan = false) (Hone : top_one_mode plan = false).
Lemma entry_key_sequence c r : entry_key c r = sequence c.
Proof. unfold entry_key. by rewrite Hm, Hone. Qed.
Lemma table_unranked i l k : table_of (view_from plan i l) k = lookup_sequence l k.
Proof.
  unfold table_of, lookup_sequence. revert i. induction l as [|c l IH]; intros i; [done|]. cbn [view_from List.find fst snd].
  rewrite entry_key_sequence. destruct (sequence c =? k); [done|apply IH].
Qed.
Lemma lookup_sequence_not l k : k ∉ map sequence l -> lookup_sequence l k = None.
Proof.
  intros Hk. pose proof (find_sequence l k) as Hf. unfold lookup_sequence. destruct (List.find _ l) as [c|]; [|done].
  destruct Hk, Hf as [Hin <-]. apply list_elem_of_fmap. eauto.
Qed.
(** What is emitted for a row that was selected. *)
Lemma removed_step old after events :
  match lookup_sequence after (sequence old) with
  | None => Ok [event old 0 DELETE]
  | Some next =>
      if bool_decide (old = next) then Ok []
      else same ← same_row sources old next; Ok (if same : bool then [] else update_events plan old next 0)
  end = Ok events ->
  exists same, same_output sources (Some old) (lookup_sequence after (sequence old)) = Ok same /\
    events = if same then [] else change_events plan (Some old) (lookup_sequence after (sequence old)) 0.
Proof.
  pose proof (find_sequence after (sequence old)) as Hf. unfold lookup_sequence in *. destruct (List.find _ after) as [next|]; simpl.
  - destruct Hf as [_ ->]. rewrite Z.eqb_refl. case_bool_decide; [intros [= <-]; by exists true|].
    intros (same & -> & [= <-])%outcome_bind_Ok. by exists same.
  - intros [= <-]. by exists false.
Qed.
Lemma removed_replay before after events t :
  NoDup (map sequence before) -> removed_events plan sources before after = Ok events ->
  (forall old, old ∈ before -> t (sequence old) = Some old) ->
  forall k, (k ∉ map sequence before -> replay events t k = t k) /\
    (k ∈ map sequence before -> same_entry (replay events t k) (lookup_sequence after k)).
Proof.
  intros Hnd. revert events t. induction before as [|old before IH]; intros events t; cbn [removed_events].
  { intros [= <-] _ k. split; [done|]. by intros ?%elem_of_nil. }
  cbn [map] in *. apply NoDup_cons in Hnd as [Hold Hnd].
  intros (ev & Ee & (rest & Er & [= <-])%outcome_bind_Ok)%outcome_bind_Ok Ht k. rewrite replay_app.
  apply removed_step in Ee as (same & Es & ->).
  destruct (step_replay _ _ 0 t (sequence old) _ Es) as [H1 H2].
  { intros c [[= <-]|Hc]; rewrite entry_key_sequence; [done|]. pose proof (find_sequence after (sequence old)) as Hf. unfold lookup_sequence in Hc. rewrite Hc in Hf. tauto. }
  { apply Ht. by constructor. }
  set (t1 := replay _ t) in *. destruct (IH Hnd rest t1 Er) with (k := k) as [H3 H4].
  { intros o Ho. rewrite H2; [apply Ht; by constructor|]. intros E. destruct Hold. rewrite <- E. apply list_elem_of_fmap. eauto. }
  destruct (decide (k = sequence old)) as [->|Hk].
  - split; [intros []; by constructor|]. intros _. by rewrite H3.
  - split; [intros [? ?]%not_elem_of_cons; rewrite H3 by done; by apply H2|]. intros [->|Hin]%elem_of_cons; [done|]. by apply H4.
Qed.
Lemma inserted_replay before after t k :
  NoDup (map sequence after) ->
  replay (inserted_events before after) t k =
    match lookup_sequence after k with Some c => if kept before c then t k else Some c | None => t k end.
Proof.
  unfold inserted_events, lookup_sequence. revert t. induction after as [|c after IH]; intros t; [done|]. cbn [map List.filter List.find].
  intros [Hc Hnd]%NoDup_cons. fold (kept before c).
  destruct (Z.eqb_spec (sequence c) k) as [<-|Hk].
  - pose proof (lookup_sequence_not after (sequence c) Hc) as Hn. unfold lookup_sequence in Hn. destruct (kept before c); cbn [negb map]; [by rewrite IH, Hn by done|].
    unfold replay. cbn [fold_left]. fold (replay (map (fun next => event next 0 INSERT) (List.filter (fun next => negb (existsb (fun old => sequence old =? sequence next) before)) after))).
    rewrite IH, Hn by done. unfold apply_event. cbn. unfold put. by rewrite entry_key_sequence, Z.eqb_refl.
  - destruct (kept before c); cbn [negb map]; [by apply IH|]. unfold replay. cbn [fold_left].
    fold (replay (map (fun next => event next 0 INSERT) (List.filter (fun next => negb (existsb (fun old => sequence old =? sequence next) before)) after))).
    rewrite IH by done. unfold apply_event. cbn. unfold put. rewrite entry_key_sequence. rewrite (proj2 (Z.eqb_neq k (sequence c))) by done. done.
Qed.
End unranked.

Lemma emit_difference_replay before after events :
  0 <= rank_start plan -> rank_start plan + len before <= I64_MAX + 1 -> rank_start plan + len after <= I64_MAX + 1 ->
  NoDup (map sequence before) -> NoDup (map sequence after) ->
  (top_one_mode plan = true -> (length before <= 1 /\ length after <= 1)%nat) ->
  emit_difference plan sources before after = Ok events ->
  agrees (replay events (table_of (view plan before))) (table_of (view plan after)).
Proof.
  intros Hs Hlb Hla Hb Ha Hone. unfold emit_difference, view. change (output_rank_number plan || (1 <? rank_start plan)) with (ranked_mode plan).
  change ((rank_start plan =? 1) && _ && _) with (top_one_mode plan). destruct (ranked_mode plan) eqn:Hm.
  { intros E k. unfold len in *. destruct (rank_difference_replay Hm Hs before after (Nat.max (length before) (length after)) 0 events (table_of (view_from plan 0 before)) ltac:(lia) ltac:(lia) ltac:(lia) ltac:(lia) E) with (k := k) as [H1 H2]; [done|].
    destruct (Z.ltb_spec k (rank_start plan + 0)); [|by apply H2]. rewrite H1 by done.
    rewrite !table_ranked by (unfold len; done || lia). rewrite (proj2 (Z.ltb_lt _ _)) by done. done. }
  destruct (top_one_mode plan) eqn:Ht.
  - intros (same & Es & [= <-])%outcome_bind_Ok. destruct (Hone eq_refl) as [H1 H2].
    assert (forall c r, entry_key c r = 0) as Hkey by (intros; unfold entry_key; by rewrite Hm, Ht).
    assert (forall l k, (length l <= 1)%nat -> table_of (view_from plan 0 l) k = if k =? 0 then head l else None) as Htab.
    { intros [|c [|]] k Hl; simpl in *; try lia; unfold table_of; simpl; rewrite ?Hkey; [by destruct (k =? 0)|rewrite (Z.eqb_sym k); by destruct (0 =? k)]. }
    destruct (step_replay _ _ 0 (table_of (view_from plan 0 before)) 0 _ Es) as [H3 H4]; [done|by rewrite Htab|].
    intros k. destruct (decide (k = 0)) as [->|Hk]; [by rewrite (Htab after) by done|]. rewrite H4, !Htab by done. by rewrite (proj2 (Z.eqb_neq _ _) Hk).
  - intros (removed & Er & [= <-])%outcome_bind_Ok k. rewrite replay_app, inserted_replay, table_unranked by done.
    destruct (removed_replay Hm Ht before after removed (table_of (view_from plan 0 before)) Hb Er) with (k := k) as [H1 H2].
    { intros old Ho. rewrite table_unranked by done. pose proof (find_sequence before (sequence old)) as Hf. unfold lookup_sequence.
      destruct (List.find _ before) as [c|]; [|by destruct (Hf old Ho)]. destruct Hf as [Hin Hc]. f_equal.
      by apply (nodup_map_inj sequence before). }
    destruct (decide (k ∈ map sequence before)) as [Hk|Hk].
    + specialize (H2 Hk). destruct (lookup_sequence after k) as [c|] eqn:Ec; [|done]. assert (kept before c = true) as ->; [|done].
      apply existsb_exists. apply list_elem_of_fmap in Hk as (o & -> & Ho). exists o. split; [by apply list_elem_of_In|]. apply Z.eqb_eq.
      pose proof (find_sequence after (sequence o)) as Hf. unfold lookup_sequence in Ec. rewrite Ec in Hf. by destruct Hf.
    + rewrite (H1 Hk), table_unranked, (lookup_sequence_not before) by done. destruct (lookup_sequence after k) as [c|] eqn:Ec; [|done].
      assert (kept before c = false) as ->; [|by left]. apply not_true_iff_false. intros (o & Ho%list_elem_of_In & Eo%Z.eqb_eq)%existsb_exists.
      pose proof (find_sequence after k) as Hf. unfold lookup_sequence in Ec. rewrite Ec in Hf. destruct Hf as [_ <-]. destruct Hk. rewrite <- Eo. apply list_elem_of_fmap. eauto.
Qed.
End changelog.
