(* ===== verification/TopNRows.v ===== *)
(** * What a row of a Top-N batch changes

    Every strategy keeps the sequences of a group's candidates distinct, and the
    events of a row are the difference of the group's view. *)

From Stdlib Require Import ZArith Lia Strings.Byte.
From stdpp Require Import base list option numbers strings.
From S2P Require Import Prelude Bytes OrdMap Arrow Aggregate TopNCompare TopN TopNChangelog.

(** Ranks are positive and fit [i64]. *)
Definition range_ok (plan : TopNPlan) : Prop :=
  1 <= rank_start plan <= I64_MAX /\ forall e, plan_rank_end plan = Some e -> 0 <= e <= I64_MAX.
Definition group_end (plan : TopNPlan) (g : GroupWork) : option Z :=
  match plan_rank_end plan with Some e => Some e | None => rank_end g end.
Definition sequences_ok (g : GroupWork) : Prop :=
  NoDup (map sequence (candidates g)) /\ Forall (fun c => 0 <= sequence c < next_sequence g) (candidates g) /\ 0 <= next_sequence g.
Definition end_ok (plan : TopNPlan) (g : GroupWork) : Prop :=
  match rank_end g with Some e => is_i64 e | None => plan_rank_end plan = None -> candidates g = [] end.
Definition group_ok (plan : TopNPlan) (g : GroupWork) : Prop := sequences_ok g /\ end_ok plan g.
Definition group_selection (plan : TopNPlan) (g : GroupWork) : list CandidateRef :=
  match group_end plan g with
  | Some e => match selected plan (candidates g) e with Ok l => l | _ => [] end
  | None => []
  end.
Definition group_view (plan : TopNPlan) (g : GroupWork) : list (CandidateRef * Z) := view plan (group_selection plan g).

(** ** Selections *)

Section selections.
Context (plan : TopNPlan) (Hrange : range_ok plan).

Lemma selected_total l e : is_i64 e -> exists k, selected plan l e = Ok k /\ sublist k l /\ rank_start plan + len k <= Z.max (rank_start plan) (e + 1).
Proof.
  intros He. unfold selected. rewrite wraps_id; [|lia|unfold range_ok in *; unfold_bounds; lia].
  pose proof (len_nonneg l) as Hl. unfold range_ok in *.
  destruct (Z.ltb_spec e (rank_start plan)); [exists []; split_and!; [done|apply sublist_nil_l|unfold len; simpl; lia]|].
  destruct (Z.ltb_spec e 0); [lia|]. destruct (Z.leb_spec (Z.min (rank_start plan - 1) (len l)) (Z.min e (len l))); [|lia].
  eexists. split_and!; [done| |].
  - etrans; [apply sublist_take|apply sublist_drop].
  - unfold len in *. rewrite length_take, length_drop. lia.
Qed.
Lemma selected_nil e : is_i64 e -> selected plan [] e = Ok [].
Proof. intros He. destruct (selected_total [] e He) as (k & -> & ->%sublist_nil_r & _). done. Qed.
Lemma selected_one l k : top_one_mode plan = true -> plan_rank_end plan = Some 1 -> selected plan l 1 = Ok k -> (length k <= 1)%nat.
Proof.
  intros Hm He Hk. destruct (selected_total l 1) as (k' & Hk' & _ & Hlen); [unfold_bounds; lia|]. rewrite Hk in Hk'. simplify_eq.
  unfold top_one_mode in Hm. unfold len, range_ok in *. rewrite !andb_true_iff, Z.eqb_eq in Hm. lia.
Qed.
Lemma sublist_sequences k l : sublist k l -> NoDup (map sequence l) -> NoDup (map sequence k).
Proof. intros Hs Hl. apply (sublist_NoDup _ _ Hl). by apply (fmap_sublist sequence). Qed.
End selections.

(** ** Insertion keeps the candidates *)

Section insertion.
Context `{Arrow} (plan : TopNPlan) (sources : CandidateSources).

Lemma insert_by_sequence_perm c l : insert_by_sequence c l ≡ₚ c :: l.
Proof. induction l as [|x l IH]; simpl; [done|]. destruct (_ <? _); [done|]. rewrite IH. apply Permutation_swap. Qed.
Lemma insert_in_bucket_perm before rest c n l n' :
  insert_in_bucket plan sources before rest c n = (Ok (Some l), n') -> l ≡ₚ c :: before ++ rest.
Proof.
  revert before n. induction rest as [|x rest IH]; intros before n; cbn [insert_in_bucket]; [done|]. intros E. inv_M.
  destruct a0; [|apply IH in E; rewrite E, <- app_assoc; done..]. inv_M. 
  pose proof (insert_by_sequence_perm c (x :: take a0 rest)) as Hp. cbn [insert_by_sequence] in Hp. rewrite Hp.
  rewrite <- !app_comm_cons, take_drop. by rewrite <- Permutation_middle.
Qed.
Lemma insert_sorted_perm l c n l' n' : insert_sorted plan sources l c n = (Ok l', n') -> l' ≡ₚ c :: l.
Proof.
  unfold insert_sorted. case_bool_decide; [intros [= <- _]; by rewrite Permutation_app_comm|]. intros E. inv_M.
  destruct a2 as [k|]; inv_M.
  - destruct a1; [|inv_M; done]. by apply insert_in_bucket_perm in E3.
  - rewrite <- Permutation_middle. by rewrite take_drop.
Qed.
End insertion.

(** ** Sequences *)

Definition seqs_ok (n : Z) (l : list CandidateRef) : Prop :=
  NoDup (map sequence l) /\ Forall (fun c => 0 <= sequence c < n) l.
#[global] Instance seqs_ok_perm n : Proper ((≡ₚ) ==> iff) (seqs_ok n).
Proof. intros l k E. unfold seqs_ok. by rewrite E. Qed.
Lemma seqs_ok_map n l k : map sequence l ≡ₚ map sequence k -> seqs_ok n l -> seqs_ok n k.
Proof.
  intros E [Hn Hf]. split; [by rewrite <- E|]. rewrite Forall_forall in *. intros c Hc.
  assert (sequence c ∈ map sequence l) as (d & -> & Hd)%list_elem_of_fmap by (rewrite E; apply list_elem_of_fmap; eauto). by apply Hf.
Qed.
Lemma seqs_ok_app n l k : seqs_ok n (l ++ k) -> seqs_ok n l.
Proof. intros [Hn Hf]. rewrite map_app in Hn. apply NoDup_app in Hn as (? & _). apply Forall_app in Hf as [? _]. done. Qed.
Lemma seqs_ok_sublist n l k : sublist k l -> seqs_ok n l -> seqs_ok n k.
Proof. intros Hs [Hn Hf]. split; [by eapply sublist_sequences|]. rewrite Forall_forall in *. intros c Hc. apply Hf. by eapply elem_of_sublist. Qed.
Lemma seqs_ok_cons n c l : sequence c = n -> 0 <= n -> seqs_ok n l -> seqs_ok (n + 1) (c :: l).
Proof.
  intros Hc H0 [Hn Hf]. split; cbn [map].
  - apply NoDup_cons. split; [|done]. intros (d & E & Hd)%list_elem_of_fmap. rewrite Forall_forall in Hf. specialize (Hf d Hd). lia.
  - constructor; [lia|]. eapply Forall_impl; [done|]. simpl. lia.
Qed.
Lemma seqs_ok_single n c : sequence c = n -> 0 <= n -> seqs_ok (n + 1) [c].
Proof. intros. apply seqs_ok_cons; [done..|]. split; constructor. Qed.
Lemma delete_perm {A} (l : list A) i x : l !! i = Some x -> l ≡ₚ x :: delete i l.
Proof. intros Hi. rewrite <- (take_drop_middle l i x Hi) at 1. by rewrite delete_take_drop, Permutation_middle. Qed.

Lemma sequences_intro g : seqs_ok (next_sequence g) (candidates g) -> 0 <= next_sequence g -> sequences_ok g.
Proof. by intros [? ?]. Qed.

Section row.
Context `{Arrow} (plan : TopNPlan) (sources : CandidateSources) (kinds row_groups : list Z).
Context (top_one_winners : option (list bool)) (append_selection : option Selection) (native : bool) (field_count : Z).
(** Retention keeps some of the candidates. *)
Definition selection_sound : Prop :=
  forall s l limit l', append_selection = Some s -> retain s l limit = Ok l' -> exists dropped, l ≡ₚ l' ++ dropped.
Context (Hsel : selection_sound).

(** Only the counters change. *)
Definition same_frame (w w' : TopNWork) : Prop :=
  groups w' = groups w /\ output w' = output w /\ triggering_rows w' = triggering_rows w.
#[local] Instance same_frame_refl : Reflexive same_frame.
Proof. by intros w. Qed.
Lemma same_frame_trans w1 w2 w3 : same_frame w1 w2 -> same_frame w2 w3 -> same_frame w1 w3.
Proof. intros (? & ? & ?) (? & ? & ?). split_and!; congruence. Qed.
Lemma counted_Ok {A} (m : M Z A) w a w' : counted m w = (Ok a, w') -> same_frame w w' /\ exists n n', m n = (Ok a, n').
Proof. unfold counted. destruct (m (comparator_calls w)) as [o n'] eqn:E. intros [= -> <-]. split; [done|]. eauto. Qed.
Lemma lift_Ok {S A} (o : outcome A) (s : S) a s' : lift o s = (Ok a, s') -> o = Ok a /\ s' = s.
Proof. unfold lift. by intros [= -> ->]. Qed.
Lemma sequence_after_Ok n m : sequence_after n = Ok m -> m = n + 1.
Proof. unfold sequence_after. case_bool; [|done]. by intros [= <-]. Qed.

Definition row_ok (g g' : GroupWork) (w w' : TopNWork) : Prop :=
  same_frame w w' /\ sequences_ok g' /\ rank_end g' = rank_end g.

Lemma append_row_ok r k e c g w g' w' :
  sequences_ok g -> sequence c = next_sequence g -> append_row plan sources top_one_winners append_selection r k e c g w = (Ok g', w') -> row_ok g g' w w'.
Proof.
  intros (Hn & Hf & H0) Hc. unfold append_row. intros E. inv_M.
  assert (s = w) as -> by (destruct (physical_input_semantics plan); [by injection E0|by apply lift_Ok in E0 as [_ ->]]).
  apply lift_Ok in E1 as [->%sequence_after_Ok ->]. destruct top_one_winners as [winners|].
  - inv_M. apply lift_Ok in E1 as [_ ->]. split; [done|]. destruct a0; (split; [|done]).
    + destruct (seqs_ok_single (next_sequence g) c Hc H0) as [? ?]. split_and!; [done..|cbn; lia].
    + split_and!; [done| |cbn; lia]. eapply Forall_impl; [done|]. simpl. lia.
  - inv_M. assert (same_frame w w' /\ seqs_ok (next_sequence g + 1) a0) as [Hw [Ha1 Ha2]].
    { assert (seqs_ok (next_sequence g + 1) (c :: candidates g)) as Hok by by apply seqs_ok_cons.
      destruct append_selection as [s|] eqn:Es.
      - apply lift_Ok in E1 as [E1 ->]. split; [done|]. destruct (Hsel s _ _ _ Es E1) as [d Hd]. cbn in Hd.
        eapply seqs_ok_app. rewrite <- Hd. by rewrite Permutation_app_comm.
      - apply counted_Ok in E1 as [Hw (n & n' & E1)]. split; [done|]. apply insert_sorted_perm in E1. cbn in E1. by rewrite E1. }
    split; [done|]. split; [|done]. split_and!; [done..|]. cbn. lia.
Qed.
Lemma update_row_ok k c g w g' w' :
  sequences_ok g -> sequence c = next_sequence g -> update_row plan sources k c g w = (Ok g', w') -> row_ok g g' w w'.
Proof.
  intros (Hn & Hf & H0) Hc. unfold update_row. intros E. inv_M. apply lift_Ok in E1 as [E1 ->]. destruct a1 as [c1 g1].
  apply M_bind_Ok in E as (l & w1 & E & [= <- <-]). apply counted_Ok in E as [Hw (n & n' & E%insert_sorted_perm)].
  destruct a0 as [i|]; apply M_bind_Ok in E2 as (x & w2 & E2 & [= <- <- <-]); cbn in E.
  - apply lift_Ok in E2 as [E2 ->]. split; [done|]. split; [|done].
    apply sequences_intro; [|done]. cbn. rewrite E.
    apply (seqs_ok_map _ (candidates g)); [|done]. apply at_index_Ok in E2 as [_ Ei]. rewrite Nat2Z.id in Ei.
    by rewrite (delete_perm _ _ _ Ei) at 1.
  - apply lift_Ok in E2 as [->%sequence_after_Ok ->]. split; [done|]. split; [|done].
    apply sequences_intro; [|cbn; lia]. cbn. rewrite E. by apply seqs_ok_cons.
Qed.
Lemma retract_row_ok k c g w g' w' :
  sequences_ok g -> sequence c = next_sequence g -> retract_row plan sources field_count k c g w = (Ok g', w') -> row_ok g g' w w'.
Proof.
  intros (Hn & Hf & H0) Hc. unfold retract_row. destruct (_ || _).
  - intros E. inv_M. apply lift_Ok in E0 as [->%sequence_after_Ok ->]. apply counted_Ok in E1 as [Hw (n & n' & E1)]. apply insert_sorted_perm in E1.
    split; [done|]. split; [|done]. apply sequences_intro; [|cbn; lia]. cbn. rewrite E1. by apply seqs_ok_cons.
  - destruct (_ || _); [|done]. intros E. inv_M. apply lift_Ok in E0 as [E0 ->]. destruct a as [i|]; inv_M.
    + split; [done|]. split; [|done]. apply sequences_intro; [|done].
      eapply seqs_ok_sublist; [|by split]. apply sublist_delete.
    + injection E1 as _ <-. done.
Qed.
Lemma strategy_row_ok r k e c g w g' w' :
  sequences_ok g -> sequence c = next_sequence g ->
  strategy_row plan sources top_one_winners append_selection field_count r k e c g w = (Ok g', w') -> row_ok g g' w w'.
Proof.
  unfold strategy_row. destruct (strategy_of (strategy plan)) as [[]|]; try done; [by apply append_row_ok|by apply update_row_ok|by apply retract_row_ok].
Qed.
Lemma truncate_row_ok e g w g' w' :
  sequences_ok g -> truncate_row plan sources e g w = (Ok g', w') -> row_ok g g' w w' /\ sublist (candidates g') (candidates g) /\ next_sequence g' = next_sequence g.
Proof.
  intros (Hn & Hf & H0). unfold truncate_row. destruct (_ && _).
  - intros E. inv_M. apply counted_Ok in E0 as [Hw (n & n' & E0)].
    assert (sublist a (candidates g)) as Hs.
    { unfold truncate_rank in E0. destruct (_ || _); inv_M; unfold truncate; apply sublist_take. }
    split; [|done]. split; [done|]. split; [|done]. apply sequences_intro; [|done]. by eapply seqs_ok_sublist.
  - destruct (negb _); intros [= <- <-].
    + assert (sublist (truncate (retained_end e) (candidates g)) (candidates g)) as Hs by apply sublist_take.
      split; [|done]. split; [done|]. split; [|done]. apply sequences_intro; [|done]. by eapply seqs_ok_sublist.
    + done.
Qed.

(** ** The rank end of a group *)

Context {Hlaws : ArrowLaws} (Hrange : range_ok plan).

Lemma fixed_value_range c a r v : value_of (as_fixed c a) a r = Ok v -> fixed_range c v.
Proof.
  unfold value_of, downcast. destruct (as_fixed c a) as [f|] eqn:Ef; [|done]. cbn [ok_or mbind outcome_bind].
  destruct ((0 <=? r) && (r <? array_len a)) eqn:Hr; [|done]. intros [= <-]. eapply fixed_law; [done|]. lia.
Qed.
Lemma variable_rank_end_i64 input i r v : variable_rank_end input i r = Ok v -> is_i64 v.
Proof.
  unfold variable_rank_end. intros (a & _ & E)%outcome_bind_Ok. destruct (is_null a r); [injection E as <-; unfold_bounds; lia|].
  destruct (data_type a); try done; unfold expect in E;
    (match type of E with context [value_of ?o ?b ?q] => destruct (value_of o b q) eqn:Ev; [|done..] end);
    injection E as ->; apply fixed_value_range in Ev; cbn in Ev; unfold in_signed in Ev; unfold_bounds; lia.
Qed.
Lemma group_rank_end_ok input r g w e g1 w1 :
  group_ok plan g -> group_rank_end plan input r g w = (Ok (e, g1), w1) ->
  same_frame w w1 /\ is_i64 e /\ group_end plan g1 = Some e /\ group_ok plan g1 /\ next_sequence g1 = next_sequence g /\
  selected plan (candidates g1) e = Ok (group_selection plan g).
Proof.
  intros [Hs He]. unfold group_rank_end, group_end, group_selection, group_end. destruct Hrange as [Hrs Hre].
  assert (forall l e', is_i64 e' -> selected plan l e' = Ok (match selected plan l e' with Ok k => k | _ => [] end)) as Hsel'.
  { intros l e' He'. by destruct (selected_total plan Hrange l e' He') as (k & -> & _). }
  destruct (plan_rank_end plan) as [pe|] eqn:Ep.
  - destruct (Z.leb_spec pe I64_MAX); [|done]. intros [= <- <- <-].
    assert (is_i64 pe) by (specialize (Hre pe eq_refl); unfold_bounds; lia). split_and!; try done. by apply Hsel'.
  - destruct (variable_rank_end_index plan) as [index|]; [|done]. intros (v & w2 & [Ev%variable_rank_end_i64 ->]%lift_Ok & E)%M_bind_Ok.
    unfold end_ok in He. destruct (rank_end g) as [x|] eqn:Er.
    + apply M_bind_Ok in E as (u & w2 & Eu & [= <- <- <-]).
      assert (same_frame w w2) by (destruct (x =? v); [by injection Eu as _ <-|by injection Eu as _ <-]).
      rewrite Er. split_and!; try done; [by split; [|unfold end_ok; rewrite Er]|by apply Hsel'].
    + injection E as <- <- <-. cbn. rewrite He in * by done. split_and!; try done. by apply selected_nil.
Qed.

(** ** The events of a row *)

Context (Hunbounded : bounded_final_output plan = false).
(** [events] is what [emit_difference] finds between the selections of [g] and [g']. *)
Definition row_events (g g' : GroupWork) (events : list OutputEvent) : Prop :=
  emit_difference plan sources (group_selection plan g) (group_selection plan g') = Ok events.
Lemma group_end_i64 g e : group_ok plan g -> group_end plan g = Some e -> is_i64 e.
Proof.
  intros [_ He]. unfold group_end, end_ok in *. destruct Hrange as [_ Hre]. destruct (plan_rank_end plan) as [pe|].
  - intros [= <-]. specialize (Hre pe eq_refl). unfold_bounds. lia.
  - intros E. by rewrite E in He.
Qed.
Lemma selection_facts g : group_ok plan g ->
  NoDup (map sequence (group_selection plan g)) /\ rank_start plan + len (group_selection plan g) <= I64_MAX + 1 /\
  (top_one_mode plan = true -> (length (group_selection plan g) <= 1)%nat).
Proof.
  intros Hg. pose proof Hg as [(Hn & _) _]. unfold group_selection. destruct Hrange as [Hrs _].
  destruct (group_end plan g) as [e|] eqn:Ee; [|split_and!; [constructor|unfold len; simpl; lia|simpl; lia]].
  pose proof (group_end_i64 g e Hg Ee) as Hi. destruct (selected_total plan Hrange (candidates g) e Hi) as (k & Ek & Hsub & Hlen). rewrite Ek.
  split_and!; [by eapply sublist_sequences|unfold_bounds; lia|]. intros Hone. pose proof Hone as Hone'. unfold top_one_mode in Hone'.
  rewrite !andb_true_iff, bool_decide_eq_true in Hone'. destruct Hone' as [[_ Hp] _]. unfold group_end in Ee. rewrite Hp in Ee. injection Ee as <-.
  by eapply selected_one.
Qed.
Lemma ranked_row_ok r k g w g' w' :
  group_ok plan g -> ranked_row plan sources top_one_winners append_selection field_count r k g w = (Ok g', w') ->
  group_ok plan g' /\ exists events, groups w' = groups w /\ triggering_rows w' = triggering_rows w /\ output w' = output w ++ events /\ row_events g g' events.
Proof.
  intros Hg. unfold ranked_row. rewrite Hunbounded. intros (input & w0 & [_ ->]%lift_Ok & E)%M_bind_Ok.
  apply M_bind_Ok in E as ([e g1] & w1 & E1 & E). apply (group_rank_end_ok _ _ _ _ _ _ _ Hg) in E1 as (F1 & Hi & He & [Hs1 He1] & Hn1 & Hb).
  apply M_bind_Ok in E as (ck & w2 & E2 & E). assert (w2 = w1) as ->.
  { destruct (physical_input_semantics plan); [destruct (_ && _); [|done]|]; by injection E2 as _ <-. }
  apply M_bind_Ok in E as (before & w3 & [Eb ->]%lift_Ok & E). rewrite Hb in Eb. injection Eb as <-.
  apply M_bind_Ok in E as (g2 & w4 & E3 & E). apply strategy_row_ok in E3 as (F2 & Hs2 & Hr2); [|done..].
  apply M_bind_Ok in E as (g3 & w5 & E4 & E). apply truncate_row_ok in E4 as ((F3 & Hs3 & Hr3) & Hsub & _); [|done].
  apply M_bind_Ok in E as (u & w6 & E5 & [= <- <-]). apply M_bind_Ok in E5 as (after & w7 & [Ea ->]%lift_Ok & E5).
  apply M_bind_Ok in E5 as (events & w8 & [Ev ->]%lift_Ok & [= _ <-]).
  destruct F1 as (G1 & O1 & T1), F2 as (G2 & O2 & T2), F3 as (G3 & O3 & T3). split.
  - split; [done|]. unfold end_ok in *. rewrite Hr3, Hr2. destruct (rank_end g1) as [x|] eqn:Ex; [done|]. intros Hp. unfold group_end in He. by rewrite Hp, Ex in He.
  - exists events. cbn. split_and!; [congruence|congruence|congruence|]. unfold row_events.
    assert (group_selection plan g3 = after) as ->; [|done]. unfold group_selection, group_end in *. rewrite Hr3, Hr2. rewrite He, Ea. done.
Qed.

Context (Hlimit : is_append_limit plan = false).
Abbreviation row_step := (process_row plan sources kinds row_groups top_one_winners append_selection native field_count).
Lemma process_row_ok r w u w' :
  Forall (group_ok plan) (groups w) -> row_step r w = (Ok u, w') ->
  exists i g g' events, groups w !! i = Some g /\ group_ok plan g /\ group_ok plan g' /\ groups w' = <[i := g']> (groups w) /\
    output w' = output w ++ events /\ row_events g g' events /\
    triggering_rows w' = triggering_rows w ++ if native then repeat r (length events) else [].
Proof.
  intros Hgs. unfold process_row, group_at. rewrite Hlimit. intros (st & w1 & [= <- <-] & E)%M_bind_Ok.
  apply M_bind_Ok in E as (i & w1 & [_ ->]%lift_Ok & E). apply M_bind_Ok in E as (g & w1 & Eg & E).
  apply M_bind_Ok in Eg as (w0 & w2 & [= <- <-] & [Eg ->]%lift_Ok). apply at_index_Ok in Eg as [_ Eg].
  apply M_bind_Ok in E as (k & w1 & [_ ->]%lift_Ok & E). apply M_bind_Ok in E as (g' & w1 & Er & E).
  assert (group_ok plan g) as Hg by (rewrite Forall_lookup in Hgs; eauto).
  apply ranked_row_ok in Er as (Hg' & events & G & Tr & O & Hev); [|done]. apply M_bind_Ok in E as (u2 & w2 & [= _ <-] & E).
  exists (Z.to_nat i), g, g', events. rewrite <- G. destruct native; injection E as _ <-; cbn; rewrite ?G; split_and!; try done; [|by rewrite app_nil_r].
  rewrite Tr. do 2 f_equal. rewrite O. unfold len. rewrite length_app. lia.
Qed.
End row.

(** ** A batch *)

(** A changelog as a sequence of changes of one group each, every one of which
    turns the table of the group's visible rows into the next. *)
Section tables.
Context `{Arrow} (plan : TopNPlan) (sources : CandidateSources).
Inductive table_steps : list GroupWork -> list OutputEvent -> list GroupWork -> Prop :=
  | steps_done gs : table_steps gs [] gs
  | steps_row gs i g g' events rest gs' :
      gs !! i = Some g ->
      agrees sources (replay plan events (table_of plan (group_view plan g))) (table_of plan (group_view plan g')) ->
      table_steps (<[i := g']> gs) rest gs' -> table_steps gs (events ++ rest) gs'.
Definition total_view (f : CandidateRef -> Z -> Z) (gs : list GroupWork) : Z := zsum (fun g => observed f (group_view plan g)) gs.
End tables.

(** A batch of a ranked plan. *)
Lemma ranked_changelog `{ArrowLaws} (plan : TopNPlan) (sources : CandidateSources) (kinds row_groups : list Z) (winners : option (list bool)) (selection : option Selection) (native : bool) (field_count n : Z) (w w' : TopNWork) :
  range_ok plan -> bounded_final_output plan = false -> is_append_limit plan = false -> selection_sound selection ->
  Forall (group_ok plan) (groups w) ->
  process_rows plan sources kinds row_groups winners selection native field_count n w = (Ok tt, w') ->
  Forall (group_ok plan) (groups w') /\
  exists events, output w' = output w ++ events /\ table_steps plan sources (groups w) events (groups w') /\
    (generate_update_before plan = true -> forall f, respects sources f -> net f events = total_view plan f (groups w') - total_view plan f (groups w)) /\
    length (triggering_rows w') = (length (triggering_rows w) + if native then length events else 0)%nat.
Proof.
  intros Hrange Hb Hl Hsel. unfold process_rows. generalize (map Z.of_nat (seq 0 (Z.to_nat n))). intros rows. revert w.
  induction rows as [|r rows IH]; intros w Hgs; cbn [forM].
  { intros [= <-]. split; [done|]. exists []. rewrite app_nil_r. split_and!; [done|constructor|intros _ f _; unfold net; simpl; lia|destruct native; simpl; lia]. }
  intros (u & w1 & Er & E)%M_bind_Ok.
  apply process_row_ok in Er as (i & g & g' & ev & Hi & Hg & Hg' & G & O & Hev & Tr); [|done..].
  destruct (IH w1) as (Hgs' & rest & O' & Hst & Hnet & Tr'); [rewrite G; by apply Forall_insert|done|].
  destruct (selection_facts plan Hrange g Hg) as (N1 & L1 & T1), (selection_facts plan Hrange g' Hg') as (N2 & L2 & T2).
  assert (top_one_mode plan = true -> (length (group_selection plan g) <= 1 /\ length (group_selection plan g') <= 1)%nat) as Hone by (intros; split; auto).
  split; [done|]. exists (ev ++ rest). split_and!.
  - by rewrite O', O, app_assoc.
  - econstructor; [done| |by rewrite <- G]. apply emit_difference_replay; try done. destruct Hrange. lia.
  - intros Hub f Hf. rewrite events_net_app, (Hnet Hub f Hf), G. unfold total_view at 2. rewrite (zsum_insert _ _ _ g) by done.
    rewrite (emit_difference_net plan sources f Hf Hub _ _ _ N1 N2 Hone Hev). unfold total_view, group_view. lia.
  - rewrite Tr', Tr, length_app, length_app. destruct native; rewrite ?repeat_length; simpl; lia.
Qed.

(** *** LIMIT *)

(** Row [r] of a batch is the row numbered [first + r + 1] of the input when the
    batches before it had [first] rows. LIMIT and OFFSET pass the rows numbered
    from the first rank to the last. *)
Definition numbered_row (first r : Z) : OutputEvent :=
  event {| source := 0; row := r; sequence := first + r; kind := INSERT |} (first + r + 1) INSERT.
Definition limited_rows (plan : TopNPlan) (last first : Z) (rows : list Z) : list OutputEvent :=
  map (numbered_row first) (List.filter (fun r => (rank_start plan <=? first + r + 1) && (first + r + 1 <=? last)) rows).
(** The counter of a LIMIT after [n] rows: it stops at the last rank. *)
Definition limit_counter (last first n : Z) : Z := Z.max first (Z.min last (first + n)).
Definition limit_group (last first n : Z) (g g' : GroupWork) : Prop :=
  next_sequence g' = limit_counter last first n /\ candidates g' = candidates g.

Section limits.
Context `{Arrow} (plan : TopNPlan) (sources : CandidateSources) (kinds row_groups : list Z).
Context (winners : option (list bool)) (selection : option Selection) (native : bool) (field_count : Z).
Context (Hrange : range_ok plan) (last : Z) (Hlast : plan_rank_end plan = Some last) (Hlimit : is_append_limit plan = true).
Abbreviation step := (process_row plan sources kinds row_groups winners selection native field_count).
Lemma limit_step first r g0 g w w' : 0 <= first -> 0 <= r -> groups w = [g] -> group_ok plan g -> limit_group last first r g0 g -> step r w = (Ok tt, w') ->
  exists g', groups w' = [g'] /\ group_ok plan g' /\ limit_group last first (r + 1) g0 g' /\
    output w' = output w ++ limited_rows plan last first [r] /\ triggering_rows w' = triggering_rows w.
Proof.
  intros Hf Hr Hgs [[Hn [Hc Hp]] He] [Hseq Hcand]. unfold process_row, group_at. rewrite Hlimit, Hlast. change (default 0 (Some last)) with last.
  intros (st & w1 & [= <- <-] & E)%M_bind_Ok. apply M_bind_Ok in E as (i & w1 & [_ ->]%lift_Ok & E). apply M_bind_Ok in E as (g1 & w1 & Eg & E).
  apply M_bind_Ok in Eg as (w0 & w2 & [= <- <-] & [Eg ->]%lift_Ok). apply at_index_Ok in Eg as [Hi Eg]. rewrite Hgs in Eg.
  apply list_lookup_singleton_Some in Eg as [Ei <-]. apply M_bind_Ok in E as (k & w1 & [_ ->]%lift_Ok & E). apply M_bind_Ok in E as (g' & w1 & El & [= <-]).
  unfold limit_row in El. apply M_bind_Ok in El as (u & w2 & [_ ->]%lift_Ok & El). cbn [next_sequence with_rank_end] in El.
  unfold limit_counter in *. pose proof (proj2 Hrange last Hlast) as Hl. rewrite Ei. unfold limited_rows. cbn [List.filter].
  destruct (Z.ltb_spec (next_sequence g) last) as [Hlt|Hge].
  - assert (next_sequence g = first + r) as En by lia. apply M_bind_Ok in El as (n & w2 & [Es ->]%lift_Ok & El). unfold sequence_after in Es.
    destruct (_ <=? U64_MAX); [|done]. injection Es as <-. rewrite En in *. rewrite (wraps_id 64) in El by (lia || (unfold_bounds; lia)).
    rewrite (proj2 (Z.leb_le (first + r + 1) last)), andb_true_r by lia.
    apply M_bind_Ok in El as (u2 & w3 & Ep & [= <- <-]). exists (with_sequence (first + r + 1) (with_rank_end (Some 0) g)).
    destruct (rank_start plan <=? first + r + 1); injection Ep as _ <-; cbn; rewrite ?Hgs, ?app_nil_r;
      (split; [done|]; split; [split; [split_and!; [done| |cbn; lia]|done]|split_and!; [split; [unfold limit_counter; cbn; lia|done]|done|done]]);
      (eapply Forall_impl; [exact Hc|]; cbn; lia).
  - injection El as <- <-. exists (with_rank_end (Some 0) g). rewrite (proj2 (Z.leb_gt (first + r + 1) last)), andb_false_r by lia. cbn. rewrite Hgs, app_nil_r.
    split; [done|]. split; [split; [split_and!|]; done|]. split; [split; [unfold limit_counter; cbn; lia|done]|]. by split.
Qed.
Lemma limit_rows first n : forall r g0 g w w', 0 <= first -> 0 <= r -> groups w = [g] -> group_ok plan g -> limit_group last first r g0 g ->
  forM (map Z.of_nat (seq (Z.to_nat r) n)) step w = (Ok tt, w') ->
  exists g', groups w' = [g'] /\ group_ok plan g' /\ limit_group last first (r + Z.of_nat n) g0 g' /\
    output w' = output w ++ limited_rows plan last first (map Z.of_nat (seq (Z.to_nat r) n)) /\ triggering_rows w' = triggering_rows w.
Proof.
  induction n as [|n IH]; intros r g0 g w w' Hf Hr Hgs Hg Hl; cbn [seq map forM].
  { intros [= <-]. exists g. rewrite Z.add_0_r, app_nil_r. done. }
  intros ([] & w1 & E1 & E)%M_bind_Ok. rewrite Z2Nat.id in E1 by lia.
  destruct (limit_step first r g0 g w w1 Hf Hr Hgs Hg Hl E1) as (g1 & Hgs1 & Hg1 & Hl1 & O1 & T1).
  rewrite <- Z2Nat.inj_succ in * by lia. destruct (IH (r + 1) g0 g1 w1 w') as (g' & Hgs' & Hg' & Hl' & O & Tr); [lia|lia|done|done|done|done|].
  exists g'. split; [done|]. split; [done|]. split; [by replace (r + Z.of_nat (S n)) with (r + 1 + Z.of_nat n) by lia|]. split; [|congruence].
  rewrite O, O1, <- app_assoc. f_equal. rewrite Z2Nat.id by lia. unfold limited_rows. cbn [List.filter]. by destruct (_ && _).
Qed.
End limits.

(** C29: a batch of a streaming Top-N emits exactly the change of the visible
    rows. For ranked plans (all strategies and row kinds, NaN sort keys included),
    the emitted changelog consists of changes of single groups that turn the table
    of the group's rows, by rank or by row identity, into the next one; for plans
    that emit update-befores it also nets, for every observation of rows (and of
    ranks, where the plan outputs them), to the view of all groups after the batch
    minus the view before it; and every event has its triggering row. A plan that
    is a bare LIMIT keeps no rows but a counter of the rows seen: it emits, as
    insertions and in order, exactly the rows whose number in the input lies
    between the first and the last rank, and records no triggering rows (such plans
    are not run as shared operators, which require sort keys). Sequences of kept
    rows stay distinct. *)
Theorem top_n_changelog `{ArrowLaws} (plan : TopNPlan) (sources : CandidateSources) (kinds row_groups : list Z) (winners : option (list bool)) (selection : option Selection) (native : bool) (field_count n : Z) (w w' : TopNWork) :
  range_ok plan -> bounded_final_output plan = false -> selection_sound selection ->
  Forall (group_ok plan) (groups w) ->
  process_rows plan sources kinds row_groups winners selection native field_count n w = (Ok tt, w') ->
  (is_append_limit plan = false ->
    Forall (group_ok plan) (groups w') /\
    exists events, output w' = output w ++ events /\ table_steps plan sources (groups w) events (groups w') /\
      (generate_update_before plan = true -> forall f, respects sources f -> net f events = total_view plan f (groups w') - total_view plan f (groups w)) /\
      length (triggering_rows w') = (length (triggering_rows w) + if native then length events else 0)%nat) /\
  (is_append_limit plan = true -> forall g last, plan_rank_end plan = Some last -> groups w = [g] -> 0 <= n ->
    exists g', groups w' = [g'] /\ group_ok plan g' /\ candidates g' = candidates g /\
      next_sequence g' = Z.max (next_sequence g) (Z.min last (next_sequence g + n)) /\
      output w' = output w ++ limited_rows plan last (next_sequence g) (map Z.of_nat (seq 0 (Z.to_nat n))) /\
      triggering_rows w' = triggering_rows w).
Proof.
  intros Hrange Hb Hsel Hgs Hrun. split; intros Hl; [by eapply ranked_changelog|]. intros g last Hlast Eg Hn.
  rewrite Eg in Hgs. apply Forall_cons in Hgs as [Hg _]. pose proof Hg as [(_ & _ & Hseq) _].
  destruct (limit_rows plan sources kinds row_groups winners selection native field_count Hrange last Hlast Hl (next_sequence g) (Z.to_nat n) 0 g g w w')
    as (g' & Hgs' & Hg' & [Hs Hc] & O & T); [done|lia|done|done|split; [unfold limit_counter; lia|done]|done|].
  exists g'. split; [done|]. split; [done|]. split; [done|]. rewrite Hs. split; [unfold limit_counter; lia|]. by split.
Qed.
