(* ===== verification/TopNSpec.v ===== *)
(** * A Top-N holds the first ranks of the live rows

    The rows a group has received and not retracted, in arrival order, are its
    history. Ranked by sort key and arrival, they are what the candidates hold:
    all of them under retractions, the first ranks of them when rows are only
    appended. *)

From Stdlib Require Import ZArith Lia Strings.Byte.
From stdpp Require Import base list option numbers strings.
From S2P Require Import Prelude Bytes OrdMap Arrow Aggregate TopNCompare TopN TopNChangelog TopNRows.

(** ** Rankings *)

Section ranking.
Context {C K : Type} `{!EqDecision C} `{!Ord K} {HK : OrdLaws K} (skey : C -> K).
(** A row and its arrival. *)
Abbreviation item := (C * Z)%type.
Definition ikey (i : item) : K * Z := (skey i.1, i.2).
Definition ranking (h : list item) : list item := foldr (bt_put ikey id) [] h.

Lemma ikey_sequence (i j : item) : ocmp (ikey i) (ikey j) = Eq -> i.2 = j.2.
Proof. unfold ikey. rewrite prod_ocmp. simpl. destruct (ocmp (skey i.1) (skey j.1)); [|done..]. apply Z.compare_eq. Qed.
Lemma ranking_sorted h : bt_sorted ikey (ranking h).
Proof. induction h as [|i h IH]; [constructor|]. by apply bt_put_sorted. Qed.
Lemma fresh_not_found (i : item) l : i.2 ∉ map snd l -> bt_find ikey (ikey i) l = None.
Proof. intros Hi. apply bt_find_None. intros j Hj E%ikey_sequence. destruct Hi. rewrite E. apply list_elem_of_fmap. eauto. Qed.
Lemma ranking_perm h : NoDup (map snd h) -> ranking h ≡ₚ h.
Proof.
  induction h as [|i h IH]; [done|]. cbn [map]. intros [Hi Hh]%NoDup_cons. simpl. specialize (IH Hh).
  rewrite bt_put_perm; [by rewrite IH|apply ranking_sorted|]. apply fresh_not_found. by rewrite IH.
Qed.
Lemma ranking_unique l h : NoDup (map snd h) -> bt_sorted ikey l -> l ≡ₚ h -> l = ranking h.
Proof. intros Hn Hl Hp. apply (bt_sorted_ext ikey); [done|apply ranking_sorted|]. intros i. rewrite Hp. by rewrite ranking_perm. Qed.
Lemma ranking_ext h k : NoDup (map snd h) -> h ≡ₚ k -> ranking h = ranking k.
Proof. intros Hn Hp. apply ranking_unique; [by rewrite <- Hp|apply ranking_sorted|]. by rewrite ranking_perm. Qed.
Lemma ranking_snoc h i : NoDup (map snd (h ++ [i])) -> ranking (h ++ [i]) = bt_put ikey id i (ranking h).
Proof. intros Hn. rewrite (ranking_ext _ (i :: h)); [done|done|by rewrite Permutation_app_comm]. Qed.

(** Insertion at the position that separates smaller from greater entries. *)
Lemma bt_put_split (i : item) l1 l2 :
  (forall x, x ∈ l1 -> ocmp (ikey x) (ikey i) = Lt) -> (forall x, x ∈ l2 -> ocmp (ikey i) (ikey x) = Lt) ->
  bt_put ikey id i (l1 ++ l2) = l1 ++ i :: l2.
Proof.
  induction l1 as [|x l1 IH]; intros H1 H2; simpl.
  - destruct l2 as [|y l2]; [done|]. simpl. by rewrite (H2 y) by constructor.
  - rewrite (ocmp_sym (ikey x)), (H1 x) by constructor. simpl. rewrite IH; [done|intros; apply H1; by constructor|done].
Qed.
(** What is beyond the first [n] ranks stays beyond them. *)
Lemma take_put n (i : item) l : take n (bt_put ikey id i (take n l)) = take n (bt_put ikey id i l).
Proof.
  revert n. induction l as [|x l IH]; intros [|n]; simpl; try done.
  destruct (ocmp (ikey i) (ikey x)); simpl; f_equal; [by rewrite take_take, Nat.min_id| |apply IH].
  destruct n; [done|]. simpl. f_equal. rewrite take_take. by rewrite Nat.min_l by lia.
Qed.

(** The history without the earliest arrival of a row. *)
Definition is_row (x : C) (i : item) : bool := bool_decide (i.1 = x).
Fixpoint remove_row (x : C) (h : list item) : list item :=
  match h with [] => [] | i :: h => if is_row x i then h else i :: remove_row x h end.
Fixpoint row_index (x : C) (l : list item) : option nat :=
  match l with [] => None | i :: l => if is_row x i then Some O else option_map S (row_index x l) end.
Definition arrivals (h : list item) : Prop := StronglySorted Z.lt (map snd h).

Lemma arrivals_nodup h : arrivals h -> NoDup (map snd h).
Proof.
  unfold arrivals. induction 1 as [|x l Hl IH Hx]; constructor; [|done]. rewrite Forall_forall in Hx. intros Hin. specialize (Hx x Hin). lia.
Qed.
Lemma remove_row_spec x h : arrivals h ->
  match List.find (is_row x) h with
  | None => remove_row x h = h /\ forall i, i ∈ h -> i.1 <> x
  | Some i => h ≡ₚ i :: remove_row x h /\ i.1 = x /\ i ∈ h /\ forall j, j ∈ h -> j.1 = x -> i.2 <= j.2
  end.
Proof.
  unfold arrivals. induction h as [|i h IH]; simpl.
  { intros _. split; [done|]. by intros i ?%elem_of_nil. }
  intros [Hs Hi]%StronglySorted_inv. specialize (IH Hs).
  destruct (is_row x i) eqn:E; [apply bool_decide_eq_true in E|apply bool_decide_eq_false in E].
  - split_and!; [done|done|by constructor|]. intros j [->|Hj]%elem_of_cons _; [done|]. rewrite Forall_forall in Hi.
    specialize (Hi j.2 ltac:(apply list_elem_of_fmap; eauto)). lia.
  - destruct (List.find _ h) as [k|].
    + destruct IH as (Hp & Hk & Hin & Hmin). split_and!; [rewrite Hp at 1; apply Permutation_swap|done|by constructor|].
      intros j [->|Hj]%elem_of_cons Hx; [done|auto].
    + destruct IH as [-> Hno]. split; [done|]. intros j [->|Hj]%elem_of_cons; auto.
Qed.
Lemma row_index_spec x l :
  match row_index x l with
  | None => forall i, i ∈ l -> i.1 <> x
  | Some n => exists i, l !! n = Some i /\ i.1 = x /\ forall m j, (m < n)%nat -> l !! m = Some j -> j.1 <> x
  end.
Proof.
  induction l as [|i l IH]; simpl; [by intros i ?%elem_of_nil|]. unfold is_row at 1. case_bool_decide as E; [exists i; split_and!; [done..|lia]|].
  destruct (row_index x l) as [n|]; simpl.
  - destruct IH as (j & Hj & Hx & Hm). exists j. split_and!; [done..|]. intros [|m] k Hlt; simpl; [by intros [= <-]|]. apply Hm. lia.
  - intros j [->|Hj]%elem_of_cons; auto.
Qed.
(** Retracting the first ranked row with a content retracts its earliest arrival. *)
Lemma ranking_remove x h : arrivals h ->
  ranking (remove_row x h) = match row_index x (ranking h) with Some n => delete n (ranking h) | None => ranking h end.
Proof.
  intros Ha. pose proof (arrivals_nodup h Ha) as Hn. pose proof (remove_row_spec x h Ha) as Hr. pose proof (row_index_spec x (ranking h)) as Hi.
  pose proof (ranking_perm h Hn) as Hp. pose proof (ranking_sorted h) as Hs.
  destruct (List.find (is_row x) h) as [i|], (row_index x (ranking h)) as [n|].
  - destruct Hr as (Hph & Hx & Hin & Hmin), Hi as (j & Hj & Hxj & Hfirst).
    assert (j = i) as ->.
    { assert (j ∈ h) as Hjh by (rewrite <- Hp; by eapply list_elem_of_lookup_2).
      assert (i ∈ ranking h) as (m & Hm)%list_elem_of_lookup_1 by by rewrite Hp.
      destruct (decide (m < n)%nat) as [Hlt|Hge]; [by destruct (Hfirst m i Hlt Hm)|].
      destruct (decide (m = n)) as [->|Hne]; [by injection (eq_trans (eq_sym Hj) Hm)|]. exfalso.
      assert (ocmp (ikey j) (ikey i) = Lt) as Hlt.
      { clear -Hs Hj Hm Hge Hne. revert n m Hj Hm Hge Hne. induction Hs as [|k l Hl IH Hk]; intros [|n] [|m]; simpl; try done; try lia.
        - intros [= ->] Hm _ _. rewrite Forall_forall in Hk. apply Hk. by eapply list_elem_of_lookup_2.
        - intros. eapply IH; [done..|lia|lia]. }
      unfold ikey in Hlt. rewrite prod_ocmp in Hlt. simpl in Hlt. rewrite Hx, Hxj, ocmp_refl in Hlt. change (j.2 < i.2) in Hlt.
      specialize (Hmin j Hjh Hxj). lia. }
    symmetry. apply ranking_unique.
    + rewrite Hph in Hn. cbn [map] in Hn. by apply NoDup_cons in Hn as [_ ?].
    + clear -Hs. revert n. induction Hs as [|k l Hl IH Hk]; intros [|n]; simpl; try constructor; try done; [apply IH|].
      rewrite Forall_forall in *. intros y Hy. apply Hk. eapply elem_of_sublist; [done|apply sublist_delete].
    + apply (Permutation_cons_inv (a := i)). by rewrite <- Hph, <- (delete_perm _ _ _ Hj).
  - exfalso. destruct Hr as (_ & Hx & Hin & _). apply (Hi i); [by rewrite Hp|done].
  - exfalso. destruct Hi as (j & Hj & Hxj & _), Hr as [_ Hno]. apply (Hno j); [|done]. rewrite <- Hp. by eapply list_elem_of_lookup_2.
  - destruct Hr as [-> _]. done.
Qed.
End ranking.

(** ** What ranking asks of the rows

    Rows have a content, which decides their sort key; comparing rows compares
    sort keys, equality is that of the contents, and sort keys have no NaN. *)

Class RanksBy `{Arrow} (plan : TopNPlan) (sources : CandidateSources) (field_count : Z)
    {C K : Type} `{!EqDecision C} `{!Ord K} (content : Z -> Z -> C) (skey : C -> K) (known : Z -> Z -> Prop) : Prop := {
  rb_sorted : sort_key_indices plan <> [];
  rb_order l r : known (source l) (row l) -> known (source r) (row r) ->
    sort_key_order plan sources l r = Ok (ocmp (skey (content (source l) (row l))) (skey (content (source r) (row r))));
  rb_columns c : known (source c) (row c) ->
    exists b f, at_index (batches sources) (source c) = Ok b /\ columns_can_have_nan b (sort_key_indices plan) = Ok f;
  rb_nan c : known (source c) (row c) -> sort_key_has_nan plan sources c = Ok false;
  rb_fields c : known (source c) (row c) -> all_columns sources c = Ok (map Z.of_nat (seq 0 (Z.to_nat field_count)));
  rb_equal l r : known (source l) (row l) -> known (source r) (row r) ->
    equal_candidates sources l r (map Z.of_nat (seq 0 (Z.to_nat field_count))) =
      Ok (bool_decide (content (source l) (row l) = content (source r) (row r)));
}.

Section candidates.
Context `{HA : Arrow} (plan : TopNPlan) (sources : CandidateSources) (field_count : Z).
Context {C K : Type} `{!EqDecision C} `{!Ord K} {HK : OrdLaws K} (content : Z -> Z -> C) (skey : C -> K) (known : Z -> Z -> Prop).
Context {HR : RanksBy plan sources field_count content skey known}.

Definition known_candidate (c : CandidateRef) : Prop := known (source c) (row c).
Definition item_of (c : CandidateRef) : C * Z := (content (source c) (row c), sequence c).
Abbreviation key_of c := (ikey skey (item_of c)).

Lemma candidate_order_keys l r : known_candidate l -> known_candidate r ->
  candidate_order plan sources l r = Ok (ocmp (key_of l) (key_of r)).
Proof.
  intros Hl Hr. unfold candidate_order. rewrite (rb_order l r Hl Hr). cbn [mbind outcome_bind]. rewrite prod_ocmp. cbn.
  by destruct (ocmp _ _).
Qed.

Lemma any_nan_false l : Forall known_candidate l -> any_nan plan sources l = Ok false.
Proof. induction 1 as [|x k Hx _ IH]; [done|]. cbn [any_nan]. rewrite (rb_nan x Hx). apply IH. Qed.

Section search.
Context (l : list CandidateRef) (c : CandidateRef) (Hl : Forall known_candidate l) (Hc : known_candidate c).
Definition below (x : CandidateRef) : Prop := ocmp (key_of x) (key_of c) = Lt.
Lemma binary_search_spec fuel low high n :
  bt_sorted (ikey skey) (map item_of l) -> 0 <= low <= high -> high <= len l -> high - low <= Z.of_nat fuel ->
  (forall i x, l !! i = Some x -> Z.of_nat i < low -> below x) -> (forall i x, l !! i = Some x -> high <= Z.of_nat i -> ~ below x) ->
  exists k n', binary_search plan sources fuel l c low high n = (Ok k, n') /\ 0 <= k <= len l /\
    (forall i x, l !! i = Some x -> Z.of_nat i < k -> below x) /\ (forall i x, l !! i = Some x -> k <= Z.of_nat i -> ~ below x).
Proof.
  intros Hs. revert low high n. induction fuel as [|fuel IH]; intros low high n Hlow Hhigh Hf Hb Ha; cbn [binary_search].
  { destruct (Z.ltb_spec low high); [lia|]. exists low, n. split_and!; [done|lia|lia|done|]. intros i x Hi Hk. apply (Ha i x Hi). lia. }
  destruct (Z.ltb_spec low high) as [Hlt|Hge]; [|exists low, n; split_and!; [done|lia|lia|done|]; intros i x Hi Hk; apply (Ha i x Hi); lia].
  set (m := low + (high - low) / 2). assert (low <= m < high) as Hm by (unfold m; pose proof (Z.div_lt (high - low) 2); pose proof (Z.div_pos (high - low) 2); lia).
  destruct (lookup_lt_is_Some_2 l (Z.to_nat m)) as [x Hx]; [unfold len in *; lia|].
  rewrite (M_bind_run _ tick n tt (sat_add n 1) eq_refl). rewrite (M_bind_run _ (lift (at_index l m)) _ x (sat_add n 1)) by (unfold lift; rewrite (proj2 (at_index_Ok l m x)); [done|split; [lia|done]]).
  assert (known_candidate x) as Hkx by (rewrite Forall_lookup in Hl; eauto).
  rewrite (M_bind_run _ (lift (candidate_order plan sources x c)) _ (ocmp (key_of x) (key_of c)) (sat_add n 1)) by (unfold lift; by rewrite candidate_order_keys).
  assert (forall i j y z, l !! i = Some y -> l !! j = Some z -> (i <= j)%nat -> below z -> below y) as Hmono.
  { intros i j y z Hy Hz Hij Hbz. destruct (decide (i = j)) as [->|Hne]; [by simplify_eq|]. unfold below in *.
    eapply ocmp_lt_trans; [|exact Hbz]. clear -Hs Hy Hz Hij Hne. revert i j Hy Hz Hij Hne.
    unfold bt_sorted in Hs. remember (map item_of l) as s eqn:E. revert l E. induction Hs as [|a s Hs' IHs Ha]; intros [|b l] E; try done.
    cbn [map] in E. injection E as -> ->. intros [|i] [|j]; simpl; try done; try lia.
    - intros [= ->] Hz _ _. rewrite Forall_forall in Ha. apply Ha. apply list_elem_of_fmap. exists z. split; [done|by eapply list_elem_of_lookup_2].
    - intros Hy Hz ? ?. apply (IHs l eq_refl i j); [done..|lia|lia]. }
  destruct (ocmp (key_of x) (key_of c)) eqn:Ex.
  - apply IH; [lia..| |]; [done|]. intros i y Hi Hk Hy. rewrite (Hmono _ _ _ _ Hx Hi ltac:(lia) Hy) in Ex. done.
  - apply IH; [lia..| |]; [|done]. intros i y Hi Hk. apply (Hmono i (Z.to_nat m) y x); [done..|lia|done].
  - apply IH; [lia..| |]; [done|]. intros i y Hi Hk Hy. rewrite (Hmono _ _ _ _ Hx Hi ltac:(lia) Hy) in Ex. done.
Qed.

(** Insertion is insertion in the ranking. *)
Lemma insert_sorted_ranked n :
  bt_sorted (ikey skey) (map item_of l) -> sequence c ∉ map sequence l ->
  exists l' n', insert_sorted plan sources l c n = (Ok l', n') /\ map item_of l' = bt_put (ikey skey) id (item_of c) (map item_of l) /\ Forall known_candidate l'.
Proof.
  intros Hs Hseq. destruct (rb_columns c Hc) as (b & f & Eb & Ef).
  destruct (binary_search_spec (length l) 0 (len l) n Hs) as (k & n' & Ek & Hk & Hbefore & Hafter);
    [pose proof (len_nonneg l); lia|lia|unfold len; lia|intros; lia|intros i x Hi%lookup_lt_Some; unfold len; lia|].
  exists (take (Z.to_nat k) l ++ c :: drop (Z.to_nat k) l), n'. split_and!.
  - unfold insert_sorted. rewrite bool_decide_false by apply rb_sorted.
    rewrite (M_bind_run _ (lift (at_index _ _)) n b n) by (unfold lift; by rewrite Eb).
    rewrite (M_bind_run _ (lift (columns_can_have_nan _ _)) n f n) by (unfold lift; by rewrite Ef).
    rewrite (M_bind_run _ _ n false n).
    2: { destruct f; [|done]. rewrite (M_bind_run _ (lift (sort_key_has_nan _ _ _)) n false n) by (unfold lift; by rewrite (rb_nan c Hc)). unfold lift. by rewrite any_nan_false. }
    rewrite (M_bind_run _ _ n None n) by done. rewrite (M_bind_run _ _ n k n' Ek). done.
  - rewrite <- (take_drop (Z.to_nat k) l) at 3. rewrite !map_app. cbn [map]. symmetry. apply bt_put_split.
    + intros i (x & -> & (j & Hj)%list_elem_of_lookup_1)%list_elem_of_fmap. apply lookup_take_Some in Hj as [Hj Hlt]. apply (Hbefore j x Hj). lia.
    + intros i (x & -> & (j & Hj)%list_elem_of_lookup_1)%list_elem_of_fmap. rewrite lookup_drop in Hj. pose proof (Hafter _ x Hj ltac:(lia)) as Hn. unfold below in Hn.
      rewrite (ocmp_sym (key_of x)). destruct (ocmp (key_of x) (key_of c)) eqn:E; [|done..]. exfalso. apply ikey_sequence in E. apply Hseq.
      cbn in E. rewrite <- E. apply list_elem_of_fmap. exists x. split; [done|by eapply list_elem_of_lookup_2].
  - apply Forall_app. split; [by apply Forall_take|]. constructor; [done|by apply Forall_drop].
Qed.
End search.

Lemma find_equal_spec l c : Forall known_candidate l -> known_candidate c ->
  find_equal sources l c (map Z.of_nat (seq 0 (Z.to_nat field_count))) = Ok (row_index (item_of c).1 (map item_of l)).
Proof.
  intros Hl Hc. induction Hl as [|x l Hx _ IH]; [done|]. cbn [find_equal map row_index]. rewrite (rb_equal x c Hx Hc). cbn [mbind outcome_bind].
  unfold is_row. cbn. destruct (bool_decide _); [done|]. by rewrite IH.
Qed.
Lemma same_row_spec l r : known_candidate l -> known_candidate r -> same_row sources l r = Ok (bool_decide (content (source l) (row l) = content (source r) (row r))).
Proof. intros Hl Hr. unfold same_row. rewrite (rb_fields l Hl). by apply rb_equal. Qed.
Lemma same_output_total (o p : option CandidateRef) :
  (forall c, o = Some c -> known_candidate c) -> (forall c, p = Some c -> known_candidate c) -> exists b, same_output sources o p = Ok b.
Proof.
  intros Ho Hp. destruct o as [c|], p as [d|]; simpl; try by eexists. case_bool_decide; [by eexists|]. case_bool; [|by eexists].
  rewrite same_row_spec by auto. by eexists.
Qed.
Lemma head_known l c : Forall known_candidate l -> head l = Some c -> known_candidate c.
Proof. intros Hl. destruct Hl; [done|]. by intros [= <-]. Qed.
Lemma emit_difference_total before after :
  Forall known_candidate before -> Forall known_candidate after -> exists events, emit_difference plan sources before after = Ok events.
Proof.
  intros Hb Ha. unfold emit_difference. destruct (_ || _).
  { generalize 0, (Nat.max (length before) (length after)). intros i n. revert i before after Hb Ha. induction n as [|n IH]; intros i before after Hb Ha; [by eexists|].
    cbn [rank_difference]. destruct (same_output_total (head before) (head after)) as [b ->]; [by intros ? ?%(head_known before)|by intros ? ?%(head_known after)|].
    destruct (IH (i + 1) (tail before) (tail after)) as [rest Er]; [by destruct Hb|by destruct Ha|]. cbn [mbind outcome_bind]. rewrite Er. by eexists. }
  destruct (_ && _).
  { destruct (same_output_total (head before) (head after)) as [b ->]; [by intros ? ?%(head_known before)|by intros ? ?%(head_known after)|]. by eexists. }
  assert (exists removed, removed_events plan sources before after = Ok removed) as [removed ->]; [|by eexists].
  induction Hb as [|old before Ho _ IH]; [by eexists|]. cbn [removed_events]. destruct IH as [rest Er].
  pose proof (find_sequence after (sequence old)) as Hf. destruct (List.find _ after) as [next|]; [|cbn [mbind outcome_bind]; rewrite Er; by eexists].
  destruct Hf as [Hin _]. rewrite Forall_forall in Ha. case_bool_decide; [cbn [mbind outcome_bind]; rewrite Er; by eexists|].
  rewrite same_row_spec by auto. cbn [mbind outcome_bind]. rewrite Er. by eexists.
Qed.

(** ** Histories *)

Definition retraction (k : Z) : bool := (strategy plan =? 3) && ((k =? UPDATE_BEFORE) || (k =? DELETE)).
(** A row of content [x] and kind [k] arrives. *)
Definition history_step (k : Z) (x : C) (s : list (C * Z) * Z) : list (C * Z) * Z :=
  if retraction k then (remove_row x s.1, s.2) else (s.1 ++ [(x, s.2)], s.2 + 1).
(** The ranks that are kept. *)
Definition kept_ranks (e : Z) (l : list (C * Z)) : list (C * Z) :=
  if strategy plan =? 3 then l else take (Z.to_nat (retained_end e)) l.
Definition history_ok (s : list (C * Z) * Z) : Prop := arrivals s.1 /\ Forall (fun i => 0 <= i.2 < s.2) s.1 /\ 0 <= s.2.
Definition holds_history (e : Z) (s : list (C * Z) * Z) (g : GroupWork) : Prop :=
  history_ok s /\ next_sequence g = s.2 /\ Forall known_candidate (candidates g) /\
  map item_of (candidates g) = kept_ranks e (ranking skey s.1).

Lemma arrivals_snoc (h : list (C * Z)) (i : C * Z) : arrivals h -> Forall (fun j => j.2 < i.2) h -> arrivals (h ++ [i]).
Proof.
  unfold arrivals. intros Ha Hi. rewrite map_app. induction h as [|j h IH]; cbn [map app] in *; [repeat constructor|].
  apply StronglySorted_inv in Ha as [Ha Hj]. apply Forall_cons in Hi as [Hji Hi]. constructor; [by apply IH|].
  apply Forall_app. split; [done|]. by constructor.
Qed.
Lemma elem_of_remove_row x (h : list (C * Z)) i : i ∈ remove_row x h -> i ∈ h.
Proof.
  induction h as [|j h IH]; [done|]. simpl. destruct (is_row x j); [by constructor|]. intros [->|Hi]%elem_of_cons; constructor. by apply IH.
Qed.
Lemma arrivals_remove x (h : list (C * Z)) : arrivals h -> arrivals (remove_row x h).
Proof.
  unfold arrivals. induction h as [|j h IH]; [done|]. cbn [map remove_row]. intros [Ha Hj]%StronglySorted_inv.
  destruct (is_row x j); [done|]. cbn [map]. constructor; [by apply IH|]. rewrite Forall_forall in *. intros z (i & -> & Hi)%list_elem_of_fmap.
  apply Hj, list_elem_of_fmap. exists i. split; [done|]. by eapply elem_of_remove_row.
Qed.
Lemma history_step_ok k x s : history_ok s -> history_ok (history_step k x s).
Proof.
  intros (Ha & Hf & H0). unfold history_step. destruct (retraction k); split_and!; cbn [fst snd]; try lia.
  - by apply arrivals_remove.
  - rewrite Forall_forall in *. intros i Hi. apply Hf. by eapply elem_of_remove_row.
  - apply arrivals_snoc; [done|]. eapply Forall_impl; [done|]. simpl. lia.
  - apply Forall_app. split; [|constructor; [simpl; lia|constructor]]. eapply Forall_impl; [done|]. simpl. lia.
Qed.

(** ** One row *)

Lemma counted_run {A} (m : M Z A) w a n' : m (comparator_calls w) = (Ok a, n') -> counted m w = (Ok a, set_calls n' w).
Proof. unfold counted. by intros ->. Qed.

Section one_row.
Context (e : Z) (Hrange : range_ok plan) (Hend : plan_rank_end plan = Some e) (Hunbounded : bounded_final_output plan = false).
Context (Hstrategy : strategy plan = 1 \/ strategy plan = 3).
Definition row_kind_ok (k : Z) : Prop :=
  0 <= k <= 3 /\ (strategy plan = 1 -> physical_input_semantics plan = false -> k = INSERT).

Lemma kept_elem l i : i ∈ kept_ranks e l -> i ∈ l.
Proof. unfold kept_ranks. destruct (_ =? 3); [done|]. intros Hi. eapply elem_of_sublist; [done|apply sublist_take]. Qed.
Lemma kept_sorted l : bt_sorted (ikey skey) l -> bt_sorted (ikey skey) (kept_ranks e l).
Proof.
  unfold kept_ranks. destruct (_ =? 3); [done|]. generalize (Z.to_nat (retained_end e)). intros n Hs. revert n.
  induction Hs as [|a l Hl IH Ha]; intros [|n]; simpl; constructor; [apply IH|]. by apply Forall_take.
Qed.
Lemma holds_fresh s g c : holds_history e s g -> sequence c = s.2 -> sequence c ∉ map sequence (candidates g).
Proof.
  intros ((Ha & Hf & _) & _ & _ & Hm) Hc (d & E & Hd)%list_elem_of_fmap. 
  assert (item_of d ∈ s.1) as Hin.
  { rewrite <- (ranking_perm skey s.1) by by apply arrivals_nodup. apply kept_elem. rewrite <- Hm. apply list_elem_of_fmap. eauto. }
  rewrite Forall_forall in Hf. specialize (Hf _ Hin). simpl in Hf. lia.
Qed.
(** The candidates after an insertion, before they are truncated. *)
Lemma insert_holds s g c n :
  holds_history e s g -> sequence c = s.2 -> known_candidate c ->
  exists l n', insert_sorted plan sources (candidates g) c n = (Ok l, n') /\ Forall known_candidate l /\
    kept_ranks e (map item_of l) = kept_ranks e (ranking skey (s.1 ++ [(content (source c) (row c), s.2)])).
Proof.
  intros Hh Hc Hk. pose proof (holds_fresh s g c Hh Hc) as Hfresh. destruct Hh as (Hok & Hn & Hl & Hm).
  destruct (insert_sorted_ranked (candidates g) c Hl Hk n) as (l & n' & E & Hl' & Hkl); [|done|].
  { rewrite Hm. apply kept_sorted, ranking_sorted. }
  exists l, n'. split_and!; [done..|]. rewrite Hl', Hm. unfold item_of. rewrite Hc. rewrite ranking_snoc.
  - unfold kept_ranks. destruct (strategy plan =? 3); [done|]. apply take_put.
  - apply arrivals_nodup. destruct Hok as (Ha & Hf & _). apply arrivals_snoc; [done|]. eapply Forall_impl; [done|]. simpl. lia.
Qed.
Definition new_candidate (r k : Z) (s : list (C * Z) * Z) : CandidateRef :=
  {| source := 0; row := r; sequence := s.2; kind := if physical_input_semantics plan then k else INSERT |}.
Lemma strategy_holds r k s g w :
  holds_history e s g -> row_kind_ok k -> known 0 r -> s.2 < U64_MAX ->
  exists g' w', strategy_row plan sources None None field_count r k e (new_candidate r k s) g w = (Ok g', w') /\ groups w' = groups w /\
    next_sequence g' = (history_step k (content 0 r) s).2 /\ Forall known_candidate (candidates g') /\
    kept_ranks e (map item_of (candidates g')) = kept_ranks e (ranking skey (history_step k (content 0 r) s).1).
Proof.
  intros Hh [Hk Hins] Hkn Hmax. pose proof Hh as (Hok & Hn & Hl & Hm).
  assert (sequence_after (next_sequence g) = Ok (s.2 + 1)) as Hseq.
  { unfold sequence_after. rewrite Hn. by rewrite (proj2 (Z.leb_le _ _)) by lia. }
  destruct (insert_holds s g (new_candidate r k s) (comparator_calls w) Hh eq_refl Hkn) as (l & n' & El & Hkl & Hl').
  apply counted_run in El. unfold strategy_row, history_step, retraction.
  destruct Hstrategy as [Hs|Hs]; rewrite Hs; change (1 =? 3) with false; change (3 =? 3) with true; cbn [strategy_of andb].
  - exists (with_candidates l (with_sequence (s.2 + 1) g)), (set_calls n' w). unfold append_row.
    rewrite (M_bind_run _ _ w tt w); [|destruct (physical_input_semantics plan) eqn:Ep; [done|by rewrite (Hins Hs eq_refl)]].
    rewrite (lift_run _ _ _ _ Hseq). rewrite (M_bind_run _ _ _ _ _ El). split_and!; done.
  - unfold retract_row. destruct ((k =? INSERT) || (k =? UPDATE_AFTER)) eqn:Ek.
    + exists (with_candidates l (with_sequence (s.2 + 1) g)), (set_calls n' w).
      assert ((k =? UPDATE_BEFORE) || (k =? DELETE) = false) as -> by (unfold INSERT, UPDATE_AFTER, UPDATE_BEFORE, DELETE in *; lia).
      rewrite (lift_run _ _ _ _ Hseq). rewrite (M_bind_run _ _ _ _ _ El). split_and!; done.
    + assert ((k =? UPDATE_BEFORE) || (k =? DELETE) = true) as -> by (unfold INSERT, UPDATE_AFTER, UPDATE_BEFORE, DELETE in *; lia).
      rewrite (lift_run _ _ _ _ (find_equal_spec (candidates g) (new_candidate r k s) Hl Hkn)). cbn [item_of fst new_candidate source row].
      assert (forall l, kept_ranks e l = l) as Hid by (intros; unfold kept_ranks; by rewrite Hs). rewrite Hid in Hm.
      rewrite Hm. rewrite ranking_remove by apply Hok. destruct (row_index _ _) as [i|].
      * exists (with_candidates (delete i (candidates g)) g), w. cbn [candidates with_candidates]. split_and!; try done.
        { apply Forall_delete. done. }
        rewrite <- Hm. f_equal. by rewrite list_fmap_delete.
      * exists g, (count_retraction w). split_and!; try done. by rewrite Hm.
Qed.
Lemma truncate_holds s g w :
  Forall known_candidate (candidates g) -> kept_ranks e (map item_of (candidates g)) = kept_ranks e (ranking skey s.1) ->
  history_ok s -> next_sequence g = s.2 ->
  exists g', truncate_row plan sources e g w = (Ok g', w) /\ holds_history e s g'.
Proof.
  intros Hk Hm Hok Hn. unfold truncate_row, holds_history. rewrite Hunbounded. cbn [andb]. unfold kept_ranks in *.
  destruct Hstrategy as [Hs|Hs]; rewrite Hs in *; cbn [Z.eqb negb Pos.eqb] in *.
  - eexists. split; [done|]. split_and!; try done; [by apply Forall_take|]. cbn. unfold truncate. by rewrite <- Hm, firstn_map.
  - exists g. done.
Qed.

Lemma selected_ranks s g : holds_history e s g ->
  exists l, selected plan (candidates g) e = Ok l /\ Forall known_candidate l /\
    map item_of l = drop (Z.to_nat (rank_start plan - 1)) (take (Z.to_nat e) (ranking skey s.1)).
Proof.
  intros (_ & _ & Hk & Hm). pose proof Hrange as [Hrs Hre]. specialize (Hre e Hend).
  destruct (selected_total plan Hrange (candidates g) e) as (l & El & Hsub & _); [unfold_bounds; lia|]. exists l. split_and!; [done| |].
  { rewrite Forall_forall in *. intros c Hc. apply Hk. by eapply elem_of_sublist. }
  assert (drop (Z.to_nat (rank_start plan - 1)) (take (Z.to_nat e) (ranking skey s.1)) = drop (Z.to_nat (rank_start plan - 1)) (take (Z.to_nat e) (map item_of (candidates g)))) as ->.
  { rewrite Hm. unfold kept_ranks, retained_end. destruct (strategy plan =? 3); [done|]. rewrite take_take. by rewrite Nat.min_l by lia. }
  rewrite firstn_map, skipn_map. f_equal. revert El. unfold selected. rewrite wraps_id by (unfold_bounds; lia). pose proof (len_nonneg (candidates g)).
  unfold len in *. destruct (Z.ltb_spec e (rank_start plan)).
  - intros [= <-]. symmetry. apply skipn_all2. rewrite length_take. lia.
  - destruct (Z.ltb_spec e 0); [lia|]. destruct (Z.leb_spec (Z.min (rank_start plan - 1) (Z.of_nat (length (candidates g)))) (Z.min e (Z.of_nat (length (candidates g))))); [|done].
    intros [= <-]. rewrite skipn_firstn_comm.
    destruct (decide (rank_start plan - 1 <= Z.of_nat (length (candidates g)))).
    + rewrite (Z.min_l (rank_start plan - 1)) by lia. destruct (decide (e <= Z.of_nat (length (candidates g)))).
      * rewrite Z.min_l by lia. f_equal. lia.
      * rewrite Z.min_r by lia. rewrite !take_ge by (rewrite length_drop; lia). done.
    + rewrite !drop_ge by lia. by rewrite !take_nil.
Qed.
Lemma ranked_row_holds r k s g w :
  holds_history e s g -> row_kind_ok k -> known 0 r -> s.2 < U64_MAX ->
  exists g' w', ranked_row plan sources None None field_count r k g w = (Ok g', w') /\ groups w' = groups w /\
    holds_history e (history_step k (content 0 r) s) g'.
Proof.
  intros Hh Hk Hkn Hmax. pose proof Hrange as [Hrs Hre]. specialize (Hre e Hend).
  destruct (rb_columns (new_candidate r k s) Hkn) as (b & f & Eb & _). cbn in Eb.
  destruct (selected_ranks s g Hh) as (before & Ebefore & Hkb & _).
  destruct (strategy_holds r k s g w Hh Hk Hkn Hmax) as (g1 & w1 & E1 & G1 & Hn1 & Hk1 & Hm1).
  destruct (truncate_holds (history_step k (content 0 r) s) g1 w1 Hk1 Hm1) as (g2 & E2 & Hh2); [by apply history_step_ok, Hh|done|].
  destruct (selected_ranks _ g2 Hh2) as (after & Eafter & Hka & _). destruct (emit_difference_total before after Hkb Hka) as [events Eev].
  exists g2, (push_events events w1). unfold ranked_row, group_rank_end. rewrite Hunbounded, Hend.
  rewrite (lift_run _ _ _ _ Eb). rewrite (proj2 (Z.leb_le e I64_MAX)) by lia. rewrite (M_bind_run _ _ w (e, g) w eq_refl).
  rewrite (M_bind_run _ _ w (if physical_input_semantics plan then k else INSERT) w).
  2: { destruct (physical_input_semantics plan); [|done]. destruct Hk as [Hk _]. by rewrite (proj2 (Z.leb_le 0 k)), (proj2 (Z.leb_le k 3)) by lia. }
  rewrite (lift_run _ _ _ _ Ebefore). pose proof Hh as (_ & Hn & _). rewrite Hn. fold (new_candidate r k s). rewrite (M_bind_run _ _ _ _ _ E1), (M_bind_run _ _ _ _ _ E2).
  rewrite (M_bind_run _ _ w1 tt (push_events events w1)); [split_and!; [done|cbn; by rewrite G1|done]|].
  rewrite (lift_run _ _ _ _ Eafter), (lift_run _ _ _ _ Eev). done.
Qed.

(** ** A batch *)

Context (kinds row_groups : list Z) (native : bool) (Hlimit : is_append_limit plan = false).
Definition history_row (hs : list (list (C * Z) * Z)) (r : Z) : list (list (C * Z) * Z) :=
  match at_index row_groups r, at_index kinds r with
  | Ok i, Ok k => alter (history_step k (content 0 r)) (Z.to_nat i) hs
  | _, _ => hs
  end.
Definition row_input_ok (groups_len : nat) (r : Z) : Prop :=
  exists i k, at_index row_groups r = Ok i /\ at_index kinds r = Ok k /\ 0 <= i /\ (Z.to_nat i < groups_len)%nat /\ row_kind_ok k /\ known 0 r.
Lemma history_step_next k x s : (history_step k x s).2 <= s.2 + 1.
Proof. unfold history_step. destruct (retraction k); simpl; lia. Qed.

Lemma process_row_holds r hs w :
  Forall2 (holds_history e) hs (groups w) -> Forall (fun s => s.2 < U64_MAX) hs -> row_input_ok (length (groups w)) r ->
  exists w', process_row plan sources kinds row_groups None None native field_count r w = (Ok tt, w') /\
    Forall2 (holds_history e) (history_row hs r) (groups w').
Proof.
  intros Hhs Hmax (i & k & Ei & Ek & Hi & Hlt & Hk & Hkn).
  destruct (lookup_lt_is_Some_2 (groups w) (Z.to_nat i) Hlt) as [g Hg].
  destruct (Forall2_lookup_r _ _ _ _ _ Hhs Hg) as (s & Hs & Hh). assert (s.2 < U64_MAX) as Hsm by (rewrite Forall_lookup in Hmax; eauto).
  destruct (ranked_row_holds r k s g w Hh Hk Hkn Hsm) as (g' & w1 & E & G & Hh').
  assert (Forall2 (holds_history e) (history_row hs r) (groups (with_groups (<[Z.to_nat i := g']>) w1))) as Hfin.
  { cbn. rewrite G. unfold history_row. rewrite Ei, Ek. 
    apply Forall2_lookup. intros j. destruct (decide (j = Z.to_nat i)) as [->|Hne].
    - rewrite list_lookup_alter_eq, Hs, list_lookup_insert_eq by done. by constructor.
    - rewrite list_lookup_alter_ne, list_lookup_insert_ne by done. by apply Forall2_lookup. }
  unfold process_row, group_at. rewrite Hlimit. rewrite (M_bind_run _ (gets _) w (len (output w)) w eq_refl).
  rewrite (lift_run _ _ _ _ Ei). rewrite (M_bind_run _ _ w g w).
  2: { rewrite (M_bind_run _ getS w w w eq_refl). unfold lift. by rewrite (proj2 (at_index_Ok (groups w) i g)). }
  rewrite (lift_run _ _ _ _ Ek), (M_bind_run _ _ _ _ _ E). rewrite (M_bind_run _ _ w1 tt (with_groups (<[Z.to_nat i := g']>) w1) eq_refl).
  destruct native; eexists; (split; [done|exact Hfin]).
Qed.
Lemma process_rows_hold rows hs w :
  Forall2 (holds_history e) hs (groups w) -> Forall (fun s => s.2 + Z.of_nat (length rows) <= U64_MAX) hs -> Forall (row_input_ok (length (groups w))) rows ->
  exists w', forM rows (process_row plan sources kinds row_groups None None native field_count) w = (Ok tt, w') /\
    Forall2 (holds_history e) (fold_left history_row rows hs) (groups w').
Proof.
  revert hs w. induction rows as [|r rows IH]; intros hs w Hhs Hmax Hin; [by exists w|]. apply Forall_cons in Hin as [Hr Hin].
  destruct (process_row_holds r hs w Hhs) as (w1 & E1 & H1); [|done|].
  { eapply Forall_impl; [done|]. simpl. lia. }
  destruct (IH (history_row hs r) w1 H1) as (w2 & E2 & H2).
  - unfold history_row. destruct Hr as (i & k & -> & -> & _). apply Forall_lookup. intros j s Hj. rewrite Forall_lookup in Hmax.
    destruct (decide (j = Z.to_nat i)) as [->|Hne]; [rewrite list_lookup_alter_eq in Hj|rewrite list_lookup_alter_ne in Hj by done].
    + apply fmap_Some in Hj as (s0 & Hs0 & ->). specialize (Hmax _ _ Hs0). pose proof (history_step_next k (content 0 r) s0). simpl in Hmax. lia.
    + specialize (Hmax _ _ Hj). simpl in Hmax. lia.
  - apply Forall2_length in H1 as L1, Hhs as L2. rewrite <- L1. unfold history_row. destruct Hr as (i & k & -> & -> & _). rewrite length_alter. by rewrite L2.
  - exists w2. split; [|done]. cbn [forM]. by rewrite (M_bind_run _ _ _ _ _ E1).
Qed.
End one_row.
End candidates.

(** C30: a Top-N with a constant last rank that keeps appended rows (append-fast)
    or a changelog (retract), whose sort cells have keys that order them ([RanksBy]:
    no NaN), processes any batch, and then each group shows exactly the ranks
    [rank_start ..= rank_end] of its live rows: the rows it has received and not
    retracted, ordered by sort key and then by arrival, where a retraction takes
    the earliest arrival of its row and is ignored when there is none. *)
Theorem top_n_selects `{Arrow} (plan : TopNPlan) (sources : CandidateSources) (field_count : Z)
    {C K : Type} `{!EqDecision C} `{!Ord K} {HK : OrdLaws K} (content : Z -> Z -> C) (skey : C -> K) (known : Z -> Z -> Prop)
    {HR : RanksBy plan sources field_count content skey known}
    (e : Z) (kinds row_groups : list Z) (native : bool) (n : Z) (hs : list (list (C * Z) * Z)) (w : TopNWork) :
  range_ok plan -> plan_rank_end plan = Some e -> bounded_final_output plan = false -> strategy plan = 1 \/ strategy plan = 3 -> 0 <= n ->
  Forall2 (holds_history plan content skey known e) hs (groups w) -> Forall (fun s => s.2 + n <= U64_MAX) hs ->
  (forall r, 0 <= r < n -> row_input_ok plan known kinds row_groups (length (groups w)) r) ->
  exists w', process_rows plan sources kinds row_groups None None native field_count n w = (Ok tt, w') /\
    let hs' := fold_left (history_row plan content kinds row_groups) (map Z.of_nat (seq 0 (Z.to_nat n))) hs in
    Forall2 (holds_history plan content skey known e) hs' (groups w') /\
    Forall2 (fun s g => map (item_of content) (group_selection plan g) = drop (Z.to_nat (rank_start plan - 1)) (take (Z.to_nat e) (ranking skey s.1))) hs' (groups w').
Proof.
  intros Hrange Hend Hb Hs Hn Hhs Hmax Hin.
  assert (is_append_limit plan = false) as Hlimit by (unfold is_append_limit; rewrite bool_decide_false by apply rb_sorted; done).
  assert (Forall (row_input_ok plan known kinds row_groups (length (groups w))) (map Z.of_nat (seq 0 (Z.to_nat n)))) as Hrows.
  { apply Forall_forall. intros r (j & -> & Hj%elem_of_seq)%list_elem_of_fmap. apply Hin. lia. }
  destruct (process_rows_hold plan sources field_count content skey known e Hrange Hend Hb Hs kinds row_groups native Hlimit (map Z.of_nat (seq 0 (Z.to_nat n))) hs w Hhs) as (w' & E & H'); [|done|].
  { eapply Forall_impl; [done|]. intros s. simpl. rewrite length_map, length_seq. lia. }
  exists w'. split; [done|]. cbv zeta. split; [done|]. eapply Forall2_impl; [done|]. intros s g Hg.
  destruct (selected_ranks plan content skey known e Hrange Hend s g Hg) as (l & El & _ & Hl).
  unfold group_selection, group_end. by rewrite Hend, El.
Qed.
