(* ===== verification/TopNKeys.v ===== *)
(** * Arrow rows can be ranked

    The comparison of [TopNCompare] gives Top-N the order it needs: rows of
    batches with one schema, whose cells have keys, are ranked by their keys. The
    encoded sort keys of [arrow_row] may take the place of the comparison. *)

From Stdlib Require Import ZArith Lia Strings.Byte.
From stdpp Require Import base list option numbers strings.
From S2P Require Import Prelude Bytes OrdMap Arrow Aggregate TopNCompare TopNOrder TopN TopNRows TopNSpec.

Section ranked_rows.
Context `{HA : Arrow} {Hlaws : ArrowLaws} (plan : TopNPlan) (sources : CandidateSources) (field_count : Z).

Definition fields : list Z := map Z.of_nat (seq 0 (Z.to_nat field_count)).
(** The keys of every column of a row. *)
Definition row_content (s r : Z) : list Key :=
  match at_index (batches sources) s with Ok b => default [] (row_keys b r fields) | _ => [] end.
Definition keyed_row (s r : Z) : Prop :=
  exists b l, at_index (batches sources) s = Ok b /\ row_keys b r fields = Some l /\ 0 <= r < num_rows b.
(** The columns a plan sorts by. *)
Definition sort_keys (x : list Key) : list Key := map (fun i => default KNull (x !! Z.to_nat i)) (order_indices (sort_order plan)).

Definition plan_sorts : Prop :=
  sort_key_indices plan <> [] /\ Forall (fun i => 0 <= i < field_count) (sort_key_indices plan) /\
  length (sort_ascending plan) = length (sort_key_indices plan) /\ length (sort_nulls_last plan) = length (sort_key_indices plan).
Definition sources_typed : Prop :=
  (forall b, b ∈ batches sources -> Z.of_nat (length (columns b)) = field_count) /\
  forall b c, b ∈ batches sources -> c ∈ batches sources -> same_schema b c.
(** Encoded sort keys are ordered as the rows they encode. *)
Definition orders_encode : Prop :=
  forall o, orders sources = Some o -> forall l r, keyed_row (source l) (row l) -> keyed_row (source r) (row r) ->
    exists x y, order_row o l = Ok x /\ order_row o r = Ok y /\
      forall lb rb, at_index (batches sources) (source l) = Ok lb -> at_index (batches sources) (source r) = Ok rb ->
        compare_rows lb (row l) rb (row r) (sort_order plan) = Ok (bytes_cmp x y).

Context (Hsorts : plan_sorts) (Htyped : sources_typed) (Hencode : orders_encode).

Lemma order_indices_sort : order_indices (sort_order plan) = sort_key_indices plan.
Proof.
  destruct Hsorts as (_ & _ & H1 & H2). unfold order_indices, sort_order. clear -H1 H2.
  revert H1 H2. generalize (sort_key_indices plan), (sort_ascending plan), (sort_nulls_last plan). intros l.
  induction l as [|i l IH]; intros [|a la] [|b lb]; simpl; try done. intros. f_equal. apply IH; lia.
Qed.
Lemma at_index_elem {A} (l : list A) i x : at_index l i = Ok x -> x ∈ l.
Proof. intros [_ Hi]%at_index_Ok. by eapply list_elem_of_lookup_2. Qed.
Lemma row_keys_lookup b r idx l i j : row_keys b r idx = Some l -> idx !! i = Some j -> batch_key b r j = l !! i.
Proof.
  unfold row_keys. intros H%mapM_Some Hi. destruct (Forall2_lookup_l _ _ _ _ _ H Hi) as (k & Hk & Ek). by rewrite Hk, Ek.
Qed.
Lemma field_at i : 0 <= i < field_count -> fields !! Z.to_nat i = Some i.
Proof.
  intros Hi. unfold fields. rewrite list_lookup_fmap, lookup_seq_lt by lia. simpl. f_equal. lia.
Qed.
(** The keys of the sort columns are among those of the row. *)
Lemma sort_row_keys b r l : row_keys b r fields = Some l -> row_keys b r (order_indices (sort_order plan)) = Some (sort_keys l).
Proof.
  intros Hl. unfold sort_keys. destruct Hsorts as (_ & Hi & _). rewrite order_indices_sort. unfold row_keys. clear -Hl Hi.
  induction Hi as [|i idx Hi Hidx IH]; [done|]. cbn [mapM map]. rewrite (row_keys_lookup _ _ _ _ _ _ Hl (field_at i Hi)).
  destruct (lookup_lt_is_Some_2 l (Z.to_nat i)) as [k Hk].
  { unfold row_keys in Hl. apply mapM_Some, Forall2_length in Hl. unfold fields in Hl. rewrite length_map, length_seq in Hl. lia. }
  rewrite Hk. cbn [mbind option_bind default]. by rewrite IH.
Qed.
Lemma row_content_keys s r b l : at_index (batches sources) s = Ok b -> row_keys b r fields = Some l -> row_content s r = l.
Proof. intros Eb El. unfold row_content. by rewrite Eb, El. Qed.

#[global] Instance rows_ranked :
  @RanksBy HA plan sources field_count (list Key) (list Key) _ (order_cmp (sort_order plan)) row_content sort_keys keyed_row.
Proof.
  split.
  - apply Hsorts.
  - intros l r Hl Hr. pose proof Hl as (b & x & Eb & Ex & _). pose proof Hr as (c & y & Ec & Ey & _).
    rewrite (row_content_keys _ _ _ _ Eb Ex), (row_content_keys _ _ _ _ Ec Ey).
    assert (compare_rows b (row l) c (row r) (sort_order plan) = Ok (order_cmp (sort_order plan) (sort_keys x) (sort_keys y))) as Hc.
    { apply compare_rows_keys; [apply Htyped; by eapply at_index_elem|by apply sort_row_keys..]. }
    unfold sort_key_order. destruct (orders sources) as [o|] eqn:Eo.
    + destruct (Hencode o Eo l r Hl Hr) as (u & v & -> & -> & Huv). specialize (Huv b c Eb Ec). rewrite Hc in Huv. injection Huv as Huv. cbn. by rewrite <- Huv.
    + by rewrite Eb, Ec.
  - intros c (b & l & Eb & El & _). exists b. destruct Htyped as [Hlen _]. specialize (Hlen b (at_index_elem _ _ _ Eb)). destruct Hsorts as (_ & Hi & _).
    enough (exists f, columns_can_have_nan b (sort_key_indices plan) = Ok f) as [f Hf] by eauto.
    induction Hi as [|i idx Hi Hidx IH]; [by eexists|]. cbn [columns_can_have_nan]. destruct (column_total b i) as [a ->]; [unfold num_columns, len; lia|].
    cbn [mbind outcome_bind]. destruct (data_type_can_have_nan _); [by eexists|done].
  - intros c (b & l & Eb & El & _). unfold sort_key_has_nan. rewrite Eb. cbn [mbind outcome_bind]. apply sort_row_keys in El. rewrite order_indices_sort in El. by eapply row_no_nan.
  - intros c (b & l & Eb & El & _). unfold all_columns. rewrite Eb. cbn [mbind outcome_bind]. destruct Htyped as [Hlen _]. specialize (Hlen b (at_index_elem _ _ _ Eb)).
    do 3 f_equal. lia.
  - intros l r (b & x & Eb & Ex & _) (c & y & Ec & Ey & _). unfold equal_candidates. rewrite Eb, Ec. cbn [mbind outcome_bind].
    rewrite (row_content_keys _ _ _ _ Eb Ex), (row_content_keys _ _ _ _ Ec Ey).
    apply equal_rows_keys; [apply Htyped; by eapply at_index_elem|done..].
Qed.
End ranked_rows.
