(* ===== verification/TopNKernels.v ===== *)
(** * The DataFusion paths of append-only Top-N: [top_n/datafusion_append.rs],
    [top_n/datafusion_top_one.rs]

    Sorting once by encoded key, sequence and token gives every candidate of a
    batch a priority; retaining candidates sorts priorities, and a Top-1 winner is
    a row that reaches the running minimum of its partition. The sort and window
    kernels are those of DataFusion. *)

From Stdlib Require Import ZArith Lia Strings.Byte.
From stdpp Require Import base list option numbers strings sorting.
From S2P Require Import Prelude Bytes OrdMap MemoryPool Restore Arrow Aggregate TopNCompare TopN.

(** [sort_batch] on key, sequence and token columns, on key and token columns, and
    with a limit on a priority column, and the MIN window from the first to the current row. *)
Class SortKernel : Type := {
  sort_tokens : list (bytes * Z * Z) -> outcome (list (bytes * Z * Z));
  sort_keyed : list (bytes * Z) -> outcome (list (bytes * Z));
  sort_priorities : list Z -> Z -> outcome (list Z);
  running_minimum : list Z -> outcome (list Z);
}.
Class SortLaws `{SortKernel} : Prop := {
  sort_tokens_law l : exists s, sort_tokens l = Ok s /\ s ≡ₚ l /\ StronglySorted (fun x y => ocmp x y <> Gt) s;
  sort_keyed_law l : exists s, sort_keyed l = Ok s /\ s ≡ₚ l /\ StronglySorted (fun x y => ocmp x y <> Gt) s;
  sort_priorities_law l n : exists s, sort_priorities l n = Ok (take (Z.to_nat n) s) /\ s ≡ₚ l /\ StronglySorted Z.le s;
  running_minimum_law l : running_minimum l = Ok (map (fun i => foldr Z.min (default 0 (l !! i)) (take i l)) (seq 0 (length l)));
}.

Section kernels.
Context `{Arrow} `{SortKernel}.

(** ** Priorities *)

Definition append_compatible (plan : TopNPlan) (sources : CandidateSources) : bool :=
  (strategy plan =? 1) && match plan_rank_end plan with Some e => 1 <? e | None => false end
  && negb (is_some (variable_rank_end_index plan)) && bool_decide (rank_type plan = RowNumber)
  && negb (bounded_final_output plan) && negb (physical_input_semantics plan)
  && negb (bool_decide (sort_key_indices plan = [])) && is_some (orders sources).

(** The candidates the rows of the batch will make: a partition's next sequence
    is used and advanced. *)
Fixpoint arrival_tokens (r : Z) (row_groups sequences : list Z) : outcome (list CandidateRef) :=
  match row_groups with
  | [] => Ok []
  | g :: row_groups =>
      n ← at_index sequences g;
      m ← sequence_after n;
      rest ← arrival_tokens (r + 1) row_groups (<[Z.to_nat g := m]> sequences);
      Ok ({| source := 0; row := r; sequence := n; kind := INSERT |} :: rest)
  end.
Definition token_row (o : list (list bytes)) (index : nat) (c : CandidateRef) : outcome (bytes * Z * Z) :=
  key ← order_row o c; Ok (key, sequence c, Z.of_nat index).
Fixpoint token_rows (o : list (list bytes)) (index : nat) (l : list CandidateRef) : outcome (list (bytes * Z * Z)) :=
  match l with
  | [] => Ok []
  | c :: l => x ← token_row o index c; rest ← token_rows o (S index) l; Ok (x :: rest)
  end.
(** [priorities[source][row] = priority]. *)
Definition set_priority (c : CandidateRef) (p : Z) (v : list (list Z)) : outcome (list (list Z)) :=
  rows ← at_index v (source c);
  _ ← at_index rows (row c);
  Ok (<[Z.to_nat (source c) := <[Z.to_nat (row c) := p]> rows]> v).
Fixpoint assign_priorities (p : Z) (order : list CandidateRef) (v : list (list Z)) : outcome (list (list Z)) :=
  match order with
  | [] => Ok v
  | c :: order => v ← set_priority c p v; assign_priorities (p + 1) order v
  end.
Definition priority_of (v : list (list Z)) (c : CandidateRef) : outcome Z :=
  rows ← at_index v (source c); at_index rows (row c).
Definition selection_retain (priorities : list (list Z)) (ordered : list CandidateRef) (l : list CandidateRef) (limit : Z) : outcome (list CandidateRef) :=
  ps ← collect (priority_of priorities) l;
  sorted ← sort_priorities ps limit;
  collect (at_index ordered) sorted.
(** What [Selection::new] computes once its memory is admitted. *)
Definition selection_new (sources : CandidateSources) (groups : list GroupWork) (row_groups : list Z) : outcome Selection :=
  match orders sources with
  | None => Panic
  | Some o =>
      arrivals ← arrival_tokens 0 row_groups (map next_sequence groups);
      let tokens := flat_map candidates groups ++ arrivals in
      input ← token_rows o O tokens;
      sorted ← sort_tokens input;
      ordered ← collect (fun x => at_index tokens x.2) sorted;
      priorities ← assign_priorities 0 ordered (map (fun b => replicate (Z.to_nat (num_rows b)) 0) (batches sources));
      Ok {| retain := selection_retain priorities ordered |}
  end.
(** The memory of the encoded keys, the ordinals and the largest sort. *)
Definition selection_bytes (sources : CandidateSources) (o : list (list bytes)) : Z :=
  let count := wrapu 64 (zsum num_rows (batches sources)) in
  let key_bytes := wrapu 64 (zsum (fun rows => wrapu 64 (zsum len rows)) o) in
  sat_add (sat_add (sat_mul key_bytes 3) (sat_mul count 384)) (64 * 1024).
(** [Selection::new]: the memory, then the priorities; the selection owns its memory. *)
Definition selection_admitted `{Broker B} (owner : resv) (sources : CandidateSources) (groups : list GroupWork) (row_groups : list Z) : M B (Selection * resv) :=
  match orders sources with
  | None => panic
  | Some o =>
      memory ← reserve_sibling owner "DataFusion append Top-N priorities and selection" (selection_bytes sources o);
      match selection_new sources groups row_groups with
      | Ok s => mret (s, memory)
      | Err e => fail_dropping memory e
      | Panic => panic
      end
  end.
(** It is refused with all memory given back, or holds exactly what it computed. *)
Lemma selection_admitted_spec `{ReleaseTotal B} owner sources groups row_groups (b : B) : 0 <= reserved b ->
  match selection_admitted owner sources groups row_groups b with
  | (Ok (s, memory), b') => selection_new sources groups row_groups = Ok s /\
      option_map (selection_bytes sources) (orders sources) = Some (rsize memory) /\ reserved b' = reserved b + rsize memory
  | (Err _, b') => reserved b' = reserved b
  | (Panic, _) => selection_new sources groups row_groups = Panic
  end.
Proof.
  intros Hb. unfold selection_admitted. destruct (orders sources) as [o|] eqn:Eo; [|unfold selection_new; by rewrite Eo].
  assert (is_usize (selection_bytes sources o)) as Hn.
  { unfold selection_bytes, wrapu. pose proof (Z.mod_pos_bound (zsum num_rows (batches sources)) (2 ^ 64) ltac:(lia)).
    pose proof (Z.mod_pos_bound (zsum (fun rows => zsum len rows mod 2 ^ 64) o) (2 ^ 64) ltac:(lia)). mlia. }
  pose proof (reserve_sibling_spec owner "DataFusion append Top-N priorities and selection" _ b Hn Hb) as Hr. unfold mbind, M_bind.
  destruct (reserve_sibling _ _ _ b) as [[memory|e|] b1]; [|done|done]. destruct Hr as [Hs Hb1]. unfold is_usize in Hn.
  destruct (selection_new sources groups row_groups) as [s|e|]; [|unfold fail_dropping|done].
  - cbn. split; [done|]. rewrite Hs. by split.
  - destruct (host_drop_total memory b1) as (b2 & -> & Hb2); [lia|]. lia.
Qed.

(** ** Winners *)

Definition top_one_compatible (plan : TopNPlan) (sources : CandidateSources) : bool :=
  (strategy plan =? 1) && (rank_start plan =? 1) && bool_decide (plan_rank_end plan = Some 1)
  && negb (is_some (variable_rank_end_index plan)) && bool_decide (rank_type plan = RowNumber)
  && negb (bounded_final_output plan) && negb (physical_input_semantics plan)
  && negb (bool_decide (sort_key_indices plan = [])) && is_some (orders sources).

(** The tokens of the groups' winners, and the index of each. *)
Fixpoint prior_tokens (index : Z) (groups : list GroupWork) : outcome (list (Z * Z) * list (option Z)) :=
  match groups with
  | [] => Ok ([], [])
  | g :: groups =>
      match candidates g with
      | [] => '(tokens, prior) ← prior_tokens index groups; Ok (tokens, None :: prior)
      | [c] => '(tokens, prior) ← prior_tokens (index + 1) groups; Ok ((source c, row c) :: tokens, Some index :: prior)
      | _ => Err (Execution "Top-1 state retains more than one candidate")
      end
  end.
Fixpoint key_rows (o : list (list bytes)) (index : nat) (l : list (Z * Z)) : outcome (list (bytes * Z)) :=
  match l with
  | [] => Ok []
  | p :: l =>
      rows ← at_index o p.1;
      key ← at_index rows p.2;
      rest ← key_rows o (S index) l;
      Ok ((key, Z.of_nat index) :: rest)
  end.
(** [priority[token] = rank]. *)
Fixpoint token_priorities (rank : Z) (sorted : list (bytes * Z)) (v : list Z) : outcome (list Z) :=
  match sorted with
  | [] => Ok v
  | x :: sorted => _ ← at_index v x.2; token_priorities (rank + 1) sorted (<[Z.to_nat x.2 := rank]> v)
  end.
(** The rows of each partition, in order. *)
Definition partition_rows (row_groups : list Z) (group : nat) : list Z :=
  map Z.of_nat (List.filter (fun r => bool_decide (row_groups !! r = Some (Z.of_nat group))) (seq 0 (length row_groups))).
Fixpoint mark_winners (rows minima scores : list Z) (winners : list bool) : outcome (list bool) :=
  match rows, minima, scores with
  | [], _, _ => Ok winners
  | r :: rows, m :: minima, s :: scores =>
      _ ← at_index winners r;
      mark_winners rows minima scores (<[Z.to_nat r := (m =? s)]> winners)
  | _, _, _ => Panic
  end.
Fixpoint partition_winners (priority : list Z) (input_start : Z) (row_groups : list Z) (group : nat) (prior : list (option Z)) (winners : list bool) : outcome (list bool) :=
  match prior with
  | [] => Ok winners
  | p :: prior =>
      let rows := partition_rows row_groups group in
      first ← match p with Some t => x ← at_index priority t; Ok [x] | None => Ok [] end;
      scores ← collect (fun r => at_index priority (input_start + r)) rows;
      minima ← running_minimum (first ++ scores);
      winners ← mark_winners rows (drop (length first) minima) scores winners;
      partition_winners priority input_start row_groups (S group) prior winners
  end.
Definition top_one_winners (sources : CandidateSources) (groups : list GroupWork) (row_groups : list Z) : outcome (list bool) :=
  match orders sources with
  | None => Panic
  | Some o =>
      if bool_decide (row_groups = []) then Ok []
      else
        '(prior_tokens, prior) ← prior_tokens 0 groups;
        let tokens := prior_tokens ++ map (fun r => (0, Z.of_nat r)) (seq 0 (length row_groups)) in
        input ← key_rows o O tokens;
        sorted ← sort_keyed input;
        priority ← token_priorities 0 sorted (replicate (length tokens) 0);
        partition_winners priority (len prior_tokens) row_groups O prior (replicate (length row_groups) false)
  end.
End kernels.
