(* ===== verification/TopNAppend.v ===== *)
(** * Retention by priorities is sorted insertion

    The DataFusion path of append-only Top-N keeps, for every row, the candidates
    sorted insertion keeps. *)

From Stdlib Require Import ZArith Lia Strings.Byte.
From stdpp Require Import base list option numbers strings sorting.
From S2P Require Import Prelude Bytes OrdMap Arrow Aggregate TopNCompare TopN TopNChangelog TopNRows TopNSpec TopNKernels.

(** ** Positions in sorted lists *)

Lemma sorted_lookup {A} (R : relation A) l i j x y :
  StronglySorted R l -> l !! i = Some x -> l !! j = Some y -> (i < j)%nat -> R x y.
Proof.
  intros Hs. revert i j. induction Hs as [|a l Hl IH Ha]; intros [|i] [|j]; simpl; try done; try lia.
  - intros [= ->] Hj _. rewrite Forall_forall in Ha. apply Ha. by eapply list_elem_of_lookup_2.
  - intros Hi Hj ?. apply (IH i j); [done..|lia].
Qed.
Lemma sorted_by_lookup {A} (R : relation A) l :
  (forall i j x y, l !! i = Some x -> l !! j = Some y -> (i < j)%nat -> R x y) -> StronglySorted R l.
Proof.
  induction l as [|a l IH]; intros H; constructor.
  - apply IH. intros i j x y Hi Hj ?. apply (H (S i) (S j)); [done..|lia].
  - apply Forall_lookup. intros j y Hj. apply (H O (S j)); [done..|lia].
Qed.
Lemma elem_of_inserted {A} (l : list A) i x y : y ∈ <[i := x]> l -> y = x \/ y ∈ l.
Proof.
  intros (j & Hj)%list_elem_of_lookup_1. apply list_lookup_insert_Some in Hj as [(_ & <- & _)|[_ Hj]]; [by left|]. right. by eapply list_elem_of_lookup_2.
Qed.
Lemma collect_perm {A B} (f : A -> outcome B) l k ys : collect f l = Ok ys -> l ≡ₚ k -> exists zs, collect f k = Ok zs /\ ys ≡ₚ zs.
Proof.
  rewrite collect_Ok. intros H E. destruct (Permutation_Forall2 E H) as (zs & Hp & Hz). exists zs. split; [by apply collect_Ok|done].
Qed.
Lemma collect_take {A B} (f : A -> outcome B) n l ys : collect f l = Ok ys -> collect f (take n l) = Ok (take n ys).
Proof. rewrite !collect_Ok. by apply Forall2_take. Qed.

Section append.
Context `{HA : Arrow} `{HS : SortKernel} {Hsort : SortLaws}.
Definition loc (c : CandidateRef) : Z * Z := (source c, row c).

(** ** Priorities *)

Definition slots (v : list (list Z)) (c : CandidateRef) : Prop := exists p, priority_of v c = Ok p.
Lemma priority_lookup v c p : priority_of v c = Ok p <->
  0 <= source c /\ 0 <= row c /\ exists rows, v !! Z.to_nat (source c) = Some rows /\ rows !! Z.to_nat (row c) = Some p.
Proof.
  unfold priority_of. rewrite outcome_bind_Ok. setoid_rewrite at_index_Ok. naive_solver.
Qed.
Lemma set_priority_spec c p v : slots v c ->
  exists v', set_priority c p v = Ok v' /\ priority_of v' c = Ok p /\
    forall d, loc d <> loc c -> priority_of v' d = priority_of v d.
Proof.
  intros [q (H0 & H1 & rows & Hv & Hr)%priority_lookup]. unfold set_priority.
  rewrite (proj2 (at_index_Ok v (source c) rows)) by done. cbn [mbind outcome_bind].
  rewrite (proj2 (at_index_Ok rows (row c) q)) by done. cbn [mbind outcome_bind]. eexists. split; [done|]. split.
  - apply priority_lookup. split_and!; [done..|]. eexists. split; [apply list_lookup_insert_eq; by eapply lookup_lt_Some|].
    apply list_lookup_insert_eq. by eapply lookup_lt_Some.
  - intros d Hd. unfold priority_of, at_index. destruct (Z.leb_spec 0 (source d)) as [Hsd|]; [|done].
    destruct (decide (Z.to_nat (source d) = Z.to_nat (source c))) as [Es|Es].
    + rewrite Es, list_lookup_insert_eq by (by eapply lookup_lt_Some). rewrite Hv. cbn [mbind outcome_bind].
      destruct (Z.leb_spec 0 (row d)) as [Hrd|]; [|done]. rewrite list_lookup_insert_ne; [done|]. intros Er. apply Hd. unfold loc. f_equal; lia.
    + by rewrite list_lookup_insert_ne by done.
Qed.
Lemma assign_priorities_spec p order v :
  Forall (slots v) order -> NoDup (map loc order) ->
  exists v', assign_priorities p order v = Ok v' /\
    (forall i c, order !! i = Some c -> priority_of v' c = Ok (p + Z.of_nat i)) /\
    forall d, loc d ∉ map loc order -> priority_of v' d = priority_of v d.
Proof.
  revert p v. induction order as [|c order IH]; intros p v Hs Hn; [by exists v|]. cbn [map] in Hn.
  apply Forall_cons in Hs as [Hc Hs]. apply NoDup_cons in Hn as [Hnc Hn].
  destruct (set_priority_spec c p v Hc) as (v1 & E1 & Hp1 & Hf1).
  destruct (IH (p + 1) v1) as (v2 & E2 & Hp2 & Hf2); [|done|].
  { rewrite Forall_forall in *. intros d Hd. destruct (Hs d Hd) as [q Hq]. exists q. rewrite Hf1; [done|].
    intros E. destruct Hnc. rewrite <- E. apply list_elem_of_fmap. eauto. }
  exists v2. cbn [assign_priorities]. rewrite E1. split_and!; [done| |].
  - intros [|i] d Hi; simpl in Hi.
    + injection Hi as ->. rewrite Hf2 by done. rewrite Hp1. f_equal. lia.
    + rewrite (Hp2 i d Hi). f_equal. lia.
  - intros d [Hdc Hd]%not_elem_of_cons. rewrite Hf2 by done. by apply Hf1.
Qed.

(** ** The order of the tokens *)

Section tokens.
Context (o : list (list bytes)) (tokens : list CandidateRef) (key : CandidateRef -> bytes).
Context (Hkeys : forall c, c ∈ tokens -> order_row o c = Ok (key c)).
Definition rank_of (c : CandidateRef) : bytes * Z := (key c, sequence c).
Definition ordered_by (l : list CandidateRef) : Prop := StronglySorted (fun x y => ocmp (rank_of x) (rank_of y) <> Gt) l.

Lemma token_rows_spec index l : (forall c, c ∈ l -> order_row o c = Ok (key c)) ->
  exists rows, token_rows o index l = Ok rows /\ Forall2 (fun x c => x.1 = rank_of c) rows l /\
    forall i c, l !! i = Some c -> exists x, rows !! i = Some x /\ x.2 = Z.of_nat (index + i).
Proof.
  revert index. induction l as [|c l IH]; intros index Hl; [exists []; split_and!; [done|constructor|done]|].
  destruct (IH (S index)) as (rows & E & H1 & H2); [intros; apply Hl; by constructor|].
  cbn [token_rows]. unfold token_row. rewrite Hl by constructor. cbn [mbind outcome_bind]. rewrite E. eexists. split_and!; [done|by constructor|].
  intros [|i] d Hi; simpl in *.
  - eexists. split; [done|]. simpl. lia.
  - destruct (H2 i d Hi) as (x & Hx & Ex). exists x. split; [done|]. lia.
Qed.
Lemma tokens_ordered rows s :
  token_rows o O tokens = Ok rows -> sort_tokens rows = Ok s ->
  exists ordered, collect (fun x => at_index tokens x.2) s = Ok ordered /\ ordered ≡ₚ tokens /\ ordered_by ordered.
Proof.
  intros Er Es. destruct (token_rows_spec O tokens Hkeys) as (rows' & Er' & Hr1 & Hr2). rewrite Er in Er'. injection Er' as <-.
  destruct (sort_tokens_law rows) as (s' & Es' & Hp & Hs). rewrite Es in Es'. injection Es' as <-.
  assert (Forall2 (fun x c => at_index tokens x.2 = Ok c /\ x.1 = rank_of c) rows tokens) as Hf.
  { apply Forall2_lookup. intros i. pose proof (Forall2_length _ _ _ Hr1) as Hlen.
    destruct (tokens !! i) as [c|] eqn:Ec.
    - destruct (Hr2 i c Ec) as (x & Hx & Ex). rewrite Hx. constructor. split.
      + apply at_index_Ok. rewrite Ex. split; [lia|]. by rewrite Nat2Z.id.
      + destruct (Forall2_lookup_l _ _ _ _ _ Hr1 Hx) as (d & Hd & Ed). congruence.
    - apply lookup_ge_None in Ec. rewrite (lookup_ge_None_2 rows) by lia. constructor. }
  destruct (Permutation_Forall2 (Permutation_sym Hp) Hf) as (ordered & Hpo & Hfo). exists ordered. split_and!; [|done|].
  - apply collect_Ok. eapply Forall2_impl; [done|]. naive_solver.
  - apply sorted_by_lookup. intros i j x y Hi Hj Hij.
    destruct (Forall2_lookup_r _ _ _ _ _ Hfo Hi) as (u & Hu & _ & Eu), (Forall2_lookup_r _ _ _ _ _ Hfo Hj) as (v & Hv & _ & Ev).
    pose proof (sorted_lookup _ _ _ _ _ _ Hs Hu Hv Hij) as Hle. cbn in Hle. rewrite prod_ocmp, Eu, Ev in Hle. intros Hgt. by rewrite Hgt in Hle.
Qed.
End tokens.

(** ** Retention *)

Lemma retain_spec priorities ordered key l limit :
  (forall i c, ordered !! i = Some c -> priority_of priorities c = Ok (Z.of_nat i)) -> ordered_by key ordered ->
  NoDup l -> (forall c, c ∈ l -> c ∈ ordered) ->
  exists k, selection_retain priorities ordered l limit = Ok (take (Z.to_nat limit) k) /\ k ≡ₚ l /\ ordered_by key k.
Proof.
  intros Hpri Hord Hnd Hin.
  assert (exists ps, Forall2 (fun c p => priority_of priorities c = Ok p /\ at_index ordered p = Ok c) l ps) as [ps Hps].
  { clear Hnd. induction l as [|c l IH]; [exists []; constructor|]. destruct IH as [ps Hps]; [intros; apply Hin; by constructor|].
    destruct (list_elem_of_lookup_1 ordered c) as [i Hi]; [apply Hin; constructor|].
    exists (Z.of_nat i :: ps). constructor; [|done]. split; [by apply Hpri|]. apply at_index_Ok. rewrite Nat2Z.id. split; [lia|done]. }
  assert (collect (priority_of priorities) l = Ok ps) as E1 by (apply collect_Ok; eapply Forall2_impl; [done|naive_solver]).
  assert (collect (at_index ordered) ps = Ok l) as E2.
  { apply collect_Ok, Forall2_flip. eapply Forall2_impl; [done|]. unfold flip. naive_solver. }
  destruct (sort_priorities_law ps limit) as (s & Es & Hp & Hs).
  destruct (collect_perm _ _ _ _ E2 (Permutation_sym Hp)) as (k & Ek & Hk).
  exists k. split_and!; [|done|].
  - unfold selection_retain. rewrite E1. cbn [mbind outcome_bind]. rewrite Es. cbn [mbind outcome_bind]. by apply collect_take.
  - pose proof Ek as Hf%collect_Ok. apply sorted_by_lookup. intros i j x y Hi Hj Hij.
    destruct (Forall2_lookup_r _ _ _ _ _ Hf Hi) as (p & Hpi & Ep), (Forall2_lookup_r _ _ _ _ _ Hf Hj) as (q & Hqj & Eq).
    pose proof (sorted_lookup _ _ _ _ _ _ Hs Hpi Hqj Hij) as Hle. apply at_index_Ok in Ep as [Hp0 Ep], Eq as [Hq0 Eq].
    assert (p <> q) as Hne.
    { intros ->. rewrite Ep in Eq. injection Eq as ->. assert (NoDup k) as Hk' by by rewrite <- Hk.
      pose proof (proj1 (NoDup_alt k) Hk' i j y Hi Hj). lia. }
    apply (sorted_lookup _ _ _ _ _ _ Hord Ep Eq). lia.
Qed.

Lemma selection_new_spec sources gs row_groups o arrivals key :
  orders sources = Some o -> arrival_tokens 0 row_groups (map next_sequence gs) = Ok arrivals ->
  let tokens := flat_map candidates gs ++ arrivals in
  (forall c, c ∈ tokens -> order_row o c = Ok (key c)) -> NoDup (map loc tokens) ->
  Forall (slots (map (fun b => replicate (Z.to_nat (num_rows b)) 0) (batches sources))) tokens ->
  exists s, selection_new sources gs row_groups = Ok s /\
    forall l limit, NoDup l -> (forall c, c ∈ l -> c ∈ tokens) ->
      exists k, retain s l limit = Ok (take (Z.to_nat limit) k) /\ k ≡ₚ l /\ ordered_by key k.
Proof.
  intros Ho Ea tokens Hkeys Hn Hslots. unfold selection_new. rewrite Ho, Ea. cbn [mbind outcome_bind]. fold tokens.
  destruct (token_rows_spec o key O tokens Hkeys) as (rows & Er & _). rewrite Er. cbn [mbind outcome_bind].
  destruct (sort_tokens_law rows) as (s & Es & _). rewrite Es. cbn [mbind outcome_bind].
  destruct (tokens_ordered o tokens key Hkeys rows s Er Es) as (ordered & Eo & Hp & Hord). rewrite Eo. cbn [mbind outcome_bind].
  destruct (assign_priorities_spec 0 ordered (map (fun b => replicate (Z.to_nat (num_rows b)) 0) (batches sources))) as (v & Ev & Hv & _); [by rewrite Hp|by rewrite Hp|].
  rewrite Ev. cbn [mbind outcome_bind]. eexists. split; [done|]. cbn [retain]. intros l limit Hnd Hin.
  apply retain_spec; [intros i c Hi; by rewrite (Hv i c Hi)|done|done|]. intros c Hc. rewrite Hp. by apply Hin.
Qed.

(** ** One row *)

Section rows.
Context (plan : TopNPlan) (sources : CandidateSources) (field_count : Z).
Context {C K : Type} `{!EqDecision C} `{!Ord K} {HK : OrdLaws K} (content : Z -> Z -> C) (skey : C -> K) (known : Z -> Z -> Prop).
Context {HR : RanksBy plan sources field_count content skey known}.
Context (e : Z) (Hrange : range_ok plan) (Hend : plan_rank_end plan = Some e) (Hunbounded : bounded_final_output plan = false).
Context (Happend : strategy plan = 1) (Hlogical : physical_input_semantics plan = false).
Context (o : list (list bytes)) (Horders : orders sources = Some o).
Abbreviation holds := (holds_history plan content skey known e).

Definition encoded_key (c : CandidateRef) : bytes := match order_row o c with Ok k => k | _ => [] end.
Lemma known_key c : known_candidate known c -> order_row o c = Ok (encoded_key c).
Proof.
  intros Hc. pose proof (rb_order c c Hc Hc) as E. unfold sort_key_order in E. rewrite Horders in E. unfold encoded_key.
  by destruct (order_row o c).
Qed.
Lemma encoded_order l r : known_candidate known l -> known_candidate known r ->
  ocmp (rank_of encoded_key l) (rank_of encoded_key r) = ocmp (ikey skey (item_of content l)) (ikey skey (item_of content r)).
Proof.
  intros Hl Hr. pose proof (rb_order l r Hl Hr) as E. unfold sort_key_order in E. rewrite Horders, (known_key l Hl), (known_key r Hr) in E.
  cbn in E. injection E as E. rewrite !prod_ocmp. cbn. change (ocmp (encoded_key l) (encoded_key r)) with (bytes_cmp (encoded_key l) (encoded_key r)). by rewrite E.
Qed.
Lemma holds_nodup s g : holds s g -> NoDup (map sequence (candidates g)).
Proof.
  intros (Hok & _ & _ & Hm). assert (map sequence (candidates g) = map snd (kept_ranks plan e (ranking skey s.1))) as -> by (by rewrite <- Hm, map_map).
  unfold kept_ranks. rewrite Happend. change (1 =? 3) with false. cbn iota. rewrite <- firstn_map.
  eapply sublist_NoDup; [|apply sublist_take]. rewrite (ranking_perm skey s.1) by (apply arrivals_nodup, Hok). apply arrivals_nodup, Hok.
Qed.
(** A sorted permutation of the candidates and a new one is the result of insertion. *)
Lemma insert_unique s g c n L n' k :
  holds s g -> sequence c = s.2 -> known_candidate known c -> insert_sorted plan sources (candidates g) c n = (Ok L, n') ->
  k ≡ₚ candidates g ++ [c] -> ordered_by encoded_key k -> k = L.
Proof.
  intros Hh Hc Hk EL Hp Hord. pose proof (holds_fresh plan content skey known e s g c Hh Hc) as Hfresh.
  pose proof (insert_sorted_perm _ _ _ _ _ _ _ EL) as HpL. destruct Hh as (Hok & Hn & Hl & Hm).
  destruct (insert_sorted_ranked plan sources field_count content skey known (candidates g) c Hl Hk n) as (L' & n'' & EL' & HL & HkL); [|done|].
  { rewrite Hm. apply kept_sorted, ranking_sorted. }
  rewrite EL in EL'. injection EL' as <- <-.
  assert (bt_sorted (ikey skey) (map (item_of content) L)) as HsL.
  { rewrite HL. apply bt_put_sorted; [apply _|done|]. rewrite Hm. apply kept_sorted, ranking_sorted. }
  assert (k ≡ₚ L) as HkL' by (rewrite Hp, HpL; by rewrite Permutation_app_comm).
  assert (NoDup (map sequence L)) as HnL.
  { rewrite HpL. cbn [map]. apply NoDup_cons. split; [done|]. by apply (holds_nodup s g). }
  rewrite Forall_forall in HkL.
  apply (StronglySorted_unique_strong (fun x y => ocmp (rank_of encoded_key x) (rank_of encoded_key y) <> Gt)); [|done| |done].
  - intros x y Hx Hy H1 H2. rewrite HkL' in Hx. apply (nodup_map_inj sequence L); [done..|].
    rewrite (ocmp_sym (rank_of encoded_key x)) in H2. destruct (ocmp (rank_of encoded_key x) (rank_of encoded_key y)) eqn:E; try done.
    rewrite prod_ocmp in E. cbn in E. destruct (ocmp (encoded_key x) (encoded_key y)); [|done..]. by apply Z.compare_eq.
  - apply sorted_by_lookup. intros i j x y Hi Hj Hij. rewrite encoded_order by (apply HkL; by eapply list_elem_of_lookup_2).
    assert (map (item_of content) L !! i = Some (item_of content x)) as Hi' by by rewrite list_lookup_fmap, Hi.
    assert (map (item_of content) L !! j = Some (item_of content y)) as Hj' by by rewrite list_lookup_fmap, Hj.
    pose proof (sorted_lookup _ _ _ _ _ _ HsL Hi' Hj' Hij) as Hlt. cbn in Hlt. by rewrite Hlt.
Qed.

(** The selection retains sorted permutations of what it is given. *)
Definition retains (sel : Selection) (l : list CandidateRef) (limit : Z) : Prop :=
  exists k, retain sel l limit = Ok (take (Z.to_nat limit) k) /\ k ≡ₚ l /\ ordered_by encoded_key k.
Lemma ranked_row_agree r s g w sel :
  holds s g -> known 0 r -> s.2 < U64_MAX ->
  let c := {| source := 0; row := r; sequence := s.2; kind := INSERT |} in
  retains sel (candidates g ++ [c]) (retained_end e) ->
  exists g' events n, 
    ranked_row plan sources None None field_count r INSERT g w = (Ok g', push_events events (set_calls n w)) /\
    (forall w, ranked_row plan sources None (Some sel) field_count r INSERT g w = (Ok g', push_events events w)) /\
    holds (history_step plan INSERT (content 0 r) s) g' /\ next_sequence g' = s.2 + 1 /\ (forall d, d ∈ candidates g' -> d = c \/ d ∈ candidates g).
Proof.
  intros Hh Hkn Hmax c (k & Ek & Hp & Hord). pose proof Hrange as [Hrs Hre]. specialize (Hre e Hend).
  assert (strategy plan = 1 \/ strategy plan = 3) as Hs by auto.
  destruct (insert_holds plan sources field_count content skey known e s g c (comparator_calls w) Hh eq_refl Hkn) as (L & n & EL & HkL & HL).
  pose proof (insert_unique s g c _ L n k Hh eq_refl Hkn EL Hp Hord) as ->. pose proof (insert_sorted_perm _ _ _ _ _ _ _ EL) as HpL.
  set (g' := with_candidates (truncate (retained_end e) L) (with_sequence (s.2 + 1) g)).
  pose proof Hh as (Hok & Hn & Hkg & Hm).
  assert (holds (history_step plan INSERT (content 0 r) s) g') as Hh'.
  { split; [by apply history_step_ok|]. assert (retraction plan INSERT = false) as Hret by (unfold retraction; rewrite andb_comm; done).
    unfold history_step. rewrite Hret. cbn [fst snd]. split_and!; [done|by apply Forall_take|].
    cbn [g' candidates with_candidates]. unfold kept_ranks in *. rewrite Happend in *. change (1 =? 3) with false in *. cbn iota in *. unfold truncate. rewrite <- firstn_map. exact HL. }
  destruct (selected_ranks plan content skey known e Hrange Hend s g Hh) as (before & Eb & Hkb & _).
  destruct (selected_ranks plan content skey known e Hrange Hend _ g' Hh') as (after & Ea & Hka & _).
  destruct (emit_difference_total plan sources field_count content skey known before after Hkb Hka) as [events Ev].
  destruct (rb_columns c Hkn) as (b & f & Ebatch & _). cbn in Ebatch.
  assert (sequence_after s.2 = Ok (s.2 + 1)) as Hseq by (unfold sequence_after; by rewrite (proj2 (Z.leb_le _ _)) by lia).
  assert (forall sel w w1 l, 
    append_row plan sources None sel r INSERT e c g w = (Ok (with_candidates l (with_sequence (s.2 + 1) g)), w1) ->
    truncate (retained_end e) l = truncate (retained_end e) L ->
    ranked_row plan sources None sel field_count r INSERT g w = (Ok g', push_events events w1)) as Hrun.
  { intros sel' w0 w1 l Happ Htr. unfold ranked_row, group_rank_end. rewrite Hunbounded, Hend, Hlogical, (lift_run _ _ _ _ Ebatch), (proj2 (Z.leb_le e I64_MAX)) by lia.
    rewrite (M_bind_run _ _ w0 (e, g) w0 eq_refl), (M_bind_run _ (mret INSERT) w0 INSERT w0 eq_refl), (lift_run _ _ _ _ Eb), Hn. fold c.
    unfold strategy_row. rewrite Happend. cbn [strategy_of]. rewrite (M_bind_run _ _ _ _ _ Happ).
    rewrite (M_bind_run _ (truncate_row plan sources e _) w1 g' w1).
    2: { unfold truncate_row. rewrite Hunbounded, Happend. change (1 =? 3) with false. cbn [andb negb candidates with_candidates]. by rewrite Htr. }
    rewrite (M_bind_run _ _ w1 tt (push_events events w1)); [done|]. by rewrite (lift_run _ _ _ _ Ea), (lift_run _ _ _ _ Ev). }
  exists g', events, n. split_and!.
  - apply (Hrun None w _ L); [|done]. unfold append_row. rewrite Hlogical. rewrite (M_bind_run _ _ w tt w eq_refl), Hn, (lift_run _ _ _ _ Hseq).
    rewrite (M_bind_run _ _ _ _ _ (counted_run _ _ _ _ EL)). done.
  - intros w0. apply (Hrun (Some sel) w0 w0 (truncate (retained_end e) L)); [|unfold truncate; by rewrite take_take, Nat.min_id].
    unfold append_row. rewrite Hlogical. rewrite (M_bind_run _ _ w0 tt w0 eq_refl), Hn, (lift_run _ _ _ _ Hseq). unfold selection_insert. cbn [candidates with_sequence].
    by rewrite (lift_run _ _ _ _ Ek).
  - done.
  - done.
  - intros d Hd. cbn [g' candidates with_candidates] in Hd. assert (d ∈ L) as HdL by (eapply elem_of_sublist; [done|apply sublist_take]).
    rewrite HpL in HdL. by apply elem_of_cons in HdL.
Qed.

(** ** A batch *)

Context (kinds row_groups : list Z) (native : bool) (sel : Selection) (tokens : list CandidateRef).
Context (Hretains : forall l limit, NoDup l -> (forall c, c ∈ l -> c ∈ tokens) -> retains sel l limit).
(** Two works that differ in the number of comparisons. *)
Definition same_work (w w' : TopNWork) : Prop := exists n, w' = set_calls n w.
Definition work_ok (start : nat) (hs : list (list (C * Z) * Z)) (w : TopNWork) : Prop :=
  Forall2 holds hs (groups w) /\ (forall g c, g ∈ groups w -> c ∈ candidates g -> c ∈ tokens) /\
  exists rest, arrival_tokens (Z.of_nat start) (drop start row_groups) (map next_sequence (groups w)) = Ok rest /\ forall c, c ∈ rest -> c ∈ tokens.
Definition append_input (start : nat) (groups_len : nat) : Prop :=
  exists i, row_groups !! start = Some i /\ at_index kinds (Z.of_nat start) = Ok INSERT /\ 0 <= i /\ (Z.to_nat i < groups_len)%nat /\ known 0 (Z.of_nat start).

Definition row_done (r : Z) (before : list OutputEvent) (w : TopNWork) : TopNWork :=
  if native then push_triggers (repeat r (Z.to_nat (len (output w) - len before))) w else w.
Lemma row_done_groups r before w : groups (row_done r before w) = groups w.
Proof. unfold row_done. by destruct native. Qed.
Lemma process_row_agree start hs w w2 :
  work_ok start hs w -> Forall (fun s => s.2 < U64_MAX) hs -> append_input start (length (groups w)) -> same_work w w2 ->
  exists w' w2' hs', process_row plan sources kinds row_groups None None native field_count (Z.of_nat start) w = (Ok tt, w') /\
    process_row plan sources kinds row_groups None (Some sel) native field_count (Z.of_nat start) w2 = (Ok tt, w2') /\
    same_work w' w2' /\ work_ok (S start) hs' w' /\ length (groups w') = length (groups w) /\
    Forall2 (fun s s' => s'.2 <= s.2 + 1) hs hs'.
Proof.
  intros (Hhs & Hin & rest & Erest & Hrest) Hmax (i & Ei & Ek & Hi & Hlt & Hkn) [nc ->].
  destruct (lookup_lt_is_Some_2 (groups w) (Z.to_nat i) Hlt) as [g Hg].
  destruct (Forall2_lookup_r _ _ _ _ _ Hhs Hg) as (s & Hs & Hh). assert (s.2 < U64_MAX) as Hsm by (rewrite Forall_lookup in Hmax; eauto).
  pose proof Hh as (_ & Hn & _).
  rewrite (drop_S row_groups i start Ei) in Erest. cbn [arrival_tokens] in Erest.
  rewrite (proj2 (at_index_Ok (map next_sequence (groups w)) i s.2)) in Erest by (rewrite list_lookup_fmap, Hg, <- Hn; done). cbn [mbind outcome_bind] in Erest.
  unfold sequence_after in Erest. rewrite (proj2 (Z.leb_le (s.2 + 1) U64_MAX)) in Erest by lia. cbn [mbind outcome_bind] in Erest.
  apply outcome_bind_Ok in Erest as (rest' & Erest' & [= <-]). set (c := {| source := 0; row := Z.of_nat start; sequence := s.2; kind := INSERT |}) in *.
  destruct (ranked_row_agree (Z.of_nat start) s g w sel Hh Hkn Hsm) as (g' & events & n & E1 & E2 & Hh' & Hn' & Hsub).
  { apply Hretains.
    - apply (NoDup_fmap_1 sequence). change (sequence <$> ?l) with (map sequence l). rewrite map_app. cbn [map].
      rewrite Permutation_app_comm. simpl. apply NoDup_cons. split; [|by apply (holds_nodup s g)]. by apply (holds_fresh plan content skey known e s g c Hh).
    - intros d [Hd| ->%list_elem_of_singleton]%elem_of_app; [|apply Hrest; constructor]. apply (Hin g); [by eapply list_elem_of_lookup_2|done]. }
  exists (row_done (Z.of_nat start) (output w) (with_groups (<[Z.to_nat i := g']>) (push_events events (set_calls n w)))).
  exists (row_done (Z.of_nat start) (output w) (with_groups (<[Z.to_nat i := g']>) (push_events events (set_calls nc w)))).
  exists (<[Z.to_nat i := history_step plan INSERT (content 0 (Z.of_nat start)) s]> hs).
  assert (is_append_limit plan = false) as Hlimit by (unfold is_append_limit; rewrite bool_decide_false by apply rb_sorted; done).
  assert (at_index row_groups (Z.of_nat start) = Ok i) as Ei' by (apply at_index_Ok; rewrite Nat2Z.id; split; [lia|done]).
  assert (forall sel' w0 w1, groups w0 = groups w -> output w0 = output w ->
    ranked_row plan sources None sel' field_count (Z.of_nat start) INSERT g w0 = (Ok g', w1) ->
    process_row plan sources kinds row_groups None sel' native field_count (Z.of_nat start) w0 =
      (Ok tt, row_done (Z.of_nat start) (output w) (with_groups (<[Z.to_nat i := g']>) w1))) as Hrun.
  { intros sel' w0 w1 G0 O0 E. unfold process_row, group_at. rewrite Hlimit. rewrite (M_bind_run _ (gets _) w0 (len (output w0)) w0 eq_refl), (lift_run _ _ _ _ Ei').
    rewrite (M_bind_run _ _ w0 g w0).
    2: { rewrite (M_bind_run _ getS w0 w0 w0 eq_refl). unfold lift. rewrite G0. by rewrite (proj2 (at_index_Ok (groups w) i g)). }
    rewrite (lift_run _ _ _ _ Ek), (M_bind_run _ _ _ _ _ E), (M_bind_run _ _ w1 tt (with_groups (<[Z.to_nat i := g']>) w1) eq_refl), O0. unfold row_done. by destruct native. }
  split_and!.
  - by apply Hrun.
  - by apply Hrun.
  - exists nc. unfold row_done. by destruct native.
  - unfold work_ok. rewrite row_done_groups. cbn [groups with_groups push_events set_calls]. split_and!.
    + by apply Forall2_insert.
    + intros x d Hx Hd. apply elem_of_inserted in Hx as [->|Hx]; [|by eapply Hin]. destruct (Hsub d Hd) as [->|Hd']; [apply Hrest; constructor|].
      apply (Hin g); [by eapply list_elem_of_lookup_2|done].
    + exists rest'. split; [|intros d Hd; apply Hrest; by constructor]. rewrite list_fmap_insert, Hn'. replace (Z.of_nat (S start)) with (Z.of_nat start + 1) by lia. done.
  - rewrite row_done_groups. cbn. by rewrite length_insert.
  - apply Forall2_lookup. intros j. destruct (decide (j = Z.to_nat i)) as [->|Hne].
    + rewrite Hs, list_lookup_insert_eq by (by eapply lookup_lt_Some). constructor. apply history_step_next.
    + rewrite list_lookup_insert_ne by done. destruct (hs !! j); constructor. lia.
Qed.
Lemma rows_agree m start hs w w2 :
  work_ok start hs w -> Forall (fun s => s.2 + Z.of_nat m <= U64_MAX) hs -> (forall j, (j < m)%nat -> append_input (start + j) (length (groups w))) -> same_work w w2 ->
  exists w' w2', forM (map Z.of_nat (seq start m)) (process_row plan sources kinds row_groups None None native field_count) w = (Ok tt, w') /\
    forM (map Z.of_nat (seq start m)) (process_row plan sources kinds row_groups None (Some sel) native field_count) w2 = (Ok tt, w2') /\ same_work w' w2'.
Proof.
  revert start hs w w2. induction m as [|m IH]; intros start hs w w2 Hok Hmax Hin Hsame; [by exists w, w2|].
  destruct (process_row_agree start hs w w2 Hok) as (w1 & w3 & hs' & E1 & E2 & Hs' & Hok' & Hlen & Hhs); [|by rewrite <- (Nat.add_0_r start); apply Hin; lia|done|].
  { eapply Forall_impl; [done|]. simpl. lia. }
  destruct (IH (S start) hs' w1 w3 Hok') as (w' & w2' & F1 & F2 & Hs2); [|intros j Hj; rewrite Hlen, Nat.add_succ_l, <- Nat.add_succ_r; apply Hin; lia|done|].
  { apply Forall_lookup. intros j s' Hj. destruct (Forall2_lookup_r _ _ _ _ _ Hhs Hj) as (s0 & Hs0 & Hle). rewrite Forall_lookup in Hmax. specialize (Hmax _ _ Hs0). cbn in *. lia. }
  exists w', w2'. cbn [seq map forM]. by rewrite (M_bind_run _ _ _ _ _ E1), (M_bind_run _ _ _ _ _ E2).
Qed.
End rows.

(** ** The tokens of a batch *)

Lemma arrival_tokens_total r row_groups seqs :
  Forall (fun i => 0 <= i /\ (Z.to_nat i < length seqs)%nat) row_groups -> Forall (fun n => n + len row_groups <= U64_MAX) seqs ->
  exists l, arrival_tokens r row_groups seqs = Ok l /\ map loc l = map (fun j => (0, r + Z.of_nat j)) (seq 0 (length row_groups)).
Proof.
  revert r seqs. induction row_groups as [|i row_groups IH]; intros r seqs Hi Hs; [by exists []|]. apply Forall_cons in Hi as [[H0 Hlt] Hi].
  destruct (lookup_lt_is_Some_2 seqs (Z.to_nat i) Hlt) as [n Hn]. cbn [arrival_tokens]. rewrite (proj2 (at_index_Ok seqs i n)) by done. cbn [mbind outcome_bind].
  pose proof Hs as Hs'. rewrite Forall_lookup in Hs'. specialize (Hs' _ _ Hn). unfold len in *. simpl length in *.
  unfold sequence_after. rewrite (proj2 (Z.leb_le _ _)) by lia. cbn [mbind outcome_bind].
  destruct (IH (r + 1) (<[Z.to_nat i := n + 1]> seqs)) as (l & -> & Hl).
  - eapply Forall_impl; [done|]. intros j. simpl. by rewrite length_insert.
  - apply Forall_insert; [|lia]. eapply Forall_impl; [done|]. simpl. lia.
  - eexists. split; [done|]. cbn [map seq]. f_equal; [unfold loc; cbn; f_equal; lia|]. rewrite Hl, <- seq_shift, map_map. apply map_ext. intros j. f_equal. lia.
Qed.
End append.

(** C32: the DataFusion path of append-only Top-N agrees with sorted insertion: the
    priorities of a batch are computed, and processing the batch by retaining the
    best priorities ends with the same groups, the same changelog and the same
    triggering rows as processing it by sorted insertion, for any sort kernel
    that sorts. *)
Theorem top_n_append_kernel `{Arrow} `{SortLaws} (plan : TopNPlan) (sources : CandidateSources) (field_count : Z)
    {C K : Type} `{!EqDecision C} `{!Ord K} {HK : OrdLaws K} (content : Z -> Z -> C) (skey : C -> K) (known : Z -> Z -> Prop)
    {HR : RanksBy plan sources field_count content skey known}
    (e : Z) (o : list (list bytes)) (kinds row_groups : list Z) (native : bool) (hs : list (list (C * Z) * Z)) (w : TopNWork) :
  range_ok plan -> plan_rank_end plan = Some e -> append_compatible plan sources = true -> orders sources = Some o ->
  Forall2 (holds_history plan content skey known e) hs (groups w) -> Forall (fun s => s.2 + len row_groups <= U64_MAX) hs ->
  (forall r, (r < length row_groups)%nat -> append_input known kinds row_groups r (length (groups w))) ->
  NoDup (map loc (flat_map candidates (groups w))) ->
  (forall g c, g ∈ groups w -> c ∈ candidates g -> source c = 1) ->
  (forall s r, known s r -> exists b, at_index (batches sources) s = Ok b /\ 0 <= r < num_rows b) ->
  exists sel w1 w2, selection_new sources (groups w) row_groups = Ok sel /\
    process_rows plan sources kinds row_groups None None native field_count (len row_groups) w = (Ok tt, w1) /\
    process_rows plan sources kinds row_groups None (Some sel) native field_count (len row_groups) w = (Ok tt, w2) /\
    groups w2 = groups w1 /\ output w2 = output w1 /\ triggering_rows w2 = triggering_rows w1.
Proof.
  intros Hrange Hend Hcompat Ho Hhs Hmax Hin Hnd Hsrc Hbounds.
  unfold append_compatible in Hcompat. rewrite !andb_true_iff, !negb_true_iff, Z.eqb_eq in Hcompat. destruct Hcompat as [[[[[[[Hstrat _] _] _] Hb] Hphys] _] _].
  destruct (arrival_tokens_total 0 row_groups (map next_sequence (groups w))) as (arr & Earr & Hloc).
  { apply Forall_lookup. intros r i Hi. destruct (Hin r (lookup_lt_Some _ _ _ Hi)) as (i' & Hi' & _ & H0' & Hlt & _). simplify_eq. by rewrite length_map. }
  { apply Forall_lookup. intros j n Hj. rewrite list_lookup_fmap in Hj. apply fmap_Some in Hj as (g & Hg & ->). destruct (Forall2_lookup_r _ _ _ _ _ Hhs Hg) as (s & Hs & (_ & -> & _)).
    rewrite Forall_lookup in Hmax. by apply (Hmax j). }
  set (tokens := flat_map candidates (groups w) ++ arr).
  assert (forall c, c ∈ tokens -> known_candidate known c) as Hknown.
  { intros c [Hc|Hc]%elem_of_app.
    - apply list_elem_of_In, in_flat_map in Hc as (g & Hg%list_elem_of_In & Hc%list_elem_of_In). apply list_elem_of_lookup_1 in Hg as (j & Hj).
      destruct (Forall2_lookup_r _ _ _ _ _ Hhs Hj) as (s & _ & (_ & _ & Hk & _)). rewrite Forall_forall in Hk. by apply Hk.
    - assert (loc c ∈ map loc arr) as Hl by (apply list_elem_of_fmap; eauto). rewrite Hloc in Hl. apply list_elem_of_fmap in Hl as (j & E & Hj%elem_of_seq).
      destruct (Hin j) as (i & _ & _ & _ & _ & Hk); [lia|]. unfold known_candidate. unfold loc in E. injection E as -> ->. exact Hk. }
  destruct (selection_new_spec sources (groups w) row_groups o arr (encoded_key o) Ho Earr) as (sel & Esel & Hret).
  { intros c Hc. by apply (known_key plan sources field_count content skey known o Ho), Hknown. }
  { rewrite map_app. apply NoDup_app. split_and!; [done| |].
    - intros p (c & -> & Hc)%list_elem_of_fmap Hp. rewrite Hloc in Hp. apply list_elem_of_fmap in Hp as (j & E & _). unfold loc in E. injection E as E _.
      apply list_elem_of_In, in_flat_map in Hc as (g & Hg%list_elem_of_In & Hc%list_elem_of_In). rewrite (Hsrc g c Hg Hc) in E. done.
    - rewrite Hloc. apply NoDup_fmap; [|apply NoDup_seq]. intros x y [= E]. lia. }
  { apply Forall_forall. intros c Hc. destruct (Hbounds _ _ (Hknown c Hc)) as (b & [Hb0 Eb]%at_index_Ok & Hr). exists 0. apply priority_lookup.
    split_and!; [done|lia|]. eexists. rewrite list_lookup_fmap, Eb. split; [done|]. apply lookup_replicate_2. lia. }
  destruct (rows_agree plan sources field_count content skey known e Hrange Hend Hb Hstrat Hphys o Ho kinds row_groups native sel tokens Hret (length row_groups) 0 hs w w) as (w1 & w2 & E1 & E2 & [n ->]).
  - split_and!; [done| |].
    + intros g c Hg Hc. apply elem_of_app. left. apply list_elem_of_In, in_flat_map. exists g. split; by apply list_elem_of_In.
    + exists arr. split; [done|]. intros c Hc. apply elem_of_app. by right.
  - done.
  - intros j Hj. by apply Hin.
  - exists (comparator_calls w). by destruct w.
  - exists sel, w1, (set_calls n w1). unfold process_rows, len. rewrite Nat2Z.id. done.
Qed.
