(* ===== verification/TopNFixtures.v ===== *)
(** * A concrete Top-N *)

From Stdlib Require Import ZArith Lia Strings.Byte.
From stdpp Require Import base list option numbers strings sorting.
From S2P Require Import Prelude Bytes OrdMap Arrow ArrowFixture Aggregate TopNCompare TopNOrder TopN TopNChangelog TopNRows TopNSpec TopNKeys TopNKernels TopNAppend.

(** Two columns: a score that may be null and a name. *)
Definition sample_batch (scores : list (option Z)) (names : list (option bytes)) : cbatch :=
  {| crows := length scores; craw := [CInt scores; CBin names] |}.
Definition input_batch : cbatch :=
  sample_batch [Some 30; Some 10; None; Some 20; Some 10] [Some [x61]; Some [x62]; Some [x63]; Some [x64]; Some [x62]].
Definition restored_batch : cbatch := sample_batch [Some 25] [Some [x65]].
(** ORDER BY score NULLS LAST, rows 1 and 2. *)
Definition sample_plan (strategy : Z) : TopNPlan := {|
  partition_key_indices := []; sort_key_indices := [0]; sort_ascending := [true]; sort_nulls_last := [true];
  primary_key_indices := []; rank_start := 1; plan_rank_end := Some 2; variable_rank_end_index := None;
  output_rank_number := false; generate_update_before := true; TopN.strategy := strategy; has_schemas := true;
  state_ttl_millis := 0; plan_rank_type := 1; bounded_final_output := false; physical_input_semantics := false;
|}.
Example sample_plans_valid : validate_plan (sample_plan 1) 128 = Ok tt /\ validate_plan (sample_plan 3) 128 = Ok tt.
Proof. done. Qed.
Definition sample_sources : CandidateSources := {| batches := [input_batch; restored_batch]; orders := None |}.
Definition old_row : CandidateRef := {| source := 1; row := 0; sequence := 4; kind := INSERT |}.
Definition sample_work : TopNWork := {|
  groups := [{| next_sequence := 7; rank_end := None; candidates := [old_row] |}];
  output := []; triggering_rows := []; comparator_calls := 0; invalid_retractions := 0; invalid_top_sizes := 0;
|}.
Definition sample_groups : list Z := [0; 0; 0; 0; 0].
(** The last row retracts the second. *)
Definition sample_kinds : list Z := [INSERT; INSERT; INSERT; UPDATE_AFTER; DELETE].
Definition run_sample : outcome unit * TopNWork :=
  process_rows (sample_plan 3) sample_sources sample_kinds sample_groups None None true 2 5 sample_work.

(** The winners after each row: 25; 25 30; 10 25; 10 25; 10 20; 20 25. *)
Example sample_events :
  map (fun e => (row (candidate e), event_kind e)) (output run_sample.2) =
    [(0, INSERT); (0, DELETE); (1, INSERT); (0, DELETE); (3, INSERT); (1, DELETE); (0, INSERT)].
Proof. vm_compute. reflexivity. Qed.

Lemma sample_range k : range_ok (sample_plan k).
Proof. split; [split; vm_compute; congruence|]. intros e [= <-]. split; vm_compute; congruence. Qed.
Lemma sample_group_ok k : Forall (group_ok (sample_plan k)) (groups sample_work).
Proof.
  constructor; [|constructor]. split; [|done]. split_and!; [apply NoDup_singleton| |vm_compute; congruence].
  constructor; [|constructor]. split; vm_compute; congruence.
Qed.
(** LIMIT 2 OFFSET 8 after seven rows: the second and third row of the batch. *)
Definition limit_plan : TopNPlan := {|
  partition_key_indices := []; sort_key_indices := []; sort_ascending := []; sort_nulls_last := [];
  primary_key_indices := []; rank_start := 9; plan_rank_end := Some 10; variable_rank_end_index := None;
  output_rank_number := false; generate_update_before := false; TopN.strategy := 1; has_schemas := true;
  state_ttl_millis := 0; plan_rank_type := 1; bounded_final_output := false; physical_input_semantics := false;
|}.
Definition limit_work : TopNWork := with_groups (fun _ => [{| next_sequence := 7; rank_end := Some 0; candidates := [] |}]) sample_work.
Definition run_limit : outcome unit * TopNWork :=
  process_rows limit_plan sample_sources [INSERT; INSERT; INSERT; INSERT; INSERT] sample_groups None None false 2 5 limit_work.
Lemma limit_group_ok : Forall (group_ok limit_plan) (groups limit_work).
Proof. constructor; [|constructor]. split; [|vm_compute; split; congruence]. split_and!; [constructor|constructor|vm_compute; congruence]. Qed.
Lemma top_n_changelog_witness :
  (Forall (group_ok (sample_plan 3)) (groups run_sample.2) /\
   exists events, output run_sample.2 = output sample_work ++ events /\ table_steps (sample_plan 3) sample_sources (groups sample_work) events (groups run_sample.2) /\
     (generate_update_before (sample_plan 3) = true -> forall f, respects sample_sources f ->
       net f events = total_view (sample_plan 3) f (groups run_sample.2) - total_view (sample_plan 3) f (groups sample_work)) /\
     length (triggering_rows run_sample.2) = (0 + length events)%nat) /\
  output run_limit.2 = [numbered_row 7 1; numbered_row 7 2].
Proof.
  split.
  - apply (top_n_changelog (sample_plan 3) sample_sources sample_kinds sample_groups None None true 2 5 sample_work run_sample.2 (sample_range 3) eq_refl);
      [by intros s l limit l'|apply sample_group_ok|vm_compute; reflexivity|reflexivity].
  - destruct (top_n_changelog limit_plan sample_sources [INSERT; INSERT; INSERT; INSERT; INSERT] sample_groups None None false 2 5 limit_work run_limit.2) as [_ H];
      [split; [split; vm_compute; congruence|intros e [= <-]; split; vm_compute; congruence]|reflexivity|by intros s l limit l'|exact limit_group_ok|vm_compute; reflexivity|].
    destruct (H eq_refl {| next_sequence := 7; rank_end := Some 0; candidates := [] |} 10 eq_refl eq_refl ltac:(lia)) as (g' & _ & _ & _ & _ & O & _).
    rewrite O. vm_compute. reflexivity.
Defined.

Lemma sample_sorts k : plan_sorts (sample_plan k) 2.
Proof. split_and!; [done| |done..]. constructor; [lia|constructor]. Qed.
Lemma sample_typed o : sources_typed {| batches := [input_batch; restored_batch]; orders := o |} 2.
Proof.
  split; cbn [batches].
  - intros b [->|[->|?%elem_of_nil]%elem_of_cons]%elem_of_cons; done.
  - intros b c [->|[->|?%elem_of_nil]%elem_of_cons]%elem_of_cons [->|[->|?%elem_of_nil]%elem_of_cons]%elem_of_cons; done.
Qed.
Lemma sample_keyed o r : 0 <= r < 5 -> keyed_row {| batches := [input_batch; restored_batch]; orders := o |} 2 0 r.
Proof.
  intros Hr. exists input_batch.
  assert (r = 0 \/ r = 1 \/ r = 2 \/ r = 3 \/ r = 4) as [->|[->|[->|[->| ->]]]] by lia; (eexists; split; [reflexivity|]; split; [reflexivity|vm_compute; split; congruence]).
Qed.
Lemma old_keyed o : keyed_row {| batches := [input_batch; restored_batch]; orders := o |} 2 1 0.
Proof. exists restored_batch. eexists. split; [reflexivity|]. split; [reflexivity|vm_compute; split; congruence]. Qed.
(** The history of the restored group: one row, the others retracted before. *)
Definition old_history : list (list Key * Z) * Z := ([([KInt 25; KBytes [x65]], 4)], 7).
Lemma sample_holds k o : strategy (sample_plan k) = k ->
  holds_history (sample_plan k) (row_content {| batches := [input_batch; restored_batch]; orders := o |} 2) (sort_keys (sample_plan k)) (Ord0 := order_cmp (sort_order (sample_plan k)))
    (keyed_row {| batches := [input_batch; restored_batch]; orders := o |} 2) 2 old_history {| next_sequence := 7; rank_end := None; candidates := [old_row] |}.
Proof.
  intros _. split_and!.
  - split_and!; [repeat constructor|constructor; [split; vm_compute; congruence|constructor]|vm_compute; congruence].
  - done.
  - constructor; [apply old_keyed|constructor].
  - unfold kept_ranks. cbn [TopN.strategy sample_plan]. by destruct (k =? 3).
Qed.
Lemma no_orders k : orders_encode (sample_plan k) sample_sources 2.
Proof. by intros o. Qed.

Lemma top_n_selects_witness :
  exists w', process_rows (sample_plan 3) sample_sources sample_kinds sample_groups None None true 2 5 sample_work = (Ok tt, w') /\
    let hs' := fold_left (history_row (sample_plan 3) (row_content sample_sources 2) sample_kinds sample_groups) (map Z.of_nat (seq 0 5)) [old_history] in
    Forall2 (holds_history (sample_plan 3) (row_content sample_sources 2) (sort_keys (sample_plan 3)) (Ord0 := order_cmp (sort_order (sample_plan 3))) (keyed_row sample_sources 2) 2) hs' (groups w') /\
    Forall2 (fun s g => map (item_of (row_content sample_sources 2)) (group_selection (sample_plan 3) g) =
      drop 0 (take 2 (ranking (sort_keys (sample_plan 3)) (Ord0 := order_cmp (sort_order (sample_plan 3))) s.1))) hs' (groups w').
Proof.
  apply (@top_n_selects _ (sample_plan 3) sample_sources 2 _ _ _ (order_cmp (sort_order (sample_plan 3))) (order_laws _) (row_content sample_sources 2) (sort_keys (sample_plan 3)) (keyed_row sample_sources 2)
    (rows_ranked (sample_plan 3) sample_sources 2 (sample_sorts 3) (sample_typed None) (no_orders 3)) 2 sample_kinds sample_groups true 5 [old_history] sample_work (sample_range 3) eq_refl eq_refl);
    [by right|lia|constructor; [by apply (sample_holds 3 None)|constructor]|constructor; [vm_compute; congruence|constructor]|].
  intros r Hr. assert (r = 0 \/ r = 1 \/ r = 2 \/ r = 3 \/ r = 4) as Hc by lia. pose proof (sample_keyed None r Hr) as Hk.
  destruct Hc as [->|[->|[->|[->| ->]]]]; (eexists 0, _; split_and!; [reflexivity|reflexivity|lia|simpl; lia|split; vm_compute; [split; congruence|congruence]|exact Hk]).
Defined.
(** What is left and visible: 20 and the restored 25. *)
Example sample_view :
  map (fun s => drop 0 (take 2 (ranking (sort_keys (sample_plan 3)) (Ord0 := order_cmp (sort_order (sample_plan 3))) s.1)))
    (fold_left (history_row (sample_plan 3) (row_content sample_sources 2) sample_kinds sample_groups) (map Z.of_nat (seq 0 5)) [old_history]) =
  [[([KInt 20; KBytes [x64]], 10); ([KInt 25; KBytes [x65]], 4)]].
Proof. vm_compute. reflexivity. Qed.

Lemma flink_row_order_witness :
  compare_rows (H := fixture_arrow) input_batch 2 restored_batch 0 [(0, false, true); (1, true, false)] = Ok Gt /\
  compare_rows (H := fixture_arrow) restored_batch 0 input_batch 2 [(0, false, true); (1, true, false)] = Ok Lt /\
  equal_rows (H := fixture_arrow) input_batch 2 restored_batch 0 [0; 1] = Ok false /\
  row_has_nan (H := fixture_arrow) input_batch 2 [0; 1] = Ok false /\
  @OrdLaws (list Key) (order_cmp [(0, false, true); (1, true, false)]).
Proof.
  apply (@flink_row_order fixture_arrow _ input_batch restored_batch 2 0 [(0, false, true); (1, true, false)] [KNull; KBytes [x63]] [KInt 25; KBytes [x65]]);
    vm_compute; reflexivity.
Defined.

(** ** A sort kernel *)

#[global] Instance fixture_sort : SortKernel := {|
  sort_tokens := fun l => Ok (merge_sort ole l);
  sort_keyed := fun l => Ok (merge_sort ole l);
  sort_priorities := fun l n => Ok (take (Z.to_nat n) (merge_sort Z.le l));
  running_minimum := fun l => Ok (map (fun i => foldr Z.min (default 0 (l !! i)) (take i l)) (seq 0 (length l)));
|}.
#[global] Instance fixture_sort_laws : @SortLaws fixture_sort.
Proof.
  split; [| | |done].
  - intros l. eexists. split; [done|]. split; [apply merge_sort_Permutation|apply ole_sorted].
  - intros l. eexists. split; [done|]. split; [apply merge_sort_Permutation|apply ole_sorted].
  - intros l n. eexists. split; [done|]. split; [apply merge_sort_Permutation|apply (StronglySorted_merge_sort Z.le)].
Qed.

(** The encoded scores. *)
Definition sample_orders : list (list bytes) := [[[x1e]; [x0a]; [xff]; [x14]; [x0a]]; [[x19]]].
Definition encoded_sources : CandidateSources := {| batches := [input_batch; restored_batch]; orders := Some sample_orders |}.
Lemma keyed_cases s r : keyed_row encoded_sources 2 s r -> (s, r) ∈ [(0, 0); (0, 1); (0, 2); (0, 3); (0, 4); (1, 0)].
Proof.
  intros (b & l & [H0 Eb]%at_index_Ok & _ & Hr). cbn [batches encoded_sources] in Eb.
  destruct (Z.to_nat s) as [|[|n]] eqn:Es; cbn in Eb; [injection Eb as <-|injection Eb as <-|done].
  - assert (s = 0) as -> by lia. change (num_rows (Arrow := fixture_arrow) input_batch) with 5 in Hr.
    assert (r = 0 \/ r = 1 \/ r = 2 \/ r = 3 \/ r = 4) as [->|[->|[->|[->| ->]]]] by lia; repeat constructor.
  - assert (s = 1) as -> by lia. change (num_rows (Arrow := fixture_arrow) restored_batch) with 1 in Hr. assert (r = 0) as -> by lia. repeat constructor.
Qed.
Definition encodes_pair (x y : Z * Z) : bool :=
  match at_index sample_orders x.1, at_index sample_orders y.1, at_index (batches encoded_sources) x.1, at_index (batches encoded_sources) y.1 with
  | Ok us, Ok vs, Ok lb, Ok rb =>
      match at_index us x.2, at_index vs y.2, compare_rows lb x.2 rb y.2 (sort_order (sample_plan 1)) with
      | Ok u, Ok v, Ok c => bool_decide (c = bytes_cmp u v)
      | _, _, _ => false
      end
  | _, _, _, _ => false
  end.
Lemma sample_encode : orders_encode (sample_plan 1) encoded_sources 2.
Proof.
  intros o [= <-] l r Hl%keyed_cases Hr%keyed_cases.
  assert (forallb (fun x => forallb (encodes_pair x) [(0, 0); (0, 1); (0, 2); (0, 3); (0, 4); (1, 0)]) [(0, 0); (0, 1); (0, 2); (0, 3); (0, 4); (1, 0)] = true) as Hall by (vm_compute; reflexivity).
  rewrite forallb_forall in Hall. specialize (Hall _ (proj1 (list_elem_of_In _ _) Hl)). rewrite forallb_forall in Hall. specialize (Hall _ (proj1 (list_elem_of_In _ _) Hr)).
  unfold encodes_pair in Hall. unfold order_row. cbn [fst snd] in Hall.
  destruct (at_index sample_orders (source l)) as [us| |] eqn:E1; [|done..]. destruct (at_index sample_orders (source r)) as [vs| |] eqn:E2; [|done..].
  destruct (at_index (batches encoded_sources) (source l)) as [lb| |] eqn:E3; [|done..]. destruct (at_index (batches encoded_sources) (source r)) as [rb| |] eqn:E4; [|done..].
  cbn [mbind outcome_bind]. destruct (at_index us (row l)) as [u| |] eqn:E5; [|done..]. destruct (at_index vs (row r)) as [v| |] eqn:E6; [|done..].
  destruct (compare_rows lb (row l) rb (row r) _) as [c| |] eqn:E7; [|done..]. apply bool_decide_eq_true in Hall as ->.
  exists u, v. split_and!; [done..|]. intros ? ? [= <-] [= <-]. exact E7.
Qed.
Lemma top_n_append_kernel_witness :
  exists sel w1 w2, selection_new encoded_sources (groups sample_work) sample_groups = Ok sel /\
    process_rows (sample_plan 1) encoded_sources [INSERT; INSERT; INSERT; INSERT; INSERT] sample_groups None None true 2 5 sample_work = (Ok tt, w1) /\
    process_rows (sample_plan 1) encoded_sources [INSERT; INSERT; INSERT; INSERT; INSERT] sample_groups None (Some sel) true 2 5 sample_work = (Ok tt, w2) /\
    groups w2 = groups w1 /\ output w2 = output w1 /\ triggering_rows w2 = triggering_rows w1.
Proof.
  apply (@top_n_append_kernel fixture_arrow _ fixture_sort_laws (sample_plan 1) encoded_sources 2 _ _ _ (order_cmp (sort_order (sample_plan 1))) (order_laws _)
    (row_content encoded_sources 2) (sort_keys (sample_plan 1)) (keyed_row encoded_sources 2)
    (rows_ranked (sample_plan 1) encoded_sources 2 (sample_sorts 1) (sample_typed (Some sample_orders)) sample_encode)
    2 sample_orders [INSERT; INSERT; INSERT; INSERT; INSERT] sample_groups true [old_history] sample_work (sample_range 1) eq_refl eq_refl eq_refl).
  - constructor; [by apply (sample_holds 1 (Some sample_orders))|constructor].
  - constructor; [vm_compute; congruence|constructor].
  - intros r Hr. assert (keyed_row encoded_sources 2 0 (Z.of_nat r)) as Hk by (apply (sample_keyed (Some sample_orders)); simpl in Hr; lia).
    do 5 (destruct r as [|r]; [exists 0; split_and!; [done|done|done|simpl; lia|exact Hk]|]). simpl in Hr. lia.
  - apply NoDup_singleton.
  - intros g c [->|?%elem_of_nil]%elem_of_cons; [|done]. intros [->|?%elem_of_nil]%elem_of_cons; done.
  - intros s r (b & l & Eb & _ & Hr). by exists b.
Defined.
