(* ===== verification/ChangelogNormalize.v ===== *)
(** * Normalised changelogs: [operators/changelog_normalize.rs]

    The keyed operator that turns upserts and partial changelogs into a regular
    changelog, with an optional filter and a time to live. The rows of a batch share
    one decoded value per key; the touched ones are written back. *)

From Stdlib Require Import ZArith Lia Strings.Byte.
From stdpp Require Import base list option numbers strings.
From S2P Require Import Prelude Bytes OrdMap MemoryPool OrderedState KeyedState KeyGroup Arrow Envelope BinaryRow Routing TopNCompare Deduplicate.

(** The plan message; [None] stands for a missing schema. *)
Record ChangelogNormalize : Type := {
  n_key_indices : list Z;
  n_generate_update_before : bool;
  n_schema : option (list Field);
  state_ttl_millis : Z;
  has_filter : bool;
}.
Definition n_validate_plan (plan : ChangelogNormalize) (max_parallelism : Z) : outcome unit :=
  guard_ok (negb ((max_parallelism =? 0) || bool_decide (n_key_indices plan = []) || bool_decide (n_schema plan = None)))
    (Plan "changelog normalize key/schema contract is invalid").

(** ** Stored rows *)

Record StoredRow : Type := { expires_at : Z; srow : bytes }.
Definition NORMALIZE_MAGIC : bytes := [x53; x46; x4e; x43].
Definition NORMALIZE_VERSION : byte := x01.
Definition expiration (now_millis ttl_millis : Z) : Z :=
  if ttl_millis =? 0 then I64_MAX else i64_sat (now_millis + (if ttl_millis <=? I64_MAX then ttl_millis else I64_MAX)).
Definition encode_stored (value : StoredRow) : bytes :=
  NORMALIZE_MAGIC ++ [NORMALIZE_VERSION] ++ i64_le (expires_at value) ++ u32_le (wrapu 32 (len (srow value))) ++ srow value.
Definition decode_stored (bs : bytes) : outcome StoredRow :=
  if (len bs <? 17) || negb (bool_decide (take 4 bs = NORMALIZE_MAGIC)) || negb (bool_decide (bs !! 4%nat = Some NORMALIZE_VERSION))
  then Err (Execution "invalid native changelog normalize state")
  else
    let length := of_le (take 4 (drop 13 bs)) in
    if negb (len bs =? sat_add 17 length) then Err (Execution "native changelog normalize state length is invalid")
    else Ok {| expires_at := i64_of_le (take 8 (drop 5 bs)); srow := drop 17 bs |}.

(** ** Rows *)

Record StagedValue : Type := { sv_key : Z * vec; sv_value : option StoredRow; touched : bool }.
Record OutputRow : Type := { out_row : bytes; out_kind : Z; input_ordinal : Z }.
Definition set_value (v : option StoredRow) (e : StagedValue) : StagedValue := {| sv_key := sv_key e; sv_value := v; touched := true |}.

(** [unique.entry(key).or_insert(unique.len())]: keys in the order of their indices. *)
Fixpoint find_key (key : StateKeyRef) (keys : list (Z * vec)) : option nat :=
  match keys with
  | [] => None
  | k :: keys => if decide (key_ref k = key) then Some O else option_map S (find_key key keys)
  end.
Fixpoint index_keys (rows : list (Z * vec)) (unique : list (Z * vec)) (indices : list Z) : list (Z * vec) * list Z :=
  match rows with
  | [] => (unique, indices)
  | key :: rows =>
      match find_key (key_ref key) unique with
      | Some i => index_keys rows unique (indices ++ [Z.of_nat i])
      | None => index_keys rows (unique ++ [key]) (indices ++ [len unique])
      end
  end.
Fixpoint stage_keys (keys : list (Z * vec)) (existing : list (option bytes)) : outcome (list StagedValue) :=
  match keys, existing with
  | key :: keys, value :: existing =>
      v ← transpose (option_map decode_stored value);
      staged ← stage_keys keys existing;
      Ok ({| sv_key := key; sv_value := v; touched := false |} :: staged)
  | _, _ => Ok []
  end.

Section row.
Context (plan : ChangelogNormalize) (now_millis : Z).

(** A value that has expired is dropped before the row looks at it. *)
Definition is_expired (e : StagedValue) : bool := match sv_value e with Some v => expires_at v <=? now_millis | None => false end.
Definition expire (e : StagedValue) : StagedValue := if is_expired e then set_value None e else e.
Definition emitted (row : bytes) (kind ordinal : Z) : OutputRow := {| out_row := row; out_kind := kind; input_ordinal := ordinal |}.
Definition stored_now (row : bytes) : StoredRow := {| expires_at := expiration now_millis (state_ttl_millis plan); srow := row |}.
Definition change_entry (kind ordinal : Z) (current : bytes) (passes : bool) (equal : bytes -> outcome bool) (e : StagedValue) : outcome (StagedValue * list OutputRow) :=
  if (kind =? INSERT) || (kind =? UPDATE_AFTER) then
    match sv_value e with
    | None => if passes then Ok (set_value (Some (stored_now current)) e, [emitted current INSERT ordinal]) else Ok (e, [])
    | Some previous =>
        same ← (if state_ttl_millis plan =? 0 then equal (srow previous) else Ok false);
        if same : bool then Ok (e, [])
        else if passes then
          Ok (set_value (Some (stored_now current)) e,
              (if n_generate_update_before plan then [emitted (srow previous) UPDATE_BEFORE ordinal] else []) ++ [emitted current UPDATE_AFTER ordinal])
        else Ok (set_value None e, [emitted (srow previous) DELETE ordinal])
    end
  else if (kind =? UPDATE_BEFORE) || (kind =? DELETE) then
    match sv_value e with
    | Some previous => Ok (set_value None e, [emitted (srow previous) DELETE ordinal])
    | None => Ok (e, [])
    end
  else Err (Execution "unknown Flink RowKind byte").

(** The state of the loop is the counter of expired entries. *)
Context (encoded : list bytes) (kinds : Z -> outcome Z) (passes : Z -> outcome bool) (equal : Z -> bytes -> bytes -> outcome bool) (indices : list Z).
Definition n_ordinal (row : Z) : outcome Z :=
  if row <=? I32_MAX then Ok row else Err (Execution "changelog normalize batch exceeds Int32 indexing").
Definition count_u64 (n : Z) : Z := Z.min (n + 1) U64_MAX.
Definition normalize_row (row : Z) (w : list StagedValue * list OutputRow) : M Z (list StagedValue * list OutputRow) :=
  let '(staged, output) := w in
  ordinal ← lift (n_ordinal row);
  i ← lift (at_index indices row);
  entry ← lift (at_index staged i);
  _ ← (if is_expired entry then modS count_u64 else mret tt);
  current ← lift (at_index encoded row);
  pass ← lift (passes row);
  kind ← lift (kinds row);
  '(entry, rows) ← lift (change_entry kind ordinal current pass (equal row current) (expire entry));
  staged ← lift (set_index staged i entry);
  mret (staged, output ++ rows).
Fixpoint normalize_rows (rows : list Z) (w : list StagedValue * list OutputRow) : M Z (list StagedValue * list OutputRow) :=
  match rows with
  | [] => mret w
  | row :: rows => w ← normalize_row row w; normalize_rows rows w
  end.
End row.
Definition touched_mutations (staged : list StagedValue) : list StateMutation :=
  map (fun e => key_mutation (sv_key e) (option_map (fun v => to_vec (encode_stored v)) (sv_value e))) (List.filter touched staged).

(** ** The processor *)

(** Rows of a converter back to columns, columns to a batch, and their sizes. *)
Class RowParsers `{RowConverters} : Type := {
  convert_rows : RowConverter -> list bytes -> outcome (list Array);
  batch_try_new : list Field -> list Array -> outcome Batch;
  field_new : string -> DataType -> bool -> Field;
  batch_new_empty : list Field -> Batch;
  int8_array : list Z -> Array;
  int32_array : list Z -> Array;
  get_array_memory_size : Array -> Z;
}.
(** Types whose values are not equal exactly when their encodings are. *)
Fixpoint requires_semantic_equality (t : DataType) : bool :=
  match t with
  | DFloat32 | DFloat64 | DMap _ => true
  | DList item | DLargeList item | DFixedSizeList item _ => requires_semantic_equality item
  | DStruct fields => existsb requires_semantic_equality fields
  | _ => false
  end.
Section processor.
Context `{ArrowSchema} `{!RowConverters} `{!RowParsers}.
Context {St B : Type} `{Broker B} `{!KeyedState St B}.
Context (key_capacity : bytes -> Z).

Record ChangelogNormalizeProcessor : Type := {
  n_plan : ChangelogNormalize;
  n_max_parallelism : Z;
  n_state : St;
  visible_schema : list Field;
  n_output_schema : list Field;
  n_converter : RowConverter;
  requires_semantic_equalizer : bool;
  n_input_schema : option (list Field);
  n_key_fields : list (Z * KeyField);
  n_preencoded_index : option Z;
  n_kind_index : option Z;
  filter_result_index : option Z;
  n_scratch : resv;
  state_read_batches : Z;
  state_write_batches : Z;
  expired_state_entries : Z;
}.
Implicit Types p : ChangelogNormalizeProcessor.
Abbreviation NM := (M (ChangelogNormalizeProcessor * B)).

Definition with_state_counters (s : St) (reads writes expired : Z) p : ChangelogNormalizeProcessor :=
  {| n_plan := n_plan p; n_max_parallelism := n_max_parallelism p; n_state := s; visible_schema := visible_schema p; n_output_schema := n_output_schema p; n_converter := n_converter p;
     requires_semantic_equalizer := requires_semantic_equalizer p; n_input_schema := n_input_schema p; n_key_fields := n_key_fields p;
     n_preencoded_index := n_preencoded_index p; n_kind_index := n_kind_index p; filter_result_index := filter_result_index p; n_scratch := n_scratch p;
     state_read_batches := reads; state_write_batches := writes; expired_state_entries := expired |}.
Definition set_n_state (s : St) p := with_state_counters s (state_read_batches p) (state_write_batches p) (expired_state_entries p) p.
Definition set_reads (n : Z) p := with_state_counters (n_state p) n (state_write_batches p) (expired_state_entries p) p.
Definition set_writes (n : Z) p := with_state_counters (n_state p) (state_read_batches p) n (expired_state_entries p) p.
Definition set_expired (n : Z) p := with_state_counters (n_state p) (state_read_batches p) (state_write_batches p) n p.
Definition with_schema (schema : option (list Field)) (keys : list (Z * KeyField)) (pre kind filter : option Z) p : ChangelogNormalizeProcessor :=
  {| n_plan := n_plan p; n_max_parallelism := n_max_parallelism p; n_state := n_state p; visible_schema := visible_schema p; n_output_schema := n_output_schema p; n_converter := n_converter p;
     requires_semantic_equalizer := requires_semantic_equalizer p; n_input_schema := schema; n_key_fields := keys;
     n_preencoded_index := pre; n_kind_index := kind; filter_result_index := filter; n_scratch := n_scratch p;
     state_read_batches := state_read_batches p; state_write_batches := state_write_batches p; expired_state_entries := expired_state_entries p |}.
Definition set_n_scratch (r : resv) p : ChangelogNormalizeProcessor :=
  {| n_plan := n_plan p; n_max_parallelism := n_max_parallelism p; n_state := n_state p; visible_schema := visible_schema p; n_output_schema := n_output_schema p; n_converter := n_converter p;
     requires_semantic_equalizer := requires_semantic_equalizer p; n_input_schema := n_input_schema p; n_key_fields := n_key_fields p;
     n_preencoded_index := n_preencoded_index p; n_kind_index := n_kind_index p; filter_result_index := filter_result_index p; n_scratch := r;
     state_read_batches := state_read_batches p; state_write_batches := state_write_batches p; expired_state_entries := expired_state_entries p |}.

(** The visible columns, then the kind and the row each output row comes from. *)
Definition with_row_columns (visible : list Field) : list Field :=
  visible ++ [field_new ROW_KIND DInt8 false; field_new INPUT_ROW DInt32 false].
(** The processor of a decoded plan. *)
Definition n_with_state (plan : ChangelogNormalize) (max_parallelism : Z) (s : St) (scratch : resv) : outcome ChangelogNormalizeProcessor :=
  _ ← n_validate_plan plan max_parallelism;
  visible ← expect (ok_or no_visible (n_schema plan));
  converter ← converter_new (map field_type visible);
  Ok {| n_plan := plan; n_max_parallelism := max_parallelism; n_state := s; visible_schema := visible; n_output_schema := with_row_columns visible; n_converter := converter;
        requires_semantic_equalizer := existsb (fun f => requires_semantic_equality (field_type f)) visible; n_input_schema := None; n_key_fields := [];
        n_preencoded_index := None; n_kind_index := None; filter_result_index := None; n_scratch := scratch;
        state_read_batches := 0; state_write_batches := 0; expired_state_entries := 0 |}.

(** *** The schema *)

Definition n_schema_key (fields : list Field) (index : Z) : outcome (Z * KeyField) :=
  f ← ok_or (SchemaError "changelog normalize key is outside the visible row") (if 0 <=? index then fields !! Z.to_nat index else None);
  kind ← from_arrow_type (field_type f);
  Ok (index, kind).
Fixpoint types_differ (actual expected : list Field) : bool :=
  match actual, expected with
  | a :: actual, e :: expected => negb (bool_decide (field_type a = field_type e)) || types_differ actual expected
  | _, _ => false
  end.
(** The indices are assigned before the checks; a refused schema leaves them. *)
Definition check_schema p (fields : list Field) : outcome (list (Z * KeyField)) :=
  _ ← guard_ok (negb (bool_decide (n_kind_index p = None))) (Execution "changelog normalize requires RowKind metadata");
  _ ← guard_ok (Bool.eqb (has_filter (n_plan p)) (bool_decide (is_Some (filter_result_index p)))) (Execution "changelog normalize filter metadata does not match its plan");
  visible ← expect (ok_or no_visible (flatten_min [n_preencoded_index p; n_kind_index p; filter_result_index p; Some (len fields)]));
  _ ← (if visible <=? len fields then
         guard_ok (negb (negb (visible =? len (visible_schema p)) || types_differ (take (Z.to_nat visible) fields) (visible_schema p)))
           (Execution "changelog normalize Arrow schema does not match its protobuf schema")
       else Panic);
  match n_preencoded_index p with
  | None => collect (n_schema_key fields) (n_key_indices (n_plan p))
  | Some _ => Ok (n_key_fields p)
  end.
Definition n_prepare_schema (batch : Batch) : NM unit := fun '(p, b) =>
  match n_input_schema p with
  | Some expected =>
      if decide (expected = batch_schema batch) then (Ok tt, (p, b))
      else (Err (Execution "changelog normalize input schema changed while running"), (p, b))
  | None =>
      let fields := batch_schema batch in
      let pre := position (has_name "__streamfusion_key") fields in
      let kind := position (has_name "__streamfusion_input_row_kind") fields in
      let filter := position (has_name "__streamfusion_filter_result") fields in
      let p := with_schema None (n_key_fields p) pre kind filter p in
      match check_schema p fields with
      | Ok keys => (Ok tt, (with_schema (Some fields) keys pre kind filter p, b))
      | Err e => (Err e, (p, b))
      | Panic => (Panic, (p, b))
      end
  end.

(** *** Columns *)

Definition n_kinds p (batch : Batch) : outcome (Z -> outcome Z) :=
  i ← expect (ok_or no_visible (n_kind_index p));
  a ← column batch i;
  v ← ok_or (Execution "changelog normalize RowKinds are not Int8") (as_fixed Int8Array a);
  Ok (fun row => if (0 <=? row) && (row <? array_len a) then Ok (v row) else Panic).
Definition n_filters p (batch : Batch) : outcome (Z -> outcome bool) :=
  match filter_result_index p with
  | None => Ok (fun _ => Ok true)
  | Some i =>
      a ← column batch i;
      v ← ok_or (Execution "changelog normalize filter results are not Boolean") (as_fixed BooleanArray a);
      Ok (fun row => if (0 <=? row) && (row <? array_len a) then Ok (negb (is_null a row) && (v row =? 1)) else Panic)
  end.
Definition n_state_key p (batch : Batch) (row : Z) : outcome vec :=
  match n_preencoded_index p with
  | Some i =>
      a ← column batch i;
      v ← ok_or (not_binary "changelog normalize preencoded keys are not Binary") (as_bytes BinaryArray a);
      k ← binary_value v a row;
      Ok (to_vec k)
  | None => k ← encode_binary_row batch row (n_key_fields p); Ok {| vdata := k; vcap := key_capacity k |}
  end.
Definition n_row_key p (batch : Batch) (row : Z) : outcome (Z * vec) :=
  key ← n_state_key p batch row;
  kg ← assign_key_group (vdata key) (n_max_parallelism p);
  Ok (kg, key).
Definition n_keys p (batch : Batch) : outcome (list (Z * vec)) := collect (n_row_key p batch) (rows_of_batch batch).
Definition rows_equal p (batch : Batch) (row : Z) (current previous : bytes) : outcome bool :=
  if negb (requires_semantic_equalizer p) then Ok (bool_decide (current = previous))
  else
    columns ← convert_rows (n_converter p) [previous];
    old ← batch_try_new (visible_schema p) columns;
    record_equaliser_rows batch row old 0 (row_numbers (len (visible_schema p))).

(** *** A batch *)

Definition on_expired {A} (m : M Z A) : NM A := fun '(p, b) => let '(o, n) := m (expired_state_entries p) in (o, (set_expired n p, b)).
Definition write_touched (mutations : list StateMutation) : NM unit :=
  if bool_decide (mutations = []) then mret tt
  else
    _ ← zoom n_state set_n_state (ks_write_batch mutations);
    modS (fun '(p, b) => (set_writes (count_u64 (state_write_batches p)) p, b)).
Definition output_batch p (rows : list OutputRow) : outcome Batch :=
  decoded ← convert_rows (n_converter p) (map out_row rows);
  batch_try_new (n_output_schema p) (decoded ++ [int8_array (map out_kind rows); int32_array (map input_ordinal rows)]).
Definition empty_output p : Batch := batch_new_empty (n_output_schema p).
(** The reads go with the iterator that decodes them; the workspace lives to the end. *)
Definition process_accounted (batch : Batch) (encoded : list bytes) (now_millis : Z) : NM Batch :=
  p ← gets fst;
  kinds ← lift (n_kinds p batch);
  filters ← lift (n_filters p batch);
  keys ← lift (n_keys p batch);
  let '(unique, indices) := index_keys keys [] [] in
  if bool_decide (unique = []) then mret (empty_output p)
  else
    '(reads, workspace) ← on_broker (load (n_state p) (n_scratch p) (map key_ref unique));
    _ ← modS (fun '(p, b) => (set_reads (count_u64 (state_read_batches p)) p, b));
    let decoded := stage_keys unique (rb_values reads) in
    _ ← on_broker (host_drop (rb_reservation reads));
    staged ← or_fail (lift decoded) [workspace];
    '(staged, output) ← or_fail (on_expired (normalize_rows (n_plan p) now_millis encoded kinds filters (rows_equal p batch) indices (rows_of_batch batch) (staged, []))) [workspace];
    _ ← or_fail (write_touched (touched_mutations staged)) [workspace];
    result ← or_fail (lift (output_batch p output)) [workspace];
    _ ← on_broker (host_drop workspace);
    mret result.
(** [get_array_memory_size().sum::<usize>()]. *)
Definition memory_size (arrays : list Array) : Z := wrapu 64 (zsum get_array_memory_size arrays).
Abbreviation scratch := (zoom n_scratch set_n_scratch).
(** The output batch is paid for from the scratch memory and takes it along. *)
Definition finish_output (output : Batch) (base : Z) : NM Batch :=
  let output_bytes := memory_size (columns output) in
  _ ← scratch (resize (Z.max output_bytes base));
  _ ← scratch (transfer_to_arrow output_bytes);
  _ ← scratch (resize 0);
  mret output.
Definition finish_result (m : NM Batch) (base : Z) : NM Batch := fun pb =>
  match m pb with
  | (Ok output, pb) => finish_output output base pb
  | (Err e, pb) => (_ ← scratch (resize 0); throw e) pb
  | (Panic, pb) => (Panic, pb)
  end.
Definition process_arrow (batch : Batch) (now_millis : Z) : NM Batch :=
  _ ← n_prepare_schema batch;
  p ← gets fst;
  visible ← lift (if len (visible_schema p) <=? num_columns batch then Ok (take (Z.to_nat (len (visible_schema p))) (columns batch)) else Panic);
  let base := sat_add (memory_size visible) (sat_mul (num_rows batch) 192) in
  _ ← scratch (resize base);
  finish_result (encoded ← lift (convert_columns (n_converter p) visible); process_accounted batch encoded now_millis) base.
End processor.
