(* ===== verification/ChangelogNormalizeSpec.v ===== *)
(** * Normalising a batch

    The stored form round-trips; a batch with one decoded value per key is its rows
    one after another, each reading and writing the stored value of its key; and the
    output is a changelog of the live rows. *)

From Stdlib Require Import ZArith Lia Strings.Byte.
From stdpp Require Import base list option numbers strings.
From S2P Require Import Prelude Bytes OrdMap MemoryPool OrderedState OrderedWrites KeyedState Restore KeyGroup Arrow Envelope BinaryRow BinaryRowSafe Routing RoutingSpec Deduplicate DeduplicateStaging DeduplicateBatch DeduplicateMeaning ChangelogNormalize.

(** ** The codec *)

Definition stored_ok (v : StoredRow) : Prop := is_i64 (expires_at v) /\ len (srow v) <= U32_MAX.
Lemma encode_stored_len v : len (encode_stored v) = 17 + len (srow v).
Proof. unfold encode_stored, len. rewrite !length_app, i64_le_length, u32_le_length. cbn. lia. Qed.
Lemma decode_encode_stored v : stored_ok v -> decode_stored (encode_stored v) = Ok v.
Proof.
  intros [Hi Hl]. unfold decode_stored. rewrite encode_stored_len. pose proof (len_nonneg (srow v)) as H0. rewrite (proj2 (Z.ltb_ge _ _)) by lia. cbn [orb].
  unfold encode_stored. set (rest := i64_le (expires_at v) ++ u32_le (wrapu 32 (len (srow v))) ++ srow v).
  change (take 4 (NORMALIZE_MAGIC ++ [NORMALIZE_VERSION] ++ rest)) with NORMALIZE_MAGIC. change ((NORMALIZE_MAGIC ++ [NORMALIZE_VERSION] ++ rest) !! 4%nat) with (Some NORMALIZE_VERSION).
  rewrite !bool_decide_eq_true_2 by done. cbn [negb orb].
  change (drop 13 (NORMALIZE_MAGIC ++ [NORMALIZE_VERSION] ++ rest)) with (drop 8 rest). change (drop 17 (NORMALIZE_MAGIC ++ [NORMALIZE_VERSION] ++ rest)) with (drop 12 rest).
  change (drop 5 (NORMALIZE_MAGIC ++ [NORMALIZE_VERSION] ++ rest)) with rest. unfold rest.
  assert (drop 8 (i64_le (expires_at v) ++ u32_le (wrapu 32 (len (srow v))) ++ srow v) = u32_le (wrapu 32 (len (srow v))) ++ srow v) as -> by (apply drop_app_length'; by rewrite i64_le_length).
  assert (take 4 (u32_le (wrapu 32 (len (srow v))) ++ srow v) = u32_le (wrapu 32 (len (srow v)))) as -> by (apply take_app_length'; by rewrite u32_le_length).
  assert (wrapu 32 (len (srow v)) = len (srow v)) as Hw by (unfold wrapu; apply Z.mod_small; unfold U32_MAX in Hl; lia).
  rewrite Hw, of_u32_le by (unfold is_u32; lia). rewrite (proj2 (Z.eqb_eq _ _)) by (unfold sat_add, U32_MAX in *; unfold_bounds; lia). cbn [negb].
  assert (take 8 (i64_le (expires_at v) ++ u32_le (len (srow v)) ++ srow v) = i64_le (expires_at v)) as -> by (apply take_app_length'; by rewrite i64_le_length).
  rewrite i64_of_i64_le by done. rewrite app_assoc. rewrite drop_app_length' by (by rewrite length_app, i64_le_length, u32_le_length). by destruct v.
Qed.
Lemma stored_no_panic bs : decode_stored bs <> Panic.
Proof. unfold decode_stored. destruct (_ || _ || _); [done|]. by destruct (negb _). Qed.

(** ** Keys of a batch *)

Lemma find_key_Some key keys i : find_key key keys = Some i -> exists k, keys !! i = Some k /\ key_ref k = key.
Proof.
  revert i. induction keys as [|k keys IH]; intros i; cbn [find_key]; [done|]. destruct (decide (key_ref k = key)) as [E|]; [intros [= <-]; by exists k|].
  destruct (find_key key keys) as [j|]; [|done]. cbn. intros [= <-]. by apply IH.
Qed.
Lemma find_key_None key keys : find_key key keys = None -> key ∉ map key_ref keys.
Proof.
  induction keys as [|k keys IH]; cbn [find_key map]; [intros _; apply not_elem_of_nil|]. destruct (decide (key_ref k = key)) as [|Hne]; [done|].
  destruct (find_key key keys); [done|]. intros _. rewrite not_elem_of_cons. split; [congruence|by apply IH].
Qed.
(** Every row has the index of its key among the distinct ones. *)
Record indexed (rows unique : list (Z * vec)) (indices : list Z) : Prop := {
  ix_nodup : NoDup (map key_ref unique);
  ix_rows : Forall2 (fun r i => 0 <= i /\ exists k, unique !! Z.to_nat i = Some k /\ key_ref k = key_ref r) rows indices;
  ix_from k : k ∈ unique -> k ∈ rows;
}.
Lemma index_keys_spec rest : forall rows unique indices, indexed rows unique indices -> let '(unique', indices') := index_keys rest unique indices in indexed (rows ++ rest) unique' indices'.
Proof.
  induction rest as [|key rest IH]; intros rows unique indices Hi; cbn [index_keys]; [by rewrite app_nil_r|]. destruct Hi as [Hnd Hr Hf].
  replace (rows ++ key :: rest) with ((rows ++ [key]) ++ rest) by (by rewrite <- app_assoc). destruct (find_key (key_ref key) unique) as [i|] eqn:E; apply IH.
  - apply find_key_Some in E as (k & Hk & Ek). split; [done| |intros x Hx; apply elem_of_app; left; by apply Hf].
    apply Forall2_app; [done|]. constructor; [|constructor]. split; [lia|]. exists k. by rewrite Nat2Z.id.
  - apply find_key_None in E. split.
    + rewrite map_app. apply NoDup_app. split; [done|]. split; [|apply NoDup_singleton]. intros x Hx Hx'%list_elem_of_singleton. by subst.
    + apply Forall2_app.
      * eapply Forall2_impl; [exact Hr|]. cbn. intros r i [H0 (k & Hk & Ek)]. split; [done|]. exists k. split; [by apply lookup_app_l_Some|done].
      * constructor; [|constructor]. split; [apply len_nonneg|]. exists key. rewrite len_to_nat, list_lookup_middle by done. done.
    + intros x. rewrite !elem_of_app, !list_elem_of_singleton. intros [Hx|Hx]; [left; by apply Hf|by right].
Qed.
Lemma index_batch keys unique indices : index_keys keys [] [] = (unique, indices) -> indexed keys unique indices.
Proof. intros E. pose proof (index_keys_spec keys [] [] []) as Hs. rewrite E in Hs. apply Hs. split; [constructor|constructor|by intros k ?%elem_of_nil]. Qed.

(** ** Rows *)

Definition output_event (r : OutputRow) : Event := historical (input_ordinal r) (out_kind r) (out_row r).
Section rows.
Context (plan : ChangelogNormalize) (now : Z).

Definition fresh_entry (v : option StoredRow) : StagedValue := {| sv_key := (0, to_vec []); sv_value := v; touched := false |}.
Definition row_entry (kind ordinal : Z) (current : bytes) (pass : bool) (eq : bytes -> outcome bool) (e : StagedValue) : outcome (StagedValue * list OutputRow) :=
  change_entry plan now kind ordinal current pass eq (expire now e).
(** The key of an entry and whether it was touched before do not matter. *)
Lemma row_entry_key kind ordinal current pass eq k v t : row_entry kind ordinal current pass eq {| sv_key := k; sv_value := v; touched := t |} =
  ('(e, rows) ← row_entry kind ordinal current pass eq (fresh_entry v); Ok ({| sv_key := k; sv_value := sv_value e; touched := touched e || t |}, rows)).
Proof.
  unfold row_entry, expire, is_expired, fresh_entry. cbn [sv_value]. destruct v as [v|]; [destruct (expires_at v <=? now)|]; unfold change_entry, set_value; cbn [sv_value sv_key touched].
  - destruct (_ || _); [by destruct pass|]. by destruct (_ || _).
  - destruct (_ || _); [|by destruct (_ || _)]. destruct (if state_ttl_millis plan =? 0 then eq (srow v) else Ok false) as [[]| |]; [done| |done|done]. by destruct pass.
  - destruct (_ || _); [by destruct pass|]. by destruct (_ || _).
Qed.
Lemma surjective_entry e : e = {| sv_key := sv_key e; sv_value := sv_value e; touched := touched e |}.
Proof. by destruct e. Qed.
(** What a row leaves in an entry: nothing, what was there, or the row. *)
Lemma row_entry_value kind ordinal current pass eq v e rows : row_entry kind ordinal current pass eq (fresh_entry v) = Ok (e, rows) ->
  (touched e = true /\ (sv_value e = None \/ sv_value e = Some (stored_now plan now current))) \/ (touched e = false /\ sv_value e = v /\ rows = []).
Proof.
  unfold row_entry, expire, is_expired, fresh_entry. cbn [sv_value]. intros Hx. destruct v as [v|]; [destruct (expires_at v <=? now)|]; unfold change_entry, set_value in Hx; cbn [sv_value sv_key touched] in Hx.
  - destruct (_ || _); [destruct pass; simplify_eq; cbn; tauto|]. destruct (_ || _); simplify_eq; cbn; tauto.
  - destruct (_ || _); [|destruct (_ || _); simplify_eq; cbn; tauto]. destruct (if state_ttl_millis plan =? 0 then eq (srow v) else Ok false) as [[]| |]; cbn in Hx; [| |done|done]; [simplify_eq; cbn; tauto|].
    destruct pass; simplify_eq; cbn; tauto.
  - destruct (_ || _); [destruct pass; simplify_eq; cbn; tauto|]. destruct (_ || _); simplify_eq; cbn; tauto.
Qed.

Context (encoded : list bytes) (kinds : Z -> outcome Z) (passes : Z -> outcome bool) (equal : Z -> bytes -> bytes -> outcome bool).
(** One row: read the stored value of its key, change it, write it back. *)
Definition normalize_step : RowStep := fun row previous =>
  ordinal ← n_ordinal row;
  v ← transpose (option_map decode_stored previous);
  current ← at_index encoded row;
  pass ← passes row;
  kind ← kinds row;
  '(e, rows) ← row_entry kind ordinal current pass (equal row current) (fresh_entry v);
  Ok (if touched e then Some (option_map encode_stored (sv_value e), map output_event rows) else None).

Context (f0 : view) (keys unique : list (Z * vec)) (indices : list Z) (Hix : indexed keys unique indices).
Context (Hrows : Forall (fun r => len r <= U32_MAX) encoded).
Abbreviation refs := (map key_ref keys).
Lemma stored_now_ok current : len current <= U32_MAX -> stored_ok (stored_now plan now current).
Proof. intros Hl. split; [|done]. cbn. unfold expiration, i64_sat. unfold is_i64. unfold_bounds. destruct (_ =? 0); lia. Qed.
(** An entry stands for what its key holds. *)
Definition entry_ok (f : view) (e : StagedValue) : Prop :=
  f (key_ref (sv_key e)) = (if touched e then option_map encode_stored (sv_value e) else f0 (key_ref (sv_key e))) /\
  transpose (option_map decode_stored (f (key_ref (sv_key e)))) = Ok (sv_value e) /\ (touched e = true -> forall v, sv_value e = Some v -> stored_ok v).
Record entries_ok (f : view) (staged : list StagedValue) : Prop := {
  eo_keys : map sv_key staged = unique;
  eo_entries : Forall (entry_ok f) staged;
  eo_others key : key ∉ map key_ref unique -> f key = f0 key;
}.
Lemma stage_keys_spec : forall keys staged, stage_keys keys (map f0 (map key_ref keys)) = Ok staged ->
  map sv_key staged = keys /\ Forall (entry_ok f0) staged.
Proof.
  induction keys0 as [|k ks IH]; intros staged; cbn [stage_keys map]; [by intros [= <-]|]. destruct (transpose (option_map decode_stored (f0 (key_ref k)))) as [v| |] eqn:Ev; [|done..].
  cbn [mbind outcome_bind]. destruct (stage_keys ks (map f0 (map key_ref ks))) as [rest| |]; [|done..]. cbn. intros [= <-]. destruct (IH rest eq_refl) as [E Hf]. split; [cbn; by rewrite E|].
  constructor; [|done]. split; [done|]. split; [exact Ev|done].
Qed.
Lemma stage_keys_no_panic : forall keys values, stage_keys keys values <> Panic.
Proof.
  induction keys0 as [|k ks IH]; intros [|v vs]; try done. cbn [stage_keys]. pose proof (transpose_decode decode_stored v stored_no_panic) as Hp.
  destruct (transpose _); [|done|done]. cbn. specialize (IH vs). by destruct (stage_keys ks vs).
Qed.
Lemma entry_other f key v e : key_ref (sv_key e) <> key -> entry_ok f e -> entry_ok (upd f key v) e.
Proof. intros Hne [H1 [H2 H3]]. unfold entry_ok, upd. rewrite !decide_False by done. done. Qed.
Lemma entries_update f staged i e key v e' : entries_ok f staged -> staged !! i = Some e -> key_ref (sv_key e) = key -> sv_key e' = sv_key e -> entry_ok (upd f key v) e' ->
  entries_ok (upd f key v) (<[i := e']> staged).
Proof.
  intros [Hk He Ho] Hi Ek Ek' He'. assert (length staged = length unique) as Hlen by (rewrite <- Hk; by rewrite length_map).
  assert (unique !! i = Some (sv_key e)) as Hu by (rewrite <- Hk, list_lookup_fmap, Hi; done). split.
  - rewrite <- Hk. rewrite list_fmap_insert, Ek'. apply list_insert_id. by rewrite Hk.
  - apply Forall_lookup. intros j x Hx. apply list_lookup_insert_Some in Hx as [(-> & <- & _)|[Hne Hx]]; [done|]. apply entry_other; [|by eapply (Forall_lookup_1 _ _ _ _ He)].
    intros Ex. apply Hne. assert (unique !! j = Some (sv_key x)) as Hu' by (rewrite <- Hk, list_lookup_fmap, Hx; done).
    eapply (NoDup_lookup (map key_ref unique)); [apply (ix_nodup _ _ _ Hix)|rewrite list_lookup_fmap, Hu; cbn; done|rewrite list_lookup_fmap, Hu'; cbn; by rewrite Ex, Ek].
  - intros k Hkn. unfold upd. rewrite decide_False; [by apply Ho|]. intros ->. apply Hkn. rewrite <- Ek. apply list_elem_of_fmap_2. by eapply list_elem_of_lookup_2.
Qed.
Lemma entries_same f staged i e e' : entries_ok f staged -> staged !! i = Some e -> sv_key e' = sv_key e -> entry_ok f e' -> entries_ok f (<[i := e']> staged).
Proof.
  intros [Hk He Ho] Hi Ek He'. split; [|by apply Forall_insert|done]. rewrite <- Hk, list_fmap_insert, Ek. apply list_insert_id. by rewrite list_lookup_fmap, Hi.
Qed.
(** The loop over the staged entries does a step. *)
Lemma normalize_row_refines f staged output row key n : entries_ok f staged -> 0 <= row -> refs !! Z.to_nat row = Some key ->
  match normalize_step row (f key) with
  | Ok s => exists staged' rows n', normalize_row plan now encoded kinds passes equal indices row (staged, output) n = (Ok (staged', output ++ rows), n') /\
      map output_event rows = match s with Some (_, events) => events | None => [] end /\
      entries_ok (match s with Some (v, _) => upd f key v | None => f end) staged'
  | Err e => exists n', normalize_row plan now encoded kinds passes equal indices row (staged, output) n = (Err e, n')
  | Panic => exists n', normalize_row plan now encoded kinds passes equal indices row (staged, output) n = (Panic, n')
  end.
Proof.
  intros Hst Hr Hk. unfold normalize_step, normalize_row. destruct (n_ordinal row) as [ordinal|e|]; [|by exists n|by exists n]. rewrite (lift_run _ _ _ ordinal) by done. cbn [mbind outcome_bind].
  rewrite list_lookup_fmap in Hk. destruct (keys !! Z.to_nat row) as [rk|] eqn:Erk; [|done]. cbn in Hk. injection Hk as Hk.
  destruct (Forall2_lookup_l _ _ _ _ _ (ix_rows _ _ _ Hix) Erk) as (i & Ei & Hi0 & uk & Eu & Eref). rewrite (lift_run _ _ _ i) by (by apply at_index_Ok).
  pose proof (eo_keys _ _ Hst) as Hkeys. assert (exists e, staged !! Z.to_nat i = Some e /\ sv_key e = uk) as (e & Ee & Eke).
  { rewrite <- Hkeys, list_lookup_fmap in Eu. destruct (staged !! Z.to_nat i) as [e|]; [|done]. cbn in Eu. injection Eu as Eu. by exists e. }
  rewrite (lift_run _ _ _ e) by (by apply at_index_Ok). pose proof (Forall_lookup_1 _ _ _ _ (eo_entries _ _ Hst) Ee) as [He1 [He2 He3]].
  assert (key_ref (sv_key e) = key) as Ekey by (rewrite Eke; congruence). rewrite Ekey in He1, He2. rewrite He2. cbn [mbind outcome_bind].
  set (n1 := if is_expired now e then count_u64 n else n). rewrite (M_bind_run _ _ _ tt n1) by (unfold n1; by destruct (is_expired now e)).
  destruct (at_index encoded row) as [current|er|] eqn:Ec; [|by exists n1|by exists n1]. rewrite (lift_run _ _ _ current) by done. cbn [mbind outcome_bind].
  destruct (passes row) as [pass|er|]; [|by exists n1|by exists n1]. rewrite (lift_run _ _ _ pass) by done. cbn [mbind outcome_bind].
  destruct (kinds row) as [kind|er|]; [|by exists n1|by exists n1]. rewrite (lift_run _ _ _ kind) by done. cbn [mbind outcome_bind].
  change (change_entry plan now kind ordinal current pass (equal row current) (expire now e)) with (row_entry kind ordinal current pass (equal row current) e).
  rewrite (surjective_entry e), row_entry_key. cbn [sv_value sv_key touched].
  destruct (row_entry kind ordinal current pass (equal row current) (fresh_entry (sv_value e))) as [[x rows]|er|] eqn:Ex; [|by exists n1|by exists n1]. cbn [mbind outcome_bind].
  set (e' := {| sv_key := sv_key e; sv_value := sv_value x; touched := touched x || touched e |}). rewrite (lift_run _ _ _ (e', rows)) by done. cbn beta iota.
  rewrite (lift_run _ _ _ (<[Z.to_nat i := e']> staged)) by (apply set_index_Ok; split; [done|]; apply lookup_lt_Some in Ee; unfold len; lia).
  exists (<[Z.to_nat i := e']> staged), rows, n1. split; [done|].
  assert (len current <= U32_MAX) as Hcl by (apply at_index_Ok in Ec as [_ Ec]; by eapply (Forall_lookup_1 (fun r => len r <= U32_MAX))).
  destruct (row_entry_value _ _ _ _ _ _ _ _ Ex) as [[Ht Hv]|(Ht & Hv & ->)]; rewrite Ht.
  - split; [done|]. eapply entries_update; [done|done|done|done|]. unfold entry_ok, e'. cbn. rewrite Ekey, Ht. cbn [orb]. unfold upd. rewrite decide_True by done.
    split; [done|]. assert (forall v, sv_value x = Some v -> stored_ok v) as Hgood by (intros v E; destruct Hv as [Hv|Hv]; rewrite Hv in E; [done|]; injection E as <-; by apply stored_now_ok).
    split; [|by intros _]. destruct (sv_value x) as [v|]; [|done]. cbn [option_map transpose]. rewrite decode_encode_stored by (by apply Hgood). done.
  - split; [done|]. eapply entries_same; [done|done|done|]. unfold entry_ok, e'. cbn. rewrite Ekey, Ht, Hv. cbn [orb]. done.
Qed.
Lemma normalize_rows_refine rows : Forall (fun row => 0 <= row < len refs) rows -> forall f staged output n, entries_ok f staged ->
  match normalize_rows plan now encoded kinds passes equal indices rows (staged, output) n with
  | (Ok (staged', output'), _) => exists events f', sequential normalize_step refs rows f = Ok (events, f') /\ entries_ok f' staged' /\ map output_event output' = map output_event output ++ events
  | (Err _, _) => True
  | (Panic, _) => sequential normalize_step refs rows f = Panic
  end.
Proof.
  induction 1 as [|row rows Hr Hrs IH]; intros f staged output n Hst; cbn [normalize_rows sequential].
  { exists [], f. split; [done|]. split; [done|]. by rewrite app_nil_r. }
  destruct (lookup_lt_is_Some_2 refs (Z.to_nat row)) as [key Hk]; [unfold len in Hr; lia|]. rewrite (proj2 (at_index_Ok refs row key)) by (split; [lia|done]). cbn [mbind outcome_bind].
  pose proof (normalize_row_refines f staged output row key n Hst ltac:(lia) Hk) as Hrow. destruct (normalize_step row (f key)) as [s|e|]; cbn [mbind outcome_bind].
  - destruct Hrow as (staged' & out & n' & E & Ho & Hst'). rewrite (M_bind_run _ _ _ _ _ E). specialize (IH _ staged' (output ++ out) n' Hst').
    destruct (normalize_rows plan now encoded kinds passes equal indices rows (staged', output ++ out) n') as [[[staged2 output2]|e|] n2]; [|done|].
    + destruct IH as (events & f' & Es & Hst2 & Ho2). rewrite map_app in Ho2. destruct s as [[v new]|].
      * exists (new ++ events), f'. rewrite Es. split; [done|]. split; [done|]. by rewrite Ho2, Ho, app_assoc.
      * exists events, f'. split; [done|]. split; [done|]. by rewrite Ho2, Ho, app_nil_r.
    + destruct s as [[v new]|]; [by rewrite IH|done].
  - destruct Hrow as [n' E]. by rewrite (M_bind_err _ _ _ _ _ E).
  - destruct Hrow as [n' E]. unfold mbind at 1, M_bind at 1. rewrite E. done.
Qed.
(** The touched entries write what the rows left. *)
Lemma touched_spec f staged : entries_ok f staged -> Forall (fun k => vec_ok k.2) keys ->
  NoDup (map mutation_slot (touched_mutations staged)) /\ Forall mutation_ok (touched_mutations staged) /\
  forall g, (forall kg k, g kg k = f0 {| r_key_group := kg; r_key := k |}) -> forall kg k, mutated (touched_mutations staged) g kg k = f {| r_key_group := kg; r_key := k |}.
Proof.
  intros Hst Hkeys. pose proof (eo_keys _ _ Hst) as Hk. assert (map mutation_slot (touched_mutations staged) = map ref_slot (map key_ref (map sv_key (List.filter touched staged)))) as Hslots.
  { unfold touched_mutations. by rewrite !map_map. }
  assert (NoDup (map mutation_slot (touched_mutations staged))) as Hnd.
  { rewrite Hslots. apply NoDup_fmap; [intros ??; apply ref_slot_inj|]. pose proof (ix_nodup _ _ _ Hix) as Hu. rewrite <- Hk in Hu. clear -Hu.
    induction staged as [|e staged IH]; cbn [List.filter]; [constructor|]. cbn [map] in Hu. apply NoDup_cons in Hu as [Hn Hu]. destruct (touched e); [|by apply IH]. cbn [map]. constructor; [|by apply IH].
    intros (x & Ex & (y & -> & Hy%list_elem_of_In%filter_In)%list_elem_of_fmap)%list_elem_of_fmap. apply Hn. rewrite Ex. apply list_elem_of_fmap_2, list_elem_of_fmap_2. apply list_elem_of_In, Hy. }
  split; [done|]. split.
  - apply Forall_forall. intros m (e & -> & He%list_elem_of_In%filter_In)%list_elem_of_fmap. destruct He as [He Ht]. apply list_elem_of_In in He. split.
    + rewrite Forall_forall in Hkeys. apply (Hkeys (sv_key e)). apply (ix_from _ _ _ Hix). rewrite <- Hk. by apply list_elem_of_fmap_2.
    + cbn [mvalue key_mutation]. intros x Hx. pose proof (eo_entries _ _ Hst) as Hall. rewrite Forall_forall in Hall. destruct (Hall e He) as (_ & _ & Hgood). destruct (sv_value e) as [v|]; [|done]. cbn [option_map] in Hx. injection Hx as <-.
      destruct (Hgood Ht v eq_refl) as [_ Hl]. unfold vec_ok, to_vec. cbn [vdata vcap]. rewrite encode_stored_len. unfold U32_MAX in Hl. unfold_bounds. lia.
  - intros g Hg kg k. set (key := {| r_key_group := kg; r_key := k |}). destruct (decide ((kg, k) ∈ map mutation_slot (touched_mutations staged))) as [Hin|Hin].
    + apply list_elem_of_fmap in Hin as (m & Em & Hm). pose proof (mutated_distinct _ g m Hnd Hm) as E. rewrite <- Em in E. cbn in E. rewrite E.
      apply list_elem_of_fmap in Hm as (e & -> & He%list_elem_of_In%filter_In). destruct He as [He Ht]. apply list_elem_of_In in He.
      pose proof (eo_entries _ _ Hst) as Hall. rewrite Forall_forall in Hall. destruct (Hall e He) as (Hf & _ & _). rewrite Ht in Hf.
      assert (key = key_ref (sv_key e)) as -> by (unfold key, key_ref; unfold mutation_slot in Em; cbn in Em; injection Em as -> ->; done). rewrite Hf. cbn. by destruct (sv_value e).
    + rewrite mutated_absent, Hg by done. fold key. destruct (decide (key ∈ map key_ref unique)) as [Hu|Hu]; [|symmetry; by apply (eo_others _ _ Hst)].
      rewrite <- Hk in Hu. apply list_elem_of_fmap in Hu as (sk & Esk & Hsk). apply list_elem_of_fmap in Hsk as (e & -> & He).
      pose proof (eo_entries _ _ Hst) as Hall. rewrite Forall_forall in Hall. destruct (Hall e He) as (Hf & _ & _). destruct (touched e) eqn:Ht; [|by rewrite Esk].
      exfalso. apply Hin. rewrite Hslots. change (kg, k) with (ref_slot key). rewrite Esk. do 3 apply list_elem_of_fmap_2. apply list_elem_of_In, filter_In. split; [by apply list_elem_of_In|done].
Qed.
End rows.

(** ** The processor *)

Lemma flatten_min_some l n : exists v, flatten_min (l ++ [Some n]) = Some v.
Proof. unfold flatten_min. rewrite fold_left_app. cbn. destruct (fold_left _ _ _); by eexists. Qed.
Section processor.
Context {St B : Type} `{KeyedStateLaws St B} `{!ReleaseTotal B}.
Context `{SchemaLaws} `{!ArrowLaws} `{!RowConverters} `{!ConverterLaws} `{!RowParsers}.
Context (key_capacity : bytes -> Z).
Implicit Types (p : ChangelogNormalizeProcessor (St := St)) (b : B).

Record n_facts p (fields : list Field) : Prop := {
  nf_kind : exists i, n_kind_index p = Some i /\ 0 <= i < len fields;
  nf_filter i : filter_result_index p = Some i -> 0 <= i < len fields;
  nf_preencoded i : n_preencoded_index p = Some i -> 0 <= i < len fields;
  nf_visible : len (visible_schema p) <= len fields;
  nf_keys : n_preencoded_index p = None -> Forall (fun f => 0 <= f.1 < len fields /\ f.2 <> PreencodedBinaryRow) (n_key_fields p);
}.
(** A processor of a plan with columns, whose schema facts are those of its schema. *)
Record normal_inv (o : Z) p b : Prop := {
  ni_parallelism : 0 < n_max_parallelism p <= 32768;
  ni_visible : visible_schema p <> [];
  ni_state : ks_inv o (n_state p) b;
  ni_schema : match n_input_schema p with None => True | Some fields => n_facts p fields end;
}.
Lemma counters_inv o o' p b s r w x b' : normal_inv o p b -> ks_inv o' s b' -> normal_inv o' (with_state_counters s r w x p) b'.
Proof. intros [H1' H2' H3' H4'] Hs. split; [done|done|done|]. cbn. destruct (n_input_schema p); [|done]. by destruct H4'. Qed.
Lemma n_schema_key_spec fields index :
  match n_schema_key fields index with Ok f => 0 <= f.1 < len fields /\ f.2 <> PreencodedBinaryRow | Err _ => True | Panic => False end.
Proof.
  unfold n_schema_key. destruct (Z.leb_spec 0 index); [|done]. destruct (fields !! Z.to_nat index) as [f|] eqn:Ef; [|done]. cbn [ok_or mbind outcome_bind].
  destruct (from_arrow_type_spec (field_type f)) as [Hp Hb]. destruct (from_arrow_type (field_type f)) as [k|e|]; [|done|done]. cbn. apply lookup_lt_Some in Ef. unfold len. split; [lia|congruence].
Qed.
Lemma check_schema_spec p fields : (forall i, n_kind_index p = Some i -> 0 <= i < len fields) -> (forall i, filter_result_index p = Some i -> 0 <= i < len fields) ->
  (forall i, n_preencoded_index p = Some i -> 0 <= i < len fields) ->
  match check_schema p fields with
  | Ok keys => n_facts (with_schema (Some fields) keys (n_preencoded_index p) (n_kind_index p) (filter_result_index p) p) fields
  | Err _ => True
  | Panic => False
  end.
Proof.
  intros Hk Hf Hp. unfold check_schema. destruct (guard_cases (negb (bool_decide (n_kind_index p = None))) (Execution "changelog normalize requires RowKind metadata")) as [[-> Hg] | ->]; [|done]. cbn [mbind outcome_bind].
  destruct (guard_cases (Bool.eqb (has_filter (n_plan p)) (bool_decide (is_Some (filter_result_index p)))) (Execution "changelog normalize filter metadata does not match its plan")) as [[-> _] | ->]; [|done]. cbn [mbind outcome_bind].
  destruct (flatten_min_some [n_preencoded_index p; n_kind_index p; filter_result_index p] (len fields)) as [visible Ev]. cbn [app] in Ev. rewrite Ev. cbn [ok_or expect mbind outcome_bind].
  pose proof (flatten_min_last [n_preencoded_index p; n_kind_index p; filter_result_index p] (len fields) visible Ev) as Hv. rewrite (proj2 (Z.leb_le _ _)) by done.
  destruct (guard_cases (negb (negb (visible =? len (visible_schema p)) || types_differ (take (Z.to_nat visible) fields) (visible_schema p))) (Execution "changelog normalize Arrow schema does not match its protobuf schema")) as [[-> Hg2] | ->]; [|done].
  cbn [mbind outcome_bind]. apply negb_true_iff, orb_false_iff in Hg2 as [Hg2%negb_false_iff%Z.eqb_eq _].
  assert (exists i, n_kind_index p = Some i) as [i Ei] by (destruct (n_kind_index p) as [i|]; [by exists i|done]).
  destruct (n_preencoded_index p) as [j|] eqn:Ej.
  - split; cbn; [exists i; split; [done|by apply Hk]|done|done|lia|done].
  - destruct (collect (n_schema_key fields) (n_key_indices (n_plan p))) as [keys|e|] eqn:Ec; [|done|].
    + split; cbn; [exists i; split; [done|by apply Hk]|done|done|lia|]. intros _. apply collect_Ok in Ec. apply Forall_lookup. intros n f Hn.
      destruct (Forall2_lookup_r _ _ _ _ _ Ec Hn) as (x & _ & Ex). pose proof (n_schema_key_spec fields x) as Hx. by rewrite Ex in Hx.
    + apply collect_in in Ec; [done|]. intros x _ Ex. pose proof (n_schema_key_spec fields x) as Hx. by rewrite Ex in Hx.
Qed.
(** Reading the schema touches neither state nor memory. *)
Definition schema_of p p1 : Prop := exists schema keys pre kind filter, p1 = with_schema schema keys pre kind filter p.
Lemma n_prepare_spec o p b batch : normal_inv o p b ->
  match n_prepare_schema batch (p, b) with
  | (Ok _, (p1, b1)) => b1 = b /\ normal_inv o p1 b /\ schema_of p p1 /\ n_input_schema p1 = Some (batch_schema batch)
  | (Err _, (p1, b1)) => b1 = b /\ normal_inv o p1 b /\ schema_of p p1
  | (Panic, _) => False
  end.
Proof.
  intros Hi. assert (schema_of p p) as Hpp by (exists (n_input_schema p), (n_key_fields p), (n_preencoded_index p), (n_kind_index p), (filter_result_index p); by destruct p).
  unfold n_prepare_schema. destruct (n_input_schema p) as [fields|] eqn:Es.
  { destruct (decide (fields = batch_schema batch)) as [->|]; done. }
  set (fields := batch_schema batch). set (pre := position (has_name "__streamfusion_key") fields). set (kind := position (has_name "__streamfusion_input_row_kind") fields).
  set (filter := position (has_name "__streamfusion_filter_result") fields).
  assert (forall q i, position q fields = Some i -> 0 <= i < len fields) as Hpos by (intros q i Hq; apply position_Some in Hq; lia).
  pose proof (check_schema_spec (with_schema None (n_key_fields p) pre kind filter p) fields (Hpos _) (Hpos _) (Hpos _)) as Hc.
  destruct Hi as [H1' H2' H3' H4']. destruct (check_schema (with_schema None (n_key_fields p) pre kind filter p) fields) as [keys|e|]; [| |done].
  - split; [done|]. split; [by split|]. split; [|done]. by exists (Some fields), keys, pre, kind, filter.
  - split; [done|]. split; [by split|]. by exists None, (n_key_fields p), pre, kind, filter.
Qed.

(** Keys that arrive encoded are rows of whole words, and every key fits a vector. *)
Record n_keys_ok p (batch : Batch) : Prop := {
  nk_words i a v : n_preencoded_index p = Some i -> column batch i = Ok a -> as_bytes BinaryArray a = Some v -> forall row, 0 <= row < num_rows batch -> len (v row) mod 4 = 0;
  nk_fit keys : n_keys key_capacity p batch = Ok keys -> Forall (fun k => vec_ok k.2) keys;
}.
Section columns.
Context (o : Z) (p : ChangelogNormalizeProcessor (St := St)) (b : B) (batch : Batch).
Context (Hi : normal_inv o p b) (Hs : n_input_schema p = Some (batch_schema batch)) (Hkeys : n_keys_ok p batch).
Lemma facts_of_batch : n_facts p (batch_schema batch).
Proof. pose proof (ni_schema o p b Hi) as Hf. by rewrite Hs in Hf. Qed.
Lemma n_kinds_spec : match n_kinds p batch with Ok g => forall row, 0 <= row < num_rows batch -> exists k, g row = Ok k | Err _ => True | Panic => False end.
Proof.
  unfold n_kinds. destruct (nf_kind _ _ facts_of_batch) as (i & -> & Hr). cbn [ok_or expect mbind outcome_bind]. destruct (column_total batch i) as [a Ha]; [by rewrite <- schema_columns|]. rewrite Ha. cbn [mbind outcome_bind].
  destruct (as_fixed Int8Array a) as [v|]; [|done]. cbn [ok_or mbind outcome_bind]. intros row Hrow. exists (v row). by rewrite (column_len _ _ _ Ha), in_range.
Qed.
Lemma n_filters_spec : match n_filters p batch with Ok g => forall row, 0 <= row < num_rows batch -> exists k, g row = Ok k | Err _ => True | Panic => False end.
Proof.
  unfold n_filters. destruct (filter_result_index p) as [i|] eqn:Ei; [|intros row _; by exists true]. destruct (column_total batch i) as [a Ha]; [rewrite <- schema_columns; by apply (nf_filter _ _ facts_of_batch)|]. rewrite Ha. cbn [mbind outcome_bind].
  destruct (as_fixed BooleanArray a) as [v|]; [|done]. cbn [ok_or mbind outcome_bind]. intros row Hrow. eexists. by rewrite (column_len _ _ _ Ha), in_range.
Qed.
Lemma n_keys_no_panic : n_keys key_capacity p batch <> Panic.
Proof.
  apply collect_in. intros row Hr%rows_range. unfold n_row_key, n_state_key. pose proof (ni_parallelism o p b Hi) as Hmp. destruct (n_preencoded_index p) as [i|] eqn:Ei.
  - destruct (column_total batch i) as [a Ha]; [rewrite <- schema_columns; by apply (nf_preencoded _ _ facts_of_batch)|]. rewrite Ha. cbn [mbind outcome_bind].
    destruct (as_bytes BinaryArray a) as [v|] eqn:Ev; [|done]. cbn [ok_or mbind outcome_bind]. unfold binary_value. rewrite (column_len _ _ _ Ha), in_range by done. cbn [mbind outcome_bind].
    destruct (assign_key_group_total (v row) (n_max_parallelism p)) as (g & E & _); [by eapply (nk_words p batch Hkeys)|done|]. cbn [vdata to_vec]. by rewrite E.
  - pose proof (nf_keys _ _ facts_of_batch Ei) as Hkf. rewrite schema_columns in Hkf.
    pose proof (native_key_spec batch row (n_key_fields p) (n_max_parallelism p) Hr Hkf Hmp) as Hn. destruct (encode_binary_row batch row (n_key_fields p)) as [k|e|]; [|done|done].
    cbn [mbind outcome_bind]. destruct Hn as [g E]. cbn [vdata]. by rewrite E.
Qed.
Lemma n_keys_len keys : n_keys key_capacity p batch = Ok keys -> len keys = num_rows batch.
Proof.
  intros Hk%collect_Ok. apply Forall2_length in Hk. unfold rows_of_batch in Hk. rewrite row_numbers_len in Hk. pose proof (num_rows_law batch). unfold len. lia.
Qed.
End columns.

(** ** A batch *)

Definition encode_rows p (batch : Batch) : outcome (list bytes) :=
  if len (visible_schema p) <=? num_columns batch then convert_columns (n_converter p) (take (Z.to_nat (len (visible_schema p))) (columns batch)) else Panic.
Definition normalized p (batch : Batch) (now : Z) (f : view) : outcome (list Event * view) :=
  encoded ← encode_rows p batch;
  kinds ← n_kinds p batch;
  filters ← n_filters p batch;
  keys ← n_keys key_capacity p batch;
  sequential (normalize_step (n_plan p) now encoded kinds filters (rows_equal p batch)) (map key_ref keys) (rows_of_batch batch) f.
Lemma encode_rows_spec o p b batch : normal_inv o p b -> n_input_schema p = Some (batch_schema batch) ->
  match encode_rows p batch with Ok rows => len rows = num_rows batch | Err _ => True | Panic => False end.
Proof.
  intros Hi Hs. unfold encode_rows. pose proof (facts_of_batch o p b batch Hi Hs) as Hf. pose proof (nf_visible _ _ Hf) as Hv. rewrite schema_columns in Hv. rewrite (proj2 (Z.leb_le _ _)) by done.
  assert (take (Z.to_nat (len (visible_schema p))) (columns batch) <> []) as Hne.
  { pose proof (ni_visible o p b Hi) as Hvs. intros E%(f_equal length). rewrite length_take in E. unfold num_columns, len in *. destruct (visible_schema p); [done|]. cbn [length] in *. lia. }
  pose proof (convert_law (n_converter p) _ (num_rows batch) Hne (Forall_take _ _ _ (columns_law batch))) as Hc. destruct (convert_columns _ _); [by destruct Hc|done|done].
Qed.
Definition delivered p (batch : Batch) (rows : list OutputRow) : outcome Batch := if num_rows batch =? 0 then Ok (empty_output p) else output_batch p rows.
(** The rows are in the state, and their output was built or not. *)
Definition written p p' (batch : Batch) (spec : outcome (list Event * view)) (built : outcome Batch) : Prop :=
  exists rows f', spec = Ok (map output_event rows, f') /\ delivered p batch rows = built /\ forall key, held (n_state p') key = f' key.
(** The batch is done, or nothing is; counters apart. *)
Definition n_done (o : Z) p (batch : Batch) (spec : outcome (list Event * view)) (r : outcome Batch * (ChangelogNormalizeProcessor (St := St) * B)) : Prop :=
  let '(out, (p', b')) := r in
  match out with
  | Ok _ => written p p' batch spec out
  | Err _ => (forall key, held (n_state p') key = held (n_state p) key) \/ written p p' batch spec out
  | Panic => spec = Panic \/ written p p' batch spec out
  end /\ (out <> Panic -> (exists rd w x, p' = with_state_counters (n_state p') rd w x p) /\ ks_inv o (n_state p') b').
Lemma n_failed o p p0 rd w x b e batch spec : p0 = with_state_counters (n_state p) rd w x p -> ks_inv o (n_state p) b -> n_done o p batch spec (Err e, (p0, b)).
Proof. intros -> Hi. cbn. split; [by left|]. split; [by exists rd, w, x|done]. Qed.
(** An error after the read gives the workspace back. *)
Lemma fail_workspace {A} o o' s b (workspace : resv) e (p : ChangelogNormalizeProcessor (St := St)) : ks_inv o' s b -> o' = o + rsize workspace -> 0 <= o -> 0 <= rsize workspace ->
  exists b', fail_all (A := A) [workspace] e (p, b) = (Err e, (p, b')) /\ ks_inv o s b'.
Proof.
  intros Hi -> Ho Hw. pose proof (ks_others _ _ _ Hi) as Hb. destruct (fail_all_spec (A := A) [workspace] e p b) as (b' & E & Hb'); [by repeat constructor|rewrite zsum_cons; cbn [zsum foldr]; lia|].
  rewrite zsum_cons in Hb'. cbn [zsum foldr] in Hb'. exists b'. split; [exact E|]. replace o with (o + rsize workspace + - rsize workspace) by lia. eapply ks_frame; [exact Hi|lia|lia].
Qed.
Lemma write_touched_spec o ms p b : ks_inv o (n_state p) b -> NoDup (map mutation_slot ms) -> Forall mutation_ok ms ->
  match write_touched ms (p, b) with
  | (Ok _, (p', b')) => (exists w, p' = with_state_counters (n_state p') (state_read_batches p) w (expired_state_entries p) p) /\ ks_inv o (n_state p') b' /\
      forall kg k, ks_kv (n_state p') kg k = mutated ms (ks_kv (n_state p)) kg k
  | (Err _, (p', b')) => (exists w, p' = with_state_counters (n_state p') (state_read_batches p) w (expired_state_entries p) p) /\ ks_inv o (n_state p') b' /\
      forall kg k, ks_kv (n_state p') kg k = ks_kv (n_state p) kg k
  | (Panic, _) => False
  end.
Proof.
  intros Hi Hnd Hok. unfold write_touched. case_bool_decide as E; [subst ms; cbn; split; [exists (state_write_batches p); by destruct p|done]|].
  pose proof (ks_write o ms (n_state p) b Hi Hok (ks_batch_distinct ms Hnd)) as Hw. destruct (ks_write_batch ms (n_state p, b)) as [[[]|e|] [s' b']] eqn:Ew; [| |done]; destruct Hw as (Hi' & _ & Hkv).
  - rewrite (M_bind_run _ _ _ tt (set_n_state s' p, b')) by (unfold zoom; by rewrite Ew). cbn. split; [by eexists|done].
  - rewrite (M_bind_err _ _ _ e (set_n_state s' p, b')) by (unfold zoom; by rewrite Ew). cbn. split; [by eexists|done].
Qed.
Lemma in_workspace o o' s b b' d : ks_inv o s b -> reserved b' = reserved b + d -> o' = o + d -> 0 <= o' -> ks_inv o' s b'.
Proof. intros Hi Hb -> Ho. by eapply ks_frame. Qed.
(** After the rows: the write and the output, then the workspace goes. *)
Lemma write_tail o p p2 b workspace rd w x f' batch spec staged (output : list OutputRow) :
  p2 = with_state_counters (n_state p) rd w x p -> ks_inv (o + rsize workspace) (n_state p) b -> 0 <= o -> 0 <= rsize workspace -> num_rows batch <> 0 ->
  spec = Ok (map output_event output, f') -> NoDup (map mutation_slot (touched_mutations staged)) -> Forall mutation_ok (touched_mutations staged) ->
  (forall kg k, mutated (touched_mutations staged) (ks_kv (n_state p)) kg k = f' {| r_key_group := kg; r_key := k |}) ->
  n_done o p batch spec ((_ ← or_fail (write_touched (touched_mutations staged)) [workspace]; result ← or_fail (lift (output_batch p output)) [workspace]; _ ← on_broker (host_drop workspace); mret result) (p2, b)).
Proof.
  intros -> Hi Ho Hw Hne Hspec Hnd Hok Hmut. set (p2 := with_state_counters (n_state p) rd w x p).
  pose proof (write_touched_spec (o + rsize workspace) (touched_mutations staged) p2 b Hi Hnd Hok) as Hwr.
  destruct (write_touched (touched_mutations staged) (p2, b)) as [[[]|e|] [p3 b3]] eqn:Ew; [| |done]; destruct Hwr as ([w' Ep] & Hi3 & Hkv); pose proof (ks_others _ _ _ Hi3) as Hb3.
  - assert (written p p3 batch spec (output_batch p output)) as Hwt.
    { exists output, f'. split; [done|]. split; [unfold delivered; by rewrite (proj2 (Z.eqb_neq _ _))|]. intros [kg k]. unfold held. cbn. rewrite Hkv. apply Hmut. }
    assert (exists rd w x, p3 = with_state_counters (n_state p3) rd w x p) as Hc by (rewrite Ep; by eexists _, _, _).
    rewrite (M_bind_run _ _ _ tt (p3, b3)) by (unfold or_fail; by rewrite Ew). destruct (output_batch p output) as [result|e|]; [| |by split; [right|]].
    + rewrite (M_bind_run _ _ _ result (p3, b3)) by done. destruct (host_drop_total workspace b3) as (b4 & E4 & Hb4); [lia|]. rewrite (M_bind_run _ _ _ tt (p3, b4)) by (unfold on_broker; by rewrite E4).
      split; [done|]. intros _. split; [done|]. eapply in_workspace; [exact Hi3|rewrite Hb4; instantiate (1 := - rsize workspace); lia|lia|lia].
    + destruct (fail_workspace (A := Batch) o _ _ b3 workspace e p3 Hi3 eq_refl Ho Hw) as (b4 & E4 & Hi4). rewrite (M_bind_err _ _ _ e (p3, b4)) by exact E4. split; [by right|done].
  - destruct (fail_workspace (A := unit) o _ _ b3 workspace e p3 Hi3 eq_refl Ho Hw) as (b4 & E4 & Hi4). rewrite (M_bind_err _ _ _ e (p3, b4)) by (unfold or_fail; by rewrite Ew).
    split; [left; intros [kg k]; unfold held; cbn; by rewrite Hkv|]. intros _. split; [|done]. rewrite Ep. by eexists _, _, _.
Qed.
Lemma process_done o p b batch encoded now : normal_inv o p b -> n_input_schema p = Some (batch_schema batch) -> n_keys_ok p batch ->
  encode_rows p batch = Ok encoded -> Forall (fun r => len r <= U32_MAX) encoded ->
  n_done o p batch (normalized p batch now (held (n_state p))) (process_accounted key_capacity batch encoded now (p, b)).
Proof.
  intros Hi Hs Hk Henc Hsmall. assert (p = with_state_counters (n_state p) (state_read_batches p) (state_write_batches p) (expired_state_entries p) p) as Epp by (by destruct p).
  pose proof (ni_state o p b Hi) as Hst. pose proof (ks_others _ _ _ Hst) as Ho. unfold process_accounted, normalized. rewrite Henc. cbn [mbind outcome_bind]. rewrite (M_bind_run _ _ _ p (p, b)) by done.
  pose proof (n_kinds_spec o p b batch Hi Hs) as Hkd. destruct (n_kinds p batch) as [kinds|e|] eqn:Ekd; [|by eapply n_failed|done]. rewrite (lift_run _ _ _ kinds) by done. cbn [mbind outcome_bind].
  pose proof (n_filters_spec o p b batch Hi Hs) as Hfl. destruct (n_filters p batch) as [filters|e|] eqn:Efl; [|by eapply n_failed|done]. rewrite (lift_run _ _ _ filters) by done. cbn [mbind outcome_bind].
  pose proof (n_keys_no_panic o p b batch Hi Hs Hk) as Hnp. destruct (n_keys key_capacity p batch) as [keys|e|] eqn:Ek; [|by eapply n_failed|done]. rewrite (lift_run _ _ _ keys) by done. cbn [mbind outcome_bind].
  pose proof (n_keys_len p batch keys Ek) as Hn. pose proof (nk_fit p batch Hk keys Ek) as Hfit. destruct (index_keys keys [] []) as [unique indices] eqn:Eix. apply index_batch in Eix as Hix.
  case_bool_decide as Eu.
  { subst unique. assert (keys = []) as ->. { destruct keys as [|k keys]; [done|]. pose proof (ix_rows _ _ _ Hix) as Hr. inversion Hr as [|? ? ? ? (_ & u & Hu & _)]. by rewrite lookup_nil in Hu. }
    split; [|intros _; split; [by eexists _, _, _|done]]. exists [], (held (n_state p)). unfold delivered, rows_of_batch. rewrite <- Hn. done. }
  assert (num_rows batch <> 0) as Hne by (intros E0; rewrite E0 in Hn; destruct keys; [cbn in Eix; congruence|done]).
  clear Eu. pose proof (load_spec o (n_state p) (n_scratch p) b (map key_ref unique) Hst) as Hld.
  destruct (load (n_state p) (n_scratch p) (map key_ref unique) b) as [[[reads workspace]|e|] b1] eqn:El; [| |done].
  2:{ rewrite (M_bind_err _ _ _ e (p, b1)) by (unfold on_broker; by rewrite El). eapply n_failed; [exact Epp|]. eapply in_workspace; [exact Hst|instantiate (1 := 0); lia|lia|lia]. }
  destruct Hld as (Hv & Hr0 & Hw0 & Hb1). rewrite (M_bind_run _ _ _ (reads, workspace) (p, b1)) by (unfold on_broker; by rewrite El). cbn beta iota.
  set (p1 := set_reads (count_u64 (state_read_batches p)) p). rewrite (M_bind_run _ _ _ tt (p1, b1)) by done.
  destruct (host_drop_total (rb_reservation reads) b1) as (b2 & E2 & Hb2); [lia|]. rewrite (M_bind_run _ _ _ tt (p1, b2)) by (unfold on_broker; by rewrite E2). rewrite Hv.
  assert (ks_inv (o + rsize workspace) (n_state p) b2) as Hi2 by (eapply in_workspace; [exact Hst|instantiate (1 := rsize workspace); lia|lia|lia]).
  assert (0 <= o) as Ho0 by lia.
  pose proof (stage_keys_no_panic unique (map (held (n_state p)) (map key_ref unique))) as Hsp. destruct (stage_keys unique (map (held (n_state p)) (map key_ref unique))) as [staged|e|] eqn:Est; [| |done].
  2:{ destruct (fail_workspace (A := list StagedValue) o _ _ b2 workspace e p1 Hi2 eq_refl Ho0 Hw0) as (b3 & E3 & Hi3). rewrite (M_bind_err _ _ _ e (p1, b3)) by exact E3. by eapply n_failed. }
  rewrite (M_bind_run _ _ _ staged (p1, b2)) by done. apply stage_keys_spec in Est as [Esk Hsk].
  assert (entries_ok (held (n_state p)) unique (held (n_state p)) staged) as Hent by (by split).
  pose proof (normalize_rows_refine (n_plan p) now encoded kinds filters (rows_equal p batch) (held (n_state p)) keys unique indices Hix Hsmall (rows_of_batch batch) (refs_rows keys _ (eq_sym Hn)) _ staged [] (expired_state_entries p1) Hent) as Hrows.
  destruct (normalize_rows _ _ _ _ _ _ _ _ _ _) as [[[staged' output]|e|] n] eqn:En.
  - destruct Hrows as (events & f' & Hseq & Hent' & Hout). cbn [map app] in Hout. rewrite (M_bind_run _ _ _ (staged', output) (set_expired n p1, b2)) by (unfold or_fail, on_expired; by rewrite En). cbn beta iota.
    destruct (touched_spec _ _ _ _ Hix f' staged' Hent' Hfit) as (Hnd & Hmok & Hmut). eapply write_tail; [done|exact Hi2|done|done|done|by rewrite Hout|done|done|]. apply Hmut. done.
  - destruct (fail_workspace (A := list StagedValue * list OutputRow) o _ _ b2 workspace e (set_expired n p1) Hi2 eq_refl Ho0 Hw0) as (b3 & E3 & Hi3).
    rewrite (M_bind_err _ _ _ e (set_expired n p1, b3)) by (unfold or_fail, on_expired; rewrite En; exact E3). by eapply n_failed.
  - unfold mbind at 1, M_bind at 1, or_fail at 1, on_expired at 1. rewrite En. split; [by left|done].
Qed.
(** Without the row equaliser nothing panics. *)
Lemma normalize_step_ok plan now encoded kinds passes equal n : len encoded = n -> Forall (fun r => len r <= U32_MAX) encoded ->
  (forall row, 0 <= row < n -> exists k, kinds row = Ok k) -> (forall row, 0 <= row < n -> exists k, passes row = Ok k) -> (forall row c v, equal row c v <> Panic) ->
  step_ok n (normalize_step plan now encoded kinds passes equal).
Proof.
  intros Hl Hsm Hk Hp He row prev Hr. unfold normalize_step, n_ordinal. destruct (row <=? I32_MAX); [|done]. cbn [mbind outcome_bind].
  pose proof (transpose_decode decode_stored prev stored_no_panic) as Hd. destruct (transpose (option_map decode_stored prev)) as [v|e|]; [|done|done]. cbn [mbind outcome_bind].
  destruct (at_index_in encoded row ltac:(lia)) as [current Ec]. rewrite Ec. destruct (Hp row Hr) as [pass ->], (Hk row Hr) as [kind ->]. cbn [mbind outcome_bind].
  assert (row_entry plan now kind row current pass (equal row current) (fresh_entry v) <> Panic) as Hnp.
  { unfold row_entry, change_entry. destruct (_ || _); [|destruct (_ || _); [|done]; by destruct (sv_value _)]. destruct (sv_value (expire now (fresh_entry v))) as [x|]; [|by destruct pass].
    destruct (_ =? 0); [specialize (He row current (srow x)); destruct (equal row current (srow x)) as [[]| |]; [done| |done|done]|]; by destruct pass. }
  destruct (row_entry plan now kind row current pass (equal row current) (fresh_entry v)) as [[e rows]|er|] eqn:Ex; [|done|done]. cbn [mbind outcome_bind].
  apply at_index_Ok in Ec as [_ Ec]. pose proof (Forall_lookup_1 _ _ _ _ Hsm Ec) as Hc. cbn in Hc.
  apply row_entry_value in Ex. destruct Ex as [[-> [->| ->]]|(-> & _ & _)]; [done| |done].
  intros x Hx. cbn [option_map] in Hx. injection Hx as <-. unfold slice_ok. rewrite encode_stored_len. cbn [srow stored_now]. unfold U32_MAX in Hc. unfold_bounds. lia.
Qed.
Lemma normalized_panic o p b batch now f : normal_inv o p b -> n_input_schema p = Some (batch_schema batch) -> n_keys_ok p batch ->
  (forall encoded, encode_rows p batch = Ok encoded -> Forall (fun r => len r <= U32_MAX) encoded) -> normalized p batch now f = Panic -> requires_semantic_equalizer p = true.
Proof.
  intros Hi Hs Hk Hsm Hpan. destruct (requires_semantic_equalizer p) eqn:Er; [done|]. exfalso. revert Hpan. unfold normalized.
  pose proof (encode_rows_spec o p b batch Hi Hs) as Henc. destruct (encode_rows p batch) as [encoded|e|]; [|done|done]. cbn [mbind outcome_bind].
  pose proof (n_kinds_spec o p b batch Hi Hs) as Hkd. destruct (n_kinds p batch) as [kinds|e|]; [|done|done]. cbn [mbind outcome_bind].
  pose proof (n_filters_spec o p b batch Hi Hs) as Hfl. destruct (n_filters p batch) as [filters|e|]; [|done|done]. cbn [mbind outcome_bind].
  pose proof (n_keys_no_panic o p b batch Hi Hs Hk) as Hnp. destruct (n_keys key_capacity p batch) as [keys|e|] eqn:Ek; [|done|done]. cbn [mbind outcome_bind].
  pose proof (n_keys_len p batch keys Ek) as Hn. apply sequential_no_panic; [|by apply refs_rows]. rewrite refs_len, Hn.
  apply normalize_step_ok; [done|by apply Hsm|done|done|]. intros row c v. unfold rows_equal. rewrite Er. done.
Qed.
End processor.

(** ** Changelogs *)

Section live.
Context (plan : ChangelogNormalize) (now : Z) (Hnow : now < I64_MAX) (Hub : n_generate_update_before plan = true) (Httl : 0 <= state_ttl_millis plan).
(** The row a key shows: the stored one until it expires. *)
Definition live_row (v : option bytes) : option bytes :=
  match v with
  | Some bs => match decode_stored bs with Ok s => if expires_at s <=? now then None else Some (srow s) | _ => None end
  | None => None
  end.
Lemma live_stored current : len current <= U32_MAX -> live_row (Some (encode_stored (stored_now plan now current))) = Some current.
Proof.
  intros Hl. unfold live_row. rewrite decode_encode_stored by (by apply stored_now_ok). cbn [expires_at srow stored_now].
  assert (now < expiration now (state_ttl_millis plan)) as Hlt.
  { unfold expiration, i64_sat. destruct (Z.eqb_spec (state_ttl_millis plan) 0); [done|]. unfold_bounds. destruct (_ <=? _) eqn:E; lia. }
  by rewrite (proj2 (Z.leb_gt _ _)) by lia.
Qed.
Lemma live_expire prev v : transpose (option_map decode_stored prev) = Ok v -> live_row prev = option_map srow (sv_value (expire now (fresh_entry v))).
Proof.
  unfold live_row, expire, is_expired, fresh_entry. destruct prev as [bs|]; cbn [option_map transpose sv_value]; [|by intros [= <-]]. destruct (decode_stored bs) as [s| |]; [|done..]. intros [= <-]. cbn [sv_value].
  by destruct (expires_at s <=? now).
Qed.
Context (content : Z -> outcome bytes) (refs : list StateKeyRef).
Lemma replay_emitted row key kind ordinal r t : 0 <= row -> refs !! Z.to_nat row = Some key -> ordinal = row ->
  (if (kind =? UPDATE_BEFORE) || (kind =? DELETE) then t key = Some r else t key = None) ->
  replay content refs [output_event (emitted r kind ordinal)] t = Some (upd t key (if (kind =? UPDATE_BEFORE) || (kind =? DELETE) then None else Some r)).
Proof.
  intros Hr Hk -> Ht. cbn [replay]. change (ev_envelope (output_event (emitted r kind row))) with row. change (event_row content (output_event (emitted r kind row))) with (Ok r).
  change (retracts (output_event (emitted r kind row))) with ((kind =? UPDATE_BEFORE) || (kind =? DELETE)). rewrite (proj2 (at_index_Ok refs row key)) by done.
  destruct (_ || _); by rewrite bool_decide_eq_true_2.
Qed.
Lemma upd_same (t : view) key v : upd t key v key = v.
Proof. unfold upd. by rewrite decide_True. Qed.
Lemma upd_other (t : view) key v k : k <> key -> upd t key v k = t k.
Proof. intros Hne. unfold upd. by rewrite decide_False. Qed.
Lemma normalize_replays encoded kinds passes equal : Forall (fun r => len r <= U32_MAX) encoded -> replays content refs live_row (normalize_step plan now encoded kinds passes equal).
Proof.
  intros Hsm row key prev v events t Hs Hr Hk Ht. unfold normalize_step, n_ordinal in Hs. destruct (row <=? I32_MAX); [|done]. cbn [mbind outcome_bind] in Hs.
  destruct (transpose (option_map decode_stored prev)) as [old| |] eqn:Eo; [|done..]. cbn [mbind outcome_bind] in Hs. rewrite (live_expire _ _ Eo) in Ht.
  destruct (at_index encoded row) as [current| |] eqn:Ec; [|done..]. cbn [mbind outcome_bind] in Hs. apply at_index_Ok in Ec as [_ Ec]. pose proof (Forall_lookup_1 _ _ _ _ Hsm Ec) as Hcl. cbn in Hcl.
  destruct (passes row) as [pass| |]; [|done..]. destruct (kinds row) as [kind| |]; [|done..]. cbn [mbind outcome_bind] in Hs. unfold row_entry, change_entry in Hs.
  destruct (sv_value (expire now (fresh_entry old))) as [x|] eqn:Ex; cbn [option_map] in Ht.
  - assert (expire now (fresh_entry old) = fresh_entry (Some x)) as Ee.
    { revert Ex. unfold expire, is_expired, fresh_entry. destruct old as [y|]; cbn [sv_value]; [|done]. destruct (expires_at y <=? now); cbn; [done|]. by intros [= ->]. }
    rewrite Ee in Hs. destruct (_ || _).
    + destruct (if state_ttl_millis plan =? 0 then equal row current (srow x) else Ok false) as [same| |]; [|done..]. cbn [mbind outcome_bind] in Hs. destruct same; [done|]. destruct pass; cbn in Hs; rewrite ?Hub in Hs; injection Hs as <- <-.
      * cbn [app map]. change (output_event (emitted (srow x) UPDATE_BEFORE row) :: [output_event (emitted current UPDATE_AFTER row)]) with ([output_event (emitted (srow x) UPDATE_BEFORE row)] ++ [output_event (emitted current UPDATE_AFTER row)]).
        rewrite events_replay_app, (replay_emitted row key) by done. cbn [mbind option_bind]. rewrite (replay_emitted row key) by (try done; apply upd_same).
        eexists. split; [done|]. split; [rewrite upd_same; symmetry; by apply live_stored|]. intros k Hne. by rewrite !upd_other.
      * rewrite (replay_emitted row key) by done. eexists. split; [done|]. split; [by rewrite upd_same|]. intros k Hne. by rewrite upd_other.
    + destruct (_ || _); [|done]. cbn in Hs. injection Hs as <- <-. rewrite (replay_emitted row key) by done. eexists. split; [done|]. split; [by rewrite upd_same|]. intros k Hne. by rewrite upd_other.
  - destruct (_ || _).
    + destruct pass; cbn in Hs.
      * injection Hs as <- <-. rewrite (replay_emitted row key) by done. eexists. split; [done|]. split; [rewrite upd_same; symmetry; by apply live_stored|]. intros k Hne. by rewrite upd_other.
      * destruct (touched (expire now (fresh_entry old))); [|done]. rewrite Ex in Hs. cbn in Hs. injection Hs as <- <-. by exists t.
    + destruct (_ || _); [|done]. cbn in Hs. destruct (touched (expire now (fresh_entry old))); [|done]. rewrite Ex in Hs. cbn in Hs. injection Hs as <- <-. by exists t.
Qed.
End live.

(** ** The operator *)

Section operator.
Context {St B : Type} `{KeyedStateLaws St B} `{!ReleaseTotal B}.
Context `{SchemaLaws} `{!ArrowLaws} `{!RowConverters} `{!ConverterLaws} `{!RowParsers}.
Context (key_capacity : bytes -> Z).
Implicit Types (p : ChangelogNormalizeProcessor (St := St)) (b : B).

(** What a batch must satisfy: its keys and its stored rows fit their formats. *)
Record batch_fits p b (batch : Batch) : Prop := {
  bf_keys p1 b1 : n_prepare_schema batch (p, b) = (Ok tt, (p1, b1)) -> n_keys_ok key_capacity p1 batch;
  bf_rows encoded : encode_rows p batch = Ok encoded -> Forall (fun r => len r <= U32_MAX) encoded;
}.
(** The scratch memory is one of the owners the broker knows, next to [o] others. *)
Record settled (o : Z) p b : Prop := {
  st_inv : normal_inv (o + rsize (n_scratch p)) p b;
  st_others : 0 <= o;
  st_scratch : is_usize (rsize (n_scratch p));
}.
(** Only the state, the scratch memory and the counters differ. *)
Definition run_of p p' : Prop := exists r s rd w x, p' = set_n_scratch r (with_state_counters s rd w x p).
Lemma run_of_refl p : run_of p p.
Proof. exists (n_scratch p), (n_state p), (state_read_batches p), (state_write_batches p), (expired_state_entries p). by destruct p. Qed.
Lemma run_of_scratch p p' r : run_of p p' -> run_of p (set_n_scratch r p').
Proof. intros (r' & s & rd & w & x & ->). by exists r, s, rd, w, x. Qed.
Lemma run_of_counters p s rd w x : run_of p (with_state_counters s rd w x p).
Proof. by exists (n_scratch p), s, rd, w, x. Qed.
Lemma run_normalized p p' batch now f : run_of p p' -> normalized key_capacity p' batch now f = normalized key_capacity p batch now f.
Proof. by intros (r & s & rd & w & x & ->). Qed.
Lemma run_facts p p' : run_of p p' -> n_plan p' = n_plan p /\ n_input_schema p' = n_input_schema p /\ n_keys key_capacity p' = n_keys key_capacity p /\ delivered p' = delivered p.
Proof. by intros (r & s & rd & w & x & ->). Qed.

(** A call on the scratch memory keeps the accounts. *)
Lemma scratch_call o p b (m : M (resv * B) unit) : settled o p b ->
  (let '(out, (r', b')) := m (n_scratch p, b) in balanced (n_scratch p) b out r' b') ->
  exists out r' b', zoom n_scratch set_n_scratch m (p, b) = (out, (set_n_scratch r' p, b')) /\ m (n_scratch p, b) = (out, (r', b')) /\ out <> Panic /\ settled o (set_n_scratch r' p) b'.
Proof.
  intros [[H1' H2' H3' H4'] Ho Hu]. unfold zoom. destruct (m (n_scratch p, b)) as [out [r' b']]. intros [Ht Hu' Hnp _ _ _]. exists out, r', b'. split; [done|]. split; [done|]. split; [done|].
  split; [|done|done]. split; [done|done| |cbn; destruct (n_input_schema p); [by destruct H4'|done]]. cbn. replace (o + rsize r') with (o + rsize (n_scratch p) + (rsize r' - rsize (n_scratch p))) by lia.
  eapply ks_frame; [exact H3'|lia|]. unfold is_usize in *. lia.
Qed.
Lemma settled_le o p b : settled o p b -> 0 <= rsize (n_scratch p) <= reserved b.
Proof. intros [Hi Ho Hu]. pose proof (ks_others _ _ _ (ni_state _ _ _ Hi)). unfold is_usize in *. lia. Qed.
Lemma scratch_resize o p b n : settled o p b -> is_usize n ->
  exists out r' b', zoom n_scratch set_n_scratch (resize n) (p, b) = (out, (set_n_scratch r' p, b')) /\ out <> Panic /\ settled o (set_n_scratch r' p) b' /\ (out = Ok tt -> rsize r' = n) /\ (n = 0 -> out = Ok tt).
Proof.
  intros Hs Hn. pose proof (settled_le _ _ _ Hs) as Hle. pose proof (st_scratch _ _ _ Hs) as Hu. pose proof (resize_balanced n (n_scratch p) b Hn Hu (proj2 Hle)) as Hr.
  destruct (scratch_call o p b (resize n) Hs) as (out & r' & b' & E & Em & Hnp & Hs'); [destruct (resize n (n_scratch p, b)) as [? []]; apply Hr|].
  rewrite Em in Hr. exists out, r', b'. split; [done|]. split; [done|]. split; [done|]. split; [apply Hr|]. intros ->.
  pose proof (resize_shrink 0 (n_scratch p) b ltac:(lia) (proj2 Hle)) as Hok. by rewrite Em in Hok.
Qed.
Lemma scratch_transfer o p b n : settled o p b -> is_usize n ->
  exists out r' b', zoom n_scratch set_n_scratch (transfer_to_arrow n) (p, b) = (out, (set_n_scratch r' p, b')) /\ out <> Panic /\ settled o (set_n_scratch r' p) b'.
Proof.
  intros Hs Hn. pose proof (settled_le _ _ _ Hs) as Hle. pose proof (st_scratch _ _ _ Hs) as Hu. pose proof (transfer_balanced n (n_scratch p) b Hn Hu (proj2 Hle)) as Hr.
  destruct (scratch_call o p b (transfer_to_arrow n) Hs Hr) as (out & r' & b' & E & _ & Hnp & Hs'). by exists out, r', b'.
Qed.
Lemma memory_size_usize arrays : is_usize (memory_size arrays).
Proof. unfold memory_size. pose proof (wrapu_range 64 (zsum get_array_memory_size arrays) ltac:(lia)). unfold is_usize. unfold_bounds. lia. Qed.
Lemma finish_output_spec o p b (output : Batch) base : settled o p b -> is_usize base ->
  exists res r' b', finish_output output base (p, b) = (res, (set_n_scratch r' p, b')) /\ settled o (set_n_scratch r' p) b' /\ ((res = Ok output /\ rsize r' = 0) \/ exists e, res = Err e).
Proof.
  intros Hs Hb. unfold finish_output. pose proof (memory_size_usize (columns output)) as Hm. set (n := memory_size (columns output)) in *.
  destruct (scratch_resize o p b (Z.max n base) Hs ltac:(unfold is_usize in *; lia)) as ([[]|e|] & r1 & b1 & E1 & Hp1 & Hs1 & _); [| |done].
  2:{ exists (Err e), r1, b1. rewrite (M_bind_err _ _ _ e (set_n_scratch r1 p, b1)) by exact E1. split; [done|]. split; [done|]. right. by exists e. }
  rewrite (M_bind_run _ _ _ tt (set_n_scratch r1 p, b1)) by exact E1.
  destruct (scratch_transfer o _ b1 n Hs1 Hm) as ([[]|e|] & r2 & b2 & E2 & Hp2 & Hs2); [| |done]; change (set_n_scratch r2 (set_n_scratch r1 p)) with (set_n_scratch r2 p) in *.
  2:{ exists (Err e), r2, b2. rewrite (M_bind_err _ _ _ e (set_n_scratch r2 p, b2)) by exact E2. split; [done|]. split; [done|]. right. by exists e. }
  rewrite (M_bind_run _ _ _ tt (set_n_scratch r2 p, b2)) by exact E2.
  destruct (scratch_resize o _ b2 0 Hs2 ltac:(unfold is_usize; unfold_bounds; lia)) as (out & r3 & b3 & E3 & _ & Hs3 & Hz & Hok). rewrite Hok in E3, Hz by done. change (set_n_scratch r3 (set_n_scratch r2 p)) with (set_n_scratch r3 p) in *.
  rewrite (M_bind_run _ _ _ tt (set_n_scratch r3 p, b3)) by exact E3. exists (Ok output), r3, b3. split; [done|]. split; [done|]. left. split; [done|by apply Hz].
Qed.
(** The processing of a batch: nothing happened, or its rows are in the state. *)
Definition processed p p1 p' (batch : Batch) (now : Z) (out : outcome Batch) : Prop :=
  let spec := normalized key_capacity p1 batch now (held (n_state p)) in
  match out with
  | Ok _ => written p1 p' batch spec out /\ rsize (n_scratch p') = 0
  | Err _ => (forall key, held (n_state p') key = held (n_state p) key) \/ exists built, written p1 p' batch spec built
  | Panic => spec = Panic \/ written p1 p' batch spec Panic
  end.
Lemma done_settled o p p1 b b' p' batch spec out : settled o p1 b -> n_done (o + rsize (n_scratch p1)) p1 batch spec (out, (p', b')) -> n_state p = n_state p1 -> out <> Panic -> settled o p' b' /\ run_of p1 p'.
Proof.
  intros [Hi Ho Hu] [_ Hd] Est Hnp. destruct (Hd Hnp) as [(rd & w & x & Ep) Hs]. rewrite Ep. split; [|apply run_of_counters]. split; [|done|done]. cbn. by eapply counters_inv.
Qed.
Lemma finish_result_spec o p p1 b batch now base (m : M (ChangelogNormalizeProcessor (St := St) * B) Batch) : settled o p1 b -> is_usize base -> n_state p = n_state p1 ->
  n_done (o + rsize (n_scratch p1)) p1 batch (normalized key_capacity p1 batch now (held (n_state p))) (m (p1, b)) ->
  let '(out, (p', b')) := finish_result m base (p1, b) in processed p p1 p' batch now out /\ (out <> Panic -> settled o p' b' /\ run_of p1 p').
Proof.
  intros Hs Hb Est Hd. unfold finish_result. destruct (m (p1, b)) as [[output|e|] [p2 b2]]; [| |split; [apply Hd|done]].
  - destruct (done_settled o p p1 b b2 p2 batch _ _ Hs Hd Est ltac:(done)) as [Hs2 Hr2]. destruct (finish_output_spec o p2 b2 output base Hs2 Hb) as (res & r' & b' & -> & Hs' & Hres). destruct Hd as [Hw _].
    split; [|intros _; split; [done|by apply run_of_scratch]]. destruct Hres as [[-> Hz]|[e ->]]; [split; [exact Hw|done]|]. right. exists (Ok output). exact Hw.
  - destruct (done_settled o p p1 b b2 p2 batch _ _ Hs Hd Est ltac:(done)) as [Hs2 Hr2].
    destruct (scratch_resize o _ b2 0 Hs2 ltac:(unfold is_usize; unfold_bounds; lia)) as (out & r3 & b3 & E3 & _ & Hs3 & _ & Hok). rewrite Hok in E3 by done.
    rewrite (M_bind_run _ _ _ tt (set_n_scratch r3 p2, b3)) by exact E3. cbn [throw]. destruct Hd as [Hw _]. split; [|intros _; split; [done|by apply run_of_scratch]]. cbn.
    destruct Hw as [Hh|Hw]; [left; intros key; rewrite Est; apply Hh|right; by exists (Err e)].
Qed.
Lemma arrow_done o p b batch now : settled o p b -> batch_fits p b batch ->
  let '(out, (p', b')) := process_arrow key_capacity batch now (p, b) in
  (exists e, out = Err e /\ n_state p' = n_state p /\ settled o p' b' /\ n_plan p' = n_plan p) \/
  (exists p1, schema_of p p1 /\ normal_inv (o + rsize (n_scratch p)) p1 b /\ n_input_schema p1 = Some (batch_schema batch) /\ n_keys_ok key_capacity p1 batch /\
    processed p p1 p' batch now out /\ (out <> Panic -> settled o p' b' /\ run_of p1 p')).
Proof.
  intros [Hi Ho Hu] [Hk Hr]. pose proof (n_prepare_spec _ p b batch Hi) as Hp. unfold process_arrow. destruct (n_prepare_schema batch (p, b)) as [[[]|e|] [p1 b1]] eqn:Ep; [| |done].
  2:{ destruct Hp as (-> & Hi1 & Hs). rewrite (M_bind_err _ _ _ e (p1, b)) by exact Ep. left. exists e. destruct Hs as (? & ? & ? & ? & ? & ->). done. }
  destruct Hp as (-> & Hi1 & Hs & Hsch). specialize (Hk p1 b eq_refl). rewrite (M_bind_run _ _ _ tt (p1, b)) by exact Ep. rewrite (M_bind_run _ _ _ p1 (p1, b)) by done.
  assert (encode_rows p1 batch = encode_rows p batch /\ n_state p = n_state p1 /\ n_scratch p1 = n_scratch p /\ n_plan p1 = n_plan p) as (Ee & Est & Esc & Epl) by (by destruct Hs as (? & ? & ? & ? & ? & ->)).
  assert (settled o p1 b) as Hs1 by (split; [by rewrite Esc|done|by rewrite Esc]).
  pose proof (encode_rows_spec _ p1 b batch Hi1 Hsch) as Hen. unfold encode_rows in Hen, Ee at 1. destruct (len (visible_schema p1) <=? num_columns batch) eqn:Ev; [|done].
  rewrite (lift_run _ _ _ (take (Z.to_nat (len (visible_schema p1))) (columns batch))) by done. set (visible := take _ _) in *. set (base := sat_add _ _).
  assert (is_usize base) as Hb. { unfold base. pose proof (memory_size_usize visible) as Hm. pose proof (num_rows_law batch). unfold sat_add, sat_mul, is_usize in *. unfold_bounds. lia. }
  destruct (scratch_resize o p1 b base Hs1 Hb) as (out & r2 & b2 & E2 & Hnp & Hs2 & Hsz & _). destruct out as [[]|e|]; [| |done].
  2:{ rewrite (M_bind_err _ _ _ e (set_n_scratch r2 p1, b2)) by exact E2. left. exists e. done. }
  rewrite (M_bind_run _ _ _ tt (set_n_scratch r2 p1, b2)) by exact E2. set (p2 := set_n_scratch r2 p1) in *.
  assert (run_of p1 p2) as Hr12 by apply run_of_scratch, run_of_refl.
  pose proof (finish_result_spec o p p2 b2 batch now base (encoded ← lift (convert_columns (n_converter p1) visible); process_accounted key_capacity batch encoded now) Hs2 Hb Est) as Hf.
  destruct (finish_result _ base (p2, b2)) as [out [p' b']]. right. exists p1. split; [done|]. split; [done|]. split; [done|]. split; [done|]. apply Hf. clear Hf.
  destruct (convert_columns (n_converter p1) visible) as [encoded|e|] eqn:Ec; [| |done].
  - rewrite (lift_run _ _ _ encoded) by done. rewrite Est.
    assert (n_keys_ok key_capacity p2 batch) as Hk2 by (destruct Hk as [Hk1 Hk2]; split; [exact Hk1|exact Hk2]).
    assert (encode_rows p2 batch = Ok encoded) as Henc by (unfold encode_rows; cbn [visible_schema n_converter p2 set_n_scratch]; by rewrite Ev).
    exact (process_done key_capacity (o + rsize (n_scratch p2)) p2 b2 batch encoded now (st_inv _ _ _ Hs2) Hsch Hk2 Henc (Hr encoded (eq_sym Ee))).
  - eapply n_failed; [|apply (ni_state _ _ _ (st_inv _ _ _ Hs2))]. by destruct p.
Qed.
(** A new processor is settled. *)
Lemma n_with_state_settled plan max_parallelism s scratch o b : 0 <= max_parallelism <= 32768 -> n_schema plan <> Some [] -> ks_inv (o + rsize scratch) s b -> 0 <= o -> is_usize (rsize scratch) ->
  match n_with_state plan max_parallelism s scratch with Ok p => settled o p b | Err _ => True | Panic => False end.
Proof.
  intros Hm Hne Hi Ho Hu. unfold n_with_state, n_validate_plan.
  destruct (guard_cases (negb ((max_parallelism =? 0) || bool_decide (n_key_indices plan = []) || bool_decide (n_schema plan = None))) (Plan "changelog normalize key/schema contract is invalid")) as [[-> Hg] | ->]; [|done].
  cbn [mbind outcome_bind]. apply negb_true_iff, orb_false_iff in Hg as [[Hg%Z.eqb_neq _]%orb_false_iff Hg2%bool_decide_eq_false]. destruct (n_schema plan) as [visible|]; [|done]. cbn [ok_or expect mbind outcome_bind].
  pose proof (converter_law (map field_type visible)) as Hc. destruct (converter_new (map field_type visible)) as [c|e|]; [|done|done]. cbn [mbind outcome_bind].
  split; [|done|done]. split; [cbn; lia|cbn; congruence|done|done].
Qed.
End operator.

(** C39: Normalising a batch is normalising its rows one after another. For any keyed
    state that keeps its laws, when the batch succeeds the output batch is built from
    what the rows produce in order, each from the value the rows before it left for
    its key, the state holds exactly what the last of them left, although the code
    decodes every key once and writes only the touched ones, and no scratch memory
    stays reserved. When it fails, the state is as it was or as the rows leave it
    (their output could not be built or paid for), with exact accounts either way. It
    panics only where comparing rows by value or building the output does. *)
Theorem normalize_batch_sequential {St B} `{KeyedStateLaws St B} `{!ReleaseTotal B} `{SchemaLaws} `{!ArrowLaws} `{!RowConverters} `{!ConverterLaws} `{!RowParsers}
    (key_capacity : bytes -> Z) (o : Z) (p : ChangelogNormalizeProcessor (St := St)) (b : B) (batch : Batch) (now : Z) :
  settled o p b -> batch_fits key_capacity p b batch ->
  match process_arrow key_capacity batch now (p, b) with
  | (Ok output, (p', b')) => exists rows f', normalized key_capacity p' batch now (held (n_state p)) = Ok (map output_event rows, f') /\ delivered p' batch rows = Ok output /\
      (forall key, held (n_state p') key = f' key) /\ rsize (n_scratch p') = 0 /\ settled o p' b' /\ n_plan p' = n_plan p /\ n_input_schema p' = Some (batch_schema batch)
  | (Err _, (p', b')) => ((forall key, held (n_state p') key = held (n_state p) key) \/
      exists events f', normalized key_capacity p' batch now (held (n_state p)) = Ok (events, f') /\ forall key, held (n_state p') key = f' key) /\ settled o p' b' /\ n_plan p' = n_plan p
  | (Panic, _) => requires_semantic_equalizer p = true \/ exists rows, delivered p batch rows = Panic
  end.
Proof.
  intros Hs Hf. pose proof (arrow_done key_capacity o p b batch now Hs Hf) as Hd. destruct (process_arrow key_capacity batch now (p, b)) as [out [p' b']].
  destruct Hd as [(e & -> & Est & Hs' & Hpl)|(p1 & Hsc & Hi1 & Hsch & Hk & Hpr & Hrun)]; [split; [left; by rewrite Est|done]|].
  assert (n_plan p1 = n_plan p /\ encode_rows p1 batch = encode_rows p batch /\ requires_semantic_equalizer p1 = requires_semantic_equalizer p /\ delivered p1 = delivered p) as (Epl & Ee & Eq & Edl)
    by (by destruct Hsc as (? & ? & ? & ? & ? & ->)).
  destruct out as [output|e|].
  - destruct (Hrun ltac:(done)) as [Hs' Hr]. destruct (run_facts key_capacity p1 p' Hr) as (E1 & E2 & _ & E4). destruct Hpr as [(rows & f' & Hn & Hdl & Hh) Hz].
    exists rows, f'. rewrite (run_normalized key_capacity p1 p') by done. rewrite E1, E2, E4. done.
  - destruct (Hrun ltac:(done)) as [Hs' Hr]. destruct (run_facts key_capacity p1 p' Hr) as (E1 & _). split; [|split; [done|congruence]].
    destruct Hpr as [Hh|(built & rows & f' & Hn & _ & Hh)]; [by left|right]. exists (map output_event rows), f'. by rewrite (run_normalized key_capacity p1 p').
  - destruct Hpr as [Hn|(rows & f' & _ & Hdl & _)]; [left|right; exists rows; by rewrite <- Edl]. rewrite <- Eq.
    eapply normalized_panic; [exact Hi1|done|done| |exact Hn]. rewrite Ee. apply Hf.
Qed.

(** C40: The normalised output is a changelog of the live rows. With update-before
    events, replaying the rows of the output of a batch on the rows that are stored and
    have not expired, where a retraction must name the row its key shows and any other
    change must find its key empty, succeeds and ends with the live rows of the new
    state. *)
Theorem normalize_changelog_replays {St B} `{KeyedStateLaws St B} `{!ReleaseTotal B} `{SchemaLaws} `{!ArrowLaws} `{!RowConverters} `{!ConverterLaws} `{!RowParsers}
    (key_capacity : bytes -> Z) (o : Z) (p : ChangelogNormalizeProcessor (St := St)) (b : B) (batch : Batch) (now : Z) output p' b' :
  settled o p b -> batch_fits key_capacity p b batch -> n_generate_update_before (n_plan p) = true -> now < I64_MAX -> 0 <= state_ttl_millis (n_plan p) ->
  process_arrow key_capacity batch now (p, b) = (Ok output, (p', b')) ->
  exists rows keys t', delivered p' batch rows = Ok output /\ n_keys key_capacity p' batch = Ok keys /\
    replay (fun _ => Panic) (map key_ref keys) (map output_event rows) (fun key => live_row now (held (n_state p) key)) = Some t' /\
    forall key, t' key = live_row now (held (n_state p') key).
Proof.
  intros Hs Hf Hub Hnow Httl Hrun. pose proof (arrow_done key_capacity o p b batch now Hs Hf) as Hd. rewrite Hrun in Hd. destruct Hd as [(e & E & _)|(p1 & Hsc & _ & _ & _ & [(rows & f' & Hn & Hdl & Hh) _] & Hr)]; [done|].
  destruct (Hr ltac:(done)) as [_ Hr1]. destruct (run_facts key_capacity p1 p' Hr1) as (_ & _ & E3 & E4). unfold normalized in Hn.
  assert (encode_rows p1 batch = encode_rows p batch /\ n_plan p1 = n_plan p) as [Ee Epl] by (by destruct Hsc as (? & ? & ? & ? & ? & ->)).
  destruct (encode_rows p1 batch) as [encoded| |]; [|done..]. destruct (n_kinds p1 batch) as [kinds| |]; [|done..]. destruct (n_filters p1 batch) as [filters| |]; [|done..].
  cbn [mbind outcome_bind] in Hn. destruct (n_keys key_capacity p1 batch) as [keys| |] eqn:Ek; [|done..]. cbn [mbind outcome_bind] in Hn. rewrite Epl in Hn.
  destruct (sequential_replays (fun _ => Panic) (map key_ref keys) (live_row now) _ (normalize_replays (n_plan p) now Hnow Hub Httl _ _ encoded kinds filters (rows_equal p1 batch) (bf_rows _ _ _ _ Hf _ (eq_sym Ee))) _ _ _ _ _ Hn (fun _ => eq_refl))
    as (t' & Et & Ht).
  exists rows, keys, t'. rewrite E3, E4. split; [done|]. split; [done|]. split; [exact Et|]. intros key. by rewrite Hh.
Qed.
