(* ===== verification/DeduplicateFixtures.v ===== *)
(** * Concrete deduplication and normalisation

    A row converter, a window kernel and a schema for the columns of the small
    Arrow implementation, and the theorems of the two operators applied to batches
    with several rows of one key. *)

From Stdlib Require Import ZArith Lia Strings.Byte.
From stdpp Require Import base list option numbers strings.
From S2P Require Import Prelude Bytes OrdMap MemoryPool OrderedState OrderedWrites KeyedState Restore StateFixtures KeyGroup Arrow Envelope BinaryRow Routing ArrowFixture Deduplicate DeduplicateStaging DeduplicateWinners DeduplicateBatch DeduplicateSelect DeduplicateMeaning ChangelogNormalize ChangelogNormalizeSpec.

(** ** Kernels *)

Definition column_field (a : carray) : Field :=
  {| field_name := match a with CInt _ => "id" | CStamp _ => "ts" | CKind _ => "__streamfusion_input_row_kind" | CBin _ => "payload" end; field_type := ctype a; nullable := true; field_size := 64 |}.
#[global] Instance fixture_schema : @ArrowSchema fixture_arrow := {| Envelope.batch_schema := fun b => map column_field (ccolumns b) |}.
#[global] Instance fixture_schema_laws : SchemaLaws.
Proof.
  split; intros b; cbn; [|apply Forall_map, Forall_forall; done]. induction (ccolumns b) as [|a l IH]; cbn; constructor; done.
Qed.
#[global] Instance fixture_timestamps : TimestampLaws.
Proof. split; by intros []. Qed.
Definition cell_bytes (c : ccell) : bytes := match c with CNull => [x00] | CZ z => x01 :: i64_le (wraps 64 z) | CB v => x02 :: v end.
Definition row_bytes (cols : list carray) (i : nat) : bytes := concat (map (fun a => cell_bytes (ccell_at a (Z.of_nat i))) cols).
#[global] Instance fixture_converters : @RowConverters fixture_arrow := {|
  RowConverter := list DataType;
  converter_new := Ok;
  convert_columns := fun _ cols =>
    let rows := map (row_bytes cols) (seq 0 (match cols with [] => O | a :: _ => clen a end)) in
    if forallb (fun r => len r + 8 <=? I64_MAX) rows then Ok rows else Err (InvalidArgument "row is too long");
|}.
#[global] Instance fixture_converter_laws : ConverterLaws.
Proof.
  split; [done|]. intros c cols n Hne Hc. cbn. destruct (forallb _ _) eqn:E; [|done]. split.
  - destruct cols as [|a cols]; [done|]. apply Forall_cons in Hc as [Ha _]. unfold len. rewrite length_map, length_seq. exact Ha.
  - apply List.Forall_forall. intros r Hr. rewrite forallb_forall in E. specialize (E r Hr). lia.
Qed.
(** Rows of fixed-width cells back to columns of their types. *)
Fixpoint parse_cells (n : nat) (bs : bytes) : list (option Z) :=
  match n, bs with
  | O, _ => []
  | S n, x01 :: bs => Some (i64_of_le (take 8 bs)) :: parse_cells n (drop 8 bs)
  | S n, bs => None :: parse_cells n (drop 1 bs)
  end.
Definition column_of (t : DataType) (cells : list (option Z)) : carray :=
  match t with DInt8 => CKind cells | DInt32 => CInt cells | DTimestamp _ => CStamp cells | _ => CBin (map (fun _ => None) cells) end.
#[global] Instance fixture_parsers : @RowParsers fixture_arrow fixture_converters := {|
  convert_rows := fun types rows =>
    Ok (imap (fun i t => column_of t (map (fun r => mjoin (parse_cells (length types) r !! i)) rows)) types);
  batch_try_new := fun fields cols =>
    if bool_decide (map field_type fields = map ctype cols) then Ok {| crows := match cols with [] => O | a :: _ => clen a end; craw := cols |}
    else Err (InvalidArgument "column types must match schema types");
  field_new := fun name t null => {| field_name := name; field_type := t; nullable := null; field_size := 64 |};
  batch_new_empty := fun fields => {| crows := 0; craw := map (fun f => column_of (field_type f) []) fields |};
  int8_array := fun vals => CKind (map Some vals);
  int32_array := fun vals => CInt (map Some vals);
  get_array_memory_size := fun a => 16 + 8 * Z.of_nat (clen a);
|}.
#[global] Instance fixture_window : WindowKernels := {| running_extremum := fun last xs => Ok (running last None xs) |}.
#[global] Instance fixture_window_laws : WindowLaws.
Proof. by split. Qed.

(** ** A processor and a batch *)

Definition no_rows : OrderedMemoryKeyedState := {| first := 0; groups := [[]; []]; obytes := 48; reservation := Resv 0 "state" 48 |}.
Definition dedup_budget : budget := Budget 148 1000000.
Definition latest_plan : Deduplicate :=
  {| key_indices := [0]; order_index := 1; keep_last := true; generate_insert := true; input_changelog := false; generate_update_before := true; processing_time := false |}.
Definition fresh_processor (plan : Deduplicate) : DeduplicateProcessor (St := OrderedMemoryKeyedState) :=
  {| Deduplicate.plan := plan; max_parallelism := 2; state := no_rows; scratch_reservation := Resv 0 "scratch" 0; input_schema := None; key_fields := [];
     preencoded_key_index := None; stored_row_index := None; input_kind_index := None; visible_count := None; row_converter := None;
     control_reservation := Resv 0 "control" 0; schema_reservation := None |}.
Definition arrivals : @Batch fixture_arrow := {| crows := 4; craw := [CInt [Some 7; Some 7; Some 8; Some 7]; CStamp [Some 1000; Some 3000; Some 500; Some 2000]] |}.
Lemma latest_inv : dedup_inv 100 (fresh_processor latest_plan) dedup_budget.
Proof.
  split; [by split|lia|done| |done]. cbn. split; [split; [vm_dec|repeat constructor|vm_dec]|vm_dec|vm_dec].
Qed.
Lemma latest_keys facts r : analyse_schema latest_plan (Envelope.batch_schema arrivals) (num_columns (H := fixture_arrow) arrivals) = Ok facts ->
  keys_ok len (install_schema (Envelope.batch_schema arrivals) facts r (fresh_processor latest_plan)) arrivals.
Proof.
  intros Ha. assert (match analyse_schema latest_plan (Envelope.batch_schema arrivals) (num_columns (H := fixture_arrow) arrivals) with
    Ok f => (sf_preencoded f, sf_keys f) = (None, [(0, Integer)]) | _ => False end) as Hf by (vm_compute; reflexivity).
  rewrite Ha in Hf. injection Hf as Hpre Hks. split; [cbn; rewrite Hpre; done|]. intros keys. unfold state_keys, state_key. cbn [preencoded_key_index key_fields install_schema max_parallelism].
  rewrite Hpre, Hks. intros Hk. vm_compute in Hk. injection Hk as <-. repeat apply Forall_cons_2; [vm_dec..|constructor].
Qed.

Abbreviation latest_run := (select len arrivals (fresh_processor latest_plan, dedup_budget)).
(** Row 1 replaces row 0 and row 3 comes too late; key 8 is inserted. *)
Example latest_selected :
  match latest_run with
  | (Ok sel, _) => content_ordinals sel = [0; -1; 1; 2] /\ row_kinds sel = [INSERT; UPDATE_BEFORE; UPDATE_AFTER; INSERT]
  | _ => False
  end.
Proof. vm_compute. done. Qed.
Lemma deduplicate_batch_sequential_witness :
  match latest_run with
  | (Ok sel, (p', b')) => exists events f', row_by_row len p' arrivals (held no_rows) = Ok (events, f') /\ shows sel events /\
      (forall key, held (state p') key = f' key) /\ input_schema p' = Some (Envelope.batch_schema arrivals)
  | _ => False
  end.
Proof.
  pose proof (deduplicate_batch_sequential len 100 (fresh_processor latest_plan) dedup_budget arrivals latest_inv eq_refl latest_keys) as H.
  assert (match latest_run with (Ok _, _) => true | _ => false end = true) as E by (vm_compute; reflexivity).
  destruct latest_run as [[sel|e|] [p' b']]; [|discriminate E|discriminate E].
  destruct H as (events & f' & memory & Hr & Hs & Hh & _ & _ & _ & Hi). exists events, f'. split; [exact Hr|]. split; [exact Hs|]. split; [exact Hh|exact Hi].
Defined.
Lemma rowtime_keeps_winner_witness :
  match latest_run with
  | (Ok sel, (p', b')) => exists keys orders sidecar encoded, state_keys len p' arrivals = Ok keys /\ rowtime_columns p' arrivals orders sidecar encoded /\
      forall key, (rows_of key (map key_ref keys) (length keys) = [] /\ held (state p') key = held no_rows key) \/
        exists before, order_held (held no_rows) key = Ok before /\
          keeps latest_plan (held no_rows) orders sidecar encoded key (rows_of key (map key_ref keys) (length keys)) before (held (state p') key)
  | _ => False
  end.
Proof.
  assert (match latest_run with (Ok _, _) => true | _ => false end = true) as E by (vm_compute; reflexivity).
  destruct latest_run as [[sel|e|] [p' b']] eqn:Es; [|discriminate E|discriminate E].
  destruct (rowtime_keeps_winner len 100 (fresh_processor latest_plan) dedup_budget arrivals sel p' b' latest_inv eq_refl eq_refl latest_keys Es)
    as (keys & orders & sidecar & encoded & H1 & H2 & H3).
  exists keys, orders, sidecar, encoded. split; [exact H1|]. split; [exact H2|exact H3].
Defined.
Lemma deduplicate_changelog_replays_witness :
  match latest_run with
  | (Ok sel, (p', b')) => exists keys content events t', state_keys len p' arrivals = Ok keys /\ row_content p' arrivals = Ok content /\ shows sel events /\
      replay content (map key_ref keys) events (table latest_plan (held no_rows)) = Some t' /\ forall key, t' key = table latest_plan (held (state p')) key
  | _ => False
  end.
Proof.
  assert (match latest_run with (Ok _, _) => true | _ => false end = true) as E by (vm_compute; reflexivity).
  destruct latest_run as [[sel|e|] [p' b']] eqn:Es; [|discriminate E|discriminate E].
  destruct (deduplicate_changelog_replays len 100 (fresh_processor latest_plan) dedup_budget arrivals sel p' b' latest_inv eq_refl latest_keys Es)
    as (keys & content & events & t' & H1 & H2 & H3 & H4 & H5).
  exists keys, content, events, t'. split; [exact H1|]. split; [exact H2|]. split; [exact H3|]. split; [exact H4|exact H5].
Defined.

(** ** Upserts with a time to live *)

Definition upsert_columns : list Field := [column_field (CInt []); column_field (CStamp [])].
Definition upsert_plan : ChangelogNormalize :=
  {| n_key_indices := [0]; n_generate_update_before := true; n_schema := Some upsert_columns; state_ttl_millis := 60000; has_filter := false |}.
Definition upsert_processor : ChangelogNormalizeProcessor (St := OrderedMemoryKeyedState) :=
  {| n_plan := upsert_plan; n_max_parallelism := 2; n_state := no_rows; visible_schema := upsert_columns; n_output_schema := with_row_columns upsert_columns; n_converter := map field_type upsert_columns;
     requires_semantic_equalizer := false; n_input_schema := None; n_key_fields := []; n_preencoded_index := None; n_kind_index := None; filter_result_index := None;
     n_scratch := Resv 0 "scratch" 0; state_read_batches := 0; state_write_batches := 0; expired_state_entries := 0 |}.
Example upsert_processor_new : n_with_state upsert_plan 2 no_rows (Resv 0 "scratch" 0) = Ok upsert_processor.
Proof. reflexivity. Qed.
Definition upserts : @Batch fixture_arrow :=
  {| crows := 5; craw := [CInt [Some 7; Some 8; Some 7; Some 8; Some 9]; CStamp [Some 100; Some 200; Some 300; Some 200; Some 1];
                          CKind [Some INSERT; Some INSERT; Some UPDATE_AFTER; Some DELETE; Some UPDATE_BEFORE]] |}.
Abbreviation upsert_run := (process_arrow len upserts 5000 (upsert_processor, dedup_budget)).
(** Key 7 is inserted and updated, key 8 inserted and deleted; key 9 holds nothing to delete. *)
Example upserts_normalized :
  match upsert_run with
  | (Ok output, _) => craw output = [CInt [Some 7; Some 8; Some 7; Some 7; Some 8]; CStamp [Some 100; Some 200; Some 100; Some 300; Some 200];
      CKind [Some INSERT; Some INSERT; Some UPDATE_BEFORE; Some UPDATE_AFTER; Some DELETE]; CInt [Some 0; Some 1; Some 2; Some 2; Some 3]]
  | _ => False
  end.
Proof. vm_compute. done. Qed.
Lemma upsert_settled : settled 100 upsert_processor dedup_budget.
Proof.
  assert (ks_inv (100 + 0) no_rows dedup_budget) as Hi by (cbn; split; [split; [vm_dec|repeat constructor|vm_dec]|vm_dec|vm_dec]).
  assert (is_usize 0) as Hz by vm_dec.
  pose proof (n_with_state_settled upsert_plan 2 no_rows (Resv 0 "scratch" 0) 100 dedup_budget ltac:(lia) ltac:(discriminate) Hi ltac:(lia) Hz) as H. by rewrite upsert_processor_new in H.
Qed.
Lemma upsert_fits : batch_fits len upsert_processor dedup_budget upserts.
Proof.
  split.
  - intros p1 b1 Hp. assert (match n_prepare_schema upserts (upsert_processor, dedup_budget) with (_, (p, _)) => (n_preencoded_index p, n_key_fields p, n_max_parallelism p) = (None, [(0, Integer)], 2) end) as Hf by (vm_compute; reflexivity).
    rewrite Hp in Hf. injection Hf as Hpre Hks Hmp. split; [by rewrite Hpre|]. intros keys. unfold n_keys, n_row_key, n_state_key. rewrite Hpre, Hks, Hmp. intros Hk. vm_compute in Hk. injection Hk as <-. repeat apply Forall_cons_2; [vm_dec..|constructor].
  - intros encoded He. vm_compute in He. injection He as <-. repeat apply Forall_cons_2; [vm_dec..|constructor].
Qed.
Lemma normalize_batch_sequential_witness :
  match upsert_run with
  | (Ok output, (p', b')) => exists rows f', normalized len p' upserts 5000 (held no_rows) = Ok (map output_event rows, f') /\ delivered p' upserts rows = Ok output /\
      (forall key, held (n_state p') key = f' key) /\ rsize (n_scratch p') = 0 /\ settled 100 p' b'
  | _ => False
  end.
Proof.
  pose proof (normalize_batch_sequential len 100 upsert_processor dedup_budget upserts 5000 upsert_settled upsert_fits) as H.
  assert (match upsert_run with (Ok _, _) => true | _ => false end = true) as E by (vm_compute; reflexivity).
  destruct upsert_run as [[output|e|] [p' b']]; [|discriminate E|discriminate E].
  destruct H as (rows & f' & Hn & Hd & Hh & Hz & Hs & _). exists rows, f'. split; [exact Hn|]. split; [exact Hd|]. split; [exact Hh|]. split; [exact Hz|exact Hs].
Defined.
Lemma normalize_changelog_replays_witness :
  match upsert_run with
  | (Ok output, (p', b')) => exists rows keys t', delivered p' upserts rows = Ok output /\ n_keys len p' upserts = Ok keys /\
      replay (fun _ => Panic) (map key_ref keys) (map output_event rows) (fun key => live_row 5000 (held no_rows key)) = Some t' /\ forall key, t' key = live_row 5000 (held (n_state p') key)
  | _ => False
  end.
Proof.
  assert (match upsert_run with (Ok _, _) => true | _ => false end = true) as E by (vm_compute; reflexivity).
  destruct upsert_run as [[output|e|] [p' b']] eqn:Es; [|discriminate E|discriminate E].
  assert (5000 < I64_MAX) as Hnow by (vm_compute; reflexivity). assert (0 <= state_ttl_millis (n_plan upsert_processor)) as Httl by (vm_compute; discriminate).
  exact (normalize_changelog_replays len 100 upsert_processor dedup_budget upserts 5000 output p' b' upsert_settled upsert_fits eq_refl Hnow Httl Es).
Defined.
